(* ===== verification/_CoqProject ===== *)
-Q . S2P
Db8.v
Prelude.v
Containers.v
QuickSort.v
CoreUtil.v
DataSerialization.v
Number.v
Object.v
ObjectBuilder.v
ObjectFilter.v
ObjectFilterSpec.v
ObjectFilterTree.v
TokenSet.v
ObjectSerialization.v
Text.v
DbKey.v
Json.v
JsonRoundTrip.v
DbQuery.v
DbQueryRoundTrip.v
QueryPlan.v
QueryPlanSpec.v
QueryPlanSelect.v
OrderedMap.v
LevelDb.v
LevelDbSpec.v
LevelDbTxn.v
LevelDbCursor.v
ObjectItem.v
ObjectItemSpec.v
QueryFilter.v
Effects.v
Req.v
IsamQuery.v
IsamQuerySpec.v
LevelDbQuery.v
QueryPaging.v
StorageTxn.v
LevelStore.v
Sequence.v
Watcher.v
Extractor.v
ExtractorSpec.v
AggregateFilter.v
AggregateSpec.v
Cursor.v
CursorSpec.v
SearchCursor.v
SearchSpec.v
SearchPages.v
SearchExample.v
Index.v
IndexSpec.v
IndexFind.v
LevelIndex.v
Storage.v
IndexExample.v
IndexWatch.v
KindGraph.v
KindGraphSpec.v
Schema.v
SchemaSpec.v
Permission.v
PermissionSpec.v
Quota.v
QuotaSpec.v
Kind.v
KindSpec.v
KindEngine.v
Merge.v
Db.v
DbSpec.v
DbPutSpec.v
DbExample.v
ShardInfo.v
ShardEngine.v
ShardSpec.v
ShardRemove.v
MediaHandler.v
ShardExample.v
