(* ===== verification/Db8.v ===== *)
(** * db8: a verified model of the webOS database service

    db8 stores JSON objects by kind in an ordered key-value store and answers
    queries with indexes.  This library is a shallow embedding of its logic in C++
    under [src/]: data as the code has it, each operation an executable definition,
    an error as a value of [MojErr], and the theorems that say what each part
    promises to the parts above it.  File names below are short for
    [src/src/core], [src/src/db], [src/src/engine/leveldb] and the headers beside
    them.

    ** The parts, from below

    - _Objects and text_ ([Prelude], [Containers], [CoreUtil], [Number], [Object],
      [ObjectBuilder]): MojVector, MojMap and MojSet as the sorted sequences they
      show; MojObject as the tagged union of its implementations; the visitor
      ([MojObjectVisitor]), a class, through which objects are written, parsed and
      rebuilt.  The lemmas [object_map], [equals_spec], [builder_visit] and
      [base64_roundtrip] and the round trip of decimals are what the rest uses.
    - _Encodings_ ([DataSerialization], [TokenSet], [ObjectSerialization], [Json],
      [JsonRoundTrip]): the binary format of MojObjectSerialization.cpp, whose bytes
      are also the index keys, so that its order matters ([bytes_order]) as much as
      its round trips ([bytes_roundtrip], [token_roundtrip]); the parser and writer of
      MojJson.cpp ([json_roundtrip], [parser_total]); schemas ([Schema],
      [SchemaSpec]: [validate] decides a declarative meaning, [schema_exact]).
    - _Keys and queries_ ([Text], [DbKey], [DbQuery], [DbQueryRoundTrip],
      [QueryPlan], [QueryPlanSpec], [QueryPlanSelect]): MojDbKey.cpp and its ranges
      and builder, MojDbQuery.cpp, and MojDbQueryPlan.cpp, which turns the clauses
      of a query into ranges of index keys.  [plan_exact] says that the ranges hold
      the keys of the answers and no other key.
    - _The storage engine_ ([OrderedMap], [LevelDb], [LevelDbSpec], [LevelDbTxn],
      [LevelDbCursor], [StorageTxn], [LevelStore]): the transactions of the LevelDB
      engine keep their writes beside the database.  The abstract specification is
      one ordered map; [txn_refines], [txn_safe] and [iterator_refines] say that a
      transaction and its iterators behave as that map does, [delPrefix_exact] and the
      lemma [statsPrefix_exact] what cursors do.  [StorageTxn] has signals, quotas and the
      order of a commit; [LevelStore] the databases and indexes over a transaction.
    - _Records_ ([ObjectItem], [ObjectItemSpec]): ids, headers and stored records
      ([record_roundtrip]; the lemma [shard_of_id] for the shard in an id).
    - _Running queries_ ([Effects], [IsamQuery], [IsamQuerySpec], [LevelDbQuery],
      [QueryPaging]): MojDbIsamQuery.cpp walks over the ranges of a plan.  It is
      proved against an interface, [IsamEngine], which the LevelDB engine implements
      ([query_exact], [pages_continue]; the lemma [count_exact]).
    - _Indexes and watches_ ([Watcher], [Extractor], [ExtractorSpec], [Index],
      [IndexSpec], [IndexFind], [LevelIndex], [IndexExample], [IndexWatch]):
      MojDbExtractor.cpp takes the values of an object's properties, MojDbIndex.cpp
      keeps their keys.  The engine's index is the class [ExtIndex] with its laws;
      [LevelIndex] discharges them.  [index_maintained] is the invariant that an index
      holds the keys of the stored objects, [find_exact] that a query through it finds
      the objects that satisfy its clauses, [watch_told] what a commit tells a watch.
    - _Kinds_ ([KindGraph], [KindGraphSpec], [Kind], [KindSpec], [KindEngine]; revision
      sets are in [Extractor], the ids of a kind in [Storage]): the links between kinds of MojDbKind.cpp, known by
      address, and the walks over them ([relink_ok], [updateIndexes_once]); what a kind
      does to an object that is put - permission, quota, schema, revision sets, the
      indexes of the kind and of its ancestors - with the lemma [update_holds_kinds]:
      every index holds the keys of the objects of its kind; MojDbKindEngine.cpp finds
      kinds and passes an object whose kind changes from one to the other.
    - _Who may write how much_ ([Permission], [PermissionSpec], [Quota],
      [QuotaSpec]): [check_exact] and [put_refused] for permissions;
      [quota_accounted_always] for quotas: what a quota shows is the sum of what is
      recorded for its kinds, whatever transactions commit.
    - _The database object_ ([Req], [Storage], [Merge], [Db], [DbSpec], [DbPutSpec],
      [DbExample]): requests and their transactions ([nested_one_txn]); the databases
      and sequences of an engine as classes that the LevelDB engine implements
      ([StorageDatabase], [StorageSeq], [EngineLaws]); the put, delete and get of
      MojDb.cpp.  The invariant [db_ok] says that the object database has one record
      of each object, readable with the names its kind has now, and that every index
      holds the keys of the objects of its kind; [put_keeps_database] and
      [delete_keeps_database] keep it, [no_lost_update] is what the revisions are for,
      [merge_exact] how an object put with merge is combined with the stored one.

    - _Cursors_ ([ObjectFilter], [ObjectFilterSpec], [ObjectFilterTree], [QuickSort],
      [QueryFilter], [AggregateFilter], [AggregateSpec], [Cursor], [CursorSpec]): what
      a query shows.  MojObjectFilter.cpp passes on the selected properties of an
      object ([filter_projects]); MojDbQueryFilter.cpp tests the clauses no index
      answers ([filter_exact]); MojDbAggregateFilter.cpp groups and sums
      ([aggregate_exact]); MojDbCursor.cpp opens a query over the class
      [StorageQuery] and shows its objects to a visitor ([find_shows]).
    - _Searches_ ([SearchCursor], [SearchSpec], [SearchPages],
      [SearchExample]): MojDbSearchCacheCursor.cpp meets the ids of several text
      queries, fetches the objects in threads, sorts them, cuts a page and keeps the
      ids of the whole result in MojDbSearchCache.cpp.  [search_shows] is a search
      that runs, [search_pages] one answered from the cache.  The order in which the
      threads finish is an argument ([schedule]) of the model; [sort_exact] is the
      quicksort of MojQuickSort.h, whose random pivots are an argument too.
    - _Shards_ ([ShardInfo], [ShardEngine], [ShardSpec], [ShardRemove], [MediaHandler],
      [ShardExample]): the parts of the database on devices.  MojDbShardEngine.cpp keeps
      a description of each shard in the database and in a cache; over a database that
      keeps the laws of [ShardDbLaws] it is a map from ids to descriptions
      ([shard_table_refines]).  [allocate_fresh] bounds the id a device gets,
      [remove_shards_exact] says which objects go with a shard.  MojDbMediaHandler.cpp
      tells the engine of devices that come and go ([notifications_alternate]).  The
      database, the kind and storage engines, the file system and the splitting and
      checksum of Boost are classes; [ShardExample] has an instance of each.

    ** Conventions

    - An integer of w bits is a [Z], with [to_uint] and [to_int] where C++ converts
      or wraps; a string is its bytes; a pointer to a shared object that is changed
      through it (kinds, watchers, iterators) is an address into a store.
    - A method that may fail returns [res]; one that changes its object and may be
      called again after an error is an [eff] of [Effects], which keeps the changes
      made before the error.  [AssertFailed] stands for behaviour C++ leaves
      undefined (a null pointer, an index out of bounds).  A MojAssert that guards
      nothing is left out.
    - A library's code is a class with its documented behaviour as laws: [ICU] with
      [ICULaws], [LevelDB] with [LevelDBLaws], regular expressions, the clock and
      random numbers.  Each has a concrete instance in the examples ([LogDB], a
      LevelDB over a sorted list, among them), at which the theorems are tried.
    - An iteration without a structural measure has fuel: a turn per character and
      state for JSON (bounded by the length of the text and [MaxDepth]), a turn per
      record or range for queries, a turn per id for searches, a turn per record or prefix for
      shards, as many levels as kinds for the graph of kinds,
      the depth of the schema for schemas.  The theorems show that the fuel given
      suffices, so they are about the result and not about running out.

    ** Not modelled

    - Locks and threads: an operation is one step.  Where steps of several
      transactions meet, as in [IndexWatch] and [QuotaSpec], they are sequences.
    - What a failed operation leaves in a LevelDB cursor's loop or in the strings of
      a schema, which nothing reads again.
    - Line and column of JSON errors, the texts of log and error messages but for
      schemas, reference counts, copy on write, chunks of buffers.
    - The other engines (thin wrappers of third-party stores), the services on the
      Luna bus, sockets and reactors, the operating system layer, profiling, tools.
    - Administration (backup, restore, migration): files and processes.
    - The configuration of kinds and the statistics of MojDbKind.cpp and
      MojDbKindEngine.cpp; MojDbSearchCursor.cpp, which is the search above without
      its cache, for a build that leaves the cache out. *)

