(* ===== verification/Prelude.v ===== *)
(** * Prelude: machine integers, byte strings, errors as results, and the lemmas and
    tactics all files share *)

From Stdlib Require Export ZArith Lia Bool Ascii String Sorted.
From stdpp Require Export base tactics list numbers sets.

#[global] Set Default Goal Selector "!".
#[global] Open Scope Z_scope.

(** ** Machine integers

    A w-bit unsigned value is a [Z] in [0, 2^w); a signed one is a [Z] in
    [-2^(w-1), 2^(w-1)).  [to_uint] and [to_int] are the C++ conversions. *)
Definition to_uint (w x : Z) : Z := x mod 2 ^ w.

Definition to_int (w x : Z) : Z :=
  let u := x mod 2 ^ w in if u <? 2 ^ (w - 1) then u else u - 2 ^ w.

Definition in_uint (w x : Z) : Prop := 0 <= x < 2 ^ w.
Definition in_int (w x : Z) : Prop := - 2 ^ (w - 1) <= x < 2 ^ (w - 1).

Definition MojUInt8Max : Z := 255.
Definition MojUInt16Max : Z := 65535.
Definition MojUInt32Max : Z := 4294967295.
Definition MojUInt64Max : Z := 18446744073709551615.
Definition MojInt32Max : Z := 2147483647.
Definition MojInt32Min : Z := -2147483648.
Definition MojInt64Max : Z := 9223372036854775807.
Definition MojInt64Min : Z := -9223372036854775808.

(** ** Bytes and character strings

    [MojByte] arrays and [MojChar] strings are lists of [Z]; [is_byte] is the
    range every element of a real array satisfies.  [_T] is the source's macro
    for string literals. *)
Abbreviation bytes := (list Z).
Abbreviation mstring := (list Z).

Definition is_byte (b : Z) : Prop := 0 <= b < 256.
Definition is_byteb (b : Z) : bool := (0 <=? b) && (b <? 256).

Definition _T (s : string) : mstring :=
  map (fun a => Z.of_N (N_of_ascii a)) (list_ascii_of_string s).

(** A character code, for literals such as ['.']. *)
Definition chr (s : string) : Z := hd 0 (_T s).

(** ** Errors

    The [MojErr] codes the modelled code throws or catches.  A function that
    returns [MojErr] and writes its result through a reference is a function to
    [res]: [Ok] carries what was written when the code returns [MojErrNone]. *)
Inductive MojErr :=
| AssertFailed (* a [MojAssert] that does not hold; undefined in a release build *)
| MojErrInsufficientBuf
| MojErrInvalidArg
| MojErrInvalidBase64Data
| MojErrInvalidDecimal
| MojErrNotOpen
| MojErrNotFound
| MojErrRequiredPropNotFound
| MojErrUnexpectedEof
| MojErrValueOutOfRange
| MojErrInternalIndexOnDel
| MojErrInternalIndexOnFind
| MojErrObjectReaderUnexpectedMarker
| MojErrJsonParseArray
| MojErrJsonParseBool
| MojErrJsonParseComment
| MojErrJsonParseEof
| MojErrJsonParseEscape
| MojErrJsonParseInt
| MojErrJsonParseMaxDepth
| MojErrJsonParseNull
| MojErrJsonParsePropName
| MojErrJsonParseUnexpected
| MojErrJsonParseValueSep
| MojErrDbInvalidAggregateType
| MojErrDbInvalidCollation
| MojErrDbInvalidIndex
| MojErrDbInvalidIndexName
| MojErrDbInvalidQuery
| MojErrDbInvalidQueryCollationMismatch
| MojErrDbInvalidQueryOp
| MojErrDbInvalidQueryOpCombo
| MojErrDbInvalidRevisionSet
| MojErrDbInvalidToken
| MojErrDbInvalidTokenization
| MojErrDbUnicode
| MojErrDbWatcherNotRegistered
| MojErrAlreadyOpen
| MojErrInvalidSchema
| MojErrSchemaValidation
| MojErrInvalidObject
| MojErrNotImplemented
| MojErrObjectHeaderUnexpectedMarker
| MojErrDbAccessDenied
| MojErrDbCorruptDatabase
| MojErrDbCursorAlreadyOpen
| MojErrDbFatal
| MojErrDbHeaderVersionMismatch
| MojErrDbInconsistentIndex
| MojErrDbInvalidCaller
| MojErrDbInvalidFilterOp
| MojErrDbInvalidKindToken
| MojErrDbInvalidOwner
| MojErrDbInvalidPermissions
| MojErrDbIO
| MojErrDbKindHasSubKinds
| MojErrDbKindNotRegistered
| MojErrDbKindNotSpecified
| MojErrDbMalformedId
| MojErrDbNoIndexForQuery
| MojErrDbObjectNotFound
| MojErrDbPermissionDenied
| MojErrDbQuotaExceeded
| MojErrDbRevisionMismatch
| MojErrDbRevNotSpecified
| MojErrDbVersionMismatch
| MojErrDbInvalidShardId
| MojErrInternal
| MojErrDbInvalidBatch
| MojErrTranSizeLimit
| MojErrDbMaxCountExceeded
| MojErrDbVerificationFailed
| MojErrDbInvalidSequence
| MojErrDbInvalidOperation
| MojErrDbWarnings
| MojErrExists
| MojErrJson
| MojErrNoMem.

#[export] Instance MojErr_eq_dec : EqDecision MojErr.
Proof. solve_decision. Defined.

Inductive res (A : Type) : Type :=
| Ok (a : A)
| Err (e : MojErr).
Arguments Ok {A} a.
Arguments Err {A} e.

Definition res_bind {A B} (m : res A) (f : A -> res B) : res B :=
  match m with Ok a => f a | Err e => Err e end.

(** [MojErrCheck]: go on with the value, or return the error. *)
Declare Scope db8_scope.
Delimit Scope db8_scope with db8.
Notation "'let?' x ':=' m 'in' k" := (res_bind m (fun x => k))
  (at level 10, x pattern, m at level 100, k at level 200) : db8_scope.
#[global] Open Scope db8_scope.

(** A [for] loop whose body may return an error. *)
Section res_fold.
Context {A S : Type} (f : S -> A -> res S).
Fixpoint res_fold (s : S) (l : list A) : res S :=
  match l with
  | [] => Ok s
  | x :: l' => let? s' := f s x in res_fold s' l'
  end.
End res_fold.

Lemma res_bind_ok {A B} (m : res A) (f : A -> res B) b :
  res_bind m f = Ok b <-> exists a, m = Ok a /\ f a = Ok b.
Proof. destruct m; simpl; naive_solver. Qed.

Lemma res_bind_assoc {A B C} (m : res A) (f : A -> res B) (g : B -> res C) :
  res_bind (res_bind m f) g = res_bind m (fun a => res_bind (f a) g).
Proof. by destruct m. Qed.

Lemma res_bind_ret {A} (m : res A) : res_bind m Ok = m.
Proof. by destruct m. Qed.

Lemma res_bind_ext {A B} (m : res A) (f g : A -> res B) :
  (forall a, f a = g a) -> res_bind m f = res_bind m g.
Proof. intros H. destruct m; simpl; auto. Qed.

Lemma res_fold_app {A S} (f : S -> A -> res S) s l1 l2 :
  res_fold f s (l1 ++ l2) = let? s' := res_fold f s l1 in res_fold f s' l2.
Proof.
  revert s; induction l1 as [|x l1 IH]; intros s; simpl; [done|].
  rewrite res_bind_assoc. by apply res_bind_ext.
Qed.

(** Every element of the list went through the body. *)
Lemma res_fold_ran {A S} (f : S -> A -> res S) l a : forall s s', res_fold f s l = Ok s' -> a ∈ l -> exists s1 s2, f s1 a = Ok s2.
Proof.
  induction l as [|b l IH]; intros s s'; [by intros _ ?%elem_of_nil|]. cbn [res_fold].
  intros (s1 & E & F)%res_bind_ok [->|Ha]%elem_of_cons; [by exists s, s1|by eapply IH].
Qed.

(** An invariant of the loop body is an invariant of the loop. *)
Lemma res_fold_inv {A S} (f : S -> A -> res S) (P : S -> Prop) l s s' :
  (forall s1 x s2, x ∈ l -> P s1 -> f s1 x = Ok s2 -> P s2) ->
  P s -> res_fold f s l = Ok s' -> P s'.
Proof.
  revert s; induction l as [|x l IH]; intros s Hf Hs; simpl; [naive_solver|].
  rewrite res_bind_ok; intros (s1 & H1 & H2).
  eapply IH; [|eapply Hf; [apply list_elem_of_here|done|done]|done].
  intros s2 y s3 Hy. apply Hf. by apply list_elem_of_further.
Qed.

(** ** Tactics *)

(** Split every conjunction and existential among the hypotheses. *)
Ltac deex :=
  repeat match goal with
  | H : exists _, _ |- _ => let x := fresh "x" in destruct H as [x H]
  | H : _ /\ _ |- _ => destruct H
  end.

(** Case analysis on the [match]es and [if]s of the hypothesis, keeping the
    equations and dropping the contradictory branches. *)
Ltac inv_match H :=
  repeat (simplify_eq/=;
          match type of H with
          | context [match ?x with _ => _ end] => destruct x eqn:?
          end); simplify_eq/=.

(** Follow a computation that returned [Ok]: its binds, conditionals and
    [match]es. *)
Ltac res_step :=
  match goal with
  | H : Err _ = Ok _ |- _ => discriminate H
  | H : Ok _ = Err _ |- _ => discriminate H
  | H : res_bind _ _ = Ok _ |- _ =>
      let x := fresh "a" in let E := fresh "E" in apply res_bind_ok in H as (x & E & H)
  | H : (if ?b then _ else _) = Ok _ |- _ => destruct b eqn:?
  | H : match ?x with _ => _ end = Ok _ |- _ => destruct x eqn:?
  | H : Ok _ = Ok _ |- _ => injection H; clear H; intros; try subst
  end.
Ltac res_inv := repeat res_step; simplify_eq/=.

Ltac bool_lia :=
  repeat match goal with
  | H : (_ && _) = true |- _ => apply andb_true_iff in H as [? ?]
  | H : (_ || _) = false |- _ => apply orb_false_iff in H as [? ?]
  | H : negb _ = true |- _ => apply negb_true_iff in H
  | H : negb _ = false |- _ => apply negb_false_iff in H
  | H : (_ <? _) = true |- _ => apply Z.ltb_lt in H
  | H : (_ <? _) = false |- _ => apply Z.ltb_ge in H
  | H : (_ <=? _) = true |- _ => apply Z.leb_le in H
  | H : (_ <=? _) = false |- _ => apply Z.leb_gt in H
  | H : (_ =? _) = true |- _ => apply Z.eqb_eq in H
  | H : (_ =? _) = false |- _ => apply Z.eqb_neq in H
  end; try lia.

(** ** Integers *)
Create HintDb db8.

Lemma to_uint_small w x : in_uint w x -> to_uint w x = x.
Proof. unfold in_uint, to_uint. intros. apply Z.mod_small; lia. Qed.

Lemma to_int_small w x : 0 < w -> in_int w x -> to_int w x = x.
Proof.
  unfold in_int, to_int. intros Hw Hx.
  assert (2 ^ w = 2 * 2 ^ (w - 1)) as E.
  { rewrite <- Z.pow_succ_r by lia. f_equal. lia. }
  assert (0 < 2 ^ (w - 1)) by (apply Z.pow_pos_nonneg; lia).
  destruct (Z_lt_le_dec x 0).
  - assert (x mod 2 ^ w = x + 2 ^ w) as ->.
    { symmetry. apply (Z.mod_unique _ _ (-1)); lia. }
    destruct (Z.ltb_spec (x + 2 ^ w) (2 ^ (w - 1))); lia.
  - rewrite Z.mod_small by lia.
    destruct (Z.ltb_spec x (2 ^ (w - 1))); lia.
Qed.

Lemma to_int_mod w x : to_int w (x mod 2 ^ w) = to_int w x.
Proof. unfold to_int. by rewrite Zmod_mod. Qed.

Lemma to_int_range w x : 0 < w -> in_int w (to_int w x).
Proof.
  unfold in_int, to_int. intros Hw.
  assert (2 ^ w = 2 * 2 ^ (w - 1)) as E.
  { rewrite <- Z.pow_succ_r by lia. f_equal. lia. }
  assert (0 < 2 ^ (w - 1)) by (apply Z.pow_pos_nonneg; lia).
  pose proof (Z.mod_pos_bound x (2 ^ w)).
  destruct (Z.ltb_spec (x mod 2 ^ w) (2 ^ (w - 1))); lia.
Qed.

#[export] Hint Resolve to_int_range : db8.


Lemma is_byteb_spec b : is_byteb b = true <-> is_byte b.
Proof. unfold is_byteb, is_byte. rewrite andb_true_iff, Z.leb_le, Z.ltb_lt. lia. Qed.

Lemma Z_of_ascii_byte a : is_byte (Z.of_N (N_of_ascii a)).
Proof. pose proof (N_ascii_bounded a). unfold is_byte. lia. Qed.

Lemma _T_bytes s : Forall is_byte (_T s).
Proof. unfold _T. apply List.Forall_map, List.Forall_forall. intros. apply Z_of_ascii_byte. Qed.
#[export] Hint Resolve _T_bytes : db8.
