(* ===== verification/Containers.v ===== *)
(** * Containers of src/inc/core

    [MojComp] (inc/core/MojComp.h), [MojVector] (inc/core/internal/MojVectorInternal.h),
    the node sequence of [MojRbTreeBase] with [MojMap] and [MojSet] on top of it,
    and the order laws the rest of the development needs of a comparator. *)

From S2P Require Import Prelude.

(** ** Comparators *)

(** A comparator is a C++ function returning an [int]; clients look at its sign
    only.  [CompLaws] says it is a total preorder. *)
Class CompLaws {A} (comp : A -> A -> Z) : Prop := {
  comp_refl : forall x, comp x x = 0;
  comp_anti : forall x y, Z.sgn (comp y x) = - Z.sgn (comp x y);
  comp_trans : forall x y z, comp x y <= 0 -> comp y z <= 0 -> comp x z <= 0
}.
#[global] Hint Mode CompLaws ! ! : typeclass_instances.
Arguments comp_refl {A} comp {_} x.
Arguments comp_anti {A} comp {_} x y.
Arguments comp_trans {A} comp {_} x y z.

Section comp_laws.
Context {A} (comp : A -> A -> Z) `{!CompLaws comp}.

Lemma comp_lt_gt x y : comp x y < 0 <-> 0 < comp y x.
Proof. pose proof (comp_anti comp x y). lia. Qed.

Lemma comp_eq_sym x y : comp x y = 0 <-> comp y x = 0.
Proof. pose proof (comp_anti comp x y). lia. Qed.

Lemma comp_lt_le_trans x y z : comp x y < 0 -> comp y z <= 0 -> comp x z < 0.
Proof.
  intros H1 H2. destruct (Z_lt_le_dec (comp x z) 0); [done|].
  pose proof (comp_anti comp x z). pose proof (comp_anti comp x y).
  pose proof (comp_trans comp y z x). lia.
Qed.

Lemma comp_le_lt_trans x y z : comp x y <= 0 -> comp y z < 0 -> comp x z < 0.
Proof.
  intros H1 H2. destruct (Z_lt_le_dec (comp x z) 0); [done|].
  pose proof (comp_anti comp x z). pose proof (comp_anti comp y z).
  pose proof (comp_trans comp z x y). lia.
Qed.

Lemma comp_eq_trans x y z : comp x y = 0 -> comp y z = 0 -> comp x z = 0.
Proof.
  intros H1 H2. pose proof (comp_trans comp x y z). pose proof (comp_trans comp z y x).
  pose proof (comp_anti comp x y). pose proof (comp_anti comp y z). pose proof (comp_anti comp x z). lia.
Qed.

(** Comparing with equivalent arguments gives the same sign. *)
Lemma comp_eq_l x y z : comp x y = 0 -> Z.sgn (comp x z) = Z.sgn (comp y z).
Proof.
  intros H. pose proof (comp_anti comp x y).
  pose proof (comp_lt_le_trans y z x). pose proof (comp_lt_le_trans x z y).
  pose proof (comp_le_lt_trans x y z). pose proof (comp_le_lt_trans y x z).
  pose proof (comp_trans comp x y z). pose proof (comp_trans comp y x z).
  pose proof (comp_anti comp x z). pose proof (comp_anti comp y z). lia.
Qed.

Lemma comp_eq_r x y z : comp x y = 0 -> Z.sgn (comp z x) = Z.sgn (comp z y).
Proof.
  intros H. pose proof (comp_eq_l x y z H).
  pose proof (comp_anti comp x z). pose proof (comp_anti comp y z). lia.
Qed.
End comp_laws.

(** The laws at one first argument; what an induction on nested data provides. *)
Definition comp_laws_at {A} (comp : A -> A -> Z) (x : A) : Prop :=
  comp x x = 0 /\
  (forall y, Z.sgn (comp y x) = - Z.sgn (comp x y)) /\
  (forall y z, comp x y <= 0 -> comp y z <= 0 ->
     comp x z <= 0 /\ (comp x z = 0 -> comp x y = 0 /\ comp y z = 0)) /\
  (forall y z, comp x y = 0 -> comp y z = 0 -> comp x z = 0).

Lemma comp_laws_at_all {A} (comp : A -> A -> Z) :
  (forall x, comp_laws_at comp x) -> CompLaws comp.
Proof.
  intros H. split; intros x; destruct (H x) as (Hr & Ha & Ht & He); [done|apply Ha|].
  intros y z ? ?. by apply (Ht y z).
Qed.

Lemma comp_laws_at_inst {A} (comp : A -> A -> Z) `{!CompLaws comp} x : comp_laws_at comp x.
Proof.
  split; [apply comp_refl, _|]. split; [intros; apply comp_anti, _|].
  split; [|intros y z; apply comp_eq_trans, _].
  intros y z H1 H2. split; [by eapply (comp_trans comp)|]. intros H.
  pose proof (comp_lt_le_trans comp x y z). pose proof (comp_le_lt_trans comp x y z). lia.
Qed.

(** [MojComp<T>], the generic comparator of a type with [operator<]. *)
Definition MojComp (val1 val2 : Z) : Z :=
  if val1 <? val2 then -1 else if val2 <? val1 then 1 else 0.

Lemma MojComp_spec a b : Z.sgn (MojComp a b) = Z.sgn (a - b).
Proof. unfold MojComp. destruct (Z.ltb_spec a b), (Z.ltb_spec b a); lia. Qed.

#[export] Instance MojComp_laws : CompLaws MojComp.
Proof.
  split.
  - intros x. pose proof (MojComp_spec x x). lia.
  - intros x y. rewrite !MojComp_spec. lia.
  - intros x y z. pose proof (MojComp_spec x y). pose proof (MojComp_spec y z).
    pose proof (MojComp_spec x z). lia.
Qed.

(** [MojStrCmp], C's [strcmp] on the characters up to the terminator, compared
    as unsigned bytes.  The end of the list is the terminating NUL. *)
Fixpoint MojStrCmp (s1 s2 : mstring) : Z :=
  match s1, s2 with
  | [], [] => 0
  | [], y :: _ => 0 - y
  | x :: _, [] => x - 0
  | x :: s1', y :: s2' =>
      if negb (x =? y) then x - y else if x =? 0 then 0 else MojStrCmp s1' s2'
  end.

(** A C string proper: bytes, none of them the terminator. *)
Definition str_ok (s : mstring) : Prop := Forall (fun c => 0 < c < 256) s.

#[export] Instance MojStrCmp_laws : CompLaws MojStrCmp.
Proof.
  split.
  - induction x as [|c x IH]; simpl; [done|].
    rewrite Z.eqb_refl. simpl. by destruct (c =? 0).
  - induction x as [|c x IH]; intros [|d y]; simpl; try lia.
    rewrite (Z.eqb_sym d c). destruct (Z.eqb_spec c d) as [->|]; simpl; [|lia].
    destruct (d =? 0); [done|apply IH].
  - induction x as [|c x IH]; intros [|d y] [|e z]; simpl; try lia.
    all: specialize (IH y z) || idtac.
    all: repeat match goal with
         | |- context [?a =? ?b] => destruct (Z.eqb_spec a b); simpl; subst
         end; lia.
Qed.

Lemma MojStrCmp_eq s1 s2 : str_ok s1 -> str_ok s2 -> MojStrCmp s1 s2 = 0 <-> s1 = s2.
Proof.
  intros H1 H2; split; [|intros ->; apply (comp_refl _)].
  revert s2 H2; induction H1 as [|c x Hc Hx IH]; intros s2 H2; destruct H2 as [|d y Hd Hy];
    simpl; try lia; [done|].
  destruct (Z.eqb_spec c d) as [->|]; simpl; [|lia].
  destruct (Z.eqb_spec d 0); [lia|]. intros. f_equal. auto.
Qed.

(** ** [MojVector] *)
Module MojVector.
Section compare.
Context {A : Type} (COMP : A -> A -> Z).

Fixpoint compare (v1 v2 : list A) : Z :=
  match v1, v2 with
  | [], [] => 0
  | [], _ :: _ => -1
  | _ :: _, [] => 1
  | x :: v1', y :: v2' =>
      let comp := COMP x y in
      if negb (comp =? 0) then comp else compare v1' v2'
  end.

Lemma compare_laws_at v : Forall (comp_laws_at COMP) v -> comp_laws_at compare v.
Proof.
  intros Hv. induction Hv as [|x v (Hr & Ha & Ht & He) Hv (IHr & IHa & IHt & IHe)].
  - split; [done|]. split; [by intros []|]. split; intros [|? ?] [|? ?]; simpl; lia.
  - split; [simpl; by rewrite Hr|]. split.
    { intros [|y v2]; simpl; [done|]. specialize (Ha y). specialize (IHa v2).
      destruct (Z.eqb_spec (COMP x y) 0), (Z.eqb_spec (COMP y x) 0); simpl; lia. }
    split; intros [|y v2] [|z v3]; simpl; try lia; specialize (Ht y z); specialize (He y z);
      specialize (IHt v2 v3); specialize (IHe v2 v3);
      destruct (Z.eqb_spec (COMP x y) 0), (Z.eqb_spec (COMP y z) 0),
        (Z.eqb_spec (COMP x z) 0); simpl; lia.
Qed.

#[global] Instance compare_laws : CompLaws COMP -> CompLaws compare.
Proof.
  intros HC. apply comp_laws_at_all. intros v. apply compare_laws_at, Forall_true.
  apply comp_laws_at_inst, _.
Qed.

Lemma compare_app_same p v1 v2 :
  (forall x, COMP x x = 0) -> compare (p ++ v1) (p ++ v2) = compare v1 v2.
Proof. intros Hr. induction p as [|x p IH]; simpl; [done|]. by rewrite Hr. Qed.
End compare.

Section eq.
Context {A : Type} (EQ : A -> A -> bool).

(** [operator==]: sizes first, then the elements in order. *)
Definition eq (v1 v2 : list A) : bool :=
  if negb (Nat.eqb (length v1) (length v2)) then false
  else (fix go v1 v2 :=
          match v1, v2 with
          | x :: v1', y :: v2' => if negb (EQ x y) then false else go v1' v2'
          | _, _ => true
          end) v1 v2.
End eq.
End MojVector.

(** Lexicographic comparison of byte vectors. *)
Abbreviation lexcmp := (MojVector.compare MojComp).

Lemma lexcmp_eq (v1 v2 : bytes) : lexcmp v1 v2 = 0 <-> v1 = v2.
Proof.
  split; [|intros ->; apply (comp_refl _)].
  revert v2; induction v1 as [|x v1 IH]; intros [|y v2]; simpl; try done.
  pose proof (MojComp_spec x y). destruct (Z.eqb_spec (MojComp x y) 0); simpl; [|lia].
  intros Hv. f_equal; [lia|auto].
Qed.

Lemma lexcmp_app_same p v1 v2 : lexcmp (p ++ v1) (p ++ v2) = lexcmp v1 v2.
Proof. apply MojVector.compare_app_same. apply (comp_refl _). Qed.

(** On byte strings without a NUL, [strcmp] is the lexicographic order. *)
Lemma MojStrCmp_lexcmp s1 s2 :
  str_ok s1 -> str_ok s2 -> Z.sgn (MojStrCmp s1 s2) = Z.sgn (lexcmp s1 s2).
Proof.
  intros H1; revert s2; induction H1 as [|c x Hc Hx IH]; intros s2 H2;
    destruct H2 as [|d y Hd Hy]; simpl; try lia.
  pose proof (MojComp_spec c d).
  destruct (Z.eqb_spec c d) as [->|]; simpl.
  - destruct (Z.eqb_spec d 0); [lia|]. rewrite IH by done.
    destruct (Z.eqb_spec (MojComp d d) 0); simpl; lia.
  - destruct (Z.eqb_spec (MojComp c d) 0); simpl; lia.
Qed.

(** ** [MojRbTreeBase]

    A tree is observed through [begin] and [successor], i.e. as its sequence of
    nodes in key order.  [find], [lowerBound], [upperBound], [put] and [del] are
    specified here on that sequence; the methods written in terms of
    [begin]/[successor] and those five are the code's.  An iterator is the
    sequence that is left, [end()] the empty one. *)
Module MojRbTreeBase.
Section ops.
Context {N K : Type} (key : N -> K) (C : K -> K -> Z).

(** [search] stops at an equal node. *)
Definition find (k : K) (t : list N) : option N :=
  List.find (fun n => C (key n) k =? 0) t.

Fixpoint dropWhile (p : N -> bool) (t : list N) : list N :=
  match t with [] => [] | n :: t' => if p n then dropWhile p t' else t end.

Definition lowerBound (k : K) (t : list N) : list N := dropWhile (fun n => C (key n) k <? 0) t.
Definition upperBound (k : K) (t : list N) : list N := dropWhile (fun n => C (key n) k <=? 0) t.

(** A node with an equal key is replaced. *)
Fixpoint put (node : N) (t : list N) : list N :=
  match t with
  | [] => [node]
  | n :: t' =>
      let comp := C (key n) (key node) in
      if comp <? 0 then n :: put node t'
      else if comp =? 0 then node :: t' else node :: t
  end.

Fixpoint del (k : K) (t : list N) : list N * bool :=
  match t with
  | [] => ([], false)
  | n :: t' =>
      if C (key n) k =? 0 then (t', true)
      else let '(t2, found) := del k t' in (n :: t2, found)
  end.

(** [put(const MojRbTreeBase&)]: every node of [tree], in order. *)
Definition put_tree (t tree : list N) : list N :=
  fold_left (fun t node => put node t) tree t.

(** [del(const MojRbTreeBase&)]. *)
Definition del_tree (t tree : list N) : list N :=
  fold_left (fun t node => fst (del (key node) t)) tree t.

Section full.
Context (compareFull : N -> N -> Z).

Definition compare (t1 t2 : list N) : Z := MojVector.compare compareFull t1 t2.

Definition equals (t1 t2 : list N) : bool :=
  if negb (Nat.eqb (length t1) (length t2)) then false else compare t1 t2 =? 0.

(** The merge loop of [diff]: the two cursors and the output so far.  Every
    turn moves a cursor, so the sum of the lengths bounds the turns. *)
Fixpoint diff_loop (fuel : nat) (node compNode diffOut : list N) : list N :=
  match fuel with
  | O => diffOut
  | S fuel' =>
      match node with
      | [] => diffOut
      | n :: node' =>
          let comp := match compNode with c :: _ => compareFull n c | [] => -1 end in
          let diffOut := if comp <? 0 then put n diffOut else diffOut in
          diff_loop fuel' (if comp <=? 0 then node' else node)
            (if 0 <=? comp then tl compNode else compNode) diffOut
      end
  end.

Definition diff (t tree : list N) : list N :=
  diff_loop (length t + length tree) t tree [].
End full.

(** *** Order invariant *)
Definition node_lt (a b : N) : Prop := C (key a) (key b) < 0.
Definition sorted (t : list N) : Prop := StronglySorted node_lt t.

Context `{!CompLaws C}.

Lemma sorted_cons n t : sorted (n :: t) <-> Forall (node_lt n) t /\ sorted t.
Proof. split; [intros H; by inversion H|intros []; by constructor]. Qed.

Lemma node_lt_trans a b c : node_lt a b -> node_lt b c -> node_lt a c.
Proof. unfold node_lt. intros. eapply comp_lt_le_trans; eauto with lia. Qed.

Lemma elem_of_put_inv n t x : x ∈ put n t -> x = n \/ x ∈ t.
Proof.
  induction t as [|m t IH]; simpl; [set_solver|].
  destruct (_ <? 0); [set_solver|]. destruct (_ =? 0); set_solver.
Qed.

Lemma put_sorted n t : sorted t -> sorted (put n t).
Proof.
  induction t as [|m t IH]; simpl; [by repeat constructor|].
  rewrite sorted_cons; intros [Hm Ht].
  destruct (Z.ltb_spec (C (key m) (key n)) 0).
  - apply sorted_cons; split; [|auto]. apply Forall_forall. intros x [->|Hx]%elem_of_put_inv; [done|].
    by eapply Forall_forall in Hm.
  - destruct (Z.eqb_spec (C (key m) (key n)) 0) as [E|]; apply sorted_cons; split; try done.
    + eapply Forall_impl; [done|]. unfold node_lt. intros x.
      pose proof (comp_eq_l C _ _ (key x) E). lia.
    + assert (node_lt n m) by (apply comp_lt_gt; [done|lia]).
      constructor; [done|]. eapply Forall_impl; [done|]. intros; by eapply node_lt_trans.
    + by apply sorted_cons.
Qed.

Lemma elem_of_put n t x :
  sorted t -> x ∈ put n t <-> x = n \/ (x ∈ t /\ C (key x) (key n) <> 0).
Proof.
  induction t as [|m t IH]; simpl; [set_solver|].
  rewrite sorted_cons; intros [Hm Ht]. specialize (IH Ht).
  pose proof (proj1 (Forall_forall _ _) Hm) as Hm'. unfold node_lt in Hm'.
  destruct (Z.ltb_spec (C (key m) (key n)) 0) as [L|L].
  - rewrite elem_of_cons, IH, elem_of_cons. split; [intros [->|[->|[? ?]]]|intros [->|[[->|?] ?]]]; auto.
    right; split; [auto|lia].
  - assert (forall y, y ∈ t -> C (key y) (key n) <> 0) as Hn.
    { intros y Hy E. pose proof (Hm' _ Hy). pose proof (comp_eq_r C _ _ (key m) E). lia. }
    destruct (Z.eqb_spec (C (key m) (key n)) 0) as [E|E]; rewrite !elem_of_cons; naive_solver.
Qed.

Lemma find_Some k t n : find k t = Some n -> n ∈ t /\ C (key n) k = 0.
Proof. intros [H1 H2]%List.find_some. split; [by apply list_elem_of_In|lia]. Qed.

Lemma find_None k t : find k t = None <-> forall n, n ∈ t -> C (key n) k <> 0.
Proof.
  unfold find. split.
  - intros H n Hn%list_elem_of_In E. eapply List.find_none in H; [|done]. lia.
  - intros H. destruct (List.find _ t) eqn:E; [|done]. apply find_Some in E. naive_solver.
Qed.

(** Sorted trees hold one node per key. *)
Lemma sorted_unique t a b :
  sorted t -> a ∈ t -> b ∈ t -> C (key a) (key b) = 0 -> a = b.
Proof.
  induction t as [|m t IH]; [set_solver|]. rewrite sorted_cons; intros [Hm Ht].
  rewrite !elem_of_cons. rewrite Forall_forall in Hm. unfold node_lt in Hm.
  intros [->|Ha] [->|Hb] E; auto.
  - specialize (Hm _ Hb). lia.
  - specialize (Hm _ Ha). apply comp_eq_sym in E; [lia|done].
Qed.

Lemma find_elem k t n : sorted t -> n ∈ t -> C (key n) k = 0 -> find k t = Some n.
Proof.
  intros Hs Hn E. destruct (find k t) as [m|] eqn:F.
  - apply find_Some in F as [Hm Em]. f_equal. eapply sorted_unique; eauto.
    eapply comp_eq_trans; [done..|]. by apply comp_eq_sym.
  - exfalso. rewrite find_None in F. by eapply F.
Qed.

Lemma find_put n t k :
  sorted t -> find k (put n t) = if C (key n) k =? 0 then Some n else find k t.
Proof.
  intros Hs. destruct (Z.eqb_spec (C (key n) k) 0) as [E|E].
  - apply find_elem; [by apply put_sorted| |done]. apply elem_of_put; auto.
  - destruct (find k t) as [m|] eqn:F.
    + apply find_Some in F as [Hm Em]. apply find_elem; [by apply put_sorted| |done].
      apply elem_of_put; [done|]. right; split; [done|]. intros Emn. apply E.
      eapply comp_eq_trans; [done| |exact Em]. by apply comp_eq_sym.
    + rewrite find_None in *. intros x [->|[Hx _]]%elem_of_put; auto.
Qed.

Lemma elem_of_del k t x : sorted t -> x ∈ fst (del k t) <-> x ∈ t /\ C (key x) k <> 0.
Proof.
  induction t as [|m t IH]; simpl; [set_solver|]. rewrite sorted_cons; intros [Hm Ht].
  specialize (IH Ht). rewrite Forall_forall in Hm. unfold node_lt in Hm.
  destruct (Z.eqb_spec (C (key m) k) 0) as [E|E]; simpl.
  - rewrite elem_of_cons. split; [|naive_solver]. intros Hx. split; [auto|].
    intros Ex. specialize (Hm _ Hx). pose proof (comp_eq_l C _ _ (key x) E).
    apply comp_eq_sym in Ex; [|done]. lia.
  - destruct (del k t) as [t2 found]; simpl in *. rewrite !elem_of_cons, IH. naive_solver.
Qed.

Lemma del_sorted k t : sorted t -> sorted (fst (del k t)).
Proof.
  induction t as [|m t IH]; simpl; [done|]. rewrite sorted_cons; intros [Hm Ht].
  destruct (_ =? 0); simpl; [done|].
  pose proof (elem_of_del k t) as Hd. specialize (IH Ht). destruct (del k t) as [t2 found]; simpl in *.
  apply sorted_cons. split; [|done]. apply Forall_forall. intros x [Hx _]%Hd; [|done].
  by eapply Forall_forall in Hm.
Qed.

Lemma del_found k t : snd (del k t) = match find k t with Some _ => true | None => false end.
Proof.
  unfold find. induction t as [|m t IH]; simpl; [done|].
  destruct (_ =? 0); simpl; [done|]. by destruct (del k t).
Qed.

Lemma find_del k t j :
  sorted t -> find j (fst (del k t)) = if C j k =? 0 then None else find j t.
Proof.
  intros Hs. destruct (find j (fst (del k t))) as [m|] eqn:F.
  - apply find_Some in F as [Hm E]. apply elem_of_del in Hm as [Hm E2]; [|done].
    destruct (Z.eqb_spec (C j k) 0) as [E3|_]; [by destruct E2; eapply comp_eq_trans|].
    symmetry. by apply find_elem.
  - destruct (Z.eqb_spec (C j k) 0) as [E3|E3]; [done|]. symmetry.
    rewrite find_None in *. intros n Hn E. apply (F n); [|done]. apply elem_of_del; [done|].
    split; [done|]. intros E2. apply E3. eapply comp_eq_trans; [done| |exact E2]. by apply comp_eq_sym.
Qed.

Lemma put_tree_sorted t tree : sorted t -> sorted (put_tree t tree).
Proof. revert t. induction tree; simpl; auto using put_sorted. Qed.

Lemma put_last n t : Forall (fun m => node_lt m n) t -> put n t = t ++ [n].
Proof.
  induction 1 as [|m t Hm Ht IH]; simpl; [done|]. unfold node_lt in Hm.
  destruct (Z.ltb_spec (C (key m) (key n)) 0); [|lia]. by rewrite IH.
Qed.

(** [diff] keeps, in order, the nodes that compare equal to no node of [tree]. *)
Section diff_spec.
Context (compareFull : N -> N -> Z) `{!CompLaws compareFull}.
Context (Hfull : forall a b, node_lt a b -> compareFull a b < 0).

Definition not_in (tree : list N) (n : N) : bool :=
  negb (existsb (fun c => compareFull n c =? 0) tree).

Lemma not_in_skip c tree t :
  (forall n, n ∈ t -> compareFull c n < 0) ->
  List.filter (not_in (c :: tree)) t = List.filter (not_in tree) t.
Proof.
  intros H. apply List.filter_ext_in. intros n Hn%list_elem_of_In. unfold not_in; simpl.
  specialize (H n Hn). pose proof (comp_lt_gt compareFull c n).
  destruct (Z.eqb_spec (compareFull n c) 0); [lia|done].
Qed.

Lemma not_in_below n tree : (forall c, c ∈ tree -> compareFull n c < 0) -> not_in tree n = true.
Proof.
  intros H. unfold not_in. apply negb_true_iff. destruct (existsb _ _) eqn:E; [|done].
  apply List.existsb_exists in E as (c & Hc%list_elem_of_In & E). specialize (H c Hc). lia.
Qed.

Lemma diff_loop_spec fuel t tree out :
  (length t + length tree <= fuel)%nat -> sorted t -> sorted tree ->
  (forall o n, o ∈ out -> n ∈ t -> node_lt o n) ->
  diff_loop compareFull fuel t tree out = out ++ List.filter (not_in tree) t.
Proof.
  revert t tree out. induction fuel as [|fuel IH]; intros [|n t] tree out Hf Hst Hsc Ho;
    simpl in *; try (by rewrite app_nil_r); [lia|].
  apply sorted_cons in Hst as [Hn Ht]. rewrite Forall_forall in Hn.
  assert (put n out = out ++ [n]) as -> by (apply put_last, Forall_forall; set_solver).
  assert (forall o m, o ∈ out ++ [n] -> m ∈ t -> node_lt o m) as Ho2.
  { intros o m [Hin| ->%list_elem_of_singleton]%elem_of_app; [|auto]. intros. apply Ho; [done|].
    by apply list_elem_of_further. }
  destruct tree as [|c tree]; simpl in *.
  - rewrite IH, <- app_assoc; [done|simpl; lia|done..].
  - pose proof Hsc as Hsc0. apply sorted_cons in Hsc as [Hc Hsc]. rewrite Forall_forall in Hc.
    destruct (Z.ltb_spec (compareFull n c) 0) as [L|L];
      [|destruct (Z.eqb_spec (compareFull n c) 0) as [E|E]].
    + destruct (Z.leb_spec (compareFull n c) 0); [|lia].
      destruct (Z.leb_spec 0 (compareFull n c)); [lia|]. rewrite IH; [|simpl; lia|done..].
      rewrite not_in_below, <- app_assoc; [done|].
      intros c' [->|Hc']%elem_of_cons; [done|].
      apply comp_lt_le_trans with c; [done..|]. specialize (Hfull _ _ (Hc _ Hc')). lia.
    + rewrite E; simpl. rewrite IH; [|simpl; lia|done..|set_solver].
      unfold not_in at 2; simpl. rewrite E; simpl. rewrite not_in_skip; [done|].
      intros n' Hn'. apply comp_le_lt_trans with n; [done| |auto].
      apply comp_eq_sym in E; [lia|done].
    + destruct (Z.leb_spec (compareFull n c) 0); [lia|].
      destruct (Z.leb_spec 0 (compareFull n c)); [|lia].
      rewrite IH; [|simpl; lia|by apply sorted_cons; rewrite Forall_forall|done|set_solver].
      f_equal. symmetry. apply (not_in_skip c tree (n :: t)).
      assert (compareFull c n < 0) by (apply comp_lt_gt; [done|lia]).
      intros n' [->|Hn']%elem_of_cons; [done|]. apply comp_lt_le_trans with n; [done..|].
      specialize (Hfull _ _ (Hn _ Hn')). lia.
Qed.

Lemma diff_spec t tree :
  sorted t -> sorted tree -> diff compareFull t tree = List.filter (not_in tree) t.
Proof. intros. apply diff_loop_spec; [lia|done..|set_solver]. Qed.
End diff_spec.
End ops.
End MojRbTreeBase.

(** ** [MojMap] and [MojSet] *)
Module MojMap.
Section ops.
Context {K V : Type} (KCOMP : K -> K -> Z) (VCOMP : V -> V -> Z).

Definition compareFull (mapNode1 mapNode2 : K * V) : Z :=
  let comp := KCOMP mapNode1.1 mapNode2.1 in
  if comp =? 0 then VCOMP mapNode1.2 mapNode2.2 else comp.

Definition get (m : list (K * V)) (key : K) : option V :=
  match MojRbTreeBase.find fst KCOMP key m with Some iter => Some iter.2 | None => None end.

Definition put (m : list (K * V)) (key : K) (val : V) : list (K * V) :=
  MojRbTreeBase.put fst KCOMP (key, val) m.

Definition del (m : list (K * V)) (key : K) : list (K * V) * bool :=
  MojRbTreeBase.del fst KCOMP key m.

Definition contains (m : list (K * V)) (key : K) : bool :=
  match MojRbTreeBase.find fst KCOMP key m with Some _ => true | None => false end.

Definition lowerBound (m : list (K * V)) (key : K) : list (K * V) :=
  MojRbTreeBase.lowerBound fst KCOMP key m.

Definition upperBound (m : list (K * V)) (key : K) : list (K * V) :=
  MojRbTreeBase.upperBound fst KCOMP key m.

Definition compare (m1 m2 : list (K * V)) : Z := MojRbTreeBase.compare compareFull m1 m2.
Definition equals (m1 m2 : list (K * V)) : bool := MojRbTreeBase.equals compareFull m1 m2.

Abbreviation sorted := (MojRbTreeBase.sorted fst KCOMP).

Lemma compareFull_laws_at k v :
  comp_laws_at KCOMP k -> comp_laws_at VCOMP v -> comp_laws_at compareFull (k, v).
Proof.
  intros (Hr & Ha & Ht & He) (Hr2 & Ha2 & Ht2 & He2). unfold compareFull.
  split; [simpl; by rewrite Hr|]. split.
  { intros [k' v']; simpl. specialize (Ha k'). specialize (Ha2 v').
    destruct (Z.eqb_spec (KCOMP k k') 0), (Z.eqb_spec (KCOMP k' k) 0); lia. }
  split; intros [k2 v2] [k3 v3]; simpl; specialize (Ht k2 k3); specialize (He k2 k3);
    specialize (Ht2 v2 v3); specialize (He2 v2 v3);
    destruct (Z.eqb_spec (KCOMP k k2) 0), (Z.eqb_spec (KCOMP k2 k3) 0),
      (Z.eqb_spec (KCOMP k k3) 0); simpl; lia.
Qed.

#[global] Instance compareFull_laws : CompLaws KCOMP -> CompLaws VCOMP -> CompLaws compareFull.
Proof.
  intros HK HV. apply comp_laws_at_all. intros [k v].
  apply compareFull_laws_at; by apply comp_laws_at_inst.
Qed.

Context `{!CompLaws KCOMP}.

Lemma map_put_sorted m k v : sorted m -> sorted (put m k v).
Proof. apply MojRbTreeBase.put_sorted; done. Qed.

Lemma map_del_sorted m k : sorted m -> sorted (del m k).1.
Proof. apply MojRbTreeBase.del_sorted; done. Qed.

Lemma map_get_put m k v j :
  sorted m -> get (put m k v) j = if KCOMP k j =? 0 then Some v else get m j.
Proof.
  intros Hs. unfold get, put. rewrite MojRbTreeBase.find_put by done. simpl. by destruct (_ =? 0).
Qed.

Lemma map_get_del m k j :
  sorted m -> get (del m k).1 j = if KCOMP j k =? 0 then None else get m j.
Proof.
  intros Hs. unfold get, del. rewrite MojRbTreeBase.find_del by done. by destruct (_ =? 0).
Qed.
End ops.
End MojMap.

Module MojSet.
Section ops.
Context {T : Type} (COMP : T -> T -> Z).

Definition contains (s : list T) (val : T) : bool :=
  match MojRbTreeBase.find id COMP val s with Some _ => true | None => false end.
Definition put (s : list T) (val : T) : list T := MojRbTreeBase.put id COMP val s.
Definition put_set (s set : list T) : list T := MojRbTreeBase.put_tree id COMP s set.
Definition del (s : list T) (val : T) : list T * bool := MojRbTreeBase.del id COMP val s.
Definition del_set (s set : list T) : list T := MojRbTreeBase.del_tree id COMP s set.
Definition diff (s set : list T) : list T := MojRbTreeBase.diff id COMP COMP s set.
Definition compare (s set : list T) : Z := MojRbTreeBase.compare COMP s set.

(** The iterator is moved past a value before the value is deleted. *)
Definition intersect (s set : list T) : list T :=
  fold_left (fun s' val => if contains set val then s' else (del s' val).1) s s.

Abbreviation sorted := (MojRbTreeBase.sorted id COMP).

Context `{!CompLaws COMP}.

Lemma set_put_sorted s v : sorted s -> sorted (put s v).
Proof. apply MojRbTreeBase.put_sorted; done. Qed.

Lemma contains_spec s v : contains s v = true <-> exists x, x ∈ s /\ COMP x v = 0.
Proof.
  unfold contains. destruct (MojRbTreeBase.find id COMP v s) as [x|] eqn:F.
  - apply MojRbTreeBase.find_Some in F. naive_solver.
  - split; [done|]. intros (x & Hx & E).
    by destruct (proj1 (MojRbTreeBase.find_None id COMP v s) F x).
Qed.

Lemma contains_put s v x : sorted s -> contains (put s v) x = (COMP v x =? 0) || contains s x.
Proof.
  intros Hs. unfold contains, put. rewrite MojRbTreeBase.find_put by done. unfold id. by destruct (_ =? 0).
Qed.

Lemma contains_diff s set x :
  sorted s -> sorted set -> contains (diff s set) x = contains s x && negb (contains set x).
Proof.
  intros Hs Hset. apply eq_true_iff_eq. rewrite andb_true_iff, negb_true_iff, <- not_true_iff_false.
  rewrite !contains_spec. unfold diff. rewrite MojRbTreeBase.diff_spec by (done || auto).
  split.
  - intros (y & [Hy Hn]%list_elem_of_In%List.filter_In & E). apply list_elem_of_In in Hy.
    split; [eauto|]. intros (z & Hz%list_elem_of_In & E2).
    unfold MojRbTreeBase.not_in in Hn. apply negb_true_iff, not_true_iff_false in Hn. apply Hn.
    apply List.existsb_exists. exists z. split; [done|]. apply Z.eqb_eq.
    eapply comp_eq_trans; [done|exact E|]. by apply comp_eq_sym.
  - intros [(y & Hy%list_elem_of_In & E) Hn]. exists y. split; [|done].
    apply list_elem_of_In, List.filter_In. split; [done|]. unfold MojRbTreeBase.not_in.
    apply negb_true_iff, not_true_iff_false. intros (z & Hz%list_elem_of_In & E2)%List.existsb_exists.
    apply Hn. exists z. split; [done|]. apply comp_eq_sym; [done|].
    eapply comp_eq_trans; [done|apply comp_eq_sym; [done|exact E]|lia].
Qed.

Lemma put_set_sorted s set : sorted s -> sorted (put_set s set).
Proof. by apply MojRbTreeBase.put_tree_sorted. Qed.

Lemma contains_put_set s set x :
  sorted s -> contains (put_set s set) x = contains s x || contains set x.
Proof.
  unfold put_set, MojRbTreeBase.put_tree. revert s. induction set as [|v set IH]; intros s Hs; simpl.
  - by rewrite orb_false_r.
  - rewrite IH by (by apply set_put_sorted). fold (put s v). rewrite contains_put by done.
    assert (contains (v :: set) x = (COMP v x =? 0) || contains set x) as ->
      by (unfold contains, MojRbTreeBase.find; simpl; unfold id; by destruct (COMP v x =? 0)).
    by destruct (COMP v x =? 0), (contains s x).
Qed.
End ops.
End MojSet.

(** ** [MojHashMap]

    Observed through its iteration list: a new node goes to its front
    ([MojHashBase::Impl::put]), a known key keeps its node and gets the new
    value. *)
Module MojHashMap.
Section ops.
Context {K V : Type} (KEQ : K -> K -> bool).

Definition get (m : list (K * V)) (key : K) : option V :=
  match List.find (fun n => KEQ n.1 key) m with Some n => Some n.2 | None => None end.

Definition contains (m : list (K * V)) (key : K) : bool :=
  match get m key with Some _ => true | None => false end.

Fixpoint set_val (m : list (K * V)) (key : K) (val : V) : list (K * V) :=
  match m with
  | [] => []
  | n :: m' => if KEQ n.1 key then (n.1, val) :: m' else n :: set_val m' key val
  end.

Definition put (m : list (K * V)) (key : K) (val : V) : list (K * V) :=
  if contains m key then set_val m key val else (key, val) :: m.

Fixpoint del (m : list (K * V)) (key : K) : list (K * V) * bool :=
  match m with
  | [] => ([], false)
  | n :: m' => if KEQ n.1 key then (m', true) else let '(m2, found) := del m' key in (n :: m2, found)
  end.

(** [MojHashBase::equals]: the sizes, then every node looked up in the other map. *)
Definition equals (VEQ : V -> V -> bool) (m rhs : list (K * V)) : bool :=
  Nat.eqb (length m) (length rhs) &&
  forallb (fun n => match List.find (fun r => KEQ r.1 n.1) rhs with
                    | Some r => KEQ n.1 r.1 && VEQ n.2 r.2
                    | None => false
                    end) m.
End ops.
End MojHashMap.
