(* ===== verification/QuickSort.v ===== *)
(** * Sorting a vector: src/inc/core/internal/MojUtilInternal.h (MojQuickSort)

    The array is the list of its elements and an operation works on the indexes
    [left .. right) of it.  The pivot is drawn with [MojRand], which is an argument. *)

From S2P Require Import Prelude Containers.

Module MojQuickSort.
Section sort.
Context {T : Type} (comp : T -> T -> Z) (MojRand : nat -> nat).

Definition swap (a : list T) (i j : nat) : list T :=
  match a !! i, a !! j with
  | Some x, Some y => <[j := x]> (<[i := y]> a)
  | _, _ => a
  end.

(** [comp(array[i], array[j]) < 0] *)
Definition less (a : list T) (i j : nat) : bool :=
  match a !! i, a !! j with
  | Some x, Some y => comp x y <? 0
  | _, _ => false
  end.

(** The loop over [i .. i + n), with the pivot at [last]. *)
Fixpoint partition_loop (a : list T) (i n mid last : nat) : list T * nat :=
  match n with
  | O => (a, mid)
  | S n' =>
      if less a i last then partition_loop (swap a i mid) (S i) n' (S mid) last
      else partition_loop a (S i) n' mid last
  end.

(** The seed of the random number is [left]. *)
Definition MojQuickSortPartition (a : list T) (left right : nat) : list T * nat :=
  let pivot := (left + MojRand left mod (right - left))%nat in
  let last := (right - 1)%nat in
  let a := swap a pivot last in
  let (a, mid) := partition_loop a left (last - left) left last in
  (swap a mid last, mid).

(** The recursion, at most [fuel] deep. *)
Fixpoint MojQuickSortImpl (fuel : nat) (a : list T) (left right : nat) : list T :=
  match fuel with
  | O => a
  | S fuel' =>
      if (right <=? left + 1)%nat then a
      else
        let (a, mid) := MojQuickSortPartition a left right in
        let a := MojQuickSortImpl fuel' a left mid in
        MojQuickSortImpl fuel' a (mid + 1) right
  end.

(** A call sorts fewer elements than its caller. *)
Definition MojQuickSort (a : list T) : list T := MojQuickSortImpl (length a) a 0 (length a).

(** ** Elements inside a range *)

(** [a'] is [a] with the elements of [left .. right) in another order. *)
Definition range_perm (a a' : list T) (left right : nat) : Prop :=
  exists p s s' q, a = p ++ s ++ q /\ a' = p ++ s' ++ q /\ length p = left /\ (left + length s)%nat = right /\ s ≡ₚ s'.

Lemma range_perm_refl a left right : (left <= right <= length a)%nat -> range_perm a a left right.
Proof.
  intros H. exists (take left a), (take (right - left) (drop left a)), (take (right - left) (drop left a)), (drop right a).
  assert (a = take left a ++ take (right - left) (drop left a) ++ drop right a) as E.
  { rewrite <- (take_drop left a) at 1. f_equal. rewrite <- (take_drop (right - left) (drop left a)) at 1. f_equal.
    rewrite drop_drop. f_equal. lia. }
  repeat split; try done; rewrite ?length_take, ?length_drop; lia.
Qed.

Lemma range_perm_trans a b c left right : range_perm a b left right -> range_perm b c left right -> range_perm a c left right.
Proof.
  intros (p & s & s' & q & -> & -> & <- & <- & H1) (p2 & s2 & s2' & q2 & E & -> & El & Er & H2).
  apply Permutation_length in H1 as L1. apply app_inj_1 in E as [<- E]; [|done].
  apply app_inj_1 in E as [<- <-]; [|lia].
  exists p, s, s2', q. repeat split; try done. by rewrite H1.
Qed.

Lemma split_around (p s q : list T) l n : p ++ s ++ q = take l p ++ (drop l p ++ s ++ take n q) ++ drop n q.
Proof.
  rewrite <- !app_assoc, (app_assoc (take l p)), take_drop. do 2 f_equal. by rewrite take_drop.
Qed.

Lemma range_perm_widen a a' l r left right : range_perm a a' l r -> (left <= l)%nat -> (r <= right <= length a)%nat ->
  range_perm a a' left right.
Proof.
  intros (p & s & s' & q & -> & -> & <- & <- & H) Hl Hr.
  exists (take left p), (drop left p ++ s ++ take (right - (length p + length s)) q),
    (drop left p ++ s' ++ take (right - (length p + length s)) q), (drop (right - (length p + length s)) q).
  rewrite !length_app in Hr.
  split; [apply split_around|]. split; [apply split_around|].
  split; [rewrite length_take; lia|]. split; [rewrite !length_app, length_take, length_drop; lia|].
  by apply Permutation_app_head, Permutation_app_tail.
Qed.

Lemma range_perm_length a a' left right : range_perm a a' left right -> length a' = length a.
Proof. intros (p & s & s' & q & -> & -> & _ & _ & H). by rewrite !length_app, H. Qed.

Lemma range_perm_perm a a' left right : range_perm a a' left right -> a ≡ₚ a'.
Proof. intros (p & s & s' & q & -> & -> & _ & _ & H). by rewrite H. Qed.

(** Outside the range nothing changes, and what holds of all elements of the
    range still does. *)
Lemma range_perm_out a a' left right k : range_perm a a' left right -> (k < left \/ right <= k)%nat -> a' !! k = a !! k.
Proof.
  intros (p & s & s' & q & -> & -> & <- & <- & H) Hk. apply Permutation_length in H. destruct Hk.
  - by rewrite !lookup_app_l.
  - by rewrite !lookup_app_r, H by lia.
Qed.

Definition all_in (P : T -> Prop) (a : list T) (left right : nat) : Prop :=
  forall k x, (left <= k < right)%nat -> a !! k = Some x -> P x.

Lemma range_perm_all P a a' left right l r : range_perm a a' left right -> (l <= left)%nat -> (right <= r)%nat ->
  all_in P a l r -> all_in P a' l r.
Proof.
  intros (p & s & s' & q & -> & -> & <- & <- & H) Hl Hr Ha k x Hk Hx. pose proof (Permutation_length H) as L.
  destruct (decide (k < length p)%nat); [|destruct (decide (k < length p + length s)%nat)].
  - apply (Ha k); [done|]. rewrite lookup_app_l in * by done. done.
  - rewrite lookup_app_r, lookup_app_l in Hx by lia. apply list_elem_of_lookup_2 in Hx. rewrite <- H in Hx.
    apply list_elem_of_lookup_1 in Hx as (i & Hi). pose proof (lookup_lt_Some _ _ _ Hi).
    apply (Ha (length p + i)%nat); [lia|]. rewrite lookup_app_r, lookup_app_l by lia. by replace (length p + i - length p)%nat with i by lia.
  - apply (Ha k); [done|]. rewrite !lookup_app_r in * by lia. by rewrite L.
Qed.

Lemma swap_lookup a i j k : (i < length a)%nat -> (j < length a)%nat ->
  swap a i j !! k = if decide (k = j) then a !! i else if decide (k = i) then a !! j else a !! k.
Proof.
  intros [x Hx]%lookup_lt_is_Some [y Hy]%lookup_lt_is_Some. unfold swap. rewrite Hx, Hy.
  pose proof (lookup_lt_Some _ _ _ Hx). pose proof (lookup_lt_Some _ _ _ Hy).
  destruct (decide (k = j)) as [->|]; [by rewrite list_lookup_insert_eq by (by rewrite length_insert)|].
  rewrite list_lookup_insert_ne by done.
  destruct (decide (k = i)) as [->|]; [by rewrite list_lookup_insert_eq|by rewrite list_lookup_insert_ne].
Qed.

Lemma swap_length a i j : length (swap a i j) = length a.
Proof. unfold swap. destruct (a !! i), (a !! j); by rewrite ?length_insert. Qed.

Lemma swap_sym a i j : swap a i j = swap a j i.
Proof.
  unfold swap. destruct (a !! i) as [x|] eqn:Ex, (a !! j) as [y|] eqn:Ey; try done.
  destruct (decide (i = j)) as [->|]; [congruence|]. by rewrite list_insert_insert_ne.
Qed.

Lemma swap_range a i j left right : (left <= i < right)%nat -> (left <= j < right)%nat -> (right <= length a)%nat ->
  range_perm a (swap a i j) left right.
Proof.
  intros Hi Hj Hr. destruct (decide (i = j)) as [->|Hne].
  { replace (swap a j j) with a; [apply range_perm_refl; lia|]. unfold swap.
    destruct (a !! j) as [x|] eqn:E; [|done]. by rewrite !list_insert_id by (by rewrite ?list_insert_id). }
  revert i j Hne Hi Hj.
  enough (forall i j, (left <= i < j)%nat -> (j < right)%nat -> range_perm a (swap a i j) left right) as Hlt.
  { intros i j Hne Hi Hj. destruct (decide (i < j)%nat); [by apply Hlt; lia|]. rewrite swap_sym. apply Hlt; lia. }
  intros i j Hi Hj. apply range_perm_widen with (l := i) (r := S j); [|lia|lia].
  destruct (lookup_lt_is_Some_2 a i ltac:(lia)) as [x Hx].
  destruct (lookup_lt_is_Some_2 a j ltac:(lia)) as [y Hy].
  assert (a = take i a ++ (x :: take (j - i - 1) (drop (S i) a) ++ [y]) ++ drop (S j) a) as E.
  { rewrite <- (take_drop_middle a i x Hx) at 1. f_equal. cbn [app]. f_equal. rewrite <- app_assoc. cbn [app].
    rewrite <- (take_drop_middle (drop (S i) a) (j - i - 1) y) at 1.
    - f_equal. f_equal. rewrite drop_drop. f_equal. lia.
    - rewrite lookup_drop. rewrite <- Hy. f_equal. lia. }
  exists (take i a), (x :: take (j - i - 1) (drop (S i) a) ++ [y]), (y :: take (j - i - 1) (drop (S i) a) ++ [x]), (drop (S j) a).
  assert (length (take i a) = i) as Lp by (rewrite length_take; lia).
  assert (length (take (j - i - 1) (drop (S i) a)) = (j - i - 1)%nat) as Lm by (rewrite length_take, length_drop; lia).
  split; [exact E|]. split; [|split; [done|split; [cbn [length]; rewrite length_app, Lm; cbn [length]; lia|]]].
  - unfold swap. rewrite Hx, Hy. rewrite E at 1. generalize (take i a), (take (j - i - 1) (drop (S i) a)), (drop (S j) a), Lp, Lm.
    clear -Hi. intros p m q <- Lm. rewrite (insert_app_r_alt p) by lia. rewrite Nat.sub_diag.
    change (<[0%nat:=y]> ((x :: m ++ [y]) ++ q)) with (y :: (m ++ [y]) ++ q).
    rewrite (insert_app_r_alt p) by lia. f_equal. replace (j - length p)%nat with (S (length m)) by lia.
    change (y :: <[length m := x]> ((m ++ [y]) ++ q) = (y :: m ++ [x]) ++ q). cbn [app]. f_equal.
    rewrite <- !app_assoc. rewrite insert_app_r_alt by lia. by rewrite Nat.sub_diag.
  - solve_Permutation.
Qed.

(** ** The partition *)
Lemma less_spec a i j x y : a !! i = Some x -> a !! j = Some y -> less a i j = (comp x y <? 0).
Proof. intros Hx Hy. unfold less. by rewrite Hx, Hy. Qed.

Lemma partition_loop_ok n : forall a i mid left last p,
  (left <= mid <= i)%nat -> (i + n = last)%nat -> (last < length a)%nat -> a !! last = Some p ->
  all_in (fun x => comp x p < 0) a left mid -> all_in (fun x => 0 <= comp x p) a mid i ->
  let (a', mid') := partition_loop a i n mid last in
  (mid <= mid' <= last)%nat /\ range_perm a a' left last /\
  all_in (fun x => comp x p < 0) a' left mid' /\ all_in (fun x => 0 <= comp x p) a' mid' last.
Proof.
  induction n as [|n IH]; intros a i mid left last p Hm Hi Hl Hp Hlow Hhigh; cbn [partition_loop].
  { replace last with i by lia. split; [lia|]. split; [apply range_perm_refl; lia|done]. }
  destruct (lookup_lt_is_Some_2 a i ltac:(lia)) as [x Hx].
  rewrite (less_spec a i last x p) by done. destruct (Z.ltb_spec (comp x p) 0) as [Hc|Hc].
  - assert (forall k, swap a i mid !! k = if decide (k = mid) then Some x else if decide (k = i) then a !! mid else a !! k) as Hs.
    { intros k. by rewrite swap_lookup, Hx by lia. }
    specialize (IH (swap a i mid) (S i) (S mid) left last p).
    destruct (partition_loop (swap a i mid) (S i) n (S mid) last) as [a' mid'].
    destruct IH as (H1 & H2 & H3 & H4); try lia; [by rewrite swap_length| | | |].
    + rewrite Hs. by rewrite !decide_False by lia.
    + intros k y Hk. rewrite Hs. destruct (decide (k = mid)) as [->|]; [by intros [= <-]|].
      rewrite decide_False by lia. apply Hlow. lia.
    + intros k y Hk. rewrite Hs. rewrite decide_False by lia.
      destruct (decide (k = i)) as [->|]; apply Hhigh; lia.
    + split; [lia|]. split; [|done]. eapply range_perm_trans; [|exact H2]. apply swap_range; lia.
  - specialize (IH a (S i) mid left last p). destruct (partition_loop a (S i) n mid last) as [a' mid'].
    apply IH; try done; try lia. intros k y Hk Hy.
    destruct (decide (k = i)) as [->|]; [|apply (Hhigh k); [lia|done]]. rewrite Hx in Hy. by injection Hy as <-.
Qed.

Lemma partition_ok a left right : (left < right <= length a)%nat ->
  let (a', mid) := MojQuickSortPartition a left right in
  (left <= mid < right)%nat /\ range_perm a a' left right /\
  exists p, a' !! mid = Some p /\ all_in (fun x => comp x p < 0) a' left mid /\
            all_in (fun x => 0 <= comp x p) a' (S mid) right.
Proof.
  intros H. unfold MojQuickSortPartition.
  pose proof (Nat.mod_upper_bound (MojRand left) (right - left) ltac:(lia)) as Hr.
  set (pivot := (left + MojRand left mod (right - left))%nat). set (last := (right - 1)%nat).
  assert (range_perm a (swap a pivot last) left right) as H0 by (apply swap_range; lia).
  pose proof (range_perm_length _ _ _ _ H0) as L0.
  destruct (lookup_lt_is_Some_2 (swap a pivot last) last ltac:(lia)) as [p Hp].
  pose proof (partition_loop_ok (last - left) (swap a pivot last) left left left last p) as HL.
  destruct (partition_loop (swap a pivot last) left (last - left) left last) as [a1 mid].
  destruct HL as (Hmid & H1 & Hlow & Hhigh); [lia|lia|lia|done|intros k x Hk; lia|intros k x Hk; lia|].
  pose proof (range_perm_length _ _ _ _ H1) as L1.
  assert (a1 !! last = Some p) as Hp1 by (rewrite (range_perm_out _ _ _ _ last H1) by lia; done).
  split; [lia|]. split.
  { eapply range_perm_trans; [exact H0|]. eapply range_perm_trans; [|apply swap_range; lia].
    eapply range_perm_widen; [exact H1|lia|lia]. }
  exists p. assert (forall k, swap a1 mid last !! k = if decide (k = last) then a1 !! mid else if decide (k = mid) then Some p else a1 !! k) as Hs.
  { intros k. by rewrite swap_lookup, Hp1 by lia. }
  split; [|split].
  - rewrite Hs. destruct (decide (mid = last)) as [->|]; [done|]. by rewrite decide_True.
  - intros k x Hk. rewrite Hs, !decide_False by lia. by apply Hlow.
  - intros k x Hk. rewrite Hs. destruct (decide (k = last)) as [->|].
    + intros Hx. apply (Hhigh mid); [lia|done].
    + rewrite decide_False by lia. apply Hhigh. lia.
Qed.

(** ** The sort *)
Context `{!CompLaws comp}.

Definition range_sorted (a : list T) (left right : nat) : Prop :=
  forall i j x y, (left <= i)%nat -> (i < j < right)%nat -> a !! i = Some x -> a !! j = Some y -> comp x y <= 0.

Lemma sort_ok fuel : forall a left right, (right - left <= fuel)%nat -> (left <= right <= length a)%nat ->
  range_perm a (MojQuickSortImpl fuel a left right) left right /\
  range_sorted (MojQuickSortImpl fuel a left right) left right.
Proof.
  induction fuel as [|fuel IH]; intros a left right Hf Hr; cbn [MojQuickSortImpl].
  { split; [by apply range_perm_refl|]. intros i j x y Hi Hj. lia. }
  destruct (Nat.leb_spec right (left + 1)) as [Hle|Hgt].
  { split; [by apply range_perm_refl|]. intros i j x y Hi Hj. lia. }
  pose proof (partition_ok a left right ltac:(lia)) as HP.
  destruct (MojQuickSortPartition a left right) as [a1 mid]. destruct HP as (Hmid & P1 & p & Hp & Hlow & Hhigh).
  pose proof (range_perm_length _ _ _ _ P1) as L1.
  destruct (IH a1 left mid) as [P2 S2]; [lia|lia|]. set (a2 := MojQuickSortImpl fuel a1 left mid) in *.
  pose proof (range_perm_length _ _ _ _ P2) as L2.
  destruct (IH a2 (mid + 1)%nat right) as [P3 S3]; [lia|lia|]. set (a3 := MojQuickSortImpl fuel a2 (mid + 1) right) in *.
  split.
  { eapply range_perm_trans; [exact P1|].
    eapply range_perm_trans; eapply range_perm_widen; [exact P2|lia|lia|exact P3|lia|lia]. }
  assert (a3 !! mid = Some p) as Hp3.
  { rewrite (range_perm_out _ _ _ _ mid P3), (range_perm_out _ _ _ _ mid P2) by lia. done. }
  assert (all_in (fun x => comp x p < 0) a3 left mid) as Hlow3.
  { intros k x Hk. rewrite (range_perm_out _ _ _ _ k P3) by lia.
    apply (range_perm_all _ _ _ _ _ left mid P2 ltac:(lia) ltac:(lia) Hlow k x Hk). }
  assert (all_in (fun x => 0 <= comp x p) a3 (mid + 1) right) as Hhigh3.
  { eapply range_perm_all; [exact P3|lia|lia|]. intros k x Hk. rewrite (range_perm_out _ _ _ _ k P2) by lia.
    apply Hhigh. lia. }
  intros i j x y Hi Hj Hx Hy.
  assert (forall z, 0 <= comp z p -> comp p z <= 0) as Hflip.
  { intros z Hz. pose proof (comp_anti comp z p). lia. }
  destruct (decide (i < mid)%nat).
  - destruct (decide (j < mid)%nat).
    + apply (S2 i j); try lia; [by rewrite <- (range_perm_out _ _ _ _ i P3) by lia|by rewrite <- (range_perm_out _ _ _ _ j P3) by lia].
    + assert (comp x p < 0) as H1 by (apply (Hlow3 i); [lia|done]).
      destruct (decide (j = mid)) as [->|]; [rewrite Hp3 in Hy; injection Hy as <-; lia|].
      assert (0 <= comp y p) as H2 by (apply (Hhigh3 j); [lia|done]). pose proof (comp_lt_le_trans comp x p y H1 (Hflip y H2)). lia.
  - destruct (decide (i = mid)) as [->|].
    + rewrite Hp3 in Hx. injection Hx as <-. apply Hflip, (Hhigh3 j); [lia|done].
    + apply (S3 i j); [lia|lia|done|done].
Qed.

(** More fuel changes nothing. *)
Lemma sort_fuel fuel : forall fuel2 a left right, (right - left <= fuel)%nat -> (fuel <= fuel2)%nat -> (left <= right <= length a)%nat ->
  MojQuickSortImpl fuel2 a left right = MojQuickSortImpl fuel a left right.
Proof.
  induction fuel as [|fuel IH]; intros [|fuel2] a left right Hf Hle Hr; try lia; cbn [MojQuickSortImpl]; [done| |].
  { destruct (Nat.leb_spec right (left + 1)); [done|lia]. }
  destruct (Nat.leb_spec right (left + 1)); [done|].
  pose proof (partition_ok a left right ltac:(lia)) as HP.
  destruct (MojQuickSortPartition a left right) as [a1 mid]. destruct HP as (Hmid & P1 & _).
  pose proof (range_perm_length _ _ _ _ P1) as L1.
  rewrite (IH fuel2 a1 left mid) by lia. apply IH; [lia|lia|].
  destruct (sort_ok fuel a1 left mid) as [P2 _]; [lia|lia|].
  rewrite (range_perm_length _ _ _ _ P2). lia.
Qed.

Lemma range_sorted_strongly a : range_sorted a 0 (length a) -> StronglySorted (fun x y => comp x y <= 0) a.
Proof.
  induction a as [|x a IH]; intros H; [constructor|]. constructor.
  - apply IH. intros i j y z Hi Hj Hy Hz. apply (H (S i) (S j) y z); cbn [length]; (lia || done).
  - apply Forall_forall. intros y [j Hj]%list_elem_of_lookup_1. pose proof (lookup_lt_Some _ _ _ Hj).
    apply (H 0%nat (S j) x y); cbn [length]; (lia || done).
Qed.

Lemma sort_sorted a : MojQuickSort a ≡ₚ a /\ StronglySorted (fun x y => comp x y <= 0) (MojQuickSort a).
Proof.
  destruct (sort_ok (length a) a 0 (length a)) as [P S]; [lia|lia|]. split.
  - symmetry. by eapply range_perm_perm.
  - apply range_sorted_strongly. unfold MojQuickSort. by rewrite (range_perm_length _ _ _ _ P).
Qed.
End sort.

(** C35: for every source of random numbers the sort returns its elements in
    order, and the recursion ends: as much fuel as there are elements is enough, and
    more changes nothing. *)
Theorem sort_exact {T : Type} (comp : T -> T -> Z) `{!CompLaws comp} (MojRand : nat -> nat) (a : list T) :
  MojQuickSort comp MojRand a ≡ₚ a /\
  StronglySorted (fun x y => comp x y <= 0) (MojQuickSort comp MojRand a) /\
  forall fuel, (length a <= fuel)%nat -> MojQuickSortImpl comp MojRand fuel a 0 (length a) = MojQuickSort comp MojRand a.
Proof.
  destruct (sort_sorted comp MojRand a) as [P S]. split; [done|]. split; [done|].
  intros fuel Hf. apply sort_fuel; [done|lia|done|lia].
Qed.

Lemma sort_exact_witness : MojQuickSort MojComp (fun seed => seed + 7)%nat [3; 1; 2; 3; 0] = [0; 1; 2; 3; 3] /\
  MojQuickSortImpl MojComp (fun seed => seed + 7)%nat 9 [3; 1; 2; 3; 0] 0 5 = MojQuickSort MojComp (fun seed => seed + 7)%nat [3; 1; 2; 3; 0].
Proof.
  split; [reflexivity|].
  refine (proj2 (proj2 (sort_exact MojComp (fun seed => seed + 7)%nat [3; 1; 2; 3; 0])) 9%nat _). cbn. lia.
Defined.
End MojQuickSort.
