(* ===== verification/CoreUtil.v ===== *)
(** * Utilities of src/src/core/MojUtil.cpp

    The hash function, the file-name safe base 64 encoding, byte-wise comparison
    of keys, hexadecimal printing, and C's [strtoll], which [MojStrToInt64] is. *)

From S2P Require Import Prelude Containers.

(** ** [MojHash]: SuperFastHash on unsigned 32-bit integers *)
Module MojHash.
Definition u32 (x : Z) : Z := to_uint 32 x.

Definition MojGet16Bits (b0 b1 : Z) : Z := u32 (Z.shiftl b1 8 + b0).

(** The main loop, four bytes a turn; what is left goes to the end cases. *)
Fixpoint mainLoop (src : bytes) (hash : Z) : Z * bytes :=
  match src with
  | a :: b :: c :: d :: src' =>
      let hash := u32 (hash + MojGet16Bits a b) in
      let tmp := Z.lxor (u32 (Z.shiftl (MojGet16Bits c d) 11)) hash in
      let hash := Z.lxor (u32 (Z.shiftl hash 16)) tmp in
      let hash := u32 (hash + Z.shiftr hash 11) in
      mainLoop src' hash
  | _ => (hash, src)
  end.

Definition endCases (hash : Z) (src : bytes) : Z :=
  match src with
  | [a; b; c] =>
      let hash := u32 (hash + MojGet16Bits a b) in
      let hash := Z.lxor hash (u32 (Z.shiftl hash 16)) in
      let hash := Z.lxor hash (u32 (Z.shiftl c 18)) in
      u32 (hash + Z.shiftr hash 11)
  | [a; b] =>
      let hash := u32 (hash + MojGet16Bits a b) in
      let hash := Z.lxor hash (u32 (Z.shiftl hash 11)) in
      u32 (hash + Z.shiftr hash 17)
  | [a] =>
      let hash := u32 (hash + a) in
      let hash := Z.lxor hash (u32 (Z.shiftl hash 10)) in
      u32 (hash + Z.shiftr hash 1)
  | _ => hash
  end.

Definition avalanche (hash : Z) : Z :=
  let hash := Z.lxor hash (u32 (Z.shiftl hash 3)) in
  let hash := u32 (hash + Z.shiftr hash 5) in
  let hash := Z.lxor hash (u32 (Z.shiftl hash 4)) in
  let hash := u32 (hash + Z.shiftr hash 17) in
  let hash := Z.lxor hash (u32 (Z.shiftl hash 25)) in
  u32 (hash + Z.shiftr hash 6).

Definition MojHash (p : bytes) : Z :=
  match p with
  | [] => 0
  | _ =>
      let '(hash, rest) := mainLoop p (u32 (Z.of_nat (length p))) in
      avalanche (endCases hash rest)
  end.

(** [MojStrLen]: the characters before the first NUL. *)
Fixpoint MojStrLen (s : mstring) : nat :=
  match s with [] => O | c :: s' => if c =? 0 then O else S (MojStrLen s') end.

Definition MojHash_str (str : mstring) : Z := MojHash (take (MojStrLen str) str).

(** [MojIntHasher]: the bytes of the integer, least significant first. *)
Fixpoint le_bytes (n : nat) (v : Z) : bytes :=
  match n with O => [] | S n' => Z.land v 255 :: le_bytes n' (Z.shiftr v 8) end.

Definition MojIntHasher (size : nat) (i : Z) : Z := MojHash (le_bytes size i).

Lemma MojHash_u32 p : in_uint 32 (MojHash p).
Proof.
  unfold in_uint, MojHash. destruct p as [|b p]; [lia|].
  destruct (mainLoop _ _) as [h rest]. unfold avalanche, u32, to_uint. apply Z.mod_pos_bound. lia.
Qed.

(** Strings that [strcmp] takes for equal hash alike. *)
Lemma MojHash_str_eq s1 s2 : MojStrCmp s1 s2 = 0 -> str_ok s1 -> str_ok s2 ->
  MojHash_str s1 = MojHash_str s2.
Proof. intros H H1 H2. apply MojStrCmp_eq in H; congruence. Qed.
End MojHash.

(** ** Base 64 *)
Module MojBase64.
Definition MojBase64EncodedLenMax (srcSize : nat) : nat := ((srcSize + 2) / 3 * 4)%nat.
Definition MojBase64DecodedSizeMax (encodedLen : nat) : nat := ((encodedLen + 3) / 4 * 3)%nat.

Definition chars : mstring :=
  _T "+0123456789ABCDEFGHIJKLMNOPQRSTUVWXYZ_abcdefghijklmnopqrstuvwxyz".
Definition charsMIME : mstring :=
  _T "ABCDEFGHIJKLMNOPQRSTUVWXYZabcdefghijklmnopqrstuvwxyz0123456789+/".

Definition vals : list Z := [
  255;255;255;255;255;255;255;255;255;255;255;255;255;255;255;255;
  255;255;255;255;255;255;255;255;255;255;255;255;255;255;255;255;
  255;255;255;255;255;255;255;255;255;255;255;  0;255;255;255;255;
    1;  2;  3;  4;  5;  6;  7;  8;  9; 10;255;255;255;255;255;255;
  255; 11; 12; 13; 14; 15; 16; 17; 18; 19; 20; 21; 22; 23; 24; 25;
   26; 27; 28; 29; 30; 31; 32; 33; 34; 35; 36;255;255;255;255; 37;
  255; 38; 39; 40; 41; 42; 43; 44; 45; 46; 47; 48; 49; 50; 51; 52;
   53; 54; 55; 56; 57; 58; 59; 60; 61; 62; 63 ].

Definition valsMIME : list Z := [
  255;255;255;255;255;255;255;255;255;255;255;255;255;255;255;255;
  255;255;255;255;255;255;255;255;255;255;255;255;255;255;255;255;
  255;255;255;255;255;255;255;255;255;255;255; 62;255;255;255; 63;
   52; 53; 54; 55; 56; 57; 58; 59; 60; 61;255;255;255;255;255;255;
  255;  0;  1;  2;  3;  4;  5;  6;  7;  8;  9; 10; 11; 12; 13; 14;
   15; 16; 17; 18; 19; 20; 21; 22; 23; 24; 25;255;255;255;255;255;
  255; 26; 27; 28; 29; 30; 31; 32; 33; 34; 35; 36; 37; 38; 39; 40;
   41; 42; 43; 44; 45; 46; 47; 48; 49; 50; 51 ].

Definition char_at (charset : mstring) (i : Z) : Z := nth (Z.to_nat i) charset 0.

(** The chunks of three bytes, then the remainder. *)
Fixpoint encodeLoop (charset : mstring) (src : bytes) (pad : bool) : mstring :=
  match src with
  | a :: b :: c :: src' =>
      let chunk := Z.shiftl a 16 + Z.shiftl b 8 + c in
      char_at charset (Z.shiftr chunk 18)
      :: char_at charset (Z.land (Z.shiftr chunk 12) 63)
      :: char_at charset (Z.land (Z.shiftr chunk 6) 63)
      :: char_at charset (Z.land chunk 63)
      :: encodeLoop charset src' pad
  | [a; b] =>
      let chunk := Z.shiftl a 16 + Z.shiftl b 8 in
      [char_at charset (Z.shiftr chunk 18); char_at charset (Z.land (Z.shiftr chunk 12) 63);
       char_at charset (Z.land (Z.shiftr chunk 6) 63)] ++ (if pad then [chr "="] else [])
  | [a] =>
      let chunk := Z.shiftl a 16 in
      [char_at charset (Z.shiftr chunk 18); char_at charset (Z.land (Z.shiftr chunk 12) 63)]
      ++ (if pad then [chr "="; chr "="] else [])
  | [] => []
  end.

Definition MojBase64EncodeImpl (charset : mstring) (src : bytes) (bufLen : nat) (pad : bool) : res mstring :=
  if (bufLen <? MojBase64EncodedLenMax (length src))%nat then Err MojErrInsufficientBuf
  else Ok (encodeLoop charset src pad).

Definition MojBase64Encode (src : bytes) (bufLen : nat) (pad : bool) : res mstring :=
  MojBase64EncodeImpl chars src bufLen pad.
Definition MojBase64EncodeMIME (src : bytes) (bufLen : nat) (pad : bool) : res mstring :=
  MojBase64EncodeImpl charsMIME src bufLen pad.

(** One turn of the padding loop. *)
Definition trim1 (src : mstring) : mstring :=
  match last src with Some c => if c =? chr "=" then removelast src else src | None => src end.

Record decodeState := { ds_i : Z; ds_chunk : Z; ds_dest : bytes }.

Definition decodeStep (vals : list Z) (s : decodeState) (c : Z) : res decodeState :=
  match vals !! Z.to_nat c with
  | None => Err MojErrInvalidBase64Data
  | Some b =>
      if b =? 255 then Err MojErrInvalidBase64Data else
      let i := ds_i s in
      let chunk := ds_chunk s in
      match Z.land i 3 with
      | 0 => Ok {| ds_i := i + 1; ds_chunk := Z.shiftl b 18; ds_dest := ds_dest s |}
      | 1 => Ok {| ds_i := i + 1; ds_chunk := Z.lor chunk (Z.shiftl b 12); ds_dest := ds_dest s |}
      | 2 => Ok {| ds_i := i + 1; ds_chunk := Z.lor chunk (Z.shiftl b 6); ds_dest := ds_dest s |}
      | _ =>
          let chunk := Z.lor chunk b in
          Ok {| ds_i := i + 1; ds_chunk := chunk;
                ds_dest := ds_dest s ++ [to_uint 8 (Z.shiftr chunk 16);
                                         Z.land (Z.shiftr chunk 8) 255; Z.land chunk 255] |}
      end
  end.

(** The result is what was written to the buffer and [sizeOut]. *)
Definition MojBase64DecodeImpl (vals : list Z) (src : mstring) (bufSize : nat) : res (bytes * Z) :=
  let sizeOut := MojBase64DecodedSizeMax (length src) in
  if (bufSize <? sizeOut)%nat then Err MojErrInsufficientBuf else
  let src := trim1 (trim1 src) in
  let? s := res_fold (decodeStep vals) {| ds_i := 0; ds_chunk := 0; ds_dest := [] |} src in
  let chunk := ds_chunk s in
  match Z.land (Z.of_nat (length src)) 3 with
  | 0 => Ok (ds_dest s, Z.of_nat sizeOut)
  | 2 => Ok (ds_dest s ++ [to_uint 8 (Z.shiftr chunk 16)], Z.of_nat sizeOut - 2)
  | 3 => Ok (ds_dest s ++ [to_uint 8 (Z.shiftr chunk 16); Z.land (Z.shiftr chunk 8) 255],
             Z.of_nat sizeOut - 1)
  | _ => Err MojErrInvalidBase64Data
  end.

Definition MojBase64Decode (src : mstring) (bufSize : nat) : res (bytes * Z) :=
  MojBase64DecodeImpl vals src bufSize.
Definition MojBase64DecodeMIME (src : mstring) (bufSize : nat) : res (bytes * Z) :=
  MojBase64DecodeImpl valsMIME src bufSize.

(** *** Decoding undoes encoding *)

Lemma shift_step n k : 0 <= k ->
  Z.lor (Z.shiftl (Z.shiftr n (k + 6)) (k + 6)) (Z.shiftl (Z.land (Z.shiftr n k) 63) k)
  = Z.shiftl (Z.shiftr n k) k.
Proof.
  intros Hk. rewrite <- (Z.shiftr_shiftr n k 6), (Z.add_comm k 6), <- (Z.shiftl_shiftl _ 6 k),
    <- Z.shiftl_lor by lia.
  f_equal. generalize (Z.shiftr n k) as m. intros m. apply Z.bits_inj'. intros i Hi.
  change 63 with (Z.ones 6). rewrite Z.lor_spec, Z.land_spec, Z.shiftl_spec, Z.testbit_ones by lia.
  destruct (Z_lt_le_dec i 6).
  - rewrite (Z.testbit_neg_r _ (i - 6)), (proj2 (Z.leb_le 0 i)), (proj2 (Z.ltb_lt i 6)) by lia.
    by rewrite andb_true_r.
  - rewrite Z.shiftr_spec, (proj2 (Z.ltb_ge i 6)) by lia.
    rewrite andb_false_r, andb_false_r, orb_false_r. f_equal. lia.
Qed.

Lemma shift_step12 n :
  Z.lor (Z.shiftl (Z.shiftr n 18) 18) (Z.shiftl (Z.land (Z.shiftr n 12) 63) 12)
  = Z.shiftl (Z.shiftr n 12) 12.
Proof. by apply (shift_step n 12). Qed.

Lemma shift_step6 n :
  Z.lor (Z.shiftl (Z.shiftr n 12) 12) (Z.shiftl (Z.land (Z.shiftr n 6) 63) 6)
  = Z.shiftl (Z.shiftr n 6) 6.
Proof. by apply (shift_step n 6). Qed.

Lemma chunk_join n :
  Z.lor (Z.lor (Z.lor (Z.shiftl (Z.shiftr n 18) 18) (Z.shiftl (Z.land (Z.shiftr n 12) 63) 12))
    (Z.shiftl (Z.land (Z.shiftr n 6) 63) 6)) (Z.land n 63) = n.
Proof.
  rewrite shift_step12, shift_step6.
  pose proof (shift_step n 0 ltac:(lia)) as H.
  by rewrite !Z.shiftr_0_r, !Z.shiftl_0_r in H.
Qed.

Lemma sextets n : 0 <= n < 2 ^ 24 ->
  0 <= Z.shiftr n 18 < 64 /\ 0 <= Z.land (Z.shiftr n 12) 63 < 64
  /\ 0 <= Z.land (Z.shiftr n 6) 63 < 64 /\ 0 <= Z.land n 63 < 64.
Proof.
  intros Hn. change 63 with (Z.ones 6). rewrite !Z.land_ones, !Z.shiftr_div_pow2 by lia.
  change (2 ^ 6) with 64. change (2 ^ 18) with 262144. change (2 ^ 12) with 4096.
  Z.to_euclidean_division_equations. lia.
Qed.

Lemma chunk_bytes a b c : is_byte a -> is_byte b -> is_byte c ->
  let n := Z.shiftl a 16 + Z.shiftl b 8 + c in
  0 <= n < 2 ^ 24 /\ to_uint 8 (Z.shiftr n 16) = a /\ Z.land (Z.shiftr n 8) 255 = b
  /\ Z.land n 255 = c.
Proof.
  unfold is_byte, to_uint. intros Ha Hb Hc; cbv zeta. change 255 with (Z.ones 8).
  rewrite !Z.land_ones, !Z.shiftr_div_pow2, !Z.shiftl_mul_pow2 by lia.
  change (2 ^ 8) with 256. change (2 ^ 16) with 65536. Z.to_euclidean_division_equations. lia.
Qed.

(** The third and second sextets keep what the remainder needs. *)
Lemma chunk_rest n : 0 <= n < 2 ^ 24 ->
  Z.shiftr (Z.shiftl (Z.shiftr n 6) 6) 16 = Z.shiftr n 16
  /\ Z.shiftr (Z.shiftl (Z.shiftr n 12) 12) 16 = Z.shiftr n 16
  /\ Z.land (Z.shiftr (Z.shiftl (Z.shiftr n 6) 6) 8) 255 = Z.land (Z.shiftr n 8) 255.
Proof.
  intros Hn. change 255 with (Z.ones 8).
  rewrite !Z.land_ones, !Z.shiftr_div_pow2, !Z.shiftl_mul_pow2 by lia.
  change (2 ^ 8) with 256. change (2 ^ 16) with 65536. change (2 ^ 6) with 64.
  change (2 ^ 12) with 4096. Z.to_euclidean_division_equations. lia.
Qed.

Section roundtrip.
Context (charset : mstring) (vals : list Z).
Context (Hinv : forallb (fun i => let i := Z.of_nat i in
  match vals !! Z.to_nat (char_at charset i) with
  | Some b => (b =? i) && negb (char_at charset i =? chr "=") | None => false end)
  (seq 0 64) = true).

Lemma vals_char i : 0 <= i < 64 ->
  vals !! Z.to_nat (char_at charset i) = Some i /\ char_at charset i <> chr "=".
Proof.
  intros Hi. rewrite List.forallb_forall in Hinv.
  specialize (Hinv (Z.to_nat i) ltac:(apply List.in_seq; lia)). cbv zeta in Hinv. rewrite Z2Nat.id in Hinv by lia.
  destruct (vals !! _) as [b|] eqn:E; [|done]. bool_lia. by subst.
Qed.

Lemma decodeStep_char s i : 0 <= i < 64 ->
  decodeStep vals s (char_at charset i) =
    match Z.land (ds_i s) 3 with
    | 0 => Ok {| ds_i := ds_i s + 1; ds_chunk := Z.shiftl i 18; ds_dest := ds_dest s |}
    | 1 => Ok {| ds_i := ds_i s + 1; ds_chunk := Z.lor (ds_chunk s) (Z.shiftl i 12); ds_dest := ds_dest s |}
    | 2 => Ok {| ds_i := ds_i s + 1; ds_chunk := Z.lor (ds_chunk s) (Z.shiftl i 6); ds_dest := ds_dest s |}
    | _ => let chunk := Z.lor (ds_chunk s) i in
          Ok {| ds_i := ds_i s + 1; ds_chunk := chunk;
                ds_dest := ds_dest s ++ [to_uint 8 (Z.shiftr chunk 16);
                                         Z.land (Z.shiftr chunk 8) 255; Z.land chunk 255] |}
    end.
Proof.
  intros Hi. unfold decodeStep. destruct (vals_char i Hi) as [-> _].
  destruct (Z.eqb_spec i 255); [lia|done].
Qed.

(** What the padding loop leaves. *)
Lemma trim1_pad l : trim1 (l ++ [chr "="]) = l.
Proof. unfold trim1. by rewrite last_snoc, Z.eqb_refl, List.removelast_last. Qed.

Lemma trim1_char l i : 0 <= i < 64 -> trim1 (l ++ [char_at charset i]) = l ++ [char_at charset i].
Proof.
  intros Hi. unfold trim1. rewrite last_snoc. destruct (vals_char i Hi) as [_ H].
  by destruct (Z.eqb_spec (char_at charset i) (chr "=")).
Qed.

Lemma trim1_cons4 a b c d l : l <> [] ->
  trim1 (a :: b :: c :: d :: l) = a :: b :: c :: d :: trim1 l.
Proof. intros Hl. unfold trim1. destruct l as [|x l]; [done|]. simpl. by destruct (last (x :: l)) as [y|]; [destruct (y =? _)|]. Qed.

Lemma triple_ind {A} (P : list A -> Prop) :
  P [] -> (forall a, P [a]) -> (forall a b, P [a; b]) ->
  (forall a b c l, P l -> P (a :: b :: c :: l)) -> forall l, P l.
Proof.
  intros H0 H1 H2 H3. fix IH 1. intros [|a [|b [|c l]]]; [apply H0|apply H1|apply H2|apply H3, IH].
Qed.

Lemma encodeLoop_pad src : exists k, (k <= 2)%nat /\
  encodeLoop charset src true = encodeLoop charset src false ++ replicate k (chr "=").
Proof.
  induction src as [|a|a b|a b c l (k & Hk & IH)] using triple_ind;
    [exists 0%nat|exists 2%nat|exists 1%nat|exists k]; split; try lia; try done.
  simpl. by rewrite IH.
Qed.

Lemma encodeLoop_length src pad :
  Z.of_nat (length (encodeLoop charset src pad)) =
    4 * (Z.of_nat (length src) / 3) +
    (if Z.of_nat (length src) mod 3 =? 0 then 0 else if pad then 4 else Z.of_nat (length src) mod 3 + 1).
Proof.
  induction src as [|a|a b|a b c l IH] using triple_ind; try (destruct pad; reflexivity).
  simpl length. rewrite !Nat2Z.inj_succ, IH.
  replace (Z.succ (Z.succ (Z.succ (Z.of_nat (length l))))) with (Z.of_nat (length l) + 1 * 3) by lia.
  rewrite Z.div_add, Z_mod_plus_full by lia. lia.
Qed.

Lemma trim1_encode src : Forall is_byte src ->
  trim1 (encodeLoop charset src false) = encodeLoop charset src false.
Proof.
  induction src as [|a|a b|a b c l IH] using triple_ind; intros Hs; decompose_Forall_hyps.
  - done.
  - destruct (chunk_bytes a 0 0) as [Hn _]; [done|red; lia..|].
    rewrite Z.shiftl_0_l, !Z.add_0_r in Hn. destruct (sextets _ Hn) as (_ & H2 & _).
    by apply (trim1_char [_]).
  - destruct (chunk_bytes a b 0) as [Hn _]; [done..|red; lia|].
    rewrite Z.add_0_r in Hn. destruct (sextets _ Hn) as (_ & _ & H3 & _).
    by apply (trim1_char [_; _]).
  - simpl. destruct (chunk_bytes a b c) as [Hn _]; [done..|].
    destruct (sextets _ Hn) as (_ & _ & _ & H4).
    destruct (encodeLoop charset l false) as [|x E] eqn:HE.
    + by apply (trim1_char [_; _; _]).
    + rewrite trim1_cons4 by done. rewrite IH by done. done.
Qed.

Lemma trim_encode src pad : Forall is_byte src ->
  trim1 (trim1 (encodeLoop charset src pad)) = encodeLoop charset src false.
Proof.
  intros Hs. pose proof (trim1_encode src Hs) as H1. destruct pad; [|by rewrite !H1].
  destruct (encodeLoop_pad src) as (k & Hk & ->). destruct k as [|[|[|k]]]; [..|lia]; simpl.
  - by rewrite app_nil_r, !H1.
  - by rewrite trim1_pad, H1.
  - by rewrite (app_assoc _ [chr "="] [chr "="]), !trim1_pad.
Qed.

(** The loop over the characters of [src], from a chunk boundary. *)
Lemma decode_loop src s : Forall is_byte src -> Z.land (ds_i s) 3 = 0 ->
  exists s', res_fold (decodeStep vals) s (encodeLoop charset src false) = Ok s' /\
    match Z.of_nat (length src) mod 3 with
    | 0 => ds_dest s' = ds_dest s ++ src
    | 1 => ds_dest s' ++ [to_uint 8 (Z.shiftr (ds_chunk s') 16)] = ds_dest s ++ src
    | _ => ds_dest s' ++ [to_uint 8 (Z.shiftr (ds_chunk s') 16);
                          Z.land (Z.shiftr (ds_chunk s') 8) 255] = ds_dest s ++ src
    end.
Proof.
  assert (forall i k, Z.land i 3 = 0 -> 0 <= k < 4 -> Z.land (i + k) 3 = k) as Hland.
  { intros i k. change 3 with (Z.ones 2). rewrite !Z.land_ones by lia. change (2 ^ 2) with 4.
    Z.to_euclidean_division_equations. lia. }
  revert s. induction src as [|a|a b|a b c l IH] using triple_ind; intros s Hs H0;
    decompose_Forall_hyps.
  - eexists; split; [done|]. simpl. by rewrite app_nil_r.
  - destruct (chunk_bytes a 0 0) as (Hn & Ha & _); [done|red; lia..|].
    rewrite Z.shiftl_0_l, !Z.add_0_r in *. destruct (sextets _ Hn) as (S1 & S2 & _).
    rewrite decodeStep_char, H0 by done. simpl.
    rewrite decodeStep_char by done. simpl. rewrite (Hland _ 1) by (done || lia). simpl.
    eexists; split; [done|]. simpl. rewrite shift_step12.
    destruct (chunk_rest _ Hn) as (_ & -> & _). by rewrite Ha.
  - destruct (chunk_bytes a b 0) as (Hn & Ha & Hb & _); [done..|red; lia|].
    rewrite !Z.add_0_r in *. destruct (sextets _ Hn) as (S1 & S2 & S3 & _).
    rewrite decodeStep_char, H0 by done. simpl.
    rewrite decodeStep_char by done. simpl. rewrite (Hland _ 1) by (done || lia). simpl.
    rewrite decodeStep_char by done. simpl.
    rewrite <- (Z.add_assoc _ 1 1), (Hland _ 2) by (done || lia). simpl.
    eexists; split; [done|]. simpl. rewrite shift_step12, shift_step6.
    destruct (chunk_rest _ Hn) as (-> & _ & ->). by rewrite Ha, Hb.
  - destruct (chunk_bytes a b c) as (Hn & Ha & Hb & Hc); [done..|].
    destruct (sextets _ Hn) as (S1 & S2 & S3 & S4). simpl.
    rewrite decodeStep_char, H0 by done. simpl.
    rewrite decodeStep_char by done. simpl. rewrite (Hland _ 1) by (done || lia). simpl.
    rewrite decodeStep_char by done. simpl.
    rewrite <- (Z.add_assoc _ 1 1), (Hland _ 2) by (done || lia). simpl.
    rewrite decodeStep_char by done. simpl.
    rewrite <- (Z.add_assoc _ 2 1), (Hland _ 3) by (done || lia). simpl.
    rewrite chunk_join, Ha, Hb, Hc.
    match goal with |- context [res_fold _ ?st _] => destruct (IH st) as (s' & -> & Hm) end;
      [done| |].
    { simpl. revert H0. change 3 with (Z.ones 2). rewrite !Z.land_ones by lia.
      change (2 ^ 2) with 4. simpl Z.ones. Z.to_euclidean_division_equations. lia. }
    exists s'. split; [done|]. rewrite !Nat2Z.inj_succ.
    replace (Z.succ (Z.succ (Z.succ (Z.of_nat (length l))))) with (Z.of_nat (length l) + 1 * 3) by lia.
    rewrite Z_mod_plus_full. simpl in Hm. rewrite <- app_assoc in Hm. exact Hm.
Qed.

Lemma decode_encode src bufLen bufSize pad : Forall is_byte src ->
  (MojBase64EncodedLenMax (length src) <= bufLen)%nat ->
  (MojBase64DecodedSizeMax (length (encodeLoop charset src pad)) <= bufSize)%nat ->
  exists e, MojBase64EncodeImpl charset src bufLen pad = Ok e /\
    MojBase64DecodeImpl vals e bufSize = Ok (src, Z.of_nat (length src)).
Proof.
  intros Hs H1 H2. exists (encodeLoop charset src pad).
  unfold MojBase64EncodeImpl, MojBase64DecodeImpl.
  rewrite (proj2 (Nat.ltb_ge _ _) H1), (proj2 (Nat.ltb_ge _ _) H2). split; [done|].
  rewrite trim_encode by done.
  destruct (decode_loop src {| ds_i := 0; ds_chunk := 0; ds_dest := [] |}) as (s & -> & Hm); [done..|].
  pose proof (encodeLoop_length src false) as L. pose proof (encodeLoop_length src pad) as Lp.
  simpl in *. change 3 with (Z.ones 2). rewrite Z.land_ones, L by lia. change (2 ^ 2) with 4.
  unfold MojBase64DecodedSizeMax. rewrite Nat2Z.inj_mul, Nat2Z.inj_div, Nat2Z.inj_add, Lp.
  simpl Z.of_nat.
  pose proof (Z.mod_pos_bound (Z.of_nat (length src)) 3 ltac:(lia)).
  pose proof (Z.div_mod (Z.of_nat (length src)) 3 ltac:(lia)).
  set (q := Z.of_nat (length src) / 3) in *.
  assert (Z.of_nat (length src) mod 3 = 0 \/ Z.of_nat (length src) mod 3 = 1 \/
    Z.of_nat (length src) mod 3 = 2) as [E|[E|E]] by lia; rewrite E in *;
    simpl in *; change (1 + 1) with 2 in *; change (2 + 1) with 3 in *;
    change (Z.of_nat 3) with 3 in *; change (Z.of_nat 4) with 4 in *.
  - replace ((4 * q + 0) mod 4) with 0 by (Z.to_euclidean_division_equations; lia).
    rewrite Hm. do 2 f_equal. Z.to_euclidean_division_equations; lia.
  - replace ((4 * q + 2) mod 4) with 2 by (Z.to_euclidean_division_equations; lia).
    rewrite Hm. do 2 f_equal. destruct pad; Z.to_euclidean_division_equations; lia.
  - replace ((4 * q + 3) mod 4) with 3 by (Z.to_euclidean_division_equations; lia).
    rewrite Hm. do 2 f_equal. destruct pad; Z.to_euclidean_division_equations; lia.
Qed.
End roundtrip.

(** base 64 decoding, in the file-name safe alphabet and in MIME's, with
    padding or without, gives back the encoded bytes and their number, whenever
    the two buffers have the sizes the size functions ask for. *)
Theorem base64_roundtrip src pad bufLen bufSize :
  Forall is_byte src ->
  (MojBase64EncodedLenMax (length src) <= bufLen)%nat ->
  (MojBase64DecodedSizeMax bufLen <= bufSize)%nat ->
  (exists e, MojBase64Encode src bufLen pad = Ok e /\
    MojBase64Decode e bufSize = Ok (src, Z.of_nat (length src))) /\
  (exists e, MojBase64EncodeMIME src bufLen pad = Ok e /\
    MojBase64DecodeMIME e bufSize = Ok (src, Z.of_nat (length src))).
Proof.
  intros Hs H1 H2.
  assert (forall cs, MojBase64DecodedSizeMax (length (encodeLoop cs src pad)) <= bufSize)%nat as H.
  { intros cs. etrans; [|exact H2]. unfold MojBase64DecodedSizeMax, MojBase64EncodedLenMax in *.
    apply Nat.mul_le_mono_r, Nat.Div0.div_le_mono, Nat.add_le_mono_r.
    etrans; [|exact H1]. apply Nat2Z.inj_le. rewrite encodeLoop_length, Nat2Z.inj_mul, Nat2Z.inj_div.
    rewrite Nat2Z.inj_add. simpl Z.of_nat.
    destruct (Z.eqb_spec (Z.of_nat (length src) mod 3) 0), pad;
      Z.to_euclidean_division_equations; lia. }
  split; apply decode_encode; try done; by vm_compute.
Qed.

Lemma base64_roundtrip_witness :
  MojBase64Encode [104; 105; 0; 255] 8 true = Ok (_T "P5Z+zk==")
  /\ exists e, MojBase64Encode [104; 105; 0; 255] 8 true = Ok e /\
    MojBase64Decode e 6 = Ok ([104; 105; 0; 255], 4).
Proof.
  split; [reflexivity|].
  apply (base64_roundtrip [104; 105; 0; 255] true 8 6); [|vm_compute; lia..].
  repeat constructor; unfold is_byte; lia.
Defined.

(** Superfluous padding after a whole chunk is trimmed, but [sizeOut] still counts
    it: three bytes are written and the caller is told that there are six. *)
Lemma base64_overpadded : MojBase64Decode (_T "+++0==") 6 = Ok ([0; 0; 1], 6).
Proof. reflexivity. Qed.
End MojBase64.

(** ** Byte strings *)
Module MojUtil.
(** [MojLexicalCompare]: the lengths decide a tie; their difference, unsigned 64
    bits wide, is cut down to an [int]. *)
Fixpoint lexicalLoop (data1 data2 : bytes) : option Z :=
  match data1, data2 with
  | a :: data1', b :: data2' => if negb (a =? b) then Some (a - b) else lexicalLoop data1' data2'
  | _, _ => None
  end.

Definition MojLexicalCompare (data1 data2 : bytes) : Z :=
  match lexicalLoop data1 data2 with
  | Some c => c
  | None => to_int 32 (to_uint 64 (Z.of_nat (length data1) - Z.of_nat (length data2)))
  end.

Fixpoint MojPrefixSize (data1 data2 : bytes) : nat :=
  match data1, data2 with
  | a :: data1', b :: data2' => if negb (a =? b) then O else S (MojPrefixSize data1' data2')
  | _, _ => O
  end.

Definition hexval : mstring := _T "0123456789ABCDEF".

Definition MojByteArrayToHex (bs : bytes) : mstring :=
  flat_map (fun b => [nth (Z.to_nat (Z.land (Z.shiftr b 4) 15)) hexval 0;
                      nth (Z.to_nat (Z.land b 15)) hexval 0]) bs.

Lemma lexicalLoop_lexcmp v1 v2 :
  match lexicalLoop v1 v2 with
  | Some c => c <> 0 /\ Z.sgn c = Z.sgn (lexcmp v1 v2)
  | None => Z.sgn (Z.of_nat (length v1) - Z.of_nat (length v2)) = Z.sgn (lexcmp v1 v2)
  end.
Proof.
  revert v2. induction v1 as [|a v1 IH]; intros [|b v2]; simpl; try lia.
  pose proof (MojComp_spec a b). destruct (Z.eqb_spec a b) as [->|]; simpl.
  - destruct (Z.eqb_spec (MojComp b b) 0); simpl; [|lia]. specialize (IH v2).
    destruct (lexicalLoop v1 v2); [done|lia].
  - destruct (Z.eqb_spec (MojComp a b) 0); simpl; lia.
Qed.

(** Below 2 GiB the cast is harmless. *)
Lemma MojLexicalCompare_lexcmp v1 v2 :
  Z.of_nat (length v1) < 2 ^ 31 -> Z.of_nat (length v2) < 2 ^ 31 ->
  Z.sgn (MojLexicalCompare v1 v2) = Z.sgn (lexcmp v1 v2).
Proof.
  intros H1 H2. unfold MojLexicalCompare. pose proof (lexicalLoop_lexcmp v1 v2) as H.
  destruct (lexicalLoop v1 v2); [lia|]. rewrite <- H. f_equal.
  set (d := Z.of_nat (length v1) - Z.of_nat (length v2)).
  assert (to_int 32 (to_uint 64 d) = to_int 32 d) as ->.
  { unfold to_int, to_uint. by rewrite Z.mod_mod_divide by (by exists (2 ^ 32)). }
  apply to_int_small; [lia|]. unfold in_int. lia.
Qed.

Lemma MojPrefixSize_spec v1 v2 :
  let n := MojPrefixSize v1 v2 in
  take n v1 = take n v2 /\ forall a b, v1 !! n = Some a -> v2 !! n = Some b -> a <> b.
Proof.
  revert v2. induction v1 as [|a v1 IH]; intros [|b v2]; simpl; [naive_solver..|].
  destruct (Z.eqb_spec a b) as [->|]; simpl; [|naive_solver].
  destruct (IH v2) as [-> H]. naive_solver.
Qed.
End MojUtil.

(** ** [MojString] *)
Module MojString.
(** The loop of [split]: [cur] holds what [idxStart] .. [idx] spans, reversed. *)
Fixpoint splitLoop (c : Z) (s cur : mstring) : list mstring :=
  match s with
  | [] => if (0 <? length cur)%nat then [rev cur] else []
  | x :: s' =>
      if x =? c then (if (0 <? length cur)%nat then [rev cur] else []) ++ splitLoop c s' []
      else splitLoop c s' (x :: cur)
  end.

Definition split (s : mstring) (c : Z) : list mstring := splitLoop c s [].

Fixpoint startsWith (s str : mstring) : bool :=
  match str with
  | [] => true
  | c :: str' => if c =? 0 then true else
      match s with [] => false | d :: s' => if negb (d =? c) then false else startsWith s' str' end
  end.

(** [find] of a character, from an index; [None] is [MojInvalidIndex]. *)
Definition find (s : mstring) (c : Z) (startIdx : nat) : option nat :=
  match list_find (fun x => x = c) (drop startIdx s) with
  | Some (i, _) => Some (startIdx + i)%nat
  | None => None
  end.

Definition toLowerChar (c : Z) : Z := if (65 <=? c) && (c <=? 90) then c + 32 else c.
Definition toLower (s : mstring) : mstring := map toLowerChar s.

Definition base64Encode (vec : bytes) (pad : bool) : res mstring :=
  MojBase64.MojBase64Encode vec (MojBase64.MojBase64EncodedLenMax (length vec)) pad.

(** The vector is sized for the longest result, filled with zeros, and cut to the
    size the decoder reports. *)
Definition base64Decode (str : mstring) : res bytes :=
  let size := MojBase64.MojBase64DecodedSizeMax (length str) in
  let? (dest, sizeOut) := MojBase64.MojBase64Decode str size in
  Ok (take (Z.to_nat sizeOut) (dest ++ replicate (size - length dest) 0)).

Lemma base64_string vec pad : Forall is_byte vec ->
  exists s, base64Encode vec pad = Ok s /\ base64Decode s = Ok vec.
Proof.
  intros Hv. set (e := MojBase64.encodeLoop MojBase64.chars vec pad).
  destruct (MojBase64.decode_encode MojBase64.chars MojBase64.vals ltac:(by vm_compute) vec
    (MojBase64.MojBase64EncodedLenMax (length vec)) (MojBase64.MojBase64DecodedSizeMax (length e)) pad)
    as (e' & E & D); [done..|].
  assert (e' = e) as ->.
  { unfold MojBase64.MojBase64EncodeImpl in E. rewrite Nat.ltb_irrefl in E. by injection E. }
  exists e. split; [exact E|]. unfold base64Decode, MojBase64.MojBase64Decode. rewrite D. cbn [res_bind].
  by rewrite Nat2Z.id, take_app_length.
Qed.
End MojString.
