(* ===== verification/DataSerialization.v ===== *)
(** * Fixed-width serialization: src/src/core/MojDataSerialization.cpp

    A writer is the content of its buffer; a reader is the bytes from its
    position to its end.  Integers are big-endian, two's complement. *)

From S2P Require Import Prelude Containers.

(** The bytes of [MojUIntNToBigEndian], most significant first. *)
Fixpoint toBigEndian (n : nat) (val : Z) : bytes :=
  match n with
  | O => []
  | S n' => Z.land (Z.shiftr val (8 * Z.of_nat n')) 255 :: toBigEndian n' val
  end.

Module MojDataWriter.
Definition writeUInt8 (m_buf : bytes) (val : Z) : bytes := m_buf ++ [val].
Definition writeUInt16 (m_buf : bytes) (val : Z) : bytes := m_buf ++ toBigEndian 2 val.
Definition writeUInt32 (m_buf : bytes) (val : Z) : bytes := m_buf ++ toBigEndian 4 val.
Definition writeInt64 (m_buf : bytes) (val : Z) : bytes := m_buf ++ toBigEndian 8 val.
(** A decimal is written as its representation. *)
Definition writeDecimal (m_buf : bytes) (rep : Z) : bytes := writeInt64 m_buf rep.
Definition writeChars (m_buf : bytes) (chars : mstring) : bytes := m_buf ++ chars.
Definition sizeChars (chars : mstring) : Z := Z.of_nat (length chars).
Definition sizeDecimal (rep : Z) : Z := 8.
End MojDataWriter.

Module MojDataReader.
Definition readUInt8 (m_pos : bytes) : res (Z * bytes) :=
  match m_pos with
  | val :: rest => Ok (val, rest)
  | [] => Err MojErrUnexpectedEof
  end.

Definition readUInt16 (m_pos : bytes) : res (Z * bytes) :=
  match m_pos with
  | p0 :: p1 :: rest => Ok (to_uint 16 (p1 + Z.shiftl p0 8), rest)
  | _ => Err MojErrUnexpectedEof
  end.

Definition readUInt32 (m_pos : bytes) : res (Z * bytes) :=
  match m_pos with
  | p0 :: p1 :: p2 :: p3 :: rest =>
      Ok (to_uint 32 (p3 + Z.shiftl p2 8 + Z.shiftl p1 16 + Z.shiftl p0 24), rest)
  | _ => Err MojErrUnexpectedEof
  end.

Definition readInt64 (m_pos : bytes) : res (Z * bytes) :=
  match m_pos with
  | p0 :: p1 :: p2 :: p3 :: p4 :: p5 :: p6 :: p7 :: rest =>
      Ok (to_int 64 (p7 + Z.shiftl p6 8 + Z.shiftl p5 16 + Z.shiftl p4 24
                     + Z.shiftl p3 32 + Z.shiftl p2 40 + Z.shiftl p1 48 + Z.shiftl p0 56), rest)
  | _ => Err MojErrUnexpectedEof
  end.

Definition readDecimal (m_pos : bytes) : res (Z * bytes) := readInt64 m_pos.

Definition skip (m_pos : bytes) (len : nat) : res bytes :=
  if (length m_pos <? len)%nat then Err MojErrUnexpectedEof else Ok (drop len m_pos).

(** A read never returns more than it was given. *)
Lemma readUInt8_length p v rest : readUInt8 p = Ok (v, rest) -> length p = S (length rest).
Proof. destruct p; simpl; [done|]. naive_solver. Qed.

Lemma readUInt16_length p v rest : readUInt16 p = Ok (v, rest) -> (length rest <= length p)%nat.
Proof. intros H. do 2 (destruct p as [|? p]; [done|]). simplify_eq/=. lia. Qed.

Lemma readUInt32_length p v rest : readUInt32 p = Ok (v, rest) -> (length rest <= length p)%nat.
Proof. intros H. do 4 (destruct p as [|? p]; [done|]). simplify_eq/=. lia. Qed.

Lemma readInt64_length p v rest : readInt64 p = Ok (v, rest) -> (length rest <= length p)%nat.
Proof. intros H. do 8 (destruct p as [|? p]; [done|]). simplify_eq/=. lia. Qed.

Lemma skip_length p n rest : skip p n = Ok rest -> (length rest <= length p)%nat.
Proof.
  unfold skip. destruct (_ <? _)%nat; [done|]. intros [= <-]. rewrite length_drop. lia.
Qed.
End MojDataReader.

(** ** Round trips and order *)
Lemma land_255 x : Z.land x 255 = x mod 256.
Proof. change 255 with (Z.ones 8). rewrite Z.land_ones by lia. done. Qed.

Lemma toBigEndian_length n v : length (toBigEndian n v) = n.
Proof. induction n; simpl; auto. Qed.

Lemma toBigEndian_bytes n v : Forall is_byte (toBigEndian n v).
Proof.
  induction n; simpl; constructor; [|done]. rewrite land_255. apply Z.mod_pos_bound. lia.
Qed.
#[export] Hint Resolve toBigEndian_bytes : db8.

Ltac unfold_bytes :=
  unfold to_uint, to_int, in_uint, in_int in *; simpl toBigEndian; cbn [app];
  rewrite ?land_255, ?Z.shiftr_div_pow2, ?Z.shiftl_mul_pow2 by lia.

Lemma readUInt16_write v rest :
  in_uint 16 v -> MojDataReader.readUInt16 (toBigEndian 2 v ++ rest) = Ok (v, rest).
Proof.
  intros Hv. simpl. do 2 f_equal. unfold_bytes. change (2 ^ 16) with 65536 in *.
  change (2 ^ (8 * 0)) with 1. change (2 ^ (8 * 1)) with 256. change (2 ^ 8) with 256.
  Z.to_euclidean_division_equations. lia.
Qed.

(** The digits of [v] in base 256. *)
Lemma digits_step v k : 0 <= k ->
  v mod 2 ^ (k + 8) = v mod 2 ^ k + 2 ^ k * ((v / 2 ^ k) mod 256).
Proof.
  intros Hk. rewrite Z.pow_add_r by lia. change (2 ^ 8) with 256. apply Z.rem_mul_r; [|lia].
  pose proof (Z.pow_pos_nonneg 2 k). lia.
Qed.

Lemma sum_UInt32 v :
  Z.land v 255 + Z.shiftl (Z.land (Z.shiftr v 8) 255) 8 + Z.shiftl (Z.land (Z.shiftr v 16) 255) 16
  + Z.shiftl (Z.land (Z.shiftr v 24) 255) 24 = v mod 2 ^ 32.
Proof.
  rewrite !land_255, !Z.shiftr_div_pow2, !Z.shiftl_mul_pow2 by lia.
  pose proof (digits_step v 24). pose proof (digits_step v 16). pose proof (digits_step v 8).
  change (24 + 8) with 32 in *. change (16 + 8) with 24 in *. change (8 + 8) with 16 in *.
  change (2 ^ 8) with 256 in *. lia.
Qed.

Lemma sum_Int64 v :
  Z.land v 255 + Z.shiftl (Z.land (Z.shiftr v 8) 255) 8 + Z.shiftl (Z.land (Z.shiftr v 16) 255) 16
  + Z.shiftl (Z.land (Z.shiftr v 24) 255) 24 + Z.shiftl (Z.land (Z.shiftr v 32) 255) 32
  + Z.shiftl (Z.land (Z.shiftr v 40) 255) 40 + Z.shiftl (Z.land (Z.shiftr v 48) 255) 48
  + Z.shiftl (Z.land (Z.shiftr v 56) 255) 56 = v mod 2 ^ 64.
Proof.
  rewrite sum_UInt32.
  rewrite !land_255, !Z.shiftr_div_pow2, !Z.shiftl_mul_pow2 by lia.
  pose proof (digits_step v 56). pose proof (digits_step v 48). pose proof (digits_step v 40).
  pose proof (digits_step v 32).
  change (56 + 8) with 64 in *. change (48 + 8) with 56 in *. change (40 + 8) with 48 in *.
  change (32 + 8) with 40 in *. lia.
Qed.

Lemma readUInt32_write v rest :
  in_uint 32 v -> MojDataReader.readUInt32 (toBigEndian 4 v ++ rest) = Ok (v, rest).
Proof.
  intros Hv. simpl. do 2 f_equal. change (8 * 0) with 0. change (8 * 1) with 8.
  change (8 * 2) with 16. change (8 * 3) with 24. rewrite Z.shiftr_0_r.
  rewrite sum_UInt32. unfold to_uint. rewrite Zmod_mod. by apply (to_uint_small 32).
Qed.

Lemma readInt64_write v rest :
  in_int 64 v -> MojDataReader.readInt64 (toBigEndian 8 v ++ rest) = Ok (v, rest).
Proof.
  intros Hv. simpl. do 2 f_equal. change (8 * 0) with 0. change (8 * 1) with 8.
  change (8 * 2) with 16. change (8 * 3) with 24. change (8 * 4) with 32. change (8 * 5) with 40.
  change (8 * 6) with 48. change (8 * 7) with 56. rewrite Z.shiftr_0_r.
  rewrite sum_Int64, to_int_mod. apply to_int_small; [lia|done].
Qed.

(** Big-endian integers of one width compare as the integers do, and what
    follows them decides between equal ones. *)
Lemma toBigEndian_lexcmp n a b r1 r2 :
  Z.sgn (lexcmp (toBigEndian n a ++ r1) (toBigEndian n b ++ r2)) =
    (let m := 2 ^ (8 * Z.of_nat n) in
     if a mod m =? b mod m then Z.sgn (lexcmp r1 r2) else Z.sgn (a mod m - b mod m)).
Proof.
  induction n as [|n IH]; simpl toBigEndian; cbv zeta in *.
  - change (2 ^ (8 * Z.of_nat 0)) with 1. by rewrite !Z.mod_1_r.
  - replace (8 * Z.of_nat (S n)) with (8 * Z.of_nat n + 8) by lia.
    rewrite !digits_step, !land_255, !Z.shiftr_div_pow2 by lia.
    set (k := 2 ^ (8 * Z.of_nat n)) in *.
    assert (0 < k) by (apply Z.pow_pos_nonneg; lia).
    set (x := (a / k) mod 256). set (y := (b / k) mod 256). simpl.
    pose proof (MojComp_spec x y). pose proof (Z.mod_pos_bound a k). pose proof (Z.mod_pos_bound b k).
    destruct (Z.eqb_spec (MojComp x y) 0); simpl.
    + assert (x = y) as -> by lia. rewrite IH.
      destruct (Z.eqb_spec (a mod k) (b mod k)), (Z.eqb_spec (a mod k + k * y) (b mod k + k * y)); lia.
    + destruct (Z.eqb_spec (a mod k + k * x) (b mod k + k * y)); nia.
Qed.
