(* ===== verification/Number.v ===== *)
(** * Fixed-point decimals and number syntax

    [MojDecimal] (src/src/core/MojDecimal.cpp) is a signed 64-bit count of
    millionths; [MojNumber::Lexer] and [MojNumber::Parser]
    (src/inc/core/internal/MojNumberLexer.h, MojNumberParser.h) read one from
    text.  [MojStrToInt64] is C's [strtoll]. *)

From S2P Require Import Prelude Containers CoreUtil.

(** ** Characters *)
Definition isdigit (c : Z) : bool := (48 <=? c) && (c <=? 57).
Definition isspace (c : Z) : bool := (c =? 32) || ((9 <=? c) && (c <=? 13)).

(** ** [strtoll] *)
Module MojOs.
Definition digitValue (c : Z) : option Z :=
  if isdigit c then Some (c - 48)
  else if (97 <=? c) && (c <=? 122) then Some (c - 87)
  else if (65 <=? c) && (c <=? 90) then Some (c - 55)
  else None.

(** The digits of [base] at the front of [s]: their value and what is left. *)
Fixpoint digits (base : Z) (s : mstring) (acc : Z) : Z * mstring :=
  match s with
  | c :: s' =>
      match digitValue c with
      | Some d => if d <? base then digits base s' (acc * base + d) else (acc, s)
      | None => (acc, s)
      end
  | [] => (acc, s)
  end.

Fixpoint skipSpace (s : mstring) : mstring :=
  match s with c :: s' => if isspace c then skipSpace s' else s | [] => [] end.

Definition isDigitOf (base : Z) (s : mstring) : bool :=
  match s with
  | c :: _ => match digitValue c with Some d => d <? base | None => false end
  | [] => false
  end.

(** Base and digits after the sign: a prefix [0x] counts only before a digit. *)
Definition prefix (base : Z) (s : mstring) : Z * mstring :=
  match s with
  | z :: x :: s' =>
      if (z =? 48) && ((x =? 120) || (x =? 88)) && ((base =? 0) || (base =? 16)) && isDigitOf 16 s'
      then (16, s')
      else ((if base =? 0 then if z =? 48 then 8 else 10 else base), s)
  | [z] => ((if base =? 0 then if z =? 48 then 8 else 10 else base), s)
  | [] => ((if base =? 0 then 10 else base), s)
  end.

(** The value, cut to the range of the type, and the rest of the string, which
    is the whole string when there is no number. *)
Definition MojStrToInt64 (str : mstring) (base : Z) : Z * mstring :=
  let s := skipSpace str in
  let '(neg, s) := match s with
                   | c :: s' => if c =? chr "-" then (true, s') else
                                if c =? chr "+" then (false, s') else (false, s)
                   | [] => (false, s)
                   end in
  let '(base, s) := prefix base s in
  if isDigitOf base s then
    let '(v, rest) := digits base s 0 in
    let v := if neg then - v else v in
    (Z.max MojInt64Min (Z.min MojInt64Max v), rest)
  else (0, str).
End MojOs.

(** ** [MojDecimal], by its representation *)
Module MojDecimal.
Definition Numerator : Z := 1000000.
Definition Precision : Z := 6.
Definition MaxStringSize : nat := 24.
Definition FractionMax : Z := Numerator - 1.
Definition MagnitudeMax : Z := Z.quot MojInt64Max Numerator - Numerator.
Definition MagnitudeMin : Z := Z.quot MojInt64Min Numerator + Numerator.

Definition assign (magnitude fraction : Z) : Z :=
  let m_rep := to_int 64 (magnitude * Numerator) in
  if magnitude <? 0 then to_int 64 (m_rep - fraction) else to_int 64 (m_rep + fraction).

Definition magnitude (m_rep : Z) : Z := Z.quot m_rep Numerator.

(** [MojAbs] of a 64-bit integer; the least one is its own negation. *)
Definition MojAbs (t : Z) : Z := if t <? 0 then to_int 64 (- t) else t.

Definition fraction (m_rep : Z) : Z := to_uint 32 (Z.rem (MojAbs m_rep) Numerator).

(** The digits of [rep], least significant first, as the first loop of
    [stringValue] leaves them in [tmp]; a 64-bit number has 19 at most. *)
Fixpoint tmpDigits (fuel : nat) (rep : Z) : mstring :=
  match fuel with
  | O => []
  | S fuel' =>
      if rep =? 0 then [] else
      let next := Z.quot rep 10 in
      (chr "0" + rep - next * 10) :: tmpDigits fuel' next
  end.

(** [pos <= decimalPoint]: at least seven characters. *)
Definition padTmp (tmp : mstring) : mstring :=
  tmp ++ replicate (Z.to_nat Precision + 1 - length tmp) (chr "0").

Definition firstDigit (tmp : mstring) : nat :=
  match list_find (fun d => d <> chr "0") tmp with
  | Some (i, _) => if (Z.to_nat Precision - 1 <? i)%nat then (Z.to_nat Precision - 1)%nat else i
  | None => (Z.to_nat Precision - 1)%nat
  end.

(** From the last position of [tmp] down to [first]. *)
Fixpoint copyOut (tmp : mstring) (pos first : nat) : mstring :=
  match pos with
  | O => []
  | S pos' =>
      if (pos' <? first)%nat then [] else
      nth pos' tmp 0 :: (if Nat.eqb pos' (Z.to_nat Precision) then [chr "."] else [])
        ++ copyOut tmp pos' first
  end.

Definition stringValue (m_rep : Z) (size : nat) : res mstring :=
  if (size <? MaxStringSize)%nat then Err MojErrInsufficientBuf else
  let tmp := tmpDigits 20 (MojAbs m_rep) in
  let first := firstDigit tmp in
  let tmp := padTmp tmp in
  Ok ((if m_rep <? 0 then [chr "-"] else []) ++ copyOut tmp (length tmp) first).
End MojDecimal.

(** ** [MojNumber] *)
Module MojNumber.
(** What a lexer reports to; the [TVisitor] of the template. *)
Class LexerVisitor (T : Type) := {
  negative : T -> res T;
  digit : T -> Z -> res T;
  fractionDigit : T -> Z -> res T;
  negativeExponent : T -> res T;
  exponentDigit : T -> Z -> res T;
  end_ : T -> res T
}.

Inductive LexerState :=
| StateNumber
| StateMagnitude
| StateMagnitudeDigits
| StateFraction
| StateFractionDigits
| StateExponent
| StateExponentFirstDigit
| StateExponentDigits.

#[export] Instance LexerState_eq_dec : EqDecision LexerState.
Proof. solve_decision. Defined.

Section Lexer.
Context {T : Type} `{!LexerVisitor T}.

Definition isExp (c : Z) : bool := (c =? chr "e") || (c =? chr "E").

(** [StateMagnitude] and [StateMagnitudeDigits]. *)
Definition magnitudeStep (visitor : T) (c : Z) : res (LexerState * T) :=
  if isdigit c then let? v := digit visitor (c - chr "0") in Ok (StateMagnitudeDigits, v)
  else if c =? chr "." then Ok (StateFraction, visitor)
  else if isExp c then Ok (StateExponent, visitor)
  else Err MojErrInvalidDecimal.

Definition exponentStep (visitor : T) (c : Z) : res (LexerState * T) :=
  if isdigit c then let? v := exponentDigit visitor (c - chr "0") in Ok (StateExponentDigits, v)
  else Err MojErrInvalidDecimal.

Definition lexStep (s : LexerState * T) (c : Z) : res (LexerState * T) :=
  let '(state, visitor) := s in
  match state with
  | StateNumber =>
      if c =? chr "-" then let? v := negative visitor in Ok (StateMagnitude, v)
      else if c =? chr "+" then Ok (StateMagnitude, visitor)
      else if negb (isdigit c) then Err MojErrInvalidDecimal
      else magnitudeStep visitor c
  | StateMagnitude | StateMagnitudeDigits => magnitudeStep visitor c
  | StateFraction =>
      if isdigit c then let? v := fractionDigit visitor (c - chr "0") in Ok (StateFractionDigits, v)
      else Err MojErrInvalidDecimal
  | StateFractionDigits =>
      if isdigit c then let? v := fractionDigit visitor (c - chr "0") in Ok (StateFractionDigits, v)
      else if isExp c then Ok (StateExponent, visitor)
      else Err MojErrInvalidDecimal
  | StateExponent =>
      if c =? chr "-" then let? v := negativeExponent visitor in Ok (StateExponentFirstDigit, v)
      else if c =? chr "+" then Ok (StateExponentFirstDigit, visitor)
      else exponentStep visitor c
  | StateExponentFirstDigit | StateExponentDigits => exponentStep visitor c
  end.

Definition parse (visitor : T) (number : mstring) : res T :=
  let? s := res_fold lexStep (StateNumber, visitor) number in
  match s.1 with
  | StateMagnitudeDigits | StateFractionDigits | StateExponentDigits => end_ s.2
  | _ => Err MojErrInvalidDecimal
  end.
End Lexer.

(** [npow]: square and multiply over the 31 bits of the exponent, in [uint64_t]. *)
Fixpoint npowLoop (bits : nat) (x exp y : Z) : Z :=
  match bits with
  | O => y
  | S b =>
      let y := to_uint 64 (y * y) in
      let y := if Z.testbit exp (Z.of_nat b) then to_uint 64 (y * x) else y in
      npowLoop b x exp y
  end.

Definition npow (x exp : Z) : Z := npowLoop 31 x exp 1.

(** *** The parser's state *)
Record Parser := {
  positive : bool;
  value : Z;
  valueExp : Z;
  exponentPositive : bool;
  exponent : Z
}.

Definition base : Z := 10.
Definition bound : Z := (MojUInt64Max - (base - 1)) / base.
Definition exponentBound : Z := (MojInt32Max - (base - 1)) / base.
Definition int64_pow_max : Z := 18.

Definition reset : Parser :=
  {| positive := true; value := 0; valueExp := 0; exponentPositive := true; exponent := 0 |}.

Definition with_value (p : Parser) (v e : Z) : Parser :=
  {| positive := positive p; value := v; valueExp := e;
     exponentPositive := exponentPositive p; exponent := exponent p |}.

Definition haveFraction (p : Parser) : bool := to_int 32 (valueExp p + exponent p) <? 0.

Definition realignValue (p : Parser) : res Parser :=
  if 0 <? valueExp p then Ok (with_value p (to_uint 64 (value p * npow base (valueExp p))) 0) else Ok p.

Definition pushDigit (p : Parser) (x : Z) : res Parser :=
  if bound <? value p then Err MojErrValueOutOfRange
  else Ok (with_value p (to_uint 64 (value p * base + x)) (valueExp p)).

Definition parserDigit (p : Parser) (x : Z) : res Parser :=
  if negb (value p =? 0) && (x =? 0) then
    if valueExp p =? MojInt32Max then Err MojErrValueOutOfRange
    else Ok (with_value p (value p) (valueExp p + 1))
  else let? p := realignValue p in pushDigit p x.

Definition parserFractionDigit (p : Parser) (x : Z) : res Parser :=
  let? p := realignValue p in
  pushDigit (with_value p (value p) (to_int 32 (valueExp p - 1))) x.

Definition parserExponentDigit (p : Parser) (x : Z) : res Parser :=
  if (exponent p =? 0) && (x =? 0) then Ok p
  else if exponentBound <=? exponent p then Err MojErrValueOutOfRange
  else Ok {| positive := positive p; value := value p; valueExp := valueExp p;
             exponentPositive := exponentPositive p; exponent := exponent p * 10 + x |}.

#[export] Instance Parser_visitor : LexerVisitor Parser := {|
  negative p := Ok {| positive := false; value := value p; valueExp := valueExp p;
                      exponentPositive := exponentPositive p; exponent := exponent p |};
  digit := parserDigit;
  fractionDigit := parserFractionDigit;
  negativeExponent p := Ok {| positive := positive p; value := value p; valueExp := valueExp p;
                              exponentPositive := false; exponent := exponent p |};
  exponentDigit := parserExponentDigit;
  end_ p := Ok {| positive := positive p; value := value p; valueExp := valueExp p;
                  exponentPositive := exponentPositive p;
                  exponent := if exponentPositive p then exponent p else - exponent p |}
|}.

(** The sign is applied to the unsigned [rep], which is then taken as signed. *)
Definition signRep (p : Parser) (rep : Z) : Z :=
  to_int 64 (if positive p then rep else to_uint 64 (- rep)).

Definition toDecimal (p : Parser) : res Z :=
  let rep := value p in
  let alignExp := to_int 32 (MojDecimal.Precision + valueExp p + exponent p) in
  if alignExp <? 0 then
    if int64_pow_max <? - alignExp then Ok 0 else
    let powed := npow base (- alignExp - 1) in
    let rep := if alignExp <? -1 then rep / powed else rep in
    let rep := if base <? rep mod base * 2 then rep / base + 1 else rep / base in
    Ok (signRep p rep)
  else
    if int64_pow_max <? alignExp then Err MojErrValueOutOfRange else
    let factor := npow base alignExp in
    if MojInt64Max / factor <? value p then Err MojErrValueOutOfRange
    else Ok (signRep p (to_uint 64 (rep * factor))).

(** [MojDecimal::assign] of a string. *)
Definition assign (str : mstring) : res Z :=
  let? p := parse reset str in toDecimal p.

(** *** Reading back what [stringValue] writes *)

#[local] Arguments lexStep : simpl never.

Lemma npow_exact e : 0 <= e < 20 -> npow base e = 10 ^ e.
Proof.
  intros He.
  assert (forallb (fun i => npow base (Z.of_nat i) =? 10 ^ Z.of_nat i) (seq 0 20) = true) as H by
    reflexivity.
  rewrite List.forallb_forall in H. specialize (H (Z.to_nat e) ltac:(apply List.in_seq; lia)).
  rewrite Z2Nat.id in H by lia. by apply Z.eqb_eq.
Qed.

(** The number a sequence of digit characters stands for, after [acc]. *)
Definition dval (acc : Z) (ds : mstring) : Z := fold_left (fun a d => a * 10 + (d - 48)) ds acc.

Definition all_digits (ds : mstring) : Prop := Forall (fun c => 48 <= c <= 57) ds.

Lemma isdigit_true c : 48 <= c <= 57 -> isdigit c = true.
Proof. intros. unfold isdigit. apply andb_true_iff. lia. Qed.

Lemma dval_mono acc ds : all_digits ds -> 0 <= acc -> acc <= dval acc ds.
Proof.
  intros H. revert acc. induction H as [|d ds Hd Hs IH]; intros acc Ha; simpl; [done|].
  specialize (IH (acc * 10 + (d - 48))). unfold dval in *. lia.
Qed.

(** The value so far, and a state in which nothing can overflow. *)
Definition wf_int (p : Parser) (n : Z) : Prop :=
  0 <= value p /\ 0 <= valueExp p /\ (value p = 0 -> valueExp p = 0) /\
  n = value p * 10 ^ valueExp p /\ n <= MojInt64Max.

Definition same_rest (p q : Parser) : Prop :=
  positive p = positive q /\ exponentPositive p = exponentPositive q /\ exponent p = exponent q.

Lemma wf_int_exp p n : wf_int p n -> valueExp p < 19.
Proof.
  intros (H1 & H2 & H3 & -> & H5). destruct (Z_lt_le_dec (valueExp p) 19) as [|L]; [done|].
  destruct (Z.eq_dec (value p) 0); [lia|].
  assert (10 ^ 19 <= 10 ^ valueExp p) by (apply Z.pow_le_mono_r; lia).
  assert (10 ^ 19 > MojInt64Max) by done. nia.
Qed.

Lemma realign_ok p n : wf_int p n -> exists q, realignValue p = Ok q /\
  value q = n /\ valueExp q = 0 /\ same_rest q p.
Proof.
  intros Hw. pose proof (wf_int_exp _ _ Hw). destruct Hw as (H1 & H2 & H3 & -> & H5).
  unfold realignValue. destruct (Z.ltb_spec 0 (valueExp p)).
  - eexists; split; [done|]. simpl. rewrite npow_exact by lia.
    repeat split; try done. apply to_uint_small. unfold in_uint, MojInt64Max in *. lia.
  - assert (valueExp p = 0) as E by lia. exists p. rewrite E in *. repeat split; lia.
Qed.

Lemma pushDigit_ok p x : 0 <= value p -> 0 <= x <= 9 -> value p * 10 + x <= MojInt64Max ->
  pushDigit p x = Ok (with_value p (value p * 10 + x) (valueExp p)).
Proof.
  intros H0 Hx H. unfold pushDigit, bound, base, MojUInt64Max, MojInt64Max in *.
  destruct (Z.ltb_spec ((18446744073709551615 - (10 - 1)) / 10) (value p)) as [L|L].
  - exfalso. revert L. vm_compute ((18446744073709551615 - (10 - 1)) / 10). lia.
  - do 2 f_equal. apply to_uint_small. unfold in_uint. lia.
Qed.

Lemma digit_ok p n x : wf_int p n -> 0 <= x <= 9 -> n * 10 + x <= MojInt64Max ->
  exists q, parserDigit p x = Ok q /\ wf_int q (n * 10 + x) /\ same_rest q p.
Proof.
  intros Hw Hx Hn. unfold parserDigit. pose proof (wf_int_exp _ _ Hw).
  destruct (negb (value p =? 0) && (x =? 0)) eqn:E.
  - apply andb_true_iff in E as [E1 E2]. bool_lia. subst x.
    destruct Hw as (H1 & H2 & H3 & -> & H5).
    destruct (Z.eqb_spec (valueExp p) MojInt32Max); [unfold MojInt32Max in *; lia|].
    eexists; split; [done|]. unfold wf_int; simpl. rewrite Z.pow_add_r by lia.
    repeat split; lia.
  - destruct (realign_ok _ _ Hw) as (q & -> & Hv & He & Hs). simpl.
    assert (0 <= n) by (destruct Hw as (?&?&?&->&?); apply Z.mul_nonneg_nonneg; lia).
    rewrite pushDigit_ok by (rewrite ?Hv; lia). eexists; split; [done|].
    unfold wf_int, same_rest in *; simpl. rewrite He, Hv. repeat split; try lia; tauto.
Qed.

(** Digits of the integer part. *)
Lemma lex_digits ds st p n : all_digits ds -> ds <> [] ->
  st ∈ [StateNumber; StateMagnitude; StateMagnitudeDigits] ->
  wf_int p n -> dval n ds <= MojInt64Max ->
  exists q, res_fold lexStep (st, p) ds = Ok (StateMagnitudeDigits, q) /\
    wf_int q (dval n ds) /\ same_rest q p.
Proof.
  intros Hd Hne Hst Hw Hm. revert st p n Hne Hst Hw Hm.
  induction Hd as [|d ds Hd Hds IH]; intros st p n Hne Hst Hw Hm; [done|]. simpl in *.
  assert (0 <= n) by (destruct Hw as (?&?&?&->&?); apply Z.mul_nonneg_nonneg; lia).
  pose proof (dval_mono (n * 10 + (d - 48)) ds Hds ltac:(lia)).
  destruct (digit_ok p n (d - 48)) as (q & Hq & Hwq & Hs); [done|lia|unfold dval in *; lia|].
  assert (lexStep (st, p) d = Ok (StateMagnitudeDigits, q)) as ->.
  { assert (magnitudeStep p d = Ok (StateMagnitudeDigits, q)) as Hms.
    { unfold magnitudeStep. rewrite isdigit_true by done. simpl. change (chr "0") with 48.
      by rewrite Hq. }
    unfold lexStep. destruct st; try done; try (exfalso; set_solver).
    change (chr "-") with 45. change (chr "+") with 43.
    destruct (Z.eqb_spec d 45); [lia|]. destruct (Z.eqb_spec d 43); [lia|].
    by rewrite isdigit_true. }
  simpl. destruct ds as [|d2 ds].
  - exists q. done.
  - destruct (IH StateMagnitudeDigits q (n * 10 + (d - 48))) as (r & Hr & Hwr & Hsr);
      [done|set_solver|done|done|]. exists r. split; [done|]. split; [done|].
    unfold same_rest in *. naive_solver congruence.
Qed.

(** Digits after the point, once the value has no pending zeros. *)
Lemma lex_fraction ds st p : all_digits ds -> ds <> [] ->
  st ∈ [StateFraction; StateFractionDigits] ->
  0 <= value p -> -100 <= valueExp p <= 0 -> (length ds <= 100)%nat ->
  dval (value p) ds <= MojInt64Max ->
  exists q, res_fold lexStep (st, p) ds = Ok (StateFractionDigits, q) /\
    value q = dval (value p) ds /\ valueExp q = valueExp p - Z.of_nat (length ds) /\ same_rest q p.
Proof.
  intros Hd Hne Hst Hv He Hl Hm.
  assert (-200 + Z.of_nat (length ds) <= valueExp p) as He2 by lia. clear Hl.
  assert (valueExp p <= 0) as He0 by lia. clear He.
  revert st p Hne Hst Hv He0 He2 Hm.
  induction Hd as [|d ds Hd Hds IH]; intros st p Hne Hst Hv He0 He2 Hm; [done|]. simpl in *.
  pose proof (dval_mono (value p * 10 + (d - 48)) ds Hds ltac:(lia)).
  assert (lexStep (st, p) d = Ok (StateFractionDigits,
    with_value p (value p * 10 + (d - 48)) (valueExp p - 1))) as ->.
  { assert (parserFractionDigit p (d - 48) =
      Ok (with_value p (value p * 10 + (d - 48)) (valueExp p - 1))) as Hf.
    { unfold parserFractionDigit, realignValue. destruct (Z.ltb_spec 0 (valueExp p)); [lia|]. simpl.
      rewrite to_int_small by (unfold in_int; lia).
      rewrite pushDigit_ok; simpl; [done|lia..|unfold dval in *; lia]. }
    unfold lexStep. simpl. change (chr "0") with 48. rewrite Hf, isdigit_true by done.
    by destruct st; try (exfalso; set_solver). }
  simpl. destruct ds as [|d2 ds].
  - eexists. split; [done|]. simpl. repeat split; try done.
  - destruct (IH StateFractionDigits (with_value p (value p * 10 + (d - 48)) (valueExp p - 1)))
      as (q & Hq & Hvq & Heq & Hs); simpl in *; [done|set_solver|lia..|done|].
    exists q. split; [done|]. split; [done|]. split; [rewrite Heq; lia|]. exact Hs.
Qed.

(** The same number, least significant digit first. *)
Fixpoint lsd (l : mstring) : Z := match l with [] => 0 | d :: l' => (d - 48) + 10 * lsd l' end.

Lemma dval_app acc l1 l2 : dval acc (l1 ++ l2) = dval (dval acc l1) l2.
Proof. apply fold_left_app. Qed.

Lemma dval_rev l : dval 0 (rev l) = lsd l.
Proof. induction l as [|d l IH]; simpl; [done|]. rewrite dval_app, IH. simpl. lia. Qed.

Lemma dval_acc acc ds : dval acc ds = acc * 10 ^ Z.of_nat (length ds) + dval 0 ds.
Proof.
  revert acc. induction ds as [|d ds IH]; intros acc; simpl length; [simpl; lia|].
  change (dval acc (d :: ds)) with (dval (acc * 10 + (d - 48)) ds).
  change (dval 0 (d :: ds)) with (dval (0 * 10 + (d - 48)) ds).
  rewrite (IH (acc * 10 + _)), (IH (0 * 10 + _)), Nat2Z.inj_succ, Z.pow_succ_r by lia. lia.
Qed.

Lemma lsd_app l1 l2 : lsd (l1 ++ l2) = lsd l1 + 10 ^ Z.of_nat (length l1) * lsd l2.
Proof.
  induction l1 as [|d l1 IH]; simpl length; [simpl; lia|]. simpl app. simpl lsd.
  rewrite IH, Nat2Z.inj_succ, Z.pow_succ_r by lia. lia.
Qed.

Lemma lsd_zeros l : Forall (fun d => d = 48) l -> lsd l = 0.
Proof. induction 1; simpl; lia. Qed.

Lemma tmpDigits_spec fuel a : 0 <= a < 10 ^ Z.of_nat fuel ->
  all_digits (MojDecimal.tmpDigits fuel a) /\ lsd (MojDecimal.tmpDigits fuel a) = a.
Proof.
  revert a. induction fuel as [|fuel IH]; intros a Ha; [simpl in *; split; [constructor|lia]|].
  cbn [MojDecimal.tmpDigits]. destruct (Z.eqb_spec a 0) as [->|Hne]; [split; [constructor|done]|].
  rewrite Nat2Z.inj_succ, Z.pow_succ_r in Ha by lia. rewrite Z.quot_div_nonneg by lia.
  destruct (IH (a / 10)) as [Hd Hv]; [Z.to_euclidean_division_equations; lia|].
  change (chr "0") with 48. split.
  - constructor; [Z.to_euclidean_division_equations; lia|done].
  - simpl. rewrite Hv. lia.
Qed.

Lemma copyOut_lo tmp pos first : (pos <= 6)%nat -> (pos <= length tmp)%nat ->
  MojDecimal.copyOut tmp pos first = rev (drop first (take pos tmp)).
Proof.
  induction pos as [|pos IH]; intros H6 Hl; simpl; [by destruct first|].
  destruct (lookup_lt_is_Some_2 tmp pos) as [x Hx]; [lia|].
  rewrite (take_S_r _ _ _ Hx). destruct (Nat.ltb_spec pos first) as [L|L].
  - rewrite drop_ge; [done|]. rewrite length_app, length_take. simpl. lia.
  - rewrite drop_app_le, rev_app_distr by (rewrite length_take; lia). simpl.
    change (Z.to_nat MojDecimal.Precision) with 6%nat.
    destruct (Nat.eqb_spec pos 6); [lia|]. simpl. rewrite IH by lia. f_equal.
    by apply nth_lookup_Some.
Qed.

#[local] Arguments MojDecimal.copyOut : simpl never.

Lemma copyOut_S tmp pos first : MojDecimal.copyOut tmp (S pos) first =
  if (pos <? first)%nat then [] else
  nth pos tmp 0 :: (if Nat.eqb pos 6 then [chr "."] else []) ++ MojDecimal.copyOut tmp pos first.
Proof. done. Qed.

Lemma copyOut_hi tmp pos first : (7 <= pos <= length tmp)%nat -> (first <= 5)%nat ->
  MojDecimal.copyOut tmp pos first =
    rev (drop 6 (take pos tmp)) ++ chr "." :: rev (drop first (take 6 tmp)).
Proof.
  intros Hp Hf. induction pos as [|pos IH]; [lia|]. rewrite copyOut_S.
  destruct (lookup_lt_is_Some_2 tmp pos) as [x Hx]; [lia|].
  destruct (Nat.ltb_spec pos first) as [L|L]; [lia|].
  rewrite (take_S_r _ _ _ Hx), drop_app_le, rev_app_distr by (rewrite length_take; lia).
  rewrite (nth_lookup_Some _ _ _ _ Hx). cbn [rev app]. f_equal.
  destruct (Nat.eqb_spec pos 6) as [->|]; cbn [app].
  - rewrite (drop_ge (take 6 tmp) 6), copyOut_lo by (rewrite ?length_take; lia). done.
  - apply IH. lia.
Qed.

Lemma firstDigit_zeros tmp :
  Forall (fun d => d = 48) (take (MojDecimal.firstDigit tmp) (MojDecimal.padTmp tmp)).
Proof.
  apply Forall_lookup. intros j x [Hx Hj]%lookup_take_Some. unfold MojDecimal.padTmp in Hx.
  apply lookup_app_Some in Hx as [Hx|[_ Hx]]; [|by apply lookup_replicate in Hx as [-> _]].
  unfold MojDecimal.firstDigit in Hj. change (chr "0") with 48 in Hj.
  destruct (list_find _ tmp) as [[i y]|] eqn:E.
  - apply list_find_Some in E as (_ & _ & E). destruct (decide (x = 48)) as [|Hn]; [done|].
    exfalso. apply (E j x); [done| |done]. destruct (_ <? i)%nat eqn:L in Hj; [|done].
    apply Nat.ltb_lt in L. lia.
  - apply list_find_None in E. rewrite Forall_forall in E.
    destruct (decide (x = 48)) as [|Hn]; [done|]. exfalso. apply (E x); [|done].
    by eapply list_elem_of_lookup_2.
Qed.

(** [stringValue], for a representation whose absolute value exists: digits, a
    point, at least one digit, and no zeros after that one. *)
Lemma stringValue_shape rep : - MojInt64Max <= rep <= MojInt64Max ->
  exists ints fracs,
    MojDecimal.stringValue rep MojDecimal.MaxStringSize
      = Ok ((if rep <? 0 then [chr "-"] else []) ++ ints ++ chr "." :: fracs) /\
    all_digits ints /\ ints <> [] /\ all_digits fracs /\ (1 <= length fracs <= 6)%nat /\
    Z.abs rep = 10 ^ (6 - Z.of_nat (length fracs)) * dval (dval 0 ints) fracs.
Proof.
  intros Hr. unfold MojDecimal.stringValue. simpl (_ <? _)%nat.
  assert (MojDecimal.MojAbs rep = Z.abs rep) as ->.
  { unfold MojDecimal.MojAbs. destruct (Z.ltb_spec rep 0); [|lia].
    rewrite to_int_small; [lia|lia|unfold in_int, MojInt64Max in *; lia]. }
  destruct (tmpDigits_spec 20 (Z.abs rep)) as [Hd Hv].
  { unfold MojInt64Max in *. change (10 ^ Z.of_nat 20) with 100000000000000000000. lia. }
  set (tmp := MojDecimal.tmpDigits 20 (Z.abs rep)) in *.
  set (first := MojDecimal.firstDigit tmp). set (pad := MojDecimal.padTmp tmp).
  assert (first <= 5)%nat as Hf5.
  { subst first. unfold MojDecimal.firstDigit. change (Z.to_nat MojDecimal.Precision) with 6%nat.
    destruct (list_find _ tmp) as [[i x]|]; [|simpl; lia].
    destruct (Nat.ltb_spec (6 - 1) i); lia. }
  assert (all_digits pad) as Hdp.
  { apply Forall_app. split; [done|]. apply Forall_replicate. by vm_compute. }
  assert (lsd pad = Z.abs rep) as Hvp.
  { unfold pad, MojDecimal.padTmp. rewrite lsd_app, Hv.
    rewrite (lsd_zeros (replicate _ _)); [lia|]. by apply Forall_replicate. }
  assert (7 <= length pad)%nat as Hlp.
  { unfold pad, MojDecimal.padTmp. rewrite length_app, length_replicate.
    change (Z.to_nat MojDecimal.Precision) with 6%nat. lia. }
  assert (Forall (fun d => d = 48) (take first pad)) as Hz.
  { apply firstDigit_zeros. }
  exists (rev (drop 6 pad)), (rev (drop first (take 6 pad))).
  rewrite copyOut_hi, take_ge by lia.
  assert (length (drop first (take 6 pad)) = 6 - first)%nat as Hlf.
  { rewrite length_drop, length_take. lia. }
  repeat split.
  - by apply List.Forall_rev, Forall_drop.
  - intros E. apply (f_equal length) in E. rewrite length_rev, length_drop in E. simpl in E. lia.
  - by apply List.Forall_rev, Forall_drop, Forall_take.
  - rewrite length_rev. lia.
  - rewrite length_rev. lia.
  - rewrite dval_acc, !dval_rev, length_rev, Hlf, <- Hvp.
    rewrite <- (take_drop first pad) at 1. rewrite lsd_app, (lsd_zeros _ Hz).
    rewrite <- (take_drop (6 - first) (drop first pad)) at 1.
    rewrite take_drop_commute, drop_drop, lsd_app, !length_take, length_drop, length_take.
    replace (first + (6 - first))%nat with 6%nat by lia.
    replace (6 `min` length pad - first)%nat with (6 - first)%nat by lia.
    replace (first `min` length pad)%nat with first by lia.
    replace (6 - Z.of_nat (6 - first)) with (Z.of_nat first) by lia. lia.
Qed.

Lemma assign_shape neg ints fracs : all_digits ints -> ints <> [] -> all_digits fracs ->
  (1 <= length fracs <= 6)%nat ->
  10 ^ (6 - Z.of_nat (length fracs)) * dval (dval 0 ints) fracs <= MojInt64Max ->
  assign ((if neg : bool then [chr "-"] else []) ++ ints ++ chr "." :: fracs) =
    Ok (let a := 10 ^ (6 - Z.of_nat (length fracs)) * dval (dval 0 ints) fracs in
        if neg then - a else a).
Proof.
  intros Hi Hni Hf Hl Hm. unfold assign, parse. rewrite res_fold_app, res_bind_assoc.
  set (p0 := if neg then {| positive := false; value := 0; valueExp := 0;
                            exponentPositive := true; exponent := 0 |} else reset).
  set (st0 := if neg then StateMagnitude else StateNumber).
  assert (res_fold lexStep (StateNumber, reset) (if neg then [chr "-"] else []) = Ok (st0, p0))
    as -> by (by destruct neg).
  simpl res_bind. rewrite res_fold_app, res_bind_assoc.
  assert (0 < 10 ^ (6 - Z.of_nat (length fracs))) by (apply Z.pow_pos_nonneg; lia).
  assert (0 <= dval 0 ints) by (by apply dval_mono).
  pose proof (dval_mono (dval 0 ints) fracs Hf ltac:(lia)).
  destruct (lex_digits ints st0 p0 0) as (q & -> & Hq & Hsq); [done..| | |nia|].
  { subst st0. destruct neg; set_solver. }
  { subst p0. destruct neg; unfold wf_int, MojInt64Max; simpl; lia. }
  simpl res_bind. cbn [res_fold]. change (lexStep (StateMagnitudeDigits, q) (chr "."))
    with (Ok (StateFraction, q)). cbn [res_bind].
  destruct (realign_ok _ _ Hq) as (r & Hr & Hvr & Her & Hsr).
  assert (res_fold lexStep (StateFraction, q) fracs = res_fold lexStep (StateFraction, r) fracs) as ->.
  { destruct fracs as [|d fs]; [simpl in *; lia|]. simpl. f_equal. unfold lexStep. simpl.
    unfold parserFractionDigit. rewrite Hr. unfold realignValue at 1.
    destruct (Z.ltb_spec 0 (valueExp r)); [lia|done]. }
  destruct (lex_fraction fracs StateFraction r) as (t & -> & Hvt & Het & Hst);
    [done|intros ->; simpl in *; lia|set_solver|lia..|rewrite Hvr; nia|].
  cbn [res_bind fst snd end_ Parser_visitor]. unfold toDecimal.
  cbn [value valueExp exponent positive exponentPositive].
  assert (exponentPositive t = true /\ exponent t = 0 /\ positive t = negb neg) as (E1 & E2 & E3).
  { unfold same_rest in *. subst p0. destruct neg; simpl in *; naive_solver congruence. }
  rewrite E1, E2, Het, Her, Z.sub_0_l, Z.add_0_r. unfold MojDecimal.Precision.
  rewrite to_int_small by (unfold in_int; lia).
  destruct (Z.ltb_spec (6 + - Z.of_nat (length fracs)) 0); [lia|].
  unfold int64_pow_max. destruct (Z.ltb_spec 18 (6 + - Z.of_nat (length fracs))); [lia|].
  rewrite npow_exact by lia. change (6 + - Z.of_nat (length fracs)) with (6 - Z.of_nat (length fracs)).
  rewrite Hvt, Hvr.
  set (f := 10 ^ (6 - Z.of_nat (length fracs))) in *. set (v := dval (dval 0 ints) fracs) in *.
  destruct (Z.ltb_spec (MojInt64Max / f) v) as [L|L].
  { exfalso. revert L. apply Z.le_ngt. apply Z.div_le_lower_bound; lia. }
  f_equal. unfold signRep; simpl. rewrite E3, (to_uint_small 64) by
    (unfold in_uint, MojInt64Max in *; split; [apply Z.mul_nonneg_nonneg|]; lia).
  unfold MojInt64Max in *. destruct neg; simpl.
  - unfold to_uint. rewrite to_int_mod, to_int_small; [lia|lia|unfold in_int; nia].
  - rewrite to_int_small; [lia|lia|unfold in_int; nia].
Qed.

(** A decimal printed by [stringValue] and read back by [assign] through
    the number lexer and parser is the same decimal, for every 64-bit
    representation that has an absolute value. *)
Theorem decimal_text_roundtrip rep : - MojInt64Max <= rep <= MojInt64Max ->
  exists s, MojDecimal.stringValue rep MojDecimal.MaxStringSize = Ok s /\ assign s = Ok rep.
Proof.
  intros Hr. destruct (stringValue_shape rep Hr) as (ints & fracs & -> & Hi & Hni & Hf & Hl & Ha).
  eexists; split; [done|]. pose proof (assign_shape (rep <? 0) ints fracs Hi Hni Hf Hl) as H.
  rewrite H by lia. cbv zeta. rewrite <- Ha. f_equal. destruct (Z.ltb_spec rep 0); lia.
Qed.

Lemma decimal_text_roundtrip_witness :
  MojDecimal.stringValue (-1234500000) 24 = Ok (_T "-1234.5") /\
  exists s, MojDecimal.stringValue (-1234500000) 24 = Ok s /\ assign s = Ok (-1234500000).
Proof.
  split; [reflexivity|]. apply (decimal_text_roundtrip (-1234500000)). unfold MojInt64Max. lia.
Defined.

(** A digit after a long run of zeros: [value * npow(10, valueExp)] wraps around in
    [realignValue], so ten to the sixty-sixth and five reads as five. *)
Lemma long_integer_wraps : assign (_T "1" ++ replicate 65 (chr "0") ++ _T "5") = Ok 5000000.
Proof. reflexivity. Qed.

(** The least representation has no absolute value; its digits are not digits. *)
Lemma least_decimal_text :
  MojDecimal.stringValue MojInt64Min MojDecimal.MaxStringSize = Ok (_T "-'..--).0-*(+,.))+(0(").
Proof. reflexivity. Qed.
End MojNumber.
