(* ===== verification/Object.v ===== *)
(** * The object model: src/src/core/MojObject.cpp, src/inc/core/MojObject.h

    [MojObject] is the tagged union of the [Impl] classes; a property map is
    [MojMap<MojString, MojObject>].  [MojObjectVisitor] is the interface through
    which objects are traversed, written and rebuilt. *)

From S2P Require Import Prelude Containers CoreUtil Number.

(** ** Data *)
Inductive MojObject :=
| UndefinedImpl
| NullImpl
| ObjectImpl (m_props : list (mstring * MojObject))
| ArrayImpl (m_vec : list MojObject)
| StringImpl (m_val : mstring)
| BoolImpl (m_val : bool)
| DecimalImpl (m_rep : Z)
| IntImpl (m_val : Z).

Section induction.
Context (P : MojObject -> Prop).
Context (HU : P UndefinedImpl) (HN : P NullImpl) (HS : forall s, P (StringImpl s))
  (HB : forall b, P (BoolImpl b)) (HD : forall r, P (DecimalImpl r)) (HI : forall v, P (IntImpl v))
  (HO : forall m, Forall (fun kv => P kv.2) m -> P (ObjectImpl m))
  (HA : forall v, Forall P v -> P (ArrayImpl v)).

Fixpoint MojObject_nested_ind (o : MojObject) : P o :=
  match o with
  | UndefinedImpl => HU
  | NullImpl => HN
  | StringImpl s => HS s
  | BoolImpl b => HB b
  | DecimalImpl r => HD r
  | IntImpl v => HI v
  | ObjectImpl m => HO m ((fix go m := match m return Forall (fun kv => P kv.2) m with
                                       | [] => Forall_nil_2 _
                                       | kv :: m' => Forall_cons_2 _ kv m' (MojObject_nested_ind kv.2) (go m')
                                       end) m)
  | ArrayImpl v => HA v ((fix go v := match v return Forall P v with
                                      | [] => Forall_nil_2 _
                                      | x :: v' => Forall_cons_2 _ x v' (MojObject_nested_ind x) (go v')
                                      end) v)
  end.
End induction.

(** ** Visitors *)
Module MojObjectVisitor.
Class MojObjectVisitor (S : Type) := {
  reset : S -> res S;
  beginObject : S -> res S;
  endObject : S -> res S;
  beginArray : S -> res S;
  endArray : S -> res S;
  propName : S -> mstring -> res S;
  nullValue : S -> res S;
  boolValue : S -> bool -> res S;
  intValue : S -> Z -> res S;
  decimalValue : S -> Z -> res S;
  stringValue : S -> mstring -> res S
}.

Section props.
Context {S : Type} `{!MojObjectVisitor S}.
Definition boolProp (s : S) (name : mstring) (val : bool) : res S :=
  let? s := propName s name in boolValue s val.
Definition intProp (s : S) (name : mstring) (val : Z) : res S :=
  let? s := propName s name in intValue s val.
Definition decimalProp (s : S) (name : mstring) (val : Z) : res S :=
  let? s := propName s name in decimalValue s val.
Definition stringProp (s : S) (name val : mstring) : res S :=
  let? s := propName s name in stringValue s val.
End props.
End MojObjectVisitor.
Export (hints) MojObjectVisitor.
Abbreviation Visitor := MojObjectVisitor.MojObjectVisitor.

(** [MojObjectEater] ignores what it is shown. *)
Inductive MojObjectEater := eater.
#[export] Instance MojObjectEater_visitor : Visitor MojObjectEater := {|
  MojObjectVisitor.reset s := Ok s;
  MojObjectVisitor.beginObject s := Ok s;
  MojObjectVisitor.endObject s := Ok s;
  MojObjectVisitor.beginArray s := Ok s;
  MojObjectVisitor.endArray s := Ok s;
  MojObjectVisitor.propName s _ := Ok s;
  MojObjectVisitor.nullValue s := Ok s;
  MojObjectVisitor.boolValue s _ := Ok s;
  MojObjectVisitor.intValue s _ := Ok s;
  MojObjectVisitor.decimalValue s _ := Ok s;
  MojObjectVisitor.stringValue s _ := Ok s
|}.

(** ** Operations *)
Module MojObject.
Inductive Type_ :=
| TypeUndefined | TypeNull | TypeObject | TypeArray | TypeString | TypeBool | TypeDecimal | TypeInt.

#[global] Instance Type_eq_dec : EqDecision Type_.
Proof. solve_decision. Defined.

Definition type_code (t : Type_) : Z :=
  match t with
  | TypeUndefined => 0 | TypeNull => 1 | TypeObject => 2 | TypeArray => 3
  | TypeString => 4 | TypeBool => 5 | TypeDecimal => 6 | TypeInt => 7
  end.

Definition type (o : MojObject) : Type_ :=
  match o with
  | UndefinedImpl => TypeUndefined | NullImpl => TypeNull | ObjectImpl _ => TypeObject
  | ArrayImpl _ => TypeArray | StringImpl _ => TypeString | BoolImpl _ => TypeBool
  | DecimalImpl _ => TypeDecimal | IntImpl _ => TypeInt
  end.

(** [init(Type)]. *)
Definition clear (t : Type_) : MojObject :=
  match t with
  | TypeObject => ObjectImpl [] | TypeArray => ArrayImpl [] | TypeString => StringImpl []
  | TypeBool => BoolImpl false | TypeDecimal => DecimalImpl 0 | TypeInt => IntImpl 0
  | TypeNull => NullImpl | TypeUndefined => UndefinedImpl
  end.

Definition size (o : MojObject) : nat :=
  match o with ObjectImpl m => length m | ArrayImpl v => length v | _ => O end.
Definition empty (o : MojObject) : bool := Nat.eqb (size o) 0.
Definition null (o : MojObject) : bool := bool_decide (type o = TypeNull).
Definition undefined (o : MojObject) : bool := bool_decide (type o = TypeUndefined).

Definition boolValue (o : MojObject) : bool :=
  match o with
  | ObjectImpl m => match m with [] => false | _ => true end
  | ArrayImpl v => match v with [] => false | _ => true end
  | StringImpl s => match s with [] => false | _ => true end
  | BoolImpl b => b
  | DecimalImpl r => negb (r =? 0)
  | IntImpl v => negb (v =? 0)
  | _ => false
  end.

Definition intValue (o : MojObject) : Z :=
  match o with
  | StringImpl s => (MojOs.MojStrToInt64 s 0).1
  | BoolImpl b => if b then 1 else 0
  | DecimalImpl r => MojDecimal.magnitude r
  | IntImpl v => v
  | _ => 0
  end.

(** A string is read as a [double], by the C library. *)
Definition decimalValue (strToDecimal : mstring -> Z) (o : MojObject) : Z :=
  match o with
  | StringImpl s => strToDecimal s
  | BoolImpl b => MojDecimal.assign (if b then 1 else 0) 0
  | DecimalImpl r => r
  | IntImpl v => MojDecimal.assign v 0
  | _ => 0
  end.

(** *** Comparison *)
Fixpoint compare (this val : MojObject) : Z :=
  if negb (type_code (type this) =? type_code (type val))
  then type_code (type this) - type_code (type val)
  else match this, val with
       | ObjectImpl m1, ObjectImpl m2 => MojMap.compare MojStrCmp compare m1 m2
       | ArrayImpl v1, ArrayImpl v2 => MojVector.compare compare v1 v2
       | StringImpl s1, StringImpl s2 => MojStrCmp s1 s2
       | BoolImpl b1, BoolImpl b2 => (if b1 then 1 else 0) - (if b2 then 1 else 0)
       | DecimalImpl r1, DecimalImpl r2 => MojComp r1 r2
       | IntImpl v1, IntImpl v2 => MojComp v1 v2
       | _, _ => 0
       end.

(** [operator==]: arrays use it on their elements, maps use [compare]. *)
Fixpoint equals (this rhs : MojObject) : bool :=
  if negb (bool_decide (type this = type rhs)) then false
  else match this, rhs with
       | ObjectImpl m1, ObjectImpl m2 => MojMap.equals MojStrCmp compare m1 m2
       | ArrayImpl v1, ArrayImpl v2 => MojVector.eq equals v1 v2
       | StringImpl s1, StringImpl s2 => MojStrCmp s1 s2 =? 0
       | BoolImpl b1, BoolImpl b2 => Bool.eqb b1 b2
       | DecimalImpl r1, DecimalImpl r2 => r1 =? r2
       | IntImpl v1, IntImpl v2 => v1 =? v2
       | _, _ => true
       end.

Fixpoint hashCode (o : MojObject) : Z :=
  match o with
  | UndefinedImpl => type_code TypeUndefined
  | NullImpl => type_code TypeNull
  | ObjectImpl m =>
      fold_left (fun hash kv => Z.lxor (Z.lxor hash (MojHash.MojHash_str kv.1)) (hashCode kv.2))
        m (type_code TypeObject)
  | ArrayImpl v => fold_left (fun hash x => Z.lxor hash (hashCode x)) v (type_code TypeArray)
  | StringImpl s => MojHash.MojHash_str s
  | BoolImpl b => type_code TypeBool + (if b then 1 else 0)
  | DecimalImpl r => MojHash.MojIntHasher 8 r
  | IntImpl v => MojHash.MojIntHasher 8 v
  end.

(** *** Traversal *)
Section visit.
Context {S : Type} `{!Visitor S}.
Fixpoint visit (o : MojObject) (visitor : S) : res S :=
  match o with
  | UndefinedImpl | NullImpl => MojObjectVisitor.nullValue visitor
  | ObjectImpl m =>
      let? visitor := MojObjectVisitor.beginObject visitor in
      let? visitor := res_fold (fun v i =>
        let? v := MojObjectVisitor.propName v i.1 in visit i.2 v) visitor m in
      MojObjectVisitor.endObject visitor
  | ArrayImpl vec =>
      let? visitor := MojObjectVisitor.beginArray visitor in
      let? visitor := res_fold (fun v i => visit i v) visitor vec in
      MojObjectVisitor.endArray visitor
  | StringImpl s => MojObjectVisitor.stringValue visitor s
  | BoolImpl b => MojObjectVisitor.boolValue visitor b
  | DecimalImpl r => MojObjectVisitor.decimalValue visitor r
  | IntImpl v => MojObjectVisitor.intValue visitor v
  end.

Definition objectProp (visitor : S) (name : mstring) (val : MojObject) : res S :=
  let? visitor := MojObjectVisitor.propName visitor name in visit val visitor.
End visit.

(** *** Properties *)
Definition ensureObject (o : MojObject) : list (mstring * MojObject) :=
  match o with ObjectImpl m => m | _ => [] end.
Definition ensureArray (o : MojObject) : list MojObject :=
  match o with ArrayImpl v => v | _ => [] end.

Definition put (o : MojObject) (key : mstring) (val : MojObject) : MojObject :=
  ObjectImpl (MojMap.put MojStrCmp (ensureObject o) key val).

Definition putString (o : MojObject) (key val : mstring) : MojObject := put o key (StringImpl val).
Definition putBool (o : MojObject) (key : mstring) (val : bool) : MojObject := put o key (BoolImpl val).
Definition putInt (o : MojObject) (key : mstring) (val : Z) : MojObject := put o key (IntImpl val).
Definition putDecimal (o : MojObject) (key : mstring) (val : Z) : MojObject := put o key (DecimalImpl val).

Definition get (o : MojObject) (key : mstring) : option MojObject :=
  match o with ObjectImpl m => MojMap.get MojStrCmp m key | _ => None end.

Definition contains (o : MojObject) (key : mstring) : bool :=
  match o with ObjectImpl m => MojMap.contains MojStrCmp m key | _ => false end.

Definition del (o : MojObject) (key : mstring) : MojObject * bool :=
  match o with
  | ObjectImpl m => let '(m, found) := MojMap.del MojStrCmp m key in (ObjectImpl m, found)
  | _ => (o, false)
  end.

Definition get_bool (o : MojObject) (key : mstring) : option bool :=
  match get o key with Some v => Some (boolValue v) | None => None end.
Definition get_int (o : MojObject) (key : mstring) : option Z :=
  match get o key with Some v => Some (intValue v) | None => None end.
Definition get_decimal (strToDecimal : mstring -> Z) (o : MojObject) (key : mstring) : option Z :=
  match get o key with Some v => Some (decimalValue strToDecimal v) | None => None end.

(** The narrower integer types fail when the value does not fit. *)
Definition get_int32 (o : MojObject) (key : mstring) : res (option Z) :=
  match get_int o key with
  | Some val => if (MojInt32Min <=? val) && (val <=? MojInt32Max) then Ok (Some val) else Err MojErrValueOutOfRange
  | None => Ok None
  end.
Definition get_uint32 (o : MojObject) (key : mstring) : res (option Z) :=
  match get_int o key with
  | Some val => if (0 <=? val) && (val <=? MojUInt32Max) then Ok (Some val) else Err MojErrValueOutOfRange
  | None => Ok None
  end.
Definition get_uint64 (o : MojObject) (key : mstring) : res (option Z) :=
  match get_int o key with
  | Some val => if 0 <=? val then Ok (Some val) else Err MojErrValueOutOfRange
  | None => Ok None
  end.

Definition getRequiredT {A} (found : option A) : res A :=
  match found with Some v => Ok v | None => Err MojErrRequiredPropNotFound end.
Definition getRequiredErrT {A} (r : res (option A)) : res A :=
  let? found := r in getRequiredT found.

(** *** Arrays *)
Definition push (o : MojObject) (val : MojObject) : MojObject := ArrayImpl (ensureArray o ++ [val]).
Definition pushString (o : MojObject) (val : mstring) : MojObject := push o (StringImpl val).

Definition delString (o : MojObject) (idx : nat) : MojObject :=
  let v := ensureArray o in
  ArrayImpl (if (idx <? length v)%nat then delete idx v else v).

(** [resize] fills with undefined objects. *)
Definition setAt (o : MojObject) (idx : nat) (val : MojObject) : MojObject :=
  let v := ensureArray o in
  let v := if (length v <=? idx)%nat then v ++ replicate (idx + 1 - length v) UndefinedImpl else v in
  ArrayImpl (<[idx := val]> v).

Definition at_ (o : MojObject) (idx : nat) : option MojObject :=
  match o with ArrayImpl v => v !! idx | _ => None end.
Definition at_bool (o : MojObject) (idx : nat) : bool * bool :=
  match at_ o idx with Some v => (true, boolValue v) | None => (false, false) end.
Definition at_int (o : MojObject) (idx : nat) : bool * Z :=
  match at_ o idx with Some v => (true, intValue v) | None => (false, 0) end.

(** ** Well-formed objects: what the operations build and C strings allow *)
Fixpoint ok (o : MojObject) : Prop :=
  match o with
  | ObjectImpl m =>
      MojRbTreeBase.sorted fst MojStrCmp m /\
      fold_right (fun kv P => str_ok kv.1 /\ ok kv.2 /\ P) True m
  | ArrayImpl v => fold_right (fun x P => ok x /\ P) True v
  | StringImpl s => str_ok s
  | DecimalImpl r => in_int 64 r
  | IntImpl v => in_int 64 v
  | _ => True
  end.

Lemma ok_object m : ok (ObjectImpl m) <->
  MojRbTreeBase.sorted fst MojStrCmp m /\ Forall (fun kv => str_ok kv.1 /\ ok kv.2) m.
Proof.
  simpl. apply and_iff_compat_l. induction m as [|kv m IH]; simpl; [split; auto|].
  rewrite IH, Forall_cons. tauto.
Qed.

Lemma ok_array v : ok (ArrayImpl v) <-> Forall ok v.
Proof.
  simpl. induction v as [|x v IH]; simpl; [split; auto|]. rewrite IH, Forall_cons. tauto.
Qed.

(** *** [compare] is a total preorder *)
Lemma object_compare_laws_at o : comp_laws_at compare o.
Proof.
  induction o as [| |s|b|r|v|m IH|v IH] using MojObject_nested_ind.
  all: try (pose proof (MojVector.compare_laws_at compare v IH) as L);
    try (pose proof (MojVector.compare_laws_at (MojMap.compareFull MojStrCmp compare) m) as L;
         lapply L; [clear L; intros L|
           eapply Forall_impl; [exact IH|]; intros [k x] Hx; apply MojMap.compareFull_laws_at; [|exact Hx];
           apply comp_laws_at_inst, _]);
    try (pose proof (comp_laws_at_inst MojStrCmp s) as L);
    try (pose proof (comp_laws_at_inst MojComp r) as L);
    try (pose proof (comp_laws_at_inst MojComp v) as L).
  all: try destruct L as (L1 & L2 & L3 & L4).
  all: split; [simpl; try lia; try done; exact L1|split; [|split]].
  all: try (intros []; simpl; first [lia | apply L2 | destruct b; simpl; try destruct m_val; simpl; lia]).
  all: intros [] []; simpl; first [lia | apply L3 | apply L4 | idtac].
  all: try (destruct b; try destruct m_val; try destruct m_val0; simpl; lia).
Qed.

#[global] Instance compare_laws : CompLaws compare.
Proof. apply comp_laws_at_all, object_compare_laws_at. Qed.

(** *** Equality *)
Lemma vector_compare_eq {A} (C : A -> A -> Z) v1 v2 :
  Forall (fun x => forall y, y ∈ v2 -> C x y = 0 -> x = y) v1 ->
  MojVector.compare C v1 v2 = 0 -> v1 = v2.
Proof.
  intros H. revert v2 H. induction v1 as [|x v1 IH]; intros [|y v2] H; simpl; try done.
  apply Forall_cons in H as [H1 H2]. destruct (Z.eqb_spec (C x y) 0) as [E|]; simpl; [|done].
  intros E2. f_equal; [apply H1; [set_solver|done]|]. apply IH; [|done].
  eapply Forall_impl; [exact H2|]. intros z Hz w Hw. apply Hz. set_solver.
Qed.

Lemma compare_eq a b : ok a -> ok b -> compare a b = 0 -> a = b.
Proof.
  revert b. induction a as [| |s|c|r|v|m IH|v IH] using MojObject_nested_ind;
    intros [| |m2|v2|s2|c2|r2|w2] Ha Hb; try done.
  - simpl. intros E. f_equal. by apply MojStrCmp_eq.
  - simpl. by destruct c, c2.
  - simpl. pose proof (MojComp_spec r r2). intros; f_equal; lia.
  - simpl. pose proof (MojComp_spec v w2). intros; f_equal; lia.
  - intros E. f_equal. apply ok_object in Ha as [_ Ha], Hb as [_ Hb].
    rewrite Forall_forall in Hb. rewrite Forall_forall in IH, Ha.
    apply vector_compare_eq with (C := MojMap.compareFull MojStrCmp compare); [|exact E].
    apply Forall_forall. intros [k x] Hx [k' y] Hy. unfold MojMap.compareFull; simpl.
    destruct (Ha _ Hx), (Hb _ Hy). destruct (Z.eqb_spec (MojStrCmp k k') 0) as [E1|]; [|done].
    apply MojStrCmp_eq in E1 as ->; [|done..]. intros E2. f_equal. by apply (IH _ Hx).
  - intros E. f_equal. apply ok_array in Ha, Hb. rewrite Forall_forall in Hb, IH, Ha.
    apply vector_compare_eq with (C := compare); [|exact E].
    apply Forall_forall. intros x Hx y Hy E2. by apply IH; auto.
Qed.

Lemma vector_eq_compare {A} (EQ : A -> A -> bool) (C : A -> A -> Z) v1 v2 :
  Forall (fun x => forall y, EQ x y = (C x y =? 0)) v1 ->
  MojVector.eq EQ v1 v2 = (MojVector.compare C v1 v2 =? 0).
Proof.
  intros H. unfold MojVector.eq. revert v2. induction H as [|x v1 Hx H IH]; intros [|y v2]; simpl; try done.
  specialize (IH v2). rewrite Hx. destruct (Z.eqb_spec (C x y) 0) as [E|E]; simpl.
  - rewrite <- IH. by destruct (Nat.eqb (length v1) (length v2)).
  - destruct (Nat.eqb _ _); simpl; by destruct (Z.eqb_spec (C x y) 0).
Qed.

Lemma compare_length_eq {A} (C : A -> A -> Z) v1 v2 :
  MojVector.compare C v1 v2 = 0 -> length v1 = length v2.
Proof.
  revert v2. induction v1 as [|x v1 IH]; intros [|y v2]; simpl; try done.
  destruct (Z.eqb_spec (C x y) 0); simpl; [|done]. auto.
Qed.

(** [operator==] and [compare] agree. *)
Lemma equals_compare a b : equals a b = (compare a b =? 0).
Proof.
  revert b. induction a as [| |s|c|r|v|m IH|v IH] using MojObject_nested_ind;
    intros [| |m2|v2|s2|c2|r2|w2]; try reflexivity; simpl.
  - by destruct c, c2.
  - pose proof (MojComp_spec r r2). destruct (Z.eqb_spec r r2), (Z.eqb_spec (MojComp r r2) 0); lia.
  - pose proof (MojComp_spec v w2). destruct (Z.eqb_spec v w2), (Z.eqb_spec (MojComp v w2) 0); lia.
  - unfold MojMap.equals, MojMap.compare, MojRbTreeBase.equals, MojRbTreeBase.compare.
    destruct (Nat.eqb_spec (length m) (length m2)) as [|Hn]; simpl; [done|].
    symmetry. apply Z.eqb_neq. by intros E%compare_length_eq.
  - by apply vector_eq_compare.
Qed.

(** [operator==] of objects is an equivalence that holds exactly when
    [compare] returns zero; on objects built from C strings and 64-bit integers it
    is equality of contents, so equal objects have one hash code. *)
Theorem equals_spec a b :
  equals a a = true /\ equals a b = equals b a /\ equals a b = (compare a b =? 0) /\
  (forall c, equals a b = true -> equals b c = true -> equals a c = true) /\
  (ok a -> ok b -> (equals a b = true <-> a = b) /\ (equals a b = true -> hashCode a = hashCode b)).
Proof.
  assert (forall x y, equals x y = true <-> compare x y = 0) as H.
  { intros x y. rewrite equals_compare. apply Z.eqb_eq. }
  split; [apply H, (comp_refl compare)|]. split.
  { rewrite !equals_compare. pose proof (comp_anti compare a b).
    destruct (Z.eqb_spec (compare a b) 0), (Z.eqb_spec (compare b a) 0); lia. }
  split; [apply equals_compare|]. split.
  { intros c. rewrite !H. apply (comp_eq_trans compare). }
  intros Ha Hb. assert (equals a b = true <-> a = b) as E.
  { rewrite H. split; [by apply compare_eq|]. intros ->. apply (comp_refl compare). }
  split; [done|]. by intros ->%E.
Qed.

Lemma equals_spec_witness :
  ok (ArrayImpl [IntImpl 1; StringImpl (_T "a")]) /\
  hashCode (ArrayImpl [IntImpl 1; StringImpl (_T "a")]) = hashCode (ArrayImpl [IntImpl 1; StringImpl (_T "a")]).
Proof.
  assert (ok (ArrayImpl [IntImpl 1; StringImpl (_T "a")])) as H.
  { simpl. unfold in_int. repeat split; try lia. repeat constructor. }
  split; [exact H|].
  destruct (equals_spec (ArrayImpl [IntImpl 1; StringImpl (_T "a")])
    (ArrayImpl [IntImpl 1; StringImpl (_T "a")])) as (_ & _ & _ & _ & E).
  apply E; [exact H|exact H|reflexivity].
Defined.

(** *** Property maps *)
Lemma put_ok o k v : ok o -> str_ok k -> ok v -> ok (put o k v).
Proof.
  intros Ho Hk Hv. unfold put.
  assert (MojRbTreeBase.sorted fst MojStrCmp (ensureObject o) /\
    Forall (fun kv => str_ok kv.1 /\ ok kv.2) (ensureObject o)) as [Hs Hf].
  { destruct o; try (split; constructor). by apply ok_object. }
  apply ok_object. split.
  - apply MojMap.map_put_sorted; [apply _|done].
  - rewrite Forall_forall in *. intros kv Hkv.
    apply (MojRbTreeBase.elem_of_put_inv fst MojStrCmp) in Hkv as [->|Hkv]; [done|auto].
Qed.

Lemma get_put o k v j : ok o -> str_ok k -> str_ok j ->
  get (put o k v) j = if decide (k = j) then Some v else get o j.
Proof.
  intros Ho Hk Hj. unfold put, get at 1.
  assert (MojRbTreeBase.sorted fst MojStrCmp (ensureObject o)) as Hs.
  { destruct o; try constructor. by apply ok_object in Ho as []. }
  rewrite MojMap.map_get_put by (done || apply _). pose proof (MojStrCmp_eq k j Hk Hj).
  destruct (Z.eqb_spec (MojStrCmp k j) 0), (decide (k = j)); try tauto. by destruct o.
Qed.

Lemma get_del o k j : ok o -> str_ok k -> str_ok j ->
  get (del o k).1 j = if decide (j = k) then None else get o j.
Proof.
  intros Ho Hk Hj. destruct o as [| |m| | | | | ]; simpl;
    try (by destruct (decide _)).
  apply ok_object in Ho as [Hs _]. pose proof (MojMap.map_get_del MojStrCmp m k j Hs) as H.
  destruct (MojMap.del MojStrCmp m k) as [m2 f]; simpl in *. rewrite H. pose proof (MojStrCmp_eq j k Hj Hk).
  destruct (Z.eqb_spec (MojStrCmp j k) 0), (decide (j = k)); tauto.
Qed.

Lemma get_ok o k v : ok o -> get o k = Some v -> ok v.
Proof.
  destruct o as [| |m| | | | | ]; simpl; try done. intros [_ Hf]%ok_object.
  unfold MojMap.get. destruct (MojRbTreeBase.find _ _ k m) as [[k' v']|] eqn:E; [|done].
  intros [= <-]. apply MojRbTreeBase.find_Some in E as [E _]. rewrite Forall_forall in Hf.
  by apply Hf in E as [].
Qed.

Lemma del_ok o k : ok o -> ok (del o k).1.
Proof.
  destruct o as [| |m| | | | | ]; simpl; try done. intros [Hs Hf]%ok_object.
  pose proof (MojMap.map_del_sorted MojStrCmp m k Hs) as H.
  pose proof (fun x => proj1 (MojRbTreeBase.elem_of_del fst MojStrCmp k m x Hs)) as He.
  unfold MojMap.del in *. destruct (MojRbTreeBase.del fst MojStrCmp k m) as [m2 f]. simpl in *.
  apply ok_object. split; [done|]. rewrite Forall_forall in *. intros x Hx. apply Hf. by apply He.
Qed.

(** An object behaves as a map from property names to values: what was put
    is read back, a deleted property is gone, other properties keep their values,
    and the properties stay in key order without duplicates. *)
Theorem object_map o k v j : ok o -> str_ok k -> str_ok j -> ok v ->
  ok (put o k v) /\ ok (del o k).1 /\
  get (put o k v) j = (if decide (k = j) then Some v else get o j) /\
  get (del o k).1 j = (if decide (j = k) then None else get o j) /\
  (forall w, get o j = Some w -> ok w).
Proof.
  intros Ho Hk Hj Hv. split; [by apply put_ok|]. split; [by apply del_ok|].
  split; [by apply get_put|]. split; [by apply get_del|]. intros w. by apply get_ok.
Qed.

Lemma object_map_witness :
  ok (put (putInt UndefinedImpl (_T "b") 2) (_T "a") (IntImpl 1)) /\
  get (put (putInt UndefinedImpl (_T "b") 2) (_T "a") (IntImpl 1)) (_T "b") = Some (IntImpl 2).
Proof.
  destruct (object_map (putInt UndefinedImpl (_T "b") 2) (_T "a") (IntImpl 1) (_T "b"))
    as (H1 & _ & H2 & _).
  - split; [repeat constructor|]. simpl. repeat constructor; unfold in_int; lia.
  - repeat constructor.
  - repeat constructor.
  - simpl. unfold in_int. lia.
  - split; [exact H1|]. rewrite H2. reflexivity.
Defined.
End MojObject.
