(* ===== verification/ObjectBuilder.v ===== *)
(** * Building objects: src/src/core/MojObjectBuilder.cpp

    The visitor that rebuilds the object it is shown: a stack of unfinished
    containers, each with the property name under which it will be stored. *)

From S2P Require Import Prelude Containers Object.

Module MojObjectBuilder.
Record Rec := { r_obj : MojObject; r_propName : mstring }.

Record MojObjectBuilder := {
  m_stack : list Rec;   (* the top first *)
  m_obj : MojObject;
  m_propName : mstring
}.

Definition init : MojObjectBuilder := {| m_stack := []; m_obj := UndefinedImpl; m_propName := [] |}.

Definition reset (b : MojObjectBuilder) : MojObjectBuilder := init.

Definition push (b : MojObjectBuilder) (type : MojObject.Type_) : MojObjectBuilder :=
  {| m_stack := {| r_obj := MojObject.clear type; r_propName := m_propName b |} :: m_stack b;
     m_obj := m_obj b; m_propName := m_propName b |}.

Definition value (b : MojObjectBuilder) (val : MojObject) : res MojObjectBuilder :=
  match m_stack b with
  | [] => Ok {| m_stack := []; m_obj := val; m_propName := m_propName b |}
  | rec :: stack =>
      let obj := r_obj rec in
      let set obj := Ok {| m_stack := {| r_obj := obj; r_propName := r_propName rec |} :: stack;
                           m_obj := m_obj b; m_propName := m_propName b |} in
      if bool_decide (MojObject.type obj = MojObject.TypeObject)
      then set (MojObject.put obj (m_propName b) val)
      else if bool_decide (MojObject.type obj = MojObject.TypeArray)
      then set (MojObject.push obj val)
      else Err AssertFailed
  end.

Definition pop (b : MojObjectBuilder) : res MojObjectBuilder :=
  match m_stack b with
  | [] => Err AssertFailed
  | rec :: stack =>
      value {| m_stack := stack; m_obj := m_obj b; m_propName := r_propName rec |} (r_obj rec)
  end.

#[global] Instance visitor : Visitor MojObjectBuilder := {|
  MojObjectVisitor.reset b := Ok (reset b);
  MojObjectVisitor.beginObject b := Ok (push b MojObject.TypeObject);
  MojObjectVisitor.endObject := pop;
  MojObjectVisitor.beginArray b := Ok (push b MojObject.TypeArray);
  MojObjectVisitor.endArray := pop;
  MojObjectVisitor.propName b name :=
    Ok {| m_stack := m_stack b; m_obj := m_obj b; m_propName := name |};
  MojObjectVisitor.nullValue b := value b (MojObject.clear MojObject.TypeNull);
  MojObjectVisitor.boolValue b val := value b (BoolImpl val);
  MojObjectVisitor.intValue b val := value b (IntImpl val);
  MojObjectVisitor.decimalValue b val := value b (DecimalImpl val);
  MojObjectVisitor.stringValue b val := value b (StringImpl val)
|}.

(** ** Rebuilding

    A visitor sees an undefined value as null. *)
Fixpoint norm (o : MojObject) : MojObject :=
  match o with
  | UndefinedImpl => NullImpl
  | ObjectImpl m => ObjectImpl (map (fun kv => (kv.1, norm kv.2)) m)
  | ArrayImpl v => ArrayImpl (map norm v)
  | _ => o
  end.

(** No undefined value inside. *)
Fixpoint defined (o : MojObject) : Prop :=
  match o with
  | UndefinedImpl => False
  | ObjectImpl m => fold_right (fun kv P => defined kv.2 /\ P) True m
  | ArrayImpl v => fold_right (fun x P => defined x /\ P) True v
  | _ => True
  end.

Lemma defined_object m : defined (ObjectImpl m) <-> Forall (fun kv => defined kv.2) m.
Proof. simpl. induction m; simpl; [split; auto|]. rewrite Forall_cons. tauto. Qed.

Lemma defined_array v : defined (ArrayImpl v) <-> Forall defined v.
Proof. simpl. induction v; simpl; [split; auto|]. rewrite Forall_cons. tauto. Qed.

Lemma norm_defined o : defined o -> norm o = o.
Proof.
  induction o as [| |s|b|r|v|m IH|v IH] using MojObject_nested_ind; try done; intros H.
  - apply defined_object in H. simpl. f_equal.
    induction m as [|[k x] m IHm]; simpl; [done|]. apply Forall_cons in IH as [IH1 IH2], H as [H1 H2].
    f_equal; [|auto]. f_equal. auto.
  - apply defined_array in H. simpl. f_equal.
    induction v as [|x v IHv]; simpl; [done|]. apply Forall_cons in IH as [IH1 IH2], H as [H1 H2].
    f_equal; auto.
Qed.

(** The container on top of the stack can take a value. *)
Definition stack_ok (b : MojObjectBuilder) : Prop :=
  match m_stack b with
  | [] => True
  | rec :: _ => MojObject.type (r_obj rec) = MojObject.TypeObject \/
                MojObject.type (r_obj rec) = MojObject.TypeArray
  end.

Lemma stack_ok_push b t : t = MojObject.TypeObject \/ t = MojObject.TypeArray -> stack_ok (push b t).
Proof. intros [-> | ->]; [left|right]; done. Qed.

Lemma map_fst_sorted (m : list (mstring * MojObject)) (f : MojObject -> MojObject) :
  MojRbTreeBase.sorted fst MojStrCmp m ->
  MojRbTreeBase.sorted fst MojStrCmp (map (fun kv => (kv.1, f kv.2)) m).
Proof.
  induction 1 as [|kv m Hm IH Hf]; simpl; constructor; [done|].
  apply Forall_map. eapply Forall_impl; [exact Hf|]. done.
Qed.

Lemma value_array acc pn stack obj pn2 v :
  value {| m_stack := {| r_obj := ArrayImpl acc; r_propName := pn |} :: stack; m_obj := obj; m_propName := pn2 |} v
  = Ok {| m_stack := {| r_obj := ArrayImpl (acc ++ [v]); r_propName := pn |} :: stack; m_obj := obj; m_propName := pn2 |}.
Proof. done. Qed.

Lemma value_object acc pn stack obj k v :
  value {| m_stack := {| r_obj := ObjectImpl acc; r_propName := pn |} :: stack; m_obj := obj; m_propName := k |} v
  = Ok {| m_stack := {| r_obj := ObjectImpl (MojRbTreeBase.put fst MojStrCmp (k, v) acc); r_propName := pn |} :: stack;
          m_obj := obj; m_propName := k |}.
Proof. done. Qed.

Lemma propName_eq stack obj pn name :
  MojObjectVisitor.propName {| m_stack := stack; m_obj := obj; m_propName := pn |} name
  = Ok {| m_stack := stack; m_obj := obj; m_propName := name |}.
Proof. done. Qed.

(** What a builder makes of any object: the properties are put one by one. *)
Fixpoint rebuild (o : MojObject) : MojObject :=
  match o with
  | UndefinedImpl => NullImpl
  | ObjectImpl m =>
      ObjectImpl (fold_left (fun acc kv => MojRbTreeBase.put fst MojStrCmp (kv.1, rebuild kv.2) acc) m [])
  | ArrayImpl v => ArrayImpl (map rebuild v)
  | _ => o
  end.

Definition builds (o : MojObject) : Prop := forall b, stack_ok b -> MojObject.visit o b = value b (rebuild o).

(** An object's elements are stored in the container on top. *)
Lemma visit_array vec : forall acc pn stack obj pn2, Forall builds vec ->
  res_fold (fun v i => MojObject.visit i v)
    {| m_stack := {| r_obj := ArrayImpl acc; r_propName := pn |} :: stack; m_obj := obj; m_propName := pn2 |} vec
  = Ok {| m_stack := {| r_obj := ArrayImpl (acc ++ map rebuild vec); r_propName := pn |} :: stack;
          m_obj := obj; m_propName := pn2 |}.
Proof.
  induction vec as [|x vec IH]; intros acc pn stack obj pn2 H; simpl; [by rewrite app_nil_r|].
  apply Forall_cons in H as [Hx H]. rewrite Hx, value_array by (by right). cbn [res_bind]. rewrite IH by done.
  by rewrite <- app_assoc.
Qed.

Lemma visit_props m : forall acc pn stack obj pn2, Forall (fun kv => builds kv.2) m ->
  exists pn3, res_fold (fun v i => let? v := MojObjectVisitor.propName v i.1 in MojObject.visit i.2 v)
    {| m_stack := {| r_obj := ObjectImpl acc; r_propName := pn |} :: stack; m_obj := obj; m_propName := pn2 |} m
  = Ok {| m_stack := {| r_obj := ObjectImpl (fold_left (fun acc kv =>
            MojRbTreeBase.put fst MojStrCmp (kv.1, rebuild kv.2) acc) m acc); r_propName := pn |} :: stack;
          m_obj := obj; m_propName := pn3 |}.
Proof.
  induction m as [|[k x] m IH]; intros acc pn stack obj pn2 H; cbn [res_fold fold_left]; [by exists pn2|].
  apply Forall_cons in H as [Hx H].
  rewrite propName_eq. cbn [res_bind fst snd] in *. rewrite Hx, value_object by (by left). cbn [res_bind].
  apply (IH (MojRbTreeBase.put fst MojStrCmp (k, rebuild x) acc) pn stack obj k H).
Qed.

Lemma visit_rebuild o : builds o.
Proof.
  induction o as [| |s|c|r|v|m IH|v IH] using MojObject_nested_ind; intros b Hb; try done.
  - cbn [MojObject.visit].
    change (MojObjectVisitor.beginObject b) with (Ok (push b MojObject.TypeObject)). cbn [res_bind].
    destruct (visit_props m [] (m_propName b) (m_stack b) (m_obj b) (m_propName b)) as (pn3 & E); [done|].
    unfold push. change (MojObject.clear MojObject.TypeObject) with (ObjectImpl []).
    rewrite E. simpl. unfold pop. simpl. by destruct b.
  - cbn [MojObject.visit].
    change (MojObjectVisitor.beginArray b) with (Ok (push b MojObject.TypeArray)). cbn [res_bind].
    unfold push. change (MojObject.clear MojObject.TypeArray) with (ArrayImpl []).
    rewrite (visit_array v []) by done. simpl. unfold pop. simpl. by destruct b.
Qed.

(** Putting properties that come in key order keeps them as they are. *)
Lemma fold_put_sorted (m acc : list (mstring * MojObject)) : MojRbTreeBase.sorted fst MojStrCmp m ->
  (forall a kv, a ∈ acc -> kv ∈ m -> MojStrCmp a.1 kv.1 < 0) ->
  fold_left (fun acc kv => MojRbTreeBase.put fst MojStrCmp kv acc) m acc = acc ++ m.
Proof.
  intros Hs. revert acc. induction Hs as [|kv m Hs IH Hk]; intros acc Ha; simpl; [by rewrite app_nil_r|].
  rewrite MojRbTreeBase.put_last by (apply Forall_forall; intros a Hin; apply Ha; set_solver).
  rewrite IH, <- app_assoc; [done|]. rewrite Forall_forall in Hk.
  intros a kv' [Hin|Hin]%elem_of_app Hkv; [|apply list_elem_of_singleton in Hin as ->; by apply Hk].
  apply Ha; [done|]. by apply list_elem_of_further.
Qed.

Lemma rebuild_norm o : MojObject.ok o -> rebuild o = norm o.
Proof.
  induction o as [| |s|c|r|v|m IH|v IH] using MojObject_nested_ind; intros Ho; try done; simpl; f_equal.
  - apply MojObject.ok_object in Ho as [Hs Hf].
    assert (forall acc, fold_left (fun acc kv => MojRbTreeBase.put fst MojStrCmp (kv.1, rebuild kv.2) acc) m acc
      = fold_left (fun acc kv => MojRbTreeBase.put fst MojStrCmp kv acc) (map (fun kv => (kv.1, norm kv.2)) m) acc) as ->.
    { clear Hs. induction m as [|kv m IHm]; intros acc; simpl; [done|].
      apply Forall_cons in IH as [IH1 IH2], Hf as [[_ H1] H2]. rewrite IH1 by done. by apply IHm. }
    rewrite fold_put_sorted; [done|by apply map_fst_sorted|set_solver].
  - apply MojObject.ok_array in Ho. induction v as [|x v IHv]; simpl; [done|].
    apply Forall_cons in IH as [IH1 IH2], Ho as [H1 H2]. f_equal; auto.
Qed.

Lemma visit_value o : MojObject.ok o -> forall b, stack_ok b -> MojObject.visit o b = value b (norm o).
Proof. intros Ho b Hb. by rewrite visit_rebuild, rebuild_norm. Qed.

(** A property of a rebuilt object: the last one put under its name. *)
Lemma get_fold_put (m : list (mstring * MojObject)) acc k : str_ok k -> Forall (fun kv => str_ok kv.1) m ->
  MojRbTreeBase.sorted fst MojStrCmp acc ->
  MojMap.get MojStrCmp (fold_left (fun acc kv => MojRbTreeBase.put fst MojStrCmp (kv.1, rebuild kv.2) acc) m acc) k
  = fold_left (fun r kv => if decide (kv.1 = k) then Some (rebuild kv.2) else r) m (MojMap.get MojStrCmp acc k).
Proof.
  intros Hk Hm. revert acc. induction Hm as [|kv m Hkv Hm IH]; intros acc Hs; simpl; [done|].
  rewrite IH by exact (MojRbTreeBase.put_sorted fst MojStrCmp _ _ Hs). f_equal.
  pose proof (MojMap.map_get_put MojStrCmp acc kv.1 (rebuild kv.2) k Hs) as E. unfold MojMap.put in E. rewrite E.
  destruct (decide (kv.1 = k)) as [->|Hn]; [by rewrite (comp_refl MojStrCmp)|].
  destruct (Z.eqb_spec (MojStrCmp kv.1 k) 0) as [Z0|]; [|done]. by apply MojStrCmp_eq in Z0.
Qed.

Lemma get_rebuild m k : str_ok k -> Forall (fun kv => str_ok kv.1) m ->
  MojObject.get (rebuild (ObjectImpl m)) k =
    fold_left (fun r kv => if decide (kv.1 = k) then Some (rebuild kv.2) else r) m None.
Proof. intros Hk Hm. apply get_fold_put; [done|done|constructor]. Qed.

(** visiting a well-formed object with a builder rebuilds it: the builder
    ends with an empty stack and the same object, undefined values having become
    null. *)
Theorem builder_visit o : MojObject.ok o ->
  MojObject.visit o init = Ok {| m_stack := []; m_obj := norm o; m_propName := [] |}.
Proof. intros Ho. by rewrite visit_value. Qed.

Lemma builder_visit_witness :
  MojObject.visit (ArrayImpl [UndefinedImpl; IntImpl 3]) init
  = Ok {| m_stack := []; m_obj := ArrayImpl [NullImpl; IntImpl 3]; m_propName := [] |}.
Proof.
  apply (builder_visit (ArrayImpl [UndefinedImpl; IntImpl 3])). simpl. unfold in_int. repeat split; lia.
Defined.
End MojObjectBuilder.
