(* ===== verification/ObjectFilter.v ===== *)
(** * The property filter of a query: src/src/core/MojObjectFilter.cpp,
    src/inc/core/MojObjectFilter.h

    A [MojObjectFilter] stands between an object and a visitor and lets only the
    selected properties through.  It holds the tree of the selected names and,
    for every container that has been opened, where in the tree it is and
    whether the visitor has been told of it. *)

From S2P Require Import Prelude Containers CoreUtil Number Object ObjectBuilder.

Definition MojSizeMax : Z := MojUInt64Max.

Module MojObjectFilter.
(** ** The tree of selected names *)
Inductive Node := mkNode { m_propName : mstring; m_children : list Node }.

Definition childless (n : Node) : bool := match m_children n with [] => true | _ => false end.

Definition matches (name : mstring) (n : Node) : bool := bool_decide (name = m_propName n).

(** [Node::find]. *)
Definition find (cs : list Node) (name : mstring) : option Node := List.find (matches name) cs.

(** The first child of that name is what the pointer [curNode] designates. *)
Fixpoint update (cs : list Node) (name : mstring) (n : Node) : list Node :=
  match cs with
  | [] => []
  | c :: cs' => if matches name c then n :: cs' else c :: update cs' name n
  end.

(** The loop over the parts of one name, below the node that has the children [cs]. *)
Fixpoint addParts (cs : list Node) (parts : list mstring) : list Node :=
  match parts with
  | [] => cs
  | p :: parts' =>
      match find cs p with
      | Some child =>
          if childless child then cs
          else update cs p (mkNode (m_propName child) (addParts (m_children child) parts'))
      | None => cs ++ [mkNode p (addParts [] parts')]
      end
  end.

(** [init]: the set's names, in the set's order. *)
Definition init (selectProps : list mstring) : Node :=
  mkNode [] (fold_left (fun cs i => addParts cs (MojString.split i (chr "."))) selectProps []).

(** ** The state of the filter

    [m_node] is a pointer that may be null; the iterator [m_child] is the
    children that are still ahead. *)
Record State := mkState {
  m_node : option Node;
  m_child : list Node;
  m_includeCount : Z;
  m_included : bool;
  m_array : bool
}.

Definition State_reset (node : Node) : State :=
  {| m_node := Some node; m_child := []; m_includeCount := 0; m_included := true; m_array := false |}.

Definition with_count (s : State) (c : Z) : State :=
  {| m_node := m_node s; m_child := m_child s; m_includeCount := c; m_included := m_included s;
     m_array := m_array s |}.
Definition with_child (s : State) (cs : list Node) : State :=
  {| m_node := m_node s; m_child := cs; m_includeCount := m_includeCount s; m_included := m_included s;
     m_array := m_array s |}.
Definition set_included (s : State) : State :=
  {| m_node := m_node s; m_child := m_child s; m_includeCount := m_includeCount s; m_included := true;
     m_array := m_array s |}.

(** The child iterator moves to the first child whose name is not before [name]. *)
Fixpoint advance (cs : list Node) (name : mstring) : list Node :=
  match cs with
  | [] => []
  | c :: cs' => if MojStrCmp (m_propName c) name <? 0 then advance cs' name else cs
  end.

(** The loop of [propName]: the new state and the node a container found there
    is filtered with. *)
Definition enter (s : State) (name : mstring) : State * option Node :=
  match m_node s with
  | None => (s, None)
  | Some _ =>
      let s := with_child s (advance (m_child s) name) in
      match m_child s with
      | [] => (with_count s 0, None)
      | c :: _ =>
          if MojStrCmp (m_propName c) name =? 0
          then if childless c then (with_count s 1, None) else (with_count s 0, Some c)
          else (with_count s 0, None)
      end
  end.

Section filter.
Context {S : Type} `{!Visitor S}.

Record MojObjectFilter := mkFilter {
  m_root : Node;
  m_visitor : S;
  m_stack : list State; (* the vector, the last pushed at its end *)
  m_state : State;
  m_nextNode : option Node
}.

Definition setVisitor (root : Node) (visitor : S) : MojObjectFilter :=
  {| m_root := root; m_visitor := visitor; m_stack := []; m_state := State_reset root;
     m_nextNode := Some root |}.

Definition with_visitor (f : MojObjectFilter) (v : S) : MojObjectFilter :=
  {| m_root := m_root f; m_visitor := v; m_stack := m_stack f; m_state := m_state f; m_nextNode := m_nextNode f |}.

(** [include]: tell the visitor of a container that had been kept back. *)
Definition include (v : S) (state : State) (prevState : option State) : res S :=
  match prevState, m_node state with
  | Some prev, Some node =>
      let? v := if m_array prev then Ok v else MojObjectVisitor.propName v (m_propName node) in
      if m_array state then MojObjectVisitor.beginArray v else MojObjectVisitor.beginObject v
  | _, _ => Err AssertFailed
  end.

(** The loop of [includeParents] over the stack, from its bottom. *)
Fixpoint includeStack (v : S) (prevState : option State) (stack : list State) : res (S * option State) :=
  match stack with
  | [] => Ok (v, prevState)
  | s :: stack' =>
      let? v := if m_included s then Ok v else include v s prevState in
      includeStack v (Some (set_included s)) stack'
  end.

Definition includeParents (f : MojObjectFilter) : res MojObjectFilter :=
  let? (v, prevState) := includeStack (m_visitor f) None (m_stack f) in
  let? v := include v (m_state f) prevState in
  Ok {| m_root := m_root f; m_visitor := v; m_stack := map set_included (m_stack f);
        m_state := set_included (m_state f); m_nextNode := m_nextNode f |}.

Definition propName (f : MojObjectFilter) (name : mstring) : res MojObjectFilter :=
  let (state, nextNode) := enter (m_state f) name in
  let f := {| m_root := m_root f; m_visitor := m_visitor f; m_stack := m_stack f; m_state := state;
              m_nextNode := nextNode |} in
  if m_includeCount state =? 0 then Ok f
  else
    let? f := if m_included state then Ok f else includeParents f in
    let? v := MojObjectVisitor.propName (m_visitor f) name in
    Ok (with_visitor f v).

(** A value that is not a container; [show] is the visitor's method. *)
Definition scalar (f : MojObjectFilter) (show : S -> res S) : res MojObjectFilter :=
  if m_includeCount (m_state f) =? 0 then Ok f
  else
    let? v := show (m_visitor f) in
    Ok {| m_root := m_root f; m_visitor := v; m_stack := m_stack f;
          m_state := with_count (m_state f) (m_includeCount (m_state f) - 1);
          m_nextNode := m_nextNode f |}.

Definition begin (f : MojObjectFilter) (array : bool) (method : S -> res S) : res MojObjectFilter :=
  let stack := m_stack f ++ [m_state f] in
  let count := m_includeCount (m_state f) in
  let state :=
    {| m_node := m_nextNode f;
       m_child := match m_nextNode f with Some node => m_children node | None => [] end;
       m_includeCount := if 1 <=? count then MojSizeMax else count;
       m_included := negb (count =? 0) || Nat.eqb (length stack) 1;
       m_array := array |} in
  let? v := if m_included state then method (m_visitor f) else Ok (m_visitor f) in
  Ok {| m_root := m_root f; m_visitor := v; m_stack := stack; m_state := state; m_nextNode := m_nextNode f |}.

Definition end_ (f : MojObjectFilter) (method : S -> res S) : res MojObjectFilter :=
  let? v := if m_included (m_state f) then method (m_visitor f) else Ok (m_visitor f) in
  match last (m_stack f) with
  | None => Err AssertFailed
  | Some state =>
      let count := m_includeCount state in
      Ok {| m_root := m_root f; m_visitor := v; m_stack := removelast (m_stack f);
            m_state := with_count state (if count =? 0 then 0 else count - 1);
            m_nextNode := m_node (m_state f) |}
  end.

#[export] Instance visitor : Visitor MojObjectFilter := {|
  MojObjectVisitor.reset f := Ok f;
  MojObjectVisitor.beginObject f := begin f false MojObjectVisitor.beginObject;
  MojObjectVisitor.endObject f := end_ f MojObjectVisitor.endObject;
  MojObjectVisitor.beginArray f := begin f true MojObjectVisitor.beginArray;
  MojObjectVisitor.endArray f := end_ f MojObjectVisitor.endArray;
  MojObjectVisitor.propName := propName;
  MojObjectVisitor.nullValue f := scalar f MojObjectVisitor.nullValue;
  MojObjectVisitor.boolValue f val := scalar f (fun v => MojObjectVisitor.boolValue v val);
  MojObjectVisitor.intValue f val := scalar f (fun v => MojObjectVisitor.intValue v val);
  MojObjectVisitor.decimalValue f val := scalar f (fun v => MojObjectVisitor.decimalValue v val);
  MojObjectVisitor.stringValue f val := scalar f (fun v => MojObjectVisitor.stringValue v val)
|}.
End filter.
Arguments MojObjectFilter : clear implicits.

(** An object as a builder behind the filter sees it. *)
Definition filtered (selectProps : list mstring) (o : MojObject) : res MojObject :=
  let? f := MojObject.visit o (setVisitor (init selectProps) MojObjectBuilder.init) in
  Ok (MojObjectBuilder.m_obj (m_visitor f)).

(** ** What the filter promises

    The projection of a value on a tree of names.  A property is kept when its
    name is childless in the tree; below a name that has children only what the
    children select is kept, in objects and in the objects of arrays, and a
    container of which nothing is kept is dropped. *)
Fixpoint project (cs : list Node) (o : MojObject) : option MojObject :=
  match o with
  | ObjectImpl m =>
      match omap (fun kv => match find cs kv.1 with
                            | Some c => pair kv.1 <$> (if childless c then Some kv.2 else project (m_children c) kv.2)
                            | None => None
                            end) m with
      | [] => None
      | m' => Some (ObjectImpl m')
      end
  | ArrayImpl v =>
      match omap (project cs) v with
      | [] => None
      | v' => Some (ArrayImpl v')
      end
  | _ => None
  end.

(** The outermost container is shown even if nothing of it is kept. *)
Definition projectTop (cs : list Node) (o : MojObject) : option MojObject :=
  match project cs o, o with
  | Some o', _ => Some o'
  | None, ObjectImpl _ => Some (ObjectImpl [])
  | None, ArrayImpl _ => Some (ArrayImpl [])
  | None, _ => None
  end.

(** Trees whose children are in the order of their names, as [init] builds them
    from a set whose order agrees with the order of the parts. *)
Fixpoint ordered (n : Node) : Prop :=
  MojRbTreeBase.sorted m_propName MojStrCmp (m_children n) /\
  fold_right (fun c P => str_ok (m_propName c) /\ ordered c /\ P) True (m_children n).

Lemma ordered_node n : ordered n <->
  MojRbTreeBase.sorted m_propName MojStrCmp (m_children n) /\
  Forall (fun c => str_ok (m_propName c) /\ ordered c) (m_children n).
Proof.
  destruct n as [name cs]. simpl. apply and_iff_compat_l.
  induction cs as [|c cs IH]; simpl; [split; auto|]. rewrite IH, Forall_cons. tauto.
Qed.

(** Containers small enough for [m_includeCount]. *)
Fixpoint small (o : MojObject) : Prop :=
  match o with
  | ObjectImpl m => Z.of_nat (length m) <= MojSizeMax /\ fold_right (fun kv P => small kv.2 /\ P) True m
  | ArrayImpl v => Z.of_nat (length v) <= MojSizeMax /\ fold_right (fun x P => small x /\ P) True v
  | _ => True
  end.

Lemma small_object m : small (ObjectImpl m) <->
  Z.of_nat (length m) <= MojSizeMax /\ Forall (fun kv => small kv.2) m.
Proof. simpl. apply and_iff_compat_l. induction m; simpl; [split; auto|]. rewrite Forall_cons. tauto. Qed.

Lemma small_array v : small (ArrayImpl v) <-> Z.of_nat (length v) <= MojSizeMax /\ Forall small v.
Proof. simpl. apply and_iff_compat_l. induction v; simpl; [split; auto|]. rewrite Forall_cons. tauto. Qed.

(** ** The child iterator *)
Lemma find_skip dropped cs name :
  Forall (fun c => MojStrCmp (m_propName c) name < 0) dropped -> find (dropped ++ cs) name = find cs name.
Proof.
  induction 1 as [|c l Hc _ IH]; [done|]. unfold find in *. cbn [app List.find]. rewrite IH.
  unfold matches. destruct (bool_decide_reflect (name = m_propName c)) as [->|]; [|done].
  rewrite (comp_refl MojStrCmp) in Hc. lia.
Qed.

Lemma advance_split cs name : exists dropped, cs = dropped ++ advance cs name /\
  Forall (fun c => MojStrCmp (m_propName c) name < 0) dropped.
Proof.
  induction cs as [|c cs IH]; [by exists []|]. cbn [advance].
  destruct (Z.ltb_spec (MojStrCmp (m_propName c) name) 0) as [H|]; [|by exists []].
  destruct IH as (d & E & Hd). exists (c :: d). split; [by rewrite E at 1|by constructor].
Qed.

(** What has been skipped for one name does not matter for the names after it. *)
Lemma find_advance cs name next : MojStrCmp name next <= 0 -> find (advance cs name) next = find cs next.
Proof.
  intros H. destruct (advance_split cs name) as (d & E & Hd). rewrite E at 2. symmetry. apply find_skip.
  eapply Forall_impl; [exact Hd|]. intros c Hc. exact (comp_lt_le_trans MojStrCmp _ _ _ Hc H).
Qed.

Lemma advance_ordered cs name : MojRbTreeBase.sorted m_propName MojStrCmp cs ->
  Forall (fun c => str_ok (m_propName c) /\ ordered c) cs ->
  MojRbTreeBase.sorted m_propName MojStrCmp (advance cs name) /\
  Forall (fun c => str_ok (m_propName c) /\ ordered c) (advance cs name).
Proof.
  induction 1 as [|c cs Hs IH Hc]; intros Hf; [by split; [constructor|]|]. cbn [advance].
  destruct (_ <? 0); [|by split; [constructor|]]. apply IH. by apply Forall_cons in Hf as [_ ?].
Qed.

(** In an ordered list of children the one the iterator stops at decides. *)
Lemma advance_find cs name : str_ok name -> MojRbTreeBase.sorted m_propName MojStrCmp cs ->
  Forall (fun c => str_ok (m_propName c) /\ ordered c) cs ->
  find cs name = match advance cs name with
                 | c :: _ => if MojStrCmp (m_propName c) name =? 0 then Some c else None
                 | [] => None
                 end.
Proof.
  intros Hn Hs Hf. destruct (advance_ordered cs name Hs Hf) as [Hs' Hf'].
  rewrite <- (find_advance cs name name) by (by rewrite (comp_refl MojStrCmp)).
  assert (forall c l, advance cs name = c :: l -> 0 <= MojStrCmp (m_propName c) name) as Hhd.
  { clear. intros c l. induction cs as [|d cs IH]; [done|]. cbn [advance].
    destruct (Z.ltb_spec (MojStrCmp (m_propName d) name) 0) as [|H]; [done|]. by intros [= <- <-]. }
  destruct (advance cs name) as [|c l] eqn:E; [done|].
  apply Forall_cons in Hf' as [[Hc _] Hl]. apply MojRbTreeBase.sorted_cons in Hs' as [Hcl _].
  unfold find. cbn [List.find]. unfold matches at 1.
  destruct (bool_decide_reflect (name = m_propName c)) as [->|Hne]; [by rewrite (comp_refl MojStrCmp)|].
  destruct (Z.eqb_spec (MojStrCmp (m_propName c) name) 0) as [Z0|Hnz]; [by apply MojStrCmp_eq in Z0|].
  assert (forall d, d ∈ l -> matches name d = false) as Hno.
  { intros d Hd. apply bool_decide_eq_false. intros ->.
    rewrite Forall_forall in Hcl. specialize (Hcl d Hd). unfold MojRbTreeBase.node_lt in Hcl.
    specialize (Hhd c l eq_refl). lia. }
  clear -Hno. induction l as [|d l IH]; [done|]. cbn [List.find].
  rewrite (Hno d) by (by left). apply IH. intros e He. apply Hno. by right.
Qed.
End MojObjectFilter.
Export (hints) MojObjectFilter.
