(* ===== verification/ObjectFilterSpec.v ===== *)
(** * The property filter shows a visitor the projection of the object

    What reaches the visitor behind a [MojObjectFilter], event for event and
    errors included, is what visiting the projected object would show it. *)

From S2P Require Import Prelude Containers CoreUtil Number Object ObjectBuilder ObjectFilter.
Import MojObjectFilter.

Lemma omap_step {A B} (g : A -> option B) x l :
  omap g (x :: l) = match g x with Some y => y :: omap g l | None => omap g l end.
Proof. done. Qed.

Module FilterVisit.
Section visit.
Context {S : Type} `{!Visitor S}.
Abbreviation filter := (MojObjectFilter S).
Implicit Types (f : filter).

(** ** Containers kept back *)

(** The visitor after it was told of the containers kept back in a stack. *)
Fixpoint opens (v : S) (prev : option State) (l : list State) : res S :=
  match l with
  | [] => Ok v
  | s :: l' =>
      let? v := if m_included s then Ok v else include v s prev in
      opens v (Some (set_included s)) l'
  end.

Definition lastp (prev : option State) (l : list State) : option State :=
  match last l with Some s => Some (set_included s) | None => prev end.

Lemma lastp_cons prev s l : lastp prev (s :: l) = lastp (Some (set_included s)) l.
Proof. unfold lastp. rewrite last_cons. by destruct (last l). Qed.

Lemma includeStack_opens l : forall v prev,
  includeStack v prev l = let? v := opens v prev l in Ok (v, lastp prev l).
Proof.
  induction l as [|s l IH]; intros v prev; [done|]. cbn [includeStack opens].
  rewrite res_bind_assoc. apply res_bind_ext. intros v1. by rewrite IH, lastp_cons.
Qed.

Lemma opens_app l1 l2 : forall v prev,
  opens v prev (l1 ++ l2) = let? v := opens v prev l1 in opens v (lastp prev l1) l2.
Proof.
  induction l1 as [|s l1 IH]; intros v prev; [done|]. cbn [app opens].
  rewrite res_bind_assoc. apply res_bind_ext. intros v1. by rewrite IH, lastp_cons.
Qed.

Lemma opens_included l : forall v prev, Forall (fun s => m_included s = true) l -> opens v prev l = Ok v.
Proof.
  induction l as [|s l IH]; intros v prev H; [done|]. apply Forall_cons in H as [Hs Hl].
  cbn [opens]. rewrite Hs. cbn [res_bind]. auto.
Qed.

Lemma included_map l : Forall (fun s => m_included s = true) (map set_included l).
Proof. apply Forall_map, Forall_true. done. Qed.

(** A state that is shown already is not shown again. *)
Definition good f : Prop := m_included (m_state f) = true -> Forall (fun s => m_included s = true) (m_stack f).

(** All open containers have been shown. *)
Definition opened f (v : S) : filter :=
  {| m_root := m_root f; m_visitor := v; m_stack := map set_included (m_stack f);
     m_state := set_included (m_state f); m_nextNode := m_nextNode f |}.

Lemma set_included_id s : m_included s = true -> set_included s = s.
Proof. destruct s. simpl. by intros ->. Qed.

Lemma map_included_id l : Forall (fun s => m_included s = true) l -> map set_included l = l.
Proof.
  induction 1 as [|s l Hs _ IH]; [done|]. simpl. by rewrite set_included_id, IH.
Qed.

Lemma opened_good f v : good (opened f v).
Proof. intros _. apply included_map. Qed.

Lemma opened_opened f v1 v2 : opened (opened f v1) v2 = opened f v2.
Proof.
  unfold opened. cbn [m_root m_visitor m_stack m_state m_nextNode]. f_equal.
  apply map_included_id, included_map.
Qed.

(** The containers kept back in a filter. *)
Definition pending f : list State := m_stack f ++ [m_state f].

Lemma opens_opened f v : opens v None (pending (opened f v)) = Ok v.
Proof.
  apply opens_included, Forall_app. split; [apply included_map|]. by apply Forall_singleton.
Qed.

Lemma includeParents_opens f : m_included (m_state f) = false ->
  includeParents f = let? v := opens (m_visitor f) None (pending f) in Ok (opened f v).
Proof.
  intros H. unfold includeParents, pending. rewrite includeStack_opens, opens_app, !res_bind_assoc.
  apply res_bind_ext. intros v. cbn [res_bind opens]. rewrite H, res_bind_assoc. by apply res_bind_ext.
Qed.

(** [propName] of a name that is shown. *)
Lemma shown f : good f ->
  (if m_included (m_state f) then Ok f else includeParents f) =
  let? v := opens (m_visitor f) None (pending f) in Ok (opened f v).
Proof.
  intros Hg. destruct (m_included (m_state f)) eqn:Ei; [|by apply includeParents_opens].
  unfold pending. rewrite opens_included by (apply Forall_app; split; [by apply Hg|by apply Forall_singleton]).
  cbn [res_bind]. unfold opened. rewrite map_included_id, set_included_id by auto. by destruct f.
Qed.

(** ** Inside a property that is kept whole *)
Definition counted f (v : S) (c : Z) : filter :=
  {| m_root := m_root f; m_visitor := v; m_stack := m_stack f; m_state := with_count (m_state f) c;
     m_nextNode := m_nextNode f |}.

Definition whole (o : MojObject) : Prop :=
  forall f, 1 <= m_includeCount (m_state f) -> m_nextNode f = None ->
  MojObject.visit o f = let? v := MojObject.visit o (m_visitor f) in
                        Ok (counted f v (m_includeCount (m_state f) - 1)).

Lemma scalar_shown f show : 1 <= m_includeCount (m_state f) ->
  scalar f show = let? v := show (m_visitor f) in Ok (counted f v (m_includeCount (m_state f) - 1)).
Proof. intros H. unfold scalar. by rewrite (proj2 (Z.eqb_neq _ _)) by lia. Qed.

Lemma counted_counted f v1 c1 v2 c2 : counted (counted f v1 c1) v2 c2 = counted f v2 c2.
Proof. done. Qed.

Lemma whole_array vec : Forall whole vec ->
  forall f, Z.of_nat (length vec) <= m_includeCount (m_state f) -> m_nextNode f = None ->
  res_fold (fun v i => MojObject.visit i v) f vec =
  let? v := res_fold (fun v i => MojObject.visit i v) (m_visitor f) vec in
  Ok (counted f v (m_includeCount (m_state f) - Z.of_nat (length vec))).
Proof.
  induction 1 as [|x vec Hx _ IH]; intros f Hc Hn; cbn [res_fold].
  { cbn [res_bind length Z.of_nat]. rewrite Z.sub_0_r. by destruct f as [? ? ? []]. }
  cbn [length] in Hc. rewrite Hx, !res_bind_assoc by (done || lia). apply res_bind_ext. intros v.
  cbn [res_bind]. rewrite IH by (cbn; (done || lia)). apply res_bind_ext. intros v2.
  rewrite counted_counted. cbn [counted m_state with_count m_includeCount]. do 2 f_equal. cbn [length]. lia.
Qed.

Lemma propName_inside f name : m_node (m_state f) = None -> m_included (m_state f) = true ->
  1 <= m_includeCount (m_state f) -> m_nextNode f = None ->
  propName f name = let? v := MojObjectVisitor.propName (m_visitor f) name in Ok (with_visitor f v).
Proof.
  intros Hd Hi Hc Hn. unfold propName, enter. rewrite Hd, Hi, (proj2 (Z.eqb_neq _ _)) by lia.
  cbn [res_bind]. apply res_bind_ext. intros v. destruct f. simpl in *. by subst.
Qed.

Lemma whole_props m : Forall (fun kv => whole kv.2) m ->
  forall f, Z.of_nat (length m) <= m_includeCount (m_state f) -> m_nextNode f = None ->
  m_node (m_state f) = None -> m_included (m_state f) = true ->
  res_fold (fun v i => let? v := MojObjectVisitor.propName v i.1 in MojObject.visit i.2 v) f m =
  let? v := res_fold (fun v i => let? v := MojObjectVisitor.propName v i.1 in MojObject.visit i.2 v) (m_visitor f) m in
  Ok (counted f v (m_includeCount (m_state f) - Z.of_nat (length m))).
Proof.
  induction 1 as [|[k x] m Hx _ IH]; intros f Hc Hn Hd Hi; cbn [res_fold].
  { cbn [res_bind length Z.of_nat]. rewrite Z.sub_0_r. by destruct f as [? ? ? []]. }
  cbn [length fst snd] in *. cbn [visitor MojObjectVisitor.propName].
  rewrite propName_inside, !res_bind_assoc by (done || lia). apply res_bind_ext. intros v.
  cbn [res_bind]. rewrite Hx, !res_bind_assoc by (cbn; (done || lia)). apply res_bind_ext. intros v1.
  cbn [res_bind]. rewrite IH by (cbn; (done || lia)). apply res_bind_ext. intros v2.
  unfold counted. cbn [m_state with_count m_includeCount with_visitor m_root m_stack m_nextNode m_node m_child
    m_included m_array].
  assert (m_includeCount (m_state f) - 1 - Z.of_nat (length m) = m_includeCount (m_state f) - Z.of_nat (Datatypes.S (length m)))
    as -> by lia. done.
Qed.

(** A container of a property that is kept whole. *)
Definition inside f (array : bool) v : filter :=
  {| m_root := m_root f; m_visitor := v; m_stack := m_stack f ++ [m_state f];
     m_state := {| m_node := None; m_child := []; m_includeCount := MojSizeMax; m_included := true; m_array := array |};
     m_nextNode := None |}.

Lemma begin_inside f array method : 1 <= m_includeCount (m_state f) -> m_nextNode f = None ->
  begin f array method = let? v := method (m_visitor f) in Ok (inside f array v).
Proof.
  intros Hc Hn. unfold begin, inside. rewrite Hn, (proj2 (Z.eqb_neq _ _)), (proj2 (Z.leb_le _ _)) by lia. done.
Qed.

Lemma end_inside f array v0 v c method : 1 <= m_includeCount (m_state f) -> m_nextNode f = None ->
  end_ (counted (inside f array v0) v c) method =
  let? v := method v in Ok (counted f v (m_includeCount (m_state f) - 1)).
Proof.
  intros Hc Hn. unfold end_. cbn [counted inside m_state with_count m_included m_visitor m_stack m_node].
  apply res_bind_ext. intros v1. rewrite last_snoc, removelast_last, (proj2 (Z.eqb_neq _ _)) by lia.
  unfold counted. by rewrite Hn.
Qed.

Lemma visit_whole o : small o -> whole o.
Proof.
  induction o as [| |s|c|r|z|m IH|vec IH] using MojObject_nested_ind; intros Hs f Hc Hn;
    try (by apply scalar_shown).
  - apply small_object in Hs as [Hl Hs].
    assert (Forall (fun kv => whole kv.2) m) as Hw by (rewrite Forall_forall in *; auto).
    cbn [MojObject.visit visitor MojObjectVisitor.beginObject].
    rewrite begin_inside, !res_bind_assoc by done. apply res_bind_ext. intros v. cbn [res_bind].
    rewrite (whole_props m Hw), !res_bind_assoc by done.
    apply res_bind_ext. intros v1. cbn [res_bind visitor MojObjectVisitor.endObject].
    by apply end_inside.
  - apply small_array in Hs as [Hl Hs].
    assert (Forall whole vec) as Hw by (rewrite Forall_forall in *; auto).
    cbn [MojObject.visit visitor MojObjectVisitor.beginArray].
    rewrite begin_inside, !res_bind_assoc by done. apply res_bind_ext. intros v. cbn [res_bind].
    rewrite (whole_array vec Hw), !res_bind_assoc by done.
    apply res_bind_ext. intros v1. cbn [res_bind visitor MojObjectVisitor.endArray].
    by apply end_inside.
Qed.

(** ** On the way to the selected properties *)

(** The state of a container whose properties are filtered with [n]. *)
Definition within f (n : Node) (array : bool) v : filter :=
  {| m_root := m_root f; m_visitor := v; m_stack := m_stack f ++ [m_state f];
     m_state := {| m_node := Some n; m_child := m_children n; m_includeCount := 0; m_included := false;
                   m_array := array |};
     m_nextNode := Some n |}.

Definition partial (o : MojObject) : Prop :=
  forall f n, m_nextNode f = Some n -> m_includeCount (m_state f) = 0 -> good f -> m_stack f <> [] -> ordered n ->
  MojObject.visit o f =
  match project (m_children n) o with
  | None => Ok f
  | Some o' =>
      let? v := opens (m_visitor f) None (pending f) in
      let? v := if m_array (m_state f) then Ok v else MojObjectVisitor.propName v (m_propName n) in
      let? v := MojObject.visit o' v in
      Ok (opened f v)
  end.

Lemma scalar_hidden f show : m_includeCount (m_state f) = 0 -> scalar f show = Ok f.
Proof. intros H. unfold scalar. by rewrite H. Qed.

Lemma begin_within f n array method : m_nextNode f = Some n -> m_includeCount (m_state f) = 0 -> m_stack f <> [] ->
  begin f array method = Ok (within f n array (m_visitor f)).
Proof.
  intros Hn Hc Hs. unfold begin, within. rewrite Hn, Hc, length_app. cbn [length].
  destruct (m_stack f) as [|s l]; [done|]. cbn [length]. by rewrite Nat.add_1_r.
Qed.

Lemma array_visits vec : Forall partial vec ->
  forall f n, m_nextNode f = Some n -> m_includeCount (m_state f) = 0 -> good f -> m_stack f <> [] -> ordered n ->
  m_array (m_state f) = true ->
  res_fold (fun v i => MojObject.visit i v) f vec =
  match omap (project (m_children n)) vec with
  | [] => Ok f
  | vec' =>
      let? v := opens (m_visitor f) None (pending f) in
      let? v := res_fold (fun v i => MojObject.visit i v) v vec' in
      Ok (opened f v)
  end.
Proof.
  induction 1 as [|x vec Hx _ IH]; intros f n Hn Hc Hg Hs Ho Ha; [done|]. cbn [res_fold].
  rewrite omap_step, (Hx f n), Ha by done. destruct (project (m_children n) x) as [x'|]; [|by apply IH].
  rewrite !res_bind_assoc. apply res_bind_ext. intros v. cbn [res_bind res_fold].
  rewrite !res_bind_assoc. apply res_bind_ext. intros v1. cbn [res_bind].
  rewrite (IH (opened f v1) n) by (try done; try apply opened_good; cbn; by destruct (m_stack f)).
  destruct (omap (project (m_children n)) vec) as [|y vec'] eqn:E.
  - done.
  - cbn [opened m_visitor]. rewrite opens_opened. cbn [res_bind].
    apply res_bind_ext. intros v2. by rewrite opened_opened.
Qed.

(** Below a name that is not selected nothing is shown. *)
Lemma visit_hidden o : forall f, m_nextNode f = None -> m_includeCount (m_state f) = 0 -> m_stack f <> [] ->
  MojObject.visit o f = Ok f.
Proof.
  assert (forall f array method, m_nextNode f = None -> m_includeCount (m_state f) = 0 -> m_stack f <> [] ->
    exists f1, begin f array method = Ok f1 /\ m_nextNode f1 = None /\ m_includeCount (m_state f1) = 0 /\
      m_stack f1 <> [] /\ m_node (m_state f1) = None /\ forall method2, end_ f1 method2 = Ok f) as Hbegin.
  { intros f array method Hn Hc Hs. unfold begin. rewrite Hn, Hc, length_app.
    destruct (m_stack f) as [|s l] eqn:E; [done|]. cbn [length]. rewrite Nat.add_1_r.
    eexists. split; [done|]. repeat split; [done|]. intros method2. unfold end_.
    cbn [m_state m_included m_stack m_node]. cbn [Z.eqb negb orb Nat.eqb].
    rewrite last_snoc, removelast_last. cbn [res_bind]. unfold with_count. rewrite <- E, Hc.
    destruct f as [? ? ? []]. simpl in *. by subst. }
  induction o as [| |s|c|r|z|m IH|vec IH] using MojObject_nested_ind; intros f Hn Hc Hs;
    try (by apply scalar_hidden).
  - destruct (Hbegin f false MojObjectVisitor.beginObject Hn Hc Hs) as (f1 & Eb & Hn1 & Hc1 & Hs1 & Hd1 & Ee).
    cbn [MojObject.visit visitor MojObjectVisitor.beginObject]. rewrite Eb. cbn [res_bind].
    assert (res_fold (fun v i => let? v := MojObjectVisitor.propName v i.1 in MojObject.visit i.2 v) f1 m = Ok f1) as ->.
    { clear Eb Ee. induction IH as [|[k x] m Hx _ IHm]; [done|]. cbn [res_fold visitor MojObjectVisitor.propName fst snd].
      assert (propName f1 k = Ok f1) as ->.
      { unfold propName, enter. rewrite Hd1, Hc1. simpl. destruct f1. simpl in *. by subst. }
      cbn [res_bind]. rewrite Hx by done. done. }
    apply Ee.
  - destruct (Hbegin f true MojObjectVisitor.beginArray Hn Hc Hs) as (f1 & Eb & Hn1 & Hc1 & Hs1 & Hd1 & Ee).
    cbn [MojObject.visit visitor MojObjectVisitor.beginArray]. rewrite Eb. cbn [res_bind].
    assert (res_fold (fun v i => MojObject.visit i v) f1 vec = Ok f1) as ->.
    { clear Eb Ee. induction IH as [|x vec Hx _ IHm]; [done|]. cbn [res_fold]. by rewrite Hx. }
    apply Ee.
Qed.

(** The filter after the properties up to some name: the child iterator has
    moved on. *)
Definition moved f (cs : list Node) (nx : option Node) : filter :=
  {| m_root := m_root f; m_visitor := m_visitor f; m_stack := m_stack f;
     m_state := {| m_node := m_node (m_state f); m_child := cs; m_includeCount := 0;
                   m_included := m_included (m_state f); m_array := m_array (m_state f) |};
     m_nextNode := nx |}.

(** What is kept of one property. *)
Definition select (cs : list Node) (kv : mstring * MojObject) : option (mstring * MojObject) :=
  match find cs kv.1 with
  | Some c => pair kv.1 <$> (if childless c then Some kv.2 else project (m_children c) kv.2)
  | None => None
  end.

Lemma opens_moved f cs nx v : opens v None (pending (moved f cs nx)) = opens v None (pending f).
Proof. unfold pending. cbn [moved m_stack m_state]. by rewrite !opens_app. Qed.

Lemma select_advance cs k m : Forall (fun kv => MojStrCmp k kv.1 <= 0) m ->
  omap (select (advance cs k)) m = omap (select cs) m.
Proof.
  induction 1 as [|kv m Hk _ IH]; [done|]. rewrite !omap_step, IH. unfold select at 1.
  by rewrite find_advance.
Qed.
Lemma enter_find f n cs k : m_node (m_state f) = Some n -> m_child (m_state f) = cs ->
  str_ok k -> MojRbTreeBase.sorted m_propName MojStrCmp cs ->
  Forall (fun c => str_ok (m_propName c) /\ ordered c) cs ->
  enter (m_state f) k =
  match find cs k with
  | None => (m_state (moved f (advance cs k) None), None)
  | Some c => if childless c then (with_count (m_state (moved f (advance cs k) None)) 1, None)
              else (m_state (moved f (advance cs k) None), Some c)
  end.
Proof.
  intros Hn Hc Hk Hs Hf. unfold enter. rewrite Hn, Hc, (advance_find cs k) by done.
  cbn [with_child m_child]. destruct (advance cs k) as [|c l]; [done|].
  destruct (_ =? 0); [|done]. by destruct (childless c).
Qed.

(** The node a container found under a name is filtered with. *)
Definition nextOf (cs : list Node) (k : mstring) : option Node :=
  match find cs k with
  | Some c => if childless c then None else Some c
  | None => None
  end.

(** One property on the way. *)
Lemma prop_visit f n cs k x : m_node (m_state f) = Some n -> m_child (m_state f) = cs ->
  str_ok k -> MojRbTreeBase.sorted m_propName MojStrCmp cs ->
  Forall (fun c => str_ok (m_propName c) /\ ordered c) cs ->
  m_array (m_state f) = false -> good f -> m_stack f <> [] -> small x -> partial x ->
  (let? f := propName f k in MojObject.visit x f) =
  match select cs (k, x) with
  | None => Ok (moved f (advance cs k) (nextOf cs k))
  | Some (_, x') =>
      let? v := opens (m_visitor f) None (pending f) in
      let? v := MojObjectVisitor.propName v k in
      let? v := MojObject.visit x' v in
      Ok (opened (moved f (advance cs k) (nextOf cs k)) v)
  end.
Proof.
  intros Hn Hc Hk Hs Hf Ha Hg Hst Hsm Hx. unfold propName, select, nextOf. rewrite (enter_find f n cs) by done.
  cbn [fst snd]. destruct (find cs k) as [c|] eqn:Ef.
  2:{ cbn [moved m_state m_includeCount Z.eqb res_bind]. by apply visit_hidden. }
  destruct (childless c) eqn:Ec.
  - cbn [moved m_state with_count m_includeCount Z.eqb fmap option_fmap option_map].
    match goal with |- context [if m_included _ then Ok ?g else _] =>
      change ((let? f := let? f := (if m_included (m_state g) then Ok g else includeParents g) in
              let? v := MojObjectVisitor.propName (m_visitor f) k in Ok (with_visitor f v) in MojObject.visit x f) =
              let? v := opens (m_visitor f) None (pending f) in
              let? v := MojObjectVisitor.propName v k in
              let? v := MojObject.visit x v in
              Ok (opened (moved f (advance cs k) None) v));
      assert (good g) as Hgg by exact Hg; rewrite (shown g Hgg);
      rewrite <- (opens_moved f (advance cs k) None) end.
    rewrite !res_bind_assoc. unfold pending. cbn [moved m_visitor m_stack m_state]. rewrite !opens_app.
    rewrite !res_bind_assoc. apply res_bind_ext. intros v. cbn [opens m_included include m_node m_array].
    rewrite !res_bind_assoc. apply res_bind_ext. intros v1. cbn [res_bind opened m_visitor].
    rewrite !res_bind_assoc. apply res_bind_ext. intros v2. cbn [res_bind].
    rewrite visit_whole by done. apply res_bind_ext. intros v3. done.
  - cbn [moved m_state m_includeCount Z.eqb res_bind].
    match goal with |- MojObject.visit x ?g = _ => change g with (moved f (advance cs k) (Some c)) end.
    rewrite (Hx (moved f (advance cs k) (Some c)) c); [|done|done|exact Hg|done|].
    2:{ apply List.find_some in Ef as [Hin _]. rewrite List.Forall_forall in Hf. by destruct (Hf c Hin). }
    destruct (project (m_children c) x) as [x'|]; [|done]. cbn [fmap option_fmap option_map].
    rewrite opens_moved. cbn [moved m_state m_array m_visitor]. rewrite Ha.
    assert (m_propName c = k) as -> by (apply List.find_some in Ef as [_ E]; by apply bool_decide_eq_true in E).
    done.
Qed.

Definition after (cs : list Node) (nx : option Node) (m : list (mstring * MojObject)) : list Node * option Node :=
  fold_left (fun st kv => (advance st.1 kv.1, nextOf st.1 kv.1)) m (cs, nx).

Lemma props_visits m : MojRbTreeBase.sorted fst MojStrCmp m ->
  Forall (fun kv => str_ok kv.1 /\ small kv.2 /\ partial kv.2) m ->
  forall f n cs, m_node (m_state f) = Some n -> m_child (m_state f) = cs -> m_includeCount (m_state f) = 0 ->
  MojRbTreeBase.sorted m_propName MojStrCmp cs -> Forall (fun c => str_ok (m_propName c) /\ ordered c) cs ->
  m_array (m_state f) = false -> good f -> m_stack f <> [] ->
  let (cs', nx) := after cs (m_nextNode f) m in
  res_fold (fun v i => let? v := MojObjectVisitor.propName v i.1 in MojObject.visit i.2 v) f m =
  match omap (select cs) m with
  | [] => Ok (moved f cs' nx)
  | m' =>
      let? v := opens (m_visitor f) None (pending f) in
      let? v := res_fold (fun v i => let? v := MojObjectVisitor.propName v i.1 in MojObject.visit i.2 v) v m' in
      Ok (opened (moved f cs' nx) v)
  end.
Proof.
  induction 1 as [|[k x] m Hm IH Hk]; intros HF f n cs Hn Hc Hz Hs Hf Ha Hg Hst.
  { cbn [after fold_left res_fold omap list_omap]. f_equal. destruct f as [? ? ? []]. simpl in *. by subst. }
  apply Forall_cons in HF as [(Hok & Hsm & Hpx) HF]. cbn [fst snd] in *.
  pose proof (prop_visit f n cs k x Hn Hc Hok Hs Hf Ha Hg Hst Hsm Hpx) as E1.
  destruct (advance_ordered cs k Hs Hf) as [Hs1 Hf1].
  assert (omap (select (advance cs k)) m = omap (select cs) m) as Em.
  { apply select_advance. eapply Forall_impl; [exact Hk|]. unfold MojRbTreeBase.node_lt. intros kv. simpl. lia. }
  unfold after. cbn [fold_left fst snd]. fold (after (advance cs k) (nextOf cs k) m).
  destruct (after (advance cs k) (nextOf cs k) m) as [cs2 nx2] eqn:Ea.
  assert (forall f1, m_node (m_state f1) = Some n -> m_child (m_state f1) = advance cs k ->
    m_nextNode f1 = nextOf cs k -> m_includeCount (m_state f1) = 0 -> m_array (m_state f1) = false ->
    good f1 -> m_stack f1 <> [] ->
    res_fold (fun v i => let? v := MojObjectVisitor.propName v i.1 in MojObject.visit i.2 v) f1 m =
    match omap (select cs) m with
    | [] => Ok (moved f1 cs2 nx2)
    | m' =>
        let? v := opens (m_visitor f1) None (pending f1) in
        let? v := res_fold (fun v i => let? v := MojObjectVisitor.propName v i.1 in MojObject.visit i.2 v) v m' in
        Ok (opened (moved f1 cs2 nx2) v)
    end) as IHf.
  { intros f1 Hn1 Hc1 Hx1 Hz1 Ha1 Hg1 Hst1. specialize (IH HF f1 n _ Hn1 Hc1 Hz1 Hs1 Hf1 Ha1 Hg1 Hst1).
    rewrite Hx1, Ea, Em in IH. exact IH. }
  clear IH. rewrite omap_step. cbn [res_fold fst snd].
  change (MojObjectVisitor.propName f k) with (propName f k). rewrite E1.
  destruct (select cs (k, x)) as [[k' x']|] eqn:Esel.
  - assert (k' = k) as ->.
    { unfold select in Esel. cbn [fst snd] in Esel. destruct (find cs k); [|done].
      destruct (if childless _ then _ else _); [|done]. by injection Esel. }
    rewrite !res_bind_assoc. apply res_bind_ext. intros v. cbn [res_fold fst snd].
    rewrite !res_bind_assoc. apply res_bind_ext. intros v1.
    rewrite !res_bind_assoc. apply res_bind_ext. intros v2. cbn [res_bind].
    rewrite IHf by (try done; try apply opened_good; cbn; by destruct (m_stack f)).
    destruct (omap (select cs) m) as [|y m'] eqn:Eo; [done|].
    rewrite opens_opened. cbn [res_bind]. apply res_bind_ext. intros v3.
    by rewrite <- (opened_opened (moved f cs2 nx2) v2 v3).
  - cbn [res_bind]. rewrite IHf by done.
    destruct (omap (select cs) m) as [|y m'] eqn:Eo; [done|]. by rewrite opens_moved.
Qed.

Lemma opens_within f n array v :
  opens v None (pending (within f n array v)) =
  let? v := opens v None (pending f) in
  let? v := if m_array (m_state f) then Ok v else MojObjectVisitor.propName v (m_propName n) in
  if array then MojObjectVisitor.beginArray v else MojObjectVisitor.beginObject v.
Proof.
  unfold pending at 1. cbn [within m_stack m_state]. rewrite opens_app. fold (pending f).
  apply res_bind_ext. intros v1. cbn [opens m_included include m_node m_array]. unfold lastp, pending.
  rewrite last_snoc. cbn [set_included m_array]. by rewrite res_bind_ret.
Qed.

Lemma end_within f n array cs nx v method : m_includeCount (m_state f) = 0 -> m_nextNode f = Some n ->
  end_ (moved (within f n array v) cs nx) method = Ok (with_visitor f v) /\
  end_ (opened (moved (within f n array v) cs nx) v) method = let? v := method v in Ok (opened f v).
Proof.
  intros Hc Hn. unfold end_. cbn [moved within opened m_state m_included m_stack m_visitor m_node set_included].
  rewrite map_app. cbn [map]. rewrite !last_snoc, !removelast_last. unfold with_visitor, opened.
  rewrite Hn. cbn [m_root m_stack m_state m_nextNode res_bind]. split.
  - rewrite Hc. do 2 f_equal. destruct f as [? ? ? [] ?]. simpl in *. by subst.
  - apply res_bind_ext. intros v1. do 2 f_equal. unfold with_count, set_included.
    cbn [m_includeCount m_node m_child m_included m_array]. by rewrite Hc.
Qed.

Lemma project_object cs m : project cs (ObjectImpl m) =
  match omap (select cs) m with [] => None | m' => Some (ObjectImpl m') end.
Proof. done. Qed.

Lemma project_array cs v : project cs (ArrayImpl v) =
  match omap (project cs) v with [] => None | v' => Some (ArrayImpl v') end.
Proof. done. Qed.

Lemma visit_partial o : MojObject.ok o -> small o -> partial o.
Proof.
  induction o as [| |s|c|r|z|m IH|vec IH] using MojObject_nested_ind; intros Hok Hsm f n Hn Hc Hg Hst Ho;
    try (by apply scalar_hidden).
  - apply MojObject.ok_object in Hok as [Hs Hok]. apply small_object in Hsm as [_ Hsm].
    assert (Forall (fun kv => str_ok kv.1 /\ small kv.2 /\ partial kv.2) m) as HF.
    { rewrite Forall_forall in *. intros kv Hkv. destruct (Hok kv Hkv). split; [done|]. split; auto. }
    pose proof Ho as [Hcs Hco]%ordered_node.
    cbn [MojObject.visit visitor MojObjectVisitor.beginObject]. rewrite (begin_within f n) by done. cbn [res_bind].
    pose proof (props_visits m Hs HF (within f n false (m_visitor f)) n (m_children n) eq_refl eq_refl eq_refl
      Hcs Hco eq_refl) as E.
    destruct (after _ _ m) as [cs' nx]. rewrite E; [|by intros ?|by cbn; destruct (m_stack f)].
    destruct (end_within f n false cs' nx (m_visitor f) MojObjectVisitor.endObject Hc Hn) as [E1 _].
    rewrite project_object. cbn [visitor MojObjectVisitor.endObject].
    destruct (omap (select (m_children n)) m) as [|y m'] eqn:Em; cbn [res_bind].
    { rewrite E1. by destruct f. }
    rewrite opens_within, !res_bind_assoc. apply res_bind_ext. intros v.
    rewrite !res_bind_assoc. apply res_bind_ext. intros v1. cbn [MojObject.visit].
    rewrite !res_bind_assoc. apply res_bind_ext. intros v2.
    rewrite !res_bind_assoc. apply res_bind_ext. intros v3. cbn [res_bind].
    by destruct (end_within f n false cs' nx v3 MojObjectVisitor.endObject Hc Hn) as [_ <-].
  - apply MojObject.ok_array in Hok. apply small_array in Hsm as [_ Hsm].
    assert (Forall partial vec) as HF.
    { rewrite Forall_forall in *. intros x Hx. auto. }
    cbn [MojObject.visit visitor MojObjectVisitor.beginArray]. rewrite (begin_within f n) by done. cbn [res_bind].
    rewrite (array_visits vec HF _ n) by (done || by cbn; destruct (m_stack f)).
    destruct (end_within f n true (m_children n) (Some n) (m_visitor f) MojObjectVisitor.endArray Hc Hn) as [E1 _].
    rewrite project_array. cbn [visitor MojObjectVisitor.endArray].
    destruct (omap (project (m_children n)) vec) as [|y m'] eqn:Em; cbn [res_bind].
    { etransitivity; [exact E1|]. by destruct f. }
    rewrite opens_within, !res_bind_assoc. apply res_bind_ext. intros v.
    rewrite !res_bind_assoc. apply res_bind_ext. intros v1. cbn [MojObject.visit].
    rewrite !res_bind_assoc. apply res_bind_ext. intros v2.
    rewrite !res_bind_assoc. apply res_bind_ext. intros v3. cbn [res_bind].
    by destruct (end_within f n true (m_children n) (Some n) v3 MojObjectVisitor.endArray Hc Hn) as [_ <-].
Qed.

(** ** The outermost container *)
Definition top root (array : bool) (v : S) : filter :=
  {| m_root := root; m_visitor := v; m_stack := [State_reset root];
     m_state := {| m_node := Some root; m_child := m_children root; m_includeCount := 0; m_included := true;
                   m_array := array |};
     m_nextNode := Some root |}.

Lemma begin_top root array v method :
  begin (setVisitor root v) array method = let? v := method v in Ok (top root array v).
Proof. done. Qed.

Lemma pending_top root array v w : opens w None (pending (top root array v)) = Ok w.
Proof. done. Qed.

Lemma top_object root m v : MojObject.ok (ObjectImpl m) -> small (ObjectImpl m) -> ordered root ->
  MojObject.visit (ObjectImpl m) (setVisitor root v) =
  let? v := MojObject.visit (ObjectImpl (omap (select (m_children root)) m)) v in Ok (setVisitor root v).
Proof.
  intros [Hs Hok]%MojObject.ok_object [_ Hsm]%small_object [Hcs Hco]%ordered_node.
  assert (Forall (fun kv => str_ok kv.1 /\ small kv.2 /\ partial kv.2) m) as HF.
  { rewrite Forall_forall in *. intros kv Hkv. destruct (Hok kv Hkv). split; [done|]. split; [auto|]. apply visit_partial; auto. }
  cbn [MojObject.visit visitor MojObjectVisitor.beginObject]. rewrite begin_top, !res_bind_assoc.
  apply res_bind_ext. intros v1. cbn [res_bind].
  pose proof (props_visits m Hs HF (top root false v1) root (m_children root) eq_refl eq_refl eq_refl
    Hcs Hco eq_refl) as E.
  destruct (after _ _ m) as [cs' nx]. rewrite E by (done || by intros _; apply Forall_singleton).
  destruct (omap (select (m_children root)) m) as [|y m'] eqn:Em; [done|].
  rewrite pending_top. cbn [res_bind m_visitor top]. by rewrite !res_bind_assoc.
Qed.

Lemma top_array root vec v : MojObject.ok (ArrayImpl vec) -> small (ArrayImpl vec) -> ordered root ->
  MojObject.visit (ArrayImpl vec) (setVisitor root v) =
  let? v := MojObject.visit (ArrayImpl (omap (project (m_children root)) vec)) v in Ok (setVisitor root v).
Proof.
  intros Hok%MojObject.ok_array [_ Hsm]%small_array Ho.
  assert (Forall partial vec) as HF.
  { rewrite Forall_forall in *. intros x Hx. apply visit_partial; auto. }
  cbn [MojObject.visit visitor MojObjectVisitor.beginArray]. rewrite begin_top, !res_bind_assoc.
  apply res_bind_ext. intros v1. cbn [res_bind].
  rewrite (array_visits vec HF (top root true v1) root) by (done || by intros _; apply Forall_singleton).
  destruct (omap (project (m_children root)) vec) as [|y m'] eqn:Em; [done|].
  rewrite pending_top. cbn [res_bind m_visitor top]. by rewrite !res_bind_assoc.
Qed.

Lemma visit_filter root o v : MojObject.ok o -> small o -> ordered root ->
  MojObject.visit o (setVisitor root v) =
  match projectTop (m_children root) o with
  | Some o' => let? v := MojObject.visit o' v in Ok (setVisitor root v)
  | None => Ok (setVisitor root v)
  end.
Proof.
  intros Hok Hsm Ho. destruct o as [| |m|vec|s|c|r|z]; try done.
  - rewrite top_object by done. unfold projectTop. rewrite project_object. by destruct (omap _ m).
  - rewrite top_array by done. unfold projectTop. rewrite project_array. by destruct (omap _ vec).
Qed.
End visit.
End FilterVisit.
