(* ===== verification/ObjectFilterTree.v ===== *)
(** * The tree of the selected names, and what a filter lets through

    [init] builds the tree from the select set in the order of the set, the byte
    order of the names, while the filter walks it in the order of the parts.  The
    two agree for names made of characters above '.'. *)

From S2P Require Import Prelude Containers CoreUtil Number Object ObjectBuilder ObjectFilter ObjectFilterSpec.
Import MojObjectFilter.

Module FilterTree.
(** ** Names and paths *)
Fixpoint join (ps : list mstring) : mstring :=
  match ps with
  | [] => []
  | p :: ps' => p ++ match ps' with [] => [] | _ => chr "." :: join ps' end
  end.

(** A part with no character up to '.', and not empty. *)
Definition plain_part (p : mstring) : Prop := p <> [] /\ Forall (fun c => chr "." < c < 256) p.
Definition plain (ps : list mstring) : Prop := ps <> [] /\ Forall plain_part ps.

Lemma plain_str_ok p : plain_part p -> str_ok p.
Proof. intros [_ H]. eapply Forall_impl; [exact H|]. change (chr ".") with 46. simpl. lia. Qed.

Lemma splitLoop_part c p s : Forall (fun x => c < x < 256) p -> forall cur,
  MojString.splitLoop c (p ++ s) cur = MojString.splitLoop c s (rev p ++ cur).
Proof.
  induction 1 as [|x p Hx _ IH]; intros cur; [done|]. cbn [app MojString.splitLoop].
  rewrite (proj2 (Z.eqb_neq _ _)) by lia. rewrite IH. simpl. by rewrite <- app_assoc.
Qed.

Lemma split_join ps : Forall plain_part ps -> MojString.split (join ps) (chr ".") = ps.
Proof.
  unfold MojString.split. induction 1 as [|p ps [Hne Hp] Hps IH]; [done|]. cbn [join].
  rewrite splitLoop_part by done. rewrite app_nil_r.
  assert ((0 <? length (rev p))%nat = true) as Hl.
  { rewrite length_rev. destruct p; [done|]. done. }
  destruct ps as [|q ps].
  - cbn [MojString.splitLoop]. by rewrite Hl, rev_involutive.
  - cbn [MojString.splitLoop]. rewrite Z.eqb_refl, Hl, rev_involutive. cbn [app]. by f_equal.
Qed.

(** ** The two orders *)
Fixpoint path_lt (a b : list mstring) : Prop :=
  match a, b with
  | [], _ :: _ => True
  | x :: a', y :: b' => MojStrCmp x y < 0 \/ (x = y /\ path_lt a' b')
  | _, _ => False
  end.

Definition tail_ok (s : mstring) : Prop := s = [] \/ exists s', s = chr "." :: s'.

Lemma part_order x s y t : Forall (fun c => chr "." < c < 256) x -> Forall (fun c => chr "." < c < 256) y ->
  tail_ok s -> tail_ok t -> MojStrCmp (x ++ s) (y ++ t) < 0 ->
  MojStrCmp x y < 0 \/ (x = y /\ MojStrCmp s t < 0).
Proof.
  intros Hx. revert y. induction Hx as [|c x Hc Hx IH]; intros y Hy Hs Ht H.
  - destruct Hy as [|d y Hd Hy]; [by right|]. left. simpl. change (chr ".") with 46 in Hd. lia.
  - change (chr ".") with 46 in Hc. destruct Hy as [|d y Hd Hy].
    + exfalso. cbn [app] in H. destruct Ht as [->|[t' ->]]; simpl in H; [lia|].
      revert H. change (chr ".") with 46. destruct (Z.eqb_spec c 46); [lia|]. simpl. lia.
    + cbn [app MojStrCmp] in *. change (chr ".") with 46 in Hd.
      destruct (Z.eqb_spec c d) as [->|Hne]; simpl in *.
      * rewrite (proj2 (Z.eqb_neq _ _)) in * by lia. simpl in *.
        destruct (IH y Hy Hs Ht H) as [|[-> ?]]; [by left|by right].
      * by left.
Qed.

Lemma join_tail_ok ps : tail_ok (match ps with [] => [] | _ => chr "." :: join ps end).
Proof. destruct ps; [by left|right; eauto]. Qed.

(** Byte order of plain names is the order of their parts. *)
Lemma join_order a : forall b, Forall plain_part a -> Forall plain_part b ->
  MojStrCmp (join a) (join b) < 0 -> path_lt a b.
Proof.
  induction a as [|x a IH]; intros b Ha Hb H.
  { destruct b as [|y b]; [simpl in H; lia|done]. }
  apply Forall_cons in Ha as [[Hne Hx] Ha]. destruct b as [|y b].
  { destruct Hx as [|c x Hc Hx]; [done|]. change (chr ".") with 46 in Hc. cbn in H, Hc. lia. }
  apply Forall_cons in Hb as [[_ Hy] Hb]. cbn [join] in H.
  apply part_order in H; [|done|done|apply join_tail_ok..]. cbn [path_lt].
  destruct H as [|[-> H]]; [by left|]. right. split; [done|].
  destruct a as [|x2 a], b as [|y2 b]; [simpl in H; lia|done|change (chr ".") with 46 in H; simpl in H; lia|].
  apply IH; [done..|]. exact H.
Qed.

(** ** What a tree keeps *)

(** A path is kept when a prefix of it ends at a childless node. *)
Fixpoint keeps (cs : list Node) (path : list mstring) : bool :=
  match path with
  | [] => false
  | x :: path' => match find cs x with
                  | Some c => childless c || keeps (m_children c) path'
                  | None => false
                  end
  end.

Fixpoint prefixb (p path : list mstring) : bool :=
  match p, path with
  | [], _ => true
  | x :: p', y :: path' => bool_decide (x = y) && prefixb p' path'
  | _, [] => false
  end.

Definition children_ok (cs : list Node) : Prop :=
  MojRbTreeBase.sorted m_propName MojStrCmp cs /\ Forall (fun c => str_ok (m_propName c) /\ ordered c) cs.

(** The last child, its last child, and so on spell the path. *)
Fixpoint spine (cs : list Node) (p : list mstring) : Prop :=
  match p with
  | [] => cs = []
  | x :: p' => exists front cs', cs = front ++ [mkNode x cs'] /\ spine cs' p' /\
                                 Forall (fun c => MojStrCmp (m_propName c) x < 0) front
  end.

Lemma find_front front x cs' : Forall (fun c => MojStrCmp (m_propName c) x < 0) front ->
  find (front ++ [mkNode x cs']) x = Some (mkNode x cs').
Proof. intros H. rewrite find_skip by done. unfold find, matches. simpl. by rewrite bool_decide_true. Qed.

Lemma find_none cs x : Forall (fun c => MojStrCmp (m_propName c) x < 0) cs -> find cs x = None.
Proof. intros H. rewrite <- (app_nil_r cs), find_skip by done. done. Qed.

Lemma update_front front x cs' n : Forall (fun c => MojStrCmp (m_propName c) x < 0) front ->
  update (front ++ [mkNode x cs']) x n = front ++ [n].
Proof.
  induction 1 as [|c front Hc _ IH]; cbn [app update]; unfold matches; cbn [m_propName].
  - by rewrite bool_decide_true.
  - rewrite bool_decide_false, IH; [done|]. intros ->. rewrite (comp_refl MojStrCmp) in Hc. lia.
Qed.

Lemma find_app cs n z : find (cs ++ [n]) z =
  match find cs z with Some c => Some c | None => if matches z n then Some n else None end.
Proof.
  induction cs as [|c cs IH]; [done|]. unfold find in *. cbn [app List.find].
  by destruct (matches z c).
Qed.

(** A name of which no part is there is appended as a chain. *)
Lemma addParts_chain q : Forall plain_part q -> children_ok (addParts [] q) /\ spine (addParts [] q) q /\
  (q <> [] -> forall r, keeps (addParts [] q) r = prefixb q r) /\ (q <> [] -> addParts [] q <> []).
Proof.
  induction 1 as [|y q Hy Hq IH].
  { split; [by split; constructor|]. done. }
  destruct IH as ((IHs & IHf) & IHp & IHk & IHn). cbn [addParts find List.find app].
  split; [|split; [|split; [|done]]].
  - split; [by repeat constructor|]. apply Forall_singleton. split; [by apply plain_str_ok|].
    apply ordered_node. by split.
  - exists [], (addParts [] q). split; [done|]. split; [done|constructor].
  - intros _ [|x r]; [done|]. cbn [keeps find List.find prefixb]. unfold matches. cbn [m_propName].
    rewrite (bool_decide_ext (x = y) (y = x)) by (split; congruence).
    destruct (bool_decide (y = x)); [|done]. cbn [m_children andb]. destruct q as [|z q]; [done|].
    rewrite IHk by done. unfold childless. cbn [m_children]. by destruct (addParts [] (z :: q)); [destruct IHn|].
Qed.

Lemma children_ok_snoc front c : children_ok (front ++ [c]) <->
  children_ok front /\ Forall (fun d => MojStrCmp (m_propName d) (m_propName c) < 0) front /\
  str_ok (m_propName c) /\ ordered c.
Proof.
  unfold children_ok. rewrite Forall_app, Forall_singleton.
  assert (MojRbTreeBase.sorted m_propName MojStrCmp (front ++ [c]) <->
    MojRbTreeBase.sorted m_propName MojStrCmp front /\
    Forall (fun d => MojStrCmp (m_propName d) (m_propName c) < 0) front) as ->; [|tauto].
  induction front as [|d front IH]; cbn [app].
  { split; [by repeat constructor|]. by repeat constructor. }
  rewrite !MojRbTreeBase.sorted_cons, IH, Forall_app, Forall_singleton, Forall_cons.
  unfold MojRbTreeBase.node_lt. tauto.
Qed.

Lemma spine_nonempty cs p : spine cs p -> p <> [] -> cs <> [].
Proof. destruct p as [|x p]; [done|]. intros (front & cs' & -> & _) _. by destruct front. Qed.

(** Inserting the next path of the order: the path is kept from then on, and
    nothing else changes. *)
Lemma addParts_next q : forall p cs, p <> [] -> Forall plain_part q -> children_ok cs -> spine cs p -> path_lt p q ->
  children_ok (addParts cs q) /\ (spine (addParts cs q) p \/ spine (addParts cs q) q) /\
  forall r, keeps (addParts cs q) r = keeps cs r || prefixb q r.
Proof.
  induction q as [|y q IH]; intros [|x p] cs Hp Hq Hok Hsp Hlt; try done.
  clear Hp. apply Forall_cons in Hq as [Hy Hq]. destruct Hsp as (front & cs' & -> & Hsp & Hfr). cbn [addParts].
  destruct Hlt as [Hlt|[-> Hlt]].
  - assert (Forall (fun c => MojStrCmp (m_propName c) y < 0) (front ++ [mkNode x cs'])) as Hall.
    { apply Forall_app. split; [|by apply Forall_singleton]. eapply Forall_impl; [exact Hfr|].
      intros c Hc. eapply (comp_lt_le_trans MojStrCmp); [exact Hc|lia]. }
    rewrite (find_none _ _ Hall).
    destruct (addParts_chain q Hq) as (Hok' & Hsp' & _ & _).
    destruct (addParts_chain (y :: q)) as (_ & _ & Hk & _); [by constructor|].
    split; [|split].
    + apply children_ok_snoc. split; [done|]. split; [done|]. split; [by apply plain_str_ok|]. by apply ordered_node.
    + right. exists (front ++ [mkNode x cs']), (addParts [] q). done.
    + intros [|z r]; [done|]. rewrite <- Hk by done. cbn [keeps addParts find List.find app].
      rewrite find_app. unfold matches. cbn [m_propName].
      destruct (bool_decide_reflect (z = y)) as [->|].
      * by rewrite (find_none _ _ Hall).
      * destruct (find _ z); [by rewrite orb_false_r|done].
  - rewrite find_front by done. destruct p as [|x2 p].
    { cbn [spine] in Hsp. subst cs'. cbn [childless m_children]. split; [done|]. split.
      { left. by exists front, []. }
      intros [|z r]; [done|]. cbn [keeps prefixb]. destruct (bool_decide_reflect (y = z)) as [<-|].
      - by rewrite find_front.
      - by rewrite orb_false_r. }
    apply children_ok_snoc in Hok as (Hf & Hlt2 & Hsy & Ho%ordered_node).
    assert (childless (mkNode y cs') = false) as ->.
    { apply spine_nonempty in Hsp; [|done]. by destruct cs'. }
    cbn [m_propName m_children]. rewrite update_front by done.
    destruct (IH (x2 :: p) cs') as (Hok' & Hsp' & Hk'); try done.
    split; [|split].
    + apply children_ok_snoc. split; [done|]. split; [done|]. split; [done|]. by apply ordered_node.
    + destruct Hsp' as [H|H]; [left|right]; by exists front, (addParts cs' q).
    + intros [|z r]; [done|]. cbn [keeps prefixb]. destruct (bool_decide_reflect (y = z)) as [<-|Hne].
      * rewrite !find_front by done. cbn [m_children]. rewrite Hk'. cbn [andb].
        assert (forall l, l <> [] -> childless (mkNode y l) = false) as Hcl by (by intros []).
        rewrite !Hcl; [done|by eapply spine_nonempty|].
        destruct Hsp' as [H|H]; [by eapply spine_nonempty|].
        eapply spine_nonempty; [exact H|]. by destruct q.
      * rewrite !find_app. unfold matches. cbn [m_propName].
        rewrite (bool_decide_false (z = y)) by congruence. by rewrite orb_false_r.
Qed.

Lemma tree_of ps : Forall plain ps -> StronglySorted path_lt ps ->
  children_ok (fold_left addParts ps []) /\
  forall r, keeps (fold_left addParts ps []) r = existsb (fun p => prefixb p r) ps.
Proof.
  intros Hpl Hs. destruct Hs as [|q ps Hs Hq].
  { split; [by repeat constructor|]. by intros []. }
  apply Forall_cons in Hpl as [[Hne Hplq] Hpl]. cbn [fold_left existsb].
  destruct (addParts_chain q Hplq) as (Hok & Hsp & Hk & _). specialize (Hk Hne).
  assert (forall r, keeps (addParts [] q) r = prefixb q r) as Hk' by exact Hk. clear Hk.
  enough (forall cs p, p <> [] -> children_ok cs -> spine cs p -> Forall (path_lt p) ps ->
    children_ok (fold_left addParts ps cs) /\
    forall r, keeps (fold_left addParts ps cs) r = keeps cs r || existsb (fun p => prefixb p r) ps) as H.
  { destruct (H (addParts [] q) q Hne Hok Hsp Hq) as [H1 H2]. split; [done|]. intros r. by rewrite H2, Hk'. }
  clear q Hq Hne Hplq Hok Hsp Hk'.
  induction Hs as [|q ps Hs IH Hq]; intros cs p Hp Hok Hsp Hlt.
  { split; [done|]. intros r. by rewrite orb_false_r. }
  apply Forall_cons in Hpl as [[Hne Hplq] Hpl]. apply Forall_cons in Hlt as [Hpq Hlt]. cbn [fold_left existsb].
  destruct (addParts_next q p cs) as (Hok' & Hsp' & Hk'); try done.
  assert (exists p2, p2 <> [] /\ spine (addParts cs q) p2 /\ Forall (path_lt p2) ps) as (p2 & Hp2 & Hsp2 & Hlt2).
  { destruct Hsp'; [by exists p|by exists q]. }
  destruct (IH Hpl _ p2 Hp2 Hok' Hsp2 Hlt2) as [H1 H2]. split; [done|]. intros r. by rewrite H2, Hk', orb_assoc.
Qed.

Lemma init_tree paths : Forall plain paths -> MojRbTreeBase.sorted id MojStrCmp (map join paths) ->
  ordered (init (map join paths)) /\
  forall r, keeps (m_children (init (map join paths))) r = existsb (fun p => prefixb p r) paths.
Proof.
  intros Hpl Hs. unfold init. cbn [m_children].
  assert (fold_left (fun cs i => addParts cs (MojString.split i (chr "."))) (map join paths) [] = fold_left addParts paths [])
    as ->.
  { generalize (@nil Node). clear Hs. induction Hpl as [|p paths [_ Hp] _ IH]; intros cs; [done|].
    cbn [map fold_left]. by rewrite split_join, IH. }
  rewrite ordered_node. apply tree_of; [done|].
  induction Hpl as [|p paths [_ Hp] Hpl IH]; [constructor|].
  cbn [map] in Hs. apply MojRbTreeBase.sorted_cons in Hs as [Hall Hs]. constructor; [auto|].
  apply Forall_forall. intros q Hq. rewrite Forall_forall in Hall. rewrite Forall_forall in Hpl.
  apply join_order; [done|by destruct (Hpl q Hq)|]. apply (Hall (join q)), list_elem_of_In, in_map, list_elem_of_In, Hq.
Qed.

(** ** The values at a path *)
Fixpoint path_get (o : MojObject) (path : list mstring) : option MojObject :=
  match path with
  | [] => Some o
  | x :: path' => match MojObject.get o x with Some v => path_get v path' | None => None end
  end.

Definition is_scalar (o : MojObject) : Prop :=
  match o with ObjectImpl _ | ArrayImpl _ => False | _ => True end.

Abbreviation select := FilterVisit.select.

Lemma get_cons (k : mstring) (v : MojObject) m x :
  MojObject.get (ObjectImpl ((k, v) :: m)) x = if MojStrCmp k x =? 0 then Some v else MojObject.get (ObjectImpl m) x.
Proof.
  cbn [MojObject.get]. unfold MojMap.get, MojRbTreeBase.find. cbn [List.find fst]. by destruct (_ =? 0).
Qed.

Lemma get_above_name m x : Forall (fun kv => MojStrCmp x kv.1 < 0) m -> MojObject.get (ObjectImpl m) x = None.
Proof.
  induction 1 as [|[k v] m Hk _ IH]; [done|]. rewrite get_cons. cbn [fst] in Hk.
  destruct (Z.eqb_spec (MojStrCmp k x) 0) as [E|]; [|done].
  apply (comp_eq_sym MojStrCmp) in E. lia.
Qed.

Lemma get_select cs m x : str_ok x -> Forall (fun kv => str_ok kv.1) m -> MojRbTreeBase.sorted fst MojStrCmp m ->
  MojObject.get (ObjectImpl (omap (select cs) m)) x =
  match MojObject.get (ObjectImpl m) x, find cs x with
  | Some v, Some c => if childless c then Some v else project (m_children c) v
  | _, _ => None
  end.
Proof.
  intros Hx Hm Hs. induction Hs as [|[k v] m Hs IH Hk]; [done|].
  apply Forall_cons in Hm as [Hkok Hm]. specialize (IH Hm). cbn [fst snd] in *.
  rewrite omap_step, get_cons. unfold FilterVisit.select at 1. cbn [fst snd].
  destruct (Z.eqb_spec (MojStrCmp k x) 0) as [E|Hne].
  - apply MojStrCmp_eq in E as ->; [|done..].
    rewrite (get_above_name m x) in IH by exact Hk.
    destruct (find cs x) as [c|]; [|done].
    destruct (if childless c then Some v else project (m_children c) v) as [v'|]; [|done].
    cbn [fmap option_fmap option_map]. by rewrite get_cons, (comp_refl MojStrCmp).
  - destruct (find cs k) as [c|]; [|done].
    destruct (if childless c then Some v else project (m_children c) v) as [v'|]; [|done].
    cbn [fmap option_fmap option_map]. by rewrite get_cons, (proj2 (Z.eqb_neq _ _)).
Qed.

(** A projection has the kept paths that lead through objects. *)
Lemma project_kept r : forall cs o v, Forall str_ok r -> MojObject.ok o ->
  keeps cs r = true -> path_get o r = Some v -> exists o', project cs o = Some o' /\ path_get o' r = Some v.
Proof.
  induction r as [|x r IH]; intros cs o v Hr Hok Hk Hg; [done|].
  apply Forall_cons in Hr as [Hx Hr]. cbn [keeps path_get] in *.
  destruct o as [| |m| | | | |]; try done.
  destruct (MojObject.get (ObjectImpl m) x) as [w|] eqn:Eg; [|done].
  assert (MojObject.ok w) as Hw by (eapply MojObject.get_ok; [exact Hok|exact Eg]).
  apply MojObject.ok_object in Hok as [Hs Hok].
  assert (Forall (fun kv : mstring * MojObject => str_ok kv.1) m) as Hm by (eapply Forall_impl; [exact Hok|]; naive_solver).
  pose proof (get_select cs m x Hx Hm Hs) as Esel. rewrite Eg in Esel.
  destruct (find cs x) as [c|]; [|done].
  assert (exists w', (if childless c then Some w else project (m_children c) w) = Some w' /\ path_get w' r = Some v)
    as (w' & Ew & Hw').
  { destruct (childless c); [by exists w|]. by apply IH. }
  rewrite Ew in Esel. exists (ObjectImpl (omap (select cs) m)). rewrite FilterVisit.project_object, Esel.
  split; [|done]. by destruct (omap (select cs) m).
Qed.

(** And a value below no container is there only on a kept path. *)
Lemma project_only r : forall cs o o' v, Forall str_ok r -> MojObject.ok o ->
  project cs o = Some o' -> path_get o' r = Some v -> is_scalar v -> keeps cs r = true /\ path_get o r = Some v.
Proof.
  induction r as [|x r IH]; intros cs o o' v Hr Hok Ho Hg Hv.
  - cbn [path_get] in Hg. injection Hg as ->. exfalso. destruct o as [| |m|vec| | | |]; try done.
    + rewrite FilterVisit.project_object in Ho. destruct (omap _ m); [done|]. by injection Ho as <-.
    + rewrite FilterVisit.project_array in Ho. destruct (omap _ vec); [done|]. by injection Ho as <-.
  - apply Forall_cons in Hr as [Hx Hr]. cbn [keeps path_get] in *. destruct o as [| |m|vec| | | |]; try done.
    2:{ rewrite FilterVisit.project_array in Ho. destruct (omap _ vec); [done|]. by injection Ho as <-. }
    assert (o' = ObjectImpl (omap (select cs) m)) as ->.
    { rewrite FilterVisit.project_object in Ho. destruct (omap _ m); [done|]. by injection Ho as <-. }
    pose proof (proj1 (MojObject.ok_object m) Hok) as [Hs Hok'].
    rewrite get_select in Hg; [|done|eapply Forall_impl; [exact Hok'|]; naive_solver|done].
    destruct (MojObject.get (ObjectImpl m) x) as [w|] eqn:Eg; [|done].
    assert (MojObject.ok w) as Hw by (eapply MojObject.get_ok; [exact Hok|exact Eg]).
    destruct (find cs x) as [c|]; [|done]. destruct (childless c); [done|].
    destruct (project (m_children c) w) as [w'|] eqn:Ew; [|done]. by eapply IH.
Qed.

(** C19: a filter set up with a set of plain names shows its visitor exactly the
    projection of an object: the same events in the same order, and the
    visitor's error if it returns one.  Through objects, a path has in the
    projection the value it has in the object if some selected name is a prefix
    of the path, and no other path leads to a scalar. *)
Theorem filter_projects {S : Type} `{!Visitor S} paths o (v : S) :
  Forall plain paths -> MojRbTreeBase.sorted id MojStrCmp (map join paths) -> MojObject.ok o -> small o ->
  let root := init (map join paths) in
  MojObject.visit o (setVisitor root v) =
    match projectTop (m_children root) o with
    | Some o' => let? v := MojObject.visit o' v in Ok (setVisitor root v)
    | None => Ok (setVisitor root v)
    end /\
  forall r val, r <> [] -> Forall str_ok r -> is_scalar val ->
    (existsb (fun p => prefixb p r) paths = true /\ path_get o r = Some val <->
     exists o', projectTop (m_children root) o = Some o' /\ path_get o' r = Some val).
Proof.
  intros Hpl Hs Hok Hsm root. destruct (init_tree paths Hpl Hs) as [Ho Hk].
  split; [by apply FilterVisit.visit_filter|]. intros r val Hne Hr Hval. rewrite <- Hk. fold root. split.
  - intros [Hkeep Hget]. destruct (project_kept r (m_children root) o val Hr Hok Hkeep Hget) as (o' & Ep & Eg).
    exists o'. split; [|done]. unfold projectTop. by rewrite Ep.
  - intros (o' & Ep & Eg). unfold projectTop in Ep. destruct (project (m_children root) o) as [o2|] eqn:E.
    + injection Ep as ->. by eapply project_only.
    + destruct r as [|x r]; [done|]. destruct o; try done; injection Ep as <-; done.
Qed.

Definition example_object : MojObject :=
  ObjectImpl [(_T "a", ArrayImpl [ObjectImpl [(_T "b", IntImpl 1); (_T "c", IntImpl 2)]; IntImpl 3]);
              (_T "d", ObjectImpl [(_T "e", StringImpl (_T "x")); (_T "f", BoolImpl true)]);
              (_T "g", ObjectImpl [(_T "h", NullImpl)])].

Lemma filter_projects_witness :
  filtered [_T "a.b"; _T "d.e"; _T "g.i"] example_object =
    Ok (ObjectImpl [(_T "a", ArrayImpl [ObjectImpl [(_T "b", IntImpl 1)]]);
                    (_T "d", ObjectImpl [(_T "e", StringImpl (_T "x"))])]) /\
  exists o', projectTop (m_children (init [_T "a.b"; _T "d.e"; _T "g.i"])) example_object = Some o' /\
    path_get o' [_T "d"; _T "e"] = Some (StringImpl (_T "x")).
Proof.
  split; [by vm_compute|].
  apply (filter_projects [[_T "a"; _T "b"]; [_T "d"; _T "e"]; [_T "g"; _T "i"]] example_object MojObjectBuilder.init).
  - repeat constructor; by vm_compute.
  - repeat constructor; by vm_compute.
  - unfold example_object. cbn [MojObject.ok fold_right fst snd]. unfold MojRbTreeBase.sorted, str_ok, in_int.
    repeat first [ split | constructor | lia | by vm_compute ].
  - by vm_compute.
  - done.
  - repeat constructor; by vm_compute.
  - done.
  - by vm_compute.
Defined.

(** Names with a character below '.' can upset the order of the children: with
    "a-c" selected as well, "a.b" is lost. *)
Lemma low_character_lost :
  filtered [_T "a-c"; _T "a.b"] (ObjectImpl [(_T "a", ObjectImpl [(_T "b", IntImpl 1)]); (_T "a-c", IntImpl 2)]) =
    Ok (ObjectImpl [(_T "a-c", IntImpl 2)]) /\
  filtered [_T "a.b"] (ObjectImpl [(_T "a", ObjectImpl [(_T "b", IntImpl 1)]); (_T "a-c", IntImpl 2)]) =
    Ok (ObjectImpl [(_T "a", ObjectImpl [(_T "b", IntImpl 1)])]).
Proof. by vm_compute. Qed.
End FilterTree.
