(* ===== verification/TokenSet.v ===== *)
(** * Property-name tokens

    [MojTokenSet] (src/src/core/MojTokenSet.cpp) is one writer's copy of the
    name-to-token table that all objects of a kind share; [MojDbKindState]
    (src/src/db/MojDbKindState.cpp) owns the table and its stored copy.  A token
    is one byte, from [TokenStartMarker] up. *)

From S2P Require Import Prelude Containers Object.

Definition TokenStartMarker : Z := 32.

(** ** The shared table, as its users see it *)
Module MojSharedTokenSet.
Class MojSharedTokenSet (W : Type) := {
  (** token, and the vector and object written to the two output arguments,
      which start out empty and undefined *)
  addToken : W -> mstring -> res (W * (Z * list mstring * MojObject));
  tokenSet : W -> list mstring * MojObject
}.
End MojSharedTokenSet.
Export (hints) MojSharedTokenSet.

Module MojTokenSet.
Definition InvalidToken : Z := 0.

Record MojTokenSet (W : Type) := {
  m_sharedTokenSet : W;
  m_tokenVec : list mstring;
  m_obj : MojObject
}.
Arguments m_sharedTokenSet {W} _.
Arguments m_tokenVec {W} _.
Arguments m_obj {W} _.

Section ops.
Context {W : Type} `{!MojSharedTokenSet.MojSharedTokenSet W}.

Definition init (sharedSet : W) : MojTokenSet W :=
  let '(vec, obj) := MojSharedTokenSet.tokenSet sharedSet in
  {| m_sharedTokenSet := sharedSet; m_tokenVec := vec; m_obj := obj |}.

Definition tokenFromString (t : MojTokenSet W) (str : mstring) (add : bool) : res (MojTokenSet W * Z) :=
  let? found := MojObject.get_uint32 (m_obj t) str in
  match found with
  | Some token => Ok (t, to_uint 8 token)
  | None =>
      if add then
        let? (shared, (token, updatedVec, updatedObj)) :=
          MojSharedTokenSet.addToken (m_sharedTokenSet t) str in
        Ok ({| m_sharedTokenSet := shared; m_tokenVec := updatedVec; m_obj := updatedObj |}, token)
      else Ok (t, InvalidToken)
  end.
End ops.

(** Reading needs the vector only. *)
Definition stringFromToken (tokenVec : list mstring) (token : Z) : res mstring :=
  if token <? TokenStartMarker then Err MojErrDbInvalidToken
  else match tokenVec !! Z.to_nat (token - TokenStartMarker) with
       | Some propName => Ok propName
       | None => Err MojErrDbInvalidToken
       end.
End MojTokenSet.

(** ** What a token set needs of the shared table

    [sts_vec] is the table's vector: position [i] holds the name with token
    [TokenStartMarker + i].  Adding a name only extends it, and a token returned
    for a name is the name's position, or invalid when there is none left. *)
Definition snapshot_ok (vec : list mstring) (o : MojObject) : Prop :=
  forall n v, str_ok n -> MojObject.get o n = Some v ->
  exists i, vec !! i = Some n /\ v = IntImpl (TokenStartMarker + Z.of_nat i).

Class SharedTokenSetLaws (W : Type) `{!MojSharedTokenSet.MojSharedTokenSet W} := {
  sts_ok : W -> Prop;
  sts_vec : W -> list mstring;
  sts_max : forall w, sts_ok w -> TokenStartMarker + Z.of_nat (length (sts_vec w)) <= MojUInt8Max;
  sts_tokens : forall w, sts_ok w -> (MojSharedTokenSet.tokenSet w).1 = sts_vec w;
  sts_init : forall w, sts_ok w -> snapshot_ok (sts_vec w) (MojSharedTokenSet.tokenSet w).2;
  sts_add : forall w n w' token vec obj, sts_ok w -> str_ok n ->
    MojSharedTokenSet.addToken w n = Ok (w', (token, vec, obj)) ->
    sts_ok w' /\ sts_vec w `prefix_of` sts_vec w' /\ snapshot_ok (sts_vec w') obj /\
    (token = MojTokenSet.InvalidToken \/
     (TokenStartMarker <= token < MojUInt8Max /\
      sts_vec w' !! Z.to_nat (token - TokenStartMarker) = Some n))
}.

Lemma snapshot_ok_prefix v1 v2 o : v1 `prefix_of` v2 -> snapshot_ok v1 o -> snapshot_ok v2 o.
Proof.
  intros Hp H n v Hn G. destruct (H n v Hn G) as (i & Hi & ->). exists i. split; [|done].
  by eapply prefix_lookup_Some.
Qed.

Lemma snapshot_ok_undefined v : snapshot_ok v UndefinedImpl.
Proof. by intros n w _. Qed.

(** A token set whose copy of the table agrees with the shared one stays so, and
    a valid token stands for the string. *)
Lemma tokenFromString_ok {W} `{SharedTokenSetLaws W} (t t' : MojTokenSet.MojTokenSet W) str add token :
  sts_ok (MojTokenSet.m_sharedTokenSet t) ->
  snapshot_ok (sts_vec (MojTokenSet.m_sharedTokenSet t)) (MojTokenSet.m_obj t) ->
  str_ok str -> MojTokenSet.tokenFromString t str add = Ok (t', token) ->
  sts_ok (MojTokenSet.m_sharedTokenSet t') /\
  sts_vec (MojTokenSet.m_sharedTokenSet t) `prefix_of` sts_vec (MojTokenSet.m_sharedTokenSet t') /\
  snapshot_ok (sts_vec (MojTokenSet.m_sharedTokenSet t')) (MojTokenSet.m_obj t') /\
  (token = MojTokenSet.InvalidToken \/
   (TokenStartMarker <= token < MojUInt8Max /\
    sts_vec (MojTokenSet.m_sharedTokenSet t') !! Z.to_nat (token - TokenStartMarker) = Some str)).
Proof.
  intros Hok Hsnap Hstr. unfold MojTokenSet.tokenFromString, MojObject.get_uint32, MojObject.get_int.
  destruct (MojObject.get (MojTokenSet.m_obj t) str) as [v|] eqn:G.
  - destruct (Hsnap str v Hstr G) as (i & Hi & ->). simpl.
    pose proof (sts_max _ Hok). pose proof (lookup_lt_Some _ _ _ Hi).
    destruct ((0 <=? _) && _); simpl; [|done].
    intros [= <- <-]. split; [done|]. split; [done|]. split; [done|]. right.
    unfold TokenStartMarker, MojUInt8Max in *. rewrite to_uint_small by (unfold in_uint; lia).
    split; [lia|]. by replace (Z.to_nat (32 + Z.of_nat i - 32)) with i by lia.
  - simpl. destruct add.
    + intros ([w [[tok vec] obj]] & E & [= <- <-])%res_bind_ok. simpl.
      by destruct (sts_add _ _ _ _ _ _ Hok Hstr E) as (? & ? & ? & ?).
    + intros [= <- <-]. auto.
Qed.

(** ** The owner of the table *)
Module MojDbKindState.
Record MojDbKindState := {
  m_nextToken : Z;
  m_tokensObj : MojObject;
  m_tokenVec : list mstring;
  m_stored : MojObject  (* what the database holds under [TokensKey] *)
}.

Section ops.
(** [writeTokens] stores the table through the storage engine; it may fail. *)
Context (writeTokens : MojObject -> res MojObject).

Definition start : MojDbKindState :=
  {| m_nextToken := TokenStartMarker; m_tokensObj := UndefinedImpl; m_tokenVec := [];
     m_stored := UndefinedImpl |}.

Definition addPropImpl (s : MojDbKindState) (propName : mstring) (write : bool)
    : res (MojDbKindState * (Z * list mstring * MojObject)) :=
  let? found := MojObject.get_uint32 (m_tokensObj s) propName in
  match found with
  | Some token => Ok (s, (to_uint 8 token, [], UndefinedImpl))
  | None =>
      if m_nextToken s <? MojUInt8Max then
        let tokenVec := m_tokenVec s ++ [propName] in
        let obj := MojObject.put (m_tokensObj s) propName (IntImpl (m_nextToken s)) in
        let? stored := (if write then writeTokens obj else Ok (m_stored s)) in
        Ok ({| m_nextToken := to_uint 8 (m_nextToken s + 1); m_tokensObj := obj;
               m_tokenVec := tokenVec; m_stored := stored |},
            (m_nextToken s, tokenVec, obj))
      else Ok (s, (MojTokenSet.InvalidToken, [], UndefinedImpl))
  end.

Definition addToken (s : MojDbKindState) (propName : mstring) := addPropImpl s propName true.

Definition tokenSet (s : MojDbKindState) : list mstring * MojObject := (m_tokenVec s, m_tokensObj s).

(** One turn of the loop that fills the vector from the stored table. *)
Definition loadStep (st : list mstring * Z) (kv : mstring * MojObject) : res (list mstring * Z) :=
  let '(tokenVec, maxToken) := st in
  let value := MojObject.intValue kv.2 in
  let idx := to_uint 64 (value - TokenStartMarker) in
  if (value <? TokenStartMarker) || (MojUInt8Max <=? value) || (Z.of_nat (length tokenVec) <=? idx)
  then Err MojErrDbInvalidToken
  else Ok (<[Z.to_nat idx := kv.1]> tokenVec, if maxToken <? value then value else maxToken).

Definition addStep (st : MojDbKindState * bool) (str : mstring) : res (MojDbKindState * bool) :=
  let '(s, updated) := st in
  if MojObject.contains (m_tokensObj s) str then Ok (s, updated)
  else let? (s, _) := addPropImpl s str false in Ok (s, true).

(** [stored] is what [readObj] finds under [TokensKey]; [strings] the names the
    kind's configuration mentions. *)
Definition initTokens (stored : MojObject) (strings : list mstring) : res MojDbKindState :=
  let tokenVec := replicate (MojObject.size stored) [] in
  let? (tokenVec, maxToken) := res_fold loadStep (tokenVec, 0) (MojObject.ensureObject stored) in
  let s := {| m_nextToken := if 0 <? maxToken then to_uint 8 (maxToken + 1) else TokenStartMarker;
              m_tokensObj := stored; m_tokenVec := tokenVec; m_stored := stored |} in
  let? (s, updated) := res_fold addStep (s, false) strings in
  if updated : bool then
    let? stored := writeTokens (m_tokensObj s) in
    Ok {| m_nextToken := m_nextToken s; m_tokensObj := m_tokensObj s;
          m_tokenVec := m_tokenVec s; m_stored := stored |}
  else Ok s.

#[global] Instance shared : MojSharedTokenSet.MojSharedTokenSet MojDbKindState := {|
  MojSharedTokenSet.addToken := addToken;
  MojSharedTokenSet.tokenSet := tokenSet
|}.

End ops.

(** *** The table is a bijection between names and tokens *)
Record inv (s : MojDbKindState) : Prop := {
  inv_next : m_nextToken s = TokenStartMarker + Z.of_nat (length (m_tokenVec s));
  inv_max : m_nextToken s <= MojUInt8Max;
  inv_shape : m_tokensObj s = UndefinedImpl \/ exists m, m_tokensObj s = ObjectImpl m;
  inv_ok : MojObject.ok (m_tokensObj s);
  inv_str : Forall str_ok (m_tokenVec s);
  inv_get : forall n v, str_ok n -> MojObject.get (m_tokensObj s) n = Some v <->
    exists i, m_tokenVec s !! i = Some n /\ v = IntImpl (TokenStartMarker + Z.of_nat i)
}.

Lemma inv_start : inv start.
Proof. split; simpl; [done|done|auto|done|constructor|]. intros n v _. split; [done|]. naive_solver. Qed.

Lemma inv_token s n i : inv s -> m_tokenVec s !! i = Some n ->
  32 <= TokenStartMarker + Z.of_nat i < 255.
Proof.
  intros H Hi. apply lookup_lt_Some in Hi. destruct H as [H1 H2 _ _ _ _].
  unfold TokenStartMarker, MojUInt8Max in *. lia.
Qed.

Lemma get_uint32_inv s n : inv s -> str_ok n ->
  MojObject.get_uint32 (m_tokensObj s) n =
    Ok match list_find (fun x => x = n) (m_tokenVec s) with
       | Some (i, _) => Some (TokenStartMarker + Z.of_nat i) | None => None end.
Proof.
  intros H Hn. unfold MojObject.get_uint32, MojObject.get_int.
  destruct (MojObject.get (m_tokensObj s) n) as [v|] eqn:G.
  - pose proof G as (i & Hi & ->)%(inv_get s H n v Hn).
    destruct (list_find (fun x => x = n) (m_tokenVec s)) as [[j y]|] eqn:F.
    + apply list_find_Some in F as (Hj & -> & _).
      assert (MojObject.get (m_tokensObj s) n = Some (IntImpl (TokenStartMarker + Z.of_nat j))) as G2.
      { apply (inv_get s H); eauto. }
      rewrite G in G2. injection G2 as E. pose proof (inv_token s n i H Hi). simpl.
      unfold MojUInt32Max. destruct (Z.leb_spec 0 (TokenStartMarker + Z.of_nat i)); [|lia].
      destruct (Z.leb_spec (TokenStartMarker + Z.of_nat i) 4294967295); [|lia]. simpl. do 2 f_equal. lia.
    + apply list_find_None in F. rewrite Forall_forall in F. exfalso.
      eapply F; [by eapply list_elem_of_lookup_2|done].
  - destruct (list_find (fun x => x = n) (m_tokenVec s)) as [[j y]|] eqn:F; [|done].
    apply list_find_Some in F as (Hj & -> & _).
    assert (MojObject.get (m_tokensObj s) n = Some (IntImpl (TokenStartMarker + Z.of_nat j))) as G2.
    { apply (inv_get s H); eauto. }
    by rewrite G in G2.
Qed.

Lemma inv_put s n stored : inv s -> str_ok n -> MojObject.get (m_tokensObj s) n = None ->
  m_nextToken s < MojUInt8Max ->
  inv {| m_nextToken := to_uint 8 (m_nextToken s + 1);
         m_tokensObj := MojObject.put (m_tokensObj s) n (IntImpl (m_nextToken s));
         m_tokenVec := m_tokenVec s ++ [n]; m_stored := stored |}.
Proof.
  intros H Hn G Hlt. pose proof H as [H1 H2 _ H3 H4 H5].
  unfold TokenStartMarker, MojUInt8Max in *.
  split; cbn [m_nextToken m_tokensObj m_tokenVec].
  - rewrite to_uint_small by (unfold in_uint; lia). rewrite length_app. simpl.
    unfold TokenStartMarker. lia.
  - rewrite to_uint_small by (unfold in_uint; lia). unfold MojUInt8Max. lia.
  - right. by eexists.
  - apply MojObject.put_ok; [done..|]. simpl. unfold in_int. lia.
  - apply Forall_app; auto.
  - intros m v Hm. rewrite MojObject.get_put by done.
    assert (~ n ∈ m_tokenVec s) as Hnew.
    { intros [i Hi]%list_elem_of_lookup_1. assert (MojObject.get (m_tokensObj s) n = Some (IntImpl (32 + Z.of_nat i)))
        as G2 by (apply H5; eauto). by rewrite G in G2. }
    destruct (decide (n = m)) as [->|Hne].
    + split.
      * intros [= <-]. exists (length (m_tokenVec s)). rewrite lookup_app_r, Nat.sub_diag by done.
        split; [done|]. f_equal. unfold TokenStartMarker. lia.
      * intros (i & Hi & ->). apply lookup_app_Some in Hi as [Hi|[Hi1 Hi2]].
        -- destruct Hnew. by eapply list_elem_of_lookup_2.
        -- destruct (i - length (m_tokenVec s))%nat eqn:E; [|done]. do 2 f_equal.
           unfold TokenStartMarker. lia.
    + rewrite H5 by done. split; intros (i & Hi & ->); exists i.
      * split; [by apply lookup_app_l_Some|done].
      * split; [|done]. apply lookup_app_Some in Hi as [Hi|[Hi1 Hi2]]; [done|].
        by destruct (i - length (m_tokenVec s))%nat; simplify_eq/=.
Qed.

(** What [addPropImpl] does in a consistent state. *)
Lemma addPropImpl_cases writeTokens s n write s' token vec obj : inv s -> str_ok n ->
  addPropImpl writeTokens s n write = Ok (s', (token, vec, obj)) ->
  inv s' /\ m_tokenVec s `prefix_of` m_tokenVec s' /\
  ((token = MojTokenSet.InvalidToken /\ s' = s /\ m_nextToken s = MojUInt8Max /\ vec = [] /\ obj = UndefinedImpl) \/
   (TokenStartMarker <= token < MojUInt8Max /\
    m_tokenVec s' !! Z.to_nat (token - TokenStartMarker) = Some n /\
    ((s' = s /\ vec = [] /\ obj = UndefinedImpl) \/ (vec = m_tokenVec s' /\ obj = m_tokensObj s')))).
Proof.
  intros H Hn. unfold addPropImpl. rewrite get_uint32_inv by done. simpl.
  destruct (list_find _ _) as [[i y]|] eqn:F.
  - intros [= <- <- <- <-]. apply list_find_Some in F as (Hi & -> & _).
    pose proof (inv_token s n i H Hi). rewrite to_uint_small by (unfold in_uint; lia).
    split; [done|]. split; [done|]. right. split; [unfold TokenStartMarker, MojUInt8Max in *; lia|].
    split; [|auto]. by replace (Z.to_nat (TokenStartMarker + Z.of_nat i - TokenStartMarker)) with i by lia.
  - assert (MojObject.get (m_tokensObj s) n = None) as G.
    { destruct (MojObject.get _ _) eqn:G; [|done]. apply (inv_get s H) in G as (i & Hi & _); [|done].
      apply list_find_None in F. rewrite Forall_forall in F. exfalso.
      eapply F; [by eapply list_elem_of_lookup_2|done]. }
    destruct (Z.ltb_spec (m_nextToken s) MojUInt8Max) as [L|L].
    + intros (stored & _ & E)%res_bind_ok. injection E as <- <- <- <-.
      split; [by apply inv_put|]. split; [by apply prefix_app_r|]. right. simpl.
      pose proof (inv_next s H) as E. unfold TokenStartMarker, MojUInt8Max in *.
      split; [lia|]. split; [|auto].
      rewrite lookup_app_r by lia.
      by replace (Z.to_nat (m_nextToken s - 32) - length (m_tokenVec s))%nat with 0%nat by lia.
    + intros [= <- <- <- <-]. split; [done|]. split; [done|]. left.
      pose proof (inv_max s H). repeat split; try done. lia.
Qed.

(** *** Loading the stored table *)
Lemma loadStep_ok vec mx k i : (i < length vec)%nat -> Z.of_nat i < 223 ->
  loadStep (vec, mx) (k, IntImpl (TokenStartMarker + Z.of_nat i)) =
    Ok (<[i := k]> vec, Z.max mx (TokenStartMarker + Z.of_nat i)).
Proof.
  intros Hi H. unfold loadStep. simpl.
  replace (TokenStartMarker + Z.of_nat i - TokenStartMarker) with (Z.of_nat i) by lia.
  rewrite to_uint_small by (unfold in_uint; lia). rewrite Nat2Z.id.
  unfold TokenStartMarker, MojUInt8Max.
  destruct (Z.ltb_spec (32 + Z.of_nat i) 32); [lia|].
  destruct (Z.leb_spec 255 (32 + Z.of_nat i)); [lia|].
  destruct (Z.leb_spec (Z.of_nat (length vec)) (Z.of_nat i)); [lia|]. simpl.
  do 2 f_equal. destruct (Z.ltb_spec mx (32 + Z.of_nat i)); lia.
Qed.

Lemma loadStep_fold m : forall vec mx,
  Forall (fun kv : mstring * MojObject => exists i, (i < length vec)%nat /\ Z.of_nat i < 223 /\
    kv.2 = IntImpl (TokenStartMarker + Z.of_nat i)) m ->
  NoDup (map snd m) ->
  exists vec' mx', res_fold loadStep (vec, mx) m = Ok (vec', mx') /\ length vec' = length vec /\
    mx <= mx' /\ (mx' = mx \/ exists k, (k, IntImpl mx') ∈ m) /\
    (forall k i, (k, IntImpl (TokenStartMarker + Z.of_nat i)) ∈ m ->
       vec' !! i = Some k /\ TokenStartMarker + Z.of_nat i <= mx') /\
    (forall i, (forall k, (k, IntImpl (TokenStartMarker + Z.of_nat i)) ∉ m) -> vec' !! i = vec !! i).
Proof.
  induction m as [|[k v] m IH]; intros vec mx Hf Hn.
  - exists vec, mx. split; [done|]. split; [done|]. split; [lia|]. split; [auto|]. set_solver.
  - apply Forall_cons in Hf as [(i & Hi & Hi2 & Hv) Hf]. simpl in Hv. subst v.
    apply NoDup_cons in Hn as [Hni Hn]. cbn [res_fold]. rewrite loadStep_ok by done. cbn [res_bind].
    destruct (IH (<[i:=k]> vec) (Z.max mx (TokenStartMarker + Z.of_nat i)))
      as (vec' & mx' & -> & Hl & Hm & Hm2 & Hset & Hother);
      [by rewrite length_insert|done|].
    assert (forall k', (k', IntImpl (TokenStartMarker + Z.of_nat i)) ∉ m) as Hnm.
    { intros k' Hk. apply Hni. simpl. apply list_elem_of_fmap. by exists (k', IntImpl (TokenStartMarker + Z.of_nat i)). }
    exists vec', mx'. split; [done|]. split; [by rewrite Hl, length_insert|]. split; [lia|]. split.
    { destruct Hm2 as [->|(k' & Hk)]; [|right; exists k'; set_solver].
      destruct (Z.max_spec mx (TokenStartMarker + Z.of_nat i)) as [[_ ->]|[_ ->]]; [right; exists k; set_solver|auto]. }
    split.
    + intros k' j [E|Hk]%elem_of_cons; [|by apply Hset].
      injection E as -> E. assert (j = i) as -> by lia.
      split; [|lia]. rewrite Hother by done. by apply list_lookup_insert_eq.
    + intros j Hj. rewrite Hother by set_solver. apply list_lookup_insert_ne. intros ->.
      apply (Hj k). set_solver.
Qed.

Lemma inv_elem s : inv s -> forall n v,
  (n, v) ∈ MojObject.ensureObject (m_tokensObj s) <->
  exists i, m_tokenVec s !! i = Some n /\ v = IntImpl (TokenStartMarker + Z.of_nat i).
Proof.
  intros H n v. pose proof (inv_ok s H) as Ho. split.
  - intros Hin. destruct (m_tokensObj s) as [| |m| | | | | ] eqn:E; simpl in Hin; try set_solver.
    apply MojObject.ok_object in Ho as [Hs Hf]. rewrite Forall_forall in Hf.
    destruct (Hf _ Hin) as [Hn _]. apply (inv_get s H n v Hn). rewrite E. simpl. unfold MojMap.get.
    rewrite (MojRbTreeBase.find_elem fst MojStrCmp n m (n, v)); [done..|apply (comp_refl MojStrCmp)].
  - intros (i & Hi & ->). pose proof (inv_str s H) as Hstr. rewrite Forall_forall in Hstr.
    assert (str_ok n) as Hn by (eapply Hstr, list_elem_of_lookup_2; exact Hi).
    assert (MojObject.get (m_tokensObj s) n = Some (IntImpl (TokenStartMarker + Z.of_nat i))) as G
      by (apply (inv_get s H); eauto).
    destruct (m_tokensObj s) as [| |m| | | | | ] eqn:E; try done. simpl in *. unfold MojMap.get in G.
    apply MojObject.ok_object in Ho as [Hs Hf]. rewrite Forall_forall in Hf.
    destruct (MojRbTreeBase.find _ _ n m) as [[n' v']|] eqn:F; [|done].
    apply MojRbTreeBase.find_Some in F as [F1 F2]. simpl in *. injection G as ->.
    destruct (Hf _ F1). by apply MojStrCmp_eq in F2 as ->.
Qed.

Lemma inv_vec_inj s i j n : inv s -> m_tokenVec s !! i = Some n -> m_tokenVec s !! j = Some n -> i = j.
Proof.
  intros H Hi Hj. pose proof (inv_str s H) as Hstr. rewrite Forall_forall in Hstr.
  assert (str_ok n) as Hn by (eapply Hstr, list_elem_of_lookup_2; exact Hi).
  assert (MojObject.get (m_tokensObj s) n = Some (IntImpl (TokenStartMarker + Z.of_nat i))) as G1
    by (apply (inv_get s H); eauto).
  assert (MojObject.get (m_tokensObj s) n = Some (IntImpl (TokenStartMarker + Z.of_nat j))) as G2
    by (apply (inv_get s H); eauto).
  rewrite G1 in G2. injection G2. lia.
Qed.

Lemma nodup_snd (vec : list mstring) (m : list (mstring * MojObject)) : NoDup (map fst m) ->
  (forall n v, (n, v) ∈ m -> exists i, vec !! i = Some n /\ v = IntImpl (TokenStartMarker + Z.of_nat i)) ->
  NoDup (map snd m).
Proof.
  induction m as [|[k v] m IH]; intros Hk He; simpl; [constructor|].
  apply NoDup_cons in Hk as [Hk1 Hk2].
  constructor; [|apply IH; [done|]; intros; apply He; by right].
  intros ([k' v'] & E & Hin)%list_elem_of_fmap. simpl in E. subst v'.
  destruct (He k v) as (i & Hi & ->); [by left|].
  destruct (He k' _ ltac:(right; exact Hin)) as (j & Hj & E).
  injection E as E. assert (j = i) as -> by lia. rewrite Hi in Hj. injection Hj as ->.
  apply Hk1. apply list_elem_of_fmap. by exists (k', IntImpl (TokenStartMarker + Z.of_nat i)).
Qed.

Lemma inv_nodup s : inv s ->
  NoDup (map fst (MojObject.ensureObject (m_tokensObj s))) /\
  NoDup (map snd (MojObject.ensureObject (m_tokensObj s))) /\ NoDup (m_tokenVec s).
Proof.
  intros H.
  assert (NoDup (m_tokenVec s)) as Hv.
  { apply NoDup_alt. intros i j x Hi Hj. by eapply inv_vec_inj. }
  assert (NoDup (map fst (MojObject.ensureObject (m_tokensObj s)))) as Hk.
  { pose proof (inv_ok s H) as Ho. destruct (m_tokensObj s) as [| |m| | | | | ]; try constructor.
    apply MojObject.ok_object in Ho as [Hs _]. simpl.
    induction Hs as [|kv m Hm IH Hf]; simpl; constructor; [|done].
    intros ([k v] & E & Hin)%list_elem_of_fmap. rewrite Forall_forall in Hf.
    specialize (Hf _ Hin). unfold MojRbTreeBase.node_lt in Hf. simpl in *. subst.
    rewrite (comp_refl MojStrCmp) in Hf. lia. }
  split; [done|]. split; [|done]. apply (nodup_snd (m_tokenVec s)); [done|].
  intros n v. apply (inv_elem s H).
Qed.

(** The token table survives a restart: loading what a consistent table was
    stored as gives the same tokens to the same names, in a consistent state,
    and no token is given twice. *)
Theorem token_table_reload writeTokens s : inv s ->
  exists s', initTokens writeTokens (m_tokensObj s) [] = Ok s' /\ inv s' /\
    m_tokenVec s' = m_tokenVec s /\ m_tokensObj s' = m_tokensObj s /\ m_nextToken s' = m_nextToken s.
Proof.
  intros H. pose proof (inv_nodup s H) as (Hk & Hv & Hn). pose proof (inv_elem s H) as He.
  assert (MojObject.size (m_tokensObj s) = length (m_tokenVec s)) as Hsz.
  { assert (map fst (MojObject.ensureObject (m_tokensObj s)) ≡ₚ m_tokenVec s) as Hp.
    { apply NoDup_Permutation; [done..|]. intros n. rewrite list_elem_of_fmap. split.
      - intros ([k v] & -> & Hin). apply He in Hin as (i & Hi & _). by eapply list_elem_of_lookup_2.
      - intros [i Hi]%list_elem_of_lookup_1. exists (n, IntImpl (TokenStartMarker + Z.of_nat i)).
        split; [done|]. apply He. eauto. }
    apply Permutation_length in Hp. rewrite length_map in Hp. rewrite <- Hp.
    destruct (m_tokensObj s) as [| | |v| | | | ] eqn:E; try done.
    exfalso. destruct (inv_shape s H) as [E2|[m E2]]; congruence. }
  unfold initTokens. rewrite Hsz.
  destruct (loadStep_fold (MojObject.ensureObject (m_tokensObj s)) (replicate (length (m_tokenVec s)) []) 0)
    as (vec & mx & -> & Hl & Hm & Hm2 & Hset & _); [| |].
  { apply Forall_forall. intros [k v] Hin. apply He in Hin as (i & Hi & ->).
    exists i. pose proof (inv_token s k i H Hi). apply lookup_lt_Some in Hi. rewrite length_replicate.
    unfold TokenStartMarker in *. repeat split; lia. }
  { done. }
  cbn [res_bind res_fold]. rewrite length_replicate in Hl.
  assert (vec = m_tokenVec s) as ->.
  { apply list_eq_same_length with (n := length (m_tokenVec s)); [done..|].
    intros i x y Hi Hx Hy. destruct (Hset y i) as [Hy2 _]; [apply He; eauto|]. congruence. }
  eexists; split; [reflexivity|]. cbn [m_tokenVec m_tokensObj m_nextToken].
  assert ((if 0 <? mx then to_uint 8 (mx + 1) else TokenStartMarker) = m_nextToken s) as ->.
  { pose proof (inv_next s H) as Hnext. pose proof (inv_max s H) as Hmax.
    unfold TokenStartMarker, MojUInt8Max in *. destruct (m_tokenVec s) as [|n0 tv] eqn:E.
    - destruct Hm2 as [->|(k & Hin)]; [simpl in *; lia|]. apply He in Hin as (i & Hi & _). done.
    - assert (mx = 32 + Z.of_nat (length tv)) as ->.
      { destruct (lookup_lt_is_Some_2 (n0 :: tv) (length tv)) as [x Hx]; [simpl; lia|].
        destruct (Hset x (length tv)) as [_ Hge]; [apply He; eauto|].
        destruct Hm2 as [->|(k & Hin)]; [lia|]. apply He in Hin as (i & Hi & Ei). injection Ei as ->.
        apply lookup_lt_Some in Hi. simpl in Hi. lia. }
      destruct (Z.ltb_spec 0 (32 + Z.of_nat (length tv))); [|lia]. simpl length in *.
      rewrite to_uint_small; [lia|unfold in_uint; lia]. }
  split; [|done]. destruct H as [H1 H2 H3 H4 H5 H6]. by split.
Qed.

(** When the shared table already has the name, [addPropImpl] returns its token
    but leaves the output vector and object as the caller initialised them; the
    caller then swaps these empty ones in for its copy of the table. *)
Lemma stale_copy_wiped writeTokens s t n i : inv s -> str_ok n -> m_tokenVec s !! i = Some n ->
  MojObject.get (MojTokenSet.m_obj t) n = None -> MojTokenSet.m_sharedTokenSet t = s ->
  MojTokenSet.tokenFromString (H := shared writeTokens) t n true =
    Ok ({| MojTokenSet.m_sharedTokenSet := s; MojTokenSet.m_tokenVec := []; MojTokenSet.m_obj := UndefinedImpl |},
        TokenStartMarker + Z.of_nat i).
Proof.
  intros H Hn Hi G Hs. unfold MojTokenSet.tokenFromString, MojObject.get_uint32, MojObject.get_int.
  rewrite G. simpl. rewrite Hs. unfold addToken, addPropImpl. rewrite get_uint32_inv by done.
  destruct (list_find (fun x => x = n) (m_tokenVec s)) as [[j y]|] eqn:F.
  - apply list_find_Some in F as (Hj & -> & _). rewrite (inv_vec_inj s i j n) by done. simpl.
    pose proof (inv_token s n j H Hj). rewrite to_uint_small by (unfold in_uint; lia). done.
  - apply list_find_None in F. rewrite Forall_forall in F. exfalso.
    eapply F; [by eapply list_elem_of_lookup_2|done].
Qed.

(** Writing to memory only, as the token set of a test does. *)
Definition memTokens (obj : MojObject) : res MojObject := Ok obj.

Lemma token_table_reload_witness :
  exists s', initTokens memTokens
    (MojObject.put (MojObject.put UndefinedImpl (_T "b") (IntImpl 32)) (_T "a") (IntImpl 33)) [] = Ok s' /\
    m_tokenVec s' = [_T "b"; _T "a"].
Proof.
  assert (str_ok (_T "a")) as Ha by (repeat constructor).
  assert (str_ok (_T "b")) as Hb by (repeat constructor).
  pose proof (inv_put start (_T "b") UndefinedImpl inv_start Hb eq_refl eq_refl) as H1.
  pose proof (inv_put _ (_T "a") UndefinedImpl H1 Ha eq_refl eq_refl) as H2.
  destruct (token_table_reload memTokens _ H2) as (s' & E & _ & V & _).
  exists s'. split; [exact E|exact V].
Defined.

(** The owner of the table keeps its side of the interface. *)
#[global] Instance shared_laws writeTokens :
  @SharedTokenSetLaws MojDbKindState (shared writeTokens).
Proof.
  refine {| sts_ok := inv : MojDbKindState -> Prop; sts_vec := m_tokenVec |}.
  - intros w H. rewrite <- (inv_next w H). apply (inv_max w H).
  - done.
  - intros w H n v Hn. apply (inv_get w H n v Hn).
  - intros w n w' token vec obj H Hn E.
    destruct (addPropImpl_cases writeTokens w n true w' token vec obj H Hn E) as (H' & Hp & Hc).
    split; [done|]. split; [done|]. split.
    + destruct Hc as [(_ & _ & _ & _ & ->)|(_ & _ & [(_ & _ & ->)|(_ & ->)])];
        [apply snapshot_ok_undefined..|]. intros m v Hm. apply (inv_get w' H' m v Hm).
    + destruct Hc as [(-> & _)|(? & ? & _)]; auto.
Defined.
End MojDbKindState.
Export (hints) MojDbKindState.
