(* ===== verification/ObjectSerialization.v ===== *)
(** * The binary format of objects: src/src/core/MojObjectSerialization.cpp

    [MojObjectWriter] is a visitor that appends to a buffer; [MojObjectReader] is
    a state machine that reads a byte sequence and shows it to a visitor.  A
    reader's position is the list of bytes that are left. *)

From S2P Require Import Prelude Containers DataSerialization Object ObjectBuilder TokenSet.

(** ** Markers *)
Definition MarkerObjectEnd : Z := 0.
Definition MarkerNullValue : Z := 1.
Definition MarkerObjectBegin : Z := 2.
Definition MarkerArrayBegin : Z := 3.
Definition MarkerStringValue : Z := 4.
Definition MarkerFalseValue : Z := 5.
Definition MarkerTrueValue : Z := 6.
Definition MarkerNegativeDecimalValue : Z := 7.
Definition MarkerPositiveDecimalValue : Z := 8.
Definition MarkerNegativeIntValue : Z := 9.
Definition MarkerZeroIntValue : Z := 10.
Definition MarkerUInt8Value : Z := 11.
Definition MarkerUInt16Value : Z := 12.
Definition MarkerUInt32Value : Z := 13.
Definition MarkerInt64Value : Z := 14.
Definition MarkerExtensionValue : Z := 15.
Definition MarkerHeaderEnd : Z := 16.

(** ** [MojObjectWriter] *)
Module MojObjectWriter.
Record MojObjectWriter (W : Type) := {
  m_writer : bytes;
  m_tokenSet : option (MojTokenSet.MojTokenSet W);
  m_populate : bool
}.
Arguments m_writer {W} _.
Arguments m_tokenSet {W} _.
Arguments m_populate {W} _.

Section ops.
Context {W : Type} `{!MojSharedTokenSet.MojSharedTokenSet W}.
Abbreviation writer := (MojObjectWriter W).

Definition init : writer := {| m_writer := []; m_tokenSet := None; m_populate := true |}.

Definition with_buf (w : writer) (buf : bytes) : writer :=
  {| m_writer := buf; m_tokenSet := m_tokenSet w; m_populate := m_populate w |}.

Definition reset (w : writer) : writer :=
  {| m_writer := []; m_tokenSet := None; m_populate := m_populate w |}.

Definition writeUInt8 (w : writer) (val : Z) : writer :=
  with_buf w (MojDataWriter.writeUInt8 (m_writer w) val).

Definition intValue (w : writer) (val : Z) : writer :=
  if val <? 0 then
    let w := writeUInt8 w MarkerNegativeIntValue in
    with_buf w (MojDataWriter.writeInt64 (m_writer w) val)
  else if val =? 0 then writeUInt8 w MarkerZeroIntValue
  else if val <=? MojUInt8Max then
    let w := writeUInt8 w MarkerUInt8Value in writeUInt8 w (to_uint 8 val)
  else if val <=? MojUInt16Max then
    let w := writeUInt8 w MarkerUInt16Value in
    with_buf w (MojDataWriter.writeUInt16 (m_writer w) (to_uint 16 val))
  else if val <=? MojUInt32Max then
    let w := writeUInt8 w MarkerUInt32Value in
    with_buf w (MojDataWriter.writeUInt32 (m_writer w) (to_uint 32 val))
  else
    let w := writeUInt8 w MarkerInt64Value in
    with_buf w (MojDataWriter.writeInt64 (m_writer w) val).

Definition decimalValue (w : writer) (rep : Z) : writer :=
  let marker := if rep <? 0 then MarkerNegativeDecimalValue else MarkerPositiveDecimalValue in
  let w := writeUInt8 w marker in
  with_buf w (MojDataWriter.writeDecimal (m_writer w) rep).

Definition writeString (w : writer) (val : mstring) (addToken : bool) : res writer :=
  let plain (w : writer) :=
    let w := writeUInt8 w MarkerStringValue in
    let w := with_buf w (MojDataWriter.writeChars (m_writer w) val) in
    Ok (writeUInt8 w 0) in
  match m_tokenSet w with
  | Some tokenSet =>
      let? (tokenSet, token) := MojTokenSet.tokenFromString tokenSet val addToken in
      let w := {| m_writer := m_writer w; m_tokenSet := Some tokenSet; m_populate := m_populate w |} in
      if negb (token =? MojTokenSet.InvalidToken) then Ok (writeUInt8 w token) else plain w
  | None => plain w
  end.

#[global] Instance visitor : Visitor writer := {|
  MojObjectVisitor.reset w := Ok (reset w);
  MojObjectVisitor.beginObject w := Ok (writeUInt8 w MarkerObjectBegin);
  MojObjectVisitor.endObject w := Ok (writeUInt8 w MarkerObjectEnd);
  MojObjectVisitor.beginArray w := Ok (writeUInt8 w MarkerArrayBegin);
  MojObjectVisitor.endArray w := Ok (writeUInt8 w MarkerObjectEnd);
  MojObjectVisitor.propName w name := writeString w name (m_populate w);
  MojObjectVisitor.nullValue w := Ok (writeUInt8 w MarkerNullValue);
  MojObjectVisitor.boolValue w val := Ok (writeUInt8 w (if val : bool then MarkerTrueValue else MarkerFalseValue));
  MojObjectVisitor.intValue w val := Ok (intValue w val);
  MojObjectVisitor.decimalValue w rep := Ok (decimalValue w rep);
  MojObjectVisitor.stringValue w val := writeString w val false
|}.
End ops.

(** The sizes the writer announces. *)
Definition nullSize : Z := 1.
Definition boolSize : Z := 1.
Definition intSize (val : Z) : Z :=
  if val <? 0 then 1 + 8 else if val =? 0 then 1
  else if val <=? MojUInt8Max then 1 + 1 else if val <=? MojUInt16Max then 1 + 2
  else if val <=? MojUInt32Max then 1 + 4 else 1 + 8.
Definition decimalSize (rep : Z) : Z := 1 + MojDataWriter.sizeDecimal rep.
Definition stringSize (val : mstring) : Z := 2 + MojDataWriter.sizeChars val.
End MojObjectWriter.

(** A writer without tokens; there is no shared table behind it. *)
#[export] Instance no_tokens : MojSharedTokenSet.MojSharedTokenSet unit := {|
  MojSharedTokenSet.addToken w _ := Ok (w, (MojTokenSet.InvalidToken, [], UndefinedImpl));
  MojSharedTokenSet.tokenSet _ := ([], UndefinedImpl)
|}.

#[export] Instance no_tokens_laws : SharedTokenSetLaws unit.
Proof.
  refine {| sts_ok := fun _ : unit => True; sts_vec := fun _ => [] |}; try done.
  intros [] n [] token vec obj _ _ [= <- <- <-]. split; [done|]. split; [done|].
  split; [apply snapshot_ok_undefined|auto].
Defined.

(** ** [MojObjectReader] *)
Module MojObjectReader.
Inductive State := StateValue | StateObject | StateArray.

Record MojObjectReader := {
  m_reader : bytes;
  m_stack : list State;   (* the top first *)
  m_skipBeginObj : bool;
  m_tokenSet : option (list mstring)   (* the vector of the token set *)
}.

Definition data (bs : bytes) : MojObjectReader :=
  {| m_reader := bs; m_stack := []; m_skipBeginObj := false; m_tokenSet := None |}.

Definition hasNext (r : MojObjectReader) : bool := match m_reader r with [] => false | _ => true end.
Definition peek (r : MojObjectReader) : option Z := hd_error (m_reader r).

Definition with_reader (r : MojObjectReader) (bs : bytes) : MojObjectReader :=
  {| m_reader := bs; m_stack := m_stack r; m_skipBeginObj := m_skipBeginObj r; m_tokenSet := m_tokenSet r |}.
Definition with_stack (r : MojObjectReader) (st : list State) : MojObjectReader :=
  {| m_reader := m_reader r; m_stack := st; m_skipBeginObj := m_skipBeginObj r; m_tokenSet := m_tokenSet r |}.
Definition skipBeginObj (r : MojObjectReader) (b : bool) : MojObjectReader :=
  {| m_reader := m_reader r; m_stack := m_stack r; m_skipBeginObj := b; m_tokenSet := m_tokenSet r |}.

Definition readInt (bs : bytes) (marker : Z) : res (Z * bytes) :=
  if marker =? MarkerZeroIntValue then Ok (0, bs)
  else if marker =? MarkerUInt8Value then MojDataReader.readUInt8 bs
  else if marker =? MarkerUInt16Value then MojDataReader.readUInt16 bs
  else if marker =? MarkerUInt32Value then MojDataReader.readUInt32 bs
  else if (marker =? MarkerNegativeIntValue) || (marker =? MarkerInt64Value)
  then MojDataReader.readInt64 bs
  else Err MojErrObjectReaderUnexpectedMarker.

(** The characters up to the terminator, which is skipped too. *)
Fixpoint readString (bs : bytes) : res (mstring * bytes) :=
  match bs with
  | [] => Err MojErrUnexpectedEof
  | c :: bs' => if c =? 0 then Ok ([], bs') else let? (str, rest) := readString bs' in Ok (c :: str, rest)
  end.

Section next.
Context {S : Type} `{!Visitor S}.

Definition isIntMarker (marker : Z) : bool :=
  (MarkerNegativeIntValue <=? marker) && (marker <=? MarkerInt64Value).

(** [case StateValue]; the state has been popped. *)
Definition nextValue (r : MojObjectReader) (marker : Z) (visitor : S) : res (MojObjectReader * S) :=
  if marker =? MarkerObjectBegin then
    let r := with_stack r (StateObject :: m_stack r) in
    if negb (m_skipBeginObj r) then let? v := MojObjectVisitor.beginObject visitor in Ok (r, v)
    else Ok (skipBeginObj r false, visitor)
  else if marker =? MarkerArrayBegin then
    let r := with_stack r (StateArray :: m_stack r) in
    let? v := MojObjectVisitor.beginArray visitor in Ok (r, v)
  else if marker =? MarkerStringValue then
    let? (str, rest) := readString (m_reader r) in
    let? v := MojObjectVisitor.stringValue visitor str in Ok (with_reader r rest, v)
  else if marker =? MarkerNullValue then
    let? v := MojObjectVisitor.nullValue visitor in Ok (r, v)
  else if marker =? MarkerTrueValue then
    let? v := MojObjectVisitor.boolValue visitor true in Ok (r, v)
  else if marker =? MarkerFalseValue then
    let? v := MojObjectVisitor.boolValue visitor false in Ok (r, v)
  else if (marker =? MarkerNegativeDecimalValue) || (marker =? MarkerPositiveDecimalValue) then
    let? (val, rest) := MojDataReader.readDecimal (m_reader r) in
    let? v := MojObjectVisitor.decimalValue visitor val in Ok (with_reader r rest, v)
  else if isIntMarker marker then
    let? (val, rest) := readInt (m_reader r) marker in
    let? v := MojObjectVisitor.intValue visitor val in Ok (with_reader r rest, v)
  else if marker =? MarkerExtensionValue then
    let? (extSize, rest) := MojDataReader.readUInt32 (m_reader r) in
    let? rest := MojDataReader.skip rest (Z.to_nat extSize) in Ok (with_reader r rest, visitor)
  else match m_tokenSet r with
       | Some tokens =>
           let? val := MojTokenSet.stringFromToken tokens marker in
           let? v := MojObjectVisitor.stringValue visitor val in Ok (r, v)
       | None => Err MojErrObjectReaderUnexpectedMarker
       end.

(** [case StateObject]. *)
Definition nextObjectState (r : MojObjectReader) (marker : Z) (visitor : S) : res (MojObjectReader * S) :=
  if marker =? MarkerObjectEnd then
    let? v := MojObjectVisitor.endObject visitor in Ok (with_stack r (tl (m_stack r)), v)
  else if marker =? MarkerStringValue then
    let? (str, rest) := readString (m_reader r) in
    let? v := MojObjectVisitor.propName visitor str in
    Ok (with_stack (with_reader r rest) (StateValue :: m_stack r), v)
  else match m_tokenSet r with
       | Some tokens =>
           let? name := MojTokenSet.stringFromToken tokens marker in
           let? v := MojObjectVisitor.propName visitor name in
           Ok (with_stack r (StateValue :: m_stack r), v)
       | None => Err MojErrObjectReaderUnexpectedMarker
       end.

Definition next (r : MojObjectReader) (visitor : S) : res (MojObjectReader * S) :=
  let r := match m_stack r with [] => with_stack r [StateValue] | _ => r end in
  let? (marker, rest) := MojDataReader.readUInt8 (m_reader r) in
  let r := with_reader r rest in
  match m_stack r with
  | StateValue :: st => nextValue (with_stack r st) marker visitor
  | StateObject :: _ => nextObjectState r marker visitor
  | StateArray :: st =>
      if marker =? MarkerObjectEnd then
        let? v := MojObjectVisitor.endArray visitor in Ok (with_stack r st, v)
      else (* [push(StateValue)]; the value state pops it again *)
        nextValue r marker visitor
  | [] => Err AssertFailed
  end.

(** [while (hasNext()) next(visitor)].  Every turn reads a byte. *)
Fixpoint read_loop (fuel : nat) (r : MojObjectReader) (visitor : S) : res S :=
  if hasNext r then
    match fuel with
    | O => Err AssertFailed
    | Datatypes.S fuel' => let? (r, visitor) := next r visitor in read_loop fuel' r visitor
    end
  else Ok visitor.

Definition read (r : MojObjectReader) (visitor : S) : res S :=
  read_loop (length (m_reader r)) r visitor.

(** [do next(visitor) while (!m_stack.empty())]. *)
Fixpoint nextObject_loop (fuel : nat) (r : MojObjectReader) (visitor : S) : res (MojObjectReader * S) :=
  match fuel with
  | O => Err MojErrUnexpectedEof
  | Datatypes.S fuel' =>
      let? (r, visitor) := next r visitor in
      match m_stack r with [] => Ok (r, visitor) | _ => nextObject_loop fuel' r visitor end
  end.

(** With [n] bytes left the [n+1]st turn finds none and fails in [readUInt8]. *)
Definition nextObject (r : MojObjectReader) (visitor : S) : res (MojObjectReader * S) :=
  nextObject_loop (length (m_reader r) + 1) r visitor.

(** *** Every turn reads a byte, so the fuel is enough *)
Lemma readString_length bs s rest : readString bs = Ok (s, rest) -> (length rest < length bs)%nat.
Proof.
  revert s rest. induction bs as [|c bs IH]; intros s rest; simpl; [done|].
  destruct (c =? 0); [intros [= <- <-]; lia|].
  intros ([s' rest'] & E & [= <- <-])%res_bind_ok. apply IH in E. lia.
Qed.

Lemma readInt_length bs m v rest : readInt bs m = Ok (v, rest) -> (length rest <= length bs)%nat.
Proof.
  unfold readInt. intros H. repeat case_match; simplify_eq; try lia.
  - apply MojDataReader.readUInt8_length in H. lia.
  - by eapply MojDataReader.readUInt16_length.
  - by eapply MojDataReader.readUInt32_length.
  - by eapply MojDataReader.readInt64_length.
Qed.

Lemma nextValue_length r m v r' v' :
  nextValue r m v = Ok (r', v') -> (length (m_reader r') <= length (m_reader r))%nat.
Proof.
  unfold nextValue. intros H. res_inv; try lia;
    repeat match goal with
    | E : readString _ = Ok _ |- _ => apply readString_length in E
    | E : MojDataReader.readDecimal _ = Ok _ |- _ => apply MojDataReader.readInt64_length in E
    | E : readInt _ _ = Ok _ |- _ => apply readInt_length in E
    | E : MojDataReader.readUInt32 _ = Ok _ |- _ => apply MojDataReader.readUInt32_length in E
    | E : MojDataReader.skip _ _ = Ok _ |- _ => apply MojDataReader.skip_length in E
    end; lia.
Qed.

Lemma nextObjectState_length r m v r' v' :
  nextObjectState r m v = Ok (r', v') -> (length (m_reader r') <= length (m_reader r))%nat.
Proof.
  unfold nextObjectState. intros H. res_inv; try lia.
  apply readString_length in E. lia.
Qed.

Lemma next_length r v r' v' :
  next r v = Ok (r', v') -> (length (m_reader r') < length (m_reader r))%nat.
Proof.
  unfold next. intros H. apply res_bind_ok in H as ([m rest] & E & H).
  assert (length (m_reader r) = Datatypes.S (length rest)) as ->.
  { apply MojDataReader.readUInt8_length in E. by destruct (m_stack r). }
  apply Nat.lt_succ_r. destruct (m_stack r) as [|[] st] eqn:Es; cbn [with_reader with_stack m_stack] in H;
    rewrite ?Es in H.
  - by apply nextValue_length in H.
  - by apply nextValue_length in H.
  - by apply nextObjectState_length in H.
  - destruct (m =? MarkerObjectEnd); [by res_inv|]. by apply nextValue_length in H.
Qed.

Lemma read_loop_fuel f1 f2 r v :
  (length (m_reader r) <= f1)%nat -> (length (m_reader r) <= f2)%nat ->
  read_loop f1 r v = read_loop f2 r v.
Proof.
  revert f2 r v. induction f1 as [|f1 IH]; intros [|f2] r v H1 H2; simpl; unfold hasNext;
    destruct (m_reader r) as [|b bs] eqn:E; simpl in *; try done; try lia.
  destruct (next r v) as [[r' v']|e] eqn:N; simpl; [|done].
  apply next_length in N. rewrite E in N. simpl in N. apply IH; lia.
Qed.

(** [read] is the loop of the source. *)
Lemma read_eq r v : read r v =
  if hasNext r then let? (r, v) := next r v in read r v else Ok v.
Proof.
  unfold read. destruct (m_reader r) as [|b bs] eqn:E; cbn [length read_loop].
  - assert (hasNext r = false) as -> by (unfold hasNext; by rewrite E). done.
  - assert (hasNext r = true) as -> by (unfold hasNext; by rewrite E).
    destruct (next r v) as [[r' v']|e] eqn:N; cbn [res_bind]; [|done].
    apply next_length in N. rewrite E in N. simpl in N. apply read_loop_fuel; lia.
Qed.
End next.
End MojObjectReader.

(** ** Reading undoes writing

    [decodes need bs n pre post act]: [n] turns of the reader consume exactly
    [bs], take the stack from [pre st] to [post st] and show the visitor what
    [act] shows it, errors included.  [need] is the token vector required. *)
Module RoundTrip.
Import MojObjectReader.

Definition tok_ok (need : option (list mstring)) (r : MojObjectReader) : Prop :=
  match need with
  | None => True
  | Some vec => exists tv, m_tokenSet r = Some tv /\ vec `prefix_of` tv
  end.

Definition need_le (n1 n2 : option (list mstring)) : Prop :=
  match n1, n2 with
  | None, _ => True
  | Some v1, Some v2 => v1 `prefix_of` v2
  | Some _, None => False
  end.

Lemma need_le_refl n : need_le n n.
Proof. destruct n; simpl; [reflexivity|done]. Qed.

Lemma need_le_trans n1 n2 n3 : need_le n1 n2 -> need_le n2 n3 -> need_le n1 n3.
Proof. destruct n1, n2, n3; simpl; try done. apply transitivity. Qed.

Lemma tok_ok_le n1 n2 r : need_le n1 n2 -> tok_ok n2 r -> tok_ok n1 r.
Proof.
  destruct n1, n2; simpl; try done. intros H (tv & E & Hp). exists tv. split; [done|]. by etrans.
Qed.

Definition at_ (r : MojObjectReader) (bs : bytes) (st : list State) : MojObjectReader :=
  with_stack (with_reader r bs) st.

Abbreviation action := (forall S `{!Visitor S}, S -> res S).
Abbreviation stackf := (list State -> list State).

Definition decodes (need : option (list mstring)) (bs : bytes) (n : nat) (pre post : stackf) (act : action) : Prop :=
  (n <= length bs)%nat /\
  forall (S : Type) (VS : Visitor S) r rest st f (v : S),
    tok_ok need r -> m_skipBeginObj r = false ->
    read_loop (n + f) (at_ r (bs ++ rest) (pre st)) v =
      let? v := act S VS v in read_loop f (at_ r rest (post st)) v.

Lemma decodes_app need bs1 bs2 n1 n2 pre mid post a1 a2 :
  decodes need bs1 n1 pre mid a1 -> decodes need bs2 n2 mid post a2 ->
  decodes need (bs1 ++ bs2) (n1 + n2) pre post (fun S VS v => let? v := a1 S VS v in a2 S VS v).
Proof.
  intros [L1 H1] [L2 H2]. split; [rewrite length_app; lia|]. intros S VS r rest st f v Hr Hs.
  rewrite <- app_assoc, <- Nat.add_assoc, H1 by done. rewrite res_bind_assoc.
  apply res_bind_ext. intros v'. by apply H2.
Qed.

Lemma decodes_le need need' bs n pre post act :
  need_le need need' -> decodes need bs n pre post act -> decodes need' bs n pre post act.
Proof. intros Hl [L H]. split; [done|]. intros S VS r rest st f v Hr. apply H. by eapply tok_ok_le. Qed.

Lemma decodes_nil need pre : decodes need [] 0 pre pre (fun S VS v => Ok v).
Proof. split; [simpl; lia|]. by intros. Qed.

Lemma decodes_ext need bs n pre post (a1 a2 : action) :
  (forall S VS v, a1 S VS v = a2 S VS v) -> decodes need bs n pre post a1 -> decodes need bs n pre post a2.
Proof. intros E [L H]. split; [done|]. intros. rewrite <- E. by apply H. Qed.

(** One turn. *)
Lemma decodes_step need m bs pre post act :
  (forall (S : Type) (VS : Visitor S) r rest st (v : S), tok_ok need r -> m_skipBeginObj r = false ->
     next (at_ r (m :: bs ++ rest) (pre st)) v =
       let? v := act S VS v in Ok (at_ r rest (post st), v)) ->
  decodes need (m :: bs) 1 pre post act.
Proof.
  intros H. split; [simpl; lia|]. intros S VS r rest st f v Hr Hs.
  cbn [Nat.add read_loop]. change (hasNext _) with true. cbn match.
  change ((m :: bs) ++ rest) with (m :: bs ++ rest). rewrite H by done.
  rewrite res_bind_assoc. by apply res_bind_ext.
Qed.

(** In an array, a value starts without a state of its own. *)
Lemma decodes_in_array need m bs n act : m <> 0 -> (0 < n)%nat ->
  decodes need (m :: bs) n (cons StateValue) id act ->
  decodes need (m :: bs) n (cons StateArray) (cons StateArray) act.
Proof.
  intros Hm Hn [L H]. split; [done|]. intros S VS r rest st f v Hr Hs.
  etransitivity; [|exact (H S VS r rest (StateArray :: st) f v Hr Hs)].
  destruct n as [|n]; [lia|]. cbn [Nat.add read_loop]. change (hasNext _) with true. cbn match.
  f_equal. unfold next, at_. simpl. unfold MarkerObjectEnd. destruct (Z.eqb_spec m 0); [done|].
  done.
Qed.

Lemma readString_app s rest : str_ok s -> readString ((s ++ [0]) ++ rest) = Ok (s, rest).
Proof.
  rewrite <- app_assoc. change ([0] ++ rest) with (0 :: rest).
  induction 1 as [|c s Hc Hs IH]; simpl; [done|].
  destruct (Z.eqb_spec c 0); [lia|]. by rewrite IH.
Qed.

Lemma stringFromToken_ok need r token vec s :
  need = Some vec -> tok_ok need r -> TokenStartMarker <= token < MojUInt8Max ->
  vec !! Z.to_nat (token - TokenStartMarker) = Some s ->
  exists tv, m_tokenSet r = Some tv /\ MojTokenSet.stringFromToken tv token = Ok s.
Proof.
  intros -> (tv & Htv & Hp) Ht Hs. exists tv. split; [done|]. unfold MojTokenSet.stringFromToken.
  destruct (Z.ltb_spec token TokenStartMarker); [lia|]. by erewrite prefix_lookup_Some.
Qed.

Ltac eqb_false :=
  repeat match goal with
  | |- context [?a =? ?b] => rewrite (proj2 (Z.eqb_neq a b)) by lia
  end.

(** A token is above all markers. *)
Lemma token_not_marker token : TokenStartMarker <= token ->
  token <> MarkerObjectEnd /\ token <> MarkerStringValue /\
  forall {S : Type} {VS : Visitor S} r (v : S), nextValue r token v =
    match m_tokenSet r with
    | Some tokens =>
        let? val := MojTokenSet.stringFromToken tokens token in
        let? v := MojObjectVisitor.stringValue v val in Ok (r, v)
    | None => Err MojErrObjectReaderUnexpectedMarker
    end.
Proof.
  unfold TokenStartMarker, MarkerObjectEnd, MarkerStringValue. intros Ht. split; [lia|]. split; [lia|].
  intros S VS r v. unfold nextValue, isIntMarker, MarkerObjectBegin, MarkerArrayBegin, MarkerStringValue,
    MarkerNullValue, MarkerTrueValue, MarkerFalseValue, MarkerNegativeDecimalValue,
    MarkerPositiveDecimalValue, MarkerNegativeIntValue, MarkerInt64Value, MarkerExtensionValue.
  eqb_false. simpl orb. cbn match. rewrite (proj2 (Z.leb_gt token 14)) by lia.
  rewrite andb_false_r. by eqb_false.
Qed.

(** *** The writer's state *)
Section writer.
Context {W : Type} `{SharedTokenSetLaws W}.
Abbreviation writer := (MojObjectWriter.MojObjectWriter W).

Definition need_of (w : writer) : option (list mstring) :=
  match MojObjectWriter.m_tokenSet w with
  | Some t => Some (sts_vec (MojTokenSet.m_sharedTokenSet t))
  | None => None
  end.

Definition writer_ok (w : writer) : Prop :=
  match MojObjectWriter.m_tokenSet w with
  | Some t => sts_ok (MojTokenSet.m_sharedTokenSet t) /\
              snapshot_ok (sts_vec (MojTokenSet.m_sharedTokenSet t)) (MojTokenSet.m_obj t)
  | None => True
  end.

(** [w] has become [w'] by writing [bs], which starts with no end marker. *)
Definition wrote (w w' : writer) (bs : bytes) : Prop :=
  MojObjectWriter.m_writer w' = MojObjectWriter.m_writer w ++ bs /\
  writer_ok w' /\ need_le (need_of w) (need_of w') /\
  MojObjectWriter.m_populate w' = MojObjectWriter.m_populate w.

Lemma wrote_refl w : writer_ok w -> wrote w w [].
Proof. intros Hw. split; [by rewrite app_nil_r|]. split; [done|]. split; [apply need_le_refl|done]. Qed.

Lemma wrote_trans w1 w2 w3 b1 b2 : wrote w1 w2 b1 -> wrote w2 w3 b2 -> wrote w1 w3 (b1 ++ b2).
Proof.
  intros (E1 & O1 & L1 & P1) (E2 & O2 & L2 & P2). split; [by rewrite E2, E1, app_assoc|].
  split; [done|]. split; [by eapply need_le_trans|congruence].
Qed.

Lemma wrote_with_buf w bs : writer_ok w ->
  wrote w (MojObjectWriter.with_buf w (MojObjectWriter.m_writer w ++ bs)) bs.
Proof. intros Hw. split; [done|]. split; [exact Hw|]. split; [apply need_le_refl|done]. Qed.

(** The bytes of a value: a first byte that is no end marker, and their meaning. *)
Definition value_bytes (w' : writer) (bs : bytes) (act : action) : Prop :=
  exists m bs' n, bs = m :: bs' /\ m <> 0 /\ (0 < n)%nat /\
    decodes (need_of w') bs n (cons StateValue) id act.

Lemma value_bytes_1 w' m bs act : m <> 0 ->
  decodes (need_of w') (m :: bs) 1 (cons StateValue) id act -> value_bytes w' (m :: bs) act.
Proof. intros Hm Hd. exists m, bs, 1%nat. split; [done|]. split; [done|]. split; [lia|done]. Qed.

Lemma writeString_ok w w' s add : str_ok s -> writer_ok w ->
  MojObjectWriter.writeString w s add = Ok w' ->
  exists bs, wrote w w' bs /\
    value_bytes w' bs (fun S VS v => MojObjectVisitor.stringValue v s) /\
    decodes (need_of w') bs 1 (cons StateObject) (fun st => StateValue :: StateObject :: st)
      (fun S VS v => MojObjectVisitor.propName v s).
Proof.
  intros Hs Hw. unfold MojObjectWriter.writeString.
  assert (forall w0, wrote w w0 [] ->
    exists bs, wrote w (MojObjectWriter.writeUInt8 (MojObjectWriter.with_buf
       (MojObjectWriter.writeUInt8 w0 MarkerStringValue)
       (MojDataWriter.writeChars (MojObjectWriter.m_writer (MojObjectWriter.writeUInt8 w0 MarkerStringValue)) s)) 0) bs /\
    value_bytes (MojObjectWriter.writeUInt8 (MojObjectWriter.with_buf
       (MojObjectWriter.writeUInt8 w0 MarkerStringValue)
       (MojDataWriter.writeChars (MojObjectWriter.m_writer (MojObjectWriter.writeUInt8 w0 MarkerStringValue)) s)) 0)
       bs (fun S VS v => MojObjectVisitor.stringValue v s) /\
    decodes (need_of w0) bs 1 (cons StateObject) (fun st => StateValue :: StateObject :: st)
      (fun S VS v => MojObjectVisitor.propName v s)) as Hplain.
  { intros w0 (E & O & L & P). rewrite app_nil_r in E.
    exists (MarkerStringValue :: s ++ [0]). split; [|split].
    - split; [|done]. simpl. unfold MojDataWriter.writeUInt8, MojDataWriter.writeChars.
      by rewrite E, <- !app_assoc.
    - apply value_bytes_1; [done|]. apply decodes_step. intros S VS r rest st v _ _.
      unfold next, at_. simpl. unfold nextValue. simpl. rewrite readString_app by done. done.
    - apply decodes_step. intros S VS r rest st v _ _.
      unfold next, at_. simpl. unfold nextObjectState. simpl.
      rewrite readString_app by done. done. }
  destruct (MojObjectWriter.m_tokenSet w) as [t|] eqn:Et.
  - intros ([t' token] & Ef & E)%res_bind_ok.
    pose proof Hw as Hw0. unfold writer_ok in Hw0. rewrite Et in Hw0. destruct Hw0 as [Hok Hsnap].
    destruct (tokenFromString_ok _ _ _ _ _ Hok Hsnap Hs Ef) as (Hok' & Hp & Hsnap' & Ht).
    set (w0 := {| MojObjectWriter.m_writer := MojObjectWriter.m_writer w;
      MojObjectWriter.m_tokenSet := Some t'; MojObjectWriter.m_populate := MojObjectWriter.m_populate w |}) in *.
    assert (wrote w w0 []) as Hw0.
    { split; [by rewrite app_nil_r|]. split; [done|]. split; [|done]. unfold need_of. by rewrite Et. }
    destruct Ht as [->|[Ht Hlk]].
    + change (negb _) with false in E. cbn match in E. injection E as <-. exact (Hplain w0 Hw0).
    + pose proof (token_not_marker token ltac:(lia)) as (N1 & N2 & Nv).
      unfold MojTokenSet.InvalidToken, TokenStartMarker in *.
      rewrite (proj2 (Z.eqb_neq token 0)) in E by lia. cbn [negb] in E. injection E as <-.
      exists [token]. split; [|split].
      * apply (wrote_trans _ _ _ [] [token] Hw0). by apply wrote_with_buf.
      * apply value_bytes_1; [done|]. apply decodes_step. intros S VS r rest st v Hr _.
        destruct (stringFromToken_ok _ r token _ s eq_refl Hr Ht Hlk) as (tv & Htv & Hst).
        unfold next, at_. simpl. rewrite Nv. simpl. rewrite Htv, Hst. done.
      * apply decodes_step. intros S VS r rest st v Hr _.
        destruct (stringFromToken_ok _ r token _ s eq_refl Hr Ht Hlk) as (tv & Htv & Hst).
        unfold next, at_. simpl. unfold nextObjectState. simpl.
        rewrite (proj2 (Z.eqb_neq _ _) N1), (proj2 (Z.eqb_neq _ _) N2), Htv, Hst. done.
  - intros [= <-]. exact (Hplain w (wrote_refl w Hw)).
Qed.

(** A marker and the bytes of a number. *)
Lemma wrote_marker w marker bs : writer_ok w ->
  wrote w (MojObjectWriter.with_buf (MojObjectWriter.writeUInt8 w marker)
    (MojObjectWriter.m_writer (MojObjectWriter.writeUInt8 w marker) ++ bs)) (marker :: bs).
Proof.
  intros Hw. split; [simpl; unfold MojDataWriter.writeUInt8; by rewrite <- app_assoc|].
  split; [exact Hw|]. split; [apply need_le_refl|done].
Qed.

Lemma value_bytes_need w1 w2 bs act : need_of w1 = need_of w2 -> value_bytes w1 bs act -> value_bytes w2 bs act.
Proof. intros E (m & bs' & n & H1 & H2 & H3 & H4). exists m, bs', n. by rewrite <- E. Qed.

Lemma int_bytes w bs marker val :
  isIntMarker marker = true ->
  (forall rest, readInt (bs ++ rest) marker = Ok (val, rest)) ->
  value_bytes w (marker :: bs) (fun S VS v => MojObjectVisitor.intValue v val).
Proof.
  intros Hm Hr. pose proof Hm as Hm2. unfold isIntMarker, MarkerNegativeIntValue, MarkerInt64Value in Hm2.
  bool_lia. apply value_bytes_1; [lia|]. apply decodes_step. intros S VS r rest st v _ _.
  unfold next, at_. simpl. unfold nextValue, MarkerObjectBegin, MarkerArrayBegin, MarkerStringValue,
    MarkerNullValue, MarkerTrueValue, MarkerFalseValue, MarkerNegativeDecimalValue,
    MarkerPositiveDecimalValue. eqb_false. simpl orb. cbn match. rewrite Hm. simpl. rewrite Hr. done.
Qed.

Lemma intValue_ok w v : in_int 64 v -> writer_ok w ->
  exists bs, wrote w (MojObjectWriter.intValue w v) bs /\
    value_bytes (MojObjectWriter.intValue w v) bs (fun S VS vis => MojObjectVisitor.intValue vis v).
Proof.
  intros Hv Hw. unfold MojObjectWriter.intValue, MojUInt8Max, MojUInt16Max, MojUInt32Max.
  destruct (Z.ltb_spec v 0); [|destruct (Z.eqb_spec v 0) as [->|];
    [|destruct (Z.leb_spec v 255); [|destruct (Z.leb_spec v 65535); [|destruct (Z.leb_spec v 4294967295)]]]].
  - exists (MarkerNegativeIntValue :: toBigEndian 8 v). split; [by apply wrote_marker|].
    apply int_bytes; [done|]. intros rest. by apply readInt64_write.
  - exists [MarkerZeroIntValue]. split; [by apply wrote_with_buf|]. by apply int_bytes.
  - exists [MarkerUInt8Value; v]. rewrite to_uint_small by (unfold in_uint; lia).
    split; [by apply (wrote_marker w MarkerUInt8Value [v])|]. by apply int_bytes.
  - rewrite to_uint_small by (unfold in_uint; lia). exists (MarkerUInt16Value :: toBigEndian 2 v).
    split; [by apply wrote_marker|].
    apply int_bytes; [done|]. intros rest. apply readUInt16_write. unfold in_uint. lia.
  - rewrite to_uint_small by (unfold in_uint; lia). exists (MarkerUInt32Value :: toBigEndian 4 v).
    split; [by apply wrote_marker|].
    apply int_bytes; [done|]. intros rest. apply readUInt32_write. unfold in_uint. lia.
  - exists (MarkerInt64Value :: toBigEndian 8 v). split; [by apply wrote_marker|].
    apply int_bytes; [done|]. intros rest. by apply readInt64_write.
Qed.

Lemma decimalValue_ok w v : in_int 64 v -> writer_ok w ->
  exists bs, wrote w (MojObjectWriter.decimalValue w v) bs /\
    value_bytes (MojObjectWriter.decimalValue w v) bs (fun S VS vis => MojObjectVisitor.decimalValue vis v).
Proof.
  intros Hv Hw. unfold MojObjectWriter.decimalValue.
  exists ((if v <? 0 then MarkerNegativeDecimalValue else MarkerPositiveDecimalValue) :: toBigEndian 8 v).
  split; [by apply wrote_marker|]. apply value_bytes_1; [by destruct (v <? 0)|].
  apply decodes_step. intros S VS r rest st vis _ _.
  generalize (readInt64_write v rest Hv). generalize (toBigEndian 8 v ++ rest) as bs. intros bs Hr.
  unfold next, at_. simpl.
  destruct (v <? 0); unfold nextValue; cbn -[MojDataReader.readInt64]; unfold MojDataReader.readDecimal;
    by rewrite Hr.
Qed.

(** One byte, no operand. *)
Lemma marker_bytes w marker act : writer_ok w -> marker <> 0 ->
  (forall (S : Type) (VS : Visitor S) r (v : S), m_skipBeginObj r = false ->
     nextValue r marker v = let? v := act S VS v in Ok (r, v)) ->
  exists bs, wrote w (MojObjectWriter.writeUInt8 w marker) bs /\
    value_bytes (MojObjectWriter.writeUInt8 w marker) bs act.
Proof.
  intros Hw Hm Hn. exists [marker]. split; [by apply wrote_with_buf|].
  apply value_bytes_1; [done|]. apply decodes_step. intros S VS r rest st v _ Hs.
  unfold next, at_. simpl. by rewrite Hn.
Qed.

(** *** Containers *)
Definition visit_ok (o : MojObject) : Prop := forall w w', writer_ok w ->
  MojObject.visit o w = Ok w' ->
  exists bs, wrote w w' bs /\ value_bytes w' bs (fun S VS v => MojObject.visit o v).

Lemma elements_ok vec : Forall visit_ok vec -> forall w w', writer_ok w ->
  res_fold (fun v i => MojObject.visit i v) w vec = Ok w' ->
  exists bs n, wrote w w' bs /\ decodes (need_of w') bs n (cons StateArray) (cons StateArray)
    (fun S VS v => res_fold (fun v i => MojObject.visit i v) v vec).
Proof.
  induction 1 as [|o vec Ho Hvec IH]; intros w w' Hw.
  - intros [= <-]. exists [], 0%nat. split; [by apply wrote_refl|]. apply decodes_nil.
  - cbn [res_fold]. intros (w1 & E1 & E2)%res_bind_ok.
    destruct (Ho _ _ Hw E1) as (bs1 & W1 & m & bs1' & n1 & -> & Hm & Hn & D1).
    destruct (IH w1 w' ltac:(apply W1) E2) as (bs2 & n2 & W2 & D2).
    exists ((m :: bs1') ++ bs2), (n1 + n2)%nat. split; [by eapply wrote_trans|].
    eapply decodes_app; [|exact D2]. apply (decodes_in_array _ m); [done|lia|].
    eapply decodes_le; [|exact D1]. apply W2.
Qed.

Lemma props_ok m : Forall (fun kv => str_ok kv.1 /\ visit_ok kv.2) m -> forall w w', writer_ok w ->
  res_fold (fun v i => let? v := MojObjectVisitor.propName v i.1 in MojObject.visit i.2 v) w m = Ok w' ->
  exists bs n, wrote w w' bs /\ decodes (need_of w') bs n (cons StateObject) (cons StateObject)
    (fun S VS v => res_fold (fun v i => let? v := MojObjectVisitor.propName v i.1 in
                                        MojObject.visit i.2 v) v m).
Proof.
  induction 1 as [|[k o] m [Hk Ho] Hm IH]; intros w w' Hw.
  - intros [= <-]. exists [], 0%nat. split; [by apply wrote_refl|]. apply decodes_nil.
  - cbn [res_fold fst snd] in *. intros (w2 & (w1 & E0 & E1)%res_bind_ok & E2)%res_bind_ok.
    destruct (writeString_ok w w1 k (MojObjectWriter.m_populate w) Hk Hw E0) as (bs0 & W0 & _ & D0).
    destruct (Ho w1 w2 ltac:(apply W0) E1) as (bs1 & W1 & m1 & bs1' & n1 & -> & _ & _ & D1).
    destruct (IH w2 w' ltac:(apply W1) E2) as (bs2 & n2 & W2 & D2).
    exists ((bs0 ++ m1 :: bs1') ++ bs2), ((1 + n1) + n2)%nat.
    split; [eapply wrote_trans; [by eapply wrote_trans|done]|].
    eapply decodes_app; [|exact D2]. eapply decodes_app with (mid := fun st => StateValue :: StateObject :: st).
    + eapply decodes_le; [|exact D0]. eapply need_le_trans; [apply W1|apply W2].
    + destruct D1 as [L1 D1]. split; [done|]. intros S VS r rest st f v Hr Hs.
      apply (D1 S VS r rest (StateObject :: st)); [|done]. eapply tok_ok_le; [|exact Hr]. apply W2.
Qed.

(** The end marker, in both kinds of container. *)
Lemma decodes_end need act state : (state = StateObject /\ act = (fun S VS v => MojObjectVisitor.endObject v)) \/
  (state = StateArray /\ act = (fun S VS v => MojObjectVisitor.endArray v)) ->
  decodes need [MarkerObjectEnd] 1 (cons state) id act.
Proof.
  intros [[-> ->]|[-> ->]]; apply decodes_step; intros S VS r rest st v _ _;
    unfold next, at_; simpl; [unfold nextObjectState|]; done.
Qed.

Lemma container_ok w w1 w2 begin body n state act :
  writer_ok w -> begin <> 0 ->
  wrote (MojObjectWriter.writeUInt8 w begin) w1 body ->
  w2 = MojObjectWriter.writeUInt8 w1 MarkerObjectEnd ->
  forall abegin aend : action,
  (forall (S : Type) (VS : Visitor S) r (v : S), m_skipBeginObj r = false ->
     nextValue r begin v = let? v := abegin S VS v in Ok (with_stack r (state :: m_stack r), v)) ->
  decodes (need_of w1) body n (cons state) (cons state) act ->
  decodes (need_of w1) [MarkerObjectEnd] 1 (cons state) id aend ->
  exists bs, wrote w w2 bs /\
    value_bytes w2 bs (fun S VS v => let? v := abegin S VS v in let? v := act S VS v in aend S VS v).
Proof.
  intros Hw Hb W1 -> abegin aend Hbegin D1 D2.
  exists ([begin] ++ (body ++ [MarkerObjectEnd])). split.
  { eapply wrote_trans; [by apply wrote_with_buf|]. eapply wrote_trans; [exact W1|].
    apply wrote_with_buf, W1. }
  exists begin, (body ++ [MarkerObjectEnd]), (1 + (n + 1))%nat. split; [done|]. split; [done|].
  split; [lia|]. change (begin :: ?l) with ([begin] ++ l).
  apply (decodes_app _ [begin] (body ++ [MarkerObjectEnd]) 1 (n + 1) (cons StateValue) (cons state) id abegin
    (fun S VS v => let? v := act S VS v in aend S VS v)).
  - apply decodes_step. intros S VS r rest st v _ Hs. unfold next, at_. simpl. by rewrite Hbegin.
  - exact (decodes_app _ _ _ _ _ _ _ _ _ _ D1 D2).
Qed.

Lemma visit_writer_ok o : MojObject.ok o -> visit_ok o.
Proof.
  induction o as [| |s|b|r|v|m IH|v IH] using MojObject_nested_ind; intros Ho w w' Hw E.
  - injection E as <-. by apply marker_bytes.
  - injection E as <-. by apply marker_bytes.
  - destruct (writeString_ok w w' s false Ho Hw E) as (bs & W1 & V & _). by exists bs.
  - injection E as <-. by destruct b; apply marker_bytes.
  - injection E as <-. by apply decimalValue_ok.
  - injection E as <-. by apply intValue_ok.
  - apply MojObject.ok_object in Ho as [_ Hf]. cbn [MojObject.visit] in *.
    apply res_bind_ok in E as (w0 & E0 & E). apply res_bind_ok in E as (w1 & E1 & E2).
    injection E0 as <-. injection E2 as <-.
    destruct (props_ok m) with (w := MojObjectWriter.writeUInt8 w MarkerObjectBegin) (w' := w1)
      as (bs & n & W1 & D1); [|exact Hw|exact E1|].
    { rewrite Forall_forall in *. intros kv Hkv. destruct (Hf _ Hkv). auto. }
    apply (container_ok w w1 _ MarkerObjectBegin bs n StateObject _ Hw) with
      (abegin := fun S VS v => MojObjectVisitor.beginObject v)
      (aend := fun S VS v => MojObjectVisitor.endObject v); try done.
    + intros S VS r v Hs. unfold nextValue. simpl. by rewrite Hs.
    + apply decodes_end. auto.
  - apply MojObject.ok_array in Ho. cbn [MojObject.visit] in *.
    apply res_bind_ok in E as (w0 & E0 & E). apply res_bind_ok in E as (w1 & E1 & E2).
    injection E0 as <-. injection E2 as <-.
    destruct (elements_ok v) with (w := MojObjectWriter.writeUInt8 w MarkerArrayBegin) (w' := w1)
      as (bs & n & W1 & D1); [|exact Hw|exact E1|].
    { rewrite Forall_forall in *. auto. }
    apply (container_ok w w1 _ MarkerArrayBegin bs n StateArray _ Hw) with
      (abegin := fun S VS v => MojObjectVisitor.beginArray v)
      (aend := fun S VS v => MojObjectVisitor.endArray v); try done.
    apply decodes_end. auto.
Qed.
End writer.
End RoundTrip.

(** ** The encoding without tokens, as a function *)
Module Encoding.
Definition int_enc (val : Z) : bytes :=
  if val <? 0 then MarkerNegativeIntValue :: toBigEndian 8 val
  else if val =? 0 then [MarkerZeroIntValue]
  else if val <=? MojUInt8Max then [MarkerUInt8Value; val]
  else if val <=? MojUInt16Max then MarkerUInt16Value :: toBigEndian 2 val
  else if val <=? MojUInt32Max then MarkerUInt32Value :: toBigEndian 4 val
  else MarkerInt64Value :: toBigEndian 8 val.

Definition decimal_enc (rep : Z) : bytes :=
  (if rep <? 0 then MarkerNegativeDecimalValue else MarkerPositiveDecimalValue) :: toBigEndian 8 rep.

Definition string_enc (s : mstring) : bytes := MarkerStringValue :: s ++ [0].

Fixpoint enc (o : MojObject) : bytes :=
  match o with
  | UndefinedImpl | NullImpl => [MarkerNullValue]
  | ObjectImpl m => MarkerObjectBegin :: flat_map (fun kv => string_enc kv.1 ++ enc kv.2) m ++ [MarkerObjectEnd]
  | ArrayImpl v => MarkerArrayBegin :: flat_map enc v ++ [MarkerObjectEnd]
  | StringImpl s => string_enc s
  | BoolImpl b => [if b then MarkerTrueValue else MarkerFalseValue]
  | DecimalImpl r => decimal_enc r
  | IntImpl v => int_enc v
  end.

Section writer.
Context {W : Type} `{!MojSharedTokenSet.MojSharedTokenSet W}.
Abbreviation writer := (MojObjectWriter.MojObjectWriter W).
Abbreviation append w bs := (MojObjectWriter.with_buf w (MojObjectWriter.m_writer w ++ bs)).

Lemma append_append (w : writer) b1 b2 :
  MojObjectWriter.with_buf (append w b1) (MojObjectWriter.m_writer (append w b1) ++ b2) = append w (b1 ++ b2).
Proof. unfold MojObjectWriter.with_buf. simpl. by rewrite app_assoc. Qed.

Lemma writeString_enc (w : writer) s add : MojObjectWriter.m_tokenSet w = None ->
  MojObjectWriter.writeString w s add = Ok (append w (string_enc s)).
Proof.
  intros Hw. unfold MojObjectWriter.writeString. rewrite Hw. f_equal.
  unfold MojObjectWriter.writeUInt8, MojObjectWriter.with_buf, MojDataWriter.writeUInt8, MojDataWriter.writeChars.
  simpl. f_equal. by rewrite <- !app_assoc.
Qed.

Lemma intValue_enc (w : writer) v : in_int 64 v -> MojObjectWriter.intValue w v = append w (int_enc v).
Proof.
  intros Hv. unfold MojObjectWriter.intValue, int_enc, MojUInt8Max, MojUInt16Max, MojUInt32Max.
  unfold MojObjectWriter.writeUInt8, MojObjectWriter.with_buf, MojDataWriter.writeUInt8,
    MojDataWriter.writeInt64, MojDataWriter.writeUInt16, MojDataWriter.writeUInt32.
  destruct (Z.ltb_spec v 0); [|destruct (Z.eqb_spec v 0) as [->|];
    [|destruct (Z.leb_spec v 255); [|destruct (Z.leb_spec v 65535); [|destruct (Z.leb_spec v 4294967295)]]]];
    rewrite ?to_uint_small by (unfold in_uint; lia); cbn [MojObjectWriter.m_writer MojObjectWriter.m_tokenSet
      MojObjectWriter.m_populate]; rewrite <- ?app_assoc; done.
Qed.

Lemma visit_enc o : MojObject.ok o -> forall w : writer, MojObjectWriter.m_tokenSet w = None ->
  MojObject.visit o w = Ok (append w (enc o)).
Proof.
  induction o as [| |s|b|r|v|m IH|v IH] using MojObject_nested_ind; intros Ho w Hw; try done.
  - simpl. by rewrite writeString_enc.
  - change (MojObject.visit (DecimalImpl r) w) with (Ok (MojObjectWriter.decimalValue w r)).
    unfold MojObjectWriter.decimalValue, MojObjectWriter.writeUInt8, MojObjectWriter.with_buf,
      MojDataWriter.writeUInt8, MojDataWriter.writeDecimal, MojDataWriter.writeInt64.
    cbn [MojObjectWriter.m_writer MojObjectWriter.m_tokenSet MojObjectWriter.m_populate].
    by rewrite <- app_assoc.
  - change (MojObject.visit (IntImpl v) w) with (Ok (MojObjectWriter.intValue w v)). by rewrite intValue_enc.
  - apply MojObject.ok_object in Ho as [_ Hf]. cbn [MojObject.visit enc].
    change (MojObjectVisitor.beginObject w) with (Ok (append w [MarkerObjectBegin])). cbn [res_bind].
    assert (forall w : writer, MojObjectWriter.m_tokenSet w = None ->
      res_fold (fun v i => let? v := MojObjectVisitor.propName v i.1 in MojObject.visit i.2 v) w m =
      Ok (append w (flat_map (fun kv => string_enc kv.1 ++ enc kv.2) m))) as ->; [| |done].
    + clear w Hw. induction m as [|[k x] m IHm]; intros w Hw; cbn [res_fold flat_map].
      * unfold MojObjectWriter.with_buf. rewrite app_nil_r. by destruct w.
      * apply Forall_cons in IH as [IH1 IH2], Hf as [[_ Hf1] Hf2]. cbn [fst snd] in *.
        change (MojObjectVisitor.propName w k) with (MojObjectWriter.writeString w k (MojObjectWriter.m_populate w)).
        rewrite writeString_enc by done. cbn [res_bind]. rewrite IH1 by done. cbn [res_bind].
        rewrite append_append, IHm by done. by rewrite append_append.
    + cbn [res_bind]. rewrite append_append.
      change (MojObjectVisitor.endObject ?w) with (Ok (append w [MarkerObjectEnd])). by rewrite append_append.
  - apply MojObject.ok_array in Ho. cbn [MojObject.visit enc].
    change (MojObjectVisitor.beginArray w) with (Ok (append w [MarkerArrayBegin])). cbn [res_bind].
    assert (forall w : writer, MojObjectWriter.m_tokenSet w = None ->
      res_fold (fun v i => MojObject.visit i v) w v = Ok (append w (flat_map enc v))) as ->; [| |done].
    + clear w Hw. induction v as [|x v IHv]; intros w Hw; cbn [res_fold flat_map].
      * unfold MojObjectWriter.with_buf. rewrite app_nil_r. by destruct w.
      * apply Forall_cons in IH as [IH1 IH2], Ho as [Ho1 Ho2].
        rewrite IH1 by done. cbn [res_bind]. rewrite IHv by done. by rewrite append_append.
    + cbn [res_bind]. rewrite append_append.
      change (MojObjectVisitor.endArray ?w) with (Ok (append w [MarkerObjectEnd])). by rewrite append_append.
Qed.
End writer.

(** The sizes the writer announces are those of what it writes. *)
Lemma int_enc_size v : MojObjectWriter.intSize v = Z.of_nat (length (int_enc v)).
Proof. unfold MojObjectWriter.intSize, int_enc. repeat case_match; done. Qed.

(** *** Order *)
Definition pc (x y : bytes) (c : Z) : Prop := forall r1 r2,
  Z.sgn (lexcmp (x ++ r1) (y ++ r2)) = if c =? 0 then Z.sgn (lexcmp r1 r2) else Z.sgn c.

Lemma pc_sgn x y c c' : Z.sgn c = Z.sgn c' -> pc x y c -> pc x y c'.
Proof.
  intros E H r1 r2. rewrite H. destruct (Z.eqb_spec c 0), (Z.eqb_spec c' 0); lia.
Qed.

Lemma pc_nil : pc [] [] 0.
Proof. by intros r1 r2. Qed.

Lemma pc_app x1 y1 c1 x2 y2 c2 :
  pc x1 y1 c1 -> pc x2 y2 c2 -> pc (x1 ++ x2) (y1 ++ y2) (if c1 =? 0 then c2 else c1).
Proof.
  intros H1 H2 r1 r2. rewrite <- !app_assoc, H1. destruct (Z.eqb_spec c1 0); [apply H2|].
  by destruct (Z.eqb_spec c1 0).
Qed.

Lemma pc_cons a b x y c : pc x y c -> pc (a :: x) (b :: y) (if a =? b then c else a - b).
Proof.
  intros H r1 r2. simpl. pose proof (MojComp_spec a b). specialize (H r1 r2).
  destruct (Z.eqb_spec (MojComp a b) 0), (Z.eqb_spec a b); simpl; try lia.
  destruct (Z.eqb_spec (a - b) 0); lia.
Qed.

Lemma pc_head a b x y : a <> b -> pc (a :: x) (b :: y) (a - b).
Proof.
  intros H r1 r2. simpl. pose proof (MojComp_spec a b).
  destruct (Z.eqb_spec (MojComp a b) 0), (Z.eqb_spec (a - b) 0); simpl; lia.
Qed.

Lemma pc_same a x y c : pc x y c -> pc (a :: x) (a :: y) c.
Proof. intros H. pose proof (pc_cons a a x y c H) as P. by rewrite Z.eqb_refl in P. Qed.

Lemma pc_string s1 s2 : str_ok s1 -> str_ok s2 -> pc (s1 ++ [0]) (s2 ++ [0]) (MojStrCmp s1 s2).
Proof.
  intros H1. revert s2. induction H1 as [|c s1 Hc Hs IH]; intros s2 H2; destruct H2 as [|d s2 Hd Hs2]; simpl.
  - apply pc_same, pc_nil.
  - apply (pc_head 0 d). lia.
  - apply (pc_head c 0). lia.
  - destruct (Z.eqb_spec c d) as [->|]; simpl; [|by apply pc_head].
    destruct (Z.eqb_spec d 0); [lia|]. by apply pc_same, IH.
Qed.

Lemma pc_bigEndian n a b : pc (toBigEndian n a) (toBigEndian n b)
  (a mod 2 ^ (8 * Z.of_nat n) - b mod 2 ^ (8 * Z.of_nat n)).
Proof.
  intros r1 r2. rewrite toBigEndian_lexcmp. cbv zeta.
  destruct (Z.eqb_spec (a mod 2 ^ (8 * Z.of_nat n)) (b mod 2 ^ (8 * Z.of_nat n))),
    (Z.eqb_spec (a mod 2 ^ (8 * Z.of_nat n) - b mod 2 ^ (8 * Z.of_nat n)) 0); lia.
Qed.

Lemma pc_unsigned n a b : 0 <= a < 2 ^ (8 * Z.of_nat n) -> 0 <= b < 2 ^ (8 * Z.of_nat n) ->
  pc (toBigEndian n a) (toBigEndian n b) (MojComp a b).
Proof.
  intros Ha Hb. eapply pc_sgn; [|apply pc_bigEndian]. rewrite !Z.mod_small by done.
  symmetry. apply MojComp_spec.
Qed.

Lemma pc_negative a b : - 2 ^ 63 <= a < 0 -> - 2 ^ 63 <= b < 0 ->
  pc (toBigEndian 8 a) (toBigEndian 8 b) (MojComp a b).
Proof.
  intros Ha Hb. eapply pc_sgn; [|apply pc_bigEndian]. rewrite MojComp_spec.
  change (8 * Z.of_nat 8) with 64.
  rewrite <- (Z_mod_plus_full a 1), <- (Z_mod_plus_full b 1), !Z.mod_small by lia. f_equal. lia.
Qed.

Lemma pc_mixed a b x y c : a <> b -> Z.sgn (a - b) = Z.sgn c -> pc (a :: x) (b :: y) c.
Proof. intros H E. eapply pc_sgn; [exact E|by apply pc_head]. Qed.

Lemma pc_int a b : in_int 64 a -> in_int 64 b -> pc (int_enc a) (int_enc b) (MojComp a b).
Proof.
  unfold in_int. intros Ha Hb. unfold int_enc, MojUInt8Max, MojUInt16Max, MojUInt32Max.
  pose proof (MojComp_spec a b) as M.
  destruct (Z.ltb_spec a 0); [|destruct (Z.eqb_spec a 0);
    [|destruct (Z.leb_spec a 255); [|destruct (Z.leb_spec a 65535); [|destruct (Z.leb_spec a 4294967295)]]]];
  (destruct (Z.ltb_spec b 0); [|destruct (Z.eqb_spec b 0);
    [|destruct (Z.leb_spec b 255); [|destruct (Z.leb_spec b 65535); [|destruct (Z.leb_spec b 4294967295)]]]]);
  try (apply pc_mixed; [done|]; rewrite M;
       unfold MarkerNegativeIntValue, MarkerZeroIntValue, MarkerUInt8Value, MarkerUInt16Value,
         MarkerUInt32Value, MarkerInt64Value; lia);
  apply pc_same.
  - apply pc_negative; lia.
  - subst. apply pc_nil.
  - eapply pc_sgn; [|apply pc_cons, pc_nil]. rewrite M. destruct (Z.eqb_spec a b); lia.
  - apply pc_unsigned; simpl; lia.
  - apply pc_unsigned; simpl; lia.
  - apply pc_unsigned; simpl; lia.
Qed.

Lemma pc_decimal a b : in_int 64 a -> in_int 64 b -> pc (decimal_enc a) (decimal_enc b) (MojComp a b).
Proof.
  unfold in_int. intros Ha Hb. unfold decimal_enc. pose proof (MojComp_spec a b) as M.
  destruct (Z.ltb_spec a 0), (Z.ltb_spec b 0).
  - apply pc_same, pc_negative; lia.
  - apply pc_mixed; [done|]. rewrite M. unfold MarkerNegativeDecimalValue, MarkerPositiveDecimalValue. lia.
  - apply pc_mixed; [done|]. rewrite M. unfold MarkerNegativeDecimalValue, MarkerPositiveDecimalValue. lia.
  - apply pc_same, pc_unsigned; simpl; lia.
Qed.

(** Sequences closed by the end marker, which is below every first byte. *)
Lemma pc_list {A} (e : A -> bytes) (C : A -> A -> Z) l1 l2 :
  (forall x, x ∈ l1 ++ l2 -> exists m bs, e x = m :: bs /\ 0 < m) ->
  Forall (fun x => forall y, y ∈ l2 -> pc (e x) (e y) (C x y)) l1 ->
  pc (flat_map e l1 ++ [MarkerObjectEnd]) (flat_map e l2 ++ [MarkerObjectEnd]) (MojVector.compare C l1 l2).
Proof.
  unfold MarkerObjectEnd. revert l2. induction l1 as [|x l1 IH]; intros [|y l2] He H; simpl.
  - apply pc_same, pc_nil.
  - destruct (He y) as (m & bs & -> & Hm); [set_solver|]. apply pc_mixed; [lia|]. lia.
  - destruct (He x) as (m & bs & -> & Hm); [set_solver|]. apply pc_mixed; [lia|]. lia.
  - apply Forall_cons in H as [Hx H]. rewrite <- !app_assoc.
    pose proof (pc_app _ _ _ _ _ _ (Hx y ltac:(set_solver)) (IH l2 ltac:(intros; apply He; set_solver)
      ltac:(eapply Forall_impl; [exact H|]; intros z Hz w Hw; apply Hz; set_solver))) as P.
    by destruct (Z.eqb_spec (C x y) 0).
Qed.

(** The bytes between which the types' encodings start. *)
Definition lo (t : MojObject.Type_) : Z :=
  match t with
  | MojObject.TypeUndefined => 1 | MojObject.TypeNull => 1 | MojObject.TypeObject => 2
  | MojObject.TypeArray => 3 | MojObject.TypeString => 4 | MojObject.TypeBool => 5
  | MojObject.TypeDecimal => 7 | MojObject.TypeInt => 9
  end.
Definition hi (t : MojObject.Type_) : Z :=
  match t with
  | MojObject.TypeUndefined => 1 | MojObject.TypeNull => 1 | MojObject.TypeObject => 2
  | MojObject.TypeArray => 3 | MojObject.TypeString => 4 | MojObject.TypeBool => 6
  | MojObject.TypeDecimal => 8 | MojObject.TypeInt => 14
  end.

Lemma enc_first o : exists m bs, enc o = m :: bs /\ lo (MojObject.type o) <= m <= hi (MojObject.type o).
Proof.
  destruct o as [| |m|v|s|b|r|v]; simpl; unfold decimal_enc, int_enc; repeat case_match;
    (do 2 eexists; split; [reflexivity|]);
    unfold MarkerNullValue, MarkerObjectBegin, MarkerArrayBegin, MarkerStringValue, MarkerTrueValue,
      MarkerFalseValue, MarkerNegativeDecimalValue, MarkerPositiveDecimalValue, MarkerNegativeIntValue,
      MarkerZeroIntValue, MarkerUInt8Value, MarkerUInt16Value, MarkerUInt32Value, MarkerInt64Value; lia.
Qed.

Lemma enc_head o : exists m bs, enc o = m :: bs /\ 0 < m.
Proof.
  destruct (enc_first o) as (m & bs & E & H). exists m, bs. split; [done|].
  destruct (MojObject.type o); simpl in *; lia.
Qed.

Lemma pc_types a b : MojObject.type a <> MojObject.TypeUndefined -> MojObject.type b <> MojObject.TypeUndefined ->
  MojObject.type a <> MojObject.type b ->
  pc (enc a) (enc b) (MojObject.type_code (MojObject.type a) - MojObject.type_code (MojObject.type b)).
Proof.
  intros Ha Hb Hab. destruct (enc_first a) as (m1 & bs1 & -> & H1), (enc_first b) as (m2 & bs2 & -> & H2).
  assert (m1 <> m2 /\ Z.sgn (m1 - m2) =
    Z.sgn (MojObject.type_code (MojObject.type a) - MojObject.type_code (MojObject.type b))) as [N E].
  { destruct (MojObject.type a), (MojObject.type b); simpl in *; try done; lia. }
  by apply pc_mixed.
Qed.

Lemma pc_enc a b : MojObject.ok a -> MojObject.ok b -> MojObjectBuilder.defined a -> MojObjectBuilder.defined b ->
  pc (enc a) (enc b) (MojObject.compare a b).
Proof.
  revert b. induction a as [| |s|c|r|v|m IH|v IH] using MojObject_nested_ind; intros b Ha Hb Da Db; [done|..];
    (destruct (decide (MojObject.type b = MojObject.TypeUndefined)) as [E|Hu]; [by destruct b|]);
    match goal with |- pc (enc ?a) _ _ =>
      destruct (decide (MojObject.type a = MojObject.type b)) as [E|E];
      [|pose proof (pc_types a b ltac:(done) Hu E) as P; by destruct b] end;
    destruct b as [| |m2|v2|s2|c2|r2|w2]; try done; clear E Hu; simpl.
  - by apply pc_same, pc_string.
  - by destruct c, c2; (apply pc_mixed; [done|reflexivity]) || apply pc_same, pc_nil.
  - by apply pc_decimal.
  - by apply pc_int.
  - apply MojObject.ok_object in Ha as [_ Ha], Hb as [_ Hb].
    apply MojObjectBuilder.defined_object in Da, Db. rewrite Forall_forall in *.
    apply pc_same, (pc_list (fun kv => string_enc kv.1 ++ enc kv.2) (MojMap.compareFull MojStrCmp MojObject.compare)).
    + intros [k x] _. by eexists _, _.
    + apply Forall_forall. intros [k x] Hx [k2 x2] Hx2. unfold MojMap.compareFull; simpl.
      destruct (Ha _ Hx), (Hb _ Hx2). apply (pc_app (string_enc k) (string_enc k2)).
      * by apply pc_same, pc_string.
      * apply (IH (k, x)); try done; [by apply (Da (k, x))|by apply (Db (k2, x2))].
  - apply MojObject.ok_array in Ha, Hb. apply MojObjectBuilder.defined_array in Da, Db.
    rewrite Forall_forall in *. apply pc_same, pc_list.
    + intros x _. apply enc_head.
    + apply Forall_forall. intros x Hx y Hy. apply IH; auto.
Qed.
End Encoding.

(** ** Objects to and from bytes *)
Module ObjectBytes.
Definition toBytes (o : MojObject) : res bytes :=
  let? w := MojObject.visit o (MojObjectWriter.init : MojObjectWriter.MojObjectWriter unit) in
  Ok (MojObjectWriter.m_writer w).

Definition fromBytes (bs : bytes) : res MojObject :=
  let? b := MojObjectReader.read (MojObjectReader.data bs) MojObjectBuilder.init in
  Ok (MojObjectBuilder.m_obj b).

Lemma toBytes_enc o : MojObject.ok o -> toBytes o = Ok (Encoding.enc o).
Proof. intros Ho. unfold toBytes. by rewrite Encoding.visit_enc. Qed.

(** A reader at the start of what a writer wrote shows the object. *)
Lemma read_value_bytes {W} `{SharedTokenSetLaws W} (w' : MojObjectWriter.MojObjectWriter W) bs act
    {S} {VS : Visitor S} r (v : S) :
  RoundTrip.value_bytes w' bs act -> MojObjectReader.m_reader r = bs ->
  MojObjectReader.m_stack r = [] -> MojObjectReader.m_skipBeginObj r = false ->
  RoundTrip.tok_ok (RoundTrip.need_of w') r ->
  MojObjectReader.read r v = act S VS v.
Proof.
  intros (m & bs' & n & -> & Hm & Hn & [L D]) Hr Hs Hk Ht. unfold MojObjectReader.read. rewrite Hr.
  specialize (D S VS r [] [] (length (m :: bs') - n)%nat v Ht Hk). rewrite app_nil_r in D.
  replace (n + (length (m :: bs') - n))%nat with (length (m :: bs')) in D by lia.
  etransitivity; [|etransitivity; [exact D|]].
  - cbn [length MojObjectReader.read_loop]. unfold MojObjectReader.hasNext at 1. rewrite Hr.
    change (MojObjectReader.hasNext (RoundTrip.at_ _ _ _)) with true. cbn match. f_equal.
    unfold MojObjectReader.next, RoundTrip.at_. rewrite Hs. simpl. rewrite Hr. done.
  - rewrite <- (res_bind_ret (act S VS v)) at 2. apply res_bind_ext. intros v'.
    by destruct (length (m :: bs') - n)%nat.
Qed.

Lemma fromBytes_enc o : MojObject.ok o -> fromBytes (Encoding.enc o) = Ok (MojObjectBuilder.norm o).
Proof.
  intros Ho. pose proof (Encoding.visit_enc (W := unit) o Ho MojObjectWriter.init eq_refl) as E.
  destruct (RoundTrip.visit_writer_ok (W := unit) o Ho MojObjectWriter.init _ I E) as (bs & [Hw _] & Hv).
  unfold fromBytes. rewrite (read_value_bytes _ _ _ (MojObjectReader.data (Encoding.enc o)) _ Hv); [|exact Hw|done..].
  by rewrite MojObjectBuilder.visit_value.
Qed.

(** C16: what [toBytes] writes, [fromBytes] reads back: every well-formed object
    (properties in key order, strings without NUL, 64-bit numbers) is encoded
    without error and decoded to itself, undefined values having become null. *)
Theorem bytes_roundtrip o : MojObject.ok o ->
  exists bs, toBytes o = Ok bs /\ fromBytes bs = Ok (MojObjectBuilder.norm o) /\
    (MojObjectBuilder.defined o -> fromBytes bs = Ok o).
Proof.
  intros Ho. exists (Encoding.enc o). split; [by apply toBytes_enc|]. rewrite fromBytes_enc by done.
  split; [done|]. intros Hd. by rewrite (MojObjectBuilder.norm_defined o Hd).
Qed.

Lemma bytes_roundtrip_witness :
  toBytes (ObjectImpl [(_T "a", IntImpl 300); (_T "b", ArrayImpl [NullImpl; StringImpl (_T "x")])])
    = Ok [2; 4; 97; 0; 12; 1; 44; 4; 98; 0; 3; 1; 4; 120; 0; 0; 0] /\
  exists bs, toBytes (ObjectImpl [(_T "a", IntImpl 300); (_T "b", ArrayImpl [NullImpl; StringImpl (_T "x")])]) = Ok bs
    /\ fromBytes bs = Ok (ObjectImpl [(_T "a", IntImpl 300); (_T "b", ArrayImpl [NullImpl; StringImpl (_T "x")])]).
Proof.
  split; [reflexivity|].
  destruct (bytes_roundtrip (ObjectImpl [(_T "a", IntImpl 300); (_T "b", ArrayImpl [NullImpl; StringImpl (_T "x")])]))
    as (bs & E & R & _).
  - simpl. unfold in_int. repeat split; try lia; repeat constructor.
  - exists bs. split; [exact E|exact R].
Defined.

(** C15: byte-wise comparison of two encodings gives the order of the objects, as
    the comment on the markers promises; so encodings are equal only for equal
    objects, and none is a proper prefix of another.  Undefined values are
    excluded: they are encoded as null. *)
Theorem bytes_order a b : MojObject.ok a -> MojObject.ok b ->
  MojObjectBuilder.defined a -> MojObjectBuilder.defined b ->
  exists x y, toBytes a = Ok x /\ toBytes b = Ok y /\
    Z.sgn (lexcmp x y) = Z.sgn (MojObject.compare a b) /\
    (x = y <-> a = b) /\
    (forall r1 r2, x ++ r1 = y ++ r2 -> a = b /\ r1 = r2).
Proof.
  intros Ha Hb Da Db. exists (Encoding.enc a), (Encoding.enc b).
  pose proof (Encoding.pc_enc a b Ha Hb Da Db) as P.
  assert (forall r1 r2, Encoding.enc a ++ r1 = Encoding.enc b ++ r2 -> a = b /\ r1 = r2) as Hpre.
  { intros r1 r2 E. specialize (P r1 r2). rewrite E, (comp_refl lexcmp) in P.
    destruct (Z.eqb_spec (MojObject.compare a b) 0) as [Z0|]; [|lia].
    apply MojObject.compare_eq in Z0; [|done..]. subst b. split; [done|]. by apply app_inv_head in E. }
  split; [by apply toBytes_enc|]. split; [by apply toBytes_enc|]. split; [|split; [|exact Hpre]].
  - specialize (P [] []). rewrite !app_nil_r in P. rewrite P. by destruct (Z.eqb_spec (MojObject.compare a b) 0) as [->|].
  - split; [|by intros ->]. intros E. apply (Hpre [] []). by rewrite E.
Qed.

Lemma bytes_order_witness :
  exists x y, toBytes (IntImpl (-5)) = Ok x /\ toBytes (IntImpl 70000) = Ok y /\ Z.sgn (lexcmp x y) = -1.
Proof.
  destruct (bytes_order (IntImpl (-5)) (IntImpl 70000)) as (x & y & E1 & E2 & S & _);
    [simpl; unfold in_int; lia|simpl; unfold in_int; lia|exact I|exact I|].
  exists x, y. split; [exact E1|]. split; [exact E2|]. rewrite S. reflexivity.
Defined.

(** Undefined and null have one encoding, though they are different objects. *)
Lemma undefined_null_bytes :
  toBytes UndefinedImpl = toBytes NullImpl /\ MojObject.compare UndefinedImpl NullImpl = -1.
Proof. split; reflexivity. Qed.

(** C39: with property names replaced by tokens, a reader that has the kind's
    token vector, as it is after the write or later, shows any visitor exactly
    what the object shows it, errors included; the token table stays consistent
    and tokens given before keep their meaning. *)
Theorem token_roundtrip {W} `{SharedTokenSetLaws W} o (t : MojTokenSet.MojTokenSet W) populate w' :
  MojObject.ok o -> sts_ok (MojTokenSet.m_sharedTokenSet t) ->
  snapshot_ok (sts_vec (MojTokenSet.m_sharedTokenSet t)) (MojTokenSet.m_obj t) ->
  MojObject.visit o {| MojObjectWriter.m_writer := []; MojObjectWriter.m_tokenSet := Some t;
                       MojObjectWriter.m_populate := populate |} = Ok w' ->
  exists t', MojObjectWriter.m_tokenSet w' = Some t' /\ sts_ok (MojTokenSet.m_sharedTokenSet t') /\
    sts_vec (MojTokenSet.m_sharedTokenSet t) `prefix_of` sts_vec (MojTokenSet.m_sharedTokenSet t') /\
    forall S (VS : Visitor S) (v : S) tokens, sts_vec (MojTokenSet.m_sharedTokenSet t') `prefix_of` tokens ->
      MojObjectReader.read {| MojObjectReader.m_reader := MojObjectWriter.m_writer w';
        MojObjectReader.m_stack := []; MojObjectReader.m_skipBeginObj := false;
        MojObjectReader.m_tokenSet := Some tokens |} v = MojObject.visit o v.
Proof.
  intros Ho Hok Hsnap E.
  set (w := {| MojObjectWriter.m_writer := []; MojObjectWriter.m_tokenSet := Some t;
               MojObjectWriter.m_populate := populate |}) in *.
  assert (RoundTrip.writer_ok w) as Hwo by (split; done).
  destruct (RoundTrip.visit_writer_ok o Ho w w' Hwo E) as (bs & (Hb & Hw & Hn & _) & Hv).
  unfold RoundTrip.need_of, RoundTrip.writer_ok in *. simpl in *.
  destruct (MojObjectWriter.m_tokenSet w') as [t'|] eqn:Et; [|done]. destruct Hw as [Hok' _].
  exists t'. split; [done|]. split; [done|]. split; [done|]. intros S VS v tokens Hp.
  apply (read_value_bytes w' bs (fun S VS v => MojObject.visit o v)); [done|done|done|done|].
  unfold RoundTrip.need_of. rewrite Et. by exists tokens.
Qed.

#[local] Instance mem_shared : MojSharedTokenSet.MojSharedTokenSet MojDbKindState.MojDbKindState :=
  MojDbKindState.shared MojDbKindState.memTokens.
#[local] Instance mem_laws : SharedTokenSetLaws MojDbKindState.MojDbKindState :=
  MojDbKindState.shared_laws MojDbKindState.memTokens.

Lemma token_roundtrip_witness :
  exists w', MojObject.visit (ObjectImpl [(_T "a", IntImpl 7)])
    {| MojObjectWriter.m_writer := []; MojObjectWriter.m_populate := true;
       MojObjectWriter.m_tokenSet := Some (MojTokenSet.init MojDbKindState.start) |} = Ok w' /\
    MojObjectWriter.m_writer w' = [2; 32; 11; 7; 0] /\
    MojObjectReader.read {| MojObjectReader.m_reader := [2; 32; 11; 7; 0]; MojObjectReader.m_stack := [];
      MojObjectReader.m_skipBeginObj := false; MojObjectReader.m_tokenSet := Some [_T "a"] |} MojObjectBuilder.init
    = MojObject.visit (ObjectImpl [(_T "a", IntImpl 7)]) MojObjectBuilder.init.
Proof.
  eexists. split; [reflexivity|]. split; [reflexivity|].
  destruct (token_roundtrip (ObjectImpl [(_T "a", IntImpl 7)]) (MojTokenSet.init MojDbKindState.start) true
    {| MojObjectWriter.m_writer := [2; 32; 11; 7; 0]; MojObjectWriter.m_populate := true;
       MojObjectWriter.m_tokenSet := Some {|
         MojTokenSet.m_sharedTokenSet := {|
           MojDbKindState.m_nextToken := 33; MojDbKindState.m_tokensObj := ObjectImpl [(_T "a", IntImpl 32)];
           MojDbKindState.m_tokenVec := [_T "a"]; MojDbKindState.m_stored := ObjectImpl [(_T "a", IntImpl 32)] |};
         MojTokenSet.m_tokenVec := [_T "a"]; MojTokenSet.m_obj := ObjectImpl [(_T "a", IntImpl 32)] |} |})
    as (t' & Et & _ & _ & R).
  - simpl. unfold in_int. repeat split; try lia; repeat constructor.
  - exact MojDbKindState.inv_start.
  - apply snapshot_ok_undefined.
  - reflexivity.
  - apply R. injection Et as <-. reflexivity.
Defined.

(** The sizes [MojObjectWriter] announces for scalars, which the size of an
    object in the database and the quota accounting are built on, are the numbers
    of bytes it writes. *)
Theorem writer_sizes v r s b : in_int 64 v ->
  (exists x, toBytes (IntImpl v) = Ok x /\ MojObjectWriter.intSize v = Z.of_nat (length x)) /\
  toBytes (DecimalImpl r) = Ok (Encoding.decimal_enc r) /\
  MojObjectWriter.decimalSize r = Z.of_nat (length (Encoding.decimal_enc r)) /\
  toBytes (StringImpl s) = Ok (Encoding.string_enc s) /\
  MojObjectWriter.stringSize s = Z.of_nat (length (Encoding.string_enc s)) /\
  (exists x, toBytes (BoolImpl b) = Ok x /\ MojObjectWriter.boolSize = Z.of_nat (length x)) /\
  (exists x, toBytes NullImpl = Ok x /\ MojObjectWriter.nullSize = Z.of_nat (length x)).
Proof.
  intros Hv. split.
  { exists (Encoding.int_enc v). split; [by apply toBytes_enc|]. apply Encoding.int_enc_size. }
  split; [done|]. split; [done|]. split.
  { unfold toBytes. change (MojObject.visit (StringImpl s) ?w) with (MojObjectWriter.writeString w s false).
    by rewrite Encoding.writeString_enc. }
  split.
  { unfold MojObjectWriter.stringSize, MojDataWriter.sizeChars, Encoding.string_enc.
    simpl length. rewrite length_app. simpl. lia. }
  split; (eexists; split; [reflexivity|done]).
Qed.

Lemma writer_sizes_witness : MojObjectWriter.intSize 70000 = 5 /\
  exists x, toBytes (IntImpl 70000) = Ok x /\ MojObjectWriter.intSize 70000 = Z.of_nat (length x).
Proof.
  split; [reflexivity|]. apply (writer_sizes 70000 0 [] true). unfold in_int. lia.
Defined.
End ObjectBytes.
