(* ===== verification/Text.v ===== *)
(** * Text: src/src/db/MojDbTextUtils.cpp, MojDbTextCollator.cpp, MojDbTextTokenizer.cpp, MojDbUtils.cpp

    What turns a string into an index key when a collation is asked for, and
    into the keys of its words.  ICU is not part of the repository: the class
    [ICU] has one operation for each ICU call, and [ICULaws] the documented shape
    of a sort key. *)

From S2P Require Import Prelude Containers DataSerialization Object TokenSet ObjectSerialization.

(** UTF-16 code units. *)
Abbreviation UChars := (list Z).

Inductive MojDbCollationStrength :=
| MojDbCollationInvalid | MojDbCollationPrimary | MojDbCollationSecondary
| MojDbCollationTertiary | MojDbCollationQuaternary | MojDbCollationIdentical.

#[export] Instance MojDbCollationStrength_eq_dec : EqDecision MojDbCollationStrength.
Proof. solve_decision. Defined.

(** ** The ICU calls

    The functions that fill a buffer are given as the whole result; [fill] below
    writes as much of it as fits, as ICU does.  [None] is an error status. *)
Class ICU := {
  UCollator : Type;
  UBreakIterator : Type;
  u_strFromUTF8 : mstring -> option UChars;
  u_strToUTF8 : UChars -> option mstring;
  ucol_open : mstring -> option UCollator;
  ucol_setNormalization : UCollator -> UCollator;
  ucol_setNumericCollation : UCollator -> UCollator;
  ucol_setStrength : UCollator -> MojDbCollationStrength -> UCollator;
  ucol_getSortKey : UCollator -> UChars -> bytes;
  ubrk_open_word : mstring -> option UBreakIterator;
  (* the positions of [ubrk_first], [ubrk_next], ... up to [UBRK_DONE], each
     with whether its rule status is a word *)
  ubrk_positions : UBreakIterator -> UChars -> option (list (nat * bool))
}.

(** A sort key is a string of nonzero bytes with a terminator. *)
Class ICULaws `{ICU} := {
  sort_key_shape : forall c chars, exists s, ucol_getSortKey c chars = s ++ [0] /\ str_ok s;
  empty_unicode : u_strFromUTF8 [] = Some []
}.

(** ** Buffers: [do ... resize(destLength) while (destLength > destCapacity)] *)
Definition resize (buf : list Z) (n : nat) : list Z := take n buf ++ replicate (n - length buf) 0.

(** What a call that has [full] to write leaves in [buf]. *)
Definition written (full buf : list Z) : list Z := take (length buf) full ++ drop (length full) buf.

(** The second turn has a buffer of the right size, so two are enough. *)
Fixpoint fill (turns : nat) (full buf : list Z) : list Z :=
  match turns with
  | O => buf
  | S turns' =>
      let destCapacity := length buf in
      let destLength := length full in
      let buf := resize (written full buf) destLength in
      if (destCapacity <? destLength)%nat then fill turns' full buf else buf
  end.

Lemma resize_length buf n : length (resize buf n) = n.
Proof. unfold resize. rewrite length_app, length_take, length_replicate. lia. Qed.

Lemma fill_once full buf : (length full <= length buf)%nat -> resize (written full buf) (length full) = full.
Proof.
  intros H. unfold resize, written. rewrite (take_ge full (length buf)) by done.
  rewrite take_app_length, length_app, length_drop.
  replace (length full - _)%nat with 0%nat by lia. apply app_nil_r.
Qed.

Lemma fill_full full buf : fill 2 full buf = full.
Proof.
  cbn [fill]. destruct (Nat.ltb_spec (length buf) (length full)) as [L|L]; [|by apply fill_once].
  rewrite resize_length, Nat.ltb_irrefl. apply fill_once. by rewrite resize_length.
Qed.

(** ** [MojDbTextUtils] *)
Module MojDbTextUtils.
Section icu.
Context `{ICU}.

Definition strToUnicode (src : mstring) : res UChars :=
  let destOut := resize [] (length src * 2) in
  match u_strFromUTF8 src with
  | Some full => Ok (fill 2 full destOut)
  | None => Err MojErrDbUnicode
  end.

Definition unicodeToStr (src : UChars) : res mstring :=
  let destOut := resize [] (length src * 2) in
  match u_strToUTF8 src with
  | Some full => Ok (fill 2 full destOut)
  | None => Err MojErrDbUnicode
  end.
End icu.
End MojDbTextUtils.

(** ** [MojDbUtils] *)
Module MojDbUtils.
Definition s_collStrings : list (mstring * MojDbCollationStrength) :=
  [(_T "primary", MojDbCollationPrimary); (_T "secondary", MojDbCollationSecondary);
   (_T "tertiary", MojDbCollationTertiary); (_T "quaternary", MojDbCollationQuaternary);
   (_T "identical", MojDbCollationIdentical); (_T "invalid", MojDbCollationInvalid)].

(** The loops stop at a match or at the last row, [MojDbCollationInvalid]. *)
Definition collationToString (coll : MojDbCollationStrength) : mstring :=
  (fix go str info :=
     match info with
     | [] => str
     | (m_str, m_coll) :: info' =>
         if decide (m_coll = coll) then m_str
         else if decide (m_coll = MojDbCollationInvalid) then m_str else go m_str info'
     end) [] s_collStrings.

Definition collationFromString (str : mstring) : res MojDbCollationStrength :=
  let collOut :=
    (fix go collOut info :=
       match info with
       | [] => collOut
       | (m_str, m_coll) :: info' =>
           if MojStrCmp str m_str =? 0 then m_coll
           else if decide (m_coll = MojDbCollationInvalid) then m_coll else go m_coll info'
       end) MojDbCollationInvalid s_collStrings in
  if decide (collOut = MojDbCollationInvalid) then Err MojErrDbInvalidCollation else Ok collOut.

Lemma collation_strings c : c <> MojDbCollationInvalid ->
  collationFromString (collationToString c) = Ok c.
Proof. by destruct c. Qed.
End MojDbUtils.

(** ** [MojDbTextCollator] *)
Module MojDbTextCollator.
Section icu.
Context `{ICU}.

Record MojDbTextCollator := { m_ucol : UCollator }.

Definition init (locale : mstring) (level : MojDbCollationStrength) : res MojDbTextCollator :=
  match level with
  | MojDbCollationInvalid => Err AssertFailed
  | _ =>
      match ucol_open locale with
      | None => Err MojErrDbUnicode
      | Some u =>
          let u := ucol_setNormalization u in
          let u := if decide (level = MojDbCollationIdentical) then ucol_setNumericCollation u else u in
          Ok {| m_ucol := ucol_setStrength u level |}
      end
  end.

Definition writer_bytes (str : mstring) : res bytes :=
  let? w := MojObjectWriter.writeString (W := unit) MojObjectWriter.init str false in
  Ok (MojObjectWriter.m_writer w).

(** [sortKey(const UChar*, MojSize, MojDbKey&)]. *)
Definition sortKey_chars (c : MojDbTextCollator) (chars : UChars) : res bytes :=
  if Nat.eqb (length chars) 0 then writer_bytes []
  else
    let full := ucol_getSortKey (m_ucol c) chars in
    if Nat.eqb (length full) 0 then Err MojErrDbUnicode
    else
      let vec := fill 2 full (resize [] (length chars * 3)) in
      writer_bytes (take (length vec - 1) vec).

Definition sortKey (c : MojDbTextCollator) (str : mstring) : res bytes :=
  let? chars := MojDbTextUtils.strToUnicode str in sortKey_chars c chars.

(** The string a sort key is the encoding of. *)
Definition sort_string (c : MojDbTextCollator) (chars : UChars) : mstring :=
  match chars with [] => [] | _ => removelast (ucol_getSortKey (m_ucol c) chars) end.

Lemma sort_string_ok `{!ICULaws} c chars : str_ok (sort_string c chars).
Proof.
  destruct chars as [|ch chars]; [by constructor|]. simpl.
  destruct (sort_key_shape (m_ucol c) (ch :: chars)) as (s & -> & Hs). by rewrite removelast_last.
Qed.

Lemma writer_bytes_enc str : writer_bytes str = Ok (Encoding.string_enc str).
Proof. unfold writer_bytes. by rewrite Encoding.writeString_enc. Qed.

Lemma sortKey_chars_enc `{!ICULaws} c chars :
  sortKey_chars c chars = Ok (Encoding.string_enc (sort_string c chars)).
Proof.
  unfold sortKey_chars. destruct chars as [|ch chars]; [apply writer_bytes_enc|].
  change (Nat.eqb (length (ch :: chars)) 0) with false. cbn match.
  rewrite fill_full. unfold sort_string.
  destruct (sort_key_shape (m_ucol c) (ch :: chars)) as (s & -> & Hs).
  rewrite removelast_last, length_app. simpl length.
  destruct (Nat.eqb_spec (length s + 1) 0); [lia|].
  by rewrite Nat.add_sub, take_app_length, writer_bytes_enc.
Qed.
End icu.
End MojDbTextCollator.
