(* ===== verification/DbKey.v ===== *)
(** * Index keys: src/src/db/MojDbKey.cpp, inc/db/MojDbKey.h

    A key is a byte vector compared lexicographically; a range is a pair of
    keys, an empty bound being no bound; [MojDbKeyBuilder] combines one value
    from each of several sets in every way. *)

From S2P Require Import Prelude Containers DataSerialization Object TokenSet ObjectSerialization Text.

Abbreviation MojDbKey := bytes.

Definition byte_key (k : MojDbKey) : Prop := Forall is_byte k.

Lemma is_byte_keyb k : forallb is_byteb k = true -> byte_key k.
Proof.
  rewrite List.forallb_forall. intros H. apply List.Forall_forall. intros b Hb. by apply is_byteb_spec, H.
Qed.

(** ** [MojDbKey] *)
Module MojDbKey.
Definition compare (k rhs : MojDbKey) : Z := lexcmp k rhs.
Definition lt (k rhs : MojDbKey) : bool := compare k rhs <? 0.
Definition le (k rhs : MojDbKey) : bool := compare k rhs <=? 0.
Definition ge (k rhs : MojDbKey) : bool := compare k rhs >=? 0.
Definition empty (k : MojDbKey) : bool := match k with [] => true | _ => false end.

Section icu.
Context `{ICU}.
Definition assign (obj : MojObject) (coll : option MojDbTextCollator.MojDbTextCollator) : res MojDbKey :=
  match coll, obj with
  | Some coll, StringImpl text => MojDbTextCollator.sortKey coll text
  | _, _ => ObjectBytes.toBytes obj
  end.
End icu.

(** From the last byte back: a byte that can be incremented is, and the loop
    stops; any other is popped.  The argument is the key reversed. *)
Fixpoint increment_rev (rk : list Z) : list Z :=
  match rk with
  | [] => []
  | b :: rk' => if b <? MojUInt8Max then b + 1 :: rk' else increment_rev rk'
  end.

Definition increment (k : MojDbKey) : MojDbKey := rev (increment_rev (rev k)).

Definition prepend (k key : MojDbKey) : MojDbKey := key ++ k.

(** [MojMemCmp] of the first [n] bytes. *)
Definition memeq (k key : MojDbKey) (n : nat) : bool := bool_decide (take n k = take n key).

Definition prefixOf (k key : MojDbKey) : bool :=
  (length k <=? length key)%nat && memeq k key (length k).

Definition stringPrefixOf (k key : MojDbKey) : bool :=
  (length k <=? length key)%nat && memeq k key (length k - 1).

Lemma prefixOf_spec k key : prefixOf k key = true <-> k `prefix_of` key.
Proof.
  unfold prefixOf, memeq. rewrite andb_true_iff, Nat.leb_le, bool_decide_eq_true, take_ge by done. split.
  - intros [_ E]. exists (drop (length k) key). by rewrite E, take_drop at 1.
  - intros [x ->]. rewrite length_app, take_app_length. split; [lia|done].
Qed.

(** *** Incrementing *)
Lemma increment_snoc_lt k b : b < 255 -> increment (k ++ [b]) = k ++ [b + 1].
Proof.
  intros Hb. unfold increment. rewrite rev_app_distr. simpl. unfold MojUInt8Max.
  destruct (Z.ltb_spec b 255); [|lia]. simpl. by rewrite rev_involutive.
Qed.

Lemma increment_snoc_max k : increment (k ++ [255]) = increment k.
Proof. unfold increment. by rewrite rev_app_distr. Qed.

Lemma lexcmp_prefix k x : lexcmp k (k ++ x) <= 0.
Proof.
  rewrite <- (app_nil_r k) at 1. rewrite lexcmp_app_same. by destruct x.
Qed.

(** Past [k] and not at a key with prefix [k]: already past every such key. *)
Lemma lexcmp_not_prefix k x r : ~ k `prefix_of` x -> lexcmp k x < 0 -> lexcmp (k ++ r) x < 0.
Proof.
  revert x. induction k as [|a k IH]; intros [|b x] Hn; simpl; try lia.
  - intros _. destruct Hn. by exists (b :: x).
  - destruct (Z.eqb_spec (MojComp a b) 0) as [E|E]; simpl; [|done].
    apply IH. intros [y ->]. destruct Hn. pose proof (MojComp_spec a b). assert (a = b) as -> by lia.
    by exists y.
Qed.

Lemma lexcmp_above k x r : ~ k `prefix_of` x -> 0 <= lexcmp x k -> 0 < lexcmp x (k ++ r).
Proof.
  intros Hn G. apply (comp_lt_gt lexcmp). apply lexcmp_not_prefix; [done|]. apply (comp_lt_gt lexcmp).
  destruct (Z.eq_dec (lexcmp x k) 0) as [E|E]; [|lia]. apply lexcmp_eq in E as ->. by destruct Hn.
Qed.

(** The increment is the least key above all that have the prefix; none at all
    when every byte is the largest. *)
Lemma increment_spec k x : byte_key k -> byte_key x ->
  (increment k = [] \/ lexcmp x (increment k) < 0) <-> (lexcmp x k < 0 \/ k `prefix_of` x).
Proof.
  unfold byte_key. intros Hk Hx. revert Hk. induction k as [|b k IH] using rev_ind; intros Hk.
  { split; [|by left]. intros _. right. apply prefix_nil. }
  apply Forall_app in Hk as [Hk Hb]. rewrite Forall_singleton in Hb. unfold is_byte in Hb.
  specialize (IH Hk).
  destruct (decide (b = 255)) as [->|Hlt].
  - rewrite increment_snoc_max, IH. split.
    + intros [L|[y ->]].
      * left. apply (comp_lt_le_trans lexcmp x k); [done|]. apply lexcmp_prefix.
      * rewrite lexcmp_app_same. apply Forall_app in Hx as [_ Hy]. destruct y as [|c y]; [by left|].
        apply Forall_cons in Hy as [Hc Hy]. unfold is_byte in Hc. simpl.
        pose proof (MojComp_spec c 255). destruct (Z.eqb_spec (MojComp c 255) 0) as [E|E]; simpl; [|lia].
        right. exists y. rewrite <- app_assoc. simpl. do 2 f_equal. lia.
    + intros [L|P]; [|right; by eapply prefix_app_l].
      destruct (decide (k `prefix_of` x)) as [|Hn]; [by right|]. left.
      destruct (Z_lt_le_dec (lexcmp x k) 0) as [|G]; [done|].
      pose proof (lexcmp_above k x [255] Hn G). lia.
  - rewrite increment_snoc_lt by lia. split.
    + intros [E|L]; [by destruct k|].
      destruct (decide (k `prefix_of` x)) as [[y ->]|Hn].
      * rewrite lexcmp_app_same in *. destruct y as [|c y]; [by left|]. simpl in *.
        pose proof (MojComp_spec c (b + 1)). pose proof (MojComp_spec c b).
        destruct (Z.eqb_spec (MojComp c (b + 1)) 0); simpl in *; [by destruct y|].
        destruct (Z.eqb_spec (MojComp c b) 0); simpl; [|left; lia].
        right. exists y. rewrite <- app_assoc. simpl. do 2 f_equal. lia.
      * left. destruct (Z_lt_le_dec (lexcmp x k) 0) as [L2|G].
        { apply (comp_lt_le_trans lexcmp x k); [done|]. apply lexcmp_prefix. }
        pose proof (lexcmp_above k x [b + 1] Hn G). lia.
    + right. destruct H as [L|[y ->]].
      * apply (comp_lt_le_trans lexcmp x (k ++ [b])); [done|]. rewrite lexcmp_app_same. simpl.
        pose proof (MojComp_spec b (b + 1)). destruct (Z.eqb_spec (MojComp b (b + 1)) 0); simpl; lia.
      * rewrite <- app_assoc, lexcmp_app_same. simpl. pose proof (MojComp_spec b (b + 1)).
        destruct (Z.eqb_spec (MojComp b (b + 1)) 0); simpl; lia.
Qed.

Lemma increment_nil k : byte_key k -> (increment k = [] <-> Forall (fun b => b = 255) k).
Proof.
  intros Hk. induction k as [|b k IH] using rev_ind; [by split|].
  apply Forall_app in Hk as [Hk Hb]. rewrite Forall_singleton in Hb. unfold is_byte in Hb.
  destruct (decide (b = 255)) as [->|Hn].
  - rewrite increment_snoc_max, (IH Hk), Forall_app, Forall_singleton. tauto.
  - rewrite increment_snoc_lt by lia. rewrite Forall_app, Forall_singleton.
    split; [by destruct k|tauto].
Qed.
End MojDbKey.

(** ** [MojDbKeyRange] *)
Module MojDbKeyRange.
Record MojDbKeyRange := { lowerKey : MojDbKey; upperKey : MojDbKey; group : Z }.

Definition contains (r : MojDbKeyRange) (key : MojDbKey) : bool :=
  (MojDbKey.empty (lowerKey r) || MojDbKey.ge key (lowerKey r)) &&
  (MojDbKey.empty (upperKey r) || MojDbKey.lt key (upperKey r)).

Definition contains_range (r range : MojDbKeyRange) : bool :=
  contains r (lowerKey range) &&
  (MojDbKey.empty (upperKey r) || MojDbKey.le (upperKey range) (upperKey r)).

Definition prepend (r : MojDbKeyRange) (key : MojDbKey) : MojDbKeyRange :=
  {| lowerKey := MojDbKey.prepend (lowerKey r) key; upperKey := MojDbKey.prepend (upperKey r) key;
     group := group r |}.

Lemma contains_true r key : contains r key = true <->
  0 <= lexcmp key (lowerKey r) /\ (upperKey r = [] \/ lexcmp key (upperKey r) < 0).
Proof.
  unfold contains, MojDbKey.ge, MojDbKey.lt, MojDbKey.compare.
  rewrite andb_true_iff, !orb_true_iff, Z.geb_le, Z.ltb_lt.
  assert (forall k : MojDbKey, MojDbKey.empty k = true <-> k = []) as E by (by intros []).
  rewrite !E. split; [|intuition]. intros [H ?]. split; [|done].
  destruct H as [->|]; [by destruct key|done].
Qed.

(** [contains(const MojDbKeyRange&)] is sound for ranges with an upper bound: all
    keys of the second are keys of the first. *)
Lemma contains_range_sound r s key : upperKey s <> [] ->
  contains_range r s = true -> contains s key = true -> contains r key = true.
Proof.
  intros Hu [H1 H2]%andb_true_iff. rewrite !contains_true in *. intros [L1 [|L2]]; [done|].
  destruct H1 as [H0 H1]. split.
  { pose proof (comp_anti lexcmp key (lowerKey r)). pose proof (comp_anti lexcmp (lowerKey s) (lowerKey r)).
    pose proof (comp_anti lexcmp key (lowerKey s)).
    pose proof (comp_trans lexcmp (lowerKey r) (lowerKey s) key). lia. }
  apply orb_true_iff in H2 as [H2|H2]; [left; by destruct (upperKey r)|right].
  unfold MojDbKey.le, MojDbKey.compare in H2. apply Z.leb_le in H2.
  by apply (comp_lt_le_trans lexcmp key (upperKey s)).
Qed.

(** The range from a key to its increment holds exactly the keys that begin
    with it, whatever its last bytes are; when every byte is the largest the
    increment is empty and the range has no upper bound. *)
Theorem prefix_range k x g : byte_key k -> byte_key x ->
  contains {| lowerKey := k; upperKey := MojDbKey.increment k; group := g |} x = MojDbKey.prefixOf k x /\
  (MojDbKey.prefixOf k x = true <-> k `prefix_of` x) /\
  (MojDbKey.increment k = [] <-> Forall (fun b => b = 255) k).
Proof.
  intros Hk Hx. split; [|split; [apply MojDbKey.prefixOf_spec|]].
  - apply eq_true_iff_eq. rewrite contains_true, MojDbKey.prefixOf_spec. simpl.
    rewrite MojDbKey.increment_spec by done. split; [intros [G [|]]; [lia|done]|].
    intros P. split; [|by right]. destruct P as [y ->]. pose proof (MojDbKey.lexcmp_prefix k y).
    pose proof (comp_anti lexcmp k (k ++ y)). lia.
  - by apply MojDbKey.increment_nil.
Qed.

Lemma prefix_range_witness :
  contains {| lowerKey := [2; 255]; upperKey := MojDbKey.increment [2; 255]; group := 0 |} [2; 255; 9]
    = MojDbKey.prefixOf [2; 255] [2; 255; 9] /\ MojDbKey.increment [2; 255] = [3].
Proof.
  split; [|reflexivity].
  refine (proj1 (prefix_range [2; 255] [2; 255; 9] 0 _ _)); by apply is_byte_keyb.
Defined.
End MojDbKeyRange.

(** ** [MojDbKeyBuilder] *)
Abbreviation KeySet := (list MojDbKey).

Module MojDbKeyBuilder.
(** [m_iter] is the part of [m_vals] from the iterator on. *)
Record PropRec := { m_vals : KeySet; m_iter : list MojDbKey }.

Definition reset (r : PropRec) : PropRec := {| m_vals := m_vals r; m_iter := m_vals r |}.
Definition advance (r : PropRec) : PropRec := {| m_vals := m_vals r; m_iter := tl (m_iter r) |}.

Abbreviation PropStack := (list PropRec).

Definition push (m_stack : PropStack) (vals : KeySet) : PropStack :=
  m_stack ++ [reset {| m_vals := vals; m_iter := [] |}].

(** Walk up the stack and create a key. *)
Definition key_of (m_stack : PropStack) : res MojDbKey :=
  res_fold (fun vec i => match m_iter i with
                         | v :: _ => Ok (vec ++ v)
                         | [] => Err AssertFailed (* the end of a set is not a value *)
                         end) [] m_stack.

(** One turn of the loop: [None] is the break. *)
Definition step (m_stack : PropStack) (pos : nat) (keysOut : KeySet)
    : res (option (PropStack * nat * KeySet)) :=
  match m_stack !! pos with
  | None => Err AssertFailed
  | Some r =>
      match m_iter r with
      | [] =>
          match pos with
          | O => Ok None
          | S pos' => Ok (Some (alter advance pos' (alter reset pos m_stack), pos', keysOut))
          end
      | _ :: _ =>
          if Nat.eqb pos (length m_stack - 1) then
            let? key := key_of m_stack in
            Ok (Some (alter advance pos m_stack, pos, MojSet.put lexcmp keysOut key))
          else Ok (Some (m_stack, S pos, keysOut))
      end
  end.

Fixpoint loop (turns : nat) (m_stack : PropStack) (pos : nat) (keysOut : KeySet) : res KeySet :=
  match turns with
  | O => Err AssertFailed
  | S turns' =>
      let? next := step m_stack pos keysOut in
      match next with
      | None => Ok keysOut
      | Some (m_stack, pos, keysOut) => loop turns' m_stack pos keysOut
      end
  end.

(** The turns of a full walk; [keys_combos] shows they suffice. *)
Definition turns (m_stack : PropStack) : nat :=
  S (fold_right (fun r n => length (m_vals r) * (2 + n))%nat O m_stack).

Definition keys (m_stack : PropStack) : res KeySet :=
  match m_stack with
  | [] => Ok []
  | _ => loop (turns m_stack) (map reset m_stack) 0 []
  end.

(** All concatenations of one value of each record, in lexicographic order of
    the choices. *)
Fixpoint combos (sets : list KeySet) : list MojDbKey :=
  match sets with
  | [] => [[]]
  | vals :: sets' => flat_map (fun v => map (app v) (combos sets')) vals
  end.

(** *** The walk visits every combination once *)
Fixpoint inner (post : PropStack) : nat :=
  match post with [] => 1%nat | r :: post' => (2 + length (m_vals r) * inner post')%nat end.

Lemma key_of_app pre r v l hp : key_of pre = Ok hp -> m_iter r = v :: l -> key_of (pre ++ [r]) = Ok (hp ++ v).
Proof. intros H Hr. unfold key_of in *. rewrite res_fold_app, H. simpl. by rewrite Hr. Qed.

Lemma alter_mid {A} (f : A -> A) pre x post : alter f (length pre) (pre ++ x :: post) = pre ++ f x :: post.
Proof. induction pre as [|y pre IH]; [done|]. cbn. f_equal. exact IH. Qed.

Lemma lookup_mid {A} (pre : list A) x post : (pre ++ x :: post) !! length pre = Some x.
Proof. by apply list_lookup_middle. Qed.

Lemma step_push pre r r2 post v l out : m_iter r = v :: l ->
  step (pre ++ r :: r2 :: post) (length pre) out = Ok (Some (pre ++ r :: r2 :: post, S (length pre), out)).
Proof.
  intros Hr. unfold step. rewrite lookup_mid, Hr. rewrite length_app. simpl.
  destruct (Nat.eqb_spec (length pre) (length pre + S (S (length post)) - 1)); [lia|done].
Qed.

Lemma step_key pre r v l hp out : key_of pre = Ok hp -> m_iter r = v :: l ->
  step (pre ++ [r]) (length pre) out =
  Ok (Some (pre ++ [advance r], length pre, MojSet.put lexcmp out (hp ++ v))).
Proof.
  intros Hp Hr. unfold step. rewrite lookup_mid, Hr, length_app. simpl.
  rewrite Nat.add_sub, Nat.eqb_refl. rewrite (key_of_app pre r v l hp Hp Hr). simpl.
  by rewrite alter_mid.
Qed.

Lemma step_pop pre r r2 post out : m_iter r2 = [] ->
  step (pre ++ r :: r2 :: post) (S (length pre)) out =
  Ok (Some (pre ++ advance r :: reset r2 :: post, length pre, out)).
Proof.
  intros Hr. unfold step.
  replace (pre ++ r :: r2 :: post) with ((pre ++ [r]) ++ r2 :: post) by (by rewrite <- app_assoc).
  replace (S (length pre)) with (length (pre ++ [r])) by (rewrite length_app; simpl; lia).
  rewrite lookup_mid, Hr, alter_mid, <- app_assoc. simpl app. by rewrite alter_mid.
Qed.

Lemma loop_walk post pre vals l hp out n : key_of pre = Ok hp -> Forall (fun r => m_iter r = m_vals r) post ->
  loop (length l * inner post + n) (pre ++ {| m_vals := vals; m_iter := l |} :: post) (length pre) out =
  loop n (pre ++ {| m_vals := vals; m_iter := [] |} :: post) (length pre)
    (fold_left (MojSet.put lexcmp) (map (app hp) (combos (l :: map m_vals post))) out).
Proof.
  revert pre vals l hp out n. induction post as [|[rv ri] post IHp]; intros pre vals l hp out n Hp Hf;
    revert out n; induction l as [|v l IHl]; intros out n; try done.
  - cbn [length Nat.mul Nat.add inner loop]. rewrite (step_key pre _ v l hp) by done. simpl res_bind.
    cbn match. unfold advance. simpl m_vals. simpl m_iter. simpl tl.
    change (length l * 1 + n)%nat with (length l * inner [] + n)%nat. rewrite IHl. simpl.
    by rewrite app_nil_r.
  - apply Forall_cons in Hf as [Hr Hf]. simpl in Hr. subst ri.
    cbn [length Nat.mul inner m_vals].
    replace (2 + length rv * inner post + length l * (2 + length rv * inner post) + n)%nat
      with (S (length rv * inner post + (S (length l * inner ({| m_vals := rv; m_iter := rv |} :: post) + n))))%nat
      by (cbn [inner m_vals]; lia).
    cbn [loop]. rewrite (step_push pre _ _ _ v l) by done. simpl res_bind. cbn match.
    replace (pre ++ {| m_vals := vals; m_iter := v :: l |} :: {| m_vals := rv; m_iter := rv |} :: post)
      with ((pre ++ [{| m_vals := vals; m_iter := v :: l |}]) ++ {| m_vals := rv; m_iter := rv |} :: post)
      by (by rewrite <- app_assoc).
    replace (S (length pre)) with (length (pre ++ [{| m_vals := vals; m_iter := v :: l |}]))
      by (rewrite length_app; simpl; lia).
    rewrite (IHp _ rv rv (hp ++ v)) by (done || by eapply key_of_app).
    cbn [loop]. rewrite length_app. simpl length. rewrite Nat.add_1_r, <- app_assoc. simpl app.
    rewrite step_pop by done. simpl res_bind. cbn match. unfold advance, reset. simpl m_vals. simpl m_iter.
    simpl tl. rewrite IHl. f_equal. cbn [combos map flat_map m_vals].
    rewrite map_app, fold_left_app, map_map. f_equal. f_equal. apply map_ext. intros x. by rewrite app_assoc.
Qed.

Lemma keys_combos m_stack : m_stack <> [] ->
  keys m_stack = Ok (fold_left (MojSet.put lexcmp) (combos (map m_vals m_stack)) []).
Proof.
  destruct m_stack as [|r post]; [done|]. intros _. unfold keys, turns.
  assert (forall post, inner post <= 2 + fold_right (fun r n => length (m_vals r) * (2 + n)) 0 post)%nat as B.
  { clear. induction post as [|r post IH]; cbn [inner fold_right]; [lia|].
    pose proof (Nat.mul_le_mono_l _ _ (length (m_vals r)) IH). lia. }
  assert (inner (map reset post) = inner post) as E.
  { clear. induction post as [|r post IH]; simpl; [done|]. by rewrite IH. }
  specialize (B post). cbn [fold_right map].
  set (F := fold_right _ _ _) in *.
  replace (S (length (m_vals r) * (2 + F)))%nat with
    (length (m_vals r) * inner (map reset post) + (1 + length (m_vals r) * (2 + F - inner post)))%nat
    by (rewrite E; nia).
  pose proof (loop_walk (map reset post) [] (m_vals r) (m_vals r) []) as W. simpl app in W. simpl length in W.
  unfold reset at 1. rewrite W; [|done|].
  2:{ clear. induction post; by constructor. }
  cbn [Nat.add loop]. change (step _ _ _) with (Ok (A := option (PropStack * nat * KeySet)) None).
  simpl res_bind. f_equal. rewrite map_map. cbn [combos map]. f_equal. apply map_id.
Qed.

Lemma elem_of_combos sets k :
  k ∈ combos sets <-> exists vs, Forall2 (fun v set => v ∈ set) vs sets /\ k = concat vs.
Proof.
  revert k. induction sets as [|set sets IH]; intros k; simpl.
  - rewrite list_elem_of_singleton. split.
    + intros ->. exists []. by split.
    + intros (vs & H & ->). by inversion H.
  - rewrite list_elem_of_In, List.in_flat_map. split.
    + intros (v & Hv & (x & <- & Hx)%List.in_map_iff).
      apply list_elem_of_In, IH in Hx as (vs & Hvs & ->). exists (v :: vs). split; [|done].
      constructor; [by apply list_elem_of_In|done].
    + intros (vs & H & ->). inversion H as [|v ? vs' ? Hv Hvs]; subst. exists v.
      split; [by apply list_elem_of_In|]. apply List.in_map_iff. exists (concat vs'). split; [done|].
      apply list_elem_of_In, IH. by exists vs'.
Qed.

Lemma elem_of_put_all l out k :
  MojRbTreeBase.sorted id lexcmp out ->
  MojRbTreeBase.sorted id lexcmp (fold_left (MojSet.put lexcmp) l out) /\
  (k ∈ fold_left (MojSet.put lexcmp) l out <-> k ∈ l \/ k ∈ out).
Proof.
  revert out. induction l as [|x l IH]; intros out Hs; simpl; [set_solver|].
  pose proof (MojSet.set_put_sorted lexcmp out x Hs) as Hs2. destruct (IH _ Hs2) as [Hs3 E].
  split; [done|]. rewrite E. unfold MojSet.put. rewrite (MojRbTreeBase.elem_of_put id lexcmp x out k Hs).
  unfold id. rewrite lexcmp_eq, elem_of_cons. destruct (decide (k = x)) as [->|]; tauto.
Qed.

Lemma sorted_NoDup (l : list MojDbKey) : MojRbTreeBase.sorted id lexcmp l -> NoDup l.
Proof.
  induction 1 as [|x l Hl IH Hx]; constructor; [|done].
  intros Hin. rewrite Forall_forall in Hx. apply Hx in Hin.
  unfold MojRbTreeBase.node_lt, id in Hin. rewrite (comp_refl lexcmp) in Hin. lia.
Qed.

(** The walk over the stack ends without an error and gives exactly the
    concatenations of one value from each pushed set, each once and in key order;
    with an empty set among several there is none. *)
Theorem builder_keys (sets : list KeySet) : sets <> [] ->
  exists out, keys (fold_left push sets []) = Ok out /\
    MojRbTreeBase.sorted id lexcmp out /\ NoDup out /\
    forall k, k ∈ out <-> exists vs, Forall2 (fun v set => v ∈ set) vs sets /\ k = concat vs.
Proof.
  intros Hn.
  assert (forall acc, fold_left push sets acc = acc ++ map (fun s => {| m_vals := s; m_iter := s |}) sets) as E.
  { induction sets as [|s sets IH]; intros acc; simpl; [by rewrite app_nil_r|].
    destruct (decide (sets = [])) as [->|]; [done|]. rewrite IH by done. unfold push. by rewrite <- app_assoc. }
  eexists. split.
  { apply keys_combos. rewrite E. by destruct sets. }
  rewrite E. simpl. rewrite map_map. simpl. rewrite map_id.
  assert (forall k, MojRbTreeBase.sorted id lexcmp (fold_left (MojSet.put lexcmp) (combos sets) []) /\
    (k ∈ fold_left (MojSet.put lexcmp) (combos sets) [] <-> k ∈ combos sets \/ k ∈ [])) as P.
  { intros k. apply elem_of_put_all. constructor. }
  split; [apply (P [])|]. split; [|intros k; rewrite (proj2 (P k)), elem_of_combos; set_solver].
  destruct (P []) as [Hs _]. by apply sorted_NoDup.
Qed.

Lemma builder_keys_witness :
  keys (fold_left push [[[1]]; [[2]; [3]]; [[4]; [5]]] []) = Ok [[1; 2; 4]; [1; 2; 5]; [1; 3; 4]; [1; 3; 5]] /\
  exists out, keys (fold_left push [[[1]]; [[2]; [3]]; [[4]; [5]]] []) = Ok out /\ NoDup out.
Proof.
  split; [reflexivity|].
  destruct (builder_keys [[[1]]; [[2]; [3]]; [[4]; [5]]]) as (out & E & _ & N & _); [done|].
  exists out. split; [exact E|exact N].
Defined.
End MojDbKeyBuilder.

(** ** [MojDbTextTokenizer]: the keys of the words of a text *)
Module MojDbTextTokenizer.
Section icu.
Context `{ICU}.

Definition init (locale : mstring) : res UBreakIterator :=
  match ubrk_open_word locale with Some u => Ok u | None => Err MojErrDbUnicode end.

(** One boundary; [tokBegin] is the one before, -1 at first. *)
Definition token (collator : option MojDbTextCollator.MojDbTextCollator) (unicodeStr : UChars)
    (st : option nat * KeySet) (b : nat * bool) : res (option nat * KeySet) :=
  let '(tokBegin, keysOut) := st in
  let '(pos, word) := b in
  let? keysOut :=
    if word : bool then
      match tokBegin with
      | None => Err AssertFailed
      | Some tokBegin =>
          let tok := take (pos - tokBegin) (drop tokBegin unicodeStr) in
          let? key := match collator with
                      | Some c => MojDbTextCollator.sortKey_chars c tok
                      | None => let? s := MojDbTextUtils.unicodeToStr tok in
                                MojDbKey.assign (StringImpl s) None
                      end in
          Ok (MojSet.put lexcmp keysOut key)
      end
    else Ok keysOut in
  Ok (Some pos, keysOut).

Definition tokenize (ubrk : UBreakIterator) (text : mstring)
    (collator : option MojDbTextCollator.MojDbTextCollator) (keysOut : KeySet) : res KeySet :=
  let? unicodeStr := MojDbTextUtils.strToUnicode text in
  match ubrk_positions ubrk unicodeStr with
  | None => Err MojErrDbUnicode
  | Some positions =>
      let? st := res_fold (token collator unicodeStr) (None, keysOut) positions in Ok st.2
  end.
End icu.
End MojDbTextTokenizer.
