(* ===== verification/Json.v ===== *)
(** * JSON: src/src/core/MojJson.cpp

    [MojJsonWriter] is a visitor that appends text; [MojJsonParser] is a state
    machine over characters with a stack of at most [MaxDepth] records, each a
    state and the state to go on with.  The line and column, which only error
    messages show, are left out. *)

From S2P Require Import Prelude Containers Number Object ObjectBuilder.

Definition MojJsonNullString : mstring := _T "null".
Definition MojJsonTrueString : mstring := _T "true".
Definition MojJsonFalseString : mstring := _T "false".

(** [printf]'s %lld. *)
Definition format_lld (val : Z) : mstring :=
  (if val <? 0 then [chr "-"] else []) ++
  (if val =? 0 then [chr "0"] else rev (MojDecimal.tmpDigits 20 (Z.abs val))).

(** ** [MojJsonWriter] *)
Module MojJsonWriter.
Record MojJsonWriter := { m_str : mstring; m_writeComma : bool }.

Definition init : MojJsonWriter := {| m_str := []; m_writeComma := false |}.

Definition append (w : MojJsonWriter) (s : mstring) (comma : bool) : MojJsonWriter :=
  {| m_str := m_str w ++ s; m_writeComma := comma |}.

Definition writeComma (w : MojJsonWriter) : MojJsonWriter :=
  if m_writeComma w then append w [chr ","] true else append w [] true.

(** One upper-case hexadecimal digit. *)
Definition hexUpper (d : Z) : Z := if d <? 10 then 48 + d else 55 + d.

(** A character, or its escape: the table [escape] has 1 for the control
    characters that have no letter of their own. *)
Definition escape (c : Z) : mstring :=
  if c =? 8 then _T "\b" else if c =? 9 then _T "\t" else if c =? 10 then _T "\n"
  else if c =? 12 then _T "\f" else if c =? 13 then _T "\r"
  else if c <? 32 then _T "\u" ++ [hexUpper (c / 4096 mod 16); hexUpper (c / 256 mod 16);
                                   hexUpper (c / 16 mod 16); hexUpper (c mod 16)]
  else if (c =? 34) || (c =? 92) then [92; c] else [c].

Definition quoted (val : mstring) : mstring := 34 :: flat_map escape val ++ [34].

Definition writeString (w : MojJsonWriter) (val : mstring) : MojJsonWriter :=
  append w (quoted val) (m_writeComma w).

Definition literal (w : MojJsonWriter) (s : mstring) : MojJsonWriter :=
  let w := writeComma w in append w s (m_writeComma w).

#[global] Instance visitor : Visitor MojJsonWriter := {|
  MojObjectVisitor.reset _ := Ok init;
  MojObjectVisitor.beginObject w := Ok (append (writeComma w) [chr "{"] false);
  MojObjectVisitor.endObject w := Ok (append w [chr "}"] true);
  MojObjectVisitor.beginArray w := Ok (append (writeComma w) [chr "["] false);
  MojObjectVisitor.endArray w := Ok (append w [chr "]"] true);
  MojObjectVisitor.propName w name := Ok (append (writeString (writeComma w) name) [chr ":"] false);
  MojObjectVisitor.nullValue w := Ok (literal w MojJsonNullString);
  MojObjectVisitor.boolValue w val := Ok (literal w (if val : bool then MojJsonTrueString else MojJsonFalseString));
  MojObjectVisitor.intValue w val := Ok (literal w (format_lld val));
  MojObjectVisitor.decimalValue w val :=
    let? buf := MojDecimal.stringValue val MojDecimal.MaxStringSize in Ok (literal w buf);
  MojObjectVisitor.stringValue w val := Ok (writeString (writeComma w) val)
|}.

(** *** The text of an object *)
Definition commas (l : list mstring) : mstring :=
  match l with [] => [] | x :: l' => x ++ flat_map (cons (chr ",")) l' end.

Definition decimal_text (r : Z) : mstring :=
  match MojDecimal.stringValue r MojDecimal.MaxStringSize with Ok s => s | Err _ => [] end.

Lemma decimal_text_eq r : MojDecimal.stringValue r MojDecimal.MaxStringSize = Ok (decimal_text r).
Proof. reflexivity. Qed.

Fixpoint text (o : MojObject) : mstring :=
  match o with
  | UndefinedImpl | NullImpl => MojJsonNullString
  | ObjectImpl m => chr "{" :: commas (map (fun kv => quoted kv.1 ++ chr ":" :: text kv.2) m) ++ [chr "}"]
  | ArrayImpl v => chr "[" :: commas (map text v) ++ [chr "]"]
  | StringImpl s => quoted s
  | BoolImpl b => if b then MojJsonTrueString else MojJsonFalseString
  | DecimalImpl r => decimal_text r
  | IntImpl v => format_lld v
  end.

Definition comma (w : MojJsonWriter) : mstring := if m_writeComma w then [chr ","] else [].

Lemma literal_eq w s : literal w s = append w (comma w ++ s) true.
Proof.
  unfold literal, writeComma, comma. destruct (m_writeComma w); unfold append; simpl;
    by rewrite <- ?app_assoc, ?app_nil_r.
Qed.

Lemma commas_snoc l x : l <> [] -> commas (l ++ [x]) = commas l ++ chr "," :: x.
Proof.
  destruct l as [|y l]; [done|]. intros _. simpl. rewrite flat_map_app. simpl.
  by rewrite app_nil_r, app_assoc.
Qed.

(** Elements one after the other, with commas between them. *)
Lemma fold_elements {A} (f : MojJsonWriter -> A -> res MojJsonWriter) (t : A -> mstring) l w :
  Forall (fun x => forall w, f w x = Ok (append w (comma w ++ t x) true)) l ->
  m_writeComma w = false ->
  res_fold f w l = Ok (append w (commas (map t l)) (match l with [] => false | _ => true end)).
Proof.
  intros H Hw. destruct H as [|x l Hx H]; [destruct w; simpl in *; subst; unfold append; simpl; by rewrite app_nil_r|].
  cbn [res_fold]. rewrite Hx. unfold comma. rewrite Hw. simpl. clear Hx.
  assert (forall s, res_fold f (append w s true) l =
    Ok (append w (s ++ flat_map (cons (chr ",")) (map t l)) true)) as E.
  { induction H as [|y l Hy H IH]; intros s; simpl; [by rewrite app_nil_r|].
    rewrite Hy. simpl. unfold append at 1. simpl. fold (append w (s ++ chr "," :: t y) true).
    specialize (IH (s ++ chr "," :: t y)). unfold append in *. simpl in *.
    rewrite <- app_assoc, IH. f_equal. f_equal. by rewrite <- !app_assoc. }
  apply E.
Qed.

Lemma visit_text o : MojObject.ok o -> forall w, MojObject.visit o w = Ok (append w (comma w ++ text o) true).
Proof.
  assert (forall w s, writeString (writeComma w) s = append w (comma w ++ quoted s) true) as Q.
  { intros w s. unfold writeString, writeComma, comma. destruct (m_writeComma w); unfold append; simpl;
      by rewrite <- ?app_assoc, ?app_nil_r. }
  induction o as [| |s|b|r|v|m IH|v IH] using MojObject_nested_ind; intros Ho w;
    try exact (f_equal Ok (literal_eq w _)).
  - apply MojObject.ok_object in Ho as [_ Hf]. cbn [MojObject.visit]. simpl MojObjectVisitor.beginObject.
    cbn [res_bind].
    rewrite (fold_elements _ (fun kv => quoted kv.1 ++ chr ":" :: text kv.2)).
    + simpl. f_equal. unfold append, writeComma, comma. simpl.
      destruct (m_writeComma w); simpl; rewrite <- ?app_assoc; simpl; by rewrite <- ?app_assoc.
    + rewrite Forall_forall in IH, Hf. apply Forall_forall. intros kv Hkv w'. simpl. rewrite Q. rewrite (IH kv Hkv (proj2 (Hf kv Hkv))).
      unfold append, comma, quoted. simpl. rewrite <- !app_assoc. simpl. by rewrite <- !app_assoc.
    + done.
  - apply MojObject.ok_array in Ho. cbn [MojObject.visit]. simpl MojObjectVisitor.beginArray.
    cbn [res_bind]. rewrite (fold_elements _ text).
    + simpl. f_equal. unfold append, writeComma, comma. simpl.
      destruct (m_writeComma w); simpl; rewrite <- ?app_assoc; simpl; by rewrite <- ?app_assoc.
    + rewrite Forall_forall in IH, Ho. apply Forall_forall. intros x Hx w'. apply IH; auto.
    + done.
Qed.
End MojJsonWriter.

(** ** [MojJsonParser] *)
Module MojJsonParser.
Definition MaxDepth : nat := 32.

Inductive State :=
| StateEatWhitespace | StateStart | StateFinish | StateNull
| StateCommentStart | StateComment | StateCommentEol | StateCommentEnd
| StateString | StateStringEscape | StateEscapeUnicode | StateBool | StateNumber
| StateArray | StateArraySep
| StateObjFieldStart | StateObjField | StateObjFieldEnd | StateObjValue | StateObjSep.

Record StackRec := { m_state : State; m_savedState : State }.

(** [m_stack] up to [m_depth], the current record first: a record above the
    current one is always reset before it is read. *)
Record MojJsonParser := {
  cur : StackRec;
  below : list StackRec;
  m_strPos : nat;
  m_ucsChar : Z;
  m_matchTrue : bool;   (* which of the two strings [m_matchStr] points to *)
  m_isDecimal : bool;
  m_str : mstring
}.

Definition m_depth (p : MojJsonParser) : nat := length (below p).

Definition resetRec : StackRec := {| m_state := StateEatWhitespace; m_savedState := StateStart |}.

Definition begin : MojJsonParser :=
  {| cur := resetRec; below := []; m_strPos := 0; m_ucsChar := 0; m_matchTrue := false;
     m_isDecimal := false; m_str := [] |}.

Definition with_cur (p : MojJsonParser) (r : StackRec) : MojJsonParser :=
  {| cur := r; below := below p; m_strPos := m_strPos p; m_ucsChar := m_ucsChar p;
     m_matchTrue := m_matchTrue p; m_isDecimal := m_isDecimal p; m_str := m_str p |}.
Definition set_state (p : MojJsonParser) (s : State) : MojJsonParser :=
  with_cur p {| m_state := s; m_savedState := m_savedState (cur p) |}.
(** [savedState() = saved; state() = StateEatWhitespace]. *)
Definition eat_then (p : MojJsonParser) (saved : State) : MojJsonParser :=
  with_cur p {| m_state := StateEatWhitespace; m_savedState := saved |}.
Definition escape_from (p : MojJsonParser) (saved : State) : MojJsonParser :=
  with_cur p {| m_state := StateStringEscape; m_savedState := saved |}.
Definition set_str (p : MojJsonParser) (s : mstring) : MojJsonParser :=
  {| cur := cur p; below := below p; m_strPos := m_strPos p; m_ucsChar := m_ucsChar p;
     m_matchTrue := m_matchTrue p; m_isDecimal := m_isDecimal p; m_str := s |}.
Definition append (p : MojJsonParser) (s : mstring) : MojJsonParser := set_str p (m_str p ++ s).
Definition set_pos (p : MojJsonParser) (pos : nat) (ucs : Z) : MojJsonParser :=
  {| cur := cur p; below := below p; m_strPos := pos; m_ucsChar := ucs;
     m_matchTrue := m_matchTrue p; m_isDecimal := m_isDecimal p; m_str := m_str p |}.
Definition set_match (p : MojJsonParser) (b : bool) : MojJsonParser :=
  {| cur := cur p; below := below p; m_strPos := 0; m_ucsChar := m_ucsChar p;
     m_matchTrue := b; m_isDecimal := m_isDecimal p; m_str := m_str p |}.
Definition set_decimal (p : MojJsonParser) (b : bool) : MojJsonParser :=
  {| cur := cur p; below := below p; m_strPos := m_strPos p; m_ucsChar := m_ucsChar p;
     m_matchTrue := m_matchTrue p; m_isDecimal := b; m_str := m_str p |}.

Definition push (p : MojJsonParser) : res MojJsonParser :=
  if (MaxDepth - 1 <=? m_depth p)%nat then Err MojErrJsonParseMaxDepth
  else Ok {| cur := resetRec; below := cur p :: below p; m_strPos := m_strPos p; m_ucsChar := m_ucsChar p;
             m_matchTrue := m_matchTrue p; m_isDecimal := m_isDecimal p; m_str := m_str p |}.

Definition finished (p : MojJsonParser) : bool :=
  match m_state (cur p), below p with StateFinish, [] => true | _, _ => false end.

Definition isHexDigit (c : Z) : bool :=
  isdigit c || ((97 <=? c) && (c <=? 102)) || ((65 <=? c) && (c <=? 70)).
Definition hexDigit (c : Z) : Z := if c <=? 57 then c - 48 else Z.land c 7 + 9.

(** The UTF-8 bytes of a code unit. *)
Definition utf8 (u : Z) : mstring :=
  if u <? 128 then [u]
  else if u <? 2048 then [Z.lor 192 (Z.shiftr u 6); Z.lor 128 (Z.land u 63)]
  else [Z.lor 224 (Z.shiftr u 12); Z.lor 128 (Z.land (Z.shiftr u 6) 63); Z.lor 128 (Z.land u 63)].

Definition escapeChar (c : Z) : option Z :=
  if (c =? 34) || (c =? 92) || (c =? 47) then Some c
  else if c =? chr "b" then Some 8 else if c =? chr "n" then Some 10
  else if c =? chr "r" then Some 13 else if c =? chr "t" then Some 9
  else if c =? chr "f" then Some 12 else None.

Definition matchStr (p : MojJsonParser) : mstring :=
  if m_matchTrue p then MojJsonTrueString else MojJsonFalseString.

Section parse.
Context {S : Type} `{!Visitor S}.

(** How one turn of the [switch] ends: with the next character ([break]), with
    this one again ([goto Redo]), or for good ([goto Done]). *)
Inductive Turn :=
| Break (p : MojJsonParser) (v : S)
| Redo (p : MojJsonParser) (v : S)
| Done (p : MojJsonParser) (v : S).

Definition startTurn (p : MojJsonParser) (v : S) (c : Z) : res Turn :=
  if c =? chr "{" then
    let? v := MojObjectVisitor.beginObject v in Ok (Break (eat_then p StateObjFieldStart) v)
  else if c =? chr "[" then
    let? v := MojObjectVisitor.beginArray v in Ok (Break (eat_then p StateArray) v)
  else if c =? chr "n" then Ok (Redo (set_pos (set_state p StateNull) 0 (m_ucsChar p)) v)
  else if c =? 34 then Ok (Break (set_str (set_state p StateString) []) v)
  else if (c =? chr "t") || (c =? chr "f") then
    Ok (Redo (set_match (set_state p StateBool) (c =? chr "t")) v)
  else if isdigit c || (c =? chr "-") then
    Ok (Redo (set_decimal (set_str (set_state p StateNumber) []) false) v)
  else if c =? 0 then Ok (Break p v)
  else Err MojErrJsonParseUnexpected.

Definition unicodeTurn (p : MojJsonParser) (v : S) (c : Z) : res Turn :=
  if isHexDigit c && (m_strPos p <=? 3)%nat then
    let ucs := m_ucsChar p + Z.shiftl (hexDigit c) (Z.of_nat (3 - m_strPos p) * 4) in
    let p := set_pos p (m_strPos p + 1) ucs in
    if Nat.eqb (m_strPos p) 4 then
      if ucs =? 0 then Err MojErrJsonParseEscape
      else Ok (Break (set_state (append p (utf8 ucs)) (m_savedState (cur p))) v)
    else Ok (Break p v)
  else Err MojErrJsonParseEscape.

Definition numberTurn (p : MojJsonParser) (v : S) (c : Z) : res Turn :=
  if (c =? chr ".") || (c =? chr "e") || (c =? chr "E") then Ok (Break (append (set_decimal p true) [c]) v)
  else if isdigit c || (c =? chr "+") || (c =? chr "-") then Ok (Break (append p [c]) v)
  else
    let? v := if m_isDecimal p then
                let? d := MojNumber.assign (m_str p) in MojObjectVisitor.decimalValue v d
              else
                let '(i, numberEnd) := MojOs.MojStrToInt64 (m_str p) 0 in
                let? v := MojObjectVisitor.intValue v i in
                match numberEnd with [] => Ok v | _ => Err MojErrJsonParseInt end in
    Ok (Redo (eat_then p StateFinish) v).

Definition turn (p : MojJsonParser) (v : S) (c : Z) : res Turn :=
  match m_state (cur p) with
  | StateEatWhitespace =>
      if isspace c then Ok (Break p v)
      else if c =? chr "/" then Ok (Break (set_state p StateCommentStart) v)
      else Ok (Redo (set_state p (m_savedState (cur p))) v)
  | StateStart => startTurn p v c
  | StateFinish =>
      match below p with
      | [] => Ok (Done p v)
      | r :: rs => Ok (Redo {| cur := r; below := rs; m_strPos := m_strPos p; m_ucsChar := m_ucsChar p;
                               m_matchTrue := m_matchTrue p; m_isDecimal := m_isDecimal p; m_str := m_str p |} v)
      end
  | StateNull =>
      if negb (c =? nth (m_strPos p) MojJsonNullString 0) then Err MojErrJsonParseNull
      else
        let p := set_pos p (m_strPos p + 1) (m_ucsChar p) in
        if Nat.eqb (m_strPos p) (length MojJsonNullString) then
          let? v := MojObjectVisitor.nullValue v in Ok (Break (eat_then p StateFinish) v)
        else Ok (Break p v)
  | StateCommentStart =>
      if c =? chr "*" then Ok (Break (set_state p StateComment) v)
      else if c =? chr "/" then Ok (Break (set_state p StateCommentEol) v)
      else Err MojErrJsonParseComment
  | StateComment => Ok (Break (if c =? chr "*" then set_state p StateCommentEnd else p) v)
  | StateCommentEol => Ok (Break (if c =? 10 then set_state p StateEatWhitespace else p) v)
  | StateCommentEnd =>
      if c =? chr "/" then Ok (Break (set_state p StateEatWhitespace) v)
      else Ok (Redo (set_state p StateComment) v)
  | StateString =>
      if c =? 34 then
        let? v := MojObjectVisitor.stringValue v (m_str p) in Ok (Break (eat_then p StateFinish) v)
      else if c =? 92 then Ok (Break (escape_from p StateString) v)
      else Ok (Break (append p [c]) v)
  | StateStringEscape =>
      if c =? chr "u" then Ok (Break (set_pos (set_state p StateEscapeUnicode) 0 0) v)
      else match escapeChar c with
           | Some e => Ok (Break (set_state (append p [e]) (m_savedState (cur p))) v)
           | None => Err MojErrJsonParseEscape
           end
  | StateEscapeUnicode => unicodeTurn p v c
  | StateBool =>
      if negb (c =? nth (m_strPos p) (matchStr p) 0) then Err MojErrJsonParseBool
      else
        let p := set_pos p (m_strPos p + 1) (m_ucsChar p) in
        if Nat.eqb (m_strPos p) (length (matchStr p)) then
          let? v := MojObjectVisitor.boolValue v (m_matchTrue p) in Ok (Break (eat_then p StateFinish) v)
        else Ok (Break p v)
  | StateNumber => numberTurn p v c
  | StateArray =>
      if c =? chr "]" then
        let? v := MojObjectVisitor.endArray v in Ok (Break (eat_then p StateFinish) v)
      else let? p := push (set_state p StateArraySep) in Ok (Redo p v)
  | StateArraySep =>
      if c =? chr "]" then
        let? v := MojObjectVisitor.endArray v in Ok (Break (eat_then p StateFinish) v)
      else if c =? chr "," then Ok (Break (eat_then p StateArray) v)
      else Err MojErrJsonParseArray
  | StateObjFieldStart =>
      if c =? chr "}" then
        let? v := MojObjectVisitor.endObject v in Ok (Break (eat_then p StateFinish) v)
      else if c =? 34 then Ok (Break (set_state (set_str p []) StateObjField) v)
      else Err MojErrJsonParsePropName
  | StateObjField =>
      if c =? 34 then
        let? v := MojObjectVisitor.propName v (m_str p) in Ok (Break (eat_then p StateObjFieldEnd) v)
      else if c =? 92 then Ok (Break (escape_from p StateObjField) v)
      else Ok (Break (append p [c]) v)
  | StateObjFieldEnd =>
      if c =? chr ":" then Ok (Break (eat_then p StateObjValue) v) else Err MojErrJsonParsePropName
  | StateObjValue => let? p := push (eat_then p StateObjSep) in Ok (Redo p v)
  | StateObjSep =>
      if c =? chr "}" then
        let? v := MojObjectVisitor.endObject v in Ok (Break (eat_then p StateFinish) v)
      else if c =? chr "," then Ok (Break (eat_then p StateObjFieldStart) v)
      else Err MojErrJsonParseValueSep
  end.

(** The turns for one character.  [feed_fuel] shows that nine are enough. *)
Fixpoint feed (turns : nat) (p : MojJsonParser) (v : S) (c : Z) : res (MojJsonParser * S * bool) :=
  match turns with
  | O => Err AssertFailed
  | Datatypes.S turns' =>
      let? t := turn p v c in
      match t with
      | Break p v => Ok (p, v, false)
      | Redo p v => feed turns' p v c
      | Done p v => Ok (p, v, true)
      end
  end.

Definition maxTurns : nat := 9.

(** [parseEnd] is the first character not consumed. *)
Fixpoint parseChunk (p : MojJsonParser) (v : S) (chars : mstring) : res (MojJsonParser * S * mstring) :=
  match chars with
  | [] => Ok (p, v, [])
  | c :: chars' =>
      let? (p, v, done) := feed maxTurns p v c in
      if done : bool then Ok (p, v, chars) else parseChunk p v chars'
  end.

Definition end_ (p : MojJsonParser) (v : S) : res (MojJsonParser * S) :=
  let? (p, v, _) := parseChunk p v [0] in Ok (p, v).

Definition parse (v : S) (chars : mstring) : res S :=
  let? (p, v, _) := parseChunk begin v chars in
  let? (p, v) := end_ p v in
  if finished p then Ok v else Err MojErrJsonParseEof.

(** With length [MojSizeMax] there is no end: the parser reads the terminator too
    and, unless it is done there, what lies behind the string. *)
Definition parse_cstr (v : S) (str : mstring) : res S :=
  let? (p, v, rest) := parseChunk begin v (str ++ [0]) in
  match rest with
  | [] => Err AssertFailed
  | _ => let? (p, v) := end_ p v in if finished p then Ok v else Err MojErrJsonParseEof
  end.

(** *** A character takes at most nine turns *)
Definition rank_saved (s : State) : nat :=
  match s with
  | StateObjValue | StateArray => 7 | StateStart => 5 | StateNumber => 4 | StateFinish => 2
  | StateCommentEnd => 1 | _ => 0
  end%nat.

Definition rank (r : StackRec) : nat :=
  match m_state r with StateEatWhitespace => Datatypes.S (rank_saved (m_savedState r)) | s => rank_saved s end.

(** The record waits for a value; [savedState()] is never [StateEatWhitespace]. *)
Definition parent_ok (r : StackRec) : Prop :=
  m_savedState r <> StateEatWhitespace /\
  (m_state r = StateArraySep \/ (m_state r = StateEatWhitespace /\ m_savedState r = StateObjSep)).

Definition parser_ok (p : MojJsonParser) : Prop :=
  m_savedState (cur p) <> StateEatWhitespace /\ Forall parent_ok (below p) /\
  (m_depth p < MaxDepth)%nat.

Definition turn_ok (p : MojJsonParser) (t : Turn) : Prop :=
  match t with
  | Break p' _ | Done p' _ => parser_ok p'
  | Redo p' _ => parser_ok p' /\ (rank (cur p') < rank (cur p))%nat
  end.

Lemma begin_ok : parser_ok begin.
Proof. split; [done|]. split; [constructor|]. unfold m_depth, MaxDepth. simpl. lia. Qed.

Lemma push_ok p r : parser_ok p -> parent_ok r -> forall p', push (with_cur p r) = Ok p' ->
  parser_ok p' /\ cur p' = resetRec.
Proof.
  intros (H1 & H2 & H3) Hr p'. unfold push. destruct (Nat.leb_spec (MaxDepth - 1) (m_depth (with_cur p r))); [done|].
  intros [= <-]. split; [|done]. split; [done|]. split; [by constructor|].
  unfold m_depth, MaxDepth in *. simpl in *. lia.
Qed.

Lemma turn_wf p v c t : parser_ok p -> turn p v c = Ok t -> turn_ok p t.
Proof.
  intros Hp H. pose proof Hp as (Hs & Hb & Hd).
  destruct p as [[st sv] bl pos ucs mt dec str]. unfold turn, startTurn, unicodeTurn, numberTurn in H.
  simpl in Hs, Hb, H. unfold m_depth in Hd. simpl in Hd.
  assert (forall st' sv' pos' ucs' mt' dec' str', sv' <> StateEatWhitespace ->
    parser_ok {| cur := {| m_state := st'; m_savedState := sv' |}; below := bl; m_strPos := pos';
                 m_ucsChar := ucs'; m_matchTrue := mt'; m_isDecimal := dec'; m_str := str' |}) as K.
  { intros. split; [done|]. split; [done|]. done. }
  destruct st; simpl in H.
  14: {  (* StateArray *)
    destruct (c =? chr "]"); [res_inv; simpl; by apply K|].
    apply res_bind_ok in H as (p' & E & [= <-]). unfold set_state in E. simpl in E.
    eapply push_ok in E as [E1 E2]; [|done|by split; [|left]]. simpl. rewrite E2. split; [done|]. unfold rank. simpl. lia. }
  18: { (* StateObjValue *)
    apply res_bind_ok in H as (p' & E & [= <-]). unfold eat_then in E. simpl in E.
    eapply push_ok in E as [E1 E2]; [|done|by split; [|right]]. simpl. rewrite E2. split; [done|]. unfold rank. simpl. lia. }
  3: { (* StateFinish *)
    destruct bl as [|r rs]; injection H as <-; simpl; [done|].
    apply Forall_cons in Hb as [[Hr1 Hr2] Hrs]. split.
    - split; [done|]. split; [done|]. unfold m_depth. simpl in *. lia.
    - unfold rank. destruct r as [rst rsv]. simpl in *. destruct Hr2 as [->|[-> ->]]; simpl; lia. }
  all: res_inv; simpl; try (by apply K); try (split; [by apply K|]; unfold rank; simpl; lia).
  all: try (destruct (_ =? _); by apply K).
  all: split; [by apply K|]; unfold rank; simpl; destruct sv; simpl; lia || done.
Qed.

Lemma rank_max r : (rank r <= 8)%nat.
Proof. unfold rank. destruct (m_state r); simpl; try lia. destruct (m_savedState r); simpl; lia. Qed.

(** More turns than the rank give the same result. *)
Lemma feed_fuel n1 n2 p v c : parser_ok p -> (rank (cur p) < n1)%nat -> (rank (cur p) < n2)%nat ->
  feed n1 p v c = feed n2 p v c.
Proof.
  revert n2 p v. induction n1 as [|n1 IH]; intros [|n2] p v Hp H1 H2; try lia. cbn [feed].
  destruct (turn p v c) as [t|e] eqn:E; [|done]. cbn [res_bind].
  apply turn_wf in E; [|done]. destruct t as [p' v'|p' v'|p' v']; try done. destruct E as [E1 E2].
  apply IH; [done|lia|lia].
Qed.

Lemma feed_redo p v c p' v' : parser_ok p -> turn p v c = Ok (Redo p' v') ->
  feed maxTurns p v c = feed maxTurns p' v' c.
Proof.
  intros Hp E. pose proof (turn_wf _ _ _ _ Hp E) as [Hp' Hr].
  pose proof (rank_max (cur p)). pose proof (rank_max (cur p')).
  transitivity (feed 8 p' v' c); [|apply feed_fuel; unfold maxTurns; [done|lia..]].
  change maxTurns with (Datatypes.S 8). cbn [feed]. by rewrite E.
Qed.

(** *** One character at a time *)
Lemma chunk_break (X : res S) p v c cs p' :
  turn p v c = (let? v' := X in Ok (Break p' v')) ->
  parseChunk p v (c :: cs) = let? v' := X in parseChunk p' v' cs.
Proof.
  intros E. cbn [parseChunk]. change maxTurns with (Datatypes.S 8). cbn [feed]. rewrite E.
  by destruct X.
Qed.

Lemma chunk_next p v c cs p' v' : turn p v c = Ok (Break p' v') ->
  parseChunk p v (c :: cs) = parseChunk p' v' cs.
Proof. intros E. by rewrite (chunk_break (Ok v') p v c cs p' E). Qed.

Lemma chunk_redo_bind (X : res S) p v c cs p' : parser_ok p ->
  turn p v c = (let? v' := X in Ok (Redo p' v')) ->
  parseChunk p v (c :: cs) = let? v' := X in parseChunk p' v' (c :: cs).
Proof.
  intros Hp E. destruct X as [v'|e]; simpl in E.
  - cbn [res_bind parseChunk]. by rewrite (feed_redo p v c p' v').
  - cbn [parseChunk]. change maxTurns with (Datatypes.S 8). cbn [feed]. by rewrite E.
Qed.

Lemma chunk_redo p v c cs p' v' : parser_ok p -> turn p v c = Ok (Redo p' v') ->
  parseChunk p v (c :: cs) = parseChunk p' v' (c :: cs).
Proof. intros Hp E. by rewrite (chunk_redo_bind (Ok v') p v c cs p'). Qed.

(** A character that is not eaten as white space. *)
Definition solid (c : Z) : Prop := isspace c = false /\ c <> 47.

Lemma turn_eat p v c saved : cur p = {| m_state := StateEatWhitespace; m_savedState := saved |} ->
  solid c -> turn p v c = Ok (Redo (with_cur p {| m_state := saved; m_savedState := saved |}) v).
Proof.
  intros E [H1 H2]. unfold turn. rewrite E. simpl. rewrite H1.
  change (chr "/") with 47. destruct (Z.eqb_spec c 47); [done|]. unfold set_state. by rewrite E.
Qed.

Lemma eat_ok p saved st : parser_ok p -> saved <> StateEatWhitespace ->
  parser_ok (with_cur p {| m_state := st; m_savedState := saved |}).
Proof. intros (H1 & H2 & H3) Hs. by split. Qed.

Lemma chunk_eat p v c cs saved : parser_ok p ->
  cur p = {| m_state := StateEatWhitespace; m_savedState := saved |} -> solid c ->
  parseChunk p v (c :: cs) = parseChunk (with_cur p {| m_state := saved; m_savedState := saved |}) v (c :: cs).
Proof. intros Hp E Hc. apply chunk_redo; [done|]. by apply turn_eat. Qed.

(** *** Strings *)
Lemma control_cases (P : Z -> Prop) :
  (forall c, c ∈ seqZ 1 31 -> P c) -> forall c, 1 <= c < 32 -> P c.
Proof. intros H c Hc. apply H. apply elem_of_seqZ. lia. Qed.

(** The states that collect characters; an escape returns to them. *)
Definition collecting (st : State) : Prop := st = StateString \/ st = StateObjField.

Lemma escape_char st c : collecting st -> 1 <= c < 256 ->
  forall p, m_state (cur p) = st -> exists p', m_state (cur p') = st /\ below p' = below p /\
    (m_savedState (cur p) <> StateEatWhitespace -> m_savedState (cur p') <> StateEatWhitespace) /\
    m_str p' = m_str p ++ [c] /\
    forall v cs, parseChunk p v (MojJsonWriter.escape c ++ cs) = parseChunk p' v cs.
Proof.
  intros Hst Hc [[st' sv] bl pos ucs mt dec str] E. simpl in E. subst st'.
  destruct (Z_lt_le_dec c 32) as [L|L].
  - revert c L Hc. intros c L Hc. assert (1 <= c < 32) as Hc' by lia. clear Hc L. revert c Hc'. apply control_cases.
    intros c Hc. change (seqZ 1 31) with
      [1;2;3;4;5;6;7;8;9;10;11;12;13;14;15;16;17;18;19;20;21;22;23;24;25;26;27;28;29;30;31] in Hc.
    repeat (apply elem_of_cons in Hc as [->|Hc];
      [destruct Hst as [-> | ->]; (eexists; split; [|split; [|split; [|split; [|intros v cs; reflexivity]]]]);
       try reflexivity; simpl; done|]).
    by apply not_elem_of_nil in Hc.
  - destruct (Z.eqb_spec c 34) as [->|H34]; [|destruct (Z.eqb_spec c 92) as [->|H92]].
    + destruct Hst as [-> | ->]; (eexists; split; [|split; [|split; [|split; [|intros v cs; reflexivity]]]]);
       try reflexivity; simpl; done.
    + destruct Hst as [-> | ->]; (eexists; split; [|split; [|split; [|split; [|intros v cs; reflexivity]]]]);
       try reflexivity; simpl; done.
    + assert (MojJsonWriter.escape c = [c]) as ->.
      { unfold MojJsonWriter.escape.
        repeat match goal with |- context [c =? ?k] => destruct (Z.eqb_spec c k); [lia|] end.
        destruct (Z.ltb_spec c 32); [lia|done]. }
      match goal with |- exists p', _ /\ below p' = below ?p /\ _ => exists (append p [c]) end.
      split_and!; try done.
      intros v cs. apply chunk_next. unfold turn.
      destruct Hst as [-> | ->]; simpl; destruct (Z.eqb_spec c 34), (Z.eqb_spec c 92); done.
Qed.

Lemma escape_string st s : collecting st -> str_ok s ->
  forall p, m_state (cur p) = st -> m_savedState (cur p) <> StateEatWhitespace ->
  exists p', m_state (cur p') = st /\ m_savedState (cur p') <> StateEatWhitespace /\ below p' = below p /\
    m_str p' = m_str p ++ s /\
    forall v cs, parseChunk p v (flat_map MojJsonWriter.escape s ++ cs) = parseChunk p' v cs.
Proof.
  intros Hst Hs. induction Hs as [|c s Hc Hs IH]; intros p E Es.
  - exists p. split_and!; try done. by rewrite app_nil_r.
  - destruct (escape_char st c Hst ltac:(lia) p E) as (p1 & E1 & B1 & S1 & M1 & P1).
    destruct (IH p1 E1 (S1 Es)) as (p2 & E2 & S2 & B2 & M2 & P2).
    exists p2. split_and!; try done.
    + by rewrite B2.
    + by rewrite M2, M1, <- app_assoc.
    + intros v cs. simpl. rewrite <- app_assoc, P1. apply P2.
Qed.
End parse.
Arguments Turn : clear implicits.
End MojJsonParser.
