(* ===== verification/JsonRoundTrip.v ===== *)
(** * JSON, read back

    The parser applied to the text of an object: for every visitor it does what
    visiting the object does. *)

From S2P Require Import Prelude Containers Number Object ObjectBuilder Json.

Module JsonRoundTrip.
Import MojJsonParser.

Section parse.
Context {S : Type} `{!Visitor S}.

(** *** Numbers *)
Definition numchar (c : Z) : bool := isdigit c || (c =? 45) || (c =? 46).

(** What follows a value in the text of an object, or ends it. *)
Definition terminator (c : Z) : Prop := c ∈ [44; 93; 125; 0].

Definition is_point (c : Z) : bool := c =? 46.

Lemma number_chars s : Forall (fun c => numchar c = true) s ->
  forall p, m_state (cur p) = StateNumber -> forall v cs,
  parseChunk p v (s ++ cs) =
    parseChunk (append (set_decimal p (m_isDecimal p || existsb is_point s)) s) v cs.
Proof.
  induction 1 as [|c s Hc Hs IH]; intros p E v cs.
  - simpl. rewrite orb_false_r. f_equal. destruct p. unfold append, set_str, set_decimal. simpl. by rewrite app_nil_r.
  - cbn [app existsb]. assert (turn p v c = Ok (Break (append (set_decimal p (m_isDecimal p || is_point c)) [c]) v)) as T.
    { unfold turn. rewrite E. unfold numberTurn, numchar, is_point in *.
      change (chr ".") with 46. change (chr "-") with 45. change (chr "e") with 101.
      change (chr "E") with 69. change (chr "+") with 43.
      destruct (Z.eqb_spec c 46) as [->|]; [by rewrite orb_true_r|].
      rewrite orb_false_r in Hc. rewrite orb_false_r. simpl.
      assert ((c =? 101) || (c =? 69) = false) as ->.
      { unfold isdigit in Hc. destruct (Z.eqb_spec c 101), (Z.eqb_spec c 69); subst; done. }
      assert (isdigit c || (c =? 43) || (c =? 45) = true) as ->.
      { apply orb_true_iff in Hc as [-> | ->]; [done|]. by rewrite orb_true_r. }
      destruct p. done. }
    rewrite (chunk_next _ _ _ _ _ _ T), IH by done. f_equal.
    unfold append, set_str, set_decimal. destruct p. simpl. by rewrite <- app_assoc, orb_assoc.
Qed.

Definition number_result (v : S) (str : mstring) : res S :=
  if existsb is_point str then let? d := MojNumber.assign str in MojObjectVisitor.decimalValue v d
  else let '(i, numberEnd) := MojOs.MojStrToInt64 str 0 in
       let? v := MojObjectVisitor.intValue v i in
       match numberEnd with [] => Ok v | _ => Err MojErrJsonParseInt end.

Lemma number_value d s p : isdigit d = true \/ d = 45 -> Forall (fun c => numchar c = true) s ->
  parser_ok p -> cur p = resetRec ->
  exists p', cur p' = {| m_state := StateEatWhitespace; m_savedState := StateFinish |} /\
    below p' = below p /\
    forall v c rest, terminator c ->
      parseChunk p v ((d :: s) ++ c :: rest) =
        let? v' := number_result v (d :: s) in parseChunk p' v' (c :: rest).
Proof.
  intros Hd Hs Hp E.
  set (p1 := set_decimal (set_str (with_cur p {| m_state := StateNumber; m_savedState := StateStart |}) []) false).
  set (p2 := append (set_decimal p1 (existsb is_point (d :: s))) (d :: s)).
  exists (eat_then p2 StateFinish). split; [done|]. split; [done|]. intros v c rest Hc.
  assert (numchar d = true /\ solid d) as [Hnd Hsd].
  { unfold numchar, solid, isspace, isdigit in *. destruct Hd as [Hd| ->]; [lia|done]. }
  cbn [app]. rewrite (chunk_eat p v d _ StateStart) by (done || (by rewrite E)).
  rewrite (chunk_redo _ _ _ _ p1 v); [|by apply eat_ok|].
  2:{ unfold turn, startTurn. simpl. change (chr "{") with 123. change (chr "[") with 91.
      change (chr "n") with 110. change (chr "t") with 116. change (chr "f") with 102. change (chr "-") with 45.
      unfold isdigit in *.
      destruct (Z.eqb_spec d 123), (Z.eqb_spec d 91), (Z.eqb_spec d 110), (Z.eqb_spec d 34),
        (Z.eqb_spec d 116), (Z.eqb_spec d 102); try (subst; destruct Hd; done).
      simpl. assert ((48 <=? d) && (d <=? 57) || (d =? 45) = true) as ->.
      { destruct Hd as [-> | ->]; done. }
      done. }
  change (d :: s ++ c :: rest) with ((d :: s) ++ c :: rest).
  rewrite (number_chars (d :: s)) by (by constructor || done).
  change (m_isDecimal p1) with false. cbn [orb]. fold p2.
  apply chunk_redo_bind; [by apply (eat_ok p)|]. unfold turn. simpl m_state. cbv iota.
  unfold numberTurn. change (m_str p2) with (d :: s). change (m_isDecimal p2) with (existsb is_point (d :: s)).
  fold (number_result v (d :: s)).
  unfold terminator in Hc. repeat (apply elem_of_cons in Hc as [->|Hc]; [done|]). by apply not_elem_of_nil in Hc.
Qed.
End parse.

(** *** Printed numbers are read back *)
Lemma digits_dval ds acc : MojNumber.all_digits ds -> MojOs.digits 10 ds acc = (MojNumber.dval acc ds, []).
Proof.
  intros H. revert acc. induction H as [|d ds Hd Hs IH]; intros acc; [done|]. cbn [MojOs.digits].
  unfold MojOs.digitValue. rewrite MojNumber.isdigit_true by done.
  destruct (Z.ltb_spec (d - 48) 10); [|lia]. apply IH.
Qed.

Lemma tmpDigits_last fuel a : 0 < a < 10 ^ Z.of_nat fuel ->
  exists l x, MojDecimal.tmpDigits fuel a = l ++ [x] /\ 49 <= x <= 57.
Proof.
  revert a. induction fuel as [|fuel IH]; intros a Ha; [simpl in Ha; lia|].
  cbn [MojDecimal.tmpDigits]. destruct (Z.eqb_spec a 0); [lia|].
  rewrite Nat2Z.inj_succ, Z.pow_succ_r in Ha by lia. rewrite Z.quot_div_nonneg by lia. change (chr "0") with 48.
  destruct (Z.eq_dec (a / 10) 0) as [E|E].
  - exists [], (48 + a - a / 10 * 10). rewrite E. split; [by destruct fuel|].
    Z.to_euclidean_division_equations. lia.
  - destruct (IH (a / 10)) as (l & x & -> & Hx); [Z.to_euclidean_division_equations; lia|].
    eexists (_ :: l), x. split; [done|done].
Qed.

(** The digits of a positive number: the first is not zero. *)
Lemma print_digits a : 0 < a <= 2 ^ 63 -> exists d ds,
  rev (MojDecimal.tmpDigits 20 a) = d :: ds /\ 49 <= d <= 57 /\ MojNumber.all_digits (d :: ds) /\
  MojNumber.dval 0 (d :: ds) = a.
Proof.
  intros Ha. assert (a < 10 ^ Z.of_nat 20) as Hb.
  { change (10 ^ Z.of_nat 20) with 100000000000000000000. lia. }
  destruct (MojNumber.tmpDigits_spec 20 a) as [Hd Hv]; [lia|].
  destruct (tmpDigits_last 20 a) as (l & x & E & Hx); [lia|].
  exists x, (rev l). assert (rev (MojDecimal.tmpDigits 20 a) = x :: rev l) as R.
  { rewrite E. apply rev_app_distr. }
  split; [done|]. split; [done|]. rewrite <- R. split; [by apply List.Forall_rev|].
  by rewrite MojNumber.dval_rev.
Qed.

Lemma digits_numchar ds : MojNumber.all_digits ds -> Forall (fun c => numchar c = true) ds /\ existsb is_point ds = false.
Proof.
  induction 1 as [|d ds Hd Hs [IH1 IH2]]; [done|]. split.
  - constructor; [|done]. unfold numchar. by rewrite MojNumber.isdigit_true.
  - simpl. rewrite IH2. unfold is_point. lia.
Qed.

(** After a sign the digits are read in base ten. *)
Lemma strtoll_digits neg d ds : 49 <= d <= 57 -> MojNumber.all_digits (d :: ds) ->
  - 2 ^ 63 <= (if neg : bool then - MojNumber.dval 0 (d :: ds) else MojNumber.dval 0 (d :: ds)) < 2 ^ 63 ->
  MojOs.MojStrToInt64 ((if neg then [chr "-"] else []) ++ d :: ds) 0 =
    ((if neg then - MojNumber.dval 0 (d :: ds) else MojNumber.dval 0 (d :: ds)), []).
Proof.
  intros Hd Ha Hr. assert (MojOs.prefix 0 (d :: ds) = (10, d :: ds)) as Hp.
  { unfold MojOs.prefix. destruct (Z.eqb_spec d 48); [lia|]. by destruct ds. }
  assert (MojOs.isDigitOf 10 (d :: ds) = true) as Hi.
  { unfold MojOs.isDigitOf, MojOs.digitValue. rewrite MojNumber.isdigit_true by lia. lia. }
  unfold MojOs.MojStrToInt64. change (chr "-") with 45. change (chr "+") with 43.
  set (n := MojNumber.dval 0 (d :: ds)) in *.
  destruct neg.
  - change (MojOs.skipSpace ([45] ++ d :: ds)) with (45 :: d :: ds). cbv iota. rewrite Z.eqb_refl, Hp, Hi.
    rewrite digits_dval by done. fold n. f_equal. unfold MojInt64Min, MojInt64Max. lia.
  - assert (MojOs.skipSpace ([] ++ d :: ds) = d :: ds) as ->.
    { simpl. unfold isspace. destruct (Z.eqb_spec d 32); [lia|]. destruct (Z.leb_spec d 13); [lia|].
      by rewrite andb_false_r. }
    destruct (Z.eqb_spec d 45); [lia|]. destruct (Z.eqb_spec d 43); [lia|]. rewrite Hp, Hi.
    rewrite digits_dval by done. fold n. f_equal. unfold MojInt64Min, MojInt64Max. lia.
Qed.

(** The shape of a printed integer and what the parser makes of it. *)
Lemma int_text v : in_int 64 v -> exists d s, format_lld v = d :: s /\
  (isdigit d = true \/ d = 45) /\ Forall (fun c => numchar c = true) (d :: s) /\
  existsb is_point (d :: s) = false /\ MojOs.MojStrToInt64 (d :: s) 0 = (v, []).
Proof.
  intros Hv. unfold in_int in Hv. unfold format_lld. destruct (Z.eqb_spec v 0) as [->|Hn].
  { exists 48, []. split; [done|]. split; [by left|]. split; [by repeat constructor|]. done. }
  destruct (print_digits (Z.abs v)) as (d & ds & -> & Hd & Ha & Hval); [lia|].
  destruct (digits_numchar _ Ha) as [Hc Hp].
  pose proof (strtoll_digits (v <? 0) d ds Hd Ha) as R. rewrite Hval in R.
  destruct (Z.ltb_spec v 0).
  - exists 45, (d :: ds). split; [done|]. split; [by right|]. split; [by constructor|]. split; [exact Hp|].
    etransitivity; [apply R; lia|]. f_equal. lia.
  - exists d, ds. split; [done|]. split; [left; by apply MojNumber.isdigit_true; lia|]. split; [done|].
    split; [exact Hp|]. etransitivity; [apply R; lia|]. f_equal. lia.
Qed.

Lemma decimal_text_shape r : - MojInt64Max <= r <= MojInt64Max -> exists d s,
  MojJsonWriter.decimal_text r = d :: s /\ (isdigit d = true \/ d = 45) /\
  Forall (fun c => numchar c = true) (d :: s) /\ existsb is_point (d :: s) = true /\
  MojNumber.assign (d :: s) = Ok r.
Proof.
  intros Hr. destruct (MojNumber.stringValue_shape r Hr) as (ints & fracs & E & Hi & Hni & Hf & Hl & Ha).
  pose proof (MojNumber.assign_shape (r <? 0) ints fracs Hi Hni Hf Hl ltac:(lia)) as A.
  unfold MojJsonWriter.decimal_text. rewrite E.
  destruct (digits_numchar _ Hi) as [Hci Hpi], (digits_numchar _ Hf) as [Hcf Hpf].
  assert (forall ints, existsb is_point (ints ++ chr "." :: fracs) = true) as Hp.
  { intros l. rewrite existsb_app. simpl. by rewrite orb_true_r. }
  assert (Forall (fun c => numchar c = true) (ints ++ chr "." :: fracs)) as Hc.
  { apply Forall_app. split; [done|]. by constructor. }
  assert (Ok (A := Z) (if r <? 0 then - Z.abs r else Z.abs r) = Ok r) as Er by (f_equal; destruct (Z.ltb_spec r 0); lia).
  cbv zeta in A. rewrite <- Ha, Er in A. clear Er.
  destruct (r <? 0).
  - exists 45, (ints ++ chr "." :: fracs). split; [done|]. split; [by right|]. split; [by constructor|].
    split; [simpl; apply Hp|exact A].
  - destruct ints as [|d ints]; [done|]. exists d, (ints ++ chr "." :: fracs). split; [done|].
    apply Forall_cons in Hi as [Hi _]. split; [left; by apply MojNumber.isdigit_true|].
    split; [exact Hc|]. split; [apply (Hp (d :: ints))|exact A].
Qed.

(** *** Values *)

(** Records the parser pushes to read an object. *)
Fixpoint depth (o : MojObject) : nat :=
  match o with
  | ObjectImpl m => fold_right (fun kv n => Nat.max (Datatypes.S (depth kv.2)) n) 0%nat m
  | ArrayImpl v => fold_right (fun x n => Nat.max (Datatypes.S (depth x)) n) 0%nat v
  | _ => 0%nat
  end.

(** Decimals that can be printed. *)
Fixpoint printable (o : MojObject) : Prop :=
  match o with
  | ObjectImpl m => fold_right (fun kv P => printable kv.2 /\ P) True m
  | ArrayImpl v => fold_right (fun x P => printable x /\ P) True v
  | DecimalImpl r => r <> MojInt64Min
  | _ => True
  end.

Definition eat (saved : State) : StackRec := {| m_state := StateEatWhitespace; m_savedState := saved |}.

(** The first character of a value is neither white space nor a bracket. *)
Definition first_char (c : Z) : Prop := solid c /\ c <> 93 /\ c <> 125.

Lemma number_first d : isdigit d = true \/ d = 45 -> first_char d.
Proof. unfold first_char, solid, isspace, isdigit. lia. Qed.

Lemma text_first o : MojObject.ok o -> printable o -> exists c s, MojJsonWriter.text o = c :: s /\ first_char c.
Proof.
  intros Ho Hp. destruct o as [| |m|v|s|b|r|v]; try (eexists _, _; split; [reflexivity|done]).
  - destruct b; (eexists _, _; split; [reflexivity|done]).
  - simpl in Ho, Hp. unfold in_int in Ho. destruct (decimal_text_shape r) as (d & s & E & Hd & _).
    { unfold MojInt64Max, MojInt64Min in *. lia. }
    exists d, s. split; [exact E|by apply number_first].
  - destruct (int_text v Ho) as (d & s & E & Hd & _). exists d, s. split; [exact E|by apply number_first].
Qed.

Section values.
Context {S : Type} `{!Visitor S}.

(** From a record just pushed, the text of the value brings the parser to the end
    of the record and the visitor where visiting the value does. *)
Definition reads (o : MojObject) : Prop := forall p, parser_ok p -> cur p = resetRec ->
  (m_depth p + depth o < MaxDepth)%nat ->
  exists p', cur p' = eat StateFinish /\ below p' = below p /\
    forall (v : S) c rest, terminator c ->
      parseChunk p v (MojJsonWriter.text o ++ c :: rest) =
        let? v' := MojObject.visit o v in parseChunk p' v' (c :: rest).

Lemma ok_same_below p p' : parser_ok p -> below p' = below p -> m_savedState (cur p') <> StateEatWhitespace ->
  parser_ok p'.
Proof. intros (H1 & H2 & H3) E Hs. split; [done|]. unfold m_depth. by rewrite E. Qed.

(** At the end of a record the one below goes on with the terminator. *)
Lemma chunk_pop p r rs : parser_ok p -> cur p = eat StateFinish -> below p = r :: rs ->
  exists p', cur p' = r /\ below p' = rs /\ parser_ok p' /\
    forall (v : S) c rest, solid c -> parseChunk p v (c :: rest) = parseChunk p' v (c :: rest).
Proof.
  intros Hp E B.
  eexists {| cur := r; below := rs; m_strPos := m_strPos p; m_ucsChar := m_ucsChar p;
             m_matchTrue := m_matchTrue p; m_isDecimal := m_isDecimal p; m_str := m_str p |}.
  split; [done|]. split; [done|]. split.
  - destruct Hp as (H1 & H2 & H3). rewrite B in H2. apply Forall_cons in H2 as [[Hr _] H2].
    split; [done|]. split; [done|]. unfold m_depth in *. rewrite B in H3. simpl in *. lia.
  - intros v c rest Hc. rewrite (chunk_eat p v c rest StateFinish) by done.
    apply chunk_redo; [by apply eat_ok|]. unfold turn. simpl. by rewrite B.
Qed.

Lemma terminator_solid c : terminator c -> solid c.
Proof.
  unfold terminator. intros Hc. repeat (apply elem_of_cons in Hc as [->|Hc]; [done|]).
  by apply not_elem_of_nil in Hc.
Qed.

(** Push a record for a value whose first character has been seen. *)
Lemma push_eq p r : (m_depth p + 1 < MaxDepth)%nat ->
  push (with_cur p r) = Ok {| cur := resetRec; below := r :: below p; m_strPos := m_strPos p;
    m_ucsChar := m_ucsChar p; m_matchTrue := m_matchTrue p; m_isDecimal := m_isDecimal p; m_str := m_str p |}.
Proof.
  intros H. unfold push. destruct (Nat.leb_spec (MaxDepth - 1) (m_depth (with_cur p r))) as [L|L]; [|done].
  unfold m_depth, MaxDepth in *. simpl in *. lia.
Qed.

Lemma array_elements x vec : Forall (fun o => MojObject.ok o /\ printable o /\ reads o) (x :: vec) ->
  forall p, parser_ok p -> cur p = eat StateArray ->
  (forall o, o ∈ x :: vec -> m_depth p + 1 + depth o < MaxDepth)%nat ->
  exists p', cur p' = eat StateFinish /\ below p' = below p /\
    forall (v : S) rest,
      parseChunk p v (MojJsonWriter.commas (map MojJsonWriter.text (x :: vec)) ++ 93 :: rest) =
        let? v' := res_fold (fun v i => MojObject.visit i v) v (x :: vec) in
        let? v' := MojObjectVisitor.endArray v' in parseChunk p' v' rest.
Proof.
  revert x. induction vec as [|y vec IH]; intros x H p Hp E Hd;
    apply Forall_cons in H as [(Hox & Hpx & Hx) H];
    pose proof (Hd x ltac:(set_solver)) as Hdx;
    set (r := {| m_state := StateArraySep; m_savedState := StateArray |});
    set (q := {| cur := resetRec; below := r :: below p; m_strPos := m_strPos p; m_ucsChar := m_ucsChar p;
                 m_matchTrue := m_matchTrue p; m_isDecimal := m_isDecimal p; m_str := m_str p |}).
  all: assert (forall (v : S) c cs, first_char c -> parseChunk p v (c :: cs) = parseChunk q v (c :: cs)) as Hpush.
  1, 3: intros v c cs (Hs & H93 & _); rewrite (chunk_eat p v c cs StateArray) by done;
    apply chunk_redo; [by apply eat_ok|]; unfold turn; simpl; change (chr "]") with 93;
    destruct (Z.eqb_spec c 93); [done|]; unfold set_state; simpl;
    change (with_cur (with_cur p _) _) with (with_cur p r); rewrite push_eq by lia; reflexivity.
  all: assert (parser_ok q) as Hq by
    (destruct Hp as (P1 & P2 & P3); split; [done|]; split; [constructor; [by split; [|left]|done]|];
     unfold m_depth in *; simpl in *; lia).
  all: destruct (Hx q Hq eq_refl) as (p1 & E1 & B1 & R1); [unfold m_depth in *; simpl in *; lia|].
  all: assert (parser_ok p1) as Hp1 by (apply (ok_same_below q); [done|done|by rewrite E1]).
  all: destruct (chunk_pop p1 r (below p) Hp1 E1 B1) as (p2 & E2 & B2 & Hp2 & R2).
  all: destruct (text_first x Hox Hpx) as (c0 & s0 & T0 & F0).
  - exists (eat_then p2 StateFinish). split; [done|]. split; [done|]. intros v rest.
    cbn [map MojJsonWriter.commas flat_map res_fold]. rewrite app_nil_r, res_bind_ret, T0. cbn [app].
    rewrite Hpush by done. change (c0 :: s0 ++ 93 :: rest) with ((c0 :: s0) ++ 93 :: rest). rewrite <- T0.
    rewrite R1 by (unfold terminator; set_solver). apply res_bind_ext. intros v1.
    rewrite R2 by done. apply chunk_break. unfold turn. rewrite E2. done.
  - destruct (IH y H (eat_then p2 StateArray)) as (p3 & E3 & B3 & R3).
    + by apply (ok_same_below p2).
    + done.
    + intros o Ho. pose proof (Hd o ltac:(set_solver)). unfold m_depth in *. simpl. rewrite B2. lia.
    + exists p3. split; [done|]. split; [rewrite B3; exact B2|]. intros v rest.
      cbn [map MojJsonWriter.commas flat_map res_fold]. rewrite T0. cbn [app]. rewrite <- app_assoc.
      rewrite Hpush by done. rewrite app_comm_cons, <- T0. cbn [app].
      change (chr ",") with 44. rewrite R1 by (unfold terminator; set_solver).
      rewrite res_bind_assoc. apply res_bind_ext. intros v1.
      rewrite R2 by done. rewrite (chunk_next _ _ _ _ (eat_then p2 StateArray) v1).
      2:{ unfold turn. rewrite E2. done. }
      exact (R3 v1 rest).
Qed.

(** A property name, its colon and its value. *)
Lemma object_field k x p : str_ok k -> MojObject.ok x -> printable x -> reads x ->
  parser_ok p -> cur p = eat StateObjFieldStart -> (m_depth p + 1 + depth x < MaxDepth)%nat ->
  exists p', cur p' = eat StateObjSep /\ below p' = below p /\ parser_ok p' /\
    forall (v : S) c rest, terminator c ->
      parseChunk p v (MojJsonWriter.quoted k ++ chr ":" :: MojJsonWriter.text x ++ c :: rest) =
        let? v1 := MojObjectVisitor.propName v k in
        let? v2 := MojObject.visit x v1 in parseChunk p' v2 (c :: rest).
Proof.
  intros Hk Hox Hpx Hx Hp E Hd.
  set (r0 := {| m_state := StateObjFieldStart; m_savedState := StateObjFieldStart |}).
  set (p1 := set_state (set_str (with_cur p r0) []) StateObjField).
  destruct (escape_string StateObjField k ltac:(by right) Hk p1 eq_refl ltac:(done))
    as (p2 & E2 & S2 & B2 & M2 & R2).
  assert (parser_ok p2) as Hp2 by (by apply (ok_same_below p)).
  set (p3 := eat_then p2 StateObjFieldEnd).
  assert (parser_ok p3) as Hp3 by (by apply (ok_same_below p2)).
  set (r3 := {| m_state := StateObjFieldEnd; m_savedState := StateObjFieldEnd |}).
  set (p4 := eat_then (with_cur p3 r3) StateObjValue).
  assert (parser_ok p4) as Hp4 by (by apply (ok_same_below p2)).
  set (q := {| cur := resetRec; below := eat StateObjSep :: below p4; m_strPos := m_strPos p4;
               m_ucsChar := m_ucsChar p4; m_matchTrue := m_matchTrue p4; m_isDecimal := m_isDecimal p4;
               m_str := m_str p4 |}).
  assert (below p4 = below p) as B4 by exact B2.
  assert (parser_ok q) as Hq.
  { destruct Hp4 as (P1 & P2 & P3). split; [done|]. split; [constructor; [by split; [|right]|done]|].
    unfold m_depth in *. simpl in *. rewrite B2. change (below p1) with (below p). lia. }
  destruct (Hx q Hq eq_refl) as (p5 & E5 & B5 & R5).
  { unfold m_depth in *. simpl. rewrite B2. change (below p1) with (below p). lia. }
  assert (parser_ok p5) as Hp5 by (apply (ok_same_below q); [done|done|by rewrite E5]).
  destruct (chunk_pop p5 (eat StateObjSep) (below p4) Hp5 E5 B5) as (p6 & E6 & B6 & Hp6 & R6).
  destruct (text_first x Hox Hpx) as (c0 & s0 & T0 & F0).
  exists p6. split; [done|]. split; [by rewrite B6|]. split; [done|]. intros v c rest Hc.
  unfold MojJsonWriter.quoted. cbn [app]. rewrite <- app_assoc. cbn [app].
  rewrite (chunk_eat p v 34 _ StateObjFieldStart) by done. fold r0.
  rewrite (chunk_next _ _ _ _ p1 v) by done. rewrite R2.
  rewrite (chunk_break (MojObjectVisitor.propName v k) p2 v 34 _ p3).
  2:{ unfold turn. rewrite E2. simpl. by rewrite M2. }
  apply res_bind_ext. intros v1. change (chr ":") with 58.
  rewrite (chunk_eat p3 v1 58 _ StateObjFieldEnd) by done. fold r3.
  rewrite (chunk_next _ _ _ _ p4 v1) by done.
  rewrite T0. cbn [app]. destruct F0 as (F0 & _).
  rewrite (chunk_eat p4 v1 c0 _ StateObjValue) by done.
  rewrite (chunk_redo _ _ _ _ q v1); [|by apply eat_ok|].
  2:{ unfold turn. simpl m_state. cbv iota. unfold eat_then. fold (eat StateObjSep).
      change (with_cur (with_cur p4 _) (eat StateObjSep)) with (with_cur p4 (eat StateObjSep)).
      rewrite push_eq; [done|]. unfold m_depth in *. rewrite B4. lia. }
  rewrite app_comm_cons, <- T0, R5 by done. apply res_bind_ext. intros v2.
  apply R6. by apply terminator_solid.
Qed.

Definition field_text (kv : mstring * MojObject) : mstring :=
  MojJsonWriter.quoted kv.1 ++ chr ":" :: MojJsonWriter.text kv.2.

Lemma object_fields kv m :
  Forall (fun kv => str_ok kv.1 /\ MojObject.ok kv.2 /\ printable kv.2 /\ reads kv.2) (kv :: m) ->
  forall p, parser_ok p -> cur p = eat StateObjFieldStart ->
  (forall kv', kv' ∈ kv :: m -> m_depth p + 1 + depth kv'.2 < MaxDepth)%nat ->
  exists p', cur p' = eat StateFinish /\ below p' = below p /\
    forall (v : S) rest,
      parseChunk p v (MojJsonWriter.commas (map field_text (kv :: m)) ++ 125 :: rest) =
        let? v' := res_fold (fun v i => let? v := MojObjectVisitor.propName v i.1 in MojObject.visit i.2 v)
          v (kv :: m) in
        let? v' := MojObjectVisitor.endObject v' in parseChunk p' v' rest.
Proof.
  revert kv. induction m as [|kv2 m IH]; intros kv H p Hp E Hd;
    apply Forall_cons in H as [(Hk & Hox & Hpx & Hx) H];
    destruct (object_field kv.1 kv.2 p Hk Hox Hpx Hx Hp E (Hd kv ltac:(set_solver)))
      as (p1 & E1 & B1 & Hp1 & R1).
  - eexists (eat_then p1 StateFinish). split; [done|]. split; [done|]. intros v rest.
    cbn [map MojJsonWriter.commas flat_map res_fold]. rewrite app_nil_r, res_bind_ret. unfold field_text.
    rewrite <- app_assoc. cbn [app]. rewrite R1 by (unfold terminator; set_solver).
    rewrite res_bind_assoc. apply res_bind_ext. intros v1. apply res_bind_ext. intros v2.
    rewrite (chunk_eat p1 v2 125 _ StateObjSep) by done. by apply chunk_break.
  - destruct (IH kv2 H (eat_then p1 StateObjFieldStart)) as (p3 & E3 & B3 & R3).
    + by apply (ok_same_below p1).
    + done.
    + intros kv' Hkv. pose proof (Hd kv' ltac:(set_solver)). unfold m_depth in *. simpl. rewrite B1. lia.
    + exists p3. split; [done|]. split; [rewrite B3; exact B1|]. intros v rest.
      cbn [map MojJsonWriter.commas flat_map res_fold]. unfold field_text at 1.
      unfold field_text at 1 2. rewrite <- ?app_assoc. cbn [app]. rewrite <- ?app_assoc. cbn [app]. change (chr ",") with 44.
      rewrite R1 by (unfold terminator; set_solver).
      rewrite !res_bind_assoc. apply res_bind_ext. intros v1. apply res_bind_ext. intros v2.
      rewrite (chunk_eat p1 v2 44 _ StateObjSep) by done.
      rewrite (chunk_next _ _ _ _ (eat_then p1 StateObjFieldStart) v2) by done.
      pose proof (R3 v2 rest) as R. cbn [map MojJsonWriter.commas res_fold] in R.
      unfold field_text at 1 in R. rewrite <- ?app_assoc in R. cbn [app] in R. rewrite <- ?app_assoc in R.
      cbn [app] in R. exact R.
Qed.

Lemma printable_object m : printable (ObjectImpl m) <-> Forall (fun kv => printable kv.2) m.
Proof. simpl. induction m; simpl; [split; auto|]. rewrite Forall_cons. tauto. Qed.

Lemma printable_array v : printable (ArrayImpl v) <-> Forall printable v.
Proof. simpl. induction v; simpl; [split; auto|]. rewrite Forall_cons. tauto. Qed.

Lemma depth_object m kv : kv ∈ m -> (depth kv.2 < depth (ObjectImpl m))%nat.
Proof. simpl. induction m as [|kv' m IH]; [set_solver|]. intros [->|H]%elem_of_cons; simpl; [lia|]. specialize (IH H). lia. Qed.

Lemma depth_array v x : x ∈ v -> (depth x < depth (ArrayImpl v))%nat.
Proof. simpl. induction v as [|y v IH]; [set_solver|]. intros [->|H]%elem_of_cons; simpl; [lia|]. specialize (IH H). lia. Qed.

Definition start_at (st : State) : StackRec := {| m_state := st; m_savedState := StateStart |}.

Lemma reads_null p : cur p = resetRec -> exists p', cur p' = eat StateFinish /\ below p' = below p /\
  forall (v : S) cs, parseChunk p v (MojJsonNullString ++ cs) =
    let? v' := MojObjectVisitor.nullValue v in parseChunk p' v' cs.
Proof.
  destruct p as [r bl pos ucs mt dec str]. cbn [cur]. intros ->.
  exists {| cur := eat StateFinish; below := bl; m_strPos := 4; m_ucsChar := ucs; m_matchTrue := mt;
            m_isDecimal := dec; m_str := str |}.
  split; [done|]. split; [done|]. intros v cs.
  change (MojJsonNullString ++ cs) with (110 :: 117 :: 108 :: 108 :: cs).
  assert (forall cs, parseChunk {| cur := resetRec; below := bl; m_strPos := pos; m_ucsChar := ucs; m_matchTrue := mt;
            m_isDecimal := dec; m_str := str |} v (110 :: 117 :: 108 :: cs) =
    parseChunk {| cur := start_at StateNull; below := bl; m_strPos := 3; m_ucsChar := ucs; m_matchTrue := mt;
            m_isDecimal := dec; m_str := str |} v cs) as -> by reflexivity.
  by apply chunk_break.
Qed.

Lemma reads_bool b p : cur p = resetRec -> exists p', cur p' = eat StateFinish /\ below p' = below p /\
  forall (v : S) cs, parseChunk p v ((if b : bool then MojJsonTrueString else MojJsonFalseString) ++ cs) =
    let? v' := MojObjectVisitor.boolValue v b in parseChunk p' v' cs.
Proof.
  destruct p as [r bl pos ucs mt dec str]. cbn [cur]. intros ->.
  exists {| cur := eat StateFinish; below := bl; m_strPos := if b then 4 else 5; m_ucsChar := ucs; m_matchTrue := b;
            m_isDecimal := dec; m_str := str |}.
  split; [done|]. split; [done|]. intros v cs. destruct b.
  - change (MojJsonTrueString ++ cs) with (116 :: 114 :: 117 :: 101 :: cs).
    assert (forall cs, parseChunk {| cur := resetRec; below := bl; m_strPos := pos; m_ucsChar := ucs; m_matchTrue := mt;
              m_isDecimal := dec; m_str := str |} v (116 :: 114 :: 117 :: cs) =
      parseChunk {| cur := start_at StateBool; below := bl; m_strPos := 3; m_ucsChar := ucs; m_matchTrue := true;
              m_isDecimal := dec; m_str := str |} v cs) as -> by reflexivity.
    by apply chunk_break.
  - change (MojJsonFalseString ++ cs) with (102 :: 97 :: 108 :: 115 :: 101 :: cs).
    assert (forall cs, parseChunk {| cur := resetRec; below := bl; m_strPos := pos; m_ucsChar := ucs; m_matchTrue := mt;
              m_isDecimal := dec; m_str := str |} v (102 :: 97 :: 108 :: 115 :: cs) =
      parseChunk {| cur := start_at StateBool; below := bl; m_strPos := 4; m_ucsChar := ucs; m_matchTrue := false;
              m_isDecimal := dec; m_str := str |} v cs) as -> by reflexivity.
    by apply chunk_break.
Qed.

Lemma reads_string s p : str_ok s -> cur p = resetRec -> parser_ok p ->
  exists p', cur p' = eat StateFinish /\ below p' = below p /\
  forall (v : S) cs, parseChunk p v (MojJsonWriter.quoted s ++ cs) =
    let? v' := MojObjectVisitor.stringValue v s in parseChunk p' v' cs.
Proof.
  intros Hs E Hp.
  set (p1 := set_str (with_cur p (start_at StateString)) []).
  destruct (escape_string StateString s ltac:(by left) Hs p1 eq_refl ltac:(done))
    as (p2 & E2 & S2 & B2 & M2 & R2).
  exists (eat_then p2 StateFinish). split; [done|]. split; [exact B2|]. intros v cs.
  unfold MojJsonWriter.quoted. cbn [app]. rewrite <- app_assoc. cbn [app].
  rewrite (chunk_eat p v 34 _ StateStart) by done.
  rewrite (chunk_next _ _ _ _ p1 v) by done. rewrite R2.
  apply chunk_break. unfold turn. rewrite E2. simpl. by rewrite M2.
Qed.

(** The bracket that begins an array or an object. *)
Lemma reads_begin_array p (v : S) cs : parser_ok p -> cur p = resetRec ->
  parseChunk p v (91 :: cs) =
    let? v' := MojObjectVisitor.beginArray v in parseChunk (with_cur p (eat StateArray)) v' cs.
Proof. intros Hp E. rewrite (chunk_eat p v 91 _ StateStart) by done. by apply chunk_break. Qed.

Lemma reads_begin_object p (v : S) cs : parser_ok p -> cur p = resetRec ->
  parseChunk p v (123 :: cs) =
    let? v' := MojObjectVisitor.beginObject v in parseChunk (with_cur p (eat StateObjFieldStart)) v' cs.
Proof. intros Hp E. rewrite (chunk_eat p v 123 _ StateStart) by done. by apply chunk_break. Qed.

Lemma reads_array vec : Forall (fun o => MojObject.ok o /\ printable o /\ reads o) vec -> reads (ArrayImpl vec).
Proof.
  intros H p Hp E Hd. cbn [MojJsonWriter.text MojObject.visit]. change (chr "[") with 91. change (chr "]") with 93.
  assert (parser_ok (with_cur p (eat StateArray))) as Hp1 by (by apply eat_ok).
  destruct vec as [|x vec].
  - exists (with_cur p (eat StateFinish)). split; [done|]. split; [done|]. intros v c rest Hc. cbn [map MojJsonWriter.commas app].
    rewrite reads_begin_array, res_bind_assoc by done. apply res_bind_ext. intros v1. cbn [res_fold res_bind].
    rewrite (chunk_eat _ v1 93 _ StateArray) by done. by apply chunk_break.
  - destruct (array_elements x vec H (with_cur p (eat StateArray)) Hp1 eq_refl) as (p' & E' & B' & R').
    { intros o Ho. pose proof (depth_array (x :: vec) o Ho).
      change (m_depth (with_cur p (eat StateArray))) with (m_depth p). lia. }
    exists p'. split; [done|]. split; [done|]. intros v c rest Hc.
    cbn [app]. rewrite <- app_assoc. cbn [app]. rewrite reads_begin_array by done.
    rewrite res_bind_assoc. apply res_bind_ext. intros v1. rewrite R'. by rewrite res_bind_assoc.
Qed.

Lemma reads_object m :
  Forall (fun kv => str_ok kv.1 /\ MojObject.ok kv.2 /\ printable kv.2 /\ reads kv.2) m -> reads (ObjectImpl m).
Proof.
  intros H p Hp E Hd. cbn [MojJsonWriter.text MojObject.visit]. change (chr "{") with 123. change (chr "}") with 125.
  assert (parser_ok (with_cur p (eat StateObjFieldStart))) as Hp1 by (by apply eat_ok).
  destruct m as [|kv m].
  - exists (with_cur p (eat StateFinish)). split; [done|]. split; [done|]. intros v c rest Hc. cbn [map MojJsonWriter.commas app].
    rewrite reads_begin_object, res_bind_assoc by done. apply res_bind_ext. intros v1. cbn [res_fold res_bind].
    rewrite (chunk_eat _ v1 125 _ StateObjFieldStart) by done. by apply chunk_break.
  - destruct (object_fields kv m H (with_cur p (eat StateObjFieldStart)) Hp1 eq_refl) as (p' & E' & B' & R').
    { intros o Ho. pose proof (depth_object (kv :: m) o Ho).
      change (m_depth (with_cur p (eat StateObjFieldStart))) with (m_depth p). lia. }
    exists p'. split; [done|]. split; [done|]. intros v c rest Hc.
    cbn [app]. rewrite <- app_assoc. cbn [app]. rewrite reads_begin_object by done.
    rewrite res_bind_assoc. apply res_bind_ext. intros v1. fold field_text. rewrite R'. by rewrite res_bind_assoc.
Qed.

Lemma reads_value o : MojObject.ok o -> printable o -> reads o.
Proof.
  induction o as [| |s|b|r|v|m IH|v IH] using MojObject_nested_ind; intros Ho Hpr.
  7: { apply reads_object. apply MojObject.ok_object in Ho as [_ Ho]. apply printable_object in Hpr.
       rewrite Forall_forall in Ho, Hpr, IH. apply Forall_forall. intros kv Hkv.
       destruct (Ho kv Hkv). split; [done|]. split; [done|]. split; [by apply Hpr|]. apply IH; auto. }
  7: { apply reads_array. apply MojObject.ok_array in Ho. apply printable_array in Hpr.
       rewrite Forall_forall in Ho, Hpr, IH. apply Forall_forall. auto. }
  all: intros p Hp E Hd.
  1-2: destruct (reads_null p E) as (p' & E' & B' & R'); exists p'; split; [done|]; split; [done|];
    intros v c rest _; apply R'.
  - destruct (reads_string s p Ho E Hp) as (p' & E' & B' & R'). exists p'. split; [done|]. split; [done|].
    intros v c rest _. apply R'.
  - destruct (reads_bool b p E) as (p' & E' & B' & R'). exists p'. split; [done|]. split; [done|].
    intros v c rest _. apply R'.
  - simpl in Ho, Hpr. unfold in_int in Ho. destruct (decimal_text_shape r) as (d & s & T & Hd1 & Hs & Hpt & A).
    { unfold MojInt64Max, MojInt64Min in *. lia. }
    destruct (number_value d s p Hd1 (Forall_inv_tail Hs) Hp E) as (p' & E' & B' & R').
    exists p'. split; [done|]. split; [done|]. intros v c rest Hc. cbn [MojJsonWriter.text]. rewrite T, R' by done.
    unfold number_result. by rewrite Hpt, A.
  - destruct (int_text v Ho) as (d & s & T & Hd1 & Hs & Hpt & A).
    destruct (number_value d s p Hd1 (Forall_inv_tail Hs) Hp E) as (p' & E' & B' & R').
    exists p'. split; [done|]. split; [done|]. intros w c rest Hc. cbn [MojJsonWriter.text]. rewrite T, R' by done.
    unfold number_result. rewrite Hpt, A. by rewrite res_bind_ret.
Qed.
End values.

(** ** Objects to and from JSON text *)
Definition toJson (o : MojObject) : res mstring :=
  let? w := MojObject.visit o MojJsonWriter.init in Ok (MojJsonWriter.m_str w).

Definition fromJson (chars : mstring) : res MojObject :=
  let? b := parse MojObjectBuilder.init chars in Ok (MojObjectBuilder.m_obj b).

Section ends.
Context {S : Type} `{!Visitor S}.

Lemma chunk_app p (v : S) a b : parseChunk p v (a ++ b) =
  let? (p, v, rest) := parseChunk p v a in
  match rest with [] => parseChunk p v b | _ => Ok (p, v, rest ++ b) end.
Proof.
  revert p v. induction a as [|c a IH]; intros p v; [done|]. cbn [app parseChunk].
  rewrite res_bind_assoc. apply res_bind_ext. intros [[p1 v1] [|]]; [done|]. apply IH.
Qed.

Definition finish (p : MojJsonParser) : MojJsonParser :=
  with_cur p {| m_state := StateFinish; m_savedState := StateFinish |}.

(** The terminator after a whole value. *)
Lemma chunk_finish p (v : S) : parser_ok p -> cur p = eat StateFinish -> below p = [] ->
  parseChunk p v [0] = Ok (finish p, v, [0]) /\ finished (finish p) = true.
Proof.
  intros Hp E B. rewrite (chunk_eat p v 0 [] StateFinish) by done. fold (finish p).
  unfold finished, finish. simpl. rewrite B. split; [|done].
  change maxTurns with (Datatypes.S 8). cbn [feed]. unfold turn. simpl. by rewrite B.
Qed.

Lemma finish_again p (v : S) : below p = [] -> parseChunk (finish p) v [0] = Ok (finish p, v, [0]).
Proof. intros B. cbn [parseChunk]. change maxTurns with (Datatypes.S 8). cbn [feed]. unfold turn. simpl. by rewrite B. Qed.

(** Both ways to end a text: a length, or a terminator. *)
Lemma parse_value o (v : S) : reads o -> (depth o < MaxDepth)%nat ->
  parse v (MojJsonWriter.text o) = MojObject.visit o v /\
  parse_cstr v (MojJsonWriter.text o) = MojObject.visit o v.
Proof.
  intros Hr Hd. destruct (Hr begin begin_ok eq_refl Hd) as (p' & E' & B' & R').
  assert (parser_ok p') as Hok by (apply (ok_same_below begin); [apply begin_ok|done|by rewrite E']).
  specialize (R' v 0 []).
  split.
  - unfold parse, end_. pose proof (chunk_app begin v (MojJsonWriter.text o) [0]) as A. rewrite R' in A by (unfold terminator; set_solver).
    destruct (parseChunk begin v (MojJsonWriter.text o)) as [[[p1 v1] rest]|e]; cbn [res_bind] in A |- *.
    + destruct (MojObject.visit o v) as [v2|e2]; cbn [res_bind] in A.
      * rewrite (proj1 (chunk_finish p' v2 Hok E' B')) in A. destruct rest as [|c rest].
        -- rewrite <- A. simpl. rewrite (proj2 (chunk_finish p' v2 Hok E' B')). done.
        -- injection A as _ _ A. by destruct rest.
      * destruct rest as [|c rest]; [by rewrite <- A|done].
    + destruct (MojObject.visit o v) as [v2|e2]; cbn [res_bind] in A; [|by injection A as ->].
      by rewrite (proj1 (chunk_finish p' v2 Hok E' B')) in A.
  - unfold parse_cstr. rewrite R' by (unfold terminator; set_solver).
    destruct (MojObject.visit o v) as [v2|e2]; [|done]. cbn [res_bind].
    destruct (chunk_finish p' v2 Hok E' B') as [F1 F2]. rewrite F1. cbn [res_bind]. cbv iota.
    unfold end_. rewrite finish_again by done. simpl. by rewrite F2.
Qed.
End ends.

(** C22: the text [toJson] writes for a well-formed object that fits the parser's
    stack, parsed, shows every visitor exactly what visiting the object shows it,
    errors included, whether the text comes with its length or with a terminator;
    so [fromJson] gives the object back, undefined values having become null.
    The decimal with no absolute value is excluded: it is printed with characters
    that are no digits. *)
Theorem json_roundtrip o : MojObject.ok o -> printable o -> (depth o < MaxDepth)%nat ->
  exists s, toJson o = Ok s /\
    (forall S (VS : Visitor S) (v : S),
      parse v s = MojObject.visit o v /\ parse_cstr v s = MojObject.visit o v) /\
    fromJson s = Ok (MojObjectBuilder.norm o).
Proof.
  intros Ho Hp Hd. exists (MojJsonWriter.text o).
  assert (forall S (VS : Visitor S) (v : S), parse v (MojJsonWriter.text o) = MojObject.visit o v /\
    parse_cstr v (MojJsonWriter.text o) = MojObject.visit o v) as R.
  { intros S VS v. apply parse_value; [by apply reads_value|done]. }
  split; [|split; [exact R|]].
  - unfold toJson. by rewrite MojJsonWriter.visit_text.
  - unfold fromJson. rewrite (proj1 (R _ _ _)), MojObjectBuilder.builder_visit by done. done.
Qed.

Lemma json_roundtrip_witness :
  toJson (ObjectImpl [(_T "a", ArrayImpl [IntImpl (-7); NullImpl; DecimalImpl 1500000])]) =
    Ok (_T "{" ++ 34 :: _T "a" ++ 34 :: _T ":[-7,null,1.5]}") /\
  exists s, toJson (ObjectImpl [(_T "a", ArrayImpl [IntImpl (-7); NullImpl; DecimalImpl 1500000])]) = Ok s /\
    fromJson s = Ok (ObjectImpl [(_T "a", ArrayImpl [IntImpl (-7); NullImpl; DecimalImpl 1500000])]).
Proof.
  split; [reflexivity|].
  destruct (json_roundtrip (ObjectImpl [(_T "a", ArrayImpl [IntImpl (-7); NullImpl; DecimalImpl 1500000])]))
    as (s & E & _ & R).
  - simpl. unfold in_int. repeat split; try lia; repeat constructor.
  - simpl. repeat split; done.
  - unfold MaxDepth. simpl. lia.
  - exists s. split; [exact E|exact R].
Defined.

(** A text without a value has no character at which the parser is done: given no
    length, it reads past the terminator. *)
Lemma empty_text_overrun : parse_cstr eater [] = Err AssertFailed /\ parse eater [] = Err MojErrJsonParseEof.
Proof. split; reflexivity. Qed.

(** Characters after a whole value are ignored. *)
Lemma trailing_text : parse MojObjectBuilder.init (_T "1 x") = parse MojObjectBuilder.init (_T "1").
Proof. reflexivity. Qed.

(** ** Every text is parsed to an end *)
Lemma res_bind_runs {A B} (m : res A) (f : A -> res B) :
  m <> Err AssertFailed -> (forall a, m = Ok a -> f a <> Err AssertFailed) -> res_bind m f <> Err AssertFailed.
Proof. destruct m as [a|e]; simpl; [auto|congruence]. Qed.

Lemma res_fold_runs {A T} (f : T -> A -> res T) s l :
  (forall s x, f s x <> Err AssertFailed) -> res_fold f s l <> Err AssertFailed.
Proof.
  intros Hf. revert s. induction l as [|x l IH]; intros s; cbn [res_fold]; [done|].
  apply res_bind_runs; auto.
Qed.

Lemma assign_runs str : MojNumber.assign str <> Err AssertFailed.
Proof.
  assert (forall p, MojNumber.realignValue p <> Err AssertFailed) as Hr.
  { intros p. unfold MojNumber.realignValue. by destruct (_ <? _). }
  assert (forall p x, MojNumber.pushDigit p x <> Err AssertFailed) as Hd.
  { intros p x. unfold MojNumber.pushDigit. by destruct (_ <? _). }
  unfold MojNumber.assign, MojNumber.parse. apply res_bind_runs.
  - apply res_bind_runs.
    + apply res_fold_runs. intros [st p] c. unfold MojNumber.lexStep, MojNumber.magnitudeStep, MojNumber.exponentStep.
      simpl. unfold MojNumber.parserDigit, MojNumber.parserFractionDigit, MojNumber.parserExponentDigit.
      repeat case_match; try done; repeat (apply res_bind_runs; [|intros]); auto; repeat case_match; try done; auto.
    + intros [st p] _. simpl. by destruct st.
  - intros p _. unfold MojNumber.toDecimal. repeat case_match; done.
Qed.

Section total.
Context {S : Type} `{!Visitor S}.

(** A visitor whose handlers fail, if they do, with an error of their own. *)
Definition runs : Prop := forall v : S,
  MojObjectVisitor.beginObject v <> Err AssertFailed /\ MojObjectVisitor.endObject v <> Err AssertFailed /\
  MojObjectVisitor.beginArray v <> Err AssertFailed /\ MojObjectVisitor.endArray v <> Err AssertFailed /\
  MojObjectVisitor.nullValue v <> Err AssertFailed /\
  (forall s, MojObjectVisitor.propName v s <> Err AssertFailed) /\
  (forall b, MojObjectVisitor.boolValue v b <> Err AssertFailed) /\
  (forall i, MojObjectVisitor.intValue v i <> Err AssertFailed) /\
  (forall r, MojObjectVisitor.decimalValue v r <> Err AssertFailed) /\
  (forall s, MojObjectVisitor.stringValue v s <> Err AssertFailed).

Context (Hruns : runs).

Lemma turn_runs p (v : S) c : turn p v c <> Err AssertFailed.
Proof.
  destruct (Hruns v) as (H1 & H2 & H3 & H4 & H5 & H6 & H7 & H8 & H9 & H10).
  assert (forall p, push p <> Err AssertFailed) as Hp by (intros q; unfold push; by destruct (_ <=? _)%nat).
  unfold turn, startTurn, unicodeTurn, numberTurn.
  destruct (m_state (cur p));
    repeat first [done | solve [auto using assign_runs] | apply res_bind_runs; [|intros] | case_match].
Qed.

Lemma feed_runs n p (v : S) c : parser_ok p -> (rank (cur p) < n)%nat ->
  feed n p v c <> Err AssertFailed /\
  forall p' v' d, feed n p v c = Ok (p', v', d) -> parser_ok p'.
Proof.
  revert p v. induction n as [|n IH]; intros p v Hp Hn; [lia|]. cbn [feed].
  pose proof (turn_runs p v c) as Hr. pose proof (fun t => turn_wf p v c t Hp) as Hw.
  destruct (turn p v c) as [t|e]; cbn [res_bind]; [|split; [congruence|done]].
  specialize (Hw t eq_refl). destruct t as [p' v'|p' v'|p' v']; simpl in Hw; [naive_solver| |naive_solver].
  destruct Hw as [Hw Hl]. apply IH; [done|lia].
Qed.

Lemma chunk_runs p (v : S) chars : parser_ok p ->
  parseChunk p v chars <> Err AssertFailed /\
  forall p' v' rest, parseChunk p v chars = Ok (p', v', rest) -> parser_ok p' /\ rest `suffix_of` chars.
Proof.
  revert p v. induction chars as [|c chars IH]; intros p v Hp; cbn [parseChunk].
  { split; [done|]. by intros p' v' rest [= <- <- <-]. }
  destruct (feed_runs maxTurns p v c Hp) as [Hf Hok].
  { pose proof (rank_max (cur p)). unfold maxTurns. lia. }
  destruct (feed maxTurns p v c) as [[[p1 v1] d]|e]; cbn [res_bind]; [|split; [congruence|done]].
  specialize (Hok p1 v1 d eq_refl). destruct d.
  - split; [done|]. by intros p' v' rest [= <- <- <-].
  - destruct (IH p1 v1 Hok) as [I1 I2]. split; [done|]. intros p' v' rest E. destruct (I2 _ _ _ E) as [I3 I4].
    split; [done|]. by apply suffix_cons_r.
Qed.

(** C23: the parser's state machine never hangs on a character (no cycle of
    [goto Redo]) and never indexes its stack out of bounds: every text of known
    length, valid or not, is parsed to a result or to an error of the parser or
    the visitor, with fewer than [MaxDepth] records in use and an end of parsing
    inside the text. *)
Theorem parser_total (v : S) chars :
  MojJsonParser.parse v chars <> Err AssertFailed /\
  forall p v' rest, MojJsonParser.parseChunk MojJsonParser.begin v chars = Ok (p, v', rest) ->
    (MojJsonParser.m_depth p < MojJsonParser.MaxDepth)%nat /\ rest `suffix_of` chars.
Proof.
  destruct (chunk_runs begin v chars begin_ok) as [H1 H2]. split.
  - unfold parse, end_. apply res_bind_runs; [done|]. intros [[p1 v1] rest1] E.
    destruct (H2 _ _ _ E) as [Hp1 _]. apply res_bind_runs.
    + apply res_bind_runs; [by apply chunk_runs|]. by intros [[p2 v2] r2] _.
    + intros [p2 v2] _. by destruct (finished p2).
  - intros p v' rest E. destruct (H2 _ _ _ E) as [(_ & _ & Hd) Hs]. by split.
Qed.
End total.

Lemma parser_total_witness : parse eater (_T "[1,{") = Err MojErrJsonParsePropName /\
  parse eater (_T "[1,{") <> Err AssertFailed.
Proof.
  split; [reflexivity|].
  refine (proj1 (parser_total (S := MojObjectEater) _ eater (_T "[1,{"))).
  intros v. repeat split; discriminate.
Defined.
End JsonRoundTrip.

(** ** [MojObject::stringValue] and [coerce]: a value that is no string is its JSON text *)
Module MojObjectString.
Definition stringValue (o : MojObject) : res mstring :=
  match o with StringImpl m_val => Ok m_val | _ => JsonRoundTrip.toJson o end.

(** [get(key, MojString&, found)] and [getRequired] of a string. *)
Definition get_string (o : MojObject) (key : mstring) : res (option mstring) :=
  match MojObject.get o key with
  | Some v => let? s := stringValue v in Ok (Some s)
  | None => Ok None
  end.

Definition getRequired_string (o : MojObject) (key : mstring) : res mstring :=
  MojObject.getRequiredErrT (get_string o key).

Definition coerce (strToDecimal : mstring -> Z) (o : MojObject) (toType : MojObject.Type_) : res MojObject :=
  if decide (toType = MojObject.type o) then Ok o
  else match toType with
       | MojObject.TypeString => let? str := stringValue o in Ok (StringImpl str)
       | MojObject.TypeBool => Ok (BoolImpl (MojObject.boolValue o))
       | MojObject.TypeDecimal => Ok (DecimalImpl (MojObject.decimalValue strToDecimal o))
       | MojObject.TypeInt => Ok (IntImpl (MojObject.intValue o))
       | _ => Ok (MojObject.clear toType)
       end.

Lemma get_string_string o k s : MojObject.get o k = Some (StringImpl s) -> get_string o k = Ok (Some s).
Proof. unfold get_string. by intros ->. Qed.
End MojObjectString.
