(* ===== verification/DbQuery.v ===== *)
(** * Queries: src/src/db/MojDbQuery.cpp, inc/db/MojDbQuery.h

    A query as the service receives it: where and filter clauses, each with a
    lower and an upper comparison, and the properties selected, ordered by and
    aggregated.  The kind engine, which only the collation of an aggregate's
    extractor is taken from, is a parameter. *)

From S2P Require Import Prelude Containers CoreUtil Number Object ObjectBuilder DataSerialization TokenSet ObjectSerialization Text DbKey Json JsonRoundTrip.

Module MojDbQuery.
Definition LimitDefault : Z := MojUInt32Max.

Inductive CompOp :=
| OpNone | OpEq | OpNotEq | OpLessThan | OpLessThanEq | OpGreaterThan | OpGreaterThanEq
| OpPrefix | OpSearch | OpSubString.

#[global] Instance CompOp_eq_dec : EqDecision CompOp.
Proof. solve_decision. Defined.

Definition OpCount : Z := 1.
Definition OpMin : Z := 2.
Definition OpMax : Z := 4.
Definition OpSum : Z := 8.
Definition OpAvg : Z := 16.
Definition OpFirst : Z := 32.
Definition OpLast : Z := 64.

Definition SelectKey := _T "select".
Definition FromKey := _T "from".
Definition WhereKey := _T "where".
Definition FilterKey := _T "filter".
Definition OrderByKey := _T "orderBy".
Definition DistinctKey := _T "distinct".
Definition DescKey := _T "desc".
Definition IncludeDeletedKey := _T "incDel".
Definition LimitKey := _T "limit".
Definition ImmediateReturnKey := _T "immediateReturn".
Definition PageKey := _T "page".
Definition AggregateKey := _T "aggregate".
Definition GroupByKey := _T "groupBy".
Definition CountKey := _T "cnt".
Definition MinKey := _T "min".
Definition MaxKey := _T "max".
Definition SumKey := _T "sum".
Definition AvgKey := _T "avg".
Definition FirstKey := _T "first".
Definition LastKey := _T "last".
Definition PropKey := _T "prop".
Definition OpKey := _T "op".
Definition ValKey := _T "val".
Definition CollateKey := _T "collate".
Definition DelKey := _T "_del".

(** ** [WhereClause] *)
Module WhereClause.
Record WhereClause := {
  m_lowerOp : CompOp;
  m_upperOp : CompOp;
  m_lowerVal : MojObject;
  m_upperVal : MojObject;
  m_collation : MojDbCollationStrength
}.

Definition init : WhereClause :=
  {| m_lowerOp := OpNone; m_upperOp := OpNone; m_lowerVal := UndefinedImpl; m_upperVal := UndefinedImpl;
     m_collation := MojDbCollationInvalid |}.

(** [collation(MojDbCollationStrength)]: once set it cannot change. *)
Definition collation (c : WhereClause) (coll : MojDbCollationStrength) : res WhereClause :=
  if negb (bool_decide (m_collation c = MojDbCollationInvalid)) && negb (bool_decide (coll = m_collation c))
  then Err MojErrDbInvalidQueryCollationMismatch
  else Ok {| m_lowerOp := m_lowerOp c; m_upperOp := m_upperOp c; m_lowerVal := m_lowerVal c;
             m_upperVal := m_upperVal c; m_collation := coll |}.

Definition setLower (c : WhereClause) (op : CompOp) (val : MojObject) (coll : MojDbCollationStrength) : res WhereClause :=
  if negb (bool_decide (m_lowerOp c = OpNone)) then Err MojErrDbInvalidQueryOpCombo
  else
    let? c := collation c coll in
    Ok {| m_lowerOp := op; m_upperOp := m_upperOp c; m_lowerVal := val; m_upperVal := m_upperVal c;
          m_collation := m_collation c |}.

Definition setUpper (c : WhereClause) (op : CompOp) (val : MojObject) (coll : MojDbCollationStrength) : res WhereClause :=
  if negb (bool_decide (m_upperOp c = OpNone)) then Err MojErrDbInvalidQueryOpCombo
  else
    let? c := collation c coll in
    Ok {| m_lowerOp := m_lowerOp c; m_upperOp := op; m_lowerVal := m_lowerVal c; m_upperVal := val;
          m_collation := m_collation c |}.

Definition definesOrder (c : WhereClause) : bool :=
  negb (bool_decide (m_lowerOp c = OpEq)) || bool_decide (MojObject.type (m_lowerVal c) = MojObject.TypeArray).

Definition eq (c rhs : WhereClause) : bool :=
  bool_decide (m_lowerOp c = m_lowerOp rhs) && bool_decide (m_upperOp c = m_upperOp rhs) &&
  MojObject.equals (m_lowerVal c) (m_lowerVal rhs) && MojObject.equals (m_upperVal c) (m_upperVal rhs).
End WhereClause.
Abbreviation WhereClause := WhereClause.WhereClause.

(** ** Clause maps *)
Abbreviation WhereMap := (list (mstring * WhereClause)).
Definition key_eq (a b : mstring) : bool := MojStrCmp a b =? 0.

Definition createClause (map : WhereMap) (propName : mstring) (op : CompOp) (val : MojObject)
    (coll : MojDbCollationStrength) : res WhereMap :=
  let clause := WhereClause.init in
  let? clause := match op with
                 | OpLessThan | OpLessThanEq => WhereClause.setUpper clause op val coll
                 | _ => WhereClause.setLower clause op val coll
                 end in
  Ok (MojHashMap.put key_eq map propName clause).

Definition updateClause (clause : WhereClause) (op : CompOp) (val : MojObject)
    (coll : MojDbCollationStrength) : res WhereClause :=
  match op with
  | OpLessThan | OpLessThanEq =>
      match WhereClause.m_lowerOp clause with
      | OpNone | OpGreaterThan | OpGreaterThanEq => WhereClause.setUpper clause op val coll
      | _ => Err MojErrDbInvalidQueryOpCombo
      end
  | OpGreaterThan | OpGreaterThanEq =>
      match WhereClause.m_upperOp clause with
      | OpNone | OpLessThan | OpLessThanEq => WhereClause.setLower clause op val coll
      | _ => Err MojErrDbInvalidQueryOpCombo
      end
  | _ => Err MojErrDbInvalidQueryOpCombo
  end.

Definition addClause (map : WhereMap) (propName : mstring) (op : CompOp) (val : MojObject)
    (coll : MojDbCollationStrength) : res WhereMap :=
  if bool_decide (op = OpNone) then Err MojErrDbInvalidQuery
  else if bool_decide (MojObject.type val = MojObject.TypeArray) && negb (bool_decide (op = OpEq)) &&
          negb (bool_decide (op = OpPrefix)) && negb (bool_decide (op = OpSubString))
  then Err MojErrDbInvalidQuery
  else match MojHashMap.get key_eq map propName with
       | None => createClause map propName op val coll
       | Some clause =>
           let? clause := updateClause clause op val coll in
           Ok (MojHashMap.set_val key_eq map propName clause)
       end.

Definition s_ops : list (mstring * CompOp) :=
  [(_T "=", OpEq); (_T "!=", OpNotEq); (_T "<", OpLessThan); (_T "<=", OpLessThanEq);
   (_T ">", OpGreaterThan); (_T ">=", OpGreaterThanEq); (_T "%", OpPrefix); (_T "?", OpSearch);
   (_T "%%", OpSubString)].

Definition stringToOp (str : mstring) : res CompOp :=
  match List.find (fun op => MojStrCmp op.1 str =? 0) s_ops with
  | Some op => Ok op.2
  | None => Err MojErrDbInvalidQueryOp
  end.

Definition op_code (op : CompOp) : nat :=
  match op with
  | OpNone => 0 | OpEq => 1 | OpNotEq => 2 | OpLessThan => 3 | OpLessThanEq => 4 | OpGreaterThan => 5
  | OpGreaterThanEq => 6 | OpPrefix => 7 | OpSearch => 8 | OpSubString => 9
  end.

Definition opToString (op : CompOp) : option mstring :=
  match op with OpNone => None | _ => match s_ops !! (op_code op - 1)%nat with Some r => Some r.1 | None => None end end.

(** One element of the array of clauses. *)
Definition addClauseObject (map : WhereMap) (clause : MojObject) : res WhereMap :=
  let? prop := MojObjectString.getRequired_string clause PropKey in
  let? opStr := MojObjectString.getRequired_string clause OpKey in
  let? op := stringToOp opStr in
  let? val := MojObject.getRequiredT (MojObject.get clause ValKey) in
  let? found := MojObjectString.get_string clause CollateKey in
  let? coll := match found with
               | Some collateStr => MojDbUtils.collationFromString collateStr
               | None => Ok MojDbCollationInvalid
               end in
  addClause map prop op val coll.

Definition addClauses (map : WhereMap) (array : MojObject) : res WhereMap :=
  res_fold addClauseObject map (match array with ArrayImpl v => v | _ => [] end).

(** ** The query *)
Record AggregatePropInfo := {
  m_op : Z;
  m_extractor : option (mstring * option MojDbCollationStrength)   (* the property and its collation *)
}.

Record MojDbQuery := {
  m_fromType : mstring;
  m_selectProps : list mstring;
  m_whereClauses : WhereMap;
  m_filterClauses : WhereMap;
  m_page : MojDbKey;
  m_orderProp : mstring;
  m_distinct : mstring;
  m_limit : Z;
  m_immediateReturn : bool;
  m_desc : bool;
  m_ignoreInactiveShards : bool;
  m_aggregateMap : list (mstring * AggregatePropInfo);
  m_groupByProps : list mstring
}.

Definition make : MojDbQuery :=
  {| m_fromType := []; m_selectProps := []; m_whereClauses := []; m_filterClauses := []; m_page := [];
     m_orderProp := []; m_distinct := []; m_limit := LimitDefault; m_immediateReturn := false;
     m_desc := false; m_ignoreInactiveShards := true; m_aggregateMap := []; m_groupByProps := [] |}.

(** [init], and the members [clear] clears: the order and the distinct property
    are kept. *)
Definition init (q : MojDbQuery) : MojDbQuery :=
  {| m_fromType := m_fromType q; m_selectProps := m_selectProps q; m_whereClauses := m_whereClauses q;
     m_filterClauses := m_filterClauses q; m_page := m_page q; m_orderProp := m_orderProp q;
     m_distinct := m_distinct q; m_limit := LimitDefault; m_immediateReturn := false; m_desc := false;
     m_ignoreInactiveShards := true; m_aggregateMap := m_aggregateMap q; m_groupByProps := m_groupByProps q |}.

Definition clear (q : MojDbQuery) : MojDbQuery :=
  let q := init q in
  {| m_fromType := []; m_selectProps := []; m_whereClauses := []; m_filterClauses := []; m_page := [];
     m_orderProp := m_orderProp q; m_distinct := m_distinct q; m_limit := m_limit q;
     m_immediateReturn := m_immediateReturn q; m_desc := m_desc q;
     m_ignoreInactiveShards := m_ignoreInactiveShards q; m_aggregateMap := []; m_groupByProps := [] |}.

Definition select (q : MojDbQuery) (propName : mstring) : MojDbQuery :=
  {| m_fromType := m_fromType q; m_selectProps := MojSet.put MojStrCmp (m_selectProps q) propName;
     m_whereClauses := m_whereClauses q;
     m_filterClauses := m_filterClauses q; m_page := m_page q; m_orderProp := m_orderProp q;
     m_distinct := m_distinct q; m_limit := m_limit q; m_immediateReturn := m_immediateReturn q; m_desc := m_desc q;
     m_ignoreInactiveShards := m_ignoreInactiveShards q; m_aggregateMap := m_aggregateMap q;
     m_groupByProps := m_groupByProps q |}.

Definition with_from (q : MojDbQuery) (type : mstring) : MojDbQuery :=
  {| m_fromType := type; m_selectProps := m_selectProps q; m_whereClauses := m_whereClauses q;
     m_filterClauses := m_filterClauses q; m_page := m_page q; m_orderProp := m_orderProp q;
     m_distinct := m_distinct q; m_limit := m_limit q; m_immediateReturn := m_immediateReturn q; m_desc := m_desc q;
     m_ignoreInactiveShards := m_ignoreInactiveShards q; m_aggregateMap := m_aggregateMap q;
     m_groupByProps := m_groupByProps q |}.

Definition with_where (q : MojDbQuery) (w f : WhereMap) : MojDbQuery :=
  {| m_fromType := m_fromType q; m_selectProps := m_selectProps q; m_whereClauses := w;
     m_filterClauses := f; m_page := m_page q; m_orderProp := m_orderProp q;
     m_distinct := m_distinct q; m_limit := m_limit q; m_immediateReturn := m_immediateReturn q; m_desc := m_desc q;
     m_ignoreInactiveShards := m_ignoreInactiveShards q; m_aggregateMap := m_aggregateMap q;
     m_groupByProps := m_groupByProps q |}.

Definition with_order (q : MojDbQuery) (order distinct : mstring) : MojDbQuery :=
  {| m_fromType := m_fromType q; m_selectProps := m_selectProps q; m_whereClauses := m_whereClauses q;
     m_filterClauses := m_filterClauses q; m_page := m_page q; m_orderProp := order;
     m_distinct := distinct; m_limit := m_limit q; m_immediateReturn := m_immediateReturn q; m_desc := m_desc q;
     m_ignoreInactiveShards := m_ignoreInactiveShards q; m_aggregateMap := m_aggregateMap q;
     m_groupByProps := m_groupByProps q |}.

Definition with_flags (q : MojDbQuery) (desc immediateReturn : bool) (limit : Z) (page : MojDbKey) : MojDbQuery :=
  {| m_fromType := m_fromType q; m_selectProps := m_selectProps q; m_whereClauses := m_whereClauses q;
     m_filterClauses := m_filterClauses q; m_page := page; m_orderProp := m_orderProp q;
     m_distinct := m_distinct q; m_limit := limit; m_immediateReturn := immediateReturn; m_desc := desc;
     m_ignoreInactiveShards := m_ignoreInactiveShards q; m_aggregateMap := m_aggregateMap q;
     m_groupByProps := m_groupByProps q |}.

Definition with_aggregate (q : MojDbQuery) (aggregateMap : list (mstring * AggregatePropInfo))
    (groupBy : list mstring) : MojDbQuery :=
  {| m_fromType := m_fromType q; m_selectProps := m_selectProps q; m_whereClauses := m_whereClauses q;
     m_filterClauses := m_filterClauses q; m_page := m_page q; m_orderProp := m_orderProp q;
     m_distinct := m_distinct q; m_limit := m_limit q; m_immediateReturn := m_immediateReturn q; m_desc := m_desc q;
     m_ignoreInactiveShards := m_ignoreInactiveShards q; m_aggregateMap := aggregateMap;
     m_groupByProps := groupBy |}.

Definition from (q : MojDbQuery) (type : mstring) : MojDbQuery := with_from q type.
Definition order (q : MojDbQuery) (propName : mstring) : MojDbQuery := with_order q propName (m_distinct q).
Definition distinct (q : MojDbQuery) (d : mstring) : MojDbQuery := with_order q (m_orderProp q) d.

Definition where_ (q : MojDbQuery) (propName : mstring) (op : CompOp) (val : MojObject)
    (coll : MojDbCollationStrength) : res MojDbQuery :=
  let? w := addClause (m_whereClauses q) propName op val coll in Ok (with_where q w (m_filterClauses q)).

Definition filter (q : MojDbQuery) (propName : mstring) (op : CompOp) (val : MojObject) : res MojDbQuery :=
  let? f := addClause (m_filterClauses q) propName op val MojDbCollationInvalid in
  Ok (with_where q (m_whereClauses q) f).

Definition includeDeleted (q : MojDbQuery) (val : bool) : res MojDbQuery :=
  if val then where_ q DelKey OpEq (ArrayImpl [BoolImpl false; BoolImpl true]) MojDbCollationInvalid else Ok q.

(** ** Aggregates *)
Section aggregate.
Context `{ICU}.
(** [m_kindEngine->getKind]: the properties and first collation of each index. *)
Context (getKind : mstring -> res (list (list mstring * MojDbCollationStrength))).
Context (m_locale : mstring).

Definition getExtractor (q : MojDbQuery) (propName : mstring) : res (mstring * option MojDbCollationStrength) :=
  let? indexVec := getKind (m_fromType q) in
  let collation := fold_left (fun collation i =>
    match i.1 with
    | front :: _ => if MojStrCmp front propName =? 0 then i.2 else collation
    | [] => collation
    end) indexVec MojDbCollationInvalid in
  if decide (collation = MojDbCollationInvalid) then Ok (propName, None)
  else let? _ := MojDbTextCollator.init m_locale collation in Ok (propName, Some collation).

(** One element of [addAggregate]'s array. *)
Definition addAggregateProp (op : Z) (q : MojDbQuery) (prop : MojObject) : res MojDbQuery :=
  let? str := MojObjectString.stringValue prop in
  let info := match MojMap.get MojStrCmp (m_aggregateMap q) str with
              | Some i => {| m_op := Z.lor (m_op i) op; m_extractor := m_extractor i |}
              | None => {| m_op := op; m_extractor := None |}
              end in
  let? info := match m_extractor info with
               | Some _ => Ok info
               | None =>
                   if negb (Z.land op (Z.lor (Z.lor OpMin OpMax) (Z.lor OpFirst OpLast)) =? 0) then
                     let? e := getExtractor q str in Ok {| m_op := m_op info; m_extractor := Some e |}
                   else Ok info
               end in
  Ok (with_aggregate q (MojMap.put MojStrCmp (m_aggregateMap q) str info) (m_groupByProps q)).

Definition elements (o : MojObject) : list MojObject := match o with ArrayImpl v => v | _ => [] end.

Definition addAggregate (q : MojDbQuery) (propNames : MojObject) (op : Z) : res MojDbQuery :=
  res_fold (addAggregateProp op) q (elements propNames).

(** The loop ends after its first turn. *)
Definition groupBy (q : MojDbQuery) (groupBy : MojObject) : res MojDbQuery :=
  match elements groupBy with
  | [] => Ok q
  | prop :: _ =>
      let? str := MojObjectString.stringValue prop in
      Ok (with_aggregate q (m_aggregateMap q) (MojSet.put MojStrCmp (m_groupByProps q) str))
  end.

Definition aggregateOps : list (mstring * Z) :=
  [(CountKey, OpCount); (MinKey, OpMin); (MaxKey, OpMax); (SumKey, OpSum); (AvgKey, OpAvg);
   (FirstKey, OpFirst); (LastKey, OpLast)].

Definition aggregate (q : MojDbQuery) (aggregate : MojObject) : res MojDbQuery :=
  let? q := res_fold (fun q ko => match MojObject.get aggregate ko.1 with
                                  | Some array => addAggregate q array ko.2
                                  | None => Ok q
                                  end) q aggregateOps in
  match MojObject.get aggregate GroupByKey with Some array => groupBy q array | None => Ok q end.

(** ** Reading a query *)
Definition Page_fromObject (obj : MojObject) : res MojDbKey :=
  let? str := MojObjectString.stringValue obj in MojString.base64Decode str.

Definition Page_toObject (m_key : MojDbKey) : res MojObject :=
  let? str := MojString.base64Encode m_key false in Ok (StringImpl str).

(** The select and order properties, when the query neither aggregates nor asks
    for distinct values: the query and whether there is an order. *)
Definition selectOrder (q : MojDbQuery) (obj : MojObject) : res (MojDbQuery * bool) :=
  let? q := match MojObject.get obj SelectKey with
            | Some array =>
                if MojObject.empty array then Err MojErrDbInvalidQuery
                else res_fold (fun q prop => let? str := MojObjectString.stringValue prop in Ok (select q str))
                       q (elements array)
            | None => Ok q
            end in
  let? found := MojObjectString.get_string obj OrderByKey in
  match found with Some str => Ok (order q str, true) | None => Ok (q, false) end.

Definition limitOf (obj : MojObject) (orderBy distinct aggregate : bool) : res (option bool * Z) :=
  match MojObject.get_bool obj ImmediateReturnKey with
  | Some immediateReturnVal =>
      if orderBy || distinct || aggregate then Err MojErrDbInvalidQuery
      else
        let? lim := MojObject.getRequiredT (MojObject.get_int obj LimitKey) in
        Ok (Some immediateReturnVal, lim)
  | None =>
      match MojObject.get_int obj LimitKey with
      | Some lim => if lim <? 0 then Err MojErrDbInvalidQuery else Ok (None, lim)
      | None => Ok (None, LimitDefault)
      end
  end.

Definition fromObject (q : MojDbQuery) (obj : MojObject) : res MojDbQuery :=
  let? str := MojObjectString.getRequired_string obj FromKey in
  let q := from q str in
  let? foundDistinct := MojObjectString.get_string obj DistinctKey in
  let aggreObj := MojObject.get obj AggregateKey in
  let? (q, orderBy) :=
    match aggreObj, foundDistinct with
    | Some aggreObj, _ => let? q := aggregate q aggreObj in Ok (q, false)
    | None, Some str => Ok (order (select (distinct q str) str) str, false)
    | None, None => selectOrder q obj
    end in
  let? w := match MojObject.get obj WhereKey with
            | Some array => addClauses (m_whereClauses q) array
            | None => Ok (m_whereClauses q)
            end in
  let? f := match MojObject.get obj FilterKey with
            | Some array => addClauses (m_filterClauses q) array
            | None => Ok (m_filterClauses q)
            end in
  let q := with_where q w f in
  let desc := match MojObject.get_bool obj DescKey with Some b => b | None => m_desc q end in
  let? (immediate, lim) :=
    limitOf obj orderBy (match foundDistinct with Some _ => true | None => false end)
      (match aggreObj with Some _ => true | None => false end) in
  let immediateReturn := match immediate with Some b => b | None => m_immediateReturn q end in
  let? page := match MojObject.get obj PageKey with
               | Some pageObj => Page_fromObject pageObj
               | None => Ok (m_page q)
               end in
  let q := with_flags q desc immediateReturn (to_uint 32 lim) page in
  match MojObject.get_bool obj IncludeDeletedKey with
  | Some true => includeDeleted q true
  | _ => Ok q
  end.
End aggregate.

(** ** Writing a query *)
Section visitor.
Context {S : Type} `{!Visitor S}.

Definition appendClause (visitor : S) (propName : mstring) (op : CompOp) (val : MojObject)
    (coll : MojDbCollationStrength) : res S :=
  let? v := MojObjectVisitor.beginObject visitor in
  let? v := MojObjectVisitor.stringProp v PropKey propName in
  match opToString op with
  | None => Err MojErrDbInvalidQueryOp
  | Some opStr =>
      let? v := MojObjectVisitor.stringProp v OpKey opStr in
      let? v := MojObject.objectProp v ValKey val in
      let? v := if decide (coll = MojDbCollationInvalid) then Ok v
                else MojObjectVisitor.stringProp v CollateKey (MojDbUtils.collationToString coll) in
      MojObjectVisitor.endObject v
  end.

Definition appendWhere (v : S) (i : mstring * WhereClause) : res S :=
  let c := i.2 in
  let? v := if decide (WhereClause.m_lowerOp c = OpNone) then Ok v
            else appendClause v i.1 (WhereClause.m_lowerOp c) (WhereClause.m_lowerVal c) (WhereClause.m_collation c) in
  if decide (WhereClause.m_upperOp c = OpNone) then Ok v
  else appendClause v i.1 (WhereClause.m_upperOp c) (WhereClause.m_upperVal c) (WhereClause.m_collation c).

Definition appendClauses (visitor : S) (propName : mstring) (map : WhereMap) : res S :=
  let? v := MojObjectVisitor.propName visitor propName in
  let? v := MojObjectVisitor.beginArray v in
  let? v := res_fold appendWhere v map in
  MojObjectVisitor.endArray v.

Definition toObject_visitor (q : MojDbQuery) (visitor : S) : res S :=
  let? v := MojObjectVisitor.beginObject visitor in
  let? v := match m_selectProps q with
            | [] => Ok v
            | props =>
                let? v := MojObjectVisitor.propName v SelectKey in
                let? v := MojObjectVisitor.beginArray v in
                let? v := res_fold MojObjectVisitor.stringValue v props in
                MojObjectVisitor.endArray v
            end in
  let? v := MojObjectVisitor.stringProp v FromKey (m_fromType q) in
  let? v := match m_whereClauses q with [] => Ok v | m => appendClauses v WhereKey m end in
  let? v := match m_filterClauses q with [] => Ok v | m => appendClauses v FilterKey m end in
  let? v := match m_orderProp q with [] => Ok v | s => MojObjectVisitor.stringProp v OrderByKey s end in
  let? v := match m_distinct q with [] => Ok v | s => MojObjectVisitor.stringProp v DistinctKey s end in
  let? v := if m_desc q then MojObjectVisitor.boolProp v DescKey true else Ok v in
  let? v := if m_limit q =? LimitDefault then Ok v else MojObjectVisitor.intProp v LimitKey (m_limit q) in
  let? v := match m_page q with
            | [] => Ok v
            | key => let? obj := Page_toObject key in MojObject.objectProp v PageKey obj
            end in
  MojObjectVisitor.endObject v.
End visitor.

Definition toObject (q : MojDbQuery) : res MojObject :=
  let? builder := toObject_visitor q MojObjectBuilder.init in Ok (MojObjectBuilder.m_obj builder).

(** ** Validation *)
Definition validateClause (st : bool * bool) (i : mstring * WhereClause) : res (bool * bool) :=
  let '(hasInequalityOp, hasArrayVal) := st in
  let? ineq := if negb (bool_decide (WhereClause.m_lowerOp i.2 = OpEq)) then
                 if hasInequalityOp : bool then Err MojErrDbInvalidQuery else Ok true
               else Ok hasInequalityOp in
  if bool_decide (MojObject.type (WhereClause.m_lowerVal i.2) = MojObject.TypeArray) &&
     negb (MojStrCmp i.1 DelKey =? 0) then
    if hasArrayVal : bool then Err MojErrDbInvalidQuery else Ok (ineq, true)
  else Ok (ineq, hasArrayVal).

Definition validate (q : MojDbQuery) : res unit :=
  let? _ := res_fold validateClause (false, false) (m_whereClauses q) in
  res_fold (fun _ i => if bool_decide (WhereClause.m_lowerOp i.2 = OpSearch)
                       then Err MojErrDbInvalidQuery else Ok tt) tt (m_filterClauses q).

Definition validateFind (q : MojDbQuery) : res unit :=
  let? _ := res_fold (fun _ i =>
    if WhereClause.definesOrder i.2 &&
       negb (match m_orderProp q with [] => true | _ => MojStrCmp (m_orderProp q) i.1 =? 0 end)
    then Err MojErrDbInvalidQuery
    else if bool_decide (WhereClause.m_lowerOp i.2 = OpSearch) then Err MojErrDbInvalidQuery
    else Ok tt) tt (m_whereClauses q) in
  match m_filterClauses q with [] => Ok tt | _ => Err MojErrDbInvalidQuery end.

(** [operator==]: filters and aggregates are not compared. *)
Definition eq (q rhs : MojDbQuery) : bool :=
  (MojStrCmp (m_fromType q) (m_fromType rhs) =? 0) &&
  MojRbTreeBase.equals MojStrCmp (m_selectProps q) (m_selectProps rhs) &&
  MojHashMap.equals key_eq WhereClause.eq (m_whereClauses q) (m_whereClauses rhs) &&
  (MojDbKey.compare (m_page q) (m_page rhs) =? 0) &&
  (MojStrCmp (m_orderProp q) (m_orderProp rhs) =? 0) &&
  (MojStrCmp (m_distinct q) (m_distinct rhs) =? 0) &&
  (m_limit q =? m_limit rhs) && Bool.eqb (m_desc q) (m_desc rhs).
End MojDbQuery.
