(* ===== verification/DbQueryRoundTrip.v ===== *)
(** * Queries, written and read back

    [toObject] shows a visitor an object of its own; the invariant of the clause
    maps; and [fromObject] applied to what [toObject] wrote. *)

From S2P Require Import Prelude Containers CoreUtil Number Object ObjectBuilder DataSerialization TokenSet ObjectSerialization Text DbKey Json JsonRoundTrip DbQuery.

Module QueryRoundTrip.
Import MojDbQuery.

(** ** Objects with optional properties *)
Abbreviation slot := (mstring * option MojObject)%type.

Definition entries (slots : list slot) : list (mstring * MojObject) :=
  flat_map (fun s => match s.2 with Some v => [(s.1, v)] | None => [] end) slots.

Lemma entries_cons s slots :
  entries (s :: slots) = (match s.2 with Some v => [(s.1, v)] | None => [] end) ++ entries slots.
Proof. done. Qed.

Definition last_entry (k : mstring) (r : option MojObject) (kv : mstring * MojObject) : option MojObject :=
  if decide (kv.1 = k) then Some (MojObjectBuilder.rebuild kv.2) else r.

Lemma last_entry_absent k slots r : k ∉ map fst slots -> fold_left (last_entry k) (entries slots) r = r.
Proof.
  revert r. induction slots as [|[k' o] slots IH]; intros r Hk; [done|]. cbn [map fst] in Hk.
  rewrite entries_cons, fold_left_app, IH by set_solver. destruct o as [v|]; [|done].
  unfold last_entry. simpl. destruct (decide (k' = k)); [set_solver|done].
Qed.

Lemma entries_keys slots : Forall (fun s => str_ok s.1) slots -> Forall (fun kv => str_ok kv.1) (entries slots).
Proof.
  induction 1 as [|[k [v|]] slots Hk Hf IH]; [by constructor| |exact IH]. by constructor.
Qed.

(** Each name has one slot. *)
Lemma get_slot slots k x : NoDup (map fst slots) -> Forall (fun s => str_ok s.1) slots ->
  (k, x) ∈ slots -> MojObject.get (MojObjectBuilder.rebuild (ObjectImpl (entries slots))) k =
    match x with Some v => Some (MojObjectBuilder.rebuild v) | None => None end.
Proof.
  intros Hn Hf Hx. rewrite MojObjectBuilder.get_rebuild.
  2:{ rewrite Forall_forall in Hf. apply (Hf _ Hx). }
  2:{ by apply entries_keys. }
  fold (last_entry k).
  assert (forall r, fold_left (last_entry k) (entries slots) r =
    match x with Some v => Some (MojObjectBuilder.rebuild v) | None => r end) as E; [|by rewrite E; destruct x].
  clear Hf. induction slots as [|[k' o] slots IH]; [by apply not_elem_of_nil in Hx|]. intros r.
  apply NoDup_cons in Hn as [Hk Hn]. apply elem_of_cons in Hx as [[= -> ->]|Hx].
  - rewrite entries_cons, fold_left_app, last_entry_absent by done. destruct o as [v|]; [|done].
    unfold last_entry. simpl. by rewrite decide_True.
  - assert (k' <> k) as Hne.
    { intros ->. apply Hk. apply list_elem_of_fmap. by exists (k, x). }
    specialize (IH Hn Hx). rewrite entries_cons, fold_left_app, IH. destruct o as [v|]; [|done].
    unfold last_entry. simpl. by rewrite decide_False by done.
Qed.

Lemma get_no_slot slots k : k ∉ map fst slots -> str_ok k -> Forall (fun s => str_ok s.1) slots ->
  MojObject.get (MojObjectBuilder.rebuild (ObjectImpl (entries slots))) k = None.
Proof.
  intros Hk Hs Hf. rewrite MojObjectBuilder.get_rebuild; [by apply last_entry_absent|done|].
  by apply entries_keys.
Qed.

Lemma str_okb s : forallb (fun c => (0 <? c) && (c <? 256)) s = true -> str_ok s.
Proof. unfold str_ok. rewrite List.forallb_forall. intros H. apply List.Forall_forall. intros c Hc. specialize (H c Hc). lia. Qed.

(** ** What is written *)
Definition op_text (op : CompOp) : mstring := match opToString op with Some s => s | None => [] end.

Definition clause_slots (p : mstring) (op : CompOp) (val : MojObject) (coll : MojDbCollationStrength) : list slot :=
  [(PropKey, Some (StringImpl p)); (OpKey, Some (StringImpl (op_text op))); (ValKey, Some val);
   (CollateKey, if decide (coll = MojDbCollationInvalid) then None
                else Some (StringImpl (MojDbUtils.collationToString coll)))].

Definition clause_obj p op val coll : MojObject := ObjectImpl (entries (clause_slots p op val coll)).

Definition where_objs (i : mstring * WhereClause) : list MojObject :=
  (if decide (WhereClause.m_lowerOp i.2 = OpNone) then []
   else [clause_obj i.1 (WhereClause.m_lowerOp i.2) (WhereClause.m_lowerVal i.2) (WhereClause.m_collation i.2)]) ++
  (if decide (WhereClause.m_upperOp i.2 = OpNone) then []
   else [clause_obj i.1 (WhereClause.m_upperOp i.2) (WhereClause.m_upperVal i.2) (WhereClause.m_collation i.2)]).

Definition where_obj (m : WhereMap) : option MojObject :=
  match m with [] => None | _ => Some (ArrayImpl (flat_map where_objs m)) end.

Definition string_slot (s : mstring) : option MojObject := match s with [] => None | _ => Some (StringImpl s) end.

Definition page_text (key : MojDbKey) : mstring := MojBase64.encodeLoop MojBase64.chars key false.

Definition query_slots (q : MojDbQuery) : list slot :=
  [(SelectKey, match m_selectProps q with [] => None | l => Some (ArrayImpl (map StringImpl l)) end);
   (FromKey, Some (StringImpl (m_fromType q)));
   (WhereKey, where_obj (m_whereClauses q));
   (FilterKey, where_obj (m_filterClauses q));
   (OrderByKey, string_slot (m_orderProp q));
   (DistinctKey, string_slot (m_distinct q));
   (DescKey, if m_desc q then Some (BoolImpl true) else None);
   (LimitKey, if m_limit q =? LimitDefault then None else Some (IntImpl (m_limit q)));
   (PageKey, match m_page q with [] => None | key => Some (StringImpl (page_text key)) end)].

Lemma res_bind_cong {A B} (m m' : res A) (f g : A -> res B) :
  m = m' -> (forall a, f a = g a) -> res_bind m f = res_bind m' g.
Proof. intros -> H. by apply res_bind_ext. Qed.

Section visitor.
Context {S : Type} `{!Visitor S}.

Definition visit_prop (v : S) (i : mstring * MojObject) : res S :=
  let? v := MojObjectVisitor.propName v i.1 in MojObject.visit i.2 v.

Lemma visit_object m (v : S) : MojObject.visit (ObjectImpl m) v =
  let? v := MojObjectVisitor.beginObject v in
  let? v := res_fold visit_prop v m in MojObjectVisitor.endObject v.
Proof. done. Qed.

(** An object's slots in turn. *)
Lemma visit_slots s slots (v : S) : res_fold visit_prop v (entries (s :: slots)) =
  let? v := match s.2 with Some x => visit_prop v (s.1, x) | None => Ok v end in
  res_fold visit_prop v (entries slots).
Proof. unfold entries. cbn [flat_map]. rewrite res_fold_app. destruct s as [k [x|]]; simpl; [by rewrite res_bind_ret|done]. Qed.

(** The next slot of the object against the next step of the code. *)
Ltac next_slot :=
  rewrite visit_slots, res_bind_assoc; cbn [fst snd]; apply res_bind_cong.

Lemma appendClause_visit p op val coll (v : S) : op <> OpNone ->
  appendClause v p op val coll = MojObject.visit (clause_obj p op val coll) v.
Proof.
  intros Ho. unfold clause_obj, clause_slots. rewrite visit_object. unfold appendClause, op_text.
  destruct (opToString op) as [str|] eqn:E; [|by destruct op].
  apply res_bind_ext. intros v1. next_slot; [done|]. intros v2. next_slot; [done|]. intros v3.
  next_slot; [done|]. intros v4. next_slot; [|done]. by destruct (decide (coll = MojDbCollationInvalid)).
Qed.

Lemma appendClauses_visit k m (v : S) :
  appendClauses v k m = visit_prop v (k, ArrayImpl (flat_map where_objs m)).
Proof.
  unfold appendClauses, visit_prop. cbn [fst snd MojObject.visit]. apply res_bind_ext. intros v1.
  apply res_bind_ext. intros v2. f_equal. clear v v1. revert v2.
  induction m as [|i m IH]; intros v; [done|]. cbn [flat_map res_fold]. rewrite res_fold_app.
  assert (appendWhere v i = res_fold (fun v i => MojObject.visit i v) v (where_objs i)) as ->.
  { unfold appendWhere, where_objs. rewrite res_fold_app.
    destruct (decide (WhereClause.m_lowerOp i.2 = OpNone)) as [|Hl];
      destruct (decide (WhereClause.m_upperOp i.2 = OpNone)) as [|Hu]; simpl;
      rewrite ?res_bind_ret; rewrite ?appendClause_visit by done; try done.
    apply res_bind_ext. intros v1. by rewrite appendClause_visit, res_bind_ret by done. }
  apply res_bind_ext. intros v1. apply IH.
Qed.

Lemma stringValue_fold l (v : S) :
  res_fold MojObjectVisitor.stringValue v l = res_fold (fun v i => MojObject.visit i v) v (map StringImpl l).
Proof. revert v. induction l as [|s l IH]; intros v; [done|]. cbn [map res_fold]. apply res_bind_ext. auto. Qed.

Lemma base64Encode_page key : MojString.base64Encode key false = Ok (page_text key).
Proof.
  unfold MojString.base64Encode, MojBase64.MojBase64Encode, MojBase64.MojBase64EncodeImpl.
  by rewrite Nat.ltb_irrefl.
Qed.

(** A query shows a visitor what the object of its slots shows it. *)
Lemma toObject_visit q (v : S) :
  toObject_visitor q v = MojObject.visit (ObjectImpl (entries (query_slots q))) v.
Proof.
  rewrite visit_object. unfold query_slots, toObject_visitor.
  apply res_bind_ext. intros v1. next_slot.
  { destruct (m_selectProps q) as [|s l]; [done|]. unfold visit_prop. cbn [fst snd].
    apply res_bind_ext. intros v2. cbn [MojObject.visit]. apply res_bind_ext. intros v3.
    by rewrite stringValue_fold. }
  assert (forall m k (v : S), match m with [] => Ok v | i :: l => appendClauses v k (i :: l) end =
    match where_obj m with Some x => visit_prop v (k, x) | None => Ok v end) as W.
  { intros [|i m] k w; [done|]. apply appendClauses_visit. }
  assert (forall s k (v : S), match s with [] => Ok v | c :: l => MojObjectVisitor.stringProp v k (c :: l) end =
    match string_slot s with Some x => visit_prop v (k, x) | None => Ok v end) as T by (by intros [] k w).
  intros v2. next_slot; [done|].
  intros v3. next_slot; [apply W|].
  intros v4. next_slot; [apply W|].
  intros v5. next_slot; [apply T|].
  intros v6. next_slot; [apply T|].
  intros v7. next_slot; [by destruct (m_desc q)|].
  intros v8. next_slot; [by destruct (m_limit q =? LimitDefault)|].
  intros v9. next_slot; [|done].
  destruct (m_page q) as [|b key]; [done|]. unfold Page_toObject. by rewrite base64Encode_page.
Qed.
End visitor.

(** ** The invariant of a clause map *)
Definition val_ok (o : MojObject) : Prop := MojObject.ok o /\ MojObjectBuilder.defined o.
Definition is_array (o : MojObject) : Prop := MojObject.type o = MojObject.TypeArray.

(** The comparisons a clause can hold: at most one bound of each kind, a second
    one only between < and >, arrays only where they mean a choice. *)
Definition clause_ok (c : WhereClause) : Prop :=
  WhereClause.m_lowerOp c ∉ [OpLessThan; OpLessThanEq] /\
  WhereClause.m_upperOp c ∈ [OpNone; OpLessThan; OpLessThanEq] /\
  (WhereClause.m_upperOp c <> OpNone -> WhereClause.m_lowerOp c ∈ [OpNone; OpGreaterThan; OpGreaterThanEq]) /\
  (WhereClause.m_lowerOp c = OpNone -> WhereClause.m_upperOp c <> OpNone) /\
  (is_array (WhereClause.m_lowerVal c) -> WhereClause.m_lowerOp c ∈ [OpEq; OpPrefix; OpSubString]) /\
  ~ is_array (WhereClause.m_upperVal c) /\
  (if decide (WhereClause.m_lowerOp c = OpNone) then WhereClause.m_lowerVal c = UndefinedImpl
   else val_ok (WhereClause.m_lowerVal c)) /\
  (if decide (WhereClause.m_upperOp c = OpNone) then WhereClause.m_upperVal c = UndefinedImpl
   else val_ok (WhereClause.m_upperVal c)).

Definition where_ok (m : WhereMap) : Prop :=
  NoDup (map fst m) /\ Forall (fun i => str_ok i.1 /\ clause_ok i.2) m.

Lemma key_eq_spec a b : str_ok a -> str_ok b -> key_eq a b = bool_decide (a = b).
Proof.
  intros Ha Hb. unfold key_eq. apply eq_true_iff_eq. by rewrite Z.eqb_eq, bool_decide_eq_true, MojStrCmp_eq.
Qed.

Lemma key_eq_refl a : key_eq a a = true.
Proof. unfold key_eq. by rewrite (comp_refl MojStrCmp). Qed.

Lemma find_key (m : WhereMap) p : where_ok m -> str_ok p ->
  (p ∉ map fst m /\ List.find (fun n => key_eq n.1 p) m = None) \/
  (exists c, (p, c) ∈ m /\ List.find (fun n => key_eq n.1 p) m = Some (p, c)).
Proof.
  intros [_ Hf] Hp. induction Hf as [|[k c] m [Hk _] Hf IH]; [left; by split; [apply not_elem_of_nil|]|].
  simpl in *. rewrite key_eq_spec by done. destruct (bool_decide_reflect (k = p)) as [->|Hn].
  - right. exists c. split; [apply list_elem_of_here|done].
  - destruct IH as [[H1 H2]|(c' & H1 & H2)]; [left|right].
    + split; [|done]. rewrite not_elem_of_cons. by split.
    + exists c'. split; [by apply list_elem_of_further|done].
Qed.

Lemma find_clause m p c : where_ok m -> (p, c) ∈ m -> List.find (fun n => key_eq n.1 p) m = Some (p, c).
Proof.
  intros [Hn Hf] Hin. induction Hf as [|[k c'] m [Hk _] Hf IH]; [by apply not_elem_of_nil in Hin|].
  simpl in *. apply NoDup_cons in Hn as [Hk2 Hn]. apply elem_of_cons in Hin as [[= -> ->]|Hin].
  - by rewrite key_eq_refl.
  - assert (str_ok p) as Hp by (rewrite Forall_forall in Hf; by apply (Hf (p, c))).
    rewrite key_eq_spec by done. destruct (bool_decide_reflect (k = p)) as [->|]; [|auto].
    destruct Hk2. apply list_elem_of_fmap. by exists (p, c).
Qed.

Lemma set_val_keys (m : WhereMap) p c : map fst (MojHashMap.set_val key_eq m p c) = map fst m.
Proof. induction m as [|[k c'] m IH]; simpl; [done|]. destruct (key_eq k p); simpl; by rewrite ?IH. Qed.

Lemma set_val_ok (m : WhereMap) p c : where_ok m -> clause_ok c -> where_ok (MojHashMap.set_val key_eq m p c).
Proof.
  intros [Hn Hf] Hc. split; [by rewrite set_val_keys|]. clear Hn.
  induction Hf as [|[k c'] m [Hk Hc'] Hf IH]; simpl; [done|].
  destruct (key_eq k p); constructor; try done; by split.
Qed.

Lemma set_val_get (m : WhereMap) p c q : where_ok m -> str_ok p -> str_ok q -> p ∈ map fst m ->
  MojHashMap.get key_eq (MojHashMap.set_val key_eq m p c) q =
    if decide (p = q) then Some c else MojHashMap.get key_eq m q.
Proof.
  intros [_ Hf] Hp Hq Hin. unfold MojHashMap.get.
  induction Hf as [|[k c'] m [Hk _] Hf IH]; [by apply not_elem_of_nil in Hin|]. simpl in *.
  destruct (key_eq k p) eqn:E; rewrite key_eq_spec in E by done; simpl; rewrite key_eq_spec by done.
  - apply bool_decide_eq_true in E as ->. destruct (bool_decide_reflect (p = q)) as [->|Hn].
    + by rewrite decide_True.
    + by rewrite decide_False.
  - apply bool_decide_eq_false in E. destruct (bool_decide_reflect (k = q)) as [->|Hn].
    + by rewrite decide_False.
    + apply IH. by apply elem_of_cons in Hin as [->|].
Qed.

(** The clause [createClause] makes. *)
Definition new_clause (op : CompOp) (val : MojObject) (coll : MojDbCollationStrength) : WhereClause :=
  if bool_decide (op ∈ [OpLessThan; OpLessThanEq]) then
    {| WhereClause.m_lowerOp := OpNone; WhereClause.m_upperOp := op; WhereClause.m_lowerVal := UndefinedImpl;
       WhereClause.m_upperVal := val; WhereClause.m_collation := coll |}
  else
    {| WhereClause.m_lowerOp := op; WhereClause.m_upperOp := OpNone; WhereClause.m_lowerVal := val;
       WhereClause.m_upperVal := UndefinedImpl; WhereClause.m_collation := coll |}.

Lemma addClause_new m p op val coll : op <> OpNone ->
  (is_array val -> op ∈ [OpEq; OpPrefix; OpSubString]) -> MojHashMap.get key_eq m p = None ->
  addClause m p op val coll = Ok ((p, new_clause op val coll) :: m).
Proof.
  intros Ho Ha Hg. unfold addClause. rewrite bool_decide_false by done.
  assert (bool_decide (MojObject.type val = MojObject.TypeArray) && negb (bool_decide (op = OpEq)) &&
          negb (bool_decide (op = OpPrefix)) && negb (bool_decide (op = OpSubString)) = false) as ->.
  { destruct (bool_decide_reflect (MojObject.type val = MojObject.TypeArray)) as [A|]; [|done].
    specialize (Ha A). destruct op; try done; set_solver. }
  rewrite Hg. unfold createClause, MojHashMap.put, MojHashMap.contains. rewrite Hg. by destruct op.
Qed.

(** What [addClause] does to a map that has the property already. *)
Lemma updateClause_ok c op val coll c' : clause_ok c -> val_ok val -> ~ is_array val ->
  updateClause c op val coll = Ok c' ->
  clause_ok c' /\
  (if bool_decide (op ∈ [OpLessThan; OpLessThanEq])
   then WhereClause.m_upperOp c' = op /\ WhereClause.m_upperVal c' = val /\
        WhereClause.m_lowerOp c' = WhereClause.m_lowerOp c /\ WhereClause.m_lowerVal c' = WhereClause.m_lowerVal c
   else WhereClause.m_lowerOp c' = op /\ WhereClause.m_lowerVal c' = val /\
        WhereClause.m_upperOp c' = WhereClause.m_upperOp c /\ WhereClause.m_upperVal c' = WhereClause.m_upperVal c).
Proof.
  intros (H1 & H2 & H3 & H4 & H5 & H6 & H7 & H8) Hv Ha E.
  destruct c as [lop uop lv uv coll0]. simpl in *. unfold updateClause in E. simpl in E.
  destruct op; try done; destruct lop; try done; destruct uop; try done;
    unfold WhereClause.setLower, WhereClause.setUpper, WhereClause.collation in E; simpl in E;
    destruct (bool_decide (coll0 = MojDbCollationInvalid)), (bool_decide (coll = coll0)); simpl in E; try done;
    injection E as <-; (split; [|by repeat split]); unfold clause_ok; simpl in *;
    (split; [set_solver|]); (split; [set_solver|]); (split; [set_solver|]); (split; [done|]); 
    (split; [done|]); (split; [done|]); by split.
Qed.

Lemma new_clause_ok op val coll : op <> OpNone -> val_ok val ->
  (is_array val -> op ∈ [OpEq; OpPrefix; OpSubString]) -> clause_ok (new_clause op val coll).
Proof.
  intros Ho Hv Ha. unfold new_clause, clause_ok. destruct (bool_decide_reflect (op ∈ [OpLessThan; OpLessThanEq])) as [L|L]; simpl.
  - rewrite (decide_False (P := op = OpNone)) by done.
    split_and!; try done; [set_solver..|]. intros A. specialize (Ha A). destruct op; set_solver.
  - rewrite decide_False by done. split_and!; done || set_solver.
Qed.

(** Array values pass the test of [addClause] only with the operators that take them. *)
Lemma addClause_inv m p op val coll m' : addClause m p op val coll = Ok m' ->
  op <> OpNone /\ (is_array val -> op ∈ [OpEq; OpPrefix; OpSubString]) /\
  match MojHashMap.get key_eq m p with
  | None => m' = (p, new_clause op val coll) :: m
  | Some c => exists c', updateClause c op val coll = Ok c' /\ m' = MojHashMap.set_val key_eq m p c'
  end.
Proof.
  intros E. assert (op <> OpNone) as Ho.
  { intros ->. unfold addClause in E. by rewrite bool_decide_true in E. }
  assert (is_array val -> op ∈ [OpEq; OpPrefix; OpSubString]) as Ha.
  { intros A. unfold addClause in E. rewrite bool_decide_false, (bool_decide_true _ A) in E by done.
    destruct op; simpl in E; set_solver. }
  split; [done|]. split; [done|].
  destruct (MojHashMap.get key_eq m p) as [c|] eqn:G.
  - unfold addClause in E. rewrite bool_decide_false, G in E by done.
    destruct (_ && _) in E; [done|]. apply res_bind_ok in E as (c' & E & [= <-]). by exists c'.
  - rewrite addClause_new in E by done. by injection E as <-.
Qed.

(** Adding a comparison to a clause map keeps the invariant (distinct
    properties; at most a lower and an upper bound each, together only as a
    range; arrays only where they mean a choice), records the comparison under
    its property as the upper bound for < and <=, else the lower one, and leaves
    the other bound and every other property as they were. *)
Theorem add_clause m p op val coll m' : where_ok m -> str_ok p -> val_ok val ->
  addClause m p op val coll = Ok m' ->
  where_ok m' /\
  (forall p', str_ok p' -> p' <> p -> MojHashMap.get key_eq m' p' = MojHashMap.get key_eq m p') /\
  exists c, MojHashMap.get key_eq m' p = Some c /\
    let old := match MojHashMap.get key_eq m p with Some c0 => c0 | None => WhereClause.init end in
    if bool_decide (op ∈ [OpLessThan; OpLessThanEq])
    then WhereClause.m_upperOp c = op /\ WhereClause.m_upperVal c = val /\
         WhereClause.m_lowerOp c = WhereClause.m_lowerOp old /\ WhereClause.m_lowerVal c = WhereClause.m_lowerVal old
    else WhereClause.m_lowerOp c = op /\ WhereClause.m_lowerVal c = val /\
         WhereClause.m_upperOp c = WhereClause.m_upperOp old /\ WhereClause.m_upperVal c = WhereClause.m_upperVal old.
Proof.
  intros Hm Hp Hv E. apply addClause_inv in E as (Ho & Ha & E).
  pose proof (find_key m p Hm Hp) as F. unfold MojHashMap.get in E |- *.
  destruct F as [[Hni F]|(c & Hin & F)]; rewrite F in E |- *; cbn [snd] in *.
  - subst m'. destruct Hm as [Hn Hf]. split; [|split].
    + split; [by apply NoDup_cons|]. constructor; [|done]. split; [done|by apply new_clause_ok].
    + intros p' Hp' Hne. cbn [List.find fst]. rewrite key_eq_spec by done. by rewrite bool_decide_false.
    + cbn [List.find fst]. rewrite key_eq_refl. eexists. split; [done|]. unfold new_clause. simpl.
      by destruct (bool_decide (op ∈ [OpLessThan; OpLessThanEq])).
  - destruct E as (c' & E & ->).
    assert (clause_ok c) as Hc by (destruct Hm as [_ Hf]; rewrite Forall_forall in Hf; by apply (Hf (p, c))).
    assert (~ is_array val) as Hna.
    { intros A. specialize (Ha A). unfold updateClause in E. destruct op; try done; set_solver. }
    destruct (updateClause_ok c op val coll c' Hc Hv Hna E) as [Hc' Hu].
    assert (p ∈ map fst m) as Hpm by (apply list_elem_of_fmap; by exists (p, c)).
    split; [by apply set_val_ok|]. split.
    + intros p' Hp' Hne. pose proof (set_val_get m p c' p' Hm Hp Hp' Hpm) as G. unfold MojHashMap.get in G.
      by rewrite decide_False in G by done.
    + pose proof (set_val_get m p c' p Hm Hp Hp Hpm) as G. unfold MojHashMap.get in G.
      rewrite decide_True in G by done. exists c'. by split.
Qed.

Lemma where_ok_nil : where_ok [].
Proof. split; [apply NoDup_nil_2|constructor]. Qed.

Lemma add_clause_witness : exists m', addClause [] (_T "a") OpLessThan (IntImpl 3) MojDbCollationInvalid = Ok m' /\
  where_ok m' /\ exists c, MojHashMap.get key_eq m' (_T "a") = Some c /\ WhereClause.m_upperVal c = IntImpl 3.
Proof.
  eexists. split; [reflexivity|].
  destruct (add_clause [] (_T "a") OpLessThan (IntImpl 3) MojDbCollationInvalid
    [(_T "a", new_clause OpLessThan (IntImpl 3) MojDbCollationInvalid)]) as (H1 & _ & c & H2 & H3).
  - exact where_ok_nil.
  - by apply str_okb.
  - split; [simpl; unfold in_int; lia|exact I].
  - reflexivity.
  - split; [exact H1|]. exists c. split; [exact H2|]. simpl in H3. apply H3.
Defined.

(** ** Reading what was written *)
Lemma nodup_b (l : list mstring) : bool_decide (NoDup l) = true -> NoDup l.
Proof. by apply bool_decide_eq_true_1. Qed.

Lemma clause_slots_keys p op val coll : map fst (clause_slots p op val coll) = [PropKey; OpKey; ValKey; CollateKey].
Proof. done. Qed.

Lemma slots_str_ok (slots : list slot) : Forall str_ok (map fst slots) -> Forall (fun s => str_ok s.1) slots.
Proof. by rewrite Forall_map. Qed.

Lemma clause_get p op val coll k x : (k, x) ∈ clause_slots p op val coll ->
  MojObject.get (MojObjectBuilder.rebuild (clause_obj p op val coll)) k =
    match x with Some v => Some (MojObjectBuilder.rebuild v) | None => None end.
Proof.
  intros Hx. apply get_slot; [| |done].
  - rewrite clause_slots_keys. apply nodup_b. by vm_compute.
  - apply slots_str_ok. rewrite clause_slots_keys. repeat constructor; by apply str_okb.
Qed.

Lemma stringToOp_text op : op <> OpNone -> stringToOp (op_text op) = Ok op.
Proof. by destruct op. Qed.

Lemma rebuild_val o : val_ok o -> MojObjectBuilder.rebuild o = o.
Proof. intros [Ho Hd]. rewrite MojObjectBuilder.rebuild_norm by done. by apply MojObjectBuilder.norm_defined. Qed.

Lemma addClauseObject_eq m p op val coll : op <> OpNone -> val_ok val ->
  addClauseObject m (MojObjectBuilder.rebuild (clause_obj p op val coll)) = addClause m p op val coll.
Proof.
  intros Ho Hv. unfold addClauseObject, MojObjectString.getRequired_string, MojObjectString.get_string.
  rewrite (clause_get p op val coll PropKey (Some (StringImpl p))) by (by apply (list_elem_of_lookup_2 _ 0)).
  rewrite (clause_get p op val coll OpKey (Some (StringImpl (op_text op)))) by (by apply (list_elem_of_lookup_2 _ 1)).
  rewrite (clause_get p op val coll ValKey (Some val)) by (by apply (list_elem_of_lookup_2 _ 2)).
  rewrite (clause_get p op val coll CollateKey _) by (by apply (list_elem_of_lookup_2 _ 3)).
  cbn [MojObjectBuilder.rebuild MojObjectString.stringValue res_bind MojObject.getRequiredErrT MojObject.getRequiredT].
  rewrite stringToOp_text by done. cbn [res_bind]. rewrite rebuild_val by done.
  destruct (decide (coll = MojDbCollationInvalid)) as [->|Hc]; [done|].
  cbn [MojObjectBuilder.rebuild MojObjectString.stringValue res_bind]. by rewrite MojDbUtils.collation_strings.
Qed.

Lemma no_key m p : where_ok m -> str_ok p -> p ∉ map fst m -> MojHashMap.get key_eq m p = None.
Proof.
  intros Hm Hp Hni. unfold MojHashMap.get. destruct (find_key m p Hm Hp) as [[_ ->]|(c & Hin & _)]; [done|].
  destruct Hni. apply list_elem_of_fmap. by exists (p, c).
Qed.

(** The comparisons of one clause make the clause. *)
Lemma add_where_objs p c m : where_ok m -> str_ok p -> clause_ok c -> p ∉ map fst m ->
  res_fold addClauseObject m (map MojObjectBuilder.rebuild (where_objs (p, c))) = Ok ((p, c) :: m).
Proof.
  intros Hm Hp (H1 & H2 & H3 & H4 & H5 & H6 & H7 & H8) Hni. pose proof (no_key m p Hm Hp Hni) as Hg.
  unfold where_objs. cbn [fst snd]. destruct c as [lop uop lv uv coll]. cbn [WhereClause.m_lowerOp WhereClause.m_upperOp
    WhereClause.m_lowerVal WhereClause.m_upperVal WhereClause.m_collation] in *.
  destruct (decide (lop = OpNone)) as [->|Hl]; destruct (decide (uop = OpNone)) as [->|Hu]; [by destruct H4| | |].
  - cbn [app map res_fold]. rewrite addClauseObject_eq by done. rewrite addClause_new by (done || (by intros A; destruct H6)).
    cbn [res_bind]. unfold new_clause. rewrite bool_decide_true by set_solver. by subst.
  - cbn [app map res_fold]. rewrite addClauseObject_eq by done. rewrite addClause_new by done.
    cbn [res_bind]. unfold new_clause. rewrite bool_decide_false by set_solver. by subst.
  - specialize (H3 Hu). cbn [app map res_fold]. rewrite !addClauseObject_eq by done. rewrite addClause_new by done.
    cbn [res_bind]. rewrite addClauseObject_eq by done.
    assert (bool_decide (lop ∈ [OpLessThan; OpLessThanEq]) = false) as Eb by (by apply bool_decide_false).
    unfold new_clause. rewrite Eb. unfold addClause. rewrite bool_decide_false by done.
    rewrite (bool_decide_false (MojObject.type uv = MojObject.TypeArray)) by done. cbn [andb].
    unfold MojHashMap.get, MojHashMap.set_val. cbn [List.find fst snd]. rewrite key_eq_refl. cbn [snd].
    assert (updateClause {| WhereClause.m_lowerOp := lop; WhereClause.m_upperOp := OpNone; WhereClause.m_lowerVal := lv;
        WhereClause.m_upperVal := UndefinedImpl; WhereClause.m_collation := coll |} uop uv coll =
      Ok {| WhereClause.m_lowerOp := lop; WhereClause.m_upperOp := uop; WhereClause.m_lowerVal := lv;
        WhereClause.m_upperVal := uv; WhereClause.m_collation := coll |}) as ->; [|done].
    assert (WhereClause.setUpper {| WhereClause.m_lowerOp := lop; WhereClause.m_upperOp := OpNone;
        WhereClause.m_lowerVal := lv; WhereClause.m_upperVal := UndefinedImpl; WhereClause.m_collation := coll |} uop uv coll =
      Ok {| WhereClause.m_lowerOp := lop; WhereClause.m_upperOp := uop; WhereClause.m_lowerVal := lv;
        WhereClause.m_upperVal := uv; WhereClause.m_collation := coll |}) as Eu.
    { unfold WhereClause.setUpper, WhereClause.collation. cbn [WhereClause.m_upperOp WhereClause.m_collation].
      rewrite (bool_decide_true (coll = coll)) by done. cbn [negb]. rewrite andb_false_r. done. }
    unfold updateClause. rewrite <- Eu. destruct uop; try set_solver; destruct lop; done || set_solver.
Qed.

Lemma where_ok_cons i m : where_ok (i :: m) ->
  str_ok i.1 /\ clause_ok i.2 /\ i.1 ∉ map fst m /\ where_ok m.
Proof.
  intros [Hn Hf]. apply NoDup_cons in Hn as [H1 H2]. apply Forall_cons in Hf as [[H3 H4] H5].
  split; [done|]. split; [done|]. split; [done|by split].
Qed.

Lemma rev_reverse {A} (l : list A) : rev l = reverse l.
Proof. apply List.rev_alt. Qed.

Lemma where_ok_rev m : where_ok m -> where_ok (rev m).
Proof.
  intros [Hn Hf]. split.
  - rewrite List.map_rev, rev_reverse. by rewrite reverse_Permutation.
  - rewrite rev_reverse. by apply Forall_reverse.
Qed.

(** The clauses are added in the order they were written, each at the front. *)
Lemma addClauses_rev m acc : where_ok (rev m ++ acc) ->
  res_fold addClauseObject acc (map MojObjectBuilder.rebuild (flat_map where_objs m)) = Ok (rev m ++ acc).
Proof.
  revert acc. induction m as [|[p c] m IH]; intros acc Ha; [done|].
  cbn [flat_map rev] in *. rewrite map_app, res_fold_app. rewrite <- app_assoc in Ha. cbn [app] in Ha.
  assert (where_ok ((p, c) :: acc)) as Hc.
  { destruct Ha as [Hn Hf]. rewrite map_app in Hn. apply NoDup_app in Hn as (_ & _ & Hn).
    apply Forall_app in Hf as [_ Hf]. by split. }
  apply where_ok_cons in Hc as (Hp & Hc & Hni & Hacc). cbn [fst snd] in *.
  rewrite add_where_objs by done. cbn [res_bind]. rewrite IH by done. by rewrite <- app_assoc.
Qed.

(** The queries [toObject] covers: no aggregates, a distinct property only with
    the selection and order it forces, and what a text cannot carry left at its
    default. *)
Definition query_ok (q : MojDbQuery) : Prop :=
  MojRbTreeBase.sorted id MojStrCmp (m_selectProps q) /\
  where_ok (m_whereClauses q) /\ where_ok (m_filterClauses q) /\
  byte_key (m_page q) /\ in_uint 32 (m_limit q) /\
  (m_distinct q = [] \/ (m_selectProps q = [m_distinct q] /\ m_orderProp q = m_distinct q)) /\
  m_immediateReturn q = false /\ m_ignoreInactiveShards q = true /\
  m_aggregateMap q = [] /\ m_groupByProps q = [].

Definition query_obj (q : MojDbQuery) : MojObject := MojObjectBuilder.rebuild (ObjectImpl (entries (query_slots q))).

Lemma toObject_obj q : toObject q = Ok (query_obj q).
Proof.
  unfold toObject. rewrite toObject_visit, (MojObjectBuilder.visit_rebuild _ MojObjectBuilder.init I). done.
Qed.

Lemma query_slots_keys q : map fst (query_slots q) =
  [SelectKey; FromKey; WhereKey; FilterKey; OrderByKey; DistinctKey; DescKey; LimitKey; PageKey].
Proof. done. Qed.

Lemma query_slots_ok q : Forall (fun s => str_ok s.1) (query_slots q).
Proof. apply slots_str_ok. rewrite query_slots_keys. repeat constructor; by apply str_okb. Qed.

Lemma query_get q i k x : query_slots q !! i = Some (k, x) -> MojObject.get (query_obj q) k =
  match x with Some v => Some (MojObjectBuilder.rebuild v) | None => None end.
Proof.
  intros H. apply get_slot; [|apply query_slots_ok|by apply (list_elem_of_lookup_2 _ i)].
  rewrite query_slots_keys. apply nodup_b. by vm_compute.
Qed.

Lemma query_get_none q k : bool_decide (k ∈ map fst (query_slots q)) = false -> str_ok k ->
  MojObject.get (query_obj q) k = None.
Proof. intros H%bool_decide_eq_false_1 Hk. apply get_no_slot; [done|done|apply query_slots_ok]. Qed.

Lemma rebuild_clauses l : MojObjectBuilder.rebuild (ArrayImpl l) = ArrayImpl (map MojObjectBuilder.rebuild l).
Proof. done. Qed.

Lemma select_all l q acc : MojRbTreeBase.sorted id MojStrCmp (acc ++ l) -> m_selectProps q = acc ->
  res_fold (fun q prop => let? str := MojObjectString.stringValue prop in Ok (select q str)) q
    (map MojObjectBuilder.rebuild (map StringImpl l)) =
  Ok {| m_fromType := m_fromType q; m_selectProps := acc ++ l; m_whereClauses := m_whereClauses q;
        m_filterClauses := m_filterClauses q; m_page := m_page q; m_orderProp := m_orderProp q;
        m_distinct := m_distinct q; m_limit := m_limit q; m_immediateReturn := m_immediateReturn q;
        m_desc := m_desc q; m_ignoreInactiveShards := m_ignoreInactiveShards q;
        m_aggregateMap := m_aggregateMap q; m_groupByProps := m_groupByProps q |}.
Proof.
  revert q acc. induction l as [|s l IH]; intros q acc Hs E.
  { cbn [map res_fold]. rewrite app_nil_r. subst. by destruct q. }
  cbn [map res_fold MojObjectBuilder.rebuild MojObjectString.stringValue res_bind].
  rewrite (IH _ (acc ++ [s])); [by rewrite <- app_assoc|by rewrite <- app_assoc|].
  unfold select. simpl. rewrite E. unfold MojSet.put. apply MojRbTreeBase.put_last.
  apply Forall_forall. intros x Hx.
  assert (forall l1 l2, MojRbTreeBase.sorted id MojStrCmp (l1 ++ l2) ->
    forall a b, a ∈ l1 -> b ∈ l2 -> MojRbTreeBase.node_lt id MojStrCmp a b) as K.
  { clear. intros l1 l2 H a b Ha Hb. induction l1 as [|y l1 IH]; [by apply not_elem_of_nil in Ha|].
    apply MojRbTreeBase.sorted_cons in H as [Hy H]. apply elem_of_cons in Ha as [->|Ha]; [|auto].
    rewrite Forall_forall in Hy. apply Hy. set_solver. }
  apply (K acc (s :: l) Hs); [done|apply list_elem_of_here].
Qed.

Lemma string_eq_refl s : (MojStrCmp s s =? 0) = true.
Proof. by rewrite (comp_refl MojStrCmp). Qed.

Lemma clause_eq_refl c : WhereClause.eq c c = true.
Proof.
  unfold WhereClause.eq. rewrite !bool_decide_true by done. rewrite !MojObject.equals_compare.
  by rewrite !(comp_refl MojObject.compare).
Qed.

Lemma where_eq_rev m : where_ok m -> MojHashMap.equals key_eq WhereClause.eq m (rev m) = true.
Proof.
  intros Hm. unfold MojHashMap.equals. rewrite length_rev, Nat.eqb_refl. simpl.
  apply List.forallb_forall. intros [p c] Hin%list_elem_of_In.
  cbn [fst snd]. rewrite (find_clause (rev m) p c).
  - cbn [fst snd]. by rewrite key_eq_refl, clause_eq_refl.
  - by apply where_ok_rev.
  - rewrite rev_reverse. by apply elem_of_reverse.
Qed.

Section from.
Context `{ICU} (getKind : mstring -> res (list (list mstring * MojDbCollationStrength))) (locale : mstring).

(** The part of [fromObject] that depends on whether there is a distinct property. *)
Lemma read_selection q : query_ok q ->
  (let? foundDistinct := MojObjectString.get_string (query_obj q) DistinctKey in
   let? (q0, orderBy) := match foundDistinct with
     | Some str => Ok (order (select (distinct (from make (m_fromType q)) str) str) str, false)
     | None => selectOrder (from make (m_fromType q)) (query_obj q)
     end in Ok (q0, orderBy, match foundDistinct with Some _ => true | None => false end)) =
  Ok (with_flags (with_where (with_aggregate q [] []) [] []) false false LimitDefault [],
      match m_distinct q, m_orderProp q with [], _ :: _ => true | _, _ => false end,
      match m_distinct q with [] => false | _ => true end).
Proof.
  intros (Hs & _ & _ & _ & _ & Hd & Hi & Hg & _). unfold MojObjectString.get_string.
  rewrite (query_get q 5 DistinctKey (string_slot (m_distinct q))) by done.
  destruct (m_distinct q) as [|c d] eqn:Ed.
  - cbn [string_slot res_bind]. unfold selectOrder, MojObjectString.get_string.
    rewrite (query_get q 0 SelectKey _) by done. rewrite (query_get q 4 OrderByKey (string_slot (m_orderProp q))) by done.
    assert (match match m_selectProps q with [] => None | p :: l => Some (ArrayImpl (map StringImpl (p :: l))) end with
      | Some v => Some (MojObjectBuilder.rebuild v) | None => None end =
      match m_selectProps q with [] => None | p :: l => Some (ArrayImpl (map MojObjectBuilder.rebuild (map StringImpl (p :: l)))) end)
      as -> by (by destruct (m_selectProps q)).
    assert (match match m_selectProps q with [] => None | p :: l =>
        Some (ArrayImpl (map MojObjectBuilder.rebuild (map StringImpl (p :: l)))) end with
      | Some array => if MojObject.empty array then Err MojErrDbInvalidQuery
          else res_fold (fun q prop => let? str := MojObjectString.stringValue prop in Ok (select q str))
                 (from make (m_fromType q)) (elements array)
      | None => Ok (from make (m_fromType q)) end =
      Ok (with_flags (with_where (with_order (with_aggregate q [] []) [] []) [] []) false false LimitDefault [])) as ->.
    { destruct (m_selectProps q) as [|p l] eqn:El.
      - destruct q. simpl in *. by subst.
      - change (MojObject.empty (ArrayImpl (map MojObjectBuilder.rebuild (map StringImpl (p :: l))))) with false.
        cbn [elements]. rewrite (select_all (p :: l) _ []) by done. cbn [app].
        destruct q. simpl in *. by subst. }
    cbn [res_bind]. destruct (m_orderProp q) as [|c o] eqn:Eo; cbn [string_slot res_bind].
    + destruct q. simpl in *. by subst.
    + cbn [MojObjectBuilder.rebuild MojObjectString.stringValue res_bind]. destruct q. simpl in *. by subst.
  - destruct Hd as [|[Hd1 Hd2]]; [done|].
    cbn [string_slot MojObjectBuilder.rebuild MojObjectString.stringValue res_bind].
    destruct q. simpl in *. by subst.
Qed.

Lemma read_limit q orderBy distinct aggregate : query_ok q ->
  limitOf (query_obj q) orderBy distinct aggregate = Ok (None, m_limit q).
Proof.
  intros (_ & _ & _ & _ & [Hl _] & _). unfold limitOf, MojObject.get_bool, MojObject.get_int.
  rewrite (query_get_none q ImmediateReturnKey) by (by vm_compute) || by apply str_okb.
  rewrite (query_get q 7 LimitKey _) by done.
  destruct (Z.eqb_spec (m_limit q) LimitDefault) as [->|]; [done|].
  cbn [MojObjectBuilder.rebuild MojObject.intValue]. destruct (Z.ltb_spec (m_limit q) 0); [lia|done].
Qed.

Lemma read_page q : query_ok q ->
  match MojObject.get (query_obj q) PageKey with Some pageObj => Page_fromObject pageObj | None => Ok [] end
  = Ok (m_page q).
Proof.
  intros (_ & _ & _ & Hp & _). rewrite (query_get q 8 PageKey _) by done.
  destruct (m_page q) as [|b key]; [done|].
  destruct (MojString.base64_string (b :: key) false Hp) as (s & E & D).
  rewrite base64Encode_page in E. injection E as <-.
  exact D.
Qed.

Lemma read_where q i k m : query_slots q !! i = Some (k, where_obj m) -> where_ok m ->
  match MojObject.get (query_obj q) k with Some array => addClauses [] array | None => Ok [] end = Ok (rev m).
Proof.
  intros Hk Hm. rewrite (query_get q i k _ Hk). destruct m as [|c m]; [done|].
  cbn [where_obj]. rewrite rebuild_clauses. unfold addClauses. rewrite addClauses_rev; [by rewrite app_nil_r|].
  rewrite app_nil_r. by apply where_ok_rev.
Qed.

(** C40: a query written with [toObject] (its page in base 64, its clauses split
    into comparisons, the limit and the flags only when they are not the default)
    and read with [fromObject] is the same query; only the iteration order of the
    clause maps is reversed, which [operator==] does not see. *)
Theorem query_roundtrip q : query_ok q ->
  exists obj, toObject q = Ok obj /\
    fromObject getKind locale make obj =
      Ok (with_where q (rev (m_whereClauses q)) (rev (m_filterClauses q))) /\
    eq q (with_where q (rev (m_whereClauses q)) (rev (m_filterClauses q))) = true.
Proof.
  intros Hq. exists (query_obj q). split; [apply toObject_obj|].
  pose proof (read_selection q Hq) as Sel. pose proof (read_page q Hq) as Hpage.
  pose proof Hq as (Hs & Hw & Hf & Hp & Hl & Hd & Hi & Hg & Ha & Hb). split.
  - apply res_bind_ok in Sel as (fd & Efd & Sel). apply res_bind_ok in Sel as ([q0 ob] & Esel & Sel).
    injection Sel as Eq0 Eob Edist.
    unfold fromObject. unfold MojObjectString.getRequired_string at 1, MojObjectString.get_string at 1.
    rewrite (query_get q 1 FromKey (Some (StringImpl (m_fromType q)))) by done.
    cbn [MojObjectBuilder.rebuild MojObjectString.stringValue res_bind MojObject.getRequiredErrT MojObject.getRequiredT].
    rewrite Efd. cbn [res_bind]. rewrite (query_get_none q AggregateKey) by (by vm_compute) || by apply str_okb.
    assert (match fd with
      | Some str => Ok (order (select (distinct (from make (m_fromType q)) str) str) str, false)
      | None => selectOrder (from make (m_fromType q)) (query_obj q) end = Ok (q0, ob)) as -> by exact Esel.
    cbn [res_bind]. subst q0. change (m_whereClauses (with_flags _ _ _ _ _)) with ([] : WhereMap).
    change (m_filterClauses (with_flags _ _ _ _ _)) with ([] : WhereMap).
    rewrite (read_where q 2 WhereKey (m_whereClauses q)) by done. cbn [res_bind].
    rewrite (read_where q 3 FilterKey (m_filterClauses q)) by done. cbn [res_bind].
    rewrite read_limit by done. cbn [res_bind]. change (m_page (with_where _ _ _)) with ([] : MojDbKey).
    rewrite Hpage. cbn [res_bind]. unfold MojObject.get_bool.
    rewrite (query_get_none q IncludeDeletedKey) by (by vm_compute) || by apply str_okb.
    rewrite (query_get q 6 DescKey _) by done. rewrite to_uint_small by done.
    destruct q. simpl in *. subst. by destruct m_desc0.
  - unfold eq, with_where. cbn [m_fromType m_selectProps m_whereClauses m_page m_orderProp m_distinct m_limit m_desc].
    rewrite !string_eq_refl, where_eq_rev, Z.eqb_refl, eqb_reflx by done.
    unfold MojDbKey.compare, MojRbTreeBase.equals. rewrite Nat.eqb_refl, (comp_refl lexcmp). cbn [negb].
    unfold MojRbTreeBase.compare. by rewrite (comp_refl (MojVector.compare MojStrCmp)).
Qed.
End from.

(** An ICU whose characters are bytes and whose sort keys are the text. *)
#[local] Instance byte_icu : ICU := {|
  UCollator := unit; UBreakIterator := unit;
  u_strFromUTF8 s := Some s; u_strToUTF8 s := Some s; ucol_open _ := Some tt;
  ucol_setNormalization u := u; ucol_setNumericCollation u := u; ucol_setStrength u _ := u;
  ucol_getSortKey _ s := s ++ [0]; ubrk_open_word _ := Some tt;
  ubrk_positions _ s := Some [(0%nat, false); (length s, true)] |}.

Definition sample_query : MojDbQuery :=
  with_flags (with_where (from make (_T "K"))
    [(_T "b", {| WhereClause.m_lowerOp := OpGreaterThan; WhereClause.m_upperOp := OpLessThanEq;
                 WhereClause.m_lowerVal := IntImpl 1; WhereClause.m_upperVal := IntImpl 9;
                 WhereClause.m_collation := MojDbCollationInvalid |});
     (_T "a", new_clause OpEq (StringImpl (_T "x")) MojDbCollationPrimary)] []) true false 10 [1; 2; 3].

Lemma sample_query_ok : query_ok sample_query.
Proof.
  assert (MojObject.ok (IntImpl 1) /\ MojObject.ok (IntImpl 9)) as [I1 I9] by (simpl; unfold in_int; lia).
  split; [constructor|]. split.
  { split; [apply nodup_b; by vm_compute|]. apply Forall_cons. split.
    - split; [by apply str_okb|]. unfold clause_ok. simpl. split_and!; done || set_solver.
    - apply Forall_cons. split; [|constructor]. split; [by apply str_okb|]. apply new_clause_ok; [done| |done].
      split; [by apply str_okb|exact I]. }
  split; [apply where_ok_nil|]. split; [by apply is_byte_keyb|]. split; [unfold in_uint; simpl; lia|].
  split; [by left|done].
Qed.

Lemma query_roundtrip_witness : exists obj, toObject sample_query = Ok obj /\
  fromObject (fun _ => Err MojErrNotFound) [] make obj =
    Ok (with_where sample_query (rev (m_whereClauses sample_query)) []).
Proof.
  destruct (query_roundtrip (fun _ => Err MojErrNotFound) [] sample_query sample_query_ok) as (obj & E & R & _).
  exists obj. split; [exact E|exact R].
Defined.

(** An order is kept by [clear]. *)
Lemma clear_keeps_order s : m_orderProp (clear (order make s)) = s.
Proof. reflexivity. Qed.

(** The limit of an immediate return is not checked: a negative one is cast. *)
Lemma immediate_limit : forall q',
  fromObject (fun _ => Err MojErrNotFound) [] make (ObjectImpl [(FromKey, StringImpl (_T "K"));
    (ImmediateReturnKey, BoolImpl true); (LimitKey, IntImpl (-1))]) = Ok q' -> m_limit q' = 4294967295.
Proof. intros q' [= <-]. reflexivity. Qed.
End QueryRoundTrip.
