(* ===== verification/QueryPlan.v ===== *)
(** * Query plans: src/src/db/MojDbQueryPlan.cpp

    The where clauses of a query, in the order of an index's properties, become
    ranges of index keys: the lower and upper keys are built side by side, one
    value of each clause in every combination, and the operators of the last
    clause say which of the two keys is incremented. *)

From S2P Require Import Prelude Containers CoreUtil Number Object ObjectBuilder DataSerialization TokenSet ObjectSerialization Text DbKey Json JsonRoundTrip DbQuery.

Module MojDbQueryPlan.
Import MojDbQuery.

(** What a plan asks an index for. *)
Record Index := {
  ix_id : MojObject;
  ix_props : list mstring;
  ix_locale : mstring;
  ix_idIndex : nat;
  ix_includeDeleted : bool
}.

Record MojDbQueryPlan := {
  m_ranges : list MojDbKeyRange.MojDbKeyRange;
  m_query : MojDbQuery;
  m_locale : mstring;
  m_idPropIndex : nat;
  m_groupCount : nat
}.

Section plan.
Context `{ICU}.

Definition assign_keys (keys : KeySet) (val : MojObject) (coll : option MojDbTextCollator.MojDbTextCollator) : res KeySet :=
  let? key := MojDbKey.assign val coll in Ok (MojSet.put lexcmp keys key).

Definition pushVal (builder : MojDbKeyBuilder.PropStack) (val : MojObject)
    (coll : option MojDbTextCollator.MojDbTextCollator) : res MojDbKeyBuilder.PropStack :=
  let? keys := match val with
               | ArrayImpl vec => res_fold (fun keys i => assign_keys keys i coll) [] vec
               | _ => assign_keys [] val coll
               end in
  Ok (MojDbKeyBuilder.push builder keys).

(** The loop that removes prefixes: [prev] trails the iterator, and a token that
    is a prefix of the one after it is deleted. *)
Definition removePrefixes (toks : KeySet) : KeySet :=
  (fold_left (fun st i =>
     let '(toks, prev) := st in
     (match prev with
      | Some p => if MojDbKey.stringPrefixOf p i then (MojSet.del lexcmp toks p).1 else toks
      | None => toks
      end, Some i)) toks (toks, None)).1.

Definition pushSearch (locale : mstring) (lowerBuilder upperBuilder : MojDbKeyBuilder.PropStack) (val : MojObject)
    (coll : option MojDbTextCollator.MojDbTextCollator)
    : res (MojDbKeyBuilder.PropStack * MojDbKeyBuilder.PropStack * nat) :=
  let? text := MojObjectString.stringValue val in
  let? tokenizer := MojDbTextTokenizer.init locale in
  let? toks := MojDbTextTokenizer.tokenize tokenizer text coll [] in
  let toks := removePrefixes toks in
  Ok (MojDbKeyBuilder.push lowerBuilder toks, MojDbKeyBuilder.push upperBuilder toks, length toks).

(** [range] cut at the page, unless it is before it. *)
Definition pageRange (query : MojDbQuery) (range : MojDbKeyRange.MojDbKeyRange) : option MojDbKeyRange.MojDbKeyRange :=
  let pageKey := m_page query in
  let desc := m_desc query in
  let key (upper : bool) := if upper then MojDbKeyRange.upperKey range else MojDbKeyRange.lowerKey range in
  if MojDbKey.empty pageKey then Some range
  else
    let ub := key (negb desc) in
    if negb (MojDbKey.empty ub) && Bool.eqb (MojDbKey.le pageKey ub) desc then None
    else
      let lb := key desc in
      if MojDbKey.empty lb || Bool.eqb (MojDbKey.lt pageKey lb) desc then
        Some (if desc then {| MojDbKeyRange.lowerKey := MojDbKeyRange.lowerKey range;
                              MojDbKeyRange.upperKey := pageKey; MojDbKeyRange.group := MojDbKeyRange.group range |}
              else {| MojDbKeyRange.lowerKey := pageKey; MojDbKeyRange.upperKey := MojDbKeyRange.upperKey range;
                      MojDbKeyRange.group := MojDbKeyRange.group range |})
      else Some range.

Definition addRange (query : MojDbQuery) (ranges : list MojDbKeyRange.MojDbKeyRange)
    (lowerKey upperKey : MojDbKey) (group : Z) : list MojDbKeyRange.MojDbKeyRange :=
  match pageRange query {| MojDbKeyRange.lowerKey := lowerKey; MojDbKeyRange.upperKey := upperKey;
                           MojDbKeyRange.group := group |} with
  | None => ranges
  | Some range =>
      match last ranges with
      | Some back => if MojDbKeyRange.contains_range back range then ranges else ranges ++ [range]
      | None => ranges ++ [range]
      end
  end.

(** The null terminator of a string is removed; so is any last byte that is 0. *)
Definition dropTerminator (prefix : MojDbKey) : MojDbKey :=
  match last prefix with Some b => if b =? 0 then removelast prefix else prefix | None => prefix end.

Definition rangesFromKeys (query : MojDbQuery) (groupCount : nat) (ranges : list MojDbKeyRange.MojDbKeyRange)
    (lowerKey upperKey prefix : MojDbKey) (index : nat) (clause : option WhereClause)
    : res (list MojDbKeyRange.MojDbKeyRange) :=
  let lowerOp := match clause with Some c => WhereClause.m_lowerOp c | None => OpEq end in
  let upperOp := match clause with Some c => WhereClause.m_upperOp c | None => OpNone end in
  let? upperKey :=
    match upperOp with
    | OpNone => if decide (lowerOp = OpNone) then Err AssertFailed else Ok (MojDbKey.increment prefix)
    | OpLessThanEq => Ok (MojDbKey.increment upperKey)
    | OpLessThan => Ok upperKey
    | _ => Err AssertFailed
    end in
  let eq group prefix := Ok (addRange query ranges lowerKey (MojDbKey.increment prefix) group) in
  match lowerOp with
  | OpNone => Ok (addRange query ranges lowerKey upperKey 0)
  | OpSearch =>
      match prefix with
      | [] => Err AssertFailed
      | _ => eq (Z.of_nat (index mod groupCount)) (dropTerminator prefix)
      end
  | OpPrefix =>
      match prefix with
      | [] => Err AssertFailed
      | _ => eq 0 (dropTerminator prefix)
      end
  | OpEq => eq 0 prefix
  | OpNotEq =>
      let ranges := addRange query ranges prefix lowerKey 0 in
      Ok (addRange query ranges (MojDbKey.increment lowerKey) (MojDbKey.increment prefix) 0)
  | OpGreaterThan => Ok (addRange query ranges (MojDbKey.increment lowerKey) upperKey 0)
  | OpGreaterThanEq => Ok (addRange query ranges lowerKey upperKey 0)
  | _ => Err AssertFailed
  end.

(** Three iterators in step; only the first is tested for the end. *)
Fixpoint rangesFromKeySets (query : MojDbQuery) (groupCount : nat) (ranges : list MojDbKeyRange.MojDbKeyRange)
    (lowerKeys upperKeys prefixKeys : KeySet) (index : nat) (clause : option WhereClause)
    : res (list MojDbKeyRange.MojDbKeyRange) :=
  match lowerKeys with
  | [] => Ok ranges
  | lower :: lowerKeys' =>
      match upperKeys, prefixKeys with
      | upper :: upperKeys', prefix :: prefixKeys' =>
          let? ranges := rangesFromKeys query groupCount ranges lower upper prefix index clause in
          rangesFromKeySets query groupCount ranges lowerKeys' upperKeys' prefixKeys' (S index) clause
      | _, _ => Err AssertFailed
      end
  end.

(** The builders and what the loop over the properties carries along. *)
Record Builders := {
  lowerBuilder : MojDbKeyBuilder.PropStack;
  upperBuilder : MojDbKeyBuilder.PropStack;
  prefixKeys : KeySet;
  groupCount : nat;
  lastClause : option WhereClause
}.

(** One property that has a clause. *)
Definition pushClause (locale : mstring) (b : Builders) (clause : WhereClause) : res Builders :=
  let coll := WhereClause.m_collation clause in
  let? collator := if decide (coll = MojDbCollationInvalid) then Ok None
                   else let? c := MojDbTextCollator.init locale coll in Ok (Some c) in
  let lowerOp := WhereClause.m_lowerOp clause in
  if decide (lowerOp = OpSearch) then
    let? (lower, upper, count) := pushSearch locale (lowerBuilder b) (upperBuilder b)
                                    (WhereClause.m_lowerVal clause) collator in
    Ok {| lowerBuilder := lower; upperBuilder := upper; prefixKeys := prefixKeys b; groupCount := count;
          lastClause := Some clause |}
  else
    let? prefix := if negb (bool_decide (lowerOp = OpEq)) && negb (bool_decide (lowerOp = OpPrefix)) then
                     let? keys := MojDbKeyBuilder.keys (lowerBuilder b) in
                     Ok (match keys with [] => MojSet.put lexcmp [] [] | _ => keys end)
                   else Ok (prefixKeys b) in
    let? lower := pushVal (lowerBuilder b) (WhereClause.m_lowerVal clause) collator in
    let? upper := pushVal (upperBuilder b)
                    (if decide (WhereClause.m_upperOp clause = OpNone) then WhereClause.m_lowerVal clause
                     else WhereClause.m_upperVal clause) collator in
    Ok {| lowerBuilder := lower; upperBuilder := upper; prefixKeys := prefix; groupCount := groupCount b;
          lastClause := Some clause |}.

(** The loop ends at the first property without a clause. *)
Fixpoint pushClauses (locale : mstring) (where_ : WhereMap) (props : list mstring) (b : Builders) : res Builders :=
  match props with
  | [] => Ok b
  | prop :: props' =>
      match MojHashMap.get key_eq where_ prop with
      | None => Ok b
      | Some clause => let? b := pushClause locale b clause in pushClauses locale where_ props' b
      end
  end.

Definition buildRanges (query : MojDbQuery) (groups : nat) (index : Index)
    : res (list MojDbKeyRange.MojDbKeyRange * nat) :=
  let? lower := pushVal [] (ix_id index) None in
  let? upper := pushVal [] (ix_id index) None in
  let? b := pushClauses (ix_locale index) (m_whereClauses query) (ix_props index)
              {| lowerBuilder := lower; upperBuilder := upper; prefixKeys := []; groupCount := groups;
                 lastClause := None |} in
  let? lowerKeys := MojDbKeyBuilder.keys (lowerBuilder b) in
  let? upperKeys := MojDbKeyBuilder.keys (upperBuilder b) in
  let prefix := match prefixKeys b with [] => lowerKeys | keys => keys end in
  let? ranges := rangesFromKeySets query (groupCount b) [] lowerKeys upperKeys prefix 0 (lastClause b) in
  Ok (ranges, groupCount b).

Definition init (query : MojDbQuery) (index : Index) : res MojDbQueryPlan :=
  let? q := if ix_includeDeleted index && negb (MojHashMap.contains key_eq (m_whereClauses query) DelKey)
            then where_ query DelKey OpEq (BoolImpl false) MojDbCollationInvalid
            else Ok query in
  let? (ranges, groups) := buildRanges q 0 index in
  Ok {| m_ranges := if m_desc query then rev ranges else ranges; m_query := q; m_locale := ix_locale index;
        m_idPropIndex := ix_idIndex index; m_groupCount := groups |}.
End plan.
End MojDbQueryPlan.
