(* ===== verification/QueryPlanSpec.v ===== *)
(** * What a query plan selects

    The key of an object in an index is the index's id followed by one value per
    property.  A plan's ranges hold exactly the keys of the objects that satisfy
    the where clauses and that are not before the page. *)

From S2P Require Import Prelude Containers CoreUtil Number Object ObjectBuilder DataSerialization TokenSet ObjectSerialization Text DbKey Json JsonRoundTrip DbQuery QueryPlan.

Module QueryPlanSpec.
Import MojDbQuery MojDbQueryPlan.

(** ** Keys made of values *)
Definition well (o : MojObject) : Prop := MojObject.ok o /\ MojObjectBuilder.defined o.
Definition encs (vs : list MojObject) : MojDbKey := flat_map Encoding.enc vs.
Definition vcmp (us vs : list MojObject) : Z := MojVector.compare MojObject.compare us vs.

Lemma encs_app us vs : encs (us ++ vs) = encs us ++ encs vs.
Proof. apply flat_map_app. Qed.

Lemma encs_one v : encs [v] = Encoding.enc v.
Proof. apply app_nil_r. Qed.

Lemma pc_encs us vs : Forall well us -> Forall well vs -> length us = length vs ->
  Encoding.pc (encs us) (encs vs) (vcmp us vs).
Proof.
  intros Hu. revert vs. induction Hu as [|u us [Hu1 Hu2] Hu IH]; intros [|v vs] Hv L; try done.
  apply Forall_cons in Hv as [[Hv1 Hv2] Hv].
  pose proof (Encoding.pc_app _ _ _ _ _ _ (Encoding.pc_enc u v Hu1 Hv1 Hu2 Hv2) (IH vs Hv ltac:(simpl in L; lia))) as P.
  cbn [encs flat_map]. eapply Encoding.pc_sgn; [|exact P]. unfold vcmp. cbn [MojVector.compare].
  by destruct (MojObject.compare u v =? 0).
Qed.

Lemma vcmp_eq us vs : Forall well us -> Forall well vs -> vcmp us vs = 0 -> us = vs.
Proof.
  intros Hu. revert vs. induction Hu as [|u us [Hu1 Hu2] Hu IH]; intros [|v vs] Hv; try done.
  apply Forall_cons in Hv as [[Hv1 Hv2] Hv]. unfold vcmp. cbn [MojVector.compare].
  destruct (Z.eqb_spec (MojObject.compare u v) 0) as [E|]; simpl; [|lia]. intros Ht.
  apply MojObject.compare_eq in E; [|done..]. subst. f_equal. by apply IH.
Qed.

Lemma vcmp_refl us : vcmp us us = 0.
Proof. apply (comp_refl (MojVector.compare MojObject.compare)). Qed.

Lemma vcmp_snoc us vs x y : length us = length vs ->
  vcmp (us ++ [x]) (vs ++ [y]) = if vcmp us vs =? 0 then MojObject.compare x y else vcmp us vs.
Proof.
  revert vs. induction us as [|u us IH]; intros [|v vs] L; try done.
  - unfold vcmp. simpl. destruct (Z.eqb_spec (MojObject.compare x y) 0) as [->|]; simpl; done.
  - unfold vcmp in *. cbn [app MojVector.compare].
    destruct (Z.eqb_spec (MojObject.compare u v) 0) as [E|E]; simpl; [apply IH; simpl in L; lia|].
    destruct (Z.eqb_spec (MojObject.compare u v) 0); done.
Qed.

Lemma str_ok_bytes s : str_ok s -> Forall is_byte s.
Proof. intros H. eapply Forall_impl; [exact H|]. unfold is_byte. simpl. lia. Qed.

Lemma byte_marker b k : 0 <= b < 256 -> byte_key k -> byte_key (b :: k).
Proof. by constructor. Qed.

Lemma string_enc_bytes s : str_ok s -> byte_key (Encoding.string_enc s).
Proof.
  intros Hs. apply byte_marker; [unfold MarkerStringValue; lia|]. apply Forall_app. split; [by apply str_ok_bytes|].
  repeat constructor; unfold is_byte; lia.
Qed.

Lemma flat_map_bytes {A} (f : A -> MojDbKey) l : Forall (fun x => byte_key (f x)) l -> byte_key (flat_map f l).
Proof. induction 1; simpl; [constructor|]. by apply Forall_app. Qed.

Lemma enc_bytes o : MojObject.ok o -> byte_key (Encoding.enc o).
Proof.
  induction o as [| |s|b|r|v|m IH|v IH] using MojObject_nested_ind; intros Ho; cbn [Encoding.enc].
  - by apply is_byte_keyb.
  - by apply is_byte_keyb.
  - by apply string_enc_bytes.
  - by destruct b; apply is_byte_keyb.
  - unfold Encoding.decimal_enc. destruct (r <? 0); (apply byte_marker; [done|apply toBigEndian_bytes]).
  - unfold Encoding.int_enc. repeat case_match; (apply byte_marker; [done|]);
      first [apply toBigEndian_bytes|apply Forall_nil_2|
        apply Forall_singleton; unfold is_byte, MojUInt8Max in *; bool_lia].
  - apply MojObject.ok_object in Ho as [_ Ho]. apply byte_marker; [done|]. apply Forall_app. split; [|by apply is_byte_keyb].
    apply flat_map_bytes. rewrite Forall_forall in Ho, IH. apply Forall_forall. intros kv Hkv.
    destruct (Ho kv Hkv). apply Forall_app. split; [by apply string_enc_bytes|by apply IH].
  - apply MojObject.ok_array in Ho. apply byte_marker; [done|]. apply Forall_app. split; [|by apply is_byte_keyb].
    apply flat_map_bytes. rewrite Forall_forall in Ho, IH. apply Forall_forall. auto.
Qed.

Lemma encs_bytes us : Forall well us -> byte_key (encs us).
Proof. intros H. apply flat_map_bytes. eapply Forall_impl; [exact H|]. intros x [Hx _]. by apply enc_bytes. Qed.

(** The first byte of a value is a marker. *)
Lemma encs_not_max us : us <> [] -> Forall well us -> MojDbKey.increment (encs us) <> [].
Proof.
  intros Hn Hw. rewrite MojDbKey.increment_nil by (by apply encs_bytes). destruct us as [|u us]; [done|].
  cbn [encs flat_map]. destruct (Encoding.enc_first u) as (m & bs & -> & Hm). cbn [app].
  rewrite Forall_cons. intros [-> _]. destruct (MojObject.type u) in Hm; simpl in Hm; lia.
Qed.

(** ** Where a key lies among keys made of values *)
Section key.
Context (ks : list MojObject) (rest : MojDbKey) (Hks : Forall well ks) (Hrest : byte_key rest).
Abbreviation K := (encs ks ++ rest).

Lemma key_bytes : byte_key K.
Proof. apply Forall_app. split; [by apply encs_bytes|done]. Qed.

Lemma key_cmp us : Forall well us -> length ks = length us ->
  (vcmp ks us = 0 /\ 0 <= lexcmp K (encs us)) \/
  (vcmp ks us <> 0 /\ Z.sgn (lexcmp K (encs us)) = Z.sgn (vcmp ks us)).
Proof.
  intros Hu L. pose proof (pc_encs ks us Hks Hu L rest []) as P. rewrite app_nil_r in P.
  destruct (Z.eqb_spec (vcmp ks us) 0) as [E|E]; [left|right]; (split; [done|]); [|done].
  destruct rest; simpl in P; lia.
Qed.

Lemma key_ge us : Forall well us -> length ks = length us -> 0 <= lexcmp K (encs us) <-> 0 <= vcmp ks us.
Proof. intros Hu L. destruct (key_cmp us Hu L); lia. Qed.

Lemma key_lt us : Forall well us -> length ks = length us -> lexcmp K (encs us) < 0 <-> vcmp ks us < 0.
Proof. intros Hu L. destruct (key_cmp us Hu L); lia. Qed.

Lemma key_prefix us : Forall well us -> length ks = length us -> encs us `prefix_of` K <-> vcmp ks us = 0.
Proof.
  intros Hu L. split.
  - intros [r E]. pose proof (pc_encs ks us Hks Hu L rest r) as P. rewrite E, (comp_refl lexcmp) in P.
    destruct (Z.eqb_spec (vcmp ks us) 0); [done|lia].
  - intros E. apply vcmp_eq in E; [|done..]. subst. by exists rest.
Qed.

Lemma key_below us : Forall well us -> length ks = length us -> us <> [] ->
  lexcmp K (MojDbKey.increment (encs us)) < 0 <-> vcmp ks us <= 0.
Proof.
  intros Hu L Hn. pose proof (MojDbKey.increment_spec (encs us) K (encs_bytes us Hu) key_bytes) as I.
  rewrite key_prefix, key_lt in I by done. pose proof (encs_not_max us Hn Hu) as N. split; intros C.
  - destruct (proj1 I (or_intror C)); lia.
  - destruct (proj2 I) as [|]; [lia|done|done].
Qed.
End key.

(** ** Ranges and the page *)
Definition in_ranges (rs : list MojDbKeyRange.MojDbKeyRange) (k : MojDbKey) : Prop :=
  exists r, r ∈ rs /\ MojDbKeyRange.contains r k = true.

(** Not before the page: from it on, or below it in a descending query. *)
Definition page_ok (q : MojDbQuery) (k : MojDbKey) : bool :=
  MojDbKey.empty (m_page q) || (if m_desc q then MojDbKey.lt k (m_page q) else MojDbKey.ge k (m_page q)).

Lemma lex_lt_trans a b c : lexcmp a b < 0 -> lexcmp b c <= 0 -> lexcmp a c < 0.
Proof. apply (comp_lt_le_trans lexcmp). Qed.
Lemma lex_le_lt a b c : lexcmp a b <= 0 -> lexcmp b c < 0 -> lexcmp a c < 0.
Proof. apply (comp_le_lt_trans lexcmp). Qed.
Lemma lex_flip a b : Z.sgn (lexcmp b a) = - Z.sgn (lexcmp a b).
Proof. apply (comp_anti lexcmp). Qed.

Lemma empty_spec (k : MojDbKey) : reflect (k = []) (MojDbKey.empty k).
Proof. destruct k; by constructor. Qed.

Lemma pageRange_spec q range k : MojDbKeyRange.upperKey range <> [] ->
  match pageRange q range with
  | Some r => MojDbKeyRange.upperKey r <> [] /\
      (MojDbKeyRange.contains r k = true <-> MojDbKeyRange.contains range k = true /\ page_ok q k = true)
  | None => ~ (MojDbKeyRange.contains range k = true /\ page_ok q k = true)
  end.
Proof.
  intros Hu. destruct range as [lo up g]. simpl in Hu. unfold pageRange, page_ok. simpl.
  destruct (empty_spec (m_page q)) as [E|E]; [simpl; tauto|]. simpl.
  unfold MojDbKey.lt, MojDbKey.le, MojDbKey.ge, MojDbKey.compare.
  set (p := m_page q) in *.
  pose proof (lex_flip p lo) as F1. pose proof (lex_flip p up) as F2. pose proof (lex_flip p k) as F3.
  pose proof (lex_flip k lo) as F4. pose proof (lex_flip k up) as F5. pose proof (lex_flip lo up) as F6.
  destruct (m_desc q); simpl.
  - destruct (empty_spec lo) as [El|El]; simpl.
    + destruct (empty_spec up) as [|_]; [done|]. simpl.
      destruct (Z.ltb_spec (lexcmp p up) 0) as [L|L]; simpl; (split; [done|]); rewrite !MojDbKeyRange.contains_true; simpl.
      * pose proof (lex_lt_trans k p up). rewrite Z.ltb_lt. subst lo. naive_solver lia.
      * pose proof (lex_lt_trans k up p). rewrite Z.ltb_lt. naive_solver lia.
    + destruct (Z.leb_spec (lexcmp p lo) 0) as [L|L]; simpl.
      * rewrite MojDbKeyRange.contains_true, Z.ltb_lt. simpl. pose proof (lex_lt_trans k p lo). lia.
      * destruct (empty_spec up) as [|_]; [done|]. simpl.
        destruct (Z.ltb_spec (lexcmp p up) 0) as [L2|L2]; simpl; (split; [done|]); rewrite !MojDbKeyRange.contains_true; simpl.
        -- pose proof (lex_lt_trans k p up). rewrite Z.ltb_lt. naive_solver lia.
        -- pose proof (lex_lt_trans k up p). rewrite Z.ltb_lt. naive_solver lia.
  - destruct (empty_spec up) as [|_]; [done|]. simpl.
    destruct (Z.leb_spec (lexcmp p up) 0) as [L|L]; simpl.
    + destruct (empty_spec lo) as [El|El]; simpl.
      * split; [done|]. rewrite !MojDbKeyRange.contains_true, Z.geb_le. simpl. subst lo.
        assert (0 <= lexcmp k []) by (by destruct k). naive_solver.
      * destruct (Z.ltb_spec (lexcmp p lo) 0) as [L2|L2]; simpl; (split; [done|]); rewrite !MojDbKeyRange.contains_true, Z.geb_le; simpl.
        -- pose proof (lex_lt_trans k p lo). naive_solver lia.
        -- pose proof (lex_lt_trans k lo p). naive_solver lia.
    + rewrite MojDbKeyRange.contains_true, Z.geb_le. simpl. pose proof (lex_lt_trans k up p). naive_solver lia.
Qed.

Lemma addRange_spec q rs lo up g k : up <> [] ->
  in_ranges (addRange q rs lo up g) k <->
  in_ranges rs k \/
  ((0 <= lexcmp k lo /\ lexcmp k up < 0) /\ page_ok q k = true).
Proof.
  intros Hu. unfold addRange.
  pose proof (pageRange_spec q {| MojDbKeyRange.lowerKey := lo; MojDbKeyRange.upperKey := up; MojDbKeyRange.group := g |} k Hu) as P.
  assert (MojDbKeyRange.contains {| MojDbKeyRange.lowerKey := lo; MojDbKeyRange.upperKey := up; MojDbKeyRange.group := g |} k = true
    <-> 0 <= lexcmp k lo /\ lexcmp k up < 0) as C.
  { rewrite MojDbKeyRange.contains_true. simpl. naive_solver. }
  destruct (pageRange _ _) as [r|]; rewrite C in P; [|tauto]. destruct P as [Hr P]. rewrite <- P.
  assert (in_ranges (rs ++ [r]) k <-> in_ranges rs k \/ MojDbKeyRange.contains r k = true) as A.
  { unfold in_ranges. setoid_rewrite elem_of_app. setoid_rewrite list_elem_of_singleton. naive_solver. }
  destruct (last rs) as [back|] eqn:L; [|done].
  destruct (MojDbKeyRange.contains_range back r) eqn:B; [|done].
  split; [by left|]. intros [|H]; [done|]. exists back. split; [by apply last_Some_elem_of|].
  by eapply MojDbKeyRange.contains_range_sound.
Qed.

(** ** The ranges of one combination of values *)

(** What the comparisons of the last clause say of a value [y]. *)
Definition lower_holds (op : CompOp) (lv y : MojObject) : Prop :=
  match op with
  | OpNone => True
  | OpNotEq => MojObject.compare y lv <> 0
  | OpGreaterThan => 0 < MojObject.compare y lv
  | OpGreaterThanEq => 0 <= MojObject.compare y lv
  | _ => False
  end.

Definition upper_holds (op : CompOp) (uv y : MojObject) : Prop :=
  match op with
  | OpNone => True
  | OpLessThan => MojObject.compare y uv < 0
  | OpLessThanEq => MojObject.compare y uv <= 0
  | _ => False
  end.

Definition ineq_ops (lop uop : CompOp) : Prop :=
  lop ∈ [OpNone; OpNotEq; OpGreaterThan; OpGreaterThanEq] /\ uop ∈ [OpNone; OpLessThan; OpLessThanEq] /\
  (lop = OpNone -> uop <> OpNone) /\ (lop = OpNotEq -> uop = OpNone).

(** No stored value is less than null. *)
Lemma null_least y : well y -> 0 <= MojObject.compare y NullImpl.
Proof.
  intros [_ Hd]. destruct y; try done; simpl; lia.
Qed.

Section one.
Context (q : MojDbQuery) (groups : nat) (c : WhereClause) (us : list MojObject).
Context (Hus : Forall well us) (Hne : us <> []).

Lemma well_snoc v : well v -> Forall well (us ++ [v]).
Proof. intros Hv. apply Forall_app. split; [done|by constructor]. Qed.

Lemma ranges_ineq rs i lv uv :
  ineq_ops (WhereClause.m_lowerOp c) (WhereClause.m_upperOp c) -> well lv -> well uv ->
  (WhereClause.m_lowerOp c = OpNone -> lv = NullImpl) ->
  exists rs', rangesFromKeys q groups rs (encs (us ++ [lv])) (encs (us ++ [uv])) (encs us) i (Some c) = Ok rs' /\
    forall ks y rest, Forall well ks -> well y -> byte_key rest -> length ks = length us ->
      in_ranges rs' (encs (ks ++ [y]) ++ rest) <->
      in_ranges rs (encs (ks ++ [y]) ++ rest) \/
      ((vcmp ks us = 0 /\ lower_holds (WhereClause.m_lowerOp c) lv y /\ upper_holds (WhereClause.m_upperOp c) uv y) /\
       page_ok q (encs (ks ++ [y]) ++ rest) = true).
Proof.
  intros (Hl & Hu & Hn1 & Hn2) Hlv Huv Hnull.
  assert (us ++ [lv] <> [] /\ us ++ [uv] <> []) as [Nl Nu] by (by split; destruct us).
  pose proof (encs_not_max us Hne Hus) as I0.
  pose proof (encs_not_max _ Nl (well_snoc lv Hlv)) as Il.
  pose proof (encs_not_max _ Nu (well_snoc uv Huv)) as Iu.
  assert (encs (us ++ [lv]) <> [] /\ encs (us ++ [uv]) <> []) as [El Eu].
  { by split; intros E; [apply Il|apply Iu]; rewrite E. }
  unfold rangesFromKeys. destruct c as [lop uop lv0 uv0 coll]. cbn [WhereClause.m_lowerOp WhereClause.m_upperOp] in *.
  assert (forall ks y rest, Forall well ks -> well y -> byte_key rest -> length ks = length us ->
    let K := encs (ks ++ [y]) ++ rest in
    (0 <= lexcmp K (encs us) <-> 0 <= vcmp ks us) /\
    (lexcmp K (MojDbKey.increment (encs us)) < 0 <-> vcmp ks us <= 0) /\
    (forall v, well v -> let d := if vcmp ks us =? 0 then MojObject.compare y v else vcmp ks us in
      (lexcmp K (encs (us ++ [v])) < 0 <-> d < 0) /\
      (lexcmp K (MojDbKey.increment (encs (us ++ [v]))) < 0 <-> d <= 0))) as Facts.
  { intros ks y rest Hks Hy Hr L. cbv zeta.
    assert (byte_key (encs [y] ++ rest)) as Hr2 by (apply Forall_app; split; [apply encs_bytes; by constructor|done]).
    assert (Forall well (ks ++ [y])) as Hky by (apply Forall_app; split; [done|by constructor]).
    split; [|split].
    - rewrite encs_app, <- app_assoc. by apply key_ge.
    - rewrite encs_app, <- app_assoc. by apply key_below.
    - intros v Hv. assert (length (ks ++ [y]) = length (us ++ [v])) as L2 by (rewrite !length_app; simpl; lia).
      rewrite <- vcmp_snoc by done. split; [apply key_lt|apply key_below]; try done; try (by apply well_snoc). by destruct us. }
  repeat (apply elem_of_cons in Hl as [->|Hl]; [|]); [..|by apply not_elem_of_nil in Hl];
    repeat (apply elem_of_cons in Hu as [->|Hu]; [|]); try (by apply not_elem_of_nil in Hu);
    try (by destruct Hn1); try (by specialize (Hn2 eq_refl)).
  all: cbn [res_bind]; try rewrite decide_False by done; cbn [res_bind]; eexists; (split; [reflexivity|]);
    intros ks y rest Hks Hy Hr L; destruct (Facts ks y rest Hks Hy Hr L) as (F1 & F2 & F3);
    destruct (F3 lv Hlv) as [F4 F5]; destruct (F3 uv Huv) as [F6 F7]; clear F3;
    rewrite !addRange_spec by done; cbn [lower_holds upper_holds];
    set (K := encs (ks ++ [y]) ++ rest) in *;
    set (z := vcmp ks us) in *;
    assert (0 <= lexcmp K (encs (us ++ [lv])) <-> 0 <= if z =? 0 then MojObject.compare y lv else z) as F8 by lia;
    assert (0 <= lexcmp K (MojDbKey.increment (encs (us ++ [lv]))) <->
      0 < if z =? 0 then MojObject.compare y lv else z) as F9 by lia;
    rewrite ?F1, ?F2, ?F4, ?F5, ?F6, ?F7, ?F8, ?F9.
  all: try (rewrite (Hnull eq_refl) in *; pose proof (null_least y Hy)).
  all: clear F1 F2 F4 F5 F6 F7 F8 F9 Hn1 Hn2 Hnull Facts;
    generalize (in_ranges rs K) (page_ok q K = true); intros A B; destruct (Z.eqb_spec z 0);
    destruct (Z.lt_trichotomy (MojObject.compare y lv) 0) as [|[|]]; intuition lia.
Qed.
End one.

(** An equality, or no clause at all: the keys with the prefix. *)
Definition eq_clause (c : option WhereClause) : Prop :=
  match c with
  | Some c => WhereClause.m_lowerOp c = OpEq /\ WhereClause.m_upperOp c = OpNone
  | None => True
  end.

Lemma ranges_eq q groups c rs i us : eq_clause c -> Forall well us -> us <> [] ->
  exists rs', rangesFromKeys q groups rs (encs us) (encs us) (encs us) i c = Ok rs' /\
    forall ks rest, Forall well ks -> byte_key rest -> length ks = length us ->
      in_ranges rs' (encs ks ++ rest) <->
      in_ranges rs (encs ks ++ rest) \/ (vcmp ks us = 0 /\ page_ok q (encs ks ++ rest) = true).
Proof.
  intros Hc Hus Hne. pose proof (encs_not_max us Hne Hus) as I0.
  exists (addRange q rs (encs us) (MojDbKey.increment (encs us)) 0). split.
  - destruct c as [[lop uop lv uv coll]|]; [|done]. destruct Hc as [Hl Hu]. simpl in Hl, Hu. by subst.
  - intros ks rest Hks Hr L. rewrite addRange_spec by done. rewrite key_ge, key_below by done.
    assert (0 <= vcmp ks us /\ vcmp ks us <= 0 <-> vcmp ks us = 0) as -> by lia. done.
Qed.

(** *** String prefixes *)

(** [y] is a string that begins with the string [v]. *)
Definition starts_with (v y : MojObject) : Prop :=
  match v, y with StringImpl s, StringImpl t => s `prefix_of` t | _, _ => False end.

Lemma dropTerminator_string us s : dropTerminator (encs (us ++ [StringImpl s])) = encs us ++ MarkerStringValue :: s.
Proof.
  unfold dropTerminator. rewrite encs_app, encs_one. cbn [Encoding.enc]. unfold Encoding.string_enc.
  rewrite app_comm_cons, app_assoc, last_snoc. simpl. by rewrite removelast_last.
Qed.

Lemma string_prefix_bytes s t r : str_ok t -> str_ok s -> s `prefix_of` (t ++ 0 :: r) <-> s `prefix_of` t.
Proof.
  intros Ht Hs. split; [|intros [x ->]; exists (x ++ 0 :: r); by rewrite <- app_assoc].
  revert t Ht. induction Hs as [|c s Hc Hs IH]; intros t Ht; [intros _; apply prefix_nil|].
  destruct Ht as [|d t Hd Ht]; intros [x E]; simpl in E; injection E as Ec E.
  - lia.
  - subst d. apply prefix_cons, IH; [done|]. by exists x.
Qed.

(** A value whose bytes begin with those of a string without its terminator. *)
Lemma enc_string_prefix s y rest : str_ok s -> well y ->
  (MarkerStringValue :: s) `prefix_of` (Encoding.enc y ++ rest) <-> starts_with (StringImpl s) y.
Proof.
  intros Hs [Hy Hd]. destruct (decide (MojObject.type y = MojObject.TypeString)) as [E|E].
  - destruct y as [| | | |t| | |]; try done. cbn [Encoding.enc starts_with]. unfold Encoding.string_enc. cbn [app].
    rewrite <- app_assoc. cbn [app]. rewrite <- (string_prefix_bytes s t rest) by done. split.
    + by apply prefix_cons_inv_2.
    + by apply prefix_cons.
  - split; [|by destruct y]. intros [x Hx]. exfalso.
    destruct (Encoding.enc_first y) as (m & bs & Eb & Hm). rewrite Eb in Hx. injection Hx as Hx _.
    unfold MarkerStringValue in Hx. destruct (MojObject.type y) eqn:T; simpl in Hm; try lia; done.
Qed.

Lemma ranges_prefix q groups c rs i us s : WhereClause.m_lowerOp c = OpPrefix -> WhereClause.m_upperOp c = OpNone ->
  Forall well us -> us <> [] -> str_ok s ->
  exists rs', rangesFromKeys q groups rs (encs (us ++ [StringImpl s])) (encs (us ++ [StringImpl s]))
      (encs (us ++ [StringImpl s])) i (Some c) = Ok rs' /\
    forall ks y rest, Forall well ks -> well y -> byte_key rest -> length ks = length us ->
      in_ranges rs' (encs (ks ++ [y]) ++ rest) <->
      in_ranges rs (encs (ks ++ [y]) ++ rest) \/
      ((vcmp ks us = 0 /\ starts_with (StringImpl s) y) /\ page_ok q (encs (ks ++ [y]) ++ rest) = true).
Proof.
  intros Hl Hu Hus Hne Hs. set (P := encs us ++ MarkerStringValue :: s).
  assert (well (StringImpl s)) as Hws by (by split).
  assert (byte_key P) as HP.
  { apply Forall_app. split; [by apply encs_bytes|]. apply byte_marker; [unfold MarkerStringValue; lia|by apply str_ok_bytes]. }
  assert (MojDbKey.increment P <> []) as IP.
  { rewrite MojDbKey.increment_nil by done. unfold P. rewrite Forall_app, Forall_cons. by intros (_ & ? & _). }
  exists (addRange q rs (encs (us ++ [StringImpl s])) (MojDbKey.increment P) 0). split.
  - unfold rangesFromKeys. rewrite Hl, Hu. rewrite decide_False by done. cbn [res_bind].
    destruct (encs (us ++ [StringImpl s])) eqn:E; [|rewrite <- E; by rewrite dropTerminator_string].
    rewrite encs_app in E. apply app_eq_nil in E as [_ E]. done.
  - intros ks y rest Hks Hy Hr L. rewrite addRange_spec by done.
    set (K := encs (ks ++ [y]) ++ rest).
    assert (Forall well (ks ++ [y]) /\ Forall well (us ++ [StringImpl s])) as [Wk Wu].
    { split; (apply Forall_app; split; [done|by constructor]). }
    assert (byte_key K) as HK by (by apply key_bytes).
    pose proof (MojDbKey.increment_spec P K HP HK) as I.
    assert (P `prefix_of` K <-> vcmp ks us = 0 /\ starts_with (StringImpl s) y) as Pre.
    { unfold P, K. rewrite encs_app, encs_one, <- app_assoc. split.
      - intros Hp. assert (vcmp ks us = 0) as Z0.
        { assert (byte_key (Encoding.enc y ++ rest)) as Hb by (apply Forall_app; split; [apply enc_bytes, Hy|done]).
          apply (key_prefix ks (Encoding.enc y ++ rest)); try done. destruct Hp as [x ->].
          rewrite <- app_assoc. by exists ((MarkerStringValue :: s) ++ x). }
        split; [done|]. apply vcmp_eq in Z0; [|done..]. subst ks.
        apply prefix_app_inv in Hp. by apply enc_string_prefix in Hp.
      - intros [Z0 Hp]. apply vcmp_eq in Z0; [|done..]. subst ks. apply prefix_app.
        by apply enc_string_prefix. }
    assert (lexcmp K P < 0 -> lexcmp K (encs (us ++ [StringImpl s])) < 0) as Lt.
    { intros C. eapply (comp_lt_le_trans lexcmp); [exact C|]. unfold P. rewrite encs_app, encs_one.
      cbn [Encoding.enc]. unfold Encoding.string_enc. rewrite app_comm_cons, app_assoc. apply MojDbKey.lexcmp_prefix. }
    assert (P `prefix_of` K -> 0 <= lexcmp K (encs (us ++ [StringImpl s]))) as Ge.
    { intros Hp. apply Pre in Hp as [Z0 Hsw]. apply key_ge; [done|done|done| |].
      - rewrite !length_app. simpl. lia.
      - rewrite vcmp_snoc, Z0 by done. simpl. destruct y; try done. simpl in Hsw |- *. destruct Hsw as [x ->].
        pose proof (MojStrCmp_lexcmp (s ++ x) s (proj1 Hy) Hs) as E.
        pose proof (MojDbKey.lexcmp_prefix s x). pose proof (lex_flip s (s ++ x)). lia. }
    pose proof (comp_anti lexcmp K P). assert (P `prefix_of` K -> 0 <= lexcmp K P) as Ge2.
    { intros [x ->]. pose proof (MojDbKey.lexcmp_prefix P x). pose proof (lex_flip P (P ++ x)). lia. }
    rewrite <- Pre. assert ((0 <= lexcmp K (encs (us ++ [StringImpl s])) /\ lexcmp K (MojDbKey.increment P) < 0) <->
      P `prefix_of` K) as ->; [|done]. split.
    + intros [C1 C2]. destruct (proj1 I (or_intror C2)) as [C3|C3]; [|done]. specialize (Lt C3). lia.
    + intros Hp. split; [by apply Ge|]. destruct (proj2 I (or_intror Hp)); done.
Qed.
End QueryPlanSpec.
