(* ===== verification/QueryPlanSelect.v ===== *)
(** * The plan of a whole query

    [QueryPlanSpec] says what the ranges of one combination of values hold; here
    the combinations that the key builders walk are put together, clause after
    clause, to say what the plan of a query selects. *)

From S2P Require Import Prelude Containers CoreUtil Number Object ObjectBuilder DataSerialization TokenSet ObjectSerialization Text DbKey Json JsonRoundTrip DbQuery DbQueryRoundTrip QueryPlan QueryPlanSpec.

Module QueryPlanSelect.
Import MojDbQuery MojDbQueryPlan QueryPlanSpec QueryRoundTrip.

(** Contradictions between memberships in lists of constructors. *)
Ltac mem_cases :=
  repeat match goal with
  | M : _ ∈ _ :: _ |- _ => apply elem_of_cons in M as [M|M]
  | M : _ ∈ [] |- _ => by apply not_elem_of_nil in M
  end; congruence.

(** ** Sets of keys made of values *)
Abbreviation sorted_keys := (MojRbTreeBase.sorted (id : MojDbKey -> MojDbKey) lexcmp).

Lemma sorted_ext l1 l2 : sorted_keys l1 -> sorted_keys l2 -> (forall k, k ∈ l1 <-> k ∈ l2) -> l1 = l2.
Proof.
  revert l2. induction l1 as [|x l1 IH]; intros [|y l2] S1 S2 E; [done| | |].
  - pose proof (proj2 (E y)). set_solver.
  - pose proof (proj1 (E x)). set_solver.
  - apply MojRbTreeBase.sorted_cons in S1 as [F1 S1]. apply MojRbTreeBase.sorted_cons in S2 as [F2 S2].
    rewrite Forall_forall in F1, F2. unfold MojRbTreeBase.node_lt, id in F1, F2.
    assert (x = y) as <-.
    { destruct (decide (x = y)) as [|N]; [done|].
      assert (x ∈ l2) as X by (specialize (E x); set_solver).
      assert (y ∈ l1) as Y by (specialize (E y); set_solver).
      pose proof (F1 _ Y). pose proof (F2 _ X). pose proof (lex_flip x y). lia. }
    f_equal. apply IH; [done..|]. intros k. specialize (E k). rewrite !elem_of_cons in E. split; intros K.
    + destruct (proj1 E (or_intror K)) as [->|]; [|done]. pose proof (F1 _ K). pose proof (lex_flip x x). lia.
    + destruct (proj2 E (or_intror K)) as [->|]; [|done]. pose proof (F2 _ K). pose proof (lex_flip x x). lia.
Qed.

Lemma encs_inj us vs : Forall well us -> Forall well vs -> length us = length vs -> encs us = encs vs -> us = vs.
Proof.
  intros Hu Hv L E. apply vcmp_eq; [done..|]. pose proof (pc_encs us vs Hu Hv L [] []) as P.
  rewrite !app_nil_r, E, (comp_refl lexcmp) in P. destruct (Z.eqb_spec (vcmp us vs) 0); [done|lia].
Qed.

Definition key_set (vals : list MojObject) : KeySet := fold_left (MojSet.put lexcmp) (map Encoding.enc vals) [].

Lemma elem_of_key_set vals k : k ∈ key_set vals <-> exists v, v ∈ vals /\ k = Encoding.enc v.
Proof.
  unfold key_set. destruct (MojDbKeyBuilder.elem_of_put_all (map Encoding.enc vals) [] k) as [_ ->]; [constructor|].
  rewrite list_elem_of_fmap. set_solver.
Qed.

(** A builder onto which the sets of these values were pushed. *)
Definition holds (b : MojDbKeyBuilder.PropStack) (alts : list (list MojObject)) : Prop :=
  Forall2 (fun r vals => MojDbKeyBuilder.m_vals r = key_set vals) b alts.

Lemma holds_push b alts vals : holds b alts -> holds (MojDbKeyBuilder.push b (key_set vals)) (alts ++ [vals]).
Proof. intros H. apply Forall2_app; [done|]. by repeat constructor. Qed.

Abbreviation chosen := (Forall2 (fun (v : MojObject) (vals : list MojObject) => v ∈ vals)).

Lemma chosen_well us alts : Forall (Forall well) alts -> chosen us alts -> Forall well us.
Proof.
  intros Ha. induction 1 as [|v us vals alts Hv H IH]; [constructor|].
  apply Forall_cons in Ha as [Hw Ha]. constructor; [|by apply IH]. rewrite Forall_forall in Hw. by apply Hw.
Qed.

Lemma concat_chosen ks alts : Forall2 (fun k set => k ∈ set) ks (map key_set alts) <->
  exists us, ks = map Encoding.enc us /\ chosen us alts.
Proof.
  split.
  - revert ks. induction alts as [|vals alts IH]; intros ks H; inversion H as [|k ? ks' ? Hk Hks]; subst.
    + by exists [].
    + apply elem_of_key_set in Hk as (v & Hv & ->). destruct (IH _ Hks) as (us & -> & Hus).
      exists (v :: us). split; [done|]. by constructor.
  - intros (us & -> & H). induction H as [|v us vals alts Hv H IH]; constructor; [|done].
    apply elem_of_key_set. by exists v.
Qed.

Lemma elem_of_combos_values alts k :
  k ∈ MojDbKeyBuilder.combos (map key_set alts) <-> exists us, chosen us alts /\ k = encs us.
Proof.
  rewrite MojDbKeyBuilder.elem_of_combos. setoid_rewrite concat_chosen. split.
  - intros (ks & (us & -> & H) & ->). exists us. split; [done|]. symmetry. apply flat_map_concat_map.
  - intros (us & H & ->). exists (map Encoding.enc us). split; [by exists us|]. apply flat_map_concat_map.
Qed.

Lemma keys_elem b alts : holds b alts -> b <> [] ->
  exists out, MojDbKeyBuilder.keys b = Ok out /\ sorted_keys out /\
    forall k, k ∈ out <-> exists us, chosen us alts /\ k = encs us.
Proof.
  intros Hb Hn. eexists. split; [by apply MojDbKeyBuilder.keys_combos|].
  assert (map MojDbKeyBuilder.m_vals b = map key_set alts) as ->.
  { clear Hn. induction Hb; simpl; [done|]. by f_equal. }
  split; [apply (MojDbKeyBuilder.elem_of_put_all _ [] []); constructor|]. intros k.
  destruct (MojDbKeyBuilder.elem_of_put_all (MojDbKeyBuilder.combos (map key_set alts)) [] k) as [_ ->]; [constructor|].
  rewrite elem_of_combos_values. set_solver.
Qed.

(** The keys of a builder are those of the lists of values, one for each choice. *)
Lemma keys_values b alts : holds b alts -> b <> [] -> Forall (Forall well) alts ->
  exists L, MojDbKeyBuilder.keys b = Ok (map encs L) /\ sorted_keys (map encs L) /\ forall us, us ∈ L <-> chosen us alts.
Proof.
  intros Hb Hn Ha. destruct (keys_elem b alts Hb Hn) as (out & E & S & M).
  assert (exists L, out = map encs L /\ Forall (fun us => chosen us alts) L) as (L & -> & HL).
  { clear E S. assert (forall k, k ∈ out -> exists us, chosen us alts /\ k = encs us) as H by naive_solver. clear M.
    induction out as [|k out IH]; [by exists []|].
    destruct (H k) as (us & Hus & ->); [set_solver|]. destruct IH as (L & -> & HL); [set_solver|].
    exists (us :: L). split; [done|]. by constructor. }
  exists L. split; [done|]. split; [done|]. intros us. rewrite Forall_forall in HL. split; [by apply HL|].
  intros Hus. assert (encs us ∈ map encs L) as H by (apply M; by exists us).
  apply list_elem_of_fmap in H as (vs & Evs & Hvs). apply encs_inj in Evs as ->; [done|..].
  - by eapply chosen_well.
  - eapply chosen_well; [done|]. by apply HL.
  - rewrite (Forall2_length _ _ _ Hus). symmetry. by eapply Forall2_length, HL.
Qed.

Lemma encs_sorted_snoc L v : well v -> Forall (Forall well) L -> (forall us vs, us ∈ L -> vs ∈ L -> length us = length vs) ->
  sorted_keys (map encs L) -> sorted_keys (map (fun us => encs (us ++ [v])) L).
Proof.
  intros Hv. induction L as [|us L IH]; intros Hw Hl S; [constructor|].
  apply Forall_cons in Hw as [Hu Hw]. simpl in S. apply MojRbTreeBase.sorted_cons in S as [F S].
  simpl. apply MojRbTreeBase.sorted_cons. split; [|apply IH; set_solver].
  rewrite List.Forall_map in F |- *. rewrite Forall_forall in F, Hw |- *. intros vs Hvs.
  specialize (F vs Hvs). specialize (Hw vs Hvs). assert (length us = length vs) as L1 by (apply Hl; set_solver).
  unfold MojRbTreeBase.node_lt, id in *.
  pose proof (pc_encs us vs Hu Hw L1 [] []) as P. rewrite !app_nil_r in P.
  assert (Forall well (us ++ [v]) /\ Forall well (vs ++ [v])) as [W1 W2] by (split; apply Forall_app; repeat constructor; done || apply Hv).
  pose proof (pc_encs (us ++ [v]) (vs ++ [v]) W1 W2 ltac:(rewrite !length_app; simpl; lia) [] []) as P2.
  rewrite vcmp_snoc, !app_nil_r in P2 by done.
  destruct (Z.eqb_spec (vcmp us vs) 0) as [E|E].
  - apply vcmp_eq in E; [|done..]. subst. rewrite (comp_refl lexcmp) in F. lia.
  - destruct (Z.eqb_spec (vcmp us vs) 0); lia.
Qed.

(** One more value under every choice. *)
Lemma keys_snoc b b' alts L v : holds b alts -> holds b' (alts ++ [[v]]) -> b' <> [] -> Forall (Forall well) alts -> well v ->
  sorted_keys (map encs L) -> (forall us, us ∈ L <-> chosen us alts) ->
  MojDbKeyBuilder.keys b' = Ok (map (fun us => encs (us ++ [v])) L).
Proof.
  intros Hb Hb' Hn Ha Hv S HL. destruct (keys_elem b' _ Hb' Hn) as (out & -> & S2 & M). f_equal.
  apply sorted_ext; [done| |].
  - apply encs_sorted_snoc; [done| | |done].
    + apply Forall_forall. intros us Hus. eapply chosen_well; [done|]. by apply HL.
    + intros us vs Hus Hvs. apply HL in Hus, Hvs. by rewrite (Forall2_length _ _ _ Hus), (Forall2_length _ _ _ Hvs).
  - intros k. rewrite M, list_elem_of_fmap. split.
    + intros (us & Hus & ->). apply Forall2_app_inv_r in Hus as (us1 & us2 & H1 & H2 & ->).
      apply Forall2_cons_inv_r in H2 as (x & ? & Hx & H2 & ->). apply Forall2_nil_inv_r in H2 as ->.
      apply list_elem_of_singleton in Hx as ->. exists us1. split; [done|]. by apply HL.
    + intros (us & -> & Hus). exists (us ++ [v]). split; [|done]. apply Forall2_app; [by apply HL|]. repeat constructor. 
Qed.

(** ** The ranges of all combinations *)
Lemma ranges_all {T} (key : T -> MojDbKey) (Q : T -> Prop) (P : list MojObject -> T -> Prop) q groups c
    (fl fu fp : list MojObject -> MojDbKey) L rs i :
  (forall us rs i, us ∈ L -> exists rs', rangesFromKeys q groups rs (fl us) (fu us) (fp us) i c = Ok rs' /\
    forall t, Q t -> in_ranges rs' (key t) <-> in_ranges rs (key t) \/ P us t) ->
  exists rs', rangesFromKeySets q groups rs (map fl L) (map fu L) (map fp L) i c = Ok rs' /\
    forall t, Q t -> in_ranges rs' (key t) <-> in_ranges rs (key t) \/ exists us, us ∈ L /\ P us t.
Proof.
  revert rs i. induction L as [|us L IH]; intros rs i H; simpl.
  - exists rs. split; [done|]. set_solver.
  - destruct (H us rs i) as (rs1 & E1 & H1); [set_solver|].
    destruct (IH rs1 (S i)) as (rs2 & E2 & H2); [intros; apply H; set_solver|].
    exists rs2. split; [by rewrite E1|]. intros t Ht. rewrite H2, H1 by done. set_solver.
Qed.

Lemma in_ranges_nil k : in_ranges [] k <-> False.
Proof. unfold in_ranges. set_solver. Qed.

Section combos.
Context (q : MojDbQuery) (groups : nat) (c : option WhereClause) (alts : list (list MojObject)) (L : list (list MojObject)).
Context (Ha : Forall (Forall well) alts) (Hn : alts <> []) (HL : forall us, us ∈ L <-> chosen us alts).

Lemma choice us : us ∈ L -> Forall well us /\ us <> [] /\ length us = length alts.
Proof.
  intros H. apply HL in H. split; [by eapply chosen_well|]. pose proof (Forall2_length _ _ _ H).
  split; [|done]. intros ->. by destruct alts.
Qed.

(** A list of values compares equal to a choice just when it is one. *)
Lemma some_choice ks : Forall well ks -> (exists us, us ∈ L /\ vcmp ks us = 0) <-> chosen ks alts.
Proof.
  intros Hk. split.
  - intros (us & Hus & E). apply vcmp_eq in E as ->; [by apply HL|done|by apply choice].
  - intros H. exists ks. split; [by apply HL|apply vcmp_refl].
Qed.

Lemma sets_eq : eq_clause c -> exists rs,
  rangesFromKeySets q groups [] (map encs L) (map encs L) (map encs L) 0 c = Ok rs /\
  forall ks rest, Forall well ks -> byte_key rest -> length ks = length alts ->
    in_ranges rs (encs ks ++ rest) <-> chosen ks alts /\ page_ok q (encs ks ++ rest) = true.
Proof.
  intros Hc.
  destruct (ranges_all (fun t => encs t.1 ++ t.2) (fun t => Forall well t.1 /\ byte_key t.2 /\ length t.1 = length alts)
    (fun us t => vcmp t.1 us = 0 /\ page_ok q (encs t.1 ++ t.2) = true) q groups c encs encs encs L [] 0)
    as (rs & E & R).
  - intros us rs i Hus. destruct (choice us Hus) as (W & N & Len).
    destruct (ranges_eq q groups c rs i us Hc W N) as (rs' & E & R). exists rs'. split; [done|].
    intros [ks rest] (H1 & H2 & H3). simpl in *. apply R; [done..|lia].
  - exists rs. split; [done|]. intros ks rest H1 H2 H3. rewrite (R (ks, rest)) by done. simpl.
    rewrite in_ranges_nil, <- some_choice by done. naive_solver.
Qed.

Lemma sets_ineq cl lv uv : c = Some cl ->
  ineq_ops (WhereClause.m_lowerOp cl) (WhereClause.m_upperOp cl) -> well lv -> well uv ->
  (WhereClause.m_lowerOp cl = OpNone -> lv = NullImpl) -> exists rs,
  rangesFromKeySets q groups [] (map (fun us => encs (us ++ [lv])) L) (map (fun us => encs (us ++ [uv])) L)
    (map encs L) 0 c = Ok rs /\
  forall ks y rest, Forall well ks -> well y -> byte_key rest -> length ks = length alts ->
    in_ranges rs (encs (ks ++ [y]) ++ rest) <->
    (chosen ks alts /\ lower_holds (WhereClause.m_lowerOp cl) lv y /\ upper_holds (WhereClause.m_upperOp cl) uv y) /\
    page_ok q (encs (ks ++ [y]) ++ rest) = true.
Proof.
  intros -> Ho Hlv Huv Hnull.
  destruct (ranges_all (fun t => encs (t.1.1 ++ [t.1.2]) ++ t.2)
    (fun t => Forall well t.1.1 /\ well t.1.2 /\ byte_key t.2 /\ length t.1.1 = length alts)
    (fun us t => (vcmp t.1.1 us = 0 /\ lower_holds (WhereClause.m_lowerOp cl) lv t.1.2 /\
                  upper_holds (WhereClause.m_upperOp cl) uv t.1.2) /\ page_ok q (encs (t.1.1 ++ [t.1.2]) ++ t.2) = true)
    q groups (Some cl) (fun us => encs (us ++ [lv])) (fun us => encs (us ++ [uv])) encs L [] 0) as (rs & E & R).
  - intros us rs i Hus. destruct (choice us Hus) as (W & N & Len).
    destruct (ranges_ineq q groups cl us W N rs i lv uv Ho Hlv Huv Hnull) as (rs' & E & R). exists rs'. split; [done|].
    intros [[ks y] rest] (H1 & H2 & H3 & H4). simpl in *. apply R; [done..|lia].
  - exists rs. split; [done|]. intros ks y rest H1 H2 H3 H4. rewrite (R (ks, y, rest)) by done. simpl.
    rewrite in_ranges_nil, <- some_choice by done. naive_solver.
Qed.
End combos.

Definition is_string (v : MojObject) : Prop := MojObject.type v = MojObject.TypeString.

Lemma sets_prefix q groups cl alts vals L : WhereClause.m_lowerOp cl = OpPrefix -> WhereClause.m_upperOp cl = OpNone ->
  Forall (Forall well) alts -> alts <> [] -> Forall well vals -> Forall is_string vals ->
  (forall us, us ∈ L <-> chosen us (alts ++ [vals])) -> exists rs,
  rangesFromKeySets q groups [] (map encs L) (map encs L) (map encs L) 0 (Some cl) = Ok rs /\
  forall ks y rest, Forall well ks -> well y -> byte_key rest -> length ks = length alts ->
    in_ranges rs (encs (ks ++ [y]) ++ rest) <->
    (chosen ks alts /\ exists v, v ∈ vals /\ starts_with v y) /\ page_ok q (encs (ks ++ [y]) ++ rest) = true.
Proof.
  intros Hl Hu Ha Hn Hv Hs HL.
  assert (forall us0, us0 ∈ L -> exists us s, us0 = us ++ [StringImpl s] /\ chosen us alts /\ StringImpl s ∈ vals) as Sp.
  { intros us0 H. apply HL in H. apply Forall2_app_inv_r in H as (us & us2 & H1 & H2 & ->).
    apply Forall2_cons_inv_r in H2 as (x & ? & Hx & H2 & ->). apply Forall2_nil_inv_r in H2 as ->.
    rewrite Forall_forall in Hs. specialize (Hs x Hx). destruct x as [| | | |s| | |]; try done. by exists us, s. }
  destruct (ranges_all (fun t => encs (t.1.1 ++ [t.1.2]) ++ t.2)
    (fun t => Forall well t.1.1 /\ well t.1.2 /\ byte_key t.2 /\ length t.1.1 = length alts)
    (fun us0 t => exists us s, us0 = us ++ [StringImpl s] /\ (vcmp t.1.1 us = 0 /\ starts_with (StringImpl s) t.1.2) /\
                  page_ok q (encs (t.1.1 ++ [t.1.2]) ++ t.2) = true)
    q groups (Some cl) encs encs encs L [] 0) as (rs & E & R).
  - intros us0 rs i Hus. destruct (Sp us0 Hus) as (us & s & -> & Hc & Hin).
    assert (str_ok s) as Hstr by (rewrite Forall_forall in Hv; apply (Hv _ Hin)).
    assert (us <> []) as N by (intros ->; by inversion Hc; subst).
    destruct (ranges_prefix q groups cl rs i us s Hl Hu (chosen_well _ _ Ha Hc) N Hstr) as (rs' & E & R).
    exists rs'. split; [done|]. intros [[ks y] rest] (H1 & H2 & H3 & H4). simpl in *.
    pose proof (Forall2_length _ _ _ Hc). rewrite R by (done || lia).
    split; (intros [|A]; [by left|right]); [by exists us, s|].
    destruct A as (us' & s' & [-> [= ->]]%app_inj_tail & A). done.
  - exists rs. split; [done|]. intros ks y rest H1 H2 H3 H4. rewrite (R (ks, y, rest)) by done. simpl.
    rewrite in_ranges_nil. split.
    + intros [[]|(us0 & Hin & us & s & -> & [Z0 S] & Pg)]. destruct (Sp _ Hin) as (us' & s' & [-> [= ->]]%app_inj_tail & Hc & Hs').
      apply vcmp_eq in Z0 as ->; [|done|by eapply chosen_well]. split; [|done]. split; [done|]. by eexists.
    + intros [(Hc & v & Hin & S) Pg]. right. exists (ks ++ [v]).
      destruct v as [| | | |s| | |]; try done. split; [apply HL, Forall2_app; [done|by repeat constructor]|].
      exists ks, s. split; [done|]. split; [|done]. split; [apply vcmp_refl|done].
Qed.

(** ** What a clause asks of the value of its property *)
Section icu.
Context `{ICU} `{!ICULaws}.

(** The value an index holds for [o]: a string under a collation is replaced by
    its sort key. *)
Definition key_value (coll : option MojDbTextCollator.MojDbTextCollator) (o : MojObject) : res MojObject :=
  match coll, o with
  | Some c, StringImpl text =>
      let? chars := MojDbTextUtils.strToUnicode text in Ok (StringImpl (MojDbTextCollator.sort_string c chars))
  | _, _ => Ok o
  end.

Fixpoint key_values (coll : option MojDbTextCollator.MojDbTextCollator) (vec : list MojObject) : res (list MojObject) :=
  match vec with
  | [] => Ok []
  | o :: vec' => let? v := key_value coll o in let? vs := key_values coll vec' in Ok (v :: vs)
  end.

(** An array is a choice. *)
Definition alternatives (o : MojObject) : list MojObject := match o with ArrayImpl vec => vec | _ => [o] end.

Inductive Want :=
| Among (vals : list MojObject)
| Prefixes (vals : list MojObject)
| Bounds (lop : CompOp) (lv : MojObject) (uop : CompOp) (uv : MojObject).

Definition collator_of (locale : mstring) (coll : MojDbCollationStrength)
    : res (option MojDbTextCollator.MojDbTextCollator) :=
  if decide (coll = MojDbCollationInvalid) then Ok None
  else let? c := MojDbTextCollator.init locale coll in Ok (Some c).

(** Nothing is said of searches, nor of prefixes that are not strings. *)
Definition want (locale : mstring) (c : WhereClause) : res Want :=
  let? coll := collator_of locale (WhereClause.m_collation c) in
  let? vals := key_values coll (alternatives (WhereClause.m_lowerVal c)) in
  match WhereClause.m_lowerOp c with
  | OpEq => Ok (Among vals)
  | OpPrefix =>
      if forallb (fun v => bool_decide (MojObject.type v = MojObject.TypeString)) vals then Ok (Prefixes vals)
      else Err MojErrDbInvalidQueryOp
  | OpSearch | OpSubString => Err MojErrDbInvalidQueryOp
  | lop =>
      let lv := match lop, vals with OpNone, _ => NullImpl | _, lv :: _ => lv | _, [] => NullImpl end in
      let? uv := if decide (WhereClause.m_upperOp c = OpNone) then Ok lv else key_value coll (WhereClause.m_upperVal c) in
      Ok (Bounds lop lv (WhereClause.m_upperOp c) uv)
  end.

Definition satisfies (w : Want) (y : MojObject) : Prop :=
  match w with
  | Among vals => y ∈ vals
  | Prefixes vals => exists v, v ∈ vals /\ starts_with v y
  | Bounds lop lv uop uv => lower_holds lop lv y /\ upper_holds uop uv y
  end.

Lemma key_value_well coll o v : well o -> key_value coll o = Ok v ->
  well v /\ MojDbKey.assign o coll = Ok (Encoding.enc v).
Proof.
  intros Ho. unfold key_value, MojDbKey.assign. destruct coll as [c|], o; intros E;
    try (injection E as <-; split; [done|]; by apply ObjectBytes.toBytes_enc, Ho).
  apply res_bind_ok in E as (chars & E & [= <-]). split; [split; [apply MojDbTextCollator.sort_string_ok|done]|].
  unfold MojDbTextCollator.sortKey. rewrite E. apply MojDbTextCollator.sortKey_chars_enc.
Qed.

Lemma key_values_well coll vec vals : Forall well vec -> key_values coll vec = Ok vals ->
  Forall well vals /\ forall keys, res_fold (fun keys i => assign_keys keys i coll) keys vec =
    Ok (fold_left (MojSet.put lexcmp) (map Encoding.enc vals) keys).
Proof.
  intros Hw. revert vals. induction Hw as [|o vec Ho Hw IH]; intros vals; simpl; [by intros [= <-]|].
  rewrite res_bind_ok. intros (v & Ev & E). apply res_bind_ok in E as (vs & Evs & [= <-]).
  destruct (key_value_well coll o v Ho Ev) as [Wv A]. destruct (IH vs Evs) as [Wvs F].
  split; [by constructor|]. intros keys. unfold assign_keys at 1. rewrite A. simpl. apply F.
Qed.

Lemma alternatives_well val : val_ok val -> Forall well (alternatives val).
Proof.
  intros [Ho Hd]. destruct val; try (by constructor; [|constructor]). simpl.
  apply MojObject.ok_array in Ho. apply MojObjectBuilder.defined_array in Hd.
  rewrite Forall_forall in Ho, Hd |- *. intros x Hx. split; auto.
Qed.

Lemma pushVal_values b coll val vals : val_ok val -> key_values coll (alternatives val) = Ok vals ->
  Forall well vals /\ pushVal b val coll = Ok (MojDbKeyBuilder.push b (key_set vals)).
Proof.
  intros Hv E. destruct (key_values_well coll _ vals (alternatives_well val Hv) E) as [W F]. split; [done|].
  specialize (F []). unfold pushVal. destruct val; simpl in F |- *; try rewrite res_bind_ret in F; by rewrite F.
Qed.

(** *** Pushing the clauses *)
Definition built (b : Builders) (alts : list (list MojObject)) : Prop :=
  holds (lowerBuilder b) alts /\ holds (upperBuilder b) alts /\ prefixKeys b = [] /\ eq_clause (lastClause b).

Definition found (where_ : WhereMap) (prop : mstring) (c : WhereClause) : Prop :=
  MojHashMap.get key_eq where_ prop = Some c.

Lemma pushClauses_app locale where_ props cs more b : Forall2 (found where_) props cs ->
  pushClauses locale where_ (props ++ more) b =
  let? b := res_fold (pushClause locale) b cs in pushClauses locale where_ more b.
Proof.
  intros F. revert b. induction F as [|p c props cs Hp F IH]; intros b; simpl; [done|].
  rewrite Hp, res_bind_assoc. apply res_bind_ext. intros b'. apply IH.
Qed.

Definition no_clause (where_ : WhereMap) (more : list mstring) : Prop :=
  match more with [] => True | prop :: _ => MojHashMap.get key_eq where_ prop = None end.

Lemma pushClauses_none locale where_ more b : no_clause where_ more -> pushClauses locale where_ more b = Ok b.
Proof. destruct more as [|p more]; simpl; [done|]. by intros ->. Qed.

Lemma want_collator locale c w : want locale c = Ok w ->
  exists coll, collator_of locale (WhereClause.m_collation c) = Ok coll.
Proof. unfold want. rewrite res_bind_ok. intros (coll & E & _). by exists coll. Qed.

(** What [want] read of an equality or a prefix. *)
Definition choice_of (c : WhereClause) (w : Want) (vals : list MojObject) : Prop :=
  (w = Among vals /\ WhereClause.m_lowerOp c = OpEq) \/
  (w = Prefixes vals /\ WhereClause.m_lowerOp c = OpPrefix /\ Forall is_string vals).

Lemma want_inv locale c w : want locale c = Ok w ->
  exists coll vals, collator_of locale (WhereClause.m_collation c) = Ok coll /\
    key_values coll (alternatives (WhereClause.m_lowerVal c)) = Ok vals /\
    (choice_of c w vals \/
     WhereClause.m_lowerOp c ∈ [OpNone; OpNotEq; OpLessThan; OpLessThanEq; OpGreaterThan; OpGreaterThanEq] /\
     exists uv, let lv := match WhereClause.m_lowerOp c, vals with OpNone, _ => NullImpl | _, lv :: _ => lv | _, [] => NullImpl end in
       (if decide (WhereClause.m_upperOp c = OpNone) then Ok lv else key_value coll (WhereClause.m_upperVal c)) = Ok uv /\
       w = Bounds (WhereClause.m_lowerOp c) lv (WhereClause.m_upperOp c) uv).
Proof.
  unfold want. rewrite res_bind_ok. intros (coll & Ec & E). apply res_bind_ok in E as (vals & Ev & E).
  exists coll, vals. split; [done|]. split; [done|]. unfold choice_of.
  destruct (WhereClause.m_lowerOp c); try done;
    try (right; split; [set_solver|]; apply res_bind_ok in E as (uv & Eu & [= <-]); by exists uv).
  - injection E as <-. by left; left.
  - destruct (forallb _ _) eqn:F; [|done]. injection E as <-. left; right. split; [done|]. split; [done|].
    rewrite List.forallb_forall in F. apply Forall_forall. intros v Hv%list_elem_of_In.
    specialize (F v Hv). by apply bool_decide_eq_true in F.
Qed.

(** An equality or a prefix clause is pushed onto both builders. *)
Lemma push_choice locale b alts c w coll vals : built b alts -> clause_ok c ->
  collator_of locale (WhereClause.m_collation c) = Ok coll ->
  key_values coll (alternatives (WhereClause.m_lowerVal c)) = Ok vals -> choice_of c w vals ->
  Forall well vals /\ WhereClause.m_upperOp c = OpNone /\ exists b', pushClause locale b c = Ok b' /\
    holds (lowerBuilder b') (alts ++ [vals]) /\ holds (upperBuilder b') (alts ++ [vals]) /\
    prefixKeys b' = [] /\ lastClause b' = Some c.
Proof.
  intros (Hl & Hu & Hp & _) (C1 & C2 & C3 & C4 & C5 & C6 & C7 & C8) Ecoll Ev W.
  assert (WhereClause.m_lowerOp c ∈ [OpEq; OpPrefix]) as Hop by (destruct W as [[_ ->]|(_ & -> & _)]; repeat constructor).
  assert (WhereClause.m_upperOp c = OpNone) as Up.
  { destruct (decide (WhereClause.m_upperOp c = OpNone)) as [|N]; [done|]. specialize (C3 N). mem_cases. }
  assert (val_ok (WhereClause.m_lowerVal c)) as Hv.
  { rewrite decide_False in C7; [done|]. intros E. mem_cases. }
  destruct (pushVal_values (lowerBuilder b) coll _ vals Hv Ev) as [Wv PL].
  destruct (pushVal_values (upperBuilder b) coll _ vals Hv Ev) as [_ PU]. split; [done|]. split; [done|].
  exists {| lowerBuilder := MojDbKeyBuilder.push (lowerBuilder b) (key_set vals);
            upperBuilder := MojDbKeyBuilder.push (upperBuilder b) (key_set vals);
            prefixKeys := prefixKeys b; groupCount := groupCount b; lastClause := Some c |}.
  split.
  { unfold pushClause. unfold collator_of in Ecoll. rewrite Ecoll. cbn [res_bind].
    rewrite decide_False by (intros E; mem_cases).
    assert (negb (bool_decide (WhereClause.m_lowerOp c = OpEq)) && negb (bool_decide (WhereClause.m_lowerOp c = OpPrefix)) = false) as ->.
    { apply elem_of_cons in Hop as [->|Hop]; [done|]. apply list_elem_of_singleton in Hop as ->. done. }
    cbn [res_bind]. rewrite PL. cbn [res_bind]. rewrite decide_True by done. by rewrite PU. }
  simpl. split; [by apply holds_push|]. by split; [apply holds_push|].
Qed.

Lemma push_eqs locale cs ws : Forall2 (fun c w => want locale c = Ok w) cs ws -> Forall clause_ok cs ->
  Forall (fun w => exists vals, w = Among vals) ws -> forall b alts, built b alts -> Forall (Forall well) alts ->
  exists b' alts', res_fold (pushClause locale) b cs = Ok b' /\ built b' (alts ++ alts') /\ Forall (Forall well) alts' /\
    Forall2 (fun w vals => w = Among vals) ws alts'.
Proof.
  induction 1 as [|c w cs ws Hw Hf IH]; intros Hc Hs b alts Hb Ha.
  - exists b, []. rewrite app_nil_r. by repeat split; apply Hb || constructor.
  - apply Forall_cons in Hc as [Hc Hcs]. apply Forall_cons in Hs as [[vals ->] Hs].
    apply want_inv in Hw as (coll & vals' & Ec & Ev & [Ch|(_ & uv & _ & [=])]).
    assert (vals' = vals /\ WhereClause.m_lowerOp c = OpEq) as [-> Op].
    { by destruct Ch as [[[= <-] ?]|[? _]]. }
    destruct (push_choice locale b alts c _ coll vals Hb Hc Ec Ev Ch) as (W & Up & b1 & E1 & L1 & U1 & P1 & La).
    destruct (IH Hcs Hs b1 (alts ++ [vals])) as (b2 & alts' & E2 & B2 & W2 & F2).
    + split; [done|]. split; [done|]. split; [done|]. by rewrite La.
    + apply Forall_app. split; [done|by constructor].
    + exists b2, (vals :: alts'). rewrite <- app_assoc in B2. split; [simpl; by rewrite E1|]. split; [done|].
      split; by constructor.
Qed.

Lemma bounds_ops c : clause_ok c ->
  WhereClause.m_lowerOp c ∈ [OpNone; OpNotEq; OpLessThan; OpLessThanEq; OpGreaterThan; OpGreaterThanEq] ->
  ineq_ops (WhereClause.m_lowerOp c) (WhereClause.m_upperOp c) /\ ~ is_array (WhereClause.m_lowerVal c).
Proof.
  intros (C1 & C2 & C3 & C4 & C5 & _) Hop. split; [split_and!|].
  - repeat (apply elem_of_cons in Hop as [E|Hop]; [rewrite E in C1 |- *; first [by repeat constructor|by destruct C1; repeat constructor]|]).
    mem_cases.
  - done.
  - done.
  - intros E. destruct (decide (WhereClause.m_upperOp c = OpNone)) as [|N]; [done|]. specialize (C3 N). mem_cases.
  - intros A. specialize (C5 A). mem_cases.
Qed.

(** One value, or none, on each side. *)
Lemma push_one b coll val v : val_ok val -> ~ is_array val -> key_value coll val = Ok v ->
  well v /\ pushVal b val coll = Ok (MojDbKeyBuilder.push b (key_set [v])).
Proof.
  intros Hv Ha E. assert (alternatives val = [val]) as A by (destruct val; done || by destruct Ha).
  destruct (pushVal_values b coll val [v] Hv) as [W P].
  - rewrite A. simpl. by rewrite E.
  - apply Forall_cons in W as [W _]. by split.
Qed.

Lemma well_null : well NullImpl.
Proof. by split. Qed.

Lemma lower_value b c coll vals lv : clause_ok c -> ~ is_array (WhereClause.m_lowerVal c) ->
  key_values coll (alternatives (WhereClause.m_lowerVal c)) = Ok vals ->
  lv = match WhereClause.m_lowerOp c, vals with OpNone, _ => NullImpl | _, lv :: _ => lv | _, [] => NullImpl end ->
  well lv /\ pushVal b (WhereClause.m_lowerVal c) coll = Ok (MojDbKeyBuilder.push b (key_set [lv])).
Proof.
  intros (_ & _ & _ & _ & _ & _ & C7 & _) Ha Ev ->. destruct (decide (WhereClause.m_lowerOp c = OpNone)) as [->|N].
  - rewrite C7. split; [apply well_null|]. by destruct coll.
  - assert (alternatives (WhereClause.m_lowerVal c) = [WhereClause.m_lowerVal c]) as A.
    { destruct (WhereClause.m_lowerVal c); done || by destruct Ha. }
    rewrite A in Ev. simpl in Ev. apply res_bind_ok in Ev as (v & Ev & [= <-]).
    assert (match WhereClause.m_lowerOp c with OpNone => NullImpl | _ => v end = v) as -> by (by destruct (WhereClause.m_lowerOp c)).
    by apply push_one.
Qed.

Lemma push_bounds locale b alts c lop lv uop uv : built b alts -> alts <> [] -> Forall (Forall well) alts -> clause_ok c ->
  want locale c = Ok (Bounds lop lv uop uv) ->
  well lv /\ well uv /\ lop = WhereClause.m_lowerOp c /\ uop = WhereClause.m_upperOp c /\ ineq_ops lop uop /\
  (lop = OpNone -> lv = NullImpl) /\
  exists b' keys, pushClause locale b c = Ok b' /\ MojDbKeyBuilder.keys (lowerBuilder b) = Ok keys /\
    holds (lowerBuilder b') (alts ++ [[lv]]) /\ holds (upperBuilder b') (alts ++ [[uv]]) /\
    prefixKeys b' = match keys with [] => [[]] | _ => keys end /\ lastClause b' = Some c.
Proof.
  intros (Hl & Hu & Hp & _) Hn Ha Hc W.
  apply want_inv in W as (coll & vals & Ec & Ev & [[[[=] _]|[[=] _]]|(Hop & uv' & Eu & [= -> -> -> ->])]).
  destruct (bounds_ops c Hc Hop) as [Ho Harr]. pose proof Hc as (_ & _ & _ & _ & _ & C6 & _ & C8).
  set (lv := match WhereClause.m_lowerOp c, vals with OpNone, _ => NullImpl | _, lv :: _ => lv | _, [] => NullImpl end) in *.
  destruct (lower_value (lowerBuilder b) c coll vals lv Hc Harr Ev eq_refl) as [Wl PL].
  assert (well uv' /\ pushVal (upperBuilder b) (if decide (WhereClause.m_upperOp c = OpNone)
    then WhereClause.m_lowerVal c else WhereClause.m_upperVal c) coll =
    Ok (MojDbKeyBuilder.push (upperBuilder b) (key_set [uv']))) as [Wu PU].
  { destruct (decide (WhereClause.m_upperOp c = OpNone)); [|by apply push_one].
    injection Eu as <-. by eapply lower_value. }
  assert (lowerBuilder b <> []) as Nb by (intros E; rewrite E in Hl; inversion Hl; by subst).
  destruct (keys_values _ _ Hl Nb Ha) as (L & EL & _).
  split; [done|]. split; [done|]. split; [done|]. split; [done|]. split; [done|].
  split; [intros E; unfold lv; by rewrite E|].
  eexists _, _. split; [|split; [exact EL|]].
  { unfold pushClause. unfold collator_of in Ec. rewrite Ec. cbn [res_bind].
    rewrite decide_False by (intros E; mem_cases).
    assert (negb (bool_decide (WhereClause.m_lowerOp c = OpEq)) && negb (bool_decide (WhereClause.m_lowerOp c = OpPrefix)) = true) as ->.
    { rewrite !bool_decide_false; [done|..]; intros E; mem_cases. }
    rewrite EL. cbn [res_bind]. rewrite PL. cbn [res_bind]. rewrite PU. cbn [res_bind]. reflexivity. }
  simpl. split; [by apply holds_push|]. split; [by apply holds_push|]. split; [|done].
  by destruct (map encs L).
Qed.

(** *** The ranges of the builders *)
Definition finish (q : MojDbQuery) (b : Builders) : res (list MojDbKeyRange.MojDbKeyRange) :=
  let? lowerKeys := MojDbKeyBuilder.keys (lowerBuilder b) in
  let? upperKeys := MojDbKeyBuilder.keys (upperBuilder b) in
  rangesFromKeySets q (groupCount b) [] lowerKeys upperKeys
    (match prefixKeys b with [] => lowerKeys | keys => keys end) 0 (lastClause b).

Definition exact (q : MojDbQuery) (rs : list MojDbKeyRange.MojDbKeyRange) (n : nat) (P : list MojObject -> Prop) : Prop :=
  forall ys rest, Forall well ys -> byte_key rest -> length ys = n ->
    in_ranges rs (encs ys ++ rest) <-> P ys /\ page_ok q (encs ys ++ rest) = true.

Lemma built_not_nil b alts : holds b alts -> alts <> [] -> b <> [].
Proof. intros Hb Hn ->. inversion Hb; by subst. Qed.

Lemma same_keys b alts : holds (lowerBuilder b) alts -> holds (upperBuilder b) alts -> alts <> [] ->
  Forall (Forall well) alts -> prefixKeys b = [] -> exists L, (forall us, us ∈ L <-> chosen us alts) /\
  forall q, finish q b = rangesFromKeySets q (groupCount b) [] (map encs L) (map encs L) (map encs L) 0 (lastClause b).
Proof.
  intros Hl Hu Hn Ha Hp. destruct (keys_values _ _ Hl (built_not_nil _ _ Hl Hn) Ha) as (L & EL & S & M).
  destruct (keys_elem _ _ Hu (built_not_nil _ _ Hu Hn)) as (out & EU & S2 & M2).
  assert (out = map encs L) as ->.
  { apply sorted_ext; [done..|]. intros k. rewrite M2, list_elem_of_fmap. setoid_rewrite M. naive_solver. }
  exists L. split; [done|]. intros q. unfold finish. rewrite EL, EU, Hp. done.
Qed.

Lemma finish_eq q b alts : built b alts -> alts <> [] -> Forall (Forall well) alts ->
  exists rs, finish q b = Ok rs /\ exact q rs (length alts) (fun ys => chosen ys alts).
Proof.
  intros (Hl & Hu & Hp & He) Hn Ha. destruct (same_keys b alts Hl Hu Hn Ha Hp) as (L & M & E). rewrite E.
  destruct (sets_eq q (groupCount b) (lastClause b) alts L Ha Hn M He) as (rs & Er & R).
  exists rs. split; [done|]. intros ys rest H1 H2 H3. by apply R.
Qed.

Lemma exact_snoc q rs alts (P : MojObject -> Prop) (T : list MojObject -> Prop) :
  (forall ks y, T (ks ++ [y]) <-> chosen ks alts /\ P y) ->
  (forall ks y rest, Forall well ks -> well y -> byte_key rest -> length ks = length alts ->
    in_ranges rs (encs (ks ++ [y]) ++ rest) <->
    (chosen ks alts /\ P y) /\ page_ok q (encs (ks ++ [y]) ++ rest) = true) ->
  exact q rs (length alts + 1) T.
Proof.
  intros HT R ys rest Hy Hr L. destruct ys as [|y ys _] using rev_ind; [simpl in L; lia|].
  apply Forall_app in Hy as [Hys Hy]. apply Forall_cons in Hy as [Hy _]. rewrite length_app in L. simpl in L.
  rewrite HT. apply R; [done..|lia].
Qed.

Lemma finish_prefix q b c alts vals : holds (lowerBuilder b) (alts ++ [vals]) -> holds (upperBuilder b) (alts ++ [vals]) ->
  prefixKeys b = [] -> lastClause b = Some c -> WhereClause.m_lowerOp c = OpPrefix -> WhereClause.m_upperOp c = OpNone ->
  alts <> [] -> Forall (Forall well) alts -> Forall well vals -> Forall is_string vals ->
  exists rs, finish q b = Ok rs /\ forall T,
    (forall ks y, T (ks ++ [y]) <-> chosen ks alts /\ satisfies (Prefixes vals) y) -> exact q rs (length alts + 1) T.
Proof.
  intros Hl Hu Hp Hc Lop Uop Hn Ha Hv Hs.
  assert (alts ++ [vals] <> [] /\ Forall (Forall well) (alts ++ [vals])) as [Hn2 Ha2].
  { split; [by destruct alts|]. apply Forall_app. split; [done|by constructor]. }
  destruct (same_keys b _ Hl Hu Hn2 Ha2 Hp) as (L & M & E). rewrite E, Hc.
  destruct (sets_prefix q (groupCount b) c alts vals L Lop Uop Ha Hn Hv Hs M) as (rs & Er & R).
  exists rs. split; [done|]. intros T HT. by eapply exact_snoc.
Qed.

Lemma finish_bounds q b b' c alts lv uv keys : holds (lowerBuilder b) alts -> alts <> [] -> Forall (Forall well) alts ->
  MojDbKeyBuilder.keys (lowerBuilder b) = Ok keys -> holds (lowerBuilder b') (alts ++ [[lv]]) ->
  holds (upperBuilder b') (alts ++ [[uv]]) -> prefixKeys b' = match keys with [] => [[]] | _ => keys end ->
  lastClause b' = Some c -> well lv -> well uv -> ineq_ops (WhereClause.m_lowerOp c) (WhereClause.m_upperOp c) ->
  (WhereClause.m_lowerOp c = OpNone -> lv = NullImpl) ->
  exists rs, finish q b' = Ok rs /\ forall T,
    (forall ks y, T (ks ++ [y]) <-> chosen ks alts /\
       satisfies (Bounds (WhereClause.m_lowerOp c) lv (WhereClause.m_upperOp c) uv) y) -> exact q rs (length alts + 1) T.
Proof.
  intros Hb Hn Ha Ek Hl Hu Hp Hc Wl Wu Ho Hnull.
  destruct (keys_values _ _ Hb (built_not_nil _ _ Hb Hn) Ha) as (L & EL & S & M). rewrite EL in Ek. injection Ek as <-.
  assert (lowerBuilder b' <> [] /\ upperBuilder b' <> []) as [Nl Nu].
  { split; [apply (built_not_nil _ _ Hl)|apply (built_not_nil _ _ Hu)]; by destruct alts. }
  pose proof (keys_snoc _ _ _ L lv Hb Hl Nl Ha Wl S M) as KL. pose proof (keys_snoc _ _ _ L uv Hb Hu Nu Ha Wu S M) as KU.
  destruct (sets_ineq q (groupCount b') (lastClause b') alts L Ha Hn M c lv uv Hc Ho Wl Wu Hnull) as (rs & Er & R).
  exists rs. split; [|intros T HT; by eapply exact_snoc].
  unfold finish. rewrite KL, KU. cbn [res_bind]. rewrite Hp. destruct L as [|us L]; [|exact Er].
  simpl in Er |- *. exact Er.
Qed.

(** *** The plan *)
Lemma start_built id : well id -> ~ is_array id -> exists lower upper,
  pushVal [] id None = Ok lower /\ pushVal [] id None = Ok upper /\
  forall g, built {| lowerBuilder := lower; upperBuilder := upper; prefixKeys := []; groupCount := g; lastClause := None |} [[id]].
Proof.
  intros Hw Ha. destruct (push_one [] None id id Hw Ha eq_refl) as [_ E]. do 2 eexists.
  split; [exact E|]. split; [exact E|]. intros g. split; [|split; [|done]]; exact (holds_push [] [] [id] (List.Forall2_nil _)).
Qed.

Lemma one_well id : well id -> Forall (Forall well) [[id]].
Proof. intros Hw. by rewrite !Forall_singleton. Qed.

Lemma chosen_satisfies ws alts ys : Forall2 (fun w vals => w = Among vals) ws alts ->
  chosen ys alts <-> Forall2 satisfies ws ys.
Proof.
  intros F. revert ys. induction F as [|w vals ws alts -> F IH]; intros ys.
  - split; inversion 1; constructor.
  - split; inversion 1; subst; constructor; try done; by apply IH.
Qed.

Lemma chosen_cons (i id : MojObject) (ks : list MojObject) (alts : list (list MojObject)) : chosen (i :: ks) ([[id]] ++ alts) <-> i = id /\ chosen ks alts.
Proof.
  simpl. rewrite Forall2_cons, list_elem_of_singleton. done.
Qed.

Lemma satisfied_snoc (i : MojObject) ws w alts (ks : list MojObject) y : Forall2 (fun w vals => w = Among vals) ws alts ->
  (match ks ++ [y] with [] => False | j :: ys => j = i /\ Forall2 satisfies (ws ++ [w]) ys end) <->
  chosen ks ([[i]] ++ alts) /\ satisfies w y.
Proof.
  intros F. destruct ks as [|j ks].
  - simpl. split; [|by intros [Hc _]; inversion Hc]. intros [_ A]. destruct ws; inversion A.
  - rewrite chosen_cons, (chosen_satisfies _ _ _ F). simpl. split.
    + intros [-> A]. apply Forall2_app_inv_r in A as (l1 & l2 & A1 & A2 & E).
      apply Forall2_cons_inv_r in A2 as (x & ? & Hx & A2 & ->). apply Forall2_nil_inv_r in A2 as ->.
      by apply app_inj_tail in E as [-> ->].
    + intros [[-> A] B]. split; [done|]. apply Forall2_app; [done|]. by repeat constructor.
Qed.

Definition selects (id : MojObject) (ws : list Want) (ys : list MojObject) : Prop :=
  match ys with [] => False | i :: ys => i = id /\ Forall2 satisfies ws ys end.

Lemma among_well ws alts : Forall2 (fun w vals => w = Among vals) ws alts -> length ws = length alts.
Proof. apply Forall2_length. Qed.

(** What the clauses ask for, from the builders that hold only the id. *)
Lemma finish_wants q locale id cs ws b : well id -> built b [[id]] -> Forall clause_ok cs ->
  Forall2 (fun c w => want locale c = Ok w) cs ws ->
  Forall (fun w => exists vals, w = Among vals) (removelast ws) ->
  exists b' rs, res_fold (pushClause locale) b cs = Ok b' /\ finish q b' = Ok rs /\
    exact q rs (S (length ws)) (selects id ws).
Proof.
  intros Hid Hb Hc Hw Hs. destruct ws as [|w ws _] using rev_ind.
  { apply Forall2_nil_inv_r in Hw as ->. exists b.
    destruct (finish_eq q b [[id]] Hb) as (rs & E & X); [done|by apply one_well|].
    exists rs. split; [done|]. split; [done|]. intros ys rest H1 H2 H3. pose proof (X ys rest H1 H2 H3) as Y. cbv beta in Y. rewrite Y.
    destruct ys as [|i ys]; [done|]. change [[id]] with ([[id]] ++ []).
    rewrite (chosen_cons i id ys []), (chosen_satisfies [] [] ys) by constructor. done. }
  rewrite removelast_last in Hs. apply Forall2_app_inv_r in Hw as (cs1 & cs2 & Hw & Hw2 & ->).
  apply Forall2_cons_inv_r in Hw2 as (c & ? & Wc & Hw2 & ->). apply Forall2_nil_inv_r in Hw2 as ->.
  apply Forall_app in Hc as [Hc1 Hc]. apply Forall_cons in Hc as [Hc _].
  destruct (push_eqs locale cs1 ws Hw Hc1 Hs b [[id]] Hb) as (b1 & alts & E1 & B1 & W1 & F1); [by apply one_well|].
  assert ([[id]] ++ alts <> [] /\ Forall (Forall well) ([[id]] ++ alts)) as [Hn Ha].
  { split; [done|]. apply Forall_app. split; [by apply one_well|done]. }
  assert (S (length (ws ++ [w])) = length ([[id]] ++ alts) + 1)%nat as ->.
  { rewrite length_app, (Forall2_length _ _ _ F1). simpl. lia. }
  assert (forall ks y, selects id (ws ++ [w]) (ks ++ [y]) <-> chosen ks ([[id]] ++ alts) /\ satisfies w y) as Sat.
  { intros ks y. by apply satisfied_snoc. }
  setoid_rewrite res_fold_app. rewrite E1. cbn [res_bind res_fold]. setoid_rewrite res_bind_ret.
  destruct (want_inv _ _ _ Wc) as (coll & vals & Ec & Ev & [Ch|(_ & uv & _ & Ew)]).
  - destruct (push_choice locale b1 _ c w coll vals B1 Hc Ec Ev Ch) as (Wv & Up & b2 & E2 & L2 & U2 & P2 & La2).
    exists b2. destruct Ch as [[-> Op]|(-> & Op & Hs2)].
    + destruct (finish_eq q b2 (([[id]] ++ alts) ++ [vals])) as (rs & E & X).
      * split; [done|]. split; [done|]. split; [done|]. by rewrite La2.
      * done.
      * apply Forall_app. split; [done|by constructor].
      * exists rs. split; [done|]. split; [done|]. rewrite <- (length_app _ [vals]).
        intros ys rest H1 H2 H3. pose proof (X ys rest H1 H2 H3) as Y. cbv beta in Y. rewrite Y.
        destruct ys as [|i ys]; [simpl in H3; lia|].
        rewrite <- app_assoc, chosen_cons. by rewrite (chosen_satisfies (ws ++ [Among vals])) by (by apply Forall2_app; [|repeat constructor]).
    + destruct (finish_prefix q b2 c _ vals L2 U2 P2 La2 Op Up Hn Ha Wv Hs2) as (rs & E & X).
      exists rs. split; [done|]. split; [done|]. by apply X.
  - rewrite Ew in Wc. destruct (push_bounds locale b1 _ c _ _ _ _ B1 Hn Ha Hc Wc)
      as (Wl & Wu & _ & _ & Ho & Hnull & b2 & keys & E2 & EK & L2 & U2 & P2 & La2).
    destruct B1 as (B1 & _). exists b2.
    destruct (finish_bounds q b1 b2 c _ _ uv keys B1 Hn Ha EK L2 U2 P2 La2 Wl Wu Ho Hnull) as (rs & E & X).
    exists rs. split; [done|]. split; [done|]. apply X. intros ks y. rewrite Sat, Ew. done.
Qed.

Lemma found_ok where_ props cs : where_ok where_ -> Forall2 (found where_) props cs -> Forall clause_ok cs.
Proof.
  intros [_ Hw]. rewrite Forall_forall in Hw. induction 1 as [|p c props cs Hp F IH]; constructor; [|done].
  unfold found, MojHashMap.get in Hp. destruct (List.find _ where_) as [i|] eqn:E; [|done]. injection Hp as <-.
  apply List.find_some in E as [Hi _]. by apply (Hw i), list_elem_of_In.
Qed.

Lemma in_ranges_rev rs k : in_ranges (rev rs) k <-> in_ranges rs k.
Proof. unfold in_ranges. setoid_rewrite list_elem_of_In. setoid_rewrite <- List.in_rev. done. Qed.

(** C3: the ranges of a plan hold exactly the keys that the query asks for.
    Where the first properties of an index are those of clauses, all but the last
    of them equalities (with one value or a choice) and the last an equality, a
    choice of string prefixes, an inequality or a range, a key of values is in one
    of the ranges if and only if it begins with the index's id, every value
    satisfies its clause, and it is not before the query's page. *)
Theorem plan_exact q q' index props more cs ws :
  where_ok (m_whereClauses q') -> well (ix_id index) -> ~ is_array (ix_id index) ->
  (if ix_includeDeleted index && negb (MojHashMap.contains key_eq (m_whereClauses q) DelKey)
   then where_ q DelKey OpEq (BoolImpl false) MojDbCollationInvalid else Ok q) = Ok q' ->
  ix_props index = props ++ more -> Forall2 (found (m_whereClauses q')) props cs -> no_clause (m_whereClauses q') more ->
  Forall2 (fun c w => want (ix_locale index) c = Ok w) cs ws ->
  Forall (fun w => exists vals, w = Among vals) (removelast ws) ->
  exists p, init q index = Ok p /\ m_query p = q' /\
    forall i ys rest, Forall well (i :: ys) -> length ys = length ws -> byte_key rest ->
      in_ranges (m_ranges p) (encs (i :: ys) ++ rest) <->
      i = ix_id index /\ Forall2 satisfies ws ys /\ page_ok q' (encs (i :: ys) ++ rest) = true.
Proof.
  intros Hok Hid Harr Hq Hprops Hfound Hnone Hw Hs.
  destruct (start_built (ix_id index) Hid Harr) as (lower & upper & EL & EU & Hb).
  destruct (finish_wants q' (ix_locale index) (ix_id index) cs ws _ Hid (Hb 0%nat) (found_ok _ _ _ Hok Hfound) Hw Hs)
    as (b & rs & Eb & Ef & X).
  assert (buildRanges q' 0 index = Ok (rs, groupCount b)) as E.
  { unfold buildRanges. rewrite EL. injection (eq_trans (eq_sym EL) EU) as <-. cbn [res_bind].
    rewrite Hprops, (pushClauses_app _ _ _ cs) by done. rewrite Eb. cbn [res_bind].
    rewrite pushClauses_none by done. cbn [res_bind]. unfold finish in Ef.
    apply res_bind_ok in Ef as (lk & -> & Ef). apply res_bind_ok in Ef as (uk & -> & Ef). cbn [res_bind].
    by rewrite Ef. }
  unfold init. rewrite Hq. cbn [res_bind]. rewrite E. cbn [res_bind]. eexists. split; [reflexivity|].
  split; [done|]. intros i ys rest H1 H2 H3. cbn [m_ranges].
  assert (in_ranges (if m_desc q then rev rs else rs) (encs (i :: ys) ++ rest) <-> in_ranges rs (encs (i :: ys) ++ rest)) as ->.
  { destruct (m_desc q); [apply in_ranges_rev|done]. }
  rewrite (X (i :: ys) rest H1 H3) by (simpl; by f_equal). simpl. tauto.
Qed.
End icu.

(** A lawful ICU: characters are bytes and the sort key is the text with every
    byte made nonzero. *)
#[local] Instance shift_icu : ICU := {|
  UCollator := unit; UBreakIterator := unit;
  u_strFromUTF8 s := Some s; u_strToUTF8 s := Some s; ucol_open _ := Some tt;
  ucol_setNormalization u := u; ucol_setNumericCollation u := u; ucol_setStrength u _ := u;
  ucol_getSortKey _ s := map (fun c => 1 + c mod 255) s ++ [0]; ubrk_open_word _ := Some tt;
  ubrk_positions _ s := Some [(0%nat, false); (length s, true)] |}.

#[local] Instance shift_icu_laws : ICULaws.
Proof.
  split; [|done]. intros c chars. exists (map (fun c => 1 + c mod 255) chars). split; [done|].
  apply List.Forall_map, List.Forall_forall. intros x _. pose proof (Z.mod_pos_bound x 255). lia.
Defined.

Definition sample_index : Index :=
  {| ix_id := IntImpl 7; ix_props := [_T "a"; _T "b"; _T "c"]; ix_locale := []; ix_idIndex := 0; ix_includeDeleted := false |}.

(** The sample query asks for a = x and 1 < b <= 9. *)
Lemma plan_exact_witness : exists p, init sample_query sample_index = Ok p /\
  (in_ranges (m_ranges p) (encs [IntImpl 7; StringImpl (map (fun c => 1 + c) (_T "x")); IntImpl 5] ++ []) <->
   IntImpl 7 = IntImpl 7 /\
   Forall2 satisfies [Among [StringImpl (map (fun c => 1 + c) (_T "x"))]; Bounds OpGreaterThan (IntImpl 1) OpLessThanEq (IntImpl 9)]
     [StringImpl (map (fun c => 1 + c) (_T "x")); IntImpl 5] /\
   page_ok sample_query (encs [IntImpl 7; StringImpl (map (fun c => 1 + c) (_T "x")); IntImpl 5] ++ []) = true).
Proof.
  destruct (plan_exact sample_query sample_query sample_index [_T "a"; _T "b"] [_T "c"]
    [new_clause OpEq (StringImpl (_T "x")) MojDbCollationPrimary;
     {| WhereClause.m_lowerOp := OpGreaterThan; WhereClause.m_upperOp := OpLessThanEq;
        WhereClause.m_lowerVal := IntImpl 1; WhereClause.m_upperVal := IntImpl 9;
        WhereClause.m_collation := MojDbCollationInvalid |}]
    [Among [StringImpl (map (fun c => 1 + c) (_T "x"))]; Bounds OpGreaterThan (IntImpl 1) OpLessThanEq (IntImpl 9)])
    as (p & E & _ & X).
  - apply sample_query_ok.
  - split; [simpl; unfold in_int; lia|exact I].
  - discriminate.
  - reflexivity.
  - reflexivity.
  - repeat constructor.
  - reflexivity.
  - repeat constructor.
  - constructor; [by eexists|constructor].
  - exists p. split; [exact E|]. apply X; [|reflexivity|constructor].
    repeat (apply Forall_cons; split; [split; [first [by apply str_okb|simpl; unfold in_int; lia]|exact I]|]). constructor.
Defined.

(** The terminator is dropped from the key of any value, not only of a string: the
    keys with prefix 256 hold the 300 too. *)
Lemma prefix_of_integer : exists p,
  init (with_where make [(_T "a", new_clause OpPrefix (IntImpl 256) MojDbCollationInvalid)] []) sample_index = Ok p /\
  in_ranges (m_ranges p) (encs [IntImpl 7; IntImpl 300]).
Proof.
  eexists. split; [reflexivity|]. eexists. split; [apply list_elem_of_here|]. by vm_compute.
Qed.
End QueryPlanSelect.
