(* ===== verification/OrderedMap.v ===== *)
(** * Ordered byte maps

    What the storage engine's iterators walk over: [std::map] and the snapshot of
    a LevelDB database, both ordered by the bytes of the key, and what they hold
    together.  A place between two keys is a [Cut]; iterators are specified by
    the first entry after a cut and the last one before it. *)

From S2P Require Import Prelude Containers.

Abbreviation entry := (bytes * bytes)%type.
Abbreviation entries := (list entry).
Abbreviation sorted_entries := (MojRbTreeBase.sorted (fst : entry -> bytes) lexcmp).

(** ** Cuts *)
Inductive Cut :=
| CutLt (k : bytes)    (* just before [k] *)
| CutLe (k : bytes)    (* just after [k] *)
| CutAll.              (* after every key *)

Definition below (c : Cut) (k : bytes) : bool :=
  match c with CutLt j => lexcmp k j <? 0 | CutLe j => lexcmp k j <=? 0 | CutAll => true end.

Definition after (c : Cut) (l : entries) : option entry := List.find (fun e => negb (below c e.1)) l.
Definition before (c : Cut) (l : entries) : option entry := last (List.filter (fun e => below c e.1) l).

Lemma below_down c j k : below c k = true -> lexcmp j k <= 0 -> below c j = true.
Proof.
  destruct c as [b|b|]; simpl; [..|done]; rewrite ?Z.ltb_lt, ?Z.leb_le; intros H L.
  - by apply (comp_le_lt_trans lexcmp j k).
  - by apply (comp_trans lexcmp j k).
Qed.

Lemma not_below_up c j k : below c j = false -> lexcmp j k <= 0 -> below c k = false.
Proof. intros H L. destruct (below c k) eqn:E; [|done]. by rewrite (below_down c j k E L) in H. Qed.

(** An entry of [l] is the first after the cut. *)
Definition is_after (c : Cut) (l : entries) (e : entry) : Prop :=
  e ∈ l /\ below c e.1 = false /\ forall x, x ∈ l -> below c x.1 = false -> lexcmp e.1 x.1 <= 0.
Definition is_before (c : Cut) (l : entries) (e : entry) : Prop :=
  e ∈ l /\ below c e.1 = true /\ forall x, x ∈ l -> below c x.1 = true -> lexcmp x.1 e.1 <= 0.

Lemma sorted_lt (x : entry) l : sorted_entries (x :: l) -> forall y, y ∈ l -> lexcmp x.1 y.1 < 0.
Proof. intros [F _]%MojRbTreeBase.sorted_cons y Hy. rewrite Forall_forall in F. by apply F. Qed.

Lemma sorted_tail (x : entry) l : sorted_entries (x :: l) -> sorted_entries l.
Proof. by intros [_ S]%MojRbTreeBase.sorted_cons. Qed.

Lemma sorted_key (l : entries) x y : sorted_entries l -> x ∈ l -> y ∈ l -> x.1 = y.1 -> x = y.
Proof.
  intros S Hx Hy E. apply (MojRbTreeBase.sorted_unique fst lexcmp l); [done..|]. rewrite E. apply (comp_refl lexcmp).
Qed.

Lemma after_spec c l : sorted_entries l ->
  match after c l with
  | Some e => is_after c l e
  | None => forall x, x ∈ l -> below c x.1 = true
  end.
Proof.
  intros S. unfold after, is_after. induction l as [|x l IH]; simpl; [set_solver|].
  destruct (below c x.1) eqn:B; simpl.
  - specialize (IH (sorted_tail _ _ S)). destruct (List.find _ l) as [e|].
    + destruct IH as (H1 & H2 & H3). split; [set_solver|]. split; [done|]. intros y [->|Hy]%elem_of_cons E; [congruence|auto].
    + intros y [->|Hy]%elem_of_cons; auto.
  - split; [set_solver|]. split; [done|]. intros y [->|Hy]%elem_of_cons E; [by rewrite (comp_refl lexcmp)|].
    pose proof (sorted_lt _ _ S y Hy). lia.
Qed.

Lemma filter_last_spec c l : sorted_entries l ->
  match before c l with
  | Some e => is_before c l e
  | None => forall x, x ∈ l -> below c x.1 = false
  end.
Proof.
  intros S. unfold before, is_before. induction l as [|x l IH]; simpl; [set_solver|].
  specialize (IH (sorted_tail _ _ S)). pose proof (sorted_lt _ _ S) as L.
  destruct (below c x.1) eqn:B.
  - rewrite last_cons. destruct (last _) as [e|].
    + destruct IH as (H1 & H2 & H3). split; [set_solver|]. split; [done|].
      intros y [->|Hy]%elem_of_cons E; [specialize (L e H1); lia|auto].
    + split; [set_solver|]. split; [done|]. intros y [->|Hy]%elem_of_cons E; [by rewrite (comp_refl lexcmp)|].
      by rewrite IH in E.
  - destruct (last _) as [e|].
    + destruct IH as (H1 & H2 & H3). split; [set_solver|]. split; [done|].
      intros y [->|Hy]%elem_of_cons E; [congruence|auto].
    + intros y [->|Hy]%elem_of_cons; auto.
Qed.

Lemma is_after_unique c l e e' : sorted_entries l -> is_after c l e -> is_after c l e' -> e = e'.
Proof.
  intros S (H1 & H2 & H3) (G1 & G2 & G3). apply (sorted_key l); [done..|]. apply lexcmp_eq.
  pose proof (H3 e' G1 G2). pose proof (G3 e H1 H2). pose proof (comp_anti lexcmp e.1 e'.1). lia.
Qed.

Lemma is_before_unique c l e e' : sorted_entries l -> is_before c l e -> is_before c l e' -> e = e'.
Proof.
  intros S (H1 & H2 & H3) (G1 & G2 & G3). apply (sorted_key l); [done..|]. apply lexcmp_eq.
  pose proof (H3 e' G1 G2). pose proof (G3 e H1 H2). pose proof (comp_anti lexcmp e.1 e'.1). lia.
Qed.

Lemma after_Some c l e : sorted_entries l -> after c l = Some e <-> is_after c l e.
Proof.
  intros S. pose proof (after_spec c l S) as A. destruct (after c l) as [e'|].
  - split; [by intros [= <-]|]. intros H. f_equal. by eapply is_after_unique.
  - split; [done|]. intros (H1 & H2 & _). specialize (A e H1). congruence.
Qed.

Lemma after_None c l : sorted_entries l -> after c l = None <-> forall x, x ∈ l -> below c x.1 = true.
Proof.
  intros S. pose proof (after_spec c l S) as A. destruct (after c l) as [e|]; [|done].
  split; [done|]. intros H. destruct A as (H1 & H2 & _). specialize (H e H1). congruence.
Qed.

Lemma before_Some c l e : sorted_entries l -> before c l = Some e <-> is_before c l e.
Proof.
  intros S. pose proof (filter_last_spec c l S) as A. destruct (before c l) as [e'|].
  - split; [by intros [= <-]|]. intros H. f_equal. by eapply is_before_unique.
  - split; [done|]. intros (H1 & H2 & _). specialize (A e H1). congruence.
Qed.

Lemma before_None c l : sorted_entries l -> before c l = None <-> forall x, x ∈ l -> below c x.1 = false.
Proof.
  intros S. pose proof (filter_last_spec c l S) as A. destruct (before c l) as [e|]; [|done].
  split; [done|]. intros H. destruct A as (H1 & H2 & _). specialize (H e H1). congruence.
Qed.

Lemma after_cong c c' l : (forall x, x ∈ l -> below c x.1 = below c' x.1) -> after c l = after c' l.
Proof.
  intros H. unfold after. induction l as [|x l IH]; simpl; [done|].
  rewrite (H x) by set_solver. destruct (below c' x.1); simpl; [|done]. apply IH. set_solver.
Qed.

Lemma before_cong c c' l : (forall x, x ∈ l -> below c x.1 = below c' x.1) -> before c l = before c' l.
Proof.
  intros H. unfold before. f_equal. induction l as [|x l IH]; simpl; [done|].
  rewrite (H x) by set_solver. rewrite IH by set_solver. done.
Qed.

Lemma after_first l : after (CutLt []) l = head l.
Proof. destruct l as [|[k v] l]; [done|]. unfold after. simpl. by destruct k. Qed.

Lemma before_last l : before CutAll l = last l.
Proof. unfold before. f_equal. induction l as [|x l IH]; simpl; [done|]. f_equal. exact IH. Qed.

Lemma below_lt k j : below (CutLt j) k = true <-> lexcmp k j < 0.
Proof. simpl. apply Z.ltb_lt. Qed.
Lemma below_le k j : below (CutLe j) k = true <-> lexcmp k j <= 0.
Proof. simpl. apply Z.leb_le. Qed.
Lemma below_lt_false k j : below (CutLt j) k = false <-> 0 <= lexcmp k j.
Proof. simpl. apply Z.ltb_ge. Qed.
Lemma below_le_false k j : below (CutLe j) k = false <-> 0 < lexcmp k j.
Proof. simpl. apply Z.leb_gt. Qed.

(** ** Sub-maps and overlays *)

(** What is left of [l] without the keys of [dels]. *)
Definition live (dels : list bytes) (l : entries) : entries :=
  List.filter (fun e => negb (MojSet.contains lexcmp dels e.1)) l.

Lemma contains_elem dels k : MojSet.contains lexcmp dels k = true <-> k ∈ dels.
Proof.
  rewrite MojSet.contains_spec. split.
  - intros (x & Hx & E). apply lexcmp_eq in E. by subst.
  - intros Hk. exists k. split; [done|apply (comp_refl lexcmp)].
Qed.

Lemma elem_of_live dels l e : e ∈ live dels l <-> e ∈ l /\ e.1 ∉ dels.
Proof.
  unfold live. rewrite <- contains_elem, !list_elem_of_In, List.filter_In.
  destruct (MojSet.contains _ _ _); simpl; split; intros [? ?]; split; done.
Qed.

Lemma filter_sorted (f : entry -> bool) l : sorted_entries l -> sorted_entries (List.filter f l).
Proof.
  induction l as [|x l IH]; [done|]. intros S. pose proof (sorted_lt _ _ S) as L. specialize (IH (sorted_tail _ _ S)).
  simpl. destruct (f x); [|done]. apply MojRbTreeBase.sorted_cons. split; [|done]. apply Forall_forall.
  intros y Hy. apply L. apply list_elem_of_In in Hy. apply list_elem_of_In. by apply List.filter_In in Hy as [? _].
Qed.

Lemma live_sorted dels l : sorted_entries l -> sorted_entries (live dels l).
Proof. apply filter_sorted. Qed.

(** [ins] written over [l]. *)
Definition overlay (ins l : entries) : entries := fold_left (fun m e => MojMap.put lexcmp m e.1 e.2) ins l.

Lemma elem_of_mput m k v e : sorted_entries m -> e ∈ MojMap.put lexcmp m k v <-> e = (k, v) \/ (e ∈ m /\ e.1 <> k).
Proof.
  intros S. unfold MojMap.put. rewrite (MojRbTreeBase.elem_of_put fst lexcmp (k, v) m e S). simpl.
  by rewrite lexcmp_eq.
Qed.

Lemma elem_of_mdel m k e : sorted_entries m -> e ∈ (MojMap.del lexcmp m k).1 <-> e ∈ m /\ e.1 <> k.
Proof. intros S. unfold MojMap.del. rewrite (MojRbTreeBase.elem_of_del fst lexcmp k m e S). by rewrite lexcmp_eq. Qed.

Lemma mput_sorted m k v : sorted_entries m -> sorted_entries (MojMap.put lexcmp m k v).
Proof. apply (MojMap.map_put_sorted lexcmp). Qed.
Lemma mdel_sorted m k : sorted_entries m -> sorted_entries (MojMap.del lexcmp m k).1.
Proof. apply (MojMap.map_del_sorted lexcmp). Qed.

Lemma overlay_spec ins l : sorted_entries ins -> sorted_entries l ->
  sorted_entries (overlay ins l) /\
  forall e, e ∈ overlay ins l <-> e ∈ ins \/ (e ∈ l /\ forall x, x ∈ ins -> x.1 <> e.1).
Proof.
  revert l. induction ins as [|[k v] ins IH]; intros l Si Sl; simpl; [split; [done|set_solver]|].
  destruct (IH (MojMap.put lexcmp l k v) (sorted_tail _ _ Si) (mput_sorted _ _ _ Sl)) as [S E]. split; [done|].
  pose proof (sorted_lt _ _ Si) as L. simpl in L. intros e. rewrite E, elem_of_mput, elem_of_cons by done. split.
  - intros [|[[->|[? ?]] Hx]]; [by left; right|by left; left|]. right. split; [done|].
    intros x [->|Hx2]%elem_of_cons; [done|by apply Hx].
  - intros [[->|]|[Hl Hx]]; [|by left|].
    + right. split; [by left|]. intros x Hx E2. specialize (L x Hx). simpl in E2.
      rewrite E2, (comp_refl lexcmp) in L. lia.
    + right. split; [right; split; [done|]|].
      * intros E2. apply (Hx (k, v)); [set_solver|done].
      * intros x Hx2. apply Hx. set_solver.
Qed.

Lemma get_elem m k v : sorted_entries m -> MojMap.get lexcmp m k = Some v <-> (k, v) ∈ m.
Proof.
  intros S. unfold MojMap.get. split.
  - destruct (MojRbTreeBase.find fst lexcmp k m) as [[k' v']|] eqn:F; [|done]. intros [= <-].
    apply MojRbTreeBase.find_Some in F as [Hm E]. simpl in E. apply lexcmp_eq in E. by subst.
  - intros Hm. rewrite (MojRbTreeBase.find_elem fst lexcmp k m (k, v)); [done..|apply (comp_refl lexcmp)].
Qed.

Lemma get_none m k : sorted_entries m -> MojMap.get lexcmp m k = None <-> forall v, (k, v) ∉ m.
Proof.
  intros S. destruct (MojMap.get lexcmp m k) as [v|] eqn:E.
  - apply get_elem in E; [|done]. split; [done|]. intros H. by destruct (H v).
  - split; [|done]. intros _ v Hv. apply get_elem in Hv; congruence.
Qed.

(** Sorted trees with the same nodes are the same. *)
Lemma records_ext {N K} (key : N -> K) (C : K -> K -> Z) `{!CompLaws C} (t1 t2 : list N) :
  MojRbTreeBase.sorted key C t1 -> MojRbTreeBase.sorted key C t2 -> (forall n, n ∈ t1 <-> n ∈ t2) -> t1 = t2.
Proof.
  revert t2. induction t1 as [|x t1 IH]; intros [|y t2] S1 S2 E; [done| | |].
  - pose proof (proj2 (E y)). set_solver.
  - pose proof (proj1 (E x)). set_solver.
  - apply MojRbTreeBase.sorted_cons in S1 as [L1 S1], S2 as [L2 S2]. rewrite Forall_forall in L1, L2.
    unfold MojRbTreeBase.node_lt in *.
    assert (x ∈ y :: t2) as X by (apply E; left). assert (y ∈ x :: t1) as Y by (apply E; left).
    assert (x = y) as <-.
    { apply elem_of_cons in X as [|X]; [done|]. apply elem_of_cons in Y as [|Y]; [done|].
      pose proof (L1 _ Y). pose proof (L2 _ X). pose proof (comp_anti C (key x) (key y)). lia. }
    f_equal. apply IH; [done..|]. intros e. specialize (E e). rewrite !elem_of_cons in E. split; intros He.
    + destruct (proj1 E (or_intror He)) as [->|]; [|done]. pose proof (L1 _ He). rewrite (comp_refl C) in *. lia.
    + destruct (proj2 E (or_intror He)) as [->|]; [|done]. pose proof (L2 _ He). rewrite (comp_refl C) in *. lia.
Qed.

Lemma entries_ext m1 m2 : sorted_entries m1 -> sorted_entries m2 -> (forall e, e ∈ m1 <-> e ∈ m2) -> m1 = m2.
Proof. apply (records_ext fst lexcmp). Qed.

(** The first entry after a cut, and the last before one, of an overlay. *)
Definition pick_after (x y : option entry) : option entry :=
  match x, y with
  | Some a, Some b => if lexcmp a.1 b.1 <? 0 then x else y
  | Some _, None => x
  | None, _ => y
  end.
Definition pick_before (x y : option entry) : option entry :=
  match x, y with
  | Some a, Some b => if 0 <? lexcmp a.1 b.1 then x else y
  | Some _, None => x
  | None, _ => y
  end.

Section overlay.
Context (ins l : entries) (Si : sorted_entries ins) (Sl : sorted_entries l).

Lemma overlay_elem e : e ∈ overlay ins l <-> e ∈ ins \/ (e ∈ l /\ forall x, x ∈ ins -> x.1 <> e.1).
Proof. apply overlay_spec; done. Qed.

Lemma overlay_sorted : sorted_entries (overlay ins l).
Proof. apply overlay_spec; done. Qed.

Lemma overlay_keys e : e ∈ overlay ins l -> exists x, x.1 = e.1 /\ (x ∈ ins \/ x ∈ l).
Proof. rewrite overlay_elem. intros [|[? _]]; exists e; auto. Qed.

Lemma overlay_above c e : is_after c l e -> (forall y, y ∈ ins -> below c y.1 = false -> lexcmp e.1 y.1 < 0) ->
  is_after c (overlay ins l) e.
Proof.
  intros (H1 & H2 & H3) Hy. split; [|split; [done|]].
  - apply overlay_elem. right. split; [done|]. intros x Hx E. specialize (Hy x Hx). rewrite E, (comp_refl lexcmp) in Hy.
    specialize (Hy H2). lia.
  - intros x Hx B. apply overlay_elem in Hx as [Hx|[Hx _]]; [specialize (Hy x Hx B); lia|by apply H3].
Qed.

Lemma overlay_above_ins c e : is_after c ins e -> (forall x, x ∈ l -> below c x.1 = false -> lexcmp e.1 x.1 <= 0) ->
  is_after c (overlay ins l) e.
Proof.
  intros (H1 & H2 & H3) Hx. split; [apply overlay_elem; by left|]. split; [done|].
  intros x Hi B. apply overlay_elem in Hi as [Hi|[Hi _]]; auto.
Qed.

Lemma after_overlay c : after c (overlay ins l) = pick_after (after c l) (after c ins).
Proof.
  pose proof (after_spec c l Sl) as A. pose proof (after_spec c ins Si) as B. pose proof overlay_sorted as S.
  destruct (after c l) as [x|], (after c ins) as [y|]; simpl.
  - destruct (Z.ltb_spec (lexcmp x.1 y.1) 0) as [L|L]; apply after_Some; [done| |done|].
    + apply overlay_above; [done|]. intros z Hz Bz. destruct B as (_ & _ & B).
      apply (comp_lt_le_trans lexcmp x.1 y.1); [done|by apply B].
    + apply overlay_above_ins; [done|]. intros z Hz Bz. destruct A as (_ & _ & A).
      apply (comp_trans lexcmp y.1 x.1); [pose proof (comp_anti lexcmp x.1 y.1); lia|by apply A].
  - apply after_Some; [done|]. apply overlay_above; [done|]. intros z Hz Bz. specialize (B z Hz). congruence.
  - apply after_Some; [done|]. apply overlay_above_ins; [done|]. intros z Hz Bz. specialize (A z Hz). congruence.
  - apply after_None; [done|]. intros z Hz. apply overlay_elem in Hz as [Hz|[Hz _]]; auto.
Qed.

Lemma before_overlay c : before c (overlay ins l) = pick_before (before c l) (before c ins).
Proof.
  pose proof (filter_last_spec c l Sl) as A. pose proof (filter_last_spec c ins Si) as B. pose proof overlay_sorted as S.
  destruct (before c l) as [x|], (before c ins) as [y|]; simpl.
  - destruct A as (A1 & A2 & A3), B as (B1 & B2 & B3).
    destruct (Z.ltb_spec 0 (lexcmp x.1 y.1)) as [L|L]; apply before_Some; try done.
    + split; [|split; [done|]].
      * apply overlay_elem. right. split; [done|]. intros z Hz E. specialize (B3 z Hz). rewrite E in B3. specialize (B3 A2). lia.
      * intros z Hz Bz. apply overlay_elem in Hz as [Hz|[Hz _]]; [|by apply A3].
        apply (comp_trans lexcmp z.1 y.1); [by apply B3|]. pose proof (comp_anti lexcmp x.1 y.1). lia.
    + split; [apply overlay_elem; by left|]. split; [done|].
      intros z Hz Bz. apply overlay_elem in Hz as [Hz|[Hz _]]; [by apply B3|].
      apply (comp_trans lexcmp z.1 x.1); [by apply A3|done].
  - destruct A as (A1 & A2 & A3). apply before_Some; [done|]. split; [|split; [done|]].
    + apply overlay_elem. right. split; [done|]. intros z Hz E. specialize (B z Hz). rewrite E in B. congruence.
    + intros z Hz Bz. apply overlay_elem in Hz as [Hz|[Hz _]]; [specialize (B z Hz); congruence|by apply A3].
  - destruct B as (B1 & B2 & B3). apply before_Some; [done|]. split; [apply overlay_elem; by left|]. split; [done|].
    intros z Hz Bz. apply overlay_elem in Hz as [Hz|[Hz _]]; [by apply B3|specialize (A z Hz); congruence].
  - apply before_None; [done|]. intros z Hz. apply overlay_elem in Hz as [Hz|[Hz _]]; auto.
Qed.
End overlay.
