(* ===== verification/LevelDb.v ===== *)
(** * The LevelDB engine: src/src/engine/leveldb

    A transaction keeps its writes in a map and a set beside the database and
    shows them to its own readers: [MojDbLevelTableTxn] overlays single reads,
    [MojDbLevelTxnIterator] merges an iterator of the database with one of the
    pending map, and [MojDbLevelCursor] is what queries and indexes use.

    LevelDB itself is not part of the repository: [LevelDB] has one operation for
    each call, [LevelDBLaws] its documented behaviour. *)

From S2P Require Import Prelude Containers OrderedMap.

Inductive BatchOp := BatchPut (k v : bytes) | BatchDelete (k : bytes).

Class LevelDB := {
  DB : Type;
  Iter : Type;
  (* a status that is neither OK nor NotFound is an [Err] *)
  db_Get : DB -> bytes -> res (option bytes);
  db_Write : DB -> list BatchOp -> res DB;
  NewIterator : DB -> Iter;
  it_Valid : Iter -> bool;
  it_key : Iter -> bytes;
  it_value : Iter -> bytes;
  it_SeekToFirst : Iter -> Iter;
  it_SeekToLast : Iter -> Iter;
  it_Seek : Iter -> bytes -> Iter;
  it_Next : Iter -> Iter;
  it_Prev : Iter -> Iter
}.

Definition apply_op (m : entries) (op : BatchOp) : entries :=
  match op with
  | BatchPut k v => MojMap.put lexcmp m k v
  | BatchDelete k => (MojMap.del lexcmp m k).1
  end.

(** An iterator walks over the contents its database had when it was made. *)
Class LevelDBLaws `{LevelDB} := {
  db_view : DB -> entries;
  it_view : Iter -> entries;
  it_cur : Iter -> option entry;
  db_view_sorted : forall d, sorted_entries (db_view d);
  db_Get_view : forall d k, db_Get d k = Ok (MojMap.get lexcmp (db_view d) k);
  db_Write_view : forall d b d', db_Write d b = Ok d' -> db_view d' = fold_left apply_op b (db_view d);
  NewIterator_view : forall d, it_view (NewIterator d) = db_view d;
  it_view_sorted : forall it, sorted_entries (it_view it);
  it_Valid_cur : forall it, it_Valid it = match it_cur it with Some _ => true | None => false end;
  it_key_cur : forall it e, it_cur it = Some e -> it_key it = e.1 /\ it_value it = e.2;
  it_cur_view : forall it e, it_cur it = Some e -> e ∈ it_view it;
  it_SeekToFirst_cur : forall it, it_view (it_SeekToFirst it) = it_view it /\ it_cur (it_SeekToFirst it) = head (it_view it);
  it_SeekToLast_cur : forall it, it_view (it_SeekToLast it) = it_view it /\ it_cur (it_SeekToLast it) = last (it_view it);
  it_Seek_cur : forall it k, it_view (it_Seek it k) = it_view it /\ it_cur (it_Seek it k) = after (CutLt k) (it_view it);
  it_Next_cur : forall it e, it_cur it = Some e ->
    it_view (it_Next it) = it_view it /\ it_cur (it_Next it) = after (CutLe e.1) (it_view it);
  it_Prev_cur : forall it e, it_cur it = Some e ->
    it_view (it_Prev it) = it_view it /\ it_cur (it_Prev it) = before (CutLt e.1) (it_view it)
}.

(** ** [MojDbLevelIterator]: an iterator with places before and after the entries *)
Module MojDbLevelIterator.
Section ldb.
Context `{LevelDB}.

Record MojDbLevelIterator := {
  m_database : DB;
  m_it : Iter;
  savedKey : bytes;
  m_start : bool;
  m_end : bool
}.

Definition isBegin (i : MojDbLevelIterator) : bool := m_start i.
Definition isEnd (i : MojDbLevelIterator) : bool := m_end i.
Definition isValid (i : MojDbLevelIterator) : bool := negb (m_start i || m_end i).

Definition with_it (i : MojDbLevelIterator) (it : Iter) (start end_ : bool) : MojDbLevelIterator :=
  {| m_database := m_database i; m_it := it; savedKey := savedKey i; m_start := start; m_end := end_ |}.

Definition toBegin (i : MojDbLevelIterator) := with_it i (m_it i) true false.
Definition toEnd (i : MojDbLevelIterator) := with_it i (m_it i) false true.

Definition toFirst (i : MojDbLevelIterator) : MojDbLevelIterator :=
  let it := it_SeekToFirst (m_it i) in with_it i it false (negb (it_Valid it)).

Definition toLast (i : MojDbLevelIterator) : MojDbLevelIterator :=
  let it := it_SeekToLast (m_it i) in with_it i it (negb (it_Valid it)) false.

Definition seek (i : MojDbLevelIterator) (key : bytes) : MojDbLevelIterator :=
  let it := it_Seek (m_it i) key in with_it i it false (negb (it_Valid it)).

Definition make (database : DB) : MojDbLevelIterator :=
  toFirst {| m_database := database; m_it := NewIterator database; savedKey := []; m_start := false; m_end := false |}.

Definition incr (i : MojDbLevelIterator) : res MojDbLevelIterator :=
  if m_end i then Err AssertFailed
  else if m_start i then Ok (toFirst i)
  else if it_Valid (m_it i) then
    let it := it_Next (m_it i) in
    Ok (with_it i it (m_start i) (if it_Valid it then m_end i else true))
  else Ok (with_it i (m_it i) (m_start i) true).

Definition decr (i : MojDbLevelIterator) : res MojDbLevelIterator :=
  if m_start i then Err AssertFailed
  else if m_end i then Ok (toLast i)
  else if it_Valid (m_it i) then
    let it := it_Prev (m_it i) in
    Ok (with_it i it (if it_Valid it then m_start i else true) (m_end i))
  else Ok (with_it i (m_it i) true (m_end i)).

Definition save (i : MojDbLevelIterator) : MojDbLevelIterator :=
  {| m_database := m_database i; m_it := m_it i;
     savedKey := if it_Valid (m_it i) then it_key (m_it i) else []; m_start := m_start i; m_end := m_end i |}.

(** [database] is what [m_database] points to by now. *)
Definition restore (database : DB) (i : MojDbLevelIterator) : MojDbLevelIterator :=
  let i := {| m_database := database; m_it := NewIterator database; savedKey := savedKey i;
              m_start := m_start i; m_end := m_end i |} in
  match savedKey i with [] => i | key => seek i key end.
End ldb.
End MojDbLevelIterator.

(** ** [MojDbLevelContainerIterator]: the same for a [std::map]

    A map iterator stays on its element while others come and go: it is the
    element's key, [None] being [end()].  The container is an argument. *)
Module MojDbLevelContainerIterator.
Record MojDbLevelContainerIterator := { m_it : option bytes; m_start : bool }.

Definition key_of (e : option entry) : option bytes := match e with Some e => Some e.1 | None => None end.

Definition isBegin (i : MojDbLevelContainerIterator) : bool := m_start i.
Definition isEnd (i : MojDbLevelContainerIterator) : bool :=
  negb (isBegin i) && match m_it i with None => true | _ => false end.
Definition isValid (i : MojDbLevelContainerIterator) : bool := negb (isBegin i || isEnd i).

Section container.
Context (m_container : entries).

Definition toBegin (i : MojDbLevelContainerIterator) := {| m_it := m_it i; m_start := true |}.
Definition toEnd (i : MojDbLevelContainerIterator) := {| m_it := None; m_start := m_start i |}.
Definition toFirst : MojDbLevelContainerIterator := {| m_it := key_of (head m_container); m_start := false |}.

(** On an empty container [m_it] is left as it was. *)
Definition toLast (i : MojDbLevelContainerIterator) : MojDbLevelContainerIterator :=
  match last m_container with
  | Some e => {| m_it := Some e.1; m_start := false |}
  | None => {| m_it := m_it i; m_start := true |}
  end.

Definition incr (i : MojDbLevelContainerIterator) : res MojDbLevelContainerIterator :=
  if isEnd i then Err AssertFailed
  else if m_start i then Ok toFirst
  else match m_it i with
       | Some k => Ok {| m_it := key_of (after (CutLe k) m_container); m_start := false |}
       | None => Err AssertFailed
       end.

Definition decr (i : MojDbLevelContainerIterator) : res MojDbLevelContainerIterator :=
  if isBegin i then Err AssertFailed
  else if bool_decide (m_it i = key_of (head m_container)) then Ok (toBegin i)
  else Ok {| m_it := key_of (before (match m_it i with Some k => CutLt k | None => CutAll end) m_container);
             m_start := false |}.

Definition lower_bound (key : bytes) : MojDbLevelContainerIterator :=
  {| m_it := key_of (after (CutLt key) m_container); m_start := false |}.
End container.
End MojDbLevelContainerIterator.

(** ** [MojDbLevelTxnIterator] *)
Module MojDbLevelTxnIterator.
Import MojDbLevelIterator (MojDbLevelIterator).
Import MojDbLevelContainerIterator (MojDbLevelContainerIterator).

Section ldb.
Context `{LevelDB}.

Record MojDbLevelTxnIterator := {
  m_fwd : bool;
  m_invalid : bool;
  m_it : MojDbLevelIterator;
  m_insertsItertor : MojDbLevelContainerIterator
}.

Inductive Order := LT | EQ | GT.

Definition with_its (t : MojDbLevelTxnIterator) it ins : MojDbLevelTxnIterator :=
  {| m_fwd := m_fwd t; m_invalid := m_invalid t; m_it := it; m_insertsItertor := ins |}.
Definition with_flags (t : MojDbLevelTxnIterator) fwd invalid : MojDbLevelTxnIterator :=
  {| m_fwd := fwd; m_invalid := invalid; m_it := m_it t; m_insertsItertor := m_insertsItertor t |}.

(** The references to the pending values and deletes of the transaction. *)
Section txn.
Context (inserts : entries) (deletes : list bytes).

(** [m_it->key()] and [m_insertsItertor->first]: only where there is an entry. *)
Definition db_key (t : MojDbLevelTxnIterator) : bytes := it_key (MojDbLevelIterator.m_it (m_it t)).
Definition ins_key (t : MojDbLevelTxnIterator) : res bytes :=
  match MojDbLevelContainerIterator.m_it (m_insertsItertor t) with Some k => Ok k | None => Err AssertFailed end.
Definition ins_value (t : MojDbLevelTxnIterator) : res bytes :=
  let? k := ins_key t in
  match MojMap.get lexcmp inserts k with Some v => Ok v | None => Err AssertFailed end.

Definition compare (t : MojDbLevelTxnIterator) : res Order :=
  let xb := MojDbLevelIterator.isBegin (m_it t) in
  let xe := MojDbLevelIterator.isEnd (m_it t) in
  let yb := MojDbLevelContainerIterator.isBegin (m_insertsItertor t) in
  let ye := MojDbLevelContainerIterator.isEnd (m_insertsItertor t) in
  if (xb && yb) || (xe && ye) then Ok EQ
  else if xb || ye then Ok LT
  else if xe || yb then Ok GT
  else
    let? k := ins_key t in
    let r := lexcmp (db_key t) k in
    Ok (if r <? 0 then LT else if 0 <? r then GT else EQ).

Definition isDeleted (key : bytes) : bool := MojSet.contains lexcmp deletes key.

(** A deleted entry is skipped at most once, so the deletes bound the turns. *)
Fixpoint skip_loop (turns : nat) (fwd : bool) (it : MojDbLevelIterator) : res MojDbLevelIterator :=
  if negb (if fwd then MojDbLevelIterator.isEnd it else MojDbLevelIterator.isBegin it) &&
     isDeleted (it_key (MojDbLevelIterator.m_it it))
  then match turns with
       | O => Err AssertFailed
       | S turns' =>
           let? it := if fwd then MojDbLevelIterator.incr it else MojDbLevelIterator.decr it in
           skip_loop turns' fwd it
       end
  else Ok it.

Definition skipDeleted (t : MojDbLevelTxnIterator) : res MojDbLevelTxnIterator :=
  let? it := skip_loop (length deletes) (m_fwd t) (m_it t) in Ok (with_its t it (m_insertsItertor t)).

Definition inTransaction (t : MojDbLevelTxnIterator) : res bool :=
  let? o := compare t in
  Ok (match o with LT => negb (m_fwd t) | GT => m_fwd t | EQ => true end).

Definition getValue (t : MojDbLevelTxnIterator) : res bytes :=
  let? b := inTransaction t in
  if b : bool then ins_value t else Ok (it_value (MojDbLevelIterator.m_it (m_it t))).

Definition getKey (t : MojDbLevelTxnIterator) : res bytes :=
  let? b := inTransaction t in if b : bool then ins_key t else Ok (db_key t).

Definition keyStartsWith (t : MojDbLevelTxnIterator) (key : bytes) : res bool :=
  let? currentKey := getKey t in
  Ok ((length key <=? length currentKey)%nat && bool_decide (take (length key) currentKey = key)).

Definition isValid (t : MojDbLevelTxnIterator) : bool :=
  negb (m_invalid t) &&
  (MojDbLevelIterator.isValid (m_it t) || MojDbLevelContainerIterator.isValid (m_insertsItertor t)).
Definition isBegin (t : MojDbLevelTxnIterator) : bool :=
  MojDbLevelIterator.isBegin (m_it t) && MojDbLevelContainerIterator.isBegin (m_insertsItertor t).
Definition isEnd (t : MojDbLevelTxnIterator) : bool :=
  MojDbLevelIterator.isEnd (m_it t) && MojDbLevelContainerIterator.isEnd (m_insertsItertor t).

Definition first (t : MojDbLevelTxnIterator) : res MojDbLevelTxnIterator :=
  skipDeleted {| m_fwd := true; m_invalid := false; m_it := MojDbLevelIterator.toFirst (m_it t);
                 m_insertsItertor := MojDbLevelContainerIterator.toFirst inserts |}.

Definition last (t : MojDbLevelTxnIterator) : res MojDbLevelTxnIterator :=
  skipDeleted {| m_fwd := false; m_invalid := false; m_it := MojDbLevelIterator.toLast (m_it t);
                 m_insertsItertor := MojDbLevelContainerIterator.toLast inserts (m_insertsItertor t) |}.

Definition make (leveldb : DB) : res MojDbLevelTxnIterator :=
  first {| m_fwd := true; m_invalid := false; m_it := MojDbLevelIterator.make leveldb;
           m_insertsItertor := MojDbLevelContainerIterator.toFirst inserts |}.

Definition seek (t : MojDbLevelTxnIterator) (key : bytes) : res MojDbLevelTxnIterator :=
  let? t := skipDeleted {| m_fwd := true; m_invalid := false; m_it := MojDbLevelIterator.seek (m_it t) key;
                           m_insertsItertor := m_insertsItertor t |} in
  Ok (with_its t (m_it t) (MojDbLevelContainerIterator.lower_bound inserts key)).

(** [++m_it; skipDeleted()] and so on. *)
Definition incr_db (t : MojDbLevelTxnIterator) : res MojDbLevelTxnIterator :=
  let? it := MojDbLevelIterator.incr (m_it t) in skipDeleted (with_its t it (m_insertsItertor t)).
Definition decr_db (t : MojDbLevelTxnIterator) : res MojDbLevelTxnIterator :=
  let? it := MojDbLevelIterator.decr (m_it t) in skipDeleted (with_its t it (m_insertsItertor t)).
Definition incr_ins (t : MojDbLevelTxnIterator) : res MojDbLevelTxnIterator :=
  let? ins := MojDbLevelContainerIterator.incr inserts (m_insertsItertor t) in Ok (with_its t (m_it t) ins).
Definition decr_ins (t : MojDbLevelTxnIterator) : res MojDbLevelTxnIterator :=
  let? ins := MojDbLevelContainerIterator.decr inserts (m_insertsItertor t) in Ok (with_its t (m_it t) ins).

(** The end of [prev]: the direction is settled. *)
Definition prev_step (t : MojDbLevelTxnIterator) : res MojDbLevelTxnIterator :=
  if MojDbLevelContainerIterator.isBegin (m_insertsItertor t) then decr_db t
  else if MojDbLevelIterator.isBegin (m_it t) then decr_ins t
  else if MojDbLevelIterator.isEnd (m_it t) || MojDbLevelContainerIterator.isEnd (m_insertsItertor t)
  then Err AssertFailed
  else
    let? k := ins_key t in
    let r := lexcmp (db_key t) k in
    if 0 <? r then decr_db t
    else if r =? 0 then let? t := decr_ins t in decr_db t
    else decr_ins t.

(** A change of direction: [prev] calls itself, going backward by then, when the
    iterator that is ahead is not the one the current record comes from. *)
Definition turn_back (rec : MojDbLevelTxnIterator -> res MojDbLevelTxnIterator) (t : MojDbLevelTxnIterator)
    : res MojDbLevelTxnIterator :=
  let? currentKey := getKey t in
  let t := with_flags t false false in
  if MojDbLevelIterator.isEnd (m_it t) then decr_db t
  else if MojDbLevelContainerIterator.isEnd (m_insertsItertor t) then decr_ins t
  else let? k := getKey t in if lexcmp currentKey k <? 0 then rec t else Ok t.

Definition prev_with (rec : MojDbLevelTxnIterator -> res MojDbLevelTxnIterator) (t : MojDbLevelTxnIterator)
    : res MojDbLevelTxnIterator :=
  if isEnd t then last t
  else if m_fwd t then let? t := turn_back rec t in prev_step t
  else if m_invalid t then Ok (with_flags t (m_fwd t) false)
  else prev_step t.

(** The inner call finds the direction settled and does not call again. *)
Definition prev : MojDbLevelTxnIterator -> res MojDbLevelTxnIterator :=
  prev_with (prev_with (fun _ => Err AssertFailed)).

Definition next_step (t : MojDbLevelTxnIterator) : res MojDbLevelTxnIterator :=
  let t := with_flags t (m_fwd t) false in
  if MojDbLevelContainerIterator.isEnd (m_insertsItertor t) then incr_db t
  else if MojDbLevelIterator.isEnd (m_it t) then incr_ins t
  else if MojDbLevelIterator.isBegin (m_it t) || MojDbLevelContainerIterator.isBegin (m_insertsItertor t)
  then Err AssertFailed
  else
    let? k := ins_key t in
    let r := lexcmp (db_key t) k in
    if r <? 0 then incr_db t
    else if r =? 0 then let? t := incr_ins t in incr_db t
    else incr_ins t.

Definition turn_forward (rec : MojDbLevelTxnIterator -> res MojDbLevelTxnIterator) (t : MojDbLevelTxnIterator)
    : res MojDbLevelTxnIterator :=
  let? currentKey := getKey t in
  let t := with_flags t true false in
  if MojDbLevelIterator.isBegin (m_it t) then incr_db t
  else if MojDbLevelContainerIterator.isBegin (m_insertsItertor t) then incr_ins t
  else let? k := getKey t in if lexcmp k currentKey <? 0 then rec t else Ok t.

Definition next_with (rec : MojDbLevelTxnIterator -> res MojDbLevelTxnIterator) (t : MojDbLevelTxnIterator)
    : res MojDbLevelTxnIterator :=
  if isBegin t then first t
  else if negb (m_fwd t) then let? t := turn_forward rec t in next_step t
  else if m_invalid t then Ok (with_flags t (m_fwd t) false)
  else next_step t.

Definition next : MojDbLevelTxnIterator -> res MojDbLevelTxnIterator :=
  next_with (next_with (fun _ => Err AssertFailed)).

(** [notifyDelete], sent before the record is deleted. *)
Definition notifyDelete (key : bytes) (t : MojDbLevelTxnIterator) : res MojDbLevelTxnIterator :=
  if negb (MojDbLevelContainerIterator.isValid (m_insertsItertor t)) then Ok t
  else
    let? k := ins_key t in
    if negb (bool_decide (k = key)) then Ok t
    else
      let? t :=
        if m_fwd t then
          let? o := compare t in
          match o with
          | EQ => let? t := incr_db t in incr_ins t
          | _ => incr_ins t
          end
        else
          let? o := compare t in
          match o with
          | EQ => let? t := decr_db t in decr_ins t
          | _ => decr_ins t
          end in
      Ok (with_flags t (m_fwd t) true).

(** [notifyPut], sent after the record is put. *)
Definition notifyPut (key : bytes) (t : MojDbLevelTxnIterator) : res MojDbLevelTxnIterator :=
  let keyLtDb := if MojDbLevelIterator.isBegin (m_it t) then false
                 else if MojDbLevelIterator.isEnd (m_it t) then true else lexcmp key (db_key t) <? 0 in
  let keyEqDb := if MojDbLevelIterator.isBegin (m_it t) || MojDbLevelIterator.isEnd (m_it t) then false
                 else lexcmp key (db_key t) =? 0 in
  let? (keyLtTxn, keyEqTxn) :=
    if MojDbLevelContainerIterator.isBegin (m_insertsItertor t) then Ok (false, false)
    else if MojDbLevelContainerIterator.isEnd (m_insertsItertor t) then Ok (true, false)
    else let? k := ins_key t in Ok (lexcmp key k <? 0, lexcmp key k =? 0) in
  if m_fwd t then
    if keyLtDb || negb keyLtTxn then Ok t else decr_ins t
  else
    if keyLtTxn || keyEqTxn || (negb keyLtDb && negb keyEqDb) then Ok t else incr_ins t.
End txn.

Definition save (t : MojDbLevelTxnIterator) : MojDbLevelTxnIterator :=
  with_its t (MojDbLevelIterator.save (m_it t)) (m_insertsItertor t).
Definition restore (inserts : entries) (database : DB) (t : MojDbLevelTxnIterator) : MojDbLevelTxnIterator :=
  with_its t (MojDbLevelIterator.restore database (m_it t)) (MojDbLevelContainerIterator.toFirst inserts).
End ldb.
End MojDbLevelTxnIterator.

(** ** [MojDbLevelTableTxn]: the transaction of one database

    The iterators it has given out are part of it, by number: it tells them of
    every change. *)
Module MojDbLevelTableTxn.
Import MojDbLevelTxnIterator (MojDbLevelTxnIterator).

Section ldb.
Context `{LevelDB}.

Record MojDbLevelTableTxn := {
  m_pendingValues : entries;
  m_pendingDeletes : list bytes;
  m_iterators : list (nat * MojDbLevelTxnIterator)
}.

Definition begin : MojDbLevelTableTxn :=
  {| m_pendingValues := []; m_pendingDeletes := []; m_iterators := [] |}.

Definition with_iterators (t : MojDbLevelTableTxn) its : MojDbLevelTableTxn :=
  {| m_pendingValues := m_pendingValues t; m_pendingDeletes := m_pendingDeletes t; m_iterators := its |}.

Definition notify_all (f : MojDbLevelTxnIterator -> res MojDbLevelTxnIterator)
    (its : list (nat * MojDbLevelTxnIterator)) : res (list (nat * MojDbLevelTxnIterator)) :=
  res_fold (fun out i => let? it := f i.2 in Ok (out ++ [(i.1, it)])) [] its.

Definition Put (t : MojDbLevelTableTxn) (key val : bytes) : res MojDbLevelTableTxn :=
  let values := MojMap.put lexcmp (m_pendingValues t) key val in
  let deletes := (MojSet.del lexcmp (m_pendingDeletes t) key).1 in
  let? its := notify_all (MojDbLevelTxnIterator.notifyPut values key) (m_iterators t) in
  Ok {| m_pendingValues := values; m_pendingDeletes := deletes; m_iterators := its |}.

Definition Get (m_db : DB) (t : MojDbLevelTableTxn) (key : bytes) : res (option bytes) :=
  if MojSet.contains lexcmp (m_pendingDeletes t) key then Ok None
  else match MojMap.get lexcmp (m_pendingValues t) key with
       | Some val => Ok (Some val)
       | None => db_Get m_db key
       end.

Definition Delete (t : MojDbLevelTableTxn) (key : bytes) : res MojDbLevelTableTxn :=
  let? its := notify_all (MojDbLevelTxnIterator.notifyDelete (m_pendingValues t) (m_pendingDeletes t) key) (m_iterators t) in
  Ok {| m_pendingValues := (MojMap.del lexcmp (m_pendingValues t) key).1;
        m_pendingDeletes := MojSet.put lexcmp (m_pendingDeletes t) key; m_iterators := its |}.

(** [createIterator], under a number not in use. *)
Definition createIterator (m_db : DB) (t : MojDbLevelTableTxn) (h : nat) : res MojDbLevelTableTxn :=
  let? it := MojDbLevelTxnIterator.make (m_pendingValues t) (m_pendingDeletes t) m_db in
  Ok (with_iterators t ((h, it) :: m_iterators t)).

Definition detach (t : MojDbLevelTableTxn) (h : nat) : MojDbLevelTableTxn :=
  with_iterators t (List.filter (fun i => negb (Nat.eqb i.1 h)) (m_iterators t)).

Definition iterator (t : MojDbLevelTableTxn) (h : nat) : res MojDbLevelTxnIterator :=
  match List.find (fun i => Nat.eqb i.1 h) (m_iterators t) with Some i => Ok i.2 | None => Err AssertFailed end.

Definition set_iterator (t : MojDbLevelTableTxn) (h : nat) (it : MojDbLevelTxnIterator) : MojDbLevelTableTxn :=
  with_iterators t (map (fun i => if Nat.eqb i.1 h then (h, it) else i) (m_iterators t)).

(** The writes in one batch, deletes first; the transaction is empty afterwards
    in any case.  The iterators that were open are put back and no longer known
    to the transaction. *)
Definition writeBatch (t : MojDbLevelTableTxn) : list BatchOp :=
  map BatchDelete (m_pendingDeletes t) ++ map (fun e => BatchPut e.1 e.2) (m_pendingValues t).

Definition commitImpl (m_db : DB) (t : MojDbLevelTableTxn)
    : DB * MojDbLevelTableTxn * list (nat * MojDbLevelTxnIterator) * option MojErr :=
  let saved := map (fun i => (i.1, MojDbLevelTxnIterator.save i.2)) (m_iterators t) in
  let '(db, err) :=
    match writeBatch t with
    | [] => (m_db, None)
    | batch => match db_Write m_db batch with Ok db => (db, None) | Err e => (m_db, Some e) end
    end in
  (db, begin, map (fun i => (i.1, MojDbLevelTxnIterator.restore [] db i.2)) saved, err).
End ldb.
End MojDbLevelTableTxn.

(** ** [MojDbLevelCursor] *)
Module MojDbLevelCursor.
Import MojDbLevelTableTxn (MojDbLevelTableTxn).

Inductive LDB_FLAGS := e_First | e_Last | e_Next | e_Prev | e_Range | e_Set | e_TotalFlags.

Section ldb.
Context `{LevelDB}.

(** The quota accounting of the transaction: [MojDbStorageTxn::offsetQuota]. *)
Context {Q : Type} (offsetQuota : Q -> Z -> res Q).

(** What a cursor works on: the transaction of its table, the quota of the whole
    transaction, and the number of its iterator. *)
Record Txn := { m_ttxn : MojDbLevelTableTxn; m_quota : Q }.

Definition open (m_db : DB) (t : Txn) (h : nat) : res Txn :=
  let? ttxn := MojDbLevelTableTxn.createIterator m_db (m_ttxn t) h in
  let? it := MojDbLevelTableTxn.iterator ttxn h in
  let? it := MojDbLevelTxnIterator.first (MojDbLevelTableTxn.m_pendingValues ttxn)
               (MojDbLevelTableTxn.m_pendingDeletes ttxn) it in
  Ok {| m_ttxn := MojDbLevelTableTxn.set_iterator ttxn h it; m_quota := m_quota t |}.

Definition close (t : Txn) (h : nat) : Txn :=
  {| m_ttxn := MojDbLevelTableTxn.detach (m_ttxn t) h; m_quota := m_quota t |}.

(** A step of the iterator. *)
Definition move (f : entries -> list bytes -> MojDbLevelTxnIterator.MojDbLevelTxnIterator ->
                     res MojDbLevelTxnIterator.MojDbLevelTxnIterator) (t : Txn) (h : nat) : res Txn :=
  let? it := MojDbLevelTableTxn.iterator (m_ttxn t) h in
  let? it := f (MojDbLevelTableTxn.m_pendingValues (m_ttxn t)) (MojDbLevelTableTxn.m_pendingDeletes (m_ttxn t)) it in
  Ok {| m_ttxn := MojDbLevelTableTxn.set_iterator (m_ttxn t) h it; m_quota := m_quota t |}.

Definition valid (t : Txn) (h : nat) : res bool :=
  let? it := MojDbLevelTableTxn.iterator (m_ttxn t) h in Ok (MojDbLevelTxnIterator.isValid it).

Definition current (t : Txn) (h : nat) : res entry :=
  let? it := MojDbLevelTableTxn.iterator (m_ttxn t) h in
  let? k := MojDbLevelTxnIterator.getKey it in
  let? v := MojDbLevelTxnIterator.getValue (MojDbLevelTableTxn.m_pendingValues (m_ttxn t)) it in Ok (k, v).

Definition recSize (t : Txn) (h : nat) : res Z :=
  let? b := valid t h in
  if b : bool then let? e := current t h in Ok (Z.of_nat (length e.1) + Z.of_nat (length e.2)) else Ok 0.

Definition del (t : Txn) (h : nat) : res Txn :=
  let? it := MojDbLevelTableTxn.iterator (m_ttxn t) h in
  let? key := MojDbLevelTxnIterator.getKey it in
  let? delSize := recSize t h in
  let? ttxn := MojDbLevelTableTxn.Delete (m_ttxn t) key in
  let? q := offsetQuota (m_quota t) (- delSize) in
  Ok {| m_ttxn := ttxn; m_quota := q |}.

Definition startsWith (t : Txn) (h : nat) (key : bytes) : res bool :=
  let? b := valid t h in
  if b : bool then
    let? it := MojDbLevelTableTxn.iterator (m_ttxn t) h in MojDbLevelTxnIterator.keyStartsWith it key
  else Ok false.

(** The loops run once for each record; [fuel] bounds them. *)
Fixpoint delPrefix_loop (fuel : nat) (t : Txn) (h : nat) (searchKey : bytes) : res Txn :=
  let? b := startsWith t h searchKey in
  if b : bool then
    match fuel with
    | O => Err AssertFailed
    | S fuel' =>
        let? t := del t h in
        let? t := move MojDbLevelTxnIterator.next t h in
        delPrefix_loop fuel' t h searchKey
    end
  else Ok t.

Definition delPrefix (fuel : nat) (t : Txn) (h : nat) (prefix : bytes) : res Txn :=
  let? t := move (fun ins dels it => MojDbLevelTxnIterator.seek ins dels it prefix) t h in
  delPrefix_loop fuel t h prefix.

Fixpoint statsPrefix_loop (fuel : nat) (t : Txn) (h : nat) (searchKey : bytes) (count size : Z) : res (Txn * Z * Z) :=
  let? b := startsWith t h searchKey in
  if b : bool then
    match fuel with
    | O => Err AssertFailed
    | S fuel' =>
        let? rec := recSize t h in
        let? t := move MojDbLevelTxnIterator.next t h in
        statsPrefix_loop fuel' t h searchKey (count + 1) (size + rec)
    end
  else Ok (t, count, size).

Definition statsPrefix (fuel : nat) (t : Txn) (h : nat) (prefix : bytes) : res (Txn * Z * Z) :=
  let? t := move (fun ins dels it => MojDbLevelTxnIterator.seek ins dels it prefix) t h in
  statsPrefix_loop fuel t h prefix 0 0.

Definition stats (fuel : nat) (t : Txn) (h : nat) : res (Txn * Z * Z) := statsPrefix fuel t h [].

(** The key and the value are changed only when there is a record. *)
Definition get (t : Txn) (h : nat) (key val : bytes) (flags : LDB_FLAGS) : res (Txn * option entry) :=
  let? t :=
    match flags with
    | e_Set => move (fun ins dels it => MojDbLevelTxnIterator.seek ins dels it key) t h
    | e_Next => move MojDbLevelTxnIterator.next t h
    | e_Prev => move MojDbLevelTxnIterator.prev t h
    | e_First => move (fun ins dels it => MojDbLevelTxnIterator.first ins dels it) t h
    | e_Last => move (fun ins dels it => MojDbLevelTxnIterator.last ins dels it) t h
    | _ => Ok t
    end in
  let? b := valid t h in
  if b : bool then let? e := current t h in Ok (t, Some e) else Ok (t, None).
End ldb.
End MojDbLevelCursor.
