(* ===== verification/LevelDbSpec.v ===== *)
(** * What the LevelDB engine promises

    A transaction behaves as one ordered map: the database with the pending
    deletes taken out and the pending values written over it.  This file is about
    its iterators, which walk over that map in both directions. *)

From S2P Require Import Prelude Containers OrderedMap LevelDb.

Inductive Pos := PBegin | PAt (e : entry) | PEnd.

#[export] Instance pos_eq_dec : EqDecision Pos.
Proof. solve_decision. Defined.

Definition fwd_pos (c : Cut) (l : entries) : Pos := match after c l with Some e => PAt e | None => PEnd end.
Definition bwd_pos (c : Cut) (l : entries) : Pos := match before c l with Some e => PAt e | None => PBegin end.

(** The records a transaction shows. *)
Definition merged (ins : entries) (dels : list bytes) (V : entries) : entries := overlay ins (live dels V).

(** ** Moving cuts *)
Lemma after_skip c k l : sorted_entries l -> below c k = false ->
  (forall x, after c l = Some x -> lexcmp k x.1 < 0) -> after (CutLe k) l = after c l.
Proof.
  intros S B H. pose proof (after_spec c l S) as A. destruct (after c l) as [x|].
  - specialize (H x eq_refl). destruct A as (A1 & A2 & A3). apply after_Some; [done|]. split; [done|].
    split; [apply below_le_false; pose proof (comp_anti lexcmp k x.1); lia|].
    intros y Hy By%below_le_false. apply A3; [done|]. apply (not_below_up c k); [done|].
    pose proof (comp_anti lexcmp k y.1); lia.
  - apply after_None; [done|]. intros x Hx. apply below_le. specialize (A x Hx).
    destruct (Z.le_gt_cases (lexcmp x.1 k) 0); [done|]. rewrite (not_below_up c k x.1) in A; [done|done|].
    pose proof (comp_anti lexcmp k x.1); lia.
Qed.

Lemma before_skip c k l : sorted_entries l -> below c k = true ->
  (forall x, before c l = Some x -> lexcmp x.1 k < 0) -> before (CutLt k) l = before c l.
Proof.
  intros S B H. pose proof (filter_last_spec c l S) as A. destruct (before c l) as [x|].
  - specialize (H x eq_refl). destruct A as (A1 & A2 & A3). apply before_Some; [done|]. split; [done|].
    split; [by apply below_lt|]. intros y Hy By%below_lt. apply A3; [done|]. apply (below_down c y.1 k); [done|lia].
  - apply before_None; [done|]. intros x Hx. apply below_lt_false. specialize (A x Hx).
    destruct (Z.le_gt_cases 0 (lexcmp x.1 k)); [done|]. rewrite (below_down c x.1 k) in A; [done|done|lia].
Qed.

(** The first entry after [c] is the first one not before it. *)
Lemma after_here c e l : sorted_entries l -> after c l = Some e -> after (CutLt e.1) l = Some e.
Proof.
  intros S (H1 & H2 & H3)%after_Some; [|done]. apply after_Some; [done|]. split; [done|].
  split; [apply below_lt_false; by rewrite (comp_refl lexcmp)|]. intros x Hx B%below_lt_false.
  pose proof (comp_anti lexcmp e.1 x.1). lia.
Qed.

Lemma before_here c e l : sorted_entries l -> before c l = Some e -> before (CutLe e.1) l = Some e.
Proof.
  intros S (H1 & H2 & H3)%before_Some; [|done]. apply before_Some; [done|]. split; [done|].
  split; [apply below_le; by rewrite (comp_refl lexcmp)|]. by intros x Hx B%below_le.
Qed.

(** Turning round at a key that [c] is behind, or in front of. *)
Lemma turn_after c k l : sorted_entries l -> below c k = true ->
  (forall x, before c l = Some x -> lexcmp x.1 k < 0) -> after (CutLt k) l = after c l.
Proof.
  intros S B H. apply after_cong. intros x Hx. pose proof (filter_last_spec c l S) as A. apply eq_bool_prop_intro.
  rewrite !Is_true_true, below_lt. split; intros L.
  - apply (below_down c x.1 k); [done|lia].
  - destruct (before c l) as [y|]; [|by rewrite A in L].
    destruct A as (_ & _ & A). specialize (A x Hx L). apply (comp_le_lt_trans lexcmp _ y.1); [done|by apply H].
Qed.

Lemma turn_before c k l : sorted_entries l -> below c k = false ->
  (forall x, after c l = Some x -> lexcmp k x.1 < 0) -> before (CutLe k) l = before c l.
Proof.
  intros S B H. apply before_cong. intros x Hx. pose proof (after_spec c l S) as A.
  apply eq_bool_prop_intro. rewrite !Is_true_true, below_le. split; intros L.
  - destruct (below c x.1) eqn:E; [done|]. destruct (after c l) as [y|]; [|by rewrite A in E].
    destruct A as (_ & _ & A). specialize (A x Hx E). specialize (H y eq_refl).
    pose proof (comp_lt_le_trans lexcmp k y.1 x.1 H A). pose proof (comp_anti lexcmp k x.1). lia.
  - destruct (Z.le_gt_cases (lexcmp x.1 k) 0); [done|]. rewrite (not_below_up c k x.1) in L; [done|done|].
    pose proof (comp_anti lexcmp k x.1); lia.
Qed.

(** Deleted keys can be passed over. *)
Lemma after_live_skip dels c e l : sorted_entries l -> after c l = Some e -> e.1 ∈ dels ->
  after c (live dels l) = after (CutLe e.1) (live dels l).
Proof.
  intros S (H1 & H2 & H3)%after_Some D; [|done]. symmetry. apply after_skip; [by apply live_sorted|done|].
  intros x ((Hx & N)%elem_of_live & B & _)%after_Some; [|by apply live_sorted]. specialize (H3 x Hx B).
  destruct (Z.eq_dec (lexcmp e.1 x.1) 0) as [E|]; [|lia]. apply lexcmp_eq in E. congruence.
Qed.

Lemma before_live_skip dels c e l : sorted_entries l -> before c l = Some e -> e.1 ∈ dels ->
  before c (live dels l) = before (CutLt e.1) (live dels l).
Proof.
  intros S (H1 & H2 & H3)%before_Some D; [|done]. symmetry. apply before_skip; [by apply live_sorted|done|].
  intros x ((Hx & N)%elem_of_live & B & _)%before_Some; [|by apply live_sorted]. specialize (H3 x Hx B).
  destruct (Z.eq_dec (lexcmp x.1 e.1) 0) as [E|]; [|lia]. apply lexcmp_eq in E. congruence.
Qed.

Lemma after_live_keep dels c e l : sorted_entries l -> after c l = Some e -> e.1 ∉ dels ->
  after c (live dels l) = Some e.
Proof.
  intros S (H1 & H2 & H3)%after_Some D; [|done]. apply after_Some; [by apply live_sorted|].
  split; [by apply elem_of_live|]. split; [done|]. intros x [Hx _]%elem_of_live. auto.
Qed.

Lemma before_live_keep dels c e l : sorted_entries l -> before c l = Some e -> e.1 ∉ dels ->
  before c (live dels l) = Some e.
Proof.
  intros S (H1 & H2 & H3)%before_Some D; [|done]. apply before_Some; [by apply live_sorted|].
  split; [by apply elem_of_live|]. split; [done|]. intros x [Hx _]%elem_of_live. auto.
Qed.

Lemma after_live_none dels c l : sorted_entries l -> after c l = None -> after c (live dels l) = None.
Proof.
  intros S H. apply after_None; [by apply live_sorted|]. intros x [Hx _]%elem_of_live.
  by apply (proj1 (after_None c l S) H).
Qed.
Lemma before_live_none dels c l : sorted_entries l -> before c l = None -> before c (live dels l) = None.
Proof.
  intros S H. apply before_None; [by apply live_sorted|]. intros x [Hx _]%elem_of_live.
  by apply (proj1 (before_None c l S) H).
Qed.

(** ** The two iterators *)
Section iterators.
Context `{LevelDBLaws}.
Import MojDbLevelIterator (MojDbLevelIterator).
Import MojDbLevelContainerIterator (MojDbLevelContainerIterator).
Import MojDbLevelTxnIterator (MojDbLevelTxnIterator).

(** A database iterator over [V] at a position. *)
Definition dbat (V : entries) (p : Pos) (i : MojDbLevelIterator) : Prop :=
  it_view (MojDbLevelIterator.m_it i) = V /\
  MojDbLevelIterator.m_start i = match p with PBegin => true | _ => false end /\
  MojDbLevelIterator.m_end i = match p with PEnd => true | _ => false end /\
  match p with PAt e => it_cur (MojDbLevelIterator.m_it i) = Some e | _ => True end.

Definition insat (ins : entries) (q : Pos) (i : MojDbLevelContainerIterator) : Prop :=
  match q with
  | PBegin => MojDbLevelContainerIterator.m_start i = true
  | PAt e => i = {| MojDbLevelContainerIterator.m_it := Some e.1; MojDbLevelContainerIterator.m_start := false |} /\ e ∈ ins
  | PEnd => i = {| MojDbLevelContainerIterator.m_it := None; MojDbLevelContainerIterator.m_start := false |}
  end.

Definition is_end (p : Pos) : bool := match p with PEnd => true | _ => false end.
Definition is_begin (p : Pos) : bool := match p with PBegin => true | _ => false end.
Definition is_at (p : Pos) : bool := match p with PAt _ => true | _ => false end.

Lemma dbat_tests V p i : dbat V p i ->
  MojDbLevelIterator.isEnd i = is_end p /\ MojDbLevelIterator.isBegin i = is_begin p /\
  MojDbLevelIterator.isValid i = is_at p.
Proof.
  intros (_ & Hs & He & _). unfold MojDbLevelIterator.isEnd, MojDbLevelIterator.isBegin, MojDbLevelIterator.isValid.
  rewrite Hs, He. by destruct p.
Qed.

Lemma insat_tests ins q i : insat ins q i ->
  MojDbLevelContainerIterator.isEnd i = is_end q /\ MojDbLevelContainerIterator.isBegin i = is_begin q /\
  MojDbLevelContainerIterator.isValid i = is_at q.
Proof.
  unfold insat, MojDbLevelContainerIterator.isValid, MojDbLevelContainerIterator.isEnd, MojDbLevelContainerIterator.isBegin.
  destruct q; [intros ->|intros [-> _]|intros ->]; done.
Qed.

Lemma dbat_key V e i : dbat V (PAt e) i ->
  it_key (MojDbLevelIterator.m_it i) = e.1 /\ it_value (MojDbLevelIterator.m_it i) = e.2 /\ e ∈ V.
Proof.
  intros (<- & _ & _ & C). destruct (it_key_cur _ _ C). split; [done|]. split; [done|]. by apply it_cur_view.
Qed.

(** A move that leaves the iterator at [o], or off the end it moved to. *)
Lemma dbat_fwd V i it o end_ : it_view it = V -> it_cur it = o -> end_ = negb (it_Valid it) ->
  dbat V (match o with Some e => PAt e | None => PEnd end) (MojDbLevelIterator.with_it i it false end_).
Proof. intros <- <- ->. unfold dbat. rewrite it_Valid_cur. by destruct (it_cur it) eqn:E. Qed.

Lemma dbat_bwd V i it o start : it_view it = V -> it_cur it = o -> start = negb (it_Valid it) ->
  dbat V (match o with Some e => PAt e | None => PBegin end) (MojDbLevelIterator.with_it i it start false).
Proof. intros <- <- ->. unfold dbat. rewrite it_Valid_cur. by destruct (it_cur it) eqn:E. Qed.

Lemma db_toFirst V i : it_view (MojDbLevelIterator.m_it i) = V ->
  dbat V (fwd_pos (CutLt []) V) (MojDbLevelIterator.toFirst i).
Proof.
  intros E. destruct (it_SeekToFirst_cur (MojDbLevelIterator.m_it i)) as [A B]. unfold fwd_pos.
  rewrite after_first. rewrite E in *. by apply dbat_fwd.
Qed.

Lemma db_toLast V i : it_view (MojDbLevelIterator.m_it i) = V ->
  dbat V (bwd_pos CutAll V) (MojDbLevelIterator.toLast i).
Proof.
  intros E. destruct (it_SeekToLast_cur (MojDbLevelIterator.m_it i)) as [A B]. unfold bwd_pos.
  rewrite before_last. rewrite E in *. by apply dbat_bwd.
Qed.

Lemma db_seek V i k : it_view (MojDbLevelIterator.m_it i) = V ->
  dbat V (fwd_pos (CutLt k) V) (MojDbLevelIterator.seek i k).
Proof.
  intros E. destruct (it_Seek_cur (MojDbLevelIterator.m_it i) k) as [A B]. unfold fwd_pos.
  rewrite E in *. by apply dbat_fwd.
Qed.

(** The cut just past a position, on either side. *)
Definition past (p : Pos) : Cut := match p with PAt e => CutLe e.1 | _ => CutLt [] end.
Definition upto (p : Pos) : Cut := match p with PAt e => CutLt e.1 | _ => CutAll end.

Lemma db_incr V p i : dbat V p i -> p <> PEnd ->
  exists i', MojDbLevelIterator.incr i = Ok i' /\ dbat V (fwd_pos (past p) V) i'.
Proof.
  intros D N. pose proof D as (Hv & Hs & He & C). unfold MojDbLevelIterator.incr. rewrite Hs, He.
  destruct p as [|e|]; simpl; [| |done].
  - eexists. split; [done|]. by apply db_toFirst.
  - destruct (it_Next_cur _ _ C) as [A B]. rewrite it_Valid_cur, C. eexists. split; [done|].
    unfold fwd_pos. rewrite <- Hv. apply dbat_fwd; [done..|]. by destruct (it_Valid _).
Qed.

Lemma db_decr V p i : dbat V p i -> p <> PBegin ->
  exists i', MojDbLevelIterator.decr i = Ok i' /\ dbat V (bwd_pos (upto p) V) i'.
Proof.
  intros D N. pose proof D as (Hv & Hs & He & C). unfold MojDbLevelIterator.decr. rewrite Hs, He.
  destruct p as [|e|]; simpl; [done| |].
  - destruct (it_Prev_cur _ _ C) as [A B]. rewrite it_Valid_cur, C. eexists. split; [done|].
    unfold bwd_pos. rewrite <- Hv. apply dbat_bwd; [done..|]. by destruct (it_Valid _).
  - eexists. split; [done|]. by apply db_toLast.
Qed.

Lemma insat_key_of ins c : sorted_entries ins ->
  insat ins (fwd_pos c ins) {| MojDbLevelContainerIterator.m_it := MojDbLevelContainerIterator.key_of (after c ins);
                               MojDbLevelContainerIterator.m_start := false |}.
Proof.
  intros S. unfold fwd_pos. pose proof (after_spec c ins S) as A. destruct (after c ins); simpl; [|done].
  by destruct A.
Qed.

Lemma ins_toFirst ins : sorted_entries ins -> insat ins (fwd_pos (CutLt []) ins) (MojDbLevelContainerIterator.toFirst ins).
Proof. intros S. unfold MojDbLevelContainerIterator.toFirst. rewrite <- after_first. by apply insat_key_of. Qed.

Lemma ins_toLast ins i : sorted_entries ins -> insat ins (bwd_pos CutAll ins) (MojDbLevelContainerIterator.toLast ins i).
Proof.
  intros S. unfold MojDbLevelContainerIterator.toLast, bwd_pos. rewrite before_last.
  destruct (last ins) as [e|] eqn:E; simpl; [|done]. split; [done|]. by apply last_Some_elem_of.
Qed.

Lemma ins_incr ins q i : sorted_entries ins -> insat ins q i -> q <> PEnd ->
  exists i', MojDbLevelContainerIterator.incr ins i = Ok i' /\ insat ins (fwd_pos (past q) ins) i'.
Proof.
  intros S I N. unfold MojDbLevelContainerIterator.incr. destruct (insat_tests _ _ _ I) as (-> & _ & _).
  destruct q as [|e|]; simpl in *; [| |done].
  - rewrite I. eexists. split; [done|]. by apply ins_toFirst.
  - destruct I as [-> I]. eexists. split; [done|]. by apply insat_key_of.
Qed.

Lemma head_before l e : sorted_entries l -> e ∈ l ->
  bool_decide (Some e.1 = MojDbLevelContainerIterator.key_of (head l)) =
  match before (CutLt e.1) l with Some _ => false | None => true end.
Proof.
  intros S He. destruct l as [|x l]; [set_solver|]. simpl. pose proof (sorted_lt _ _ S) as L.
  pose proof (filter_last_spec (CutLt e.1) (x :: l) S) as B. apply elem_of_cons in He as [->|He].
  - rewrite bool_decide_true by done. destruct (before _ _) as [y|]; [|done]. destruct B as (B1 & B2%below_lt & _).
    apply elem_of_cons in B1 as [->|B1]; [rewrite (comp_refl lexcmp) in B2; lia|].
    specialize (L y B1). pose proof (comp_anti lexcmp x.1 y.1). lia.
  - specialize (L e He). rewrite bool_decide_false; [|intros [= E]; rewrite E, (comp_refl lexcmp) in L; lia].
    destruct (before _ _); [done|]. specialize (B x (list_elem_of_here _ _)). apply below_lt_false in B. lia.
Qed.

Lemma ins_decr ins q i : sorted_entries ins -> insat ins q i -> q <> PBegin ->
  exists i', MojDbLevelContainerIterator.decr ins i = Ok i' /\ insat ins (bwd_pos (upto q) ins) i'.
Proof.
  intros S I N. unfold MojDbLevelContainerIterator.decr. destruct (insat_tests _ _ _ I) as (_ & -> & _).
  destruct q as [|e|]; simpl in *; [done| |].
  - destruct I as [-> I]. simpl. rewrite head_before by done. unfold bwd_pos.
    pose proof (filter_last_spec (CutLt e.1) ins S) as A. destruct (before _ _) as [x|]; eexists; (split; [done|]); simpl; [|done].
    by destruct A.
  - subst i. destruct ins as [|x ins]; [eexists; split; [done|]; done|]. rewrite bool_decide_false by done.
    eexists. split; [done|]. unfold bwd_pos. simpl MojDbLevelContainerIterator.m_it. cbn match. rewrite before_last.
    destruct (last _) as [y|] eqn:E; [|by apply last_None in E]. split; [done|]. by apply last_Some_elem_of.
Qed.
End iterators.

Lemma filter_length_lt {A} (f g : A -> bool) l x : (forall y, f y = true -> g y = true) ->
  x ∈ l -> f x = false -> g x = true -> (length (List.filter f l) < length (List.filter g l))%nat.
Proof.
  intros I Hx Fx Gx.
  assert (forall l, length (List.filter f l) <= length (List.filter g l))%nat as Le.
  { intros l'. induction l' as [|y l' IH]; simpl; [lia|]. pose proof (I y).
    destruct (f y), (g y); simpl; intuition (try discriminate; lia). }
  induction l as [|y l IH]; [by apply not_elem_of_nil in Hx|]. apply elem_of_cons in Hx as [<-|Hx]; simpl.
  - rewrite Fx, Gx. simpl. specialize (Le l). lia.
  - specialize (IH Hx). pose proof (I y). destruct (f y), (g y); simpl; intuition (try discriminate; lia).
Qed.

(** ** The merged walk *)

(** The four parts of a state, without looking into them. *)
Ltac at_split := split; [assumption|split; [assumption|split; first [assumption|reflexivity]]].

Section walk.
Context `{LevelDBLaws} (V ins : entries) (dels : list bytes).
Context (SV : sorted_entries V) (Si : sorted_entries ins).
Import MojDbLevelIterator (MojDbLevelIterator).
Import MojDbLevelContainerIterator (MojDbLevelContainerIterator).
Import MojDbLevelTxnIterator (MojDbLevelTxnIterator).
Abbreviation L := (live dels V).
Abbreviation M := (merged ins dels V).

Let SL : sorted_entries L := live_sorted dels V SV.

Lemma isDeleted_spec k : MojDbLevelTxnIterator.isDeleted dels k = bool_decide (k ∈ dels).
Proof.
  unfold MojDbLevelTxnIterator.isDeleted. case_bool_decide as E; [by apply contains_elem|].
  apply not_true_iff_false. by rewrite contains_elem.
Qed.

Lemma skip_fwd n c i : dbat V (fwd_pos c V) i -> (length (List.filter (fun k => negb (below c k)) dels) <= n)%nat ->
  exists i', MojDbLevelTxnIterator.skip_loop dels n true i = Ok i' /\ dbat V (fwd_pos c L) i'.
Proof.
  revert c i. induction n as [|n IH]; intros c i D Le; unfold fwd_pos in *; simpl;
    destruct (dbat_tests _ _ _ D) as (-> & _ & _); pose proof (after_spec c V SV) as A;
    destruct (after c V) as [e|] eqn:E; simpl in *; try (exists i; by rewrite (after_live_none dels c V SV E));
    destruct (dbat_key _ _ _ D) as (-> & _ & _); rewrite isDeleted_spec; case_bool_decide as X;
    try (exists i; by rewrite (after_live_keep dels c e V SV E X)).
  - destruct A as (_ & B & _). exfalso. assert (e.1 ∈ List.filter (fun k => negb (below c k)) dels) as Y.
    { apply list_elem_of_In, List.filter_In. rewrite B. split; [by apply list_elem_of_In|done]. }
    destruct (List.filter _ _); [by apply not_elem_of_nil in Y|simpl in Le; lia].
  - destruct (db_incr _ _ _ D) as (i' & -> & D'); [done|]. simpl. rewrite (after_live_skip dels c e V SV E X).
    apply IH; [exact D'|]. destruct A as (_ & B & _).
    enough (length (List.filter (fun k => negb (below (CutLe e.1) k)) dels) <
            length (List.filter (fun k => negb (below c k)) dels))%nat by lia.
    apply (filter_length_lt _ _ dels e.1); [|done|by simpl; rewrite (comp_refl lexcmp)|by rewrite B].
    intros y Hy%negb_true_iff. rewrite (not_below_up c e.1 y B); [done|]. apply below_le_false in Hy.
    pose proof (comp_anti lexcmp e.1 y); lia.
Qed.

Lemma skip_bwd n c i : dbat V (bwd_pos c V) i -> (length (List.filter (fun k => below c k) dels) <= n)%nat ->
  exists i', MojDbLevelTxnIterator.skip_loop dels n false i = Ok i' /\ dbat V (bwd_pos c L) i'.
Proof.
  revert c i. induction n as [|n IH]; intros c i D Le; unfold bwd_pos in *; simpl;
    destruct (dbat_tests _ _ _ D) as (_ & -> & _); pose proof (filter_last_spec c V SV) as A;
    destruct (before c V) as [e|] eqn:E; simpl in *; try (exists i; by rewrite (before_live_none dels c V SV E));
    destruct (dbat_key _ _ _ D) as (-> & _ & _); rewrite isDeleted_spec; case_bool_decide as X;
    try (exists i; by rewrite (before_live_keep dels c e V SV E X)).
  - destruct A as (_ & B & _). exfalso. assert (e.1 ∈ List.filter (fun k => below c k) dels) as Y.
    { apply list_elem_of_In, List.filter_In. rewrite B. split; [by apply list_elem_of_In|done]. }
    destruct (List.filter _ _); [by apply not_elem_of_nil in Y|simpl in Le; lia].
  - destruct (db_decr _ _ _ D) as (i' & -> & D'); [done|]. simpl. rewrite (before_live_skip dels c e V SV E X).
    apply IH; [exact D'|]. destruct A as (_ & B & _).
    enough (length (List.filter (fun k => below (CutLt e.1) k) dels) <
            length (List.filter (fun k => below c k) dels))%nat by lia.
    apply (filter_length_lt _ _ dels e.1); [|done|by simpl; rewrite (comp_refl lexcmp)|done].
    intros y Hy%below_lt. apply (below_down c y e.1 B). lia.
Qed.

(** The two iterators at positions, the direction and the flag. *)
Definition at_ (p q : Pos) (fwd invalid : bool) (t : MojDbLevelTxnIterator) : Prop :=
  dbat V p (MojDbLevelTxnIterator.m_it t) /\ insat ins q (MojDbLevelTxnIterator.m_insertsItertor t) /\
  MojDbLevelTxnIterator.m_fwd t = fwd /\ MojDbLevelTxnIterator.m_invalid t = invalid.

Lemma at_flags p q fwd invalid t fwd' invalid' : at_ p q fwd invalid t ->
  at_ p q fwd' invalid' (MojDbLevelTxnIterator.with_flags t fwd' invalid').
Proof. intros (? & ? & _ & _). at_split. Qed.

Lemma skipDeleted_fwd c q invalid t : at_ (fwd_pos c V) q true invalid t ->
  exists t', MojDbLevelTxnIterator.skipDeleted dels t = Ok t' /\ at_ (fwd_pos c L) q true invalid t'.
Proof.
  intros (D & I & F & G). unfold MojDbLevelTxnIterator.skipDeleted. rewrite F.
  destruct (skip_fwd (length dels) c _ D) as (i & -> & D'); [apply List.filter_length_le|].
  eexists. split; [done|]. at_split.
Qed.

Lemma skipDeleted_bwd c q invalid t : at_ (bwd_pos c V) q false invalid t ->
  exists t', MojDbLevelTxnIterator.skipDeleted dels t = Ok t' /\ at_ (bwd_pos c L) q false invalid t'.
Proof.
  intros (D & I & F & G). unfold MojDbLevelTxnIterator.skipDeleted. rewrite F.
  destruct (skip_bwd (length dels) c _ D) as (i & -> & D'); [apply List.filter_length_le|].
  eexists. split; [done|]. at_split.
Qed.

Lemma incr_db_at p q invalid t : at_ p q true invalid t -> p <> PEnd ->
  exists t', MojDbLevelTxnIterator.incr_db dels t = Ok t' /\ at_ (fwd_pos (past p) L) q true invalid t'.
Proof.
  intros (D & I & F & G) N. unfold MojDbLevelTxnIterator.incr_db.
  destruct (db_incr _ _ _ D N) as (i & -> & D'). apply skipDeleted_fwd. at_split.
Qed.

Lemma decr_db_at p q invalid t : at_ p q false invalid t -> p <> PBegin ->
  exists t', MojDbLevelTxnIterator.decr_db dels t = Ok t' /\ at_ (bwd_pos (upto p) L) q false invalid t'.
Proof.
  intros (D & I & F & G) N. unfold MojDbLevelTxnIterator.decr_db.
  destruct (db_decr _ _ _ D N) as (i & -> & D'). apply skipDeleted_bwd. at_split.
Qed.

Lemma incr_ins_at p q fwd invalid t : at_ p q fwd invalid t -> q <> PEnd ->
  exists t', MojDbLevelTxnIterator.incr_ins ins t = Ok t' /\ at_ p (fwd_pos (past q) ins) fwd invalid t'.
Proof.
  intros (D & I & F & G) N. unfold MojDbLevelTxnIterator.incr_ins.
  destruct (ins_incr _ _ _ Si I N) as (i & -> & I'). eexists. split; [done|]. at_split.
Qed.

Lemma decr_ins_at p q fwd invalid t : at_ p q fwd invalid t -> q <> PBegin ->
  exists t', MojDbLevelTxnIterator.decr_ins ins t = Ok t' /\ at_ p (bwd_pos (upto q) ins) fwd invalid t'.
Proof.
  intros (D & I & F & G) N. unfold MojDbLevelTxnIterator.decr_ins.
  destruct (ins_decr _ _ _ Si I N) as (i & -> & I'). eexists. split; [done|]. at_split.
Qed.

(** ** The current record *)
Definition pos_opt (p : Pos) : option entry := match p with PAt e => Some e | _ => None end.

Lemma pos_opt_fwd c l : pos_opt (fwd_pos c l) = after c l.
Proof. unfold fwd_pos. by destruct (after c l). Qed.
Lemma pos_opt_bwd c l : pos_opt (bwd_pos c l) = before c l.
Proof. unfold bwd_pos. by destruct (before c l). Qed.
Lemma is_begin_fwd c l : is_begin (fwd_pos c l) = false.
Proof. unfold fwd_pos. by destruct (after c l). Qed.
Lemma is_end_bwd c l : is_end (bwd_pos c l) = false.
Proof. unfold bwd_pos. by destruct (before c l). Qed.

Lemma ins_at_record p q fwd invalid t e : at_ p q fwd invalid t -> q = PAt e ->
  MojDbLevelTxnIterator.ins_key t = Ok e.1 /\ MojDbLevelTxnIterator.ins_value ins t = Ok e.2.
Proof.
  intros (_ & I & _ & _) ->. destruct I as [E He]. unfold MojDbLevelTxnIterator.ins_value, MojDbLevelTxnIterator.ins_key.
  rewrite E. split; [done|]. destruct e as [k v]. simpl. by rewrite (proj2 (get_elem ins k v Si) He).
Qed.

Lemma db_at_record p q fwd invalid t e : at_ p q fwd invalid t -> p = PAt e ->
  MojDbLevelTxnIterator.db_key t = e.1 /\ it_value (MojDbLevelIterator.m_it (MojDbLevelTxnIterator.m_it t)) = e.2.
Proof. intros (D & _) ->. destruct (dbat_key _ _ _ D) as (A & B & _). done. Qed.

Lemma compare_at p q fwd invalid t : at_ p q fwd invalid t ->
  MojDbLevelTxnIterator.compare t =
  Ok (match p, q with
      | PBegin, PBegin | PEnd, PEnd => MojDbLevelTxnIterator.EQ
      | PBegin, _ | _, PEnd => MojDbLevelTxnIterator.LT
      | PEnd, _ | _, PBegin => MojDbLevelTxnIterator.GT
      | PAt x, PAt y => if lexcmp x.1 y.1 <? 0 then MojDbLevelTxnIterator.LT
                        else if 0 <? lexcmp x.1 y.1 then MojDbLevelTxnIterator.GT else MojDbLevelTxnIterator.EQ
      end).
Proof.
  intros A. pose proof A as (D & I & _). unfold MojDbLevelTxnIterator.compare.
  destruct (dbat_tests _ _ _ D) as (-> & -> & _), (insat_tests _ _ _ I) as (-> & -> & _).
  destruct p as [|x|], q as [|y|]; simpl; try done.
  destruct (db_at_record _ _ _ _ _ _ A eq_refl) as [-> _], (ins_at_record _ _ _ _ _ _ A eq_refl) as [-> _]. done.
Qed.

(** Going forward the smaller key is the current one, going backward the larger;
    a pending value hides the stored one. *)
Lemma record_fwd p q invalid t e : at_ p q true invalid t -> is_begin p = false -> is_begin q = false ->
  pick_after (pos_opt p) (pos_opt q) = Some e ->
  MojDbLevelTxnIterator.getKey t = Ok e.1 /\ MojDbLevelTxnIterator.getValue ins t = Ok e.2.
Proof.
  intros A Hp Hq. pose proof A as (_ & _ & F & _).
  unfold MojDbLevelTxnIterator.getKey, MojDbLevelTxnIterator.getValue, MojDbLevelTxnIterator.inTransaction.
  rewrite (compare_at _ _ _ _ _ A), F. destruct p as [|x|], q as [|y|]; try done; simpl.
  - pose proof (comp_anti lexcmp x.1 y.1). destruct (db_at_record _ _ _ _ _ _ A eq_refl) as [Kx Vx], (ins_at_record _ _ _ _ _ _ A eq_refl) as [Ky Vy].
    destruct (_ <? 0); [|destruct (0 <? _)]; intros [= <-]; simpl; by rewrite ?Kx, ?Vx, ?Ky, ?Vy.
  - intros [= <-]. destruct (db_at_record _ _ _ _ _ _ A eq_refl) as [Kx Vx]. by rewrite Kx, Vx.
  - intros [= <-]. destruct (ins_at_record _ _ _ _ _ _ A eq_refl) as [Ky Vy]. done.
Qed.

Lemma record_bwd p q invalid t e : at_ p q false invalid t -> is_end p = false -> is_end q = false ->
  pick_before (pos_opt p) (pos_opt q) = Some e ->
  MojDbLevelTxnIterator.getKey t = Ok e.1 /\ MojDbLevelTxnIterator.getValue ins t = Ok e.2.
Proof.
  intros A Hp Hq. pose proof A as (_ & _ & F & _).
  unfold MojDbLevelTxnIterator.getKey, MojDbLevelTxnIterator.getValue, MojDbLevelTxnIterator.inTransaction.
  rewrite (compare_at _ _ _ _ _ A), F. destruct p as [|x|], q as [|y|]; try done; simpl.
  - intros [= <-]. destruct (ins_at_record _ _ _ _ _ _ A eq_refl) as [Ky Vy]. done.
  - intros [= <-]. destruct (db_at_record _ _ _ _ _ _ A eq_refl) as [Kx Vx]. by rewrite Kx, Vx.
  - destruct (db_at_record _ _ _ _ _ _ A eq_refl) as [Kx Vx], (ins_at_record _ _ _ _ _ _ A eq_refl) as [Ky Vy].
    destruct (Z.ltb_spec (lexcmp x.1 y.1) 0), (Z.ltb_spec 0 (lexcmp x.1 y.1)); try lia; intros [= <-]; simpl;
      by rewrite ?Kx, ?Vx, ?Ky, ?Vy.
Qed.

Lemma isValid_at p q fwd invalid t : at_ p q fwd invalid t ->
  MojDbLevelTxnIterator.isValid t = negb invalid && (is_at p || is_at q).
Proof.
  intros (D & I & _ & G). unfold MojDbLevelTxnIterator.isValid. rewrite G.
  by destruct (dbat_tests _ _ _ D) as (_ & _ & ->), (insat_tests _ _ _ I) as (_ & _ & ->).
Qed.

Lemma ends_at p q fwd invalid t : at_ p q fwd invalid t ->
  MojDbLevelTxnIterator.isBegin t = is_begin p && is_begin q /\ MojDbLevelTxnIterator.isEnd t = is_end p && is_end q.
Proof.
  intros (D & I & _). unfold MojDbLevelTxnIterator.isBegin, MojDbLevelTxnIterator.isEnd.
  by destruct (dbat_tests _ _ _ D) as (-> & -> & _), (insat_tests _ _ _ I) as (-> & -> & _).
Qed.

Lemma pick_after_le x y e : pick_after x y = Some e ->
  (forall a, x = Some a -> lexcmp e.1 a.1 <= 0) /\ (forall b, y = Some b -> lexcmp e.1 b.1 <= 0).
Proof.
  destruct x as [a|], y as [b|]; simpl; try done.
  - pose proof (comp_anti lexcmp a.1 b.1). destruct (Z.ltb_spec (lexcmp a.1 b.1) 0); intros [= <-];
      split; intros ? [= <-]; rewrite ?(comp_refl lexcmp); lia.
  - intros [= <-]. split; [|done]. intros ? [= <-]. by rewrite (comp_refl lexcmp).
  - intros [= <-]. split; [done|]. intros ? [= <-]. by rewrite (comp_refl lexcmp).
Qed.

Lemma pick_before_ge x y e : pick_before x y = Some e ->
  (forall a, x = Some a -> lexcmp a.1 e.1 <= 0) /\ (forall b, y = Some b -> lexcmp b.1 e.1 <= 0).
Proof.
  destruct x as [a|], y as [b|]; simpl; try done.
  - pose proof (comp_anti lexcmp a.1 b.1). destruct (Z.ltb_spec 0 (lexcmp a.1 b.1)); intros [= <-];
      split; intros ? [= <-]; rewrite ?(comp_refl lexcmp); lia.
  - intros [= <-]. split; [|done]. intros ? [= <-]. by rewrite (comp_refl lexcmp).
  - intros [= <-]. split; [done|]. intros ? [= <-]. by rewrite (comp_refl lexcmp).
Qed.

(** ** A step in the direction of travel *)

(** The iterators at the current record [e] move on. *)
Definition adv_f (l : entries) (e : entry) (p : Pos) : Pos :=
  match p with PAt x => if bool_decide (x.1 = e.1) then fwd_pos (CutLe e.1) l else p | _ => p end.
Definition adv_b (l : entries) (e : entry) (p : Pos) : Pos :=
  match p with PAt x => if bool_decide (x.1 = e.1) then bwd_pos (CutLt e.1) l else p | _ => p end.

Lemma lexcmp_neq (a b : bytes) : lexcmp a b <> 0 -> a <> b.
Proof. intros H1 ->. by rewrite (comp_refl lexcmp) in H1. Qed.

Lemma next_step_raw p q invalid t e : at_ p q true invalid t -> is_begin p = false -> is_begin q = false ->
  pick_after (pos_opt p) (pos_opt q) = Some e ->
  exists t', MojDbLevelTxnIterator.next_step ins dels t = Ok t' /\ at_ (adv_f L e p) (adv_f ins e q) true false t'.
Proof.
  intros A Hp Hq E. pose proof A as (_ & _ & F & _). apply (at_flags _ _ _ _ _ true false) in A.
  unfold MojDbLevelTxnIterator.next_step. rewrite F. revert A.
  generalize (MojDbLevelTxnIterator.with_flags t true false). clear t F. intros t A. pose proof A as (D & I & _).
  destruct (dbat_tests _ _ _ D) as (-> & -> & _), (insat_tests _ _ _ I) as (-> & -> & _).
  destruct p as [|x|], q as [|y|]; simpl in *; try done.
  - destruct (db_at_record _ _ _ _ _ _ A eq_refl) as [-> _], (ins_at_record _ _ _ _ _ _ A eq_refl) as [-> _].
    pose proof (comp_anti lexcmp x.1 y.1) as An. simpl.
    destruct (Z.ltb_spec (lexcmp x.1 y.1) 0) as [C|C]; injection E as <-.
    + destruct (incr_db_at _ _ _ _ A) as (t' & -> & A'); [done|]. exists t'. split; [done|].
      rewrite bool_decide_true, bool_decide_false by (done || apply lexcmp_neq; lia). done.
    + destruct (Z.eqb_spec (lexcmp x.1 y.1) 0) as [C2|C2].
      * apply lexcmp_eq in C2. destruct (incr_ins_at _ _ _ _ _ A) as (t1 & -> & A1); [done|]. simpl.
        destruct (incr_db_at _ _ _ _ A1) as (t' & -> & A'); [done|]. exists t'. split; [done|].
        rewrite !bool_decide_true by done. simpl in A'. by rewrite C2 in A'.
      * destruct (incr_ins_at _ _ _ _ _ A) as (t' & -> & A'); [done|]. exists t'. split; [done|].
        rewrite bool_decide_false, bool_decide_true by (done || apply lexcmp_neq; lia). done.
  - injection E as <-. destruct (incr_db_at _ _ _ _ A) as (t' & -> & A'); [done|]. exists t'. split; [done|].
    by rewrite bool_decide_true by done.
  - injection E as <-. destruct (incr_ins_at _ _ _ _ _ A) as (t' & -> & A'); [done|]. exists t'. split; [done|].
    by rewrite bool_decide_true by done.
Qed.

Lemma prev_step_raw p q invalid t e : at_ p q false invalid t -> is_end p = false -> is_end q = false ->
  pick_before (pos_opt p) (pos_opt q) = Some e ->
  exists t', MojDbLevelTxnIterator.prev_step ins dels t = Ok t' /\ at_ (adv_b L e p) (adv_b ins e q) false invalid t'.
Proof.
  intros A Hp Hq E. unfold MojDbLevelTxnIterator.prev_step. pose proof A as (D & I & _).
  destruct (dbat_tests _ _ _ D) as (-> & -> & _), (insat_tests _ _ _ I) as (-> & -> & _).
  destruct p as [|x|], q as [|y|]; simpl in *; try done.
  - injection E as <-. destruct (decr_ins_at _ _ _ _ _ A) as (t' & -> & A'); [done|]. exists t'. split; [done|].
    by rewrite bool_decide_true by done.
  - injection E as <-. destruct (decr_db_at _ _ _ _ A) as (t' & -> & A'); [done|]. exists t'. split; [done|].
    by rewrite bool_decide_true by done.
  - destruct (db_at_record _ _ _ _ _ _ A eq_refl) as [-> _], (ins_at_record _ _ _ _ _ _ A eq_refl) as [-> _].
    pose proof (comp_anti lexcmp x.1 y.1) as An. simpl.
    destruct (Z.ltb_spec 0 (lexcmp x.1 y.1)) as [C|C]; injection E as <-.
    + destruct (decr_db_at _ _ _ _ A) as (t' & -> & A'); [done|]. exists t'. split; [done|].
      rewrite bool_decide_true, bool_decide_false by (done || apply lexcmp_neq; lia). done.
    + destruct (Z.eqb_spec (lexcmp x.1 y.1) 0) as [C2|C2].
      * apply lexcmp_eq in C2. destruct (decr_ins_at _ _ _ _ _ A) as (t1 & -> & A1); [done|]. simpl.
        destruct (decr_db_at _ _ _ _ A1) as (t' & -> & A'); [done|]. exists t'. split; [done|].
        rewrite !bool_decide_true by done. simpl in A'. by rewrite C2 in A'.
      * destruct (decr_ins_at _ _ _ _ _ A) as (t' & -> & A'); [done|]. exists t'. split; [done|].
        rewrite bool_decide_false, bool_decide_true by (done || apply lexcmp_neq; lia). done.
Qed.

(** ** Places in the merged map

    [R_fwd c]: the iterator is at the first record after [c], with a hole before
    it when its own record was deleted ([hole]).  [R_bwd c]: at the last record
    before [c]. *)
Definition R_fwd (c : Cut) (hole : bool) : MojDbLevelTxnIterator -> Prop := at_ (fwd_pos c L) (fwd_pos c ins) true hole.
Definition R_bwd (c : Cut) (hole : bool) : MojDbLevelTxnIterator -> Prop := at_ (bwd_pos c L) (bwd_pos c ins) false hole.

Lemma M_sorted : sorted_entries M.
Proof. by apply overlay_sorted. Qed.
Lemma after_M c : after c M = pick_after (after c L) (after c ins).
Proof. by apply after_overlay. Qed.
Lemma before_M c : before c M = pick_before (before c L) (before c ins).
Proof. by apply before_overlay. Qed.

Lemma adv_f_spec c l e : sorted_entries l -> below c e.1 = false ->
  (forall x, after c l = Some x -> lexcmp e.1 x.1 <= 0) -> adv_f l e (fwd_pos c l) = fwd_pos (CutLe e.1) l.
Proof.
  intros S B Le. unfold adv_f, fwd_pos at 1. destruct (after c l) as [x|] eqn:E.
  - case_bool_decide as X; [done|]. unfold fwd_pos. rewrite (after_skip c), E; [done..|].
    intros x' Hx. rewrite E in Hx. injection Hx as <-. specialize (Le x eq_refl).
    destruct (Z.eq_dec (lexcmp e.1 x.1) 0) as [Q|]; [|lia]. apply lexcmp_eq in Q. congruence.
  - unfold fwd_pos. rewrite (after_skip c), E; [done..|]. intros x Hx. congruence.
Qed.

Lemma adv_b_spec c l e : sorted_entries l -> below c e.1 = true ->
  (forall x, before c l = Some x -> lexcmp x.1 e.1 <= 0) -> adv_b l e (bwd_pos c l) = bwd_pos (CutLt e.1) l.
Proof.
  intros S B Le. unfold adv_b, bwd_pos at 1. destruct (before c l) as [x|] eqn:E.
  - case_bool_decide as X; [done|]. unfold bwd_pos. rewrite (before_skip c), E; [done..|].
    intros x' Hx. rewrite E in Hx. injection Hx as <-. specialize (Le x eq_refl).
    destruct (Z.eq_dec (lexcmp x.1 e.1) 0) as [Q|]; [|lia]. apply lexcmp_eq in Q. congruence.
  - unfold bwd_pos. rewrite (before_skip c), E; [done..|]. intros x Hx. congruence.
Qed.

Lemma after_M_bounds c e : after c M = Some e -> below c e.1 = false /\
  (forall x, after c L = Some x -> lexcmp e.1 x.1 <= 0) /\ (forall x, after c ins = Some x -> lexcmp e.1 x.1 <= 0).
Proof.
  intros E. split; [by apply after_Some in E as (_ & ? & _); [|apply M_sorted]|].
  apply pick_after_le. by rewrite <- after_M.
Qed.

Lemma before_M_bounds c e : before c M = Some e -> below c e.1 = true /\
  (forall x, before c L = Some x -> lexcmp x.1 e.1 <= 0) /\ (forall x, before c ins = Some x -> lexcmp x.1 e.1 <= 0).
Proof.
  intros E. split; [by apply before_Some in E as (_ & ? & _); [|apply M_sorted]|].
  apply pick_before_ge. by rewrite <- before_M.
Qed.

Lemma next_step_R c hole t e : R_fwd c hole t -> after c M = Some e ->
  exists t', MojDbLevelTxnIterator.next_step ins dels t = Ok t' /\ R_fwd (CutLe e.1) false t'.
Proof.
  intros A E. destruct (after_M_bounds _ _ E) as (B & B1 & B2).
  destruct (next_step_raw _ _ _ _ e A) as (t' & -> & A'); [apply is_begin_fwd..| |].
  - by rewrite !pos_opt_fwd, <- after_M.
  - exists t'. split; [done|]. by rewrite !adv_f_spec in A'.
Qed.

Lemma prev_step_R c hole t e : R_bwd c hole t -> before c M = Some e ->
  exists t', MojDbLevelTxnIterator.prev_step ins dels t = Ok t' /\ R_bwd (CutLt e.1) hole t'.
Proof.
  intros A E. destruct (before_M_bounds _ _ E) as (B & B1 & B2).
  destruct (prev_step_raw _ _ _ _ e A) as (t' & -> & A'); [apply is_end_bwd..| |].
  - by rewrite !pos_opt_bwd, <- before_M.
  - exists t'. split; [done|]. by rewrite !adv_b_spec in A'.
Qed.

Lemma record_R_fwd c hole t e : R_fwd c hole t -> after c M = Some e ->
  MojDbLevelTxnIterator.getKey t = Ok e.1 /\ MojDbLevelTxnIterator.getValue ins t = Ok e.2.
Proof. intros A E. apply (record_fwd _ _ _ _ _ A); [apply is_begin_fwd..|]. by rewrite !pos_opt_fwd, <- after_M. Qed.

Lemma record_R_bwd c hole t e : R_bwd c hole t -> before c M = Some e ->
  MojDbLevelTxnIterator.getKey t = Ok e.1 /\ MojDbLevelTxnIterator.getValue ins t = Ok e.2.
Proof. intros A E. apply (record_bwd _ _ _ _ _ A); [apply is_end_bwd..|]. by rewrite !pos_opt_bwd, <- before_M. Qed.

Lemma valid_R_fwd c hole t : R_fwd c hole t ->
  MojDbLevelTxnIterator.isValid t = negb hole && match after c M with Some _ => true | None => false end.
Proof.
  intros A. rewrite (isValid_at _ _ _ _ _ A), after_M. unfold fwd_pos.
  by destruct (after c L), (after c ins); simpl; try destruct (_ <? 0).
Qed.

Lemma valid_R_bwd c hole t : R_bwd c hole t ->
  MojDbLevelTxnIterator.isValid t = negb hole && match before c M with Some _ => true | None => false end.
Proof.
  intros A. rewrite (isValid_at _ _ _ _ _ A), before_M. unfold bwd_pos.
  by destruct (before c L), (before c ins); simpl; try destruct (0 <? _).
Qed.

(** The ends of the walk: nothing after [c] (or before). *)
Lemma end_R_fwd c hole t : R_fwd c hole t ->
  MojDbLevelTxnIterator.isBegin t = false /\
  MojDbLevelTxnIterator.isEnd t = match after c M with Some _ => false | None => true end.
Proof.
  intros A. destruct (ends_at _ _ _ _ _ A) as [-> ->]. rewrite !is_begin_fwd, after_M. split; [done|]. unfold fwd_pos.
  by destruct (after c L), (after c ins); simpl; try destruct (_ <? 0).
Qed.

Lemma end_R_bwd c hole t : R_bwd c hole t ->
  MojDbLevelTxnIterator.isEnd t = false /\
  MojDbLevelTxnIterator.isBegin t = match before c M with Some _ => false | None => true end.
Proof.
  intros A. destruct (ends_at _ _ _ _ _ A) as [-> ->]. rewrite !is_end_bwd, before_M. split; [done|]. unfold bwd_pos.
  by destruct (before c L), (before c ins); simpl; try destruct (0 <? _).
Qed.

(** ** The moves *)

(** Whatever the iterator's place, it walks over [V]. *)
Definition over (t : MojDbLevelTxnIterator) : Prop :=
  it_view (MojDbLevelIterator.m_it (MojDbLevelTxnIterator.m_it t)) = V.

Lemma at_over p q fwd invalid t : at_ p q fwd invalid t -> over t.
Proof. intros ((D & _) & _). exact D. Qed.

Lemma first_R t : over t -> exists t', MojDbLevelTxnIterator.first ins dels t = Ok t' /\ R_fwd (CutLt []) false t'.
Proof.
  intros O. apply skipDeleted_fwd. pose proof (db_toFirst V _ O). pose proof (ins_toFirst ins Si). at_split.
Qed.

Lemma last_R t : over t -> exists t', MojDbLevelTxnIterator.last ins dels t = Ok t' /\ R_bwd CutAll false t'.
Proof.
  intros O. apply skipDeleted_bwd. pose proof (db_toLast V _ O).
  pose proof (ins_toLast ins (MojDbLevelTxnIterator.m_insertsItertor t) Si). at_split.
Qed.

Lemma make_R d : db_view d = V -> exists t', MojDbLevelTxnIterator.make ins dels d = Ok t' /\ R_fwd (CutLt []) false t'.
Proof.
  intros E. apply first_R. unfold over. simpl.
  match goal with |- it_view (it_SeekToFirst ?i) = _ => destruct (it_SeekToFirst_cur i) as [-> _] end.
  by rewrite NewIterator_view.
Qed.

Lemma seek_R k t : over t -> exists t', MojDbLevelTxnIterator.seek ins dels t k = Ok t' /\ R_fwd (CutLt k) false t'.
Proof.
  intros O. unfold MojDbLevelTxnIterator.seek, MojDbLevelTxnIterator.skipDeleted. simpl.
  destruct (skip_fwd (length dels) (CutLt k) _ (db_seek V _ k O)) as (i & -> & D); [apply List.filter_length_le|].
  eexists. split; [done|]. pose proof (insat_key_of ins (CutLt k) Si). at_split.
Qed.

Lemma next_fwd rec c t e : R_fwd c false t -> after c M = Some e ->
  exists t', MojDbLevelTxnIterator.next_with ins dels rec t = Ok t' /\ R_fwd (CutLe e.1) false t'.
Proof.
  intros A E. unfold MojDbLevelTxnIterator.next_with. destruct (end_R_fwd _ _ _ A) as [-> _].
  pose proof A as (_ & _ & -> & ->). simpl. by apply (next_step_R c false).
Qed.

Lemma prev_bwd rec c t e : R_bwd c false t -> before c M = Some e ->
  exists t', MojDbLevelTxnIterator.prev_with ins dels rec t = Ok t' /\ R_bwd (CutLt e.1) false t'.
Proof.
  intros A E. unfold MojDbLevelTxnIterator.prev_with. destruct (end_R_bwd _ _ _ A) as [-> _].
  pose proof A as (_ & _ & -> & ->). by apply (prev_step_R c false).
Qed.

(** A hole is the place before the next record: the next step only fills it. *)
Lemma next_hole rec c t : R_fwd c true t ->
  exists t', MojDbLevelTxnIterator.next_with ins dels rec t = Ok t' /\ R_fwd c false t'.
Proof.
  intros A. unfold MojDbLevelTxnIterator.next_with. destruct (end_R_fwd _ _ _ A) as [-> _].
  pose proof A as (_ & _ & -> & ->). eexists. split; [done|]. by apply (at_flags _ _ true true).
Qed.

Lemma prev_hole rec c t : R_bwd c true t ->
  exists t', MojDbLevelTxnIterator.prev_with ins dels rec t = Ok t' /\ R_bwd c false t'.
Proof.
  intros A. unfold MojDbLevelTxnIterator.prev_with. destruct (end_R_bwd _ _ _ A) as [-> _].
  pose proof A as (_ & _ & -> & ->). eexists. split; [done|]. by apply (at_flags _ _ false true).
Qed.

(** ** Turning round *)
Lemma pos_before_here c l e : sorted_entries l -> before c l = Some e -> fwd_pos (CutLt e.1) l = PAt e.
Proof.
  intros S (H1 & H2 & H3)%before_Some; [|done]. unfold fwd_pos. enough (after (CutLt e.1) l = Some e) as -> by done.
  apply after_Some; [done|]. split; [done|]. split; [apply below_lt_false; by rewrite (comp_refl lexcmp)|].
  intros x Hx B%below_lt_false. pose proof (comp_anti lexcmp e.1 x.1). lia.
Qed.

Lemma pos_after_here c l e : sorted_entries l -> after c l = Some e -> bwd_pos (CutLe e.1) l = PAt e.
Proof. intros S E. unfold bwd_pos. enough (before (CutLe e.1) l = Some e) as -> by done.
  apply after_Some in E as (H1 & H2 & H3); [|done]. apply before_Some; [done|]. split; [done|].
  split; [apply below_le; by rewrite (comp_refl lexcmp)|]. by intros x Hx B%below_le.
Qed.

Lemma fwd_pos_turn c k l : sorted_entries l -> below c k = true ->
  (forall x, before c l = Some x -> lexcmp x.1 k < 0) -> fwd_pos (CutLt k) l = fwd_pos c l.
Proof. intros S B Hx. unfold fwd_pos. by rewrite (turn_after c). Qed.

Lemma bwd_pos_turn c k l : sorted_entries l -> below c k = false ->
  (forall x, after c l = Some x -> lexcmp k x.1 < 0) -> bwd_pos (CutLe k) l = bwd_pos c l.
Proof. intros S B Hx. unfold bwd_pos. by rewrite (turn_before c). Qed.

(** One step on from where a backward walk stands. *)
Lemma fwd_pos_past c l : sorted_entries l -> fwd_pos (past (bwd_pos c l)) l = fwd_pos c l.
Proof.
  intros S. unfold fwd_pos. enough (after (past (bwd_pos c l)) l = after c l) as -> by done.
  apply after_cong. unfold bwd_pos. pose proof (filter_last_spec c l S) as A. intros x Hx.
  destruct (before c l) as [e|].
  - destruct A as (A1 & A2 & A3). apply eq_bool_prop_intro. rewrite !Is_true_true. unfold past. rewrite below_le.
    split; [intros Q; by apply (below_down c x.1 e.1)|by apply A3].
  - rewrite (A x Hx). simpl. by destruct x.1.
Qed.

Lemma bwd_pos_upto c l : sorted_entries l -> bwd_pos (upto (fwd_pos c l)) l = bwd_pos c l.
Proof.
  intros S. unfold bwd_pos. enough (before (upto (fwd_pos c l)) l = before c l) as -> by done.
  apply before_cong. unfold fwd_pos. pose proof (after_spec c l S) as A. intros x Hx.
  destruct (after c l) as [e|]; [|by rewrite (A x Hx)].
  destruct A as (A1 & A2 & A3). apply eq_bool_prop_intro. rewrite !Is_true_true. unfold upto. rewrite below_lt.
  pose proof (comp_anti lexcmp e.1 x.1) as An. split.
  - intros Q. destruct (below c x.1) eqn:B; [done|]. specialize (A3 x Hx B). lia.
  - intros B. destruct (Z.le_gt_cases 0 (lexcmp x.1 e.1)) as [Q|]; [|done].
    rewrite (not_below_up c e.1 x.1) in B; [done|done|lia].
Qed.

Lemma rec_next r p q t : at_ p q true false t -> is_begin p = false ->
  MojDbLevelTxnIterator.next_with ins dels r t = MojDbLevelTxnIterator.next_step ins dels t.
Proof.
  intros A B. unfold MojDbLevelTxnIterator.next_with. destruct (ends_at _ _ _ _ _ A) as [-> _]. rewrite B.
  by destruct A as (_ & _ & -> & ->).
Qed.

Lemma rec_prev r p q t : at_ p q false false t -> is_end p = false ->
  MojDbLevelTxnIterator.prev_with ins dels r t = MojDbLevelTxnIterator.prev_step ins dels t.
Proof.
  intros A B. unfold MojDbLevelTxnIterator.prev_with. destruct (ends_at _ _ _ _ _ A) as [_ ->]. rewrite B.
  by destruct A as (_ & _ & -> & ->).
Qed.

Ltac side := solve [done | intros; simplify_eq; lia].

(** The iterator that is not at the current record [e] steps over it. *)
Lemma fwd_pos_other c l (e : entry) : sorted_entries l -> below c e.1 = true ->
  (forall x, before c l = Some x -> lexcmp x.1 e.1 < 0) -> fwd_pos (past (bwd_pos c l)) l = fwd_pos (CutLt e.1) l.
Proof. intros S B Hx. by rewrite fwd_pos_past, <- (fwd_pos_turn c e.1) by done. Qed.

Lemma bwd_pos_other c l (e : entry) : sorted_entries l -> below c e.1 = false ->
  (forall x, after c l = Some x -> lexcmp e.1 x.1 < 0) -> bwd_pos (upto (fwd_pos c l)) l = bwd_pos (CutLe e.1) l.
Proof. intros S B Hx. by rewrite bwd_pos_upto, <- (bwd_pos_turn c e.1) by done. Qed.

Lemma bwd_pos_cases c (l : entries) : (before c l = None /\ bwd_pos c l = PBegin) \/ exists x, before c l = Some x /\ bwd_pos c l = PAt x.
Proof. unfold bwd_pos. destruct (before c l); [right; by eexists|by left]. Qed.
Lemma fwd_pos_cases c (l : entries) : (after c l = None /\ fwd_pos c l = PEnd) \/ exists x, after c l = Some x /\ fwd_pos c l = PAt x.
Proof. unfold fwd_pos. destruct (after c l); [right; by eexists|by left]. Qed.

Lemma turn_forward_R r c hole t e : R_bwd c hole t -> before c M = Some e ->
  exists t', MojDbLevelTxnIterator.turn_forward ins dels (MojDbLevelTxnIterator.next_with ins dels r) t = Ok t' /\
             R_fwd (CutLt e.1) false t'.
Proof.
  intros A E. destruct (before_M_bounds _ _ E) as (B & B1 & B2). unfold MojDbLevelTxnIterator.turn_forward.
  destruct (record_R_bwd _ _ _ _ A E) as [-> _]. apply (at_flags _ _ _ _ _ true false) in A. revert A. cbv zeta.
  generalize (MojDbLevelTxnIterator.with_flags t true false). clear t. intros t A. simpl. pose proof A as (D & I & _).
  destruct (dbat_tests _ _ _ D) as (_ & -> & _), (insat_tests _ _ _ I) as (_ & -> & _). rewrite before_M in E.
  destruct (bwd_pos_cases c L) as [[X Xp]|(x & X & Xp)], (bwd_pos_cases c ins) as [[Y Yp]|(y & Y & Yp)];
    rewrite X, Y in E; simpl in E; [done|..].
  - injection E as <-. rewrite Xp, Yp in *. destruct (incr_db_at _ _ _ _ A) as (t' & -> & A'); [done|]. exists t'.
    split; [done|]. unfold R_fwd. rewrite (pos_before_here c ins y), <- (fwd_pos_other c L y), Xp by side.
    exact A'.
  - injection E as <-. rewrite Xp, Yp in *. destruct (incr_ins_at _ _ _ _ _ A) as (t' & -> & A'); [done|]. exists t'.
    split; [done|]. unfold R_fwd. rewrite (pos_before_here c L x), <- (fwd_pos_other c ins x), Yp by side.
    exact A'.
  - pose proof (comp_anti lexcmp x.1 y.1) as An. rewrite Xp, Yp in *. simpl.
    pose proof (record_fwd _ _ _ _ (if lexcmp x.1 y.1 <? 0 then x else y) A eq_refl eq_refl) as K. simpl in K.
    destruct (Z.ltb_spec (lexcmp x.1 y.1) 0) as [Lt|Ge]; destruct (K eq_refl) as [-> _]; simpl; clear K.
    + rewrite (proj2 (Z.ltb_ge _ _)) in E by lia. injection E as <-. rewrite (proj2 (Z.ltb_lt _ _)) by lia.
      rewrite (rec_next _ _ _ _ A) by done. destruct (next_step_raw _ _ _ _ x A) as (t' & -> & A'); [done..| |].
      { simpl. by rewrite (proj2 (Z.ltb_lt _ _)). }
      exists t'. split; [done|]. simpl in A'. rewrite bool_decide_true, bool_decide_false in A' by (done || apply lexcmp_neq; lia).
      unfold R_fwd. rewrite (pos_before_here c ins y), <- (fwd_pos_other c L y), Xp by side. exact A'.
    + destruct (Z.ltb_spec 0 (lexcmp x.1 y.1)) as [Gt|Le]; injection E as <-.
      * rewrite (proj2 (Z.ltb_lt _ _)) by lia.
        rewrite (rec_next _ _ _ _ A) by done. destruct (next_step_raw _ _ _ _ y A) as (t' & -> & A'); [done..| |].
        { simpl. by rewrite (proj2 (Z.ltb_ge _ _)). }
        exists t'. split; [done|]. simpl in A'. rewrite bool_decide_false, bool_decide_true in A' by (done || apply lexcmp_neq; lia).
        unfold R_fwd. rewrite (pos_before_here c L x), <- (fwd_pos_other c ins x), Yp by side. exact A'.
      * rewrite (comp_refl lexcmp). simpl. exists t. split; [done|]. unfold R_fwd. rewrite (pos_before_here c ins y) by done.
        assert (x.1 = y.1) as <- by (apply lexcmp_eq; lia). by rewrite (pos_before_here c L x).
Qed.

Lemma turn_back_R r c hole t e : R_fwd c hole t -> after c M = Some e ->
  exists t', MojDbLevelTxnIterator.turn_back ins dels (MojDbLevelTxnIterator.prev_with ins dels r) t = Ok t' /\
             R_bwd (CutLe e.1) false t'.
Proof.
  intros A E. destruct (after_M_bounds _ _ E) as (B & B1 & B2). unfold MojDbLevelTxnIterator.turn_back.
  destruct (record_R_fwd _ _ _ _ A E) as [-> _]. apply (at_flags _ _ _ _ _ false false) in A. revert A. cbv zeta.
  generalize (MojDbLevelTxnIterator.with_flags t false false). clear t. intros t A. simpl. pose proof A as (D & I & _).
  destruct (dbat_tests _ _ _ D) as (-> & _ & _), (insat_tests _ _ _ I) as (-> & _ & _). rewrite after_M in E.
  destruct (fwd_pos_cases c L) as [[X Xp]|(x & X & Xp)], (fwd_pos_cases c ins) as [[Y Yp]|(y & Y & Yp)];
    rewrite X, Y in E; simpl in E; [done|..].
  - injection E as <-. rewrite Xp, Yp in *. destruct (decr_db_at _ _ _ _ A) as (t' & -> & A'); [done|]. exists t'.
    split; [done|]. unfold R_bwd. rewrite (pos_after_here c ins y), <- (bwd_pos_other c L y), Xp by side.
    exact A'.
  - injection E as <-. rewrite Xp, Yp in *. destruct (decr_ins_at _ _ _ _ _ A) as (t' & -> & A'); [done|]. exists t'.
    split; [done|]. unfold R_bwd. rewrite (pos_after_here c L x), <- (bwd_pos_other c ins x), Yp by side.
    exact A'.
  - pose proof (comp_anti lexcmp x.1 y.1) as An. rewrite Xp, Yp in *. simpl.
    pose proof (record_bwd _ _ _ _ (if 0 <? lexcmp x.1 y.1 then x else y) A eq_refl eq_refl) as K. simpl in K.
    destruct (Z.ltb_spec 0 (lexcmp x.1 y.1)) as [Gt|Le]; destruct (K eq_refl) as [-> _]; simpl; clear K.
    + rewrite (proj2 (Z.ltb_ge _ _)) in E by lia. injection E as <-. rewrite (proj2 (Z.ltb_lt _ _)) by lia.
      rewrite (rec_prev _ _ _ _ A) by done. destruct (prev_step_raw _ _ _ _ x A) as (t' & -> & A'); [done..| |].
      { simpl. by rewrite (proj2 (Z.ltb_lt _ _)). }
      exists t'. split; [done|]. simpl in A'. rewrite bool_decide_true, bool_decide_false in A' by (done || apply lexcmp_neq; lia).
      unfold R_bwd. rewrite (pos_after_here c ins y), <- (bwd_pos_other c L y), Xp by side. exact A'.
    + destruct (Z.ltb_spec (lexcmp x.1 y.1) 0) as [Lt|Ge]; injection E as <-.
      * rewrite (proj2 (Z.ltb_lt _ _)) by lia.
        rewrite (rec_prev _ _ _ _ A) by done. destruct (prev_step_raw _ _ _ _ y A) as (t' & -> & A'); [done..| |].
        { simpl. by rewrite (proj2 (Z.ltb_ge _ _)). }
        exists t'. split; [done|]. simpl in A'. rewrite bool_decide_false, bool_decide_true in A' by (done || apply lexcmp_neq; lia).
        unfold R_bwd. rewrite (pos_after_here c L x), <- (bwd_pos_other c ins x), Yp by side. exact A'.
      * rewrite (comp_refl lexcmp). simpl. exists t. split; [done|]. unfold R_bwd. rewrite (pos_after_here c ins y) by done.
        assert (x.1 = y.1) as <- by (apply lexcmp_eq; lia). by rewrite (pos_after_here c L x).
Qed.

(** ** [next] and [prev] *)

(** The record after the turning point is the one the walk was at. *)
Lemma after_turned c e : before c M = Some e -> after (CutLt e.1) M = Some e.
Proof.
  intros E. pose proof (pos_before_here c M e M_sorted E) as P. unfold fwd_pos in P.
  destruct (after _ M); [by injection P as ->|done].
Qed.
Lemma before_turned c e : after c M = Some e -> before (CutLe e.1) M = Some e.
Proof.
  intros E. pose proof (pos_after_here c M e M_sorted E) as P. unfold bwd_pos in P.
  destruct (before _ M); [by injection P as ->|done].
Qed.

Lemma next_from_fwd c t e : R_fwd c false t -> after c M = Some e ->
  exists t', MojDbLevelTxnIterator.next ins dels t = Ok t' /\ R_fwd (CutLe e.1) false t'.
Proof. apply next_fwd. Qed.

Lemma next_from_bwd c hole t e : R_bwd c hole t -> before c M = Some e ->
  exists t', MojDbLevelTxnIterator.next ins dels t = Ok t' /\ R_fwd (CutLe e.1) false t'.
Proof.
  intros A E. unfold MojDbLevelTxnIterator.next, MojDbLevelTxnIterator.next_with at 1.
  destruct (end_R_bwd _ _ _ A) as [_ ->]. rewrite E. pose proof A as (_ & _ & -> & _). simpl.
  destruct (turn_forward_R (fun _ => Err AssertFailed) c hole t e A E) as (t1 & -> & A1). simpl.
  apply (next_step_R _ _ _ _ A1). by apply (after_turned c).
Qed.

Lemma next_from_begin c hole t : R_bwd c hole t -> before c M = None ->
  exists t', MojDbLevelTxnIterator.next ins dels t = Ok t' /\ R_fwd (CutLt []) false t'.
Proof.
  intros A E. unfold MojDbLevelTxnIterator.next, MojDbLevelTxnIterator.next_with at 1.
  destruct (end_R_bwd _ _ _ A) as [_ ->]. rewrite E. apply first_R. by eapply at_over.
Qed.

Lemma prev_from_bwd c t e : R_bwd c false t -> before c M = Some e ->
  exists t', MojDbLevelTxnIterator.prev ins dels t = Ok t' /\ R_bwd (CutLt e.1) false t'.
Proof. apply prev_bwd. Qed.

Lemma prev_from_fwd c hole t e : R_fwd c hole t -> after c M = Some e ->
  exists t', MojDbLevelTxnIterator.prev ins dels t = Ok t' /\ R_bwd (CutLt e.1) false t'.
Proof.
  intros A E. unfold MojDbLevelTxnIterator.prev, MojDbLevelTxnIterator.prev_with at 1.
  destruct (end_R_fwd _ _ _ A) as [_ ->]. rewrite E. pose proof A as (_ & _ & -> & _).
  destruct (turn_back_R (fun _ => Err AssertFailed) c hole t e A E) as (t1 & -> & A1). simpl.
  apply (prev_step_R _ _ _ _ A1). by apply (before_turned c).
Qed.

Lemma prev_from_end c hole t : R_fwd c hole t -> after c M = None ->
  exists t', MojDbLevelTxnIterator.prev ins dels t = Ok t' /\ R_bwd CutAll false t'.
Proof.
  intros A E. unfold MojDbLevelTxnIterator.prev, MojDbLevelTxnIterator.prev_with at 1.
  destruct (end_R_fwd _ _ _ A) as [_ ->]. rewrite E. apply last_R. by eapply at_over.
Qed.
End walk.

(** ** The iterator as an abstract cursor

    Its state is a place in the merged map, and a side of it. *)
Inductive Place := PlFwd (c : Cut) | PlBwd (c : Cut).
Inductive Move := MFirst | MLast | MSeek (key : bytes) | MNext | MPrev.

Definition place_record (m : entries) (p : Place) : option entry :=
  match p with PlFwd c => after c m | PlBwd c => before c m end.

(** Moving on from the end, or back from the beginning, is not allowed. *)
Definition spec_move (m : entries) (mv : Move) (p : Place) : option Place :=
  match mv with
  | MFirst => Some (PlFwd (CutLt []))
  | MLast => Some (PlBwd CutAll)
  | MSeek k => Some (PlFwd (CutLt k))
  | MNext => match place_record m p, p with
             | Some e, _ => Some (PlFwd (CutLe e.1))
             | None, PlBwd _ => Some (PlFwd (CutLt []))
             | None, PlFwd _ => None
             end
  | MPrev => match place_record m p, p with
             | Some e, _ => Some (PlBwd (CutLt e.1))
             | None, PlFwd _ => Some (PlBwd CutAll)
             | None, PlBwd _ => None
             end
  end.

Fixpoint spec_moves (m : entries) (mvs : list Move) (p : Place) : option Place :=
  match mvs with [] => Some p | mv :: mvs => p' ← spec_move m mv p; spec_moves m mvs p' end.

Section refinement.
Context `{LevelDBLaws} (d : DB) (ins : entries) (dels : list bytes) (Si : sorted_entries ins).
Import MojDbLevelTxnIterator.

Definition run_move (mv : Move) (t : MojDbLevelTxnIterator) : res MojDbLevelTxnIterator :=
  match mv with
  | MFirst => first ins dels t
  | MLast => MojDbLevelTxnIterator.last ins dels t
  | MSeek k => seek ins dels t k
  | MNext => next ins dels t
  | MPrev => prev ins dels t
  end.

Definition run_moves (mvs : list Move) (t : MojDbLevelTxnIterator) : res MojDbLevelTxnIterator :=
  res_fold (fun t mv => run_move mv t) t mvs.

(** What a client sees: the record, when the iterator says it is valid. *)
Definition observe (t : MojDbLevelTxnIterator) : res (option entry) :=
  if isValid t then let? k := getKey t in let? v := getValue ins t in Ok (Some (k, v)) else Ok None.

Abbreviation V := (db_view d).
Abbreviation M := (merged ins dels V).

Definition at_place (p : Place) (t : MojDbLevelTxnIterator) : Prop :=
  match p with PlFwd c => R_fwd V ins dels c false t | PlBwd c => R_bwd V ins dels c false t end.

Let SV : sorted_entries V := db_view_sorted d.

Lemma at_place_over p t : at_place p t -> over V t.
Proof. destruct p; apply at_over. Qed.

Lemma observe_at p t : at_place p t -> observe t = Ok (place_record M p).
Proof.
  unfold observe. destruct p as [c|c]; simpl; intros A.
  - rewrite (valid_R_fwd V ins dels SV Si c false t A). destruct (after c M) as [[k v]|] eqn:E; [|done].
    by destruct (record_R_fwd V ins dels SV Si _ _ _ _ A E) as [-> ->].
  - rewrite (valid_R_bwd V ins dels SV Si c false t A). destruct (before c M) as [[k v]|] eqn:E; [|done].
    by destruct (record_R_bwd V ins dels SV Si _ _ _ _ A E) as [-> ->].
Qed.

Lemma move_at mv p p' t : at_place p t -> spec_move M mv p = Some p' ->
  exists t', run_move mv t = Ok t' /\ at_place p' t'.
Proof.
  intros A. pose proof (at_place_over _ _ A) as O. destruct mv; simpl.
  - intros [= <-]. by apply first_R.
  - intros [= <-]. by apply last_R.
  - intros [= <-]. by apply seek_R.
  - destruct p as [c|c]; simpl in *; (destruct (_ c M) as [e|] eqn:E; [|try done]); intros [= <-].
    + by apply (next_from_fwd V ins dels SV Si c).
    + by apply (next_from_bwd V ins dels SV Si c false).
    + by apply (next_from_begin V ins dels SV Si c false).
  - destruct p as [c|c]; simpl in *; (destruct (_ c M) as [e|] eqn:E; [|try done]); intros [= <-].
    + by apply (prev_from_fwd V ins dels SV Si c false).
    + by apply (prev_from_end V ins dels SV Si c false).
    + by apply (prev_from_bwd V ins dels SV Si c).
Qed.

Lemma moves_at mvs p p' t : at_place p t -> spec_moves M mvs p = Some p' ->
  exists t', run_moves mvs t = Ok t' /\ at_place p' t'.
Proof.
  revert p t. induction mvs as [|mv mvs IH]; simpl; intros p t A; [intros [= <-]; by exists t|].
  destruct (spec_move M mv p) as [p1|] eqn:E; [|done]. simpl. intros E2.
  destruct (move_at _ _ _ _ A E) as (t1 & E1 & A1). unfold run_moves. simpl. rewrite E1. simpl. by apply (IH p1).
Qed.
End refinement.

(** C17: An iterator of a LevelDB transaction is a cursor over the merged map - the
    database without the pending deletes, with the pending values written over it.
    After any sequence of seeks and of steps in either direction that never goes past
    an end, it reports exactly the record the abstract cursor is at: changes of
    direction, deleted records and values in both places included. *)
Theorem iterator_refines `{LevelDBLaws} (d : DB) (ins : entries) (dels : list bytes) mvs p :
  sorted_entries ins ->
  spec_moves (merged ins dels (db_view d)) mvs (PlFwd (CutLt [])) = Some p ->
  exists t0 t, MojDbLevelTxnIterator.make ins dels d = Ok t0 /\ run_moves ins dels mvs t0 = Ok t /\
               observe ins t = Ok (place_record (merged ins dels (db_view d)) p).
Proof.
  intros Si E. destruct (make_R (db_view d) ins dels (db_view_sorted d) Si d eq_refl) as (t0 & E0 & A0).
  destruct (moves_at d ins dels Si mvs (PlFwd (CutLt [])) p t0 A0 E) as (t & E1 & A).
  exists t0, t. split; [done|]. split; [done|]. by apply observe_at.
Qed.
