(* ===== verification/LevelDbTxn.v ===== *)
(** * Transactions of the LevelDB engine

    Reads and writes of a transaction are lookups and updates of the merged map
    of [LevelDbSpec], committing leaves exactly that map in the database, and
    iterators stay on records that exist. *)

From S2P Require Import Prelude Containers OrderedMap LevelDb LevelDbSpec.

(** ** Changes of the pending writes *)
Lemma after_same c l l' : sorted_entries l -> sorted_entries l' ->
  (forall x : entry, below c x.1 = false -> x ∈ l <-> x ∈ l') -> after c l = after c l'.
Proof.
  intros S S' E. pose proof (after_spec c l S) as A. destruct (after c l) as [x|]; symmetry.
  - destruct A as (A1 & A2 & A3). apply after_Some; [done|]. split; [by apply E|]. split; [done|].
    intros y Hy B. apply A3; [by apply E|done].
  - apply after_None; [done|]. intros x Hx. destruct (below c x.1) eqn:B; [done|].
    rewrite <- B. apply A. by apply E.
Qed.

Lemma before_same c l l' : sorted_entries l -> sorted_entries l' ->
  (forall x : entry, below c x.1 = true -> x ∈ l <-> x ∈ l') -> before c l = before c l'.
Proof.
  intros S S' E. pose proof (filter_last_spec c l S) as A. destruct (before c l) as [x|]; symmetry.
  - destruct A as (A1 & A2 & A3). apply before_Some; [done|]. split; [by apply E|]. split; [done|].
    intros y Hy B. apply A3; [by apply E|done].
  - apply before_None; [done|]. intros x Hx. destruct (below c x.1) eqn:B; [|done].
    rewrite <- B. apply A. by apply E.
Qed.

Abbreviation sorted_keys := (MojRbTreeBase.sorted (id : bytes -> bytes) lexcmp).

Lemma elem_of_sput dels k j : sorted_keys dels -> j ∈ MojSet.put lexcmp dels k <-> j = k \/ j ∈ dels.
Proof.
  intros S. unfold MojSet.put. rewrite (MojRbTreeBase.elem_of_put id lexcmp k dels j S). unfold id. rewrite lexcmp_eq.
  destruct (decide (j = k)); naive_solver.
Qed.

Lemma elem_of_sdel dels k j : sorted_keys dels -> j ∈ (MojSet.del lexcmp dels k).1 <-> j ∈ dels /\ j <> k.
Proof. intros S. unfold MojSet.del. rewrite (MojRbTreeBase.elem_of_del id lexcmp k dels j S). unfold id. by rewrite lexcmp_eq. Qed.

Lemma sput_sorted dels k : sorted_keys dels -> sorted_keys (MojSet.put lexcmp dels k).
Proof. apply (MojRbTreeBase.put_sorted id lexcmp). Qed.
Lemma sdel_sorted dels k : sorted_keys dels -> sorted_keys (MojSet.del lexcmp dels k).1.
Proof. apply (MojRbTreeBase.del_sorted id lexcmp). Qed.

(** Pending values and pending deletes: ordered, and never both of one key. *)
Record pending_ok (ins : entries) (dels : list bytes) : Prop := {
  pend_sorted : sorted_entries ins;
  pend_dels : sorted_keys dels;
  pend_disjoint : forall e, e ∈ ins -> e.1 ∉ dels
}.

Lemma pending_nil : pending_ok [] [].
Proof. split; [constructor..|]. intros e He. by apply not_elem_of_nil in He. Qed.

Lemma pending_put ins dels k v : pending_ok ins dels ->
  pending_ok (MojMap.put lexcmp ins k v) (MojSet.del lexcmp dels k).1.
Proof.
  intros [S D J]. split; [by apply mput_sorted|by apply sdel_sorted|].
  intros e [->|[He N]]%elem_of_mput [Hd N2]%elem_of_sdel; try done. by apply (J e).
Qed.

Lemma pending_del ins dels k : pending_ok ins dels ->
  pending_ok (MojMap.del lexcmp ins k).1 (MojSet.put lexcmp dels k).
Proof.
  intros [S D J]. split; [by apply mdel_sorted|by apply sput_sorted|].
  intros e [He N]%elem_of_mdel [E|Hd]%elem_of_sput; try done. by apply (J e).
Qed.

(** ** The merged map and its updates *)
Lemma merged_sorted ins dels l : sorted_entries ins -> sorted_entries l -> sorted_entries (merged ins dels l).
Proof. intros Si Sl. apply overlay_sorted; [done|by apply live_sorted]. Qed.

Lemma elem_of_merged ins dels l e : sorted_entries ins -> sorted_entries l ->
  e ∈ merged ins dels l <-> e ∈ ins \/ (e ∈ l /\ e.1 ∉ dels /\ forall x, x ∈ ins -> x.1 <> e.1).
Proof.
  intros Si Sl. unfold merged. rewrite overlay_elem by (done || by apply live_sorted). rewrite elem_of_live. tauto.
Qed.

Lemma merged_put ins dels l k v : pending_ok ins dels -> sorted_entries l ->
  merged (MojMap.put lexcmp ins k v) (MojSet.del lexcmp dels k).1 l = MojMap.put lexcmp (merged ins dels l) k v.
Proof.
  intros [S D J] Sl. apply entries_ext; [apply merged_sorted; [by apply mput_sorted|done]|by apply mput_sorted, merged_sorted|].
  intros e. rewrite elem_of_merged, !elem_of_mput, elem_of_merged, elem_of_sdel by (done || (by apply mput_sorted) || by apply merged_sorted).
  split.
  - intros [[->|[He N]]|(He & Nd & Nx)]; [by left|right; split; [by left|done]|].
    assert (e.1 <> k) as N by (intros <-; apply (Nx (e.1, v)); [apply elem_of_mput; [done|by left]|done]).
    right. split; [|done]. right. split; [done|]. split; [tauto|]. intros x Hx E. destruct (decide (x.1 = k)) as [E2|N2].
    + congruence.
    + apply (Nx x); [apply elem_of_mput; [done|by right]|done].
  - intros [->|[[He|(He & Nd & Nx)] N]]; [left; by left|left; by right|]. right. split; [done|]. split; [tauto|].
    intros x [->|[Hx _]]%elem_of_mput; [done|by apply Nx|done].
Qed.

Lemma merged_del ins dels l k : pending_ok ins dels -> sorted_entries l ->
  merged (MojMap.del lexcmp ins k).1 (MojSet.put lexcmp dels k) l = (MojMap.del lexcmp (merged ins dels l) k).1.
Proof.
  intros [S D J] Sl. apply entries_ext; [apply merged_sorted; [by apply mdel_sorted|done]|by apply mdel_sorted, merged_sorted|].
  intros e. rewrite elem_of_merged, !elem_of_mdel, elem_of_merged, elem_of_sput by (done || (by apply mdel_sorted) || by apply merged_sorted).
  split.
  - intros [[He N]|(He & Nd & Nx)]; [split; [by left|done]|]. assert (e.1 <> k) as N by tauto. split; [|done].
    right. split; [done|]. split; [tauto|]. intros x Hx E. apply (Nx x); [|done]. apply elem_of_mdel; [done|]. split; [done|congruence].
  - intros [[He|(He & Nd & Nx)] N]; [by left|]. right. split; [done|]. split; [tauto|].
    intros x [Hx _]%elem_of_mdel; [by apply Nx|done].
Qed.

Lemma merged_get ins dels l k : pending_ok ins dels -> sorted_entries l ->
  MojMap.get lexcmp (merged ins dels l) k =
  if MojSet.contains lexcmp dels k then None
  else match MojMap.get lexcmp ins k with Some v => Some v | None => MojMap.get lexcmp l k end.
Proof.
  intros [S D J] Sl. pose proof (merged_sorted ins dels l S Sl) as SM.
  destruct (MojSet.contains lexcmp dels k) eqn:C.
  - apply contains_elem in C. apply get_none; [done|]. intros v [He|(_ & N & _)]%elem_of_merged; [by apply (J _ He)|done..].
  - assert (k ∉ dels) as Nk by (rewrite <- contains_elem; congruence).
    destruct (MojMap.get lexcmp ins k) as [v|] eqn:G.
    + apply get_elem in G; [|done]. apply get_elem; [done|]. apply elem_of_merged; [done..|by left].
    + pose proof (proj1 (get_none ins k S) G) as N. destruct (MojMap.get lexcmp l k) as [v|] eqn:G2.
      * apply get_elem in G2; [|done]. apply get_elem; [done|]. apply elem_of_merged; [done..|]. right. split; [done|].
        split; [done|]. intros [j w] Hx. simpl. intros ->. by apply (N w).
      * apply get_none; [done|]. intros v [He|(He & _)]%elem_of_merged; [by apply (N v)| |done..].
        by apply (proj1 (get_none l k Sl) G2 v).
Qed.

(** ** The iterators a transaction has given out *)
Section transaction.
Context `{LevelDBLaws}.
Import MojDbLevelTxnIterator (MojDbLevelTxnIterator).
Import MojDbLevelTableTxn.

(** The iterator's place exists: in particular its pending record is in the map. *)
Definition sane (ins : entries) (t : MojDbLevelTxnIterator) : Prop :=
  exists p q, at_ (it_view (MojDbLevelIterator.m_it (MojDbLevelTxnIterator.m_it t))) ins p q
                  (MojDbLevelTxnIterator.m_fwd t) (MojDbLevelTxnIterator.m_invalid t) t.

Lemma sane_at V ins p q fwd invalid t : at_ V ins p q fwd invalid t -> sane ins t.
Proof. intros (D & I & F & G). exists p, q. rewrite F, G. pose proof D as (-> & _). at_split. Qed.

Lemma insat_put ins q i k v : sorted_entries ins -> insat ins q i ->
  exists q', insat (MojMap.put lexcmp ins k v) q' i /\ is_begin q' = is_begin q /\ is_end q' = is_end q.
Proof.
  intros S I. destruct q as [|e|]; [by exists PBegin| |by exists PEnd]. destruct I as [-> He].
  destruct (decide (e.1 = k)) as [<-|N].
  - exists (PAt (e.1, v)). split; [|done]. split; [done|]. apply elem_of_mput; [done|by left].
  - exists (PAt e). split; [|done]. split; [done|]. apply elem_of_mput; [done|by right].
Qed.

Lemma insat_del ins q i k : sorted_entries ins -> insat ins q i -> (forall e, q = PAt e -> e.1 <> k) ->
  insat (MojMap.del lexcmp ins k).1 q i.
Proof.
  intros S I N. destruct q as [|e|]; [done| |done]. destruct I as [-> He]. split; [done|].
  apply elem_of_mdel; [done|]. split; [done|by apply N].
Qed.

Lemma notifyPut_sane ins t k v : sorted_entries ins -> sane ins t ->
  exists t', MojDbLevelTxnIterator.notifyPut (MojMap.put lexcmp ins k v) k t = Ok t' /\ sane (MojMap.put lexcmp ins k v) t'.
Proof.
  intros S (p & q & D & I & F). destruct (insat_put _ _ _ k v S I) as (q' & I' & _).
  set (V := it_view _) in *. set (values := MojMap.put lexcmp ins k v) in *. clear I q.
  assert (sorted_entries values) as S' by by apply mput_sorted.
  assert (at_ V values p q' (MojDbLevelTxnIterator.m_fwd t) (MojDbLevelTxnIterator.m_invalid t) t) as A by at_split.
  unfold MojDbLevelTxnIterator.notifyPut.
  destruct (insat_tests _ _ _ I') as (-> & -> & _).
  generalize (if MojDbLevelIterator.isBegin (MojDbLevelTxnIterator.m_it t) then false
              else if MojDbLevelIterator.isEnd (MojDbLevelTxnIterator.m_it t) then true
              else lexcmp k (MojDbLevelTxnIterator.db_key t) <? 0). intros keyLtDb.
  generalize (if MojDbLevelIterator.isBegin (MojDbLevelTxnIterator.m_it t) || MojDbLevelIterator.isEnd (MojDbLevelTxnIterator.m_it t)
              then false else lexcmp k (MojDbLevelTxnIterator.db_key t) =? 0). intros keyEqDb.
  assert (exists t', Ok t = Ok t' /\ sane values t') as Keep by (exists t; split; [done|by eapply sane_at]).
  assert (is_begin q' = false -> exists t', MojDbLevelTxnIterator.decr_ins values t = Ok t' /\ sane values t') as Decr.
  { intros N. destruct (decr_ins_at V values S' _ _ _ _ _ A) as (t' & E & A'); [by intros ->|]. exists t'.
    split; [done|]. by eapply sane_at. }
  assert (is_end q' = false -> exists t', MojDbLevelTxnIterator.incr_ins values t = Ok t' /\ sane values t') as Incr.
  { intros N. destruct (incr_ins_at V values S' _ _ _ _ _ A) as (t' & E & A'); [by intros ->|]. exists t'.
    split; [done|]. by eapply sane_at. }
  destruct q' as [|e|]; simpl in *.
  - destruct (MojDbLevelTxnIterator.m_fwd t), keyLtDb, keyEqDb; simpl; auto.
  - destruct (ins_at_record V values S' _ _ _ _ _ _ A eq_refl) as [-> _]. simpl.
    destruct (MojDbLevelTxnIterator.m_fwd t); case_match; auto.
  - destruct (MojDbLevelTxnIterator.m_fwd t); [case_match|]; auto.
Qed.

(** Deleting the pending record an iterator is at takes the iterator off it
    first, and off the stored record of that key too. *)
Lemma notifyDelete_fwd V ins dels t e p invalid : sorted_entries V -> sorted_entries ins ->
  at_ V ins p (PAt e) true invalid t ->
  exists t', MojDbLevelTxnIterator.notifyDelete ins dels e.1 t = Ok t' /\
    at_ V ins (adv_f (live dels V) e p) (fwd_pos (CutLe e.1) ins) true true t'.
Proof.
  intros SV Si A. unfold MojDbLevelTxnIterator.notifyDelete. pose proof A as (_ & I & F & _).
  destruct (insat_tests _ _ _ I) as (_ & _ & ->). destruct (ins_at_record V ins Si _ _ _ _ _ _ A eq_refl) as [-> _]. simpl.
  rewrite bool_decide_true by done. rewrite F, (compare_at V ins Si _ _ _ _ _ A). simpl.
  assert (forall p', at_ V ins p' (PAt e) true invalid t -> exists t', MojDbLevelTxnIterator.incr_ins ins t = Ok t' /\
     at_ V ins p' (fwd_pos (CutLe e.1) ins) true invalid t') as Ins by (intros p' A'; by apply (incr_ins_at V ins Si _ _ _ _ _ A')).
  assert (forall t' p', at_ V ins p' (fwd_pos (CutLe e.1) ins) true invalid t' -> exists t'', 
     Ok (MojDbLevelTxnIterator.with_flags t' (MojDbLevelTxnIterator.m_fwd t') true) = Ok t'' /\
     at_ V ins p' (fwd_pos (CutLe e.1) ins) true true t'') as Fin.
  { intros t' p' A'. eexists. split; [done|]. pose proof A' as (_ & _ & -> & _). by eapply at_flags. }
  destruct p as [|x|]; simpl.
  - destruct (Ins _ A) as (t' & -> & A'). by apply Fin.
  - destruct (Z.ltb_spec (lexcmp x.1 e.1) 0) as [Lt|Ge].
    { rewrite bool_decide_false by (apply lexcmp_neq; lia). destruct (Ins _ A) as (t' & -> & A'). by apply Fin. }
    destruct (Z.ltb_spec 0 (lexcmp x.1 e.1)) as [Gt|Le].
    { rewrite bool_decide_false by (apply lexcmp_neq; lia). destruct (Ins _ A) as (t' & -> & A'). by apply Fin. }
    assert (x.1 = e.1) as E by (apply lexcmp_eq; lia). rewrite bool_decide_true by done.
    destruct (incr_db_at V ins dels SV _ _ _ _ A) as (t1 & -> & A1); [done|]. simpl.
    destruct (incr_ins_at V ins Si _ _ _ _ _ A1) as (t2 & -> & A2); [done|]. simpl in A2. rewrite E in A2. by apply Fin.
  - destruct (Ins _ A) as (t' & -> & A'). by apply Fin.
Qed.

Lemma notifyDelete_bwd V ins dels t e p invalid : sorted_entries V -> sorted_entries ins ->
  at_ V ins p (PAt e) false invalid t ->
  exists t', MojDbLevelTxnIterator.notifyDelete ins dels e.1 t = Ok t' /\
    at_ V ins (adv_b (live dels V) e p) (bwd_pos (CutLt e.1) ins) false true t'.
Proof.
  intros SV Si A. unfold MojDbLevelTxnIterator.notifyDelete. pose proof A as (_ & I & F & _).
  destruct (insat_tests _ _ _ I) as (_ & _ & ->). destruct (ins_at_record V ins Si _ _ _ _ _ _ A eq_refl) as [-> _]. simpl.
  rewrite bool_decide_true by done. rewrite F, (compare_at V ins Si _ _ _ _ _ A). simpl.
  assert (forall p', at_ V ins p' (PAt e) false invalid t -> exists t', MojDbLevelTxnIterator.decr_ins ins t = Ok t' /\
     at_ V ins p' (bwd_pos (CutLt e.1) ins) false invalid t') as Ins by (intros p' A'; by apply (decr_ins_at V ins Si _ _ _ _ _ A')).
  assert (forall t' p', at_ V ins p' (bwd_pos (CutLt e.1) ins) false invalid t' -> exists t'', 
     Ok (MojDbLevelTxnIterator.with_flags t' (MojDbLevelTxnIterator.m_fwd t') true) = Ok t'' /\
     at_ V ins p' (bwd_pos (CutLt e.1) ins) false true t'') as Fin.
  { intros t' p' A'. eexists. split; [done|]. pose proof A' as (_ & _ & -> & _). by eapply at_flags. }
  destruct p as [|x|]; simpl.
  - destruct (Ins _ A) as (t' & -> & A'). by apply Fin.
  - destruct (Z.ltb_spec (lexcmp x.1 e.1) 0) as [Lt|Ge].
    { rewrite bool_decide_false by (apply lexcmp_neq; lia). destruct (Ins _ A) as (t' & -> & A'). by apply Fin. }
    destruct (Z.ltb_spec 0 (lexcmp x.1 e.1)) as [Gt|Le].
    { rewrite bool_decide_false by (apply lexcmp_neq; lia). destruct (Ins _ A) as (t' & -> & A'). by apply Fin. }
    assert (x.1 = e.1) as E by (apply lexcmp_eq; lia). rewrite bool_decide_true by done.
    destruct (decr_db_at V ins dels SV _ _ _ _ A) as (t1 & -> & A1); [done|]. simpl.
    destruct (decr_ins_at V ins Si _ _ _ _ _ A1) as (t2 & -> & A2); [done|]. simpl in A2. rewrite E in A2. by apply Fin.
  - destruct (Ins _ A) as (t' & -> & A'). by apply Fin.
Qed.

Lemma notifyDelete_miss V ins dels t k p q fwd invalid : sorted_entries ins -> at_ V ins p q fwd invalid t ->
  (forall e, q = PAt e -> e.1 <> k) -> MojDbLevelTxnIterator.notifyDelete ins dels k t = Ok t.
Proof.
  intros Si A N. unfold MojDbLevelTxnIterator.notifyDelete. pose proof A as (_ & I & _ & _).
  destruct (insat_tests _ _ _ I) as (_ & _ & ->). destruct q as [|e|]; [done| |done].
  destruct (ins_at_record V ins Si _ _ _ _ _ _ A eq_refl) as [-> _]. simpl.
  rewrite bool_decide_false; [done|by apply N].
Qed.

Lemma notifyDelete_sane ins dels t k : sorted_entries ins -> sane ins t ->
  exists t', MojDbLevelTxnIterator.notifyDelete ins dels k t = Ok t' /\ sane (MojMap.del lexcmp ins k).1 t'.
Proof.
  intros S (p & q & A). set (V := it_view _) in *.
  assert (sorted_entries V) as SV by apply it_view_sorted.
  assert (forall t' p' q' fwd inv, at_ V ins p' q' fwd inv t' -> (forall e, q' = PAt e -> e.1 <> k) ->
    sane (MojMap.del lexcmp ins k).1 t') as Fin.
  { intros t' p' q' fwd inv (D & I & F & G) N. apply (sane_at V _ p' q' fwd inv).
    pose proof (insat_del _ _ _ k S I N). at_split. }
  assert ((exists e, q = PAt e /\ e.1 = k) \/ forall e, q = PAt e -> e.1 <> k) as [(e & -> & <-)|N].
  { destruct q as [|e|]; [by right| |by right]. destruct (decide (e.1 = k)); [left; by exists e|right; by intros ? [= <-]]. }
  - destruct (MojDbLevelTxnIterator.m_fwd t).
    + destruct (notifyDelete_fwd V ins dels t e p _ SV S A) as (t' & -> & A'). exists t'. split; [done|].
      apply (Fin _ _ _ _ _ A'). unfold fwd_pos. intros x. destruct (after _ _) as [y|] eqn:E; [|done].
      intros [= ->]. apply after_Some in E as (_ & B%below_le_false & _); [|done]. apply lexcmp_neq. lia.
    + destruct (notifyDelete_bwd V ins dels t e p _ SV S A) as (t' & -> & A'). exists t'. split; [done|].
      apply (Fin _ _ _ _ _ A'). unfold bwd_pos. intros x. destruct (before _ _) as [y|] eqn:E; [|done].
      intros [= ->]. apply before_Some in E as (_ & B%below_lt & _); [|done]. apply lexcmp_neq. lia.
  - rewrite (notifyDelete_miss V ins dels t k p q _ _ S A N). exists t. split; [done|]. by apply (Fin _ _ _ _ _ A).
Qed.

(** ** Every step keeps the iterators sane *)
Definition db_safe (i : MojDbLevelIterator.MojDbLevelIterator) : Prop := exists p, dbat (it_view (MojDbLevelIterator.m_it i)) p i.
Definition ins_safe (ins : entries) (i : MojDbLevelContainerIterator.MojDbLevelContainerIterator) : Prop := exists q, insat ins q i.

Lemma sane_parts ins t : sane ins t <->
  db_safe (MojDbLevelTxnIterator.m_it t) /\ ins_safe ins (MojDbLevelTxnIterator.m_insertsItertor t).
Proof.
  split.
  - intros (p & q & D & I & _). split; [by exists p|by exists q].
  - intros [[p D] [q I]]. exists p, q. at_split.
Qed.

Lemma dbat_safe V p i : dbat V p i -> db_safe i.
Proof. intros D. exists p. by destruct D as [<- D]. Qed.

Lemma incr_safe i i' : db_safe i -> MojDbLevelIterator.incr i = Ok i' -> db_safe i'.
Proof.
  intros [p D] E. destruct (decide (p = PEnd)) as [->|N].
  - destruct D as (_ & _ & E2 & _). unfold MojDbLevelIterator.incr in E. by rewrite E2 in E.
  - destruct (db_incr _ _ _ D N) as (i2 & E2 & D2). rewrite E2 in E. injection E as <-. by eapply dbat_safe.
Qed.

Lemma decr_safe i i' : db_safe i -> MojDbLevelIterator.decr i = Ok i' -> db_safe i'.
Proof.
  intros [p D] E. destruct (decide (p = PBegin)) as [->|N].
  - destruct D as (_ & E2 & _). unfold MojDbLevelIterator.decr in E. by rewrite E2 in E.
  - destruct (db_decr _ _ _ D N) as (i2 & E2 & D2). rewrite E2 in E. injection E as <-. by eapply dbat_safe.
Qed.

Lemma skip_loop_safe dels n fwd i i' : db_safe i -> MojDbLevelTxnIterator.skip_loop dels n fwd i = Ok i' -> db_safe i'.
Proof.
  revert i. induction n as [|n IH]; intros i D; simpl; (destruct (_ && _); [|by intros [= <-]]); [done|].
  destruct fwd.
  - destruct (MojDbLevelIterator.incr i) as [i1|] eqn:E; [|done]. apply IH. by eapply incr_safe.
  - destruct (MojDbLevelIterator.decr i) as [i1|] eqn:E; [|done]. apply IH. by eapply decr_safe.
Qed.

Section steps.
Context (ins : entries) (dels : list bytes) (Si : sorted_entries ins).
Import MojDbLevelTxnIterator.

Lemma skipDeleted_sane t t' : sane ins t -> skipDeleted dels t = Ok t' -> sane ins t'.
Proof.
  rewrite !sane_parts. intros [D I]. unfold skipDeleted. destruct (skip_loop _ _ _ _) as [i|] eqn:E; [|done].
  intros [= <-]. split; [|done]. by eapply skip_loop_safe.
Qed.

Lemma sane_flags t fwd invalid : sane ins t -> sane ins (with_flags t fwd invalid).
Proof. by rewrite !sane_parts. Qed.

Lemma incr_db_sane t t' : sane ins t -> incr_db dels t = Ok t' -> sane ins t'.
Proof.
  intros S. pose proof (proj1 (sane_parts _ _) S) as [D I]. unfold incr_db.
  destruct (MojDbLevelIterator.incr _) as [i|] eqn:E; [|done]. apply skipDeleted_sane. apply sane_parts. split; [|done].
  by eapply incr_safe.
Qed.

Lemma decr_db_sane t t' : sane ins t -> decr_db dels t = Ok t' -> sane ins t'.
Proof.
  intros S. pose proof (proj1 (sane_parts _ _) S) as [D I]. unfold decr_db.
  destruct (MojDbLevelIterator.decr _) as [i|] eqn:E; [|done]. apply skipDeleted_sane. apply sane_parts. split; [|done].
  by eapply decr_safe.
Qed.

Lemma incr_ins_sane t t' : sane ins t -> incr_ins ins t = Ok t' -> sane ins t'.
Proof.
  intros S. pose proof (proj1 (sane_parts _ _) S) as [D [q I]]. unfold incr_ins. destruct (decide (q = PEnd)) as [->|N].
  - unfold MojDbLevelContainerIterator.incr. by destruct (insat_tests _ _ _ I) as (-> & _).
  - destruct (ins_incr _ _ _ Si I N) as (i & -> & I'). intros [= <-]. apply sane_parts. split; [done|by eexists].
Qed.

Lemma decr_ins_sane t t' : sane ins t -> decr_ins ins t = Ok t' -> sane ins t'.
Proof.
  intros S. pose proof (proj1 (sane_parts _ _) S) as [D [q I]]. unfold decr_ins. destruct (decide (q = PBegin)) as [->|N].
  - unfold MojDbLevelContainerIterator.decr. by destruct (insat_tests _ _ _ I) as (_ & -> & _).
  - destruct (ins_decr _ _ _ Si I N) as (i & -> & I'). intros [= <-]. apply sane_parts. split; [done|by eexists].
Qed.

(** Back through the steps that led to a state, to one known to be sane. *)
Ltac sane_with step :=
  repeat first
    [ assumption
    | match goal with |- sane _ (with_flags _ _ _) => apply sane_flags end
    | match goal with E : _ = Ok ?u |- sane _ ?u => step E; clear E end ].
Ltac sane_base E :=
  first [ eapply incr_db_sane; [|exact E] | eapply decr_db_sane; [|exact E] | eapply incr_ins_sane; [|exact E]
        | eapply decr_ins_sane; [|exact E] | eapply skipDeleted_sane; [|exact E] ].
Ltac sane_basic := sane_with ltac:(fun E => sane_base E).

Lemma next_step_sane t t' : sane ins t -> next_step ins dels t = Ok t' -> sane ins t'.
Proof.
  intros S E. unfold next_step in E.
  assert (sane ins (with_flags t (m_fwd t) false)) as S' by by apply sane_flags. res_inv; sane_basic.
Qed.

Lemma prev_step_sane t t' : sane ins t -> prev_step ins dels t = Ok t' -> sane ins t'.
Proof. intros S E. unfold prev_step in E. res_inv; sane_basic. Qed.

Lemma first_sane t t' : sane ins t -> first ins dels t = Ok t' -> sane ins t'.
Proof.
  intros [D _]%sane_parts. apply skipDeleted_sane. apply sane_parts. split; simpl.
  - eapply dbat_safe. by apply db_toFirst.
  - eexists. by apply ins_toFirst.
Qed.

Lemma last_sane t t' : sane ins t -> last ins dels t = Ok t' -> sane ins t'.
Proof.
  intros [D _]%sane_parts. apply skipDeleted_sane. apply sane_parts. split; simpl.
  - eapply dbat_safe. by apply db_toLast.
  - eexists. by apply ins_toLast.
Qed.

Lemma seek_sane k t t' : sane ins t -> seek ins dels t k = Ok t' -> sane ins t'.
Proof.
  intros [D I]%sane_parts E. unfold seek in E. apply res_bind_ok in E as (t1 & E1 & [= <-]).
  apply skipDeleted_sane in E1.
  - apply sane_parts in E1 as [D1 _]. apply sane_parts. split; [done|]. eexists. by apply insat_key_of.
  - apply sane_parts. split; [|done]. eapply dbat_safe. by apply db_seek.
Qed.

Ltac sane_steps :=
  sane_with ltac:(fun E =>
    first [ eapply next_step_sane; [|exact E] | eapply prev_step_sane; [|exact E]
          | eapply first_sane; [|exact E] | eapply last_sane; [|exact E] | sane_base E ]).

Section rec.
Context (rec : MojDbLevelTxnIterator -> res MojDbLevelTxnIterator).
Context (R : forall u u', sane ins u -> rec u = Ok u' -> sane ins u').

Ltac sane_rec := sane_with ltac:(fun E => first [ sane_base E | eapply R; [|exact E] ]).

Lemma turn_forward_sane t t' : sane ins t -> turn_forward ins dels rec t = Ok t' -> sane ins t'.
Proof.
  intros S E. unfold turn_forward in E. apply res_bind_ok in E as (k & _ & E).
  apply (sane_flags t true false) in S. cbv zeta in E. revert S E. generalize (with_flags t true false). clear t.
  intros t S E. res_inv; sane_rec.
Qed.

Lemma turn_back_sane t t' : sane ins t -> turn_back ins dels rec t = Ok t' -> sane ins t'.
Proof.
  intros S E. unfold turn_back in E. apply res_bind_ok in E as (k & _ & E).
  apply (sane_flags t false false) in S. cbv zeta in E. revert S E. generalize (with_flags t false false). clear t.
  intros t S E. res_inv; sane_rec.
Qed.

Lemma next_with_sane t t' : sane ins t -> next_with ins dels rec t = Ok t' -> sane ins t'.
Proof.
  intros S E. unfold next_with in E. destruct (isBegin t); [sane_steps|]. destruct (m_fwd t); simpl in E.
  - destruct (m_invalid t); [|sane_steps]. injection E as <-. by apply sane_flags.
  - apply res_bind_ok in E as (u & E1 & E). apply (next_step_sane u); [|done]. by apply (turn_forward_sane t).
Qed.

Lemma prev_with_sane t t' : sane ins t -> prev_with ins dels rec t = Ok t' -> sane ins t'.
Proof.
  intros S E. unfold prev_with in E. destruct (isEnd t); [sane_steps|]. destruct (m_fwd t).
  - apply res_bind_ok in E as (u & E1 & E). apply (prev_step_sane u); [|done]. by apply (turn_back_sane t).
  - destruct (m_invalid t); [|sane_steps]. injection E as <-. by apply sane_flags.
Qed.
End rec.

Lemma move_sane mv t t' : sane ins t -> run_move ins dels mv t = Ok t' -> sane ins t'.
Proof.
  destruct mv; simpl; [apply first_sane|apply last_sane|apply seek_sane| |].
  - apply next_with_sane. intros u u'. by apply next_with_sane.
  - apply prev_with_sane. intros u u'. by apply prev_with_sane.
Qed.
End steps.

(** ** The transaction *)
Record txn_ok (t : MojDbLevelTableTxn) : Prop := {
  ok_pending : pending_ok (m_pendingValues t) (m_pendingDeletes t);
  ok_iterators : Forall (fun i => sane (m_pendingValues t) i.2) (m_iterators t)
}.

(** What the transaction shows of a database with the contents [l]. *)
Definition txn_view (l : entries) (t : MojDbLevelTableTxn) : entries := merged (m_pendingValues t) (m_pendingDeletes t) l.

Lemma notify_all_ok f (P : MojDbLevelTxnIterator -> Prop) its :
  Forall (fun i : nat * MojDbLevelTxnIterator => exists t, f i.2 = Ok t /\ P t) its ->
  exists its', notify_all f its = Ok its' /\ Forall2 (fun i i' => i'.1 = i.1 /\ f i.2 = Ok i'.2 /\ P i'.2) its its'.
Proof.
  intros F. unfold notify_all.
  enough (forall out, exists its', res_fold (fun out i => let? it := f i.2 in Ok (out ++ [(i.1, it)])) out its = Ok (out ++ its') /\
    Forall2 (fun i i' : nat * MojDbLevelTxnIterator => i'.1 = i.1 /\ f i.2 = Ok i'.2 /\ P i'.2) its its') as G by apply (G []).
  induction F as [|[h t] its (t' & E & Pt) F IH]; intros out; simpl in *; [exists []; by rewrite app_nil_r|].
  rewrite E. simpl. destruct (IH (out ++ [(h, t')])) as (its' & -> & F2). exists ((h, t') :: its').
  split; [by rewrite <- app_assoc|]. by constructor.
Qed.

Lemma forall2_sane (its its' : list (nat * MojDbLevelTxnIterator)) f P :
  Forall2 (fun i i' : nat * MojDbLevelTxnIterator => i'.1 = i.1 /\ f i.2 = Ok i'.2 /\ P i'.2) its its' ->
  Forall (fun i : nat * MojDbLevelTxnIterator => P i.2) its'.
Proof. induction 1 as [|i i' its its' (_ & _ & Hp)]; by constructor. Qed.

Lemma Put_ok t k v : txn_ok t -> exists t', Put t k v = Ok t' /\ txn_ok t' /\
  (forall l, sorted_entries l -> txn_view l t' = MojMap.put lexcmp (txn_view l t) k v).
Proof.
  intros [Po It]. unfold Put.
  destruct (notify_all_ok (MojDbLevelTxnIterator.notifyPut (MojMap.put lexcmp (m_pendingValues t) k v) k)
              (sane (MojMap.put lexcmp (m_pendingValues t) k v)) (m_iterators t)) as (its & -> & F).
  { eapply Forall_impl; [exact It|]. intros i S. apply notifyPut_sane; [by destruct Po|done]. }
  eexists. split; [done|]. split.
  - split; simpl; [by apply pending_put|]. by eapply forall2_sane.
  - intros l Sl. by apply merged_put.
Qed.

Lemma Delete_ok t k : txn_ok t -> exists t', Delete t k = Ok t' /\ txn_ok t' /\
  (forall l, sorted_entries l -> txn_view l t' = (MojMap.del lexcmp (txn_view l t) k).1).
Proof.
  intros [Po It]. unfold Delete.
  destruct (notify_all_ok (MojDbLevelTxnIterator.notifyDelete (m_pendingValues t) (m_pendingDeletes t) k)
              (sane (MojMap.del lexcmp (m_pendingValues t) k).1) (m_iterators t)) as (its & -> & F).
  { eapply Forall_impl; [exact It|]. intros i S. apply notifyDelete_sane; [by destruct Po|done]. }
  eexists. split; [done|]. split.
  - split; simpl; [by apply pending_del|]. by eapply forall2_sane.
  - intros l Sl. by apply merged_del.
Qed.

Lemma Get_ok d t k : txn_ok t -> Get d t k = Ok (MojMap.get lexcmp (txn_view (db_view d) t) k).
Proof.
  intros [Po _]. unfold Get, txn_view. rewrite merged_get by (done || apply db_view_sorted).
  destruct (MojSet.contains _ _ _); [done|]. rewrite db_Get_view. by destruct (MojMap.get _ _ _).
Qed.

Lemma createIterator_ok d t h : txn_ok t -> exists t', createIterator d t h = Ok t' /\ txn_ok t' /\
  forall l, txn_view l t' = txn_view l t.
Proof.
  intros [Po It]. unfold createIterator. pose proof (pend_sorted _ _ Po) as S.
  destruct (make_R (db_view d) _ (m_pendingDeletes t) (db_view_sorted d) S d eq_refl) as (it & -> & A).
  eexists. split; [done|]. split; [|done]. split; simpl; [done|]. constructor; [|done]. by eapply sane_at.
Qed.

Lemma detach_ok t h : txn_ok t -> txn_ok (detach t h) /\ forall l, txn_view l (detach t h) = txn_view l t.
Proof.
  intros [Po It]. split; [|done]. split; simpl; [done|]. rewrite Forall_forall in It |- *. intros i Hi.
  apply It. apply list_elem_of_In in Hi. apply list_elem_of_In. by apply List.filter_In in Hi as [? _].
Qed.

Lemma iterator_ok t h it : txn_ok t -> iterator t h = Ok it -> sane (m_pendingValues t) it.
Proof.
  intros [_ It]. unfold iterator. destruct (List.find _ _) as [i|] eqn:E; [|done]. intros [= <-].
  apply List.find_some in E as [Hi _]. rewrite Forall_forall in It. apply It. by apply list_elem_of_In.
Qed.

Lemma set_iterator_ok t h it : txn_ok t -> sane (m_pendingValues t) it ->
  txn_ok (set_iterator t h it) /\ forall l, txn_view l (set_iterator t h it) = txn_view l t.
Proof.
  intros [Po It] S. split; [|done]. split; simpl; [done|]. apply Forall_forall. intros i Hi.
  apply list_elem_of_In, List.in_map_iff in Hi as (j & <- & Hj). destruct (Nat.eqb j.1 h); [done|].
  rewrite Forall_forall in It. apply It. by apply list_elem_of_In.
Qed.

(** The client's calls, iterators by number. *)
Inductive TOp := OpPut (k v : bytes) | OpDelete (k : bytes) | OpGet (k : bytes) | OpOpen (h : nat) | OpClose (h : nat)
               | OpMove (h : nat) (mv : Move).

Definition run_op (d : DB) (t : MojDbLevelTableTxn) (op : TOp) : res (MojDbLevelTableTxn * list (option bytes)) :=
  match op with
  | OpPut k v => let? t := Put t k v in Ok (t, [])
  | OpDelete k => let? t := Delete t k in Ok (t, [])
  | OpGet k => let? v := Get d t k in Ok (t, [v])
  | OpOpen h => let? t := createIterator d t h in Ok (t, [])
  | OpClose h => Ok (detach t h, [])
  | OpMove h mv =>
      let? it := iterator t h in
      let? it := run_move (m_pendingValues t) (m_pendingDeletes t) mv it in Ok (set_iterator t h it, [])
  end.

Definition run_ops (d : DB) (t : MojDbLevelTableTxn) (ops : list TOp) : res (MojDbLevelTableTxn * list (option bytes)) :=
  res_fold (fun s op => let? (t, out) := run_op d s.1 op in Ok (t, s.2 ++ out)) (t, []) ops.

Definition spec_op (m : entries) (op : TOp) : entries * list (option bytes) :=
  match op with
  | OpPut k v => (MojMap.put lexcmp m k v, [])
  | OpDelete k => ((MojMap.del lexcmp m k).1, [])
  | OpGet k => (m, [MojMap.get lexcmp m k])
  | _ => (m, [])
  end.
Definition spec_ops (m : entries) (ops : list TOp) : entries * list (option bytes) :=
  fold_left (fun s op => ((spec_op s.1 op).1, s.2 ++ (spec_op s.1 op).2)) ops (m, []).

Lemma run_op_ok d t op t' out : txn_ok t -> run_op d t op = Ok (t', out) ->
  txn_ok t' /\ (txn_view (db_view d) t', out) = spec_op (txn_view (db_view d) t) op.
Proof.
  intros K. pose proof (db_view_sorted d) as Sd. destruct op; simpl; intros E.
  - destruct (Put_ok t k v K) as (t1 & E1 & K1 & V1). rewrite E1 in E. injection E as <- <-. by rewrite V1.
  - destruct (Delete_ok t k K) as (t1 & E1 & K1 & V1). rewrite E1 in E. injection E as <- <-. by rewrite V1.
  - rewrite (Get_ok d t k K) in E. by injection E as <- <-.
  - destruct (createIterator_ok d t h K) as (t1 & E1 & K1 & V1). rewrite E1 in E. injection E as <- <-. by rewrite V1.
  - injection E as <- <-. destruct (detach_ok t h K) as [K1 V1]. done.
  - apply res_bind_ok in E as (it & E1 & E). apply res_bind_ok in E as (it' & E2 & [= <- <-]).
    destruct (set_iterator_ok t h it' K) as [K1 V1]; [|done].
    eapply (move_sane _ _ (pend_sorted _ _ (ok_pending _ K))); [|exact E2]. by eapply iterator_ok.
Qed.

Lemma txn_begin_ok : txn_ok begin.
Proof. split; [apply pending_nil|constructor]. Qed.

Lemma merged_nil l : merged [] [] l = l.
Proof.
  unfold merged, overlay, live. simpl. induction l as [|e l IH]; [done|]. simpl. f_equal. exact IH.
Qed.

Lemma run_ops_ok d t ops t' out : txn_ok t -> run_ops d t ops = Ok (t', out) ->
  txn_ok t' /\ (txn_view (db_view d) t', out) = spec_ops (txn_view (db_view d) t) ops.
Proof.
  unfold run_ops, spec_ops. generalize (@nil (option bytes)) as o. revert t. induction ops as [|op ops IH]; intros t o K; simpl.
  - intros [= <- <-]. done.
  - intros E. apply res_bind_ok in E as (s1 & E1 & E). apply res_bind_ok in E1 as ([t1 o1] & E1 & [= <-]).
    destruct (run_op_ok d t op t1 o1 K E1) as [K1 V1]. destruct (IH t1 (o ++ o1) K1 E) as [K2 V2].
    split; [done|]. rewrite V2. by rewrite <- V1.
Qed.

(** ** Committing *)
Lemma live_cons k dels l : sorted_entries l -> live (k :: dels) l = live dels (MojMap.del lexcmp l k).1.
Proof.
  intros S. apply entries_ext; [by apply live_sorted|by apply live_sorted, mdel_sorted|]. intros e.
  rewrite !elem_of_live, elem_of_mdel, elem_of_cons by done. tauto.
Qed.

Lemma batch_dels dels l : sorted_entries l -> fold_left apply_op (map BatchDelete dels) l = live dels l.
Proof.
  revert l. induction dels as [|k dels IH]; intros l S; simpl.
  - symmetry. exact (merged_nil l).
  - rewrite IH by by apply mdel_sorted. by rewrite live_cons.
Qed.

Lemma batch_puts ins l : fold_left apply_op (map (fun e => BatchPut e.1 e.2) ins) l = overlay ins l.
Proof. revert l. induction ins as [|e ins IH]; intros l; simpl; [done|]. apply IH. Qed.

Lemma writeBatch_view t l : sorted_entries l -> fold_left apply_op (writeBatch t) l = txn_view l t.
Proof. intros S. unfold writeBatch. by rewrite fold_left_app, batch_dels, batch_puts. Qed.

Lemma commit_view d t d' t' its : commitImpl d t = (d', t', its, None) -> db_view d' = txn_view (db_view d) t /\ t' = begin.
Proof.
  pose proof (writeBatch_view t (db_view d) (db_view_sorted d)) as W. unfold commitImpl.
  destruct (writeBatch t) as [|op b]; [by intros [= <- <- _]|].
  destruct (db_Write d (op :: b)) as [d1|] eqn:E; [|done]. intros [= <- <- _]. split; [|done].
  by rewrite (db_Write_view _ _ _ E).
Qed.
End transaction.

(** C14: A LevelDB transaction behaves as one ordered map: whatever sequence of puts,
    deletes and reads a client makes, with iterators opened, moved and closed between
    them, every read returns what the map holds, and a commit that succeeds leaves
    exactly that map in the database and the transaction empty. *)
Theorem txn_refines `{LevelDBLaws} (d : DB) ops t out :
  run_ops d MojDbLevelTableTxn.begin ops = Ok (t, out) ->
  out = (spec_ops (db_view d) ops).2 /\
  forall d' t' its, MojDbLevelTableTxn.commitImpl d t = (d', t', its, None) ->
    db_view d' = (spec_ops (db_view d) ops).1 /\ t' = MojDbLevelTableTxn.begin.
Proof.
  intros E. destruct (run_ops_ok d _ ops t out txn_begin_ok E) as [K V].
  assert (txn_view (db_view d) MojDbLevelTableTxn.begin = db_view d) as N by apply merged_nil.
  rewrite N in V. rewrite <- V. split; [done|]. intros d' t' its C. by apply (commit_view _ _ _ _ its).
Qed.

