(* ===== verification/LevelDbCursor.v ===== *)
(** * Cursors of the LevelDB engine

    Deleting and counting the records with a prefix, over the merged map of the
    transaction; and a LevelDB over sorted lists, on which the properties of the
    engine are tried out. *)

From S2P Require Import Prelude Containers DbKey OrderedMap LevelDb LevelDbSpec LevelDbTxn.

(** ** Prefixes *)
Definition starts_with (p k : bytes) : bool := (length p <=? length k)%nat && bool_decide (take (length p) k = p).

Lemma starts_with_spec p k : starts_with p k = true <-> p `prefix_of` k.
Proof.
  unfold starts_with. rewrite andb_true_iff, Nat.leb_le, bool_decide_eq_true. split.
  - intros [_ E]. exists (drop (length p) k). rewrite <- E at 1. by rewrite take_drop.
  - intros [r ->]. rewrite length_app, take_app_length. split; [lia|done].
Qed.

Lemma prefix_le p k : p `prefix_of` k -> lexcmp p k <= 0.
Proof. intros [r ->]. apply MojDbKey.lexcmp_prefix. Qed.

(** The keys with a prefix are consecutive. *)
Lemma prefix_between p e k : p `prefix_of` k -> lexcmp p e <= 0 -> lexcmp e k <= 0 -> p `prefix_of` e.
Proof.
  intros [r ->] Lo Hi. destruct (decide (p `prefix_of` e)) as [|N]; [done|].
  pose proof (MojDbKey.lexcmp_above p e r N) as A. pose proof (comp_anti lexcmp p e). lia.
Qed.

(** The records that are to go, and the others. *)
Definition with_prefix (p : bytes) (m : entries) : entries := List.filter (fun e => starts_with p e.1) m.
Definition without_prefix (p : bytes) (m : entries) : entries := List.filter (fun e => negb (starts_with p e.1)) m.

(** ** Deleting the record an iterator is at *)
Section current.
Context `{LevelDBLaws} (V ins : entries) (dels : list bytes).
Context (SV : sorted_entries V) (Po : pending_ok ins dels).
Import MojDbLevelTxnIterator (MojDbLevelTxnIterator).
Let Si : sorted_entries ins := pend_sorted _ _ Po.
Abbreviation ins' k := (MojMap.del lexcmp ins k).1.
Abbreviation dels' k := (MojSet.put lexcmp dels k).

Lemma after_ins' k : after (CutLe k) (ins' k) = after (CutLe k) ins.
Proof.
  apply after_same; [by apply mdel_sorted|done|]. intros x B%below_le_false. rewrite elem_of_mdel by done.
  split; [by intros [? _]|]. intros Hx. split; [done|]. apply lexcmp_neq. lia.
Qed.

Lemma after_live' k : after (CutLe k) (live (dels' k) V) = after (CutLe k) (live dels V).
Proof.
  apply after_same; [by apply live_sorted..|]. intros x B%below_le_false.
  rewrite !elem_of_live, elem_of_sput by apply Po. split; [tauto|]. intros [Hx N]. split; [done|].
  intros [E|]; [|done]. rewrite E, (comp_refl lexcmp) in B. lia.
Qed.

(** Where the iterator is left: in a hole, or still on the deleted record of the
    database. *)
Definition deleted (e : entry) (t : MojDbLevelTxnIterator) : Prop :=
  R_fwd V (ins' e.1) (dels' e.1) (CutLe e.1) true t \/
  at_ V (ins' e.1) (PAt e) (fwd_pos (CutLe e.1) (ins' e.1)) true false t.

Lemma ins_pos' (e : entry) i : insat ins (fwd_pos (CutLe e.1) ins) i -> insat (ins' e.1) (fwd_pos (CutLe e.1) (ins' e.1)) i.
Proof.
  unfold fwd_pos. rewrite after_ins'. intros I. apply insat_del; [done|done|]. intros x.
  pose proof (after_spec (CutLe e.1) ins Si) as A. destruct (after _ ins) as [y|]; [|done]. intros [= <-].
  destruct A as (_ & B%below_le_false & _). apply lexcmp_neq. lia.
Qed.

Lemma notifyDelete_current c t e : R_fwd V ins dels c false t -> after c (merged ins dels V) = Some e ->
  exists t', MojDbLevelTxnIterator.notifyDelete ins dels e.1 t = Ok t' /\ deleted e t'.
Proof.
  intros A E. destruct (after_M_bounds V ins dels SV Si c e E) as (B & B1 & B2).
  rewrite (after_M V ins dels SV Si) in E.
  assert ((exists v, after c ins = Some (e.1, v)) \/ (forall x, after c ins = Some x -> lexcmp e.1 x.1 < 0)) as [[v Y]|Y].
  { destruct (after c ins) as [y|]; [|by right]. specialize (B2 y eq_refl).
    destruct (Z.eq_dec (lexcmp e.1 y.1) 0) as [Q|Q]; [|right; intros ? [= <-]; lia]. apply lexcmp_eq in Q.
    left. exists y.2. rewrite Q. by destruct y. }
  - assert (e = (e.1, v)) as Ee.
    { rewrite Y in E. destruct (after c (live dels V)) as [x|]; simpl in E; [|congruence].
      destruct (Z.ltb_spec (lexcmp x.1 e.1) 0) as [Lt|]; [|congruence]. injection E as ->. rewrite (comp_refl lexcmp) in Lt. lia. }
    rewrite <- Ee in Y. unfold R_fwd in A. unfold fwd_pos at 2 in A. rewrite Y in A.
    destruct (notifyDelete_fwd V ins dels t e _ _ SV Si A) as (t' & -> & A'). exists t'. split; [done|]. left.
    unfold R_fwd. destruct A' as (D & I & F & G). apply ins_pos' in I.
    rewrite adv_f_spec in D by (done || by apply live_sorted). unfold fwd_pos at 1. rewrite after_live'. at_split.
  - assert (after c (live dels V) = Some e) as X.
    { destruct (after c (live dels V)) as [x|], (after c ins) as [y|]; simpl in E; try done.
      - destruct (_ <? 0); [done|]. injection E as ->. specialize (Y e eq_refl). rewrite (comp_refl lexcmp) in Y. lia.
      - injection E as ->. specialize (Y e eq_refl). rewrite (comp_refl lexcmp) in Y. lia. }
    exists t. rewrite (notifyDelete_miss V ins dels t e.1 _ _ _ _ Si A).
    + split; [done|]. right. destruct A as (D & I & F & G). unfold fwd_pos at 1 in D. rewrite X in D.
      assert (fwd_pos c ins = fwd_pos (CutLe e.1) ins) as Q by (unfold fwd_pos; by rewrite (after_skip c e.1)).
      rewrite Q in I. apply ins_pos' in I. at_split.
    + unfold fwd_pos. destruct (after c ins) as [y|]; [|done]. intros ? [= <-]. specialize (Y y eq_refl).
      intros Q. rewrite Q, (comp_refl lexcmp) in Y. lia.
Qed.

(** The next step takes it to the record that follows. *)
Lemma next_deleted e t : deleted e t ->
  exists t', MojDbLevelTxnIterator.next (ins' e.1) (dels' e.1) t = Ok t' /\ R_fwd V (ins' e.1) (dels' e.1) (CutLe e.1) false t'.
Proof.
  assert (sorted_entries (ins' e.1)) as Si' by by apply mdel_sorted. intros [A|A]; [by apply next_hole|].
  unfold MojDbLevelTxnIterator.next. rewrite (rec_next V (ins' e.1) (dels' e.1) _ _ _ _ A) by done.
  assert (forall x, after (CutLe e.1) (ins' e.1) = Some x -> lexcmp e.1 x.1 < 0) as Y.
  { intros x (_ & B%below_le_false & _)%after_Some; [|done]. pose proof (comp_anti lexcmp e.1 x.1). lia. }
  destruct (next_step_raw V (ins' e.1) (dels' e.1) SV Si' _ _ _ _ e A) as (t' & -> & A'); [done|apply is_begin_fwd| |].
  - rewrite pos_opt_fwd. simpl. destruct (after _ _) as [x|]; [|done]. specialize (Y x eq_refl).
    by rewrite (proj2 (Z.ltb_lt _ _)).
  - exists t'. split; [done|]. unfold R_fwd. simpl in A'. rewrite bool_decide_true in A' by done.
    assert (adv_f (ins' e.1) e (fwd_pos (CutLe e.1) (ins' e.1)) = fwd_pos (CutLe e.1) (ins' e.1)) as <-; [|exact A'].
    destruct (fwd_pos_cases (CutLe e.1) (ins' e.1)) as [[_ ->]|(x & E & ->)]; [done|]. simpl.
    rewrite bool_decide_false; [done|]. specialize (Y x E). intros Q. rewrite Q, (comp_refl lexcmp) in Y. lia.
Qed.
End current.

(** ** The cursor *)
Section cursor.
Context `{LevelDBLaws} {Q : Type} (offsetQuota : Q -> Z -> res Q) (V : entries) (SV : sorted_entries V).
Import MojDbLevelTableTxn MojDbLevelCursor.
Import MojDbLevelTxnIterator (MojDbLevelTxnIterator).

(** The quota after the records of a list have gone. *)
Definition rec_size (e : entry) : Z := Z.of_nat (length e.1) + Z.of_nat (length e.2).
Definition release (q : Q) (l : entries) : res Q := res_fold (fun q e => offsetQuota q (- rec_size e)) q l.

Lemma iterator_notify f P (its its' : list (nat * MojDbLevelTxnIterator)) h it :
  Forall2 (fun i i' : nat * MojDbLevelTxnIterator => i'.1 = i.1 /\ f i.2 = Ok i'.2 /\ P i'.2) its its' ->
  List.find (fun i => Nat.eqb i.1 h) its = Some (h, it) ->
  exists it', List.find (fun i => Nat.eqb i.1 h) its' = Some (h, it') /\ f it = Ok it'.
Proof.
  induction 1 as [|i i' its its' (Eh & Ef & _) F IH]; simpl; [done|]. rewrite Eh. destruct (Nat.eqb_spec i.1 h) as [E|N].
  - intros [= Hi]. exists i'.2. rewrite Hi in Ef. split; [|done]. destruct i'. simpl in *. by rewrite Eh, E.
  - exact IH.
Qed.

Lemma iterator_find t h it : iterator t h = Ok it <-> List.find (fun i => Nat.eqb i.1 h) (m_iterators t) = Some (h, it).
Proof.
  unfold iterator. destruct (List.find _ _) as [[h' it']|] eqn:E; [|done].
  apply List.find_some in E as [_ E%Nat.eqb_eq]. simpl in *. subst. split; congruence.
Qed.

Lemma iterator_set t h it it' : iterator t h = Ok it -> iterator (set_iterator t h it') h = Ok it'.
Proof.
  rewrite !iterator_find. unfold set_iterator, with_iterators. simpl. induction (m_iterators t) as [|[j u] l IH]; simpl; [done|].
  destruct (Nat.eqb_spec j h) as [->|N]; simpl.
  - intros _. by rewrite Nat.eqb_refl.
  - by rewrite (proj2 (Nat.eqb_neq _ _) N).
Qed.

(** A cursor's transaction with its iterator before the records after [c]. *)
Record cursor_at (c : Cut) (t : Txn (Q := Q)) (h : nat) : Prop := {
  cur_ok : txn_ok (m_ttxn t);
  cur_it : exists it, iterator (m_ttxn t) h = Ok it /\
             R_fwd V (m_pendingValues (m_ttxn t)) (m_pendingDeletes (m_ttxn t)) c false it
}.
Abbreviation view t := (txn_view V (m_ttxn t)).

Lemma startsWith_at c t h p : cursor_at c t h ->
  startsWith t h p = Ok (match after c (view t) with Some e => starts_with p e.1 | None => false end).
Proof.
  intros [K (it & Ei & A)]. unfold startsWith, valid. rewrite Ei. simpl.
  pose proof (pend_sorted _ _ (ok_pending _ K)) as Si. rewrite (valid_R_fwd V _ _ SV Si c false it A).
  change (merged _ _ V) with (view t). destruct (after c (view t)) as [e|] eqn:E; [|done]. simpl.
  unfold MojDbLevelTxnIterator.keyStartsWith. by destruct (record_R_fwd V _ _ SV Si c false it e A E) as [-> _].
Qed.

Lemma recSize_at c t h e : cursor_at c t h -> after c (view t) = Some e -> recSize t h = Ok (rec_size e).
Proof.
  intros [K (it & Ei & A)] E. unfold recSize, valid, current. rewrite Ei. simpl.
  pose proof (pend_sorted _ _ (ok_pending _ K)) as Si. rewrite (valid_R_fwd V _ _ SV Si c false it A).
  change (merged _ _ V) with (view t). rewrite E. simpl. by destruct (record_R_fwd V _ _ SV Si c false it e A E) as [-> ->].
Qed.

Lemma seek_at t h k it : txn_ok (m_ttxn t) -> iterator (m_ttxn t) h = Ok it -> over V it ->
  exists t', move (fun ins dels it => MojDbLevelTxnIterator.seek ins dels it k) t h = Ok t' /\
    cursor_at (CutLt k) t' h /\ view t' = view t /\ m_quota t' = m_quota t.
Proof.
  intros K Ei O. unfold move. rewrite Ei. simpl. pose proof (pend_sorted _ _ (ok_pending _ K)) as Si.
  destruct (seek_R V _ (m_pendingDeletes (m_ttxn t)) SV Si k it O) as (it' & -> & A). simpl. eexists. split; [done|].
  destruct (set_iterator_ok (m_ttxn t) h it' K) as [K' V']; [by eapply sane_at|]. split; [|by split].
  split; simpl; [done|]. exists it'. split; [by eapply iterator_set|done].
Qed.

Lemma next_at c t h e : cursor_at c t h -> after c (view t) = Some e ->
  exists t', move MojDbLevelTxnIterator.next t h = Ok t' /\ cursor_at (CutLe e.1) t' h /\ view t' = view t /\ m_quota t' = m_quota t.
Proof.
  intros [K (it & Ei & A)] E. unfold move. rewrite Ei. simpl. pose proof (pend_sorted _ _ (ok_pending _ K)) as Si.
  destruct (next_from_fwd V _ _ SV Si c it e A E) as (it' & -> & A'). simpl. eexists. split; [done|].
  destruct (set_iterator_ok (m_ttxn t) h it' K) as [K' V']; [by eapply sane_at|]. split; [|by split].
  split; simpl; [done|]. exists it'. split; [by eapply iterator_set|done].
Qed.

Lemma Delete_iterator t k h it it' : txn_ok t -> iterator t h = Ok it ->
  MojDbLevelTxnIterator.notifyDelete (m_pendingValues t) (m_pendingDeletes t) k it = Ok it' ->
  exists t', Delete t k = Ok t' /\ iterator t' h = Ok it' /\
    m_pendingValues t' = (MojMap.del lexcmp (m_pendingValues t) k).1 /\
    m_pendingDeletes t' = MojSet.put lexcmp (m_pendingDeletes t) k.
Proof.
  intros K Ei%iterator_find E. unfold Delete.
  destruct (notify_all_ok (MojDbLevelTxnIterator.notifyDelete (m_pendingValues t) (m_pendingDeletes t) k)
              (sane (MojMap.del lexcmp (m_pendingValues t) k).1) (m_iterators t)) as (its & -> & F).
  { eapply Forall_impl; [apply K|]. intros i S. apply notifyDelete_sane; [apply K|done]. }
  eexists. split; [done|]. split; [|done]. apply iterator_find. simpl.
  destruct (iterator_notify _ _ _ _ h it F Ei) as (it1 & -> & E1). rewrite E in E1. by injection E1 as ->.
Qed.

(** Deleting the current record and stepping on. *)
Lemma del_next_at c t h e q : cursor_at c t h -> after c (view t) = Some e -> offsetQuota (m_quota t) (- rec_size e) = Ok q ->
  exists t1 t2, del offsetQuota t h = Ok t1 /\ move MojDbLevelTxnIterator.next t1 h = Ok t2 /\
    cursor_at (CutLe e.1) t2 h /\ view t2 = (MojMap.del lexcmp (view t) e.1).1 /\ m_quota t2 = q.
Proof.
  intros C E Eq. pose proof (recSize_at c t h e C E) as Er. destruct C as [K (it & Ei & A)]. pose proof (ok_pending _ K) as Po.
  unfold del. rewrite Ei. simpl. destruct (record_R_fwd V _ _ SV (pend_sorted _ _ Po) c false it e A E) as [-> _].
  simpl. rewrite Er. simpl.
  destruct (notifyDelete_current V _ _ SV Po c it e A E) as (it1 & E1 & D1).
  destruct (Delete_ok (m_ttxn t) e.1 K) as (x & Ex & K1 & V1).
  destruct (Delete_iterator (m_ttxn t) e.1 h it it1 K Ei E1) as (x' & Ex' & Ei1 & Ev & Ed).
  rewrite Ex in Ex'. injection Ex' as <-. rewrite Ex. simpl. rewrite Eq.
  destruct (next_deleted V _ _ SV Po e it1 D1) as (it2 & E2 & A2). simpl.
  exists {| m_ttxn := x; m_quota := q |}. unfold move. simpl. rewrite Ei1. simpl. rewrite Ev, Ed, E2. simpl.
  rewrite <- Ev, <- Ed in A2. destruct (set_iterator_ok x h it2 K1) as [K2 V2]; [by eapply sane_at|].
  eexists. split; [done|]. split; [done|]. split; [|split; [|done]].
  - split; simpl; [done|]. exists it2. split; [by eapply iterator_set|done].
  - simpl. rewrite V2. by apply V1.
Qed.

(** ** The prefix loops *)
Lemma elem_of_with p m e : e ∈ with_prefix p m <-> e ∈ m /\ p `prefix_of` e.1.
Proof. unfold with_prefix. by rewrite !list_elem_of_In, List.filter_In, starts_with_spec. Qed.
Lemma elem_of_without p m e : e ∈ without_prefix p m <-> e ∈ m /\ ~ p `prefix_of` e.1.
Proof.
  unfold without_prefix. rewrite !list_elem_of_In, List.filter_In, <- starts_with_spec. destruct (starts_with _ _); naive_solver.
Qed.

(** Where the loops stand: at or after the first key with the prefix, no such key
    behind. *)
Definition loop_at (p : bytes) (c : Cut) (m : entries) : Prop :=
  (forall k, below c k = false -> lexcmp p k <= 0) /\ (forall x, x ∈ m -> p `prefix_of` x.1 -> below c x.1 = false).

Lemma loop_start p m : loop_at p (CutLt p) m.
Proof.
  assert (forall k, below (CutLt p) k = false <-> lexcmp p k <= 0) as B
    by (intros k; rewrite below_lt_false; pose proof (comp_anti lexcmp k p); lia).
  split; [intros k; apply B|]. intros x _ Hx. by apply B, prefix_le.
Qed.

(** At a record without the prefix, or at the end, none is left. *)
Lemma loop_end p c m : sorted_entries m -> loop_at p c m ->
  match after c m with Some e => starts_with p e.1 | None => false end = false -> with_prefix p m = [] /\ without_prefix p m = m.
Proof.
  intros S [L1 L2] E. assert (forall x, x ∈ m -> ~ p `prefix_of` x.1) as N.
  { intros x Hx P. specialize (L2 x Hx P). pose proof (after_spec c m S) as A. destruct (after c m) as [e|].
    - destruct A as (_ & A2 & A3). apply not_true_iff_false in E. rewrite starts_with_spec in E.
      apply E. apply (prefix_between p _ x.1); [done|by apply L1|by apply A3].
    - specialize (A x Hx). congruence. }
  split; (apply entries_ext; [by apply filter_sorted|done || constructor|]); intros e.
  - rewrite elem_of_with. split; [intros [He P]; by destruct (N e He)|by intros ?%not_elem_of_nil].
  - rewrite elem_of_without. split; [tauto|]. intros He. split; [done|by apply N].
Qed.

(** At a record with it, that one is the first. *)
Lemma loop_step p c m e : sorted_entries m -> loop_at p c m -> after c m = Some e -> starts_with p e.1 = true ->
  with_prefix p m = e :: with_prefix p (MojMap.del lexcmp m e.1).1 /\
  without_prefix p (MojMap.del lexcmp m e.1).1 = without_prefix p m /\
  loop_at p (CutLe e.1) (MojMap.del lexcmp m e.1).1.
Proof.
  intros S [L1 L2] E P. pose proof (mdel_sorted m e.1 S) as Sd. apply after_Some in E as (E1 & E2 & E3); [|done].
  apply starts_with_spec in P.
  assert (forall x, x ∈ m -> p `prefix_of` x.1 -> x.1 <> e.1 -> lexcmp e.1 x.1 < 0) as Lt.
  { intros x Hx Px N. specialize (E3 x Hx (L2 x Hx Px)). destruct (Z.eq_dec (lexcmp e.1 x.1) 0) as [Q0|]; [|lia].
    apply lexcmp_eq in Q0. congruence. }
  split; [|split].
  - apply entries_ext; [by apply filter_sorted| |].
    + apply MojRbTreeBase.sorted_cons. split; [|by apply filter_sorted]. apply Forall_forall.
      intros x [[Hx N]%elem_of_mdel Px]%elem_of_with; [by apply Lt|done].
    + intros x. rewrite elem_of_cons, !elem_of_with, elem_of_mdel by done. split.
      * intros [Hx Px]. destruct (decide (x.1 = e.1)) as [Q0|]; [left; by apply (sorted_key m)|right; tauto].
      * intros [->|]; [done|tauto].
  - apply entries_ext; [by apply filter_sorted..|]. intros x. rewrite !elem_of_without, elem_of_mdel by done.
    split; [tauto|]. intros [Hx N]. split; [|done]. split; [done|]. intros Q0. rewrite Q0 in N. done.
  - split.
    + intros k B%below_le_false. apply (comp_trans lexcmp p e.1); [by apply L1|]. pose proof (comp_anti lexcmp e.1 k). lia.
    + intros x [Hx N]%elem_of_mdel Px; [|done]. apply below_le_false. specialize (Lt x Hx Px N).
      pose proof (comp_anti lexcmp e.1 x.1). lia.
Qed.

Lemma delPrefix_loop_at p fuel c t h q : cursor_at c t h -> loop_at p c (view t) ->
  (length (with_prefix p (view t)) <= fuel)%nat -> release (m_quota t) (with_prefix p (view t)) = Ok q ->
  exists t', delPrefix_loop offsetQuota fuel t h p = Ok t' /\ txn_ok (m_ttxn t') /\
    view t' = without_prefix p (view t) /\ m_quota t' = q.
Proof.
  revert c t. induction fuel as [|fuel IH]; intros c t C L Le Eq;
    pose proof (merged_sorted _ (m_pendingDeletes (m_ttxn t)) V (pend_sorted _ _ (ok_pending _ (cur_ok _ _ _ C))) SV) as S;
    fold (view t) in S; simpl; rewrite (startsWith_at c t h p C); simpl;
    destruct (match after c (view t) with Some e => starts_with p e.1 | None => false end) eqn:E.
  2, 4: destruct (loop_end p c (view t) S L E) as [Ew Ew']; exists t; rewrite Ew in Eq; injection Eq as <-;
    split; [done|split; [apply C|split; [by rewrite Ew'|done]]].
  - destruct (after c (view t)) as [e|] eqn:Ea; [|done]. destruct (loop_step p c _ e S L Ea E) as (Ew & _).
    rewrite Ew in Le. simpl in Le. lia.
  - destruct (after c (view t)) as [e|] eqn:Ea; [|done]. destruct (loop_step p c _ e S L Ea E) as (Ew & Ew' & L').
    rewrite Ew in Le, Eq. unfold release in Eq. simpl in Eq, Le. apply res_bind_ok in Eq as (q1 & Eq1 & Eq).
    destruct (del_next_at c t h e q1 C Ea Eq1) as (t1 & t2 & -> & E2 & C2 & V2 & Q2). simpl. rewrite E2. simpl.
    rewrite <- Ew', <- V2. apply (IH (CutLe e.1) t2 C2); rewrite ?V2, ?Q2; [done|lia|done].
Qed.

(** The records a count still has ahead. *)
Definition ahead (p : bytes) (c : Cut) (m : entries) : entries :=
  List.filter (fun e => negb (below c e.1)) (with_prefix p m).

Lemma elem_of_ahead p c m e : e ∈ ahead p c m <-> e ∈ m /\ p `prefix_of` e.1 /\ below c e.1 = false.
Proof.
  unfold ahead. rewrite list_elem_of_In, List.filter_In, <- list_elem_of_In, elem_of_with, negb_true_iff. tauto.
Qed.

Lemma ahead_sorted p c m : sorted_entries m -> sorted_entries (ahead p c m).
Proof. intros S. by apply filter_sorted, filter_sorted. Qed.

Lemma ahead_end p c m : sorted_entries m -> (forall k, below c k = false -> lexcmp p k <= 0) ->
  match after c m with Some e => starts_with p e.1 | None => false end = false -> ahead p c m = [].
Proof.
  intros S L E. apply entries_ext; [by apply ahead_sorted|constructor|]. intros x. rewrite elem_of_ahead.
  split; [|by intros ?%not_elem_of_nil]. intros (Hx & P & B). exfalso. pose proof (after_spec c m S) as A.
  destruct (after c m) as [e|]; [|specialize (A x Hx); congruence].
  destruct A as (_ & A2 & A3). apply not_true_iff_false in E. rewrite starts_with_spec in E.
  apply E. apply (prefix_between p _ x.1); [done|by apply L|by apply A3].
Qed.

Lemma ahead_step p c m e : sorted_entries m -> after c m = Some e -> starts_with p e.1 = true ->
  ahead p c m = e :: ahead p (CutLe e.1) m.
Proof.
  intros S E P. apply after_Some in E as (E1 & E2 & E3); [|done]. apply starts_with_spec in P.
  apply entries_ext; [by apply ahead_sorted| |].
  - apply MojRbTreeBase.sorted_cons. split; [|by apply ahead_sorted]. apply Forall_forall.
    intros x (_ & _ & B%below_le_false)%elem_of_ahead. pose proof (comp_anti lexcmp e.1 x.1). unfold MojRbTreeBase.node_lt. lia.
  - intros x. rewrite elem_of_cons, !elem_of_ahead, below_le_false. split.
    + intros (Hx & Px & B). specialize (E3 x Hx B). pose proof (comp_anti lexcmp e.1 x.1).
      destruct (Z.eq_dec (lexcmp e.1 x.1) 0) as [Q0|]; [|right; split; [done|split; [done|lia]]].
      apply lexcmp_eq in Q0. left. by apply (sorted_key m).
    + intros [->|(Hx & Px & B)]; [done|]. split; [done|]. split; [done|]. apply (not_below_up c e.1); [done|].
      pose proof (comp_anti lexcmp e.1 x.1). lia.
Qed.

Lemma ahead_start p m : ahead p (CutLt p) m = with_prefix p m.
Proof.
  unfold ahead. rewrite <- (List.filter_true (with_prefix p m)) at 2. apply List.filter_ext_in.
  intros e (_ & P)%list_elem_of_In%elem_of_with. apply negb_true_iff, below_lt_false.
  pose proof (prefix_le p e.1 P). pose proof (comp_anti lexcmp e.1 p). lia.
Qed.

Definition total_size (l : entries) : Z := fold_right (fun e z => rec_size e + z) 0 l.

Lemma statsPrefix_loop_at p fuel c t h n z : cursor_at c t h -> (forall k, below c k = false -> lexcmp p k <= 0) ->
  (length (ahead p c (view t)) <= fuel)%nat ->
  exists t', statsPrefix_loop fuel t h p n z = Ok (t', n + Z.of_nat (length (ahead p c (view t))), z + total_size (ahead p c (view t))) /\
    view t' = view t /\ m_quota t' = m_quota t.
Proof.
  revert c t n z. induction fuel as [|fuel IH]; intros c t n z C L Le;
    pose proof (merged_sorted _ (m_pendingDeletes (m_ttxn t)) V (pend_sorted _ _ (ok_pending _ (cur_ok _ _ _ C))) SV) as S;
    fold (view t) in S; simpl; rewrite (startsWith_at c t h p C); simpl;
    destruct (match after c (view t) with Some e => starts_with p e.1 | None => false end) eqn:E.
  2, 4: rewrite (ahead_end p c (view t) S L E); exists t; simpl; rewrite !Z.add_0_r; done.
  - destruct (after c (view t)) as [e|] eqn:Ea; [|done]. rewrite (ahead_step p c _ e S Ea E) in Le. simpl in Le. lia.
  - destruct (after c (view t)) as [e|] eqn:Ea; [|done]. rewrite (ahead_step p c _ e S Ea E) in Le |- *. simpl in Le.
    rewrite (recSize_at c t h e C Ea). simpl. destruct (next_at c t h e C Ea) as (t1 & -> & C1 & V1 & Q1). simpl.
    destruct (IH (CutLe e.1) t1 (n + 1) (z + rec_size e) C1) as (t' & -> & V2 & Q2).
    + intros k B%below_le_false. apply after_Some in Ea as (_ & B2 & _); [|done]. apply (comp_trans lexcmp p e.1); [by apply L|].
      pose proof (comp_anti lexcmp e.1 k). lia.
    + rewrite V1. lia.
    + exists t'. rewrite V1 in *. split; [|split; congruence]. unfold total_size. simpl fold_right. simpl length.
      f_equal. apply pair_equal_spec. split; [|lia]. apply pair_equal_spec. split; [done|lia].
Qed.

Lemma cursor_seek c t h k : cursor_at c t h ->
  exists t', move (fun ins dels it => MojDbLevelTxnIterator.seek ins dels it k) t h = Ok t' /\
    cursor_at (CutLt k) t' h /\ view t' = view t /\ m_quota t' = m_quota t.
Proof. intros [K (it & Ei & A)]. apply (seek_at t h k it K Ei). by eapply at_over. Qed.

Lemma delPrefix_at p fuel c t h q : cursor_at c t h -> (length (with_prefix p (view t)) <= fuel)%nat ->
  release (m_quota t) (with_prefix p (view t)) = Ok q ->
  exists t', delPrefix offsetQuota fuel t h p = Ok t' /\ txn_ok (m_ttxn t') /\
    view t' = without_prefix p (view t) /\ m_quota t' = q.
Proof.
  intros C Le Eq. unfold delPrefix. destruct (cursor_seek c t h p C) as (t1 & -> & C1 & V1 & Q1). simpl.
  rewrite <- V1. rewrite <- V1 in Le, Eq. rewrite <- Q1 in Eq. apply (delPrefix_loop_at p fuel _ t1 h q C1); [apply loop_start|done|done].
Qed.

Lemma statsPrefix_at p fuel c t h : cursor_at c t h -> (length (with_prefix p (view t)) <= fuel)%nat ->
  exists t', statsPrefix fuel t h p = Ok (t', Z.of_nat (length (with_prefix p (view t))), total_size (with_prefix p (view t))) /\
    view t' = view t /\ m_quota t' = m_quota t.
Proof.
  intros C Le. unfold statsPrefix. destruct (cursor_seek c t h p C) as (t1 & -> & C1 & V1 & Q1). simpl.
  rewrite <- (ahead_start p) in Le |- *. rewrite <- V1, <- Q1. rewrite <- V1 in Le.
  destruct (statsPrefix_loop_at p fuel _ t1 h 0 0 C1) as (t' & -> & Vt & Qt); [|done|by exists t'].
  intros k B%below_lt_false. pose proof (comp_anti lexcmp k p). lia.
Qed.
End cursor.

Lemma open_at `{LevelDBLaws} {Q : Type} (d : DB) (t : MojDbLevelCursor.Txn (Q := Q)) h :
  txn_ok (MojDbLevelCursor.m_ttxn t) ->
  exists t1, MojDbLevelCursor.open d t h = Ok t1 /\ cursor_at (db_view d) (CutLt []) t1 h /\
    (forall l, txn_view l (MojDbLevelCursor.m_ttxn t1) = txn_view l (MojDbLevelCursor.m_ttxn t)) /\
    MojDbLevelCursor.m_quota t1 = MojDbLevelCursor.m_quota t.
Proof.
  intros K. unfold MojDbLevelCursor.open. pose proof (pend_sorted _ _ (ok_pending _ K)) as Si.
  pose proof (db_view_sorted d) as Sd.
  destruct (createIterator_ok d _ h K) as (x & Ex & K1 & V1). rewrite Ex.
  unfold MojDbLevelTableTxn.createIterator in Ex. apply res_bind_ok in Ex as (it & E1 & [= <-]).
  destruct (make_R (db_view d) _ (MojDbLevelTableTxn.m_pendingDeletes (MojDbLevelCursor.m_ttxn t)) Sd Si d eq_refl) as (it0 & E0 & A).
  rewrite E1 in E0. injection E0 as <-. simpl.
  assert (forall i l, MojDbLevelTableTxn.iterator (MojDbLevelTableTxn.with_iterators (MojDbLevelCursor.m_ttxn t) ((h, i) :: l)) h = Ok i) as Hd.
  { intros i l. unfold MojDbLevelTableTxn.iterator. simpl. by rewrite Nat.eqb_refl. }
  rewrite Hd. simpl.
  destruct (first_R (db_view d) _ (MojDbLevelTableTxn.m_pendingDeletes (MojDbLevelCursor.m_ttxn t)) Sd Si it) as (it' & -> & A').
  { by eapply at_over. }
  simpl. eexists. split; [done|]. destruct (set_iterator_ok _ h it' K1) as [K2 V2]; [by eapply sane_at|].
  split; [|split; [|done]].
  - split; simpl; [done|]. exists it'. split; [eapply iterator_set; apply Hd|done].
  - intros l. simpl. by rewrite V2, V1.
Qed.

(** C18: [delPrefix] of a cursor opened in any state of a transaction deletes exactly
    the records whose key starts with the prefix, from the database and from the
    pending values alike, skips none (not even the one that moves under the iterator
    when the current record goes), leaves every other record as it was, and gives the
    size of each deleted record back to the quota, in order. *)
Theorem delPrefix_exact `{LevelDBLaws} {Q : Type} (offsetQuota : Q -> Z -> res Q) (d : DB) ops tt_ out h p q0 q :
  run_ops d MojDbLevelTableTxn.begin ops = Ok (tt_, out) ->
  release offsetQuota q0 (with_prefix p (spec_ops (db_view d) ops).1) = Ok q ->
  exists t1 t2,
    MojDbLevelCursor.open d {| MojDbLevelCursor.m_ttxn := tt_; MojDbLevelCursor.m_quota := q0 |} h = Ok t1 /\
    MojDbLevelCursor.delPrefix offsetQuota (length (spec_ops (db_view d) ops).1) t1 h p = Ok t2 /\
    txn_view (db_view d) (MojDbLevelCursor.m_ttxn t2) = without_prefix p (spec_ops (db_view d) ops).1 /\
    MojDbLevelCursor.m_quota t2 = q.
Proof.
  intros E Eq. destruct (run_ops_ok d _ ops tt_ out txn_begin_ok E) as [K V]. pose proof (merged_nil (db_view d)) as N.
  unfold txn_view in V at 2. simpl in V. rewrite N in V. rewrite <- V in Eq |- *. simpl in *.
  destruct (open_at d {| MojDbLevelCursor.m_ttxn := tt_; MojDbLevelCursor.m_quota := q0 |} h K) as (t1 & E1 & C1 & V1 & Q1).
  exists t1. simpl in *. rewrite <- V1. rewrite <- V1 in Eq. rewrite <- Q1 in Eq.
  destruct (delPrefix_at offsetQuota (db_view d) (db_view_sorted d) p (length (txn_view (db_view d) (MojDbLevelCursor.m_ttxn t1))) _ t1 h q C1)
    as (t2 & E2 & _ & V2 & Q2); [apply List.filter_length_le|done|]. by exists t2.
Qed.

(** [statsPrefix] of a cursor opened in any state of a transaction returns the
    number of records with the prefix and the sum of their sizes, and changes nothing. *)
Theorem statsPrefix_exact `{LevelDBLaws} {Q : Type} (d : DB) ops tt_ out h p (q0 : Q) :
  run_ops d MojDbLevelTableTxn.begin ops = Ok (tt_, out) ->
  exists t1 t2,
    MojDbLevelCursor.open d {| MojDbLevelCursor.m_ttxn := tt_; MojDbLevelCursor.m_quota := q0 |} h = Ok t1 /\
    MojDbLevelCursor.statsPrefix (length (spec_ops (db_view d) ops).1) t1 h p =
      Ok (t2, Z.of_nat (length (with_prefix p (spec_ops (db_view d) ops).1)), total_size (with_prefix p (spec_ops (db_view d) ops).1)) /\
    txn_view (db_view d) (MojDbLevelCursor.m_ttxn t2) = (spec_ops (db_view d) ops).1.
Proof.
  intros E. destruct (run_ops_ok d _ ops tt_ out txn_begin_ok E) as [K V]. pose proof (merged_nil (db_view d)) as N.
  unfold txn_view in V at 2. simpl in V. rewrite N in V. rewrite <- V. simpl in *.
  destruct (open_at d {| MojDbLevelCursor.m_ttxn := tt_; MojDbLevelCursor.m_quota := q0 |} h K) as (t1 & E1 & C1 & V1 & Q1).
  exists t1. simpl in *. rewrite <- V1.
  destruct (statsPrefix_at (db_view d) (db_view_sorted d) p (length (txn_view (db_view d) (MojDbLevelCursor.m_ttxn t1))) _ t1 h C1)
    as (t2 & E2 & V2 & Q2); [apply List.filter_length_le|]. exists t2. by rewrite V2.
Qed.

(** ** A LevelDB

    A log of writes; what it holds is what they leave in an empty map. *)
Module LogDB.
Definition view (log : list BatchOp) : entries := fold_left apply_op log [].

Lemma apply_op_sorted m op : sorted_entries m -> sorted_entries (apply_op m op).
Proof. destruct op; simpl; [apply mput_sorted|apply mdel_sorted]. Qed.

Lemma view_sorted log : sorted_entries (view log).
Proof.
  unfold view. assert (sorted_entries []) as S by constructor. revert S. generalize (@nil entry).
  induction log as [|op log IH]; intros m S; simpl; [done|]. by apply IH, apply_op_sorted.
Qed.

Inductive Place := Nowhere | After (c : Cut) | Before (c : Cut).
Definition cur (log : list BatchOp) (p : Place) : option entry :=
  match p with Nowhere => None | After c => after c (view log) | Before c => before c (view log) end.
Definition key (i : list BatchOp * Place) : bytes := match cur i.1 i.2 with Some e => e.1 | None => [] end.

#[local] Instance logdb : LevelDB := {|
  DB := list BatchOp;
  Iter := list BatchOp * Place;
  db_Get d k := Ok (MojMap.get lexcmp (view d) k);
  db_Write d b := Ok (d ++ b);
  NewIterator d := (d, Nowhere);
  it_Valid i := match cur i.1 i.2 with Some _ => true | None => false end;
  it_key := key;
  it_value i := match cur i.1 i.2 with Some e => e.2 | None => [] end;
  it_SeekToFirst i := (i.1, After (CutLt []));
  it_SeekToLast i := (i.1, Before CutAll);
  it_Seek i k := (i.1, After (CutLt k));
  it_Next i := (i.1, After (CutLe (key i)));
  it_Prev i := (i.1, Before (CutLt (key i)))
|}.

#[local] Instance logdb_laws : LevelDBLaws.
Proof.
  refine {| db_view := (view : @DB logdb -> entries); it_view := fun i : @Iter logdb => view i.1; it_cur := fun i : @Iter logdb => cur i.1 i.2 |}.
  - apply view_sorted.
  - done.
  - intros d b d' [= <-]. unfold view. by rewrite fold_left_app.
  - done.
  - intros i. apply view_sorted.
  - done.
  - intros i e E. simpl. unfold key. by rewrite E.
  - intros [log [|c|c]] e; simpl; [done| |]; intros E.
    + by apply after_Some in E as [? _]; [|apply view_sorted].
    + by apply before_Some in E as [? _]; [|apply view_sorted].
  - intros i. split; [done|apply after_first].
  - intros i. split; [done|apply before_last].
  - done.
  - intros i e E. simpl. unfold key. by rewrite E.
  - intros i e E. simpl. unfold key. by rewrite E.
Defined.

(** Keys 1, 3 and 5 in the database; the transaction has overwritten 3, added 2
    and 6, and deleted 5. *)
Definition db : list BatchOp := [BatchPut [1] [10]; BatchPut [3] [30]; BatchPut [5] [50]].
Definition ops : list TOp := [OpPut [3] [33]; OpPut [2] [22]; OpOpen 7; OpPut [6] [66]; OpDelete [5]; OpMove 7 MNext; OpGet [3]; OpGet [5]].

(** Forward to 3, back to 1, forward again to 6. *)
Lemma iterator_refines_witness : exists t0 t,
  MojDbLevelTxnIterator.make [([2], [22]); ([3], [33]); ([6], [66])] [[5]] (db : @DB logdb) = Ok t0 /\
  run_moves [([2], [22]); ([3], [33]); ([6], [66])] [[5]] [MNext; MNext; MPrev; MPrev; MNext; MNext; MNext] t0 = Ok t /\
  observe [([2], [22]); ([3], [33]); ([6], [66])] t = Ok (Some ([6], [66])).
Proof.
  exact (iterator_refines (db : @DB logdb) [([2], [22]); ([3], [33]); ([6], [66])] [[5]]
           [MNext; MNext; MPrev; MPrev; MNext; MNext; MNext] (PlFwd (CutLe [3])) ltac:(repeat constructor) eq_refl).
Defined.

Lemma txn_refines_witness :
  [Some [33]; None] = (spec_ops (db_view (db : @DB logdb)) ops).2 /\
  exists t d' its, MojDbLevelTableTxn.commitImpl (db : @DB logdb) t = (d', MojDbLevelTableTxn.begin, its, None) /\
    db_view d' = [([1], [10]); ([2], [22]); ([3], [33]); ([6], [66])].
Proof.
  destruct (run_ops (db : @DB logdb) MojDbLevelTableTxn.begin ops) as [[t out]|] eqn:E; [|vm_compute in E; discriminate].
  destruct (txn_refines (db : @DB logdb) ops t out E) as [Out Com].
  assert (out = [Some [33]; None]) as X by (vm_compute in E; congruence).
  split; [congruence|]. exists t.
  destruct (MojDbLevelTableTxn.commitImpl (db : @DB logdb) t) as [[[d' t'] its] err] eqn:C.
  assert (err = None) as -> by (vm_compute in E; injection E as <- _; vm_compute in C; congruence).
  destruct (Com d' t' its eq_refl) as [V ->]. exists d', its. split; [done|]. rewrite V. vm_compute. reflexivity.
Defined.


(** A quota of 4 bytes goes down as records are deleted. *)
Definition sub_quota (q delta : Z) : res Z := Ok (q + delta).

Lemma delPrefix_exact_witness : exists t, MojDbLevelCursor.m_quota t = 94 /\
  txn_view (db_view (db : @DB logdb)) (MojDbLevelCursor.m_ttxn t) = [([1], [10]); ([2], [22]); ([6], [66])].
Proof.
  destruct (run_ops (db : @DB logdb) MojDbLevelTableTxn.begin ops) as [[t out]|] eqn:E; [|vm_compute in E; discriminate].
  destruct (delPrefix_exact sub_quota (db : @DB logdb) ops t out 9 [3] 96 94 E) as (t1 & t2 & _ & _ & V & Q).
  - vm_compute. reflexivity.
  - exists t2. split; [done|]. rewrite V. vm_compute. reflexivity.
Defined.

Lemma statsPrefix_exact_witness : exists t1 t2 : MojDbLevelCursor.Txn (Q := Z),
  MojDbLevelCursor.statsPrefix 4 t1 9 [] = Ok (t2, 4, 8).
Proof.
  destruct (run_ops (db : @DB logdb) MojDbLevelTableTxn.begin ops) as [[t out]|] eqn:E; [|vm_compute in E; discriminate].
  destruct (statsPrefix_exact (db : @DB logdb) ops t out 9 [] 0 E) as (t1 & t2 & _ & S & _).
  exists t1, t2. exact S.
Defined.

(** ** Where an iterator goes wrong

    Deleting a pending record ahead of an iterator: the iterator's own record, one
    of the database, is reported as gone, and the next step arrives at it again. *)
Lemma delete_ahead_repeats : exists t0 t1 t2,
  MojDbLevelTxnIterator.make [([2], [22])] [] ([BatchPut [1] [10]] : @DB logdb) = Ok t0 /\
  observe [([2], [22])] t0 = Ok (Some ([1], [10])) /\
  MojDbLevelTxnIterator.notifyDelete [([2], [22])] [] [2] t0 = Ok t1 /\ observe [] t1 = Ok None /\
  MojDbLevelTxnIterator.next [] [[2]] t1 = Ok t2 /\ observe [] t2 = Ok (Some ([1], [10])).
Proof. do 3 eexists. repeat split; vm_compute; reflexivity. Qed.

(** Deleting a record of the database ahead of the pending record an iterator is
    at: the iterator of the database is there already, and shows it. *)
Lemma delete_ahead_shown : exists t0 t1 t2,
  MojDbLevelTxnIterator.make [([1], [10])] [] ([BatchPut [2] [20]] : @DB logdb) = Ok t0 /\
  MojDbLevelTxnIterator.notifyDelete [([1], [10])] [] [2] t0 = Ok t1 /\
  MojDbLevelTxnIterator.next [([1], [10])] [[2]] t1 = Ok t2 /\ observe [([1], [10])] t2 = Ok (Some ([2], [20])).
Proof. do 3 eexists. repeat split; vm_compute; reflexivity. Qed.

(** An iterator at a pending record is, after the commit, at the stored record that
    followed. *)
Lemma commit_skips : exists t its d',
  run_ops ([BatchPut [3] [30]] : @DB logdb) MojDbLevelTableTxn.begin [OpPut [2] [22]; OpPut [1] [10]; OpOpen 7] = Ok (t, []) /\
  (let? it := MojDbLevelTableTxn.iterator t 7 in observe (MojDbLevelTableTxn.m_pendingValues t) it) = Ok (Some ([1], [10])) /\
  MojDbLevelTableTxn.commitImpl ([BatchPut [3] [30]] : @DB logdb) t = (d', MojDbLevelTableTxn.begin, its, None) /\
  (let? it := match its with i :: _ => Ok i.2 | [] => Err AssertFailed end in observe [] it) = Ok (Some ([3], [30])).
Proof. do 3 eexists. repeat split; vm_compute; reflexivity. Qed.
End LogDB.
