(* ===== verification/ObjectItem.v ===== *)
(** * Ids, headers and stored records

    [src/src/db/MojDbIdGenerator.cpp], [MojDbObjectHeader.cpp],
    [MojDbObjectItem.cpp] and the item of the LevelDB engine: what an object is
    called, and what a record of the database is made of - a version, the token of
    the kind, the revision, a deletion mark, a header end, and the object without
    those properties.

    Time, random numbers and the kind engine's two tables are arguments. *)

From S2P Require Import Prelude Containers CoreUtil Number Object ObjectBuilder DataSerialization TokenSet ObjectSerialization Text DbKey Json JsonRoundTrip DbQuery.

(** The property names of [MojDb]. *)
Definition IdKey := _T "_id".
Definition RevKey := _T "_rev".
Definition KindKey := _T "_kind".
Abbreviation DelKey := MojDbQuery.DelKey.

(** ** [MojDbIdGenerator] *)
Module MojDbIdGenerator.
Definition MainShardId : Z := 0.
Definition LongIdBytes : nat := 12.
Definition LongIdChars : nat := 16.

(** The 64 bits of an id: 50 bits of the time in units of 4 microseconds, 14 random
    bits. *)
Definition baseId (microsecs randNum : Z) : Z :=
  to_uint 64 (to_uint 64 (Z.shiftl (Z.land microsecs 4503599627370492) 12) + Z.land randNum 16383).

(** [id(idOut, shardId)] at a time and with a random number. *)
Definition id (microsecs randNum shardId : Z) : res MojObject :=
  let buf := if shardId =? MainShardId then [] else MojDataWriter.writeUInt32 [] shardId in
  let buf := MojDataWriter.writeInt64 buf (baseId microsecs randNum) in
  let? str := MojString.base64Encode buf false in Ok (StringImpl str).

(** [id(idOut, shardId)] with the shard id as text. *)
Definition id_str (microsecs randNum : Z) (shardId : mstring) : res MojObject :=
  match shardId with
  | [] => id microsecs randNum MainShardId
  | _ =>
      let? shardIdVector := MojString.base64Decode shardId in
      id microsecs randNum
        (fold_left (fun shard byte => Z.lor (to_uint 32 (Z.shiftl shard 8)) byte) shardIdVector 0)
  end.

Definition extractShard (id : MojObject) : res Z :=
  match id with
  | StringImpl idStr =>
      if (length idStr =? LongIdChars)%nat && negb (MojString.startsWith idStr (_T "_")) then
        let? idVec := MojString.base64Decode idStr in
        let? (shardId, _) := MojDataReader.readUInt32 idVec in Ok shardId
      else Ok MainShardId
  | _ => Ok MainShardId
  end.
End MojDbIdGenerator.

(** ** The kind engine's tables of kind tokens *)
Class KindTokens := {
  tokenFromId : mstring -> res Z;
  idFromToken : Z -> res mstring
}.

Class KindTokensLaws `{KindTokens} := {
  kind_token : forall kindId tok, tokenFromId kindId = Ok tok -> in_int 64 tok /\ idFromToken tok = Ok kindId
}.

(** ** [MojDbObjectHeader] *)
Module MojDbObjectHeader.
Record MojDbObjectHeader := {
  m_reader : MojObjectReader.MojObjectReader;
  m_id : MojObject;
  m_kindId : mstring;
  m_rev : Z;
  m_del : bool;
  m_read : bool
}.

Definition Version : Z := 1.

Definition init (id : MojObject) : MojDbObjectHeader :=
  {| m_reader := MojObjectReader.data []; m_id := id; m_kindId := []; m_rev := 0; m_del := false; m_read := false |}.

Definition reset (h : MojDbObjectHeader) : MojDbObjectHeader := init UndefinedImpl.

Definition with_id (h : MojDbObjectHeader) (id : MojObject) : MojDbObjectHeader :=
  {| m_reader := m_reader h; m_id := id; m_kindId := m_kindId h; m_rev := m_rev h; m_del := m_del h; m_read := m_read h |}.
Definition with_reader (h : MojDbObjectHeader) (r : MojObjectReader.MojObjectReader) : MojDbObjectHeader :=
  {| m_reader := r; m_id := m_id h; m_kindId := m_kindId h; m_rev := m_rev h; m_del := m_del h; m_read := m_read h |}.

Definition addTo (h : MojDbObjectHeader) (obj : MojObject) : MojObject :=
  let obj := MojObject.put obj IdKey (m_id h) in
  let obj := MojObject.putInt obj RevKey (m_rev h) in
  let obj := MojObject.putString obj KindKey (m_kindId h) in
  if m_del h then MojObject.putBool obj DelKey (m_del h) else obj.

(** The deletion mark stays in the object. *)
Definition extractFrom (h : MojDbObjectHeader) (obj : MojObject) : res (MojDbObjectHeader * MojObject) :=
  let obj := (MojObject.del obj IdKey).1 in
  let? kindId := MojObjectString.getRequired_string obj KindKey in
  let obj := (MojObject.del obj KindKey).1 in
  let? rev := MojObject.getRequiredT (MojObject.get_int obj RevKey) in
  let obj := (MojObject.del obj RevKey).1 in
  let del := match MojObject.get_bool obj DelKey with Some del => del | None => false end in
  Ok ({| m_reader := m_reader h; m_id := m_id h; m_kindId := kindId; m_rev := rev;
         m_del := if del then del else m_del h; m_read := m_read h |}, obj).

Section kinds.
Context `{KindTokens}.

(** [while (m_reader.peek() != MarkerHeaderEnd)] to the end of the header; looking
    past the last byte is an error here.  Every turn reads a byte. *)
Fixpoint skip_unknown (fuel : nat) (r : MojObjectReader.MojObjectReader) : res MojObjectReader.MojObjectReader :=
  match MojObjectReader.peek r with
  | None => Err AssertFailed
  | Some m =>
      if m =? MarkerHeaderEnd then Ok r
      else match fuel with
           | O => Err AssertFailed
           | S fuel' => let? (r, _) := MojObjectReader.next r eater in skip_unknown fuel' r
           end
  end.

Definition read (h : MojDbObjectHeader) : res MojDbObjectHeader :=
  if m_read h then Ok h
  else
    let r := m_reader h in
    let? (version, rest) := MojDataReader.readUInt8 (MojObjectReader.m_reader r) in
    if negb (version =? Version) then Err MojErrDbHeaderVersionMismatch
    else
      let? (r, builder) := MojObjectReader.next (MojObjectReader.with_reader r rest) MojObjectBuilder.init in
      let? kindId := idFromToken (MojObject.intValue (MojObjectBuilder.m_obj builder)) in
      let? (r, builder) := MojObjectReader.next r builder in
      let rev := MojObject.intValue (MojObjectBuilder.m_obj builder) in
      let? (r, del) :=
        match MojObjectReader.peek r with
        | None => Err AssertFailed
        | Some m =>
            if m =? MarkerHeaderEnd then Ok (r, m_del h)
            else let? (r, builder) := MojObjectReader.next r builder in
                 Ok (r, MojObject.boolValue (MojObjectBuilder.m_obj builder))
        end in
      let? r := skip_unknown (length (MojObjectReader.m_reader r)) r in
      let? (_, rest) := MojDataReader.readUInt8 (MojObjectReader.m_reader r) in
      Ok {| m_reader := MojObjectReader.with_reader r rest; m_id := m_id h; m_kindId := kindId; m_rev := rev;
            m_del := del; m_read := true |}.

Definition write (h : MojDbObjectHeader) (buf : bytes) : res bytes :=
  let int_ (buf : bytes) (v : Z) : bytes :=
    MojObjectWriter.m_writer (MojObjectWriter.intValue
      {| MojObjectWriter.m_writer := buf; MojObjectWriter.m_tokenSet := (None : option (MojTokenSet.MojTokenSet unit));
         MojObjectWriter.m_populate := true |} v) in
  let buf := MojDataWriter.writeUInt8 buf Version in
  let? kindTok := tokenFromId (m_kindId h) in
  let buf := int_ buf kindTok in
  let buf := int_ buf (m_rev h) in
  let buf := if m_del h then MojDataWriter.writeUInt8 buf MarkerTrueValue else buf in
  Ok (MojDataWriter.writeUInt8 buf MarkerHeaderEnd).

Definition visit {S} `{Visitor S} (h : MojDbObjectHeader) (visitor : S) : res (MojDbObjectHeader * S) :=
  let? h := read h in
  let h := with_reader h (MojObjectReader.skipBeginObj (m_reader h) true) in
  let? visitor := MojObjectVisitor.beginObject visitor in
  let? visitor := MojObject.objectProp visitor IdKey (m_id h) in
  let? visitor := MojObjectVisitor.stringProp visitor KindKey (m_kindId h) in
  let? visitor := MojObjectVisitor.intProp visitor RevKey (m_rev h) in
  let? visitor := if m_del h then MojObjectVisitor.boolProp visitor DelKey (m_del h) else Ok visitor in
  Ok (h, visitor).
End kinds.
End MojDbObjectHeader.

(** ** [MojDbObjectItem]: an item that is an object already *)
Module MojDbObjectItem.
Definition kindId (m_obj : MojObject) : res mstring := MojObjectString.getRequired_string m_obj KindKey.
Definition visit {S} `{Visitor S} (m_obj : MojObject) (visitor : S) : res S := MojObject.visit m_obj visitor.
Definition id (m_obj : MojObject) : MojObject :=
  match MojObject.get m_obj IdKey with Some id => id | None => UndefinedImpl end.
Definition size (m_obj : MojObject) : nat := MojObject.size m_obj.
End MojDbObjectItem.

(** ** [MojDbLevelItem]: an item that is the bytes of a record *)
Module MojDbLevelItem.
Import MojDbObjectHeader (MojDbObjectHeader).

Record MojDbLevelItem := { m_slice : bytes; m_header : MojDbObjectHeader }.

Definition setData (i : MojDbLevelItem) (bs : bytes) : MojDbLevelItem :=
  {| m_slice := bs;
     m_header := MojDbObjectHeader.with_reader (MojDbObjectHeader.reset (m_header i)) (MojObjectReader.data bs) |}.

Definition with_id (i : MojDbLevelItem) (id : MojObject) : MojDbLevelItem :=
  {| m_slice := m_slice i;
     m_header := MojDbObjectHeader.with_reader (MojDbObjectHeader.with_id (MojDbObjectHeader.reset (m_header i)) id)
                   (MojObjectReader.data (m_slice i)) |}.

Definition hasPrefix (i : MojDbLevelItem) (prefix : MojDbKey) : bool :=
  (length prefix <=? length (m_slice i))%nat && bool_decide (take (length prefix) (m_slice i) = prefix).

Section kinds.
Context `{KindTokens}.
(** The token vector of a kind, from the kind engine. *)
Context (tokenSet : mstring -> res (list mstring)).

Definition kindId (i : MojDbLevelItem) : res (MojDbLevelItem * mstring) :=
  let? h := MojDbObjectHeader.read (m_header i) in
  Ok ({| m_slice := m_slice i; m_header := h |}, MojDbObjectHeader.m_kindId h).

Definition visit {S} `{Visitor S} (i : MojDbLevelItem) (visitor : S) (headerExpected : bool) : res S :=
  if headerExpected then
    let? (h, visitor) := MojDbObjectHeader.visit (m_header i) visitor in
    let? tokens := tokenSet (MojDbObjectHeader.m_kindId h) in
    let r := MojDbObjectHeader.m_reader h in
    MojObjectReader.read
      {| MojObjectReader.m_reader := MojObjectReader.m_reader r; MojObjectReader.m_stack := MojObjectReader.m_stack r;
         MojObjectReader.m_skipBeginObj := MojObjectReader.m_skipBeginObj r; MojObjectReader.m_tokenSet := Some tokens |}
      visitor
  else MojObjectReader.read (MojObjectReader.data (m_slice i)) visitor.

(** [MojDbStorageItem::toObject]: the item shown to a builder. *)
Definition toObject (i : MojDbLevelItem) : res MojObject :=
  let? builder := visit i MojObjectBuilder.init true in Ok (MojObjectBuilder.m_obj builder).
End kinds.

(** Without a header: keys and small values. *)
Definition toObject_raw (i : MojDbLevelItem) : res MojObject := ObjectBytes.fromBytes (m_slice i).
Definition fromObject (i : MojDbLevelItem) (obj : MojObject) : res MojDbLevelItem :=
  let? bs := ObjectBytes.toBytes obj in Ok (setData i bs).

Definition toArray (i : MojDbLevelItem) : res MojObject :=
  let? builder := MojObjectVisitor.beginArray MojObjectBuilder.init in
  let? builder := MojObjectReader.read (MojObjectReader.data (m_slice i)) builder in
  let? builder := MojObjectVisitor.endArray builder in
  Ok (MojObjectBuilder.m_obj builder).

Definition fromObjectVector (i : MojDbLevelItem) (vec : list MojObject) : res MojDbLevelItem :=
  let? w := res_fold (fun w o => MojObject.visit o w) (MojObjectWriter.init : MojObjectWriter.MojObjectWriter unit) vec in
  Ok (setData i (MojObjectWriter.m_writer w)).
End MojDbLevelItem.

(** ** The record of an object: the end of [MojDb::putObj] *)
Section record.
Context `{KindTokens} {W : Type} `{!MojSharedTokenSet.MojSharedTokenSet W}.

Definition serialize (id : MojObject) (obj : MojObject) (tokenSet : MojTokenSet.MojTokenSet W) (shardIdStr : mstring)
    : res (bytes * MojTokenSet.MojTokenSet W) :=
  let? (header, obj) := MojDbObjectHeader.extractFrom (MojDbObjectHeader.init id) obj in
  let? buf := MojDbObjectHeader.write header [] in
  let populate := match shardIdStr with [] => true | _ => false end in
  let? w := MojObject.visit obj {| MojObjectWriter.m_writer := buf; MojObjectWriter.m_tokenSet := Some tokenSet;
                                   MojObjectWriter.m_populate := populate |} in
  match MojObjectWriter.m_tokenSet w with
  | Some tokenSet => Ok (MojObjectWriter.m_writer w, tokenSet)
  | None => Err AssertFailed
  end.
End record.
