(* ===== verification/ObjectItemSpec.v ===== *)
(** * What ids and records promise

    The shard of a generated id, with the shards it is lost for, and the round trip
    of an object through its record. *)

From S2P Require Import Prelude Containers CoreUtil Number Object ObjectBuilder DataSerialization TokenSet ObjectSerialization Text DbKey Json JsonRoundTrip DbQuery OrderedMap ObjectItem.

(** ** Ids *)
Module IdSpec.
Import MojDbIdGenerator.

Lemma underscore i : 0 <= i < 64 -> (MojBase64.char_at MojBase64.chars i =? chr "_") = (i =? 37).
Proof.
  intros Hi. assert (forallb (fun i => Bool.eqb (MojBase64.char_at MojBase64.chars (Z.of_nat i) =? chr "_") (Z.of_nat i =? 37)) (seq 0 64) = true)
    as A by by vm_compute.
  rewrite List.forallb_forall in A. specialize (A (Z.to_nat i)). rewrite Z2Nat.id in A by lia.
  apply eqb_prop, A. apply List.in_seq. lia.
Qed.

Lemma startsWith_underscore c s : MojString.startsWith (c :: s) (_T "_") = (c =? chr "_").
Proof.
  change (MojString.startsWith (c :: s) (_T "_")) with (if negb (c =? 95) then false else MojString.startsWith s []).
  change (chr "_") with 95. destruct (c =? 95); [by destruct s|done].
Qed.

Lemma base64Encode_eq vec pad : MojString.base64Encode vec pad = Ok (MojBase64.encodeLoop MojBase64.chars vec pad).
Proof.
  unfold MojString.base64Encode, MojBase64.MojBase64Encode, MojBase64.MojBase64EncodeImpl. by rewrite Nat.ltb_irrefl.
Qed.

(** The first character of a long id is the top six bits of its shard. *)
Lemma long_id_start s v : in_uint 32 s ->
  exists rest, MojBase64.encodeLoop MojBase64.chars (toBigEndian 4 s ++ v) false =
    MojBase64.char_at MojBase64.chars (Z.shiftr s 26) :: rest.
Proof.
  intros Hs. simpl toBigEndian. cbn [app MojBase64.encodeLoop]. eexists. do 2 f_equal.
  change (8 * 3) with 24. change (8 * 2) with 16. change (8 * 1) with 8. unfold in_uint in Hs.
  rewrite !land_255, !Z.shiftr_div_pow2, !Z.shiftl_mul_pow2 by lia.
  change (2 ^ 8) with 256. change (2 ^ 16) with 65536. change (2 ^ 18) with 262144. change (2 ^ 24) with 16777216.
  change (2 ^ 26) with 67108864. change (2 ^ 32) with 4294967296 in Hs. Z.to_euclidean_division_equations. lia.
Qed.

(** The shard written into a generated id is the shard read out of it, except
    for one shard in sixty-four: when the top six bits are 37 the text of the id
    starts with an underscore, which is taken for an internal id of the main shard. *)
Theorem shard_of_id microsecs randNum shardId : in_uint 32 shardId ->
  exists o, id microsecs randNum shardId = Ok o /\
    extractShard o = Ok (if Z.shiftr shardId 26 =? 37 then MainShardId else shardId).
Proof.
  intros Hs. unfold id. rewrite base64Encode_eq. cbn [res_bind]. eexists. split; [reflexivity|].
  set (b := baseId microsecs randNum). unfold MojDataWriter.writeInt64, MojDataWriter.writeUInt32.
  unfold extractShard, MainShardId. destruct (Z.eqb_spec shardId 0) as [->|N].
  - rewrite app_nil_l. pose proof (MojBase64.encodeLoop_length MojBase64.chars (toBigEndian 8 b) false) as L.
    rewrite toBigEndian_length in L. change (Z.of_nat 8) with 8 in L. change (4 * (8 / 3) + (if 8 mod 3 =? 0 then 0 else 8 mod 3 + 1)) with 11 in L.
    destruct (Nat.eqb_spec (length (MojBase64.encodeLoop MojBase64.chars (toBigEndian 8 b) false)) LongIdChars) as [E|]; [|done].
    unfold LongIdChars in E. lia.
  - rewrite app_nil_l.
    pose proof (MojBase64.encodeLoop_length MojBase64.chars (toBigEndian 4 shardId ++ toBigEndian 8 b) false) as L.
    rewrite length_app, !toBigEndian_length in L. change (Z.of_nat (4 + 8)) with 12 in L.
    change (4 * (12 / 3) + (if 12 mod 3 =? 0 then 0 else 12 mod 3 + 1)) with 16 in L.
    destruct (long_id_start shardId (toBigEndian 8 b) Hs) as (rest & E).
    rewrite E in L |- *. unfold LongIdChars.
    match goal with |- context [(?n =? 16)%nat] => replace (n =? 16)%nat with true by (symmetry; apply Nat.eqb_eq; lia) end.
    rewrite andb_true_l.
    rewrite startsWith_underscore, underscore; [|unfold in_uint in Hs; rewrite Z.shiftr_div_pow2 by lia;
      change (2 ^ 26) with 67108864; change (2 ^ 32) with 4294967296 in Hs; Z.to_euclidean_division_equations; lia].
    destruct (Z.eqb_spec (Z.shiftr shardId 26) 37); simpl; [done|]. rewrite <- E.
    destruct (MojString.base64_string (toBigEndian 4 shardId ++ toBigEndian 8 b) false) as (s & Es & Ed).
    { apply Forall_app. split; apply toBigEndian_bytes. }
    rewrite base64Encode_eq in Es.
    assert (s = MojBase64.encodeLoop MojBase64.chars (toBigEndian 4 shardId ++ toBigEndian 8 b) false) as -> by congruence.
    rewrite Ed. cbn [res_bind].
    pose proof (readUInt32_write shardId (toBigEndian 8 b) Hs) as R. rewrite R. done.
Qed.

Lemma shard_of_id_witness : exists o, id 1700000000000000 12345 2415919109 = Ok o /\ extractShard o = Ok 2415919109.
Proof. apply (shard_of_id 1700000000000000 12345 2415919109). unfold in_uint. lia. Defined.

(** A shard that is lost. *)
Lemma shard_lost : (let? o := id 1700000000000000 12345 2483027973 in extractShard o) = Ok MainShardId.
Proof. reflexivity. Qed.
End IdSpec.

(** ** Records *)
Module RecordSpec.

Lemma int_enc_read v : in_int 64 v -> exists m bs, Encoding.int_enc v = m :: bs /\ MojObjectReader.isIntMarker m = true /\
  forall rest, MojObjectReader.readInt (bs ++ rest) m = Ok (v, rest).
Proof.
  intros Hv. unfold Encoding.int_enc, MojUInt8Max, MojUInt16Max, MojUInt32Max.
  destruct (Z.ltb_spec v 0); [|destruct (Z.eqb_spec v 0) as [->|];
    [|destruct (Z.leb_spec v 255); [|destruct (Z.leb_spec v 65535); [|destruct (Z.leb_spec v 4294967295)]]]];
    eexists _, _; (split; [reflexivity|]); (split; [reflexivity|]); intros rest; try reflexivity.
  - by apply readInt64_write.
  - apply readUInt16_write. unfold in_uint. lia.
  - apply readUInt32_write. unfold in_uint. lia.
  - by apply readInt64_write.
Qed.

Definition rd (bs : bytes) (skip : bool) (tokens : option (list mstring)) : MojObjectReader.MojObjectReader :=
  {| MojObjectReader.m_reader := bs; MojObjectReader.m_stack := []; MojObjectReader.m_skipBeginObj := skip;
     MojObjectReader.m_tokenSet := tokens |}.

Lemma next_int {S} `{Visitor S} v rest (vis : S) : in_int 64 v ->
  MojObjectReader.next (rd (Encoding.int_enc v ++ rest) false None) vis =
  let? vis := MojObjectVisitor.intValue vis v in Ok (rd rest false None, vis).
Proof.
  intros Hv. destruct (int_enc_read v Hv) as (m & bs & -> & Hm & R). unfold MojObjectReader.next, rd. simpl.
  pose proof Hm as Hm2. unfold MojObjectReader.isIntMarker, MarkerNegativeIntValue, MarkerInt64Value in Hm2. bool_lia.
  unfold MojObjectReader.nextValue, MarkerObjectBegin, MarkerArrayBegin, MarkerStringValue, MarkerNullValue, MarkerTrueValue,
    MarkerFalseValue, MarkerNegativeDecimalValue, MarkerPositiveDecimalValue. RoundTrip.eqb_false. simpl orb. cbn match.
  rewrite Hm. simpl. rewrite R. done.
Qed.

(** The bytes of a header. *)
Definition header_bytes (tok rev : Z) (del : bool) : bytes :=
  [MojDbObjectHeader.Version] ++ Encoding.int_enc tok ++ Encoding.int_enc rev ++
  (if del then [MarkerTrueValue] else []) ++ [MarkerHeaderEnd].

Section kinds.
Context `{KindTokensLaws}.
Import MojDbObjectHeader.

Lemma write_bytes h tok : tokenFromId (m_kindId h) = Ok tok -> in_int 64 (m_rev h) ->
  write h [] = Ok (header_bytes tok (m_rev h) (m_del h)).
Proof.
  intros E Hr. destruct (kind_token _ _ E) as [Ht _]. unfold write. rewrite E. cbn [res_bind].
  rewrite !Encoding.intValue_enc by done. unfold header_bytes, MojDataWriter.writeUInt8.
  f_equal. generalize (Encoding.int_enc tok) (Encoding.int_enc (m_rev h)). intros a b.
  destruct (m_del h); simpl; by rewrite <- ?app_assoc.
Qed.

(** Reading them back. *)
Lemma read_bytes id kindId tok rev del body : tokenFromId kindId = Ok tok -> in_int 64 rev ->
  read (with_reader (init id) (MojObjectReader.data (header_bytes tok rev del ++ body))) =
  Ok {| m_reader := rd body false None; m_id := id; m_kindId := kindId; m_rev := rev; m_del := del; m_read := true |}.
Proof.
  intros E Hr. destruct (kind_token _ _ E) as [Ht Hk]. unfold read.
  cbn [m_read with_reader init m_reader MojObjectReader.data MojObjectReader.m_reader m_del m_id].
  unfold header_bytes. cbn [app MojDataReader.readUInt8 res_bind]. rewrite Z.eqb_refl. cbn [negb].
  unfold MojObjectReader.with_reader, MojObjectReader.data. cbn [MojObjectReader.m_stack MojObjectReader.m_skipBeginObj MojObjectReader.m_tokenSet].
  match goal with |- context [MojObjectReader.next ?r MojObjectBuilder.init] =>
    change r with (rd (MojObjectReader.m_reader r) false None) end.
  cbn [MojObjectReader.m_reader].
  rewrite <- !app_assoc.
  assert (forall b v, MojObjectBuilder.m_stack b = [] -> MojObjectVisitor.intValue b v =
    Ok {| MojObjectBuilder.m_stack := []; MojObjectBuilder.m_obj := IntImpl v;
          MojObjectBuilder.m_propName := MojObjectBuilder.m_propName b |}) as B.
  { intros b v Eb. simpl. unfold MojObjectBuilder.value. by rewrite Eb. }
  rewrite next_int, B by done. cbn [res_bind MojObject.intValue MojObjectBuilder.m_obj]. rewrite Hk. cbn [res_bind].
  rewrite next_int, B by done. cbn [res_bind MojObject.intValue MojObjectBuilder.m_obj]. unfold MojObjectReader.peek. by destruct del.
Qed.
End kinds.

(** What the body of a record is, for a reader that has been told to expect no
    beginning. *)
Lemma body_bytes {W} `{SharedTokenSetLaws W} m (w w' : MojObjectWriter.MojObjectWriter W) :
  MojObject.ok (ObjectImpl m) -> RoundTrip.writer_ok w -> MojObject.visit (ObjectImpl m) w = Ok w' ->
  exists bs, MojObjectWriter.m_writer w' = MojObjectWriter.m_writer w ++ bs /\
    RoundTrip.writer_ok w' /\ RoundTrip.need_le (RoundTrip.need_of w) (RoundTrip.need_of w') /\
    forall S (VS : Visitor S) (v : S) tokens, RoundTrip.tok_ok (RoundTrip.need_of w') (rd bs true tokens) ->
      MojObjectReader.read (rd bs true tokens) v =
      let? v := res_fold (fun v i => let? v := MojObjectVisitor.propName v i.1 in MojObject.visit i.2 v) v m in
      MojObjectVisitor.endObject v.
Proof.
  intros [_ Hf]%MojObject.ok_object Hw E. cbn [MojObject.visit] in E.
  apply res_bind_ok in E as (w0 & E0 & E). apply res_bind_ok in E as (w1 & E1 & E2).
  injection E0 as <-. injection E2 as <-.
  destruct (RoundTrip.props_ok m) with (w := MojObjectWriter.writeUInt8 w MarkerObjectBegin) (w' := w1)
    as (bs & n & (B & O & N & _) & [Ln D]); [|exact Hw|exact E1|].
  { rewrite Forall_forall in *. intros kv Hkv. destruct (Hf _ Hkv). split; [done|by apply RoundTrip.visit_writer_ok]. }
  exists ([MarkerObjectBegin] ++ bs ++ [MarkerObjectEnd]). split; [|split; [exact O|split; [exact N|]]].
  { simpl. unfold MojDataWriter.writeUInt8. rewrite B. simpl. unfold MojDataWriter.writeUInt8. by rewrite <- !app_assoc. }
  intros S VS v tokens Ht. unfold MojObjectReader.read. simpl length.
  cbn [MojObjectReader.read_loop]. unfold MojObjectReader.hasNext at 1. simpl MojObjectReader.m_reader. cbn match.
  assert (MojObjectReader.next (rd ([MarkerObjectBegin] ++ bs ++ [MarkerObjectEnd]) true tokens) v =
    Ok (RoundTrip.at_ (rd [] false tokens) (bs ++ [MarkerObjectEnd]) [MojObjectReader.StateObject], v)) as En by done.
  rewrite En. cbn [res_bind].
  assert (length (bs ++ [MarkerObjectEnd]) = (n + (1 + (length bs - n)))%nat) as -> by (rewrite length_app; simpl; lia).
  specialize (D S VS (rd [] false tokens) [MarkerObjectEnd] [] (1 + (length bs - n))%nat v Ht eq_refl). rewrite D.
  apply res_bind_ext. intros v'. cbn [Nat.add MojObjectReader.read_loop]. change (MojObjectReader.hasNext _) with true. cbn match.
  assert (MojObjectReader.next (RoundTrip.at_ (rd [] false tokens) [MarkerObjectEnd] [MojObjectReader.StateObject]) v' =
    let? v := MojObjectVisitor.endObject v' in Ok (rd [] false tokens, v)) as -> by done.
  destruct (MojObjectVisitor.endObject v') as [v2|]; [|done]. cbn [res_bind]. by destruct (length bs - n)%nat.
Qed.

(** Objects with the same properties are the same. *)
Lemma get_elem_str {V} (m : list (mstring * V)) k v : MojRbTreeBase.sorted fst MojStrCmp m -> Forall (fun kv => str_ok kv.1) m ->
  str_ok k -> MojMap.get MojStrCmp m k = Some v <-> (k, v) ∈ m.
Proof.
  intros S F Hk. rewrite Forall_forall in F. unfold MojMap.get. split.
  - destruct (MojRbTreeBase.find fst MojStrCmp k m) as [[k' v']|] eqn:E; [|done]. intros [= <-].
    apply MojRbTreeBase.find_Some in E as [Hm E]. simpl in E. specialize (F _ Hm). apply MojStrCmp_eq in E; [by subst|done..].
  - intros Hm. rewrite (MojRbTreeBase.find_elem fst MojStrCmp k m (k, v)); [done..|apply (comp_refl MojStrCmp)].
Qed.

Lemma object_ext (m1 m2 : list (mstring * MojObject)) :
  MojRbTreeBase.sorted fst MojStrCmp m1 -> MojRbTreeBase.sorted fst MojStrCmp m2 ->
  Forall (fun kv => str_ok kv.1) m1 -> Forall (fun kv => str_ok kv.1) m2 ->
  (forall k, str_ok k -> MojMap.get MojStrCmp m1 k = MojMap.get MojStrCmp m2 k) -> m1 = m2.
Proof.
  intros S1 S2 F1 F2 E. apply (records_ext fst MojStrCmp); [done..|]. intros [k v]. split; intros He.
  - pose proof (proj1 (Forall_forall _ _) F1 _ He) as Hk. simpl in Hk. apply get_elem_str; [done..|]. rewrite <- E by done.
    by apply get_elem_str.
  - pose proof (proj1 (Forall_forall _ _) F2 _ He) as Hk. simpl in Hk. apply get_elem_str; [done..|]. rewrite E by done.
    by apply get_elem_str.
Qed.

Lemma keys_ok : str_ok IdKey /\ str_ok RevKey /\ str_ok KindKey /\ str_ok DelKey.
Proof. repeat split; vm_compute; repeat constructor. Qed.

(** An object ready to be stored. *)
Record record_ok (obj id : MojObject) (kindId : mstring) (rev : Z) (del : bool) : Prop := {
  rec_ok : MojObject.ok obj;
  rec_id : MojObject.get obj IdKey = Some id;
  rec_kind : MojObject.get obj KindKey = Some (StringImpl kindId);
  rec_rev : MojObject.get obj RevKey = Some (IntImpl rev);
  rec_del : match MojObject.get obj DelKey with None => del = false | Some v => v = BoolImpl del end
}.

(** The header's properties, and the others. *)
Definition header_props (id : MojObject) (kindId : mstring) (rev : Z) (del : bool) : list (mstring * MojObject) :=
  [(IdKey, id); (KindKey, StringImpl kindId); (RevKey, IntImpl rev)] ++ (if del then [(DelKey, BoolImpl true)] else []).
Definition body (obj : MojObject) : MojObject :=
  (MojObject.del (MojObject.del (MojObject.del obj IdKey).1 KindKey).1 RevKey).1.

Lemma body_object obj : MojObject.ok obj -> MojObject.get obj IdKey <> None ->
  exists m m', obj = ObjectImpl m /\ body obj = ObjectImpl m' /\ MojObject.ok (body obj).
Proof.
  intros O N. destruct obj as [| |m| | | | |]; try done. exists m.
  assert (MojObject.ok (body (ObjectImpl m))) as Ob by (unfold body; by do 3 apply MojObject.del_ok).
  revert Ob. unfold body. simpl. destruct (MojMap.del MojStrCmp m IdKey) as [m1 f1]. simpl.
  destruct (MojMap.del MojStrCmp m1 KindKey) as [m2 f2]. simpl. destruct (MojMap.del MojStrCmp m2 RevKey) as [m3 f3].
  simpl. intros Ob. by exists m3.
Qed.

Lemma get_body obj k : MojObject.ok obj -> str_ok k ->
  MojObject.get (body obj) k =
  if decide (k = IdKey \/ k = KindKey \/ k = RevKey) then None else MojObject.get obj k.
Proof.
  intros O Hk. destruct keys_ok as (I & R & K & _). unfold body.
  rewrite MojObject.get_del by (done || by do 2 apply MojObject.del_ok).
  rewrite MojObject.get_del by (done || by apply MojObject.del_ok). rewrite MojObject.get_del by done.
  repeat case_decide; tauto.
Qed.

Lemma extractFrom_eq obj id kindId rev del : record_ok obj id kindId rev del ->
  MojDbObjectHeader.extractFrom (MojDbObjectHeader.init id) obj =
  Ok ({| MojDbObjectHeader.m_reader := MojObjectReader.data []; MojDbObjectHeader.m_id := id;
         MojDbObjectHeader.m_kindId := kindId; MojDbObjectHeader.m_rev := rev; MojDbObjectHeader.m_del := del;
         MojDbObjectHeader.m_read := false |}, body obj).
Proof.
  intros [O Ei Ek Er Ed]. destruct keys_ok as (I & R & K & D). unfold MojDbObjectHeader.extractFrom, MojObjectString.getRequired_string.
  assert (MojObject.get (MojObject.del obj IdKey).1 KindKey = Some (StringImpl kindId)) as E1 by by rewrite MojObject.get_del.
  rewrite (MojObjectString.get_string_string _ _ _ E1). cbn [res_bind MojObject.getRequiredErrT MojObject.getRequiredT].
  unfold MojObject.get_int. rewrite MojObject.get_del by (done || by apply MojObject.del_ok).
  rewrite decide_False by done. rewrite MojObject.get_del, decide_False, Er by done.
  cbn [MojObject.getRequiredT res_bind MojObject.intValue]. fold (body obj). unfold MojObject.get_bool.
  rewrite get_body, decide_False by (done || by intros [|[|]]).
  destruct (MojObject.get obj DelKey) as [v|]; subst; [by destruct del|done].
Qed.

(** Showing the record, header first, shows the object with the header's properties
    put in front. *)
Lemma item_shows `{KindTokensLaws} {S} `{Visitor S} tokenSet id kindId tok rev del m bs tokens (v : S) i :
  tokenFromId kindId = Ok tok -> in_int 64 rev -> tokenSet kindId = Ok tokens ->
  (forall v : S, MojObjectReader.read (rd bs true (Some tokens)) v =
    let? v := res_fold (fun v i => let? v := MojObjectVisitor.propName v i.1 in MojObject.visit i.2 v) v m in
    MojObjectVisitor.endObject v) ->
  MojDbLevelItem.visit tokenSet (MojDbLevelItem.with_id (MojDbLevelItem.setData i (header_bytes tok rev del ++ bs)) id) v true =
  MojObject.visit (ObjectImpl (header_props id kindId rev del ++ m)) v.
Proof.
  intros Et Hr Es R. unfold MojDbLevelItem.visit, MojDbObjectHeader.visit.
  change (MojDbLevelItem.m_header _) with
    (MojDbObjectHeader.with_reader (MojDbObjectHeader.init id) (MojObjectReader.data (header_bytes tok rev del ++ bs))).
  rewrite (read_bytes _ _ _ _ _ _ Et Hr).
  unfold header_props, MojObject.objectProp, MojObjectVisitor.stringProp, MojObjectVisitor.intProp, MojObjectVisitor.boolProp.
  cbn [res_bind MojDbObjectHeader.m_del MojDbObjectHeader.m_id MojDbObjectHeader.m_kindId MojDbObjectHeader.m_rev
    MojDbObjectHeader.m_reader MojDbObjectHeader.with_reader MojObject.visit].
  destruct del; cbn [app res_fold fst snd MojObject.visit];
    repeat (rewrite ?res_bind_assoc; apply res_bind_ext; intros ?); rewrite ?res_bind_assoc; cbn [res_bind];
    cbn [MojDbObjectHeader.m_kindId MojDbObjectHeader.with_reader]; rewrite Es; cbn [res_bind]; apply R.
Qed.

(** The properties of a rebuilt record. *)
Lemma fold_last_get (f : MojObject -> MojObject) (m : list (mstring * MojObject)) k r : MojRbTreeBase.sorted fst MojStrCmp m ->
  Forall (fun kv => str_ok kv.1) m -> str_ok k ->
  fold_left (fun r (kv : mstring * MojObject) => if decide (kv.1 = k) then Some (f kv.2) else r) m r =
  match MojMap.get MojStrCmp m k with Some v => Some (f v) | None => r end.
Proof.
  intros S F Hk. revert r. induction m as [|[j v] m IH]; intros r; simpl; [done|].
  apply MojRbTreeBase.sorted_cons in S as [L S]. apply Forall_cons in F as [Fj F]. simpl in Fj.
  rewrite IH by done. unfold MojMap.get, MojRbTreeBase.find. simpl. pose proof (MojStrCmp_eq j k Fj Hk) as Q.
  destruct (decide (j = k)) as [->|N].
  - rewrite (comp_refl MojStrCmp). simpl. destruct (List.find _ m) as [[j' v']|] eqn:E; [|done].
    apply List.find_some in E as [E1 E2]. rewrite Forall_forall in L. apply list_elem_of_In in E1. specialize (L _ E1).
    unfold MojRbTreeBase.node_lt in L. simpl in *. apply Z.eqb_eq in E2. pose proof (comp_anti MojStrCmp k j'). lia.
  - destruct (Z.eqb_spec (MojStrCmp j k) 0); [tauto|done].
Qed.

Lemma rebuild_object l : Forall (fun kv => str_ok kv.1) l ->
  exists x, MojObjectBuilder.rebuild (ObjectImpl l) = ObjectImpl x /\ MojRbTreeBase.sorted fst MojStrCmp x /\
    Forall (fun kv => str_ok kv.1) x.
Proof.
  intros F. simpl. eexists. split; [reflexivity|].
  assert (MojRbTreeBase.sorted fst MojStrCmp ([] : list (mstring * MojObject))) as S by constructor.
  assert (Forall (fun kv : mstring * MojObject => str_ok kv.1) []) as Fa by constructor. revert S Fa.
  generalize (@nil (mstring * MojObject)). induction F as [|kv l Hkv F IH]; intros acc S Fa; simpl; [done|].
  apply IH; [apply (MojRbTreeBase.put_sorted fst MojStrCmp); done|].
  rewrite Forall_forall in *. intros x Hx. apply (MojRbTreeBase.elem_of_put_inv fst MojStrCmp) in Hx as [->|Hx]; auto.
Qed.

Lemma toObject_rebuilds obj id kindId rev del : record_ok obj id kindId rev del -> MojObjectBuilder.defined obj ->
  match body obj with
  | ObjectImpl m => MojObjectBuilder.rebuild (ObjectImpl (header_props id kindId rev del ++ m)) = obj
  | _ => False
  end.
Proof.
  intros R D. pose proof R as [O Ei Ek Er Ed]. destruct (body_object obj O) as (m & m' & -> & Eb & Ob); [congruence|].
  rewrite Eb in *. pose proof keys_ok as (KI & KR & KK & KD).
  apply MojObject.ok_object in O as [S F]. apply MojObject.ok_object in Ob as [S' F'].
  assert (forall k v, MojObject.get (ObjectImpl m) k = Some v -> MojObjectBuilder.rebuild v = v) as Rb.
  { intros k v E. pose proof (MojObject.get_ok (ObjectImpl m) k v (proj2 (MojObject.ok_object m) (conj S F)) E) as Ov.
    rewrite MojObjectBuilder.rebuild_norm by done. apply MojObjectBuilder.norm_defined.
    apply MojObjectBuilder.defined_object in D. simpl in E. unfold MojMap.get in E.
    destruct (MojRbTreeBase.find fst MojStrCmp k m) as [[k' v']|] eqn:Ef; [|done]. injection E as ->.
    apply MojRbTreeBase.find_Some in Ef as [Hm _]. rewrite Forall_forall in D. by apply (D _ Hm). }
  assert (forall k, str_ok k -> MojObject.get (ObjectImpl m') k =
    if decide (k = IdKey \/ k = KindKey \/ k = RevKey) then None else MojObject.get (ObjectImpl m) k) as Gb.
  { intros k Hk. rewrite <- Eb. apply get_body; [|done]. by apply MojObject.ok_object. }
  remember (header_props id kindId rev del) as hp eqn:Ehp. set (l := hp ++ m').
  assert (Forall (fun kv => str_ok kv.1) l) as Fl.
  { apply Forall_app. split; [|eapply Forall_impl; [exact F'|]; by intros ? []].
    subst hp. apply Forall_app. split; [repeat constructor; done|]. destruct del; repeat constructor; done. }
  destruct (rebuild_object l) as (x & Ex & Sx & Fx); [done|]. rewrite Ex. f_equal.
  apply object_ext; [done..| |]; [eapply Forall_impl; [exact F|]; by intros ? []|].
  intros k Hk. pose proof (MojObjectBuilder.get_rebuild l k Hk Fl) as G. rewrite Ex in G. simpl in G. rewrite G. clear G.
  unfold l. rewrite fold_left_app. rewrite fold_last_get; [|done|eapply Forall_impl; [exact F'|]; by intros ? []|done].
  specialize (Gb k Hk). simpl in Gb. rewrite Gb. clear Gb. cbn [MojObject.get] in *.
  assert (IdKey <> KindKey /\ IdKey <> RevKey /\ KindKey <> RevKey /\ DelKey <> IdKey /\ DelKey <> KindKey /\ DelKey <> RevKey)
    as (Ne1 & Ne2 & Ne3 & Ne4 & Ne5 & Ne6) by done.
  assert (fold_left (fun (r : option MojObject) (kv : mstring * MojObject) =>
      if decide (kv.1 = k) then Some (MojObjectBuilder.rebuild kv.2) else r) hp None =
    if decide (k = IdKey) then Some (MojObjectBuilder.rebuild id)
    else if decide (k = KindKey) then Some (StringImpl kindId) else if decide (k = RevKey) then Some (IntImpl rev)
    else if decide (k = DelKey) then (if del then Some (BoolImpl true) else None) else None) as ->.
  { subst hp. destruct del; simpl; repeat case_decide; subst; congruence. }
  repeat case_decide; subst; try tauto; try congruence.
  - by rewrite (Rb _ _ Ei).
  - destruct (MojMap.get MojStrCmp m DelKey) as [v|] eqn:E; [by rewrite (Rb _ _ E)|by subst].
  - destruct (MojMap.get MojStrCmp m k) as [v|] eqn:E; [by rewrite (Rb _ _ E)|done].
Qed.

(** What a record shows: the header's properties, then the others. *)
Definition shown (obj id : MojObject) (kindId : mstring) (rev : Z) (del : bool) : MojObject :=
  match body obj with ObjectImpl m => ObjectImpl (header_props id kindId rev del ++ m) | o => o end.

(** The bytes of a record and what they show. *)
Lemma record_shows `{KindTokensLaws} {W} `{SharedTokenSetLaws W} obj id kindId rev del tok (t t' : MojTokenSet.MojTokenSet W)
    shard bs tokenSet tokens i :
  record_ok obj id kindId rev del -> tokenFromId kindId = Ok tok -> sts_ok (MojTokenSet.m_sharedTokenSet t) ->
  snapshot_ok (sts_vec (MojTokenSet.m_sharedTokenSet t)) (MojTokenSet.m_obj t) ->
  serialize id obj t shard = Ok (bs, t') -> tokenSet kindId = Ok tokens ->
  sts_vec (MojTokenSet.m_sharedTokenSet t') `prefix_of` tokens ->
  forall S (VS : Visitor S) (v : S), MojDbLevelItem.visit tokenSet (MojDbLevelItem.with_id (MojDbLevelItem.setData i bs) id) v true =
    MojObject.visit (shown obj id kindId rev del) v.
Proof.
  intros R Et Ht Hs E Es Hp S VS v. pose proof R as [O Ei Ek Er Ed].
  assert (in_int 64 rev) as Hr.
  { exact (MojObject.get_ok obj RevKey _ O Er). }
  destruct (body_object obj O) as (m & m' & -> & Eb & Ob); [congruence|].
  unfold shown. rewrite Eb in *. unfold serialize in E.
  rewrite (extractFrom_eq _ _ _ _ _ R), Eb in E. cbn [res_bind] in E. rewrite (write_bytes _ tok) in E by done. cbn [res_bind] in E.
  apply res_bind_ok in E as (w' & E & E').
  cbn [MojDbObjectHeader.m_rev MojDbObjectHeader.m_del] in E.
  eapply body_bytes in E as (bs' & Hb & Hw & Hn & Hv); [|done|done].
  destruct (MojObjectWriter.m_tokenSet w') as [t2|] eqn:E2; [|done]. injection E' as <- ->.
  rewrite Hb. cbn [MojObjectWriter.m_writer]. apply (item_shows _ _ _ _ _ _ _ _ tokens); [done..|].
  intros v'. apply Hv. unfold RoundTrip.need_of. rewrite E2. by exists tokens.
Qed.

(** The object rebuilt from its record. *)
Lemma record_reads `{KindTokensLaws} {W} `{SharedTokenSetLaws W} obj id kindId rev del tok (t t' : MojTokenSet.MojTokenSet W)
    shard bs tokenSet tokens i :
  record_ok obj id kindId rev del -> MojObjectBuilder.defined obj -> tokenFromId kindId = Ok tok -> sts_ok (MojTokenSet.m_sharedTokenSet t) ->
  snapshot_ok (sts_vec (MojTokenSet.m_sharedTokenSet t)) (MojTokenSet.m_obj t) ->
  serialize id obj t shard = Ok (bs, t') -> tokenSet kindId = Ok tokens ->
  sts_vec (MojTokenSet.m_sharedTokenSet t') `prefix_of` tokens ->
  MojDbLevelItem.toObject tokenSet (MojDbLevelItem.with_id (MojDbLevelItem.setData i bs) id) = Ok obj.
Proof.
  intros R D Et Ht Hs E Es Hp. pose proof (record_shows _ _ _ _ _ _ _ _ _ _ _ _ i R Et Ht Hs E Es Hp) as V.
  unfold MojDbLevelItem.toObject. rewrite V, MojObjectBuilder.visit_rebuild by done. unfold shown.
  pose proof (toObject_rebuilds obj id kindId rev del R D) as B. destruct (body obj); try done. by rewrite B.
Qed.

(** C24: the record of an object shows any visitor the id, the kind, the revision and
    a deletion mark, and then exactly the object's other properties, errors included,
    for any token vector of the kind that extends the one it was written with; and
    the object rebuilt from it is the object that was stored. *)
Theorem record_roundtrip `{KindTokensLaws} {W} `{SharedTokenSetLaws W} obj id kindId rev del tok (t t' : MojTokenSet.MojTokenSet W)
    shard bs tokenSet tokens i :
  record_ok obj id kindId rev del -> tokenFromId kindId = Ok tok -> sts_ok (MojTokenSet.m_sharedTokenSet t) ->
  snapshot_ok (sts_vec (MojTokenSet.m_sharedTokenSet t)) (MojTokenSet.m_obj t) ->
  serialize id obj t shard = Ok (bs, t') -> tokenSet kindId = Ok tokens ->
  sts_vec (MojTokenSet.m_sharedTokenSet t') `prefix_of` tokens ->
  (forall S (VS : Visitor S) (v : S), MojDbLevelItem.visit tokenSet (MojDbLevelItem.with_id (MojDbLevelItem.setData i bs) id) v true =
    MojObject.visit (shown obj id kindId rev del) v) /\
  (MojObjectBuilder.defined obj ->
   MojDbLevelItem.toObject tokenSet (MojDbLevelItem.with_id (MojDbLevelItem.setData i bs) id) = Ok obj).
Proof.
  intros R Et Ht Hs E Es Hp. split; [exact (record_shows _ _ _ _ _ _ _ _ _ _ _ _ i R Et Ht Hs E Es Hp)|].
  intros D. exact (record_reads _ _ _ _ _ _ _ _ _ _ _ _ i R D Et Ht Hs E Es Hp).
Qed.

(** One kind, with the token 5. *)
#[local] Instance one_kind : KindTokens := {
  tokenFromId := fun k => if decide (k = _T "T:1") then Ok 5 else Err MojErrDbKindNotRegistered;
  idFromToken := fun t => if t =? 5 then Ok (_T "T:1") else Err MojErrDbKindNotRegistered
}.
#[local] Instance one_kind_laws : KindTokensLaws.
Proof.
  constructor. intros k tok. simpl. case_decide as E; [|done]. intros [= <-]. subst. split; [unfold in_int; lia|done].
Qed.
#[local] Instance table : MojSharedTokenSet.MojSharedTokenSet MojDbKindState.MojDbKindState :=
  MojDbKindState.shared MojDbKindState.memTokens.
#[local] Instance table_laws : SharedTokenSetLaws MojDbKindState.MojDbKindState :=
  MojDbKindState.shared_laws MojDbKindState.memTokens.

Definition record_example : MojObject :=
  ObjectImpl [(IdKey, StringImpl (_T "x")); (KindKey, StringImpl (_T "T:1")); (RevKey, IntImpl 9); (_T "a", IntImpl 7)].

Lemma record_roundtrip_witness : exists bs t',
  serialize (StringImpl (_T "x")) record_example (MojTokenSet.init MojDbKindState.start) [] = Ok (bs, t') /\
  MojDbLevelItem.toObject (fun _ => Ok [_T "a"; _T "later"])
    (MojDbLevelItem.with_id (MojDbLevelItem.setData
      {| MojDbLevelItem.m_slice := []; MojDbLevelItem.m_header := MojDbObjectHeader.init UndefinedImpl |} bs)
      (StringImpl (_T "x"))) = Ok record_example.
Proof.
  eexists _, _. split; [reflexivity|].
  refine (proj2 (record_roundtrip record_example (StringImpl (_T "x")) (_T "T:1") 9 false 5 (MojTokenSet.init MojDbKindState.start)
    _ [] _ (fun _ => Ok [_T "a"; _T "later"]) [_T "a"; _T "later"] _ _ _ _ _ _ _ _) _).
  - split; try reflexivity. simpl. unfold in_int. repeat split; try lia; repeat constructor.
  - reflexivity.
  - exact MojDbKindState.inv_start.
  - apply snapshot_ok_undefined.
  - reflexivity.
  - reflexivity.
  - exists [_T "later"]. reflexivity.
  - simpl. repeat constructor.
Defined.

(** The record of a deleted object keeps its deletion mark twice: once in the header
    and once with the other properties, so that a text of it has the name twice. *)
Lemma deleted_twice : shown
  (ObjectImpl [(DelKey, BoolImpl true); (IdKey, StringImpl (_T "x")); (KindKey, StringImpl (_T "T:1")); (RevKey, IntImpl 9)])
  (StringImpl (_T "x")) (_T "T:1") 9 true =
  ObjectImpl [(IdKey, StringImpl (_T "x")); (KindKey, StringImpl (_T "T:1")); (RevKey, IntImpl 9);
              (DelKey, BoolImpl true); (DelKey, BoolImpl true)].
Proof. reflexivity. Qed.
End RecordSpec.
