(* ===== verification/QueryFilter.v ===== *)
(** * The filter of a query: src/src/db/MojDbQueryFilter.cpp,
    src/src/db/MojDbTextUtils.cpp (strToUpper)

    A search tests every object it has found against the filter clauses of the
    query.  The values of a property are collected through objects and arrays;
    one of them has to satisfy the clause. *)

From S2P Require Import Prelude Containers CoreUtil Number Object ObjectBuilder DataSerialization TokenSet ObjectSerialization Text DbKey Json JsonRoundTrip DbQuery ObjectItem.
Import MojDbQuery (CompOp, OpNone, OpEq, OpNotEq, OpLessThan, OpLessThanEq, OpGreaterThan, OpGreaterThanEq, OpPrefix, OpSearch, OpSubString, WhereMap, WhereClause).

(** ICU's case conversion, the whole result of which [u_strToUpper] writes as far
    as its buffer goes, and [u_strstr], the place of the first match. *)
Class ICUCase := {
  u_strToUpper : mstring -> UChars -> UChars;
  u_strstr : UChars -> UChars -> option nat
}.

Module CaseUtils.
Section icu.
Context `{ICU} `{ICUCase}.

(** The buffer has twice as many characters as the text.  A result that fills it
    has no terminator, and one that does not fit is an error. *)
Definition strToUpper (src locale : mstring) : res (UChars * bool) :=
  let? chars := MojDbTextUtils.strToUnicode src in
  let destOut := resize [] (length chars * 2) in
  let full := u_strToUpper locale chars in
  if (length destOut <? length full)%nat then Err MojErrDbUnicode
  else Ok (resize (written full destOut) (length full), (length full <? length destOut)%nat).
End icu.
End CaseUtils.

Module MojDbQueryFilter.
Record FindSubStringResult := { m_pos : Z; m_srcIsEmpty : bool; m_subStringIsEmpty : bool }.

Definition notFound : FindSubStringResult := {| m_pos := -1; m_srcIsEmpty := false; m_subStringIsEmpty := false |}.
Definition foundAt (p : Z) : FindSubStringResult := {| m_pos := p; m_srcIsEmpty := false; m_subStringIsEmpty := false |}.
Definition emptyStrings (src sub : bool) : FindSubStringResult :=
  {| m_pos := -1; m_srcIsEmpty := src; m_subStringIsEmpty := sub |}.

Definition isFound (r : FindSubStringResult) : bool := (-1 <? m_pos r) || (m_srcIsEmpty r && m_subStringIsEmpty r).

Section icu.
Context `{ICU} `{ICUCase}.

(** One string in another, both in upper case.  [u_strstr] reads up to a
    terminator, which has to be there. *)
Definition findText (src sub : mstring) : res FindSubStringResult :=
  match src, sub with
  | [], [] => Ok (emptyStrings true true)
  | [], _ :: _ => Ok (emptyStrings true false)
  | _ :: _, [] => Ok (emptyStrings false true)
  | _, _ =>
      let? (srcOut, srcEnds) := CaseUtils.strToUpper src [] in
      let? (subOut, subEnds) := CaseUtils.strToUpper sub [] in
      if srcEnds && subEnds
      then Ok (match u_strstr srcOut subOut with Some b => foundAt (Z.of_nat b) | None => notFound end)
      else Err AssertFailed
  end.

Fixpoint findSubString (src subString : MojObject) : res FindSubStringResult :=
  match subString with
  | ArrayImpl vec =>
      (fix go vec :=
         match vec with
         | [] => Ok notFound
         | i :: vec' => let? ret := findSubString src i in
                        if isFound ret then Ok ret else go vec'
         end) vec
  | StringImpl sub =>
      match src with
      | StringImpl s => findText s sub
      | _ => Ok notFound
      end
  | _ => Ok notFound
  end.

(** An [OpSearch] clause in a filter runs into [MojAssertNotReached]. *)
Definition testLower (clause : WhereClause) (val : MojObject) : res bool :=
  let lowerVal := MojDbQuery.WhereClause.m_lowerVal clause in
  match MojDbQuery.WhereClause.m_lowerOp clause with
  | OpNone => Ok true
  | OpEq => match lowerVal with
            | ArrayImpl vec => Ok (existsb (MojObject.equals val) vec)
            | _ => Ok (MojObject.equals val lowerVal)
            end
  | OpNotEq => Ok (negb (MojObject.equals val lowerVal))
  | OpGreaterThan => Ok (0 <? MojObject.compare val lowerVal)
  | OpGreaterThanEq => Ok (0 <=? MojObject.compare val lowerVal)
  | OpSubString => let? r := findSubString val lowerVal in Ok (isFound r)
  | OpPrefix => let? r := findSubString val lowerVal in
                Ok ((isFound r && (m_pos r =? 0)) || (m_srcIsEmpty r && m_subStringIsEmpty r))
  | _ => Err AssertFailed
  end.

Definition testUpper (clause : WhereClause) (val : MojObject) : res bool :=
  let upperVal := MojDbQuery.WhereClause.m_upperVal clause in
  match MojDbQuery.WhereClause.m_upperOp clause with
  | OpNone => Ok true
  | OpLessThan => Ok (MojObject.compare val upperVal <? 0)
  | OpLessThanEq => Ok (MojObject.compare val upperVal <=? 0)
  | _ => Err AssertFailed
  end.

(** [findValue]: [valOut] is extended on the way, [ret] is what the last call set
    it to.  The errors of the calls for the elements of an array are dropped;
    there are none. *)
Definition push_values (childObj : MojObject) (valOut : list MojObject) : list MojObject :=
  match childObj with
  | ArrayImpl vec => valOut ++ map (fun iter => (MojObject.del iter IdKey).1) vec
  | _ => valOut ++ [childObj]
  end.

Fixpoint findValue (keys : list mstring) : MojObject -> list MojObject -> bool -> list MojObject * bool :=
  match keys with
  | [] => fun childObj valOut ret => (push_values childObj valOut, true)
  | key :: keys' =>
      fix at_ childObj valOut ret :=
        match childObj with
        | ArrayImpl vec =>
            let r := fold_left (fun st i => at_ i st.1 st.2) vec (valOut, ret) in
            (r.1, match r.1 with [] => false | _ => true end)
        | _ => match MojObject.get childObj key with
               | None => (valOut, false)
               | Some childObj => findValue keys' childObj valOut ret
               end
        end
  end.

(** The values against one clause: the first that is inside ends the loop. *)
Fixpoint testVals (clause : WhereClause) (vals : list MojObject) (testResult : bool) : res bool :=
  match vals with
  | [] => Ok testResult
  | val :: vals' =>
      let? testResult := testLower clause val in
      if negb testResult then testVals clause vals' testResult
      else
        let? testResult := testUpper clause val in
        if testResult then Ok true else testVals clause vals' testResult
  end.

Fixpoint test (m_clauses : WhereMap) (obj : MojObject) : res bool :=
  match m_clauses with
  | [] => Ok true
  | (key, clause) :: m_clauses' =>
      let (objVals, found) := findValue (MojString.split key (chr ".")) obj [] false in
      if negb found then Ok false
      else
        let? testResult := testVals clause objVals false in
        if negb testResult then Ok false else test m_clauses' obj
  end.

(** ** What the filter decides *)

(** The values of a property: through every array on the way, and the elements of
    an array at the end. *)
Fixpoint values (keys : list mstring) : MojObject -> list MojObject :=
  match keys with
  | [] => fun o => match o with
                   | ArrayImpl vec => map (fun x => (MojObject.del x IdKey).1) vec
                   | _ => [o]
                   end
  | key :: keys' =>
      fix at_ o :=
        match o with
        | ArrayImpl vec => flat_map at_ vec
        | _ => match MojObject.get o key with Some c => values keys' c | None => [] end
        end
  end.

(** Texts that ICU puts into upper case within the buffer. *)
Definition upper_of (s : mstring) (u : UChars) : Prop :=
  exists chars, u_strFromUTF8 s = Some chars /\ u_strToUpper [] chars = u /\ (length u < length chars * 2)%nat.

(** A text operand: an array of texts stands for its first text that occurs. *)
Fixpoint text_place (src : mstring) (subs : list mstring) : option nat :=
  match subs with
  | [] => None
  | sub :: subs' =>
      let place := match src, sub with
                   | [], [] => Some 0%nat
                   | [], _ | _, [] => None
                   | _, _ => match u_strFromUTF8 src, u_strFromUTF8 sub with
                             | Some a, Some b => u_strstr (u_strToUpper [] a) (u_strToUpper [] b)
                             | _, _ => None
                             end
                   end in
      match place with Some n => Some n | None => text_place src subs' end
  end.

(** The texts of an operand, arrays within arrays included. *)
Fixpoint texts (o : MojObject) : list mstring :=
  match o with
  | StringImpl s => [s]
  | ArrayImpl vec => flat_map texts vec
  | _ => []
  end.

Definition place_in (val operand : MojObject) : option nat :=
  match val with StringImpl s => text_place s (texts operand) | _ => None end.

Definition lower_holds (c : WhereClause) (val : MojObject) : bool :=
  let l := MojDbQuery.WhereClause.m_lowerVal c in
  match MojDbQuery.WhereClause.m_lowerOp c with
  | OpEq => match l with ArrayImpl vec => existsb (MojObject.equals val) vec | _ => MojObject.equals val l end
  | OpNotEq => negb (MojObject.equals val l)
  | OpGreaterThan => 0 <? MojObject.compare val l
  | OpGreaterThanEq => 0 <=? MojObject.compare val l
  | OpSubString => match place_in val l with Some _ => true | None => false end
  | OpPrefix => match place_in val l with Some O => true | _ => false end
  | _ => true
  end.

Definition upper_holds (c : WhereClause) (val : MojObject) : bool :=
  match MojDbQuery.WhereClause.m_upperOp c with
  | OpLessThan => MojObject.compare val (MojDbQuery.WhereClause.m_upperVal c) <? 0
  | OpLessThanEq => MojObject.compare val (MojDbQuery.WhereClause.m_upperVal c) <=? 0
  | _ => true
  end.

Definition clause_holds (obj : MojObject) (i : mstring * WhereClause) : bool :=
  existsb (fun val => lower_holds i.2 val && upper_holds i.2 val) (values (MojString.split i.1 (chr ".")) obj).

(** The operators a clause can have, and texts that ICU can put into upper case. *)
Definition op_ok (c : WhereClause) : Prop :=
  match MojDbQuery.WhereClause.m_lowerOp c with OpLessThan | OpLessThanEq | OpSearch => False | _ => True end /\
  match MojDbQuery.WhereClause.m_upperOp c with OpNone | OpLessThan | OpLessThanEq => True | _ => False end.

Definition is_text_op (op : CompOp) : bool :=
  match op with OpPrefix | OpSubString => true | _ => false end.

Definition clause_ok (obj : MojObject) (i : mstring * WhereClause) : Prop :=
  op_ok i.2 /\
  (is_text_op (MojDbQuery.WhereClause.m_lowerOp i.2) = true ->
   Forall (fun s => s <> [] -> exists u, upper_of s u) (texts (MojDbQuery.WhereClause.m_lowerVal i.2)) /\
   Forall (fun val => forall s, val = StringImpl s -> s <> [] -> exists u, upper_of s u)
     (values (MojString.split i.1 (chr ".")) obj)).

(** ** Collecting the values *)
Lemma findValue_array key keys vec valOut ret :
  findValue (key :: keys) (ArrayImpl vec) valOut ret =
  let r := fold_left (fun st i => findValue (key :: keys) i st.1 st.2) vec (valOut, ret) in
  (r.1, match r.1 with [] => false | _ => true end).
Proof. done. Qed.

Lemma values_array key keys vec : values (key :: keys) (ArrayImpl vec) = flat_map (values (key :: keys)) vec.
Proof. done. Qed.

Lemma findValue_values keys : forall o valOut ret,
  (findValue keys o valOut ret).1 = valOut ++ values keys o /\
  ((findValue keys o valOut ret).2 = false -> values keys o = []).
Proof.
  induction keys as [|key keys IH]; intros o.
  - intros valOut ret. cbn [findValue values fst snd]. split; [by destruct o|done].
  - induction o as [| |s|b|r|z|m _|vec IHo] using MojObject_nested_ind; intros valOut ret;
      try (cbn [findValue values MojObject.get fst snd]; by rewrite app_nil_r).
    + cbn [findValue values]. destruct (MojObject.get (ObjectImpl m) key) as [c|]; [apply IH|].
      cbn [fst snd]. by rewrite app_nil_r.
    + rewrite findValue_array, values_array.
      assert ((fold_left (fun st i => findValue (key :: keys) i st.1 st.2) vec (valOut, ret)).1
              = valOut ++ flat_map (values (key :: keys)) vec) as E.
      { clear -IHo. revert valOut ret. induction IHo as [|x vec Hx _ IHv]; intros valOut ret.
        { cbn. by rewrite app_nil_r. }
        cbn [fold_left flat_map fst snd]. destruct (findValue (key :: keys) x valOut ret) as [v1 r1] eqn:Ex.
        rewrite IHv, app_assoc. f_equal. destruct (Hx valOut ret) as [<- _]. by rewrite Ex. }
      cbn [fst snd]. split; [exact E|]. rewrite E. intros Hnil.
      destruct (valOut ++ _) eqn:Ea; [|done]. by apply app_eq_nil in Ea as [_ ?].
Qed.

(** ** One clause *)
Lemma strToUpper_ok s u : upper_of s u -> CaseUtils.strToUpper s [] = Ok (u, true).
Proof.
  intros (chars & Es & Eu & Hl). unfold CaseUtils.strToUpper, MojDbTextUtils.strToUnicode. rewrite Es.
  cbn [res_bind]. rewrite fill_full, Eu, resize_length.
  rewrite (proj2 (Nat.ltb_ge _ _)), (proj2 (Nat.ltb_lt _ _)) by lia.
  rewrite fill_once; [done|]. rewrite resize_length. lia.
Qed.

Definition place_result (r : FindSubStringResult) (p : option nat) : Prop :=
  isFound r = (match p with Some _ => true | None => false end) /\
  ((isFound r && (m_pos r =? 0)) || (m_srcIsEmpty r && m_subStringIsEmpty r))
    = match p with Some O => true | _ => false end.

Lemma text_place_cons src sub subs : text_place src (sub :: subs) =
  match text_place src [sub] with Some n => Some n | None => text_place src subs end.
Proof. cbn [text_place]. by destruct (match src with [] => _ | _ => _ end). Qed.

Lemma text_place_app src l1 l2 : text_place src (l1 ++ l2) =
  match text_place src l1 with Some n => Some n | None => text_place src l2 end.
Proof.
  induction l1 as [|s l1 IH]; [done|]. cbn [app]. rewrite (text_place_cons src s (l1 ++ l2)), (text_place_cons src s l1), IH.
  by destruct (text_place src [s]).
Qed.

Definition upper_ok (s : mstring) : Prop := s <> [] -> exists u, upper_of s u.

Lemma findText_place src sub : upper_ok src -> upper_ok sub ->
  exists r, findText src sub = Ok r /\ place_result r (text_place src [sub]).
Proof.
  intros Hs Hb. destruct src as [|c src], sub as [|d sub]; try by (eexists; split; [done|]).
  destruct Hs as [us Hs]; [done|]. destruct Hb as [ub Hb]; [done|].
  unfold findText. rewrite (strToUpper_ok _ us Hs), (strToUpper_ok _ ub Hb). cbn [res_bind].
  destruct Hs as (cs & Es & Eu & _), Hb as (cb & Eb & Eu2 & _).
  cbn [text_place andb]. rewrite Es, Eb, Eu, Eu2.
  destruct (u_strstr us ub) as [n|]; eexists; (split; [done|]); [|done].
  unfold place_result, isFound, foundAt. cbn [m_pos m_srcIsEmpty m_subStringIsEmpty andb orb].
  rewrite !orb_false_r. destruct n as [|n]; [done|].
  rewrite (proj2 (Z.ltb_lt _ _)), (proj2 (Z.eqb_neq _ _)) by lia. done.
Qed.

Lemma findSubString_place s operand : upper_ok s -> Forall upper_ok (texts operand) ->
  exists r, findSubString (StringImpl s) operand = Ok r /\ place_result r (text_place s (texts operand)).
Proof.
  intros Hs. induction operand as [| |b|b|r|z|m _|vec IH] using MojObject_nested_ind; intros Ht;
    try by (exists notFound).
  - cbn [texts] in *. rewrite Forall_singleton in Ht. exact (findText_place s _ Hs Ht).
  - cbn [texts findSubString] in *. induction IH as [|x vec Hx _ IHv]; [by exists notFound|].
    cbn [flat_map] in *. apply Forall_app in Ht as [H1 H2].
    destruct (Hx H1) as (r & -> & Hr1 & Hr2). cbn [res_bind]. rewrite text_place_app, Hr1.
    destruct (text_place s (texts x)) as [n|]; [|by apply IHv]. exists r. split; [done|]. split; [exact Hr1|exact Hr2].
Qed.

Lemma findSubString_other val operand : (forall s, val <> StringImpl s) -> findSubString val operand = Ok notFound.
Proof.
  intros Hv. induction operand as [| |b|b|r|z|m _|vec IH] using MojObject_nested_ind; try done.
  - destruct val; try done. exfalso. by eapply Hv.
  - cbn [findSubString]. induction IH as [|x vec Hx _ IHv]; [done|]. by rewrite Hx.
Qed.

Lemma text_test val operand : Forall upper_ok (texts operand) -> (forall s, val = StringImpl s -> upper_ok s) ->
  exists r, findSubString val operand = Ok r /\ place_result r (place_in val operand).
Proof.
  intros Ht Hv. destruct val as [| |m|vec|s|b|r|z];
    try (rewrite findSubString_other by done; by exists notFound).
  apply findSubString_place; [by apply Hv|done].
Qed.

Lemma testLower_holds c val : op_ok c ->
  (is_text_op (MojDbQuery.WhereClause.m_lowerOp c) = true ->
   Forall upper_ok (texts (MojDbQuery.WhereClause.m_lowerVal c)) /\ forall s, val = StringImpl s -> upper_ok s) ->
  testLower c val = Ok (lower_holds c val).
Proof.
  intros [Hop _] Ht. unfold testLower, lower_holds.
  destruct (MojDbQuery.WhereClause.m_lowerOp c); try done.
  - by destruct (MojDbQuery.WhereClause.m_lowerVal c).
  - destruct (Ht eq_refl) as [H1 H2]. destruct (text_test val _ H1 H2) as (r & -> & _ & E). cbn [res_bind]. by rewrite E.
  - destruct (Ht eq_refl) as [H1 H2]. destruct (text_test val _ H1 H2) as (r & -> & E & _). cbn [res_bind]. by rewrite E.
Qed.

Lemma testUpper_holds c val : op_ok c -> testUpper c val = Ok (upper_holds c val).
Proof. intros [_ Hop]. unfold testUpper, upper_holds. by destruct (MojDbQuery.WhereClause.m_upperOp c). Qed.

Lemma testVals_holds c vals : op_ok c ->
  (is_text_op (MojDbQuery.WhereClause.m_lowerOp c) = true ->
   Forall upper_ok (texts (MojDbQuery.WhereClause.m_lowerVal c)) /\
   Forall (fun val => forall s, val = StringImpl s -> upper_ok s) vals) ->
  testVals c vals false = Ok (existsb (fun val => lower_holds c val && upper_holds c val) vals).
Proof.
  intros Hop. induction vals as [|val vals IH]; intros Ht; [done|]. cbn [testVals existsb].
  rewrite testLower_holds; [|done|intros E; destruct (Ht E) as [? H2]; split; [done|by apply Forall_cons in H2 as [? _]]].
  specialize (IH ltac:(intros E; destruct (Ht E) as [? H2]; split; [done|by apply Forall_cons in H2 as [_ ?]])).
  cbn [res_bind]. destruct (lower_holds c val); [|exact IH]. cbn [negb andb].
  rewrite testUpper_holds by done. cbn [res_bind]. by destruct (upper_holds c val).
Qed.

(** C10: the filter lets an object through exactly when every clause has a value
    of its property that is inside the clause's bounds.  The values are collected
    through objects and arrays; texts are compared in upper case, and an array of
    texts counts through the first of them that occurs. *)
Theorem filter_exact m_clauses obj : Forall (clause_ok obj) m_clauses ->
  test m_clauses obj = Ok (forallb (clause_holds obj) m_clauses).
Proof.
  induction 1 as [|[key c] m_clauses [Hop Ht] _ IH]; [done|]. cbn [test forallb].
  destruct (findValue_values (MojString.split key (chr ".")) obj [] false) as [E1 E2].
  unfold clause_holds at 1. cbn [fst snd] in *.
  destruct (findValue _ obj [] false) as [vals found]. cbn [fst snd app] in *. subst vals.
  destruct found; cbn [negb].
  - rewrite testVals_holds by done. cbn [res_bind]. destruct (existsb _ _); [|done]. exact IH.
  - by rewrite E2.
Qed.
End icu.

(** ** Examples *)
Module Sample.
(** Two-byte UTF-8, and the case mappings of ASCII letters, of U+00DF and of U+0390. *)
Fixpoint decode (s : mstring) : UChars :=
  match s with
  | a :: ((b :: s') as t) =>
      if (192 <=? a) && (a <? 224) then ((a - 192) * 64 + (b - 128)) :: decode s' else a :: decode t
  | _ => s
  end.

Definition upper (c : Z) : UChars :=
  if (97 <=? c) && (c <=? 122) then [c - 32]
  else if c =? 223 then [83; 83]
  else if c =? 912 then [921; 776; 769]
  else [c].

Fixpoint place (s sub : UChars) : option nat :=
  if bool_decide (take (length sub) s = sub) then Some 0%nat
  else match s with [] => None | _ :: s' => match place s' sub with Some n => Some (Datatypes.S n) | None => None end end.

#[local] Instance icu : ICU := {|
  UCollator := unit; UBreakIterator := unit;
  u_strFromUTF8 s := Some (decode s); u_strToUTF8 s := Some s; ucol_open _ := Some tt;
  ucol_setNormalization u := u; ucol_setNumericCollation u := u; ucol_setStrength u _ := u;
  ucol_getSortKey _ s := s ++ [0]; ubrk_open_word _ := Some tt;
  ubrk_positions _ s := Some [(0%nat, false); (length s, true)] |}.

#[local] Instance icu_case : ICUCase := {| u_strToUpper _ s := flat_map upper s; u_strstr := place |}.

Definition clause (op : CompOp) (val : MojObject) : WhereClause :=
  {| MojDbQuery.WhereClause.m_lowerOp := op; MojDbQuery.WhereClause.m_upperOp := OpNone;
     MojDbQuery.WhereClause.m_lowerVal := val; MojDbQuery.WhereClause.m_upperVal := UndefinedImpl;
     MojDbQuery.WhereClause.m_collation := MojDbCollationInvalid |}.

Definition person : MojObject :=
  ObjectImpl [(_T "age", IntImpl 30);
              (_T "mails", ArrayImpl [ObjectImpl [(_T "addr", StringImpl (_T "bob@x"))];
                                      ObjectImpl [(_T "addr", StringImpl (_T "Al@y"))]])].

Lemma filter_exact_witness :
  test [(_T "age", clause OpGreaterThan (IntImpl 20)); (_T "mails.addr", clause OpPrefix (StringImpl (_T "al")))] person = Ok true.
Proof.
  rewrite (filter_exact _ person); [by vm_compute|].
  apply Forall_cons. split; [by split|]. apply Forall_singleton. split; [by split|]. intros _. split.
  - apply Forall_singleton. intros _. exists (_T "AL"). exists (_T "al"). vm_compute. repeat split; lia.
  - change (values (MojString.split (_T "mails.addr") (chr ".")) person) with [StringImpl (_T "bob@x"); StringImpl (_T "Al@y")].
    apply Forall_cons. split; [|apply Forall_singleton]; intros s [= <-] _; eexists; eexists; (split; [reflexivity|]); (split; [reflexivity|]); vm_compute; lia.
Defined.

(** A prefix clause with several texts stops at the first text that occurs at all:
    "ab" does not match the prefixes "b" or "a". *)
Lemma prefix_array_missed :
  test [(_T "p", clause OpPrefix (ArrayImpl [StringImpl (_T "b"); StringImpl (_T "a")]))]
    (ObjectImpl [(_T "p", StringImpl (_T "ab"))]) = Ok false /\
  test [(_T "p", clause OpPrefix (StringImpl (_T "a")))] (ObjectImpl [(_T "p", StringImpl (_T "ab"))]) = Ok true.
Proof. by vm_compute. Qed.

(** A text that doubles its length in upper case fills the buffer, so that the
    search reads past its end; one that triples it is an error of the query. *)
Lemma upper_overflow :
  test [(_T "p", clause OpSubString (StringImpl [195; 159]))] (ObjectImpl [(_T "p", StringImpl (_T "a"))]) = Err AssertFailed /\
  test [(_T "p", clause OpSubString (StringImpl [206; 144]))] (ObjectImpl [(_T "p", StringImpl (_T "a"))]) = Err MojErrDbUnicode.
Proof. by vm_compute. Qed.

(** A search operator is accepted in a filter and has no test. *)
Lemma search_in_filter :
  match MojDbQuery.addClause [] (_T "p") OpSearch (StringImpl (_T "a")) MojDbCollationInvalid with
  | Ok m => test m (ObjectImpl [(_T "p", StringImpl (_T "a"))])
  | Err e => Err e
  end = Err AssertFailed.
Proof. by vm_compute. Qed.
End Sample.
End MojDbQueryFilter.
