(* ===== verification/Effects.v ===== *)
(** * State and errors

    A method that changes its object and may fail: the object keeps the changes made
    before an error, and the caller may go on with it ([MojErrCatch]). *)

From S2P Require Import Prelude.

Definition st (S A : Type) : Type := S -> S * res A.

Section st.
Context {S : Type}.

Definition ret {A} (a : A) : st S A := fun s => (s, Ok a).
Definition throw {A} (e : MojErr) : st S A := fun s => (s, Err e).
Definition bind {A B} (m : st S A) (f : A -> st S B) : st S B :=
  fun s => match m s with (s', Ok a) => f a s' | (s', Err e) => (s', Err e) end.
Definition get : st S S := fun s => (s, Ok s).
Definition modify (f : S -> S) : st S unit := fun s => (f s, Ok tt).
Definition lift {A} (r : res A) : st S A := fun s => (s, r).

(** The error as a value: what [MojErrCatch] and a test of [err] look at. *)
Definition attempt {A} (m : st S A) : st S (res A) := fun s => let '(s', r) := m s in (s', Ok r).
End st.

Notation "'let!' x ':=' m 'in' k" := (bind m (fun x => k))
  (at level 10, x pattern, m at level 100, k at level 200) : db8_scope.

Section laws.
Context {S : Type}.

Lemma bind_ok {A B} (m : st S A) (f : A -> st S B) s s' a : m s = (s', Ok a) -> bind m f s = f a s'.
Proof. unfold bind. by intros ->. Qed.

Lemma bind_err {A B} (m : st S A) (f : A -> st S B) s s' e : m s = (s', Err e) -> bind m f s = (s', Err e).
Proof. unfold bind. by intros ->. Qed.

Lemma bind_inv {A B} (m : st S A) (f : A -> st S B) s s' b : bind m f s = (s', Ok b) -> exists s1 a, m s = (s1, Ok a) /\ f a s1 = (s', Ok b).
Proof. unfold bind. destruct (m s) as [s1 [a|e]]; [|done]. intros E. by exists s1, a. Qed.

Lemma lift_inv {A} (r : res A) (s s' : S) a : lift r s = (s', Ok a) -> r = Ok a /\ s' = s.
Proof. destruct r; [|done]. by intros [= <- <-]. Qed.

Lemma bind_lift {A B} (r : res A) (f : A -> st S B) s :
  bind (lift r) f s = match r with Ok a => f a s | Err e => (s, Err e) end.
Proof. by destruct r. Qed.

Lemma bind_assoc {A B C} (m : st S A) (f : A -> st S B) (g : B -> st S C) s :
  bind (bind m f) g s = bind m (fun a => bind (f a) g) s.
Proof. unfold bind. by destruct (m s) as [s' []]. Qed.
End laws.
