(* ===== verification/Req.v ===== *)
(** * Requests: src/src/db/MojDbReq.cpp

    A request holds a transaction from the first [begin] to the [end] that matches it,
    or, in a batch, to the end of the batch; so nested operations share one transaction. *)

From S2P Require Import Prelude Containers CoreUtil Object Effects.

Module MojDbReq.
(** [m_locked] is whether it points at the database, whose lock it then has; [m_txn]
    whether it has a transaction, which is the engine's. *)
Record MojDbReq := {
  m_domain : mstring;
  m_txn : bool;
  m_beginCount : Z;
  m_locked : bool;
  m_admin : bool;
  m_batch : bool;
  m_schemaLocked : bool;
  m_fixmode : bool
}.

Definition make (admin : bool) : MojDbReq :=
  {| m_domain := []; m_txn := false; m_beginCount := 0; m_locked := false; m_admin := admin; m_batch := false;
     m_schemaLocked := false; m_fixmode := false |}.

Definition with_domain (r : MojDbReq) d : MojDbReq :=
  {| m_domain := d; m_txn := m_txn r; m_beginCount := m_beginCount r; m_locked := m_locked r; m_admin := m_admin r;
     m_batch := m_batch r; m_schemaLocked := m_schemaLocked r; m_fixmode := m_fixmode r |}.
Definition with_txn (r : MojDbReq) t : MojDbReq :=
  {| m_domain := m_domain r; m_txn := t; m_beginCount := m_beginCount r; m_locked := m_locked r; m_admin := m_admin r;
     m_batch := m_batch r; m_schemaLocked := m_schemaLocked r; m_fixmode := m_fixmode r |}.
Definition with_count (r : MojDbReq) c batch : MojDbReq :=
  {| m_domain := m_domain r; m_txn := m_txn r; m_beginCount := c; m_locked := m_locked r; m_admin := m_admin r;
     m_batch := batch; m_schemaLocked := m_schemaLocked r; m_fixmode := m_fixmode r |}.
Definition with_lock (r : MojDbReq) locked schema : MojDbReq :=
  {| m_domain := m_domain r; m_txn := m_txn r; m_beginCount := m_beginCount r; m_locked := locked; m_admin := m_admin r;
     m_batch := m_batch r; m_schemaLocked := schema; m_fixmode := m_fixmode r |}.
Definition admin (r : MojDbReq) (privilege : bool) : MojDbReq :=
  {| m_domain := m_domain r; m_txn := m_txn r; m_beginCount := m_beginCount r; m_locked := m_locked r; m_admin := privilege;
     m_batch := m_batch r; m_schemaLocked := m_schemaLocked r; m_fixmode := m_fixmode r |}.
Definition fixmode (r : MojDbReq) (fmode : bool) : MojDbReq :=
  {| m_domain := m_domain r; m_txn := m_txn r; m_beginCount := m_beginCount r; m_locked := m_locked r; m_admin := m_admin r;
     m_batch := m_batch r; m_schemaLocked := m_schemaLocked r; m_fixmode := fmode |}.

(** Up to the first blank. *)
Definition domain (r : MojDbReq) (val : mstring) : MojDbReq :=
  with_domain r (match MojString.find val (chr " ") 0 with Some pos => take pos val | None => val end).

Definition lock (r : MojDbReq) (lockSchema : bool) : MojDbReq :=
  if m_locked r then r else with_lock r true (if lockSchema then true else m_schemaLocked r).
Definition unlock (r : MojDbReq) : MojDbReq := if m_locked r then with_lock r false false else r.

(** [MojDbAdminGuard]: the operation with all rights, and the old ones after it. *)
Definition guarded {S A} (m : st (MojDbReq * S) A) : st (MojDbReq * S) A := fun s =>
  let '((r, s'), a) := m (admin s.1 true, s.2) in ((admin r (m_admin s.1), s'), a).

(** ** Transactions

    What the storage engine and its transactions do, over a state of their own. *)
Section txn.
Context {S : Type} (beginTxn commitTxn abortTxn : st S unit).
Abbreviation W := (MojDbReq * S)%type.

Definition on_req (f : MojDbReq -> MojDbReq) : st W unit := modify (fun w => (f w.1, w.2)).
Definition on_engine (m : st S unit) : st W unit := fun w => let '(s, a) := m w.2 in ((w.1, s), a).

(** A transaction that is dropped is aborted by its destructor. *)
Definition drop : st W unit :=
  let! w := get in
  if m_txn w.1 then let! _ := attempt (on_engine abortTxn) in on_req (fun r => with_txn r false) else ret tt.

Definition begin (lockSchema : bool) : st W unit :=
  let! w := get in
  let count := m_beginCount w.1 in
  let! _ := on_req (fun r => with_count r (to_uint 32 (count + 1)) (m_batch r)) in
  if count =? 0 then
    let! _ := on_req (fun r => lock r lockSchema) in
    if m_txn w.1 then ret tt
    else let! _ := on_engine beginTxn in on_req (fun r => with_txn r true)
  else ret tt.

(** The transaction is gone and the lock free even when the commit fails. *)
Definition commit : st W unit :=
  let! w := get in
  let! err := if m_txn w.1 then attempt (on_engine commitTxn) else ret (Ok tt) in
  let! _ := on_req (fun r => unlock (with_txn r false)) in
  lift err.

Definition end_ (commitNow : bool) : st W unit :=
  let! w := get in
  let count := to_uint 32 (m_beginCount w.1 - 1) in
  let! _ := on_req (fun r => with_count r count (m_batch r)) in
  if (count =? 0) && negb (m_batch w.1) then
    if commitNow then commit
    else
      let! _ := drop in on_req unlock
  else ret tt.

Definition beginBatch : st W unit :=
  let! _ := on_req (fun r => with_count r 0 true) in drop.

Definition endBatch : st W unit :=
  let! _ := on_req (fun r => with_count r (m_beginCount r) false) in commit.

Definition startanother : st W unit :=
  let! _ := commit in
  let! _ := on_req (fun r => lock r false) in
  let! w := get in
  if m_txn w.1 then ret tt else let! _ := on_engine beginTxn in on_req (fun r => with_txn r true).

Definition abort : st W unit :=
  let! _ := on_req (fun r => with_count (unlock r) 0 false) in
  let! w := get in
  if m_txn w.1 then
    let! err := attempt (on_engine abortTxn) in
    let! _ := on_req (fun r => with_txn r false) in
    lift err
  else ret tt.

(** A request that goes out of scope. *)
Definition destroy : st W unit :=
  let! _ := on_req unlock in drop.

(** [MojDb::commitBatch]; [beginReq] is [begin] and the look at the caller's role. *)
Definition commitBatch : st W unit :=
  let! w := get in
  let schemaLocked := m_schemaLocked w.1 in
  let! _ := end_ true in
  let! _ := endBatch in
  let! _ := beginBatch in
  begin schemaLocked.
End txn.
End MojDbReq.

(** ** One transaction

    Over an engine that only logs. *)
Module ReqExample.
Import MojDbReq.
Inductive Call := Begin | Commit | Abort.

Definition log (c : Call) : st (list Call) unit := modify (fun l => l ++ [c]).
Abbreviation begin' := (begin (log Begin)).
Abbreviation end' := (end_ (log Commit) (log Abort)).

Fixpoint times (n : nat) {S} (m : st S unit) : st S unit :=
  match n with O => ret tt | Datatypes.S n' => let! _ := m in times n' m end.

Lemma begin_again lockSchema r l : m_beginCount r <> 0 ->
  begin' lockSchema (r, l) = ((with_count r (to_uint 32 (m_beginCount r + 1)) (m_batch r), l), Ok tt).
Proof. intros N. unfold begin, Effects.bind, Effects.get, on_req, modify. simpl. by rewrite (proj2 (Z.eqb_neq _ _) N). Qed.

Lemma end_inner r l : to_uint 32 (m_beginCount r - 1) <> 0 ->
  end' true (r, l) = ((with_count r (to_uint 32 (m_beginCount r - 1)) (m_batch r), l), Ok tt).
Proof. intros N. unfold end_, Effects.bind, Effects.get, on_req, modify. simpl. by rewrite (proj2 (Z.eqb_neq _ _) N). Qed.

(** C32: Operations inside another operation share its transaction: for any number of them below the width of the counter, one transaction is begun and one committed, at the end of the outermost, and the request is left without a transaction and without the lock. *)
Theorem nested_one_txn n adm lockSchema : Z.of_nat n < 2 ^ 32 - 1 ->
  exists r, (let! _ := begin' lockSchema in let! _ := times n (begin' false) in let! _ := times n (end' true) in end' true) (make adm, []) =
    ((r, [Begin; Commit]), Ok tt) /\ m_txn r = false /\ m_locked r = false.
Proof.
  intros Hn. assert (forall n r (l : list Call), 0 < m_beginCount r -> m_beginCount r + Z.of_nat n < 2 ^ 32 ->
    times n (begin' false) (r, l) = ((with_count r (m_beginCount r + Z.of_nat n) (m_batch r), l), Ok tt)) as B.
  { clear. intros n. induction n as [|n IH]; intros r l P Q; [by destruct r; simpl; rewrite Z.add_0_r|].
    cbn [times]. erewrite bind_ok by (apply begin_again; lia). rewrite IH; simpl; rewrite to_uint_small by (unfold in_uint; lia); [|lia..].
    by replace (m_beginCount r + 1 + Z.of_nat n) with (m_beginCount r + Z.of_nat (S n)) by lia. }
  assert (forall n r (l : list Call), 0 < m_beginCount r - Z.of_nat n -> m_beginCount r < 2 ^ 32 ->
    times n (end' true) (r, l) = ((with_count r (m_beginCount r - Z.of_nat n) (m_batch r), l), Ok tt)) as E.
  { clear. intros n. induction n as [|n IH]; intros r l P Q; [by destruct r; simpl; rewrite Z.sub_0_r|].
    cbn [times]. erewrite bind_ok by (apply end_inner; rewrite to_uint_small by (unfold in_uint; lia); lia).
    rewrite IH; simpl; rewrite to_uint_small by (unfold in_uint; lia); [|lia..].
    by replace (m_beginCount r - 1 - Z.of_nat n) with (m_beginCount r - Z.of_nat (S n)) by lia. }
  assert (exists r, begin' lockSchema (make adm, []) = ((r, [Begin]), Ok tt) /\ m_beginCount r = 1 /\ m_txn r = true /\
    m_batch r = false /\ m_locked r = true) as (r & E1 & C & T & Bt & L) by (destruct lockSchema; eexists; (split; [by lazy|done])).
  erewrite bind_ok by exact E1. erewrite bind_ok by (apply B; lia). erewrite bind_ok by (apply E; simpl; lia).
  unfold end_, commit, unlock, on_req, on_engine, attempt, Effects.bind, Effects.get, modify, log, ret, lift, with_txn. simpl.
  rewrite C. replace (1 + Z.of_nat n - Z.of_nat n - 1) with 0 by lia. simpl. rewrite Bt. simpl. rewrite T. simpl. rewrite L. eexists. split; [reflexivity|done].
Qed.

Lemma nested_one_txn_witness : exists r, (let! _ := begin' true in let! _ := times 3 (begin' false) in let! _ := times 3 (end' true) in end' true) (make false, []) =
    ((r, [Begin; Commit]), Ok tt) /\ m_txn r = false /\ m_locked r = false.
Proof. apply (nested_one_txn 3 false true). lia. Defined.

(** A request outside a batch is left in one by [commitBatch]: the last [end] does not
    commit, and the transaction is aborted when the request goes. *)
Lemma last_batch_lost lockSchema adm :
  ((let! _ := begin' lockSchema in let! _ := commitBatch (log Begin) (log Commit) (log Abort) in
    let! _ := end' true in destroy (log Abort)) (make adm, [])).1.2 = [Begin; Commit; Begin; Abort].
Proof. by destruct lockSchema. Qed.
End ReqExample.
