(* ===== verification/IsamQuery.v ===== *)
(** * Running a query: src/src/db/MojDbIsamQuery.cpp, src/src/engine/leveldb/MojDbLevelQuery.cpp

    The walk over the key ranges of a plan with the limit, the page's end, inactive
    shards, ids already shown and the distinct property; and the engine's part: a
    cursor over the index and the records of the primary table.

    The loops of [getKey], [get] and [count] have fuel, a turn for each record or
    range.  The kind engine and the table of shards are arguments. *)

From S2P Require Import Prelude Effects Containers CoreUtil Number Object ObjectBuilder DataSerialization TokenSet ObjectSerialization Text DbKey Json JsonRoundTrip DbQuery QueryPlan OrderedMap LevelDb ObjectItem.

(** The shard engine: a shard's [active] flag, when there is one with that id. *)
Class ShardTable := { shard_active : Z -> res (option bool) }.

(** A storage item: bytes of the engine, or an object. *)
Inductive StorageItem := LevelItem (i : MojDbLevelItem.MojDbLevelItem) | ObjectItem (obj : MojObject).

Module MojDbStorageItem.
Definition id (i : StorageItem) : MojObject :=
  match i with
  | LevelItem i => MojDbObjectHeader.m_id (MojDbLevelItem.m_header i)
  | ObjectItem obj => MojDbObjectItem.id obj
  end.

Section kinds.
Context `{KindTokens} (tokenSet : mstring -> res (list mstring)).
Definition kindId (i : StorageItem) : res mstring :=
  match i with
  | LevelItem i => let? (_, kindId) := MojDbLevelItem.kindId i in Ok kindId
  | ObjectItem obj => MojDbObjectItem.kindId obj
  end.
Definition toObject (i : StorageItem) : res MojObject :=
  match i with
  | LevelItem i => MojDbLevelItem.toObject tokenSet i
  | ObjectItem obj =>
      let? builder := MojDbObjectItem.visit obj MojObjectBuilder.init in Ok (MojObjectBuilder.m_obj builder)
  end.
End kinds.
End MojDbStorageItem.

Module MojDbIsamQuery.
Import MojDbKeyRange (MojDbKeyRange).
Import MojDbQueryPlan (MojDbQueryPlan).

Inductive State := StateInvalid | StateSeek | StateNext.

(** [m_iter] is what is left of the plan's ranges, [m_impl] the engine's part. *)
Record MojDbIsamQuery (I : Type) := {
  m_isOpen : bool;
  m_count : Z;
  m_state : State;
  m_iter : list MojDbKeyRange;
  m_keyData : bytes;
  m_plan : option MojDbQueryPlan;
  m_distinct : mstring;
  m_lastItem : option MojObject;
  m_ignoreInactiveShards : bool;
  m_insertedIds : list MojObject;
  m_endKey : MojDbKey;
  m_excludeKinds : list mstring;
  m_verify : bool;
  m_impl : I
}.
Arguments m_isOpen {I} _.
Arguments m_count {I} _.
Arguments m_state {I} _.
Arguments m_iter {I} _.
Arguments m_keyData {I} _.
Arguments m_plan {I} _.
Arguments m_distinct {I} _.
Arguments m_lastItem {I} _.
Arguments m_ignoreInactiveShards {I} _.
Arguments m_insertedIds {I} _.
Arguments m_endKey {I} _.
Arguments m_excludeKinds {I} _.
Arguments m_verify {I} _.
Arguments m_impl {I} _.

Section query.
Context `{KindTokens} `{ShardTable} (tokenSet : mstring -> res (list mstring)).
Context {I : Type}.
Abbreviation Q := (MojDbIsamQuery I).
Abbreviation M := (st Q).

Definition with_count (q : Q) (count : Z) : Q :=
  {| m_isOpen := m_isOpen q; m_count := count; m_state := m_state q; m_iter := m_iter q;
     m_keyData := m_keyData q; m_plan := m_plan q; m_distinct := m_distinct q; m_lastItem := m_lastItem q;
     m_ignoreInactiveShards := m_ignoreInactiveShards q; m_insertedIds := m_insertedIds q;
     m_endKey := m_endKey q; m_excludeKinds := m_excludeKinds q; m_verify := m_verify q;
     m_impl := m_impl q |}.

Definition with_place (q : Q) (state : State) (iter : list MojDbKeyRange) : Q :=
  {| m_isOpen := m_isOpen q; m_count := m_count q; m_state := state; m_iter := iter;
     m_keyData := m_keyData q; m_plan := m_plan q; m_distinct := m_distinct q; m_lastItem := m_lastItem q;
     m_ignoreInactiveShards := m_ignoreInactiveShards q; m_insertedIds := m_insertedIds q;
     m_endKey := m_endKey q; m_excludeKinds := m_excludeKinds q; m_verify := m_verify q;
     m_impl := m_impl q |}.

Definition with_key (q : Q) (keyData : bytes) (impl : I) : Q :=
  {| m_isOpen := m_isOpen q; m_count := m_count q; m_state := m_state q; m_iter := m_iter q;
     m_keyData := keyData; m_plan := m_plan q; m_distinct := m_distinct q; m_lastItem := m_lastItem q;
     m_ignoreInactiveShards := m_ignoreInactiveShards q; m_insertedIds := m_insertedIds q;
     m_endKey := m_endKey q; m_excludeKinds := m_excludeKinds q; m_verify := m_verify q; m_impl := impl |}.

Definition with_impl (q : Q) (impl : I) : Q :=
  {| m_isOpen := m_isOpen q; m_count := m_count q; m_state := m_state q; m_iter := m_iter q;
     m_keyData := m_keyData q; m_plan := m_plan q; m_distinct := m_distinct q; m_lastItem := m_lastItem q;
     m_ignoreInactiveShards := m_ignoreInactiveShards q; m_insertedIds := m_insertedIds q;
     m_endKey := m_endKey q; m_excludeKinds := m_excludeKinds q; m_verify := m_verify q; m_impl := impl |}.

Definition with_plan (q : Q) (plan : option MojDbQueryPlan) : Q :=
  {| m_isOpen := m_isOpen q; m_count := m_count q; m_state := m_state q; m_iter := m_iter q;
     m_keyData := m_keyData q; m_plan := plan; m_distinct := m_distinct q; m_lastItem := m_lastItem q;
     m_ignoreInactiveShards := m_ignoreInactiveShards q; m_insertedIds := m_insertedIds q;
     m_endKey := m_endKey q; m_excludeKinds := m_excludeKinds q; m_verify := m_verify q;
     m_impl := m_impl q |}.

Definition with_last (q : Q) (lastItem : option MojObject) (insertedIds : list MojObject) : Q :=
  {| m_isOpen := m_isOpen q; m_count := m_count q; m_state := m_state q; m_iter := m_iter q;
     m_keyData := m_keyData q; m_plan := m_plan q; m_distinct := m_distinct q; m_lastItem := lastItem;
     m_ignoreInactiveShards := m_ignoreInactiveShards q; m_insertedIds := insertedIds;
     m_endKey := m_endKey q; m_excludeKinds := m_excludeKinds q; m_verify := m_verify q;
     m_impl := m_impl q |}.

Definition with_endKey (q : Q) (endKey : MojDbKey) : Q :=
  {| m_isOpen := m_isOpen q; m_count := m_count q; m_state := m_state q; m_iter := m_iter q;
     m_keyData := m_keyData q; m_plan := m_plan q; m_distinct := m_distinct q; m_lastItem := m_lastItem q;
     m_ignoreInactiveShards := m_ignoreInactiveShards q; m_insertedIds := m_insertedIds q;
     m_endKey := endKey; m_excludeKinds := m_excludeKinds q; m_verify := m_verify q; m_impl := m_impl q |}.

Definition with_options (q : Q) (excludeKinds : list mstring) (verify : bool) : Q :=
  {| m_isOpen := m_isOpen q; m_count := m_count q; m_state := m_state q; m_iter := m_iter q;
     m_keyData := m_keyData q; m_plan := m_plan q; m_distinct := m_distinct q; m_lastItem := m_lastItem q;
     m_ignoreInactiveShards := m_ignoreInactiveShards q; m_insertedIds := m_insertedIds q;
     m_endKey := m_endKey q; m_excludeKinds := excludeKinds; m_verify := verify; m_impl := m_impl q |}.

(** [init]: the members it does not name keep their values. *)
Definition init (q : Q) : Q :=
  {| m_isOpen := false; m_count := 0; m_state := StateInvalid; m_iter := []; m_keyData := []; m_plan := m_plan q;
     m_distinct := m_distinct q; m_lastItem := m_lastItem q; m_ignoreInactiveShards := false;
     m_insertedIds := m_insertedIds q; m_endKey := m_endKey q; m_excludeKinds := m_excludeKinds q;
     m_verify := false; m_impl := m_impl q |}.

(** The constructor. *)
Definition make (impl : I) : Q :=
  init {| m_isOpen := false; m_count := 0; m_state := StateInvalid; m_iter := []; m_keyData := []; m_plan := None;
          m_distinct := []; m_lastItem := None; m_ignoreInactiveShards := false; m_insertedIds := []; m_endKey := [];
          m_excludeKinds := []; m_verify := false; m_impl := impl |}.

Definition open (plan : MojDbQueryPlan) (q : Q) : Q :=
  {| m_isOpen := true; m_count := m_count q; m_state := StateSeek; m_iter := MojDbQueryPlan.m_ranges plan;
     m_keyData := m_keyData q; m_plan := Some plan; m_distinct := MojDbQuery.m_distinct (MojDbQueryPlan.m_query plan);
     m_lastItem := m_lastItem q;
     m_ignoreInactiveShards := MojDbQuery.m_ignoreInactiveShards (MojDbQueryPlan.m_query plan);
     m_insertedIds := m_insertedIds q; m_endKey := []; m_excludeKinds := m_excludeKinds q; m_verify := m_verify q;
     m_impl := m_impl q |}.

Definition close (q : Q) : Q :=
  let q := if m_isOpen q then init (with_plan q None) else q in with_last q None [].

(** The plan; a query that is not open has none. *)
Definition the_plan : M MojDbQueryPlan :=
  let! q := get in match m_plan q with Some plan => ret plan | None => throw AssertFailed end.

Definition limit (plan : MojDbQueryPlan) : Z := MojDbQuery.m_limit (MojDbQueryPlan.m_query plan).
Definition desc (plan : MojDbQueryPlan) : bool := MojDbQuery.m_desc (MojDbQueryPlan.m_query plan).
Definition plan_limit (plan : MojDbQueryPlan) (val : Z) : MojDbQueryPlan :=
  let query := MojDbQueryPlan.m_query plan in
  {| MojDbQueryPlan.m_ranges := MojDbQueryPlan.m_ranges plan;
     MojDbQueryPlan.m_query := MojDbQuery.with_flags query (MojDbQuery.m_desc query)
                                 (MojDbQuery.m_immediateReturn query) val (MojDbQuery.m_page query);
     MojDbQueryPlan.m_locale := MojDbQueryPlan.m_locale plan;
     MojDbQueryPlan.m_idPropIndex := MojDbQueryPlan.m_idPropIndex plan;
     MojDbQueryPlan.m_groupCount := MojDbQueryPlan.m_groupCount plan |}.

Definition limitEnforced : M bool :=
  let! plan := the_plan in let! q := get in ret (limit plan <=? m_count q).

Definition nextPage : M MojDbKey :=
  let! full := limitEnforced in let! q := get in ret (if full then m_endKey q else []).

Definition groupCount : M nat := let! plan := the_plan in ret (MojDbQueryPlan.m_groupCount plan).

Definition compareKey (key : bytes) : M Z := let! q := get in ret (lexcmp (m_keyData q) key).

(** The end the walk comes to, and the one it starts from. *)
Definition range_key (range : MojDbKeyRange) (upper : bool) : MojDbKey :=
  if upper then MojDbKeyRange.upperKey range else MojDbKeyRange.lowerKey range.

Definition match_ (range : MojDbKeyRange) : M bool :=
  let! plan := the_plan in
  let key := range_key range (negb (desc plan)) in
  if MojDbKey.empty key then ret true
  else let! comp := compareKey key in ret (Bool.eqb (0 <=? comp) (desc plan)).

Definition saveEndKey : M unit :=
  let! plan := the_plan in let! q := get in
  modify (fun q => with_endKey q (if desc plan then m_keyData q else MojDbKey.increment (m_keyData q))).

Definition incrementCount : M unit :=
  let! _ := modify (fun q => with_count q (to_uint 32 (m_count q + 1))) in
  let! full := limitEnforced in
  if full : bool then saveEndKey else ret tt.

(** The id is a value of the key, after the index's id and the values before it. *)
Fixpoint skipObjects (n : nat) (r : MojObjectReader.MojObjectReader) : res MojObjectReader.MojObjectReader :=
  match n with
  | O => Ok r
  | S n' => let? (r, _) := MojObjectReader.nextObject r eater in skipObjects n' r
  end.

Definition parse_key (idIndex : nat) (key : bytes) : res MojObject :=
  let? r := skipObjects idIndex (MojObjectReader.data key) in
  let? (_, builder) := MojObjectReader.nextObject r MojObjectBuilder.init in
  Ok (MojObjectBuilder.m_obj builder).

Definition parseId : M MojObject :=
  let! plan := the_plan in let! q := get in lift (parse_key (MojDbQueryPlan.m_idPropIndex plan) (m_keyData q)).

Definition checkExclude (item : StorageItem) : M bool :=
  let! q := get in
  match m_excludeKinds q with
  | [] => ret false
  | kinds => let! kindId := lift (MojDbStorageItem.kindId item) in ret (MojSet.contains MojStrCmp kinds kindId)
  end.

(** Text that is no base 64 is an id of the main shard, and so is one of a shard
    nobody knows. *)
Definition shard_excluded (id : MojObject) : res bool :=
  match id with
  | StringImpl _ =>
      let? shardId := match MojDbIdGenerator.extractShard id with
                      | Err MojErrInvalidBase64Data => Ok MojDbIdGenerator.MainShardId
                      | r => r
                      end in
      if shardId =? MojDbIdGenerator.MainShardId then Ok false
      else
        let? info := shard_active shardId in
        match info with
        | Some active => Ok (negb active)
        | None => Ok false
        end
  | _ => Ok false
  end.

Definition checkShard : M bool := let! id := parseId in lift (shard_excluded id).

Definition distinct (item : StorageItem) : M (StorageItem * bool) :=
  let! q := get in
  let! obj := lift (MojDbStorageItem.toObject tokenSet item) in
  let! destObj := lift (MojObject.getRequiredT (MojObject.get obj (m_distinct q))) in
  let! same := match m_lastItem q with
               | Some last =>
                   let! compObj := lift (MojDbStorageItem.toObject tokenSet (ObjectItem last)) in
                   let! distinctObj := lift (MojObject.getRequiredT (MojObject.get compObj (m_distinct q))) in
                   ret (MojObject.compare distinctObj destObj =? 0)
               | None => ret false
               end in
  if same : bool then ret (item, true)
  else
    let! _ := modify (fun q => with_last q (Some obj) (m_insertedIds q)) in
    ret (ObjectItem obj, false).

Section virtuals.
(** What an engine provides. *)
Context (seekImpl : bytes -> bool -> M bool) (next : M bool) (getVal : M (option StorageItem * bool)).

(** The position is used again unless the walk has to go on to the range. *)
Definition seek (range : MojDbKeyRange) : M bool :=
  let! plan := the_plan in
  let key := range_key range (desc plan) in
  let! _ := modify (fun q => with_place q StateNext (m_iter q)) in
  let! q := get in
  let! comp := compareKey key in
  if (0 <? length (m_keyData q))%nat && Bool.eqb (comp <? 0) (desc plan) then ret true
  else seekImpl key (desc plan).

Fixpoint getKey (fuel : nat) : M (option Z) :=
  let! q := get in
  match m_iter q with
  | [] => ret None
  | range :: rest =>
      let! full := limitEnforced in
      if full : bool then ret None
      else
        match fuel with
        | O => throw AssertFailed
        | S fuel' =>
            let! keyFound := match m_state q with StateSeek => seek range | _ => next end in
            if negb keyFound then
              let! _ := modify (fun q => with_place q (m_state q) []) in ret None
            else
              let! m := match_ range in
              if m : bool then
                let! exclude := if m_ignoreInactiveShards q then checkShard else ret false in
                if exclude : bool then
                  let! _ := modify (fun q => with_place q StateNext (m_iter q)) in getKey fuel'
                else ret (Some (MojDbKeyRange.group range))
              else
                let! _ := modify (fun q => with_place q StateSeek rest) in getKey fuel'
        end
  end.

Definition getId (fuel : nat) : M (option (MojObject * Z)) :=
  let! found := getKey fuel in
  match found with
  | Some group => let! id := parseId in ret (Some (id, group))
  | None => ret None
  end.

(** The item and [foundOut].  A missing item's id is looked at all the same. *)
Definition getImpl (fuel : nat) (getItem : bool) : M (option StorageItem * bool) :=
  let! group := getKey fuel in
  let! r := match group with
            | Some _ =>
                if getItem then
                  let! (item, found) := getVal in
                  match item with
                  | None => throw AssertFailed
                  | Some i =>
                      let! q := get in
                      if MojSet.contains MojObject.compare (m_insertedIds q) (MojDbStorageItem.id i) then
                        ret (None, found, true)
                      else
                        let! _ := modify (fun q => with_last q (m_lastItem q)
                                    (MojSet.put MojObject.compare (m_insertedIds q) (MojDbStorageItem.id i))) in
                        ret (Some i, found, false)
                  end
                else ret (None, true, false)
            | None => ret (None, false, false)
            end in
  match r with
  | (item, found, true) => ret (item, found)
  | (item, false, false) => ret (item, false)
  | (item, true, false) =>
      let! q := get in
      match m_distinct q, item with
      | _ :: _, Some i =>
          let! (i, distincted) := distinct i in
          if distincted : bool then ret (None, true)
          else let! _ := incrementCount in ret (Some i, true)
      | _, _ => let! _ := incrementCount in ret (item, true)
      end
  end.

(** [get] of the query: to the next item, past what is shown already and past index
    entries that have no record. *)
Fixpoint get_loop (fuel : nat) : M (option StorageItem * bool) :=
  match fuel with
  | O => throw AssertFailed
  | S fuel' =>
      let! q := get in
      let! r := attempt (getImpl fuel true) in
      match r with
      | Err e =>
          if decide (e = MojErrInternalIndexOnFind) then
            if m_verify q then throw e else get_loop fuel'
          else throw e
      | Ok (None, true) => get_loop fuel'
      | Ok (item, found) => ret (item, found)
      end
  end.

(** [count] *)
Fixpoint count_loop (fuel : nat) : M unit :=
  match fuel with
  | O => throw AssertFailed
  | S fuel' =>
      let! r := attempt (getImpl fuel true) in
      match r with
      | Err e => if decide (e = MojErrInternalIndexOnFind) then count_loop fuel' else throw e
      | Ok (_, found) => if found : bool then count_loop fuel' else ret tt
      end
  end.

Definition count (fuel : nat) : M Z :=
  let! plan := the_plan in
  let! _ := modify (fun q => with_plan q (Some (plan_limit plan MojUInt32Max))) in
  let! _ := count_loop fuel in
  let! q := get in ret (m_count q).
End virtuals.
End query.
End MojDbIsamQuery.

(** ** [MojDbLevelQuery] *)
Module MojDbLevelQuery.
Import MojDbIsamQuery.

Section ldb.
Context `{LevelDB} `{KindTokens} `{ShardTable} (tokenSet : mstring -> res (list mstring)).
Context {QT : Type}.
Import MojDbLevelItem (MojDbLevelItem).

(** The cursor is an iterator, by number, of the index table's transaction; [m_db]
    the primary table and its part of the transaction. *)
Record Impl := {
  m_txn : MojDbLevelCursor.Txn (Q := QT);
  m_cursor : nat;
  m_key : MojDbKey;
  m_val : MojDbLevelItem;
  m_primaryVal : MojDbLevelItem;
  m_db : option (DB * MojDbLevelTableTxn.MojDbLevelTableTxn)
}.

Abbreviation M := (st (MojDbIsamQuery Impl)).

Definition with_item (i : Impl) (txn : MojDbLevelCursor.Txn (Q := QT)) (key : MojDbKey) (val : MojDbLevelItem) : Impl :=
  {| m_txn := txn; m_cursor := m_cursor i; m_key := key; m_val := val; m_primaryVal := m_primaryVal i; m_db := m_db i |}.
Definition with_primary (i : Impl) (val : MojDbLevelItem) : Impl :=
  {| m_txn := m_txn i; m_cursor := m_cursor i; m_key := m_key i; m_val := m_val i; m_primaryVal := val; m_db := m_db i |}.

(** [m_keyData] is the bytes of [m_key] from here on. *)
Definition getKey (flags : MojDbLevelCursor.LDB_FLAGS) : M bool :=
  let! q := get in
  let i := m_impl q in
  let! (txn, e) := lift (MojDbLevelCursor.get (m_txn i) (m_cursor i) (m_key i) (MojDbLevelItem.m_slice (m_val i)) flags) in
  let i := match e with
           | Some e => with_item i txn e.1 (MojDbLevelItem.setData (m_val i) e.2)
           | None => with_item i txn (m_key i) (m_val i)
           end in
  let! _ := modify (fun q => with_key q (m_key i) i) in
  ret (match e with Some _ => true | None => false end).

Definition next : M bool :=
  let! plan := the_plan in
  getKey (if desc plan then MojDbLevelCursor.e_Prev else MojDbLevelCursor.e_Next).

Definition seekImpl (key : bytes) (desc : bool) : M bool :=
  match key with
  | [] => getKey (if desc then MojDbLevelCursor.e_Last else MojDbLevelCursor.e_First)
  | _ =>
      let! _ := modify (fun q => with_impl q (with_item (m_impl q) (m_txn (m_impl q)) key (m_val (m_impl q)))) in
      let! found := getKey MojDbLevelCursor.e_Set in
      if desc then next else ret found
  end.

(** [foundOut] is set by the primary table only. *)
Definition getById (id : MojObject) : M (option StorageItem * bool) :=
  let! q := get in
  let! (item, found) :=
    match m_db (m_impl q) with
    | Some (db, ttxn) =>
        let! primaryKey := lift (ObjectBytes.toBytes id) in
        let! val := lift (MojDbLevelTableTxn.Get db ttxn primaryKey) in
        match val with
        | None => throw MojErrInternalIndexOnFind
        | Some val =>
            let item := MojDbLevelItem.with_id (MojDbLevelItem.setData (m_primaryVal (m_impl q)) val) id in
            let! _ := modify (fun q => with_impl q (with_primary (m_impl q) item)) in ret (item, true)
        end
    | None =>
        let item := MojDbLevelItem.with_id (m_val (m_impl q)) id in
        let! _ := modify (fun q => with_impl q (with_item (m_impl q) (m_txn (m_impl q)) (m_key (m_impl q)) item)) in
        ret (item, false)
    end in
  let! exclude := checkExclude (LevelItem item) in
  ret (if exclude : bool then None else Some (LevelItem item), found).

Definition getVal : M (option StorageItem * bool) := let! id := parseId in getById id.

(** The operations of the query. *)
Definition get_ (fuel : nat) : M (option StorageItem * bool) := get_loop tokenSet seekImpl next getVal fuel.
Definition getId (fuel : nat) : M (option (MojObject * Z)) := MojDbIsamQuery.getId seekImpl next fuel.
Definition count (fuel : nat) : M Z := MojDbIsamQuery.count tokenSet seekImpl next getVal fuel.
End ldb.

Section open.
Context `{LevelDB} {QT : Type}.
Import MojDbLevelItem (MojDbLevelItem).

Definition noItem : MojDbLevelItem :=
  {| MojDbLevelItem.m_slice := []; MojDbLevelItem.m_header := MojDbObjectHeader.init UndefinedImpl |}.

(** [open(db, joinDb, plan, txn)]: a cursor under a number not in use. *)
Definition open (db : DB) (joinDb : option (DB * MojDbLevelTableTxn.MojDbLevelTableTxn)) (plan : MojDbQueryPlan.MojDbQueryPlan)
    (txn : MojDbLevelCursor.Txn (Q := QT)) (h : nat) : res (MojDbIsamQuery (Impl (QT := QT))) :=
  let? txn := MojDbLevelCursor.open db txn h in
  Ok (MojDbIsamQuery.open plan (make
    {| m_txn := txn; m_cursor := h; m_key := []; m_val := noItem; m_primaryVal := noItem; m_db := joinDb |})).

Definition close (q : MojDbIsamQuery (Impl (QT := QT))) : MojDbIsamQuery (Impl (QT := QT)) :=
  if m_isOpen q then
    let q := MojDbIsamQuery.close q in
    let i := m_impl q in
    with_impl q {| m_txn := MojDbLevelCursor.close (m_txn i) (m_cursor i); m_cursor := m_cursor i; m_key := m_key i;
                   m_val := m_val i; m_primaryVal := m_primaryVal i; m_db := None |}
  else q.
End open.
End MojDbLevelQuery.
