(* ===== verification/IsamQuerySpec.v ===== *)
(** * What a query returns

    The walk of [MojDbIsamQuery] over the ranges of a plan, against the contents of
    the index: an engine promises to find the next record of an ordered map, and the
    walk then shows each record in a range once, in order, up to the limit. *)

From stdpp Require Import sorting.
From S2P Require Import Prelude Effects Containers CoreUtil Number Object ObjectBuilder DataSerialization TokenSet ObjectSerialization Text DbKey Json JsonRoundTrip DbQuery QueryPlan OrderedMap LevelDb ObjectItem IsamQuery.
Import MojDbIsamQuery.
Abbreviation Range := MojDbKeyRange.MojDbKeyRange.

(** ** Records in the order of a walk *)
Definition order (d : bool) (m : entries) : entries := if d then rev m else m.

(** [d] says descending: whether a key is not before a bound, in the walk's order. *)
Definition reached (d : bool) (bound k : bytes) : bool :=
  if d then MojDbKey.empty bound || (lexcmp k bound <? 0) else 0 <=? lexcmp k bound.
Definition starts (d : bool) (r : Range) (k : bytes) : bool := reached d (range_key r d) k.
Definition ends (d : bool) (r : Range) (k : bytes) : bool :=
  if d then 0 <=? lexcmp k (MojDbKeyRange.lowerKey r)
  else MojDbKey.empty (MojDbKeyRange.upperKey r) || (lexcmp k (MojDbKeyRange.upperKey r) <? 0).

Definition dirlt (d : bool) (a b : entry) : Prop := if d then lexcmp b.1 a.1 < 0 else lexcmp a.1 b.1 < 0.

Lemma contains_starts_ends d r k : MojDbKeyRange.contains r k = starts d r k && ends d r k.
Proof.
  apply eq_true_iff_eq. rewrite MojDbKeyRange.contains_true, andb_true_iff. unfold starts, ends, reached, range_key.
  assert (forall k : MojDbKey, MojDbKey.empty k = true <-> k = []) as E by (by intros []).
  destruct d; rewrite orb_true_iff, Z.leb_le, Z.ltb_lt, E; tauto.
Qed.

Lemma reached_up d bound a b : dirlt d a b -> reached d bound a.1 = true -> reached d bound b.1 = true.
Proof.
  unfold dirlt, reached. destruct d; intros D.
  - rewrite !orb_true_iff, !Z.ltb_lt. intros [|L]; [by left|right]. apply (comp_lt_le_trans lexcmp b.1 a.1 bound); [done|lia].
  - rewrite !Z.leb_le. intros L. pose proof (comp_anti lexcmp a.1 bound). pose proof (comp_anti lexcmp b.1 bound).
    pose proof (comp_trans lexcmp bound a.1 b.1). lia.
Qed.

Lemma ends_down d r a b : dirlt d a b -> ends d r b.1 = true -> ends d r a.1 = true.
Proof.
  unfold dirlt, ends. destruct d; intros D.
  - rewrite !Z.leb_le. intros L. pose proof (comp_anti lexcmp a.1 (MojDbKeyRange.lowerKey r)).
    pose proof (comp_anti lexcmp b.1 (MojDbKeyRange.lowerKey r)). pose proof (comp_trans lexcmp (MojDbKeyRange.lowerKey r) b.1 a.1). lia.
  - rewrite !orb_true_iff, !Z.ltb_lt. intros [|L]; [by left|right]. apply (comp_lt_le_trans lexcmp a.1 b.1 (MojDbKeyRange.upperKey r)); [done|lia].
Qed.

Lemma order_sorted d m : sorted_entries m -> StronglySorted (dirlt d) (order d m).
Proof.
  intros S. destruct d; simpl; [|exact S]. induction S as [|e m S IH F]; simpl; [constructor|].
  apply StronglySorted_app. split; [|split; [done|repeat constructor]].
  intros x y Hx%list_elem_of_In%List.in_rev%list_elem_of_In ->%list_elem_of_singleton.
  rewrite Forall_forall in F. by apply F.
Qed.

Lemma order_length d m : length (order d m) = length m.
Proof. destruct d; [apply List.length_rev|done]. Qed.

(** The records from the first one that is not before a bound. *)
Fixpoint beyond (d : bool) (bound : bytes) (l : entries) : entries :=
  match l with [] => [] | e :: l' => if reached d bound e.1 then l else beyond d bound l' end.

Lemma beyond_suffix d bound l : exists p, l = p ++ beyond d bound l /\ Forall (fun e => reached d bound e.1 = false) p.
Proof.
  induction l as [|e l (p & E & F)]; simpl; [by exists []|].
  destruct (reached d bound e.1) eqn:Q; [by exists []|]. exists (e :: p). split; [simpl; by f_equal|by constructor].
Qed.

Lemma beyond_head d bound l e l' : beyond d bound l = e :: l' -> reached d bound e.1 = true.
Proof. induction l as [|x l IH]; simpl; [done|]. destruct (reached d bound x.1) eqn:Q; [congruence|done]. Qed.

Lemma beyond_app d bound l e l' : StronglySorted (dirlt d) (l ++ e :: l') -> reached d bound e.1 = false ->
  beyond d bound (l ++ e :: l') = beyond d bound (e :: l').
Proof.
  intros S N. induction l as [|x l IH]; [done|]. rewrite <- app_comm_cons in *. apply StronglySorted_inv in S as [S F].
  cbn [beyond]. rewrite IH by done. cbn [beyond]. destruct (reached d bound x.1) eqn:Q; [|done].
  rewrite Forall_forall in F. specialize (F e). apply (reached_up d bound x e) in Q; [congruence|].
  apply F, elem_of_app. right. apply list_elem_of_here.
Qed.

(** Ranges in the order of the walk: each is entered no earlier than the one before
    it, and only the first may begin at the end of the index. *)
Definition after_range (d : bool) (r r' : Range) : Prop :=
  (forall k, starts d r' k = true -> starts d r k = true) /\ (d = true -> MojDbKeyRange.upperKey r' <> []).
Definition ordered (d : bool) (rs : list Range) : Prop := StronglySorted (after_range d) rs.

(** ** What is found: every record in a range that is not excluded, once, under the
    group of the first range it is in. *)
Section hits.
Context (excl : bytes -> bool).

Definition in_range (rs : list Range) (k : bytes) : option Range := List.find (fun r => MojDbKeyRange.contains r k) rs.
Definition hit (rs : list Range) (e : entry) : option (entry * Z) :=
  match in_range rs e.1 with
  | Some r => if excl e.1 then None else Some (e, MojDbKeyRange.group r)
  | None => None
  end.
Definition hits (rs : list Range) (l : entries) : list (entry * Z) := omap (hit rs) l.

Lemma hits_none rs l : (forall e, e ∈ l -> in_range rs e.1 = None) -> hits rs l = [].
Proof.
  unfold hits. induction l as [|e l IH]; intros N; simpl; [done|]. unfold hit at 1. rewrite N by apply list_elem_of_here.
  apply IH. intros x Hx. apply N. by apply list_elem_of_further.
Qed.

Lemma hits_app rs l1 l2 : hits rs (l1 ++ l2) = hits rs l1 ++ hits rs l2.
Proof.
  unfold hits. induction l1 as [|e l1 IH]; [done|]. rewrite <- app_comm_cons. cbn [omap list_omap]. rewrite IH. by destruct (hit rs e).
Qed.

(** A range that is over does not matter any more. *)
Lemma hits_over d r rs e l : StronglySorted (dirlt d) (e :: l) -> ends d r e.1 = false ->
  hits (r :: rs) (e :: l) = hits rs (e :: l).
Proof.
  intros [S F]%StronglySorted_inv E. assert (forall x, x ∈ e :: l -> MojDbKeyRange.contains r x.1 = false) as N.
  { intros x [->|Hx]%elem_of_cons; rewrite (contains_starts_ends d); [by rewrite E, andb_false_r|].
    rewrite Forall_forall in F. specialize (F x Hx). destruct (ends d r x.1) eqn:Q; [|by rewrite andb_false_r].
    apply (ends_down d r e x F) in Q. congruence. }
  unfold hits. clear S F E. induction (e :: l) as [|x l' IH]; [done|]. cbn [omap list_omap].
  assert (hit (r :: rs) x = hit rs x) as ->.
  { unfold hit, in_range. simpl. rewrite N by apply list_elem_of_here. done. }
  rewrite IH; [done|]. intros y Hy. apply N. by apply list_elem_of_further.
Qed.

(** Nothing is found before the first range starts. *)
Lemma hits_before d r rs l : ordered d (r :: rs) -> hits (r :: rs) l = hits (r :: rs) (beyond d (range_key r d) l).
Proof.
  intros [_ O]%StronglySorted_inv. destruct (beyond_suffix d (range_key r d) l) as (p & E & F). rewrite E at 1.
  rewrite hits_app, (hits_none _ p); [done|]. intros e He. rewrite Forall_forall in F. rewrite Forall_forall in O. specialize (F e He). simpl in F.
  unfold in_range. destruct (List.find _ (r :: rs)) as [r'|] eqn:Q; [|done].
  apply List.find_some in Q as [Hr C]. rewrite (contains_starts_ends d) in C. apply andb_true_iff in C as [C _].
  destruct Hr as [<-|Hr]; [unfold starts in C; congruence|].
  apply (proj1 (O r' (proj2 (list_elem_of_In _ _) Hr))) in C. unfold starts in C. congruence.
Qed.
End hits.

(** ** What a query needs of an engine

    A walk over the records of [m] in the direction [d]: after a seek or a step the
    engine is at the head of what is left of them. *)
Class IsamEngine {I : Type} (seekImpl : bytes -> bool -> st (MojDbIsamQuery I) bool) (next : st (MojDbIsamQuery I) bool)
    (d : bool) (m : entries) := {
  eng_usable : I -> Prop;
  eng_at : I -> entries -> Prop;
  eng_at_usable : forall i l, eng_at i l -> eng_usable i;
  eng_seek : forall q p bound, m_plan q = Some p -> desc p = d -> eng_usable (m_impl q) ->
    exists kd i', seekImpl bound d q = (with_key q kd i', Ok (negb (bool_decide (beyond d bound (order d m) = [])))) /\
      match beyond d bound (order d m) with [] => True | e :: l => kd = e.1 /\ eng_at i' (e :: l) end;
  eng_next : forall q p e l, m_plan q = Some p -> desc p = d -> eng_at (m_impl q) (e :: l) ->
    exists kd i', next q = (with_key q kd i', Ok (negb (bool_decide (l = [])))) /\
      match l with [] => True | e' :: l0 => kd = e'.1 /\ eng_at i' (e' :: l0) end
}.

(** A client: items until there are no more. *)
Fixpoint fetch {Q : Type} (get : st Q (option StorageItem * bool)) (n : nat) : st Q (list StorageItem) :=
  match n with
  | O => ret []
  | S n' =>
      let! r := get in
      match r with
      | (Some i, true) => let! l := fetch get n' in ret (i :: l)
      | _ => ret []
      end
  end.

(** The first records, up to a limit. *)
Definition upto {A} (limit : Z) (l : list A) : list A := take (Z.to_nat limit) l.

Section walk.
Context {I : Type} `{ShardTable}.
Context (seekImpl : bytes -> bool -> st (MojDbIsamQuery I) bool) (next : st (MojDbIsamQuery I) bool).
Context (d : bool) (m : entries) `{!IsamEngine seekImpl next d m}.
Context (p : MojDbQueryPlan.MojDbQueryPlan) (Ed : desc p = d) (Sm : sorted_entries m) (Km : Forall (fun e => e.1 <> []) m).

(** What decides whether a key's shard is out of use. *)
Definition key_excluded (ign : bool) (k : bytes) : res bool :=
  if ign then let? id := parse_key (MojDbQueryPlan.m_idPropIndex p) k in shard_excluded id else Ok false.
Definition excl (ign : bool) (k : bytes) : bool := match key_excluded ign k with Ok b => b | Err _ => false end.

Context (ign : bool).
Abbreviation hits := (hits (excl ign)).

(** The ids of the records the ranges hold can be read. *)
Definition ids_ok (rs : list Range) : Prop :=
  forall e r, e ∈ m -> r ∈ rs -> MojDbKeyRange.contains r e.1 = true -> exists b, key_excluded ign e.1 = Ok b.

Lemma ids_ok_tail r rs : ids_ok (r :: rs) -> ids_ok rs.
Proof. intros K e r' He Hr. apply (K e r' He). by apply list_elem_of_further. Qed.

Lemma ordered_tail r rs : ordered d (r :: rs) -> ordered d rs.
Proof. by intros [? _]%StronglySorted_inv. Qed.

(** The members a walk does not touch. *)
Definition same (q q' : MojDbIsamQuery I) : Prop :=
  exists s it kd i, q' = with_key (with_place q s it) kd i.

Lemma same_refl q : same q q.
Proof. exists (m_state q), (m_iter q), (m_keyData q), (m_impl q). by destruct q. Qed.
Lemma same_trans q1 q2 q3 : same q1 q2 -> same q2 q3 -> same q1 q3.
Proof. intros (? & ? & ? & ? & ->) (s & it & kd & i & ->). by exists s, it, kd, i. Qed.

(** Standing at a record. *)
Record walking (q : MojDbIsamQuery I) (rs : list Range) (e : entry) (l : entries) : Prop := {
  w_at : eng_at (m_impl q) (e :: l);
  w_key : m_keyData q = e.1;
  w_suffix : (e :: l) `suffix_of` order d m;
  w_ordered : ordered d rs;
  w_ids : ids_ok rs
}.

(** Where a walk can be, what it will still find, and how many turns that takes at
    most. *)
Inductive pending (q : MojDbIsamQuery I) : list (entry * Z) -> nat -> Prop :=
| P_end : m_iter q = [] -> pending q [] 0
| P_start : m_state q = StateSeek -> m_keyData q = [] -> eng_usable (m_impl q) ->
    ordered d (m_iter q) -> ids_ok (m_iter q) -> pending q (hits (m_iter q) (order d m)) (length (m_iter q) + length m)
| P_next r rs e l : m_state q = StateNext -> m_iter q = r :: rs -> walking q (r :: rs) e l -> starts d r e.1 = true ->
    pending q (hits (r :: rs) l) (length (r :: rs) + length l)
| P_seek e l : m_state q = StateSeek -> walking q (m_iter q) e l ->
    (d = true -> Forall (fun r => MojDbKeyRange.upperKey r <> []) (m_iter q)) ->
    pending q (hits (m_iter q) (e :: l)) (length (m_iter q) + length (e :: l)).

Lemma suffix_sorted l : l `suffix_of` order d m -> StronglySorted (dirlt d) l.
Proof. intros [x E]. pose proof (order_sorted d m Sm) as S. rewrite E in S. by apply StronglySorted_app in S as (_ & _ & S). Qed.

Lemma suffix_elem l e : l `suffix_of` order d m -> e ∈ l -> e ∈ m.
Proof.
  intros [x E] He. assert (e ∈ order d m) as Hm by (rewrite E; apply elem_of_app; by right).
  unfold order in Hm. destruct d; [|done]. by apply list_elem_of_In, List.in_rev, list_elem_of_In in Hm.
Qed.

(** The answer to a call: the next record, or the end. *)
Definition answers (q : MojDbIsamQuery I) (L : list (entry * Z)) (n : nat) (r : MojDbIsamQuery I * res (option Z)) : Prop :=
  match L with
  | [] => exists q', r = (q', Ok None) /\ same q q' /\ m_iter q' = []
  | (e, g) :: L' => exists q' n' l, r = (q', Ok (Some g)) /\ same q q' /\ m_keyData q' = e.1 /\ e ∈ m /\
      eng_at (m_impl q') (e :: l) /\ pending q' L' n' /\ (n' < n)%nat
  end.

Lemma answers_same q q1 L n n' r : same q q1 -> (n' <= n)%nat -> answers q1 L n' r -> answers q L n r.
Proof.
  intros S Hn. unfold answers. destruct L as [|[e g] L].
  - intros (q' & -> & S' & E). exists q'. split; [done|]. split; [by eapply same_trans|done].
  - intros (q' & k & l & -> & S' & Ek & He & Ha & P & Hk). exists q', k, l. split; [done|]. split; [by eapply same_trans|].
    split; [done|]. split; [done|]. split; [done|]. split; [done|]. lia.
Qed.

(** *** The parts of a turn *)
Lemma limitEnforced_eq (q : MojDbIsamQuery I) : m_plan q = Some p -> limitEnforced q = (q, Ok (limit p <=? m_count q)).
Proof. intros E. unfold limitEnforced, the_plan, bind, get. by rewrite E. Qed.

Lemma match_eq (q : MojDbIsamQuery I) r : m_plan q = Some p -> match_ r q = (q, Ok (ends d r (m_keyData q))).
Proof.
  intros E. unfold match_, the_plan, bind, get. rewrite E. simpl. rewrite Ed. unfold range_key, ends. destruct d; simpl.
  - destruct (MojDbKey.empty (MojDbKeyRange.lowerKey r)) eqn:K; simpl.
    + destruct (MojDbKeyRange.lowerKey r); [|done]. by destruct (m_keyData q).
    + unfold compareKey, bind, get. simpl. unfold ret. by destruct (0 <=? _).
  - destruct (MojDbKey.empty (MojDbKeyRange.upperKey r)) eqn:K; simpl; [done|]. unfold compareKey, bind, get. simpl. unfold ret.
    do 2 f_equal. destruct (Z.leb_spec 0 (lexcmp (m_keyData q) (MojDbKeyRange.upperKey r)));
      destruct (Z.ltb_spec (lexcmp (m_keyData q) (MojDbKeyRange.upperKey r)) 0); try done; lia.
Qed.

Lemma checkShard_eq (q : MojDbIsamQuery I) : m_plan q = Some p -> checkShard q = (q, key_excluded true (m_keyData q)).
Proof.
  intros E. unfold checkShard, parseId, the_plan, bind, get, lift, ret. rewrite E. simpl.
  by destruct (parse_key _ (m_keyData q)).
Qed.

Lemma shard_step (q : MojDbIsamQuery I) e r rs : m_plan q = Some p -> m_keyData q = e.1 -> e ∈ m -> ids_ok (r :: rs) ->
  MojDbKeyRange.contains r e.1 = true ->
  (if ign then checkShard else ret false) q = (q, Ok (excl ign e.1)).
Proof.
  intros E K He X C. destruct (X e r He (list_elem_of_here _ _) C) as (b & Eb). unfold excl. rewrite Eb. destruct ign; [|by injection Eb as <-].
  by rewrite checkShard_eq, K, Eb.
Qed.

(** At a record, with the range it has to be compared with. *)
Definition arrived (fuel : nat) (r : Range) (rs : list Range) : st (MojDbIsamQuery I) (option Z) :=
  let! m := match_ r in
  if m : bool then
    let! exclude := if ign then checkShard else ret false in
    if exclude : bool then
      let! _ := modify (fun q => with_place q StateNext (m_iter q)) in getKey seekImpl next fuel
    else ret (Some (MojDbKeyRange.group r))
  else
    let! _ := modify (fun q => with_place q StateSeek rs) in getKey seekImpl next fuel.

Definition walks (fuel : nat) : Prop := forall q L n, m_plan q = Some p -> m_ignoreInactiveShards q = ign ->
  m_count q < limit p -> pending q L n -> (n <= fuel)%nat -> answers q L n (getKey seekImpl next fuel q).

Lemma arrive fuel q r rs e l n : walks fuel -> m_plan q = Some p -> m_ignoreInactiveShards q = ign -> m_count q < limit p ->
  m_state q = StateNext -> m_iter q = r :: rs -> walking q (r :: rs) e l -> starts d r e.1 = true ->
  (length rs + length (e :: l) <= fuel)%nat -> (length rs + length (e :: l) < n)%nat ->
  answers q (hits (r :: rs) (e :: l)) n (arrived fuel r rs q).
Proof.
  intros IH Ep Ei Hc Es Eit W Hs Hf Hn. pose proof W as [Wa Wk Ws Wo Wi]. unfold arrived.
  rewrite (bind_ok _ _ _ _ _ (match_eq q r Ep)). rewrite Wk. destruct (ends d r e.1) eqn:En.
  - assert (MojDbKeyRange.contains r e.1 = true) as C by (by rewrite (contains_starts_ends d), Hs, En).
    assert (e ∈ m) as He by (eapply suffix_elem; [exact Ws|apply list_elem_of_here]).
    rewrite (bind_ok _ _ _ _ _ (shard_step q e r rs Ep Wk He Wi C)).
    assert (hits (r :: rs) (e :: l) = if excl ign e.1 then hits (r :: rs) l else (e, MojDbKeyRange.group r) :: hits (r :: rs) l) as ->.
    { unfold IsamQuerySpec.hits. cbn [omap list_omap]. unfold hit at 1, in_range. simpl. rewrite C. by destruct (excl ign e.1). }
    assert (pending (with_place q StateNext (m_iter q)) (hits (r :: rs) l) (length (r :: rs) + length l)) as P.
    { apply (P_next _ r rs e l); [done|done|done|done]. }
    destruct (excl ign e.1).
    + unfold bind at 1, modify. eapply answers_same; [|shelve|apply IH; [done|done|done|exact P|simpl in *; lia]].
      exists StateNext, (m_iter q), (m_keyData q), (m_impl q). by destruct q.
      Unshelve. simpl in *. lia.
    + exists q, (length (r :: rs) + length l)%nat, l. split; [done|]. split; [apply same_refl|]. split; [done|]. split; [done|].
      split; [done|]. split; [|simpl in *; lia]. apply (P_next _ r rs e l); done.
  - unfold bind at 1, modify. rewrite (hits_over _ d) by (done || by apply suffix_sorted).
    eapply answers_same; [|shelve|apply IH; [done|done|done| |]].
    + exists StateSeek, rs, (m_keyData q), (m_impl q). by destruct q.
    + apply (P_seek (with_place q StateSeek rs) e l); [done| |].
      * split; [done|done|done|by eapply ordered_tail|by eapply ids_ok_tail].
      * intros D. apply StronglySorted_inv in Wo as [_ O]. eapply Forall_impl; [exact O|]. intros r' [_ A]. by apply A.
    + simpl in *. lia.
    Unshelve. simpl in *. lia.
Qed.

Lemma getKey_turn fuel (q : MojDbIsamQuery I) r rs : m_plan q = Some p -> m_ignoreInactiveShards q = ign -> m_count q < limit p ->
  m_iter q = r :: rs ->
  getKey seekImpl next (S fuel) q =
  bind (match m_state q with StateSeek => seek seekImpl r | _ => next end)
    (fun keyFound => if negb keyFound then let! _ := modify (fun q => with_place q (m_state q) []) in ret None
                     else arrived fuel r rs) q.
Proof.
  intros Ep Ei Hc Eit. cbn [getKey]. unfold bind at 1, Effects.get. rewrite Eit.
  rewrite (bind_ok _ _ _ _ _ (limitEnforced_eq q Ep)). destruct (Z.leb_spec (limit p) (m_count q)); [lia|].
  rewrite Ei. done.
Qed.

(** The two ways to enter a range. *)
Lemma seek_here (q : MojDbIsamQuery I) r : m_plan q = Some p -> m_keyData q <> [] ->
  (d = true -> MojDbKeyRange.upperKey r <> []) -> starts d r (m_keyData q) = true ->
  seek seekImpl r q = (with_place q StateNext (m_iter q), Ok true).
Proof.
  intros Ep N U S. unfold seek, the_plan. unfold bind at 1 2, Effects.get. rewrite Ep. cbn [ret]. rewrite Ed.
  unfold bind at 1, modify. unfold bind at 1, Effects.get. unfold compareKey, bind at 1 2, Effects.get, ret. cbn [m_keyData with_place].
  assert ((0 <? length (m_keyData q))%nat = true) as -> by by destruct (m_keyData q).
  unfold starts, reached, range_key in *. destruct d; cbn [andb] in *.
  - destruct (MojDbKeyRange.upperKey r) eqn:Ek; [by specialize (U eq_refl)|]. cbn [MojDbKey.empty orb] in S. by rewrite S.
  - apply Z.leb_le in S. destruct (Z.ltb_spec (lexcmp (m_keyData q) (MojDbKeyRange.lowerKey r)) 0); [lia|done].
Qed.

Lemma seek_there (q : MojDbIsamQuery I) r : m_plan q = Some p ->
  m_keyData q = [] \/ starts d r (m_keyData q) = false ->
  seek seekImpl r q = seekImpl (range_key r d) d (with_place q StateNext (m_iter q)).
Proof.
  intros Ep S. unfold seek, the_plan. unfold bind at 1 2, Effects.get. rewrite Ep. cbn [ret]. rewrite Ed.
  unfold bind at 1, modify. unfold bind at 1, Effects.get. unfold compareKey, bind at 1 2, Effects.get, ret. cbn [m_keyData with_place].
  destruct S as [->|S]; [done|]. unfold starts, reached, range_key in *. destruct (0 <? length (m_keyData q))%nat; [|done].
  destruct d; cbn [andb] in *.
  - apply orb_false_iff in S as [_ ->]. done.
  - apply Z.leb_gt in S. destruct (Z.ltb_spec (lexcmp (m_keyData q) (MojDbKeyRange.lowerKey r)) 0); [done|lia].
Qed.

(** After a seek or a step. *)
Lemma landed fuel (q : MojDbIsamQuery I) r rs l n m0 kd i' :
  walks fuel -> m_plan q = Some p -> m_ignoreInactiveShards q = ign -> m_count q < limit p ->
  m_iter q = r :: rs -> ordered d (r :: rs) -> ids_ok (r :: rs) -> l `suffix_of` order d m ->
  match l with [] => True | e :: _ => kd = e.1 /\ eng_at i' l /\ starts d r e.1 = true end ->
  (length rs + length l <= fuel)%nat -> (length rs + length l < n)%nat ->
  m0 q = (with_key (with_place q StateNext (m_iter q)) kd i', Ok (negb (bool_decide (l = [])))) ->
  answers q (hits (r :: rs) l) n
    (bind m0 (fun keyFound => if negb keyFound then let! _ := modify (fun q => with_place q (m_state q) []) in ret None
                              else arrived fuel r rs) q).
Proof.
  intros IH Ep Ei Hc Eit Wo Wi Ws Hl Hf Hn E0. rewrite (bind_ok _ _ _ _ _ E0). destruct l as [|e l].
  - simpl. unfold bind, modify, ret. eexists. split; [reflexivity|]. split; [|done].
    exists StateNext, [], kd, i'. done.
  - destruct Hl as (-> & Ha & Hs). simpl negb. cbn match.
    eapply answers_same; [exists StateNext, (m_iter q), e.1, i'; reflexivity|shelve|].
    apply (arrive fuel _ r rs e l n); try done. Unshelve. lia.
Qed.

Lemma getKey_walks fuel : walks fuel.
Proof.
  induction fuel as [|fuel IH]; intros q L n Ep Ei Hc P Hf.
  - destruct P as [Eit|Es Ek Hu Wo Wi|r rs e l Es Eit W Hs|e l Es W Hu]; simpl in *; try lia.
    + exists q. split; [|split; [apply same_refl|done]]. unfold bind, Effects.get. by rewrite Eit.
    + destruct (m_iter q) eqn:Eit; [|simpl in *; lia]. rewrite hits_none by done.
      exists q. split; [|split; [apply same_refl|done]]. unfold bind, Effects.get. by rewrite Eit.
  - destruct P as [Eit|Es Ek Hu Wo Wi|r rs e l Es Eit W Hs|e l Es W Hu].
    + exists q. split; [|split; [apply same_refl|done]]. cbn [getKey]. unfold bind, Effects.get. by rewrite Eit.
    + destruct (m_iter q) as [|r rs] eqn:Eit.
      { rewrite hits_none by done. exists q. split; [|split; [apply same_refl|done]]. cbn [getKey]. unfold bind, Effects.get. by rewrite Eit. }
      rewrite (getKey_turn _ _ r rs) by done. rewrite Es. rewrite (hits_before _ d) by done.
      destruct (eng_seek (with_place q StateNext (m_iter q)) p (range_key r d) Ep Ed Hu) as (kd & i' & E0 & Hl).
      destruct (beyond_suffix d (range_key r d) (order d m)) as (pre & Eq & _).
      pose proof (order_length d m) as Lm.
      assert (length (beyond d (range_key r d) (order d m)) <= length m)%nat as Lb.
      { rewrite <- Lm. rewrite Eq at 2. rewrite length_app. lia. }
      apply (landed fuel q r rs _ _ _ kd i'); try done.
      * by exists pre.
      * destruct (beyond d (range_key r d) (order d m)) as [|e l] eqn:B; [done|]. destruct Hl as [-> Ha]. split; [done|].
        split; [done|]. by eapply beyond_head.
      * simpl in Hf. lia.
      * simpl. lia.
      * rewrite seek_there by (done || by left). exact E0.
    + rewrite (getKey_turn _ _ r rs) by done. rewrite Es. destruct W as [Wa Wk Ws Wo Wi].
      destruct (eng_next q p e l Ep Ed Wa) as (kd & i' & E0 & Hl).
      apply (landed fuel q r rs l _ _ kd i'); try done.
      * etransitivity; [|exact Ws]. by exists [e].
      * destruct l as [|e' l]; [done|]. destruct Hl as [-> Ha]. split; [done|]. split; [done|].
        apply suffix_sorted, StronglySorted_inv in Ws as [_ F]. apply Forall_cons in F as [F _].
        by apply (reached_up d _ e e' F).
      * simpl in Hf. lia.
      * simpl. lia.
      * rewrite E0. do 2 f_equal. rewrite <- Es. by destruct q.
    + destruct W as [Wa Wk Ws Wo Wi]. destruct (m_iter q) as [|r rs] eqn:Eit.
      { rewrite hits_none by done. exists q. split; [|split; [apply same_refl|done]]. cbn [getKey]. unfold bind, Effects.get. by rewrite Eit. }
      rewrite (getKey_turn _ _ r rs) by done. rewrite Es. destruct (starts d r e.1) eqn:Hs.
      * assert (e.1 <> []) as Ne.
        { rewrite Forall_forall in Km. apply (Km e). eapply suffix_elem; [exact Ws|apply list_elem_of_here]. }
        apply (landed fuel q r rs (e :: l) _ _ (m_keyData q) (m_impl q)); try done; simpl in *; try lia.
        rewrite seek_here; [by destruct q|done|by rewrite Wk| |by rewrite Wk].
        intros D. by specialize (Hu D); apply Forall_cons in Hu as [Hu _].
      * rewrite (hits_before _ d) by done.
        destruct (eng_seek (with_place q StateNext (m_iter q)) p (range_key r d) Ep Ed (eng_at_usable _ _ Wa)) as (kd & i' & E0 & Hl).
        pose proof Ws as [pre Eq]. pose proof (order_sorted d m Sm) as So. rewrite Eq in So, E0, Hl.
        rewrite (beyond_app d _ pre e l So Hs) in E0, Hl.
        assert (length (beyond d (range_key r d) (e :: l)) <= length l)%nat as Lb.
        { cbn [beyond]. unfold starts in Hs. rewrite Hs. destruct (beyond_suffix d (range_key r d) l) as (pre' & Eq' & _).
          rewrite Eq' at 2. rewrite length_app. lia. }
        apply (landed fuel q r rs _ _ _ kd i'); try done.
        -- etransitivity; [|exact Ws]. destruct (beyond_suffix d (range_key r d) (e :: l)) as (pre' & Eq' & _). by exists pre'.
        -- destruct (beyond d (range_key r d) (e :: l)) as [|e' l'] eqn:B; [done|]. destruct Hl as [-> Ha]. split; [done|].
           split; [done|]. by eapply beyond_head.
        -- simpl in *. lia.
        -- simpl in *. lia.
        -- rewrite seek_there by (done || (right; by rewrite Wk)). exact E0.
Qed.

(** *** Values

    [join] is the record of an id; an index entry may have none. *)
Definition item_of (id : MojObject) (v : bytes) : StorageItem :=
  LevelItem (MojDbLevelItem.with_id (MojDbLevelItem.setData MojDbLevelQuery.noItem v) id).

(** A change of the engine's part that leaves the walk where it is. *)
Definition keeps (i i' : I) : Prop := (forall l, eng_at i l -> eng_at i' l) /\ (eng_usable i -> eng_usable i').

Definition parsed (k : bytes) : res MojObject := parse_key (MojDbQueryPlan.m_idPropIndex p) k.

Context (getVal : st (MojDbIsamQuery I) (option StorageItem * bool)) (join : MojObject -> option bytes).
Definition values_law : Prop := forall q e l id, m_plan q = Some p -> m_excludeKinds q = [] -> eng_at (m_impl q) (e :: l) ->
  m_keyData q = e.1 -> parsed e.1 = Ok id -> MojObject.ok id ->
  exists i', keeps (m_impl q) i' /\
    getVal q = (with_impl q i', match join id with
                                | Some v => Ok (Some (item_of id v), true)
                                | None => Err MojErrInternalIndexOnFind
                                end).
Context (Hv : values_law) (tokenSet : mstring -> res (list mstring)) `{KindTokens}.

(** What is shown of the records found: those that exist, each id once. *)
Fixpoint shown (seen : list MojObject) (L : list (entry * Z)) : list (bytes * MojObject * bytes) :=
  match L with
  | [] => []
  | (e, _) :: L' =>
      match parsed e.1 with
      | Ok id =>
          match join id with
          | Some v => if MojSet.contains MojObject.compare seen id then shown seen L'
                      else (e.1, id, v) :: shown (MojSet.put MojObject.compare seen id) L'
          | None => shown seen L'
          end
      | Err _ => []
      end
  end.

(** A query in use, and one that has come to its limit or its end. *)
Record running (q : MojDbIsamQuery I) (L : list (entry * Z)) (n : nat) : Prop := {
  run_plan : m_plan q = Some p;
  run_ign : m_ignoreInactiveShards q = ign;
  run_distinct : m_distinct q = [];
  run_exclude : m_excludeKinds q = [];
  run_verify : m_verify q = false;
  run_count : 0 <= m_count q;
  run_pending : pending q L n;
  run_ids : Forall (fun x => exists id, parsed x.1.1 = Ok id /\ MojObject.ok id) L
}.

Lemma pending_keeps q q' L n : m_state q' = m_state q -> m_iter q' = m_iter q -> m_keyData q' = m_keyData q ->
  keeps (m_impl q) (m_impl q') -> pending q L n -> pending q' L n.
Proof.
  intros Es Ei Ek [Ka Ku] P.
  destruct P as [Eit|Es0 Ek0 Hu Wo Wi|r rs e l Es0 Eit W Hs|e l Es0 W Hu].
  - apply P_end. congruence.
  - rewrite <- Ei in *. apply P_start; [congruence|congruence|by apply Ku|done|done].
  - destruct W as [Wa Wk Ws Wo Wi]. apply (P_next _ r rs e l); [congruence|congruence| |done].
    split; [by apply Ka|congruence|done|done|done].
  - rewrite <- Ei in *. destruct W as [Wa Wk Ws Wo Wi]. apply (P_seek _ e l); [congruence| |done].
    split; [by apply Ka|congruence|done|done|done].
Qed.

Lemma same_members q q' : same q q' -> m_plan q' = m_plan q /\ m_ignoreInactiveShards q' = m_ignoreInactiveShards q /\
  m_distinct q' = m_distinct q /\ m_excludeKinds q' = m_excludeKinds q /\ m_verify q' = m_verify q /\ m_count q' = m_count q /\
  m_insertedIds q' = m_insertedIds q /\ m_lastItem q' = m_lastItem q /\ m_endKey q' = m_endKey q.
Proof. by intros (s & it & kd & i & ->). Qed.

Definition end_key (k : bytes) : MojDbKey := if d then k else MojDbKey.increment k.

Context (Lp : limit p <= MojUInt32Max).

Lemma running_same q q' L L' n : running q L n -> same q q' -> forall n', pending q' L' n' ->
  Forall (fun x => exists id, parsed x.1.1 = Ok id /\ MojObject.ok id) L' -> running q' L' n'.
Proof.
  intros [? ? ? ? ? ? ? ?] S n' P F. apply same_members in S as (E1 & E2 & E3 & E4 & E5 & E6 & _). split; congruence || done.
Qed.

(** The count goes up, and at the limit the end of the page is kept. *)
Lemma incrementCount_eq (q : MojDbIsamQuery I) : m_plan q = Some p -> 0 <= m_count q < limit p ->
  incrementCount q = (let q' := with_count q (m_count q + 1) in
                      if limit p <=? m_count q + 1 then with_endKey q' (end_key (m_keyData q)) else q', Ok tt).
Proof.
  intros Ep Hc. unfold incrementCount, modify. unfold bind at 1. rewrite (to_uint_small 32).
  2: { unfold in_uint, MojUInt32Max in *. lia. }
  set (q' := with_count q (m_count q + 1)). assert (m_plan q' = Some p) as Ep' by done.
  rewrite (bind_ok _ _ _ _ _ (limitEnforced_eq q' Ep')). change (m_count q') with (m_count q + 1).
  destruct (limit p <=? m_count q + 1); [|done]. unfold saveEndKey, the_plan, bind, Effects.get. rewrite Ep'. simpl.
  unfold modify, end_key. by rewrite Ed.
Qed.

Lemma getImpl_hit fuel (q : MojDbIsamQuery I) e g L n id : running q ((e, g) :: L) n -> m_count q < limit p -> (n <= fuel)%nat ->
  parsed e.1 = Ok id -> MojObject.ok id ->
  exists q' n', getImpl tokenSet seekImpl next getVal fuel true q =
      (q', match join id with
           | None => Err MojErrInternalIndexOnFind
           | Some v => if MojSet.contains MojObject.compare (m_insertedIds q) id then Ok (None, true)
                       else Ok (Some (item_of id v), true)
           end) /\
    running q' L n' /\ (n' < n)%nat /\
    match join id with
    | Some v => if MojSet.contains MojObject.compare (m_insertedIds q) id
                then m_count q' = m_count q /\ m_insertedIds q' = m_insertedIds q /\ m_endKey q' = m_endKey q
                else m_count q' = m_count q + 1 /\ m_insertedIds q' = MojSet.put MojObject.compare (m_insertedIds q) id /\
                     m_endKey q' = (if limit p <=? m_count q + 1 then end_key e.1 else m_endKey q)
    | None => m_count q' = m_count q /\ m_insertedIds q' = m_insertedIds q /\ m_endKey q' = m_endKey q
    end.
Proof.
  intros R Hc Hf Hid Hok. pose proof R as [Rp Ri Rd Re Rv Rc Rpe Rid]. apply Forall_cons in Rid as [_ Rid].
  destruct (getKey_walks fuel q _ n Rp Ri Hc Rpe Hf) as (q1 & n1 & l & E1 & S1 & Ek & He & Ha & P1 & Hn1).
  pose proof (running_same _ _ _ _ _ R S1 _ P1 Rid) as R1. destruct (same_members _ _ S1) as (M1 & M2 & M3 & M4 & M5 & M6 & M7 & M8 & M9).
  unfold getImpl. rewrite (bind_ok _ _ _ _ _ E1).
  destruct (Hv q1 e l id) as (i' & Hk & E2); [apply R1|apply R1|done|done|done|done|].
  assert (running (with_impl q1 i') L n1) as R2.
  { destruct R1 as [? ? ? ? ? ? ? ?]. split; try done. by apply (pending_keeps q1). }
  unfold bind, Effects.get, ret, throw, modify. cbv beta iota. rewrite E2. cbv beta iota.
  destruct (join id) as [v|] eqn:J; cbv beta iota.
  2: { exists (with_impl q1 i'), n1. split; [done|]. split; [done|]. split; [done|]. rewrite <- M6, <- M7, <- M9. done. }
  set (q2 := with_impl q1 i') in *. assert (m_insertedIds q2 = m_insertedIds q) as Mi by done.
  change (MojDbStorageItem.id (item_of id v)) with id. rewrite Mi.
  destruct (MojSet.contains MojObject.compare (m_insertedIds q) id); cbv beta iota.
  { exists q2, n1. split; [done|]. split; [done|]. split; [done|]. rewrite <- M6, <- M7, <- M9. done. }
  rewrite ?Mi. set (q3 := with_last q2 (m_lastItem q2) (MojSet.put MojObject.compare (m_insertedIds q) id)).
  change (m_distinct q3) with (m_distinct q1). rewrite M3, Rd. cbv beta iota.
  assert (m_plan q3 = Some p) as Ep3 by (change (m_plan q1 = Some p); congruence).
  assert (m_count q3 = m_count q) as Ec3 by done.
  rewrite (incrementCount_eq q3 Ep3) by (rewrite Ec3; lia). rewrite Ec3. cbv beta iota zeta.
  change (m_keyData q3) with (m_keyData q1). rewrite Ek.
  eexists _, n1. split; [reflexivity|]. split; [|split; [done|]].
  - destruct R2 as [? ? ? ? ? ? ? ?]. destruct (limit p <=? m_count q + 1);
      (split; try done; [simpl; lia|by apply (pending_keeps q2); try done]).
  - destruct (limit p <=? m_count q + 1); simpl; by rewrite ?M9.
Qed.

Lemma getKey_full fuel (q : MojDbIsamQuery I) : m_plan q = Some p -> limit p <= m_count q ->
  getKey seekImpl next fuel q = (q, Ok None).
Proof.
  intros Ep F. destruct fuel; cbn [getKey]; unfold bind at 1, Effects.get; (destruct (m_iter q); [done|]);
    rewrite (bind_ok _ _ _ _ _ (limitEnforced_eq q Ep)); by rewrite (proj2 (Z.leb_le _ _) F).
Qed.

Lemma getImpl_end fuel (q : MojDbIsamQuery I) L n : running q L n -> L = [] \/ limit p <= m_count q -> (n <= fuel)%nat ->
  exists q', getImpl tokenSet seekImpl next getVal fuel true q = (q', Ok (None, false)) /\ same q q' /\
    (m_count q < limit p -> m_iter q' = []).
Proof.
  intros [Rp Ri Rd Re Rv Rc Rpe Rid] Q Hf. destruct (decide (limit p <= m_count q)) as [F|F].
  - exists q. split; [|split; [apply same_refl|lia]]. unfold getImpl.
    by rewrite (bind_ok _ _ _ _ _ (getKey_full fuel q Rp F)).
  - destruct Q as [->|]; [|done]. destruct (getKey_walks fuel q [] n Rp Ri ltac:(lia) Rpe Hf) as (q1 & E1 & S1 & Ei).
    exists q1. split; [|done]. unfold getImpl. by rewrite (bind_ok _ _ _ _ _ E1).
Qed.

Abbreviation get_next fuel := (get_loop tokenSet seekImpl next getVal fuel).

Lemma get_loop_end fuel (q : MojDbIsamQuery I) L n : running q L n -> limit p <= m_count q \/ L = [] -> (n < fuel)%nat ->
  exists q', get_next fuel q = (q', Ok (None, false)) /\ same q q' /\ (m_count q < limit p -> m_iter q' = []).
Proof.
  intros R Q Hf. destruct fuel as [|fuel]; [lia|].
  destruct (getImpl_end (Datatypes.S fuel) q L n R ltac:(tauto) ltac:(lia)) as (q' & E & S & Hi).
  exists q'. split; [|done]. cbn [get_loop]. unfold bind, Effects.get, attempt. by rewrite E.
Qed.

(** One call of [get]. *)
Definition got (q : MojDbIsamQuery I) (L : list (entry * Z)) (n : nat) (r : MojDbIsamQuery I * res (option StorageItem * bool)) : Prop :=
  match shown (m_insertedIds q) L with
  | [] => exists q', r = (q', Ok (None, false)) /\ m_plan q' = Some p /\ m_count q' = m_count q /\ m_endKey q' = m_endKey q
  | (k, id, v) :: rest => exists q' L' n', r = (q', Ok (Some (item_of id v), true)) /\ running q' L' n' /\ (n' < n)%nat /\
      shown (m_insertedIds q') L' = rest /\ m_count q' = m_count q + 1 /\
      m_endKey q' = (if limit p <=? m_count q + 1 then end_key k else m_endKey q)
  end.

Lemma get_loop_shown fuel (q : MojDbIsamQuery I) L n : running q L n -> m_count q < limit p -> (n < fuel)%nat ->
  got q L n (get_next fuel q).
Proof.
  revert q L n. induction fuel as [|fuel IH]; intros q L n R Hc Hf; [lia|]. unfold got.
  destruct L as [|[e g] L].
  { destruct (get_loop_end (Datatypes.S fuel) q [] n R ltac:(tauto) Hf) as (q' & E & S & _). simpl. exists q'.
    apply same_members in S as (E1 & _ & _ & _ & _ & E6 & _ & _ & E9). destruct R. split; [done|]. split; [congruence|done]. }
  pose proof (run_ids _ _ _ R) as Rid. apply Forall_cons in Rid as [(id & Hid & Hok) _]. simpl in Hid.
  destruct (getImpl_hit (Datatypes.S fuel) q e g L n id R Hc ltac:(lia) Hid Hok) as (q1 & n1 & E & R1 & Hn & X).
  cbn [shown]. rewrite Hid. cbn [get_loop]. unfold bind, Effects.get, attempt. rewrite E. cbv beta iota.
  assert (forall q1, running q1 L n1 -> m_count q1 = m_count q -> m_insertedIds q1 = m_insertedIds q -> m_endKey q1 = m_endKey q ->
    got q L n (get_next fuel q1)) as Again.
  { clear - IH Hf Hn Hc. intros q1 R1 Ec Ei Ek. specialize (IH q1 L n1 R1 ltac:(lia) ltac:(lia)). unfold got in *.
    rewrite Ei in IH. destruct (shown (m_insertedIds q) L) as [|[[k id] v] rest].
    - destruct IH as (q' & ? & ? & ? & ?). exists q'. split; [done|]. split; [done|]. split; congruence.
    - destruct IH as (q' & L' & n' & ? & ? & ? & ? & ? & ?). exists q', L', n'. rewrite Ec, Ek in *.
      split; [done|]. split; [done|]. split; [lia|]. done. }
  unfold got in Again. destruct (join id) as [v|]; [destruct (MojSet.contains _ _ _)|].
  - destruct X as (X1 & X2 & X3). by apply Again.
  - destruct X as (X1 & X2 & X3). exists q1, L, n1. split; [done|]. split; [done|]. split; [done|]. rewrite X2. done.
  - destruct X as (X1 & X2 & X3). case_decide; [|done]. rewrite (run_verify _ _ _ R). by apply Again.
Qed.

Definition page_end (lim : Z) (S : list (bytes * MojObject * bytes)) (start : MojDbKey) : MojDbKey :=
  if lim <=? Z.of_nat (length S) then match last S with Some x => end_key x.1.1 | None => start end else [].

Lemma nextPage_eq (q : MojDbIsamQuery I) : m_plan q = Some p ->
  nextPage q = (q, Ok (if limit p <=? m_count q then m_endKey q else [])).
Proof.
  intros Ep. unfold nextPage. rewrite (bind_ok _ _ _ _ _ (limitEnforced_eq q Ep)). by destruct (limit p <=? m_count q).
Qed.

Lemma fetch_shown N fuel (q : MojDbIsamQuery I) L n : running q L n -> (n < fuel)%nat ->
  let S := upto (limit p - m_count q) (shown (m_insertedIds q) L) in
  (length S < N)%nat ->
  exists q', fetch (get_next fuel) N q = (q', Ok (map (fun x => item_of x.1.2 x.2) S)) /\
    m_plan q' = Some p /\ m_count q' = m_count q + Z.of_nat (length S) /\
    m_endKey q' = (if limit p <=? m_count q + Z.of_nat (length S)
                   then match last S with Some x => end_key x.1.1 | None => m_endKey q end else m_endKey q).
Proof.
  revert q L n. induction N as [|N IH]; intros q L n R Hf S HN; [lia|]. cbn [fetch].
  destruct (Z.leb_spec (limit p) (m_count q)) as [F|F].
  - assert (S = []) as ES by (unfold S, upto; by rewrite Z2Nat.nonpos by lia).
    destruct (get_loop_end fuel q L n R ltac:(tauto) Hf) as (q' & E & Sm' & _). exists q'. unfold bind. rewrite E. rewrite ES. simpl.
    apply same_members in Sm' as (E1 & _ & _ & _ & _ & E6 & _ & _ & E9). split; [done|]. split; [rewrite E1; apply R|].
    split; [lia|]. rewrite E9. by destruct (_ <=? _).
  - pose proof (get_loop_shown fuel q L n R F Hf) as G. unfold got in G. unfold S, upto in *. clear S.
    destruct (shown (m_insertedIds q) L) as [|[[k id] v] rest].
    + destruct G as (q' & E & Ep & Ec & Ek). exists q'. unfold bind. rewrite E. rewrite take_nil in *. simpl.
      split; [done|]. split; [done|]. split; [lia|]. rewrite Ek. by destruct (_ <=? _).
    + destruct G as (q1 & L1 & n1 & E & R1 & Hn & Hs & Ec & Ek). unfold bind. rewrite E. cbv beta iota.
      assert (Z.to_nat (limit p - m_count q) = Datatypes.S (Z.to_nat (limit p - m_count q1))) as Et by lia.
      rewrite Et in *. cbn [take] in HN |- *. destruct (IH q1 L1 n1 R1 ltac:(lia)) as (q' & E' & Ep & Ec' & Ek'); rewrite Hs in *;
        [simpl in HN; lia|].
      exists q'. unfold bind in E'. rewrite E'. split; [done|]. split; [done|].
      set (S1 := take (Z.to_nat (limit p - m_count q1)) rest) in *.
      assert (m_count q1 + Z.of_nat (length S1) = m_count q + Z.of_nat (length ((k, id, v) :: S1))) as Em by (simpl; lia).
      rewrite <- Em. split; [lia|]. rewrite Ek', Ek. rewrite last_cons. destruct (last S1) as [x|] eqn:El.
      * destruct (Z.leb_spec (limit p) (m_count q1 + Z.of_nat (length S1))); [done|].
        destruct (Z.leb_spec (limit p) (m_count q + 1)); [lia|done].
      * apply last_None in El. rewrite El. simpl. rewrite Z.add_0_r, Ec. by destruct (_ <=? _).
Qed.

(** [count] goes on to the end of the plan. *)
Lemma count_loop_shown fuel (q : MojDbIsamQuery I) L n : running q L n -> (n < fuel)%nat ->
  m_count q + Z.of_nat (length (shown (m_insertedIds q) L)) < limit p ->
  exists q', count_loop tokenSet seekImpl next getVal fuel q = (q', Ok tt) /\
    m_count q' = m_count q + Z.of_nat (length (shown (m_insertedIds q) L)).
Proof.
  revert q L n. induction fuel as [|fuel IH]; intros q L n R Hf Hc; [lia|]. cbn [count_loop].
  destruct L as [|[e g] L].
  { destruct (getImpl_end (Datatypes.S fuel) q [] n R ltac:(tauto) ltac:(lia)) as (q' & E & Sm' & _).
    exists q'. unfold bind, attempt. rewrite E. split; [done|]. apply same_members in Sm' as (_ & _ & _ & _ & _ & E6 & _). simpl. lia. }
  pose proof (run_ids _ _ _ R) as Rid. apply Forall_cons in Rid as [(id & Hid & Hok) _]. simpl in Hid.
  destruct (getImpl_hit (Datatypes.S fuel) q e g L n id R ltac:(lia) ltac:(lia) Hid Hok) as (q1 & n1 & E & R1 & Hn & X).
  cbn [shown] in *. rewrite Hid in *. unfold bind, attempt. rewrite E. cbv beta iota.
  destruct (join id) as [v|]; [destruct (MojSet.contains _ _ _)|]; destruct X as (X1 & X2 & X3).
  - destruct (IH q1 L n1) as (q' & E' & Ec'); [done|lia|rewrite X2; lia|]. exists q'. rewrite X2 in Ec'. split; [exact E'|lia].
  - destruct (IH q1 L n1) as (q' & E' & Ec'); [done|lia|rewrite X2; simpl in Hc; lia|]. exists q'. rewrite X2 in Ec'.
    split; [exact E'|]. simpl. lia.
  - case_decide; [|done]. destruct (IH q1 L n1) as (q' & E' & Ec'); [done|lia|rewrite X2; lia|]. exists q'. rewrite X2 in Ec'.
    split; [exact E'|lia].
Qed.
End walk.
