(* ===== verification/LevelDbQuery.v ===== *)
(** * Queries of the LevelDB engine

    The LevelDB engine keeps the promise a query needs ([IsamEngine]), so that a query
    over any state of a transaction returns exactly the records of its plan. *)

From S2P Require Import Prelude Effects Containers CoreUtil Number Object ObjectBuilder DataSerialization TokenSet ObjectSerialization Text DbKey Json JsonRoundTrip DbQuery QueryPlan OrderedMap LevelDb LevelDbSpec LevelDbTxn LevelDbCursor ObjectItem ObjectItemSpec IsamQuery IsamQuerySpec.
Import MojDbIsamQuery.

(** ** First records, in both directions *)
Lemma beyond_find d bound l : head (beyond d bound l) = List.find (fun e => reached d bound e.1) l.
Proof.
  induction l as [|e l IH]; [done|]. cbn [beyond List.find]. destruct (reached d bound e.1) eqn:Q; [reflexivity|]. rewrite <- IH. reflexivity.
Qed.

Lemma find_rev {A} (f : A -> bool) l : List.find f (rev l) = last (List.filter f l).
Proof.
  induction l as [|x l IH]; simpl; [done|].
  assert (List.find f (rev l ++ [x]) = match List.find f (rev l) with Some y => Some y | None => if f x then Some x else None end) as ->.
  { clear IH. induction (rev l) as [|y l' IH']; simpl; [done|]. destruct (f y); [done|exact IH']. }
  rewrite IH. destruct (f x) eqn:E; [|by destruct (last _)]. rewrite last_cons. by destruct (last _).
Qed.

Lemma find_ext {A} (f g : A -> bool) l : (forall x, x ∈ l -> f x = g x) -> List.find f l = List.find g l.
Proof.
  induction l as [|x l IH]; intros E; simpl; [done|]. rewrite E by apply list_elem_of_here.
  rewrite IH; [done|]. intros y Hy. apply E. by apply list_elem_of_further.
Qed.

Lemma filter_ext_in {A} (f g : A -> bool) l : (forall x, x ∈ l -> f x = g x) -> List.filter f l = List.filter g l.
Proof. intros E. apply List.filter_ext_in. intros x Hx. apply E. by apply list_elem_of_In. Qed.

(** The places a walk goes through. *)
Lemma place_first m : place_record m (PlFwd (CutLt [])) = head (beyond false [] m).
Proof. simpl. rewrite beyond_find. apply find_ext. intros e _. unfold reached, below. destruct e.1; done. Qed.

Lemma place_seek m k : place_record m (PlFwd (CutLt k)) = head (beyond false k m).
Proof.
  simpl. rewrite beyond_find. apply find_ext. intros e _. unfold reached, below.
  destruct (Z.ltb_spec (lexcmp e.1 k) 0), (Z.leb_spec 0 (lexcmp e.1 k)); done || lia.
Qed.

Lemma place_last m : place_record m (PlBwd CutAll) = head (beyond true [] (rev m)).
Proof. simpl. by rewrite beyond_find, find_rev. Qed.

Lemma place_before m k : k <> [] -> place_record m (PlBwd (CutLt k)) = head (beyond true k (rev m)).
Proof.
  intros N. simpl. rewrite beyond_find, find_rev. unfold before. f_equal. apply filter_ext_in. intros e _.
  unfold reached, below. by destruct k.
Qed.

Lemma suffix_next d m e l : sorted_entries m -> (e :: l) `suffix_of` order d m ->
  place_record m (if d then PlBwd (CutLt e.1) else PlFwd (CutLe e.1)) = head l.
Proof.
  intros Sm [pre E]. pose proof (order_sorted d m Sm) as So. rewrite E in So.
  apply sorting.StronglySorted_app in So as (B & _ & So). apply sorting.StronglySorted_cons in So as [F _].
  rewrite Forall_forall in F.
  assert (forall f : entry -> bool, (forall x, x ∈ pre -> f x = false) -> f e = false -> (forall x, x ∈ l -> f x = true) ->
    List.find f (order d m) = head l) as G.
  { intros f F1 F2 F3. rewrite E. clear E B. induction pre as [|x pre IH]; simpl.
    - rewrite F2. destruct l as [|y l]; simpl; [done|]. rewrite F3 by apply list_elem_of_here. done.
    - rewrite F1 by apply list_elem_of_here. apply IH. intros y Hy. apply F1. by apply list_elem_of_further. }
  destruct d; simpl in *.
  - unfold before. rewrite <- find_rev. apply G; unfold below.
    + intros x Hx. specialize (B x e Hx (list_elem_of_here _ _)). simpl in B. apply Z.ltb_ge.
      pose proof (comp_anti lexcmp x.1 e.1). lia.
    + by rewrite (comp_refl lexcmp).
    + intros x Hx. specialize (F x Hx). simpl in F. by apply Z.ltb_lt.
  - unfold after. apply G; unfold below.
    + intros x Hx. specialize (B x e Hx (list_elem_of_here _ _)). simpl in B. apply negb_false_iff, Z.leb_le. lia.
    + by rewrite (comp_refl lexcmp).
    + intros x Hx. specialize (F x Hx). simpl in F. apply negb_true_iff, Z.leb_gt. pose proof (comp_anti lexcmp e.1 x.1). lia.
Qed.

(** ** The engine *)
Section engine.
Context `{LevelDBLaws} {QT : Type} (db : DB).
Context (ins : entries) (dels : list bytes) (Si : sorted_entries ins).
Context (joined : option (DB * MojDbLevelTableTxn.MojDbLevelTableTxn)).
Import MojDbLevelQuery.
Abbreviation Impl := (MojDbLevelQuery.Impl (QT := QT)).
Abbreviation M := (merged ins dels (db_view db)).

(** The cursor of a query at a place of the merged map. *)
Record at_txn (i : Impl) (pl : Place) : Prop := {
  at_ok : txn_ok (MojDbLevelCursor.m_ttxn (m_txn i));
  at_ins : MojDbLevelTableTxn.m_pendingValues (MojDbLevelCursor.m_ttxn (m_txn i)) = ins;
  at_dels : MojDbLevelTableTxn.m_pendingDeletes (MojDbLevelCursor.m_ttxn (m_txn i)) = dels;
  at_db : m_db i = joined;
  at_it : exists it, MojDbLevelTableTxn.iterator (MojDbLevelCursor.m_ttxn (m_txn i)) (m_cursor i) = Ok it /\ at_place db ins dels pl it
}.

Definition flag_move (flags : MojDbLevelCursor.LDB_FLAGS) (key : bytes) : option Move :=
  match flags with
  | MojDbLevelCursor.e_Set => Some (MSeek key)
  | MojDbLevelCursor.e_Next => Some MNext
  | MojDbLevelCursor.e_Prev => Some MPrev
  | MojDbLevelCursor.e_First => Some MFirst
  | MojDbLevelCursor.e_Last => Some MLast
  | _ => None
  end.

Lemma at_place_sane pl it : at_place db ins dels pl it -> sane ins it.
Proof. destruct pl; apply sane_at. Qed.

Lemma get_move (i : Impl) pl flags mv pl' key val : at_txn i pl -> flag_move flags key = Some mv -> spec_move M mv pl = Some pl' ->
  exists txn', MojDbLevelCursor.get (m_txn i) (m_cursor i) key val flags = Ok (txn', place_record M pl') /\
    forall k v, at_txn (with_item i txn' k v) pl'.
Proof.
  intros [K Ei Ed Ej (it & Eit & A)] Ef Es. destruct (move_at db ins dels Si mv pl pl' it A Es) as (it' & Em & A').
  pose proof (observe_at db ins dels Si pl' it' A') as O. pose proof (at_place_sane _ _ A') as Sn.
  destruct (set_iterator_ok _ (m_cursor i) it' K ltac:(by rewrite Ei)) as [K' _].
  assert (exists txn', MojDbLevelCursor.m_ttxn txn' = MojDbLevelTableTxn.set_iterator (MojDbLevelCursor.m_ttxn (m_txn i)) (m_cursor i) it' /\
    (let? t := match flags with
     | MojDbLevelCursor.e_Set => MojDbLevelCursor.move (fun ins dels it => MojDbLevelTxnIterator.seek ins dels it key) (m_txn i) (m_cursor i)
     | MojDbLevelCursor.e_Next => MojDbLevelCursor.move MojDbLevelTxnIterator.next (m_txn i) (m_cursor i)
     | MojDbLevelCursor.e_Prev => MojDbLevelCursor.move MojDbLevelTxnIterator.prev (m_txn i) (m_cursor i)
     | MojDbLevelCursor.e_First => MojDbLevelCursor.move (fun ins dels it => MojDbLevelTxnIterator.first ins dels it) (m_txn i) (m_cursor i)
     | MojDbLevelCursor.e_Last => MojDbLevelCursor.move (fun ins dels it => MojDbLevelTxnIterator.last ins dels it) (m_txn i) (m_cursor i)
     | _ => Ok (m_txn i) end in Ok t) = Ok txn') as (txn' & Et & E).
  { exists {| MojDbLevelCursor.m_ttxn := MojDbLevelTableTxn.set_iterator (MojDbLevelCursor.m_ttxn (m_txn i)) (m_cursor i) it';
              MojDbLevelCursor.m_quota := MojDbLevelCursor.m_quota (m_txn i) |}. split; [done|].
    destruct flags; simpl in Ef; try done; injection Ef as <-; simpl in Em; unfold MojDbLevelCursor.move;
      rewrite Eit; simpl; rewrite Ei, Ed, Em; done. }
  rewrite res_bind_ret in E. exists txn'. split.
  - unfold MojDbLevelCursor.get. rewrite E. cbn [res_bind]. unfold MojDbLevelCursor.valid, MojDbLevelCursor.current.
    rewrite Et. rewrite (iterator_set _ _ _ _ Eit). cbn [res_bind]. unfold observe in O.
    destruct (MojDbLevelTxnIterator.isValid it'); [|congruence].
    change (MojDbLevelTableTxn.m_pendingValues (MojDbLevelTableTxn.set_iterator ?t _ _)) with (MojDbLevelTableTxn.m_pendingValues t).
    rewrite Ei. destruct (MojDbLevelTxnIterator.getKey it') as [k|]; [|done]. cbn [res_bind] in *.
    destruct (MojDbLevelTxnIterator.getValue ins it') as [v|]; [|done]. cbn [res_bind] in *. congruence.
  - intros k v. split; simpl; rewrite ?Et; [done|done|done|done|]. exists it'. split; [by eapply iterator_set|done].
Qed.

Lemma getKey_move (q : MojDbIsamQuery Impl) pl flags mv pl' : at_txn (m_impl q) pl ->
  flag_move flags (m_key (m_impl q)) = Some mv -> spec_move M mv pl = Some pl' ->
  exists kd i', MojDbLevelQuery.getKey flags q =
      (with_key q kd i', Ok (match place_record M pl' with Some _ => true | None => false end)) /\ at_txn i' pl' /\
    match place_record M pl' with
    | Some e => kd = e.1 /\ m_key i' = e.1 /\ MojDbLevelItem.m_slice (m_val i') = e.2
    | None => True
    end.
Proof.
  intros A Ef Es. destruct (get_move (m_impl q) pl flags mv pl' (m_key (m_impl q)) (MojDbLevelItem.m_slice (m_val (m_impl q))) A Ef Es)
    as (txn' & E & A'). unfold MojDbLevelQuery.getKey, bind, Effects.get, lift, modify, ret. rewrite E. cbv beta iota.
  destruct (place_record M pl') as [e|]; eexists _, _; (split; [reflexivity|]); (split; [apply A'|]); done.
Qed.

Definition level_at (d : bool) (i : Impl) (l : entries) : Prop :=
  match l with
  | [] => False
  | e :: _ => exists pl, at_txn i pl /\ place_record M pl = Some e /\ l `suffix_of` order d M /\
                m_key i = e.1 /\ MojDbLevelItem.m_slice (m_val i) = e.2
  end.

(** Where a move has led, as the head of a list. *)
Lemma landed_at d (q : MojDbIsamQuery Impl) pl flags mv pl' l : at_txn (m_impl q) pl ->
  flag_move flags (m_key (m_impl q)) = Some mv -> spec_move M mv pl = Some pl' ->
  place_record M pl' = head l -> l `suffix_of` order d M ->
  exists kd i', MojDbLevelQuery.getKey flags q = (with_key q kd i', Ok (negb (bool_decide (l = [])))) /\
    match l with [] => True | e :: l0 => kd = e.1 /\ level_at d i' (e :: l0) end.
Proof.
  intros A Ef Es Ep Hs. destruct (getKey_move q pl flags mv pl' A Ef Es) as (kd & i' & E & A' & X).
  exists kd, i'. rewrite E. rewrite Ep in X |- *. destruct l as [|e l]; [done|]. split; [done|]. simpl in X.
  destruct X as (-> & X2 & X3). split; [done|]. exists pl'. done.
Qed.

Lemma next_desc (q : MojDbIsamQuery Impl) p : m_plan q = Some p ->
  MojDbLevelQuery.next q = MojDbLevelQuery.getKey (if desc p then MojDbLevelCursor.e_Prev else MojDbLevelCursor.e_Next) q.
Proof. intros E. unfold MojDbLevelQuery.next, the_plan, bind, Effects.get. by rewrite E. Qed.

#[export] Instance level_engine d : sorted_entries M ->
  IsamEngine (I := Impl) MojDbLevelQuery.seekImpl MojDbLevelQuery.next d M.
Proof.
  intros Sm. refine {| eng_usable := fun i => exists pl, at_txn i pl; eng_at := level_at d |}.
  - intros i [|e l]; [done|]. intros (pl & A & _). by exists pl.
  - intros q p bound Ep Ed (pl & A).
    destruct (beyond_suffix d bound (order d M)) as (pre & Esuf & _).
    assert (beyond d bound (order d M) `suffix_of` order d M) as Hs by by exists pre.
    destruct bound as [|b k].
    + unfold MojDbLevelQuery.seekImpl. destruct d.
      * by apply (landed_at true q pl _ MLast (PlBwd CutAll)); try done; apply place_last.
      * by apply (landed_at false q pl _ MFirst (PlFwd (CutLt []))); try done; apply place_first.
    + unfold MojDbLevelQuery.seekImpl, modify. unfold bind at 1.
      set (q1 := with_impl q _). assert (at_txn (m_impl q1) pl) as A1.
      { destruct A as [K Ei Ed' Ej X]. by split. }
      assert (m_key (m_impl q1) = b :: k) as Ek by done.
      assert (forall kd i, with_key q1 kd i = with_key q kd i) as Ew by done.
      destruct d.
      * destruct (getKey_move q1 pl MojDbLevelCursor.e_Set (MSeek (b :: k)) (PlFwd (CutLt (b :: k))) A1) as (kd & i' & E & A2 & X);
          [reflexivity|reflexivity|].
        unfold bind. rewrite E. cbv beta iota. rewrite (next_desc _ p) by done. rewrite Ed, Ew.
        assert (exists pl', spec_move M MPrev (PlFwd (CutLt (b :: k))) = Some pl' /\
                  place_record M pl' = place_record M (PlBwd (CutLt (b :: k)))) as (pl' & Es & Ep').
        { simpl. pose proof (after_spec (CutLt (b :: k)) M Sm) as Q. destruct (after (CutLt (b :: k)) M) as [e|] eqn:Ea.
          - exists (PlBwd (CutLt e.1)). split; [done|]. simpl. unfold before. f_equal. apply filter_ext_in. intros x Hx.
            destruct Q as (He & Be & Q). simpl in *. destruct (Z.ltb_spec (lexcmp x.1 (b :: k)) 0) as [L|L].
            + apply Z.ltb_lt. apply (comp_lt_le_trans lexcmp x.1 (b :: k)); [done|]. apply Z.ltb_ge in Be.
              pose proof (comp_anti lexcmp (b :: k) e.1). lia.
            + apply Z.ltb_ge. specialize (Q x Hx). rewrite (proj2 (Z.ltb_ge _ _) L) in Q. specialize (Q eq_refl).
              pose proof (comp_anti lexcmp e.1 x.1). lia.
          - exists (PlBwd CutAll). split; [done|]. simpl. unfold before. f_equal. apply filter_ext_in. intros x Hx.
            specialize (Q x Hx). simpl in Q. simpl. congruence. }
        destruct (landed_at true (with_key q kd i') (PlFwd (CutLt (b :: k))) MojDbLevelCursor.e_Prev MPrev pl'
          (beyond true (b :: k) (order true M))) as (kd' & i2 & E2 & X2); [done|done|done| |done|by exists kd', i2].
        rewrite Ep'. by apply place_before.
      * destruct (landed_at false q1 pl MojDbLevelCursor.e_Set (MSeek (b :: k)) (PlFwd (CutLt (b :: k)))
          (beyond false (b :: k) (order false M))) as (kd & i' & E & X); [done|reflexivity|reflexivity|apply place_seek|done|].
        exists kd, i'. unfold bind. rewrite E. done.
  - intros q p e l Ep Ed (pl & A & Er & Hs & _). rewrite (next_desc _ p Ep), Ed.
    assert (l `suffix_of` order d M) as Hs' by (etransitivity; [|exact Hs]; by exists [e]).
    pose proof (suffix_next d M e l Sm Hs) as En. destruct d.
    + apply (landed_at true q pl _ MPrev (PlBwd (CutLt e.1))); try done. simpl. by rewrite Er.
    + apply (landed_at false q pl _ MNext (PlFwd (CutLe e.1))); try done. simpl. by rewrite Er.
Defined.

(** The records of the primary table. *)
Definition primary_record (records : entries) (id : MojObject) : option bytes :=
  match ObjectBytes.toBytes id with Ok k => MojMap.get lexcmp records k | Err _ => None end.

Lemma level_values db2 t2 d (Sm : sorted_entries M) p `{KindTokens} : joined = Some (db2, t2) -> txn_ok t2 ->
  values_law (I := Impl) MojDbLevelQuery.seekImpl MojDbLevelQuery.next d M (IsamEngine0 := level_engine d Sm) p
    MojDbLevelQuery.getVal (primary_record (txn_view (db_view db2) t2)).
Proof.
  intros Ej K2 q e l id Ep Ee (pl & A & Er & Hs & Ek & Ev) Kd Hid Hok.
  unfold MojDbLevelQuery.getVal, parseId, the_plan, bind, Effects.get, lift, ret. rewrite Ep. cbv beta iota.
  rewrite Kd. unfold parsed in Hid. rewrite Hid. cbv beta iota.
  unfold MojDbLevelQuery.getById, bind, Effects.get, lift, ret, throw, modify. cbv beta iota.
  rewrite (at_db _ _ A), Ej. cbv beta iota. unfold primary_record.
  rewrite (ObjectBytes.toBytes_enc id Hok). cbv beta iota. rewrite (Get_ok db2 t2 _ K2). cbv beta iota.
  destruct (MojMap.get lexcmp (txn_view (db_view db2) t2) (Encoding.enc id)) as [v|].
  - eexists. split; [|unfold checkExclude, bind, Effects.get, ret; cbn [m_excludeKinds with_impl]; rewrite Ee; reflexivity].
    assert (forall pl, at_txn (m_impl q) pl -> at_txn (with_primary (m_impl q)
      (MojDbLevelItem.with_id (MojDbLevelItem.setData (m_primaryVal (m_impl q)) v) id)) pl) as T by (intros ? []; by split).
    split.
    + intros [|e' l']; [done|]. intros (pl' & A' & X). exists pl'. split; [by apply T|done].
    + intros (pl' & A'). exists pl'. by apply T.
  - exists (m_impl q). split; [by split|]. f_equal. by destruct q.
Qed.
End engine.

(** ** Running a query *)
Section run.
Context `{LevelDBLaws} `{KindTokens} `{ShardTable} (tokenSet : mstring -> res (list mstring)) {QT : Type}.
Context (plan : MojDbQueryPlan.MojDbQueryPlan).
Abbreviation query := (MojDbQueryPlan.m_query plan).
Abbreviation ign := (MojDbQuery.m_ignoreInactiveShards query).

(** What the plan selects of an index, in order; and what is returned of it. *)
Definition selected (m : entries) : list (entry * Z) :=
  hits (excl plan ign) (MojDbQueryPlan.m_ranges plan) (order (desc plan) m).
Definition answer (m records : entries) : list (bytes * MojObject * bytes) :=
  shown plan (primary_record records) [] (selected m).

(** The keys the plan selects are keys of an index: they hold an id, and the shard
    of the id can be looked up. *)
Definition readable (m : entries) : Prop :=
  forall e r, e ∈ m -> r ∈ MojDbQueryPlan.m_ranges plan -> MojDbKeyRange.contains r e.1 = true ->
  exists id, parsed plan e.1 = Ok id /\ MojObject.ok id /\ (ign = true -> exists b, shard_excluded id = Ok b).

Lemma selected_readable m : sorted_entries m -> readable m ->
  Forall (fun x => exists id, parsed plan x.1.1 = Ok id /\ MojObject.ok id) (selected m).
Proof.
  intros Sm R. apply Forall_forall. intros [e g] Hx. unfold selected, hits in Hx. apply list_elem_of_omap in Hx as (e' & He & Hh).
  unfold hit, in_range in Hh. destruct (List.find _ _) as [r|] eqn:E; [|done]. destruct (excl plan ign e'.1); [done|].
  injection Hh as -> _. apply List.find_some in E as [Hr C].
  destruct (R e r) as (id & J1 & J2 & _); [|by apply list_elem_of_In|done|by exists id].
  unfold order in He. destruct (desc plan); [|done]. apply list_elem_of_In, List.in_rev in He. by apply list_elem_of_In.
Qed.

Lemma open_pending db (t t1 : MojDbLevelCursor.Txn (Q := QT)) h : MojDbLevelCursor.open db t h = Ok t1 ->
  MojDbLevelTableTxn.m_pendingValues (MojDbLevelCursor.m_ttxn t1) = MojDbLevelTableTxn.m_pendingValues (MojDbLevelCursor.m_ttxn t) /\
  MojDbLevelTableTxn.m_pendingDeletes (MojDbLevelCursor.m_ttxn t1) = MojDbLevelTableTxn.m_pendingDeletes (MojDbLevelCursor.m_ttxn t).
Proof.
  unfold MojDbLevelCursor.open, MojDbLevelTableTxn.createIterator. intros E. apply res_bind_ok in E as (x & Ex & E).
  apply res_bind_ok in Ex as (it & _ & [= <-]). apply res_bind_ok in E as (it1 & _ & E).
  apply res_bind_ok in E as (it2 & _ & [= <-]). done.
Qed.

Lemma open_running db joined (t : MojDbLevelTableTxn.MojDbLevelTableTxn) (q0 : QT) h (K : txn_ok t)
    (Sm : sorted_entries (txn_view (db_view db) t)) :
  ordered (desc plan) (MojDbQueryPlan.m_ranges plan) -> MojDbQuery.m_distinct query = [] -> readable (txn_view (db_view db) t) ->
  exists q, MojDbLevelQuery.open db joined plan {| MojDbLevelCursor.m_ttxn := t; MojDbLevelCursor.m_quota := q0 |} h = Ok q /\
    m_count q = 0 /\ m_insertedIds q = [] /\ m_endKey q = [] /\
    running (I := MojDbLevelQuery.Impl (QT := QT)) MojDbLevelQuery.seekImpl MojDbLevelQuery.next (desc plan) (txn_view (db_view db) t)
      (IsamEngine0 := level_engine db _ _ (pend_sorted _ _ (ok_pending _ K)) joined (desc plan) Sm)
      plan ign q (selected (txn_view (db_view db) t)) (length (MojDbQueryPlan.m_ranges plan) + length (txn_view (db_view db) t)).
Proof.
  intros Ho Ed R. unfold MojDbLevelQuery.open.
  destruct (open_at db {| MojDbLevelCursor.m_ttxn := t; MojDbLevelCursor.m_quota := q0 |} h K) as (t1 & E1 & [K1 (it & Ei & A)] & _).
  destruct (open_pending _ _ _ _ E1) as [P1 P2]. simpl in P1, P2. rewrite E1. cbn [res_bind]. eexists. split; [reflexivity|].
  split; [done|]. split; [done|]. split; [done|]. split; [done|done|exact Ed|done|done|done| |by apply selected_readable].
  apply P_start; [done|done| |exact Ho|].
  - exists (PlFwd (CutLt [])). split; [exact K1|exact P1|exact P2|done|]. exists it. split; [exact Ei|]. rewrite P1, P2 in A. exact A.
  - intros e r He Hr C. destruct (R e r He Hr C) as (id & J1 & J2 & J3). unfold key_excluded.
    destruct ign; [|by exists false]. destruct (J3 eq_refl) as (b & Eb). exists b. unfold parsed in J1. rewrite J1. exact Eb.
Qed.

Lemma txn_states (db : DB) ops t out : run_ops db MojDbLevelTableTxn.begin ops = Ok (t, out) ->
  txn_ok t /\ txn_view (db_view db) t = (spec_ops (db_view db) ops).1 /\ sorted_entries (txn_view (db_view db) t).
Proof.
  intros E. destruct (run_ops_ok db _ ops t out txn_begin_ok E) as [K V].
  assert (forall l, txn_view l MojDbLevelTableTxn.begin = l) as Nil by apply merged_nil. rewrite Nil in V.
  split; [done|]. split; [by rewrite <- V|]. apply merged_sorted; [exact (pend_sorted _ _ (ok_pending _ K))|apply db_view_sorted].
Qed.

Lemma query_result (db db2 : DB) ops t out ops2 t2 out2 h (q0 : QT) fuel N :
  run_ops db MojDbLevelTableTxn.begin ops = Ok (t, out) -> run_ops db2 MojDbLevelTableTxn.begin ops2 = Ok (t2, out2) ->
  let m := (spec_ops (db_view db) ops).1 in
  let records := (spec_ops (db_view db2) ops2).1 in
  let result := upto (limit plan) (answer m records) in
  Forall (fun e => e.1 <> []) m -> ordered (desc plan) (MojDbQueryPlan.m_ranges plan) -> readable m ->
  MojDbQuery.m_distinct query = [] -> limit plan <= MojUInt32Max ->
  (length (MojDbQueryPlan.m_ranges plan) + length m < fuel)%nat -> (length result < N)%nat ->
  exists q q', MojDbLevelQuery.open db (Some (db2, t2)) plan {| MojDbLevelCursor.m_ttxn := t; MojDbLevelCursor.m_quota := q0 |} h = Ok q /\
    fetch (MojDbLevelQuery.get_ tokenSet fuel) N q = (q', Ok (map (fun x => item_of x.1.2 x.2) result)) /\
    nextPage q' = (q', Ok (page_end (desc plan) (limit plan) result [])).
Proof.
  intros E E2 m records result Hk Ho R Ed Lp Hf HN.
  destruct (txn_states db ops t out E) as (K & Vm & Sm). destruct (txn_states db2 ops2 t2 out2 E2) as (K2 & Vr & _).
  fold m in Vm. fold records in Vr.
  clearbody m records. subst m records.
  destruct (open_running db (Some (db2, t2)) t q0 h K Sm Ho Ed R) as (q & Eq & Ec & Es & Ee & Run). exists q.
  pose proof (level_values (QT := QT) db _ _ (pend_sorted _ _ (ok_pending _ K)) (Some (db2, t2)) db2 t2 (desc plan) Sm plan eq_refl K2) as Hv.
  destruct (fetch_shown (I := MojDbLevelQuery.Impl (QT := QT)) _ _ _ _ plan eq_refl Sm Hk ign _ _ Hv tokenSet Lp N fuel q _ _ Run Hf)
    as (q' & E' & Ep & Ec' & Ee').
  { rewrite Ec, Es, Z.sub_0_r. exact HN. }
  exists q'. split; [exact Eq|]. rewrite Ec, Es, Z.sub_0_r in *. split; [exact E'|].
  rewrite (nextPage_eq plan) by done. rewrite Ec', Ee', Ee, !Z.add_0_l.
  fold (answer (txn_view (db_view db) t) (txn_view (db_view db2) t2)). fold result. unfold page_end.
  destruct (limit plan <=? Z.of_nat (length result)); reflexivity.
Qed.

(** C4: A query over any state of a transaction returns exactly what its plan selects:
    the records whose key is in one of the plan's ranges, in the order of the keys
    (or the reverse order), without those of inactive shards, without index entries
    that have no record, each id once, and no more than the limit; [get] never skips
    or repeats a record and then says that there are no more.  When the limit was
    reached the next page starts right after the last record. *)
Theorem query_exact (db db2 : DB) ops t out ops2 t2 out2 h (q0 : QT) fuel N :
  run_ops db MojDbLevelTableTxn.begin ops = Ok (t, out) -> run_ops db2 MojDbLevelTableTxn.begin ops2 = Ok (t2, out2) ->
  let m := (spec_ops (db_view db) ops).1 in
  let records := (spec_ops (db_view db2) ops2).1 in
  let result := upto (limit plan) (answer m records) in
  Forall (fun e => e.1 <> []) m -> ordered (desc plan) (MojDbQueryPlan.m_ranges plan) -> readable m ->
  MojDbQuery.m_distinct query = [] -> limit plan <= MojUInt32Max ->
  (length (MojDbQueryPlan.m_ranges plan) + length m < fuel)%nat -> (length result < N)%nat ->
  exists q q', MojDbLevelQuery.open db (Some (db2, t2)) plan {| MojDbLevelCursor.m_ttxn := t; MojDbLevelCursor.m_quota := q0 |} h = Ok q /\
    fetch (MojDbLevelQuery.get_ tokenSet fuel) N q = (q', Ok (map (fun x => item_of x.1.2 x.2) result)) /\
    nextPage q' = (q', Ok (page_end (desc plan) (limit plan) result [])).
Proof. intros E E2. exact (query_result db db2 ops t out ops2 t2 out2 h q0 fuel N E E2). Qed.

(** [count] returns how many records a query selects without its limit: as many
    as [get] would return one after the other. *)
Theorem count_exact (db db2 : DB) ops t out ops2 t2 out2 h (q0 : QT) fuel :
  run_ops db MojDbLevelTableTxn.begin ops = Ok (t, out) -> run_ops db2 MojDbLevelTableTxn.begin ops2 = Ok (t2, out2) ->
  let m := (spec_ops (db_view db) ops).1 in
  let records := (spec_ops (db_view db2) ops2).1 in
  Forall (fun e => e.1 <> []) m -> ordered (desc plan) (MojDbQueryPlan.m_ranges plan) -> readable m ->
  MojDbQuery.m_distinct query = [] -> Z.of_nat (length (answer m records)) < MojUInt32Max ->
  (length (MojDbQueryPlan.m_ranges plan) + length m < fuel)%nat ->
  exists q q', MojDbLevelQuery.open db (Some (db2, t2)) plan {| MojDbLevelCursor.m_ttxn := t; MojDbLevelCursor.m_quota := q0 |} h = Ok q /\
    MojDbLevelQuery.count tokenSet fuel q = (q', Ok (Z.of_nat (length (answer m records)))).
Proof.
  intros E E2 m records Hk Ho R Ed Hl Hf.
  destruct (txn_states db ops t out E) as (K & Vm & Sm). destruct (txn_states db2 ops2 t2 out2 E2) as (K2 & Vr & _).
  fold m in Vm. fold records in Vr. clearbody m records. subst m records.
  destruct (open_running db (Some (db2, t2)) t q0 h K Sm Ho Ed R) as (q & Eq & Ec & Es & Ee & Run). exists q.
  set (plan' := plan_limit plan MojUInt32Max).
  pose proof (level_values (QT := QT) db _ _ (pend_sorted _ _ (ok_pending _ K)) (Some (db2, t2)) db2 t2 (desc plan) Sm plan' eq_refl K2) as Hv.
  set (q1 := with_plan q (Some plan')).
  destruct (count_loop_shown (I := MojDbLevelQuery.Impl (QT := QT)) _ _ _ _ plan' eq_refl Sm Hk ign _ _ Hv tokenSet ltac:(done) fuel q1
    (selected (txn_view (db_view db) t)) (length (MojDbQueryPlan.m_ranges plan) + length (txn_view (db_view db) t))%nat)
    as (q' & E' & Ec'); [|exact Hf| |].
  - destruct Run as [? ? ? ? ? ? P ?]. split; try done.
    destruct P as [Eit|Es0 Ek0 Hu Wo Wi|r rs e l Es0 Eit W Hs|e l Es0 W Hu].
    + by apply P_end.
    + by apply (P_start _ _ _ _ plan' ign q1).
    + destruct W as [Wa Wk Ws Wo Wi]. by apply (P_next _ _ _ _ plan' ign q1 r rs e l).
    + destruct W as [Wa Wk Ws Wo Wi]. by apply (P_seek _ _ _ _ plan' ign q1 e l).
  - change (m_count q1) with (m_count q). change (m_insertedIds q1) with (m_insertedIds q). rewrite Ec, Es. exact Hl.
  - change (m_count q1) with (m_count q) in Ec'. change (m_insertedIds q1) with (m_insertedIds q) in Ec'. rewrite Ec, Es in Ec'.
    exists q'. split; [exact Eq|]. unfold MojDbLevelQuery.count, MojDbIsamQuery.count, the_plan, bind, Effects.get, modify, ret.
    rewrite (run_plan _ _ _ _ _ _ _ _ _ Run). cbv beta iota. fold plan'. fold q1. rewrite E'. cbv beta iota. rewrite Ec'. done.
Qed.
End run.

(** ** An index and a query on it

    Two properties of three objects in an index with the id 7; the object [b] has no
    record. *)
Module QueryExample.
#[local] Instance logdb : LevelDB := LogDB.logdb.
#[local] Instance logdb_laws : LevelDBLaws := LogDB.logdb_laws.
#[local] Instance kinds : KindTokens := RecordSpec.one_kind.
#[local] Instance shards : ShardTable := {| shard_active _ := Ok (Some true) |}.

Definition enc := Encoding.enc.
Definition index_key (n : Z) (id : string) : bytes := enc (IntImpl 7) ++ enc (IntImpl n) ++ enc (StringImpl (_T id)).
Definition index : list BatchOp := [BatchPut (index_key 2 "c") []; BatchPut (index_key 1 "a") []].
Definition changes : list TOp := [OpPut (index_key 1 "b") []; OpPut (index_key 3 "d") []; OpDelete (index_key 3 "d")].
Definition primary : list BatchOp := [BatchPut (enc (StringImpl (_T "a"))) [1; 2]; BatchPut (enc (StringImpl (_T "c"))) [3]].

(** The query for values from 1 to 2, in a direction, with a limit and a page. *)
Definition plan (desc : bool) (lim : Z) (page lower upper : MojDbKey) : MojDbQueryPlan.MojDbQueryPlan :=
  {| MojDbQueryPlan.m_ranges := [{| MojDbKeyRange.lowerKey := lower; MojDbKeyRange.upperKey := upper; MojDbKeyRange.group := 0 |}];
     MojDbQueryPlan.m_query := MojDbQuery.with_flags MojDbQuery.make desc false lim page;
     MojDbQueryPlan.m_locale := []; MojDbQueryPlan.m_idPropIndex := 2; MojDbQueryPlan.m_groupCount := 0 |}.
Definition low : MojDbKey := enc (IntImpl 7) ++ enc (IntImpl 1).
Definition high : MojDbKey := MojDbKey.increment (enc (IntImpl 7) ++ enc (IntImpl 2)).
Definition m : entries := (spec_ops (db_view (index : @DB logdb)) changes).1.
Definition records : entries := (spec_ops (db_view (primary : @DB logdb)) []).1.

Lemma m_eq : m = [(index_key 1 "a", []); (index_key 1 "b", []); (index_key 2 "c", [])].
Proof. vm_compute. reflexivity. Qed.

Lemma example_readable desc lim page lower upper : readable (plan desc lim page lower upper) m.
Proof.
  intros e r He _ _. rewrite m_eq in He. assert (in_int 64 1) by (unfold in_int; lia).
  apply elem_of_cons in He as [->|[->|[->|[]%not_elem_of_nil]%elem_of_cons]%elem_of_cons];
    (eexists; split; [vm_compute; reflexivity|]; split; [simpl; vm_compute; repeat constructor|]; intros _; by exists false).
Qed.

Lemma query_exact_witness : exists q q',
  MojDbLevelQuery.open (index : @DB logdb) (Some (primary, MojDbLevelTableTxn.begin)) (plan true 1 [] low high)
    {| MojDbLevelCursor.m_ttxn := match run_ops (index : @DB logdb) MojDbLevelTableTxn.begin changes with Ok (t, _) => t | Err _ => MojDbLevelTableTxn.begin end;
       MojDbLevelCursor.m_quota := 0 |} 1 = Ok q /\
  fetch (MojDbLevelQuery.get_ (fun _ => Ok []) 10) 5 q = (q', Ok [item_of (StringImpl (_T "c")) [3]]) /\
  nextPage q' = (q', Ok (index_key 2 "c")).
Proof.
  refine (query_exact (fun _ => Ok []) (plan true 1 [] low high) (index : @DB logdb) (primary : @DB logdb) changes _ _ [] _ _ 1 0 10 5
            eq_refl eq_refl _ _ _ _ _ _ _).
  - vm_compute. repeat constructor; discriminate.
  - repeat constructor.
  - apply example_readable.
  - reflexivity.
  - discriminate.
  - vm_compute. repeat constructor.
  - vm_compute. repeat constructor.
Defined.

Lemma count_exact_witness : exists q q',
  MojDbLevelQuery.open (index : @DB logdb) (Some (primary, MojDbLevelTableTxn.begin)) (plan false 1 [] low high)
    {| MojDbLevelCursor.m_ttxn := match run_ops (index : @DB logdb) MojDbLevelTableTxn.begin changes with Ok (t, _) => t | Err _ => MojDbLevelTableTxn.begin end;
       MojDbLevelCursor.m_quota := 0 |} 1 = Ok q /\
  MojDbLevelQuery.count (fun _ => Ok []) 10 q = (q', Ok 2).
Proof.
  refine (count_exact (fun _ => Ok []) (plan false 1 [] low high) (index : @DB logdb) (primary : @DB logdb) changes _ _ [] _ _ 1 0 10
            eq_refl eq_refl _ _ _ _ _ _).
  - vm_compute. repeat constructor; discriminate.
  - repeat constructor.
  - apply example_readable.
  - reflexivity.
  - reflexivity.
  - vm_compute. repeat constructor.
Defined.

(** With kinds to leave out, an item of one of them is no item, and its id is looked
    at all the same. *)
Lemma excluded_null :
  (let? q := MojDbLevelQuery.open (index : @DB logdb)
     (Some ([BatchPut (enc (StringImpl (_T "a"))) (RecordSpec.header_bytes 5 9 false)] : @DB logdb, MojDbLevelTableTxn.begin))
     (plan false 1 [] low high) {| MojDbLevelCursor.m_ttxn := MojDbLevelTableTxn.begin; MojDbLevelCursor.m_quota := 0 |} 1 in
   (MojDbLevelQuery.get_ (fun _ => Ok []) 10 (with_options q [_T "T:1"] false)).2) = Err AssertFailed.
Proof. vm_compute. reflexivity. Qed.

(** A query without a primary table, as [MojDbLevelDatabase::find] opens it, has the
    item of the cursor and says that nothing was found. *)
Lemma own_value_not_found : exists i,
  (let? q := MojDbLevelQuery.open (index : @DB logdb) None (plan false 1 [] low high)
     {| MojDbLevelCursor.m_ttxn := MojDbLevelTableTxn.begin; MojDbLevelCursor.m_quota := 0 |} 1 in
   (MojDbLevelQuery.get_ (fun _ => Ok []) 10 q).2) = Ok (Some i, false).
Proof. eexists. vm_compute. reflexivity. Qed.
End QueryExample.
