(* ===== verification/QueryPaging.v ===== *)
(** * Pages

    A query with a limit gives the key its next page starts from, and the plan of the
    next page cuts its ranges there; together the pages are the whole answer. *)

From S2P Require Import Prelude Effects Containers CoreUtil Number Object ObjectBuilder DataSerialization TokenSet ObjectSerialization Text DbKey Json JsonRoundTrip DbQuery QueryPlan QueryPlanSpec OrderedMap LevelDb LevelDbSpec LevelDbTxn LevelDbCursor ObjectItem IsamQuery IsamQuerySpec LevelDbQuery.
Import MojDbIsamQuery QueryPlanSpec.

(** ** Lists *)
Lemma omap_one {A B} (f : A -> option B) x (l : list A) : omap f (x :: l) = match f x with Some y => y :: omap f l | None => omap f l end.
Proof. reflexivity. Qed.

Lemma omap_app {A B} (f : A -> option B) (l1 l2 : list A) : omap f (l1 ++ l2) = omap f l1 ++ omap f l2.
Proof.
  induction l1 as [|x l1 IH]; [done|]. rewrite <- app_comm_cons, !omap_one, IH. by destruct (f x).
Qed.

Lemma omap_none {A B} (f : A -> option B) (l : list A) : (forall x, x ∈ l -> f x = None) -> omap f l = [].
Proof.
  intros N. induction l as [|x l IH]; [done|]. rewrite omap_one, N by apply list_elem_of_here.
  apply IH. intros y Hy. apply N. by apply list_elem_of_further.
Qed.

Lemma omap_same {A B} (f g : A -> option B) (l : list A) : (forall x, x ∈ l -> f x = g x) -> omap f l = omap g l.
Proof.
  intros N. induction l as [|x l IH]; [done|]. rewrite !omap_one, N by apply list_elem_of_here.
  rewrite IH; [done|]. intros y Hy. apply N. by apply list_elem_of_further.
Qed.

(** The last of the first [n] results, and what comes before and after it. *)
Lemma omap_split {A B} (f : A -> option B) (l : list A) n y : last (take (S n) (omap f l)) = Some y -> (S n <= length (omap f l))%nat ->
  exists l1 x l2, l = l1 ++ x :: l2 /\ f x = Some y /\ length (omap f l1) = n /\ drop (S n) (omap f l) = omap f l2.
Proof.
  revert n. induction l as [|x l IH]; intros n E L; [done|]. rewrite omap_one in *.
  destruct (f x) as [b|] eqn:Ex.
  - destruct n as [|n].
    + exists [], x, l. simpl in E. split; [done|]. split; [congruence|]. split; [done|]. simpl. by rewrite drop_0.
    + cbn [take] in E. rewrite last_cons in E. simpl in L.
      assert (last (take (S n) (omap f l)) = Some y) as E'.
      { destruct (last (take (S n) (omap f l))) as [z|] eqn:El; [done|]. apply last_None in El.
        destruct (omap f l); simpl in *; [lia|done]. }
      destruct (IH n E') as (l1 & x' & l2 & -> & E1 & E2 & E3); [lia|]. exists (x :: l1), x', l2. split; [done|]. split; [done|].
      split; [rewrite omap_one, Ex; simpl; congruence|]. cbn [drop]. exact E3.
  - destruct (IH n E L) as (l1 & x' & l2 & -> & E1 & E2 & E3). exists (x :: l1), x', l2. split; [done|]. split; [done|].
    split; [by rewrite omap_one, Ex|]. exact E3.
Qed.

Section pages.
Context `{ShardTable}.
Context (m records : entries) (Sm : sorted_entries m).
Context (Bm : Forall (fun e => byte_key e.1) m).
(** No key of an index is the beginning of another. *)
Context (Pm : forall a b, a ∈ m -> b ∈ m -> a.1 `prefix_of` b.1 -> a = b).

(** A result of a record found. *)
Definition row (plan : MojDbQueryPlan.MojDbQueryPlan) (x : entry * Z) : option (bytes * MojObject * bytes) :=
  match parsed plan x.1.1 with
  | Ok id => match primary_record records id with Some v => Some (x.1.1, id, v) | None => None end
  | Err _ => None
  end.

Definition ids_distinct (plan : MojDbQueryPlan.MojDbQueryPlan) (L : list (entry * Z)) : Prop :=
  ForallOrdPairs (fun x y => forall id, parsed plan x.1.1 = Ok id -> parsed plan y.1.1 <> Ok id) L.

Lemma shown_rows plan L : Forall (fun x => exists id, parsed plan x.1.1 = Ok id /\ MojObject.ok id) L -> ids_distinct plan L ->
  forall seen, MojRbTreeBase.sorted Datatypes.id MojObject.compare seen ->
  Forall (fun x => forall id, parsed plan x.1.1 = Ok id -> MojSet.contains MojObject.compare seen id = false) L ->
  shown plan (primary_record records) seen L = omap (row plan) L.
Proof.
  intros F D. induction D as [|[e g] L Fd D IH]; intros seen Ss Fs; [done|]. apply Forall_cons in F as [(id & Ei & Oi) F].
  apply Forall_cons in Fs as [N Fs]. rewrite omap_one. cbn [shown]. unfold row at 1. simpl in *. rewrite Ei.
  destruct (primary_record records id) as [v|]; [|by apply IH]. rewrite (N id Ei). f_equal. apply IH; [done|exact (MojSet.set_put_sorted MojObject.compare seen id Ss)|].
  rewrite !Forall_forall in *. intros x Hx id' Ei'. rewrite (MojSet.contains_put MojObject.compare) by done.
  rewrite (Fs x Hx id' Ei'). destruct (Z.eqb_spec (MojObject.compare id id') 0) as [E|]; [|done].
  destruct (F x Hx) as (id2 & E2 & O2). rewrite Ei' in E2. injection E2 as <-. apply MojObject.compare_eq in E; [|done..]. subst.
  by destruct (Fd x Hx id' Ei).
Qed.

Lemma in_range_iff rs k : (exists r, in_range rs k = Some r) <-> in_ranges rs k.
Proof.
  unfold in_range, in_ranges. split.
  - intros (r & [Hr C]%List.find_some). exists r. by rewrite list_elem_of_In.
  - intros (r & Hr & C). destruct (List.find (fun r => MojDbKeyRange.contains r k) rs) as [r'|] eqn:E; [by exists r'|].
    apply list_elem_of_In in Hr. by rewrite (List.find_none _ _ E r Hr) in C.
Qed.

(** A page boundary divides the records of a walk. *)
Lemma page_ok_up q (a b : entry) : dirlt (MojDbQuery.m_desc q) a b -> page_ok q a.1 = true -> page_ok q b.1 = true.
Proof.
  unfold dirlt, page_ok, MojDbKey.lt, MojDbKey.ge, MojDbKey.compare. rewrite !orb_true_iff. intros D [|P]; [by left|right].
  destruct (MojDbQuery.m_desc q).
  - apply Z.ltb_lt in P. apply Z.ltb_lt. by apply (comp_lt_le_trans lexcmp b.1 a.1); [|lia].
  - apply Z.geb_le in P. apply Z.geb_le. pose proof (comp_anti lexcmp a.1 (MojDbQuery.m_page q)).
    pose proof (comp_anti lexcmp b.1 (MojDbQuery.m_page q)). pose proof (comp_trans lexcmp (MojDbQuery.m_page q) a.1 b.1). lia.
Qed.

Lemma page_after q (x e : entry) : MojDbQuery.m_page q = end_key (MojDbQuery.m_desc q) x.1 -> MojDbQuery.m_page q <> [] ->
  x ∈ m -> e ∈ m -> page_ok q e.1 = true <-> dirlt (MojDbQuery.m_desc q) x e.
Proof.
  intros E N Hx He. rewrite Forall_forall in Bm. pose proof (Bm x Hx) as Bx. pose proof (Bm e He) as Be.
  unfold page_ok, dirlt, MojDbKey.lt, MojDbKey.ge, MojDbKey.compare. destruct (empty_spec (MojDbQuery.m_page q)); [done|]. simpl.
  rewrite E in *. unfold end_key. destruct (MojDbQuery.m_desc q); [apply Z.ltb_lt|]. unfold end_key in N.
  pose proof (MojDbKey.increment_spec x.1 e.1 Bx Be) as S. rewrite Z.geb_le.
  pose proof (comp_anti lexcmp x.1 e.1) as A. split.
  - intros G. destruct (Z.lt_trichotomy (lexcmp x.1 e.1) 0) as [|[Z0|G2]]; [done|..].
    + apply lexcmp_eq in Z0. assert (MojDbKey.increment x.1 = [] \/ lexcmp e.1 (MojDbKey.increment x.1) < 0) as [|]; [|done|lia].
      apply S. right. by rewrite Z0.
    + assert (MojDbKey.increment x.1 = [] \/ lexcmp e.1 (MojDbKey.increment x.1) < 0) as [|]; [|done|lia]. apply S. left. lia.
  - intros L. destruct (Z.le_gt_cases 0 (lexcmp e.1 (MojDbKey.increment x.1))) as [|G]; [done|].
    destruct (proj1 S (or_intror G)) as [|P]; [lia|]. apply (Pm x e) in P; [|done..]. subst. rewrite (comp_refl lexcmp) in L. lia.
Qed.

(** What a plan makes of one record. *)
Definition row_of (plan : MojDbQueryPlan.MojDbQueryPlan) (e : entry) : option (bytes * MojObject * bytes) :=
  hit (excl plan (MojDbQuery.m_ignoreInactiveShards (MojDbQueryPlan.m_query plan))) (MojDbQueryPlan.m_ranges plan) e ≫= row plan.

Lemma answer_rows plan : readable plan m -> ids_distinct plan (selected plan m) ->
  answer plan m records = omap (row_of plan) (order (desc plan) m).
Proof.
  intros R D. unfold answer. rewrite shown_rows; [|by apply selected_readable|done|constructor|by apply Forall_forall].
  unfold selected, hits. induction (order (desc plan) m) as [|e l IH]; [done|]. rewrite (omap_one (row_of plan)), omap_one. unfold row_of at 1.
  destruct (hit _ _ e) as [x|]; [|exact IH]. rewrite omap_one. cbn [mbind option_bind]. destruct (row plan x); by rewrite IH.
Qed.

Lemma row_of_key plan e y : row_of plan e = Some y -> y.1.1 = e.1.
Proof.
  unfold row_of. destruct (hit _ _ e) as [[e' g]|] eqn:Eh; [|done]. unfold hit in Eh.
  destruct (in_range _ e.1); [|done]. destruct (excl _ _ _); [done|]. injection Eh as <- _. cbn [mbind option_bind].
  unfold row. destruct (parsed _ _); [|done]. destruct (primary_record _ _); [|done]. by intros [= <-].
Qed.

Lemma row_of_in plan e : row_of plan e <> None -> in_ranges (MojDbQueryPlan.m_ranges plan) e.1.
Proof. intros N. apply in_range_iff. unfold row_of, hit in N. destruct (in_range _ e.1) as [r|]; [by exists r|done]. Qed.

Lemma row_of_out plan e : ~ in_ranges (MojDbQueryPlan.m_ranges plan) e.1 -> row_of plan e = None.
Proof. intros N. destruct (row_of plan e) eqn:E; [|done]. destruct N. apply row_of_in. congruence. Qed.

Section two.
(** A plan and the plan of its next page. *)
Context (plan1 plan2 : MojDbQueryPlan.MojDbQueryPlan) (want : bytes -> Prop).
Abbreviation q1 := (MojDbQueryPlan.m_query plan1).
Abbreviation q2 := (MojDbQueryPlan.m_query plan2).
Context (Ed : desc plan2 = desc plan1) (Ei : MojDbQueryPlan.m_idPropIndex plan2 = MojDbQueryPlan.m_idPropIndex plan1)
  (Eg : MojDbQuery.m_ignoreInactiveShards q2 = MojDbQuery.m_ignoreInactiveShards q1).
Context (W1 : forall e, e ∈ m -> in_ranges (MojDbQueryPlan.m_ranges plan1) e.1 <-> want e.1 /\ page_ok q1 e.1 = true)
  (W2 : forall e, e ∈ m -> in_ranges (MojDbQueryPlan.m_ranges plan2) e.1 <-> want e.1 /\ page_ok q2 e.1 = true).

Lemma row_of_same e : (in_ranges (MojDbQueryPlan.m_ranges plan1) e.1 <-> in_ranges (MojDbQueryPlan.m_ranges plan2) e.1) ->
  row_of plan2 e = row_of plan1 e.
Proof.
  intros Hiff. rewrite <- !in_range_iff in Hiff. unfold row_of, hit, excl, key_excluded. rewrite Ei, Eg.
  destruct (in_range (MojDbQueryPlan.m_ranges plan1) e.1) as [r1|], (in_range (MojDbQueryPlan.m_ranges plan2) e.1) as [r2|].
  - destruct (match _ with Ok b => b | Err _ => false end); [done|]. cbn [mbind option_bind]. unfold row, parsed. by rewrite Ei.
  - destruct (proj1 Hiff) as [? ?]; [by eexists|done].
  - destruct (proj2 Hiff) as [? ?]; [by eexists|done].
  - done.
Qed.

(** With the page right after the record [x], the second plan makes of the records up
    to [x] nothing, and of those after it what the first plan does. *)
Lemma rows_after l1 x l2 : order (desc plan1) m = l1 ++ x :: l2 -> row_of plan1 x <> None ->
  MojDbQuery.m_page q2 = end_key (desc plan1) x.1 -> MojDbQuery.m_page q2 <> [] ->
  omap (row_of plan2) (order (desc plan1) m) = omap (row_of plan1) l2.
Proof.
  intros Esplit Nx Ep Np.
  assert (forall e, e ∈ l1 ++ x :: l2 -> e ∈ m) as Hm.
  { intros e. rewrite <- Esplit. unfold order. destruct (desc plan1); [|done]. by rewrite !list_elem_of_In, <- List.in_rev. }
  assert (x ∈ m) as Hx by (apply Hm, elem_of_app; right; apply list_elem_of_here).
  pose proof (order_sorted (desc plan1) m Sm) as So. rewrite Esplit in So |- *.
  apply sorting.StronglySorted_app in So as (B & _ & So). apply sorting.StronglySorted_cons in So as [F _]. rewrite Forall_forall in F.
  assert (forall e, e ∈ m -> page_ok q2 e.1 = true <-> dirlt (desc plan1) x e) as PA.
  { intros e He. rewrite <- Ed in *. by apply page_after. }
  assert (forall e, e ∈ m -> ~ dirlt (desc plan1) x e -> row_of plan2 e = None) as Out.
  { intros e He D. apply row_of_out. rewrite W2, PA by done. tauto. }
  rewrite omap_app, omap_none, app_nil_l, omap_one, Out.
  - apply omap_same. intros e He. assert (e ∈ m) as He' by (apply Hm, elem_of_app; right; by apply list_elem_of_further).
    apply row_of_same. rewrite W1, W2 by done. assert (page_ok q2 e.1 = true) as P2 by by apply PA, F.
    assert (page_ok q1 e.1 = true) as P1; [|tauto].
    apply (page_ok_up _ x e); [by apply F|]. apply (W1 x Hx). by apply row_of_in.
  - done.
  - unfold dirlt. destruct (desc plan1); rewrite (comp_refl lexcmp); lia.
  - intros e He. apply Out; [apply Hm, elem_of_app; by left|]. specialize (B e x He (list_elem_of_here _ _)).
    unfold dirlt in *. pose proof (comp_anti lexcmp x.1 e.1). destruct (desc plan1); lia.
Qed.
End two.

End pages.

(** ** The example query in pages of one *)
Module PagingExample.
Import QueryExample.
#[local] Instance logdb : LevelDB := LogDB.logdb.
#[local] Instance logdb_laws : LevelDBLaws := LogDB.logdb_laws.
#[local] Instance shards : ShardTable := QueryExample.shards.

Definition page2 : MojDbKey := MojDbKey.increment (index_key 1 "a").
Definition plan1 := plan false 1 [] low high.
Definition plan2 := plan false 1 page2 page2 high.
Definition want (k : bytes) : Prop := MojDbKeyRange.contains
  {| MojDbKeyRange.lowerKey := low; MojDbKeyRange.upperKey := high; MojDbKeyRange.group := 0 |} k = true.

Lemma in_one r k : in_ranges [r] k <-> MojDbKeyRange.contains r k = true.
Proof. unfold in_ranges. split; [intros (r' & ->%list_elem_of_singleton & C); done|]. intros C. exists r. split; [apply list_elem_of_here|done]. Qed.

Lemma example_prefix_free a b : a ∈ m -> b ∈ m -> a.1 `prefix_of` b.1 -> a = b.
Proof.
  rewrite m_eq. rewrite !list_elem_of_In. intros [<-|[<-|[<-|[]]]] [<-|[<-|[<-|[]]]] P; try done; exfalso; revert P;
    rewrite <- MojDbKey.prefixOf_spec; vm_compute; discriminate.
Qed.

Ltac by_records := rewrite m_eq, list_elem_of_In; intros [<-|[<-|[<-|[]]]].

Lemma example_distinct p : MojDbQueryPlan.m_idPropIndex p = 2%nat -> selected p m = selected plan1 m \/ selected p m = selected plan2 m ->
  ids_distinct p (selected p m).
Proof.
  intros Ei [->| ->]; unfold ids_distinct, parsed; rewrite Ei;
    [assert (selected plan1 m = [((index_key 1 "a", []), 0); ((index_key 1 "b", []), 0); ((index_key 2 "c", []), 0)]) as -> by (vm_compute; reflexivity)
    |assert (selected plan2 m = [((index_key 1 "b", []), 0); ((index_key 2 "c", []), 0)]) as -> by (vm_compute; reflexivity)];
    assert (parse_key 2 (index_key 1 "a") = Ok (StringImpl (_T "a")) /\ parse_key 2 (index_key 1 "b") = Ok (StringImpl (_T "b")) /\
            parse_key 2 (index_key 2 "c") = Ok (StringImpl (_T "c"))) as (Ea & Eb & Ec) by (repeat split; vm_compute; reflexivity);
    repeat constructor; intros id; simpl fst; rewrite ?Ea, ?Eb, ?Ec; by intros [= <-].
Qed.


(** An object with two keys, though shown once by a query without pages, is shown
    again by the next page: the ids that were shown are not known to it. *)
Definition twice : entries := [(index_key 1 "a", []); (index_key 2 "a", [])].
Lemma shown_again :
  answer (plan false 500 [] low high) twice records = [(index_key 1 "a", StringImpl (_T "a"), [1; 2])] /\
  answer plan2 twice records = [(index_key 2 "a", StringImpl (_T "a"), [1; 2])].
Proof. split; vm_compute; reflexivity. Qed.
End PagingExample.
