(* ===== verification/StorageTxn.v ===== *)
(** * Signals, quotas and storage transactions

    [src/src/core/MojSignal.cpp], the quotas of [src/src/db/MojDbQuotaEngine.cpp]
    and [MojDbStorageTxn] of [src/src/db/MojDbStorageEngine.cpp]: how a
    transaction counts what it writes against the quotas of the kinds it writes,
    and in which order a commit does its work. *)

From S2P Require Import Prelude Containers CoreUtil Object Effects.

(** ** [MojSignal]

    The slots of a signal, in a state [S]; what a slot does is given. *)
Module MojSignal.
Section signal.
Context {S Slot : Type} (slots : S -> list Slot) (with_slots : S -> list Slot -> S) (invoke : Slot -> st S unit).

Definition connect (slot : Slot) : st S unit := modify (fun s => with_slots s (slots s ++ [slot])).

(** The slots taken out of the signal, one after the other; an error ends the walk.
    [keep] is whether a slot is connected again before it is invoked. *)
Fixpoint walk (keep : bool) (list : list Slot) : st S unit :=
  match list with
  | [] => ret tt
  | slot :: list' =>
      let! _ := if keep then connect slot else ret tt in
      let! err := attempt (invoke slot) in
      match err with
      | Ok _ => walk keep list'
      | Err e =>
          let! _ := if keep then modify (fun s => with_slots s (slots s ++ list')) else ret tt in
          throw e
      end
  end.

Definition call : st S unit :=
  let! s := get in let! _ := modify (fun s => with_slots s []) in walk true (slots s).

Definition fire : st S unit :=
  let! s := get in let! _ := modify (fun s => with_slots s []) in walk false (slots s).
End signal.
End MojSignal.

(** ** Wildcards of owners and callers: [MojDbPutHandler] *)
Module MojDbPutHandler.
(** The longest strings first. *)
Definition LengthComp (val1 val2 : mstring) : Z :=
  let len1 := Z.of_nat (length val1) in
  let len2 := Z.of_nat (length val2) in
  if len1 =? len2 then MojStrCmp val1 val2 else MojComp len2 len1.

Definition validateWildcard (val : mstring) (errToThrow : MojErr) : res unit :=
  match val with
  | [] => Err errToThrow
  | _ =>
      match MojString.find val (chr "*") 0 with
      | None => Ok tt
      | Some wildcardPos =>
          if negb (Nat.eqb wildcardPos (length val - 1)) ||
             (negb (Nat.eqb wildcardPos 0) && negb (nth (wildcardPos - 1) val 0 =? chr "."))
          then Err errToThrow else Ok tt
      end
  end.

(** [expr] without its last character is a prefix of [val]. *)
Definition matchWildcard (expr val : mstring) : bool :=
  match last expr with
  | Some c => (c =? chr "*") && (length expr - 1 <=? length val)%nat &&
              bool_decide (take (length expr - 1) expr = take (length expr - 1) val)
  | None => false
  end.

(** The first entry that matches, when there is none of the name itself; the map is
    in the order of [LengthComp]. *)
Definition lookup {V} (m : list (mstring * V)) (val : mstring) : option (mstring * V) :=
  match List.find (fun e => LengthComp e.1 val =? 0) m with
  | Some e => Some e
  | None => List.find (fun e => matchWildcard e.1 val) m
  end.
End MojDbPutHandler.

(** ** Quotas *)
Module Quota.
Record Quota := { m_size : Z; m_usage : Z }.

Definition available (q : Quota) : Z :=
  let available := to_int 64 (m_size q - m_usage q) in if available <? 0 then 0 else available.

Definition set_size (q : Quota) (val : Z) : Quota := {| m_size := val; m_usage := m_usage q |}.
Definition set_usage (q : Quota) (val : Z) : Quota := {| m_size := m_size q; m_usage := val |}.
Definition offset (q : Quota) (off : Z) : Quota := {| m_size := m_size q; m_usage := to_int 64 (m_usage q + off) |}.
End Quota.

(** The quotas of the engine, by owner. *)
Abbreviation QuotaMap := (list (mstring * Quota.Quota)).

(** What a transaction has added to the usage of a kind.  A quota is shared: it is
    named by the owner the engine keeps it under. *)
Module Offset.
Record Offset := { m_offset : Z; m_quota : option mstring }.

Definition init : Offset := {| m_offset := 0; m_quota := None |}.

Definition quota_of (quotas : QuotaMap) (o : Offset) : option Quota.Quota :=
  match m_quota o with Some owner => MojMap.get MojDbPutHandler.LengthComp quotas owner | None => None end.

Definition apply (quotas : QuotaMap) (o : Offset) (offset : Z) : res Offset :=
  let newOffset := to_int 64 (m_offset o + offset) in
  let over := match quota_of quotas o with Some q => newOffset >? Quota.available q | None => false end in
  if over : bool then Err MojErrDbQuotaExceeded else Ok {| m_offset := newOffset; m_quota := m_quota o |}.
End Offset.

Abbreviation OffsetMap := (list (mstring * Offset.Offset)).

(** ** [MojDbStorageTxn] *)
Module MojDbStorageTxn.
(** The current offset is one of [m_offsetMap], by its kind; the quota engine is the
    one there is; a monitor and a slot are known by their addresses. *)
Record MojDbStorageTxn := {
  m_quotaEnabled : bool;
  m_refreshQuotas : bool;
  m_quotaEngine : bool;
  m_offsetMap : OffsetMap;
  m_curQuotaOffset : option mstring;
  m_monitors : list Z;
  m_preCommit : list Z;
  m_postCommit : list Z
}.

Definition init : MojDbStorageTxn :=
  {| m_quotaEnabled := true; m_refreshQuotas := false; m_quotaEngine := false; m_offsetMap := [];
     m_curQuotaOffset := None; m_monitors := []; m_preCommit := []; m_postCommit := [] |}.

Definition with_offsets (t : MojDbStorageTxn) (engine : bool) offsets cur : MojDbStorageTxn :=
  {| m_quotaEnabled := m_quotaEnabled t; m_refreshQuotas := m_refreshQuotas t; m_quotaEngine := engine;
     m_offsetMap := offsets; m_curQuotaOffset := cur; m_monitors := m_monitors t;
     m_preCommit := m_preCommit t; m_postCommit := m_postCommit t |}.
Definition with_signals (t : MojDbStorageTxn) pre post : MojDbStorageTxn :=
  {| m_quotaEnabled := m_quotaEnabled t; m_refreshQuotas := m_refreshQuotas t; m_quotaEngine := m_quotaEngine t;
     m_offsetMap := m_offsetMap t; m_curQuotaOffset := m_curQuotaOffset t; m_monitors := m_monitors t;
     m_preCommit := pre; m_postCommit := post |}.
Definition with_monitors (t : MojDbStorageTxn) monitors : MojDbStorageTxn :=
  {| m_quotaEnabled := m_quotaEnabled t; m_refreshQuotas := m_refreshQuotas t; m_quotaEngine := m_quotaEngine t;
     m_offsetMap := m_offsetMap t; m_curQuotaOffset := m_curQuotaOffset t; m_monitors := monitors;
     m_preCommit := m_preCommit t; m_postCommit := m_postCommit t |}.

Definition quotaEnabled (t : MojDbStorageTxn) (val : bool) : MojDbStorageTxn :=
  {| m_quotaEnabled := val; m_refreshQuotas := m_refreshQuotas t; m_quotaEngine := m_quotaEngine t;
     m_offsetMap := m_offsetMap t; m_curQuotaOffset := m_curQuotaOffset t; m_monitors := m_monitors t;
     m_preCommit := m_preCommit t; m_postCommit := m_postCommit t |}.
Definition refreshQuotas (t : MojDbStorageTxn) : MojDbStorageTxn :=
  {| m_quotaEnabled := m_quotaEnabled t; m_refreshQuotas := true; m_quotaEngine := m_quotaEngine t;
     m_offsetMap := m_offsetMap t; m_curQuotaOffset := m_curQuotaOffset t; m_monitors := m_monitors t;
     m_preCommit := m_preCommit t; m_postCommit := m_postCommit t |}.

Definition subscribe (t : MojDbStorageTxn) (monitor : Z) : MojDbStorageTxn :=
  with_monitors t (MojSet.put MojComp (m_monitors t) monitor).
Definition unsubscribe (t : MojDbStorageTxn) (monitor : Z) : MojDbStorageTxn :=
  with_monitors t (MojSet.del MojComp (m_monitors t) monitor).1.
Definition notifyPreCommit (t : MojDbStorageTxn) (slot : Z) : MojDbStorageTxn :=
  with_signals t (m_preCommit t ++ [slot]) (m_postCommit t).
Definition notifyPostCommit (t : MojDbStorageTxn) (slot : Z) : MojDbStorageTxn :=
  with_signals t (m_preCommit t) (m_postCommit t ++ [slot]).

Definition offsetQuota (quotas : QuotaMap) (t : MojDbStorageTxn) (offset : Z) : res MojDbStorageTxn :=
  match m_curQuotaOffset t with
  | Some kindId =>
      if m_quotaEnabled t then
        match MojMap.get MojStrCmp (m_offsetMap t) kindId with
        | Some o =>
            let? o := Offset.apply quotas o offset in
            Ok (with_offsets t (m_quotaEngine t) (MojMap.put MojStrCmp (m_offsetMap t) kindId o) (m_curQuotaOffset t))
        | None => Err AssertFailed (* the current offset is in the map *)
        end
      else Ok t
  | None => Ok t
  end.

(** ** Commit

    The steps, over a state that holds the transaction among other things. *)
Section commit.
Context {S : Type} (txn : S -> MojDbStorageTxn) (with_txn : S -> MojDbStorageTxn -> S).
Context (preCommit postCommit : Z -> st S unit) (committed : Z -> st S unit).
Context (applyUsage applyQuota refresh : st S unit) (commitImpl : st S unit).

Definition firePre : st S unit :=
  MojSignal.fire (fun s => m_preCommit (txn s))
    (fun s slots => with_txn s (with_signals (txn s) slots (m_postCommit (txn s)))) preCommit.
Definition firePost : st S unit :=
  MojSignal.fire (fun s => m_postCommit (txn s))
    (fun s slots => with_txn s (with_signals (txn s) (m_preCommit (txn s)) slots)) postCommit.

(** The monitors; the set is the one at the start of the loop. *)
Fixpoint notify (monitors : list Z) : st S unit :=
  match monitors with
  | [] => ret tt
  | monitor :: monitors' => let! _ := committed monitor in notify monitors'
  end.

Definition commit : st S unit :=
  let! _ := firePre in
  let! s := get in
  let! _ := if m_quotaEngine (txn s) then applyUsage else ret tt in
  let! _ := commitImpl in
  let! _ := firePost in
  let! s := get in
  let! _ :=
    if m_quotaEngine (txn s) then
      let! _ := applyQuota in
      let! s := get in
      if m_refreshQuotas (txn s) then refresh else ret tt
    else ret tt in
  let! s := get in
  notify (m_monitors (txn s)).
End commit.
End MojDbStorageTxn.
