(* ===== verification/LevelStore.v ===== *)
(** * Databases and indexes of the LevelDB engine

    [MojDbLevelEnvTxn] (MojDbLevelTxn.cpp), [MojDbLevelDatabase.cpp] and
    [MojDbLevelIndex.cpp] of [src/src/engine/leveldb]: a transaction has a table
    transaction for each database it has touched, the databases are the operations
    over them, with the quota counted first, and an index is a range of keys of the
    one index database. *)

From S2P Require Import Prelude Containers CoreUtil Object ObjectBuilder DataSerialization TokenSet ObjectSerialization Text DbKey OrderedMap LevelDb ObjectItem Effects StorageTxn.

Import MojDbLevelTableTxn (MojDbLevelTableTxn).
Import MojDbStorageTxn (MojDbStorageTxn).

(** ** [MojDbLevelEnvTxn] *)
Module MojDbLevelEnvTxn.
Section ldb.
Context `{LevelDB}.

(** A table transaction knows its database until it is committed. *)
Record MojDbLevelEnvTxn := { base : MojDbStorageTxn; m_tableTxns : list (option Z * MojDbLevelTableTxn) }.

Definition begin : MojDbLevelEnvTxn := {| base := MojDbStorageTxn.init; m_tableTxns := [] |}.

Definition with_base (t : MojDbLevelEnvTxn) (b : MojDbStorageTxn) : MojDbLevelEnvTxn :=
  {| base := b; m_tableTxns := m_tableTxns t |}.

Definition is_db (db : Z) (e : option Z * MojDbLevelTableTxn) : bool :=
  match e.1 with Some d => d =? db | None => false end.

(** [tableTxn]: the one there is, or a new one. *)
Definition tableTxn (t : MojDbLevelEnvTxn) (db : Z) : MojDbLevelTableTxn :=
  match List.find (is_db db) (m_tableTxns t) with Some e => e.2 | None => MojDbLevelTableTxn.begin end.

Fixpoint set_table (db : Z) (tt_ : MojDbLevelTableTxn) (l : list (option Z * MojDbLevelTableTxn)) :=
  match l with
  | [] => [(Some db, tt_)]
  | e :: l' => if is_db db e then (e.1, tt_) :: l' else e :: set_table db tt_ l'
  end.

Definition with_table (t : MojDbLevelEnvTxn) (db : Z) (tt_ : MojDbLevelTableTxn) : MojDbLevelEnvTxn :=
  {| base := base t; m_tableTxns := set_table db tt_ (m_tableTxns t) |}.

(** Every table is committed; the last error is the result. *)
Definition commitImpl (dbs : Z -> DB) (t : MojDbLevelEnvTxn) : (Z -> DB) * MojDbLevelEnvTxn * option MojErr :=
  let '(dbs, tables, accErr) :=
    fold_left (fun '(dbs, out, accErr) e =>
      match e.1 with
      | Some d =>
          let '(db, tt_, _, err) := MojDbLevelTableTxn.commitImpl (dbs d) e.2 in
          (fun x => if x =? d then db else dbs x, out ++ [(None, tt_)],
           match err with Some err => Some err | None => accErr end)
      | None => (dbs, out ++ [e], accErr)
      end) (m_tableTxns t) (dbs, [], None) in
  (dbs, {| base := base t; m_tableTxns := tables |}, accErr).
End ldb.
End MojDbLevelEnvTxn.

(** ** [MojDbLevelDatabase]

    [db] is the handle of the database, [m_db] the LevelDB behind it, [quotas] the
    quotas of the quota engine. *)
Module MojDbLevelDatabase.
Import MojDbLevelEnvTxn (MojDbLevelEnvTxn).

Section ldb.
Context `{LevelDB} (quotas : QuotaMap) (db : Z) (m_db : DB).

Definition offsetQuota (amount : Z) : st MojDbLevelEnvTxn unit := fun t =>
  match MojDbStorageTxn.offsetQuota quotas (MojDbLevelEnvTxn.base t) amount with
  | Ok b => (MojDbLevelEnvTxn.with_base t b, Ok tt)
  | Err e => (t, Err e)
  end.

(** An operation of the table transaction of this database. *)
Definition on_table (f : MojDbLevelTableTxn -> res MojDbLevelTableTxn) : st MojDbLevelEnvTxn unit := fun t =>
  match f (MojDbLevelEnvTxn.tableTxn t db) with
  | Ok tt_ => (MojDbLevelEnvTxn.with_table t db tt_, Ok tt)
  | Err e => (t, Err e)
  end.

Definition put_item (key val : bytes) (updateIdQuota : bool) : st MojDbLevelEnvTxn unit :=
  let quotaOffset := Z.of_nat (length val) in
  let quotaOffset := if updateIdQuota then quotaOffset + Z.of_nat (length key) else quotaOffset in
  let! _ := offsetQuota quotaOffset in
  on_table (fun tt_ => MojDbLevelTableTxn.Put tt_ key val).

Definition get_item (key : bytes) : st MojDbLevelEnvTxn (option bytes) := fun t =>
  (MojDbLevelEnvTxn.with_table t db (MojDbLevelEnvTxn.tableTxn t db),
   MojDbLevelTableTxn.Get m_db (MojDbLevelEnvTxn.tableTxn t db) key).

(** In a transaction the status stays OK, so the key is always reported found. *)
Definition del_item (key : bytes) : st MojDbLevelEnvTxn bool :=
  let! _ := offsetQuota (- Z.of_nat (length key)) in
  let! _ := on_table (fun tt_ => MojDbLevelTableTxn.Delete tt_ key) in
  ret true.

(** The operations by id. *)
Definition put (id : MojObject) (val : bytes) (updateIdQuota : bool) : st MojDbLevelEnvTxn unit :=
  let! idItem := lift (ObjectBytes.toBytes id) in put_item idItem val updateIdQuota.

Definition insert (id : MojObject) (val : bytes) : st MojDbLevelEnvTxn unit := put id val true.

Definition update (id : MojObject) (val oldVal : bytes) : st MojDbLevelEnvTxn unit :=
  let! _ := offsetQuota (- Z.of_nat (length oldVal)) in put id val false.

Definition del (id : MojObject) : st MojDbLevelEnvTxn bool :=
  let! idItem := lift (ObjectBytes.toBytes id) in del_item idItem.

Definition get (id : MojObject) : st MojDbLevelEnvTxn (option MojDbLevelItem.MojDbLevelItem) :=
  let! idItem := lift (ObjectBytes.toBytes id) in
  let! found := get_item idItem in
  match found with
  | Some bs =>
      let item := MojDbLevelItem.setData {| MojDbLevelItem.m_slice := []; MojDbLevelItem.m_header := MojDbObjectHeader.init UndefinedImpl |} bs in
      ret (Some (MojDbLevelItem.with_id item id))
  | None => ret None
  end.

(** A cursor of this database in the transaction. *)
Definition cursor_txn (t : MojDbLevelEnvTxn) : MojDbLevelCursor.Txn :=
  {| MojDbLevelCursor.m_ttxn := MojDbLevelEnvTxn.tableTxn t db; MojDbLevelCursor.m_quota := MojDbLevelEnvTxn.base t |}.
Definition from_cursor (t : MojDbLevelEnvTxn) (c : @MojDbLevelCursor.Txn _ MojDbStorageTxn) : MojDbLevelEnvTxn :=
  MojDbLevelEnvTxn.with_base (MojDbLevelEnvTxn.with_table t db (MojDbLevelCursor.m_ttxn c)) (MojDbLevelCursor.m_quota c).

(** The number of records bounds the loops of a cursor. *)
Definition stats_prefix (fuel : nat) (h : nat) (prefix : bytes) : st MojDbLevelEnvTxn (Z * Z) := fun t =>
  match (let? c := MojDbLevelCursor.open m_db (cursor_txn t) h in
         let? (c, count, size) := MojDbLevelCursor.statsPrefix fuel c h prefix in
         Ok (MojDbLevelCursor.close c h, (count, size))) with
  | Ok (c, r) => (from_cursor t c, Ok r)
  | Err e => (t, Err e)
  end.

Definition stats (fuel : nat) (h : nat) : st MojDbLevelEnvTxn (Z * Z) := stats_prefix fuel h [].
End ldb.
End MojDbLevelDatabase.

(** ** [MojDbLevelIndex]: in the index database, by the prefix of its id *)
Module MojDbLevelIndex.
Import MojDbLevelEnvTxn (MojDbLevelEnvTxn).

Section ldb.
Context `{LevelDB} (quotas : QuotaMap) (db : Z) (m_db : DB) (m_id : MojObject).

Definition drop (fuel : nat) (h : nat) : st MojDbLevelEnvTxn unit := fun t =>
  match (let? c := MojDbLevelCursor.open m_db (MojDbLevelDatabase.cursor_txn db t) h in
         let? prefix := ObjectBytes.toBytes m_id in
         let? c := MojDbLevelCursor.delPrefix (MojDbStorageTxn.offsetQuota quotas) fuel c h prefix in
         Ok (MojDbLevelCursor.close c h)) with
  | Ok c => (MojDbLevelDatabase.from_cursor db t c, Ok tt)
  | Err e => (t, Err e)
  end.

Definition stats (fuel : nat) (h : nat) : st MojDbLevelEnvTxn (Z * Z) :=
  let! prefix := lift (ObjectBytes.toBytes m_id) in MojDbLevelDatabase.stats_prefix db m_db fuel h prefix.

(** The value is empty. *)
Definition insert (key : MojDbKey) : st MojDbLevelEnvTxn unit := MojDbLevelDatabase.put_item quotas db key [] true.

Definition del (key : MojDbKey) : st MojDbLevelEnvTxn unit :=
  let! found := MojDbLevelDatabase.del_item quotas db key in
  if found : bool then ret tt else throw MojErrInternalIndexOnDel.
End ldb.
End MojDbLevelIndex.
