(* ===== verification/Sequence.v ===== *)
(** * Sequences: src/src/engine/leveldb/MojDbLevelSeq.cpp

    A sequence hands out numbers, first of all revisions.  It counts in memory and
    keeps in the database a number it has not handed out yet, a page ahead, so that
    it can go on from there after a crash.  [get] may run in several threads at
    once; its atomic steps are those of a thread of [Sys]. *)

From stdpp Require Import functions.
From S2P Require Import Prelude Containers Object ObjectBuilder ObjectSerialization OrderedMap LevelDb LevelDbCursor Effects.

Module MojDbLevelSeq.
Definition SequenceAllocationPage : Z := 100.

Section ldb.
Context `{LevelDB}.

(** The database is the sequence database of the engine; [m_open] is whether the
    sequence still points at it. *)
Record MojDbLevelSeq := {
  m_db : DB;
  m_open : bool;
  m_key : bytes;
  m_next : Z;
  m_allocated : Z
}.

Definition with_next (s : MojDbLevelSeq) (next : Z) : MojDbLevelSeq :=
  {| m_db := m_db s; m_open := m_open s; m_key := m_key s; m_next := next; m_allocated := m_allocated s |}.
Definition with_allocated (s : MojDbLevelSeq) (d : DB) (allocated : Z) : MojDbLevelSeq :=
  {| m_db := d; m_open := m_open s; m_key := m_key s; m_next := m_next s; m_allocated := allocated |}.
Definition with_open (s : MojDbLevelSeq) (open : bool) : MojDbLevelSeq :=
  {| m_db := m_db s; m_open := open; m_key := m_key s; m_next := m_next s; m_allocated := m_allocated s |}.

(** The number the database holds. *)
Definition stored (d : DB) (key : bytes) : res Z :=
  let? found := db_Get d key in
  match found with
  | Some val => let? valObj := ObjectBytes.fromBytes val in Ok (to_uint 64 (MojObject.intValue valObj))
  | None => Ok 0
  end.

Definition open (name : bytes) (db : DB) : res MojDbLevelSeq :=
  let? next := stored db name in
  Ok {| m_db := db; m_open := true; m_key := name; m_next := next; m_allocated := next |}.

(** The write of [store]. *)
Definition put_next (db : DB) (key : bytes) (next : Z) : res DB :=
  let? val := ObjectBytes.toBytes (IntImpl (to_int 64 next)) in db_Write db [BatchPut key val].

Definition store (next : Z) : st MojDbLevelSeq unit := fun s =>
  match put_next (m_db s) (m_key s) next with
  | Ok d => (with_allocated s d next, Ok tt)
  | Err e => (s, Err e)
  end.

Definition close : st MojDbLevelSeq unit :=
  let! s := get in
  if m_open s then let! _ := store (m_next s) in modify (fun s => with_open s false) else ret tt.

(** In one thread. *)
Definition get : st MojDbLevelSeq Z :=
  let! s := get in
  let val := m_next s in
  let! _ := modify (fun s => with_next s (to_uint 64 (val + 1))) in
  let! _ := if m_allocated s <=? val then store (to_uint 64 (val + SequenceAllocationPage)) else ret tt in
  ret (to_int 64 val).

(** ** Threads

    Where a thread is in [get], with the value it has fetched. *)
Inductive Pc :=
| Ready                (* not in [get] *)
| Fetched (val : Z)    (* after [fetch_add] *)
| Waiting (val : Z)    (* for the lock *)
| Locked (val : Z)     (* before the second look at [m_allocated] *)
| Writing (val : Z)    (* before the write to the database *)
| Written (val : Z)    (* before the store to [m_allocated] *)
| Leaving (val : Z)    (* with the lock, done *)
| Done (val : Z).      (* before the return *)

Definition value (p : Pc) : option Z :=
  match p with
  | Ready => None
  | Fetched v | Waiting v | Locked v | Writing v | Written v | Leaving v | Done v => Some v
  end.

Inductive Event := Fetch (t : nat) (val : Z) | Return (t : nat) (val : Z) | Failed (t : nat) (val : Z) | Restart.

(** A relaxed load may still see an earlier value of [m_allocated]. *)
Record Sys := {
  seq : MojDbLevelSeq;
  stale : list Z;
  lock : option nat;
  pcs : nat -> Pc
}.

Definition at_pc (s : Sys) (t : nat) (p : Pc) : Sys :=
  {| seq := seq s; stale := stale s; lock := lock s; pcs := <[t := p]> (pcs s) |}.
Definition with_seq (s : Sys) (q : MojDbLevelSeq) : Sys := {| seq := q; stale := stale s; lock := lock s; pcs := pcs s |}.
Definition with_lock (s : Sys) (l : option nat) : Sys := {| seq := seq s; stale := stale s; lock := l; pcs := pcs s |}.
Definition with_stale (s : Sys) (a : Z) : Sys := {| seq := seq s; stale := a :: stale s; lock := lock s; pcs := pcs s |}.

(** No thread is in [get]. *)
Definition start (q : MojDbLevelSeq) : Sys := {| seq := q; stale := []; lock := None; pcs := fun _ => Ready |}.

Definition op_key (op : BatchOp) : bytes := match op with BatchPut k _ => k | BatchDelete k => k end.

Inductive step (s : Sys) : list Event -> Sys -> Prop :=
| step_fetch t val : pcs s t = Ready -> m_next (seq s) = val ->
    step s [Fetch t (to_int 64 val)] (at_pc (with_seq s (with_next (seq s) (to_uint 64 (val + 1)))) t (Fetched val))
| step_load t val a : pcs s t = Fetched val -> a ∈ m_allocated (seq s) :: stale s ->
    step s [] (at_pc s t (if a <=? val then Waiting val else Done val))
| step_lock t val : pcs s t = Waiting val -> lock s = None -> step s [] (at_pc (with_lock s (Some t)) t (Locked val))
| step_look t val : pcs s t = Locked val ->
    step s [] (at_pc s t (if m_allocated (seq s) <=? val then Writing val else Leaving val))
| step_write t val d : pcs s t = Writing val ->
    put_next (m_db (seq s)) (m_key (seq s)) (to_uint 64 (val + SequenceAllocationPage)) = Ok d ->
    step s [] (at_pc (with_seq s (with_allocated (seq s) d (m_allocated (seq s)))) t (Written val))
| step_fail t val e : pcs s t = Writing val ->
    put_next (m_db (seq s)) (m_key (seq s)) (to_uint 64 (val + SequenceAllocationPage)) = Err e ->
    step s [Failed t (to_int 64 val)] (at_pc (with_lock s None) t Ready)
| step_publish t val : pcs s t = Written val ->
    step s [] (at_pc (with_seq (with_stale s (m_allocated (seq s)))
      (with_allocated (seq s) (m_db (seq s)) (to_uint 64 (val + SequenceAllocationPage)))) t (Leaving val))
| step_unlock t val : pcs s t = Leaving val -> step s [] (at_pc (with_lock s None) t (Done val))
| step_return t val : pcs s t = Done val -> step s [Return t (to_int 64 val)] (at_pc s t Ready)
(* the engine's other sequences are in the same database *)
| step_other ops d : Forall (fun op => op_key op <> m_key (seq s)) ops -> db_Write (m_db (seq s)) ops = Ok d ->
    step s [] (with_seq s (with_allocated (seq s) d (m_allocated (seq s))))
(* at any time: what is in memory is lost, and the sequence is opened again *)
| step_crash q : open (m_key (seq s)) (m_db (seq s)) = Ok q -> step s [Restart] (start q)
(* in good order *)
| step_reopen q q' : (forall t, pcs s t = Ready) -> close (seq s) = (q, Ok tt) -> open (m_key q) (m_db q) = Ok q' ->
    step s [Restart] (start q').

(** The events of a run, in order. *)
Inductive run (s0 : Sys) : list Event -> Sys -> Prop :=
| run_start : run s0 [] s0
| run_step tr s l s' : run s0 tr s -> step s l s' -> run s0 (tr ++ l) s'.
End ldb.

(** ** What a sequence promises *)
Section laws.
Context `{LevelDBLaws}.

Lemma stored_put d key v d' : 0 <= v < 2 ^ 63 -> put_next d key v = Ok d' -> stored d' key = Ok v.
Proof.
  intros V. unfold put_next. rewrite to_int_small by (unfold in_int; lia).
  assert (MojObject.ok (IntImpl v)) as O by (simpl; unfold in_int; lia).
  rewrite ObjectBytes.toBytes_enc by done. pose proof (ObjectBytes.fromBytes_enc _ O) as R. revert R.
  generalize (Encoding.enc (IntImpl v)). intros bs R. simpl. intros W. unfold stored. rewrite db_Get_view, (db_Write_view _ _ _ W). simpl.
  rewrite (MojMap.map_get_put lexcmp) by apply db_view_sorted. rewrite (comp_refl lexcmp). simpl.
  rewrite R. simpl. rewrite to_uint_small; [done|]. unfold in_uint. lia.
Qed.

Lemma stored_nonneg d key n : stored d key = Ok n -> 0 <= n.
Proof.
  unfold stored. intros (found & _ & E)%res_bind_ok. destruct found as [val|]; [|by injection E as <-].
  apply res_bind_ok in E as (o & _ & [= <-]). unfold to_uint. apply Z.mod_pos_bound. lia.
Qed.

Lemma get_other key ops m : Forall (fun op => op_key op <> key) ops -> sorted_entries m ->
  MojMap.get lexcmp (fold_left apply_op ops m) key = MojMap.get lexcmp m key.
Proof.
  intros F. revert m. induction F as [|op ops N _ IH]; intros m S; [done|]. simpl.
  assert (forall k, op_key op = k -> (lexcmp k key =? 0) = false /\ (lexcmp key k =? 0) = false) as Z.
  { intros k <-. rewrite !Z.eqb_neq. split; by intros ?%lexcmp_eq. }
  destruct op as [k v|k]; simpl in *; destruct (Z k eq_refl) as [Z1 Z2].
  - rewrite IH by by apply (MojMap.map_put_sorted lexcmp). by rewrite (MojMap.map_get_put lexcmp), Z1.
  - rewrite IH by by apply (MojMap.map_del_sorted lexcmp). by rewrite (MojMap.map_get_del lexcmp), Z2.
Qed.

Lemma stored_other d key ops d' : Forall (fun op => op_key op <> key) ops -> db_Write d ops = Ok d' ->
  stored d' key = stored d key.
Proof.
  intros F W. unfold stored. rewrite !db_Get_view, (db_Write_view _ _ _ W). simpl.
  by rewrite get_other by (done || apply db_view_sorted).
Qed.

(** ** The invariant

    [D] is the number in the database. *)
Definition returned (tr : list Event) : list Z := omap (fun e => match e with Return _ v => Some v | _ => None end) tr.

Definition holds (p : Pc) : bool :=
  match p with Locked _ | Writing _ | Written _ | Leaving _ => true | _ => false end.

(** A value that was returned is less than any fetched later. *)
Definition ordered (tr : list Event) : Prop :=
  forall tr1 tr2 t v t' w, tr = tr1 ++ Return t v :: tr2 -> Fetch t' w ∈ tr2 -> v < w.

(** What a thread at [p] knows. *)
Definition pc_ok (q : MojDbLevelSeq) (D : Z) (p : Pc) : Prop :=
  match p with
  | Writing v => m_allocated q <= v
  | Written v => m_allocated q <= v /\ D = v + 100
  | Leaving v | Done v => v < D
  | _ => True
  end.

Record inv (D0 : Z) (tr : list Event) (s : Sys) (D : Z) : Prop := {
  i_stored : stored (m_db (seq s)) (m_key (seq s)) = Ok D;
  i_next : 0 <= D0 <= m_next (seq s) /\ m_next (seq s) <= D0 + 100 * Z.of_nat (length tr);
  i_ahead : 0 <= m_allocated (seq s) <= D /\ D0 <= D <= m_next (seq s) + 100;
  i_phase : D = m_allocated (seq s) \/ exists t v, pcs s t = Written v;
  i_stale : forall a, a ∈ stale s -> a <= m_allocated (seq s);
  i_lock : forall t, holds (pcs s t) = true -> lock s = Some t;
  i_value : forall t v, value (pcs s t) = Some v -> D0 <= v < m_next (seq s) /\ v ∉ returned tr;
  i_distinct : forall t t' v, value (pcs s t) = Some v -> value (pcs s t') = Some v -> t = t';
  i_pc : forall t, pc_ok (seq s) D (pcs s t);
  i_returned : forall v, v ∈ returned tr -> D0 <= v < D /\ v < m_next (seq s);
  i_nodup : NoDup (returned tr);
  i_ordered : ordered tr
}.

Ltac at_thread t t' :=
  destruct (decide (t = t')) as [<-|]; [rewrite ?fn_lookup_insert in *|rewrite ?fn_lookup_insert_ne in * by done].

(** A thread moves on with its value. *)
Lemma inv_at D0 tr s D t p : inv D0 tr s D -> (value p = None \/ value p = value (pcs s t)) ->
  (holds p = true -> lock s = Some t) -> pc_ok (seq s) D p -> (holds (pcs s t) = true -> D = m_allocated (seq s) \/ exists v, p = Written v) ->
  inv D0 tr (at_pc s t p) D.
Proof.
  intros I V L P W. destruct I. constructor; simpl; try done.
  - destruct i_phase0 as [|(t' & v & E)]; [by left|]. at_thread t t'; [|right; exists t', v; by rewrite fn_lookup_insert_ne by done].
    destruct W as [|[w ->]]; [by rewrite E|by left|]. right. exists t, w. by rewrite fn_lookup_insert.
  - intros t'. at_thread t t'; auto.
  - intros t' v. at_thread t t'; [|apply i_value0]. destruct V as [->| ->]; [done|apply i_value0].
  - intros t1 t2 v. destruct V as [V|V]; at_thread t t1; at_thread t t2; rewrite ?V; try done; apply i_distinct0.
  - intros t'. at_thread t t'; auto.
Qed.

Lemma returned_snoc tr e : returned (tr ++ [e]) = returned tr ++ returned [e].
Proof. unfold returned. by rewrite omap_app. Qed.

Lemma returned_in tr1 t v tr2 : v ∈ returned (tr1 ++ Return t v :: tr2).
Proof. apply list_elem_of_omap. exists (Return t v). set_solver. Qed.

Lemma ordered_snoc tr e : ordered tr -> (forall t w v, e = Fetch t w -> v ∈ returned tr -> v < w) -> ordered (tr ++ [e]).
Proof.
  intros O F tr1 tr2 t v t' w E Hw. destruct tr2 as [|x tr2' _] using rev_ind; [set_solver|].
  rewrite app_comm_cons, app_assoc in E. apply app_inj_tail in E as [-> ->].
  apply elem_of_app in Hw as [Hw|Hw%list_elem_of_singleton]; [by eapply O|].
  eapply F; [by subst|]. apply returned_in.
Qed.

(** The lock is one thread's. *)
Lemma one_holder D0 tr s D t t' : inv D0 tr s D -> holds (pcs s t) = true -> holds (pcs s t') = true -> t = t'.
Proof. intros I H1 H2. pose proof (i_lock _ _ _ _ I t H1). pose proof (i_lock _ _ _ _ I t' H2). congruence. Qed.

Lemma not_written D0 tr s D t : inv D0 tr s D -> holds (pcs s t) = true -> (forall v, pcs s t <> Written v) -> D = m_allocated (seq s).
Proof.
  intros I Ht N. destruct (i_phase _ _ _ _ I) as [|(t' & v & E)]; [done|].
  rewrite (one_holder _ _ _ _ t t' I Ht) in N; [by destruct (N v)|by rewrite E].
Qed.

(** An event that is no return. *)
Lemma inv_event D0 tr s D e : inv D0 tr s D -> returned [e] = [] -> (forall t w, e <> Fetch t w) -> inv D0 (tr ++ [e]) s D.
Proof.
  intros I R N. destruct I. constructor; rewrite ?returned_snoc, ?R, ?app_nil_r; try done.
  - rewrite length_app. simpl. lia.
  - apply ordered_snoc; [done|]. intros t w v E. by destruct (N t w).
Qed.

Lemma inv_fetch D0 tr s D t : inv D0 tr s D -> pcs s t = Ready ->
  inv D0 (tr ++ [Fetch t (m_next (seq s))]) (at_pc (with_seq s (with_next (seq s) (m_next (seq s) + 1))) t (Fetched (m_next (seq s)))) D.
Proof.
  intros I R. destruct I. constructor; rewrite ?returned_snoc, ?app_nil_r; simpl; try done.
  - rewrite length_app. simpl. lia.
  - lia.
  - destruct i_phase0 as [|(t' & v & E)]; [by left|]. right. exists t', v. rewrite fn_lookup_insert_ne; [done|congruence].
  - intros t'. at_thread t t'; [done|apply i_lock0].
  - intros t' v. at_thread t t'.
    + intros [= <-]. split; [lia|]. intros Hv%i_returned0. lia.
    + intros [? ?]%i_value0. split; [lia|done].
  - intros t1 t2 v. at_thread t t1; at_thread t t2; [done|..|apply i_distinct0].
    + intros [= <-] [? _]%i_value0. lia.
    + intros [? _]%i_value0 [= <-]. lia.
  - intros t'. specialize (i_pc0 t'). at_thread t t'; done.
  - intros v Hv%i_returned0. lia.
  - apply ordered_snoc; [done|]. intros t' w v [= <- <-] Hv%i_returned0. lia.
Qed.

Lemma inv_lock D0 tr s D l : inv D0 tr s D -> (forall t, holds (pcs s t) = true -> l = Some t) -> inv D0 tr (with_lock s l) D.
Proof. intros I L. by destruct I. Qed.

Lemma inv_write D0 tr s D t val d : inv D0 tr s D -> pcs s t = Writing val -> 0 <= val + 100 < 2 ^ 63 ->
  put_next (m_db (seq s)) (m_key (seq s)) (val + 100) = Ok d ->
  inv D0 tr (at_pc (with_seq s (with_allocated (seq s) d (m_allocated (seq s)))) t (Written val)) (val + 100).
Proof.
  intros I P B W. assert (holds (pcs s t) = true) as Ht by by rewrite P.
  pose proof (not_written _ _ _ _ _ I Ht ltac:(intros v; by rewrite P)) as ED.
  pose proof (i_pc _ _ _ _ I t) as A. rewrite P in A. simpl in A. pose proof (i_value _ _ _ _ I t val ltac:(by rewrite P)) as [V N].
  pose proof (fun t' => one_holder _ _ _ _ t t' I Ht) as U. destruct I. constructor; simpl; try done.
  - by apply (stored_put _ _ _ _ B W).
  - lia.
  - right. exists t, val. by rewrite fn_lookup_insert.
  - intros t'. at_thread t t'; auto.
  - intros t' v. at_thread t t'; [by intros [= <-]|apply i_value0].
  - intros t1 t2 v. at_thread t t1; at_thread t t2; [done|..|apply i_distinct0].
    + intros [= <-] E. apply (i_distinct0 _ _ val); [by rewrite P|done].
    + intros E [= <-]. apply (i_distinct0 _ _ val); [done|by rewrite P].
  - intros t'. specialize (i_pc0 t'). specialize (U t'). at_thread t t'; [done|].
    destruct (pcs s t'); simpl in *; try done; lia || by destruct (U eq_refl).
  - intros v Hv%i_returned0. lia.
Qed.

Lemma inv_publish D0 tr s D t val : inv D0 tr s D -> pcs s t = Written val ->
  inv D0 tr (at_pc (with_seq (with_stale s (m_allocated (seq s))) (with_allocated (seq s) (m_db (seq s)) (val + 100))) t (Leaving val)) D.
Proof.
  intros I P. assert (holds (pcs s t) = true) as Ht by by rewrite P.
  pose proof (i_pc _ _ _ _ I t) as A. rewrite P in A. destruct A as [A ED].
  pose proof (fun t' => one_holder _ _ _ _ t t' I Ht) as U. destruct I. constructor; simpl; try done.
  - lia.
  - by left.
  - intros a [-> | Ha%i_stale0]%elem_of_cons; lia.
  - intros t'. at_thread t t'; auto.
  - intros t' v. at_thread t t'; [|apply i_value0]. intros [= <-]. apply (i_value0 t). by rewrite P.
  - intros t1 t2 v. at_thread t t1; at_thread t t2; [done|..|apply i_distinct0].
    + intros [= <-] E. apply (i_distinct0 _ _ val); [by rewrite P|done].
    + intros E [= <-]. apply (i_distinct0 _ _ val); [done|by rewrite P].
  - intros t'. specialize (i_pc0 t'). specialize (U t'). at_thread t t'; simpl in *; [lia|].
    destruct (pcs s t'); simpl in *; try done; by destruct (U eq_refl).
Qed.

Lemma inv_return D0 tr s D t val : inv D0 tr s D -> pcs s t = Done val -> inv D0 (tr ++ [Return t val]) (at_pc s t Ready) D.
Proof.
  intros I P. pose proof (i_pc _ _ _ _ I t) as A. rewrite P in A. simpl in A.
  pose proof (i_value _ _ _ _ I t val ltac:(by rewrite P)) as [V N].
  assert (inv D0 tr (at_pc s t Ready) D) as I' by (apply inv_at; [done|by left|done..|by rewrite P]).
  destruct I'. pose proof (i_distinct _ _ _ _ I t) as U. constructor; rewrite ?returned_snoc; simpl in *; try done.
  - rewrite length_app. simpl. lia.
  - intros t' v Hv. pose proof (i_value0 _ _ Hv) as [? ?]. split; [done|]. intros [?| ->%list_elem_of_singleton]%elem_of_app; [done|].
    at_thread t t'; [done|]. specialize (U t' val). rewrite P in U. by apply n, U.
  - intros v [Hv| ->%list_elem_of_singleton]%elem_of_app; [by apply i_returned0|lia].
  - apply NoDup_app. split; [done|]. split; [|apply NoDup_singleton]. by intros v Hv ->%list_elem_of_singleton.
  - apply ordered_snoc; [done|]. by intros.
Qed.

(** A thread lets the lock go. *)
Lemma inv_free D0 tr s D t p : inv D0 tr s D -> holds p = false -> pc_ok (seq s) D p -> D = m_allocated (seq s) ->
  holds (pcs s t) = true -> value p = None \/ value p = value (pcs s t) -> inv D0 tr (at_pc (with_lock s None) t p) D.
Proof.
  intros I Hp A ED Ht Vp. assert (inv D0 tr (at_pc s t p) D) as I'.
  { apply inv_at; [done|done|by rewrite Hp|done|by left]. }
  apply (inv_lock _ _ (at_pc s t p)); [done|]. intros t' Ht'. simpl in Ht'. at_thread t t'; [congruence|].
  by destruct (one_holder _ _ _ _ t t' I Ht).
Qed.

(** Nothing is left but what the database holds. *)
Lemma inv_restart D0 tr s D q D' : inv D0 tr s D -> open (m_key q) (m_db q) = Ok q -> m_next q = D' ->
  D0 <= D' <= m_next (seq s) + 100 -> (forall v, v ∈ returned tr -> v < D') -> inv D0 (tr ++ [Restart]) (start q) D'.
Proof.
  intros I O E B R. destruct I. unfold open in O. apply res_bind_ok in O as (n & S & [= O]).
  assert (n = D') as -> by (rewrite <- E, <- O; done).
  assert (m_allocated q = D') as A by by rewrite <- O.
  constructor; rewrite ?returned_snoc, ?app_nil_r; simpl; rewrite ?E, ?A; try done.
  - rewrite length_app. simpl. lia.
  - lia.
  - by left.
  - set_solver.
  - intros v Hv. pose proof (R v Hv). apply i_returned0 in Hv. lia.
  - apply ordered_snoc; [done|]. by intros.
Qed.

Lemma open_again q n : stored (m_db q) (m_key q) = Ok n ->
  exists q', open (m_key q) (m_db q) = Ok q' /\ m_next q' = n /\ m_key q' = m_key q /\ open (m_key q') (m_db q') = Ok q'.
Proof. intros S. unfold open. rewrite S. simpl. eexists. split; [done|]. simpl. by rewrite S. Qed.

(** What [close] leaves in the database. *)
Lemma close_stored D0 tr s D q : inv D0 tr s D -> m_next (seq s) < 2 ^ 63 -> close (seq s) = (q, Ok tt) ->
  m_key q = m_key (seq s) /\ (stored (m_db q) (m_key q) = Ok D \/ stored (m_db q) (m_key q) = Ok (m_next (seq s))).
Proof.
  intros I B. unfold close, Effects.bind, Effects.get. simpl. destruct (m_open (seq s)).
  - unfold store, Effects.bind. destruct (put_next _ _ _) as [d|e] eqn:P; [|done]. intros [= <-]. simpl. split; [done|]. right.
    eapply stored_put; [|exact P]. destruct I. lia.
  - intros [= <-]. split; [done|]. left. apply (i_stored _ _ _ _ I).
Qed.

Lemma inv_move D0 tr s D l s' : inv D0 tr s D -> D0 + 100 * (Z.of_nat (length tr) + 2) <= 2 ^ 63 -> step s l s' ->
  exists D', inv D0 (tr ++ l) s' D'.
Proof.
  intros I B St. assert (forall t v, value (pcs s t) = Some v -> 0 <= v /\ v + 100 < 2 ^ 63) as V.
  { intros t v Hv%(i_value _ _ _ _ I). pose proof (i_next _ _ _ _ I). lia. }
  assert (forall t v, value (pcs s t) = Some v -> to_int 64 v = v /\ to_uint 64 (v + 100) = v + 100) as W.
  { intros t v Hv%V. rewrite to_int_small, to_uint_small by (unfold in_int, in_uint; lia). done. }
  destruct St as [t val R <-|t val a P Ha|t val P L|t val P|t val d P E|t val e P E|t val P|t val P|t val P|ops d F E|q O|q q' R C O];
    rewrite ?app_nil_r.
  - exists D. pose proof (i_next _ _ _ _ I). pose proof (i_ahead _ _ _ _ I).
    rewrite to_int_small, to_uint_small by (unfold in_int, in_uint; lia). by apply inv_fetch.
  - exists D. assert (a <= m_allocated (seq s)) as La.
    { apply elem_of_cons in Ha as [-> | Ha]; [lia|]. by apply (i_stale _ _ _ _ I). }
    pose proof (i_ahead _ _ _ _ I). destruct (Z.leb_spec a val); apply inv_at; rewrite ?P; simpl; try done; try (by right); lia.
  - exists D. apply (inv_at _ _ (with_lock s (Some t))); simpl; rewrite ?P; try done; [|by right]. apply inv_lock; [done|].
    intros t' Ht'. pose proof (i_lock _ _ _ _ I t' Ht'). congruence.
  - exists D. pose proof (i_lock _ _ _ _ I t ltac:(by rewrite P)) as L.
    pose proof (not_written _ _ _ _ t I ltac:(by rewrite P) ltac:(intros; by rewrite P)) as ED.
    destruct (Z.leb_spec (m_allocated (seq s)) val); apply inv_at; rewrite ?P; simpl; try done; try (by right); try (by left); lia.
  - exists (val + 100). destruct (W t val ltac:(by rewrite P)) as [_ Wv]. unfold SequenceAllocationPage in E. rewrite Wv in E.
    pose proof (V t val ltac:(by rewrite P)). apply (inv_write _ _ _ D); [done|done|lia|done].
  - exists D. apply inv_event; [|done..].
    pose proof (not_written _ _ _ _ t I ltac:(by rewrite P) ltac:(intros; by rewrite P)) as ED.
    apply (inv_free D0 tr s D t Ready); [done..|by rewrite P|by left].
  - exists D. destruct (W t val ltac:(by rewrite P)) as [_ Wv]. unfold SequenceAllocationPage. rewrite Wv. by apply inv_publish.
  - exists D. pose proof (not_written _ _ _ _ t I ltac:(by rewrite P) ltac:(intros; by rewrite P)) as ED.
    pose proof (i_pc _ _ _ _ I t) as A. rewrite P in A. apply (inv_free D0 tr s D t (Done val)); [done..|by rewrite P|right; by rewrite P].
  - exists D. destruct (W t val ltac:(by rewrite P)) as [-> _]. by apply inv_return.
  - exists D. destruct I. constructor; simpl; try done. by rewrite (stored_other _ _ _ _ F E).
  - exists D. pose proof (i_ahead _ _ _ _ I). destruct (open_again _ _ (i_stored _ _ _ _ I)) as (q' & O' & N & K & A).
    rewrite O in O'. injection O' as <-. apply (inv_restart _ _ s D); [done..|lia|]. intros v Hv%(i_returned _ _ _ _ I). lia.
  - pose proof (i_ahead _ _ _ _ I). pose proof (i_next _ _ _ _ I).
    destruct (close_stored _ _ _ _ _ I ltac:(lia) C) as [K S]. destruct S as [S|S]; destruct (open_again _ _ S) as (q1 & O' & N & K' & A);
      rewrite O in O'; injection O' as <-; eexists; (apply (inv_restart _ _ s D); [done..|lia|]); intros v Hv%(i_returned _ _ _ _ I); lia.
Qed.

Lemma seq_start q : open (m_key q) (m_db q) = Ok q -> 0 <= m_next q -> inv (m_next q) [] (start q) (m_next q).
Proof.
  intros O N. unfold open in O. apply res_bind_ok in O as (n & S & [= O]).
  assert (m_next q = n /\ m_allocated q = n) as [En Ea] by by rewrite <- O.
  constructor; simpl; rewrite ?En, ?Ea; try done; [lia..|by left|set_solver|set_solver|constructor|].
  intros [] *; done.
Qed.

Lemma inv_run q tr s : open (m_key q) (m_db q) = Ok q -> 0 <= m_next q -> m_next q + 100 * (Z.of_nat (length tr) + 2) <= 2 ^ 63 ->
  run (start q) tr s -> exists D, inv (m_next q) tr s D.
Proof.
  intros O N B R. induction R as [|tr s l s' R IH St]; [exists (m_next q); by apply seq_start|].
  rewrite length_app in B. destruct IH as [D I]; [lia|]. apply (inv_move _ _ _ D _ _ I); [lia|done].
Qed.

(** C31: however threads, crashes and reopenings interleave, no number is given twice. *)
Theorem sequence_fresh (name : bytes) (d : DB) (q : MojDbLevelSeq) (tr : list Event) (s : Sys) :
  open name d = Ok q -> m_next q + 100 * (Z.of_nat (length tr) + 2) <= 2 ^ 63 -> run (start q) tr s ->
  NoDup (returned tr) /\ ordered tr /\ (forall v, v ∈ returned tr -> m_next q <= v) /\
  exists D, stored (m_db (seq s)) (m_key (seq s)) = Ok D /\ forall v, v ∈ returned tr -> 0 <= v < D.
Proof.
  intros O B R. assert (open (m_key q) (m_db q) = Ok q /\ 0 <= m_next q) as [O' N].
  { unfold open in O. apply res_bind_ok in O as (n & S & [= <-]). unfold open. simpl. rewrite S. split; [done|].
    by eapply stored_nonneg. }
  destruct (inv_run q tr s O' N B R) as [D I]. split; [apply I|]. split; [apply I|].
  split; [intros v Hv%(i_returned _ _ _ _ I); lia|]. exists D. split; [apply I|]. intros v Hv%(i_returned _ _ _ _ I). lia.
Qed.

(** One thread alone does what [get] does. *)
Lemma run_silent s0 tr s s' : run s0 tr s -> step s [] s' -> run s0 tr s'.
Proof. intros R St. rewrite <- (app_nil_r tr). by eapply run_step. Qed.

(** The thread's place after its last move. *)
Ltac here := simpl; rewrite ?fn_lookup_insert; reflexivity.

Lemma get_alone q q' v : get q = (q', Ok v) ->
  exists s, run (start q) [Fetch 0 v; Return 0 v] s /\ seq s = q' /\ lock s = None /\ forall t, pcs s t = Ready.
Proof.
  pose proof (run_step _ _ _ _ _ (run_start (start q)) (step_fetch (start q) 0 _ eq_refl eq_refl)) as R. simpl in R.
  eapply run_silent in R; [|apply (step_load _ 0 (m_next q) (m_allocated q)); [here|set_solver]].
  unfold get, Effects.bind, Effects.get, Effects.modify. simpl. destruct (Z.leb_spec (m_allocated q) (m_next q)) as [L|L]; simpl.
  - unfold store. simpl. destruct (put_next _ _ _) as [d|e] eqn:P; [|done]. simpl. intros [= <- <-].
    eapply run_silent in R; [|apply (step_lock _ 0 (m_next q)); here].
    eapply run_silent in R; [|apply (step_look _ 0 (m_next q)); here]. simpl in R. rewrite (proj2 (Z.leb_le _ _) L) in R.
    eapply run_silent in R; [|apply (step_write _ 0 (m_next q) d); [here|exact P]].
    eapply run_silent in R; [|apply (step_publish _ 0 (m_next q)); here].
    eapply run_silent in R; [|apply (step_unlock _ 0 (m_next q)); here].
    eapply run_step in R; [|apply (step_return _ 0 (m_next q)); here]. eexists. split; [exact R|]. split; [done|]. split; [done|].
    intros t. simpl. by at_thread 0%nat t.
  - intros [= <- <-]. eapply run_step in R; [|apply (step_return _ 0 (m_next q)); here].
    eexists. split; [exact R|]. split; [done|]. split; [done|]. intros t. simpl. by at_thread 0%nat t.
Qed.
End laws.
End MojDbLevelSeq.

(** ** Two threads and a crash

    Over a LevelDB that is a log: thread 1 has the first number and the page written;
    thread 2 still sees the old allocation and waits for the lock when the process
    dies.  The numbers go on at 100. *)
Module SequenceExample.
Import MojDbLevelSeq LevelDbCursor.LogDB.
#[local] Existing Instances logdb logdb_laws.

Definition q0 : MojDbLevelSeq :=
  {| m_db := [] : @DB logdb; m_open := true; m_key := _T "revId"; m_next := 0; m_allocated := 0 |}.

Definition trace : list Event := [Fetch 1 0; Fetch 2 1; Return 1 0; Restart; Fetch 1 100].

Lemma crash_run : exists s, run (start q0) trace s.
Proof.
  pose proof (run_step _ _ _ _ _ (run_start (start q0)) (step_fetch (start q0) 1 _ eq_refl eq_refl)) as R.
  eapply run_step in R; [|apply (step_fetch _ 2 1); reflexivity].
  eapply run_silent in R; [|apply (step_load _ 1 0 0); [reflexivity|set_solver]].
  eapply run_silent in R; [|apply (step_lock _ 1 0); reflexivity].
  eapply run_silent in R; [|apply (step_look _ 1 0); reflexivity].
  eapply run_silent in R; [|eapply (step_write _ 1 0); reflexivity].
  eapply run_silent in R; [|apply (step_publish _ 1 0); reflexivity].
  eapply run_silent in R; [|apply (step_unlock _ 1 0); reflexivity].
  eapply run_silent in R; [|apply (step_load _ 2 1 0); [reflexivity|set_solver]].
  eapply run_step in R; [|apply (step_return _ 1 0); reflexivity].
  eapply run_step in R; [|eapply step_crash; vm_compute; reflexivity].
  eapply run_step in R; [|apply (step_fetch _ 1 100); reflexivity].
  eexists. exact R.
Qed.

Lemma sequence_fresh_witness : exists s, run (start q0) trace s /\
  exists D, stored (m_db (seq s)) (m_key (seq s)) = Ok D /\ 0 < D.
Proof.
  destruct crash_run as [s R]. exists s. split; [exact R|].
  assert (open (_T "revId") ([] : @DB logdb) = Ok q0) as O by by vm_compute.
  assert (m_next q0 + 100 * (Z.of_nat (length trace) + 2) <= 2 ^ 63) as B by (simpl; lia).
  destruct (sequence_fresh _ _ q0 trace s O B R) as (_ & _ & _ & D & E & L).
  exists D. split; [exact E|]. apply (L 0). vm_compute. by apply list_elem_of_singleton.
Defined.
End SequenceExample.
