(* ===== verification/Watcher.v ===== *)
(** * Watches: src/src/db/MojDbWatcher.cpp

    A watch waits for a change in the ranges of a query.  It is pending until the
    page of the query has been read, then active, with the last key of the page as
    its limit; it fires once, and leaves its index before it does. *)

From S2P Require Import Prelude Containers CoreUtil Object DataSerialization TokenSet ObjectSerialization Text DbKey Effects.

Module MojDbWatcher.
Inductive State := StateInvalid | StatePending | StateActive.

#[export] Instance State_eq_dec : EqDecision State.
Proof. solve_decision. Defined.

(** The index is known by its address. *)
Record MojDbWatcher := {
  m_ranges : list MojDbKeyRange.MojDbKeyRange;
  m_limitKey : MojDbKey;
  m_fireKey : MojDbKey;
  m_domain : mstring;
  m_desc : bool;
  m_state : State;
  m_index : option Z
}.

Definition init_watcher : MojDbWatcher :=
  {| m_ranges := []; m_limitKey := []; m_fireKey := []; m_domain := []; m_desc := false;
     m_state := StateInvalid; m_index := None |}.

Definition with_state (w : MojDbWatcher) state index : MojDbWatcher :=
  {| m_ranges := m_ranges w; m_limitKey := m_limitKey w; m_fireKey := m_fireKey w; m_domain := m_domain w;
     m_desc := m_desc w; m_state := state; m_index := index |}.
Definition with_keys (w : MojDbWatcher) limit fire : MojDbWatcher :=
  {| m_ranges := m_ranges w; m_limitKey := limit; m_fireKey := fire; m_domain := m_domain w;
     m_desc := m_desc w; m_state := m_state w; m_index := m_index w |}.
Definition domain (w : MojDbWatcher) (val : mstring) : MojDbWatcher :=
  {| m_ranges := m_ranges w; m_limitKey := m_limitKey w; m_fireKey := m_fireKey w; m_domain := val;
     m_desc := m_desc w; m_state := m_state w; m_index := m_index w |}.

Definition init (w : MojDbWatcher) (index : Z) ranges (desc active : bool) : MojDbWatcher :=
  {| m_ranges := ranges; m_limitKey := m_limitKey w; m_fireKey := m_fireKey w; m_domain := m_domain w;
     m_desc := desc; m_state := if active then StateActive else StatePending; m_index := Some index |}.

(** Not after the limit, in the direction of the query. *)
Definition within (desc : bool) (key limitKey : MojDbKey) : bool :=
  MojDbKey.empty limitKey || (desc && MojDbKey.ge key limitKey) || (negb desc && MojDbKey.le key limitKey).

Section world.
(** The watcher is part of a state [S]; [cancelWatch] takes it off the index,
    [signal] tells its handler and its errors are ignored, [cancelShardSlot] stops
    listening to the shards. *)
Context {S : Type} (this : S -> MojDbWatcher) (set_this : S -> MojDbWatcher -> S).
Context (cancelWatch : Z -> st S unit) (signal : st S unit) (cancelShardSlot : S -> S).

Definition update_this (f : MojDbWatcher -> MojDbWatcher) : st S unit := modify (fun s => set_this s (f (this s))).

Definition invalidate : st S unit :=
  let! s := get in
  match m_index (this s) with
  | None => throw AssertFailed (* a call through the null index *)
  | Some index =>
      let! _ := update_this (fun w => with_state w StateInvalid None) in
      let! _ := cancelWatch index in
      modify cancelShardSlot
  end.

Definition fireImpl : st S unit :=
  let! _ := invalidate in
  let! _ := attempt signal in ret tt.

Definition activate (limitKey : MojDbKey) : st S unit :=
  let! s := get in
  if decide (m_state (this s) = StateInvalid) then ret tt
  else
    let! _ := update_this (fun w => with_state w StateActive (m_index w)) in
    let w := this s in
    let fired := negb (MojDbKey.empty (m_fireKey w)) in
    if fired && within (m_desc w) (m_fireKey w) limitKey then fireImpl
    else update_this (fun w => with_keys w limitKey (m_fireKey w)).

Definition fire (key : MojDbKey) : st S unit :=
  let! s := get in
  let w := this s in
  if negb (within (m_desc w) key (m_limitKey w)) then ret tt
  else
    match m_state w with
    | StateActive => fireImpl
    | StatePending =>
        let save := (m_desc w && negb (MojDbKey.le key (m_fireKey w))) ||
                    (negb (m_desc w) && (MojDbKey.empty (m_fireKey w) || MojDbKey.lt key (m_fireKey w))) in
        if save then update_this (fun w => with_keys w (m_limitKey w) key) else ret tt
    | StateInvalid => ret tt
    end.

Definition abandon : st S unit :=
  let! s := get in
  match m_state (this s) with StateInvalid => ret tt | _ => fireImpl end.

Definition handleCancel : st S unit :=
  let! s := get in
  match m_index (this s) with
  | None => throw MojErrDbWatcherNotRegistered
  | Some _ => if decide (m_state (this s) <> StateInvalid) then invalidate else ret tt
  end.

Definition shardStatusChanged (active : bool) : st S unit :=
  if negb active then ret tt
  else let! _ := modify cancelShardSlot in fireImpl.
End world.


End MojDbWatcher.
