(* ===== verification/Extractor.v ===== *)
(** * Extractors and revision sets: src/src/db/MojDbExtractor.cpp, MojDbRevisionSet.cpp

    What a property of an index takes from an object: the values its dotted path
    reaches, as a set of keys.  A revision set of a kind names a property that is to hold
    the revision at which one of some watched properties was last changed. *)

From S2P Require Import Prelude Containers CoreUtil Number Object ObjectBuilder DataSerialization TokenSet ObjectSerialization Text DbKey Json JsonRoundTrip DbQuery ObjectItem.

(** ** The fields every extractor has *)
Module MojDbExtractor.
Definition NameKey := _T "name".
Definition CollateKey := _T "collate".

Record Base := { m_name : mstring; m_collation : MojDbCollationStrength }.

Definition init : Base := {| m_name := []; m_collation := MojDbCollationInvalid |}.

Definition fromObject (b : Base) (obj : MojObject) : res Base :=
  let? name := MojObjectString.getRequired_string obj NameKey in
  let? collate := MojObjectString.get_string obj CollateKey in
  let? collation :=
    match collate with
    | Some collate =>
        let? strength := MojDbUtils.collationFromString collate in
        Ok (if decide (strength <> MojDbCollationInvalid) then strength else m_collation b)
    | None => Ok (m_collation b)
    end in
  Ok {| m_name := name; m_collation := collation |}.
End MojDbExtractor.

(** ** [MojDbPropExtractor] *)
Module MojDbPropExtractor.
Import MojDbExtractor (m_name, m_collation).

Definition PropComponentSeparator : Z := chr ".".
Definition AllKey := _T "all".
Definition DefaultKey := _T "default".
Definition TokenizeKey := _T "tokenize".
Definition WildcardKey := _T "*".

Section icu.
Context `{ICU}.

Record MojDbPropExtractor := {
  base : MojDbExtractor.Base;
  m_default : KeySet;
  m_prop : list mstring;
  m_tokenizer : option UBreakIterator;
  m_collator : option MojDbTextCollator.MojDbTextCollator
}.

Definition init : MojDbPropExtractor :=
  {| base := MojDbExtractor.init; m_default := []; m_prop := []; m_tokenizer := None; m_collator := None |}.

Definition with_base (e : MojDbPropExtractor) b : MojDbPropExtractor :=
  {| base := b; m_default := m_default e; m_prop := m_prop e; m_tokenizer := m_tokenizer e; m_collator := m_collator e |}.
Definition with_default (e : MojDbPropExtractor) d : MojDbPropExtractor :=
  {| base := base e; m_default := d; m_prop := m_prop e; m_tokenizer := m_tokenizer e; m_collator := m_collator e |}.
Definition with_text (e : MojDbPropExtractor) t c : MojDbPropExtractor :=
  {| base := base e; m_default := m_default e; m_prop := m_prop e; m_tokenizer := t; m_collator := c |}.

Definition collator (e : MojDbPropExtractor) (c : option MojDbTextCollator.MojDbTextCollator) : MojDbPropExtractor :=
  with_text e (m_tokenizer e) c.

Definition prop (e : MojDbPropExtractor) (name : mstring) : MojDbPropExtractor :=
  {| base := base e; m_default := m_default e; m_prop := MojString.split name PropComponentSeparator;
     m_tokenizer := m_tokenizer e; m_collator := m_collator e |}.

Definition updateLocale (e : MojDbPropExtractor) (locale : mstring) : res MojDbPropExtractor :=
  if decide (m_collation (base e) <> MojDbCollationInvalid) then
    let? tokenizer :=
      match m_tokenizer e with
      | Some _ => let? t := MojDbTextTokenizer.init locale in Ok (Some t)
      | None => Ok None
      end in
    let? c := MojDbTextCollator.init locale (m_collation (base e)) in
    Ok (with_text e tokenizer (Some c))
  else Ok e.

(** The keys of a default value: of the elements, when it is an array. *)
Definition putDefault (keys : KeySet) (defaultVal : MojObject) : res KeySet :=
  let put keys v := let? key := MojDbKey.assign v None in Ok (MojSet.put lexcmp keys key) in
  match defaultVal with
  | ArrayImpl vec => res_fold put keys vec
  | _ => put keys defaultVal
  end.

Definition fromObjectImpl (e : MojDbPropExtractor) (obj : MojObject) (defaultConfig : MojDbPropExtractor)
    (locale : mstring) : res MojDbPropExtractor :=
  let? b := MojDbExtractor.fromObject (base e) obj in
  let e := with_base e b in
  let? keys := match MojObject.get obj DefaultKey with
               | Some defaultVal => putDefault (m_default defaultConfig) defaultVal
               | None => Ok (m_default defaultConfig)
               end in
  let e := with_default e keys in
  let? tokenize := MojObjectString.get_string obj TokenizeKey in
  let? tokenizer :=
    match tokenize with
    | Some tokenize =>
        if bool_decide (tokenize = AllKey) || bool_decide (tokenize = DefaultKey) then
          let? t := MojDbTextTokenizer.init locale in Ok (Some t)
        else Err MojErrDbInvalidTokenization
    | None => Ok (m_tokenizer defaultConfig)
    end in
  let e := with_text e tokenizer (m_collator e) in
  let e := if decide (m_collation (base e) = MojDbCollationInvalid)
           then with_base e {| m_name := m_name (base e); m_collation := m_collation (base defaultConfig) |} else e in
  let? e := updateLocale e locale in
  Ok (prop e (m_name (base e))).

Definition fromObject (e : MojDbPropExtractor) (obj : MojObject) (locale : mstring) : res MojDbPropExtractor :=
  fromObjectImpl e obj init locale.

(** The values of an object, of an array's elements; [begin] of anything else is
    its end. *)
Definition children (obj : MojObject) : list MojObject :=
  match obj with ObjectImpl props => map snd props | _ => [] end.

(** The end of the path: the words of a string, when there is a tokenizer. *)
Definition putVal (e : MojDbPropExtractor) (val : MojObject) (valsOut : KeySet) : res KeySet :=
  match m_tokenizer e, val with
  | Some tokenizer, StringImpl text => MojDbTextTokenizer.tokenize tokenizer text (m_collator e) valsOut
  | _, _ => let? key := MojDbKey.assign val (m_collator e) in Ok (MojSet.put lexcmp valsOut key)
  end.

(** [valsImpl] and [handleVal] at an index; [path] is [m_prop] from there on. *)
Fixpoint valsImpl (e : MojDbPropExtractor) (path : list mstring) (obj : MojObject) (valsOut : KeySet) : res KeySet :=
  match path with
  | [] => Err AssertFailed (* no such component *)
  | propKey :: rest =>
      let handleVal valsOut val :=
        match rest with
        | [] => putVal e val valsOut
        | _ => valsImpl e rest val valsOut
        end in
      if bool_decide (propKey = WildcardKey) then res_fold handleVal valsOut (children obj)
      else
        match MojObject.get obj propKey with
        | None => Ok (MojSet.put_set lexcmp valsOut (m_default e))
        | Some (ArrayImpl vec) => res_fold handleVal valsOut vec
        | Some val => handleVal valsOut val
        end
  end.

Definition vals (e : MojDbPropExtractor) (obj : MojObject) (valsOut : KeySet) : res KeySet :=
  valsImpl e (m_prop e) obj valsOut.
End icu.
End MojDbPropExtractor.

(** ** [MojDbMultiExtractor] *)
Module MojDbMultiExtractor.
Import MojDbPropExtractor (MojDbPropExtractor).

Definition IncludeKey := _T "include".

Section icu.
Context `{ICU}.

Record MojDbMultiExtractor := { base : MojDbExtractor.Base; m_extractors : list MojDbPropExtractor }.

Definition init : MojDbMultiExtractor := {| base := MojDbExtractor.init; m_extractors := [] |}.

(** [arrayBegin .. arrayEnd] of anything else is empty. *)
Definition elements (include : MojObject) : list MojObject :=
  match include with ArrayImpl vec => vec | _ => [] end.

Definition fromObject (e : MojDbMultiExtractor) (obj : MojObject) (locale : mstring) : res MojDbMultiExtractor :=
  let? b := MojDbExtractor.fromObject (base e) obj in
  let? defaultExtractor := MojDbPropExtractor.fromObject MojDbPropExtractor.init obj locale in
  let? include := MojObject.getRequiredT (MojObject.get obj IncludeKey) in
  let? extractors :=
    res_fold (fun out i =>
      let? _ := MojObjectString.stringValue i in
      let? propExtractor := MojDbPropExtractor.fromObjectImpl MojDbPropExtractor.init i defaultExtractor locale in
      Ok (out ++ [propExtractor])) (m_extractors e) (elements include) in
  Ok {| base := b; m_extractors := extractors |}.

Definition updateLocale (e : MojDbMultiExtractor) (locale : mstring) : res MojDbMultiExtractor :=
  let? extractors :=
    res_fold (fun out i => let? i := MojDbPropExtractor.updateLocale i locale in Ok (out ++ [i])) [] (m_extractors e) in
  Ok {| base := base e; m_extractors := extractors |}.

Definition vals (e : MojDbMultiExtractor) (obj : MojObject) (valsOut : KeySet) : res KeySet :=
  res_fold (fun valsOut i => MojDbPropExtractor.vals i obj valsOut) valsOut (m_extractors e).
End icu.
End MojDbMultiExtractor.

(** ** Either of them *)
Module Extractor.
Section icu.
Context `{ICU}.

Inductive Extractor :=
| PropExtractor (e : MojDbPropExtractor.MojDbPropExtractor)
| MultiExtractor (e : MojDbMultiExtractor.MojDbMultiExtractor).

Definition base (e : Extractor) : MojDbExtractor.Base :=
  match e with PropExtractor e => MojDbPropExtractor.base e | MultiExtractor e => MojDbMultiExtractor.base e end.
Definition name (e : Extractor) : mstring := MojDbExtractor.m_name (base e).
Definition collation (e : Extractor) : MojDbCollationStrength := MojDbExtractor.m_collation (base e).

Definition updateLocale (e : Extractor) (locale : mstring) : res Extractor :=
  match e with
  | PropExtractor e => let? e := MojDbPropExtractor.updateLocale e locale in Ok (PropExtractor e)
  | MultiExtractor e => let? e := MojDbMultiExtractor.updateLocale e locale in Ok (MultiExtractor e)
  end.

Definition vals (e : Extractor) (obj : MojObject) (valsOut : KeySet) : res KeySet :=
  match e with
  | PropExtractor e => MojDbPropExtractor.vals e obj valsOut
  | MultiExtractor e => MojDbMultiExtractor.vals e obj valsOut
  end.
End icu.
End Extractor.

(** ** [MojDbRevisionSet] *)
Module MojDbRevisionSet.
Import MojDbPropExtractor (MojDbPropExtractor).

Definition PropsKey := _T "props".
Definition NameKey := _T "name".

Section icu.
Context `{ICU}.

Record MojDbRevisionSet := { m_name : mstring; m_props : list MojDbPropExtractor }.

Definition addProp (r : MojDbRevisionSet) (propObj : MojObject) : res MojDbRevisionSet :=
  let? extractor := MojDbPropExtractor.fromObject MojDbPropExtractor.init propObj [] in
  Ok {| m_name := m_name r; m_props := m_props r ++ [extractor] |}.

Definition fromObject (obj : MojObject) : res MojDbRevisionSet :=
  let? name := MojObjectString.getRequired_string obj NameKey in
  let? props := MojObject.getRequiredT (MojObject.get obj PropsKey) in
  let? r := res_fold addProp {| m_name := name; m_props := [] |} (MojDbMultiExtractor.elements props) in
  match m_props r with
  | [] => Err MojErrDbInvalidRevisionSet
  | _ => Ok r
  end.

Definition updateRev (r : MojDbRevisionSet) (obj : MojObject) : res MojObject :=
  let? rev := MojObject.getRequiredT (MojObject.get obj RevKey) in
  Ok (MojObject.put obj (m_name r) rev).

(** Up to the first property whose values differ. *)
Fixpoint diff (r : MojDbRevisionSet) (props : list MojDbPropExtractor) (newObj oldObj : MojObject) : res MojObject :=
  match props with
  | [] => Ok newObj
  | i :: props' =>
      let? newVals := MojDbPropExtractor.vals i newObj [] in
      let? oldVals := MojDbPropExtractor.vals i oldObj [] in
      if bool_decide (newVals <> oldVals) then updateRev r newObj else diff r props' newObj oldObj
  end.

Definition update (r : MojDbRevisionSet) (newObj : MojObject) (oldObj : option MojObject) : res MojObject :=
  match oldObj with
  | None => updateRev r newObj
  | Some oldObj => diff r (m_props r) newObj oldObj
  end.
End icu.
End MojDbRevisionSet.
