(* ===== verification/ExtractorSpec.v ===== *)
(** * What extractors take

    [reaches] says which values a dotted path reaches in an object;
    [valsImpl_exact] that an extractor's keys are the keys of those, no more and no
    fewer, and that extracting them fails only where a value has no key. *)

From S2P Require Import Prelude Containers CoreUtil Number Object ObjectBuilder DataSerialization TokenSet ObjectSerialization Text DbKey Json JsonRoundTrip DbQuery DbQueryRoundTrip QueryPlan QueryPlanSpec QueryPlanSelect Extractor.

Import MojDbPropExtractor.
Import QueryPlanSpec (well, encs).
Import QueryPlanSelect (key_set, elem_of_key_set).

Abbreviation sorted_keys := (MojRbTreeBase.sorted (id : MojDbKey -> MojDbKey) lexcmp).

Lemma elem_of_key_put s k j : sorted_keys s -> j ∈ MojSet.put lexcmp s k <-> j = k \/ j ∈ s.
Proof.
  intros S. unfold MojSet.put. rewrite (MojRbTreeBase.elem_of_put id lexcmp k s j S). unfold id. rewrite lexcmp_eq.
  destruct (decide (j = k)); naive_solver.
Qed.

Lemma put_key_sorted s k : sorted_keys s -> sorted_keys (MojSet.put lexcmp s k).
Proof. apply (MojRbTreeBase.put_sorted id lexcmp). Qed.

(** [out] is [old] with the keys of [ks]. *)
Definition added (old ks out : KeySet) : Prop := sorted_keys out /\ forall k, k ∈ out <-> k ∈ old \/ k ∈ ks.

Lemma added_put old k : sorted_keys old -> added old [k] (MojSet.put lexcmp old k).
Proof. intros S. split; [by apply put_key_sorted|]. intros j. rewrite elem_of_key_put by done. set_solver. Qed.

Lemma added_put_set old ks : sorted_keys old -> added old ks (MojSet.put_set lexcmp old ks).
Proof.
  intros S. unfold MojSet.put_set, MojRbTreeBase.put_tree. destruct (MojDbKeyBuilder.elem_of_put_all ks old []) as [S2 _]; [done|].
  split; [done|]. intros k. destruct (MojDbKeyBuilder.elem_of_put_all ks old k S) as [_ E]. unfold MojSet.put in E.
  rewrite E. tauto.
Qed.

Section icu.
Context `{ICU}.

(** ** The values a path reaches

    [None] is the default value: a component that is missing, or asked of
    something that is not an object.  A wildcard reaches every property and no
    default; an array stands for its elements, once. *)
Inductive child (key : mstring) (obj : MojObject) : MojObject -> Prop :=
| child_any v : key = WildcardKey -> v ∈ children obj -> child key obj v
| child_element vec v : key <> WildcardKey -> MojObject.get obj key = Some (ArrayImpl vec) -> v ∈ vec -> child key obj v
| child_value v : key <> WildcardKey -> MojObject.get obj key = Some v ->
    MojObject.type v <> MojObject.TypeArray -> child key obj v.

Inductive reaches : list mstring -> MojObject -> option MojObject -> Prop :=
| reach_here obj : reaches [] obj (Some obj)
| reach_default key rest obj : key <> WildcardKey -> MojObject.get obj key = None -> reaches (key :: rest) obj None
| reach_child key rest obj v x : child key obj v -> reaches rest v x -> reaches (key :: rest) obj x.

(** The keys of what is reached. *)
Definition leaf_keys (e : MojDbPropExtractor) (x : option MojObject) : res KeySet :=
  match x with None => Ok (m_default e) | Some v => putVal e v [] end.

(** ** One value *)
Lemma token_added c u st b st' old : sorted_keys st.2 -> sorted_keys old -> MojDbTextTokenizer.token c u st b = Ok st' ->
  exists k, added st.2 k st'.2 /\
    exists out, MojDbTextTokenizer.token c u (st.1, old) b = Ok (st'.1, out) /\ added old k out.
Proof.
  destruct st as [pos ks], b as [p w]. simpl. intros S So E. unfold MojDbTextTokenizer.token in *.
  destruct w; [destruct pos as [tb|]; [|done]|].
  - apply res_bind_ok in E as (ks' & E & [= <-]). apply res_bind_ok in E as (key & Ek & [= <-]).
    exists [key]. simpl. split; [by apply added_put|]. eexists. rewrite Ek. split; [done|]. by apply added_put.
  - injection E as <-. exists []. simpl. split; [split; [done|set_solver]|]. eexists. split; [done|]. split; [done|set_solver].
Qed.

Lemma tokens_added c u bs : forall st st' old ks, added old st.2 ks -> sorted_keys st.2 ->
  res_fold (MojDbTextTokenizer.token c u) st bs = Ok st' -> sorted_keys st'.2 /\
  exists out, res_fold (MojDbTextTokenizer.token c u) (st.1, ks) bs = Ok (st'.1, out) /\ added old st'.2 out.
Proof.
  induction bs as [|b bs IH]; intros st st' old ks A S E; cbn [res_fold] in *.
  - injection E as <-. split; [done|]. by exists ks.
  - apply res_bind_ok in E as (st1 & E1 & E). destruct A as [Sk A].
    destruct (token_added c u st b st1 ks S Sk E1) as (k & [S1 A1] & out & E2 & S2 & A2).
    destruct (IH st1 st' old out) as (S' & out' & E3 & A3); [|done..|].
    + split; [done|]. intros j. rewrite A2, A, A1. tauto.
    + split; [done|]. exists out'. rewrite E2. done.
Qed.

Lemma putVal_added e v ks old : putVal e v [] = Ok ks -> sorted_keys old ->
  sorted_keys ks /\ exists out, putVal e v old = Ok out /\ added old ks out.
Proof.
  intros E S. assert (forall r : res MojDbKey, (let? key := r in Ok (MojSet.put lexcmp [] key)) = Ok ks ->
    sorted_keys ks /\ exists out, (let? key := r in Ok (MojSet.put lexcmp old key)) = Ok out /\ added old ks out) as One.
  { intros r Er. apply res_bind_ok in Er as (key & -> & [= <-]). split; [by repeat constructor|].
    eexists. split; [done|]. by apply added_put. }
  unfold putVal in *. destruct (m_tokenizer e) as [t|]; [|by apply One].
  destruct v as [| | | |s| | |]; try by apply One. clear One. unfold MojDbTextTokenizer.tokenize in *.
  apply res_bind_ok in E as (u & -> & E). cbn [res_bind]. destruct (ubrk_positions t u) as [bs|]; [|done].
  apply res_bind_ok in E as (st & E & [= <-]).
  destruct (tokens_added (m_collator e) u bs (None, []) st old old) as (S' & out & Eo & A); [|constructor|done|].
  - split; [done|set_solver].
  - split; [done|]. exists out. simpl in Eo. rewrite Eo. done.
Qed.

(** ** A whole path *)
Lemma fold_added {A} (f : KeySet -> A -> res KeySet) (keys : A -> MojDbKey -> Prop) l old :
  sorted_keys old ->
  (forall a s, a ∈ l -> sorted_keys s -> exists out, f s a = Ok out /\ sorted_keys out /\ forall k, k ∈ out <-> k ∈ s \/ keys a k) ->
  exists out, res_fold f old l = Ok out /\ sorted_keys out /\ forall k, k ∈ out <-> k ∈ old \/ exists a, a ∈ l /\ keys a k.
Proof.
  revert old. induction l as [|a l IH]; intros old S Hf; cbn [res_fold].
  - exists old. split; [done|]. split; [done|]. set_solver.
  - destruct (Hf a old) as (o1 & E1 & S1 & A1); [set_solver|done|]. rewrite E1. cbn [res_bind].
    destruct (IH o1 S1) as (out & E & S' & A'); [intros; apply Hf; set_solver|]. exists out. split; [done|]. split; [done|].
    intros k. rewrite A', A1. set_solver.
Qed.

Definition leaf_key (e : MojDbPropExtractor) (path : list mstring) (obj : MojObject) (k : MojDbKey) : Prop :=
  exists x ks, reaches path obj x /\ leaf_keys e x = Ok ks /\ k ∈ ks.

Lemma leaf_key_child e key rest obj k : ~ (key <> WildcardKey /\ MojObject.get obj key = None) ->
  leaf_key e (key :: rest) obj k <-> exists v, child key obj v /\ leaf_key e rest v k.
Proof.
  intros N. split.
  - intros (x & ks & R & E & K). inversion R; subst; [naive_solver|]. eexists. split; [done|]. by exists x, ks.
  - intros (v & C & x & ks & R & E & K). exists x, ks. split; [by eapply reach_child|done].
Qed.

Lemma child_get key obj w v : key <> WildcardKey -> MojObject.get obj key = Some w ->
  child key obj v <-> match w with ArrayImpl vec => v ∈ vec | _ => v = w end.
Proof.
  intros N E. split.
  - intros C. inversion C as [|vec ? ? E1|? ? E1 T]; subst; [done| |]; rewrite E in E1; injection E1 as ->; [done|].
    by destruct v.
  - destruct w; intros V; subst; try (by apply child_value); by eapply child_element.
Qed.

Definition readable (e : MojDbPropExtractor) (path : list mstring) (obj : MojObject) : Prop :=
  forall x, reaches path obj x -> exists ks, leaf_keys e x = Ok ks.

Lemma valsImpl_exact e : forall path obj old, path <> [] -> readable e path obj -> sorted_keys old ->
  exists out, valsImpl e path obj old = Ok out /\ sorted_keys out /\ forall k, k ∈ out <-> k ∈ old \/ leaf_key e path obj k.
Proof.
  induction path as [|key rest IH]; intros obj old N Rd S; [done|]. clear N.
  assert (forall v s, child key obj v -> sorted_keys s -> exists out,
    match rest with [] => putVal e v s | _ => valsImpl e rest v s end = Ok out /\ sorted_keys out /\
    forall k, k ∈ out <-> k ∈ s \/ leaf_key e rest v k) as One.
  { intros v s C Ss. assert (readable e rest v) as Rv by (intros x Hx; apply Rd; by eapply reach_child).
    destruct rest as [|key2 rest]; [|by apply IH].
    destruct (Rv (Some v)) as [ks E]; [constructor|]. simpl in E.
    destruct (putVal_added e v ks s E Ss) as (_ & out & Eo & So & A). exists out. split; [done|]. split; [done|].
    intros k. rewrite A. unfold leaf_key. split; (intros [K|K]; [by left|right]).
    - exists (Some v), ks. split; [constructor|done].
    - destruct K as (x & ks' & R & E' & K). inversion R; subst. simpl in E'. congruence. }
  cbn [valsImpl]. case_bool_decide as W.
  - destruct (fold_added (fun valsOut val => match rest with [] => putVal e val valsOut | _ => valsImpl e rest val valsOut end)
      (leaf_key e rest) (children obj) old S) as (out & E & So & A).
    { intros v s Hv Ss. apply One; [by apply child_any|done]. }
    exists out. split; [done|]. split; [done|]. intros k. rewrite A, leaf_key_child by naive_solver.
    split; (intros [K|(v & C & K)]; [by left|right]); exists v; (split; [|done]); [by apply child_any|].
    by inversion C.
  - destruct (MojObject.get obj key) as [w|] eqn:G.
    + assert (forall k, leaf_key e (key :: rest) obj k <-> exists v, child key obj v /\ leaf_key e rest v k) as LK
        by (intros k; apply leaf_key_child; naive_solver).
      setoid_rewrite LK. setoid_rewrite (child_get key obj w _ W G).
      pose proof (child_get key obj w w W G) as Cw.
      destruct w as [| | |vec| | | |]; try (destruct (One _ old (proj2 Cw eq_refl) S) as (out & E & So & A); exists out;
        (split; [done|]); (split; [done|]); intros k; rewrite A; split; [intros [K|K]; [by left|right; by eexists]|naive_solver]).
      destruct (fold_added (fun valsOut val => match rest with [] => putVal e val valsOut | _ => valsImpl e rest val valsOut end)
        (leaf_key e rest) vec old S) as (out & E & So & A).
      { intros v s Hv Ss. apply One; [|done]. by apply (child_get key obj (ArrayImpl vec) v W G). }
      exists out. split; [done|]. by split.
    + destruct (added_put_set old (m_default e) S) as [So A]. eexists. split; [done|]. split; [done|].
      intros k. rewrite A. split; (intros [K|K]; [by left|right]).
      * exists None, (m_default e). split; [by constructor|done].
      * destruct K as (x & ks & R & E & K). inversion R as [|? ? ? W' G'|? ? ? v ? C]; subst; [by injection E as <-|].
        inversion C; congruence.
Qed.

(** ** Values

    The keys of an extractor without a tokenizer are encodings of values: the
    default values, and the values reached, a string under a collation replaced by
    its sort key. *)
Import QueryPlanSelect (key_value).

Definition takes_prop (e : MojDbPropExtractor) (obj y : MojObject) : Prop :=
  exists x, reaches (m_prop e) obj x /\
    match x with
    | None => well y /\ Encoding.enc y ∈ m_default e
    | Some v => key_value (m_collator e) v = Ok y
    end.

Record sound_prop (e : MojDbPropExtractor) : Prop := {
  sound_path : m_prop e <> [];
  sound_plain : m_tokenizer e = None;
  sound_default : exists dvals, Forall well dvals /\ m_default e = key_set dvals
}.

(** Every value reached has a key: it fails for text that is not Unicode, under a
    collation. *)
Definition keyed_prop (e : MojDbPropExtractor) (obj : MojObject) : Prop :=
  forall v, reaches (m_prop e) obj (Some v) -> exists y, key_value (m_collator e) v = Ok y.

Lemma children_well obj v : well obj -> v ∈ children obj -> well v.
Proof.
  destruct obj as [| |m|v'| | | |]; simpl; try (by intros ? ?%elem_of_nil). intros [Ho Hd] (kv & -> & Hk)%list_elem_of_fmap.
  apply MojObject.ok_object in Ho as [_ Ho]. apply MojObjectBuilder.defined_object in Hd. rewrite Forall_forall in Ho, Hd.
  split; [by apply Ho|by apply Hd].
Qed.

Lemma get_well obj k v : well obj -> MojObject.get obj k = Some v -> well v.
Proof.
  intros W E. apply (children_well obj); [done|]. destruct obj as [| |m| | | | |]; try done. simpl in *. unfold MojMap.get in E.
  destruct (MojRbTreeBase.find fst MojStrCmp k m) as [[k' v']|] eqn:F; [|done]. injection E as ->.
  apply MojRbTreeBase.find_Some in F as [F _]. apply list_elem_of_fmap. by exists (k', v).
Qed.

Lemma child_well key obj v : well obj -> child key obj v -> well v.
Proof.
  intros W C. inversion C as [? _ Hv|vec ? _ E Hv|? _ E]; subst; [by eapply children_well| |by eapply get_well].
  destruct (get_well _ _ _ W E) as [Ho Hd]. apply MojObject.ok_array in Ho. apply MojObjectBuilder.defined_array in Hd.
  rewrite Forall_forall in Ho, Hd. split; auto.
Qed.

Lemma reaches_well path obj v : well obj -> reaches path obj (Some v) -> well v.
Proof.
  intros W R. remember (Some v) as x eqn:X. revert v X W.
  induction R as [obj| |key rest obj c x C R IH]; intros v' X W; [by injection X as ->|done|].
  eapply IH; [done|]. by eapply child_well.
Qed.

Context `{!ICULaws}.

Lemma plain_keys e x : sound_prop e -> match x with Some v => well v | None => True end ->
  (forall v, x = Some v -> exists y, key_value (m_collator e) v = Ok y) ->
  exists ks, leaf_keys e x = Ok ks /\ forall k, k ∈ ks <-> exists y, well y /\ k = Encoding.enc y /\
    match x with None => Encoding.enc y ∈ m_default e | Some v => key_value (m_collator e) v = Ok y end.
Proof.
  intros [_ T (dv & Wd & D)] W Hk. destruct x as [v|]; simpl.
  - destruct (Hk v eq_refl) as [y Ey]. destruct (QueryPlanSelect.key_value_well _ _ _ W Ey) as [Wy A].
    exists [Encoding.enc y]. unfold putVal. rewrite T, A. split; [done|]. intros k. rewrite list_elem_of_singleton.
    split; [intros ->; by exists y|]. intros (y' & _ & -> & E). congruence.
  - exists (m_default e). split; [done|]. intros k. rewrite D, elem_of_key_set. rewrite Forall_forall in Wd. split.
    + intros (y & Hy & ->). exists y. split; [by apply Wd|]. split; [done|]. apply elem_of_key_set. by exists y.
    + intros (y & _ & -> & Hy). by apply elem_of_key_set in Hy.
Qed.

Lemma enc_inj y y' : well y -> well y' -> Encoding.enc y = Encoding.enc y' -> y = y'.
Proof.
  intros W W' E. assert ([y] = [y']) as [= ->]; [|done]. apply QueryPlanSelect.encs_inj; [by apply Forall_singleton..|done|].
  by rewrite !QueryPlanSpec.encs_one.
Qed.

(** Values that were taken have keys. *)
Lemma valsImpl_ran e v : forall path obj old out, path <> [] -> valsImpl e path obj old = Ok out -> reaches path obj (Some v) ->
  exists s1 s2, putVal e v s1 = Ok s2.
Proof.
  induction path as [|key rest IH]; intros obj old out N E R; [done|]. clear N.
  inversion R as [|? ? ? W G|? ? ? c ? C R']; subst.
  assert (forall s s', match rest with [] => putVal e c s | _ => valsImpl e rest c s end = Ok s' ->
    exists s1 s2, putVal e v s1 = Ok s2) as One.
  { intros s s' Es. destruct rest as [|k2 rest]; [inversion R'; subst; by exists s, s'|by eapply IH]. }
  cbn [valsImpl] in E. inversion C as [? W Hc|vec ? W G Hc|? W G T]; subst.
  - rewrite bool_decide_true in E by done. destruct (res_fold_ran _ _ _ _ _ E Hc) as (s1 & s2 & F). by apply One in F.
  - rewrite bool_decide_false, G in E by done. destruct (res_fold_ran _ _ _ _ _ E Hc) as (s1 & s2 & F). by apply One in F.
  - rewrite bool_decide_false, G in E by done. destruct c; try done; by apply One in E.
Qed.

Lemma putVal_ran e v s s' : m_tokenizer e = None -> putVal e v s = Ok s' -> exists y, key_value (m_collator e) v = Ok y.
Proof.
  intros T. unfold putVal. rewrite T. intros (k & E & _)%res_bind_ok. unfold MojDbKey.assign, key_value in *.
  destruct (m_collator e) as [c|]; [|by eexists]. destruct v; try by eexists.
  unfold MojDbTextCollator.sortKey in E. apply res_bind_ok in E as (cs & -> & _). by eexists.
Qed.

Lemma vals_ran e obj old out : sound_prop e -> vals e obj old = Ok out -> keyed_prop e obj.
Proof.
  intros [P T _] E v R. destruct (valsImpl_ran e v _ _ _ _ P E R) as (s1 & s2 & F). by eapply putVal_ran.
Qed.

(** A set of keys of values is the set of those values. *)
Lemma values_of_keys out (P : MojObject -> Prop) : sorted_keys out -> (forall y, P y -> well y) ->
  (forall k, k ∈ out <-> exists y, P y /\ k = Encoding.enc y) ->
  exists L, out = key_set L /\ Forall well L /\ forall y, y ∈ L <-> P y.
Proof.
  intros S PW M. assert (exists L, out = map Encoding.enc L /\ Forall P L) as (L & E & F).
  { clear S. assert (forall k, k ∈ out -> exists y, P y /\ k = Encoding.enc y) as H' by naive_solver. clear M.
    induction out as [|k out IH]; [by exists []|]. destruct (H' k) as (y & Hy & ->); [set_solver|].
    destruct IH as (L & -> & F); [set_solver|]. exists (y :: L). split; [done|]. by constructor. }
  rewrite Forall_forall in F. assert (Forall well L) as W by (apply Forall_forall; auto).
  assert (forall y, y ∈ L <-> P y) as Q.
  { intros y. split; [apply F|]. intros Hy. assert (Encoding.enc y ∈ out) as K by (apply M; by exists y).
    rewrite E in K. apply list_elem_of_fmap in K as (y' & Ey & Hy'). apply enc_inj in Ey as ->; auto. }
  exists L. split; [|done]. apply QueryPlanSelect.sorted_ext; [done| |].
  - unfold key_set. apply (MojDbKeyBuilder.elem_of_put_all _ [] []). constructor.
  - intros k. rewrite M, elem_of_key_set. by setoid_rewrite Q.
Qed.

Lemma prop_keys e obj old : sound_prop e -> well obj -> keyed_prop e obj -> sorted_keys old ->
  exists out, vals e obj old = Ok out /\ sorted_keys out /\
    forall k, k ∈ out <-> k ∈ old \/ exists y, well y /\ takes_prop e obj y /\ k = Encoding.enc y.
Proof.
  intros Se W Hk S. assert (forall x, reaches (m_prop e) obj x -> exists ks, leaf_keys e x = Ok ks /\
    forall k, k ∈ ks <-> exists y, well y /\ k = Encoding.enc y /\
      match x with None => Encoding.enc y ∈ m_default e | Some v => key_value (m_collator e) v = Ok y end) as Lf.
  { intros x R. apply plain_keys; [done| |].
    - destruct x; [|done]. by eapply reaches_well.
    - intros v ->. by apply Hk. }
  destruct (valsImpl_exact e (m_prop e) obj old) as (out & E & So & A); [apply Se| |done|].
  { intros x R. destruct (Lf x R) as (ks & E & _). by exists ks. }
  exists out. split; [done|]. split; [done|]. intros k. rewrite A. apply or_iff_compat_l. split.
  - intros (x & ks & R & E' & K). destruct (Lf x R) as (ks' & E2 & M). rewrite E' in E2. injection E2 as <-.
    apply M in K as (y & Wy & -> & Hy). exists y. split; [done|]. split; [|done]. exists x. split; [done|]. by destruct x.
  - intros (y & Wy & (x & R & Hy) & ->). destruct (Lf x R) as (ks & E2 & M). exists x, ks. split; [done|]. split; [done|].
    apply M. exists y. split; [done|]. split; [done|]. by destruct x as [|]; [|apply Hy].
Qed.

(** *** Either extractor *)
Import Extractor (Extractor, PropExtractor, MultiExtractor).

Definition parts (e : Extractor) : list MojDbPropExtractor :=
  match e with PropExtractor e => [e] | MultiExtractor e => MojDbMultiExtractor.m_extractors e end.

Definition sound (e : Extractor) : Prop := Forall sound_prop (parts e).
Definition keyed (e : Extractor) (obj : MojObject) : Prop := Forall (fun e => keyed_prop e obj) (parts e).
Definition takes (e : Extractor) (obj y : MojObject) : Prop := well y /\ exists p, p ∈ parts e /\ takes_prop p obj y.

Lemma vals_keyed e obj old out : sound e -> Extractor.vals e obj old = Ok out -> keyed e obj.
Proof.
  unfold sound, keyed. destruct e as [e|e]; simpl; intros S E.
  - rewrite Forall_singleton in S |- *. by eapply vals_ran.
  - rewrite Forall_forall in *. intros p Hp. destruct (res_fold_ran _ _ _ _ _ E Hp) as (s1 & s2 & F).
    eapply vals_ran; [by apply S|exact F].
Qed.

Lemma vals_takes e obj : sound e -> well obj -> keyed e obj ->
  exists L, Extractor.vals e obj [] = Ok (key_set L) /\ Forall well L /\ forall y, y ∈ L <-> takes e obj y.
Proof.
  intros Se W Hk. assert (exists out, Extractor.vals e obj [] = Ok out /\ sorted_keys out /\
    forall k, k ∈ out <-> exists y, takes e obj y /\ k = Encoding.enc y) as (out & E & S & M).
  { destruct e as [e|e]; unfold sound, keyed in *; simpl in *.
    - rewrite Forall_singleton in Se, Hk. destruct (prop_keys e obj [] Se W Hk) as (out & E & S & M); [constructor|].
      exists out. split; [done|]. split; [done|]. intros k. rewrite M. unfold takes. simpl. set_solver.
    - rewrite Forall_forall in Se, Hk.
      destruct (fold_added (fun valsOut i => vals i obj valsOut)
        (fun p k => exists y, well y /\ takes_prop p obj y /\ k = Encoding.enc y)
        (MojDbMultiExtractor.m_extractors e) []) as (out & E & S & M); [constructor| |].
      + intros p s Hp Ss. destruct (prop_keys p obj s (Se p Hp) W (Hk p Hp) Ss) as (out & E & S & M). by exists out.
      + exists out. split; [done|]. split; [done|]. intros k. rewrite M. unfold takes. simpl. set_solver. }
  destruct (values_of_keys out (takes e obj) S) as (L & -> & F & Q); [by intros ? []|done|]. by exists L.
Qed.
End icu.

(** Without a collation every object has its keys. *)
Lemma keyed_plain `{ICU} e obj : m_collator e = None -> keyed_prop e obj.
Proof. intros C v _. exists v. by rewrite C. Qed.
