(* ===== verification/AggregateFilter.v ===== *)
(** * The aggregates of a query: src/src/db/MojDbAggregateFilter.cpp,
    src/inc/db/MojDbAggregateFilter.h

    A query that aggregates answers with one object per group: counts, sums,
    averages, least and greatest values of properties.  Floating point is an
    argument. *)

From S2P Require Import Prelude Effects Containers CoreUtil Number Object ObjectBuilder DataSerialization TokenSet ObjectSerialization Text DbKey Json JsonRoundTrip DbQuery ObjectItem Extractor.
Import MojDbQuery (OpCount, OpMin, OpMax, OpSum, OpAvg, OpFirst, OpLast, MojDbQuery, AggregatePropInfo).

(** The C++ type [double]; [of_decimal] and [to_decimal] are [MojDecimal]'s
    [floatValue] and its constructor from a [double], on representations. *)
Class Doubles := {
  double : Type;
  double_of_int : Z -> double;
  of_decimal : Z -> double;
  to_decimal : double -> Z;
  double_add : double -> double -> double;
  double_div : double -> double -> double
}.

Module MojDbAggregateFilter.
Section doubles.
Context `{ICU} `{Doubles}.
(** How the C library reads a string as a number, for [decimalValue]. *)
Context (strToDecimal : mstring -> Z).

(** [m_avg] has no value until it is assigned. *)
Record AggregateInfo := {
  m_op : Z;
  m_count : Z;
  m_min : MojObject;
  m_max : MojObject;
  m_sum : Z; (* the representation of a [MojDecimal] *)
  m_avg : option double;
  m_first : MojObject;
  m_last : MojObject
}.

Definition with_count (i : AggregateInfo) (c : Z) : AggregateInfo :=
  {| m_op := m_op i; m_count := c; m_min := m_min i; m_max := m_max i; m_sum := m_sum i; m_avg := m_avg i;
     m_first := m_first i; m_last := m_last i |}.
Definition with_min (i : AggregateInfo) (val obj : MojObject) : AggregateInfo :=
  {| m_op := m_op i; m_count := m_count i; m_min := val; m_max := m_max i; m_sum := m_sum i; m_avg := m_avg i;
     m_first := obj; m_last := m_last i |}.
Definition with_max (i : AggregateInfo) (val obj : MojObject) : AggregateInfo :=
  {| m_op := m_op i; m_count := m_count i; m_min := m_min i; m_max := val; m_sum := m_sum i; m_avg := m_avg i;
     m_first := m_first i; m_last := obj |}.
Definition with_sum (i : AggregateInfo) (sum : Z) (avg : option double) : AggregateInfo :=
  {| m_op := m_op i; m_count := m_count i; m_min := m_min i; m_max := m_max i; m_sum := sum; m_avg := avg;
     m_first := m_first i; m_last := m_last i |}.

Abbreviation AggregateInfoMap := (list (mstring * AggregateInfo)).
Abbreviation GroupAggregateMap := (list (MojObject * AggregateInfoMap)).

Record MojDbAggregateFilter := {
  m_aggregateProps : list (mstring * AggregatePropInfo);
  m_groupByProps : list mstring;
  m_groupAggregateMap : GroupAggregateMap;
  m_desc : bool;
  m_locale : mstring (* of the query, that of its extractors *)
}.

Abbreviation M := (st MojDbAggregateFilter).

Definition init (query : MojDbQuery) (locale : mstring) : MojDbAggregateFilter :=
  {| m_aggregateProps := MojDbQuery.m_aggregateMap query; m_groupByProps := MojDbQuery.m_groupByProps query;
     m_groupAggregateMap := []; m_desc := MojDbQuery.m_desc query; m_locale := locale |}.

Definition count (f : MojDbAggregateFilter) : nat := length (m_groupAggregateMap f).

Definition with_groups (f : MojDbAggregateFilter) (g : GroupAggregateMap) : MojDbAggregateFilter :=
  {| m_aggregateProps := m_aggregateProps f; m_groupByProps := m_groupByProps f; m_groupAggregateMap := g;
     m_desc := m_desc f; m_locale := m_locale f |}.

Definition has_op (op flag : Z) : bool := negb (Z.land op flag =? 0).
Definition is_number (o : MojObject) : bool :=
  match o with IntImpl _ | DecimalImpl _ => true | _ => false end.

(** [initAggregateInfo]: what it leaves, and whether it fails. *)
Definition initAggregateInfo (obj val : MojObject) (op : Z) : AggregateInfo * res unit :=
  let info sum avg := {| m_op := op; m_count := 1; m_min := val; m_max := val; m_sum := sum; m_avg := avg;
                         m_first := obj; m_last := obj |} in
  if has_op op OpSum || has_op op OpAvg then
    match val with
    | IntImpl v => (info (MojDecimal.assign v 0) (Some (double_of_int v)), Ok tt)
    | DecimalImpl r => (info r (Some (of_decimal r)), Ok tt)
    | _ => (info 0 None, Err MojErrDbInvalidAggregateType)
    end
  else (info 0 None, Ok tt).

(** [getValue]: the last value that was there is left in [valOut] when a part is
    missing. *)
Fixpoint getParts (parts : list mstring) (obj valOut : MojObject) (found : bool) : MojObject * bool :=
  match parts with
  | [] => (valOut, found)
  | i :: parts' =>
      match MojObject.get obj i with
      | None => (valOut, false)
      | Some valOut => getParts parts' valOut valOut true
      end
  end.

Definition getValue (key : mstring) (obj : MojObject) : MojObject * bool :=
  getParts (MojString.split key (chr ".")) obj UndefinedImpl false.

(** The extractor a query has made for a property. *)
Definition extractor (locale : mstring) (e : mstring * option MojDbCollationStrength) : res MojDbPropExtractor.MojDbPropExtractor :=
  let x := MojDbPropExtractor.prop MojDbPropExtractor.init e.1 in
  match e.2 with
  | None => Ok x
  | Some collation =>
      let? c := MojDbTextCollator.init locale collation in Ok (MojDbPropExtractor.collator x (Some c))
  end.

Definition compareKey (locale : mstring) (e : option (mstring * option MojDbCollationStrength)) (obj1 obj2 : MojObject) : res Z :=
  match e with
  | None => Err AssertFailed
  | Some e =>
      let? x := extractor locale e in
      let? key1 := MojDbPropExtractor.vals x obj1 [] in
      let? key2 := MojDbPropExtractor.vals x obj2 [] in
      Ok (MojSet.compare lexcmp key1 key2)
  end.

(** The steps of [aggregateImpl] for a property that has been seen in the group. *)
Definition addCount (op : Z) (i : AggregateInfo) : AggregateInfo :=
  if has_op op OpCount || has_op op OpAvg then with_count i (to_uint 64 (m_count i + 1)) else i.

Definition addMin (locale : mstring) (p : AggregatePropInfo) (obj val : MojObject) (i : AggregateInfo) : res AggregateInfo :=
  let op := MojDbQuery.m_op p in
  if has_op op OpMin || has_op op OpFirst then
    let? compareResult := compareKey locale (MojDbQuery.m_extractor p) obj (m_first i) in
    Ok (if compareResult <? 0 then with_min i val obj else i)
  else Ok i.

Definition addMax (locale : mstring) (p : AggregatePropInfo) (obj val : MojObject) (i : AggregateInfo) : res AggregateInfo :=
  let op := MojDbQuery.m_op p in
  if has_op op OpMax || has_op op OpLast then
    let? compareResult := compareKey locale (MojDbQuery.m_extractor p) obj (m_last i) in
    Ok (if 0 <? compareResult then with_max i val obj else i)
  else Ok i.

(** The sum of integers is kept in 64 bits, with six decimals. *)
Definition addSum (op : Z) (val : MojObject) (i : AggregateInfo) : res AggregateInfo :=
  if has_op op OpSum || has_op op OpAvg then
    if negb (is_number val) then Err MojErrDbInvalidAggregateType
    else
      let sum := match val with
                 | IntImpl v => if MojDecimal.fraction (m_sum i) =? 0
                                then MojDecimal.assign (to_int 64 (MojDecimal.magnitude (m_sum i) + v)) 0
                                else to_decimal (double_add (of_decimal (m_sum i)) (of_decimal (MojObject.decimalValue strToDecimal val)))
                 | _ => to_decimal (double_add (of_decimal (m_sum i)) (of_decimal (MojObject.decimalValue strToDecimal val)))
                 end in
      Ok (with_sum i sum (Some (double_div (of_decimal sum) (double_of_int (m_count i)))))
  else Ok i.

(** The info of the group is changed in place, so that the steps before an error stay. *)
Definition updateInfo (locale : mstring) (p : AggregatePropInfo) (obj val : MojObject) : st AggregateInfo unit :=
  let op := MojDbQuery.m_op p in
  let! _ := modify (addCount op) in
  let! i := get in let! i := lift (addMin locale p obj val i) in let! _ := modify (fun _ => i) in
  let! i := get in let! i := lift (addMax locale p obj val i) in let! _ := modify (fun _ => i) in
  let! i := get in let! i := lift (addSum op val i) in modify (fun _ => i).

(** One property of an object; an error of [initAggregateInfo] is not looked at. *)
Definition addProp (locale : mstring) (hasAggregateInfoMap : bool) (obj : MojObject) (i : mstring * AggregatePropInfo)
    : st AggregateInfoMap unit :=
  let (val, found) := getValue i.1 obj in
  if negb found then ret tt
  else
    let aggregateInfo := (initAggregateInfo obj val (MojDbQuery.m_op i.2)).1 in
    if negb hasAggregateInfoMap then modify (fun m => MojMap.put MojStrCmp m i.1 aggregateInfo)
    else
      let! m := get in
      match MojMap.get MojStrCmp m i.1 with
      | None => modify (fun m => MojMap.put MojStrCmp m i.1 aggregateInfo)
      | Some info =>
          let (info, r) := updateInfo locale i.2 obj val info in
          let! _ := modify (fun m => MojMap.put MojStrCmp m i.1 info) in lift r
      end.

Fixpoint addProps (locale : mstring) (has : bool) (obj : MojObject) (props : list (mstring * AggregatePropInfo))
    : st AggregateInfoMap unit :=
  match props with
  | [] => ret tt
  | i :: props' => let! _ := addProp locale has obj i in addProps locale has obj props'
  end.

(** A new group is put when all its properties are there. *)
Definition aggregateImpl (obj groupBy : MojObject) : M unit :=
  let! f := get in
  match MojMap.get MojObject.compare (m_groupAggregateMap f) groupBy with
  | Some infos =>
      let (infos, r) := addProps (m_locale f) true obj (m_aggregateProps f) infos in
      let! _ := modify (fun f => with_groups f (MojMap.put MojObject.compare (m_groupAggregateMap f) groupBy infos)) in
      lift r
  | None =>
      let (infos, r) := addProps (m_locale f) false obj (m_aggregateProps f) [] in
      let! _ := lift r in
      modify (fun f => with_groups f (MojMap.put MojObject.compare (m_groupAggregateMap f) groupBy infos))
  end.

Fixpoint aggregateGroups (obj : MojObject) (groups : list MojObject) : M unit :=
  match groups with
  | [] => ret tt
  | i :: groups' => let! _ := aggregateImpl obj i in aggregateGroups obj groups'
  end.

Definition aggregate (obj : MojObject) : M unit :=
  let! f := get in
  let (groupBy, found) := match m_groupByProps f with
                          | groupStr :: _ => getValue groupStr obj
                          | [] => (UndefinedImpl, false)
                          end in
  match found, groupBy with
  | true, ArrayImpl vec => aggregateGroups obj vec
  | _, _ => aggregateImpl obj groupBy
  end.

(** ** The answer *)
Definition RevKey := _T "_rev".

Definition strip (o : MojObject) : MojObject := (MojObject.del (MojObject.del o IdKey).1 RevKey).1.

Definition infoObject (i : AggregateInfo) : res MojObject :=
  let put_if b k v o := if b : bool then MojObject.put o k v else o in
  let op := m_op i in
  let o := UndefinedImpl in
  let o := put_if (has_op op OpCount) MojDbQuery.CountKey (IntImpl (to_int 64 (m_count i))) o in
  let o := put_if (has_op op OpMin) MojDbQuery.MinKey (m_min i) o in
  let o := put_if (has_op op OpMax) MojDbQuery.MaxKey (m_max i) o in
  let o := put_if (has_op op OpFirst) MojDbQuery.FirstKey (strip (m_first i)) o in
  let o := put_if (has_op op OpLast) MojDbQuery.LastKey (strip (m_last i)) o in
  let o := put_if (has_op op OpSum) MojDbQuery.SumKey
             (if MojDecimal.fraction (m_sum i) =? 0 then IntImpl (MojDecimal.magnitude (m_sum i)) else DecimalImpl (m_sum i)) o in
  if has_op op OpAvg then
    match m_avg i with
    | None => Err AssertFailed (* a value that was never assigned *)
    | Some avg => Ok (MojObject.put o MojDbQuery.AvgKey (DecimalImpl (to_decimal avg)))
    end
  else Ok o.

Definition groupObject (f : MojDbAggregateFilter) (g : MojObject * AggregateInfoMap) : res MojObject :=
  let resultObj := match m_groupByProps f with
                   | (_ :: _) as groupStr :: _ =>
                       MojObject.put UndefinedImpl MojDbQuery.GroupByKey (MojObject.put UndefinedImpl groupStr g.1)
                   | _ => UndefinedImpl
                   end in
  res_fold (fun o i => let? a := infoObject i.2 in Ok (MojObject.put o i.1 a)) resultObj g.2.

Definition visit {S} `{Visitor S} (f : MojDbAggregateFilter) (visitor : S) : res S :=
  if m_desc f then
    let? objVec := res_fold (fun v g => let? o := groupObject f g in Ok (v ++ [o])) [] (m_groupAggregateMap f) in
    res_fold (fun v o => MojObject.visit o v) visitor (rev objVec)
  else res_fold (fun v g => let? o := groupObject f g in MojObject.visit o v) visitor (m_groupAggregateMap f).
End doubles.
End MojDbAggregateFilter.
