(* ===== verification/AggregateSpec.v ===== *)
(** * Aggregates are computed group by group

    After any sequence of objects every group has, for every property, what
    aggregating the occurrences of the property in that group alone gives. *)

From S2P Require Import Prelude Effects Containers CoreUtil Number Object ObjectBuilder DataSerialization TokenSet ObjectSerialization Text DbKey Json JsonRoundTrip DbQuery ObjectItem Extractor AggregateFilter.
Import MojDbQuery (OpCount, OpMin, OpMax, OpSum, OpAvg, OpFirst, OpLast, MojDbQuery, AggregatePropInfo).
Import MojDbAggregateFilter.

Lemma omap_at {A B} (g : A -> option B) x l :
  omap g (x :: l) = match g x with Some y => y :: omap g l | None => omap g l end.
Proof. done. Qed.

Module AggregateSpec.
Section doubles.
Context `{ICU} `{Doubles} (strToDecimal : mstring -> Z).

(** All objects of a result, one after the other. *)
Fixpoint aggregateAll (objs : list MojObject) : st MojDbAggregateFilter unit :=
  match objs with
  | [] => ret tt
  | obj :: objs' => let! _ := aggregate strToDecimal obj in aggregateAll objs'
  end.

(** The groups an object belongs to. *)
Definition groupKeys (groupByProps : list mstring) (obj : MojObject) : list MojObject :=
  match groupByProps with
  | groupStr :: _ => match getValue groupStr obj with
                     | (ArrayImpl vec, true) => vec
                     | (v, _) => [v]
                     end
  | [] => [UndefinedImpl]
  end.

(** The objects with the groups they are counted in, in order. *)
Definition memberships (groupByProps : list mstring) (objs : list MojObject) : list (MojObject * MojObject) :=
  flat_map (fun obj => map (pair obj) (groupKeys groupByProps obj)) objs.

(** The occurrences of a property in a group. *)
Definition occurrences (name : mstring) (g : MojObject) (ms : list (MojObject * MojObject)) : list (MojObject * MojObject) :=
  omap (fun m => if MojObject.compare m.2 g =? 0
                 then match getValue name m.1 with (val, true) => Some (m.1, val) | _ => None end
                 else None) ms.

(** Aggregating the occurrences: the first makes the info, the others update it. *)
Definition step (locale : mstring) (p : AggregatePropInfo) (i : AggregateInfo) (o : MojObject * MojObject) : AggregateInfo :=
  (updateInfo strToDecimal locale p o.1 o.2 i).1.

Definition foldInfo (locale : mstring) (p : AggregatePropInfo) (os : list (MojObject * MojObject)) : option AggregateInfo :=
  match os with
  | [] => None
  | o :: os' => Some (fold_left (step locale p) os' (initAggregateInfo o.1 o.2 (MojDbQuery.m_op p)).1)
  end.

Lemma foldInfo_snoc locale p os o : foldInfo locale p (os ++ [o]) =
  Some (match foldInfo locale p os with
        | Some i => step locale p i o
        | None => (initAggregateInfo o.1 o.2 (MojDbQuery.m_op p)).1
        end).
Proof. destruct os as [|o1 os]; [done|]. cbn [foldInfo app]. by rewrite fold_left_app. Qed.

(** ** Updates that succeed *)

(** Every pair of objects can be compared by the property's extractor, and what is
    summed is a number. *)
Definition prop_ok (locale : mstring) (i : mstring * AggregatePropInfo) (objs : list MojObject) : Prop :=
  ((has_op (MojDbQuery.m_op i.2) OpMin || has_op (MojDbQuery.m_op i.2) OpFirst) ||
   (has_op (MojDbQuery.m_op i.2) OpMax || has_op (MojDbQuery.m_op i.2) OpLast) = true ->
   forall o1 o2, o1 ∈ objs -> o2 ∈ objs -> exists c, compareKey locale (MojDbQuery.m_extractor i.2) o1 o2 = Ok c) /\
  (has_op (MojDbQuery.m_op i.2) OpSum || has_op (MojDbQuery.m_op i.2) OpAvg = true ->
   forall o val, o ∈ objs -> getValue i.1 o = (val, true) -> is_number val = true).

Definition info_ok (objs : list MojObject) (i : AggregateInfo) : Prop := m_first i ∈ objs /\ m_last i ∈ objs.

Lemma initAggregateInfo_ok objs obj val op : obj ∈ objs -> info_ok objs (initAggregateInfo obj val op).1.
Proof. intros Ho. unfold initAggregateInfo. destruct (_ || _); [destruct val|]; by split. Qed.

Lemma updateInfo_ok locale i objs obj val info : prop_ok locale i objs -> obj ∈ objs ->
  getValue i.1 obj = (val, true) -> info_ok objs info ->
  exists info', updateInfo strToDecimal locale i.2 obj val info = (info', Ok tt) /\ info_ok objs info'.
Proof.
  intros [Hcmp Hnum] Ho Hv [Hf Hl]. unfold updateInfo. unfold bind, modify, get, lift.
  set (op := MojDbQuery.m_op i.2) in *.
  assert (info_ok objs (addCount op info)) as [H1 H2].
  { unfold addCount. destruct (has_op op OpCount || has_op op OpAvg); by split. }
  generalize dependent (addCount op info). clear Hf Hl info. intros info Hf Hl.
  assert (exists info2, addMin locale i.2 obj val info = Ok info2 /\ info_ok objs info2) as (info2 & -> & [Hf2 Hl2]).
  { unfold addMin. cbv zeta. fold op. destruct (has_op op OpMin || has_op op OpFirst) eqn:E; [|by exists info].
    destruct (Hcmp eq_refl obj (m_first info) Ho Hf) as [c ->]. cbn [res_bind].
    destruct (c <? 0); eexists; (split; [done|]); [by split|by split]. }
  assert (exists info3, addMax locale i.2 obj val info2 = Ok info3 /\ info_ok objs info3) as (info3 & -> & [Hf3 Hl3]).
  { unfold addMax. cbv zeta. fold op. destruct (has_op op OpMax || has_op op OpLast) eqn:E; [|by exists info2].
    pose proof Hcmp as Hc. rewrite orb_true_r in Hc. destruct (Hc eq_refl obj (m_last info2) Ho Hl2) as [c ->]. cbn [res_bind].
    destruct (0 <? c); eexists; (split; [done|]); [by split|by split]. }
  unfold addSum. destruct (has_op op OpSum || has_op op OpAvg) eqn:E; [|by exists info3].
  rewrite (Hnum eq_refl obj val Ho Hv). cbn [negb]. eexists. split; [done|]. by split.
Qed.

(** ** One object in one group *)
Definition sorted_infos (m : list (mstring * AggregateInfo)) : Prop := MojRbTreeBase.sorted fst MojStrCmp m.

(** What becomes of a property's info. *)
Definition next (locale : mstring) (i : mstring * AggregatePropInfo) (obj : MojObject) (old : option AggregateInfo) : option AggregateInfo :=
  match getValue i.1 obj with
  | (val, true) => Some (match old with
                         | Some info => step locale i.2 info (obj, val)
                         | None => (initAggregateInfo obj val (MojDbQuery.m_op i.2)).1
                         end)
  | _ => old
  end.

Definition olds_ok (objs : list MojObject) (m : list (mstring * AggregateInfo)) : Prop :=
  forall k info, MojMap.get MojStrCmp m k = Some info -> info_ok objs info.

Lemma get_put_same m k v : sorted_infos m -> MojMap.get MojStrCmp (MojMap.put MojStrCmp m k v) k = Some v.
Proof. intros Hs. rewrite (MojMap.map_get_put MojStrCmp) by exact Hs. by rewrite (comp_refl MojStrCmp). Qed.

Lemma put_infos objs m k info : sorted_infos m -> olds_ok objs m -> info_ok objs info ->
  sorted_infos (MojMap.put MojStrCmp m k info) /\ olds_ok objs (MojMap.put MojStrCmp m k info) /\
  forall k', MojStrCmp k k' <> 0 -> MojMap.get MojStrCmp (MojMap.put MojStrCmp m k info) k' = MojMap.get MojStrCmp m k'.
Proof.
  intros Hs Ho Hi. split; [by apply (MojMap.map_put_sorted MojStrCmp)|]. split.
  - intros k' info'. rewrite (MojMap.map_get_put MojStrCmp) by exact Hs.
    destruct (_ =? 0); [by intros [= <-]|apply Ho].
  - intros k' Hne. rewrite (MojMap.map_get_put MojStrCmp) by exact Hs. by rewrite (proj2 (Z.eqb_neq _ _)).
Qed.

Lemma addProp_ok locale has objs obj i m : obj ∈ objs -> prop_ok locale i objs -> sorted_infos m -> olds_ok objs m ->
  (has = false -> MojMap.get MojStrCmp m i.1 = None) ->
  exists m', addProp strToDecimal locale has obj i m = (m', Ok tt) /\ sorted_infos m' /\ olds_ok objs m' /\
    MojMap.get MojStrCmp m' i.1 = next locale i obj (MojMap.get MojStrCmp m i.1) /\
    forall k, MojStrCmp i.1 k <> 0 -> MojMap.get MojStrCmp m' k = MojMap.get MojStrCmp m k.
Proof.
  intros Ho Hp Hs Hold Hnew. unfold addProp, next. destruct (getValue i.1 obj) as [val found] eqn:Ev.
  destruct found; cbn [negb]; [|by exists m].
  assert (forall info, info_ok objs info ->
    exists m', MojMap.put MojStrCmp m i.1 info = m' /\ sorted_infos m' /\ olds_ok objs m' /\
      MojMap.get MojStrCmp m' i.1 = Some info /\
      forall k, MojStrCmp i.1 k <> 0 -> MojMap.get MojStrCmp m' k = MojMap.get MojStrCmp m k) as Hput.
  { intros info Hi. destruct (put_infos objs m i.1 info Hs Hold Hi) as (H1 & H2 & H3).
    eexists. split; [done|]. split; [done|]. split; [done|]. split; [by apply get_put_same|done]. }
  destruct has; cbn [negb].
  - unfold bind, get, modify, lift.
    destruct (MojMap.get MojStrCmp m i.1) as [info|] eqn:Eg.
    + destruct (updateInfo_ok locale i objs obj val info Hp Ho Ev (Hold _ _ Eg)) as (info' & Eu & Hi').
      unfold step. cbn [fst snd]. rewrite Eu. cbn [fst].
      destruct (Hput info' Hi') as (m' & <- & H1 & H2 & H3 & H4). eexists. by split.
    + destruct (Hput _ (initAggregateInfo_ok objs obj val (MojDbQuery.m_op i.2) Ho)) as (m' & <- & H1 & H2 & H3 & H4).
      eexists. by split.
  - rewrite Hnew by done.
    destruct (Hput _ (initAggregateInfo_ok objs obj val (MojDbQuery.m_op i.2) Ho)) as (m' & <- & H1 & H2 & H3 & H4).
    unfold modify. eexists. by split.
Qed.

Lemma addProps_ok locale has objs obj props : obj ∈ objs -> MojRbTreeBase.sorted fst MojStrCmp props ->
  Forall (fun i => prop_ok locale i objs) props -> forall m, sorted_infos m -> olds_ok objs m ->
  (has = false -> forall i, i ∈ props -> MojMap.get MojStrCmp m i.1 = None) ->
  exists m', addProps strToDecimal locale has obj props m = (m', Ok tt) /\ sorted_infos m' /\ olds_ok objs m' /\
    (forall i, i ∈ props -> MojMap.get MojStrCmp m' i.1 = next locale i obj (MojMap.get MojStrCmp m i.1)) /\
    forall k, (forall i, i ∈ props -> MojStrCmp i.1 k <> 0) -> MojMap.get MojStrCmp m' k = MojMap.get MojStrCmp m k.
Proof.
  intros Ho Hsp. induction Hsp as [|i props Hsp IH Hlt]; intros Hp m Hs Hold Hnew.
  { exists m. split; [done|]. split; [done|]. split; [done|]. split; [by intros i ?%elem_of_nil|done]. }
  apply Forall_cons in Hp as [Hi Hp]. cbn [addProps].
  destruct (addProp_ok locale has objs obj i m Ho Hi Hs Hold) as (m1 & E1 & Hs1 & Hold1 & Hg1 & Hk1).
  { intros E. apply Hnew; [done|]. by left. }
  rewrite Forall_forall in Hlt. unfold MojRbTreeBase.node_lt in Hlt.
  destruct (IH Hp m1 Hs1 Hold1) as (m2 & E2 & Hs2 & Hold2 & Hg2 & Hk2).
  { intros E j Hj. rewrite Hk1 by (specialize (Hlt j Hj); lia). apply Hnew; [done|]. by right. }
  exists m2. split; [unfold bind; by rewrite E1|]. split; [done|]. split; [done|]. split.
  - intros j [->|Hj]%elem_of_cons.
    + rewrite Hk2, Hg1; [done|]. intros j Hj E. specialize (Hlt j Hj). apply (comp_eq_sym MojStrCmp) in E. lia.
    + rewrite Hg2 by done. by rewrite Hk1 by (specialize (Hlt j Hj); lia).
  - intros k Hk. rewrite Hk2 by (intros j Hj; apply Hk; by right). apply Hk1. apply Hk. by left.
Qed.

(** ** All objects *)
Definition groups_ok (f : MojDbAggregateFilter) (objs : list MojObject) (ms : list (MojObject * MojObject)) : Prop :=
  MojRbTreeBase.sorted fst MojObject.compare (m_groupAggregateMap f) /\
  forall g, match MojMap.get MojObject.compare (m_groupAggregateMap f) g with
            | None => forall m, m ∈ ms -> MojObject.compare m.2 g <> 0
            | Some infos => (exists m, m ∈ ms /\ MojObject.compare m.2 g = 0) /\ sorted_infos infos /\ olds_ok objs infos /\
                forall i, i ∈ m_aggregateProps f ->
                  MojMap.get MojStrCmp infos i.1 = foldInfo (m_locale f) i.2 (occurrences i.1 g ms)
            end.

Lemma occurrences_snoc name g ms m : occurrences name g (ms ++ [m]) = occurrences name g ms ++ occurrences name g [m].
Proof. apply omap_app. Qed.

Lemma next_fold locale i g ms obj key : MojObject.compare key g = 0 ->
  foldInfo locale i.2 (occurrences i.1 g (ms ++ [(obj, key)])) = next locale i obj (foldInfo locale i.2 (occurrences i.1 g ms)).
Proof.
  intros Hk. rewrite occurrences_snoc. unfold next, occurrences at 2. cbn [omap list_omap fst snd]. rewrite Hk. cbn [Z.eqb].
  destruct (getValue i.1 obj) as [val found]. destruct found; [|by rewrite app_nil_r]. by rewrite foldInfo_snoc.
Qed.

Lemma other_group name g ms obj key : MojObject.compare key g <> 0 ->
  occurrences name g (ms ++ [(obj, key)]) = occurrences name g ms.
Proof.
  intros Hk. rewrite occurrences_snoc. unfold occurrences at 2. cbn [omap list_omap fst snd].
  by rewrite (proj2 (Z.eqb_neq _ _)), app_nil_r.
Qed.

Lemma same_group k g x : MojObject.compare k g = 0 -> (MojObject.compare x k =? 0) = (MojObject.compare x g =? 0).
Proof.
  intros E. apply eq_true_iff_eq. rewrite !Z.eqb_eq. split; intros Hx.
  - by eapply (comp_eq_trans MojObject.compare).
  - eapply (comp_eq_trans MojObject.compare); [exact Hx|by apply (comp_eq_sym MojObject.compare)].
Qed.

Lemma occurrences_same name k g ms : MojObject.compare k g = 0 -> occurrences name k ms = occurrences name g ms.
Proof.
  intros E. unfold occurrences. induction ms as [|m ms IH]; [done|]. cbn [omap list_omap].
  rewrite (same_group k g _ E). by destruct (_ =? 0), (match getValue _ _ with _ => _ end); rewrite ?IH.
Qed.

Definition same_config (f f' : MojDbAggregateFilter) : Prop :=
  m_aggregateProps f' = m_aggregateProps f /\ m_groupByProps f' = m_groupByProps f /\ m_desc f' = m_desc f /\
  m_locale f' = m_locale f.

Lemma groups_put f objs ms obj key infos' :
  groups_ok f objs ms -> sorted_infos infos' -> olds_ok objs infos' ->
  (forall i, i ∈ m_aggregateProps f ->
     MojMap.get MojStrCmp infos' i.1 = next (m_locale f) i obj (foldInfo (m_locale f) i.2 (occurrences i.1 key ms))) ->
  groups_ok (with_groups f (MojMap.put MojObject.compare (m_groupAggregateMap f) key infos')) objs (ms ++ [(obj, key)]).
Proof.
  intros [Hs Hg] Hs' Hold' Hget. split; [by apply (MojMap.map_put_sorted MojObject.compare)|].
  intros g. cbn [m_groupAggregateMap m_aggregateProps m_locale with_groups].
  rewrite (MojMap.map_get_put MojObject.compare) by done.
  destruct (Z.eqb_spec (MojObject.compare key g) 0) as [E|E].
  - split; [exists (obj, key); split; [|done]; apply elem_of_app; right; by left|]. split; [done|]. split; [done|].
    intros i Hi. rewrite Hget, next_fold by done. by rewrite (occurrences_same _ key g).
  - specialize (Hg g). destruct (MojMap.get MojObject.compare (m_groupAggregateMap f) g) as [infos|].
    + destruct Hg as ((m & Hm & Em) & H1 & H2 & H3).
      split; [exists m; split; [|done]; apply elem_of_app; by left|]. split; [done|]. split; [done|].
      intros i Hi. by rewrite other_group, H3.
    + intros m [Hm| ->%list_elem_of_singleton]%elem_of_app; [by apply Hg|done].
Qed.

Definition config_ok (f : MojDbAggregateFilter) (objs : list MojObject) : Prop :=
  MojRbTreeBase.sorted fst MojStrCmp (m_aggregateProps f) /\
  Forall (fun i => prop_ok (m_locale f) i objs) (m_aggregateProps f).

Lemma aggregateImpl_ok f objs ms obj key : config_ok f objs -> groups_ok f objs ms -> obj ∈ objs ->
  exists f', aggregateImpl strToDecimal obj key f = (f', Ok tt) /\ same_config f f' /\ groups_ok f' objs (ms ++ [(obj, key)]).
Proof.
  intros [Hp1 Hp2] HG Ho. pose proof HG as [Hs Hg]. specialize (Hg key).
  unfold aggregateImpl, bind at 1, get.
  destruct (MojMap.get MojObject.compare (m_groupAggregateMap f) key) as [infos|].
  - destruct Hg as (_ & Hsi & Holdi & Hget).
    destruct (addProps_ok (m_locale f) true objs obj (m_aggregateProps f) Ho Hp1 Hp2 infos Hsi Holdi) as (infos' & -> & H1 & H2 & H3 & _); [done|].
    eexists. split; [reflexivity|]. split; [done|]. apply groups_put; try done.
    intros i Hi. by rewrite H3, Hget.
  - destruct (addProps_ok (m_locale f) false objs obj (m_aggregateProps f) Ho Hp1 Hp2 []) as (infos' & -> & H1 & H2 & H3 & _); [constructor|done|done|].
    eexists. split; [reflexivity|]. split; [done|]. apply groups_put; try done.
    intros i Hi. rewrite H3 by done. f_equal. symmetry.
    enough (occurrences i.1 key ms = []) as -> by done. unfold occurrences.
    clear -Hg. induction ms as [|m ms IH]; [done|]. cbn [omap list_omap].
    rewrite (proj2 (Z.eqb_neq _ _)) by (apply Hg; by left). apply IH. intros m' Hm'. apply Hg. by right.
Qed.

Lemma aggregateGroups_ok objs obj keys : obj ∈ objs -> forall f ms, config_ok f objs -> groups_ok f objs ms ->
  exists f', aggregateGroups strToDecimal obj keys f = (f', Ok tt) /\ same_config f f' /\
    groups_ok f' objs (ms ++ map (pair obj) keys).
Proof.
  intros Ho. induction keys as [|key keys IH]; intros f ms Hc HG; cbn [aggregateGroups map].
  { exists f. rewrite app_nil_r. split; [done|]. by split. }
  destruct (aggregateImpl_ok f objs ms obj key Hc HG Ho) as (f1 & E1 & (C1 & C2 & C3 & C4) & HG1).
  destruct (IH f1 (ms ++ [(obj, key)])) as (f2 & E2 & (D1 & D2 & D3 & D4) & HG2).
  { unfold config_ok. by rewrite C1, C4. }
  { done. }
  exists f2. split; [unfold bind; by rewrite E1|]. rewrite <- app_assoc in HG2.
  split; [|done]. unfold same_config. by rewrite D1, D2, D3, D4.
Qed.

Lemma aggregate_ok f objs ms obj : config_ok f objs -> groups_ok f objs ms -> obj ∈ objs ->
  exists f', aggregate strToDecimal obj f = (f', Ok tt) /\ same_config f f' /\
    groups_ok f' objs (ms ++ map (pair obj) (groupKeys (m_groupByProps f) obj)).
Proof.
  intros Hc HG Ho. unfold aggregate, groupKeys, bind, get.
  destruct (m_groupByProps f) as [|groupStr rest]; [by apply aggregateImpl_ok|].
  destruct (getValue groupStr obj) as [v found].
  destruct v; try (destruct found; by apply aggregateImpl_ok).
  destruct found; [by apply aggregateGroups_ok|by apply aggregateImpl_ok].
Qed.

Lemma aggregateAll_ok objs : forall before f ms, config_ok f (before ++ objs) -> groups_ok f (before ++ objs) ms ->
  exists f', aggregateAll objs f = (f', Ok tt) /\ same_config f f' /\
    groups_ok f' (before ++ objs) (ms ++ memberships (m_groupByProps f) objs).
Proof.
  induction objs as [|obj objs IH]; intros before f ms Hc HG; cbn [aggregateAll memberships flat_map].
  { exists f. rewrite !app_nil_r in *. split; [done|]. by split. }
  destruct (aggregate_ok f (before ++ obj :: objs) ms obj Hc HG) as (f1 & E1 & (C1 & C2 & C3 & C4) & HG1).
  { apply elem_of_app. right. by left. }
  replace (before ++ obj :: objs) with ((before ++ [obj]) ++ objs) in * by (by rewrite <- app_assoc).
  destruct (IH (before ++ [obj]) f1 _ ltac:(unfold config_ok; by rewrite C1, C4) HG1) as (f2 & E2 & (D1 & D2 & D3 & D4) & HG2).
  exists f2. split; [unfold bind; by rewrite E1|]. rewrite C2, <- (app_assoc ms) in HG2. split; [|exact HG2].
  unfold same_config. by rewrite D1, D2, D3, D4.
Qed.

(** ** Counts and sums of integers *)
Definition counts (op : Z) : Prop := has_op op OpCount || has_op op OpAvg = true.
Definition sums (op : Z) : Prop := has_op op OpSum || has_op op OpAvg = true.

(** Integers whose partial sums fit the magnitude of a decimal. *)
Definition total (vals : list Z) : Z := fold_left Z.add vals 0.
Definition sum_fits (vals : list Z) : Prop :=
  forall n, MojDecimal.MagnitudeMin <= total (take n vals) <= MojDecimal.MagnitudeMax.

Lemma total_snoc vals v : total (vals ++ [v]) = total vals + v.
Proof. unfold total. by rewrite fold_left_app. Qed.

Lemma assign_int m : MojDecimal.MagnitudeMin <= m <= MojDecimal.MagnitudeMax ->
  MojDecimal.fraction (MojDecimal.assign m 0) = 0 /\ MojDecimal.magnitude (MojDecimal.assign m 0) = m.
Proof.
  intros Hm. change MojDecimal.MagnitudeMin with (-9223371036854) in Hm. change MojDecimal.MagnitudeMax with 9223371036854 in Hm.
  assert (MojDecimal.assign m 0 = m * 1000000) as ->.
  { unfold MojDecimal.assign. change MojDecimal.Numerator with 1000000. rewrite Z.sub_0_r, Z.add_0_r.
    rewrite !(to_int_small 64 (m * 1000000)) by (unfold in_int; lia). by destruct (m <? 0). }
  unfold MojDecimal.fraction, MojDecimal.magnitude, MojDecimal.MojAbs. change MojDecimal.Numerator with 1000000.
  split; [|by apply Z.quot_mul]. replace (if _ <? 0 then _ else _) with (Z.abs m * 1000000).
  - by rewrite Z.rem_mul.
  - destruct (Z.ltb_spec (m * 1000000) 0); [rewrite to_int_small by (unfold in_int; lia)|]; lia.
Qed.

Lemma updateInfo_fields locale p obj val info info' : updateInfo strToDecimal locale p obj val info = (info', Ok tt) ->
  m_count info' = (if has_op (MojDbQuery.m_op p) OpCount || has_op (MojDbQuery.m_op p) OpAvg
                   then to_uint 64 (m_count info + 1) else m_count info) /\
  (sums (MojDbQuery.m_op p) -> forall v, val = IntImpl v -> MojDecimal.fraction (m_sum info) = 0 ->
   m_sum info' = MojDecimal.assign (to_int 64 (MojDecimal.magnitude (m_sum info) + v)) 0).
Proof.
  unfold updateInfo, bind, modify, get, lift, sums. cbv zeta.
  set (i1 := addCount (MojDbQuery.m_op p) info).
  assert (m_count i1 = (if has_op (MojDbQuery.m_op p) OpCount || has_op (MojDbQuery.m_op p) OpAvg
                   then to_uint 64 (m_count info + 1) else m_count info) /\ m_sum i1 = m_sum info) as [H1 H2].
  { unfold i1, addCount. by destruct (has_op (MojDbQuery.m_op p) OpCount || has_op (MojDbQuery.m_op p) OpAvg). }
  rewrite <- H1, <- H2. clearbody i1. clear H1 H2 info.
  destruct (addMin locale p obj val i1) as [i2|] eqn:E2; [|done].
  assert (m_count i2 = m_count i1 /\ m_sum i2 = m_sum i1) as [<- <-].
  { unfold addMin in E2. cbv zeta in E2. destruct (_ || _) in E2; [|by injection E2 as ->].
    apply res_bind_ok in E2 as (c & _ & [= <-]). by destruct (c <? 0). }
  destruct (addMax locale p obj val i2) as [i3|] eqn:E3; [|done].
  assert (m_count i3 = m_count i2 /\ m_sum i3 = m_sum i2) as [<- <-].
  { unfold addMax in E3. cbv zeta in E3. destruct (_ || _) in E3; [|by injection E3 as ->].
    apply res_bind_ok in E3 as (c & _ & [= <-]). by destruct (0 <? c). }
  unfold addSum. destruct (has_op (MojDbQuery.m_op p) OpSum || has_op (MojDbQuery.m_op p) OpAvg).
  - destruct (is_number val) eqn:En; [|done]. cbn [negb]. intros [= <-]. split; [done|].
    intros _ v -> Hf. cbn [m_sum with_sum]. by rewrite Hf.
  - intros [= <-]. by split.
Qed.

(** ** The least and the greatest of a group *)
Definition mins (op : Z) : Prop := has_op op OpMin || has_op op OpFirst = true.
Definition maxs (op : Z) : Prop := has_op op OpMax || has_op op OpLast = true.

(** An occurrence whose key no other is below, or above. *)
Definition least locale (e : option (mstring * option MojDbCollationStrength)) (os : list (MojObject * MojObject)) (m : MojObject * MojObject) : Prop :=
  m ∈ os /\ forall o, o ∈ os -> exists c, compareKey locale e o.1 m.1 = Ok c /\ 0 <= c.
Definition greatest locale (e : option (mstring * option MojDbCollationStrength)) (os : list (MojObject * MojObject)) (m : MojObject * MojObject) : Prop :=
  m ∈ os /\ forall o, o ∈ os -> exists c, compareKey locale e o.1 m.1 = Ok c /\ c <= 0.

(** The key a property sorts by. *)
Definition keyOf locale (e : option (mstring * option MojDbCollationStrength)) (o : MojObject) : res (list bytes) :=
  match e with
  | None => Err AssertFailed
  | Some e => let? x := extractor locale e in MojDbPropExtractor.vals x o []
  end.

#[local] Instance keys_laws : CompLaws (MojSet.compare lexcmp).
Proof. change (CompLaws (MojVector.compare lexcmp)). apply _. Qed.

Lemma compareKey_keys locale e o1 o2 c : compareKey locale e o1 o2 = Ok c ->
  exists k1 k2, keyOf locale e o1 = Ok k1 /\ keyOf locale e o2 = Ok k2 /\ c = MojSet.compare lexcmp k1 k2.
Proof.
  unfold compareKey, keyOf. destruct e as [e|]; [|done]. destruct (extractor locale e) as [x|]; [|done]. cbn [res_bind].
  destruct (MojDbPropExtractor.vals x o1 []) as [k1|]; [|done]. cbn [res_bind].
  destruct (MojDbPropExtractor.vals x o2 []) as [k2|]; [|done]. intros [= <-]. by exists k1, k2.
Qed.

Lemma keys_compareKey locale e o1 o2 k1 k2 : keyOf locale e o1 = Ok k1 -> keyOf locale e o2 = Ok k2 ->
  compareKey locale e o1 o2 = Ok (MojSet.compare lexcmp k1 k2).
Proof.
  unfold compareKey, keyOf. destruct e as [e|]; [|done]. destruct (extractor locale e) as [x|]; [|done]. cbn [res_bind].
  by intros -> ->.
Qed.

(** A new occurrence against the one kept. *)
Lemma least_snoc locale e os m o c : least locale e os m -> compareKey locale e o.1 m.1 = Ok c ->
  least locale e (os ++ [o]) (if c <? 0 then o else m).
Proof.
  intros [Hm HL] (ko & km & Eo & Em & Ec)%compareKey_keys. split.
  - destruct (c <? 0); apply elem_of_app; [right; by left|by left].
  - intros x Hx. assert (exists kx, keyOf locale e x.1 = Ok kx /\ (x = o \/ 0 <= MojSet.compare lexcmp kx km)) as (kx & Ex & Hk).
    { apply elem_of_app in Hx as [Hx| ->%list_elem_of_singleton]; [|exists ko; auto].
      destruct (HL x Hx) as (d & (k1 & k2 & E1 & E2 & ->)%compareKey_keys & Hd). rewrite Em in E2. injection E2 as <-. exists k1. auto. }
    destruct (Z.ltb_spec c 0) as [Hc|Hc]; eexists; (split; [by apply keys_compareKey|]).
    + destruct Hk as [->|Hk]; [rewrite Ex in Eo; injection Eo as ->; by rewrite (comp_refl (MojSet.compare lexcmp))|].
      pose proof (comp_anti (MojSet.compare lexcmp) ko kx). pose proof (comp_anti (MojSet.compare lexcmp) km kx).
      pose proof (comp_lt_le_trans (MojSet.compare lexcmp) ko km kx ltac:(lia) ltac:(lia)). lia.
    + destruct Hk as [->|Hk]; [|done]. rewrite Ex in Eo. injection Eo as ->. lia.
Qed.

Lemma greatest_snoc locale e os m o c : greatest locale e os m -> compareKey locale e o.1 m.1 = Ok c ->
  greatest locale e (os ++ [o]) (if 0 <? c then o else m).
Proof.
  intros [Hm HL] (ko & km & Eo & Em & Ec)%compareKey_keys. split.
  - destruct (0 <? c); apply elem_of_app; [right; by left|by left].
  - intros x Hx. assert (exists kx, keyOf locale e x.1 = Ok kx /\ (x = o \/ MojSet.compare lexcmp kx km <= 0)) as (kx & Ex & Hk).
    { apply elem_of_app in Hx as [Hx| ->%list_elem_of_singleton]; [|exists ko; auto].
      destruct (HL x Hx) as (d & (k1 & k2 & E1 & E2 & ->)%compareKey_keys & Hd). rewrite Em in E2. injection E2 as <-. exists k1. auto. }
    destruct (Z.ltb_spec 0 c) as [Hc|Hc]; eexists; (split; [by apply keys_compareKey|]).
    + destruct Hk as [->|Hk]; [rewrite Ex in Eo; injection Eo as ->; by rewrite (comp_refl (MojSet.compare lexcmp))|].
      pose proof (comp_anti (MojSet.compare lexcmp) ko km).
      pose proof (comp_trans (MojSet.compare lexcmp) kx km ko ltac:(lia) ltac:(lia)). lia.
    + destruct Hk as [->|Hk]; [|done]. rewrite Ex in Eo. injection Eo as ->. lia.
Qed.

Lemma least_one locale e o : compareKey locale e o.1 o.1 = Ok 0 -> least locale e [o] o.
Proof. intros E. split; [by left|]. intros x ->%list_elem_of_singleton. by exists 0. Qed.

Lemma greatest_one locale e o : compareKey locale e o.1 o.1 = Ok 0 -> greatest locale e [o] o.
Proof. intros E. split; [by left|]. intros x ->%list_elem_of_singleton. by exists 0. Qed.

Lemma compareKey_self objs i locale o : prop_ok locale i objs ->
  (has_op (MojDbQuery.m_op i.2) OpMin || has_op (MojDbQuery.m_op i.2) OpFirst) ||
  (has_op (MojDbQuery.m_op i.2) OpMax || has_op (MojDbQuery.m_op i.2) OpLast) = true ->
  o ∈ objs -> compareKey locale (MojDbQuery.m_extractor i.2) o o = Ok 0.
Proof.
  intros [Hc _] Hop Ho. destruct (Hc Hop o o Ho Ho) as [c E]. rewrite E. f_equal.
  apply compareKey_keys in E as (k1 & k2 & E1 & E2 & ->). rewrite E1 in E2. injection E2 as ->. apply (comp_refl (MojSet.compare lexcmp)).
Qed.

Definition min_of (i : AggregateInfo) : MojObject * MojObject := (m_first i, m_min i).
Definition max_of (i : AggregateInfo) : MojObject * MojObject := (m_last i, m_max i).

Lemma updateInfo_extremes locale p obj val info info' : updateInfo strToDecimal locale p obj val info = (info', Ok tt) ->
  (mins (MojDbQuery.m_op p) -> exists c, compareKey locale (MojDbQuery.m_extractor p) obj (m_first info) = Ok c /\
     min_of info' = if c <? 0 then (obj, val) else min_of info) /\
  (maxs (MojDbQuery.m_op p) -> exists c, compareKey locale (MojDbQuery.m_extractor p) obj (m_last info) = Ok c /\
     max_of info' = if 0 <? c then (obj, val) else max_of info).
Proof.
  unfold updateInfo, bind, modify, get, lift, mins, maxs. cbv zeta.
  set (i1 := addCount (MojDbQuery.m_op p) info).
  assert (min_of i1 = min_of info /\ max_of i1 = max_of info) as [H1 H2] by (unfold i1, addCount; by destruct (_ || _)).
  change (m_first info) with (min_of info).1. change (m_last info) with (max_of info).1. rewrite <- H1, <- H2. clearbody i1. clear H1 H2 info.
  destruct (addMin locale p obj val i1) as [i2|] eqn:E2; [|done].
  destruct (addMax locale p obj val i2) as [i3|] eqn:E3; [|done].
  assert (max_of i2 = max_of i1) as Em by (unfold addMin in E2; cbv zeta in E2; destruct (_ || _) in E2; [|by injection E2 as ->];
    apply res_bind_ok in E2 as (c & _ & [= <-]); by destruct (c <? 0)).
  assert (min_of i3 = min_of i2) as En by (unfold addMax in E3; cbv zeta in E3; destruct (_ || _) in E3; [|by injection E3 as ->];
    apply res_bind_ok in E3 as (c & _ & [= <-]); by destruct (0 <? c)).
  intros E4. assert (min_of info' = min_of i3 /\ max_of info' = max_of i3) as [-> ->].
  { unfold addSum in E4. destruct (_ || _) in E4; [|by injection E4 as <-]. destruct (negb _) in E4; [done|]. by injection E4 as <-. }
  split; intros Hop.
  - rewrite En. unfold addMin in E2. cbv zeta in E2. rewrite Hop in E2. apply res_bind_ok in E2 as (c & Ec & [= <-]).
    exists c. split; [done|]. by destruct (c <? 0).
  - unfold addMax in E3. cbv zeta in E3. rewrite Hop in E3. apply res_bind_ok in E3 as (c & Ec & [= <-]).
    change (m_last i2) with (max_of i2).1 in Ec. rewrite Em in Ec. exists c. split; [done|]. rewrite <- Em. by destruct (0 <? c).
Qed.

(** The numbers of a group. *)
Lemma foldInfo_numbers locale i objs os info : prop_ok locale i objs ->
  Forall (fun o => o.1 ∈ objs /\ getValue i.1 o.1 = (o.2, true)) os ->
  foldInfo locale i.2 os = Some info -> Z.of_nat (length os) < 2 ^ 64 ->
  info_ok objs info /\
  (counts (MojDbQuery.m_op i.2) -> m_count info = Z.of_nat (length os)) /\
  (sums (MojDbQuery.m_op i.2) -> forall vals, map snd os = map IntImpl vals -> sum_fits vals ->
   m_sum info = MojDecimal.assign (total vals) 0) /\
  (mins (MojDbQuery.m_op i.2) -> least locale (MojDbQuery.m_extractor i.2) os (min_of info)) /\
  (maxs (MojDbQuery.m_op i.2) -> greatest locale (MojDbQuery.m_extractor i.2) os (max_of info)).
Proof.
  intros Hp. revert info. induction os as [|o os IH] using rev_ind; [done|]. intros info HF Hi Hlen.
  apply Forall_app in HF as [HF [[Ho Hv] _]%Forall_cons]. rewrite foldInfo_snoc in Hi. rewrite length_app in *. cbn [length] in *.
  destruct (foldInfo locale i.2 os) as [old|] eqn:Eo.
  - destruct (IH old HF eq_refl ltac:(lia)) as (Hok & Hc & Hs & Hmin & Hmax). clear IH.
    destruct (updateInfo_ok locale i objs o.1 o.2 old Hp Ho Hv Hok) as (info' & Eu & Hok').
    unfold step in Hi. rewrite Eu in Hi. injection Hi as <-. cbn [fst] in *.
    pose proof (updateInfo_extremes _ _ _ _ _ _ Eu) as [Emin Emax].
    apply updateInfo_fields in Eu as [Ec Es]. split; [done|]. split_and!.
    + intros Hcnt. rewrite Ec, Hcnt, Hc by done. unfold to_uint. rewrite Z.mod_small; lia.
    + intros Hsum vals Evals Hfit. rewrite map_app in Evals. cbn [map] in Evals.
      destruct vals as [|v vals _] using rev_ind; [by destruct (map snd os)|].
      rewrite map_app in Evals. cbn [map] in Evals. apply app_inj_tail in Evals as [Evals Ev].
      assert (sum_fits vals) as Hfit'.
      { intros n. destruct (decide (n <= length vals)%nat).
        - specialize (Hfit n). by rewrite take_app_le in Hfit.
        - specialize (Hfit (length vals)). rewrite take_app_length in Hfit. by rewrite take_ge by lia. }
      specialize (Hs Hsum vals Evals Hfit').
      pose proof (Hfit' (length vals)) as Hb. rewrite firstn_all in Hb. destruct (assign_int _ Hb) as [Hf Hm].
      rewrite (Es Hsum v Ev) by (by rewrite Hs). rewrite Hs, Hm, total_snoc. f_equal. apply to_int_small; [lia|].
      specialize (Hfit (length (vals ++ [v]))). rewrite firstn_all, total_snoc in Hfit.
      change MojDecimal.MagnitudeMin with (-9223371036854) in Hfit. change MojDecimal.MagnitudeMax with 9223371036854 in Hfit.
      unfold in_int. lia.
    + intros Hop. destruct (Emin Hop) as (c & Ecmp & ->). replace (o.1, o.2) with o by (by destruct o). by apply least_snoc; [apply Hmin|].
    + intros Hop. destruct (Emax Hop) as (c & Ecmp & ->). replace (o.1, o.2) with o by (by destruct o). by apply greatest_snoc; [apply Hmax|].
  - destruct os; [|done]. injection Hi as <-. split; [by apply initAggregateInfo_ok|].
    assert (min_of (initAggregateInfo o.1 o.2 (MojDbQuery.m_op i.2)).1 = o /\ max_of (initAggregateInfo o.1 o.2 (MojDbQuery.m_op i.2)).1 = o) as [-> ->].
    { unfold initAggregateInfo, min_of, max_of. by destruct o as [o []], (_ || _). }
    unfold initAggregateInfo. unfold sums. split_and!.
    3: intros Hop; apply least_one, (compareKey_self objs i); [done|unfold mins in Hop; by rewrite Hop|done].
    3: intros Hop; apply greatest_one, (compareKey_self objs i); [done|unfold maxs in Hop; by rewrite Hop, orb_true_r|done].
    + intros _. destruct (has_op _ OpSum || _); [|done]. by destruct o.2.
    + intros -> vals Evals _. destruct vals as [|v [|]]; try done. cbn [map app] in Evals. injection Evals as ->. done.
Qed.

Lemma occurrences_of objs groupBy name g : Forall (fun o => o.1 ∈ objs /\ getValue name o.1 = (o.2, true))
  (occurrences name g (memberships groupBy objs)).
Proof.
  apply Forall_forall. intros o Ho. unfold occurrences in Ho. apply list_elem_of_omap in Ho as ([obj key] & Hm & E).
  cbn [fst snd] in E. destruct (_ =? 0); [|done]. destruct (getValue name obj) as [val found] eqn:Ev.
  destruct found; [|done]. injection E as <-. split; [|done]. unfold memberships in Hm.
  apply list_elem_of_In, in_flat_map in Hm as (obj' & Hobj & Hin). apply in_map_iff in Hin as (k & [= -> ->] & _).
  by apply list_elem_of_In.
Qed.
End doubles.


(** ** Examples, with fixed-point numbers for [double] and bytes for characters *)
#[local] Instance fixed_point : Doubles := {|
  double := Z; double_of_int v := v * 1000000; of_decimal r := r; to_decimal d := d;
  double_add := Z.add; double_div a b := Z.quot (a * 1000000) b |}.

#[local] Instance plain_icu : ICU := {|
  UCollator := unit; UBreakIterator := unit;
  u_strFromUTF8 s := Some s; u_strToUTF8 s := Some s; ucol_open _ := Some tt;
  ucol_setNormalization u := u; ucol_setNumericCollation u := u; ucol_setStrength u _ := u;
  ucol_getSortKey _ s := s ++ [0]; ubrk_open_word _ := Some tt;
  ubrk_positions _ s := Some [(0%nat, false); (length s, true)] |}.

Definition sum_query : MojDbQuery :=
  MojDbQuery.with_aggregate (MojDbQuery.from MojDbQuery.make (_T "K"))
    [(_T "n", {| MojDbQuery.m_op := OpCount + OpSum + OpMin; MojDbQuery.m_extractor := Some (_T "n", None) |})] [_T "g"].

Definition row (g n : Z) : MojObject := ObjectImpl [(_T "g", IntImpl g); (_T "n", IntImpl n)].
Definition rows : list MojObject := [row 1 10; row 2 7; row 1 5].


(** The answer for these rows. *)
Lemma sum_answer :
  (let (f, _) := aggregateAll (fun _ => 0) rows (init sum_query []) in
   let? b := visit f {| MojObjectBuilder.m_stack := [{| MojObjectBuilder.r_obj := ArrayImpl []; MojObjectBuilder.r_propName := [] |}];
                        MojObjectBuilder.m_obj := UndefinedImpl; MojObjectBuilder.m_propName := [] |} in
   let? b := MojObjectBuilder.pop b in Ok (MojObjectBuilder.m_obj b)) =
  Ok (ArrayImpl [
    ObjectImpl [(_T "groupBy", ObjectImpl [(_T "g", IntImpl 1)]);
                (_T "n", ObjectImpl [(_T "cnt", IntImpl 2); (_T "min", IntImpl 5); (_T "sum", IntImpl 15)])];
    ObjectImpl [(_T "groupBy", ObjectImpl [(_T "g", IntImpl 2)]);
                (_T "n", ObjectImpl [(_T "cnt", IntImpl 1); (_T "min", IntImpl 7); (_T "sum", IntImpl 7)])]]).
Proof. by vm_compute. Qed.

(** An object without the group's property is grouped by the last value on the way
    to it, where there is one. *)
Lemma group_prefix : getValue (_T "a.b") (ObjectImpl [(_T "a", ObjectImpl [(_T "c", IntImpl 1)])]) =
  (ObjectImpl [(_T "c", IntImpl 1)], false) /\
  groupKeys [_T "a.b"] (ObjectImpl [(_T "a", ObjectImpl [(_T "c", IntImpl 1)])]) = [ObjectImpl [(_T "c", IntImpl 1)]].
Proof. by vm_compute. Qed.

(** The sum of integers beyond the magnitude of a decimal is wrong, even of one
    time in microseconds. *)
Lemma sum_wraps : match foldInfo (fun _ => 0) [] {| MojDbQuery.m_op := OpSum; MojDbQuery.m_extractor := None |}
    [(NullImpl, IntImpl 1700000000000000)] with Some i => MojDecimal.magnitude (m_sum i) | None => 0 end = 2899545218721.
Proof. by vm_compute. Qed.

(** A first value that is no number is counted, its average has no value. *)
Lemma first_not_checked : match aggregateAll (fun _ => 0) [ObjectImpl [(_T "n", StringImpl (_T "x"))]]
    (init (MojDbQuery.with_aggregate MojDbQuery.make [(_T "n", {| MojDbQuery.m_op := OpAvg; MojDbQuery.m_extractor := None |})] []) []) with
  | (f, r) => (r, visit f eater)
  end = (Ok tt, Err AssertFailed).
Proof. by vm_compute. Qed.
End AggregateSpec.
