(* ===== verification/Cursor.v ===== *)
(** * Cursors: src/src/db/MojDbCursor.cpp, src/inc/db/MojDbCursor.h

    A cursor puts a storage query, the filters of its query and a transaction
    together: what the storage query returns is shown to a visitor through the
    property filter, or given to the aggregates. *)

From S2P Require Import Prelude Effects Containers CoreUtil Number Object ObjectBuilder DataSerialization TokenSet ObjectSerialization Text DbKey Json JsonRoundTrip DbQuery QueryPlan OrderedMap LevelDb LevelDbSpec LevelDbTxn LevelDbCursor ObjectItem ObjectItemSpec IsamQuery IsamQuerySpec LevelDbQuery Extractor ObjectFilter ObjectFilterSpec AggregateFilter QueryFilter.

(** A storage query, as a cursor uses it.  [sq_getObject] is the [getById] that makes
    an object of what it finds. *)
Class StorageQuery (Q : Type) := {
  sq_get : st Q (option StorageItem * bool);
  sq_getId : st Q (option (MojObject * Z));
  sq_getById : MojObject -> st Q (option StorageItem * bool);
  sq_getObject : MojObject -> st Q (MojObject * bool);
  sq_groupCount : st Q nat;
  sq_count : st Q Z;
  sq_nextPage : st Q MojDbKey;
  sq_close : st Q unit;
  sq_endKey : Q -> MojDbKey;
  sq_excludeKinds : list mstring -> Q -> Q;
  sq_verify : bool -> Q -> Q
}.

(** Its transaction, and the watcher that is told where the result ends. *)
Class CursorTxn (T : Type) := { txn_commit : st T unit; txn_abort : st T unit }.
Class CursorWatcher (W : Type) := { watcher_activate : MojDbKey -> st W unit }.

Module MojDbCursor.
Record MojDbCursor {Q T W : Type} `{Doubles} := {
  m_ownTxn : bool;
  m_lastErr : option MojErr;
  m_query : MojDbQuery.MojDbQuery;
  m_txn : option T;
  m_storageQuery : option Q;
  m_objectFilter : option MojObjectFilter.Node; (* the filter's tree *)
  m_queryFilter : option MojDbQuery.WhereMap;
  m_aggregateFilter : option MojDbAggregateFilter.MojDbAggregateFilter;
  m_watcher : option W;
  m_vmode : bool
}.
Arguments MojDbCursor Q T W {_}.

Section cursor.
Context {Q T W : Type} `{StorageQuery Q} `{CursorTxn T} `{CursorWatcher W} `{ICU} `{Doubles} `{KindTokens}.
Context (tokenSet : mstring -> res (list mstring)) (strToDecimal : mstring -> Z) (locale : mstring).
Abbreviation Cur := (MojDbCursor Q T W).
Abbreviation M := (st Cur).

Definition make : Cur :=
  {| m_ownTxn := true; m_lastErr := None; m_query := MojDbQuery.make; m_txn := None; m_storageQuery := None;
     m_objectFilter := None; m_queryFilter := None; m_aggregateFilter := None; m_watcher := None; m_vmode := false |}.

Definition isOpen (c : Cur) : bool := match m_storageQuery c with Some _ => true | None => false end.

Definition with_storage (c : Cur) (q : option Q) : Cur :=
  {| m_ownTxn := m_ownTxn c; m_lastErr := m_lastErr c; m_query := m_query c; m_txn := m_txn c; m_storageQuery := q;
     m_objectFilter := m_objectFilter c; m_queryFilter := m_queryFilter c; m_aggregateFilter := m_aggregateFilter c;
     m_watcher := m_watcher c; m_vmode := m_vmode c |}.
Definition with_lastErr (c : Cur) (e : option MojErr) : Cur :=
  {| m_ownTxn := m_ownTxn c; m_lastErr := e; m_query := m_query c; m_txn := m_txn c; m_storageQuery := m_storageQuery c;
     m_objectFilter := m_objectFilter c; m_queryFilter := m_queryFilter c; m_aggregateFilter := m_aggregateFilter c;
     m_watcher := m_watcher c; m_vmode := m_vmode c |}.
Definition with_txn (c : Cur) (t : option T) (own : bool) : Cur :=
  {| m_ownTxn := own; m_lastErr := m_lastErr c; m_query := m_query c; m_txn := t; m_storageQuery := m_storageQuery c;
     m_objectFilter := m_objectFilter c; m_queryFilter := m_queryFilter c; m_aggregateFilter := m_aggregateFilter c;
     m_watcher := m_watcher c; m_vmode := m_vmode c |}.
Definition with_watcher (c : Cur) (w : option W) : Cur :=
  {| m_ownTxn := m_ownTxn c; m_lastErr := m_lastErr c; m_query := m_query c; m_txn := m_txn c; m_storageQuery := m_storageQuery c;
     m_objectFilter := m_objectFilter c; m_queryFilter := m_queryFilter c; m_aggregateFilter := m_aggregateFilter c;
     m_watcher := w; m_vmode := m_vmode c |}.
Definition with_filters (c : Cur) (q : MojDbQuery.MojDbQuery) (o : option MojObjectFilter.Node) (f : option MojDbQuery.WhereMap)
    (a : option MojDbAggregateFilter.MojDbAggregateFilter) : Cur :=
  {| m_ownTxn := m_ownTxn c; m_lastErr := m_lastErr c; m_query := q; m_txn := m_txn c; m_storageQuery := m_storageQuery c;
     m_objectFilter := o; m_queryFilter := f; m_aggregateFilter := a; m_watcher := m_watcher c; m_vmode := m_vmode c |}.

(** An operation of a part of the cursor. *)
Definition on {P A} (part : Cur -> option P) (put : Cur -> option P -> Cur) (e : MojErr) (m : st P A) : M A :=
  fun c => match part c with
           | Some p => let (p, r) := m p in (put c (Some p), r)
           | None => (c, Err e)
           end.

Definition on_query {A} (m : st Q A) : M A := on m_storageQuery with_storage MojErrNotOpen m.

(** [MojErrAccumulate(m_lastErr, err)]: an error replaces the one before. *)
Definition accumulate {A} (r : res A) : M unit :=
  modify (fun c => match r with Err e => with_lastErr c (Some e) | Ok _ => c end).

(** Do [m], keep its error in [m_lastErr] and return it. *)
Definition accumulated {A} (m : M A) : M A :=
  let! r := attempt m in let! _ := accumulate r in lift r.

(** ** Set-up *)
Definition initImpl (query : MojDbQuery.MojDbQuery) : M unit :=
  modify (fun c => with_filters c query
    (match MojDbQuery.m_selectProps query with [] => m_objectFilter c | props => Some (MojObjectFilter.init props) end)
    (match MojDbQuery.m_filterClauses query with [] => m_queryFilter c | m => Some m end)
    (match MojDbQuery.m_aggregateMap query with
     | [] => m_aggregateFilter c
     | _ => Some (MojDbAggregateFilter.init query locale)
     end)).

Definition init (query : MojDbQuery.MojDbQuery) : M unit :=
  let! _ := lift (MojDbQuery.validateFind query) in initImpl query.

Definition txn (t : T) (ownTxn : bool) : M unit :=
  let! c := get in
  match m_txn c with
  | Some _ => throw AssertFailed
  | None => modify (fun c => with_txn c (Some t) ownTxn)
  end.

Definition excludeKinds (toExclude : list mstring) : M unit :=
  on_query (modify (sq_excludeKinds toExclude)).

(** ** Reading *)
Definition getItem : M (option StorageItem * bool) :=
  let! c := get in
  let! _ := on_query (modify (sq_verify (m_vmode c))) in
  let! r := attempt (on_query sq_get) in
  let! _ := match r with
            | Err e => if decide (e = MojErrInternalIndexOnFind) then ret tt else accumulate r
            | Ok _ => ret tt
            end in
  lift r.

(** [item->visit], which reads a record's bytes or visits the object. *)
Definition visitItem {S} `{!Visitor S} (item : StorageItem) (visitor : S) : res S :=
  match item with
  | LevelItem i => MojDbLevelItem.visit tokenSet i visitor true
  | ObjectItem obj => MojDbObjectItem.visit obj visitor
  end.

(** An item shown to the visitor, through the property filter if there is one. *)
Definition show {S} `{!Visitor S} (filter : option MojObjectFilter.Node) (item : StorageItem) (visitor : S) : res S :=
  match filter with
  | Some root =>
      let? f := visitItem item (MojObjectFilter.setVisitor root visitor) in Ok (MojObjectFilter.m_visitor f)
  | None => visitItem item visitor
  end.

(** [get] is virtual: [X] is a class derived from the cursor, [vget] its [get]. *)
Section virtual.
Context {X : Type} (base : X -> Cur) (with_base : X -> Cur -> X) (vget : st X (option StorageItem * bool)).

Definition on_base {A} (m : M A) : st X A := fun x => let (c, r) := m (base x) in (with_base x c, r).

Section visitor.
Context {S : Type} `{!Visitor S}.

(** An item that is found is not null. *)
Definition visitObjectV (visitor : S) : st X (S * bool) :=
  let! r := attempt vget in
  let! _ := on_base (accumulate r) in
  let! (item, found) := lift r in
  if negb found then ret (visitor, false)
  else
    let! item := lift (match item with Some i => Ok i | None => Err AssertFailed end) in
    let! x := get in
    match m_aggregateFilter (base x) with
    | Some _ =>
        let! obj := lift (MojDbStorageItem.toObject tokenSet item) in
        let! _ := on_base (on m_aggregateFilter (fun c a => with_filters c (m_query c) (m_objectFilter c) (m_queryFilter c) a)
                     AssertFailed (MojDbAggregateFilter.aggregate strToDecimal obj)) in
        ret (visitor, true)
    | None =>
        let! visitor := on_base (accumulated (lift (show (m_objectFilter (base x)) item visitor))) in
        ret (visitor, true)
    end.

(** The loop of [visit]; what a failed visit has shown of an item is lost. *)
Fixpoint visit_loopV (fuel : nat) (visitor : S) : st X S :=
  match fuel with
  | O => throw AssertFailed
  | Datatypes.S fuel' =>
      let! r := attempt (visitObjectV visitor) in
      match r with
      | Err e => if decide (e = MojErrInternalIndexOnFind) then visit_loopV fuel' visitor else throw e
      | Ok (visitor, found) => if found : bool then visit_loopV fuel' visitor else ret visitor
      end
  end.

Definition visitV (fuel : nat) (visitor : S) : st X S :=
  let! x := get in
  if negb (isOpen (base x)) then throw MojErrNotOpen
  else
    let! visitor := visit_loopV fuel visitor in
    let! x := get in
    match m_aggregateFilter (base x) with
    | Some f => lift (MojDbAggregateFilter.visit f visitor)
    | None => ret visitor
    end.
End visitor.
End virtual.

(** The cursor's own methods. *)
Definition visitObject {S} `{!Visitor S} (visitor : S) : M (S * bool) := visitObjectV (fun c => c) (fun _ c => c) getItem visitor.
Definition visit_loop {S} `{!Visitor S} (fuel : nat) (visitor : S) : M S := visit_loopV (fun c => c) (fun _ c => c) getItem fuel visitor.
Definition visit {S} `{!Visitor S} (fuel : nat) (visitor : S) : M S := visitV (fun c => c) (fun _ c => c) getItem fuel visitor.

(** [get(MojObject&, bool&)]: the next object, rebuilt. *)
Definition get_object : M (MojObject * bool) :=
  let! c := get in
  if negb (isOpen c) then throw MojErrNotOpen
  else
    let! (builder, found) := visitObject MojObjectBuilder.init in
    ret (MojObjectBuilder.m_obj builder, found).

Definition count : M Z :=
  let! c := get in
  if negb (isOpen c) then throw MojErrNotOpen
  else match m_aggregateFilter c with
       | Some f => ret (to_uint 32 (Z.of_nat (MojDbAggregateFilter.count f)))
       | None => accumulated (on_query sq_count)
       end.

Definition nextPage : M MojDbKey :=
  let! c := get in
  if negb (isOpen c) then throw MojErrNotOpen else accumulated (on_query sq_nextPage).

(** ** Closing

    Every part is closed; the last error is returned. *)
Definition then_ (err : option MojErr) (r : res unit) : option MojErr :=
  match r with Err e => Some e | Ok _ => err end.

Definition close : M unit :=
  let! c := get in
  let! err :=
    match m_storageQuery c with
    | None => ret None
    | Some q =>
        let! err := match m_watcher c with
                    | None => ret None
                    | Some _ => let! r := attempt (on m_watcher with_watcher AssertFailed (watcher_activate (sq_endKey q))) in ret (then_ None r)
                    end in
        let! r := attempt (on_query sq_close) in ret (then_ err r)
    end in
  let! err :=
    if m_ownTxn c then
      match m_txn c with
      | None => ret err
      | Some _ =>
          let op := match m_lastErr c with None => txn_commit | Some _ => txn_abort end in
          let! r := attempt (on m_txn (fun c t => with_txn c t (m_ownTxn c)) AssertFailed op) in ret (then_ err r)
      end
    else ret err in
  let! _ := modify (fun c =>
    {| m_ownTxn := m_ownTxn c; m_lastErr := None; m_query := MojDbQuery.clear (m_query c); m_txn := None; m_storageQuery := None;
       m_objectFilter := None; m_queryFilter := None; m_aggregateFilter := None; m_watcher := None; m_vmode := m_vmode c |}) in
  match err with Some e => throw e | None => ret tt end.
End cursor.
End MojDbCursor.

(** The query of the LevelDB engine; [endKey], [excludeKinds] and [verify] are those
    of [MojDbIsamQuery]. *)
Definition level_storage `{LevelDB} `{KindTokens} `{ShardTable} (tokenSet : mstring -> res (list mstring)) {QT : Type} (fuel : nat) :
    StorageQuery (MojDbIsamQuery.MojDbIsamQuery (MojDbLevelQuery.Impl (QT := QT))) := {|
  sq_get := MojDbLevelQuery.get_ tokenSet fuel;
  sq_getId := MojDbLevelQuery.getId fuel;
  sq_getById := MojDbLevelQuery.getById;
  sq_getObject _ := throw MojErrNotImplemented;
  sq_groupCount := MojDbIsamQuery.groupCount;
  sq_count := MojDbLevelQuery.count tokenSet fuel;
  sq_nextPage := MojDbIsamQuery.nextPage;
  sq_close := modify MojDbLevelQuery.close;
  sq_endKey := MojDbIsamQuery.m_endKey;
  sq_excludeKinds kinds q := MojDbIsamQuery.with_options q kinds (MojDbIsamQuery.m_verify q);
  sq_verify verify q := MojDbIsamQuery.with_options q (MojDbIsamQuery.m_excludeKinds q) verify |}.
