(* ===== verification/CursorSpec.v ===== *)
(** * What a cursor shows

    A cursor shows a visitor every item its storage query returns, in order, through
    the property filter of the query; on the LevelDB engine these are the records
    the query's plan selects. *)

From S2P Require Import Prelude Effects Containers CoreUtil Number Object ObjectBuilder DataSerialization TokenSet ObjectSerialization Text DbKey Json JsonRoundTrip DbQuery QueryPlan OrderedMap LevelDb LevelDbSpec LevelDbTxn LevelDbCursor ObjectItem ObjectItemSpec IsamQuery IsamQuerySpec LevelDbQuery Extractor ObjectFilter ObjectFilterSpec AggregateFilter QueryFilter Cursor.
Import MojDbCursor.

(** ** A computation keeps a property of the state *)
Definition keeps {S A} (P : S -> Prop) (m : st S A) : Prop := forall s, P s -> P (m s).1.

Lemma keeps_ret {S A} (P : S -> Prop) (a : A) : keeps P (ret a).
Proof. by intros s. Qed.
Lemma keeps_throw {S A} (P : S -> Prop) e : keeps P (throw e : st S A).
Proof. by intros s. Qed.
Lemma keeps_lift {S A} (P : S -> Prop) (r : res A) : keeps P (lift r).
Proof. by intros s. Qed.
Lemma keeps_get {S} (P : S -> Prop) : keeps P (@get S).
Proof. by intros s. Qed.
Lemma keeps_modify {S} (P : S -> Prop) (f : S -> S) : (forall s, P s -> P (f s)) -> keeps P (modify f).
Proof. by intros H s Hs; apply H. Qed.
Lemma keeps_bind {S A B} (P : S -> Prop) (m : st S A) (f : A -> st S B) :
  keeps P m -> (forall a, keeps P (f a)) -> keeps P (bind m f).
Proof. intros Hm Hf s Hs. unfold bind. specialize (Hm s Hs). destruct (m s) as [s1 [a|e]]; [by apply Hf|done]. Qed.
Lemma keeps_attempt {S A} (P : S -> Prop) (m : st S A) : keeps P m -> keeps P (attempt m).
Proof. intros Hm s Hs. unfold attempt. specialize (Hm s Hs). by destruct (m s). Qed.

Ltac keep :=
  repeat first
    [ match goal with
      | H : keeps _ ?m |- keeps _ ?m => exact H
      | H : forall _, keeps _ _ |- keeps _ _ => apply H
      | H : forall _ _, keeps _ _ |- keeps _ _ => apply H
      end
    | apply keeps_ret | apply keeps_throw | apply keeps_lift | apply keeps_get | apply keeps_attempt
    | apply keeps_modify; intros ? ?; assumption
    | apply keeps_bind; [|intros ?]
    | match goal with
      | |- keeps _ (match ?x with _ => _ end) => destruct x
      | |- keeps _ (let (_, _) := ?x in _) => destruct x
      end ].

(** ** The LevelDB engine's query never changes the verification flag *)
Section level.
Context `{LevelDB} `{KindTokens} `{ShardTable} (tokenSet : mstring -> res (list mstring)) {QT : Type}.
Import MojDbIsamQuery.
Abbreviation LQ := (MojDbIsamQuery (MojDbLevelQuery.Impl (QT := QT))).
Definition unverified (q : LQ) : Prop := m_verify q = false.

Lemma plan_keeps : keeps unverified the_plan.
Proof. unfold the_plan. keep. Qed.

Lemma level_getKey_keeps flags : keeps unverified (MojDbLevelQuery.getKey flags).
Proof. unfold MojDbLevelQuery.getKey. pose proof plan_keeps. keep. Qed.

Lemma level_next_keeps : keeps unverified MojDbLevelQuery.next.
Proof. unfold MojDbLevelQuery.next. pose proof plan_keeps. pose proof level_getKey_keeps. keep. Qed.

Lemma level_seek_keeps key d : keeps unverified (MojDbLevelQuery.seekImpl key d).
Proof. unfold MojDbLevelQuery.seekImpl. pose proof level_next_keeps. pose proof level_getKey_keeps. keep. Qed.

Lemma exclude_keeps item : keeps unverified (checkExclude (I := MojDbLevelQuery.Impl (QT := QT)) item).
Proof. unfold checkExclude. keep. Qed.

Lemma parse_keeps : keeps unverified parseId.
Proof. unfold parseId. pose proof plan_keeps. keep. Qed.

Lemma full_keeps : keeps unverified limitEnforced.
Proof. unfold limitEnforced. pose proof plan_keeps. keep. Qed.

Lemma count_keeps : keeps unverified incrementCount.
Proof. unfold incrementCount, saveEndKey. pose proof plan_keeps. pose proof full_keeps. keep. Qed.

Lemma compare_keeps key : keeps unverified (compareKey key).
Proof. unfold compareKey. keep. Qed.

Lemma match_keeps range : keeps unverified (match_ range).
Proof. unfold match_. pose proof plan_keeps. pose proof compare_keeps. keep. Qed.

Lemma shard_keeps : keeps unverified checkShard.
Proof. unfold checkShard. pose proof parse_keeps. keep. Qed.

Lemma distinct_keeps item : keeps unverified (distinct tokenSet item).
Proof. unfold distinct. keep. Qed.

Lemma level_val_keeps : keeps unverified (MojDbLevelQuery.getVal).
Proof.
  unfold MojDbLevelQuery.getVal, MojDbLevelQuery.getById. pose proof exclude_keeps. pose proof parse_keeps. keep.
Qed.

Lemma seek_keeps range : keeps unverified (seek MojDbLevelQuery.seekImpl range).
Proof. unfold seek. pose proof plan_keeps. pose proof compare_keeps. pose proof level_seek_keeps. keep. Qed.

Lemma getKey_keeps fuel : keeps unverified (MojDbIsamQuery.getKey MojDbLevelQuery.seekImpl MojDbLevelQuery.next fuel).
Proof.
  pose proof full_keeps. pose proof seek_keeps. pose proof match_keeps. pose proof shard_keeps. pose proof level_next_keeps.
  induction fuel as [|fuel IH]; cbn [MojDbIsamQuery.getKey]; keep.
Qed.

Lemma getImpl_keeps fuel getIt : keeps unverified
  (getImpl tokenSet MojDbLevelQuery.seekImpl MojDbLevelQuery.next (MojDbLevelQuery.getVal) fuel getIt).
Proof.
  unfold getImpl. pose proof getKey_keeps. pose proof level_val_keeps. pose proof count_keeps. pose proof distinct_keeps.
  pose proof parse_keeps. keep.
Qed.

Lemma level_get_keeps fuel : keeps unverified (MojDbLevelQuery.get_ tokenSet fuel).
Proof.
  unfold MojDbLevelQuery.get_. pose proof getImpl_keeps.
  induction fuel as [|fuel IH]; cbn [get_loop]; keep.
Qed.
End level.

(** ** The walk of a cursor over its storage query *)
Section walk.
Context {Q T W : Type} `{StorageQuery Q} `{CursorTxn T} `{CursorWatcher W} `{ICU} `{Doubles} `{KindTokens}.
Context (tokenSet : mstring -> res (list mstring)) (strToDecimal : mstring -> Z).
Abbreviation Cur := (MojDbCursor Q T W).

(** One item, as a cursor asks for it. *)
Definition verified_get (vmode : bool) : st Q (option StorageItem * bool) :=
  let! _ := modify (sq_verify vmode) in sq_get.

Lemma getItem_ok (c : Cur) q q' r : m_storageQuery c = Some q -> verified_get (m_vmode c) q = (q', Ok r) ->
  getItem c = (with_storage c (Some q'), Ok r).
Proof.
  intros Eq E. unfold verified_get, bind, modify in E.
  unfold getItem, on_query, on, bind, get, modify, attempt, lift, ret. rewrite Eq. cbn [with_storage m_storageQuery].
  rewrite E. done.
Qed.

Lemma with_storage_twice (c : Cur) a b : with_storage (with_storage c a) b = with_storage c b.
Proof. done. Qed.

Section visitor.
Context {S : Type} `{!Visitor S}.

(** Items shown one after the other. *)
Definition showAll (filter : option MojObjectFilter.Node) (items : list StorageItem) (v : S) : res S :=
  res_fold (fun v i => show tokenSet filter i v) v items.

(** *** A [get] that gives some items, one after the other *)
Section virtual.
Context {X : Type} (base : X -> Cur) (with_base : X -> Cur -> X) (vget : st X (option StorageItem * bool)).
Context (base_self : forall x, with_base x (base x) = x).
Context (base_put : forall x c, base (with_base x c) = c).

Fixpoint feeds (filter : option MojObjectFilter.Node) (items : list StorageItem) (x x' : X) : Prop :=
  match items with
  | [] => exists item, vget x = (x', Ok (item, false))
  | i :: items' => exists x1, vget x = (x1, Ok (Some i, true)) /\ m_aggregateFilter (base x1) = None /\ m_objectFilter (base x1) = filter /\ feeds filter items' x1 x'
  end.

Lemma visitObject_end x x' item v : vget x = (x', Ok (item, false)) ->
  visitObjectV tokenSet strToDecimal base with_base vget v x = (x', Ok (v, false)).
Proof.
  intros E. unfold visitObjectV, on_base, bind, attempt, accumulate, modify, lift. rewrite E, base_self. by destruct item.
Qed.

Lemma visitObject_item x x' i v : vget x = (x', Ok (Some i, true)) -> m_aggregateFilter (base x') = None ->
  visitObjectV tokenSet strToDecimal base with_base vget v x =
  match show tokenSet (m_objectFilter (base x')) i v with
  | Ok v' => (x', Ok (v', true))
  | Err e => (with_base x' (with_lastErr (base x') (Some e)), Err e)
  end.
Proof.
  intros E Ea. unfold visitObjectV, accumulated, on_base, bind, attempt, accumulate, modify, lift, get, ret.
  rewrite E, base_self. cbn [negb]. rewrite Ea. destruct (show tokenSet _ i v); by rewrite ?base_self.
Qed.

Lemma visit_loop_feeds filter items : forall fuel x x' v, feeds filter items x x' -> (length items < fuel)%nat ->
  match showAll filter items v with
  | Ok v' => visit_loopV tokenSet strToDecimal base with_base vget fuel v x = (x', Ok v')
  | Err e => e <> MojErrInternalIndexOnFind ->
      exists x1, visit_loopV tokenSet strToDecimal base with_base vget fuel v x = (x1, Err e) /\ m_lastErr (base x1) = Some e
  end.
Proof.
  induction items as [|i items IH]; intros [|fuel] x x' v Hf Hl; cbn [length] in Hl; try lia; cbn [visit_loopV]; unfold bind, attempt.
  - destruct Hf as [item E]. cbn. by rewrite (visitObject_end _ _ _ v E).
  - destruct Hf as (x1 & E & Ea & Eo & Hf). rewrite (visitObject_item _ _ _ v E Ea). unfold showAll. cbn [res_fold]. rewrite Eo.
    destruct (show tokenSet filter i v) as [v1|e]; cbn [res_bind].
    + apply (IH fuel x1 x' v1 Hf). lia.
    + intros Hne. rewrite decide_False by done. eexists. split; [reflexivity|]. by rewrite base_put.
Qed.

Lemma visit_feeds filter items fuel x x' v : isOpen (base x) = true -> m_aggregateFilter (base x') = None ->
  feeds filter items x x' -> (length items < fuel)%nat ->
  match showAll filter items v with
  | Ok v' => visitV tokenSet strToDecimal base with_base vget fuel v x = (x', Ok v')
  | Err e => e <> MojErrInternalIndexOnFind ->
      exists x1, visitV tokenSet strToDecimal base with_base vget fuel v x = (x1, Err e) /\ m_lastErr (base x1) = Some e
  end.
Proof.
  intros Eo Ea Hf Hl. pose proof (visit_loop_feeds filter items fuel x x' v Hf Hl) as IH.
  unfold visitV, bind, get. rewrite Eo. cbn [negb].
  destruct (showAll filter items v) as [v'|e].
  - rewrite IH. by rewrite Ea.
  - intros Hne. destruct (IH Hne) as (c' & -> & Ec). by exists c'.
Qed.
End virtual.

(** An item that is found is there. *)
Context (found_there : forall q q' : Q, sq_get q <> (q', Ok (None, true))).

Lemma verified_there vmode q q' : verified_get vmode q <> (q', Ok (None, true)).
Proof. unfold verified_get, bind, modify. apply found_there. Qed.

Lemma fetch_feeds n : forall (c : Cur) q q' items, m_storageQuery c = Some q -> m_aggregateFilter c = None ->
  fetch (verified_get (m_vmode c)) n q = (q', Ok items) -> (length items < n)%nat ->
  feeds (fun c => c) getItem (m_objectFilter c) items c (with_storage c (Some q')).
Proof.
  induction n as [|n IH]; intros c q q' items Eq Ea E Hl; [lia|].
  cbn [fetch] in E. apply bind_inv in E as (q1 & [item found] & Eg & E).
  pose proof (getItem_ok c q q1 (item, found) Eq Eg) as Ei.
  destruct item as [i|], found.
  2, 4: injection E as <- <-; by eexists.
  2: by apply verified_there in Eg.
  apply bind_inv in E as (q2 & l & E & Er). injection Er as <- <-. cbn [length] in Hl.
  exists (with_storage c (Some q1)). split_and!; [exact Ei|exact Ea|done|].
  apply (IH (with_storage c (Some q1)) q1 q2 l eq_refl Ea E). lia.
Qed.

(** [visit] shows what the storage query returns. *)
Lemma visit_fetch n fuel (c : Cur) q q' items v : m_storageQuery c = Some q -> m_aggregateFilter c = None ->
  fetch (verified_get (m_vmode c)) n q = (q', Ok items) -> (length items < n)%nat -> (n <= fuel)%nat ->
  match showAll (m_objectFilter c) items v with
  | Ok v' => visit tokenSet strToDecimal fuel v c = (with_storage c (Some q'), Ok v')
  | Err e => e <> MojErrInternalIndexOnFind -> exists c', visit tokenSet strToDecimal fuel v c = (c', Err e) /\ m_lastErr c' = Some e
  end.
Proof.
  intros Eq Ea E Hl Hf. pose proof (fetch_feeds n c q q' items Eq Ea E Hl) as HF.
  apply (visit_feeds (fun c => c) (fun _ c => c) getItem ltac:(done) ltac:(done) (m_objectFilter c) items fuel c _ v); [|exact Ea|exact HF|lia].
  unfold isOpen. by rewrite Eq.
Qed.
End visitor.
End walk.

(** ** On the LevelDB engine *)
Lemma level_found_there `{LevelDB} `{KindTokens} `{ShardTable} (tokenSet : mstring -> res (list mstring)) {QT : Type} fuel
    (q q' : MojDbIsamQuery.MojDbIsamQuery (MojDbLevelQuery.Impl (QT := QT))) :
  MojDbLevelQuery.get_ tokenSet fuel q <> (q', Ok (None, true)).
Proof.
  unfold MojDbLevelQuery.get_. revert q. induction fuel as [|fuel IH]; intros q; cbn [MojDbIsamQuery.get_loop]; [done|].
  unfold bind, get, attempt. destruct (MojDbIsamQuery.getImpl _ _ _ _ _ _ q) as [q1 [[item found]|e]].
  - destruct item as [i|]; [done|]. destruct found; [apply IH|done].
  - destruct (decide (e = MojErrInternalIndexOnFind)); [|done]. destruct (MojDbIsamQuery.m_verify q); [done|apply IH].
Qed.

Lemma level_fetch_verified `{LevelDB} `{KindTokens} `{ShardTable} (tokenSet : mstring -> res (list mstring)) {QT : Type} fuel n :
  forall q q' : MojDbIsamQuery.MojDbIsamQuery (MojDbLevelQuery.Impl (QT := QT)), forall items,
  unverified q -> fetch (MojDbLevelQuery.get_ tokenSet fuel) n q = (q', Ok items) ->
  fetch (verified_get (H := level_storage tokenSet fuel) false) n q = (q', Ok items).
Proof.
  induction n as [|n IH]; intros q q' items Hu E; [done|]. cbn [fetch] in *.
  apply bind_inv in E as (q1 & [item found] & Eg & E).
  assert (verified_get (H := level_storage tokenSet fuel) false q = (q1, Ok (item, found))) as Ev.
  { unfold verified_get, bind, modify, level_storage. cbn [sq_verify sq_get]. rewrite <- Eg. f_equal.
    unfold MojDbIsamQuery.with_options. destruct q. unfold unverified in Hu. cbn in *. by subst. }
  rewrite (bind_ok _ _ _ _ _ Ev). pose proof (level_get_keeps tokenSet fuel q Hu) as Hu1. rewrite Eg in Hu1.
  destruct item as [i|], found; try exact E. apply bind_inv in E as (q2 & l & E & Er).
  by rewrite (bind_ok _ _ _ _ _ (IH q1 q2 l Hu1 E)).
Qed.

Lemma level_open_unverified `{LevelDB} {QT : Type} db joined plan (t : MojDbLevelCursor.Txn (Q := QT)) h q :
  MojDbLevelQuery.open db joined plan t h = Ok q -> unverified q.
Proof. unfold MojDbLevelQuery.open. intros (t1 & _ & [= <-])%res_bind_ok. done. Qed.

Section find.
Context `{LevelDBLaws} `{KindTokens} `{ShardTable} (tokenSet : mstring -> res (list mstring)) {QT : Type}.
Context {T W : Type} `{CursorTxn T} `{CursorWatcher W} `{ICU} `{Doubles} (strToDecimal : mstring -> Z).
Context (plan : MojDbQueryPlan.MojDbQueryPlan).
Import MojDbIsamQuery (limit, desc).

(** C7: a cursor on a query of the LevelDB engine, over any state of a transaction,
    shows its visitor exactly the records the query's plan selects, in the order of
    their keys and each once, through the property filter of the query; an error of
    the visitor ends the walk, is returned and is kept for the end of the
    transaction. *)
Theorem find_shows (db db2 : DB) ops t out ops2 t2 out2 h (q0 : QT) fuel :
  run_ops db MojDbLevelTableTxn.begin ops = Ok (t, out) -> run_ops db2 MojDbLevelTableTxn.begin ops2 = Ok (t2, out2) ->
  let m := (spec_ops (db_view db) ops).1 in
  let records := (spec_ops (db_view db2) ops2).1 in
  let result := upto (limit plan) (answer plan m records) in
  Forall (fun e => e.1 <> []) m -> ordered (desc plan) (MojDbQueryPlan.m_ranges plan) -> readable plan m ->
  MojDbQuery.m_distinct (MojDbQueryPlan.m_query plan) = [] -> limit plan <= MojUInt32Max ->
  (length (MojDbQueryPlan.m_ranges plan) + length m < fuel)%nat ->
  exists q, MojDbLevelQuery.open db (Some (db2, t2)) plan {| MojDbLevelCursor.m_ttxn := t; MojDbLevelCursor.m_quota := q0 |} h = Ok q /\
    forall (S : Type) (V : Visitor S) (c : MojDbCursor _ T W) (v : S) fuel2,
    m_storageQuery c = Some q -> m_vmode c = false -> m_aggregateFilter c = None -> (length result < fuel2)%nat ->
    match showAll tokenSet (m_objectFilter c) (map (fun x => item_of x.1.2 x.2) result) v with
    | Ok v' => exists q', visit (H := level_storage tokenSet fuel) tokenSet strToDecimal fuel2 v c = (with_storage c (Some q'), Ok v')
    | Err e => e <> MojErrInternalIndexOnFind ->
        exists c', visit (H := level_storage tokenSet fuel) tokenSet strToDecimal fuel2 v c = (c', Err e) /\ m_lastErr c' = Some e
    end.
Proof.
  intros E E2 m records result Hm Ho R Ed Lp Hf.
  destruct (query_result tokenSet plan db db2 ops t out ops2 t2 out2 h q0 fuel (Datatypes.S (length result)) E E2 Hm Ho R Ed Lp Hf) as (q & q' & Eq & Ef & _); [exact (Nat.lt_succ_diag_r _)|].
  exists q. split; [exact Eq|]. intros S V c v fuel2 Ec Ev Ea Hl.
  apply (level_fetch_verified tokenSet fuel _ q q' _ (level_open_unverified _ _ _ _ _ _ Eq)) in Ef. rewrite <- Ev in Ef.
  pose proof (visit_fetch (H := level_storage tokenSet fuel) tokenSet strToDecimal (level_found_there tokenSet fuel) _ fuel2 c q q' _ v Ec Ea Ef) as HV.
  rewrite length_map in HV. specialize (HV (Nat.lt_succ_diag_r _) Hl).
  fold m records result in HV. destruct (showAll _ _ _ v) as [v'|e]; [by exists q'|exact HV].
Qed.
End find.

(** ** A cursor with a property filter on two records *)
Module CursorExample.
#[local] Instance logdb : LevelDB := LogDB.logdb.
#[local] Instance logdb_laws : LevelDBLaws := LogDB.logdb_laws.
#[local] Instance kinds : KindTokens := RecordSpec.one_kind.
#[local] Instance shards : ShardTable := {| shard_active _ := Ok (Some true) |}.
#[local] Instance no_txn : CursorTxn unit := {| txn_commit := ret tt; txn_abort := ret tt |}.
#[local] Instance no_watcher : CursorWatcher unit := {| watcher_activate _ := ret tt |}.
#[local] Instance icu : ICU := MojDbQueryFilter.Sample.icu.
#[local] Instance no_doubles : Doubles := {|
  double := Z; double_of_int v := v; of_decimal r := r; to_decimal d := d; double_add := Z.add; double_div := Z.quot |}.

Definition record_of (o : MojObject) : bytes := RecordSpec.header_bytes 5 9 false ++ QueryExample.enc o.
Definition key_of (id : string) : bytes := QueryExample.enc (StringImpl (_T id)).

Definition primary : list BatchOp :=
  [BatchPut (key_of "a") (record_of (ObjectImpl [(_T "n", IntImpl 1); (_T "p", IntImpl 7)]));
   BatchPut (key_of "c") (record_of (ObjectImpl [(_T "Name", IntImpl 4); (_T "n", IntImpl 2)]))].

Definition index_txn : MojDbLevelTableTxn.MojDbLevelTableTxn :=
  match run_ops (QueryExample.index : @DB logdb) MojDbLevelTableTxn.begin QueryExample.changes with
  | Ok (t, _) => t | Err _ => MojDbLevelTableTxn.begin end.

Definition in_array (v : list MojObject) : MojObjectBuilder.MojObjectBuilder :=
  {| MojObjectBuilder.m_stack := [{| MojObjectBuilder.r_obj := ArrayImpl v; MojObjectBuilder.r_propName := [] |}];
     MojObjectBuilder.m_obj := UndefinedImpl; MojObjectBuilder.m_propName := [] |}.

Definition plan : MojDbQueryPlan.MojDbQueryPlan := QueryExample.plan false 10 [] QueryExample.low QueryExample.high.

(** A stored record shows its header's properties first, [_id] before all others: a
    selected name that sorts before [_id] is passed over by the children's iterator
    and lost. *)
Lemma selected_name_lost :
  MojDbCursor.show (fun _ => Ok []) (Some (MojObjectFilter.init [_T "Name"; _T "_id"]))
    (item_of (StringImpl (_T "c")) (record_of (ObjectImpl [(_T "Name", IntImpl 4)]))) (in_array []) =
  Ok (in_array [ObjectImpl [(IdKey, StringImpl (_T "c"))]]).
Proof. vm_compute. reflexivity. Qed.

Lemma find_shows_witness : exists q, MojDbLevelQuery.open (QueryExample.index : @DB logdb) (Some (primary, MojDbLevelTableTxn.begin)) plan
    {| MojDbLevelCursor.m_ttxn := index_txn; MojDbLevelCursor.m_quota := 0 |} 1 = Ok q /\
  exists q', visit (T := unit) (W := unit) (H := level_storage (fun _ => Ok []) 10) (fun _ => Ok []) (fun _ => 0) 5 (in_array [])
    (with_filters (with_storage make (Some q)) MojDbQuery.make (Some (MojObjectFilter.init [_T "n"])) None None) =
  (with_storage (with_filters (with_storage make (Some q)) MojDbQuery.make (Some (MojObjectFilter.init [_T "n"])) None None) (Some q'),
   Ok (in_array [ObjectImpl [(_T "n", IntImpl 1)]; ObjectImpl [(_T "n", IntImpl 2)]])).
Proof.
  destruct (find_shows (T := unit) (W := unit) (fun _ => Ok []) (fun _ => 0) plan (QueryExample.index : @DB logdb) (primary : @DB logdb)
    QueryExample.changes index_txn _ [] _ _ 1 0 10 eq_refl eq_refl) as (q & Eq & HV).
  - vm_compute. repeat constructor; discriminate.
  - repeat constructor.
  - apply QueryExample.example_readable.
  - reflexivity.
  - discriminate.
  - vm_compute. repeat constructor.
  - exists q. split; [exact Eq|].
    refine (HV _ _ (with_filters (with_storage make (Some q)) MojDbQuery.make (Some (MojObjectFilter.init [_T "n"])) None None)
      (in_array []) 5%nat eq_refl eq_refl eq_refl _).
    vm_compute. repeat constructor.
Defined.
End CursorExample.
