(* ===== verification/SearchCursor.v ===== *)
(** * Search cursors: src/src/db/MojDbSearchCacheCursor.cpp,
    src/inc/db/MojDbSearchCacheCursor.h

    A search draws the ids of its storage query, which come in groups, one for each
    word of the text; it keeps the ids that are in all groups, loads their objects,
    filters and sorts them, and shows one page.  The ids of a result longer than a
    page go to the cache of the kind, where the next page is made from.

    The state is the cursor and the cache.  The loops over ids have fuel, a turn for
    each id.  The threads that load objects take the lock for all they do, so they
    run one after the other in an order that is an argument. *)

From S2P Require Import Prelude Effects Containers QuickSort CoreUtil Number Object ObjectBuilder DataSerialization TokenSet ObjectSerialization Text DbKey Json JsonRoundTrip DbQuery QueryPlan ObjectItem IsamQuery Extractor ObjectFilter AggregateFilter QueryFilter Cursor.

(** ** The cache: src/src/db/MojDbSearchCache.cpp, src/inc/db/MojDbSearchCache.h

    A kind keeps the ids a search has found, in the order of the result, under a key
    made of the kind, the text of the query and the kind's revision.  The lock is not
    modelled: an operation is one step. *)
Module MojDbSearchCache.

(** [strncmp]: at most [n] characters, and none past a terminator. *)
Fixpoint strncmp (n : nat) (a b : mstring) : Z :=
  match n, a, b with
  | O, _, _ => 0
  | S _, [], [] => 0
  | S _, [], c :: _ => - c
  | S _, c :: _, [] => c
  | S n', c :: a', d :: b' => if negb (c =? d) then c - d else if c =? 0 then 0 else strncmp n' a' b'
  end.

Record QueryKey := { m_kind : mstring; m_rev : Z; m_query : mstring }.

(** [setQuery]: the query as JSON text, without its page and limit. *)
Definition setQuery (query : MojDbQuery.MojDbQuery) (m_rev : Z) : res QueryKey :=
  let? obj := MojDbQuery.toObject query in
  let obj := (MojObject.del obj MojDbQuery.PageKey).1 in
  let obj := (MojObject.del obj MojDbQuery.LimitKey).1 in
  let? text := JsonRoundTrip.toJson obj in
  Ok {| m_kind := MojDbQuery.m_fromType query; m_rev := m_rev; m_query := text |}.

Definition fromQuery (query : MojDbQuery.MojDbQuery) (revision : Z) : res QueryKey := setQuery query revision.

Definition eq (k rhs : QueryKey) : bool :=
  (m_rev k =? m_rev rhs) && bool_decide (m_query k = m_query rhs) && bool_decide (m_kind k = m_kind rhs).

Definition lt (k rhs : QueryKey) : bool :=
  let eqKind := MojStrCmp (m_kind k) (m_kind rhs) in
  let eqQuery := strncmp (length (m_query k)) (m_query k) (m_query rhs) in
  (eqKind <? 0) || ((eqKind =? 0) && (eqQuery <? 0)) || ((eqKind =? 0) && (eqQuery =? 0) && (m_rev k <? m_rev rhs)).

(** A [std::map] on [operator<]: its entries in order; keys are the same when neither
    is before the other. *)
Abbreviation IdSet := (list MojObject).
Abbreviation Container := (list (QueryKey * IdSet)).

Definition same (a b : QueryKey) : bool := negb (lt a b) && negb (lt b a).

Definition find (c : Container) (key : QueryKey) : option IdSet :=
  match List.find (fun e => same e.1 key) c with Some e => Some e.2 | None => None end.

Fixpoint insert_at (c : Container) (e : QueryKey * IdSet) : Container :=
  match c with
  | [] => [e]
  | x :: c' => if lt x.1 e.1 then x :: insert_at c' e else e :: c
  end.

(** [insert] leaves an entry that is there as it is. *)
Definition insert (c : Container) (e : QueryKey * IdSet) : Container :=
  match find c e.1 with Some _ => c | None => insert_at c e end.

Definition erase (c : Container) (key : QueryKey) : Container := List.filter (fun e => negb (same e.1 key)) c.

Definition contain (c : Container) (key : QueryKey) : bool :=
  match find c key with Some _ => true | None => false end.

Definition createCache (c : Container) (key : QueryKey) (ids : IdSet) : Container := insert c (key, ids).
Definition destroyCache (c : Container) (key : QueryKey) : Container := erase c key.
Definition wipeWholeCache (c : Container) : Container := [].

(** [destroyCache] of a kind: its keys are collected, then erased. *)
Definition destroyCache_kind (c : Container) (kind : mstring) : Container :=
  fold_left erase (map fst (List.filter (fun e => bool_decide (m_kind e.1 = kind)) c)) c.

Definition updateCache (c : Container) (key : QueryKey) (ids : IdSet) : Container :=
  if contain c key then c else createCache (destroyCache_kind c (m_kind key)) key ids.

(** [getIdSet] leaves what it is given when the key is not there. *)
Definition getIdSet (c : Container) (key : QueryKey) (ids : IdSet) : IdSet :=
  match find c key with Some l => l | None => ids end.

(** ** What the cache holds *)
Lemma strncmp_refl n a : strncmp n a a = 0.
Proof.
  revert a. induction n as [|n IH]; intros [|c a]; try done. cbn [strncmp]. rewrite Z.eqb_refl. cbn [negb].
  by destruct (c =? 0).
Qed.

Lemma lt_irrefl k : lt k k = false.
Proof.
  unfold lt. rewrite (comp_refl MojStrCmp), strncmp_refl. cbn. apply Z.ltb_irrefl.
Qed.

Lemma same_key_refl k : same k k = true.
Proof. unfold same. by rewrite lt_irrefl. Qed.

(** Keys of one query of one kind are the same only at the same revision. *)
Lemma same_rev a b : same a b = true -> m_kind a = m_kind b -> m_query a = m_query b -> m_rev a = m_rev b.
Proof.
  unfold same, lt. intros [H1 H2]%andb_true_iff Ek Eq. rewrite Ek, Eq, (comp_refl MojStrCmp), strncmp_refl in H1, H2.
  cbn in H1, H2. apply negb_true_iff, Z.ltb_ge in H1, H2. lia.
Qed.

Lemma erase_kind_all c kind : (forall e, e ∈ c -> m_kind e.1 = kind) -> destroyCache_kind c kind = [].
Proof.
  intros H. unfold destroyCache_kind.
  assert (forall ks d, (forall e, e ∈ d -> exists k, k ∈ ks /\ same e.1 k = true) -> fold_left erase ks d = []) as HF.
  { induction ks as [|k ks IH]; intros d Hd; cbn [fold_left].
    - destruct d as [|e d]; [done|]. destruct (Hd e) as (k & Hk & _); [left|]. by apply elem_of_nil in Hk.
    - apply IH. intros e [He Hs]%list_elem_of_In%filter_In. apply list_elem_of_In in He.
      destruct (Hd e He) as (k' & [->|Hk]%elem_of_cons & E); [|by exists k']. by rewrite E in Hs. }
  apply HF. intros e He. exists e.1. split; [|apply same_key_refl].
  apply list_elem_of_In, in_map_iff. exists e. split; [done|]. apply filter_In. split; [by apply list_elem_of_In|].
  apply bool_decide_eq_true. auto.
Qed.
End MojDbSearchCache.

(** ** The cursor *)
Import MojDbSearchCache (QueryKey, Container).

(** What a search asks the kind of its query for: the properties and the first
    collation of each index, and how often its objects were updated. *)
Class SearchKinds := {
  kind_indexes : mstring -> res (list (list mstring * MojDbCollationStrength));
  kind_updateRevision : mstring -> res Z
}.

Module MojDbSearchCursor.
Definition MaxResults : Z := 10000.

(** An object item with the keys it is sorted by. *)
Record Item := { m_obj : MojObject; m_sortKeys : KeySet }.
Definition item_id (i : Item) : MojObject := MojDbObjectItem.id (m_obj i).
Definition ItemComp (i1 i2 : Item) : Z := MojSet.compare lexcmp (m_sortKeys i1) (m_sortKeys i2).

(** [m_pos] is null until the result is loaded.  A vector that was never filled
    begins at a null pointer too: [m_allocated]. *)
Record MojDbSearchCursor {Q T W : Type} `{Doubles} := {
  m_base : MojDbCursor.MojDbCursor Q T W;
  m_items : list Item;
  m_allocated : bool;
  m_orderProp : mstring;
  m_distinct : mstring;
  m_limit : Z;
  m_startPos : Z;
  m_pos : option nat;
  m_limitPos : nat;
  m_sequencedItems : list (Z * Item);
  m_collation : MojDbCollationStrength;
  m_page : MojDbKey;
  m_pageObject : MojObject;
  m_count : Z;
  m_queryKey : QueryKey;
  m_cacheQuery : MojDbQuery.MojDbQuery
}.
Arguments MojDbSearchCursor Q T W {_}.

Section cursor.
Context {Q T W : Type} `{StorageQuery Q} `{CursorTxn T} `{CursorWatcher W} `{ICU} `{ICUCase} `{Doubles} `{KindTokens} `{SearchKinds}.
Context (tokenSet : mstring -> res (list mstring)) (strToDecimal : mstring -> Z).
(** The locale of the constructor, and that of the index the query uses. *)
Context (m_locale : mstring) (indexLocale : option mstring).
(** The random numbers of the sort, and the order the threads of a pool run in. *)
Context (MojRand : nat -> nat) (schedule : list (Z * MojObject) -> list (Z * MojObject)).
Abbreviation Cur := (MojDbSearchCursor Q T W).
(** The cursor and the cache of its kind. *)
Abbreviation X := (Cur * Container)%type.
Abbreviation M := (st X).

Definition make : Cur :=
  {| m_base := MojDbCursor.make; m_items := []; m_allocated := false; m_orderProp := []; m_distinct := []; m_limit := 0;
     m_startPos := 0; m_pos := None; m_limitPos := 0; m_sequencedItems := []; m_collation := MojDbCollationInvalid;
     m_page := []; m_pageObject := UndefinedImpl; m_count := 0;
     m_queryKey := {| MojDbSearchCache.m_kind := []; MojDbSearchCache.m_rev := 0; MojDbSearchCache.m_query := [] |};
     m_cacheQuery := MojDbQuery.make |}.

Definition with_base (c : Cur) (b : MojDbCursor.MojDbCursor Q T W) : Cur :=
  {| m_base := b; m_items := m_items c; m_allocated := m_allocated c; m_orderProp := m_orderProp c; m_distinct := m_distinct c;
     m_limit := m_limit c; m_startPos := m_startPos c; m_pos := m_pos c; m_limitPos := m_limitPos c;
     m_sequencedItems := m_sequencedItems c; m_collation := m_collation c; m_page := m_page c; m_pageObject := m_pageObject c;
     m_count := m_count c; m_queryKey := m_queryKey c; m_cacheQuery := m_cacheQuery c |}.
Definition with_items (c : Cur) (l : list Item) : Cur :=
  {| m_base := m_base c; m_items := l; m_allocated := m_allocated c || negb (Nat.eqb (length l) 0); m_orderProp := m_orderProp c;
     m_distinct := m_distinct c; m_limit := m_limit c; m_startPos := m_startPos c; m_pos := m_pos c; m_limitPos := m_limitPos c;
     m_sequencedItems := m_sequencedItems c; m_collation := m_collation c; m_page := m_page c; m_pageObject := m_pageObject c;
     m_count := m_count c; m_queryKey := m_queryKey c; m_cacheQuery := m_cacheQuery c |}.
Definition with_pos (c : Cur) (pos : option nat) (limitPos : nat) (page : MojDbKey) : Cur :=
  {| m_base := m_base c; m_items := m_items c; m_allocated := m_allocated c; m_orderProp := m_orderProp c; m_distinct := m_distinct c;
     m_limit := m_limit c; m_startPos := m_startPos c; m_pos := pos; m_limitPos := limitPos;
     m_sequencedItems := m_sequencedItems c; m_collation := m_collation c; m_page := page; m_pageObject := m_pageObject c;
     m_count := m_count c; m_queryKey := m_queryKey c; m_cacheQuery := m_cacheQuery c |}.
Definition with_startPos (c : Cur) (startPos : Z) : Cur :=
  {| m_base := m_base c; m_items := m_items c; m_allocated := m_allocated c; m_orderProp := m_orderProp c; m_distinct := m_distinct c;
     m_limit := m_limit c; m_startPos := startPos; m_pos := m_pos c; m_limitPos := m_limitPos c;
     m_sequencedItems := m_sequencedItems c; m_collation := m_collation c; m_page := m_page c; m_pageObject := m_pageObject c;
     m_count := m_count c; m_queryKey := m_queryKey c; m_cacheQuery := m_cacheQuery c |}.
Definition with_sequenced (c : Cur) (l : list (Z * Item)) : Cur :=
  {| m_base := m_base c; m_items := m_items c; m_allocated := m_allocated c; m_orderProp := m_orderProp c; m_distinct := m_distinct c;
     m_limit := m_limit c; m_startPos := m_startPos c; m_pos := m_pos c; m_limitPos := m_limitPos c;
     m_sequencedItems := l; m_collation := m_collation c; m_page := m_page c; m_pageObject := m_pageObject c;
     m_count := m_count c; m_queryKey := m_queryKey c; m_cacheQuery := m_cacheQuery c |}.
Definition with_count (c : Cur) (count : Z) : Cur :=
  {| m_base := m_base c; m_items := m_items c; m_allocated := m_allocated c; m_orderProp := m_orderProp c; m_distinct := m_distinct c;
     m_limit := m_limit c; m_startPos := m_startPos c; m_pos := m_pos c; m_limitPos := m_limitPos c;
     m_sequencedItems := m_sequencedItems c; m_collation := m_collation c; m_page := m_page c; m_pageObject := m_pageObject c;
     m_count := count; m_queryKey := m_queryKey c; m_cacheQuery := m_cacheQuery c |}.
Definition with_queryKey (c : Cur) (key : QueryKey) : Cur :=
  {| m_base := m_base c; m_items := m_items c; m_allocated := m_allocated c; m_orderProp := m_orderProp c; m_distinct := m_distinct c;
     m_limit := m_limit c; m_startPos := m_startPos c; m_pos := m_pos c; m_limitPos := m_limitPos c;
     m_sequencedItems := m_sequencedItems c; m_collation := m_collation c; m_page := m_page c; m_pageObject := m_pageObject c;
     m_count := m_count c; m_queryKey := key; m_cacheQuery := m_cacheQuery c |}.

(** The cursor a search is made of, in the state. *)
Definition base (x : X) : MojDbCursor.MojDbCursor Q T W := m_base x.1.
Definition put_base (x : X) (b : MojDbCursor.MojDbCursor Q T W) : X := (with_base x.1 b, x.2).
Definition cursor : M Cur := let! x := get in ret x.1.
Definition change (f : Cur -> Cur) : M unit := modify (fun x => (f x.1, x.2)).
Definition query : M MojDbQuery.MojDbQuery := let! c := cursor in ret (MojDbCursor.m_query (m_base c)).
(** A method of the storage query, which has to be there. *)
Definition on_query {A} (m : st Q A) : M A :=
  MojDbCursor.on_base base put_base (MojDbCursor.on MojDbCursor.m_storageQuery MojDbCursor.with_storage AssertFailed m).

(** ** Set-up *)
Definition retrieveCollation (query : MojDbQuery.MojDbQuery) : res MojDbCollationStrength :=
  match MojDbQuery.m_orderProp query with
  | [] => Ok MojDbCollationInvalid
  | order =>
      let? indexVec := kind_indexes (MojDbQuery.m_fromType query) in
      Ok (fold_left (fun collation i =>
            match i.1 with
            | front :: _ => if MojStrCmp front order =? 0 then i.2 else collation
            | [] => collation
            end) indexVec MojDbCollationInvalid)
  end.

(** The page of the query is kept as an object and as a key.  The copy of the query
    the cache is asked with is written and read back; the code does not look whether
    that succeeds, which it does for every query that can be written, and a failure is
    an error here. *)
Definition init (query : MojDbQuery.MojDbQuery) : M unit :=
  let! _ := MojDbCursor.on_base base put_base (MojDbCursor.initImpl m_locale query) in
  let! collation := lift (retrieveCollation query) in
  let distinct := MojDbQuery.m_distinct query in
  let orderProp := match distinct with [] => MojDbQuery.m_orderProp query | _ => distinct end in
  let! c := cursor in
  let! pageObject := match MojDbQuery.m_page query with
                     | [] => ret (m_pageObject c)
                     | page => lift (MojDbQuery.Page_toObject page)
                     end in
  let page := match MojDbQuery.m_page query with
              | [] => m_page c
              | _ => match MojDbQuery.Page_fromObject pageObject with Ok page => page | Err _ => m_page c end
              end in
  let q := MojDbQuery.with_flags query (MojDbQuery.m_desc query) (MojDbQuery.m_immediateReturn query) MaxResults (MojDbQuery.m_page query) in
  let! obj := lift (MojDbQuery.toObject q) in
  let! cacheQuery := lift (MojDbQuery.fromObject kind_indexes m_locale (m_cacheQuery c) obj) in
  let q := MojDbQuery.order q [] in
  let q := MojDbQuery.with_flags q (MojDbQuery.m_desc q) (MojDbQuery.m_immediateReturn q) (MojDbQuery.m_limit q) [] in
  change (fun c =>
    let b := m_base c in
    {| m_base := MojDbCursor.with_filters b q (MojDbCursor.m_objectFilter b) (MojDbCursor.m_queryFilter b) (MojDbCursor.m_aggregateFilter b);
       m_items := m_items c; m_allocated := m_allocated c; m_orderProp := orderProp; m_distinct := distinct;
       m_limit := MojDbQuery.m_limit query; m_startPos := m_startPos c; m_pos := m_pos c; m_limitPos := m_limitPos c;
       m_sequencedItems := m_sequencedItems c; m_collation := collation; m_page := page; m_pageObject := pageObject;
       m_count := m_count c; m_queryKey := m_queryKey c; m_cacheQuery := cacheQuery |}).

(** ** Loading *)

(** The filter of the query on an object. *)
Definition passes (obj : MojObject) : M bool :=
  let! x := get in
  match MojDbCursor.m_queryFilter (base x) with
  | Some clauses => lift (MojDbQueryFilter.test clauses obj)
  | None => ret true
  end.

Definition push_item (obj : MojObject) : M unit :=
  change (fun c => with_items c (m_items c ++ [{| m_obj := obj; m_sortKeys := [] |}])).

(** A group's set is shared between the map and the loop, which puts ids into it. *)
Abbreviation GroupMap := (list (Z * list MojObject)).

Definition addId (groupMap : GroupMap) (groupNum : Z) (id : MojObject) : GroupMap :=
  let group := match MojMap.get MojComp groupMap groupNum with Some group => group | None => [] end in
  MojMap.put MojComp groupMap groupNum (MojSet.put MojObject.compare group id).

Fixpoint groups (fuel : nat) (groupMap : GroupMap) : M GroupMap :=
  match fuel with
  | O => throw AssertFailed
  | S fuel' =>
      let! found := on_query sq_getId in
      match found with
      | Some (id, idGroupNum) => groups fuel' (addId groupMap idGroupNum id)
      | None => ret groupMap
      end
  end.

(** The ids that are in all groups; none when a group is missing. *)
Definition intersection (groupCount : nat) (groupMap : GroupMap) : list MojObject :=
  if forallb (fun i => MojMap.contains MojComp groupMap (Z.of_nat i)) (seq 0 groupCount) then
    match groupMap with
    | [] => []
    | first :: rest => fold_left (fun idsOut i => MojSet.intersect MojObject.compare idsOut i.2) rest first.2
    end
  else [].

Definition loadIds (fuel : nat) : M (list MojObject) :=
  let! groupMap := groups fuel [] in
  let! groupCount := on_query sq_groupCount in
  ret (intersection groupCount groupMap).

(** One thread's work: the object under its id, to the place of its number. *)
Definition searchThread_callee (info : Z * MojObject) : M unit :=
  let! (obj, found) := on_query (sq_getObject info.2) in
  if negb found then ret tt
  else
    let! isFound := passes obj in
    if negb isFound then ret tt
    else change (fun c => with_sequenced c (MojMap.put MojComp (m_sequencedItems c) info.1 {| m_obj := obj; m_sortKeys := [] |})).

(** The threads; the first error is kept and the others go on. *)
Fixpoint run_threads (tasks : list (Z * MojObject)) (workerErr : option MojErr) : M (option MojErr) :=
  match tasks with
  | [] => ret workerErr
  | info :: tasks' =>
      let! r := attempt (searchThread_callee info) in
      run_threads tasks' (match r, workerErr with Err e, None => Some e | _, _ => workerErr end)
  end.

Definition number (ids : list MojObject) : list (Z * MojObject) := imap (fun seqNum id => (Z.of_nat seqNum, id)) ids.

Definition loadObjects (ids : list MojObject) : M unit :=
  let! workerErr := run_threads (schedule (number ids)) None in
  match workerErr with
  | Some e => throw e
  | None => change (fun c => with_items c (m_items c ++ map snd (m_sequencedItems c)))
  end.

(** [sort] by the keys of the order property, which all items are given first. *)
Definition sortExtractor (c : Cur) : res MojDbPropExtractor.MojDbPropExtractor :=
  let extractor := MojDbPropExtractor.prop MojDbPropExtractor.init (m_orderProp c) in
  if decide (m_collation c = MojDbCollationInvalid) then Ok extractor
  else
    let locale := match indexLocale with Some l => l | None => m_locale end in
    let? collator := MojDbTextCollator.init locale (m_collation c) in
    Ok (MojDbPropExtractor.collator extractor (Some collator)).

Definition keyItems (extractor : MojDbPropExtractor.MojDbPropExtractor) (l : list Item) : res (list Item) :=
  res_fold (fun done i => let? keys := MojDbPropExtractor.vals extractor (m_obj i) [] in
                          Ok (done ++ [{| m_obj := m_obj i; m_sortKeys := keys |}])) [] l.

Definition sort : M unit :=
  let! c := cursor in
  let! extractor := lift (sortExtractor c) in
  let! l := lift (keyItems extractor (m_items c)) in
  change (fun c => with_items c (MojQuickSort.MojQuickSort ItemComp MojRand l)).

(** [distinct]: of neighbours with the same keys the first stays. *)
Fixpoint distinctFrom (x : Item) (l : list Item) : list Item :=
  match l with
  | [] => [x]
  | y :: l' => if ItemComp x y =? 0 then distinctFrom x l' else x :: distinctFrom y l'
  end.

Definition distinctItems (l : list Item) : list Item := match l with [] => [] | x :: l' => distinctFrom x l' end.

Definition distinct : M unit := change (fun c => with_items c (distinctItems (m_items c))).

Definition reverse : M unit := change (fun c => with_items c (rev (m_items c))).

(** ** Pages *)

(** The place of the first item with the id of the page. *)
Fixpoint findPage (pageKey : MojObject) (l : list Item) (pos : nat) : res (option nat) :=
  match l with
  | [] => Ok None
  | i :: l' => if MojObject.compare pageKey (item_id i) =? 0 then Ok (Some pos) else findPage pageKey l' (S pos)
  end.

(** A place in the items as a pointer. *)
Definition pointer (c : Cur) (pos : nat) : option nat := if m_allocated c then Some pos else None.

(** [m_page.fromObject(nextId)]; what is no base 64 leaves the page as it is. *)
Definition pageOf (page : MojDbKey) (id : MojObject) : MojDbKey :=
  match MojDbQuery.Page_fromObject id with Ok page => page | Err _ => page end.

(** The id of the item at [m_limitPos]. *)
Definition idAt (c : Cur) (pos : nat) : res MojObject :=
  match m_items c !! pos with Some i => Ok (item_id i) | None => Err AssertFailed end.

Definition setPagePosition : M unit :=
  let! c := cursor in
  let last := length (m_items c) in
  let! pageKey := lift (MojDbQuery.Page_toObject (m_page c)) in
  let! found := lift (findPage pageKey (m_items c) 0) in
  match found with
  | None => change (fun c => with_pos c (pointer c last) last (m_page c))
  | Some pos =>
      if to_uint 32 (Z.of_nat (last - pos)) <=? m_limit c then change (fun c => with_pos c (Some pos) last [])
      else
        let limitPos := (pos + Z.to_nat (m_limit c))%nat in
        let! nextId := lift (idAt c limitPos) in
        let! _ := change (fun c => with_pos c (Some pos) limitPos (pageOf (m_page c) nextId)) in
        let! _ := lift (JsonRoundTrip.toJson nextId) in ret tt
  end.

Definition nextPage : M MojDbKey := let! c := cursor in ret (m_page c).

Definition getIds (c : Cur) : list MojObject := map item_id (m_items c).

(** The ids of the cache, from the page's on: their objects up to one more than the
    limit, and items with nothing but the id for the rest. *)
Fixpoint loadCached (ids : list MojObject) (foundStart : bool) (count : Z) : M (list MojObject) :=
  match ids with
  | [] => ret []
  | id :: ids' =>
      let! r := attempt (on_query (sq_getById id)) in
      match r with
      | Err e => if decide (e = MojErrInternalIndexOnFind) then loadCached ids' foundStart count else throw e
      | Ok (item, found) =>
          let! c := cursor in
          if negb foundStart && negb (MojObject.compare (m_pageObject c) id =? 0) then loadCached ids' foundStart count
          else if to_uint 32 (m_limit c + 1) <=? count then ret ids
          else
            let! obj := if found : bool
                        then lift (match item with Some i => MojDbStorageItem.toObject tokenSet i | None => Err AssertFailed end)
                        else ret UndefinedImpl in
            let! _ := push_item obj in
            loadCached ids' true (to_uint 32 (count + 1))
      end
  end.

Fixpoint pushAll (ids : list MojObject) : M unit :=
  match ids with
  | [] => ret tt
  | id :: ids' => let! _ := push_item id in pushAll ids'
  end.

Definition loadFromCache : M unit :=
  let! x := get in
  let ids := MojDbSearchCache.getIdSet x.2 (m_queryKey x.1) [] in
  let! rest := loadCached ids (match m_page x.1 with [] => true | _ => false end) 0 in
  pushAll rest.

(** Objects in the order of the index, until there is one more than the page holds. *)
Fixpoint load_immediate (fuel : nat) (pageKey : MojObject) (foundId : bool) : M unit :=
  match fuel with
  | O => throw AssertFailed
  | S fuel' =>
      let! found := on_query sq_getId in
      match found with
      | None => ret tt
      | Some (id, _) =>
          let! (obj, found) := on_query (sq_getObject id) in
          if negb found then ret tt
          else
            let! isFound := passes obj in
            if negb isFound then load_immediate fuel' pageKey foundId
            else
              let! _ := push_item obj in
              let! c := cursor in
              if negb (MojDbKey.empty (m_page c)) && negb foundId then
                let! _ := change (fun c => with_startPos c (to_uint 32 (m_startPos c + 1))) in
                load_immediate fuel' pageKey (MojObject.compare pageKey id =? 0)
              else if to_uint 32 (m_startPos c + m_limit c + 1) <=? Z.of_nat (length (m_items c)) then ret tt
              else load_immediate fuel' pageKey foundId
      end
  end.

Definition loadWithImmediateReturn (fuel : nat) : M unit :=
  let! c := cursor in
  let! pageKey := match m_page c with [] => ret UndefinedImpl | page => lift (MojDbQuery.Page_toObject page) end in
  load_immediate fuel pageKey false.

Definition load_items (fuel : nat) (fromCache : bool) : M unit :=
  let! c := cursor in
  let q := MojDbCursor.m_query (m_base c) in
  if fromCache then loadFromCache
  else if MojDbQuery.m_immediateReturn q && negb (m_limit c =? MojDbQuery.LimitDefault) then loadWithImmediateReturn fuel
  else
    let! ids := loadIds fuel in
    let! _ := loadObjects ids in
    let! _ := match m_orderProp c with [] => ret tt | _ => sort end in
    let! _ := match m_distinct c with [] => ret tt | _ => distinct end in
    if MojDbQuery.m_desc q then reverse else ret tt.

Definition load (fuel : nat) (fromCache : bool) : M unit :=
  let! _ := load_items fuel fromCache in
  let! c := cursor in
  let! _ :=
    match m_page c with
    | _ :: _ => setPagePosition
    | [] =>
        let size := length (m_items c) in
        if Z.of_nat size <=? m_limit c then change (fun c => with_pos c (pointer c 0) size (m_page c))
        else
          let limitPos := Z.to_nat (m_limit c) in
          let! nextId := lift (idAt c limitPos) in
          let! _ := change (fun c => with_pos c (pointer c 0) limitPos (pageOf (m_page c) nextId)) in
          if MojDbQuery.m_immediateReturn (MojDbCursor.m_query (m_base c)) then ret tt
          else modify (fun x => (x.1, MojDbSearchCache.updateCache x.2 (m_queryKey c) (getIds c)))
    end in
  change (fun c => with_count c (to_uint 32 (Z.of_nat (length (m_items c) - default 0%nat (m_pos c))))).

Definition loaded (c : Cur) : bool := match m_pos c with Some _ => true | None => false end.

(** [begin]: the result is loaded once, from the cache when it has the query at the
    kind's revision. *)
Definition begin (fuel : nat) : M unit :=
  let! c := cursor in
  if loaded c then ret tt
  else
    let! rev := lift (kind_updateRevision (MojDbQuery.m_fromType (m_cacheQuery c))) in
    let! key := lift (MojDbSearchCache.fromQuery (m_cacheQuery c) rev) in
    let! _ := change (fun c => with_queryKey c key) in
    let! x := get in
    load fuel (MojDbSearchCache.contain x.2 key).

(** ** Reading *)
Definition get_item (fuel : nat) : M (option StorageItem * bool) :=
  let! _ := begin fuel in
  let! c := cursor in
  let pos := default 0%nat (m_pos c) in
  if Nat.eqb pos (m_limitPos c) then ret (None, false)
  else
    match m_items c !! pos with
    | None => throw AssertFailed
    | Some i =>
        let! _ := change (fun c => with_pos c (Some (S pos)) (m_limitPos c) (m_page c)) in
        ret (Some (ObjectItem (m_obj i)), true)
    end.

Definition count (fuel : nat) : M Z := let! _ := begin fuel in let! c := cursor in ret (m_count c).

(** [visit] is the cursor's, with the [get] above; [fuel2] is for its loop. *)
Definition visit {S} `{!Visitor S} (fuel fuel2 : nat) (visitor : S) : M S :=
  MojDbCursor.visitV tokenSet strToDecimal base put_base (get_item fuel) fuel2 visitor.

Definition close : M unit :=
  let! r := attempt (MojDbCursor.on_base base put_base MojDbCursor.close) in
  let! _ := change (fun c =>
    {| m_base := m_base c; m_items := []; m_allocated := m_allocated c; m_orderProp := m_orderProp c; m_distinct := m_distinct c;
       m_limit := 0; m_startPos := m_startPos c; m_pos := None; m_limitPos := 0; m_sequencedItems := [];
       m_collation := m_collation c; m_page := m_page c; m_pageObject := m_pageObject c; m_count := m_count c;
       m_queryKey := m_queryKey c; m_cacheQuery := MojDbQuery.clear (m_cacheQuery c) |}) in
  lift r.
End cursor.
End MojDbSearchCursor.
