(* ===== verification/SearchSpec.v ===== *)
(** * What a search finds

    The ids of a search are those every group of its storage query gives; the items
    made of them are in the order of the query and none is lost to the order the
    threads run in.  A search shows the first page of them; from the cache it shows
    the next. *)

From S2P Require Import Prelude Effects Containers QuickSort CoreUtil Number Object ObjectBuilder DataSerialization TokenSet ObjectSerialization Text DbKey Json JsonRoundTrip DbQuery QueryPlan ObjectItem IsamQuery Extractor ObjectFilter AggregateFilter QueryFilter Cursor CursorSpec SearchCursor.
Import MojDbSearchCursor.
Import MojDbSearchCache (QueryKey, Container).

Abbreviation set_sorted COMP := (MojRbTreeBase.sorted id COMP).
Abbreviation map_sorted COMP := (MojRbTreeBase.sorted fst COMP).

Lemma MojComp_eq a b : MojComp a b = 0 -> a = b.
Proof. pose proof (MojComp_spec a b). lia. Qed.

(** Trees with the same nodes are the same. *)
Lemma nodes_ext {N K} (key : N -> K) (COMP : K -> K -> Z) `{!CompLaws COMP} (t1 : list N) : forall t2,
  MojRbTreeBase.sorted key COMP t1 -> MojRbTreeBase.sorted key COMP t2 -> (forall x, x ∈ t1 <-> x ∈ t2) -> t1 = t2.
Proof.
  assert (forall n t, Forall (MojRbTreeBase.node_lt key COMP n) t -> n ∉ t) as Hirr.
  { intros n t F Hn. rewrite Forall_forall in F. specialize (F n Hn). unfold MojRbTreeBase.node_lt in F.
    rewrite (comp_refl COMP) in F. lia. }
  assert (forall x y l, Forall (MojRbTreeBase.node_lt key COMP x) l -> y ∈ l -> ~ MojRbTreeBase.node_lt key COMP y x) as Has.
  { intros x y l F Hy. rewrite Forall_forall in F. specialize (F y Hy). unfold MojRbTreeBase.node_lt in *.
    pose proof (comp_anti COMP (key x) (key y)). lia. }
  induction t1 as [|x t1 IH]; intros [|y t2] S1 S2 E; [done| | |].
  - exfalso. apply (not_elem_of_nil y), E. by left.
  - exfalso. apply (not_elem_of_nil x), E. by left.
  - apply MojRbTreeBase.sorted_cons in S1 as [F1 S1]. apply MojRbTreeBase.sorted_cons in S2 as [F2 S2].
    assert (x = y) as <-.
    { assert (x = y \/ x ∈ t2) as [E1|Hx]; [apply elem_of_cons, E; by left|done|].
      assert (y = x \/ y ∈ t1) as [E1|Hy]; [apply elem_of_cons, E; by left|done|].
      destruct (Has y x t2 F2 Hx). rewrite Forall_forall in F1. by apply F1. }
    f_equal. apply IH; [done..|]. intros z. specialize (E z). rewrite !elem_of_cons in E.
    pose proof (Hirr x t1 F1). pose proof (Hirr x t2 F2). split; intros Hz.
    + destruct (proj1 E (or_intror Hz)) as [->|]; [done|done].
    + destruct (proj2 E (or_intror Hz)) as [->|]; [done|done].
Qed.

(** ** Intersections of sets *)
Section intersect.
Context {T : Type} (COMP : T -> T -> Z) `{!CompLaws COMP}.

Lemma contains_del s v x : set_sorted COMP s ->
  MojSet.contains COMP (MojSet.del COMP s v).1 x = MojSet.contains COMP s x && negb (COMP x v =? 0).
Proof.
  intros Hs. unfold MojSet.contains, MojSet.del. rewrite MojRbTreeBase.find_del by done.
  destruct (COMP x v =? 0); [|by rewrite andb_true_r]. cbn [negb]. by rewrite andb_false_r.
Qed.

Lemma set_contains_elem s x : x ∈ s -> MojSet.contains COMP s x = true.
Proof. intros Hx. apply MojSet.contains_spec. exists x. split; [done|apply comp_refl; done]. Qed.

Lemma contains_ext s x y : set_sorted COMP s -> COMP x y = 0 -> MojSet.contains COMP s x = MojSet.contains COMP s y.
Proof.
  intros Hs E. apply eq_true_iff_eq. rewrite !MojSet.contains_spec by done. split; intros (z & Hz & Ez); exists z; (split; [done|]).
  - by apply (comp_eq_trans COMP z x y).
  - apply (comp_eq_trans COMP z y x); [done|]. by apply comp_eq_sym.
Qed.

(** The loop of [intersect] over some values. *)
Lemma intersect_loop set vals : forall s, set_sorted COMP s -> set_sorted COMP set ->
  set_sorted COMP (fold_left (fun s' val => if MojSet.contains COMP set val then s' else (MojSet.del COMP s' val).1) vals s) /\
  forall x, MojSet.contains COMP (fold_left (fun s' val => if MojSet.contains COMP set val then s' else (MojSet.del COMP s' val).1) vals s) x = true
    <-> MojSet.contains COMP s x = true /\ (MojSet.contains COMP vals x = true -> MojSet.contains COMP set x = true).
Proof.
  induction vals as [|v vals IH]; intros s Hs Hset; cbn [fold_left].
  - split; [done|]. intros x. split; [|tauto]. intros Hx. split; [done|]. by intros (y & Hy%elem_of_nil & _)%MojSet.contains_spec.
  - assert (forall x, MojSet.contains COMP (v :: vals) x = (COMP v x =? 0) || MojSet.contains COMP vals x) as Hc.
    { intros x. unfold MojSet.contains, MojRbTreeBase.find. cbn [List.find]. unfold id. by destruct (COMP v x =? 0). }
    destruct (MojSet.contains COMP set v) eqn:Ev.
    + destruct (IH s Hs Hset) as [H1 H2]. split; [done|]. intros x. rewrite H2, Hc, orb_true_iff, Z.eqb_eq.
      split; intros [Hx Hi]; (split; [done|]); [|tauto]. intros [E|E]; [|auto]. by rewrite <- (contains_ext set v x).
    + destruct (IH (MojSet.del COMP s v).1) as [H1 H2]; [by apply MojRbTreeBase.del_sorted|done|]. split; [done|]. intros x.
      rewrite H2, contains_del, Hc, andb_true_iff, orb_true_iff, negb_true_iff, Z.eqb_neq, Z.eqb_eq by done.
      split.
      * intros [[Hx Hn] Hi]. split; [done|]. intros [E|E]; [|auto]. by apply comp_eq_sym in E.
      * intros [Hx Hi]. split; [split; [done|]|tauto]. intros E. apply comp_eq_sym in E; [|done].
        rewrite <- (contains_ext set v x) in Hi by done. rewrite Ev in Hi. by discriminate Hi; left.
Qed.

Lemma intersect_spec s set : set_sorted COMP s -> set_sorted COMP set ->
  set_sorted COMP (MojSet.intersect COMP s set) /\
  forall x, MojSet.contains COMP (MojSet.intersect COMP s set) x = MojSet.contains COMP s x && MojSet.contains COMP set x.
Proof.
  intros Hs Hset. destruct (intersect_loop set s s Hs Hset) as [H1 H2]. split; [exact H1|]. intros x.
  apply eq_true_iff_eq. unfold MojSet.intersect. rewrite H2, andb_true_iff. tauto.
Qed.
End intersect.

(** ** The ids that every group has *)
Abbreviation ids_of := (list (MojObject * Z)).
Abbreviation GroupMap := (list (Z * list MojObject)).

(** [id] was given in the group [g]. *)
Definition given (ids : ids_of) (g : Z) (id : MojObject) : Prop :=
  exists id', (id', g) ∈ ids /\ MojObject.compare id' id = 0.

Definition in_all_groups (n : nat) (ids : ids_of) (id : MojObject) : Prop :=
  forall g, (g < n)%nat -> given ids (Z.of_nat g) id.

(** The map of groups holds what was given. *)
Definition groups_hold (gm : GroupMap) (ids : ids_of) : Prop :=
  map_sorted MojComp gm /\
  forall g, match MojMap.get MojComp gm g with
            | Some s => set_sorted MojObject.compare s /\ (exists id, (id, g) ∈ ids) /\
                        forall id, MojSet.contains MojObject.compare s id = true <-> given ids g id
            | None => forall id, (id, g) ∉ ids
            end.

Lemma given_snoc ids id0 g0 g id : given (ids ++ [(id0, g0)]) g id <-> given ids g id \/ (g0 = g /\ MojObject.compare id0 id = 0).
Proof.
  unfold given. split.
  - intros (id' & [Hin|[= <- <-]%list_elem_of_singleton]%elem_of_app & E); [left|right]; eauto.
  - intros [(id' & Hin & E)|[<- E]]; [exists id'|exists id0]; (split; [|done]); apply elem_of_app; [by left|right; by left].
Qed.

Lemma addId_holds gm ids id g : groups_hold gm ids -> groups_hold (addId gm g id) (ids ++ [(id, g)]).
Proof.
  intros [Hs HG]. unfold addId. split; [by apply (MojMap.map_put_sorted MojComp)|].
  intros j. rewrite (MojMap.map_get_put MojComp) by done. pose proof (HG g) as Hg. pose proof (HG j) as Hj.
  destruct (Z.eqb_spec (MojComp g j) 0) as [E%MojComp_eq|Hne].
  - subst j. set (s := match MojMap.get MojComp gm g with Some s => s | None => [] end).
    assert (set_sorted MojObject.compare s /\ forall x, MojSet.contains MojObject.compare s x = true <-> given ids g x) as [Ss Hx].
    { unfold s. destruct (MojMap.get MojComp gm g) as [t|]; [tauto|]. split; [constructor|]. intros x. split; [done|].
      intros (id' & Hin & _). by destruct (Hg id'). }
    split_and!; [by apply (MojSet.set_put_sorted MojObject.compare)|exists id; apply elem_of_app; right; by left|].
    intros x. rewrite (MojSet.contains_put MojObject.compare), orb_true_iff, Z.eqb_eq, Hx, given_snoc by done. tauto.
  - assert (g <> j) by (intros ->; apply Hne; apply (comp_refl MojComp)).
    destruct (MojMap.get MojComp gm j) as [t|].
    + destruct Hj as (St & [x0 H0] & Hx). split_and!; [done|exists x0; apply elem_of_app; by left|].
      intros x. rewrite Hx, given_snoc. split; [by left|]. by intros [?|[? _]].
    + intros x [Hin|[= _ E]%list_elem_of_singleton]%elem_of_app; [by apply (Hj x)|done].
Qed.

Lemma intersect_rest (rest : GroupMap) : forall s, set_sorted MojObject.compare s -> (forall p, p ∈ rest -> set_sorted MojObject.compare p.2) ->
  set_sorted MojObject.compare (fold_left (fun o (i : Z * list MojObject) => MojSet.intersect MojObject.compare o i.2) rest s) /\
  forall x, MojSet.contains MojObject.compare (fold_left (fun o (i : Z * list MojObject) => MojSet.intersect MojObject.compare o i.2) rest s) x = true <->
    MojSet.contains MojObject.compare s x = true /\ forall p, p ∈ rest -> MojSet.contains MojObject.compare p.2 x = true.
Proof.
  induction rest as [|p rest IH]; intros s Hs Hr; cbn [fold_left].
  - split; [done|]. intros x. split; [|tauto]. intros Hx. split; [done|]. by intros q Hq%elem_of_nil.
  - destruct (intersect_spec MojObject.compare s p.2 Hs) as [H1 H2]; [apply Hr; by left|].
    destruct (IH _ H1) as [H3 H4]; [intros q Hq; apply Hr; by right|]. split; [done|]. intros x.
    rewrite H4, H2, andb_true_iff. split.
    + intros [[Hx Hp] Ha]. split; [done|]. intros q [->|Hq]%elem_of_cons; auto.
    + intros [Hx Ha]. split; [split; [done|apply Ha; by left]|]. intros q Hq. apply Ha. by right.
Qed.

Lemma map_get_elem (gm : GroupMap) g s : map_sorted MojComp gm -> (g, s) ∈ gm -> MojMap.get MojComp gm g = Some s.
Proof.
  intros Hs Hin. unfold MojMap.get. rewrite (MojRbTreeBase.find_elem fst MojComp g gm (g, s)); try done. apply (comp_refl MojComp).
Qed.

Lemma map_get_in (gm : GroupMap) g s : MojMap.get MojComp gm g = Some s -> (g, s) ∈ gm.
Proof.
  unfold MojMap.get. destruct (MojRbTreeBase.find fst MojComp g gm) as [[g' s']|] eqn:F; [|done]. intros [= ->].
  apply MojRbTreeBase.find_Some in F as [Hin E%MojComp_eq]. by cbn in E; subst.
Qed.

Lemma map_contains_get (gm : GroupMap) g : MojMap.contains MojComp gm g = match MojMap.get MojComp gm g with Some _ => true | None => false end.
Proof. unfold MojMap.contains, MojMap.get. by destruct (MojRbTreeBase.find fst MojComp g gm). Qed.

(** Every group of the map, and only those below the count. *)
Lemma all_sets n gm ids : groups_hold gm ids -> (forall id g, (id, g) ∈ ids -> 0 <= g < Z.of_nat n) ->
  forallb (fun i => MojMap.contains MojComp gm (Z.of_nat i)) (seq 0 n) = true ->
  forall id, (forall p, p ∈ gm -> MojSet.contains MojObject.compare p.2 id = true) <-> in_all_groups n ids id.
Proof.
  intros [Hs HG] Hr Ha id. rewrite forallb_forall in Ha. split.
  - intros Hp g Hg. specialize (Ha g ltac:(apply in_seq; lia)). rewrite map_contains_get in Ha.
    specialize (HG (Z.of_nat g)). destruct (MojMap.get MojComp gm (Z.of_nat g)) as [s|] eqn:E; [|done].
    destruct HG as (_ & _ & HG). apply HG, (Hp (Z.of_nat g, s)). by apply map_get_in.
  - intros Hi [g s] Hin. cbn [snd]. pose proof (map_get_elem gm g s Hs Hin) as E. specialize (HG g). rewrite E in HG.
    destruct HG as (_ & [x Hx] & HG). apply HG. specialize (Hr x g Hx). specialize (Hi (Z.to_nat g)).
    rewrite Z2Nat.id in Hi by lia. apply Hi. lia.
Qed.

Lemma intersection_spec n gm ids : groups_hold gm ids -> (forall id g, (id, g) ∈ ids -> 0 <= g < Z.of_nat n) -> (0 < n)%nat ->
  set_sorted MojObject.compare (intersection n gm) /\
  forall id, MojSet.contains MojObject.compare (intersection n gm) id = true <-> in_all_groups n ids id.
Proof.
  intros HG Hr Hn. unfold intersection.
  destruct (forallb (fun i => MojMap.contains MojComp gm (Z.of_nat i)) (seq 0 n)) eqn:Ha.
  - pose proof (all_sets n gm ids HG Hr Ha) as HA. destruct HG as [Hs HG]. destruct gm as [|first rest].
    + rewrite forallb_forall in Ha. discriminate (Ha 0%nat). apply in_seq. lia.
    + assert (forall p, p ∈ first :: rest -> set_sorted MojObject.compare p.2) as Hp.
      { intros [g s] Hin. specialize (HG g). rewrite (map_get_elem _ g s Hs Hin) in HG. apply HG. }
      destruct (intersect_rest rest first.2) as [H1 H2]; [apply Hp; by left|intros p Hin; apply Hp; by right|].
      split; [exact H1|]. intros id. rewrite H2, <- HA. split.
      * intros [Hf Hx] p [->|Hin]%elem_of_cons; auto.
      * intros Hx. split; [apply Hx; by left|]. intros p Hin. apply Hx. by right.
  - split; [constructor|]. intros id. split; [done|]. intros Hi. exfalso.
    apply not_true_iff_false in Ha. apply Ha, forallb_forall. intros g Hg%in_seq.
    destruct (Hi g) as (x & Hx & _); [lia|]. rewrite map_contains_get. destruct HG as [_ HG]. specialize (HG (Z.of_nat g)).
    destruct (MojMap.get MojComp gm (Z.of_nat g)); [done|]. by destruct (HG x).
Qed.

(** ** What the storage query of a search promises

    [ss_ids] are the ids it will give with their groups, [ss_object] the object under
    an id, none when its kind is excluded. *)
Class SearchStorage (Q : Type) `{!StorageQuery Q} `{KindTokens} (tokenSet : mstring -> res (list mstring)) := {
  ss_ids : Q -> ids_of;
  ss_object : Q -> MojObject -> res (option MojObject);
  ss_groups : Q -> nat;
  ss_getId q : exists q', sq_getId q = (q', Ok (head (ss_ids q))) /\ ss_ids q' = tail (ss_ids q) /\
    ss_object q' = ss_object q /\ ss_groups q' = ss_groups q;
  ss_getObject q id : exists q', sq_getObject id q = (q', match ss_object q id with
                                                        | Ok (Some o) => Ok (o, true)
                                                        | Ok None => Ok (UndefinedImpl, false)
                                                        | Err e => Err e
                                                        end) /\
    ss_ids q' = ss_ids q /\ ss_object q' = ss_object q /\ ss_groups q' = ss_groups q;
  ss_getById q id : exists q' r, sq_getById id q = (q', r) /\
    match ss_object q id with
    | Ok (Some o) => exists i, r = Ok (Some i, true) /\ MojDbStorageItem.toObject tokenSet i = Ok o
    | Ok None => r = Ok (None, true)
    | Err e => r = Err e
    end /\
    ss_ids q' = ss_ids q /\ ss_object q' = ss_object q /\ ss_groups q' = ss_groups q;
  ss_groupCount q : sq_groupCount q = (q, Ok (ss_groups q))
}.

(** An item for each object, not yet sorted. *)
Definition item (o : MojObject) : Item := {| m_obj := o; m_sortKeys := [] |}.

Section search.
Context {Q T W : Type} `{StorageQuery Q} `{CursorTxn T} `{CursorWatcher W} `{ICU} `{ICUCase} `{Doubles} `{KindTokens} `{SearchKinds}.
Context (tokenSet : mstring -> res (list mstring)) (m_locale : mstring) (indexLocale : option mstring).
Context (MojRand : nat -> nat) (schedule : list (Z * MojObject) -> list (Z * MojObject)).
Context `{!SearchStorage Q tokenSet}.
Abbreviation X := (MojDbSearchCursor Q T W * Container)%type.
Implicit Types (x : X) (q : Q).

Definition with_q x q : X := put_base x (MojDbCursor.with_storage (base x) (Some q)).
Definition storage x : option Q := MojDbCursor.m_storageQuery (base x).
(** [q'] reads the same objects. *)
Definition same_source q q' : Prop := ss_object q' = ss_object q /\ ss_groups q' = ss_groups q.

Lemma with_q_self x q : storage x = Some q -> with_q x q = x.
Proof.
  destruct x as [[[] ?] ?]. unfold storage, with_q, put_base, base, with_base, MojDbCursor.with_storage. cbn. by intros ->.
Qed.

Lemma on_query_run {A} (m : st Q A) x q : storage x = Some q -> on_query m x = (let (q', r) := m q in (with_q x q', r)).
Proof.
  unfold storage, on_query, MojDbCursor.on_base, MojDbCursor.on. intros ->. by destruct (m q).
Qed.

Lemma groups_run fuel : forall x q gm, storage x = Some q -> (length (ss_ids q) < fuel)%nat ->
  exists q', groups fuel gm x = (with_q x q', Ok (fold_left (fun gm (i : MojObject * Z) => addId gm i.2 i.1) (ss_ids q) gm)) /\
             storage (with_q x q') = Some q' /\ same_source q q'.
Proof.
  induction fuel as [|fuel IH]; intros x q gm Eq Hf; [lia|]. cbn [groups]. unfold bind at 1.
  rewrite (on_query_run _ x q Eq). destruct (ss_getId q) as (q1 & -> & Ei & Eo & Eg).
  destruct (ss_ids q) as [|[id g] ids] eqn:El; cbn [head].
  - exists q1. split_and!; [done|done|]. by split.
  - cbn [length tail] in *. destruct (IH (with_q x q1) q1 (addId gm g id) eq_refl) as (q2 & E2 & Eq2 & So & Sg); [rewrite Ei; lia|].
    exists q2. rewrite E2, Ei. split_and!; [done|done|]. split; congruence.
Qed.

Lemma loadIds_run fuel x q : storage x = Some q -> (length (ss_ids q) < fuel)%nat -> (0 < ss_groups q)%nat ->
  (forall id g, (id, g) ∈ ss_ids q -> 0 <= g < Z.of_nat (ss_groups q)) ->
  exists q' ids, loadIds fuel x = (with_q x q', Ok ids) /\ same_source q q' /\ set_sorted MojObject.compare ids /\
    forall id, MojSet.contains MojObject.compare ids id = true <-> in_all_groups (ss_groups q) (ss_ids q) id.
Proof.
  intros Eq Hf Hn Hr. unfold loadIds. destruct (groups_run fuel x q [] Eq Hf) as (q1 & E1 & Eq1 & So & Sg).
  rewrite (bind_ok _ _ _ _ _ E1). unfold bind at 1. rewrite (on_query_run _ _ q1 Eq1), ss_groupCount, Sg.
  exists q1. eexists. split; [reflexivity|]. split; [by split|]. apply intersection_spec; try done.
  assert (forall l gm ids, groups_hold gm ids -> groups_hold (fold_left (fun gm (i : MojObject * Z) => addId gm i.2 i.1) l gm) (ids ++ l)) as HF.
  { induction l as [|[id g] l IH]; intros gm ids HG; cbn [fold_left]; [by rewrite app_nil_r|].
    rewrite cons_middle, app_assoc. apply IH. by apply addId_holds. }
  apply (HF _ [] []). split; [constructor|]. intros g. cbn. intros id. apply not_elem_of_nil.
Qed.

(** ** Loading the objects *)
Definition pass x (obj : MojObject) : res bool :=
  match MojDbCursor.m_queryFilter (base x) with Some clauses => MojDbQueryFilter.test clauses obj | None => Ok true end.

(** The object of an id, if the filter keeps it. *)
Definition load_one x q (id : MojObject) : res (option MojObject) :=
  let? r := ss_object q id in
  match r with None => Ok None | Some o => let? b := pass x o in Ok (if b : bool then Some o else None) end.

Lemma passes_run x obj : passes obj x = (x, pass x obj).
Proof. unfold passes, pass, bind, get. by destruct (MojDbCursor.m_queryFilter (base x)). Qed.

(** What is known of two sources is the same for loading. *)
Lemma load_one_same x q q' id : same_source q q' -> load_one x q' id = load_one x q id.
Proof. unfold load_one. by intros [-> _]. Qed.

Definition putLoaded x q (m : list (Z * Item)) (t : Z * MojObject) : list (Z * Item) :=
  match load_one x q t.2 with Ok (Some o) => MojMap.put MojComp m t.1 (item o) | _ => m end.

Definition with_seq x (m : list (Z * Item)) : X := (with_sequenced x.1 m, x.2).

Lemma thread_run x q t : storage x = Some q ->
  match load_one x q t.2 with
  | Ok _ => exists q', same_source q q' /\
      searchThread_callee t x = (with_seq (with_q x q') (putLoaded x q (m_sequencedItems x.1) t), Ok tt)
  | Err e => exists q', same_source q q' /\ searchThread_callee t x = (with_q x q', Err e)
  end.
Proof.
  intros Eq. assert (exists q', same_source q q' /\ searchThread_callee t x =
    match load_one x q t.2 with
    | Ok _ => (with_seq (with_q x q') (putLoaded x q (m_sequencedItems x.1) t), Ok tt)
    | Err e => (with_q x q', Err e)
    end) as (q' & So & ->); [|destruct (load_one x q t.2); by exists q'].
  unfold putLoaded, load_one, searchThread_callee, bind at 1. rewrite (on_query_run _ x q Eq).
  destruct (ss_getObject q t.2) as (q1 & -> & _ & So). exists q1. split; [done|].
  destruct (ss_object q t.2) as [[o|]|e]; cbn [res_bind negb]; [|by destruct x as [[] ?]|done].
  unfold bind. rewrite passes_run. change (pass (with_q x q1) o) with (pass x o).
  destruct (pass x o) as [[]|e]; cbn [res_bind negb]; done.
Qed.

Lemma run_threads_ok tasks : forall x q, storage x = Some q -> (forall t, t ∈ tasks -> exists r, load_one x q t.2 = Ok r) ->
  exists q', same_source q q' /\
    run_threads tasks None x = (with_seq (with_q x q') (fold_left (putLoaded x q) tasks (m_sequencedItems x.1)), Ok None).
Proof.
  induction tasks as [|t tasks IH]; intros x q Eq Hok; cbn [run_threads fold_left].
  - exists q. split; [done|]. rewrite with_q_self by done. by destruct x as [[] ?].
  - destruct (Hok t) as [r Er]; [by left|]. pose proof (thread_run x q t Eq) as Ht. rewrite Er in Ht.
    destruct Ht as (q1 & So & Et). unfold bind, attempt. rewrite Et.
    destruct (IH (with_seq (with_q x q1) (putLoaded x q (m_sequencedItems x.1) t)) q1) as (q2 & So2 & E2); [done| |].
    + intros t' Ht'. destruct (Hok t') as [r' Er']; [by right|]. exists r'. rewrite <- Er'. by apply (load_one_same x q q1).
    + exists q2. split; [destruct So, So2; split; congruence|]. rewrite E2. cbn [with_seq fst].
      assert (forall l m, fold_left (putLoaded (with_seq (with_q x q1) (putLoaded x q (m_sequencedItems x.1) t)) q1) l m = fold_left (putLoaded x q) l m) as HF.
      { induction l as [|t' l IHl]; intros m; cbn [fold_left]; [done|]. rewrite IHl. f_equal. unfold putLoaded at 1.
        change (load_one (with_seq (with_q x q1) (putLoaded x q (m_sequencedItems x.1) t)) q1 t'.2) with (load_one x q1 t'.2).
        by rewrite (load_one_same x q q1) by done. }
      rewrite HF. by destruct x as [[] ?].
Qed.

(** The map of the threads' items does not depend on their order. *)
Definition loadedAt x q (t : Z * MojObject) : option (Z * Item) :=
  match load_one x q t.2 with Ok (Some o) => Some (t.1, item o) | _ => None end.

Lemma fold_loaded x q tasks : forall m, map_sorted MojComp m -> NoDup (map fst tasks) ->
  (forall t p, t ∈ tasks -> p ∈ m -> t.1 <> p.1) ->
  map_sorted MojComp (fold_left (putLoaded x q) tasks m) /\
  forall p, p ∈ fold_left (putLoaded x q) tasks m <-> p ∈ m \/ p ∈ omap (loadedAt x q) tasks.
Proof.
  induction tasks as [|t tasks IH]; intros m Hm Hn Hd; cbn [fold_left map omap list_omap].
  { split; [done|]. intros p. rewrite elem_of_nil. tauto. }
  apply NoDup_cons in Hn as [Ht Hn].
  assert (map_sorted MojComp (putLoaded x q m t)) as Hm1.
  { unfold putLoaded. destruct (load_one x q t.2) as [[o|]|]; try done. by apply (MojMap.map_put_sorted MojComp). }
  assert (forall p, p ∈ putLoaded x q m t <-> p ∈ m \/ loadedAt x q t = Some p) as Hp.
  { intros p. unfold putLoaded, loadedAt. destruct (load_one x q t.2) as [[o|]|]; [|naive_solver..].
    unfold MojMap.put. rewrite (MojRbTreeBase.elem_of_put fst MojComp) by done. split.
    - intros [->|[Hin _]]; [by right|by left].
    - intros [Hin|[= <-]]; [|by left]. right. split; [done|]. intros E%MojComp_eq. cbn in E. by destruct (Hd t p ltac:(by left) Hin). }
  destruct (IH (putLoaded x q m t) Hm1 Hn) as [HS HE].
  { intros t' p Ht' [Hin|E]%Hp; [apply Hd; [by right|done]|]. unfold loadedAt in E. destruct (load_one x q t.2) as [[o|]|]; try done.
    injection E as <-. cbn. intros E. apply Ht. rewrite <- E. by apply list_elem_of_fmap_2. }
  split; [exact HS|]. intros p. rewrite HE, Hp. destruct (loadedAt x q t) as [p0|].
  - rewrite elem_of_cons. naive_solver.
  - naive_solver.
Qed.

Lemma number_keys ids : map fst (number ids) = map Z.of_nat (seq 0 (length ids)).
Proof.
  unfold number. apply list_eq. intros i. rewrite !list_lookup_fmap, list_lookup_imap.
  destruct (decide (i < length ids)%nat) as [Hi|Hi].
  - destruct (lookup_lt_is_Some_2 ids i Hi) as [id E]. rewrite E, lookup_seq_lt by done. done.
  - rewrite lookup_ge_None_2, lookup_seq_ge by lia. done.
Qed.

(** The object of an id that is found and kept. *)
Definition kept x q (id : MojObject) : option MojObject := match load_one x q id with Ok r => r | Err _ => None end.

Definition with_loaded x (l : list Item) : X := (with_items x.1 l, x.2).

Lemma number_sorted x q ids : forall n, let tasks := imap (fun i id => (Z.of_nat (n + i), id)) ids in
  map_sorted MojComp (omap (loadedAt x q) tasks) /\ (forall p, p ∈ omap (loadedAt x q) tasks -> Z.of_nat n <= p.1) /\
  map snd (omap (loadedAt x q) tasks) = map item (omap (kept x q) ids).
Proof.
  induction ids as [|id ids IH]; intros n; cbn [imap omap list_omap map].
  { split_and!; [constructor|intros p []%not_elem_of_nil|done]. }
  destruct (IH (S n)) as (HS & HL & HM).
  rewrite (imap_ext (_ ∘ S) (fun i a => (Z.of_nat (S n + i), a)) ids) by (intros; cbn; do 2 f_equal; lia).
  cbn zeta in *. set (tasks := imap (fun i a => (Z.of_nat (S n + i), a)) ids) in *.
  assert (loadedAt x q (Z.of_nat (n + 0), id) = match kept x q id with Some o => Some (Z.of_nat n, item o) | None => None end) as ->.
  { unfold loadedAt, kept. cbn [snd fst]. rewrite Nat.add_0_r. by destruct (load_one x q id) as [[o|]|]. }
  destruct (kept x q id) as [o|]; cbn [omap list_omap map].
  - split_and!.
    + apply MojRbTreeBase.sorted_cons. split; [|exact HS]. apply Forall_forall. intros p Hp. specialize (HL p Hp).
      unfold MojRbTreeBase.node_lt. cbn. pose proof (MojComp_spec (Z.of_nat n) p.1). lia.
    + intros p [->|Hp]%elem_of_cons; [done|]. specialize (HL p Hp). lia.
    + cbn [snd]. by rewrite HM.
  - split_and!; [done| |done]. intros p Hp. specialize (HL p Hp). lia.
Qed.

Lemma loadObjects_run ids x q : storage x = Some q -> m_sequencedItems x.1 = [] -> (forall l, schedule l ≡ₚ l) ->
  (forall id, id ∈ ids -> exists r, load_one x q id = Ok r) ->
  exists q' seq, same_source q q' /\
    loadObjects schedule ids x = (with_loaded (with_seq (with_q x q') seq) (m_items x.1 ++ map item (omap (kept x q) ids)), Ok tt).
Proof.
  intros Eq Es Hp Hok. unfold loadObjects.
  assert (forall t, t ∈ schedule (number ids) <-> t ∈ number ids) as Hin by (intros t; by rewrite Hp).
  destruct (run_threads_ok (schedule (number ids)) x q Eq) as (q' & So & E).
  { intros t [i (id & -> & Hid)]%Hin%elem_of_lookup_imap_1. apply Hok. cbn. by apply list_elem_of_lookup_2 in Hid. }
  rewrite Es in E. destruct (number_sorted x q ids 0) as (HS & _ & HM). cbn [Nat.add] in HS, HM. fold (number ids) in HS, HM.
  destruct (fold_loaded x q (schedule (number ids)) []) as [FS FE]; [constructor| |by intros ? ? _ []%not_elem_of_nil|].
  { rewrite Hp, number_keys. apply NoDup_fmap; [apply _|]. apply NoDup_seq. }
  assert (fold_left (putLoaded x q) (schedule (number ids)) [] = omap (loadedAt x q) (number ids)) as EF.
  { apply (nodes_ext fst MojComp); [exact FS|exact HS|]. intros p. rewrite FE, elem_of_nil, !list_elem_of_omap.
    setoid_rewrite Hin. tauto. }
  rewrite EF in E. rewrite (bind_ok _ _ _ _ _ E). exists q', (omap (loadedAt x q) (number ids)). split; [exact So|].
  rewrite <- HM. done.
Qed.

(** ** The order of the items *)
#[export] Instance ItemComp_laws : CompLaws ItemComp.
Proof.
  assert (CompLaws (MojVector.compare lexcmp)) as [R A Tr] by apply _.
  split; [intros i; apply R|intros i j; apply A|intros i j k; apply Tr].
Qed.

Definition arrange (c : MojDbSearchCursor Q T W) (desc : bool) (l : list Item) : res (list Item) :=
  let? l := match m_orderProp c with
            | [] => Ok l
            | _ => let? extractor := sortExtractor m_locale indexLocale c in
                   let? l := keyItems extractor l in Ok (MojQuickSort.MojQuickSort ItemComp MojRand l)
            end in
  let l := match m_distinct c with [] => l | _ => distinctItems l end in
  Ok (if desc then rev l else l).

(** [i] has the keys of its object. *)
Definition keyed (c : MojDbSearchCursor Q T W) (i : Item) : Prop :=
  exists extractor, sortExtractor m_locale indexLocale c = Ok extractor /\
    MojDbPropExtractor.vals extractor (m_obj i) [] = Ok (m_sortKeys i).

(** What a search promises about the objects it was made of: all of them, in order;
    with a distinct property one of each key. *)
Definition arranged (c : MojDbSearchCursor Q T W) (desc : bool) (objs : list MojObject) (l : list Item) : Prop :=
  match m_orderProp c with
  | [] => map m_obj l = if desc then rev objs else objs
  | _ =>
      Forall (keyed c) l /\
      match m_distinct c with
      | [] => map m_obj l ≡ₚ objs /\ StronglySorted (fun i j => if desc then ItemComp j i <= 0 else ItemComp i j <= 0) l
      | _ => (forall i, i ∈ l -> m_obj i ∈ objs) /\
             (forall o, o ∈ objs -> exists i j, i ∈ l /\ m_obj j = o /\ keyed c j /\ ItemComp i j = 0) /\
             StronglySorted (fun i j => if desc then ItemComp j i < 0 else ItemComp i j < 0) l
      end
  end.

Lemma keyItems_ok extractor l : forall acc l', res_fold (fun done i => let? keys := MojDbPropExtractor.vals extractor (m_obj i) [] in
    Ok (done ++ [{| m_obj := m_obj i; m_sortKeys := keys |}])) acc l = Ok l' ->
  exists l2, l' = acc ++ l2 /\ map m_obj l2 = map m_obj l /\
    Forall (fun i => MojDbPropExtractor.vals extractor (m_obj i) [] = Ok (m_sortKeys i)) l2.
Proof.
  induction l as [|i l IH]; intros acc l' E; cbn [res_fold] in E.
  - injection E as <-. exists []. rewrite app_nil_r. by split_and!.
  - apply res_bind_ok in E as (acc1 & E1 & E). apply res_bind_ok in E1 as (keys & Ek & [= <-]).
    destruct (IH _ _ E) as (l2 & -> & Em & F). exists ({| m_obj := m_obj i; m_sortKeys := keys |} :: l2).
    rewrite <- app_assoc. split_and!; [done|cbn; by rewrite Em|by constructor].
Qed.

Lemma StronglySorted_rev {A} (R : A -> A -> Prop) l : StronglySorted R l -> StronglySorted (fun a b => R b a) (rev l).
Proof.
  induction 1 as [|a l S IH F]; cbn [rev]; [constructor|].
  assert (forall l2, Forall (fun b => R a b) l2 -> StronglySorted (fun a b => R b a) l2 -> StronglySorted (fun a b => R b a) (l2 ++ [a])) as HA.
  { clear. induction l2 as [|b l2 IH]; intros F S; cbn [app]; [repeat constructor|].
    apply Forall_cons in F as [Fb F]. apply StronglySorted_inv in S as [S Fs]. constructor; [by apply IH|].
    apply Forall_app. split; [exact Fs|]. by constructor. }
  apply HA; [|exact IH]. by apply Forall_rev.
Qed.

(** [distinct] on items in order. *)
Lemma distinctFrom_spec l : forall x : Item, StronglySorted (fun i j => ItemComp i j <= 0) (x :: l) ->
  let d := distinctFrom x l in
  StronglySorted (fun i j => ItemComp i j < 0) d /\ (exists d', d = x :: d') /\ (forall i, i ∈ d -> i ∈ x :: l) /\
  (forall i, i ∈ x :: l -> exists j, j ∈ d /\ ItemComp j i = 0).
Proof.
  induction l as [|y l IH]; intros x S; cbn [distinctFrom].
  { split_and!; [repeat constructor|by exists []|done|]. intros i ->%list_elem_of_singleton. exists x.
    split; [by left|apply (comp_refl ItemComp)]. }
  apply StronglySorted_inv in S as [S F]. apply Forall_cons in F as [Fy F]. pose proof S as [S1 F1]%StronglySorted_inv.
  destruct (Z.eqb_spec (ItemComp x y) 0) as [E|Ne].
  - destruct (IH x) as (HS & Hd & Hin & Hall); [by constructor|]. split_and!; [done|done| |].
    + intros i Hi%Hin. apply elem_of_cons in Hi as [->|Hi]; [by left|]. right. by right.
    + intros i [->|[->|Hi]%elem_of_cons]%elem_of_cons.
      * apply Hall. by left.
      * destruct (Hall x) as (j & Hj & Ej); [by left|]. exists j. split; [done|]. by apply (comp_eq_trans ItemComp j x y).
      * apply Hall. by right.
  - destruct (IH y S) as (HS & [d' Ed] & Hin & Hall). split_and!.
    + constructor; [done|]. apply Forall_forall. intros i Hi%Hin. apply elem_of_cons in Hi as [->|Hi]; [lia|].
      rewrite Forall_forall in F1. specialize (F1 i Hi). apply (comp_lt_le_trans ItemComp x y i); lia.
    + by eexists.
    + intros i [->|Hi]%elem_of_cons; [by left|]. right. by apply Hin.
    + intros i [->|Hi]%elem_of_cons; [exists x; split; [by left|apply (comp_refl ItemComp)]|].
      destruct (Hall i Hi) as (j & Hj & Ej). exists j. split; [by right|done].
Qed.

Lemma map_item objs : map m_obj (map item objs) = objs.
Proof. induction objs as [|o objs IH]; cbn; by rewrite ?IH. Qed.

Lemma rev_elem {A} (i : A) l : i ∈ rev l <-> i ∈ l.
Proof. rewrite !list_elem_of_In. symmetry. apply in_rev. Qed.

Lemma arrange_arranged c desc objs l : (m_orderProp c = [] -> m_distinct c = []) ->
  arrange c desc (map item objs) = Ok l -> arranged c desc objs l.
Proof.
  intros Hd E. unfold arrange in E. unfold arranged. destruct (m_orderProp c) as [|ch name].
  - rewrite Hd in E by done. injection E as <-. destruct desc; [by rewrite map_rev, map_item|apply map_item].
  - apply res_bind_ok in E as (l1 & E & [= <-]). apply res_bind_ok in E as (x & Ex & E). apply res_bind_ok in E as (l2 & E & [= <-]).
    apply keyItems_ok in E as (l3 & -> & Em & F). rewrite map_item in Em. cbn [app].
    destruct (MojQuickSort.sort_sorted ItemComp MojRand l3) as [P S]. set (l4 := MojQuickSort.MojQuickSort ItemComp MojRand l3) in *.
    assert (Forall (keyed c) l4) as F4.
    { rewrite P. eapply Forall_impl; [exact F|]. intros i Hi. by exists x. }
    destruct (m_distinct c) as [|ch2 name2].
    + split; [destruct desc; [by apply Forall_rev|done]|]. split.
      * destruct desc; [rewrite map_rev, <- Permutation_rev|]; by rewrite (Permutation_map _ P), Em.
      * destruct desc; [by apply (StronglySorted_rev _ _ S)|exact S].
    + assert (exists d, distinctItems l4 = d /\ StronglySorted (fun i j => ItemComp i j < 0) d /\ (forall i, i ∈ d -> i ∈ l4) /\
        (forall i, i ∈ l4 -> exists j, j ∈ d /\ ItemComp j i = 0)) as (d & -> & HS & Hin & Hall).
      { destruct l4 as [|i l5]; [exists []; split_and!; [done|constructor|done|by intros ? ?%not_elem_of_nil]|].
        destruct (distinctFrom_spec l5 i S) as (HS & _ & Hin & Hall). by exists (distinctFrom i l5). }
      rewrite Forall_forall in F4. split_and!.
      * apply Forall_forall. intros i Hi. apply F4, Hin. by destruct desc; [apply rev_elem|].
      * intros i Hi. rewrite <- Em, <- P. apply list_elem_of_fmap_2, Hin. by destruct desc; [apply rev_elem|].
      * intros o Ho. rewrite <- Em, <- P in Ho. apply list_elem_of_fmap in Ho as (j & -> & Hj).
        destruct (Hall j Hj) as (i & Hi & Ei). exists i, j. split_and!; [by destruct desc; [apply rev_elem|]|done|by apply F4|done].
      * destruct desc; [by apply (StronglySorted_rev _ _ HS)|exact HS].
Qed.

(** ** The whole result of a search *)

(** [x] with a result [l] loaded; [al] is whether the vector was ever filled. *)
Definition loaded_x x q' (seq : list (Z * Item)) (l : list Item) (al : bool) : X :=
  (let c := x.1 in
   {| m_base := MojDbCursor.with_storage (m_base c) (Some q'); m_items := l; m_allocated := al; m_orderProp := m_orderProp c;
      m_distinct := m_distinct c; m_limit := m_limit c; m_startPos := m_startPos c; m_pos := m_pos c; m_limitPos := m_limitPos c;
      m_sequencedItems := seq; m_collation := m_collation c; m_page := m_page c; m_pageObject := m_pageObject c;
      m_count := m_count c; m_queryKey := m_queryKey c; m_cacheQuery := m_cacheQuery c |}, x.2).

(** [x'] is [x] with the result [l]. *)
Definition has_result x x' (l : list Item) : Prop :=
  exists q' seq al, x' = loaded_x x q' seq l al /\ (l <> [] -> al = true) /\ forall q, storage x = Some q -> same_source q q'.

Lemma has_result_loaded x x' l l' : has_result x x' l -> has_result x (with_loaded x' l') l'.
Proof.
  intros (q' & seq & al & -> & _ & So). exists q', seq, (al || negb (Nat.eqb (length l') 0)). split_and!; [done| |done].
  destruct l'; [done|]. intros _. apply orb_true_r.
Qed.

Lemma sort_result x x' l : has_result x x' l ->
  match (let? e := sortExtractor m_locale indexLocale x.1 in keyItems e l) with
  | Ok l' => exists x2, sort m_locale indexLocale MojRand x' = (x2, Ok tt) /\ has_result x x2 (MojQuickSort.MojQuickSort ItemComp MojRand l')
  | Err e => sort m_locale indexLocale MojRand x' = (x', Err e)
  end.
Proof.
  intros R. pose proof R as (q' & seq & al & -> & _). unfold sort, cursor, bind, get, ret, lift, change, modify.
  change (sortExtractor m_locale indexLocale (loaded_x x q' seq l al).1) with (sortExtractor m_locale indexLocale x.1).
  destruct (sortExtractor m_locale indexLocale x.1) as [e|e]; cbn [res_bind]; [|done].
  change (m_items (loaded_x x q' seq l al).1) with l. destruct (keyItems e l) as [l'|e']; [|done].
  eexists. split; [reflexivity|]. by eapply (has_result_loaded x _ l).
Qed.

Lemma distinct_result x x' l : has_result x x' l -> exists x2, distinct x' = (x2, Ok tt) /\ has_result x x2 (distinctItems l).
Proof.
  intros R. pose proof R as (q' & seq & al & -> & _). eexists. split; [reflexivity|]. by eapply (has_result_loaded x _ l).
Qed.

Lemma reverse_result x x' l : has_result x x' l -> exists x2, reverse x' = (x2, Ok tt) /\ has_result x x2 (rev l).
Proof.
  intros R. pose proof R as (q' & seq & al & -> & _). eexists. split; [reflexivity|]. by eapply (has_result_loaded x _ l).
Qed.

(** The ids of a search are known and their objects can be read. *)
Definition searchable x q (fuel : nat) : Prop :=
  storage x = Some q /\ (length (ss_ids q) < fuel)%nat /\ (0 < ss_groups q)%nat /\
  (forall id g, (id, g) ∈ ss_ids q -> 0 <= g < Z.of_nat (ss_groups q)) /\
  (forall id, in_all_groups (ss_groups q) (ss_ids q) id -> exists r, load_one x q id = Ok r) /\
  m_items x.1 = [] /\ m_sequencedItems x.1 = [] /\ (forall l, schedule l ≡ₚ l).

(** The objects a search is about. *)
Definition found_objects x q (ids : list MojObject) : list MojObject := omap (kept x q) ids.

Lemma load_items_run fuel x q : searchable x q fuel ->
  let query := MojDbCursor.m_query (base x) in
  MojDbQuery.m_immediateReturn query && negb (m_limit x.1 =? MojDbQuery.LimitDefault) = false ->
  exists ids, set_sorted MojObject.compare ids /\
    (forall id, MojSet.contains MojObject.compare ids id = true <-> in_all_groups (ss_groups q) (ss_ids q) id) /\
    match arrange x.1 (MojDbQuery.m_desc query) (map item (found_objects x q ids)) with
    | Ok l => exists x', load_items tokenSet m_locale indexLocale MojRand schedule fuel false x = (x', Ok tt) /\ has_result x x' l
    | Err e => exists x', load_items tokenSet m_locale indexLocale MojRand schedule fuel false x = (x', Err e)
    end.
Proof.
  intros (Eq & Hf & Hn & Hr & Hl & Ei & Es & Hp) query Him.
  destruct (loadIds_run fuel x q Eq Hf Hn Hr) as (q1 & ids & E1 & So1 & Ss & Hids). exists ids. split_and!; [exact Ss|exact Hids|].
  destruct (loadObjects_run ids (with_q x q1) q1 eq_refl Es Hp) as (q2 & seq & So2 & E2).
  { intros id Hid. destruct (Hl id) as [r Er]; [apply Hids; by apply (set_contains_elem MojObject.compare)|]. exists r.
    rewrite <- Er. by apply (load_one_same x q q1). }
  set (objs := found_objects x q ids). assert (omap (kept (with_q x q1) q1) ids = objs) as Eo.
  { apply list_omap_ext, Forall_Forall2_diag, Forall_forall. intros id _. unfold kept.
    change (load_one (with_q x q1) q1 id) with (load_one x q1 id). by rewrite (load_one_same x q q1). }
  rewrite Eo in E2. change (m_items (with_q x q1).1) with (m_items x.1) in E2. rewrite Ei in E2. cbn [app] in E2.
  set (x3 := with_loaded _ _) in E2. assert (has_result x x3 (map item objs)) as R3.
  { exists q2, seq, (m_allocated x.1 || negb (Nat.eqb (length (map item objs)) 0)). split_and!; [done| |].
    - destruct (map item objs); [done|]. intros _. apply orb_true_r.
    - intros q0 Eq0. assert (q0 = q) as -> by congruence. destruct So1, So2. split; congruence. }
  assert (load_items tokenSet m_locale indexLocale MojRand schedule fuel false x =
    (let! _ := match m_orderProp x.1 with [] => ret tt | _ => sort m_locale indexLocale MojRand end in
     let! _ := match m_distinct x.1 with [] => ret tt | _ => distinct end in
     if MojDbQuery.m_desc query then reverse else ret tt) x3) as ->.
  { unfold load_items. rewrite (bind_ok _ _ x x x.1 eq_refl). fold (base x). fold query. rewrite Him.
    rewrite (bind_ok _ _ _ _ _ E1). by rewrite (bind_ok _ _ _ _ _ E2). }
  unfold arrange.
  assert (match (match m_orderProp x.1 with [] => Ok (map item objs)
                 | _ => let? extractor := sortExtractor m_locale indexLocale x.1 in
                        let? l := keyItems extractor (map item objs) in Ok (MojQuickSort.MojQuickSort ItemComp MojRand l) end) with
    | Ok l1 => exists x4, (match m_orderProp x.1 with [] => ret tt | _ => sort m_locale indexLocale MojRand end) x3 = (x4, Ok tt) /\ has_result x x4 l1
    | Err e => (match m_orderProp x.1 with [] => ret tt | _ => sort m_locale indexLocale MojRand end) x3 = (x3, Err e)
    end) as HA.
  { destruct (m_orderProp x.1) as [|ch name]; [by exists x3|]. pose proof (sort_result x x3 _ R3) as HS.
    destruct (sortExtractor m_locale indexLocale x.1) as [ex|]; cbn [res_bind] in *; [|done].
    by destruct (keyItems ex (map item objs)). }
  destruct (match m_orderProp x.1 with [] => _ | _ => _ end) as [l1|e]; cbn [res_bind].
  - destruct HA as (x4 & E4 & R4). rewrite (bind_ok _ _ _ _ _ E4).
    assert (exists x5, (match m_distinct x.1 with [] => ret tt | _ => distinct end) x4 = (x5, Ok tt) /\
      has_result x x5 (match m_distinct x.1 with [] => l1 | _ => distinctItems l1 end)) as (x5 & E5 & R5).
    { destruct (m_distinct x.1); [by exists x4|]. by apply distinct_result. }
    rewrite (bind_ok _ _ _ _ _ E5). destruct (MojDbQuery.m_desc query); [by apply reverse_result|by exists x5].
  - rewrite (bind_err _ _ _ _ _ HA). by exists x3.
Qed.
End search.
