(* ===== verification/SearchPages.v ===== *)
(** * The pages of a search

    The first page of a search shows the beginning of its result, and the cache then
    holds the ids of all of it; a page made from the cache continues where the page
    before it ended. *)

From S2P Require Import Prelude Effects Containers QuickSort CoreUtil Number Object ObjectBuilder DataSerialization TokenSet ObjectSerialization Text DbKey Json JsonRoundTrip DbQuery QueryPlan ObjectItem IsamQuery Extractor ObjectFilter AggregateFilter QueryFilter Cursor CursorSpec SearchCursor SearchSpec.
Import MojDbSearchCursor.
Import MojDbSearchCache (QueryKey, Container).

Section pages.
Context {Q T W : Type} `{StorageQuery Q} `{CursorTxn T} `{CursorWatcher W} `{ICU} `{ICUCase} `{Doubles} `{KindTokens} `{SearchKinds}.
Context (tokenSet : mstring -> res (list mstring)) (strToDecimal : mstring -> Z) (m_locale : mstring) (indexLocale : option mstring).
Context (MojRand : nat -> nat) (schedule : list (Z * MojObject) -> list (Z * MojObject)).
Context `{!SearchStorage Q tokenSet}.
Abbreviation X := (MojDbSearchCursor Q T W * Container)%type.
Implicit Types (x : X) (q : Q).
Abbreviation get_item := (MojDbSearchCursor.get_item tokenSet m_locale indexLocale MojRand schedule).
Abbreviation begin := (MojDbSearchCursor.begin tokenSet m_locale indexLocale MojRand schedule).

(** An item as the cursor gives it. *)
Definition shown (i : Item) : StorageItem := ObjectItem (m_obj i).

(** The cursor moved to a place. *)
Definition at_pos x (pos : nat) : X := (with_pos x.1 (Some pos) (m_limitPos x.1) (m_page x.1), x.2).

Lemma begin_loaded fuel x : loaded x.1 = true -> begin fuel x = (x, Ok tt).
Proof. intros E. unfold begin, cursor, bind, get, ret. by rewrite E. Qed.

Lemma get_item_at fuel x x1 pos i : begin fuel x = (x1, Ok tt) -> default 0%nat (m_pos x1.1) = pos -> (pos < m_limitPos x1.1)%nat ->
  m_items x1.1 !! pos = Some i -> get_item fuel x = (at_pos x1 (S pos), Ok (Some (shown i), true)).
Proof.
  intros E Ep Hp Ei. unfold get_item. rewrite (bind_ok _ _ _ _ _ E). unfold cursor, bind, get, ret. rewrite Ep.
  destruct (Nat.eqb_spec pos (m_limitPos x1.1)); [lia|]. by rewrite Ei.
Qed.

Lemma get_item_end fuel x x1 : begin fuel x = (x1, Ok tt) -> default 0%nat (m_pos x1.1) = m_limitPos x1.1 ->
  get_item fuel x = (x1, Ok (None, false)).
Proof.
  intros E Ep. unfold get_item. rewrite (bind_ok _ _ _ _ _ E). unfold cursor, bind, get, ret. by rewrite Ep, Nat.eqb_refl.
Qed.

(** From a place on, the items up to the limit. *)
Lemma feeds_loaded fuel n : forall x pos, m_pos x.1 = Some pos -> (m_limitPos x.1 - pos = n)%nat ->
  (pos <= m_limitPos x.1 <= length (m_items x.1))%nat -> MojDbCursor.m_aggregateFilter (base x) = None ->
  feeds base (get_item fuel) (MojDbCursor.m_objectFilter (base x)) (map shown (take n (drop pos (m_items x.1)))) x (at_pos x (m_limitPos x.1)).
Proof.
  induction n as [|n IH]; intros x pos Ep En Hl Ea.
  - cbn [take map feeds]. exists None. assert (pos = m_limitPos x.1) as -> by lia.
    rewrite (get_item_end fuel x x); [|apply begin_loaded; unfold loaded; by rewrite Ep|by rewrite Ep].
    unfold at_pos. destruct x as [[] ?]. cbn in *. by subst.
  - destruct (lookup_lt_is_Some_2 (m_items x.1) pos) as [i Ei]; [lia|]. rewrite (drop_S _ _ _ Ei). cbn [take map feeds].
    exists (at_pos x (S pos)). split_and!; [|exact Ea|done|].
    + apply get_item_at with (pos := pos); [apply begin_loaded; unfold loaded; by rewrite Ep|by rewrite Ep|lia|done].
    + apply (IH (at_pos x (S pos)) (S pos)); [done|cbn; lia|cbn; lia|exact Ea].
Qed.

(** From before the result is loaded. *)
Lemma feeds_begin fuel x x1 pos n : begin fuel x = (x1, Ok tt) -> default 0%nat (m_pos x1.1) = pos ->
  (m_limitPos x1.1 - pos = n)%nat -> (pos <= m_limitPos x1.1 <= length (m_items x1.1))%nat ->
  MojDbCursor.m_aggregateFilter (base x1) = None ->
  exists x', feeds base (get_item fuel) (MojDbCursor.m_objectFilter (base x1)) (map shown (take n (drop pos (m_items x1.1)))) x x' /\
    m_page x'.1 = m_page x1.1 /\ x'.2 = x1.2 /\ base x' = base x1.
Proof.
  intros E Ep En Hl Ea. destruct n as [|n].
  - exists x1. split; [|done]. cbn [take map feeds]. exists None. apply get_item_end; [done|lia].
  - destruct (lookup_lt_is_Some_2 (m_items x1.1) pos) as [i Ei]; [lia|]. rewrite (drop_S _ _ _ Ei). cbn [take map feeds].
    exists (at_pos x1 (m_limitPos x1.1)). split; [|done]. exists (at_pos x1 (S pos)). split_and!; [|exact Ea|done|].
    + by apply get_item_at with (pos := pos); [..|lia|].
    + apply (feeds_loaded fuel n (at_pos x1 (S pos)) (S pos)); [done|cbn; lia|cbn; lia|exact Ea].
Qed.

(** ** The first page *)

(** The page after the first [n] items. *)
Definition next_of (page : MojDbKey) (l : list Item) (n : nat) : MojDbKey :=
  match l !! n with Some i => pageOf page (item_id i) | None => [] end.

Abbreviation load_items := (MojDbSearchCursor.load_items tokenSet m_locale indexLocale MojRand schedule).
Abbreviation load := (MojDbSearchCursor.load tokenSet m_locale indexLocale MojRand schedule).

(** What [load] leaves of a result [l] shown from [pos] on. *)
Definition paged x' (x1 : X) (l : list Item) (pos limitPos : nat) (page : MojDbKey) (cache : Container) : Prop :=
  m_items x1.1 = l /\ default 0%nat (m_pos x1.1) = pos /\ m_limitPos x1.1 = limitPos /\ m_page x1.1 = page /\ x1.2 = cache /\
  base x1 = base x'.

Lemma load_first fuel x x' l : load_items fuel false x = (x', Ok tt) -> has_result tokenSet x x' l -> m_page x.1 = [] -> 0 <= m_limit x.1 ->
  MojDbQuery.m_immediateReturn (MojDbCursor.m_query (base x)) = false ->
  let limit := Z.to_nat (m_limit x.1) in
  exists x1, load fuel false x = (x1, Ok tt) /\
    paged x' x1 l 0 (Nat.min limit (length l)) (next_of [] l limit)
      (match l !! limit with Some _ => MojDbSearchCache.updateCache x.2 (m_queryKey x.1) (map item_id l) | None => x.2 end).
Proof.
  intros El (q' & seq & al & -> & Hal & _) Ep Hlim Him limit. unfold MojDbSearchCursor.load. rewrite (bind_ok _ _ _ _ _ El).
  set (x' := loaded_x x q' seq l al) in *. rewrite (bind_ok _ _ x' x' x'.1 eq_refl).
  change (m_page x'.1) with (m_page x.1). rewrite Ep. change (m_items x'.1) with l. change (m_limit x'.1) with (m_limit x.1).
  destruct (Z.leb_spec (Z.of_nat (length l)) (m_limit x.1)) as [Hle|Hgt].
  - eexists. split; [reflexivity|]. unfold next_of. rewrite lookup_ge_None_2 by lia. unfold paged. cbn -[Nat.min].
    split_and!; try done; [unfold pointer; by destruct al|unfold limit; lia].
  - destruct (lookup_lt_is_Some_2 l limit) as [i Ei]; [lia|]. unfold idAt. change (m_items x'.1) with l. fold limit. rewrite Ei.
    change (MojDbCursor.m_query (m_base x'.1)) with (MojDbCursor.m_query (base x)). rewrite Him.
    eexists. split; [reflexivity|]. unfold next_of. rewrite Ei. unfold paged. cbn -[Nat.min].
    split_and!; try done; [unfold pointer; by destruct al|unfold limit; lia|by rewrite Ep].
Qed.

(** ** A page from the cache *)
Definition oid (o : MojObject) : MojObject := MojDbObjectItem.id o.

(** The objects can be read under their ids. *)
Definition readable q (objs : list MojObject) : Prop := Forall (fun o => ss_object q (oid o) = Ok (Some o)) objs.

Lemma result_storage x x' l q : has_result tokenSet x x' l -> storage x = Some q ->
  exists q', storage x' = Some q' /\ same_source tokenSet q q'.
Proof. intros (q' & seq & al & -> & _ & So) Eq. exists q'. split; [done|]. by apply So. Qed.

Lemma result_query x x' l q1 : has_result tokenSet x x' l -> (forall q, storage x = Some q -> same_source tokenSet q q1) ->
  has_result tokenSet x (with_q x' q1) l.
Proof. intros (q' & seq & al & -> & Hal & So) Eq. exists q1, seq, al. by split_and!. Qed.

Lemma result_push x x' l o : has_result tokenSet x x' l -> exists x2, push_item o x' = (x2, Ok tt) /\ has_result tokenSet x x2 (l ++ [item o]).
Proof.
  intros R. pose proof R as (q' & seq & al & -> & _). eexists. split; [reflexivity|]. by eapply (has_result_loaded tokenSet x _ l).
Qed.

Abbreviation loadCached := (MojDbSearchCursor.loadCached tokenSet).

(** One turn: the object of the id is read. *)
Lemma cached_read x x' l q o : has_result tokenSet x x' l -> storage x = Some q -> ss_object q (oid o) = Ok (Some o) ->
  exists q1 i, on_query (sq_getById (oid o)) x' = (with_q x' q1, Ok (Some i, true)) /\ MojDbStorageItem.toObject tokenSet i = Ok o /\
    has_result tokenSet x (with_q x' q1) l.
Proof.
  intros R Eq Eo. destruct (result_storage x x' l q R Eq) as (q' & Eq' & So & Sg). rewrite (on_query_run _ x' q' Eq').
  destruct (ss_getById q' (oid o)) as (q1 & r & -> & Hr & _ & So1 & Sg1). rewrite So, Eo in Hr. destruct Hr as (i & -> & Ei).
  exists q1, i. split_and!; [done|done|]. eapply result_query; [exact R|]. intros q0 Eq0. assert (q0 = q) as -> by congruence.
  split; congruence.
Qed.

Lemma cached_load x q objs : storage x = Some q -> readable q objs -> 0 <= m_limit x.1 < MojUInt32Max ->
  forall x' l count, has_result tokenSet x x' l -> 0 <= count <= m_limit x.1 + 1 ->
  let n := Z.to_nat (m_limit x.1 + 1 - count) in
  exists x2, loadCached (map oid objs) true count x' = (x2, Ok (drop n (map oid objs))) /\
             has_result tokenSet x x2 (l ++ map item (take n objs)).
Proof.
  intros Eq F HL. induction F as [|o objs Ho F IH]; intros x' l count R Hc n.
  - exists x'. rewrite take_nil. cbn [map]. by rewrite drop_nil, app_nil_r.
  - destruct (cached_read x x' l q o R Eq Ho) as (q1 & i & Eg & Ei & R1). pose proof R1 as (q2 & seq & al & E1 & _).
    cbn [map MojDbSearchCursor.loadCached]. unfold bind at 1, attempt. rewrite Eg. rewrite (bind_ok _ _ _ _ _ (eq_refl : cursor _ = (_, Ok _))).
    cbn [negb andb]. assert (m_limit (with_q x' q1).1 = m_limit x.1) as -> by (by rewrite E1).
    rewrite (to_uint_small 32) by (unfold in_uint, MojUInt32Max in *; lia).
    destruct (Z.leb_spec (m_limit x.1 + 1) count) as [Hle|Hgt].
    + assert (n = 0%nat) as -> by (unfold n; lia). exists (with_q x' q1). cbn [take map drop]. by rewrite app_nil_r.
    + unfold bind at 1. unfold lift at 1. rewrite Ei.
      destruct (result_push x (with_q x' q1) l o R1) as (x2 & E2 & R2). rewrite (bind_ok _ _ _ _ _ E2).
      rewrite (to_uint_small 32) by (unfold in_uint, MojUInt32Max in *; lia).
      destruct (IH x2 (l ++ [item o]) (count + 1) R2) as (x3 & E3 & R3); [lia|]. exists x3.
      assert (n = S (Z.to_nat (m_limit x.1 + 1 - (count + 1)))) as -> by (unfold n; lia). cbn [drop take map].
      rewrite <- app_assoc in R3. by split.
Qed.

Lemma cached_skip x q pre : storage x = Some q -> readable q pre ->
  Forall (fun o => MojObject.compare (m_pageObject x.1) (oid o) <> 0) pre ->
  forall ids x' l, has_result tokenSet x x' l ->
  exists x2, loadCached (map oid pre ++ ids) false 0 x' = loadCached ids false 0 x2 /\ has_result tokenSet x x2 l.
Proof.
  intros Eq F. induction F as [|o pre Ho F IH]; intros HN ids x' l R; [by exists x'|].
  apply Forall_cons in HN as [Hne HN]. destruct (cached_read x x' l q o R Eq Ho) as (q1 & i & Eg & _ & R1).
  pose proof R1 as (q2 & seq & al & E1 & _).
  cbn [map app MojDbSearchCursor.loadCached]. unfold bind at 1, attempt. rewrite Eg. rewrite (bind_ok _ _ _ _ _ (eq_refl : cursor _ = (_, Ok _))).
  assert (m_pageObject (with_q x' q1).1 = m_pageObject x.1) as -> by (by rewrite E1).
  destruct (Z.eqb_spec (MojObject.compare (m_pageObject x.1) (oid o)) 0); [done|]. cbn [negb andb]. by apply IH.
Qed.

(** The page's own id starts the loading. *)
Lemma cached_start x x' l q o ids : has_result tokenSet x x' l -> storage x = Some q -> ss_object q (oid o) = Ok (Some o) ->
  MojObject.compare (m_pageObject x.1) (oid o) = 0 ->
  loadCached (oid o :: ids) false 0 x' = loadCached (oid o :: ids) true 0 x'.
Proof.
  intros R Eq Ho Ec. destruct (cached_read x x' l q o R Eq Ho) as (q1 & i & Eg & _ & R1).
  pose proof R1 as (q2 & seq & al & E1 & _).
  cbn [MojDbSearchCursor.loadCached]. unfold bind at 1 5, attempt. rewrite Eg.
  rewrite !(bind_ok _ _ _ _ _ (eq_refl : cursor _ = (_, Ok _))).
  assert (m_pageObject (with_q x' q1).1 = m_pageObject x.1) as -> by (by rewrite E1).
  rewrite Ec. done.
Qed.

Lemma pushAll_result x ids : forall x' l, has_result tokenSet x x' l ->
  exists x2, pushAll ids x' = (x2, Ok tt) /\ has_result tokenSet x x2 (l ++ map item ids).
Proof.
  induction ids as [|id ids IH]; intros x' l R; cbn [pushAll map].
  - exists x'. by rewrite app_nil_r.
  - destruct (result_push x x' l id R) as (x2 & E2 & R2). rewrite (bind_ok _ _ _ _ _ E2).
    destruct (IH x2 _ R2) as (x3 & E3 & R3). exists x3. rewrite <- app_assoc in R3. by split.
Qed.

Definition distinct_ids (objs : list MojObject) : Prop :=
  forall i j a b, objs !! i = Some a -> objs !! j = Some b -> MojObject.compare (oid a) (oid b) = 0 -> i = j.

(** The cursor is asked for the page that starts with the object [k]. *)
Definition page_at x (objs : list MojObject) (k : nat) : Prop :=
  (k = 0%nat /\ m_page x.1 = []) \/
  (m_page x.1 <> [] /\ MojDbQuery.Page_toObject (m_page x.1) = Ok (m_pageObject x.1) /\
   exists o, objs !! k = Some o /\ m_pageObject x.1 = oid o).

(** The items made of cached ids: objects, and ids past the next page's first. *)
Definition cached_items (n : nat) (objs : list MojObject) : list Item :=
  map item (take n objs) ++ map item (drop n (map oid objs)).

Lemma cached_items_length n objs : length (cached_items n objs) = length objs.
Proof. unfold cached_items. rewrite length_app, !length_map, length_take, length_drop, length_map. lia. Qed.

Lemma cached_items_take n objs : take n (cached_items (S n) objs) = map item (take n objs).
Proof.
  unfold cached_items. rewrite take_app. rewrite length_map, length_take.
  destruct (decide (length objs <= n)%nat) as [Hle|Hgt].
  - rewrite !(take_ge objs) by lia. rewrite (take_ge (map item objs)) by (rewrite length_map; lia).
    rewrite drop_ge by (rewrite length_map; lia). cbn [map]. by rewrite take_nil, app_nil_r.
  - replace (n - (S n `min` length objs))%nat with 0%nat by lia. rewrite take_0, app_nil_r, <- fmap_take, take_take. f_equal. f_equal. lia.
Qed.

Lemma cached_items_at n objs i : (i < n)%nat -> cached_items n objs !! i = item <$> objs !! i.
Proof.
  intros Hi. unfold cached_items. destruct (objs !! i) as [o|] eqn:E.
  - rewrite lookup_app_l by (rewrite length_map, length_take; apply lookup_lt_Some in E; lia).
    rewrite list_lookup_fmap, lookup_take_lt by done. by rewrite E.
  - apply lookup_ge_None in E. apply lookup_ge_None_2. rewrite <- (cached_items_length n objs) in E. exact E.
Qed.

Lemma has_result_start x q : storage x = Some q -> m_items x.1 = [] -> has_result tokenSet x x [].
Proof.
  intros Eq Ei. exists q, (m_sequencedItems x.1), (m_allocated x.1). split_and!; [|done|].
  - unfold storage, base in Eq. destruct x as [[[] ?] ?]. cbn in *. unfold loaded_x. cbn. by subst.
  - intros q0 Eq0. assert (q0 = q) as -> by congruence. by split.
Qed.

Lemma loadFromCache_run x q objs k : storage x = Some q -> m_items x.1 = [] -> readable q objs -> distinct_ids objs ->
  0 <= m_limit x.1 < MojUInt32Max -> MojDbSearchCache.getIdSet x.2 (m_queryKey x.1) [] = map oid objs -> page_at x objs k ->
  exists x2, loadFromCache tokenSet x = (x2, Ok tt) /\
             has_result tokenSet x x2 (cached_items (S (Z.to_nat (m_limit x.1))) (drop k objs)).
Proof.
  intros Eq Ei F Hd HL Hc Hp. unfold loadFromCache. rewrite (bind_ok _ _ _ _ _ (eq_refl : get x = (x, Ok x))). rewrite Hc.
  assert (exists x1, loadCached (map oid objs) (match m_page x.1 with [] => true | _ => false end) 0 x =
    loadCached (map oid (drop k objs)) true 0 x1 /\ has_result tokenSet x x1 []) as (x1 & E1 & R1).
  { pose proof (has_result_start x q Eq Ei) as R. destruct Hp as [[-> ->] | (Hne & _ & o & Ek & Epo)].
    - exists x. by rewrite drop_0.
    - destruct (m_page x.1); [done|]. 
      replace (map oid objs) with (map oid (take k objs) ++ oid o :: map oid (drop (S k) objs))
        by (rewrite <- map_cons, <- map_app; by rewrite take_drop_middle).
      destruct (cached_skip x q (take k objs) Eq) with (ids := oid o :: map oid (drop (S k) objs)) (x' := x) (l := @nil Item) as (x1 & E1 & R1).
      + by apply Forall_take.
      + apply Forall_forall. intros a [i Ha]%list_elem_of_lookup_1 E. rewrite Epo in E.
        pose proof (lookup_lt_Some _ _ _ Ha). rewrite length_take in *. rewrite lookup_take_lt in Ha by lia.
        apply comp_eq_sym in E; [|apply _]. pose proof (Hd i k a o Ha Ek E). lia.
      + done.
      + exists x1. split; [|exact R1]. rewrite E1, (drop_S _ _ _ Ek). cbn [map]. apply (cached_start x x1 [] q); try done.
        * unfold readable in F. rewrite Forall_forall in F. apply F. by apply list_elem_of_lookup_2 in Ek.
        * rewrite Epo. apply (comp_refl MojObject.compare). }
  destruct (cached_load x q (drop k objs) Eq) with (x' := x1) (l := @nil Item) (count := 0) as (x2 & E2 & R2); [by apply Forall_drop|done|done|lia|].
  rewrite <- E1 in E2. rewrite (bind_ok _ _ _ _ _ E2).
  destruct (pushAll_result x (drop (Z.to_nat (m_limit x.1 + 1 - 0)) (map oid (drop k objs))) x2 _ R2) as (x3 & E3 & R3).
  exists x3. split; [exact E3|]. unfold cached_items. cbn [app] in R3.
  by replace (Z.to_nat (m_limit x.1 + 1 - 0)) with (S (Z.to_nat (m_limit x.1))) in R3 by lia.
Qed.

(** An id that is base 64 text, as generated ids are, comes back from a page. *)
Definition canonical (id : MojObject) : Prop :=
  exists p, MojDbQuery.Page_fromObject id = Ok p /\ MojDbQuery.Page_toObject p = Ok id /\ p <> [].

Definition next_page (objs : list MojObject) (n : nat) : MojDbKey :=
  match objs !! n with Some o => pageOf [] (oid o) | None => [] end.

Lemma canonical_page id page : canonical id -> pageOf page id = pageOf [] id.
Proof. intros (p & E & _). unfold pageOf. by rewrite E. Qed.

Lemma canonical_json id : canonical id -> exists text, JsonRoundTrip.toJson id = Ok text.
Proof.
  intros (p & _ & E & _). unfold MojDbQuery.Page_toObject in E. apply res_bind_ok in E as (s & _ & [= <-]). by eexists.
Qed.

(** [setPagePosition] when the page's item is the first. *)
Lemma setPagePosition_run x l i0 : m_items x.1 = l -> l !! 0%nat = Some i0 ->
  MojDbQuery.Page_toObject (m_page x.1) = Ok (item_id i0) -> m_allocated x.1 = true -> Z.of_nat (length l) <= MojUInt32Max ->
  0 <= m_limit x.1 -> (forall i, l !! Z.to_nat (m_limit x.1) = Some i -> exists text, JsonRoundTrip.toJson (item_id i) = Ok text) ->
  exists x1, setPagePosition x = (x1, Ok tt) /\
    paged x x1 l 0 (Nat.min (Z.to_nat (m_limit x.1)) (length l))
      (match l !! Z.to_nat (m_limit x.1) with Some i => pageOf (m_page x.1) (item_id i) | None => [] end) x.2.
Proof.
  intros El E0 Ep Ha Hl HL Hj. unfold setPagePosition. rewrite (bind_ok _ _ x x x.1 eq_refl).
  rewrite Ep, El. unfold bind at 1, lift at 1. destruct l as [|i l]; [done|]. injection E0 as ->. cbn [findPage].
  rewrite (comp_refl MojObject.compare). cbn [Z.eqb]. unfold bind at 1, lift at 1. rewrite Nat.sub_0_r.
  rewrite (to_uint_small 32) by (unfold in_uint, MojUInt32Max in *; lia).
  destruct (Z.leb_spec (Z.of_nat (length (i0 :: l))) (m_limit x.1)) as [Hle|Hgt].
  - eexists. split; [reflexivity|]. rewrite lookup_ge_None_2 by lia. unfold paged. cbn -[Nat.min]. split_and!; try done. cbn in *. lia.
  - destruct (lookup_lt_is_Some_2 (i0 :: l) (Z.to_nat (m_limit x.1))) as [i Ei]; [lia|].
    unfold idAt. rewrite El. cbn [Nat.add]. rewrite Ei. destruct (Hj i Ei) as [text Et].
    unfold bind at 1, lift at 1. unfold change, modify, bind at 1. unfold bind, lift. rewrite Et.
    eexists. split; [reflexivity|]. unfold paged. cbn -[Nat.min length]. split_and!; try done. lia.
Qed.

Lemma load_cached fuel x q objs k : storage x = Some q -> m_items x.1 = [] -> readable q objs -> distinct_ids objs ->
  Forall (fun o => canonical (oid o)) objs -> Z.of_nat (length objs) <= MojUInt32Max -> 0 <= m_limit x.1 < MojUInt32Max ->
  MojDbSearchCache.find x.2 (m_queryKey x.1) = Some (map oid objs) -> page_at x objs k ->
  MojDbQuery.m_immediateReturn (MojDbCursor.m_query (base x)) = false ->
  let limit := Z.to_nat (m_limit x.1) in
  let l := cached_items (S limit) (drop k objs) in
  exists x1 x', load fuel true x = (x1, Ok tt) /\ has_result tokenSet x x' l /\
    paged x' x1 l 0 (Nat.min limit (length l)) (next_page objs (k + limit)) x.2.
Proof.
  intros Eq Ei F Hd Fc Hl HL Hc Hp Him limit l.
  destruct (loadFromCache_run x q objs k Eq Ei F Hd HL) as (x' & E & R); [unfold MojDbSearchCache.getIdSet; by rewrite Hc|exact Hp|].
  fold limit in R. fold l in R.
  assert (l !! limit = item <$> objs !! (k + limit)%nat) as Elim.
  { unfold l. rewrite cached_items_at by lia. by rewrite lookup_drop. }
  assert (length l = length objs - k)%nat as Elen by (unfold l; by rewrite cached_items_length, length_drop).
  pose proof R as (q' & seq & al & Ex' & Hal & _).
  assert (m_page x'.1 = m_page x.1 /\ m_items x'.1 = l /\ m_limit x'.1 = m_limit x.1 /\ m_queryKey x'.1 = m_queryKey x.1 /\
    MojDbCursor.m_query (m_base x'.1) = MojDbCursor.m_query (base x) /\ x'.2 = x.2) as (E1 & E2 & E3 & E4 & E5 & E6) by (by rewrite Ex').
  unfold MojDbSearchCursor.load. rewrite (bind_ok _ _ _ _ _ (E : load_items fuel true x = _)).
  rewrite (bind_ok _ _ x' x' x'.1 eq_refl). destruct Hp as [[-> Ep] | (Hne & Epo & o & Ek & Eoo)].
  - rewrite E1, Ep, E2, E3. destruct (Z.leb_spec (Z.of_nat (length l)) (m_limit x.1)) as [Hle|Hgt].
    + eexists _, x'. split; [reflexivity|]. split; [exact R|]. unfold paged, next_page. rewrite (lookup_ge_None_2 objs) by lia.
      cbn -[Nat.min]. split_and!; try done; [by unfold pointer; destruct (m_allocated _)|lia|by rewrite E1].
    + destruct (lookup_lt_is_Some_2 objs (0 + limit)) as [o Eo]; [lia|]. unfold idAt. rewrite E2. fold limit. rewrite Elim, Eo, E5, Him, E4.
      cbn [fmap option_fmap option_map]. eexists _, x'. split; [reflexivity|]. split; [exact R|]. unfold paged, next_page. rewrite Eo.
      cbn -[Nat.min MojDbSearchCache.updateCache]. rewrite E6. unfold MojDbSearchCache.updateCache, MojDbSearchCache.contain. rewrite Hc.
      split_and!; try done; [by unfold pointer; destruct (m_allocated _)|lia|by rewrite E1, Ep].
  - destruct (m_page x'.1) as [|b page] eqn:Epage; [by rewrite <- E1 in Hne|].
    assert (l !! 0%nat = Some (item o)) as E0 by (unfold l; rewrite cached_items_at, lookup_drop, Nat.add_0_r by lia; by rewrite Ek).
    destruct (setPagePosition_run x' l (item o)) as (x1 & E7 & P1); try done.
    + rewrite Epage, E1. by rewrite Epo, Eoo.
    + rewrite Ex'. apply Hal. by destruct l.
    + lia.
    + rewrite E3. lia.
    + rewrite E3. fold limit. rewrite Elim. intros i Ei2. destruct (objs !! (k + limit)%nat) as [o2|] eqn:E8; [|done]. injection Ei2 as <-.
      apply canonical_json. rewrite Forall_forall in Fc. apply Fc. by apply list_elem_of_lookup_2 in E8.
    + rewrite (bind_ok _ _ _ _ _ E7). eexists _, x'. split; [reflexivity|]. split; [exact R|].
      rewrite E3 in P1. fold limit in P1. rewrite Elim in P1. rewrite <- E6.
      assert (match item <$> objs !! (k + limit)%nat with Some i => pageOf (b :: page) (item_id i) | None => [] end = next_page objs (k + limit)) as Epg.
      { unfold next_page. destruct (objs !! (k + limit)%nat) as [o2|] eqn:E8; [|done]. cbn. apply canonical_page.
        rewrite Forall_forall in Fc. apply Fc. by apply list_elem_of_lookup_2 in E8. }
      rewrite Epage, Epg in P1. exact P1.
Qed.

(** ** What a search shows *)
Abbreviation visit := (MojDbSearchCursor.visit tokenSet strToDecimal m_locale indexLocale MojRand schedule).

Definition with_key x (key : QueryKey) : X := (with_queryKey x.1 key, x.2).

(** The search has not begun, and asks the cache with [key]. *)
Definition keyed_by x (key : QueryKey) : Prop :=
  m_pos x.1 = None /\ exists rev, kind_updateRevision (MojDbQuery.m_fromType (m_cacheQuery x.1)) = Ok rev /\
                                  MojDbSearchCache.fromQuery (m_cacheQuery x.1) rev = Ok key.

Lemma begin_load fuel x key : keyed_by x key -> begin fuel x = load fuel (MojDbSearchCache.contain x.2 key) (with_key x key).
Proof.
  intros (Ep & rev & Er & Ek). unfold MojDbSearchCursor.begin. rewrite (bind_ok _ _ x x x.1 eq_refl). unfold loaded. rewrite Ep.
  unfold bind at 1, lift at 1. rewrite Er. unfold bind at 1, lift at 1. rewrite Ek. reflexivity.
Qed.

(** A page that was loaded is shown. *)
Lemma visit_paged {S} `{!Visitor S} fuel fuel2 x x' x1 l n page cache (v : S) : begin fuel x = (x1, Ok tt) ->
  has_result tokenSet x x' l \/ (exists key, has_result tokenSet (with_key x key) x' l) ->
  paged x' x1 l 0 n page cache -> (n <= length l)%nat -> (n < fuel2)%nat -> (exists q, storage x = Some q) ->
  MojDbCursor.m_aggregateFilter (base x) = None ->
  match showAll tokenSet (MojDbCursor.m_objectFilter (base x)) (map shown (take n l)) v with
  | Ok v' => exists x2, visit fuel fuel2 v x = (x2, Ok v') /\ m_page x2.1 = page /\ x2.2 = cache
  | Err e => e <> MojErrInternalIndexOnFind ->
      exists x2, visit fuel fuel2 v x = (x2, Err e) /\ MojDbCursor.m_lastErr (base x2) = Some e
  end.
Proof.
  intros E R (Ei & Ep & El & Epg & Ec & Eb) Hn Hf [q Eq] Ea.
  assert (exists q', base x1 = MojDbCursor.with_storage (base x) (Some q')) as [q' Eb1].
  { rewrite Eb. destruct R as [(q' & seq & al & -> & _)|(key & q' & seq & al & -> & _)]; by exists q'. }
  destruct (feeds_begin fuel x x1 0 n E Ep) as (x2 & HF & E1 & E2 & E3); [lia|rewrite Ei, El; lia|by rewrite Eb1|].
  rewrite Eb1, Ei, drop_0 in HF. cbn [MojDbCursor.m_objectFilter MojDbCursor.with_storage] in HF.
  pose proof (visit_feeds (Q := Q) (T := T) (W := W) tokenSet strToDecimal base put_base (get_item fuel)) as HV.
  specialize (HV ltac:(by intros [[] ?]) ltac:(done) (MojDbCursor.m_objectFilter (base x)) (map shown (take n l)) fuel2 x x2 v). unfold MojDbSearchCursor.visit.
  destruct (showAll _ _ _ v) as [v'|e].
  - exists x2. split; [|split; congruence]. apply HV; [|rewrite E3, Eb1; exact Ea|exact HF|rewrite length_map, length_take; lia].
    unfold MojDbCursor.isOpen. unfold storage in Eq. by rewrite Eq.
  - apply HV; [|rewrite E3, Eb1; exact Ea|exact HF|rewrite length_map, length_take; lia].
    unfold MojDbCursor.isOpen. unfold storage in Eq. by rewrite Eq.
Qed.

(** An error of the loading ends the walk. *)
Lemma visit_failed {S} `{!Visitor S} fuel fuel2 x x1 e (v : S) : begin fuel x = (x1, Err e) -> e <> MojErrInternalIndexOnFind ->
  (exists q, storage x = Some q) -> (0 < fuel2)%nat -> exists x2, visit fuel fuel2 v x = (x2, Err e).
Proof.
  intros E Hne [q Eq] Hf. destruct fuel2 as [|fuel2]; [lia|]. unfold MojDbSearchCursor.visit, MojDbCursor.visitV, MojDbCursor.isOpen.
  rewrite (bind_ok _ _ x x x eq_refl). unfold storage in Eq. rewrite Eq. cbn [negb MojDbCursor.visit_loopV].
  assert (get_item fuel x = (x1, Err e)) as Eg by (unfold get_item; by apply bind_err).
  eexists. apply bind_err. unfold bind at 1, attempt at 1. unfold MojDbCursor.visitObjectV, bind, attempt, lift. rewrite Eg.
  unfold MojDbCursor.on_base, MojDbCursor.accumulate, modify. by rewrite decide_False.
Qed.
End pages.

Section theorems.
Context {Q T W : Type} `{StorageQuery Q} `{CursorTxn T} `{CursorWatcher W} `{ICU} `{ICUCase} `{Doubles} `{KindTokens} `{SearchKinds}.
Context (tokenSet : mstring -> res (list mstring)) (strToDecimal : mstring -> Z) (m_locale : mstring) (indexLocale : option mstring).
Context (MojRand : nat -> nat) (schedule : list (Z * MojObject) -> list (Z * MojObject)).
Context `{!SearchStorage Q tokenSet}.
Abbreviation X := (MojDbSearchCursor Q T W * Container)%type.
Abbreviation visit := (MojDbSearchCursor.visit tokenSet strToDecimal m_locale indexLocale MojRand schedule).

(** C8: a search that is not in the cache finds exactly the ids that every group of
    its storage query gives, whatever order its threads run in; it shows the first
    [limit] of the objects that pass the filter, in the order of the query and with
    one of each key when it has a distinct property; its next page is the id of the
    item after them, and the cache then has the ids of all of them. *)
Theorem search_shows (x : X) (q : Q) (key : QueryKey) (fuel : nat) :
  searchable tokenSet schedule x q fuel -> keyed_by x key -> MojDbSearchCache.contain x.2 key = false ->
  m_page x.1 = [] -> 0 <= m_limit x.1 -> (m_orderProp x.1 = [] -> m_distinct x.1 = []) ->
  MojDbQuery.m_immediateReturn (MojDbCursor.m_query (base x)) = false -> MojDbCursor.m_aggregateFilter (base x) = None ->
  let desc := MojDbQuery.m_desc (MojDbCursor.m_query (base x)) in
  let limit := Z.to_nat (m_limit x.1) in
  exists ids, set_sorted MojObject.compare ids /\
    (forall id, MojSet.contains MojObject.compare ids id = true <-> in_all_groups (ss_groups q) (ss_ids q) id) /\
    let objs := found_objects tokenSet x q ids in
    match arrange m_locale indexLocale MojRand x.1 desc (map item objs) with
    | Ok l =>
        arranged m_locale indexLocale x.1 desc objs l /\
        forall (S : Type) (V : Visitor S) (v : S) fuel2, (length (take limit l) < fuel2)%nat ->
        match showAll tokenSet (MojDbCursor.m_objectFilter (base x)) (map shown (take limit l)) v with
        | Ok v' => exists x', visit fuel fuel2 v x = (x', Ok v') /\ m_page x'.1 = next_of [] l limit /\
            x'.2 = match l !! limit with
                   | Some _ => MojDbSearchCache.updateCache x.2 key (map item_id l)
                   | None => x.2
                   end
        | Err e => e <> MojErrInternalIndexOnFind ->
            exists x', visit fuel fuel2 v x = (x', Err e) /\ MojDbCursor.m_lastErr (base x') = Some e
        end
    | Err e => e <> MojErrInternalIndexOnFind ->
        forall (S : Type) (V : Visitor S) (v : S) fuel2, (0 < fuel2)%nat -> exists x', visit fuel fuel2 v x = (x', Err e)
    end.
Proof.
  intros Hs Hk Hc Ep HL Hd Him Ea desc limit. pose proof Hs as [Eq _].
  destruct (load_items_run tokenSet m_locale indexLocale MojRand schedule fuel (with_key x key) q) as (ids & Ss & Hids & HR); [exact Hs| |].
  { change (base (with_key x key)) with (base x). by rewrite Him. }
  exists ids. split; [exact Ss|]. split; [exact Hids|]. intros objs.
  change (arrange m_locale indexLocale MojRand (with_key x key).1) with (arrange m_locale indexLocale MojRand x.1) in HR.
  change (found_objects tokenSet (with_key x key) q ids) with objs in HR. change (base (with_key x key)) with (base x) in HR. fold desc in HR.
  pose proof (begin_load tokenSet m_locale indexLocale MojRand schedule fuel x key Hk) as Eb. rewrite Hc in Eb.
  destruct (arrange m_locale indexLocale MojRand x.1 desc (map item objs)) as [l|e] eqn:El.
  - split; [by apply (arrange_arranged m_locale indexLocale MojRand)|]. intros S V v fuel2 Hf. destruct HR as (x' & E & R).
    destruct (load_first tokenSet m_locale indexLocale MojRand schedule fuel (with_key x key) x' l E R Ep HL Him) as (x1 & E1 & P1).
    rewrite <- Eb in E1. rewrite length_take in Hf. change (m_limit (with_key x key).1) with (m_limit x.1) in P1. fold limit in P1.
    replace (take limit l) with (take (Nat.min limit (length l)) l) by (rewrite <- (take_ge l (length l)) at 3 by lia; by rewrite take_take).
    eapply (visit_paged tokenSet strToDecimal m_locale indexLocale MojRand schedule fuel fuel2 x x' x1 l _ _ _ v E1); [right; by exists key|exact P1|lia|lia|by exists q|exact Ea].
  - intros Hne S V v fuel2 Hf. destruct HR as (x' & E).
    apply (visit_failed tokenSet strToDecimal m_locale indexLocale MojRand schedule fuel fuel2 x x' e v); [|done|by exists q|done].
    rewrite Eb. unfold MojDbSearchCursor.load. by apply bind_err.
Qed.

(** C9: when the cache has the ids of a result, a search for the page that starts at
    any place of it - with the page's key, or without a page for the first - shows the
    next [limit] objects of the result and gives the key of the page after them, none
    at the end: page after page the whole result is shown, each object once. *)
Theorem search_pages (x : X) (q : Q) (key : QueryKey) (objs : list MojObject) (k : nat) (fuel : nat) :
  storage x = Some q -> m_items x.1 = [] -> keyed_by x key ->
  MojDbSearchCache.find x.2 key = Some (map oid objs) -> readable tokenSet q objs -> distinct_ids objs ->
  Forall (fun o => canonical (oid o)) objs -> Z.of_nat (length objs) <= MojUInt32Max -> page_at x objs k ->
  0 <= m_limit x.1 < MojUInt32Max ->
  MojDbQuery.m_immediateReturn (MojDbCursor.m_query (base x)) = false -> MojDbCursor.m_aggregateFilter (base x) = None ->
  let limit := Z.to_nat (m_limit x.1) in
  let page := take limit (drop k objs) in
  forall (S : Type) (V : Visitor S) (v : S) fuel2, (length page < fuel2)%nat ->
  match showAll tokenSet (MojDbCursor.m_objectFilter (base x)) (map ObjectItem page) v with
  | Ok v' => exists x', visit fuel fuel2 v x = (x', Ok v') /\ m_page x'.1 = next_page objs (k + limit) /\ x'.2 = x.2
  | Err e => e <> MojErrInternalIndexOnFind ->
      exists x', visit fuel fuel2 v x = (x', Err e) /\ MojDbCursor.m_lastErr (base x') = Some e
  end.
Proof.
  intros Eq Ei Hk Hc F Hd Fc Hl Hp HL Him Ea limit page S V v fuel2 Hf.
  pose proof (begin_load tokenSet m_locale indexLocale MojRand schedule fuel x key Hk) as Eb.
  unfold MojDbSearchCache.contain in Eb. rewrite Hc in Eb.
  destruct (load_cached tokenSet m_locale indexLocale MojRand schedule fuel (with_key x key) q objs k) as (x1 & x' & E1 & R & P1);
    try done. rewrite <- Eb in E1. change (m_limit (with_key x key).1) with (m_limit x.1) in R, P1. fold limit in R, P1.
  set (l := cached_items (Datatypes.S limit) (drop k objs)) in *.
  assert (map shown (take (Nat.min limit (length l)) l) = map ObjectItem page) as <-.
  { replace (take (Nat.min limit (length l)) l) with (take limit l)
      by (rewrite <- (take_ge l (length l)) at 1 by lia; by rewrite take_take).
    unfold l. rewrite cached_items_take, map_map. done. }
  eapply (visit_paged tokenSet strToDecimal m_locale indexLocale MojRand schedule fuel fuel2 x x' x1 l _ _ _ v E1); [right; by exists key|exact P1|lia| |by exists q|exact Ea].
  unfold page in Hf. rewrite length_take in Hf. unfold l. rewrite cached_items_length. lia.
Qed.
End theorems.
