(* ===== verification/SearchExample.v ===== *)
(** * A search at work

    A storage query over a short list of ids in two groups; the pages of a sorted
    search, and what becomes of pages whose ids are unusual. *)

From S2P Require Import Prelude Effects Containers QuickSort CoreUtil Number Object ObjectBuilder DataSerialization TokenSet ObjectSerialization Text DbKey Json JsonRoundTrip DbQuery QueryPlan OrderedMap ObjectItem ObjectItemSpec IsamQuery Extractor ObjectFilter AggregateFilter QueryFilter Cursor CursorSpec SearchCursor SearchSpec SearchPages.
Import MojDbSearchCursor.

Module SearchExample.
#[local] Instance kinds : KindTokens := RecordSpec.one_kind.
#[local] Instance icu : ICU := MojDbQueryFilter.Sample.icu.
#[local] Instance icu_case : ICUCase := MojDbQueryFilter.Sample.icu_case.
#[local] Instance no_txn : CursorTxn unit := {| txn_commit := ret tt; txn_abort := ret tt |}.
#[local] Instance no_watcher : CursorWatcher unit := {| watcher_activate _ := ret tt |}.
#[local] Instance no_doubles : Doubles := {|
  double := Z; double_of_int v := v; of_decimal r := r; to_decimal d := d; double_add := Z.add; double_div := Z.quot |}.
#[local] Instance search_kinds : SearchKinds := {| kind_indexes _ := Ok []; kind_updateRevision _ := Ok 5 |}.

Definition tokens (kind : mstring) : res (list mstring) := Ok [].

Definition object (id : string) (n : Z) : MojObject := ObjectImpl [(_T "_id", StringImpl (_T id)); (_T "n", IntImpl n)].
Definition store : list MojObject := [object "aaaa" 3; object "bbbb" 1; object "cccc" 2; object "dddd" 0; object "e e" 4].

Definition lookup_object (id : MojObject) : option MojObject := List.find (fun o => MojObject.compare (oid o) id =? 0) store.

(** The ids to come; [true] when the kind of "dddd" is excluded. *)
Record source := { ids : list (MojObject * Z); excluding : bool }.

Definition object_of (q : source) (id : MojObject) : res (option MojObject) :=
  match lookup_object id with
  | None => Err MojErrInternalIndexOnFind
  | Some o => Ok (if excluding q && (MojObject.compare id (StringImpl (_T "dddd")) =? 0) then None else Some o)
  end.

#[local] Instance storage_query : StorageQuery source := {|
  sq_get := ret (None, false);
  sq_getId := fun q => ({| ids := tail (ids q); excluding := excluding q |}, Ok (head (ids q)));
  sq_getById id := fun q => (q, let? r := object_of q id in Ok (ObjectItem <$> r, true));
  sq_getObject id := fun q => (q, let? r := object_of q id in Ok (match r with Some o => (o, true) | None => (UndefinedImpl, false) end));
  sq_groupCount := fun q => (q, Ok 2%nat);
  sq_count := ret 0; sq_nextPage := ret []; sq_close := ret tt; sq_endKey _ := []; sq_excludeKinds _ q := q; sq_verify _ q := q
|}.

Lemma store_rebuilds o : o ∈ store -> MojDbStorageItem.toObject tokens (ObjectItem o) = Ok o.
Proof.
  assert (Forall (fun o => MojDbStorageItem.toObject tokens (ObjectItem o) = Ok o) store) as F by (repeat constructor).
  rewrite Forall_forall in F. apply F.
Qed.

#[local] Instance search_storage : SearchStorage source tokens.
Proof.
  refine {| ss_ids := ids; ss_object := object_of; ss_groups _ := 2%nat |}.
  - intros q. by eexists.
  - intros q id. exists q. split; [|done]. cbn. by destruct (object_of q id) as [[o|]|e].
  - intros q id. cbn. eexists q, _. split; [reflexivity|]. split; [|done]. unfold object_of.
    destruct (lookup_object id) as [o|] eqn:E; [|done]. apply find_some in E as [Hin _].
    destruct (excluding q && _); cbn; [done|]. exists (ObjectItem o). split; [done|]. apply store_rebuilds. by apply list_elem_of_In.
  - done.
Defined.

Definition str (id : string) : MojObject := StringImpl (_T id).

(** Three ids are in both groups, "dddd" in one. *)
Definition two_groups : source :=
  {| ids := [(str "bbbb", 0); (str "aaaa", 0); (str "dddd", 0); (str "cccc", 0); (str "aaaa", 1); (str "cccc", 1); (str "bbbb", 1)];
     excluding := false |}.

Definition query (limit : Z) (page : MojDbKey) : MojDbQuery.MojDbQuery :=
  MojDbQuery.with_flags (MojDbQuery.order (MojDbQuery.with_from MojDbQuery.make (_T "A:1")) (_T "n")) false false limit page.

Abbreviation Cur := (MojDbSearchCursor source unit unit).

(** A cursor with the query, on a storage query, beside a cache. *)
Definition start (q : source) (limit : Z) (page : MojDbKey) (c : MojDbSearchCache.Container) : Cur * MojDbSearchCache.Container :=
  let (x, _) := init (Q := source) (T := unit) (W := unit) [] (query limit page) (make, c) in with_q x q.

Definition seed (n : nat) : nat := (n + 1)%nat.

Definition in_array (v : list MojObject) : MojObjectBuilder.MojObjectBuilder :=
  {| MojObjectBuilder.m_stack := [{| MojObjectBuilder.r_obj := ArrayImpl v; MojObjectBuilder.r_propName := [] |}];
     MojObjectBuilder.m_obj := UndefinedImpl; MojObjectBuilder.m_propName := [] |}.

Definition run (x : Cur * MojDbSearchCache.Container) :=
  visit (Q := source) (T := unit) (W := unit) tokens (fun _ => 0) [] None seed (@rev _) 10 10 (in_array []) x.

(** What is shown, the page after it and the cache. *)
Definition outcome (x : Cur * MojDbSearchCache.Container) : option (list MojObject * MojDbKey * MojDbSearchCache.Container) :=
  match run x with
  | (x', Ok b) => match MojObjectBuilder.m_stack b with
                  | [r] => match MojObjectBuilder.r_obj r with ArrayImpl v => Some (v, m_page x'.1, x'.2) | _ => None end
                  | _ => None
                  end
  | _ => None
  end.

Definition page_of (id : string) : MojDbKey := pageOf [] (str id).

Definition key : MojDbSearchCache.QueryKey :=
  match MojDbSearchCache.fromQuery (m_cacheQuery (start two_groups 2 [] []).1) 5 with
  | Ok k => k | Err _ => {| MojDbSearchCache.m_kind := []; MojDbSearchCache.m_rev := 0; MojDbSearchCache.m_query := [] |}
  end.

Definition cached : MojDbSearchCache.Container := [(key, [str "bbbb"; str "cccc"; str "aaaa"])].

Example first_page : outcome (start two_groups 2 [] []) = Some ([object "bbbb" 1; object "cccc" 2], page_of "aaaa", cached).
Proof. vm_compute. reflexivity. Qed.

Example second_page : outcome (start two_groups 2 (page_of "aaaa") cached) = Some ([object "aaaa" 3], [], cached).
Proof. vm_compute. reflexivity. Qed.

Lemma keyed_first : keyed_by (start two_groups 2 [] []) key.
Proof. split; [reflexivity|]. exists 5. split; [reflexivity|]. vm_compute. reflexivity. Qed.

Lemma in_both id : in_all_groups 2 (ids two_groups) id -> exists o, o ∈ store /\ MojObject.compare (oid o) id = 0.
Proof.
  intros Hi. destruct (Hi 0%nat) as (id' & Hin & E); [lia|]. unfold two_groups in Hin. cbn [ids] in Hin.
  repeat (apply elem_of_cons in Hin as [Hin|Hin]; [|]); try (by apply not_elem_of_nil in Hin); injection Hin; intros; subst; try discriminate.
  - exists (object "bbbb" 1). split; [|exact E]. do 1 right. left.
  - exists (object "aaaa" 3). split; [|exact E]. left.
  - exists (object "dddd" 0). split; [|exact E]. do 3 right. left.
  - exists (object "cccc" 2). split; [|exact E]. do 2 right. left.
Qed.

Lemma readable_first id : in_all_groups 2 (ids two_groups) id ->
  exists r, load_one tokens (start two_groups 2 [] []) two_groups id = Ok r.
Proof.
  intros (o & Ho & E)%in_both. unfold load_one, ss_object, search_storage, object_of, lookup_object.
  destruct (List.find (fun o => MojObject.compare (oid o) id =? 0) store) as [o2|] eqn:F; [by eexists|].
  apply find_none with (x := o) in F; [|by apply list_elem_of_In]. by rewrite E in F.
Qed.

Lemma groups_first id g : (id, g) ∈ ids two_groups -> 0 <= g < 2.
Proof.
  intros Hin. assert (Forall (fun p => 0 <= p.2 < 2) (ids two_groups)) as F by (unfold two_groups; cbn [ids]; repeat constructor; cbn; lia).
  rewrite Forall_forall in F. by apply (F (id, g)).
Qed.

Lemma search_shows_witness : searchable tokens (@rev _) (start two_groups 2 [] []) two_groups 10 /\
  exists found, (forall id, MojSet.contains MojObject.compare found id = true <-> in_all_groups 2 (ids two_groups) id).
Proof.
  assert (searchable tokens (@rev _) (start two_groups 2 [] []) two_groups 10) as Hs.
  { split_and!; [reflexivity|vm_compute; lia|vm_compute; lia|exact groups_first|exact readable_first|reflexivity|reflexivity|].
    intros l. symmetry. apply Permutation_rev. }
  split; [exact Hs|].
  destruct (search_shows tokens (fun _ => 0) [] None seed (@rev _) (start two_groups 2 [] []) two_groups key 10 Hs keyed_first
    eq_refl eq_refl ltac:(discriminate) ltac:(discriminate) eq_refl eq_refl) as (found & _ & Hf & _).
  exists found. exact Hf.
Defined.

Lemma search_pages_witness :
  exists x', run (start two_groups 2 (page_of "aaaa") cached) = (x', Ok (in_array [object "aaaa" 3])) /\ m_page x'.1 = [] /\ x'.2 = cached.
Proof.
  refine (search_pages tokens (fun _ => 0) [] None seed (@rev _) (start two_groups 2 (page_of "aaaa") cached) two_groups key
    [object "bbbb" 1; object "cccc" 2; object "aaaa" 3] 2 10 eq_refl eq_refl _ _ _ _ _ _ _ _ eq_refl eq_refl _ _ (in_array []) 10%nat _).
  - split; [reflexivity|]. exists 5. split; [reflexivity|]. vm_compute. reflexivity.
  - vm_compute. reflexivity.
  - repeat constructor.
  - intros [|[|[|i]]] [|[|[|j]]] a b; cbn; intros [= <-] [= <-]; vm_compute; done.
  - repeat constructor; eexists; (split; [vm_compute; reflexivity|]); (split; [vm_compute; reflexivity|discriminate]).
  - vm_compute. discriminate.
  - right. split; [vm_compute; discriminate|]. split; [vm_compute; reflexivity|]. exists (object "aaaa" 3). split; reflexivity.
  - vm_compute. split; [discriminate|reflexivity].
  - vm_compute. lia.
Defined.

(** A page that starts with an object that is no longer in the result is empty, and
    its next page is itself. *)
Lemma gone_page_repeats : outcome (start two_groups 2 (page_of "zzzz") []) = Some ([], page_of "zzzz", []).
Proof. vm_compute. reflexivity. Qed.

(** An id that is no base 64 text makes no page: the result ends with the page before
    it, with nothing to say that there is more. *)
Lemma odd_id_lost :
  outcome (start {| ids := [(str "aaaa", 0); (str "e e", 0); (str "aaaa", 1); (str "e e", 1)]; excluding := false |} 1 [] []) =
  Some ([object "aaaa" 3], [], [(key, [str "aaaa"; str "e e"])]).
Proof. vm_compute. reflexivity. Qed.

(** Without a limit, one more than the limit wraps to none: from the cache the bare
    ids are shown for the objects. *)
Lemma unlimited_from_cache : outcome (start two_groups MojDbQuery.LimitDefault [] cached) =
  Some ([str "bbbb"; str "cccc"; str "aaaa"], [], cached).
Proof. vm_compute. reflexivity. Qed.

(** A cached id of a kind the caller may not read is dereferenced as a null item. *)
Lemma excluded_in_cache :
  (run (start {| ids := []; excluding := true |} 2 [] [(key, [str "aaaa"; str "dddd"])])).2 = Err AssertFailed.
Proof. vm_compute. reflexivity. Qed.

(** An index entry without a record fails the loading; the cursor tries again, has no
    more ids, and shows what the threads had loaded. *)
Lemma missing_record_retried :
  outcome (start {| ids := [(str "aaaa", 0); (str "gone", 0); (str "aaaa", 1); (str "gone", 1)]; excluding := false |} 2 [] []) =
  Some ([object "aaaa" 3], [], []).
Proof. vm_compute. reflexivity. Qed.
End SearchExample.
