(* ===== verification/Index.v ===== *)
(** * Indexes: src/src/db/MojDbIndex.cpp

    An index keeps, in a range of the index database, one key for every combination
    of the values its properties take in every object it includes.  The definition
    of an index is in [IndexDef]; [MojDbIndex] has the rest of its state.  The keys
    go to the storage engine through [ExtIndex]. *)

From S2P Require Import Prelude Containers CoreUtil Number Object ObjectBuilder DataSerialization TokenSet ObjectSerialization Text DbKey Json JsonRoundTrip DbQuery QueryPlan ObjectItem Effects StorageTxn Watcher Extractor.

Import MojDbWatcher (MojDbWatcher).
Import Extractor (Extractor).

(** ** What an index asks of the storage engine

    [I] are the indexes of the engine, [T] its transactions; [Z] is a shard. *)
Class ExtIndex (I T : Type) := {
  index_insert : I -> Z -> MojDbKey -> st T unit;
  index_del : I -> Z -> MojDbKey -> st T unit;
  index_drop : I -> st T unit;
  index_stats : I -> st T (Z * Z);
  index_close : I -> res unit;
  txn_base : T -> MojDbStorageTxn.MojDbStorageTxn;
  with_txn_base : T -> MojDbStorageTxn.MojDbStorageTxn -> T;
  txn_address : T -> Z
}.

(** ** The definition of an index *)
Module IndexDef.
Definition NameKey := _T "name".
Definition IncludeDeletedKey := _T "incDel".
Definition PropsKey := _T "props".
Definition TypeKey := _T "type".
Definition MultiKey := _T "multi".
Definition DefaultKey := _T "default".
Definition MaxIndexNameLen : nat := 128.

Definition isalnum (c : Z) : bool :=
  ((48 <=? c) && (c <=? 57)) || ((65 <=? c) && (c <=? 90)) || ((97 <=? c) && (c <=? 122)).

Definition validateName (name : mstring) : res unit :=
  if (MaxIndexNameLen <? length name)%nat then Err MojErrDbInvalidIndexName
  else if forallb (fun c => isalnum c || (c =? chr "_")) name then Ok tt else Err MojErrDbInvalidIndexName.

Section icu.
Context `{ICU}.

Record IndexDef := {
  m_name : mstring;
  m_locale : mstring;
  m_propNames : list mstring;
  m_props : list Extractor;
  m_obj : MojObject;
  m_includeDeleted : bool
}.

Definition init : IndexDef :=
  {| m_name := []; m_locale := []; m_propNames := []; m_props := []; m_obj := UndefinedImpl; m_includeDeleted := false |}.

Definition incDel (d : IndexDef) (val : bool) : IndexDef :=
  {| m_name := m_name d; m_locale := m_locale d; m_propNames := m_propNames d; m_props := m_props d;
     m_obj := m_obj d; m_includeDeleted := val |}.
Definition with_name (d : IndexDef) name locale : IndexDef :=
  {| m_name := name; m_locale := locale; m_propNames := m_propNames d; m_props := m_props d;
     m_obj := m_obj d; m_includeDeleted := m_includeDeleted d |}.
Definition with_props (d : IndexDef) names props : IndexDef :=
  {| m_name := m_name d; m_locale := m_locale d; m_propNames := names; m_props := props;
     m_obj := m_obj d; m_includeDeleted := m_includeDeleted d |}.
Definition with_obj (d : IndexDef) obj : IndexDef :=
  {| m_name := m_name d; m_locale := m_locale d; m_propNames := m_propNames d; m_props := m_props d;
     m_obj := obj; m_includeDeleted := m_includeDeleted d |}.

Definition createExtractor (d : IndexDef) (propObj : MojObject) : res Extractor :=
  let? type := MojObjectString.get_string propObj TypeKey in
  if bool_decide (type = Some MultiKey) then
    let? e := MojDbMultiExtractor.fromObject MojDbMultiExtractor.init propObj (m_locale d) in
    Ok (Extractor.MultiExtractor e)
  else
    let? e := MojDbPropExtractor.fromObject MojDbPropExtractor.init propObj (m_locale d) in
    Ok (Extractor.PropExtractor e).

Definition addProp (d : IndexDef) (propObj : MojObject) (pushFront : bool) : res IndexDef :=
  let? extractor := createExtractor d propObj in
  let name := Extractor.name extractor in
  if bool_decide (name ∈ m_propNames d) then Err MojErrDbInvalidIndex
  else if pushFront then Ok (with_props d (name :: m_propNames d) (extractor :: m_props d))
  else Ok (with_props d (m_propNames d ++ [name]) (m_props d ++ [extractor])).

(** [at] is false at once for anything but an array. *)
Definition fromObject (d : IndexDef) (obj : MojObject) (locale : mstring) : res IndexDef :=
  let? name := MojObjectString.getRequired_string obj NameKey in
  let? _ := validateName name in
  let d := with_name d name locale in
  let d := match MojObject.get_bool obj IncludeDeletedKey with Some b => incDel d b | None => d end in
  let? props := MojObject.getRequiredT (MojObject.get obj PropsKey) in
  let? d := res_fold (fun d propObj => addProp d propObj false) d (MojDbMultiExtractor.elements props) in
  match m_props d with
  | [] => Err MojErrDbInvalidIndex
  | _ => Ok (with_obj d obj)
  end.

(** The id comes last and, if deleted objects are included, the mark first; the
    index of the id in a key counts the prefix. *)
Definition addBuiltinProps (d : IndexDef) : res (IndexDef * nat) :=
  let? d :=
    if bool_decide (IdKey ∈ m_propNames d) then Ok d
    else addProp d (MojObject.putString UndefinedImpl NameKey IdKey) false in
  let? d :=
    if m_includeDeleted d && negb (bool_decide (head (m_propNames d) = Some DelKey)) then
      addProp d (MojObject.putBool (MojObject.putString UndefinedImpl NameKey DelKey) DefaultKey false) true
    else Ok d in
  match list_find (fun name => name = IdKey) (m_propNames d) with
  | Some (i, _) => Ok (d, S i)
  | None => Err AssertFailed
  end.

Definition isIdIndex (d : IndexDef) : bool :=
  bool_decide (m_propNames d = [IdKey]) || bool_decide (m_propNames d = [DelKey; IdKey]).

Definition includeObj (d : IndexDef) (obj : option MojObject) : bool :=
  match obj with
  | None => false
  | Some obj =>
      if m_includeDeleted d then true
      else negb (match MojObject.get_bool obj DelKey with Some deleted => deleted | None => false end)
  end.

(** The set of keys of an object: the id of the index and a value of each property. *)
Definition getKeys (d : IndexDef) (m_idSet : KeySet) (obj : MojObject) : res KeySet :=
  let? builder :=
    res_fold (fun builder i => let? vals := Extractor.vals i obj [] in Ok (MojDbKeyBuilder.push builder vals))
      (MojDbKeyBuilder.push [] m_idSet) (m_props d) in
  MojDbKeyBuilder.keys builder.

(** Whether the answers of a query are contiguous in the index.  [props] are those
    not looked at yet, with [numQueryProps] clauses to find. *)
Fixpoint canAnswer_loop (map : MojDbQuery.WhereMap) (orderProp : mstring) (props : list (mstring * Extractor))
    (numQueryProps : nat) : bool :=
  match props with
  | [] => false
  | (propName, prop) :: props' =>
      let numQueryProps := (numQueryProps - 1)%nat in
      match MojHashMap.get MojDbQuery.key_eq map propName with
      | None => false
      | Some clause =>
          if (0 <? numQueryProps)%nat && negb (bool_decide (MojDbQuery.WhereClause.m_lowerOp clause = MojDbQuery.OpEq)) then false
          else if negb (bool_decide (MojDbQuery.WhereClause.m_collation clause = Extractor.collation prop)) then false
          else if Nat.eqb numQueryProps 0 then
            if negb (bool_decide (orderProp = [])) && negb (MojHashMap.contains MojDbQuery.key_eq map orderProp) then
              bool_decide (head (List.map fst props') = Some orderProp)
            else true
          else canAnswer_loop map orderProp props' numQueryProps
      end
  end.
End icu.
End IndexDef.

(** ** [MojDbIndex] *)
Module MojDbIndex.
Import IndexDef (IndexDef).

Definition WatchWarningThreshold : Z := 20.
Definition CountKey := _T "count".
Definition DelMissesKey := _T "delmisses".
Definition SizeKey := _T "size".
Definition WatchesKey := _T "watches".

Section index.
Context `{ICU} {I T : Type} `{!ExtIndex I T}.

(** A watcher and a transaction are known by their addresses, and so is the index
    itself. *)
Record MojDbIndex := {
  m_address : Z;
  m_def : IndexDef;
  m_sortKey : list mstring;
  m_id : MojObject;
  m_idSet : KeySet;
  m_idIndex : option nat;
  m_index : option I;
  m_ready : bool;
  m_delMisses : Z;
  m_watcherVec : list Z;
  m_watcherMap : list (mstring * Z);
  m_pendingKeys : list (Z * KeySet)
}.

Definition make (address : Z) : MojDbIndex :=
  {| m_address := address; m_def := IndexDef.init; m_sortKey := []; m_id := UndefinedImpl; m_idSet := [];
     m_idIndex := None; m_index := None; m_ready := false; m_delMisses := 0; m_watcherVec := [];
     m_watcherMap := []; m_pendingKeys := [] |}.

Definition with_def (x : MojDbIndex) d : MojDbIndex :=
  {| m_address := m_address x; m_def := d; m_sortKey := m_sortKey x; m_id := m_id x; m_idSet := m_idSet x;
     m_idIndex := m_idIndex x; m_index := m_index x; m_ready := m_ready x; m_delMisses := m_delMisses x;
     m_watcherVec := m_watcherVec x; m_watcherMap := m_watcherMap x; m_pendingKeys := m_pendingKeys x |}.
Definition with_index (x : MojDbIndex) index ready : MojDbIndex :=
  {| m_address := m_address x; m_def := m_def x; m_sortKey := m_sortKey x; m_id := m_id x; m_idSet := m_idSet x;
     m_idIndex := m_idIndex x; m_index := index; m_ready := ready; m_delMisses := m_delMisses x;
     m_watcherVec := m_watcherVec x; m_watcherMap := m_watcherMap x; m_pendingKeys := m_pendingKeys x |}.
Definition with_delMisses (x : MojDbIndex) misses : MojDbIndex :=
  {| m_address := m_address x; m_def := m_def x; m_sortKey := m_sortKey x; m_id := m_id x; m_idSet := m_idSet x;
     m_idIndex := m_idIndex x; m_index := m_index x; m_ready := m_ready x; m_delMisses := misses;
     m_watcherVec := m_watcherVec x; m_watcherMap := m_watcherMap x; m_pendingKeys := m_pendingKeys x |}.
Definition with_watchers (x : MojDbIndex) vec map : MojDbIndex :=
  {| m_address := m_address x; m_def := m_def x; m_sortKey := m_sortKey x; m_id := m_id x; m_idSet := m_idSet x;
     m_idIndex := m_idIndex x; m_index := m_index x; m_ready := m_ready x; m_delMisses := m_delMisses x;
     m_watcherVec := vec; m_watcherMap := map; m_pendingKeys := m_pendingKeys x |}.
Definition with_pending (x : MojDbIndex) pending : MojDbIndex :=
  {| m_address := m_address x; m_def := m_def x; m_sortKey := m_sortKey x; m_id := m_id x; m_idSet := m_idSet x;
     m_idIndex := m_idIndex x; m_index := m_index x; m_ready := m_ready x; m_delMisses := m_delMisses x;
     m_watcherVec := m_watcherVec x; m_watcherMap := m_watcherMap x; m_pendingKeys := pending |}.

Definition fromObject (x : MojDbIndex) (obj : MojObject) (locale : mstring) : res MojDbIndex :=
  let? d := IndexDef.fromObject (m_def x) obj locale in Ok (with_def x d).

(** What a query plan asks of an index. *)
Definition plan_index (x : MojDbIndex) : MojDbQueryPlan.Index :=
  {| MojDbQueryPlan.ix_id := m_id x; MojDbQueryPlan.ix_props := IndexDef.m_propNames (m_def x);
     MojDbQueryPlan.ix_locale := IndexDef.m_locale (m_def x);
     MojDbQueryPlan.ix_idIndex := match m_idIndex x with Some i => i | None => 0%nat end;
     MojDbQueryPlan.ix_includeDeleted := IndexDef.m_includeDeleted (m_def x) |}.

Definition getKeys (x : MojDbIndex) (obj : MojObject) : res KeySet := IndexDef.getKeys (m_def x) (m_idSet x) obj.

Definition canAnswer (x : MojDbIndex) (query : MojDbQuery.MojDbQuery) : bool :=
  let d := m_def x in
  let map := MojDbQuery.m_whereClauses query in
  let numQueryProps := length map in
  if negb (m_ready x) then false
  else if (length (IndexDef.m_propNames d) <? numQueryProps)%nat then false
  else
    let props := zip (IndexDef.m_propNames d) (IndexDef.m_props d) in
    let props := if IndexDef.m_includeDeleted d && negb (MojHashMap.contains MojDbQuery.key_eq map DelKey)
                 then tl props else props in
    let orderProp := MojDbQuery.m_orderProp query in
    if Nat.eqb numQueryProps 0 then
      if bool_decide (orderProp = []) then IndexDef.isIdIndex d
      else bool_decide (head (List.map fst props) = Some orderProp)
    else IndexDef.canAnswer_loop map orderProp props numQueryProps.

(** ** Updates

    The index and the transaction it works in. *)
Record State := { s_index : MojDbIndex; s_txn : T }.

Definition on_index (f : MojDbIndex -> MojDbIndex) : st State unit :=
  modify (fun s => {| s_index := f (s_index s); s_txn := s_txn s |}).
Definition on_base (f : MojDbStorageTxn.MojDbStorageTxn -> MojDbStorageTxn.MojDbStorageTxn) : st State unit :=
  modify (fun s => {| s_index := s_index s; s_txn := with_txn_base (s_txn s) (f (txn_base (s_txn s))) |}).

(** An operation of the engine's index; a closed index has none. *)
Definition storage {A} (f : I -> st T A) : st State A := fun s =>
  match m_index (s_index s) with
  | None => (s, Err AssertFailed)
  | Some i => let '(t, r) := f i (s_txn s) in ({| s_index := s_index s; s_txn := t |}, r)
  end.

(** A new index is built when the transaction that made it commits. *)
Definition open (index : I) (id : MojObject) (created : bool) : st State unit :=
  let! s := get in
  let x := s_index s in
  let! idKey := lift (MojDbKey.assign id None) in
  let! built := lift (IndexDef.addBuiltinProps (m_def x)) in
  let d := built.1 in
  let idIndex := built.2 in
  let ready := negb (created && negb (IndexDef.isIdIndex d)) in
  let! _ := on_index (fun x =>
    {| m_address := m_address x; m_def := d; m_sortKey := IndexDef.m_propNames (m_def x); m_id := id;
       m_idSet := MojSet.put lexcmp (m_idSet x) idKey; m_idIndex := Some idIndex; m_index := Some index;
       m_ready := ready || m_ready x; m_delMisses := m_delMisses x; m_watcherVec := m_watcherVec x;
       m_watcherMap := m_watcherMap x; m_pendingKeys := m_pendingKeys x |}) in
  if ready then ret tt
  else
    on_base (fun b => MojDbStorageTxn.notifyPostCommit (MojDbStorageTxn.notifyPreCommit b (m_address x)) (m_address x)).

(** Of the answer of the engine, only a missing key may be forgiven. *)
Fixpoint delKeys (shardId : Z) (keys : KeySet) (forcedel : bool) : st State unit :=
  match keys with
  | [] => ret tt
  | key :: keys' =>
      let! err := attempt (storage (fun i => index_del i shardId key)) in
      let! err :=
        match err with
        | Err MojErrInternalIndexOnDel =>
            let! _ := on_index (fun x => with_delMisses x (to_uint 32 (m_delMisses x + 1))) in
            ret (if forcedel then Ok tt else err)
        | _ => ret err
        end in
      let! _ := lift err in
      delKeys shardId keys' forcedel
  end.

Fixpoint insertKeys (shardId : Z) (keys : KeySet) : st State unit :=
  match keys with
  | [] => ret tt
  | key :: keys' => let! _ := storage (fun i => index_insert i shardId key) in insertKeys shardId keys'
  end.

Definition addPendingKeys (keys : KeySet) : st State unit :=
  let! s := get in
  let txn := txn_address (s_txn s) in
  let! _ := on_index (fun x =>
    match MojMap.get MojComp (m_pendingKeys x) txn with
    | None => with_pending x (MojMap.put MojComp (m_pendingKeys x) txn keys)
    | Some pending => with_pending x (MojMap.put MojComp (m_pendingKeys x) txn (MojSet.put_set lexcmp pending keys))
    end) in
  on_base (fun b => MojDbStorageTxn.subscribe b (m_address (s_index s))).

(** The shard an object belongs to. *)
Definition shard_of (obj : MojObject) : res Z :=
  let? objId := MojObject.getRequiredT (MojObject.get obj IdKey) in MojDbIdGenerator.extractShard objId.

Definition deref (obj : option MojObject) : st State MojObject :=
  match obj with Some obj => ret obj | None => throw AssertFailed end.

Definition update (newObj oldObj : option MojObject) (forcedel : bool) : st State unit :=
  let! s := get in
  let x := s_index s in
  let includeOld := IndexDef.includeObj (m_def x) oldObj in
  let includeNew := IndexDef.includeObj (m_def x) newObj in
  if includeNew && negb includeOld then
    let! newObj := deref newObj in
    let! newKeys := lift (getKeys x newObj) in
    let! shardId := lift (shard_of newObj) in
    let! _ := insertKeys shardId newKeys in
    addPendingKeys newKeys
  else if includeOld && negb includeNew then
    let! oldObj := deref oldObj in
    let! oldKeys := lift (getKeys x oldObj) in
    let! oldShardId := lift (shard_of oldObj) in
    let! _ := delKeys oldShardId oldKeys forcedel in
    addPendingKeys oldKeys
  else if includeNew && includeOld then
    let! newObj := deref newObj in
    let! oldObj := deref oldObj in
    let! newKeys := lift (getKeys x newObj) in
    let! oldShardId := lift (shard_of oldObj) in
    let! shardId := lift (shard_of newObj) in
    let! oldKeys := lift (getKeys x oldObj) in
    let keysToPut := MojSet.diff lexcmp newKeys oldKeys in
    let keysToDel := MojSet.diff lexcmp oldKeys newKeys in
    let! _ := delKeys oldShardId keysToDel forcedel in
    let! _ := insertKeys shardId keysToPut in
    addPendingKeys (MojSet.put_set lexcmp newKeys oldKeys)
  else ret tt.

(** ** Maintenance *)
Definition drop : st State unit := storage index_drop.

Definition set_key (o : MojObject) (key : mstring) (val : Z) : MojObject := MojObject.putInt o key (to_int 64 val).

Definition stats (objOut : MojObject) (usageOut : Z) : st State (MojObject * Z) :=
  let! r := storage index_stats in
  let count := r.1 in
  let size := r.2 in
  let! s := get in
  let x := s_index s in
  let objOut := set_key objOut SizeKey size in
  let objOut := set_key objOut CountKey count in
  let objOut := set_key objOut DelMissesKey (m_delMisses x) in
  let objOut :=
    match m_watcherMap x with
    | [] => objOut
    | map => MojObject.put objOut WatchesKey (fold_left (fun o e => set_key o e.1 e.2) map UndefinedImpl)
    end in
  ret (objOut, to_uint 64 (usageOut + size)).

(** Every object of the kind, from a cursor, whose [get] is [next]; [fuel] bounds
    the objects. *)
Fixpoint build_loop (fuel : nat) (next : st State (option MojObject)) : st State unit :=
  let! obj := next in
  match obj with
  | None => ret tt
  | Some obj =>
      match fuel with
      | O => throw AssertFailed
      | S fuel' =>
          let! _ := update (Some obj) None false in
          build_loop fuel' next
      end
  end.

(** The query of [build]; [find] opens a cursor on it. *)
Definition build_query (x : MojDbIndex) (kindId : mstring) : res MojDbQuery.MojDbQuery :=
  let q := MojDbQuery.from MojDbQuery.make kindId in
  if IndexDef.m_includeDeleted (m_def x) then MojDbQuery.includeDeleted q true else Ok q.

Definition build (fuel : nat) (kindId : mstring)
    (find : MojDbQuery.MojDbQuery -> st State (st State (option MojObject) * st State unit)) : st State unit :=
  let! s := get in
  let! query := lift (build_query (s_index s) kindId) in
  let! cursor := find query in
  let! _ := build_loop fuel cursor.1 in
  cursor.2.

(** The properties with a collation get new collators, one at a time. *)
Fixpoint updateProps (locale : mstring) (done todo : list Extractor) (haveCollate : bool) : st State bool :=
  match todo with
  | [] => ret haveCollate
  | i :: todo' =>
      if decide (Extractor.collation i <> MojDbCollationInvalid) then
        let! i := lift (Extractor.updateLocale i locale) in
        let! _ := on_index (fun x => with_def x
                    (IndexDef.with_props (m_def x) (IndexDef.m_propNames (m_def x)) (done ++ i :: todo'))) in
        updateProps locale (done ++ [i]) todo' true
      else updateProps locale (done ++ [i]) todo' haveCollate
  end.

Definition updateLocale (locale : mstring) (rebuild : st State unit) : st State unit :=
  let! s := get in
  let! haveCollate := updateProps locale [] (IndexDef.m_props (m_def (s_index s))) false in
  let! _ := if haveCollate : bool then let! _ := drop in rebuild else ret tt in
  on_index (fun x => with_def x (IndexDef.with_name (m_def x) (IndexDef.m_name (m_def x)) locale)).

(** [curKind] points the quota of the transaction at the kind of the index. *)
Definition handlePreCommit (curKind rebuild : st State unit) : st State unit :=
  let! _ := curKind in rebuild.

Definition handlePostCommit : st State unit := on_index (fun x => with_index x (m_index x) true).
End index.

(** ** Watches

    The index, the watchers by address, and the log of those whose handlers were
    told. *)
Section watches.
Context `{ICU} {I : Type}.

Record World := { w_index : @MojDbIndex _ I; w_watchers : list (Z * MojDbWatcher); w_fired : list Z }.

Definition set_w_index (w : World) x : World := {| w_index := x; w_watchers := w_watchers w; w_fired := w_fired w |}.

Definition watcher (a : Z) (w : World) : MojDbWatcher :=
  match List.find (fun e => e.1 =? a) (w_watchers w) with Some e => e.2 | None => MojDbWatcher.init_watcher end.
Definition set_watcher (a : Z) (w : World) (v : MojDbWatcher) : World :=
  {| w_index := w_index w; w_watchers := map (fun e => if e.1 =? a then (a, v) else e) (w_watchers w);
     w_fired := w_fired w |}.

Fixpoint erase_first (a : Z) (l : list Z) : option (list Z) :=
  match l with
  | [] => None
  | b :: l' => if b =? a then Some l' else option_map (cons b) (erase_first a l')
  end.

Definition cancelWatch (a : Z) : st World unit :=
  let! w := get in
  let x := w_index w in
  match erase_first a (m_watcherVec x) with
  | None => throw MojErrDbWatcherNotRegistered
  | Some vec =>
      let domain := MojDbWatcher.m_domain (watcher a w) in
      let map :=
        match MojMap.get MojStrCmp (m_watcherMap x) domain with
        | Some n =>
            let n := to_uint 64 (n - 1) in
            if n =? 0 then (MojMap.del MojStrCmp (m_watcherMap x) domain).1
            else MojMap.put MojStrCmp (m_watcherMap x) domain n
        | None => m_watcherMap x
        end in
      modify (fun w => set_w_index w (with_watchers (w_index w) vec map))
  end.

Definition addWatch (plan : MojDbQueryPlan.MojDbQueryPlan) (a : Z) (domain : mstring) : st World unit :=
  let! w := get in
  let x := w_index w in
  let! _ := modify (fun w => set_watcher a w (MojDbWatcher.domain (watcher a w) domain)) in
  let map :=
    match MojMap.get MojStrCmp (m_watcherMap x) domain with
    | None => MojMap.put MojStrCmp (m_watcherMap x) domain 1
    | Some n => MojMap.put MojStrCmp (m_watcherMap x) domain (to_uint 64 (n + 1))
    end in
  let! _ := modify (fun w => set_w_index w (with_watchers (w_index w) (m_watcherVec x ++ [a]) map)) in
  modify (fun w => set_watcher a w
    (MojDbWatcher.init (watcher a w) (m_address (w_index w)) (MojDbQueryPlan.m_ranges plan)
       (MojDbQuery.m_desc (MojDbQueryPlan.m_query plan)) false)).

(** The calls of one watcher: it is taken off this index, its handler is told. *)
Definition signal (a : Z) : st World unit :=
  modify (fun w => {| w_index := w_index w; w_watchers := w_watchers w; w_fired := w_fired w ++ [a] |}).
Definition fire (a : Z) (key : MojDbKey) : st World unit :=
  MojDbWatcher.fire (watcher a) (set_watcher a) (fun _ => cancelWatch a) (signal a) id key.
Definition activate (a : Z) (limitKey : MojDbKey) : st World unit :=
  MojDbWatcher.activate (watcher a) (set_watcher a) (fun _ => cancelWatch a) (signal a) id limitKey.
Definition abandon (a : Z) : st World unit :=
  MojDbWatcher.abandon (watcher a) (set_watcher a) (fun _ => cancelWatch a) (signal a) id.

(** The first range, in their order, that holds one of the pending keys, and the
    first such key; the pending keys are those of every transaction. *)
Definition first_match (ranges : list MojDbKeyRange.MojDbKeyRange) (pending : list (Z * KeySet)) : option MojDbKey :=
  head (flat_map (fun range =>
          flat_map (fun keySet => List.filter (MojDbKeyRange.contains range) keySet.2) pending) ranges).

Definition triggers (w : World) : list (Z * MojDbKey) :=
  omap (fun a => match first_match (MojDbWatcher.m_ranges (watcher a w)) (m_pendingKeys (w_index w)) with
                 | Some key => Some (a, key)
                 | None => None
                 end) (m_watcherVec (w_index w)).

Fixpoint fire_all (l : list (Z * MojDbKey)) : st World unit :=
  match l with
  | [] => ret tt
  | trigger :: l' => let! _ := fire trigger.1 trigger.2 in fire_all l'
  end.

Definition committed : st World unit := let! w := get in fire_all (triggers w).

Definition destroy (txn : Z) : st World unit :=
  modify (fun w => set_w_index w (with_pending (w_index w) (MojMap.del MojComp (m_pendingKeys (w_index w)) txn).1)).

(** Every watcher is abandoned; the last error is the result. *)
Fixpoint abandon_all (l : list Z) (accErr : res unit) : st World (res unit) :=
  match l with
  | [] => ret accErr
  | a :: l' => let! err := attempt (abandon a) in
               abandon_all l' (match err with Err e => Err e | Ok _ => accErr end)
  end.

Definition abandonWatchers : st World unit :=
  let! w := get in
  let! accErr := abandon_all (m_watcherVec (w_index w)) (Ok tt) in
  let! _ := modify (fun w => set_w_index w (with_watchers (w_index w) [] (m_watcherMap (w_index w)))) in
  lift accErr.

Definition close (index_close : I -> res unit) : st World unit :=
  let! w := get in
  match m_index (w_index w) with
  | None => ret tt
  | Some i =>
      let! _ := lift (index_close i) in
      let! _ := modify (fun w => set_w_index w (with_index (w_index w) None (m_ready (w_index w)))) in
      abandonWatchers
  end.
End watches.
End MojDbIndex.
