(* ===== verification/IndexSpec.v ===== *)
(** * What indexes promise

    The keys of an object are one for every choice of a value for each property
    ([getKeys_values]); an update of the index leaves in it the keys of the new
    version and not those of the old one ([update_exact]), so an index that holds
    the keys of the objects of a store does so after the store changes. *)

From S2P Require Import Prelude Containers CoreUtil Number Object ObjectBuilder DataSerialization TokenSet ObjectSerialization Text DbKey Json JsonRoundTrip DbQuery DbQueryRoundTrip QueryPlan QueryPlanSpec QueryPlanSelect ObjectItem Effects StorageTxn Watcher Extractor ExtractorSpec Index.

Import QueryPlanSpec (well, encs).
Import QueryPlanSelect (key_set, elem_of_key_set).
Import IndexDef (IndexDef, m_props, m_propNames, m_includeDeleted).

(** ** The keys of an object *)
Section keys.
Context `{ICU} `{!ICULaws}.

(** One value of each property. *)
Definition choices (d : IndexDef) (obj : MojObject) (ys : list MojObject) : Prop :=
  Forall2 (fun e y => takes e obj y) (m_props d) ys.

Record sound_def (d : IndexDef) : Prop := {
  sound_props : Forall sound (m_props d);
  sound_names : length (m_propNames d) = length (m_props d)
}.

Definition keyed_def (d : IndexDef) (obj : MojObject) : Prop := Forall (fun e => keyed e obj) (m_props d).

Lemma choices_well d obj ys : choices d obj ys -> Forall well ys.
Proof. induction 1 as [|e y es ys [W _] _ IH]; by constructor. Qed.

Lemma push_all obj : well obj -> forall es b alts, Forall sound es -> Forall (fun e => keyed e obj) es -> QueryPlanSelect.holds b alts ->
  exists b' more, res_fold (fun builder i => let? vals := Extractor.vals i obj [] in Ok (MojDbKeyBuilder.push builder vals)) b es = Ok b' /\
    QueryPlanSelect.holds b' (alts ++ more) /\ Forall2 (fun e L => forall y, y ∈ L <-> takes e obj y) es more.
Proof.
  intros W es. induction es as [|e es IH]; intros b alts S K Hb; cbn [res_fold].
  - exists b, []. rewrite app_nil_r. by repeat split.
  - apply Forall_cons in S as [Se S]. apply Forall_cons in K as [Ke K].
    destruct (vals_takes e obj Se W Ke) as (L & E & _ & M). rewrite E. cbn [res_bind].
    destruct (IH (MojDbKeyBuilder.push b (key_set L)) (alts ++ [L]) S K) as (b' & more & E' & Hb' & F).
    { by apply QueryPlanSelect.holds_push. }
    exists b', (L :: more). split; [exact E'|]. split; [by rewrite <- app_assoc in Hb'|]. by constructor.
Qed.

Lemma getKeys_values d id obj : sound_def d -> well obj -> keyed_def d obj ->
  exists out, IndexDef.getKeys d (key_set [id]) obj = Ok out /\ sorted_keys out /\
    forall k, k ∈ out <-> exists ys, choices d obj ys /\ k = encs (id :: ys).
Proof.
  intros [S _] W K. unfold IndexDef.getKeys.
  destruct (push_all obj W (m_props d) (MojDbKeyBuilder.push [] (key_set [id])) [[id]] S K) as (b' & more & E & Hb & F).
  { apply (QueryPlanSelect.holds_push [] []). constructor. }
  rewrite E. cbn [res_bind]. destruct (QueryPlanSelect.keys_elem b' _ Hb) as (out & Eo & So & M).
  { destruct b'; [|done]. inversion Hb. }
  exists out. split; [done|]. split; [done|]. intros k. rewrite M. split.
  - intros (us & C & ->). inversion C as [|u ? us' ? Hu C']; subst. apply list_elem_of_singleton in Hu as ->.
    exists us'. split; [|done]. unfold choices. clear -F C'. revert us' C'.
    induction F as [|e L es more M F IH]; intros us' C'; inversion C'; subst; constructor; [by apply M|by apply IH].
  - intros (ys & C & ->). exists (id :: ys). split; [|done]. constructor; [by apply list_elem_of_singleton|].
    unfold choices in C. clear -F C. revert ys C.
    induction F as [|e L es more M F IH]; intros ys C; inversion C; subst; constructor; [by apply M|by apply IH].
Qed.

Lemma getKeys_ran d idSet obj ks : sound_def d -> IndexDef.getKeys d idSet obj = Ok ks -> keyed_def d obj.
Proof.
  intros [S _] E. unfold keyed_def. rewrite Forall_forall in *. intros e He. apply res_bind_ok in E as (b & E & _).
  destruct (res_fold_ran _ _ _ _ _ E He) as (s1 & s2 & F). apply res_bind_ok in F as (vs & F & _).
  eapply vals_keyed; [by apply S|exact F].
Qed.
End keys.

(** ** The engine's promise

    What is in the index database, and which errors the engine may answer with. *)
Class ExtIndexLaws (I T : Type) `{ExtIndex I T} := {
  txn_ok : T -> Prop;
  in_index : T -> MojDbKey -> Prop;
  refused : MojErr -> Prop;
  insert_law : forall i sh k t, txn_ok t -> exists t' r, index_insert i sh k t = (t', r) /\ txn_ok t' /\
    txn_address t' = txn_address t /\
    match r with
    | Ok _ => forall j, in_index t' j <-> j = k \/ in_index t j
    | Err e => refused e
    end;
  del_law : forall i sh k t, txn_ok t -> exists t' r, index_del i sh k t = (t', r) /\ txn_ok t' /\
    txn_address t' = txn_address t /\
    match r with
    | Ok _ => forall j, in_index t' j <-> in_index t j /\ j <> k
    | Err MojErrInternalIndexOnDel => ~ in_index t k /\ forall j, in_index t' j <-> in_index t j
    | Err e => refused e
    end;
  subscribe_law : forall t a, txn_ok t ->
    let t' := with_txn_base t (MojDbStorageTxn.subscribe (txn_base t) a) in
    txn_ok t' /\ txn_address t' = txn_address t /\ forall j, in_index t' j <-> in_index t j
}.

(** ** Updates *)
Section update.
Context `{ICU} {I T : Type} `{ExtIndexLaws I T}.
Import MojDbIndex.

Abbreviation State := (@State _ I T).

(** The index after a call, when only the count of missing keys has changed. *)
Definition recounted (x x' : @MojDbIndex _ I) : Prop := x' = with_delMisses x (m_delMisses x').

Lemma recounted_refl x : recounted x x.
Proof. by destruct x. Qed.

Lemma recounted_trans x y z : recounted x y -> recounted y z -> recounted x z.
Proof. unfold recounted. intros E1 E2. rewrite E2, E1. done. Qed.

(** The index after an update: a count and the pending keys have changed. *)
Definition changed (x x' : @MojDbIndex _ I) : Prop := x' = with_pending (with_delMisses x (m_delMisses x')) (m_pendingKeys x').

(** What a step of an update leaves alone. *)
Definition kept (s s' : State) : Prop :=
  txn_ok (s_txn s') /\ txn_address (s_txn s') = txn_address (s_txn s) /\ recounted (s_index s) (s_index s').

Lemma kept_trans s1 s2 s3 : kept s1 s2 -> kept s2 s3 -> kept s1 s3.
Proof.
  intros (O1 & A1 & R1) (O2 & A2 & R2). split; [done|]. split; [congruence|]. by eapply recounted_trans.
Qed.

Lemma kept_open s s' i : kept s s' -> m_index (s_index s) = Some i -> m_index (s_index s') = Some i.
Proof. intros (_ & _ & R) E. by rewrite R. Qed.

Lemma insertKeys_exact i sh keys : forall s, txn_ok (s_txn s) -> m_index (s_index s) = Some i ->
  exists s' r, insertKeys sh keys s = (s', r) /\ kept s s' /\
    match r with
    | Ok _ => forall j, in_index (s_txn s') j <-> j ∈ keys \/ in_index (s_txn s) j
    | Err e => refused e
    end.
Proof.
  induction keys as [|k keys IH]; intros s O E.
  - exists s, (Ok tt). split; [done|]. split; [split; [done|]; split; [done|apply recounted_refl]|]. set_solver.
  - destruct (insert_law i sh k (s_txn s) O) as (t' & r & Ei & O' & A & L).
    set (s1 := {| s_index := s_index s; s_txn := t' |} : State).
    assert (storage (fun i => index_insert i sh k) s = (s1, r)) as S1 by (unfold storage; by rewrite E, Ei).
    assert (kept s s1) as K1 by (split; [done|]; split; [done|apply recounted_refl]).
    cbn [insertKeys]. unfold bind. rewrite S1. destruct r as [[]|e].
    + destruct (IH s1 O' E) as (s' & r & E' & K & M). exists s', r. split; [done|]. split; [by eapply kept_trans|].
      destruct r; [|done]. intros j. rewrite M. simpl. rewrite L. set_solver.
    + by exists s1, (Err e).
Qed.

(** A key that is not there is an error of the engine's own: it is counted, and
    passed over when the deletion is forced. *)
Lemma delKeys_exact i sh force keys : NoDup keys -> forall s, txn_ok (s_txn s) -> m_index (s_index s) = Some i ->
  exists s' r, delKeys sh keys force s = (s', r) /\ kept s s' /\
    match r with
    | Ok _ => forall j, in_index (s_txn s') j <-> in_index (s_txn s) j /\ j ∉ keys
    | Err MojErrInternalIndexOnDel => force = false /\ exists k, k ∈ keys /\ ~ in_index (s_txn s) k
    | Err e => refused e
    end.
Proof.
  induction keys as [|k keys IH]; intros D s O E.
  - exists s, (Ok tt). split; [done|]. split; [split; [done|]; split; [done|apply recounted_refl]|]. set_solver.
  - apply NoDup_cons in D as [Dk D]. destruct (del_law i sh k (s_txn s) O) as (t' & r & Ei & O' & A & L).
    set (s1 := {| s_index := s_index s; s_txn := t' |} : State).
    assert (storage (fun i => index_del i sh k) s = (s1, r)) as S1 by (unfold storage; by rewrite E, Ei).
    assert (kept s s1) as K1 by (split; [done|]; split; [done|apply recounted_refl]).
    assert (forall s2, kept s s2 -> (forall j, in_index (s_txn s2) j <-> in_index (s_txn s) j /\ j <> k) ->
      exists s' r, delKeys sh keys force s2 = (s', r) /\ kept s s' /\
      match r with
      | Ok _ => forall j, in_index (s_txn s') j <-> in_index (s_txn s) j /\ j ∉ k :: keys
      | Err MojErrInternalIndexOnDel => force = false /\ exists k', k' ∈ k :: keys /\ ~ in_index (s_txn s) k'
      | Err e => refused e
      end) as Go.
    { intros s2 K2 M2. destruct (IH D s2 (proj1 K2) (kept_open _ _ _ K2 E)) as (s' & r' & E' & K & M). exists s', r'.
      split; [done|]. split; [by eapply kept_trans|]. destruct r' as [|e]; [intros j; rewrite M, M2; set_solver|].
      destruct e; try done. destruct M as (F & k' & Hk & N). split; [done|]. exists k'. split; [set_solver|].
      rewrite M2 in N. intros Hi. apply N. split; [done|]. by intros ->. }
    cbn [delKeys]. unfold bind, attempt. rewrite S1. cbn [fst snd]. destruct r as [[]|e]; [by apply Go|].
    assert (e = MojErrInternalIndexOnDel \/ e <> MojErrInternalIndexOnDel) as [->|Ne] by (destruct (decide (e = MojErrInternalIndexOnDel)); auto).
    + destruct L as [N L]. set (s2 := {| s_index := with_delMisses (s_index s) (to_uint 32 (m_delMisses (s_index s) + 1)); s_txn := t' |} : State).
      assert (kept s s2) as K2 by (split; [done|]; split; [done|reflexivity]).
      destruct force.
      * apply (Go s2 K2). intros j. simpl. rewrite L. split; [|tauto]. intros Hj. split; [done|]. by intros ->.
      * exists s2, (Err MojErrInternalIndexOnDel). split; [done|]. split; [done|]. split; [done|]. exists k. split; [set_solver|done].
    + exists s1, (Err e). split; [by destruct e|]. split; [done|]. by destruct e.
Qed.

Lemma addPendingKeys_exact keys (s : State) : txn_ok (s_txn s) ->
  exists s', addPendingKeys keys s = (s', Ok tt) /\ txn_ok (s_txn s') /\
    (forall j, in_index (s_txn s') j <-> in_index (s_txn s) j) /\
    m_pendingKeys (s_index s') = MojMap.put MojComp (m_pendingKeys (s_index s)) (txn_address (s_txn s))
      (match MojMap.get MojComp (m_pendingKeys (s_index s)) (txn_address (s_txn s)) with
       | None => keys
       | Some pending => MojSet.put_set lexcmp pending keys
       end) /\
    s_index s' = with_pending (s_index s) (m_pendingKeys (s_index s')) /\ txn_address (s_txn s') = txn_address (s_txn s).
Proof.
  intros O. destruct (subscribe_law (s_txn s) (m_address (s_index s)) O) as (O' & A & M).
  unfold addPendingKeys, bind, get, on_index, on_base, modify. cbn [fst snd]. eexists. split; [reflexivity|].
  cbn [s_index s_txn]. destruct (MojMap.get MojComp _ _); cbn [s_index s_txn]; repeat (split; [done|]); done.
Qed.

(** The keys a version of an object has in the index: none when it is left out. *)
Definition version (x : @MojDbIndex _ I) (obj : option MojObject) (ks : KeySet) : Prop :=
  match obj with
  | Some o => if IndexDef.includeObj (m_def x) obj
              then getKeys x o = Ok ks /\ sorted_keys ks /\ exists sh, shard_of o = Ok sh else ks = []
  | None => ks = []
  end.

(** The keys to tell the watchers of when the transaction commits. *)
Definition touched (s : State) (k : MojDbKey) : Prop :=
  exists ks, MojMap.get MojComp (m_pendingKeys (s_index s)) (txn_address (s_txn s)) = Some ks /\ k ∈ ks.

(** A set of pending keys for each transaction. *)
Definition pending_sets (x : @MojDbIndex _ I) : Prop :=
  MojRbTreeBase.sorted fst MojComp (m_pendingKeys x) /\ Forall (fun e => sorted_keys e.2) (m_pendingKeys x).

Lemma pending_get x a ks : pending_sets x -> MojMap.get MojComp (m_pendingKeys x) a = Some ks -> sorted_keys ks.
Proof.
  intros [_ F] E. unfold MojMap.get in E. destruct (MojRbTreeBase.find _ _ a _) as [[b v]|] eqn:G; [|done]. injection E as ->.
  apply MojRbTreeBase.find_Some in G as [G _]. rewrite Forall_forall in F. by apply (F (b, ks)).
Qed.

Lemma added_in s ks k : sorted_keys s -> k ∈ MojSet.put_set lexcmp s ks <-> k ∈ s \/ k ∈ ks.
Proof. intros S. by destruct (added_put_set s ks S) as [_ ->]. Qed.

Lemma diff_in s t k : sorted_keys s -> sorted_keys t -> k ∈ MojSet.diff lexcmp s t <-> k ∈ s /\ k ∉ t.
Proof.
  intros S S'. pose proof (MojSet.contains_diff lexcmp s t k S S') as E.
  assert (forall l, MojSet.contains lexcmp l k = true <-> k ∈ l) as C.
  { intros l. rewrite MojSet.contains_spec. setoid_rewrite lexcmp_eq. set_solver. }
  rewrite <- (C (MojSet.diff _ _ _)), E, andb_true_iff, negb_true_iff, <- not_true_iff_false, !C. done.
Qed.

Lemma diff_nodup s t : sorted_keys s -> sorted_keys t -> NoDup (MojSet.diff lexcmp s t).
Proof.
  intros S S'. unfold MojSet.diff. rewrite (MojRbTreeBase.diff_spec id lexcmp lexcmp) by done.
  apply NoDup_ListNoDup, List.NoDup_filter, NoDup_ListNoDup. by apply MojDbKeyBuilder.sorted_NoDup.
Qed.

(** The end of an update: what was done to the index, then the pending keys. *)
Lemma finish_update s s1 ks (P : MojDbKey -> Prop) : kept s s1 -> pending_sets (s_index s) -> sorted_keys ks ->
  (forall j, in_index (s_txn s1) j <-> P j) ->
  exists s', addPendingKeys ks s1 = (s', Ok tt) /\ txn_ok (s_txn s') /\ (forall j, in_index (s_txn s') j <-> P j) /\
    (pending_sets (s_index s') /\ changed (s_index s) (s_index s') /\ txn_address (s_txn s') = txn_address (s_txn s)) /\
    forall j, touched s' j <-> touched s j \/ j ∈ ks.
Proof.
  intros (O & A & R) Ps S M. destruct (addPendingKeys_exact ks s1 O) as (s' & E & O' & M' & Pk & Ex & A').
  exists s'. split; [done|]. split; [done|]. split; [intros j; by rewrite M', M|].
  assert (changed (s_index s) (s_index s')) as Ch by (unfold changed; rewrite Ex, R; done).
  assert (m_pendingKeys (s_index s1) = m_pendingKeys (s_index s)) as P1 by (by rewrite R). rewrite P1 in Pk.
  set (new := match MojMap.get MojComp (m_pendingKeys (s_index s)) (txn_address (s_txn s1)) with
              | Some pending => MojSet.put_set lexcmp pending ks | None => ks end) in *.
  assert (sorted_keys new) as Sn.
  { unfold new. destruct (MojMap.get MojComp _ _) as [pk|] eqn:G; [|done]. apply added_put_set. by eapply pending_get. }
  split; [split; [|split; [done|congruence]]|].
  - destruct Ps as [Sp Fp]. split; [rewrite Pk; apply (MojMap.map_put_sorted MojComp); done|]. rewrite Pk. apply Forall_forall. intros e He.
    unfold MojMap.put in He. apply (MojRbTreeBase.elem_of_put_inv fst MojComp) in He as [->|He]; [done|]. rewrite Forall_forall in Fp. by apply Fp.
  - intros j. unfold touched. rewrite A', Pk, A. unfold new. rewrite A.
    rewrite (MojMap.map_get_put MojComp) by apply Ps. rewrite (comp_refl MojComp). cbn [Z.eqb].
    destruct (MojMap.get MojComp (m_pendingKeys (s_index s)) (txn_address (s_txn s))) as [pk|] eqn:G.
    + pose proof (added_in pk ks j (pending_get _ _ _ Ps G)). naive_solver.
    + naive_solver.
Qed.

Lemma version_sorted x o ks : version x o ks -> sorted_keys ks.
Proof.
  unfold version. destruct o as [o|]; [|intros ->; constructor].
  destruct (IndexDef.includeObj _ _); [by intros (_ & S & _)|intros ->; constructor].
Qed.

(** What an update leaves in the index, of the keys of the two versions. *)
Definition updated (s s' : State) (new old : KeySet) : Prop :=
  txn_ok (s_txn s') /\
  (pending_sets (s_index s') /\ changed (s_index s) (s_index s') /\ txn_address (s_txn s') = txn_address (s_txn s)) /\
  (forall k, in_index (s_txn s') k <-> k ∈ new \/ (in_index (s_txn s) k /\ k ∉ old)) /\
  (forall k, touched s' k <-> touched s k \/ k ∈ new \/ k ∈ old).

Lemma update_holds i s newObj oldObj force new old :
  txn_ok (s_txn s) -> m_index (s_index s) = Some i -> pending_sets (s_index s) ->
  version (s_index s) newObj new -> version (s_index s) oldObj old ->
  (forall k, k ∈ old -> in_index (s_txn s) k) ->
  exists s' r, update newObj oldObj force s = (s', r) /\
    match r with Ok _ => updated s s' new old | Err e => refused e end.
Proof.
  intros O E Ps Vn Vo Hold. pose proof (version_sorted _ _ _ Vn) as Sn. pose proof (version_sorted _ _ _ Vo) as So.
  assert (forall sh keys s1, NoDup keys -> kept s s1 -> (forall k, k ∈ keys -> in_index (s_txn s1) k) ->
    exists s' r, delKeys sh keys force s1 = (s', r) /\ kept s s' /\
      match r with Ok _ => forall j, in_index (s_txn s') j <-> in_index (s_txn s1) j /\ j ∉ keys | Err e => refused e end) as Del.
  { intros sh keys s1 D K Hk. destruct (delKeys_exact i sh force keys D s1 (proj1 K) (kept_open _ _ _ K E)) as (s' & r & E' & K' & M).
    exists s', r. split; [done|]. split; [by eapply kept_trans|]. destruct r as [|e]; [done|]. destruct e; try done.
    destruct M as (_ & k & Hkk & N). by destruct (N (Hk k Hkk)). }
  assert (kept s s) as K0 by (split; [done|]; split; [done|apply recounted_refl]).
  unfold update, bind at 1, get. cbn [fst snd].
  destruct (IndexDef.includeObj (m_def (s_index s)) newObj) eqn:In, (IndexDef.includeObj (m_def (s_index s)) oldObj) eqn:Io; cbn [andb negb].
  - (* both *)
    destruct newObj as [n|]; [|done]. destruct oldObj as [o|]; [|done]. unfold version in Vn, Vo. rewrite In in Vn. rewrite Io in Vo.
    destruct Vn as (En & _ & shn & Shn), Vo as (Eo & _ & sho & Sho).
    unfold deref, ret, bind. rewrite En, Eo, Shn, Sho. cbn [lift fst snd].
    destruct (Del sho (MojSet.diff lexcmp old new) s) as (s1 & r1 & E1 & K1 & M1); [by apply diff_nodup|done| |].
    { intros k Hk. apply Hold. by apply (diff_in old new k So Sn) in Hk as []. }
    rewrite E1. destruct r1 as [[]|e]; [|by exists s1, (Err e)].
    destruct (insertKeys_exact i shn (MojSet.diff lexcmp new old) s1 (proj1 K1) (kept_open _ _ _ K1 E)) as (s2 & r2 & E2 & K2 & M2).
    rewrite E2. destruct r2 as [[]|e]; [|by exists s2, (Err e)].
    destruct (finish_update s s2 (MojSet.put_set lexcmp new old) (fun k => k ∈ new \/ (in_index (s_txn s) k /\ k ∉ old)))
      as (s' & E3 & O3 & M3 & P3 & T3); [by eapply kept_trans|done|by apply added_put_set| |].
    { intros j. rewrite M2, M1, !diff_in by done. specialize (Hold j).
      destruct (decide (j ∈ new)), (decide (j ∈ old)); tauto. }
    exists s', (Ok tt). split; [exact E3|]. split; [done|]. split; [done|]. split; [done|].
    intros k. rewrite T3, added_in by done. tauto.
  - (* only the new version *)
    destruct newObj as [n|]; [|done]. unfold version in Vn. rewrite In in Vn. destruct Vn as (En & _ & shn & Shn).
    assert (old = []) as -> by (unfold version in Vo; destruct oldObj; [by rewrite Io in Vo|done]).
    unfold deref, ret, bind. rewrite En, Shn. cbn [lift fst snd].
    destruct (insertKeys_exact i shn new s O E) as (s1 & r1 & E1 & K1 & M1). rewrite E1. destruct r1 as [[]|e]; [|by exists s1, (Err e)].
    destruct (finish_update s s1 new (fun k => k ∈ new \/ (in_index (s_txn s) k /\ k ∉ []))) as (s' & E3 & O3 & M3 & P3 & T3); [done..| |].
    { intros j. rewrite M1. set_solver. }
    exists s', (Ok tt). split; [exact E3|]. split; [done|]. split; [done|]. split; [done|]. intros k. rewrite T3. set_solver.
  - (* only the old version *)
    destruct oldObj as [o|]; [|done]. unfold version in Vo. rewrite Io in Vo. destruct Vo as (Eo & _ & sho & Sho).
    assert (new = []) as -> by (unfold version in Vn; destruct newObj; [by rewrite In in Vn|done]).
    unfold deref, ret, bind. rewrite Eo, Sho. cbn [lift fst snd].
    destruct (Del sho old s) as (s1 & r1 & E1 & K1 & M1); [by apply MojDbKeyBuilder.sorted_NoDup|done..|].
    rewrite E1. destruct r1 as [[]|e]; [|by exists s1, (Err e)].
    destruct (finish_update s s1 old (fun k => k ∈ [] \/ (in_index (s_txn s) k /\ k ∉ old))) as (s' & E3 & O3 & M3 & P3 & T3); [done..| |].
    { intros j. rewrite M1. set_solver. }
    exists s', (Ok tt). split; [exact E3|]. split; [done|]. split; [done|]. split; [done|]. intros k. rewrite T3. set_solver.
  - (* neither *)
    assert (new = []) as -> by (unfold version in Vn; destruct newObj; [by rewrite In in Vn|done]).
    assert (old = []) as -> by (unfold version in Vo; destruct oldObj; [by rewrite Io in Vo|done]).
    exists s, (Ok tt). split; [done|]. split; [done|]. split; [split; [done|]; split; [by destruct s as [[]]|done]|]. split; set_solver.
Qed.

(** The new version of an update that is done had its keys. *)
Lemma update_ran s s' newObj oldObj force o : update newObj oldObj force s = (s', Ok tt) -> newObj = Some o ->
  IndexDef.includeObj (m_def (s_index s)) (Some o) = true ->
  exists ks sh, getKeys (s_index s) o = Ok ks /\ shard_of o = Ok sh.
Proof.
  intros E -> In. unfold update, bind at 1, get in E. cbn [fst snd] in E. rewrite In in E. cbn [andb negb] in E.
  assert (forall A (r : res A) (f : A -> st State unit) s, (let! a := lift r in f a) s = (s', Ok tt) -> exists a, r = Ok a /\ f a s = (s', Ok tt)) as Lift.
  { intros A r f s1 El. destruct r as [a|]; [by exists a|done]. }
  destruct (IndexDef.includeObj _ oldObj); cbn [andb negb] in E; unfold deref, ret, bind at 1 in E; cbn [fst snd] in E.
  - destruct oldObj as [p|]; [|done]. unfold bind at 1 in E. cbn [fst snd] in E.
    apply Lift in E as (ks & Ek & E). apply Lift in E as (sho & _ & E). apply Lift in E as (sh & Es & _). by exists ks, sh.
  - apply Lift in E as (ks & Ek & E). apply Lift in E as (sh & Es & _). by exists ks, sh.
Qed.
End update.

(** ** An index and the objects of its kind *)
Section store.
Context `{ICU} `{!ICULaws} {I T : Type} `{ExtIndexLaws I T}.
Import MojDbIndex.
Abbreviation State := (@State _ I T).

(** The property every index has: the object's own id. *)
Definition plain_id (e : Extractor.Extractor) : Prop :=
  match e with
  | Extractor.PropExtractor e =>
      MojDbPropExtractor.m_prop e = [IdKey] /\ MojDbPropExtractor.m_tokenizer e = None /\ MojDbPropExtractor.m_collator e = None
  | Extractor.MultiExtractor _ => False
  end.

Record sound_index (x : @MojDbIndex _ I) : Prop := {
  index_def : sound_def (m_def x);
  index_id : well (m_id x);
  index_idSet : m_idSet x = key_set [m_id x];
  index_has_id : exists e, e ∈ m_props (m_def x) /\ plain_id e
}.

Definition included (x : @MojDbIndex _ I) (o : MojObject) : Prop := IndexDef.includeObj (m_def x) (Some o) = true.

(** An object an index can take in. *)
Record indexable (x : @MojDbIndex _ I) (o : MojObject) : Prop := {
  obj_well : well o;
  obj_keyed : included x o -> keyed_def (m_def x) o;
  obj_id : exists id, MojObject.get o IdKey = Some id /\ MojObject.type id <> MojObject.TypeArray;
  obj_shard : included x o -> exists sh, shard_of o = Ok sh
}.

(** The keys an object should have. *)
Definition key_for (x : @MojDbIndex _ I) (o : MojObject) (k : MojDbKey) : Prop :=
  included x o /\ exists ys, choices (m_def x) o ys /\ k = encs (m_id x :: ys).

Lemma version_keys x o : sound_index x -> indexable x o ->
  exists ks, version x (Some o) ks /\ forall k, k ∈ ks <-> key_for x o k.
Proof.
  intros S V. unfold version, key_for, included. destruct (IndexDef.includeObj (m_def x) (Some o)) eqn:In.
  - destruct (getKeys_values (m_def x) (m_id x) o) as (out & E & So & M); [apply S|apply V|by apply V|].
    exists out. unfold MojDbIndex.getKeys. rewrite (index_idSet x S). split; [split; [done|]; split; [done|by apply V]|].
    intros k. rewrite M. naive_solver.
  - exists []. split; [done|]. set_solver.
Qed.

Lemma plain_id_takes e o y : plain_id e -> takes e o y ->
  (exists id, MojObject.get o IdKey = Some id /\ MojObject.type id <> MojObject.TypeArray) -> MojObject.get o IdKey = Some y.
Proof.
  destruct e as [e|e]; [|done]. intros (P & _ & C) (_ & p & Hp & x & R & V) (id & G & N).
  simpl in Hp. apply list_elem_of_singleton in Hp as ->. rewrite P in R. rewrite C in V.
  assert (IdKey <> MojDbPropExtractor.WildcardKey) as W by done.
  inversion R as [|? ? ? _ G'|? ? ? v ? Ch R']; subst; [congruence|].
  apply (child_get IdKey o id v W G) in Ch. inversion R'; subst. simpl in V. injection V as <-.
  destruct id; try (by subst); done.
Qed.

(** Keys tell objects apart. *)
Lemma keys_disjoint x o o' k : sound_index x -> indexable x o -> indexable x o' -> key_for x o k -> key_for x o' k ->
  MojObject.get o IdKey = MojObject.get o' IdKey.
Proof.
  intros S V V' (_ & ys & C & ->) (_ & ys' & C' & E). pose proof (index_id x S) as Wi.
  assert (m_id x :: ys = m_id x :: ys') as Eq.
  { apply QueryPlanSelect.encs_inj; [..|done].
    - constructor; [done|]. by eapply choices_well.
    - constructor; [done|]. by eapply choices_well.
    - simpl. f_equal. rewrite <- (Forall2_length _ _ _ C). by eapply Forall2_length. }
  injection Eq as <-. destruct (index_has_id x S) as (e & He & P). apply list_elem_of_lookup in He as [n He].
  destruct (Forall2_lookup_l _ _ _ _ _ C He) as (y & Hy & Ty). destruct (Forall2_lookup_l _ _ _ _ _ C' He) as (y' & Hy' & Ty').
  rewrite (plain_id_takes e o y P Ty (obj_id x o V)), (plain_id_takes e o' y' P Ty' (obj_id x o' V')). congruence.
Qed.

(** The index holds the keys of the objects and, under its id, no others. *)
Definition indexed (x : @MojDbIndex _ I) (t : T) (objs : MojObject -> Prop) : Prop :=
  forall k, Encoding.enc (m_id x) `prefix_of` k -> in_index t k <-> exists o, objs o /\ key_for x o k.

(** Every object has its own id. *)
Definition keyed_store (x : @MojDbIndex _ I) (objs : MojObject -> Prop) : Prop :=
  (forall o, objs o -> indexable x o) /\
  forall o o', objs o -> objs o' -> MojObject.get o IdKey = MojObject.get o' IdKey -> o = o'.

(** The store with one version of an object in the place of another. *)
Definition replaced (objs : MojObject -> Prop) (newObj oldObj : option MojObject) (o : MojObject) : Prop :=
  newObj = Some o \/ (objs o /\ oldObj <> Some o).

Lemma key_for_prefix x o k : key_for x o k -> Encoding.enc (m_id x) `prefix_of` k.
Proof. intros (_ & ys & _ & ->). by exists (encs ys). Qed.

Lemma version_opt x o : sound_index x -> (forall o', o = Some o' -> indexable x o') ->
  exists ks, version x o ks /\ forall k, k ∈ ks <-> exists o', o = Some o' /\ key_for x o' k.
Proof.
  intros S V. destruct o as [o|].
  - destruct (version_keys x o S (V o eq_refl)) as (ks & Vk & M). exists ks. split; [done|]. intros k. rewrite M. naive_solver.
  - exists []. split; [done|]. set_solver.
Qed.

(** What an update leaves of the index and the transaction. *)
Record keeps (s s' : State) (newObj oldObj : option MojObject) (objs : MojObject -> Prop) : Prop := {
  keeps_txn : txn_ok (s_txn s');
  keeps_pending : pending_sets (s_index s');
  keeps_changed : changed (s_index s) (s_index s');
  keeps_address : txn_address (s_txn s') = txn_address (s_txn s);
  keeps_indexed : indexed (s_index s) (s_txn s') (replaced objs newObj oldObj);
  keeps_others : forall k, ~ Encoding.enc (m_id (s_index s)) `prefix_of` k -> in_index (s_txn s') k <-> in_index (s_txn s) k;
  keeps_touched : forall k, touched s' k <-> touched s k \/
    (exists o, newObj = Some o /\ key_for (s_index s) o k) \/ (exists o, oldObj = Some o /\ key_for (s_index s) o k)
}.

Lemma maintained i s newObj oldObj force objs :
  txn_ok (s_txn s) -> m_index (s_index s) = Some i -> pending_sets (s_index s) -> sound_index (s_index s) ->
  keyed_store (s_index s) objs -> keyed_store (s_index s) (replaced objs newObj oldObj) ->
  (forall o, oldObj = Some o -> objs o) ->
  indexed (s_index s) (s_txn s) objs ->
  exists s' r, update newObj oldObj force s = (s', r) /\
    match r with Ok _ => keeps s s' newObj oldObj objs | Err e => refused e end.
Proof.
  intros O E Ps S [Vs U] [Vs' U'] Hold X.
  destruct (version_opt (s_index s) newObj S) as (new & Vn & Mn).
  { intros o ->. apply Vs'. by left. }
  destruct (version_opt (s_index s) oldObj S) as (old & Vo & Mo); [by intros o ->; auto|].
  destruct (update_holds i s newObj oldObj force new old O E Ps Vn Vo) as (s' & r & E' & R).
  { intros k Hk. apply Mo in Hk as (o & -> & K). apply X; [by eapply key_for_prefix|]. exists o. auto. }
  exists s', r. split; [done|]. destruct r as [|e]; [|done]. destruct R as (O' & (Ps' & Ch & A) & M & Tc).
  split; [done..| | |].
  - intros k Hk. rewrite M, Mn, Mo, (X k Hk). unfold replaced. split.
    + intros [(o & -> & K)|[(o & Ho & K) N]]; [exists o; auto|]. exists o. split; [|done]. right. split; [done|].
      intros ->. apply N. by exists o.
    + intros (o & [->|[Ho N]] & K); [left; by exists o|].
      right. split; [by exists o|]. intros (o' & -> & K'). apply N. f_equal.
      apply U; [by apply Hold|done|]. eapply keys_disjoint; [done|..|exact K'|exact K]; auto.
  - intros k Hk. rewrite M, Mn, Mo. split.
    + intros [(o & _ & K%key_for_prefix)|[Hi _]]; [by destruct Hk|done].
    + intros Hi. right. split; [done|]. intros (o & _ & K%key_for_prefix). by destruct Hk.
  - intros k. by rewrite Tc, Mn, Mo.
Qed.

(** An update that is done took in a version the index can take in. *)
Lemma update_indexable s s' newObj oldObj force o : sound_index (s_index s) -> update newObj oldObj force s = (s', Ok tt) ->
  newObj = Some o -> well o -> (exists id, MojObject.get o IdKey = Some id /\ MojObject.type id <> MojObject.TypeArray) ->
  indexable (s_index s) o.
Proof.
  intros S E N W Hid. split; [done| |done|]; intros In; destruct (update_ran s s' newObj oldObj force o E N In) as (ks & sh & Ek & Es).
  - eapply getKeys_ran; [apply S|exact Ek].
  - by exists sh.
Qed.
End store.
