(* ===== verification/IndexFind.v ===== *)
(** * Which objects a query finds through an index

    When [canAnswer] accepts a query, the ranges of its plan hold a key of an object
    exactly when the object satisfies every clause ([find_selects]): the test of
    the index is what the plan needs, and an index that holds the keys of its
    objects ([IndexSpec]) answers the query. *)

From S2P Require Import Prelude Containers CoreUtil Number Object ObjectBuilder DataSerialization TokenSet ObjectSerialization Text DbKey Json JsonRoundTrip DbQuery DbQueryRoundTrip QueryPlan QueryPlanSpec QueryPlanSelect ObjectItem Effects StorageTxn Watcher Extractor ExtractorSpec Index IndexSpec.

Import QueryPlanSpec (well, encs, in_ranges, page_ok).
Import QueryPlanSelect (want, satisfies, Among, found, no_clause).
Import QueryRoundTrip (where_ok, find_key, key_eq_spec).
Import MojDbQuery (MojDbQuery, WhereMap, key_eq, m_whereClauses).
Import IndexDef (IndexDef, m_props, m_propNames, m_includeDeleted).

(** ** Clauses and the properties of an index *)
Lemma found_in (m : WhereMap) p c : where_ok m -> str_ok p -> found m p c <-> (p, c) ∈ m.
Proof.
  intros Hm Hp. unfold found, MojHashMap.get. destruct (find_key m p Hm Hp) as [[N ->]|(c' & Hin & ->)].
  - split; [done|]. intros Hi. destruct N. apply list_elem_of_fmap. by exists (p, c).
  - split; [by intros [= <-]|]. intros Hi. destruct Hm as [D _]. simpl. f_equal.
    apply list_elem_of_lookup in Hin as [i Hi1], Hi as [j Hi2].
    assert (i = j) as <-; [|congruence].
    eapply NoDup_lookup; [exact D|..]; rewrite list_lookup_fmap; [by rewrite Hi1|by rewrite Hi2].
Qed.

Lemma not_found (m : WhereMap) p : where_ok m -> str_ok p -> p ∉ map fst m -> MojHashMap.get key_eq m p = None.
Proof. apply QueryRoundTrip.no_key. Qed.

(** As many different properties with clauses as there are clauses are all of them. *)
Lemma all_clauses (m : WhereMap) front cs : where_ok m -> Forall str_ok front -> NoDup front ->
  Forall2 (found m) front cs -> length front = length m ->
  (forall p, p ∈ map fst m -> p ∈ front) /\ (forall p c, (p, c) ∈ m -> exists i, front !! i = Some p /\ cs !! i = Some c).
Proof.
  intros Hm Hs Hn F L. assert (front ⊆ map fst m) as Sub.
  { intros p Hp. apply list_elem_of_lookup in Hp as [i Hi]. destruct (Forall2_lookup_l _ _ _ _ _ F Hi) as (c & _ & Fc).
    apply found_in in Fc; [|done|by eapply (Forall_lookup_1 _ _ _ _ Hs)]. apply list_elem_of_fmap. by exists (p, c). }
  assert (Permutation front (map fst m)) as P.
  { apply submseteq_length_Permutation; [by apply NoDup_submseteq|]. rewrite length_map. lia. }
  split; [by intros p; rewrite P|]. intros p c Hp. assert (p ∈ front) as Hf by (rewrite P; apply list_elem_of_fmap; by exists (p, c)).
  apply list_elem_of_lookup in Hf as [i Hi]. exists i. split; [done|].
  destruct (Forall2_lookup_l _ _ _ _ _ F Hi) as (c' & Hc & Fc). assert (str_ok p) as Sp by (by eapply (Forall_lookup_1 _ _ _ _ Hs)).
  apply (found_in m p c Hm Sp) in Hp. unfold found in *. congruence.
Qed.

Section find.
Context `{ICU} `{!ICULaws} {I T : Type} `{!ExtIndex I T}.
Import MojDbIndex.
Abbreviation MojDbIndex := (@MojDbIndex _ I).

(** The properties the loop of [canAnswer] walks over have a clause each. *)
Lemma loop_spec m order : forall props n, (0 < n)%nat -> IndexDef.canAnswer_loop m order props n = true ->
  exists cs, length cs = n /\ (n <= length props)%nat /\ Forall2 (found m) (take n (map fst props)) cs /\
    Forall (fun c => MojDbQuery.WhereClause.m_lowerOp c = MojDbQuery.OpEq) (removelast cs).
Proof.
  induction props as [|[name e] props IH]; intros n Hn E; [done|]. cbn [IndexDef.canAnswer_loop] in E.
  destruct (MojHashMap.get key_eq m name) as [c|] eqn:G; [|done].
  destruct ((0 <? n - 1)%nat && negb (bool_decide (MojDbQuery.WhereClause.m_lowerOp c = MojDbQuery.OpEq))) eqn:Q; [done|].
  destruct (negb _) in E; [done|]. destruct (Nat.eqb_spec (n - 1) 0) as [Z|Z].
  - exists [c]. assert (n = 1%nat) as -> by lia. split; [done|]. split; [simpl; lia|]. split; [by repeat constructor|by constructor].
  - destruct (IH (n - 1)%nat ltac:(lia) E) as (cs & L & Le & F & R). exists (c :: cs). split; [simpl; lia|].
    split; [simpl; lia|]. destruct n as [|n]; [lia|]. simpl in *. rewrite Nat.sub_0_r in *. split; [by constructor|].
    apply andb_false_iff in Q as [Q|Q]; [apply Nat.ltb_ge in Q; lia|]. apply negb_false_iff, bool_decide_eq_true in Q.
    destruct cs; [by constructor|]. by constructor.
Qed.

(** An index that is open. *)
Record open_index (x : MojDbIndex) : Prop := {
  open_sound : sound_index x;
  open_scalar : ~ QueryRoundTrip.is_array (m_id x);
  open_distinct : NoDup (m_propNames (m_def x));
  open_strings : Forall str_ok (m_propNames (m_def x));
  open_deleted : m_includeDeleted (m_def x) = true -> head (m_propNames (m_def x)) = Some DelKey
}.

(** The query of the plan: deleted objects are left out unless it asks for them. *)
Definition live_query (x : MojDbIndex) (m : WhereMap) : WhereMap :=
  if m_includeDeleted (m_def x) && negb (MojHashMap.contains key_eq m DelKey)
  then (DelKey, QueryRoundTrip.new_clause MojDbQuery.OpEq (BoolImpl false) MojDbCollationInvalid) :: m else m.

Lemma del_str_ok : str_ok DelKey.
Proof. by apply QueryRoundTrip.str_okb. Qed.

Lemma live_query_ok x q : where_ok (m_whereClauses q) ->
  where_ok (live_query x (m_whereClauses q)) /\
  (if m_includeDeleted (m_def x) && negb (MojHashMap.contains key_eq (m_whereClauses q) DelKey)
   then MojDbQuery.where_ q DelKey MojDbQuery.OpEq (BoolImpl false) MojDbCollationInvalid else Ok q) =
  Ok (MojDbQuery.with_where q (live_query x (m_whereClauses q)) (MojDbQuery.m_filterClauses q)).
Proof.
  intros Hm. unfold live_query. destruct (_ && _) eqn:B.
  - apply andb_true_iff in B as [_ B]. apply negb_true_iff in B. unfold MojHashMap.contains in B.
    destruct (MojHashMap.get key_eq (m_whereClauses q) DelKey) eqn:G; [done|]. unfold MojDbQuery.where_.
    rewrite QueryRoundTrip.addClause_new by done. split; [|done].
    eapply (QueryRoundTrip.add_clause (m_whereClauses q) DelKey MojDbQuery.OpEq (BoolImpl false) MojDbCollationInvalid); [done|apply del_str_ok|done|].
    by apply QueryRoundTrip.addClause_new.
  - split; [done|]. by destruct q.
Qed.

(** [canAnswer] puts the properties with clauses first. *)
Lemma answerable x q : open_index x -> where_ok (m_whereClauses q) -> canAnswer x q = true ->
  exists front more cs, m_propNames (m_def x) = front ++ more /\
    Forall2 (found (live_query x (m_whereClauses q))) front cs /\
    length front = length (live_query x (m_whereClauses q)) /\
    Forall (fun c => MojDbQuery.WhereClause.m_lowerOp c = MojDbQuery.OpEq) (removelast cs).
Proof.
  intros [[[_ Nm] _ _ _] _ Nd Ss Dl] Hm. unfold canAnswer.
  destruct (m_ready x); [|done]. cbn [negb]. destruct (_ <? _)%nat; [done|].
  set (names := m_propNames (m_def x)) in *. set (m := m_whereClauses q) in *.
  assert (map fst (zip names (m_props (m_def x))) = names) as Zf by (apply fst_zip; lia).
  intros E. unfold live_query. destruct (m_includeDeleted (m_def x) && negb (MojHashMap.contains key_eq m DelKey)) eqn:B.
  - (* the deletion mark comes first *)
    apply andb_true_iff in B as [Bi Bc]. specialize (Dl Bi). apply negb_true_iff in Bc.
    assert (MojHashMap.get key_eq m DelKey = None) as Gd by (unfold MojHashMap.contains in Bc; by destruct (MojHashMap.get _ _ _)).
    destruct names as [|d names'] eqn:En; [done|]. injection Dl as ->.
    destruct (m_props (m_def x)) as [|e0 es]; [done|]. cbn [zip zip_with tl map fst] in *. injection Zf as Zf.
    set (delc := QueryRoundTrip.new_clause MojDbQuery.OpEq (BoolImpl false) MojDbCollationInvalid).
    assert (forall p c, p <> DelKey -> str_ok p -> found m p c -> found ((DelKey, delc) :: m) p c) as Up.
    { intros p c Np Sp Fp. unfold found, MojHashMap.get in *. cbn [List.find fst snd]. rewrite key_eq_spec by (done || apply del_str_ok).
      by rewrite bool_decide_false. }
    assert (found ((DelKey, delc) :: m) DelKey delc) as Hd by (unfold found, MojHashMap.get; cbn [List.find fst snd]; by rewrite QueryRoundTrip.key_eq_refl).
    apply NoDup_cons in Nd as [Nd1 Nd]. apply Forall_cons in Ss as [_ Ss].
    destruct (Nat.eqb_spec (length m) 0) as [Lm|Lm].
    + exists [DelKey], names', [delc]. split; [done|]. split; [by repeat constructor|]. split; [simpl; lia|by constructor].
    + destruct (loop_spec m _ _ (length m) ltac:(lia) E) as (cs & L & Le & F & R). rewrite Zf in F.
      exists (DelKey :: take (length m) names'), (skipn (length m) names'), (delc :: cs).
      split; [cbn [app]; by rewrite take_drop|]. split; [|split].
      * constructor; [done|]. apply Forall2_same_length_lookup. split; [by eapply Forall2_length|].
        intros i p c Hp Hc. pose proof (Forall2_lookup_lr _ _ _ _ _ _ F Hp Hc) as G. apply lookup_take_Some in Hp as [Hp _].
        apply Up; [|by eapply (Forall_lookup_1 _ _ _ _ Ss)|done]. intros ->. apply Nd1. by eapply list_elem_of_lookup_2.
      * simpl. f_equal. rewrite length_take. rewrite length_zip_with in Le. lia.
      * destruct cs; [by constructor|]. by constructor.
  - destruct (Nat.eqb_spec (length m) 0) as [Lm|Lm].
    + exists [], names, []. split; [done|]. split; [constructor|]. split; [simpl; lia|constructor].
    + destruct (loop_spec m _ _ (length m) ltac:(lia) E) as (cs & L & Le & F & R). rewrite Zf in F.
      exists (take (length m) names), (skipn (length m) names), cs. split; [by rewrite take_drop|]. split; [done|].
      split; [|done]. rewrite length_take. rewrite length_zip_with in Le. lia.
Qed.

(** ** What is found *)
Abbreviation locale x := (IndexDef.m_locale (m_def x)).

(** For every clause the object has, among the values of the clause's property, one
    that satisfies it. *)
Definition satisfied (x : MojDbIndex) (m : WhereMap) (o : MojObject) : Prop :=
  forall p c, (p, c) ∈ m -> exists i e y w, m_propNames (m_def x) !! i = Some p /\ m_props (m_def x) !! i = Some e /\
    want (locale x) c = Ok w /\ takes e o y /\ satisfies w y.

(** An object without a value for some property has no keys. *)
Definition visible (x : MojDbIndex) (o : MojObject) : Prop :=
  included x o /\ Forall (fun e => exists y, takes e o y) (m_props (m_def x)).

Lemma wants_of loc cs : Forall (fun c => exists w, want loc c = Ok w) cs -> exists ws, Forall2 (fun c w => want loc c = Ok w) cs ws.
Proof.
  induction 1 as [|c cs (w & E) _ (ws & F)]; [by exists []|]. exists (w :: ws). by constructor.
Qed.

Lemma among_of loc cs ws : Forall2 (fun c w => want loc c = Ok w) cs ws ->
  Forall (fun c => MojDbQuery.WhereClause.m_lowerOp c = MojDbQuery.OpEq) (removelast cs) ->
  Forall (fun w => exists vals, w = Among vals) (removelast ws).
Proof.
  induction 1 as [|c w cs ws E F IH]; [done|]. destruct F as [|c2 w2 cs ws E2 F]; [done|]. intros Q.
  change (removelast (c :: c2 :: cs)) with (c :: removelast (c2 :: cs)) in Q. apply Forall_cons in Q as [Q1 Q].
  change (removelast (w :: w2 :: ws)) with (w :: removelast (w2 :: ws)). constructor; [|by apply IH].
  unfold want in E. apply res_bind_ok in E as (coll & _ & E). apply res_bind_ok in E as (vals & _ & E).
  rewrite Q1 in E. injection E as <-. by exists vals.
Qed.

Lemma del_want loc : want loc (QueryRoundTrip.new_clause MojDbQuery.OpEq (BoolImpl false) MojDbCollationInvalid) = Ok (Among [BoolImpl false]).
Proof. done. Qed.

(** A choice that satisfies the clauses of the first properties. *)
Lemma choose (es : list Extractor.Extractor) o : forall ws, Forall (fun e => exists y, takes e o y) es ->
  (forall i w, ws !! i = Some w -> exists e y, es !! i = Some e /\ takes e o y /\ satisfies w y) ->
  exists ys, Forall2 (fun e y => takes e o y) es ys /\ Forall2 satisfies ws (take (length ws) ys).
Proof.
  induction es as [|e es IH]; intros ws V Hw.
  - exists []. split; [constructor|]. destruct ws as [|w ws]; [constructor|]. by destruct (Hw 0%nat w eq_refl) as (e & y & E & _).
  - apply Forall_cons in V as [(y0 & T0) V]. destruct ws as [|w ws].
    + destruct (IH [] V) as (ys & F & _); [done|]. exists (y0 :: ys). split; [by constructor|constructor].
    + destruct (Hw 0%nat w eq_refl) as (e' & y & [= <-] & Ty & Sy).
      destruct (IH ws V) as (ys & F & G); [intros i w' E; by apply (Hw (S i))|].
      exists (y :: ys). split; by constructor.
Qed.

(** The ranges of a plan, through the index. *)
Lemma plan_choices x q : open_index x -> where_ok (m_whereClauses q) -> canAnswer x q = true ->
  (forall p c, (p, c) ∈ m_whereClauses q -> exists w, want (locale x) c = Ok w) ->
  exists front cs ws p, MojDbQueryPlan.init q (plan_index x) = Ok p /\
    Forall2 (fun c w => want (locale x) c = Ok w) cs ws /\
    (forall i, (i < length front)%nat -> m_propNames (m_def x) !! i = front !! i) /\ length front = length cs /\
    (forall p c, (p, c) ∈ live_query x (m_whereClauses q) -> exists i, front !! i = Some p /\ cs !! i = Some c) /\
    (forall i c, cs !! i = Some c -> exists p, (p, c) ∈ live_query x (m_whereClauses q) /\ front !! i = Some p) /\
    (length ws <= length (m_props (m_def x)))%nat /\
    forall o ys, choices (m_def x) o ys ->
      in_ranges (MojDbQueryPlan.m_ranges p) (encs (m_id x :: ys)) <->
      Forall2 satisfies ws (take (length ws) ys) /\
      page_ok (MojDbQuery.with_where q (live_query x (m_whereClauses q)) (MojDbQuery.m_filterClauses q)) (encs (m_id x :: ys)) = true.
Proof.
  intros Op Hm Ca Hw. destruct (live_query_ok x q Hm) as [Hm' Eq].
  destruct (answerable x q Op Hm Ca) as (front & more & cs & En & F & L & R).
  assert (Forall str_ok front /\ NoDup front) as [Sf Nf].
  { pose proof (open_strings x Op) as S. pose proof (open_distinct x Op) as D. rewrite En in S, D.
    apply Forall_app in S as [S _]. apply NoDup_app in D as [D _]. done. }
  destruct (all_clauses _ front cs Hm' Sf Nf F L) as [Ks Cs].
  assert (forall i c, cs !! i = Some c -> exists p, (p, c) ∈ live_query x (m_whereClauses q) /\ front !! i = Some p) as Cl.
  { intros i c Hc. destruct (Forall2_lookup_r _ _ _ _ _ F Hc) as (p & Hp & Fp). exists p. split; [|done].
    apply found_in in Fp; [done..|by eapply (Forall_lookup_1 _ _ _ _ Sf)]. }
  destruct (wants_of (locale x) cs) as (ws & Fw).
  { apply Forall_forall. intros c Hc. apply list_elem_of_lookup in Hc as [i Hc]. destruct (Cl i c Hc) as (p & Hp & _).
    unfold live_query in Hp. destruct (_ && _); [|by apply (Hw p)]. apply elem_of_cons in Hp as [[= -> ->]|Hp]; [|by apply (Hw p)].
    eexists. apply del_want. }
  set (q' := MojDbQuery.with_where q (live_query x (m_whereClauses q)) (MojDbQuery.m_filterClauses q)) in *.
  destruct (QueryPlanSelect.plan_exact q q' (plan_index x) front more cs ws Hm' (index_id x (open_sound x Op)) (open_scalar x Op) Eq En F)
    as (p & E & Ep & X); [|done|by eapply among_of|].
  { unfold no_clause. destruct more as [|r more]; [done|]. apply not_found; [done| |].
    - pose proof (open_strings x Op) as S. rewrite En in S. apply Forall_app in S as [_ S]. by apply Forall_cons in S as [S _].
    - intros Hr%Ks. pose proof (open_distinct x Op) as D. rewrite En in D. apply NoDup_app in D as (_ & D & _).
      apply (D r Hr). set_solver. }
  assert (length ws = length front) as Lw by (rewrite (Forall2_length _ _ _ F); symmetry; by eapply Forall2_length).
  assert (length front <= length (m_props (m_def x)))%nat as Le.
  { rewrite <- (sound_names _ (index_def x (open_sound x Op))), En, length_app. lia. }
  exists front, cs, ws, p. split; [done|]. split; [done|]. split; [intros i Hi; by rewrite En, lookup_app_l|].
  split; [by eapply Forall2_length|]. split; [done|]. split; [done|]. split; [lia|].
  intros o ys C. pose proof (choices_well _ _ _ C) as Wy. pose proof (Forall2_length _ _ _ C) as Ly.
  assert (encs (m_id x :: ys) = encs (m_id x :: take (length ws) ys) ++ encs (skipn (length ws) ys)) as ->.
  { rewrite <- QueryPlanSpec.encs_app. f_equal. simpl. f_equal. by rewrite take_drop. }
  rewrite X.
  - split; [intros (_ & S & P); done|]. intros [S P]. done.
  - constructor; [apply (open_sound x Op)|by apply Forall_take].
  - rewrite length_take. lia.
  - apply QueryPlanSpec.encs_bytes. by apply Forall_drop.
Qed.

Lemma find_objects x q : open_index x -> where_ok (m_whereClauses q) -> canAnswer x q = true ->
  (forall p c, (p, c) ∈ m_whereClauses q -> exists w, want (locale x) c = Ok w) ->
  MojDbQuery.m_page q = [] ->
  exists p, MojDbQueryPlan.init q (plan_index x) = Ok p /\
    forall o, (exists k, key_for x o k /\ in_ranges (MojDbQueryPlan.m_ranges p) k) <->
      visible x o /\ satisfied x (live_query x (m_whereClauses q)) o.
Proof.
  intros Op Hm Ca Hw Pg. destruct (plan_choices x q Op Hm Ca Hw) as (front & cs & ws & p & E & Fw & Fn & Lf & Cs & Cl & Le & X).
  pose proof (Forall2_length _ _ _ Fw) as Lw. exists p. split; [done|]. intros o. split.
  - intros (k & (Hi & ys & C & ->) & R). apply (X o ys C) in R as [S _]. split; [split; [done|]|].
    + apply Forall_lookup_2. intros i e He. destruct (Forall2_lookup_l _ _ _ _ _ C He) as (y & _ & Ty). by exists y.
    + intros name c Hc. destruct (Cs name c Hc) as (i & Hf & Hci). destruct (Forall2_lookup_l _ _ _ _ _ Fw Hci) as (w & Hwi & Ew).
      destruct (Forall2_lookup_l _ _ _ _ _ S Hwi) as (y & Hy & Sy). apply lookup_take_Some in Hy as [Hy Hlt].
      destruct (Forall2_lookup_r _ _ _ _ _ C Hy) as (e & He & Ty). exists i, e, y, w.
      split; [by rewrite Fn by lia|]. done.
  - intros [[Hi V] S]. destruct (choose (m_props (m_def x)) o ws V) as (ys & C & Sy).
    + intros i w Hwi. destruct (Forall2_lookup_r _ _ _ _ _ Fw Hwi) as (c & Hci & Ew). destruct (Cl i c Hci) as (name & Hin & Hfi).
      destruct (S name c Hin) as (j & e & y & w' & Hj & He & Ew' & Ty & Sw).
      assert (i = j) as <-.
      { eapply NoDup_lookup; [apply (open_distinct x Op)| |exact Hj]. rewrite Fn; [done|]. by apply lookup_lt_Some in Hfi. }
      exists e, y. split; [done|]. split; [done|]. congruence.
    + exists (encs (m_id x :: ys)). split; [by split; [|exists ys]|]. apply (X o ys C). split; [done|].
      unfold page_ok. simpl. by rewrite Pg.
Qed.
End find.
