(* ===== verification/LevelIndex.v ===== *)
(** * Indexes in LevelDB

    [MojDbLevelIndex] keeps the promise of [IndexSpec]: the index database seen in a
    transaction holds the keys put and not deleted, and nothing but a quota stands
    in the way.  So an index over it is maintained by every update
    ([index_maintained]). *)

From S2P Require Import Prelude Containers CoreUtil Number Object ObjectBuilder DataSerialization TokenSet ObjectSerialization Text DbKey Json JsonRoundTrip DbQuery DbQueryRoundTrip QueryPlan QueryPlanSpec QueryPlanSelect OrderedMap LevelDb LevelDbSpec LevelDbTxn LevelDbCursor ObjectItem Effects StorageTxn LevelStore Watcher Extractor ExtractorSpec Index IndexSpec IndexFind.

Import MojDbLevelEnvTxn (MojDbLevelEnvTxn, tableTxn, with_table, with_base).

(** ** Table transactions *)
Section tables.
Context `{LevelDB}.

Lemma tableTxn_base t b db : tableTxn (with_base t b) db = tableTxn t db.
Proof. done. Qed.

Lemma tableTxn_set t db tt_ db' : tableTxn (with_table t db tt_) db' = if db' =? db then tt_ else tableTxn t db'.
Proof.
  unfold tableTxn, with_table. simpl. induction (MojDbLevelEnvTxn.m_tableTxns t) as [|e l IH]; simpl.
  - unfold MojDbLevelEnvTxn.is_db. simpl. rewrite Z.eqb_sym. by destruct (db' =? db).
  - destruct (MojDbLevelEnvTxn.is_db db e) eqn:D; simpl.
    + unfold MojDbLevelEnvTxn.is_db in *. destruct e as [[d|] x]; simpl in *; [|done]. apply Z.eqb_eq in D as ->.
      rewrite Z.eqb_sym. by destruct (db' =? db).
    + unfold MojDbLevelEnvTxn.is_db in *. destruct e as [[d|] x]; simpl in *; [|exact IH].
      destruct (d =? db') eqn:D'; [|exact IH]. apply Z.eqb_eq in D' as ->. by rewrite D.
Qed.
End tables.

(** ** The quota of a transaction *)
Definition quota_ok (b : MojDbStorageTxn.MojDbStorageTxn) : Prop :=
  MojRbTreeBase.sorted fst MojStrCmp (MojDbStorageTxn.m_offsetMap b) /\
  forall kindId, MojDbStorageTxn.m_curQuotaOffset b = Some kindId ->
    exists o, MojMap.get MojStrCmp (MojDbStorageTxn.m_offsetMap b) kindId = Some o.

Lemma offsetQuota_ok quotas b amount : quota_ok b ->
  match MojDbStorageTxn.offsetQuota quotas b amount with
  | Ok b' => quota_ok b'
  | Err e => e = MojErrDbQuotaExceeded
  end.
Proof.
  intros Q. pose proof Q as [S C]. unfold MojDbStorageTxn.offsetQuota.
  destruct (MojDbStorageTxn.m_curQuotaOffset b) as [kindId|] eqn:K; [|done].
  destruct (MojDbStorageTxn.m_quotaEnabled b); [|done]. destruct (C kindId eq_refl) as [o G]. rewrite G.
  unfold Offset.apply. destruct (match Offset.quota_of quotas o with Some q => _ | None => _ end); [done|]. cbn [res_bind].
  split; simpl; [by apply (MojMap.map_put_sorted MojStrCmp)|]. intros k' [= <-]. eexists.
  rewrite (MojMap.map_get_put MojStrCmp) by done. by rewrite (comp_refl MojStrCmp).
Qed.

(** ** The engine of indexes *)
Section level.
Context `{LevelDBLaws} (quotas : QuotaMap) (db : Z) (m_db : DB).

(** A transaction at an address. *)
Record LevelTxn := { l_address : Z; l_txn : MojDbLevelEnvTxn }.

Definition on_txn {A} (m : st MojDbLevelEnvTxn A) : st LevelTxn A := fun t =>
  let '(t', r) := m (l_txn t) in ({| l_address := l_address t; l_txn := t' |}, r).

Definition table (t : LevelTxn) := tableTxn (l_txn t) db.

(** [MojDbDummyExtIndex] over a [MojDbLevelIndex], which leaves the shard out. *)
#[local] Instance level_index (fuel h : nat) : ExtIndex MojObject LevelTxn := {|
  index_insert _ _ key := on_txn (MojDbLevelIndex.insert quotas db key);
  index_del _ _ key := on_txn (MojDbLevelIndex.del quotas db key);
  index_drop id := on_txn (MojDbLevelIndex.drop quotas db m_db id fuel h);
  index_stats id := on_txn (MojDbLevelIndex.stats db m_db id fuel h);
  index_close _ := Ok tt;
  txn_base t := MojDbLevelEnvTxn.base (l_txn t);
  with_txn_base t b := {| l_address := l_address t; l_txn := with_base (l_txn t) b |};
  txn_address t := l_address t |}.

(** What the transaction shows of the index database. *)
Definition index_view (t : LevelTxn) : entries := txn_view (db_view m_db) (table t).

Record level_ok (t : LevelTxn) : Prop := {
  level_table : LevelDbTxn.txn_ok (table t);
  level_quota : quota_ok (MojDbLevelEnvTxn.base (l_txn t))
}.

Definition in_level (t : LevelTxn) (k : MojDbKey) : Prop := exists v, (k, v) ∈ index_view t.

Lemma index_view_sorted t : level_ok t -> sorted_entries (index_view t).
Proof. intros [[[S D J] _] _]. apply merged_sorted; [done|apply db_view_sorted]. Qed.

(** The quota first, then the table. *)
Lemma offset_then (t : MojDbLevelEnvTxn) amount (f : MojDbLevelTableTxn.MojDbLevelTableTxn -> res MojDbLevelTableTxn.MojDbLevelTableTxn) :
  quota_ok (MojDbLevelEnvTxn.base t) -> (exists tt', f (tableTxn t db) = Ok tt') ->
  exists t' r, (let! _ := MojDbLevelDatabase.offsetQuota quotas amount in MojDbLevelDatabase.on_table db f) t = (t', r) /\
    quota_ok (MojDbLevelEnvTxn.base t') /\
    match r with
    | Ok _ => f (tableTxn t db) = Ok (tableTxn t' db)
    | Err e => e = MojErrDbQuotaExceeded /\ t' = t
    end.
Proof.
  intros Q (tt' & F). pose proof (offsetQuota_ok quotas (MojDbLevelEnvTxn.base t) amount Q) as O.
  unfold bind, MojDbLevelDatabase.offsetQuota, MojDbLevelDatabase.on_table.
  destruct (MojDbStorageTxn.offsetQuota quotas (MojDbLevelEnvTxn.base t) amount) as [b|e].
  - rewrite tableTxn_base, F. eexists _, _. split; [reflexivity|]. split; [exact O|]. by rewrite tableTxn_set, Z.eqb_refl.
  - exists t, (Err e). done.
Qed.

Lemma level_insert key (t : LevelTxn) : level_ok t ->
  exists t' r, on_txn (MojDbLevelIndex.insert quotas db key) t = (t', r) /\ level_ok t' /\ l_address t' = l_address t /\
    match r with
    | Ok _ => index_view t' = MojMap.put lexcmp (index_view t) key []
    | Err e => e = MojErrDbQuotaExceeded /\ t' = t
    end.
Proof.
  intros K. destruct (Put_ok (table t) key [] (level_table t K)) as (tt' & E & O & V).
  destruct (offset_then (l_txn t) (Z.of_nat (length (@nil Z)) + Z.of_nat (length key))
    (fun tt_ => MojDbLevelTableTxn.Put tt_ key [])) as (t' & r & Er & Q & M); [apply K|by exists tt'|].
  unfold on_txn, MojDbLevelIndex.insert, MojDbLevelDatabase.put_item. rewrite Er. eexists _, r. split; [reflexivity|].
  destruct r as [[]|e].
  - fold (table t) in M. rewrite E in M. injection M as M.
    split; [split; [unfold table; simpl; by rewrite <- M|done]|]. split; [done|].
    unfold index_view, table. simpl. rewrite <- M. by apply V, db_view_sorted.
  - destruct M as [-> ->]. destruct t; simpl in *. split; [by destruct K|]. done.
Qed.

Lemma level_del key (t : LevelTxn) : level_ok t ->
  exists t' r, on_txn (MojDbLevelIndex.del quotas db key) t = (t', r) /\ level_ok t' /\ l_address t' = l_address t /\
    match r with
    | Ok _ => index_view t' = (MojMap.del lexcmp (index_view t) key).1
    | Err e => e = MojErrDbQuotaExceeded /\ t' = t
    end.
Proof.
  intros K. destruct (Delete_ok (table t) key (level_table t K)) as (tt' & E & O & V).
  destruct (offset_then (l_txn t) (- Z.of_nat (length key))
    (fun tt_ => MojDbLevelTableTxn.Delete tt_ key)) as (t' & r & Er & Q & M); [apply K|by exists tt'|].
  assert (MojDbLevelIndex.del quotas db key (l_txn t) = (t', match r with Ok _ => Ok tt | Err e => Err e end)) as Ed.
  { unfold MojDbLevelIndex.del, MojDbLevelDatabase.del_item. unfold bind in *.
    destruct (MojDbLevelDatabase.offsetQuota quotas (- Z.of_nat (length key)) (l_txn t)) as [t1 [[]|e1]].
    - rewrite Er. by destruct r.
    - injection Er as <- <-. done. }
  unfold on_txn. rewrite Ed. eexists _, _. split; [reflexivity|]. destruct r as [[]|e].
  - fold (table t) in M. rewrite E in M. injection M as M.
    split; [split; [unfold table; simpl; by rewrite <- M|done]|]. split; [done|].
    unfold index_view, table. simpl. rewrite <- M. by apply V, db_view_sorted.
  - destruct M as [-> ->]. destruct t; simpl in *. split; [by destruct K|]. done.
Qed.

#[local] Instance level_laws fuel h : ExtIndexLaws (H := level_index fuel h) MojObject LevelTxn.
Proof.
  refine {| txn_ok := level_ok; in_index := in_level; refused e := e = MojErrDbQuotaExceeded |}; simpl.
  - intros _ _ k t K. destruct (level_insert k t K) as (t' & r & E & K' & A & M). exists t', r.
    split; [exact E|]. split; [done|]. split; [done|]. destruct r as [|e]; [|by destruct M].
    intros j. unfold in_level. rewrite M. setoid_rewrite elem_of_mput; [|by apply index_view_sorted..]. simpl.
    destruct (decide (j = k)) as [->|N]; naive_solver.
  - intros _ _ k t K. destruct (level_del k t K) as (t' & r & E & K' & A & M). exists t', r.
    split; [exact E|]. split; [done|]. split; [done|]. destruct r as [|e]; [|by destruct M as [-> _]].
    intros j. unfold in_level. rewrite M. setoid_rewrite elem_of_mdel; [|by apply index_view_sorted..]. simpl. naive_solver.
  - intros t a [K Q]. split; [|done]. split; [done|]. done.
Defined.
End level.

(** ** What an index over LevelDB promises *)
Import IndexFind (open_index, visible, satisfied, live_query).
Import MojDbQuery (MojDbQuery, m_whereClauses).

(** C5: An update keeps an index in step with the objects of its kind. If the index
    database, seen in a transaction, holds exactly the keys of the objects a store
    has (one for each choice of a value for each property), then after the update
    for a change of the store - a new object, a changed one, a deleted one - it holds
    exactly the keys of the new store's objects, and the keys of both versions wait
    for the commit to be told to the watchers. The only error there can be is the
    quota's. *)
Theorem index_maintained `{ICULaws} `{LevelDBLaws} quotas db m_db fuel h i s newObj oldObj force objs :
  let _ := level_index quotas db m_db fuel h in
  level_ok db (MojDbIndex.s_txn s) -> MojDbIndex.m_index (MojDbIndex.s_index s) = Some i ->
  pending_sets (MojDbIndex.s_index s) -> sound_index (MojDbIndex.s_index s) ->
  keyed_store (MojDbIndex.s_index s) objs -> keyed_store (MojDbIndex.s_index s) (replaced objs newObj oldObj) ->
  (forall o, oldObj = Some o -> objs o) ->
  (forall k, Encoding.enc (MojDbIndex.m_id (MojDbIndex.s_index s)) `prefix_of` k ->
     in_level db m_db (MojDbIndex.s_txn s) k <-> exists o, objs o /\ key_for (MojDbIndex.s_index s) o k) ->
  exists s' r, MojDbIndex.update newObj oldObj force s = (s', r) /\
    match r with
    | Ok _ =>
        (forall k, Encoding.enc (MojDbIndex.m_id (MojDbIndex.s_index s)) `prefix_of` k ->
           in_level db m_db (MojDbIndex.s_txn s') k <->
           exists o, replaced objs newObj oldObj o /\ key_for (MojDbIndex.s_index s) o k) /\
        forall k, touched s' k <-> touched s k \/
          (exists o, newObj = Some o /\ key_for (MojDbIndex.s_index s) o k) \/
          (exists o, oldObj = Some o /\ key_for (MojDbIndex.s_index s) o k)
    | Err e => e = MojErrDbQuotaExceeded
    end.
Proof.
  intros I0 K E Ps S Vs Vs' Ho X. pose proof (level_laws quotas db m_db fuel h) as L.
  destruct (maintained (H2 := level_laws quotas db m_db fuel h) i s newObj oldObj force objs K E Ps S Vs Vs' Ho X) as (s' & r & E' & R).
  exists s', r. split; [exact E'|]. destruct r; [|exact R]. by destruct R.
Qed.

(** C6: A query an index says it can answer finds exactly the objects that satisfy
    it. If the index holds the keys of a store's objects and [canAnswer] accepts the
    query, the plan is made, and the objects with a key in the index in one of the
    plan's ranges are those that the index includes, that have a value for each of
    its properties, and that satisfy every clause of the query with one of the values
    of its property (and are not deleted, where the index keeps deleted objects and
    the query does not ask for them). *)
Theorem find_exact `{ICULaws} `{LevelDBLaws} {T : Type} db m_db (x : @MojDbIndex.MojDbIndex _ T) q t objs :
  open_index x -> QueryRoundTrip.where_ok (m_whereClauses q) -> MojDbIndex.canAnswer x q = true ->
  (forall p c, (p, c) ∈ m_whereClauses q -> exists w, QueryPlanSelect.want (IndexDef.m_locale (MojDbIndex.m_def x)) c = Ok w) ->
  MojDbQuery.m_page q = [] ->
  (forall k, Encoding.enc (MojDbIndex.m_id x) `prefix_of` k -> in_level db m_db t k <-> exists o, objs o /\ key_for x o k) ->
  exists p, MojDbQueryPlan.init q (MojDbIndex.plan_index x) = Ok p /\
    forall o, objs o -> (exists k, in_level db m_db t k /\ QueryPlanSpec.in_ranges (MojDbQueryPlan.m_ranges p) k /\ key_for x o k) <->
      visible x o /\ satisfied x (live_query x (m_whereClauses q)) o.
Proof.
  intros Op Hm Ca Hw Pg X. destruct (IndexFind.find_objects x q Op Hm Ca Hw Pg) as (p & E & M).
  exists p. split; [done|]. intros o Ho. rewrite <- M. split; [naive_solver|]. intros (k & K & R). exists k.
  split; [|done]. apply X; [by eapply key_for_prefix|]. by exists o.
Qed.
