(* ===== verification/Storage.v ===== *)
(** * The storage engine, as its users see it: inc/db/MojDbStorageEngine.h

    What the kind engine and the database object ask of a storage engine beside its
    indexes ([ExtIndex]): databases of records by id, and sequences.  [EngineLaws] says
    what they rely on; the LevelDB engine keeps it ([level_engine]). *)

From S2P Require Import Prelude Containers CoreUtil Number Object ObjectBuilder DataSerialization TokenSet ObjectSerialization Text DbKey Json JsonRoundTrip DbQuery DbQueryRoundTrip QueryPlan QueryPlanSpec OrderedMap LevelDb LevelDbSpec LevelDbTxn LevelDbCursor ObjectItem Effects StorageTxn LevelStore Sequence Watcher Extractor ExtractorSpec Index IndexSpec LevelIndex.

Import QueryPlanSpec (well).

(** ** [MojDbStorageDatabase] and [MojDbStorageSeq]

    A database is known by its handle; the shard of the ext databases is left out, as
    [MojDbDummyExtDatabase] does. *)
Class StorageDatabase (T : Type) := {
  db_insert : Z -> MojObject -> bytes -> st T unit;
  db_update : Z -> MojObject -> bytes -> bytes -> st T unit;
  db_del : Z -> MojObject -> st T bool;
  db_get : Z -> MojObject -> st T (option MojDbLevelItem.MojDbLevelItem)
}.

Class StorageSeq (Q : Type) := { seq_get : st Q Z }.

#[export] Instance level_seq `{LevelDB} : StorageSeq MojDbLevelSeq.MojDbLevelSeq := {| seq_get := MojDbLevelSeq.get |}.

(** A sequence counts up, until it has run through the positive numbers. *)
Class StorageSeqLaws (Q : Type) `{!StorageSeq Q} := {
  seq_ok : Q -> Prop;
  seq_pos : Q -> Z;
  seq_nonneg : forall q, seq_ok q -> 0 <= seq_pos q;
  seq_law : forall q q' r, seq_ok q -> seq_get q = (q', r) -> seq_ok q' /\
    (seq_pos q < 2 ^ 63 - 1 -> seq_pos q' = seq_pos q + 1 /\ match r with Ok v => v = seq_pos q | Err _ => True end)
}.

#[export] Instance level_seq_laws `{LevelDB} : StorageSeqLaws MojDbLevelSeq.MojDbLevelSeq.
Proof.
  refine {| seq_ok q := 0 <= MojDbLevelSeq.m_next q; seq_pos := MojDbLevelSeq.m_next |}; [done|].
  intros q q' r N. simpl. unfold MojDbLevelSeq.get, bind, get, modify, ret. cbn [fst snd].
  set (q1 := MojDbLevelSeq.with_next _ _).
  assert (0 <= MojDbLevelSeq.m_next q1 /\ (MojDbLevelSeq.m_next q < 2 ^ 63 - 1 -> MojDbLevelSeq.m_next q1 = MojDbLevelSeq.m_next q + 1 /\
    to_int 64 (MojDbLevelSeq.m_next q) = MojDbLevelSeq.m_next q)) as [N1 P1].
  { simpl. split; [unfold to_uint; apply Z.mod_pos_bound; lia|]. intros L. split; [apply to_uint_small; unfold in_uint; lia|].
    apply to_int_small; [lia|unfold in_int; lia]. }
  clearbody q1. destruct (_ <=? _).
  - unfold MojDbLevelSeq.store. destruct (MojDbLevelSeq.put_next _ _ _) as [dd|er]; intros [= <- <-]; (split; [done|]); intros L;
      destruct (P1 L); by split.
  - intros [= <- <-]. split; [done|]. intros L. destruct (P1 L). by split.
Defined.

(** The item [get] makes of a record. *)
Definition item_of (id : MojObject) (bs : bytes) : MojDbLevelItem.MojDbLevelItem :=
  MojDbLevelItem.with_id
    (MojDbLevelItem.setData {| MojDbLevelItem.m_slice := []; MojDbLevelItem.m_header := MojDbObjectHeader.init UndefinedImpl |} bs) id.

Definition db_put `{StorageDatabase T} (db : Z) (id : MojObject) (bs : bytes) (old : option bytes) : st T unit :=
  match old with None => db_insert db id bs | Some old => db_update db id bs old end.

(** ** What is promised

    [holds t db id] is the record of an id.  Writing a record changes no other and no
    index, and is refused by a quota at most; writing an index changes no record. *)
Class EngineLaws (I T : Type) `{ExtIndexLaws I T} `{!StorageDatabase T} := {
  holds : T -> Z -> MojObject -> option bytes;
  is_db : Z -> Prop;
  others := fun t t' db id => forall db' id', is_db db' -> well id' -> (db' <> db \/ id' <> id) -> holds t' db' id' = holds t db' id';
  base_ok : forall t, txn_ok t -> quota_ok (txn_base t);
  base_set : forall t b, txn_base (with_txn_base t b) = b;
  base_law : forall t b, txn_ok t -> quota_ok b -> let t' := with_txn_base t b in
    txn_ok t' /\ txn_address t' = txn_address t /\ (forall j, in_index t' j <-> in_index t j) /\
    forall db id, holds t' db id = holds t db id;
  get_law : forall db id t, txn_ok t -> is_db db -> well id -> exists t',
    db_get db id t = (t', Ok (option_map (item_of id) (holds t db id))) /\ txn_ok t' /\ txn_address t' = txn_address t /\
    txn_base t' = txn_base t /\ (forall j, in_index t' j <-> in_index t j) /\ forall db' id', holds t' db' id' = holds t db' id';
  put_law : forall db id bs old t, txn_ok t -> is_db db -> well id ->
    exists t' r, db_put db id bs old t = (t', r) /\
      txn_ok t' /\ txn_address t' = txn_address t /\ (forall j, in_index t' j <-> in_index t j) /\
      match r with
      | Ok _ => holds t' db id = Some bs /\ others t t' db id
      | Err e => refused e
      end;
  del_db_law : forall db id t, txn_ok t -> is_db db -> well id ->
    exists t' r, db_del db id t = (t', r) /\
      txn_ok t' /\ txn_address t' = txn_address t /\ (forall j, in_index t' j <-> in_index t j) /\
      match r with
      | Ok found => found = true /\
          holds t' db id = None /\ others t t' db id
      | Err e => refused e
      end;
  index_insert_holds : forall i sh k t db id, txn_ok t -> is_db db -> holds (index_insert i sh k t).1 db id = holds t db id;
  index_del_holds : forall i sh k t db id, txn_ok t -> is_db db -> holds (index_del i sh k t).1 db id = holds t db id
}.

(** ** The LevelDB engine

    The index database has the handle [idb]; behind a handle is a LevelDB. *)
Section level.
Context `{LevelDBLaws} (quotas : QuotaMap) (idb : Z) (dbs : Z -> DB) (fuel h : nat).
Import MojDbLevelEnvTxn (MojDbLevelEnvTxn, tableTxn, with_table, with_base).

#[local] Instance level_databases : StorageDatabase LevelTxn := {|
  db_insert db id bs := on_txn (MojDbLevelDatabase.insert quotas db id bs);
  db_update db id bs old := on_txn (MojDbLevelDatabase.update quotas db id bs old);
  db_del db id := on_txn (MojDbLevelDatabase.del quotas db id);
  db_get db id := on_txn (MojDbLevelDatabase.get db (dbs db) id)
|}.

#[local] Existing Instance level_index.

(** What the transaction shows of a database. *)
Definition view (t : LevelTxn) (db : Z) : entries := txn_view (db_view (dbs db)) (tableTxn (l_txn t) db).

Record all_ok (t : LevelTxn) : Prop := {
  all_tables : forall db, LevelDbTxn.txn_ok (tableTxn (l_txn t) db);
  all_quota : quota_ok (MojDbLevelEnvTxn.base (l_txn t))
}.

Lemma records_sorted t db : all_ok t -> sorted_entries (view t db).
Proof. intros [K _]. destruct (K db) as [[S D J] _]. apply merged_sorted; [done|apply db_view_sorted]. Qed.

Lemma on_txn_bind {A B} (m : st MojDbLevelEnvTxn A) (f : A -> st MojDbLevelEnvTxn B) t :
  on_txn (bind m f) t = bind (on_txn m) (fun a => on_txn (f a)) t.
Proof. unfold on_txn, bind. destruct (m (l_txn t)) as [t' [a|e]]; done. Qed.

(** The same records: the databases look the same. *)
Definition same_views (t t' : LevelTxn) : Prop :=
  all_ok t' /\ l_address t' = l_address t /\ forall db, view t' db = view t db.

(** A write counts against the quota first, which may refuse it. *)
Lemma offset_views t amount : all_ok t -> exists t' r, on_txn (MojDbLevelDatabase.offsetQuota quotas amount) t = (t', r) /\
  same_views t t' /\ match r with Ok _ => True | Err e => e = MojErrDbQuotaExceeded end.
Proof.
  intros [K Q]. pose proof (offsetQuota_ok quotas _ amount Q) as O. unfold on_txn, MojDbLevelDatabase.offsetQuota.
  destruct (MojDbStorageTxn.offsetQuota quotas _ amount) as [b|e]; eexists _, _; (split; [reflexivity|]); (split; [|done]);
    (split; [by split|done]).
Qed.

Lemma table_views t db f (op : entries -> entries) : all_ok t ->
  (forall x, LevelDbTxn.txn_ok x -> exists x', f x = Ok x' /\ LevelDbTxn.txn_ok x' /\ forall l, sorted_entries l -> txn_view l x' = op (txn_view l x)) ->
  exists t', on_txn (MojDbLevelDatabase.on_table db f) t = (t', Ok tt) /\ all_ok t' /\ l_address t' = l_address t /\
    view t' db = op (view t db) /\ forall db', db' <> db -> view t' db' = view t db'.
Proof.
  intros [K Q] F. destruct (F _ (K db)) as (x' & E & O & V). unfold on_txn, MojDbLevelDatabase.on_table. rewrite E.
  eexists. split; [reflexivity|]. unfold view. simpl. split; [split; [|done]|].
  { intros db'. simpl. rewrite tableTxn_set. by destruct (db' =? db). }
  split; [done|]. split; [rewrite tableTxn_set, Z.eqb_refl; apply V, db_view_sorted|].
  intros db' N. by rewrite tableTxn_set, (proj2 (Z.eqb_neq _ _) N).
Qed.

(** The outcome of a write to a database: the operation on what it holds, or the quota
    in the way and nothing done. *)
Definition wrote (db : Z) (op : entries -> entries) (t : LevelTxn) {A} (p : LevelTxn * res A) : Prop :=
  all_ok p.1 /\ l_address p.1 = l_address t /\
  match p.2 with
  | Ok _ => view p.1 db = op (view t db) /\ forall db', db' <> db -> view p.1 db' = view t db'
  | Err e => e = MojErrDbQuotaExceeded /\ forall db', view p.1 db' = view t db'
  end.

Lemma wrote_after {A} db op t t1 (p : LevelTxn * res A) : same_views t t1 -> wrote db op t1 p -> wrote db op t p.
Proof.
  intros (_ & A1 & V1) (K & A2 & M). split; [done|]. split; [congruence|]. destruct p.2.
  - destruct M as [M1 M2]. split; [by rewrite M1, V1|]. intros db' N. by rewrite M2, V1.
  - destruct M as [-> M]. split; [done|]. intros db'. by rewrite M, V1.
Qed.

Lemma refused_wrote {A} db op t t1 : same_views t t1 -> wrote db op t (t1, Err MojErrDbQuotaExceeded : res A).
Proof. by intros (K & A1 & V1). Qed.

Lemma put_item_wrote db key val upd t : all_ok t ->
  wrote db (fun m => MojMap.put lexcmp m key val) t (on_txn (MojDbLevelDatabase.put_item quotas db key val upd) t).
Proof.
  intros K. unfold MojDbLevelDatabase.put_item. rewrite on_txn_bind. unfold bind.
  edestruct (offset_views t) as (t1 & r & E & S & R); [exact K|]. rewrite E. destruct r as [[]|e]; [|subst; by apply refused_wrote].
  apply (wrote_after db _ t t1); [done|].
  destruct (table_views t1 db (fun x => MojDbLevelTableTxn.Put x key val) (fun m => MojMap.put lexcmp m key val)) as (t2 & -> & K2 & A2 & M); [apply S| |done].
  intros x Ox. destruct (Put_ok x key val Ox) as (x' & ?). by exists x'.
Qed.

Lemma del_item_wrote db key t : all_ok t ->
  exists p, on_txn (MojDbLevelDatabase.del_item quotas db key) t = p /\ wrote db (fun m => (MojMap.del lexcmp m key).1) t p /\
    forall found, p.2 = Ok found -> found = true.
Proof.
  intros K. unfold MojDbLevelDatabase.del_item. rewrite on_txn_bind. unfold bind at 1.
  edestruct (offset_views t) as (t1 & r & E & S & R); [exact K|]. rewrite E. destruct r as [[]|e].
  - destruct (table_views t1 db (fun x => MojDbLevelTableTxn.Delete x key) (fun m => (MojMap.del lexcmp m key).1)) as (t2 & E2 & K2 & A2 & M); [apply S| |].
    { intros x Ox. destruct (Delete_ok x key Ox) as (x' & ?). by exists x'. }
    rewrite on_txn_bind. unfold bind. rewrite E2. eexists. split; [reflexivity|]. split; [|by intros ? [= <-]].
    destruct t2. apply (wrote_after db _ t t1); [done|]. split; [done|]. by split.
  - subst. eexists. split; [reflexivity|]. split; [by apply refused_wrote|]. by intros found [=].
Qed.

(** *** The laws *)
Lemma base_views t b : all_ok t -> quota_ok b ->
  same_views t {| l_address := l_address t; l_txn := with_base (l_txn t) b |}.
Proof. intros [K _] Q. split; [by split|done]. Qed.

#[local] Instance level_engine_index : ExtIndexLaws (H := level_index quotas idb (dbs idb) fuel h) MojObject LevelTxn.
Proof.
  refine {| txn_ok := all_ok; in_index t k := exists v, (k, v) ∈ view t idb; refused e := e = MojErrDbQuotaExceeded |}; simpl.
  - intros _ _ k t K. pose proof (put_item_wrote idb k [] true t K) as (K' & A & M). unfold MojDbLevelIndex.insert.
    destruct (on_txn _ t) as [t' r]. exists t', r. split; [done|]. split; [done|]. split; [done|]. simpl in *.
    destruct r as [|e]; [|by destruct M]. destruct M as [M _]. intros j. rewrite M.
    setoid_rewrite elem_of_mput; [|by apply records_sorted..]. simpl. destruct (decide (j = k)) as [->|N]; naive_solver.
  - intros _ _ k t K. destruct (del_item_wrote idb k t K) as (p & E & (K' & A & M) & F). unfold MojDbLevelIndex.del.
    rewrite on_txn_bind. unfold bind. rewrite E. destruct p as [t' [found|e]]; simpl in *.
    + rewrite (F found eq_refl). exists t', (Ok tt). split; [by destruct t'|]. split; [done|]. split; [done|]. destruct M as [M _].
      intros j. rewrite M. setoid_rewrite elem_of_mdel; [|by apply records_sorted..]. simpl. naive_solver.
    + exists t', (Err e). split; [done|]. split; [done|]. split; [done|]. by destruct M as [-> _].
  - intros t a K. destruct (base_views t (MojDbStorageTxn.subscribe (MojDbLevelEnvTxn.base (l_txn t)) a) K) as (K' & A & V).
    { by destruct K as [_ [Q1 Q2]]. }
    split; [done|]. split; [done|]. intros j. by rewrite V.
Defined.

Definition level_holds (t : LevelTxn) (db : Z) (id : MojObject) : option bytes := MojMap.get lexcmp (view t db) (Encoding.enc id).

(** A record's key is its own. *)
Lemma other_key id id' : well id -> well id' -> id' <> id ->
  (lexcmp (Encoding.enc id) (Encoding.enc id') =? 0) = false /\ (lexcmp (Encoding.enc id') (Encoding.enc id) =? 0) = false.
Proof. intros W W' N. rewrite !Z.eqb_neq. split; intros E%lexcmp_eq; by apply enc_inj in E. Qed.

Lemma get_views db id t : all_ok t -> well id -> exists t',
  on_txn (MojDbLevelDatabase.get db (dbs db) id) t = (t', Ok (option_map (item_of id) (level_holds t db id))) /\ same_views t t' /\
  MojDbLevelEnvTxn.base (l_txn t') = MojDbLevelEnvTxn.base (l_txn t).
Proof.
  intros [K Q] W. unfold MojDbLevelDatabase.get. rewrite ObjectBytes.toBytes_enc by apply W. unfold on_txn, bind, lift, MojDbLevelDatabase.get_item.
  rewrite Get_ok by done. fold (view t db). fold (level_holds t db id). eexists. split; [by destruct (level_holds t db id)|]. split; [|by destruct (level_holds t db id)].
  assert (forall db', tableTxn (with_table (l_txn t) db (tableTxn (l_txn t) db)) db' = tableTxn (l_txn t) db') as T.
  { intros db'. rewrite tableTxn_set. by destruct (Z.eqb_spec db' db) as [->|]. }
  destruct (level_holds t db id); simpl; (split; [split; [intros db'; simpl; by rewrite T|done]|]); (split; [done|]);
    intros db'; unfold view; simpl; by rewrite T.
Qed.

#[local] Existing Instance level_databases.

Lemma put_wrote db id bs old t : all_ok t -> well id ->
  wrote db (fun m => MojMap.put lexcmp m (Encoding.enc id) bs) t (db_put db id bs old t).
Proof.
  intros K W. assert (forall upd t, all_ok t -> wrote db (fun m => MojMap.put lexcmp m (Encoding.enc id) bs) t
      (on_txn (MojDbLevelDatabase.put quotas db id bs upd) t)) as P.
  { intros upd t1 K1. unfold MojDbLevelDatabase.put. rewrite ObjectBytes.toBytes_enc by apply W. by apply put_item_wrote. }
  destruct old as [old|]; [|by apply P]. unfold db_put. simpl. unfold MojDbLevelDatabase.update. rewrite on_txn_bind. unfold bind.
  edestruct (offset_views t) as (t1 & r & E & S & R); [exact K|]. rewrite E. destruct r as [[]|e]; [|subst; by apply refused_wrote].
  apply (wrote_after db _ t t1); [done|]. apply P, S.
Qed.

(** The records of other ids and databases. *)
Lemma wrote_others {A} db id op t t' (v : A) : wrote db op t (t', Ok v) ->
  (forall id', well id' -> id' <> id -> MojMap.get lexcmp (op (view t db)) (Encoding.enc id') = level_holds t db id') ->
  forall db' id', db' <> idb -> well id' -> db' <> db \/ id' <> id -> level_holds t' db' id' = level_holds t db' id'.
Proof.
  intros (_ & _ & M1 & M2) O db' id' _ W' N. unfold level_holds in *. simpl in *.
  destruct (decide (db' = db)) as [->|Nd]; [|by rewrite M2]. rewrite M1. apply O; [done|]. by destruct N.
Qed.

(** The index database has no records by id. *)
Lemma index_holds (op : entries -> entries) {A} t (p : LevelTxn * res A) db id : wrote idb op t p -> db <> idb -> level_holds p.1 db id = level_holds t db id.
Proof. intros (_ & _ & M) N. unfold level_holds. destruct p.2; [destruct M as [_ M]; by rewrite M|destruct M as [_ M]; by rewrite M]. Qed.

#[local] Instance level_engine : EngineLaws (H := level_index quotas idb (dbs idb) fuel h) MojObject LevelTxn.
Proof.
  refine {| holds := level_holds; is_db db := db <> idb |}.
  - intros t K. apply K.
  - done.
  - intros t b K Q. destruct (base_views t b K Q) as (K' & A & V). split; [done|]. split; [done|].
    split; [intros j; simpl; by setoid_rewrite V|]. intros db id. unfold level_holds. simpl. by rewrite V.
  - intros db id t K N W. destruct (get_views db id t K W) as (t' & E & (K' & A & V) & B). exists t'. split; [exact E|].
    split; [done|]. split; [done|]. split; [exact B|]. split; [intros j; simpl; by rewrite V|]. intros db' id'. unfold level_holds. by rewrite V.
  - intros db id bs old t K N W. pose proof (put_wrote db id bs old t K W) as P.
    destruct (db_put db id bs old t) as [t' r]. exists t', r. split; [done|]. pose proof P as (K' & A & M). simpl in *.
    split; [done|]. split; [done|]. destruct r as [[]|e]; [|destruct M as [-> M]; split; [intros j; by rewrite M|done]].
    destruct M as [M1 M2]. split; [intros j; by rewrite M2|]. split.
    + unfold level_holds. rewrite M1, (MojMap.map_get_put lexcmp) by by apply records_sorted. by rewrite (comp_refl lexcmp).
    + unfold others. apply (wrote_others _ _ _ _ _ _ P). intros id' W' Ni. rewrite (MojMap.map_get_put lexcmp) by by apply records_sorted.
      by rewrite (proj1 (other_key id id' W W' Ni)).
  - intros db id t K N W. destruct (del_item_wrote db (Encoding.enc id) t K) as (p & E & P & F).
    assert (db_del db id t = p) as ->.
    { unfold db_del. simpl. unfold MojDbLevelDatabase.del. by rewrite ObjectBytes.toBytes_enc by apply W. }
    destruct p as [t' r]. exists t', r. split; [done|]. pose proof P as (K' & A & M). simpl in *. split; [done|]. split; [done|].
    destruct r as [found|e]; [|destruct M as [-> M]; split; [intros j; by rewrite M|done]].
    destruct M as [M1 M2]. split; [intros j; by rewrite M2|]. split; [by apply F|]. split.
    + unfold level_holds. rewrite M1, (MojMap.map_get_del lexcmp) by by apply records_sorted. by rewrite (comp_refl lexcmp).
    + unfold others. apply (wrote_others _ _ _ _ _ _ P). intros id' W' Ni. rewrite (MojMap.map_get_del lexcmp) by by apply records_sorted.
      by rewrite (proj2 (other_key id id' W W' Ni)).
  - intros i sh k t db id K N. apply (index_holds (fun m => MojMap.put lexcmp m k [])); [|done]. by apply (put_item_wrote idb k [] true).
  - intros i sh k t db id K N. simpl. unfold MojDbLevelIndex.del. rewrite on_txn_bind. unfold bind.
    destruct (del_item_wrote idb k t K) as (p & E & P & F). rewrite E. destruct p as [t' [found|e]].
    + rewrite (F found eq_refl). destruct t'. by apply (index_holds _ _ _ _ _ P).
    + by apply (index_holds _ _ _ _ _ P).
Defined.
End level.

(** ** The ids of a kind: [MojDbKindState]

    The state of a kind keeps the ids of its indexes and its own token in a record of
    the id database, by name; a new one is drawn from a sequence.  The table of property
    tokens is in [TokenSet]. *)
Module MojDbKindState.
Import MojDbLevelItem (MojDbLevelItem).

Definition IndexIdsKey := _T "indexIds".
Definition KindTokensKey := _T "kindTokens".
Definition TokensKey := _T "tokens".

Section state.
Context {I T Q : Type} `{!ExtIndex I T} `{!StorageDatabase T} `{!StorageSeq Q}.
(** The kind, and the databases of the kind engine. *)
Context (m_kindId : mstring) (indexIdDb : Z).

(** The value under [key] in the record of the kind, if there is one, and the record. *)
Definition readObj (key : mstring) (db : Z) : st T (MojObject * option MojDbLevelItem) :=
  let! oldItem := db_get db (StringImpl m_kindId) in
  match oldItem with
  | Some item =>
      let! obj := lift (MojDbLevelItem.toObject_raw item) in
      ret (default UndefinedImpl (MojObject.get obj key), oldItem)
  | None => ret (UndefinedImpl, None)
  end.

Definition quotaEnabled (val : bool) : st T unit :=
  modify (fun t => with_txn_base t (MojDbStorageTxn.quotaEnabled (txn_base t) val)).

(** The record with [val] under [key]; it does not count against a quota. *)
Definition writeObj (key : mstring) (val : MojObject) (db : Z) (oldItem : option MojDbLevelItem) : st T (option MojDbLevelItem) :=
  let! obj := lift (match oldItem with Some item => MojDbLevelItem.toObject_raw item | None => Ok UndefinedImpl end) in
  let! buf := lift (ObjectBytes.toBytes (MojObject.put obj key val)) in
  let! _ := quotaEnabled false in
  let! oldItem :=
    match oldItem with
    | Some item =>
        let! _ := db_update db (StringImpl m_kindId) buf (MojDbLevelItem.m_slice item) in ret oldItem
    | None =>
        let! _ := db_insert db (StringImpl m_kindId) buf in db_get db (StringImpl m_kindId)
    end in
  let! _ := quotaEnabled true in
  ret oldItem.

Definition readIds (key : mstring) : st T (MojObject * option MojDbLevelItem) := readObj key indexIdDb.
Definition writeIds (key : mstring) (obj : MojObject) (oldItem : option MojDbLevelItem) : st T unit :=
  let! _ := writeObj key obj indexIdDb oldItem in ret tt.

(** The transaction of the request and the sequence of the engine. *)
Definition on_txn {A} (m : st T A) : st (T * Q) A := fun s => let '(t, r) := m s.1 in ((t, s.2), r).
Definition on_seq {A} (m : st Q A) : st (T * Q) A := fun s => let '(q, r) := m s.2 in ((s.1, q), r).

(** The id a name has, or a new one, and whether it is new. *)
Definition id (name objKey : mstring) : st (T * Q) (MojObject * bool) :=
  let! found := on_txn (readIds objKey) in
  match MojObject.get found.1 name with
  | Some idOut => ret (idOut, false)
  | None =>
      let! id := on_seq seq_get in
      let! _ := on_txn (writeIds objKey (MojObject.put found.1 name (IntImpl id)) found.2) in
      ret (IntImpl id, true)
  end.

Definition indexId (indexName : mstring) : st (T * Q) (MojObject * bool) := id indexName IndexIdsKey.

Definition delIndex (indexName : mstring) : st (T * Q) unit :=
  let! found := on_txn (readIds IndexIdsKey) in
  on_txn (writeIds IndexIdsKey (MojObject.del found.1 indexName).1 found.2).

(** The token of the kind. *)
Definition initKindToken : st (T * Q) Z :=
  let! token := id m_kindId KindTokensKey in ret (MojObject.intValue token.1).
End state.
End MojDbKindState.
