(* ===== verification/IndexExample.v ===== *)
(** * An index at work

    An index on two properties over a LevelDB that is a log, one object and a changed
    version of it: the theorems on indexes at concrete inputs. *)

From S2P Require Import Prelude Containers CoreUtil Number Object ObjectBuilder DataSerialization TokenSet ObjectSerialization Text DbKey Json JsonRoundTrip DbQuery DbQueryRoundTrip QueryPlan QueryPlanSpec QueryPlanSelect OrderedMap LevelDb LevelDbSpec LevelDbTxn LevelDbCursor ObjectItem Effects StorageTxn LevelStore Watcher Extractor ExtractorSpec Index IndexSpec IndexFind LevelIndex.

Module IndexExample.
#[local] Existing Instance QueryPlanSelect.shift_icu.
#[local] Existing Instance QueryPlanSelect.shift_icu_laws.
#[local] Existing Instance LogDB.logdb.
#[local] Existing Instance LogDB.logdb_laws.
#[local] Existing Instance level_index.
#[local] Existing Instance level_laws.

Definition db0 : list BatchOp := [].
Definition str (s : string) := StringImpl (_T s).
Definition prop (s : string) := ObjectImpl [(_T "name", str s)].
Definition index_obj := ObjectImpl [(_T "name", str "byTag"); (_T "props", ArrayImpl [prop "n"; prop "tags"])].
Definition object (n : Z) (tags : list string) :=
  ObjectImpl [(_T "_id", str "a"); (_T "n", IntImpl n); (_T "tags", ArrayImpl (map str tags))].
Definition first := object 1 ["x"; "y"]%string.
Definition second := object 2 ["y"; "z"]%string.

#[local] Instance engine : ExtIndex MojObject LevelTxn := level_index [] 1 (db0 : @DB LogDB.logdb) 100 0.
Abbreviation State := (@MojDbIndex.State QueryPlanSelect.shift_icu MojObject LevelTxn).

Definition opened : res State :=
  let? x := MojDbIndex.fromObject (MojDbIndex.make 900) index_obj [] in
  let '(s, r) := MojDbIndex.open (IntImpl 7) (IntImpl 7) false
    {| MojDbIndex.s_index := x; MojDbIndex.s_txn := {| l_address := 500; l_txn := MojDbLevelEnvTxn.begin |} |} in
  match r with Ok _ => Ok s | Err e => Err e end.

Definition dummy : State :=
  {| MojDbIndex.s_index := MojDbIndex.make 0; MojDbIndex.s_txn := {| l_address := 0; l_txn := MojDbLevelEnvTxn.begin |} |}.
Definition s0 : State := Eval vm_compute in match opened with Ok s => s | Err _ => dummy end.
Definition s1 : State := Eval vm_compute in (MojDbIndex.update (Some first) None false s0).1.

Lemma opened_s0 : opened = Ok s0.
Proof. by vm_compute. Qed.

Lemma update_s1 : MojDbIndex.update (Some first) None false s0 = (s1, Ok tt).
Proof. by vm_compute. Qed.

(** The index of either state. *)
Abbreviation index_of x := (x = MojDbIndex.s_index s0 \/ x = MojDbIndex.s_index s1).

Lemma sound_of x : index_of x -> sound_index x.
Proof.
  intros Hx.
  destruct Hx as [-> | ->]; (split; [split|..];
    [repeat (constructor; [repeat constructor; [done|by exists []]|]); constructor|done|split; [simpl; unfold in_int; lia|done]|by vm_compute|]);
    (eexists; split; [apply list_elem_of_further, list_elem_of_further, list_elem_of_here|done]).
Qed.

Lemma object_indexable x o : index_of x -> o = first \/ o = second -> indexable x o.
Proof.
  intros Hx C. assert (QueryPlanSpec.well o) as W.
  { destruct C as [-> | ->]; (split; [|simpl; tauto]); apply MojObject.ok_object; (split; [repeat constructor|]);
      (repeat constructor; try (by apply QueryRoundTrip.str_okb); simpl; unfold in_int; lia). }
  split; [done|..].
  - intros _. destruct Hx as [-> | ->]; repeat (constructor; [repeat constructor; by apply keyed_plain|]); constructor.
  - exists (str "a"). by destruct C as [-> | ->].
  - intros _. exists 0. by destruct C as [-> | ->].
Qed.

Lemma keyed_one x (objs : MojObject -> Prop) o : index_of x -> o = first \/ o = second ->
  (forall o', objs o' -> o' = o) -> keyed_store x objs.
Proof.
  intros Hx C O. split; [intros o' Ho'; rewrite (O o' Ho'); by apply object_indexable|].
  intros o1 o2 H1 H2 _. by rewrite (O o1 H1), (O o2 H2).
Qed.

Lemma level0 : level_ok 1 (MojDbIndex.s_txn s0).
Proof.
  split; [|split; [constructor|done]]. change (LevelDbTxn.txn_ok MojDbLevelTableTxn.begin). apply LevelDbTxn.txn_begin_ok.
Qed.

Lemma first_indexed k : Encoding.enc (IntImpl 7) `prefix_of` k ->
  in_level 1 (db0 : @DB LogDB.logdb) (MojDbIndex.s_txn s1) k <-> exists o, o = first /\ key_for (MojDbIndex.s_index s1) o k.
Proof.
  intros Hk. destruct (maintained (H2 := level_laws [] 1 (db0 : @DB LogDB.logdb) 100 0) (IntImpl 7) s0 (Some first) None false
    (fun _ => False)) as (s' & r & E & R).
  - apply level0.
  - done.
  - split; constructor.
  - apply sound_of. by left.
  - by apply (keyed_one _ _ first); [left|left|].
  - apply (keyed_one _ _ first); [by left|by left|]. intros o [[= <-]|[[] _]]. done.
  - done.
  - intros j _. split; [|naive_solver]. intros [v Hv]. by apply elem_of_nil in Hv.
  - pose proof (eq_trans (eq_sym E) update_s1) as Q. injection Q as -> ->. destruct R as [_ _ _ _ X _ _].
    etransitivity; [exact (X k Hk)|]. unfold replaced. split.
    + intros (o & [[= <-]|[[] _]] & K). by exists first.
    + intros (o & -> & K). exists first. split; [by left|]. exact K.
Qed.

Lemma level1 : level_ok 1 (MojDbIndex.s_txn s1).
Proof.
  split; [|split; [constructor|done]]. change (table 1 (MojDbIndex.s_txn s1)) with
    {| MojDbLevelTableTxn.m_pendingValues := MojDbLevelTableTxn.m_pendingValues (table 1 (MojDbIndex.s_txn s1));
       MojDbLevelTableTxn.m_pendingDeletes := []; MojDbLevelTableTxn.m_iterators := [] |}.
  split; [split; simpl; [repeat constructor|constructor|]|constructor]. intros e _. apply not_elem_of_nil.
Qed.

Lemma index_maintained_witness : exists s2,
  MojDbIndex.update (Some second) (Some first) false s1 = (s2, Ok tt) /\
  forall k, Encoding.enc (IntImpl 7) `prefix_of` k ->
    in_level 1 (db0 : @DB LogDB.logdb) (MojDbIndex.s_txn s2) k <->
    exists o, replaced (fun o => o = first) (Some second) (Some first) o /\ key_for (MojDbIndex.s_index s1) o k.
Proof.
  destruct (index_maintained [] 1 (db0 : @DB LogDB.logdb) 100 0 (IntImpl 7) s1 (Some second) (Some first) false
    (fun o => o = first)) as (s2 & r & E & R).
  - exact level1.
  - reflexivity.
  - split; [repeat constructor|]. repeat constructor.
  - apply sound_of. by right.
  - by apply (keyed_one _ _ first); [right|left|].
  - apply (keyed_one _ _ second); [by right|by right|]. intros o [[= <-]|[-> N]]; [reflexivity|by destruct N].
  - by intros o [= <-].
  - exact first_indexed.
  - exists s2. assert (r = Ok tt) as ->.
    { refine (eq_trans (eq_sym (f_equal Datatypes.snd E)) _). by vm_compute. }
    split; [exact E|]. exact (proj1 R).
Defined.

(** n = 2 and tags > "x". *)
Definition query : MojDbQuery.MojDbQuery :=
  MojDbQuery.with_where MojDbQuery.make
    [(_T "tags", QueryRoundTrip.new_clause MojDbQuery.OpGreaterThan (str "x") MojDbCollationInvalid);
     (_T "n", QueryRoundTrip.new_clause MojDbQuery.OpEq (IntImpl 1) MojDbCollationInvalid)] [].

Lemma find_exact_witness : exists p, MojDbQueryPlan.init query (MojDbIndex.plan_index (MojDbIndex.s_index s1)) = Ok p /\
  ((exists k, in_level 1 (db0 : @DB LogDB.logdb) (MojDbIndex.s_txn s1) k /\
      QueryPlanSpec.in_ranges (MojDbQueryPlan.m_ranges p) k /\ key_for (MojDbIndex.s_index s1) first k) <->
   IndexFind.visible (MojDbIndex.s_index s1) first /\
   IndexFind.satisfied (MojDbIndex.s_index s1) (IndexFind.live_query (MojDbIndex.s_index s1) (MojDbQuery.m_whereClauses query)) first).
Proof.
  destruct (find_exact (T := MojObject) 1 (db0 : @DB LogDB.logdb) (MojDbIndex.s_index s1) query (MojDbIndex.s_txn s1) (fun o => o = first))
    as (p & E & M).
  - split; [apply sound_of; by right|done|..].
    + apply (bool_decide_unpack _). by vm_compute.
    + repeat (constructor; [by apply QueryRoundTrip.str_okb|]). constructor.
    + done.
  - split; [apply (bool_decide_unpack _); by vm_compute|]. repeat constructor; try (by apply QueryRoundTrip.str_okb); try done; simpl; unfold in_int; lia || set_solver.
  - by vm_compute.
  - intros name c [[= -> ->]|[[= -> ->]|[]%elem_of_nil]%elem_of_cons]%elem_of_cons; by eexists.
  - done.
  - exact first_indexed.
  - exists p. split; [exact E|]. by apply M.
Defined.
End IndexExample.
