(* ===== verification/IndexWatch.v ===== *)
(** * Watches and commits

    What [MojDbIndex::committed] does to the watchers of an index: each is fired at
    most once, with the first pending key in one of its ranges ([committed_ok]); a
    watch of an ascending query is told of every change of its page and of nothing
    else ([watch_told]), when transactions commit one after the other.  A descending
    watch may miss one ([descending_missed]), and with several transactions at work
    a watch may be told too early ([uncommitted_told]). *)

From S2P Require Import Prelude Containers CoreUtil Number Object ObjectBuilder DataSerialization TokenSet ObjectSerialization Text DbKey Json JsonRoundTrip DbQuery QueryPlan ObjectItem Effects StorageTxn Watcher Extractor Index OrderedMap IsamQuery IsamQuerySpec QueryPlanSpec QueryPlanSelect.

Import IsamQuerySpec (ordered, starts, ends, contains_starts_ends).
Import QueryPlanSpec (in_ranges).
Import MojDbWatcher (MojDbWatcher, m_state, m_index, m_desc, m_limitKey, m_fireKey, within, StateInvalid, StatePending, StateActive).
Import MojDbIndex (World, watcher, set_watcher, w_index, w_watchers, w_fired, m_watcherVec, m_pendingKeys, first_match).

#[local] Existing Instance MojDbWatcher.State_eq_dec.

Section watches.
Context `{ICU} {I : Type}.
Abbreviation World := (@World _ I).

(** A watcher that waits: known, registered with an index, not yet told. *)
Definition waiting (w : World) (a : Z) : Prop :=
  a ∈ map fst (w_watchers w) /\ m_state (watcher a w) <> StateInvalid /\ exists x, m_index (watcher a w) = Some x.

Record world_ok (w : World) : Prop := {
  ok_nodup : NoDup (m_watcherVec (w_index w));
  ok_waiting : forall a, a ∈ m_watcherVec (w_index w) -> waiting w a
}.

(** ** The heap of watchers *)
Lemma watcher_set a b v (w : World) : a ∈ map fst (w_watchers w) ->
  watcher b (set_watcher a w v) = if decide (a = b) then v else watcher b w.
Proof.
  unfold watcher, set_watcher. simpl. intros Hin. induction (w_watchers w) as [|[c u] l IH]; simpl in *; [set_solver|].
  destruct (Z.eqb_spec c a) as [->|N]; simpl.
  - destruct (Z.eqb_spec a b) as [->|Nb].
    + by rewrite decide_True.
    + rewrite decide_False by done. destruct (decide (a ∈ map fst l)) as [Hl|Hl].
      * rewrite decide_False in IH by done. by apply IH.
      * clear IH Hin. induction l as [|[d u'] l IH]; [done|]. simpl in *. destruct (Z.eqb_spec d a) as [->|Nd]; [set_solver|].
        simpl. destruct (Z.eqb_spec d b); [done|]. apply IH. set_solver.
  - assert (a ∈ map fst l) as Hl by set_solver. destruct (Z.eqb_spec c b) as [->|Nb].
    + by rewrite decide_False.
    + by apply IH.
Qed.

Lemma set_keys a v (w : World) : map fst (w_watchers (set_watcher a w v)) = map fst (w_watchers w).
Proof.
  unfold set_watcher. simpl. rewrite map_map. apply map_ext. intros [c u]. simpl. destruct (Z.eqb_spec c a) as [->|]; done.
Qed.

Lemma watcher_same b (w w' : World) : w_watchers w = w_watchers w' -> watcher b w = watcher b w'.
Proof. unfold watcher. by intros ->. Qed.

Lemma erase_first_in a l : a ∈ l -> NoDup l -> exists l', MojDbIndex.erase_first a l = Some l' /\ NoDup l' /\ forall b, b ∈ l' <-> b ∈ l /\ b <> a.
Proof.
  induction l as [|c l IH]; [set_solver|]. intros Hin [Nc D]%NoDup_cons. simpl. destruct (Z.eqb_spec c a) as [->|N].
  - exists l. split; [done|]. split; [done|]. set_solver.
  - destruct IH as (l' & -> & D' & M); [set_solver|done|]. exists (c :: l'). split; [done|].
    split; [constructor; [|done]; rewrite M; tauto|]. set_solver.
Qed.

(** ** One fire *)
Definition tells (v : MojDbWatcher) (k : MojDbKey) : bool :=
  bool_decide (m_state v = StateActive) && within (m_desc v) k (m_limitKey v).

(** The least key a pending watcher was fired with, the greatest for a descending
    query. *)
Definition noted (v : MojDbWatcher) (k : MojDbKey) : MojDbWatcher :=
  if bool_decide (m_state v = StatePending) && within (m_desc v) k (m_limitKey v) &&
     ((m_desc v && negb (MojDbKey.le k (m_fireKey v))) ||
      (negb (m_desc v) && (MojDbKey.empty (m_fireKey v) || MojDbKey.lt k (m_fireKey v))))
  then MojDbWatcher.with_keys v (m_limitKey v) k else v.

(** What a call did: told the watchers of [l] and took them off the index, and left
    the others as [f] says. *)
Record after_call (w w' : World) (l : list Z) (f : Z -> MojDbWatcher) : Prop := {
  after_ok : world_ok w';
  after_fired : w_fired w' = w_fired w ++ l;
  after_vec : forall b, b ∈ m_watcherVec (w_index w') <-> b ∈ m_watcherVec (w_index w) /\ b ∉ l;
  after_state : forall b, b ∈ m_watcherVec (w_index w') -> watcher b w' = f b;
  after_pending : m_pendingKeys (w_index w') = m_pendingKeys (w_index w)
}.

Lemma cancelWatch_ok a (w : World) : a ∈ m_watcherVec (w_index w) -> NoDup (m_watcherVec (w_index w)) ->
  exists w', MojDbIndex.cancelWatch a w = (w', Ok tt) /\ w_watchers w' = w_watchers w /\ w_fired w' = w_fired w /\
    NoDup (m_watcherVec (w_index w')) /\ (forall b, b ∈ m_watcherVec (w_index w') <-> b ∈ m_watcherVec (w_index w) /\ b <> a) /\
    m_pendingKeys (w_index w') = m_pendingKeys (w_index w).
Proof.
  intros Hin D. destruct (erase_first_in a _ Hin D) as (l' & E & D' & M). unfold MojDbIndex.cancelWatch, bind, get.
  cbn [fst snd]. rewrite E. eexists. split; [reflexivity|]. simpl. repeat (split; [done|]). done.
Qed.

Lemma fireImpl_ok a (w : World) : world_ok w -> a ∈ m_watcherVec (w_index w) ->
  exists w', MojDbWatcher.fireImpl (watcher a) (set_watcher a) (fun _ => MojDbIndex.cancelWatch a) (MojDbIndex.signal a) id w = (w', Ok tt) /\
    after_call w w' [a] (fun b => watcher b w).
Proof.
  intros [D Wt] Hin. destruct (Wt a Hin) as (Hk & Hs & x & Hx).
  unfold MojDbWatcher.fireImpl, MojDbWatcher.invalidate, MojDbWatcher.update_this, bind, get, modify, attempt. cbn [fst snd]. rewrite Hx.
  set (w1 := set_watcher a w (MojDbWatcher.with_state (watcher a w) StateInvalid None)).
  destruct (cancelWatch_ok a w1 Hin D) as (w2 & E & Ew & Ef & D2 & M & P). cbn beta iota. fold w1. rewrite E.
  eexists. split; [reflexivity|]. cbn [MojDbIndex.signal modify].
  assert (forall b (w' : World), w_watchers w' = w_watchers w2 -> b <> a -> watcher b w' = watcher b w) as Same.
  { intros b w' E' N. rewrite (watcher_same b w' w1) by (by rewrite E'). unfold w1. rewrite watcher_set by done.
    by rewrite decide_False. }
  split.
  - split; [done|]. intros b [Hb N]%M. destruct (Wt b Hb) as (K & S & X). unfold waiting. rewrite Same by done.
    split; [|done]. cbn [w_watchers id]. rewrite Ew. unfold w1. by rewrite set_keys.
  - simpl. unfold id. by rewrite Ef.
  - intros b. simpl. rewrite M. set_solver.
  - intros b [_ N]%M. by apply Same.
  - done.
Qed.

Lemma fire_ok a k (w : World) : world_ok w -> a ∈ m_watcherVec (w_index w) ->
  exists w', MojDbIndex.fire a k w = (w', Ok tt) /\
    after_call w w' (if tells (watcher a w) k then [a] else [])
      (fun b => if decide (b = a) then noted (watcher a w) k else watcher b w).
Proof.
  intros Ok Hin. destruct (ok_waiting w Ok a Hin) as (Hk & Hs & x & Hx).
  assert (after_call w w [] (fun b => watcher b w)) as Id.
  { split; [done|by rewrite app_nil_r| |done|done]. set_solver. }
  unfold MojDbIndex.fire, MojDbWatcher.fire, tells, noted, bind, get. cbn [fst snd].
  set (v := watcher a w) in *. destruct (within (m_desc v) k (m_limitKey v)) eqn:Wi; cbn [negb].
  - destruct (m_state v) eqn:St; [done| |].
    + rewrite (bool_decide_false (StatePending = StateActive)), (bool_decide_true (StatePending = StatePending)) by done. cbn [andb].
      destruct (_ || _) eqn:Sv.
      * unfold MojDbWatcher.update_this, modify. eexists. split; [reflexivity|]. fold v.
        set (v' := MojDbWatcher.with_keys v (m_limitKey v) k). split; simpl; [|by rewrite app_nil_r|set_solver| |done].
        -- split; simpl; [apply Ok|]. intros b Hb. destruct (ok_waiting w Ok b Hb) as (K & S & X). unfold waiting.
           rewrite set_keys, watcher_set by done. split; [done|]. destruct (decide (a = b)) as [<-|]; [|done].
           split; [by unfold v'; simpl; rewrite St|by exists x].
        -- intros b Hb. rewrite watcher_set by done. destruct (decide (a = b)) as [<-|N]; [by rewrite decide_True|by rewrite decide_False by congruence].
      * exists w. split; [done|]. destruct Id as [I1 I2 I3 I4 I5]. split; try done. intros b Hb. by destruct (decide (b = a)) as [->|].
    + rewrite (bool_decide_true (StateActive = StateActive)) by done. cbn [andb].
      destruct (fireImpl_ok a w Ok Hin) as (w' & E & A). exists w'. split; [exact E|]. destruct A as [A1 A2 A3 A4 A5]. split; try done.
      intros b Hb. rewrite decide_False; [by apply A4|]. intros ->. apply A3 in Hb. set_solver.
  - rewrite !andb_false_r. cbn [andb]. exists w. split; [done|]. destruct Id as [I1 I2 I3 I4 I5]. split; try done.
    intros b Hb. by destruct (decide (b = a)) as [->|].
Qed.

(** ** All of them *)
Definition told_of (w : World) (l : list (Z * MojDbKey)) : list Z :=
  map fst (List.filter (fun t => tells (watcher t.1 w) t.2) l).

Definition noted_of (w : World) (l : list (Z * MojDbKey)) (b : Z) : MojDbWatcher :=
  match List.find (fun t => t.1 =? b) l with Some t => noted (watcher b w) t.2 | None => watcher b w end.

Lemma find_fst_none {A} (l : list (Z * A)) b : b ∉ map fst l -> List.find (fun t => t.1 =? b) l = None.
Proof.
  induction l as [|[c v] l IH]; [done|]. simpl. intros N. destruct (Z.eqb_spec c b); [set_solver|]. apply IH. set_solver.
Qed.

Lemma fire_all_ok l : forall w, NoDup (map fst l) -> world_ok w -> (forall t, t ∈ l -> t.1 ∈ m_watcherVec (w_index w)) ->
  exists w', MojDbIndex.fire_all l w = (w', Ok tt) /\ after_call w w' (told_of w l) (noted_of w l).
Proof.
  induction l as [|[a k] l IH]; intros w D Ok Hin.
  - exists w. split; [done|]. split; [done|by rewrite app_nil_r|set_solver|done|done].
  - simpl in D. apply NoDup_cons in D as [Na D]. assert (a ∈ m_watcherVec (w_index w)) as Ha by (apply (Hin (a, k)), list_elem_of_here).
    destruct (fire_ok a k w Ok Ha) as (w1 & E1 & [O1 F1 V1 S1 P1]).
    assert (forall t, t ∈ l -> t.1 <> a /\ t.1 ∈ m_watcherVec (w_index w1)) as Hin1.
    { intros t Ht. assert (t.1 <> a) as N by (intros <-; apply Na, list_elem_of_fmap; by exists t).
      split; [done|]. apply V1. split; [apply Hin; by apply list_elem_of_further|]. destruct (tells _ _); set_solver. }
    assert (forall t, t ∈ l -> watcher t.1 w1 = watcher t.1 w) as Same.
    { intros t Ht. destruct (Hin1 t Ht) as [N Hv]. rewrite (S1 _ Hv). by rewrite decide_False. }
    destruct (IH w1 D O1) as (w2 & E2 & [O2 F2 V2 S2 P2]); [intros t Ht; by apply Hin1|].
    exists w2. split; [cbn [MojDbIndex.fire_all]; unfold bind; cbn [fst snd]; by rewrite E1|].
    assert (told_of w1 l = told_of w l) as T.
    { unfold told_of. f_equal. clear -Same. induction l as [|t l IH]; [done|]. simpl.
      rewrite (Same t) by apply list_elem_of_here. rewrite IH; [done|]. intros. apply Same. by apply list_elem_of_further. }
    assert (told_of w ((a, k) :: l) = (if tells (watcher a w) k then [a] else []) ++ told_of w l) as T2.
    { unfold told_of. simpl. by destruct (tells _ _). }
    split; [done|by rewrite F2, F1, T, T2, app_assoc| | |congruence].
    + intros b. rewrite V2, V1, T, T2, not_elem_of_app. tauto.
    + intros b Hb. rewrite (S2 b Hb). apply V2 in Hb as [Hb _]. unfold noted_of. simpl.
      destruct (Z.eqb_spec a b) as [<-|N].
      * rewrite find_fst_none by done. rewrite (S1 a Hb). by rewrite decide_True.
      * destruct (List.find _ l) as [t|] eqn:Ft.
        -- rewrite (S1 b Hb). by rewrite decide_False by congruence.
        -- rewrite (S1 b Hb). by rewrite decide_False by congruence.
Qed.

Lemma omap_pointwise {A B} (f g : A -> option B) (l : list A) : (forall a, f a = g a) -> omap f l = omap g l.
Proof. intros E. induction l as [|a l IH]; [done|]. cbn [omap list_omap]. by rewrite E, IH. Qed.

(** What the commit has for a watcher. *)
Definition trigger (w : World) (a : Z) : option MojDbKey :=
  first_match (MojDbWatcher.m_ranges (watcher a w)) (m_pendingKeys (w_index w)).

Lemma triggers_find w b : b ∈ m_watcherVec (w_index w) ->
  List.find (fun t => t.1 =? b) (MojDbIndex.triggers w) = match trigger w b with Some k => Some (b, k) | None => None end.
Proof.
  unfold MojDbIndex.triggers. rewrite <-(omap_pointwise (fun a => option_map (pair a) (trigger w a))).
  2: { intros a. unfold trigger. by destruct (first_match _ _). }
  induction (m_watcherVec (w_index w)) as [|a l IH]; [set_solver|]. intros Hb. cbn [omap list_omap].
  destruct (trigger w a) as [k|] eqn:T; cbn [option_map].
  - cbn [List.find fst]. destruct (Z.eqb_spec a b) as [->|N]; [by rewrite T|]. apply IH. set_solver.
  - destruct (decide (a = b)) as [->|N].
    + rewrite T. clear -T. induction l as [|c l IH]; [done|]. cbn [omap list_omap]. destruct (trigger w c) eqn:Tc; cbn [option_map]; [|done].
      cbn [List.find fst]. destruct (Z.eqb_spec c b) as [->|]; [congruence|done].
    + apply IH. set_solver.
Qed.

Lemma triggers_spec (w : World) t : t ∈ MojDbIndex.triggers w <-> t.1 ∈ m_watcherVec (w_index w) /\ trigger w t.1 = Some t.2.
Proof.
  unfold MojDbIndex.triggers. rewrite list_elem_of_omap. split.
  - intros (a & Ha & E). fold (trigger w a) in E. destruct (trigger w a) eqn:T; [|done]. by injection E as <-.
  - intros [Ha E]. exists t.1. split; [done|]. fold (trigger w t.1). rewrite E. by destruct t.
Qed.

Lemma triggers_nodup (w : World) : NoDup (m_watcherVec (w_index w)) -> NoDup (map fst (MojDbIndex.triggers w)).
Proof.
  unfold MojDbIndex.triggers. induction (m_watcherVec (w_index w)) as [|a l IH]; [constructor|]. intros [N D]%NoDup_cons.
  cbn [omap list_omap]. destruct (first_match _ _); [|by apply IH]. cbn [map fst]. constructor; [|by apply IH].
  rewrite list_elem_of_fmap. intros ([b k] & -> & (c & Hc & E)%list_elem_of_omap). destruct (first_match _ _); [|done].
  by injection E as <- <-.
Qed.

(** Who is told by a commit, and what is left of the others. *)
Definition told_by (w : World) (a : Z) : Prop :=
  a ∈ m_watcherVec (w_index w) /\ exists k, trigger w a = Some k /\ tells (watcher a w) k = true.
Definition noted_by (w : World) (a : Z) : MojDbWatcher :=
  match trigger w a with Some k => noted (watcher a w) k | None => watcher a w end.

Lemma committed_ok (w : World) : world_ok w -> exists w' l, MojDbIndex.committed w = (w', Ok tt) /\ NoDup l /\
  (forall a, a ∈ l <-> told_by w a) /\ after_call w w' l (noted_by w).
Proof.
  intros Ok. pose proof (triggers_nodup w (ok_nodup w Ok)) as D.
  destruct (fire_all_ok (MojDbIndex.triggers w) w D Ok) as (w' & E & A); [by intros t [Hv _]%triggers_spec|].
  exists w', (told_of w (MojDbIndex.triggers w)). split; [exact E|]. split; [|split].
  - unfold told_of. revert D. generalize (MojDbIndex.triggers w). intros l. induction l as [|t l IH]; [constructor|].
    intros [N D]%NoDup_cons. simpl. destruct (tells _ _); [|by apply IH]. constructor; [|by apply IH].
    intros (t' & E' & [Hin _]%list_elem_of_In%filter_In)%list_elem_of_fmap. apply N. rewrite E'.
    apply list_elem_of_fmap. exists t'. split; [done|]. by apply list_elem_of_In.
  - intros a. unfold told_of, told_by. rewrite list_elem_of_fmap. split.
    + intros (t & -> & [Hin%list_elem_of_In Ht]%list_elem_of_In%filter_In). apply triggers_spec in Hin as [Hv T].
      split; [done|]. by exists t.2.
    + intros (Hv & k & T & Ht). exists (a, k). split; [done|]. apply list_elem_of_In, filter_In. split; [|done].
      apply list_elem_of_In, triggers_spec. done.
  - destruct A as [A1 A2 A3 A4 A5]. split; try done. intros b Hb. rewrite (A4 b Hb). apply A3 in Hb as [Hb _].
    unfold noted_of, noted_by. rewrite triggers_find by done. by destruct (trigger w b).
Qed.

(** ** The first change in a page is the least *)
Lemma head_filter (f : MojDbKey -> bool) ks : match head (List.filter f ks) with
  | Some k0 => k0 ∈ ks /\ f k0 = true /\ (StronglySorted (fun k k' => lexcmp k k' < 0) ks -> forall k, k ∈ ks -> f k = true -> lexcmp k0 k <= 0)
  | None => forall k, k ∈ ks -> f k = false
  end.
Proof.
  induction ks as [|x ks IH]; simpl; [set_solver|]. destruct (f x) eqn:F; simpl.
  - split; [apply list_elem_of_here|]. split; [done|]. intros [_ S]%StronglySorted_inv k [->|Hk]%elem_of_cons _; [rewrite (comp_refl lexcmp); lia|].
    rewrite Forall_forall in S. specialize (S k Hk). lia.
  - destruct (head (List.filter f ks)) as [k0|].
    + destruct IH as (I1 & I2 & I3). split; [by apply list_elem_of_further|]. split; [done|].
      intros [S _]%StronglySorted_inv k [->|Hk]%elem_of_cons Fk; [congruence|by apply I3].
    + intros k [->|Hk]%elem_of_cons; [done|by apply IH].
Qed.

Lemma match_min rs (txn : Z) ks : ordered false rs -> StronglySorted (fun k k' => lexcmp k k' < 0) ks ->
  match first_match rs [(txn, ks)] with
  | Some k0 => k0 ∈ ks /\ in_ranges rs k0 /\ forall k, k ∈ ks -> in_ranges rs k -> lexcmp k0 k <= 0
  | None => forall k, k ∈ ks -> ~ in_ranges rs k
  end.
Proof.
  intros O S. unfold first_match. induction O as [|r rs O IH F]; simpl.
  - intros k _ (r & Hr & _). set_solver.
  - rewrite app_nil_r. pose proof (head_filter (MojDbKeyRange.contains r) ks) as Hd.
    destruct (List.filter (MojDbKeyRange.contains r) ks) as [|k0 ks'] eqn:Ef; simpl in *.
    + destruct (head _) as [k0|].
      * destruct IH as (I1 & (r' & Hr' & C') & I3). split; [done|]. split; [exists r'; split; [by apply list_elem_of_further|done]|].
        intros k Hk (r2 & [->|Hr2]%elem_of_cons & C); [by rewrite Hd in C|]. apply I3; [done|by exists r2].
      * intros k Hk (r2 & [->|Hr2]%elem_of_cons & C); [by rewrite Hd in C|]. apply (IH k Hk). by exists r2.
    + destruct Hd as (I1 & I2 & I3). split; [done|]. split; [exists r; split; [apply list_elem_of_here|done]|].
      intros k Hk (r2 & Hr2 & C). destruct (Z_lt_le_dec (lexcmp k k0) 0) as [L|L].
      * apply I3; [done|done|]. rewrite (contains_starts_ends false) in C, I2 |- *.
        apply andb_true_iff in C as [C1 C2], I2 as [S0 E0]. apply andb_true_iff. split.
        -- apply elem_of_cons in Hr2 as [->|Hr2]; [done|]. rewrite Forall_forall in F. by apply (F r2 Hr2).
        -- unfold ends in *. rewrite orb_true_iff, Z.ltb_lt in *. destruct E0 as [E0|E0]; [by left|right].
           by apply (comp_lt_le_trans lexcmp k k0); [|lia].
      * pose proof (comp_anti lexcmp k k0). lia.
Qed.

Lemma within_asc k limit : within false k limit = true <-> limit = [] \/ lexcmp k limit <= 0.
Proof.
  unfold within, MojDbKey.le, MojDbKey.compare. simpl. rewrite orb_false_r, orb_true_iff, Z.leb_le.
  assert (MojDbKey.empty limit = true <-> limit = []) as -> by (by destruct limit). done.
Qed.

(** ** Commits and a watch *)
Definition pend (txn : Z) (ks : KeySet) (w : World) : World :=
  MojDbIndex.set_w_index w (MojDbIndex.with_pending (w_index w) (MojMap.put MojComp (m_pendingKeys (w_index w)) txn ks)).

(** A transaction that changed the keys [ks] of the index commits and is gone. *)
Definition change (c : Z * KeySet) : st World unit :=
  let! _ := modify (pend c.1 c.2) in
  let! _ := MojDbIndex.committed in
  MojDbIndex.destroy c.1.

Fixpoint changes (l : list (Z * KeySet)) : st World unit :=
  match l with [] => ret tt | c :: l' => let! _ := change c in changes l' end.

Definition told (a : Z) (w : World) : nat := count_occ Z.eq_dec (w_fired w) a.

Lemma told_app a w w' l : w_fired w' = w_fired w ++ l -> NoDup l -> told a w' = (told a w + if decide (a ∈ l) then 1 else 0)%nat.
Proof.
  unfold told. intros -> D. rewrite count_occ_app. f_equal. destruct (decide (a ∈ l)) as [Hin|N].
  - apply NoDup_count_occ'; [by apply NoDup_ListNoDup|by apply list_elem_of_In].
  - apply count_occ_not_In. by rewrite <- list_elem_of_In.
Qed.

Record quiet (w : World) : Prop := { quiet_ok : world_ok w; quiet_pending : m_pendingKeys (w_index w) = [] }.

Lemma change_ok c a w : quiet w -> exists w', change c w = (w', Ok tt) /\ quiet w' /\
  ((told_by (pend c.1 c.2 w) a /\ told a w' = S (told a w) /\ a ∉ m_watcherVec (w_index w')) \/
   (~ told_by (pend c.1 c.2 w) a /\ told a w' = told a w /\ (a ∈ m_watcherVec (w_index w') <-> a ∈ m_watcherVec (w_index w)) /\
    (a ∈ m_watcherVec (w_index w) -> watcher a w' = noted_by (pend c.1 c.2 w) a))).
Proof.
  intros [Ok P]. assert (world_ok (pend c.1 c.2 w)) as Ok1 by (destruct Ok; by split).
  destruct (committed_ok _ Ok1) as (w1 & l & E & D & L & [A1 A2 A3 A4 A5]).
  unfold change, bind, modify. rewrite E. eexists. split; [reflexivity|]. split; [split; [destruct A1; by split|]|].
  - simpl. rewrite A5. simpl. rewrite P. unfold MojMap.put, MojMap.del, MojRbTreeBase.put, MojRbTreeBase.del. simpl.
    unfold MojComp. destruct (decide (c.1 = c.1)); [|done]. by rewrite !Z.ltb_irrefl.
  - pose proof (told_app a (pend c.1 c.2 w) w1 l A2 D) as T. rewrite <- L. specialize (A3 a). specialize (A4 a).
    unfold told in *. simpl in *. destruct (decide (a ∈ l)) as [Hin|N].
    + left. split; [done|]. split; [lia|]. tauto.
    + right. split; [done|]. split; [lia|]. split; [tauto|]. intros Hv. apply A4. tauto.
Qed.

(** ** The life of a watch *)
Section watch.
Context (rs : list MojDbKeyRange.MojDbKeyRange) (Ors : ordered false rs) (a : Z).

(** A key that has changed in the ranges. *)
Definition changed (l : list (Z * KeySet)) (k : MojDbKey) : Prop := exists c, c ∈ l /\ k ∈ c.2 /\ in_ranges rs k.

Definition keys_ok (l : list (Z * KeySet)) : Prop :=
  Forall (fun c => StronglySorted (fun k k' => lexcmp k k' < 0) c.2 /\ [] ∉ c.2) l.

(** The least of the changes so far. *)
Definition least (l : list (Z * KeySet)) (f : MojDbKey) : Prop :=
  if decide (f = []) then forall k, ~ changed l k else changed l f /\ forall k, changed l k -> lexcmp f k <= 0.

Record watching (v : MojDbWatcher) : Prop := {
  w_ranges : MojDbWatcher.m_ranges v = rs;
  w_asc : m_desc v = false
}.

Record pending_at (w : World) (l : list (Z * KeySet)) : Prop := {
  p_in : a ∈ m_watcherVec (w_index w);
  p_state : m_state (watcher a w) = StatePending;
  p_watching : watching (watcher a w);
  p_limit : m_limitKey (watcher a w) = [];
  p_least : least l (m_fireKey (watcher a w))
}.

Record active_at (w : World) (limit : MojDbKey) : Prop := {
  a_in : a ∈ m_watcherVec (w_index w);
  a_state : m_state (watcher a w) = StateActive;
  a_watching : watching (watcher a w);
  a_limit : m_limitKey (watcher a w) = limit
}.

(** The page that a limit ends has changed. *)
Definition page_changed (l : list (Z * KeySet)) (limit : MojDbKey) : Prop :=
  exists k, changed l k /\ (limit = [] \/ lexcmp k limit <= 0).

Lemma changed_one c k : changed [c] k <-> k ∈ c.2 /\ in_ranges rs k.
Proof. unfold changed. setoid_rewrite list_elem_of_singleton. naive_solver. Qed.
Lemma changed_app l1 l2 k : changed (l1 ++ l2) k <-> changed l1 k \/ changed l2 k.
Proof. unfold changed. setoid_rewrite elem_of_app. naive_solver. Qed.

Lemma trigger_spec c w : m_pendingKeys (w_index w) = [] -> MojDbWatcher.m_ranges (watcher a w) = rs -> keys_ok [c] ->
  match trigger (pend c.1 c.2 w) a with
  | Some k0 => k0 <> [] /\ changed [c] k0 /\ forall k, changed [c] k -> lexcmp k0 k <= 0
  | None => forall k, ~ changed [c] k
  end.
Proof.
  intros P R [[S N] _]%Forall_cons. unfold trigger. simpl. rewrite P. rewrite (watcher_same a _ w) by done. rewrite R.
  pose proof (match_min rs c.1 c.2 Ors S) as M.
  change (MojMap.put MojComp [] c.1 c.2) with [(c.1, c.2)]. destruct (first_match rs [(c.1, c.2)]) as [k0|]; setoid_rewrite changed_one.
  - destruct M as (M1 & M2 & M3). split; [by intros ->|]. naive_solver.
  - naive_solver.
Qed.

(** A pending watch remembers the least change. *)
Lemma change_pending c l w : quiet w -> keys_ok [c] -> pending_at w l ->
  exists w', change c w = (w', Ok tt) /\ quiet w' /\ pending_at w' (l ++ [c]) /\ told a w' = told a w.
Proof.
  intros Q K [Hin St Wt Li Le]. destruct (change_ok c a w Q) as (w' & E & Q' & C). exists w'. split; [done|]. split; [done|].
  assert (watcher a (pend c.1 c.2 w) = watcher a w) as Sw by done.
  pose proof (trigger_spec c w (quiet_pending w Q) (w_ranges _ Wt) K) as T. destruct C as [(B & _)|(_ & Td & V & Nb)].
  { destruct B as (_ & k & _ & Ht). unfold tells in Ht. rewrite Sw, St in Ht. done. }
  split; [|done]. specialize (Nb Hin). unfold noted_by in Nb. rewrite Sw in Nb.
  assert (watcher a w' = watcher a w /\ least (l ++ [c]) (m_fireKey (watcher a w)) \/
          exists k, watcher a w' = MojDbWatcher.with_keys (watcher a w) [] k /\ least (l ++ [c]) k) as G.
  { destruct (trigger (pend c.1 c.2 w) a) as [k0|].
    - destruct T as (Nk & Ck & Lk). unfold noted in Nb. rewrite St, (w_asc _ Wt), Li in Nb. simpl in Nb.
      unfold least in *. destruct (decide (m_fireKey (watcher a w) = [])) as [Fe|Fe].
      + right. exists k0. rewrite Fe in Nb. split; [exact Nb|]. rewrite decide_False by done.
        setoid_rewrite changed_app. split; [by right|]. intros k [Hk|Hk]; [by apply Le in Hk|by apply Lk].
      + assert (MojDbKey.empty (m_fireKey (watcher a w)) = false) as Em by (by destruct (m_fireKey (watcher a w))).
        rewrite Em in Nb. simpl in Nb. unfold MojDbKey.lt, MojDbKey.compare in Nb. destruct (Z.ltb_spec (lexcmp k0 (m_fireKey (watcher a w))) 0) as [Lt|Ge].
        * right. exists k0. split; [exact Nb|]. rewrite decide_False by done. setoid_rewrite changed_app. split; [by right|].
          intros k [Hk|Hk]; [|by apply Lk]. destruct Le as [_ Le]. specialize (Le k Hk).
          pose proof (comp_lt_le_trans lexcmp k0 (m_fireKey (watcher a w)) k Lt Le). lia.
        * left. split; [exact Nb|]. setoid_rewrite changed_app. split; [left; apply Le|].
          intros k [Hk|Hk]; [by apply Le|]. specialize (Lk k Hk). pose proof (comp_anti lexcmp k0 (m_fireKey (watcher a w))).
          apply (comp_trans lexcmp _ k0 _); lia.
    - left. split; [exact Nb|]. unfold least in *. destruct (decide _); setoid_rewrite changed_app.
      + intros k [Hk|Hk]; [by apply Le in Hk|by apply T in Hk].
      + split; [left; apply Le|]. intros k [Hk|Hk]; [by apply Le|by apply T in Hk]. }
  destruct Wt as [W1 W2]. destruct G as [[Ew G]|(k & Ew & G)]; (split; rewrite ?Ew; [by apply V|done|by split|done|done]).
Qed.

(** An active one is told of the first change of its page. *)
Lemma change_active c limit w : quiet w -> keys_ok [c] -> active_at w limit ->
  exists w', change c w = (w', Ok tt) /\ quiet w' /\
    ((page_changed [c] limit /\ told a w' = S (told a w) /\ a ∉ m_watcherVec (w_index w')) \/
     (~ page_changed [c] limit /\ told a w' = told a w /\ active_at w' limit)).
Proof.
  intros Q K [Hin St Wt Li]. destruct (change_ok c a w Q) as (w' & E & Q' & C). exists w'. split; [done|]. split; [done|].
  assert (watcher a (pend c.1 c.2 w) = watcher a w) as Sw by done.
  pose proof (trigger_spec c w (quiet_pending w Q) (w_ranges _ Wt) K) as T.
  assert (forall k, tells (watcher a w) k = true <-> limit = [] \/ lexcmp k limit <= 0) as Tl.
  { intros k. unfold tells. rewrite St, (w_asc _ Wt), Li. apply within_asc. }
  destruct C as [(B & Td & V)|(B & Td & V & Nb)].
  - left. split; [|done]. destruct B as (_ & k & Tk & Ht). rewrite Tk in T. rewrite Sw in Ht. exists k. split; [apply T|by apply Tl].
  - right. split; [|split; [done|]].
    + intros (k & Ck & Lk). destruct (trigger (pend c.1 c.2 w) a) as [k0|] eqn:Tk; [|by apply T in Ck]. apply B.
      split; [done|]. exists k0. split; [done|]. rewrite Sw. apply Tl. destruct Lk as [|Lk]; [by left|right].
      destruct T as (_ & _ & Lk0). by apply (comp_trans lexcmp k0 k); [apply Lk0|].
    + specialize (Nb Hin). unfold noted_by in Nb. rewrite Sw in Nb. assert (watcher a w' = watcher a w) as Es.
      { rewrite Nb. destruct (trigger _ a); [|done]. unfold noted. by rewrite St. }
      split; rewrite ?Es; try done. by apply V.
Qed.

Lemma change_gone c w : quiet w -> a ∉ m_watcherVec (w_index w) ->
  exists w', change c w = (w', Ok tt) /\ quiet w' /\ told a w' = told a w /\ a ∉ m_watcherVec (w_index w').
Proof.
  intros Q N. destruct (change_ok c a w Q) as (w' & E & Q' & [(B & _)|(_ & T & V & _)]).
  - by destruct B.
  - exists w'. repeat (split; [done|]). by rewrite V.
Qed.

(** ** Activation *)
Lemma page_changed_app l1 l2 limit : page_changed (l1 ++ l2) limit <-> page_changed l1 limit \/ page_changed l2 limit.
Proof. unfold page_changed. setoid_rewrite changed_app. naive_solver. Qed.

Lemma least_page l f limit : least l f -> (f <> [] /\ within false f limit = true) <-> page_changed l limit.
Proof.
  unfold least. rewrite within_asc. destruct (decide (f = [])) as [->|N].
  - intros L. split; [by intros []|]. intros (k & Ck & _). by apply L in Ck.
  - intros [Cf L]. split; [intros [_ W]; by exists f|]. intros (k & Ck & W). split; [done|].
    destruct W as [|W]; [by left|right]. apply (comp_trans lexcmp f k); [by apply L|done].
Qed.

Lemma activate_ok l limit w : quiet w -> pending_at w l ->
  exists w', MojDbIndex.activate a limit w = (w', Ok tt) /\ quiet w' /\
    ((page_changed l limit /\ told a w' = S (told a w) /\ a ∉ m_watcherVec (w_index w')) \/
     (~ page_changed l limit /\ told a w' = told a w /\ active_at w' limit)).
Proof.
  intros [Ok P] [Hin St Wt Li Le]. destruct (ok_waiting w Ok a Hin) as (Hk & _ & x & Hx).
  set (v := watcher a w) in *. set (w1 := set_watcher a w (MojDbWatcher.with_state v StateActive (m_index v))).
  assert (forall b u, m_state u <> StateInvalid -> (exists x, m_index u = Some x) -> b ∈ m_watcherVec (w_index w) -> waiting (set_watcher a w u) b) as Wk.
  { intros b u Nu Iu Hb. unfold waiting. rewrite set_keys, watcher_set by done. destruct (ok_waiting w Ok b Hb) as (K & S & X).
    split; [done|]. by destruct (decide (a = b)). }
  assert (world_ok w1) as Ok1.
  { split; [apply Ok|]. intros b Hb. apply Wk; [done|by exists x|done]. }
  pose proof (least_page l _ limit Le) as Lp. fold v in Lp.
  unfold MojDbIndex.activate, MojDbWatcher.activate, MojDbWatcher.update_this, bind, get, modify. cbn [fst snd]. fold v. rewrite St.
  rewrite decide_False by done. fold w1. rewrite (w_asc _ Wt).
  assert (negb (MojDbKey.empty (m_fireKey v)) = true <-> m_fireKey v <> []) as Ne by (by destruct (m_fireKey v)).
  destruct (negb (MojDbKey.empty (m_fireKey v)) && within false (m_fireKey v) limit) eqn:B.
  - destruct (fireImpl_ok a w1 Ok1 Hin) as (w' & E & [A1 A2 A3 A4 A5]). exists w'. split; [exact E|].
    split; [split; [done|by rewrite A5]|]. left. rewrite <- Lp. apply andb_true_iff in B as [B1 B2]. split; [split; [by apply Ne|done]|].
    split; [rewrite (told_app a w1 w' [a]) by (done || by repeat constructor; set_solver)|rewrite A3; set_solver].
    rewrite decide_True by set_solver. unfold told. simpl. lia.
  - eexists. split; [reflexivity|]. assert (watcher a w1 = MojDbWatcher.with_state v StateActive (m_index v)) as E1.
    { unfold w1. rewrite watcher_set by done. by rewrite decide_True. }
    assert (a ∈ map fst (w_watchers w1)) as Hk1 by (unfold w1; by rewrite set_keys).
    split; [split; [split; [apply Ok|]|done]|].
    { intros b Hb. destruct (ok_waiting w1 Ok1 b Hb) as (K & S & X). unfold waiting. rewrite set_keys, watcher_set by done.
      split; [done|]. destruct (decide (a = b)) as [<-|]; [|done]. split; [done|exact X]. }
    right. split; [|split; [done|]].
    { rewrite <- Lp. intros [N W]. apply andb_false_iff in B as [B|B]; [by rewrite (proj2 Ne N) in B|congruence]. }
    split; rewrite ?watcher_set, ?decide_True, ?E1 by done; try done. by destruct Wt.
Qed.

(** ** Sequences *)
Lemma changes_cons c l w w' : change c w = (w', Ok tt) -> changes (c :: l) w = changes l w'.
Proof. intros E. simpl. unfold bind. by rewrite E. Qed.

Lemma changes_pending l : forall l0 w, quiet w -> keys_ok l -> pending_at w l0 ->
  exists w', changes l w = (w', Ok tt) /\ quiet w' /\ pending_at w' (l0 ++ l) /\ told a w' = told a w.
Proof.
  induction l as [|c l IH]; intros l0 w Q K Pa; [exists w; by rewrite app_nil_r|].
  apply Forall_cons in K as [Kc K]. destruct (change_pending c l0 w Q) as (w1 & E1 & Q1 & P1 & T1); [by constructor|done|].
  destruct (IH _ w1 Q1 K P1) as (w2 & E2 & Q2 & P2 & T2). exists w2.
  rewrite (changes_cons c l w w1 E1), cons_middle, app_assoc. split; [done|]. split; [done|]. split; [done|congruence].
Qed.

Lemma changes_gone l : forall w, quiet w -> a ∉ m_watcherVec (w_index w) ->
  exists w', changes l w = (w', Ok tt) /\ quiet w' /\ told a w' = told a w.
Proof.
  induction l as [|c l IH]; intros w Q N; [by exists w|].
  destruct (change_gone c w Q N) as (w1 & E1 & Q1 & T1 & N1). destruct (IH w1 Q1 N1) as (w2 & E2 & Q2 & T2). exists w2.
  rewrite (changes_cons c l w w1 E1). split; [done|]. split; [done|congruence].
Qed.

Lemma changes_active limit l : forall w, quiet w -> keys_ok l -> active_at w limit ->
  exists w', changes l w = (w', Ok tt) /\ quiet w' /\
    ((page_changed l limit /\ told a w' = S (told a w)) \/ (~ page_changed l limit /\ told a w' = told a w)).
Proof.
  induction l as [|c l IH]; intros w Q K A.
  - exists w. split; [done|]. split; [done|]. right. split; [|done]. intros (k & (c & Hc & _) & _). set_solver.
  - apply Forall_cons in K as [Kc K]. destruct (change_active c limit w Q) as (w1 & E1 & Q1 & C); [by constructor|done|].
    rewrite (changes_cons c l w w1 E1). setoid_rewrite (page_changed_app [c] l). destruct C as [(C1 & T1 & N1)|(C1 & T1 & A1)].
    + destruct (changes_gone l w1 Q1 N1) as (w2 & E2 & Q2 & T2). exists w2. split; [done|]. split; [done|]. left.
      split; [by left|congruence].
    + destruct (IH w1 Q1 K A1) as (w2 & E2 & Q2 & C). exists w2. split; [done|]. split; [done|]. rewrite T1 in C. tauto.
Qed.

Lemma addWatch_ok plan domain w : quiet w -> a ∈ map fst (w_watchers w) -> a ∉ m_watcherVec (w_index w) ->
  m_limitKey (watcher a w) = [] -> m_fireKey (watcher a w) = [] ->
  MojDbQueryPlan.m_ranges plan = rs -> MojDbQuery.m_desc (MojDbQueryPlan.m_query plan) = false ->
  exists w', MojDbIndex.addWatch plan a domain w = (w', Ok tt) /\ quiet w' /\ pending_at w' [] /\ told a w' = told a w.
Proof.
  intros [Ok P] Hk Nv Li Fi Er Ed. unfold MojDbIndex.addWatch, bind, get, modify. cbn [fst snd].
  eexists. split; [reflexivity|].
  match goal with |- quiet (set_watcher a ?w2 _) /\ _ => set (w1 := w2) end.
  assert (w_watchers w1 = w_watchers (set_watcher a w (MojDbWatcher.domain (watcher a w) domain))) as E1 by done.
  assert (m_watcherVec (w_index w1) = m_watcherVec (w_index w) ++ [a]) as Ev by done.
  assert (a ∈ map fst (w_watchers w1)) as Hk1 by (rewrite E1; by rewrite set_keys).
  assert (watcher a w1 = MojDbWatcher.domain (watcher a w) domain) as Ea.
  { rewrite (watcher_same a _ _ E1), watcher_set by done. by rewrite decide_True. }
  assert (w_fired w1 = w_fired w /\ m_pendingKeys (w_index w1) = m_pendingKeys (w_index w)) as [Ef Ep] by done.
  clearbody w1. rewrite Ea, Er, Ed. set (v := MojDbWatcher.init _ _ _ _ _).
  assert (watcher a (set_watcher a w1 v) = v) as Es by (rewrite watcher_set by done; by rewrite decide_True).
  split; [split; [split|simpl; congruence]|split; [split|unfold told; simpl; congruence]]; rewrite ?Es; try done.
  - simpl. rewrite Ev. apply NoDup_app. split; [apply Ok|]. split; [set_solver|by apply NoDup_singleton].
  - intros b Hb. unfold waiting. rewrite set_keys, watcher_set by done. destruct (decide (a = b)) as [<-|N].
    + split; [done|]. split; [done|]. by eexists.
    + simpl in Hb. rewrite Ev in Hb. assert (b ∈ m_watcherVec (w_index w)) as Hb' by set_solver.
      destruct (ok_waiting w Ok b Hb') as (K & S & X). rewrite E1, set_keys. split; [done|].
      rewrite (watcher_same b _ _ E1), watcher_set by done. by rewrite decide_False.
  - simpl. rewrite Ev. set_solver.
  - unfold v, least. simpl. rewrite Fi, decide_True by done. intros k (c & Hc & _). set_solver.
Qed.
End watch.

(** C13: A watch of an ascending query is told of every change of its page, and of
    nothing else, once. A watch is registered with the index for the ranges of a plan;
    transactions commit, each with the keys it changed in the index; the page of the
    query has been read and the watch is activated with the page's last key as its
    limit (or none); more transactions commit. No step fails, and the watch's handler
    is told exactly once when some transaction, before or after the activation,
    changed a key in the ranges and not past the limit, and never otherwise. *)
Theorem watch_told (w : World) a plan domain before limit after :
  quiet w -> a ∈ map fst (w_watchers w) -> a ∉ m_watcherVec (w_index w) ->
  m_limitKey (watcher a w) = [] -> m_fireKey (watcher a w) = [] ->
  ordered false (MojDbQueryPlan.m_ranges plan) -> MojDbQuery.m_desc (MojDbQueryPlan.m_query plan) = false ->
  keys_ok (before ++ after) ->
  exists w', (let! _ := MojDbIndex.addWatch plan a domain in
              let! _ := changes before in
              let! _ := MojDbIndex.activate a limit in
              changes after) w = (w', Ok tt) /\ quiet w' /\
    (page_changed (MojDbQueryPlan.m_ranges plan) (before ++ after) limit -> told a w' = S (told a w)) /\
    (~ page_changed (MojDbQueryPlan.m_ranges plan) (before ++ after) limit -> told a w' = told a w).
Proof.
  intros Q Hk Nv Li Fi O D [Kb Ka]%Forall_app.
  destruct (addWatch_ok _ O a plan domain w Q Hk Nv Li Fi eq_refl D) as (w1 & E1 & Q1 & P1 & T1).
  destruct (changes_pending _ O a before [] w1 Q1 Kb P1) as (w2 & E2 & Q2 & P2 & T2). simpl in P2.
  destruct (activate_ok _ O a before limit w2 Q2 P2) as (w3 & E3 & Q3 & C).
  unfold bind at 1. rewrite E1. cbn beta iota. unfold bind at 1. rewrite E2. cbn beta iota. unfold bind. rewrite E3. cbn beta iota.
  pose proof (page_changed_app (MojDbQueryPlan.m_ranges plan) before after limit) as Pa. destruct C as [(C & T3 & N3)|(C & T3 & A3)].
  - destruct (changes_gone a after w3 Q3 N3) as (w4 & E4 & Q4 & T4). exists w4. split; [done|]. split; [done|].
    split; [intros; congruence|tauto].
  - destruct (changes_active _ O a limit after w3 Q3 Ka A3) as (w4 & E4 & Q4 & C4). exists w4. split; [done|]. split; [done|].
    split; intros; destruct C4 as [(C4 & T4)|(C4 & T4)]; (tauto || congruence).
Qed.
End watches.

(** ** At work *)
Module WatchExample.
#[local] Existing Instance QueryPlanSelect.shift_icu.

Definition all_keys : MojDbKeyRange.MojDbKeyRange := {| MojDbKeyRange.lowerKey := [3]; MojDbKeyRange.upperKey := [9]; MojDbKeyRange.group := 0 |}.
Definition plan (desc : bool) : MojDbQueryPlan.MojDbQueryPlan :=
  {| MojDbQueryPlan.m_ranges := [all_keys]; MojDbQueryPlan.m_query := MojDbQuery.with_flags MojDbQuery.make desc false 10 [];
     MojDbQueryPlan.m_locale := []; MojDbQueryPlan.m_idPropIndex := 0; MojDbQueryPlan.m_groupCount := 1 |}.
Definition world : @MojDbIndex.World _ unit :=
  {| w_index := MojDbIndex.make 100; w_watchers := [(1, MojDbWatcher.init_watcher)]; w_fired := [] |}.
Definition before : list (Z * KeySet) := [(50, [[2]; [8]]); (51, [[6]; [7]])].
Definition after : list (Z * KeySet) := [(52, [[4]])].

Lemma watch_told_witness : exists w',
  (let! _ := MojDbIndex.addWatch (plan false) 1 [] in
   let! _ := changes before in
   let! _ := MojDbIndex.activate 1 [5] in
   changes after) world = (w', Ok tt) /\ told 1 w' = 1%nat.
Proof.
  destruct (watch_told world 1 (plan false) [] before [5] after) as (w' & E & _ & T & _); try done.
  - split; [split; [constructor|intros a []%elem_of_nil]|done].
  - apply list_elem_of_here.
  - apply not_elem_of_nil.
  - repeat constructor.
  - repeat (constructor; [split; [repeat constructor|set_solver]|]). constructor.
  - exists w'. split; [exact E|]. apply T. exists [4]. split; [|right; by vm_compute].
    exists (52, [[4]]). split; [apply list_elem_of_further, list_elem_of_further, list_elem_of_here|].
    split; [apply list_elem_of_here|]. exists all_keys. split; [apply list_elem_of_here|by vm_compute].
Defined.

(** A descending watch may miss a change: a transaction changes two keys of its page,
    one beyond the limit; that one comes first and no other is looked at. *)
Lemma descending_missed : exists w',
  (let! _ := MojDbIndex.addWatch (plan true) 1 [] in
   let! _ := MojDbIndex.activate 1 [5] in
   changes [(50, [[4]; [7]])]) world = (w', Ok tt) /\ told 1 w' = 0%nat /\
  MojDbKeyRange.contains all_keys [7] = true /\ within true [7] [5] = true.
Proof. eexists. split; [reflexivity|]. repeat split; by vm_compute. Qed.

(** A commit tells of the keys of other transactions too: the second transaction has
    changed nothing the watch waits for. *)
Lemma uncommitted_told : exists w',
  (let! _ := MojDbIndex.addWatch (plan false) 1 [] in
   let! _ := MojDbIndex.activate 1 [] in
   let! _ := modify (pend 50 [[4]]) in
   change (51, [[2]])) world = (w', Ok tt) /\ told 1 w' = 1%nat /\
  MojDbKeyRange.contains all_keys [2] = false.
Proof. eexists. split; [reflexivity|]. repeat split; by vm_compute. Qed.
End WatchExample.
