(* ===== verification/KindGraph.v ===== *)
(** * How kinds extend one another: src/src/db/MojDbKind.cpp

    Kinds are known by address.  A kind points at the kinds it extends and at those
    that extend it; the two must agree, and there must be no cycle, for the walks
    over a kind's ancestors to end. *)

From stdpp Require Import gmap.
From S2P Require Import Prelude Containers CoreUtil Object.

(** [MojDbKindEngine::RootKindId]. *)
Definition RootKindId := _T "Object:1".

Module MojDbKind.
(** What a kind's place in the graph is. *)
Record Links := {
  m_id : mstring;
  m_superIds : list mstring;
  m_supers : list Z;
  m_subs : list Z
}.

Abbreviation Graph := (gmap Z Links).
(** The kinds of the engine, by id, in the order the map is walked. *)
Abbreviation KindMap := (list (mstring * Z)).

Definition no_links : Links := {| m_id := []; m_superIds := []; m_supers := []; m_subs := [] |}.
Definition links (g : Graph) (k : Z) : Links := default no_links (g !! k).

Definition with_superIds (l : Links) ids : Links :=
  {| m_id := m_id l; m_superIds := ids; m_supers := m_supers l; m_subs := m_subs l |}.
Definition with_supers (l : Links) supers : Links :=
  {| m_id := m_id l; m_superIds := m_superIds l; m_supers := supers; m_subs := m_subs l |}.
Definition with_subs (l : Links) subs : Links :=
  {| m_id := m_id l; m_superIds := m_superIds l; m_supers := m_supers l; m_subs := subs |}.

Definition set_superIds (g : Graph) (k : Z) ids : Graph := <[k := with_superIds (links g k) ids]> g.
Definition set_supers (g : Graph) (k : Z) supers : Graph := <[k := with_supers (links g k) supers]> g.
Definition set_subs (g : Graph) (k : Z) subs : Graph := <[k := with_subs (links g k) subs]> g.

(** A walk that does not end is undefined; [fuel] bounds its depth. *)
Section any.
Context (p : Z -> res bool).
Fixpoint any (ks : list Z) : res bool :=
  match ks with
  | [] => Ok false
  | k :: ks' => let? b := p k in if b : bool then Ok true else any ks'
  end.
End any.

Fixpoint extends_to (fuel : nat) (g : Graph) (id : mstring) (k : Z) : res bool :=
  match fuel with
  | O => Err AssertFailed
  | S fuel' => if bool_decide (m_id (links g k) = id) then Ok true else any (extends_to fuel' g id) (m_supers (links g k))
  end.

(** As deep as there are kinds. *)
Definition depth (g : Graph) : nat := S (size g).

Definition extends (g : Graph) (k : Z) (id : mstring) : res bool := extends_to (depth g) g id k.

(** The first occurrence is erased. *)
Fixpoint removeKind (vec : list Z) (kind : Z) : res (list Z) :=
  match vec with
  | [] => Err MojErrNotFound
  | k :: vec' => if k =? kind then Ok vec' else let? v := removeKind vec' kind in Ok (k :: v)
  end.

Definition addSuper (g : Graph) (this kind : Z) : res Graph :=
  let? b := extends g kind (m_id (links g this)) in
  if b : bool then Ok g
  else
    let? g :=
      match m_supers (links g this) with
      | root :: _ =>
          if bool_decide (m_id (links g root) = RootKindId) then
            let? subs := removeKind (m_subs (links g root)) this in
            Ok (set_supers (set_subs g root subs) this [])
          else Ok g
      | [] => Ok g
      end in
    let g := set_supers g this (m_supers (links g this) ++ [kind]) in
    Ok (set_subs g kind (m_subs (links g kind) ++ [this])).

(** The supers forget this kind, then the subs do. *)
Definition clearSupers (g : Graph) (this : Z) : res Graph :=
  let? g := res_fold (fun g super => let? subs := removeKind (m_subs (links g super)) this in Ok (set_subs g super subs))
              g (m_supers (links g this)) in
  let g := set_supers g this [] in
  let? g := res_fold (fun g sub => let? supers := removeKind (m_supers (links g sub)) this in Ok (set_supers g sub supers))
              g (m_subs (links g this)) in
  Ok (set_subs g this []).

Definition find_kind (map : KindMap) (id : mstring) : option Z :=
  option_map snd (List.find (fun e => bool_decide (e.1 = id)) map).

Definition diffSupers (map : KindMap) (vec1 vec2 : list mstring) : list Z :=
  omap (fun id => if bool_decide (id ∈ vec2) then None else find_kind map id) vec1.

(** The second half of [updateSupers]: the supers and subs of a kind are made
    anew. *)
Definition relink (map : KindMap) (g : Graph) (this : Z) (superIds : list mstring) : res Graph :=
  let g := set_superIds g this superIds in
  let? g := clearSupers g this in
  let? g := res_fold (fun g id => match find_kind map id with Some k => addSuper g this k | None => Ok g end)
              g (m_superIds (links g this)) in
  let? g := res_fold (fun g e => if bool_decide (m_id (links g this) ∈ m_superIds (links g e.2)) then addSuper g e.2 this else Ok g)
              g map in
  match m_supers (links g this) with
  | [] => match find_kind map RootKindId with Some root => addSuper g this root | None => Ok g end
  | _ => Ok g
  end.

(** ** The walks over the ancestors *)
Section walk.
Context {S : Type} (g : Graph) (own : Z -> S -> res S).

(** [updateIndexes]: a kind already visited is skipped; the supers come first. *)
Fixpoint updateIndexes (fuel : nat) (kindVec : list Z) (k : Z) (s : S) : res (list Z * S) :=
  match fuel with
  | O => Err AssertFailed
  | Datatypes.S fuel' =>
      let? (kindVec, s) :=
        res_fold (fun '(kindVec, s) i =>
          if bool_decide (i ∈ kindVec) then Ok (kindVec, s) else updateIndexes fuel' kindVec i s)
          (kindVec ++ [k], s) (m_supers (links g k)) in
      let? s := own k s in
      Ok (kindVec, s)
  end.

(** [preUpdate]: an ancestor is visited once for each way to reach it. *)
Fixpoint preUpdate (fuel : nat) (k : Z) (s : S) : res S :=
  match fuel with
  | O => Err AssertFailed
  | Datatypes.S fuel' =>
      let? s := res_fold (fun s i => preUpdate fuel' i s) s (m_supers (links g k)) in
      own k s
  end.
End walk.

(** The first half of [updateSupers], for one object of the kind: it is put into the
    indexes of the supers that are new and of their ancestors, and deleted from those
    of the supers that are gone; [kindVec] is one for both. *)
Definition moveObject {S} (g : Graph) (put del : Z -> S -> res S) (added removed : list Z) (s : S) : res S :=
  let? (kindVec, s) := res_fold (fun '(kindVec, s) i => updateIndexes g put (depth g) kindVec i s) ([], s) added in
  let? (_, s) := res_fold (fun '(kindVec, s) i => updateIndexes g del (depth g) kindVec i s) (kindVec, s) removed in
  Ok s.

(** [subKinds]: down from the root, a kind below its first super only; [shown] is
    what is kept of a kind. *)
Section subKinds.
Context {A : Type} (g : Graph) (shown : Z -> list A).
Fixpoint subKinds (fuel : nat) (k : Z) (parent : option Z) : res (list A) :=
  match fuel with
  | O => Err AssertFailed
  | S fuel' =>
      match m_supers (links g k) with
      | super :: _ =>
          if bool_decide (parent = Some super) then
            let? below := res_fold (fun out i => let? below := subKinds fuel' i (Some k) in Ok (out ++ below)) [] (m_subs (links g k)) in
            Ok (shown k ++ below)
          else Ok []
      | [] =>
          let? below := res_fold (fun out i => let? below := subKinds fuel' i (Some k) in Ok (out ++ below)) [] (m_subs (links g k)) in
          Ok (shown k ++ below)
      end
  end.

Definition getOwnSubKinds (k : Z) (builtin : bool) : list Z := if builtin then [] else m_subs (links g k).
End subKinds.
End MojDbKind.
