(* ===== verification/KindGraphSpec.v ===== *)
(** * The graph of kinds stays sound

    [graph_ok]: supers and subs mirror each other, there is no cycle, and the root
    kind is a super only of kinds that have no other.  Linking keeps it
    ([relink_ok]), the walks over the ancestors end, and the walk that updates
    indexes visits each ancestor once, the supers of a kind before the kind
    ([updateIndexes_once]). *)

From stdpp Require Import gmap relations.
From S2P Require Import Prelude Containers CoreUtil Object KindGraph.

Import MojDbKind.

Abbreviation count := (count_occ Z.eq_dec).

Definition live (g : Graph) (k : Z) : Prop := is_Some (g !! k).
Definition super (g : Graph) (k s : Z) : Prop := s ∈ m_supers (links g k).
(** The kind itself and its ancestors. *)
Definition reach (g : Graph) : Z -> Z -> Prop := rtc (super g).

Record graph_ok (g : Graph) : Prop := {
  ok_ids : forall k k', live g k -> live g k' -> m_id (links g k) = m_id (links g k') -> k = k';
  ok_live : forall k s, super g k s -> live g k /\ live g s;
  ok_mirror : forall k s, count (m_subs (links g s)) k = count (m_supers (links g k)) s;
  ok_rank : exists rank : Z -> nat, forall k s, super g k s -> (rank s < rank k)%nat;
  ok_root : forall k s, super g k s -> m_id (links g s) = RootKindId -> m_supers (links g k) = [s]
}.

(** ** Lists of kinds *)
Lemma count_in x v : x ∈ v <-> (0 < count v x)%nat.
Proof. rewrite list_elem_of_In. apply count_occ_In. Qed.

Lemma count_snoc v x y : count (v ++ [x]) y = (count v y + if decide (x = y) then 1 else 0)%nat.
Proof. rewrite count_occ_app. simpl. destruct (Z.eq_dec x y), (decide (x = y)); congruence || done. Qed.

Lemma removeKind_ok v x : (0 < count v x)%nat -> exists v', removeKind v x = Ok v' /\
  forall y, count v' y = (count v y - if decide (y = x) then 1 else 0)%nat.
Proof.
  induction v as [|k v IH]; simpl; [lia|]. destruct (Z.eqb_spec k x) as [->|N].
  - intros _. exists v. split; [done|]. intros y. destruct (Z.eq_dec x y), (decide (y = x)); subst; try done; lia.
  - destruct (Z.eq_dec k x); [done|]. intros L. destruct (IH L) as (v' & -> & C). exists (k :: v'). split; [done|].
    intros y. simpl. rewrite C. destruct (Z.eq_dec k y), (decide (y = x)); subst; try done; lia.
Qed.

Lemma count_zero v : (forall y, count v y = 0%nat) -> v = [].
Proof. destruct v as [|x v]; [done|]. intros C. specialize (C x). simpl in C. by destruct (Z.eq_dec x x). Qed.

(** ** The heap *)
Lemma links_set (g : Graph) k l x : links (<[k := l]> g) x = if decide (k = x) then l else links g x.
Proof.
  unfold links. destruct (decide (k = x)) as [->|N]; [by rewrite lookup_insert_eq|by rewrite lookup_insert_ne].
Qed.

Lemma live_set (g : Graph) k l x : live g k -> live (<[k := l]> g) x <-> live g x.
Proof.
  unfold live. intros K. destruct (decide (k = x)) as [->|N]; [rewrite lookup_insert_eq|by rewrite lookup_insert_ne].
  split; [done|by eexists].
Qed.

Lemma not_live g k : ~ live g k -> links g k = no_links.
Proof. unfold live, links. destruct (g !! k) eqn:E; [|done]. intros N. destruct N. by eexists. Qed.

(** ** Walks end *)
Section walks.
Context (g : Graph) (G : graph_ok g).

(** A walk of depth [fuel] may go on from [k]: the kinds below it are not enough to
    use the fuel up. *)
Definition deep (rank : Z -> nat) (fuel : nat) (k : Z) : Prop :=
  live g k /\ exists p, NoDup p /\ (forall x, x ∈ p -> live g x /\ (rank k < rank x)%nat) /\ (size g < fuel + length p)%nat.

Lemma path_short p : NoDup p -> (forall x, x ∈ p -> live g x) -> (length p <= size g)%nat.
Proof.
  intros D L. rewrite <- (size_list_to_set (C := gset Z) p D), <- size_dom. apply subseteq_size.
  intros x Hx%elem_of_list_to_set. apply elem_of_dom, L, Hx.
Qed.

Lemma deep_start rank k : live g k -> deep rank (depth g) k.
Proof. intros L. split; [done|]. exists []. split; [constructor|]. split; [set_solver|]. unfold depth. simpl. lia. Qed.

Lemma deep_pos rank k : ~ deep rank 0 k.
Proof.
  intros (L & p & D & P & S). assert (forall x, x ∈ p -> live g x) as Lp by (intros x Hx; by apply P).
  pose proof (path_short p D Lp). lia.
Qed.

Lemma deep_step rank fuel k s : (forall k s, super g k s -> (rank s < rank k)%nat) -> deep rank (S fuel) k -> super g k s -> deep rank fuel s.
Proof.
  intros R (L & p & D & P & Z) Hs. split; [by apply (ok_live g G k)|]. exists (k :: p). split; [|split].
  - constructor; [|done]. intros Hk. destruct (P k Hk). lia.
  - intros x [->|Hx]%elem_of_cons; [split; [done|by apply R]|]. destruct (P x Hx). split; [done|]. specialize (R k s Hs). lia.
  - simpl. lia.
Qed.

Lemma any_spec (p : Z -> res bool) (P : Z -> Prop) ks : (forall k, k ∈ ks -> exists b, p k = Ok b /\ (b = true <-> P k)) ->
  exists b, any p ks = Ok b /\ (b = true <-> exists k, k ∈ ks /\ P k).
Proof.
  induction ks as [|k ks IH]; intros H.
  - exists false. split; [done|]. split; [done|]. intros (k & Hk & _). set_solver.
  - destruct (H k) as (b & E & B); [apply list_elem_of_here|]. destruct IH as (b' & E' & B'); [intros; apply H; by apply list_elem_of_further|].
    simpl. rewrite E. simpl. destruct b.
    + exists true. split; [done|]. split; [|done]. intros _. exists k. split; [apply list_elem_of_here|by apply B].
    + exists b'. split; [done|]. rewrite B'. split; [intros (x & Hx & Px); exists x; split; [by apply list_elem_of_further|done]|].
      intros (x & [->|Hx]%elem_of_cons & Px); [by apply B in Px|by exists x].
Qed.

Lemma extends_spec k id : live g k -> exists b, extends g k id = Ok b /\ (b = true <-> exists a, reach g k a /\ m_id (links g a) = id).
Proof.
  destruct (ok_rank g G) as (rank & R). unfold extends. intros L. pose proof (deep_start rank k L) as D. clear L. revert k D.
  induction (depth g) as [|fuel IH]; intros k D; [by apply deep_pos in D|]. simpl. destruct (bool_decide_reflect (m_id (links g k) = id)) as [E|N].
  - exists true. split; [done|]. split; [|done]. intros _. by exists k; split; [apply rtc_refl|].
  - destruct (any_spec (extends_to fuel g id) (fun s => exists a, reach g s a /\ m_id (links g a) = id) (m_supers (links g k))) as (b & E & B).
    + intros s Hs. apply IH. by apply (deep_step rank fuel k s).
    + exists b. split; [done|]. rewrite B. split.
      * intros (s & Hs & a & Ra & Ea). exists a. split; [by apply rtc_l with s|done].
      * intros (a & Ra & Ea). inversion Ra as [|? s ? Hs Rs]; subst; [done|]. exists s. split; [done|]. by exists a.
Qed.

Lemma reach_live k a : live g k -> reach g k a -> live g a.
Proof. intros L R. induction R as [|x y z H R IH]; [done|]. apply IH. by apply (ok_live g G x y). Qed.

(** By id is by kind. *)
Lemma extends_kind k a : live g k -> live g a -> exists b, extends g k (m_id (links g a)) = Ok b /\ (b = true <-> reach g k a).
Proof.
  intros K A. destruct (extends_spec k (m_id (links g a)) K) as (b & E & B). exists b. split; [done|]. rewrite B.
  split; [|intros R; by exists a]. intros (x & R & Ex). apply (ok_ids g G) in Ex as ->; [done|by apply (reach_live k)|done].
Qed.
End walks.

(** ** Taking a kind off the others *)
Section taken.
Context (field : Links -> list Z) (put : Links -> list Z -> Links) (this : Z).
Context (field_put : forall l v, field (put l v) = v) (put_put : forall l v v', put (put l v) v' = put l v') (put_field : forall l, put l (field l) = l).

Definition take_off (g : Graph) (l : list Z) : res Graph :=
  res_fold (fun g x => let? v := removeKind (field (links g x)) this in Ok (<[x := put (links g x) v]> g)) g l.

Lemma take_off_ok l : forall g, (forall x, x ∈ l -> live g x) -> (forall x, (count l x <= count (field (links g x)) this)%nat) ->
  exists g', take_off g l = Ok g' /\ (forall x, live g' x <-> live g x) /\
    forall x, exists v, links g' x = put (links g x) v /\
      forall y, count v y = (count (field (links g x)) y - if decide (y = this) then count l x else 0)%nat.
Proof.
  induction l as [|a l IH]; intros g L C.
  - exists g. split; [done|]. split; [done|]. intros x. exists (field (links g x)). split; [by rewrite put_field|].
    intros y. simpl. destruct (decide _); lia.
  - assert (0 < count (field (links g a)) this)%nat as P by (specialize (C a); simpl in C; destruct (Z.eq_dec a a); [lia|done]).
    destruct (removeKind_ok _ _ P) as (v & E & V). assert (live g a) as La by (apply L, list_elem_of_here).
    set (g1 := <[a := put (links g a) v]> g).
    destruct (IH g1) as (g' & E' & L' & F).
    + intros x Hx. apply live_set; [done|]. apply L. by apply list_elem_of_further.
    + intros x. unfold g1. rewrite links_set. specialize (C x). simpl in C. destruct (decide (a = x)) as [<-|N].
      * rewrite field_put, V, decide_True by done. destruct (Z.eq_dec a a); [lia|done].
      * destruct (Z.eq_dec a x); [done|lia].
    + exists g'. split; [unfold take_off in *; simpl; by rewrite E|]. split; [intros x; rewrite L'; by apply live_set|].
      intros x. destruct (F x) as (w & Ew & W). exists w. unfold g1 in Ew, W. rewrite links_set in Ew, W.
      destruct (decide (a = x)) as [<-|N].
      * rewrite put_put in Ew. rewrite field_put in W. split; [done|]. intros y. rewrite W, V. simpl. destruct (Z.eq_dec a a); [|done].
        destruct (decide (y = this)); lia.
      * split; [done|]. intros y. rewrite W. simpl. by destruct (Z.eq_dec a x).
Qed.
End taken.

Lemma take_subs_ok this l g : (forall x, x ∈ l -> live g x) -> (forall x, (count l x <= count (m_subs (links g x)) this)%nat) ->
  exists g', res_fold (fun g super => let? subs := removeKind (m_subs (links g super)) this in Ok (set_subs g super subs)) g l = Ok g' /\
    (forall x, live g' x <-> live g x) /\
    forall x, exists v, links g' x = with_subs (links g x) v /\
      forall y, count v y = (count (m_subs (links g x)) y - if decide (y = this) then count l x else 0)%nat.
Proof. apply (take_off_ok m_subs with_subs); [done|done|by intros []]. Qed.

Lemma take_supers_ok this l g : (forall x, x ∈ l -> live g x) -> (forall x, (count l x <= count (m_supers (links g x)) this)%nat) ->
  exists g', res_fold (fun g sub => let? supers := removeKind (m_supers (links g sub)) this in Ok (set_supers g sub supers)) g l = Ok g' /\
    (forall x, live g' x <-> live g x) /\
    forall x, exists v, links g' x = with_supers (links g x) v /\
      forall y, count v y = (count (m_supers (links g x)) y - if decide (y = this) then count l x else 0)%nat.
Proof. apply (take_off_ok m_supers with_supers); [done|done|by intros []]. Qed.

(** What two graphs share when only links differ. *)
Record same_kinds (g g' : Graph) : Prop := {
  same_live : forall x, live g' x <-> live g x;
  same_id : forall x, m_id (links g' x) = m_id (links g x);
  same_superIds : forall x, m_superIds (links g' x) = m_superIds (links g x)
}.

Lemma same_refl_kinds g : same_kinds g g.
Proof. done. Qed.
Lemma same_trans_kinds g1 g2 g3 : same_kinds g1 g2 -> same_kinds g2 g3 -> same_kinds g1 g3.
Proof. intros [A1 A2 A3] [B1 B2 B3]. split; intros x; [by rewrite B1|by rewrite B2|by rewrite B3]. Qed.

(** Fewer links are sound, if they mirror each other and a root is left alone. *)
Lemma fewer_ok g g' : graph_ok g -> same_kinds g g' ->
  (forall k s, count (m_supers (links g' k)) s = count (m_supers (links g k)) s \/ count (m_supers (links g' k)) s = 0%nat) ->
  (forall k s, count (m_subs (links g' s)) k = count (m_supers (links g' k)) s) ->
  (forall k s, super g' k s -> m_id (links g s) = RootKindId -> m_supers (links g' k) = [s]) -> graph_ok g'.
Proof.
  intros G [S1 S2 S3] F M Rt. assert (forall k s, super g' k s -> super g k s) as Sub.
  { unfold super. intros k s. rewrite !count_in. destruct (F k s) as [->| ->]; lia. }
  split.
  - intros k k'. rewrite !S1, !S2. apply G.
  - intros k s H%Sub. rewrite !S1. by apply (ok_live g G).
  - done.
  - destruct (ok_rank g G) as (rank & R). exists rank. intros k s H. by apply R, Sub.
  - intros k s H. rewrite S2. by apply Rt.
Qed.

Lemma clearSupers_ok g this : graph_ok g -> live g this -> exists g', clearSupers g this = Ok g' /\ graph_ok g' /\ same_kinds g g' /\
  m_supers (links g' this) = [] /\ m_subs (links g' this) = [].
Proof.
  intros G L. unfold clearSupers.
  destruct (take_subs_ok this (m_supers (links g this)) g) as (g1 & E1 & L1 & F1).
  { intros x Hx. by apply (ok_live g G this). }
  { intros x. by rewrite (ok_mirror g G). }
  rewrite E1. cbn [res_bind]. set (g2 := set_supers g1 this []).
  assert (links g2 this = with_supers (links g1 this) []) as T2 by (unfold g2, set_supers; rewrite links_set; by rewrite decide_True).
  assert (forall x, x <> this -> links g2 x = links g1 x) as O2.
  { intros x N. unfold g2, set_supers. rewrite links_set. by rewrite decide_False. }
  assert (forall x, live g2 x <-> live g x) as L2.
  { intros x. unfold g2, set_supers. rewrite live_set; [apply L1|by apply L1]. }
  assert (count (m_supers (links g this)) this = 0%nat) as NoLoop.
  { apply Nat.le_0_r, Nat.le_ngt. intros C%count_in. destruct (ok_rank g G) as (rank & R). specialize (R this this C). lia. }
  assert (forall y, count (m_subs (links g2 this)) y = count (m_subs (links g this)) y) as Sub2.
  { intros y. rewrite T2. simpl. destruct (F1 this) as (v & Ev & V). rewrite Ev. simpl. rewrite V.
    destruct (decide (y = this)); [|lia]. rewrite NoLoop. lia. }
  assert (forall x, x <> this -> m_supers (links g2 x) = m_supers (links g x)) as Sup2.
  { intros x N. rewrite O2 by done. destruct (F1 x) as (v & Ev & _). by rewrite Ev. }
  assert (count (m_subs (links g this)) this = 0%nat) as NoLoop'.
  { by rewrite (ok_mirror g G). }
  destruct (take_supers_ok this (m_subs (links g2 this)) g2) as (g3 & E3 & L3 & F3).
  { intros x Hx. apply L2. apply count_in in Hx. rewrite Sub2, (ok_mirror g G) in Hx. apply count_in in Hx. by apply (ok_live g G x this). }
  { intros x. rewrite Sub2. destruct (decide (x = this)) as [->|N]; [rewrite NoLoop'; lia|]. rewrite Sup2 by done. by rewrite (ok_mirror g G). }
  rewrite E3. cbn [res_bind]. eexists. split; [reflexivity|]. set (g4 := set_subs g3 this []).
  assert (forall x, links g4 x = if decide (x = this) then with_subs (links g3 this) [] else links g3 x) as E4.
  { intros x. unfold g4, set_subs. rewrite links_set. destruct (decide (this = x)), (decide (x = this)); congruence. }
  assert (same_kinds g g4) as S4.
  { split; intros x.
    - unfold g4, set_subs. rewrite live_set; [by rewrite L3|apply L3; by apply L2].
    - destruct (F1 x) as (v1 & V1 & _), (F3 x) as (v3 & V3 & _). rewrite E4. destruct (decide (x = this)) as [->|N].
      + rewrite V3, T2, V1. done.
      + rewrite V3, O2, V1 by done. done.
    - destruct (F1 x) as (v1 & V1 & _), (F3 x) as (v3 & V3 & _). rewrite E4. destruct (decide (x = this)) as [->|N].
      + rewrite V3, T2, V1. done.
      + rewrite V3, O2, V1 by done. done. }
  assert (m_supers (links g4 this) = []) as P4.
  { rewrite E4, decide_True by done. simpl. destruct (F3 this) as (v & Ev & V). rewrite Ev. simpl. apply count_zero.
    intros y. rewrite V, T2. simpl. destruct (decide _); lia. }
  assert (forall k s, count (m_supers (links g4 k)) s = if decide (k = this) then 0%nat else if decide (s = this) then 0%nat else count (m_supers (links g k)) s) as Ps.
  { intros k s. destruct (decide (k = this)) as [->|N]; [by rewrite P4|]. rewrite E4, decide_False by done.
    destruct (F3 k) as (v & Ev & V). rewrite Ev. simpl. rewrite V, Sub2, Sup2, (ok_mirror g G) by done. destruct (decide (s = this)); subst; lia. }
  split; [|split; [done|split; [done|rewrite E4; by rewrite decide_True]]].
  apply (fewer_ok g); [done|done| | |].
  - intros k s. rewrite Ps. destruct (decide (k = this)); [by right|]. destruct (decide (s = this)); [by right|by left].
  - intros k s. rewrite Ps. rewrite E4. destruct (decide (s = this)) as [->|N]; [by destruct (decide (k = this))|].
    destruct (F3 s) as (v & Ev & _), (F1 s) as (w & Ew & W). rewrite Ev, O2, Ew by done. simpl. rewrite W, (ok_mirror g G).
    destruct (decide (k = this)) as [->|]; lia.
  - intros k s H Rt. unfold super in H. apply count_in in H. rewrite Ps in H. destruct (decide (k = this)) as [->|N]; [lia|].
    destruct (decide (s = this)) as [->|Ns]; [lia|]. apply count_in in H. pose proof (ok_root g G k s H Rt) as Al.
    assert (forall y, count (m_supers (links g4 k)) y = count [s] y) as C.
    { intros y. rewrite Ps, !decide_False by done. rewrite Al. destruct (decide (y = this)) as [->|]; [|done]. simpl. by destruct (Z.eq_dec s this). }
    destruct (m_supers (links g4 k)) as [|x [|x' l]].
    + specialize (C s). simpl in C. by destruct (Z.eq_dec s s).
    + specialize (C x). simpl in C. destruct (Z.eq_dec x x); [|done]. destruct (Z.eq_dec s x); [by subst|done].
    + pose proof (C x) as C1. pose proof (C x') as C2. simpl in *. destruct (Z.eq_dec x x), (Z.eq_dec x' x'), (Z.eq_dec x' x), (Z.eq_dec x x'), (Z.eq_dec s x), (Z.eq_dec s x'); congruence || lia.
Qed.

(** ** A new link *)
Lemma reach_mono g g' k a : (forall k s, super g' k s -> super g k s) -> reach g' k a -> reach g k a.
Proof. intros M R. induction R as [|x y z H R IH]; [by apply rtc_refl|]. apply rtc_l with y; [by apply M|done]. Qed.

Lemma reach_dec g k a : graph_ok g -> live g k -> live g a -> {reach g k a} + {~ reach g k a}.
Proof.
  intros G K A. destruct (extends g k (m_id (links g a))) as [[]|] eqn:E.
  - left. destruct (extends_kind g G k a K A) as (b & Eb & B). apply B. congruence.
  - right. intros R. destruct (extends_kind g G k a K A) as (b & Eb & B). apply B in R. congruence.
  - right. intros R. destruct (extends_kind g G k a K A) as (b & Eb & B). congruence.
Qed.

Definition linked (g : Graph) (this kind : Z) : Graph :=
  let g := set_supers g this (m_supers (links g this) ++ [kind]) in
  set_subs g kind (m_subs (links g kind) ++ [this]).

Lemma linked_links g this kind x : this <> kind -> links (linked g this kind) x =
  if decide (x = this) then with_supers (links g this) (m_supers (links g this) ++ [kind])
  else if decide (x = kind) then with_subs (links g kind) (m_subs (links g kind) ++ [this]) else links g x.
Proof.
  intros N. unfold linked, set_supers, set_subs. rewrite !links_set.
  destruct (decide (x = this)) as [->|N1]; [rewrite !decide_False, decide_True by congruence; done|].
  destruct (decide (x = kind)) as [->|N2].
  - rewrite decide_True by done. by rewrite decide_False by congruence.
  - by rewrite !decide_False by congruence.
Qed.

(** The rank that puts everything below [this] above [kind]. *)
Lemma rank_over g this kind : graph_ok g -> live g this -> live g kind -> ~ reach g kind this ->
  exists rank : Z -> nat, (rank kind < rank this)%nat /\ forall k s, super g k s -> (rank s < rank k)%nat.
Proof.
  intros G L K N. destruct (ok_rank g G) as (rank & R).
  set (below x := match extends g x (m_id (links g this)) with Ok true => true | _ => false end).
  assert (forall x, live g x -> below x = true <-> reach g x this) as B.
  { intros x Lx. unfold below. destruct (extends_kind g G x this Lx L) as (b & -> & Bx). rewrite <- Bx. by destruct b. }
  exists (fun x => if below x then (rank x + rank kind + 1)%nat else rank x). split.
  - destruct (below kind) eqn:Bk; [by apply B in Bk|]. assert (below this = true) as -> by (apply B; [done|apply rtc_refl]). lia.
  - intros k s H. destruct (ok_live g G k s H) as [Lk Ls]. pose proof (R k s H).
    destruct (below s) eqn:Bs.
    + apply B in Bs; [|done]. assert (below k = true) as -> by (apply B; [done|by apply rtc_l with s]). lia.
    + destruct (below k); lia.
Qed.

Lemma linked_ok g this kind : graph_ok g -> live g this -> live g kind -> ~ reach g kind this ->
  (m_id (links g kind) = RootKindId -> m_supers (links g this) = []) ->
  (forall s, super g this s -> m_id (links g s) <> RootKindId) ->
  graph_ok (linked g this kind) /\ same_kinds g (linked g this kind).
Proof.
  intros G L K N Rk Rt. assert (this <> kind) as D by (intros ->; apply N, rtc_refl).
  pose proof (fun x => linked_links g this kind x D) as E.
  assert (same_kinds g (linked g this kind)) as S.
  { split; intros x.
    - unfold linked, set_subs, set_supers. rewrite !live_set; [done|done|by apply live_set].
    - rewrite E. destruct (decide (x = this)) as [->|]; [done|]. by destruct (decide (x = kind)) as [->|].
    - rewrite E. destruct (decide (x = this)) as [->|]; [done|]. by destruct (decide (x = kind)) as [->|]. }
  split; [|done].
  assert (forall k, m_supers (links (linked g this kind) k) = if decide (k = this) then m_supers (links g this) ++ [kind] else m_supers (links g k)) as Ps.
  { intros k. rewrite E. destruct (decide (k = this)) as [->|]; [done|]. by destruct (decide (k = kind)) as [->|]. }
  assert (forall k s, super (linked g this kind) k s <-> super g k s \/ k = this /\ s = kind) as Sp.
  { intros k s. unfold super. rewrite Ps. destruct (decide (k = this)) as [->|]; [rewrite elem_of_app, list_elem_of_singleton|]; naive_solver. }
  destruct S as [S1 S2 S3]. split.
  - intros k k'. rewrite !S1, !S2. apply G.
  - intros k s [H|[-> ->]]%Sp; rewrite !S1; [by apply G|done].
  - intros k s. rewrite Ps, E. pose proof (ok_mirror g G k s) as M. destruct (decide (s = this)) as [->|Ns].
    + simpl. rewrite M. destruct (decide (k = this)) as [->|]; [|done]. rewrite count_snoc. rewrite decide_False by congruence. lia.
    + destruct (decide (s = kind)) as [->|Nk].
      * simpl. rewrite count_snoc, M. destruct (decide (k = this)) as [->|Nt].
        -- rewrite count_snoc, !decide_True by done. done.
        -- rewrite decide_False by congruence. lia.
      * rewrite M. destruct (decide (k = this)) as [->|]; [|done]. rewrite count_snoc. rewrite decide_False by congruence. lia.
  - destruct (rank_over g this kind G L K N) as (rank & R1 & R2). exists rank. intros k s [H|[-> ->]]%Sp; [by apply R2|done].
  - intros k s. rewrite S2. intros [H|[-> ->]]%Sp Hr.
    + rewrite Ps. destruct (decide (k = this)) as [->|]; [|by apply (ok_root g G)]. by destruct (Rt s H).
    + rewrite Ps, decide_True by done. by rewrite (Rk Hr).
Qed.

(** [addSuper], when the root is given as a super only to a kind with no other. *)
Lemma addSuper_ok g this kind : graph_ok g -> live g this -> live g kind ->
  (m_id (links g kind) = RootKindId -> m_supers (links g this) = []) ->
  exists g', addSuper g this kind = Ok g' /\ graph_ok g' /\ same_kinds g g'.
Proof.
  intros G L K Rk. unfold addSuper. destruct (extends_kind g G kind this K L) as (b & Eb & B). rewrite Eb. cbn [res_bind].
  destruct b.
  { by exists g. }
  assert (~ reach g kind this) as N by (intros R; by apply B in R).
  assert (forall g1, graph_ok g1 -> same_kinds g g1 -> (forall k s, super g1 k s -> super g k s) ->
    (m_id (links g kind) = RootKindId -> m_supers (links g1 this) = []) -> (forall s, super g1 this s -> m_id (links g s) <> RootKindId) ->
    exists g', Ok (linked g1 this kind) = Ok g' /\ graph_ok g' /\ same_kinds g g') as Fin.
  { intros g1 G1 S1 M Rk1 Rt1. destruct (linked_ok g1 this kind G1) as [G2 S2].
    - by apply S1. - by apply S1. - intros R. apply N. by apply (reach_mono g g1).
    - by rewrite (same_id g g1 S1). - intros s H. rewrite (same_id g g1 S1). by apply Rt1.
    - exists (linked g1 this kind). split; [done|]. split; [done|]. by apply (same_trans_kinds g g1). }
  destruct (m_supers (links g this)) as [|root rest] eqn:Es.
  { cbn [res_bind]. apply (Fin g); [done|done|done|done|]. intros s H. unfold super in H. rewrite Es in H. set_solver. }
  destruct (bool_decide_reflect (m_id (links g root) = RootKindId)) as [Er|Er].
  - assert (super g this root) as Hr by (unfold super; rewrite Es; apply list_elem_of_here).
    pose proof (ok_root g G this root Hr Er) as Al. rewrite Es in Al. injection Al as ->.
    destruct (removeKind_ok (m_subs (links g root)) this) as (v & Ev & V).
    { rewrite (ok_mirror g G), Es. simpl. by destruct (Z.eq_dec root root); [lia|]. }
    rewrite Ev. cbn [res_bind]. destruct (ok_live g G this root Hr) as [_ Lr].
    set (g1 := set_supers (set_subs g root v) this []).
    assert (this <> root) as D. { intros ->. destruct (ok_rank g G) as (rank & R). specialize (R root root Hr). lia. }
    assert (forall x, links g1 x = if decide (x = this) then with_supers (links g this) [] else if decide (x = root) then with_subs (links g root) v else links g x) as E1.
    { intros x. unfold g1, set_supers, set_subs. rewrite !links_set. destruct (decide (x = this)) as [->|N1].
      - rewrite !decide_True, decide_False by congruence. done.
      - rewrite decide_False by congruence. destruct (decide (x = root)) as [->|]; [by rewrite decide_True|]. by rewrite decide_False by congruence. }
    assert (same_kinds g g1) as S1.
    { split; intros x.
      - unfold g1, set_subs, set_supers. rewrite !live_set; [done|done|by apply live_set].
      - rewrite E1. destruct (decide (x = this)) as [->|]; [done|]. by destruct (decide (x = root)) as [->|].
      - rewrite E1. destruct (decide (x = this)) as [->|]; [done|]. by destruct (decide (x = root)) as [->|]. }
    assert (forall k, m_supers (links g1 k) = if decide (k = this) then [] else m_supers (links g k)) as Ps.
    { intros k. rewrite E1. destruct (decide (k = this)); [done|]. by destruct (decide (k = root)) as [->|]. }
    assert (graph_ok g1) as G1.
    { apply (fewer_ok g); [done|done| | |].
      - intros k s. rewrite Ps. destruct (decide (k = this)); [by right|by left].
      - intros k s. rewrite Ps, E1. pose proof (ok_mirror g G k s) as M. destruct (decide (s = this)) as [->|Ns].
        + simpl. rewrite M. destruct (decide (k = this)) as [->|]; [|done]. rewrite Es. simpl. by destruct (Z.eq_dec root this).
        + destruct (decide (s = root)) as [->|Nr].
          * simpl. rewrite V, M. destruct (decide (k = this)) as [->|]; [|lia]. rewrite Es. simpl. destruct (Z.eq_dec root root); [done|done].
          * rewrite M. destruct (decide (k = this)) as [->|]; [|done]. rewrite Es. simpl. by destruct (Z.eq_dec root s).
      - intros k s H Hs. unfold super in H. rewrite Ps in H |- *. destruct (decide (k = this)); [set_solver|]. by apply (ok_root g G). }
    apply (Fin g1); [done|done| |by rewrite Ps, decide_True|].
    + intros k s. unfold super. rewrite Ps. destruct (decide (k = this)); [set_solver|done].
    + intros s H. unfold super in H. rewrite Ps, decide_True in H by done. set_solver.
  - cbn [res_bind]. apply (Fin g); [done|done|done|by rewrite Es|].
    intros s H Hs. pose proof (ok_root g G this s H Hs) as Al. rewrite Es in Al. by injection Al as -> ->.
Qed.

(** ** Linking anew *)
Definition map_ok (g : Graph) (map : KindMap) : Prop := forall id k, (id, k) ∈ map -> live g k /\ m_id (links g k) = id.
(** No kind extends the root kind by name. *)
Definition no_root (g : Graph) : Prop := forall k, live g k -> RootKindId ∉ m_superIds (links g k).

Lemma map_ok_same g g' map : same_kinds g g' -> map_ok g map -> map_ok g' map.
Proof. intros [S1 S2 _] M id k H. rewrite S1, S2. by apply M. Qed.

Lemma find_kind_in map id k : find_kind map id = Some k -> (id, k) ∈ map.
Proof.
  unfold find_kind. destruct (List.find _ map) as [[i x]|] eqn:E; [|done]. intros [= <-].
  apply List.find_some in E as [H%list_elem_of_In Ei]. apply bool_decide_eq_true in Ei. simpl in *. by subst.
Qed.

(** A walk of links, each sound, is sound. *)
Lemma link_fold {A} (step : Graph -> A -> res Graph) l : forall g, graph_ok g ->
  (forall g1 x, x ∈ l -> graph_ok g1 -> same_kinds g g1 -> exists g2, step g1 x = Ok g2 /\ graph_ok g2 /\ same_kinds g1 g2) ->
  exists g', res_fold step g l = Ok g' /\ graph_ok g' /\ same_kinds g g'.
Proof.
  induction l as [|x l IH]; intros g G H; [by exists g|].
  destruct (H g x) as (g1 & E1 & G1 & S1); [apply list_elem_of_here|done|done|].
  destruct (IH g1 G1) as (g2 & E2 & G2 & S2).
  - intros g3 y Hy G3 S3. apply H; [by apply list_elem_of_further|done|by apply (same_trans_kinds g g1)].
  - exists g2. simpl. rewrite E1. split; [exact E2|]. split; [done|by apply (same_trans_kinds g g1)].
Qed.


(** ** The walk that updates indexes *)
Section once.
Context (g : Graph) (G : graph_ok g) (rank : Z -> nat) (R : forall k s, super g k s -> (rank s < rank k)%nat).

Lemma reach_rank k a : reach g k a -> (rank a <= rank k)%nat.
Proof. induction 1 as [|x y z H _ IH]; [lia|]. specialize (R x y H). lia. Qed.

(** What has been visited when the walk comes to [k]: kinds it is below, and kinds
    whose ancestors have all been visited. *)
Definition seen_ok (v : list Z) (k : Z) : Prop :=
  forall x, x ∈ v -> (rank k < rank x)%nat \/ forall y, reach g x y -> y ∈ v.

(** The kinds of [l] come after their supers, but for those in [v]. *)
Definition supers_first (v l : list Z) : Prop :=
  forall l1 x l2, l = l1 ++ x :: l2 -> forall s, super g x s -> s ∈ v \/ s ∈ l1.

Lemma supers_first_app v l l' : supers_first v l -> supers_first (v ++ l) l' -> supers_first v (l ++ l').
Proof.
  intros F F' l1 x l2 E s Hs. apply app_eq_app in E as (m & [[E1 E2]|[E1 E2]]).
  - destruct m as [|y m]; simpl in E2.
    + subst l'. rewrite app_nil_r in E1. subst l1. destruct (F' [] x l2 eq_refl s Hs) as [[H|H]%elem_of_app|H]; [by left|by right|set_solver].
    + injection E2 as <- E2. subst l. destruct (F l1 x m eq_refl s Hs) as [H|H]; [by left|by right].
  - subst l1 l'. destruct (F' m x l2 eq_refl s Hs) as [[H|H]%elem_of_app|H]; [by left|right; set_solver|right; set_solver].
Qed.

Lemma supers_first_more v v' l : (forall x, x ∈ v -> x ∈ v') -> supers_first v l -> supers_first v' l.
Proof. intros M F l1 x l2 E s Hs. destruct (F l1 x l2 E s Hs) as [H|H]; [left; by apply M|by right]. Qed.

Section own.
Context {S : Type} (own : Z -> S -> res S).

(** The walk is the visit of [l], and adds its kinds to those visited. *)
Definition visits (walk : list Z -> S -> res (list Z * S)) (v new l : list Z) : Prop :=
  forall s, walk v s = let? s' := res_fold (fun s x => own x s) s l in Ok (v ++ new, s').

(** One call from a kind that is not visited. *)
Definition walks_from (fuel : nat) (k : Z) : Prop := forall v, seen_ok v k -> k ∉ v ->
  exists new l, visits (fun v s => updateIndexes g own fuel v k s) v new l /\ NoDup l /\ supers_first v l /\
    (forall x, x ∈ new <-> x ∈ l) /\ forall x, x ∈ l <-> reach g k x /\ x ∉ v.

Lemma walk_supers fuel k ss : (forall s, s ∈ ss -> super g k s) -> (forall s, super g k s -> walks_from fuel s) ->
  forall v, (forall x, x ∈ v -> (rank k <= rank x)%nat \/ forall y, reach g x y -> y ∈ v) ->
  exists new l, (forall s, res_fold (fun '(kindVec, s) i =>
      if bool_decide (i ∈ kindVec) then Ok (kindVec, s) else updateIndexes g own fuel kindVec i s) (v, s) ss =
      let? s' := res_fold (fun s x => own x s) s l in Ok (v ++ new, s')) /\
    NoDup l /\ supers_first v l /\ (forall x, x ∈ new <-> x ∈ l) /\
    (forall x, x ∈ l <-> (exists s, s ∈ ss /\ reach g s x) /\ x ∉ v).
Proof.
  induction ss as [|i ss IH]; intros Hs W v Sv.
  - exists [], []. split; [intros s; simpl; by rewrite app_nil_r|]. split; [constructor|]. split; [by intros [|? ?] ? ? [=]|].
    split; [done|]. intros x. split; [set_solver|]. intros [(s & H & _) _]. set_solver.
  - assert (super g k i) as Hi by (apply Hs, list_elem_of_here). pose proof (R k i Hi) as Ri.
    assert (forall s, s ∈ ss -> super g k s) as Hs' by (intros s H; apply Hs; by apply list_elem_of_further).
    destruct (bool_decide_reflect (i ∈ v)) as [Iv|Iv].
    + destruct (IH Hs' W v Sv) as (new & l & E & D & F & N & M). exists new, l. split; [intros s; simpl; rewrite bool_decide_true by done; apply E|].
      split; [done|]. split; [done|]. split; [done|]. intros x. rewrite M. split; [intros [(s & H & Rs) Nx]; split; [exists s; split; [by apply list_elem_of_further|done]|done]|].
      intros [(s & [->|H]%elem_of_cons & Rs) Nx]; [|split; [by exists s|done]]. exfalso. apply Nx.
      destruct (Sv i Iv) as [L|C]; [lia|by apply C].
    + destruct (W i Hi v) as (new1 & l1 & E1 & D1 & F1 & N1 & M1); [|done|].
      { intros x Hx. destruct (Sv x Hx) as [L|C]; [left; lia|by right]. }
      destruct (IH Hs' W (v ++ new1)) as (new2 & l2 & E2 & D2 & F2 & N2 & M2).
      { intros x [Hx|Hx]%elem_of_app.
        - destruct (Sv x Hx) as [L|C]; [by left|right; intros y Ry; apply elem_of_app; left; by apply C].
        - right. intros y Ry. apply N1, M1 in Hx as [Rx Nx]. apply elem_of_app. destruct (decide (y ∈ v)) as [|Ny]; [by left|right].
          apply N1, M1. split; [by etransitivity|done]. }
      exists (new1 ++ new2), (l1 ++ l2). split; [|split; [|split; [|split]]].
      * intros s. simpl. rewrite bool_decide_false by done. unfold visits in E1. rewrite E1. rewrite res_fold_app, !res_bind_assoc.
        apply res_bind_ext. intros s1. cbn [res_bind]. rewrite E2. apply res_bind_ext. intros s2. by rewrite app_assoc.
      * apply NoDup_app. split; [done|]. split; [|done]. intros x H1 H2. apply M2 in H2 as [_ H2]. apply H2, elem_of_app. right. by apply N1.
      * apply supers_first_app; [done|]. eapply supers_first_more; [|exact F2]. intros x [H|H]%elem_of_app; apply elem_of_app; [by left|right; by apply N1].
      * intros x. rewrite !elem_of_app, N1, N2. done.
      * intros x. rewrite elem_of_app, M1, M2, elem_of_app, N1. split.
        -- intros [[Rx Nx]|[(s & H & Rs) Nx]]; (split; [|tauto]); [exists i; split; [apply list_elem_of_here|done]|exists s; split; [by apply list_elem_of_further|done]].
        -- intros [(s & [->|H]%elem_of_cons & Rs) Nx]; [left; done|]. destruct (decide (x ∈ l1)) as [H1|H1]; [left; by apply M1|].
           right. split; [by exists s|]. tauto.
Qed.

Lemma walk_from fuel : forall k, deep g rank fuel k -> walks_from fuel k.
Proof.
  induction fuel as [|fuel IH]; intros k D; [by apply deep_pos in D|]. intros v Sv Nv.
  destruct (walk_supers fuel k (m_supers (links g k))) with (v := v ++ [k]) as (new & l & E & Dl & F & N & M).
  - done.
  - intros s Hs. apply IH. by apply (deep_step g G rank fuel k s).
  - intros x [Hx| ->%list_elem_of_singleton]%elem_of_app; [|left; lia]. destruct (Sv x Hx) as [L|C]; [left; lia|right].
    intros y Ry. apply elem_of_app. left. by apply C.
  - assert (k ∉ l) as Nk. { intros H. apply M in H as [_ H]. apply H, elem_of_app. right. apply list_elem_of_here. }
    exists (k :: new), (l ++ [k]). split; [|split; [|split; [|split]]].
    + intros s. cbn [updateIndexes]. rewrite E, res_fold_app, !res_bind_assoc. apply res_bind_ext. intros s1. cbn [res_bind res_fold].
      rewrite res_bind_assoc. apply res_bind_ext. intros s2. cbn [res_bind]. by rewrite <- app_assoc.
    + apply NoDup_app. split; [done|]. split; [|apply NoDup_singleton]. intros x H ->%list_elem_of_singleton. done.
    + assert (forall s, super g k s -> s ∈ v \/ s ∈ l) as Ks.
      { intros s Hs. destruct (decide (s ∈ v)) as [|Ns]; [by left|right]. apply M. split; [exists s; split; [done|apply rtc_refl]|].
        rewrite elem_of_app, list_elem_of_singleton. intros [| ->]; [done|]. specialize (R k k Hs). lia. }
      intros l1 x l2 E' s Hs. apply app_eq_app in E' as (m & [[E1 E2]|[E1 E2]]).
      * destruct m as [|y m]; simpl in E2; [injection E2 as -> ->; rewrite app_nil_r in E1; subst l1; by apply Ks|].
        injection E2 as <- ->. destruct (F l1 x m E1 s Hs) as [H|H]; [|by right]. apply elem_of_app in H as [H| ->%list_elem_of_singleton]; [by left|].
        exfalso. assert (x ∈ l) as Hx by (rewrite E1; set_solver). apply M in Hx as [(s & Hk & Rx) _]. pose proof (reach_rank s x Rx). pose proof (R k s Hk). pose proof (R x k Hs). lia.
      * destruct m as [|y m]; simpl in E2; [|injection E2 as <- E2; by destruct m].
        injection E2 as <- <-. rewrite app_nil_r in E1. subst l1. by apply Ks.
    + intros x. rewrite elem_of_cons, elem_of_app, list_elem_of_singleton, N. tauto.
    + intros x. rewrite elem_of_app, list_elem_of_singleton, M, elem_of_app, list_elem_of_singleton. split.
      * intros [[(s & Hs & Rs) Nx]| ->]; [split; [by apply rtc_l with s|tauto]|split; [apply rtc_refl|done]].
      * intros [Rx Nx]. inversion Rx as [|? s ? Hs Rs]; subst; [by right|]. destruct (decide (x = k)) as [->|]; [by right|left].
        split; [by exists s|tauto].
Qed.
End own.
End once.

(** C27: The update of an object reaches the indexes of every kind it belongs to,
    once. In a sound graph the walk of [updateIndexes] from a kind ends, and it is
    the visit, one after the other, of the kind and all its ancestors, each once
    however many ways lead to it, and each after all the kinds it extends; an error in
    one of them ends it. *)
Theorem updateIndexes_once {S : Type} (own : Z -> S -> res S) g k : graph_ok g -> live g k ->
  exists vec l, (forall s, updateIndexes g own (depth g) [] k s = let? s' := res_fold (fun s x => own x s) s l in Ok (vec, s')) /\
    NoDup l /\ (forall x, x ∈ l <-> reach g k x) /\
    forall l1 x l2, l = l1 ++ x :: l2 -> forall s, super g x s -> s ∈ l1.
Proof.
  intros G L. destruct (ok_rank g G) as (rank & R).
  destruct (walk_from g G rank R own (depth g) k (deep_start g G rank k L) []) as (new & l & E & D & F & _ & M).
  - intros x Hx. set_solver.
  - apply not_elem_of_nil.
  - exists new, l. split; [exact E|]. split; [done|]. split; [intros x; rewrite M; set_solver|].
    intros l1 x l2 El s Hs. destruct (F l1 x l2 El s Hs) as [H|H]; [set_solver|done].
Qed.

(** ** At work *)
Module GraphExample.
Definition kind (id : string) (supers : list string) : Links :=
  {| m_id := _T id; m_superIds := map _T supers; m_supers := []; m_subs := [] |}.
Definition ids (l : list string) : list mstring := map _T l.
Definition kinds : KindMap :=
  [(_T "Object:1", 1); (_T "A:1", 2); (_T "B:1", 3); (_T "C:1", 4)]%Z.
Definition start : Graph :=
  <[1 := kind "Object:1" []]> (<[2 := kind "A:1" []]> (<[3 := kind "B:1" []]> (<[4 := kind "C:1" []]> ∅))).
Definition relinked (g : Graph) (k : Z) (l : list string) : Graph :=
  match relink kinds g k (ids l) with Ok g' => g' | Err _ => g end.

Lemma start_live k : live start k -> k ∈ [1; 2; 3; 4].
Proof.
  unfold live, start. intros [l H]. repeat (rewrite lookup_insert_Some in H; destruct H as [[<- _]|[_ H]]; [set_solver|]).
  by rewrite lookup_empty in H.
Qed.

Lemma start_ok : graph_ok start.
Proof.
  assert (forall k, m_supers (links start k) = [] /\ m_subs (links start k) = []) as E.
  { intros k. destruct (decide (live start k)) as [Hk%start_live|N]; [|by rewrite not_live].
    repeat (apply elem_of_cons in Hk as [->|Hk]; [done|]). set_solver. }
  assert (forall k s, ~ super start k s) as N by (intros k s; unfold super; rewrite (proj1 (E k)); apply not_elem_of_nil).
  split.
  - intros k k' Hk%start_live Hk'%start_live.
    repeat (apply elem_of_cons in Hk as [->|Hk]; [repeat (apply elem_of_cons in Hk' as [->|Hk']; [done|]); set_solver|]). set_solver.
  - intros k s H. by destruct (N k s).
  - intros k s. by rewrite (proj1 (E k)), (proj2 (E s)).
  - exists (fun _ => 0%nat). intros k s H. by destruct (N k s).
  - intros k s H. by destruct (N k s).
Qed.


Definition linked3 : Graph := relinked (relinked (relinked start 2 []) 3 []) 4 ["A:1"; "B:1"]%string.

Lemma updateIndexes_once_witness : exists vec l,
  updateIndexes start (fun k s => Ok (s ++ [k])) (depth start) [] 4 [] = (let? s' := res_fold (fun s x => Ok (s ++ [x])) [] l in Ok (vec, s')) /\ NoDup l.
Proof.
  destruct (updateIndexes_once (fun k (s : list Z) => Ok (s ++ [k])) start 4) as (vec & l & E & D & _).
  - apply start_ok.
  - by eexists.
  - exists vec, l. split; [apply E|exact D].
Defined.

(** With a diamond above it the root comes first and once. *)
Lemma diamond : updateIndexes linked3 (fun k s => Ok (s ++ [k])) (depth linked3) [] 4 [] = Ok ([4; 2; 1; 3], [1; 2; 3; 4]).
Proof. by vm_compute. Qed.

(** A kind that stops to extend A:1, but still extends B:1, is deleted from the
    indexes of the root, which is above both. *)
Lemma shared_ancestor_lost :
  moveObject linked3 (fun k s => Ok (s ++ [(true, k)])) (fun k s => Ok (s ++ [(false, k)])) []
    (diffSupers kinds (ids ["A:1"; "B:1"]%string) (ids ["B:1"]%string)) [] = Ok [(false, 1); (false, 2)] /\
  extends (relinked linked3 4 ["B:1"]%string) 4 RootKindId = Ok true.
Proof. split; by vm_compute. Qed.

(** A kind that names the root kind between others loses the link to the last one
    when the first is put again: B:1 still has it as a sub. *)
Lemma named_root_breaks :
  let g := relinked (relinked (relinked (relinked start 2 []) 3 []) 4 ["A:1"; "Object:1"; "B:1"]%string) 2 [] in
  m_supers (links g 4) = [2] /\ m_subs (links g 3) = [4].
Proof. split; by vm_compute. Qed.

(** Putting the root kind again cuts it off the kinds it was the only super of. *)
Lemma root_again :
  extends linked3 2 RootKindId = Ok true /\ extends (relinked linked3 1 []) 2 RootKindId = Ok false.
Proof. split; by vm_compute. Qed.
End GraphExample.
