(* ===== verification/Schema.v ===== *)
(** * Schemas: src/src/core/MojSchema.cpp

    A schema is a tree of rules made from an object and checked against others.
    Regular expressions are a library's. *)

From S2P Require Import Prelude Containers CoreUtil Number Object Json JsonRoundTrip.

Module MojSchema.
Definition AdditionalPropertiesKey := _T "additionalProperties".
Definition DisallowKey := _T "disallow".
Definition DivisibleByKey := _T "divisibleBy".
Definition EnumKey := _T "enum".
Definition ItemsKey := _T "items".
Definition MinimumKey := _T "minimum".
Definition MinimumCanEqualKey := _T "minimumCanEqual".
Definition MinItemsKey := _T "minItems".
Definition MinLengthKey := _T "minLength".
Definition MaximumKey := _T "maximum".
Definition MaximumCanEqualKey := _T "maximumCanEqual".
Definition MaxItemsKey := _T "maxItems".
Definition MaxLengthKey := _T "maxLength".
Definition OptionalKey := _T "optional".
Definition RequiredKey := _T "required".
Definition PropertiesKey := _T "properties".
Definition RequiresKey := _T "requires".
Definition TypeKey := _T "type".
Definition UniqueItemsKey := _T "uniqueItems".
Definition PatternKey := _T "pattern".

(** [boost::regex]: a text may be refused; a match is of a whole string. *)
Class Regex := {
  regex : Type;
  regex_make : mstring -> option regex;
  regex_match : mstring -> regex -> bool;
  strToDecimal : mstring -> Z (* the C library's reading of a number in a string *)
}.

Record Result := { m_valid : bool; m_msg : mstring }.

Definition valid (res : Result) (val : bool) : Result := {| m_valid := val; m_msg := m_msg res |}.
(** [valid(false)], then the message is assigned. *)
Definition fail (msg : mstring) : Result := {| m_valid := false; m_msg := msg |}.
Definition append (res : Result) (s : mstring) : Result := {| m_valid := m_valid res; m_msg := m_msg res ++ s |}.

Section schema.
Context `{!Regex}.

Inductive Rule :=
| SchemaRule (m_rules : list Rule) (m_optional : bool)
| SimpleTypeRule (m_types : list MojObject.Type_)
| UnionTypeRule (m_rules : list Rule)
| SimpleDisallowRule (m_types : list MojObject.Type_)
| UnionDisallowRule (m_rules : list Rule)
| AdditionalPropertiesRule (m_schemaRule : option Rule) (m_allowAdditional : bool)
| PropertiesRule (m_props : list (mstring * Rule)) (m_additionalRule : option Rule)
| SimpleItemsRule (m_schemaRule : Rule)
| TupleItemsRule (m_rules : list Rule) (m_additionalRule : option Rule)
| PatternRule (m_pattern : mstring) (m_regexp : regex)
| RequiresRule (m_requiredProp : mstring)
| MinRule (m_val : Z) (m_canEqual : bool)
| MaxRule (m_val : Z) (m_canEqual : bool)
| MinItemsRule (m_val : Z)
| MaxItemsRule (m_val : Z)
| UniqueItemsRule
| MinLenRule (m_val : Z)
| MaxLenRule (m_val : Z)
| EnumRule (m_vals : list MojObject)
| DivisibleRule (m_val : Z).

Definition optional (rule : Rule) : bool := match rule with SchemaRule _ o => o | _ => true end.

(** ** [validate] *)
Section loops.
Context (validate : Rule -> MojObject -> MojObject -> Result -> res Result).

(** The rules of a schema, up to the first that fails. *)
Fixpoint every (rules : list Rule) (val parent : MojObject) (r : Result) : res Result :=
  match rules with
  | [] => Ok r
  | rule :: rules' =>
      let? r := validate rule val parent r in
      if m_valid r then every rules' val parent r else Ok r
  end.

(** The alternatives of a union, up to the first that holds. *)
Fixpoint some (rules : list Rule) (val parent : MojObject) (r : Result) : res Result :=
  match rules with
  | [] => Ok (valid r false)
  | rule :: rules' =>
      let? r := validate rule val parent (valid r true) in
      if m_valid r then Ok r else some rules' val parent r
  end.

(** One rule for all items of [val]. *)
Fixpoint items (rule : Rule) (l : list MojObject) (val : MojObject) (r : Result) : res Result :=
  match l with
  | [] => Ok r
  | x :: l' =>
      let? r := validate rule x val r in
      if m_valid r then items rule l' val r else Ok r
  end.

(** A rule for each item; what is left of both when no rule failed. *)
Fixpoint tuple (rules : list Rule) (l : list MojObject) (val : MojObject) (r : Result)
  : res (Result + (Result * bool * list MojObject)) :=
  match rules, l with
  | rule :: rules', x :: l' =>
      let? r := validate rule x val r in
      if m_valid r then tuple rules' l' val r else Ok (inl r)
  | _, _ => Ok (inr (r, match rules with [] => false | _ => true end, l))
  end.

(** The properties of the schema and of the value, both in the order of names. *)
Section properties.
Context (additional : option Rule) (val : MojObject).

Fixpoint properties (props : list (mstring * Rule)) : list (mstring * MojObject) -> Result -> res Result :=
  fix values (vals : list (mstring * MojObject)) (r : Result) : res Result :=
    match props, vals with
    | [], [] => Ok r
    | p :: props', [] =>
        if optional p.2 then properties props' [] r
        else Ok (fail (_T "required property not found - '" ++ p.1 ++ _T "'"))
    | [], v :: vals' =>
        match additional with
        | Some rule =>
            let? r := validate rule v.2 val r in
            if m_valid r then values vals' r else Ok (append r (_T " - '" ++ v.1 ++ _T "'"))
        | None => values vals' r
        end
    | p :: props', v :: vals' =>
        let comp := MojStrCmp p.1 v.1 in
        if 0 <? comp then
          match additional with
          | Some rule =>
              let? r := validate rule v.2 val r in
              if m_valid r then values vals' r else Ok (append r (_T " - '" ++ v.1 ++ _T "'"))
          | None => values vals' r
          end
        else if comp <? 0 then
          if optional p.2 then properties props' vals r
          else Ok (fail (_T "required property not found - '" ++ p.1 ++ _T "'"))
        else
          let? r := validate p.2 v.2 val r in
          if m_valid r then properties props' vals' r
          else Ok (append r (_T " for property '" ++ p.1 ++ _T "'"))
    end.
End properties.
End loops.

Definition is_number (val : MojObject) : bool :=
  bool_decide (MojObject.type val = MojObject.TypeInt \/ MojObject.type val = MojObject.TypeDecimal).

Definition is_array (val : MojObject) : bool := bool_decide (MojObject.type val = MojObject.TypeArray).

(** The loops over the pairs of items. *)
Fixpoint duplicates (l : list MojObject) : bool :=
  match l with [] => false | x :: l' => existsb (MojObject.equals x) l' || duplicates l' end.

(** The least integer modulo -1 is undefined. *)
Definition remainder (a b : Z) : res Z :=
  if (a =? MojInt64Min) && (b =? -1) then Err AssertFailed else Ok (Z.rem a b).

Definition fail_if (b : bool) (msg : mstring) (r : Result) : Result := if b then fail msg else r.

Fixpoint validate (rule : Rule) (val parent : MojObject) (r : Result) : res Result :=
  match rule with
  | SchemaRule m_rules _ => every validate m_rules val parent r
  | SimpleTypeRule m_types => Ok (fail_if (negb (bool_decide (MojObject.type val ∈ m_types))) (_T "invalid type") r)
  | UnionTypeRule m_rules => some validate m_rules val parent r
  | SimpleDisallowRule m_types => Ok (fail_if (bool_decide (MojObject.type val ∈ m_types)) (_T "type disallowed") r)
  | UnionDisallowRule m_rules =>
      let? typeRes := some validate m_rules val parent {| m_valid := true; m_msg := [] |} in
      Ok (fail_if (m_valid typeRes) (_T "type disallowed") r)
  | AdditionalPropertiesRule m_schemaRule m_allowAdditional =>
      if negb m_allowAdditional then Ok (fail (_T "property not allowed"))
      else match m_schemaRule with Some rule => validate rule val parent r | None => Ok r end
  | PropertiesRule m_props m_additionalRule =>
      properties validate m_additionalRule val m_props (MojObject.ensureObject val) r
  | SimpleItemsRule m_schemaRule => items validate m_schemaRule (MojObject.ensureArray val) val r
  | TupleItemsRule m_rules m_additionalRule =>
      if is_array val then
        let? t := tuple validate m_rules (MojObject.ensureArray val) val r in
        match t with
        | inl r => Ok r
        | inr (r, few, l) =>
            let r := fail_if few (_T "too few items in array") r in
            match m_additionalRule with Some rule => items validate rule l val r | None => Ok r end
        end
      else Ok r
  | PatternRule m_pattern m_regexp =>
      let string_val := match MojObjectString.stringValue val with Ok s => s | Err _ => [] end in
      Ok (fail_if (negb (regex_match string_val m_regexp))
            (_T "pattern : '" ++ m_pattern ++ _T "' and value : '" ++ string_val ++ _T "' do not match") r)
  | RequiresRule m_requiredProp =>
      Ok (fail_if (negb (MojObject.contains parent m_requiredProp)) (_T "required prop not found - '" ++ m_requiredProp ++ _T "'") r)
  | MinRule m_val m_canEqual =>
      let decVal := MojObject.decimalValue strToDecimal val in
      Ok (fail_if (is_number val && negb (if m_canEqual then m_val <=? decVal else m_val <? decVal)) (_T "value out of range") r)
  | MaxRule m_val m_canEqual =>
      let decVal := MojObject.decimalValue strToDecimal val in
      Ok (fail_if (is_number val && negb (if m_canEqual then decVal <=? m_val else decVal <? m_val)) (_T "value out of range") r)
  | MinItemsRule m_val =>
      Ok (fail_if (is_array val && negb (m_val <=? Z.of_nat (MojObject.size val))) (_T "array length out of range") r)
  | MaxItemsRule m_val =>
      Ok (fail_if (is_array val && negb (Z.of_nat (MojObject.size val) <=? m_val)) (_T "array length out of range") r)
  | UniqueItemsRule => Ok (fail_if (is_array val && duplicates (MojObject.ensureArray val)) (_T "duplicate items") r)
  | MinLenRule m_val =>
      Ok match val with
         | StringImpl str => fail_if (negb (m_val <=? Z.of_nat (length str))) (_T "string length out of range") r
         | _ => r
         end
  | MaxLenRule m_val =>
      Ok match val with
         | StringImpl str => fail_if (negb (Z.of_nat (length str) <=? m_val)) (_T "string length out of range") r
         | _ => r
         end
  | EnumRule m_vals => Ok (fail_if (negb (MojSet.contains MojObject.compare m_vals val)) (_T "invalid enum value") r)
  | DivisibleRule m_val =>
      if negb (is_number val) then Ok r
      else
        let msg := _T "value not divisible by " ++ format_lld m_val in
        if m_val =? 0 then Ok (fail msg)
        else
          let? rem := remainder (MojObject.intValue val) m_val in
          Ok (fail_if (negb (rem =? 0) ||
                       bool_decide (MojObject.type val = MojObject.TypeDecimal) &&
                       negb (MojDecimal.fraction (MojObject.decimalValue strToDecimal val) =? 0)) msg r)
  end.

(** ** [fromObject] *)
(** The strings a schema names, for the tokens of its kind. *)
Abbreviation StringSet := (list mstring).

(** What [addRule] adds for a key, when the key is there. *)
Definition when {A} (v : option A) (f : A -> StringSet -> res (Rule * StringSet)) (strs : StringSet)
  : res (list Rule * StringSet) :=
  match v with Some v => let? (rule, strs) := f v strs in Ok ([rule], strs) | None => Ok ([], strs) end.

Definition typeFromObject (obj : MojObject) : res (list MojObject.Type_) :=
  let? typeStr := MojObjectString.stringValue obj in
  if bool_decide (typeStr = _T "null") then Ok [MojObject.TypeNull]
  else if bool_decide (typeStr = _T "object") then Ok [MojObject.TypeObject]
  else if bool_decide (typeStr = _T "array") then Ok [MojObject.TypeArray]
  else if bool_decide (typeStr = _T "string") then Ok [MojObject.TypeString]
  else if bool_decide (typeStr = _T "boolean") then Ok [MojObject.TypeBool]
  else if bool_decide (typeStr = _T "integer") then Ok [MojObject.TypeInt]
  else if bool_decide (typeStr = _T "number") then Ok [MojObject.TypeDecimal; MojObject.TypeInt]
  else Err MojErrInvalidSchema.

Definition patternFromObject (obj : MojObject) : res Rule :=
  let? m_pattern := MojObjectString.stringValue obj in
  match regex_make m_pattern with Some m_regexp => Ok (PatternRule m_pattern m_regexp) | None => Err MojErrJson end.

Definition enumFromObject (obj : MojObject) (strs : StringSet) : Rule * StringSet :=
  (EnumRule (fold_left (MojSet.put MojObject.compare) (MojObject.ensureArray obj) []),
   fold_left (fun strs i => match i with StringImpl str => MojSet.put MojStrCmp strs str | _ => strs end)
     (MojObject.ensureArray obj) strs).

Section parts.
Context (schemaFromObject : MojObject -> StringSet -> res (Rule * StringSet)).

Definition additionalFromObject (obj : MojObject) (strs : StringSet) : res (Rule * StringSet) :=
  match obj with
  | BoolImpl b => Ok (AdditionalPropertiesRule None b, strs)
  | _ => let? (rule, strs) := schemaFromObject obj strs in Ok (AdditionalPropertiesRule (Some rule) true, strs)
  end.

(** [UnionTypeRule::fromObject], shared by the rules derived from it. *)
Definition unionFromObject (obj : MojObject) (strs : StringSet) : res (list Rule * StringSet) :=
  res_fold (fun '(rules, strs) i =>
      let? (rule, strs) :=
        match i with
        | StringImpl _ => let? m_types := typeFromObject i in Ok (SimpleTypeRule m_types, strs)
        | _ => schemaFromObject i strs
        end in
      Ok (rules ++ [rule], strs))
    ([], strs) (MojObject.ensureArray obj).

Definition propertiesFromObject (obj : MojObject) (strs : StringSet) : res (list (mstring * Rule) * StringSet) :=
  res_fold (fun '(props, strs) i =>
      let? (rule, strs) := schemaFromObject i.2 strs in
      Ok (MojMap.put MojStrCmp props i.1 rule, MojSet.put MojStrCmp strs i.1))
    ([], strs) (MojObject.ensureObject obj).
End parts.

Fixpoint schemaFromObject (fuel : nat) (obj : MojObject) (strs : StringSet) : res (Rule * StringSet) :=
  match fuel with
  | O => Err AssertFailed
  | S fuel' =>
      let sub := schemaFromObject fuel' in
      let? (additionalProperties, strs) := when (MojObject.get obj AdditionalPropertiesKey) (additionalFromObject sub) strs in
      let additional := head additionalProperties in
      (* [val] keeps the value of additionalProperties when there are no properties *)
      let? (r_properties, strs) :=
        when (match MojObject.get obj PropertiesKey with Some val => Some val | None => MojObject.get obj AdditionalPropertiesKey end)
          (fun val strs => let? (props, strs) := propertiesFromObject sub val strs in Ok (PropertiesRule props additional, strs)) strs in
      let m_optional :=
        match MojObject.get_bool obj OptionalKey, MojObject.get_bool obj RequiredKey with
        | Some b, _ => b
        | None, Some required => negb required
        | None, None => true
        end in
      let? (r_type, strs) := when (MojObject.get obj TypeKey)
        (fun val strs =>
           if is_array val then let? (rules, strs) := unionFromObject sub val strs in Ok (UnionTypeRule rules, strs)
           else let? m_types := typeFromObject val in Ok (SimpleTypeRule m_types, strs)) strs in
      let? (r_disallow, strs) := when (MojObject.get obj DisallowKey)
        (fun val strs =>
           if is_array val then let? (rules, strs) := unionFromObject sub val strs in Ok (UnionDisallowRule rules, strs)
           else let? m_types := typeFromObject val in Ok (SimpleDisallowRule m_types, strs)) strs in
      let? (r_items, strs) := when (MojObject.get obj ItemsKey)
        (fun val strs =>
           if is_array val then let? (rules, strs) := unionFromObject sub val strs in Ok (TupleItemsRule rules additional, strs)
           else let? (rule, strs) := sub val strs in Ok (SimpleItemsRule rule, strs)) strs in
      let? (r_pattern, strs) := when (MojObject.get obj PatternKey)
        (fun val strs => let? rule := patternFromObject val in Ok (rule, strs)) strs in
      let? (r_requires, strs) := when (MojObject.get obj RequiresKey)
        (fun val strs => let? s := MojObjectString.stringValue val in Ok (RequiresRule s, strs)) strs in
      let canEqual key := default true (MojObject.get_bool obj key) in
      let? (r_min, strs) := when (MojObject.get_decimal strToDecimal obj MinimumKey)
        (fun val strs => Ok (MinRule val (canEqual MinimumCanEqualKey), strs)) strs in
      let? (r_max, strs) := when (MojObject.get_decimal strToDecimal obj MaximumKey)
        (fun val strs => Ok (MaxRule val (canEqual MaximumCanEqualKey), strs)) strs in
      let? (r_minItems, strs) := when (MojObject.get_int obj MinItemsKey) (fun val strs => Ok (MinItemsRule val, strs)) strs in
      let? (r_maxItems, strs) := when (MojObject.get_int obj MaxItemsKey) (fun val strs => Ok (MaxItemsRule val, strs)) strs in
      let? (r_unique, strs) := when (if default false (MojObject.get_bool obj UniqueItemsKey) then Some tt else None)
        (fun _ strs => Ok (UniqueItemsRule, strs)) strs in
      let? (r_minLength, strs) := when (MojObject.get_int obj MinLengthKey) (fun val strs => Ok (MinLenRule val, strs)) strs in
      let? (r_maxLength, strs) := when (MojObject.get_int obj MaxLengthKey) (fun val strs => Ok (MaxLenRule val, strs)) strs in
      let? (r_enum, strs) := when (MojObject.get obj EnumKey) (fun val strs => Ok (enumFromObject val strs)) strs in
      let? (r_divisible, strs) := when (MojObject.get_int obj DivisibleByKey) (fun val strs => Ok (DivisibleRule val, strs)) strs in
      Ok (SchemaRule (r_properties ++ r_type ++ r_disallow ++ r_items ++ r_pattern ++ r_requires ++ r_min ++ r_max ++
                      r_minItems ++ r_maxItems ++ r_unique ++ r_minLength ++ r_maxLength ++ r_enum ++ r_divisible) m_optional, strs)
  end.

(** How deep an object is nested. *)
Fixpoint depth (obj : MojObject) : nat :=
  match obj with
  | ObjectImpl m => S (fold_right (fun kv n => depth kv.2 `max` n)%nat O m)
  | ArrayImpl v => S (fold_right (fun x n => depth x `max` n)%nat O v)
  | _ => 1
  end.

(** ** [MojSchema] *)
Record Schema := { m_rule : option Rule; m_strings : StringSet }.

Definition init : Schema := {| m_rule := None; m_strings := [] |}.
Definition clear (s : Schema) : Schema := {| m_rule := None; m_strings := m_strings s |}.

Definition fromObject (s : Schema) (obj : MojObject) : res Schema :=
  let? (rule, strs) := schemaFromObject (depth obj) obj (m_strings s) in
  Ok {| m_rule := Some rule; m_strings := strs |}.

Definition validate_obj (s : Schema) (obj : MojObject) (r : Result) : res Result :=
  match m_rule s with
  | Some rule => validate rule obj UndefinedImpl (valid r true)
  | None => Ok (valid r true)
  end.
End schema.
End MojSchema.
