(* ===== verification/SchemaSpec.v ===== *)
(** * What a schema accepts

    [holds] says when a value satisfies a rule, by the rule's meaning and not by the
    loops of the code; [validate] decides it. *)

From S2P Require Import Prelude Containers CoreUtil Number Object Json JsonRoundTrip Schema.
Import MojSchema.

Section spec.
Context {RX : Regex}.

(** ** The meaning of a rule *)
Definition text (val : MojObject) : mstring := match MojObjectString.stringValue val with Ok s => s | Err _ => [] end.

Fixpoint holds (rule : Rule) (val parent : MojObject) : Prop :=
  match rule with
  | SchemaRule rules _ => fold_right (fun rule P => holds rule val parent /\ P) True rules
  | SimpleTypeRule types => MojObject.type val ∈ types
  | UnionTypeRule rules => fold_right (fun rule P => holds rule val parent \/ P) False rules
  | SimpleDisallowRule types => MojObject.type val ∉ types
  | UnionDisallowRule rules => ~ fold_right (fun rule P => holds rule val parent \/ P) False rules
  | AdditionalPropertiesRule schema allow =>
      allow = true /\ match schema with Some rule => holds rule val parent | None => True end
  | PropertiesRule props additional =>
      fold_right (fun p P => match MojObject.get val p.1 with
                             | Some v => holds p.2 v val
                             | None => optional p.2 = true
                             end /\ P) True props /\
      Forall (fun v => MojMap.contains MojStrCmp props v.1 = true \/
                       match additional with Some rule => holds rule v.2 val | None => True end)
        (MojObject.ensureObject val)
  | SimpleItemsRule rule => Forall (fun x => holds rule x val) (MojObject.ensureArray val)
  | TupleItemsRule rules additional =>
      match val with
      | ArrayImpl l =>
          (length rules <= length l)%nat /\
          (fix zip rules l := match rules, l with rule :: rules', x :: l' => holds rule x val /\ zip rules' l' | _, _ => True end) rules l /\
          match additional with Some rule => Forall (fun x => holds rule x val) (skipn (length rules) l) | None => True end
      | _ => True
      end
  | PatternRule _ re => regex_match (text val) re = true
  | RequiresRule prop => MojObject.contains parent prop = true
  | MinRule m canEqual =>
      let d := MojObject.decimalValue strToDecimal val in is_number val = true -> if canEqual : bool then m <= d else m < d
  | MaxRule m canEqual =>
      let d := MojObject.decimalValue strToDecimal val in is_number val = true -> if canEqual : bool then d <= m else d < m
  | MinItemsRule m => forall l, val = ArrayImpl l -> m <= Z.of_nat (length l)
  | MaxItemsRule m => forall l, val = ArrayImpl l -> Z.of_nat (length l) <= m
  | UniqueItemsRule => forall l, val = ArrayImpl l -> forall i j x y, (i < j)%nat -> l !! i = Some x -> l !! j = Some y ->
                       MojObject.equals x y = false
  | MinLenRule m => forall s, val = StringImpl s -> m <= Z.of_nat (length s)
  | MaxLenRule m => forall s, val = StringImpl s -> Z.of_nat (length s) <= m
  | EnumRule vals => exists x, x ∈ vals /\ MojObject.compare x val = 0
  | DivisibleRule m => is_number val = true -> m <> 0 /\ (m | MojObject.intValue val) /\
      forall rep, val = DecimalImpl rep -> MojDecimal.fraction rep = 0
  end.

(** ** Induction over rules *)
Section induction.
Context (P : Rule -> Prop).
Context (HS : forall l o, Forall P l -> P (SchemaRule l o)) (HU : forall l, Forall P l -> P (UnionTypeRule l))
  (HD : forall l, Forall P l -> P (UnionDisallowRule l))
  (HA : forall o a, match o with Some r => P r | None => True end -> P (AdditionalPropertiesRule o a))
  (HP : forall l o, Forall (fun p => P p.2) l -> match o with Some r => P r | None => True end -> P (PropertiesRule l o))
  (HI : forall r, P r -> P (SimpleItemsRule r))
  (HT : forall l o, Forall P l -> match o with Some r => P r | None => True end -> P (TupleItemsRule l o))
  (HL : forall r, match r with
                  | SchemaRule _ _ | UnionTypeRule _ | UnionDisallowRule _ | AdditionalPropertiesRule _ _
                  | PropertiesRule _ _ | SimpleItemsRule _ | TupleItemsRule _ _ => False
                  | _ => True
                  end -> P r).

Fixpoint Rule_nested_ind (r : Rule) {struct r} : P r :=
  let all := fix all (l : list Rule) : Forall P l :=
    match l with [] => Forall_nil_2 _ | x :: l' => Forall_cons_2 _ x l' (Rule_nested_ind x) (all l') end in
  let opt (o : option Rule) : match o with Some r => P r | None => True end :=
    match o with Some x => Rule_nested_ind x | None => I end in
  match r with
  | SchemaRule l o => HS l o (all l)
  | UnionTypeRule l => HU l (all l)
  | UnionDisallowRule l => HD l (all l)
  | AdditionalPropertiesRule o a => HA o a (opt o)
  | PropertiesRule l o =>
      HP l o ((fix props (l : list (mstring * Rule)) : Forall (fun p => P p.2) l :=
                 match l with [] => Forall_nil_2 _ | x :: l' => Forall_cons_2 _ x l' (Rule_nested_ind x.2) (props l') end) l) (opt o)
  | SimpleItemsRule r => HI r (Rule_nested_ind r)
  | TupleItemsRule l o => HT l o (all l) (opt o)
  | (SimpleTypeRule _ | SimpleDisallowRule _ | PatternRule _ _ | RequiresRule _ | MinRule _ _ | MaxRule _ _ | MinItemsRule _
    | MaxItemsRule _ | UniqueItemsRule | MinLenRule _ | MaxLenRule _ | EnumRule _ | DivisibleRule _) as leaf => HL leaf I
  end.
End induction.

(** A condition on a rule and the rules it is made of. *)
Section everywhere.
Context (p : Rule -> Prop).
Fixpoint everywhere (r : Rule) : Prop :=
  p r /\
  match r with
  | SchemaRule l _ | UnionTypeRule l | UnionDisallowRule l => fold_right (fun r P => everywhere r /\ P) True l
  | AdditionalPropertiesRule o _ => match o with Some r => everywhere r | None => True end
  | PropertiesRule l o => fold_right (fun kv P => everywhere kv.2 /\ P) True l /\ match o with Some r => everywhere r | None => True end
  | SimpleItemsRule r => everywhere r
  | TupleItemsRule l o => fold_right (fun r P => everywhere r /\ P) True l /\ match o with Some r => everywhere r | None => True end
  | _ => True
  end.
End everywhere.

Definition sorted_rule (r : Rule) : Prop := match r with PropertiesRule props _ => MojRbTreeBase.sorted fst MojStrCmp props | _ => True end.
Definition divisor_ok (r : Rule) : Prop := match r with DivisibleRule m => m <> -1 | _ => True end.

(** The properties of a schema are in order, and no divisor is -1. *)
Definition wf (r : Rule) : Prop := everywhere sorted_rule r /\ everywhere divisor_ok r.

(** ** The loops *)
(** [validate] decides a rule for a value. *)
Definition decides (rule : Rule) (val parent : MojObject) : Prop :=
  forall r, m_valid r = true -> exists r', validate rule val parent r = Ok r' /\ (m_valid r' = true <-> holds rule val parent).

Lemma fail_if_spec b msg r (P : Prop) : m_valid r = true -> (b = false <-> P) ->
  exists r', Ok (fail_if b msg r) = Ok r' /\ (m_valid r' = true <-> P).
Proof. intros V E. eexists; split; [done|]. destruct b; simpl; [|by rewrite V, <- E]. rewrite <- E. done. Qed.

Lemma every_spec rules val parent r : m_valid r = true -> Forall (fun rule => decides rule val parent) rules ->
  exists r', every validate rules val parent r = Ok r' /\
    (m_valid r' = true <-> fold_right (fun rule P => holds rule val parent /\ P) True rules).
Proof.
  intros V F. revert r V. induction F as [|rule rules D _ IH]; intros r V; [by exists r|]. simpl.
  destruct (D r V) as (r1 & -> & E). simpl. destruct (m_valid r1) eqn:V1.
  - destruct (IH r1 V1) as (r2 & -> & E2). exists r2. split; [done|]. rewrite E2. naive_solver.
  - exists r1. split; [done|]. rewrite V1. naive_solver.
Qed.

Lemma some_spec rules val parent r : Forall (fun rule => decides rule val parent) rules ->
  exists r', some validate rules val parent r = Ok r' /\
    (m_valid r' = true <-> fold_right (fun rule P => holds rule val parent \/ P) False rules).
Proof.
  intros F. revert r. induction F as [|rule rules D _ IH]; intros r; simpl.
  - eexists; split; [done|]. done.
  - destruct (D (valid r true) eq_refl) as (r1 & -> & E). simpl. destruct (m_valid r1) eqn:V1.
    + exists r1. split; [done|]. rewrite V1. naive_solver.
    + destruct (IH r1) as (r2 & -> & E2). exists r2. split; [done|]. rewrite E2. naive_solver.
Qed.

Lemma items_spec rule l val r : m_valid r = true -> Forall (fun x => decides rule x val) l ->
  exists r', items validate rule l val r = Ok r' /\ (m_valid r' = true <-> Forall (fun x => holds rule x val) l).
Proof.
  intros V F. revert r V. induction F as [|x l D _ IH]; intros r V; simpl; [exists r; split; [done|]; split; [constructor|done]|].
  destruct (D r V) as (r1 & -> & E). simpl. destruct (m_valid r1) eqn:V1.
  - destruct (IH r1 V1) as (r2 & -> & E2). exists r2. split; [done|]. rewrite Forall_cons, E2. naive_solver.
  - exists r1. split; [done|]. rewrite Forall_cons, V1. naive_solver.
Qed.

(** The items that have a rule of their own. *)
Definition zip_holds (val : MojObject) : list Rule -> list MojObject -> Prop :=
  fix zip rules l := match rules, l with rule :: rules', x :: l' => holds rule x val /\ zip rules' l' | _, _ => True end.

Lemma tuple_spec rules l val r : m_valid r = true -> Forall (fun rule => Forall (fun x => decides rule x val) l) rules ->
  exists t, tuple validate rules l val r = Ok t /\
    match t with
    | inl r' => m_valid r' = false /\ ~ zip_holds val rules l
    | inr (r', few, rest) => m_valid r' = true /\ zip_holds val rules l /\ rest = skipn (length rules) l /\ few = negb (length rules <=? length l)%nat
    end.
Proof.
  revert l r. induction rules as [|rule rules IH]; intros l r V F; [by eexists|].
  apply Forall_cons in F as [D F]. destruct l as [|x l]; [by eexists|].
  apply Forall_cons in D as [D _]. simpl. destruct (D r V) as (r1 & -> & E). simpl. destruct (m_valid r1) eqn:V1.
  - destruct (IH l r1 V1) as (t & -> & T).
    { eapply Forall_impl; [exact F|]. intros y Hy. by apply Forall_cons in Hy as [_ Hy]. }
    exists t. split; [done|]. destruct t as [r'|[[r' few] rest]]; [naive_solver|]. split; [apply T|]. split; [split; [by apply E|apply T]|apply T].
  - eexists; split; [done|]. simpl. split; [done|]. intros [H _]. apply E in H. congruence.
Qed.

(** ** The merge of the properties *)
Section merge.
Context (additional : option Rule) (val : MojObject).

Definition prop_ok (vals : list (mstring * MojObject)) (p : mstring * Rule) : Prop :=
  match MojMap.get MojStrCmp vals p.1 with Some v => holds p.2 v val | None => optional p.2 = true end.
Definition extra_ok (props : list (mstring * Rule)) (v : mstring * MojObject) : Prop :=
  MojMap.contains MojStrCmp props v.1 = true \/ match additional with Some rule => holds rule v.2 val | None => True end.

Lemma get_skip {V} (n : mstring * V) m k : MojStrCmp n.1 k <> 0 -> MojMap.get MojStrCmp (n :: m) k = MojMap.get MojStrCmp m k.
Proof. intros H. unfold MojMap.get, MojRbTreeBase.find. simpl. by destruct (Z.eqb_spec (MojStrCmp n.1 k) 0). Qed.

Lemma get_hit {V} (n : mstring * V) m k : MojStrCmp n.1 k = 0 -> MojMap.get MojStrCmp (n :: m) k = Some n.2.
Proof. intros H. unfold MojMap.get, MojRbTreeBase.find. simpl. by rewrite H. Qed.

Lemma get_above {V} (m : list (mstring * V)) k : (forall n, n ∈ m -> MojStrCmp n.1 k <> 0) -> MojMap.get MojStrCmp m k = None.
Proof. intros H. unfold MojMap.get. by rewrite (proj2 (MojRbTreeBase.find_None fst MojStrCmp k m) H). Qed.

Lemma contains_get {V} (m : list (mstring * V)) k :
  MojMap.contains MojStrCmp m k = match MojMap.get MojStrCmp m k with Some _ => true | None => false end.
Proof. unfold MojMap.contains, MojMap.get. by destruct (MojRbTreeBase.find _ _ _ _). Qed.

Abbreviation smap := (MojRbTreeBase.sorted fst MojStrCmp).

Lemma Forall_iff_in {A} (P Q : A -> Prop) l : (forall x, x ∈ l -> P x <-> Q x) -> Forall P l <-> Forall Q l.
Proof. intros H. rewrite !Forall_forall. naive_solver. Qed.

(** A node below all of another map's, or above one. *)
Lemma below_all {V W} (n : mstring * V) (m : mstring * W) l : smap (m :: l) -> MojStrCmp n.1 m.1 < 0 ->
  forall x, x ∈ m :: l -> MojStrCmp n.1 x.1 < 0.
Proof.
  intros [S _]%MojRbTreeBase.sorted_cons L x [->|Hx]%elem_of_cons; [done|].
  rewrite Forall_forall in S. specialize (S x Hx). unfold MojRbTreeBase.node_lt in S.
  apply (comp_lt_le_trans MojStrCmp _ m.1); [done|lia].
Qed.

Definition may_be_extra (v : mstring * MojObject) : Prop :=
  match additional with Some rule => holds rule v.2 val | None => True end.

Lemma extra_step v (rest : Result -> res Result) (P : Prop) msg r : m_valid r = true ->
  match additional with Some rule => decides rule v.2 val | None => True end ->
  (forall r, m_valid r = true -> exists r', rest r = Ok r' /\ (m_valid r' = true <-> P)) ->
  exists r', match additional with
             | Some rule => let? r := validate rule v.2 val r in if m_valid r then rest r else Ok (append r msg)
             | None => rest r
             end = Ok r' /\ (m_valid r' = true <-> may_be_extra v /\ P).
Proof.
  intros V D K. unfold may_be_extra. destruct additional as [rule|].
  - destruct (D r V) as (r1 & -> & E). simpl. destruct (m_valid r1) eqn:V1.
    + destruct (K r1 V1) as (r2 & -> & E2). exists r2. split; [done|]. rewrite E2. naive_solver.
    + eexists; split; [done|]. simpl. rewrite V1. naive_solver.
  - destruct (K r V) as (r2 & -> & E2). exists r2. split; [done|]. rewrite E2. naive_solver.
Qed.

(** What each turn of the merge may leave out of the rest. *)
Lemma value_first v vals props : (forall q, q ∈ props -> MojStrCmp v.1 q.1 < 0) ->
  Forall (prop_ok (v :: vals)) props /\ Forall (extra_ok props) (v :: vals) <->
  may_be_extra v /\ Forall (prop_ok vals) props /\ Forall (extra_ok props) vals.
Proof.
  intros L. rewrite (Forall_cons _ v). unfold extra_ok at 1. rewrite contains_get, get_above.
  2: { intros n Hn. specialize (L n Hn). pose proof (comp_lt_gt MojStrCmp v.1 n.1). lia. }
  rewrite (Forall_iff_in (prop_ok (v :: vals)) (prop_ok vals)); [unfold may_be_extra; naive_solver|].
  intros q Hq. unfold prop_ok. rewrite get_skip; [done|]. specialize (L q Hq). lia.
Qed.

Lemma prop_first p props vals : (forall w, w ∈ vals -> MojStrCmp p.1 w.1 < 0) ->
  Forall (prop_ok vals) (p :: props) /\ Forall (extra_ok (p :: props)) vals <->
  optional p.2 = true /\ Forall (prop_ok vals) props /\ Forall (extra_ok props) vals.
Proof.
  intros L. rewrite (Forall_cons _ p). unfold prop_ok at 1. rewrite get_above.
  2: { intros w Hw. specialize (L w Hw). pose proof (comp_lt_gt MojStrCmp p.1 w.1). lia. }
  rewrite (Forall_iff_in (extra_ok (p :: props)) (extra_ok props) vals); [naive_solver|].
  intros w Hw. unfold extra_ok. rewrite !contains_get, get_skip; [done|]. specialize (L w Hw). lia.
Qed.

Lemma same_first p props v vals : MojStrCmp p.1 v.1 = 0 -> smap (p :: props) -> smap (v :: vals) ->
  Forall (prop_ok (v :: vals)) (p :: props) /\ Forall (extra_ok (p :: props)) (v :: vals) <->
  holds p.2 v.2 val /\ Forall (prop_ok vals) props /\ Forall (extra_ok props) vals.
Proof.
  intros Z [Ap _]%MojRbTreeBase.sorted_cons [Av _]%MojRbTreeBase.sorted_cons.
  pose proof (proj1 (comp_eq_sym MojStrCmp p.1 v.1) Z) as Z'. rewrite Forall_forall in Ap. rewrite Forall_forall in Av.
  rewrite !Forall_cons. unfold prop_ok at 1, extra_ok at 1. rewrite contains_get, !get_hit by done.
  rewrite (Forall_iff_in (prop_ok (v :: vals)) (prop_ok vals)), (Forall_iff_in (extra_ok (p :: props)) (extra_ok props)); [naive_solver|..].
  - intros w Hw. unfold extra_ok. rewrite !contains_get, get_skip; [done|].
    specialize (Av w Hw). unfold MojRbTreeBase.node_lt in Av. pose proof (comp_le_lt_trans MojStrCmp p.1 v.1 w.1). lia.
  - intros q Hq. unfold prop_ok. rewrite get_skip; [done|].
    specialize (Ap q Hq). unfold MojRbTreeBase.node_lt in Ap. pose proof (comp_le_lt_trans MojStrCmp v.1 p.1 q.1). lia.
Qed.

Lemma result_iff (c : res Result) (P Q : Prop) : (P <-> Q) ->
  (exists r', c = Ok r' /\ (m_valid r' = true <-> Q)) -> exists r', c = Ok r' /\ (m_valid r' = true <-> P).
Proof. intros E (r' & H & I). exists r'. by rewrite E. Qed.

Lemma decides_tail (props : list (mstring * Rule)) (v : mstring * MojObject) vals :
  Forall (fun p => Forall (fun v => decides p.2 v.2 val) (v :: vals)) props ->
  Forall (fun p => Forall (fun v => decides p.2 v.2 val) vals) props.
Proof. intros F. eapply Forall_impl; [exact F|]. intros q Hq. by apply Forall_cons in Hq as [_ Hq]. Qed.

Lemma properties_spec props vals r : m_valid r = true -> smap props -> smap vals ->
  Forall (fun p => Forall (fun v => decides p.2 v.2 val) vals) props ->
  Forall (fun v => match additional with Some rule => decides rule v.2 val | None => True end) vals ->
  exists r', properties validate additional val props vals r = Ok r' /\
    (m_valid r' = true <-> Forall (prop_ok vals) props /\ Forall (extra_ok props) vals).
Proof.
  revert vals r. induction props as [|p props IHp]; intros vals; (induction vals as [|v vals IHv]; intros r V Sp Sv Fp Fe).
  - exists r. split; [done|]. naive_solver.
  - apply Forall_cons in Fe as [Dv Fe]. apply MojRbTreeBase.sorted_cons in Sv as [_ Sv]. simpl.
    destruct (extra_step v _ _ (_T " - '" ++ v.1 ++ _T "'") r V Dv (fun r V => IHv r V Sp Sv (Forall_nil_2 _) Fe)) as (r' & E & H).
    exists r'. split; [exact E|]. rewrite H, value_first; [done|]. intros q Hq. by apply elem_of_nil in Hq.
  - apply Forall_cons in Fp as [_ Fp]. apply MojRbTreeBase.sorted_cons in Sp as [_ Sp]. simpl.
    eapply result_iff; [apply prop_first; intros w Hw; by apply elem_of_nil in Hw|].
    destruct (optional p.2) eqn:O; [|eexists; split; [done|]; simpl; naive_solver].
    destruct (IHp [] r V Sp Sv Fp Fe) as (r' & E & H). exists r'. split; [exact E|]. rewrite H. naive_solver.
  - pose proof Sp as [_ Sp']%MojRbTreeBase.sorted_cons. pose proof Sv as [_ Sv']%MojRbTreeBase.sorted_cons.
    pose proof Fp as [Dp Fp']%Forall_cons. pose proof Fe as [De Fe']%Forall_cons. pose proof (comp_lt_gt MojStrCmp v.1 p.1) as G.
    simpl. destruct (Z.ltb_spec 0 (MojStrCmp p.1 v.1)) as [L|L]; [|destruct (Z.ltb_spec (MojStrCmp p.1 v.1) 0) as [L'|L']].
    + destruct (extra_step v _ _ (_T " - '" ++ v.1 ++ _T "'") r V De (fun r V => IHv r V Sp Sv' (decides_tail _ _ _ Fp) Fe')) as (r' & E & H).
      exists r'. split; [exact E|]. rewrite H, value_first; [done|]. apply (below_all v p props Sp). lia.
    + eapply result_iff; [apply prop_first; by apply (below_all p v vals Sv)|].
      destruct (optional p.2) eqn:O; [|eexists; split; [done|]; simpl; naive_solver].
      destruct (IHp (v :: vals) r V Sp' Sv Fp' Fe) as (r' & E & H). exists r'. split; [exact E|]. rewrite H. naive_solver.
    + eapply result_iff; [apply same_first; [lia|done..]|]. apply Forall_cons in Dp as [Dp _].
      destruct (Dp r V) as (r1 & -> & E). simpl. destruct (m_valid r1) eqn:V1.
      * destruct (IHp vals r1 V1 Sp' Sv' (decides_tail _ _ _ Fp') Fe') as (r' & E' & H).
        exists r'. split; [exact E'|]. rewrite H. naive_solver.
      * eexists; split; [done|]. simpl. rewrite V1. naive_solver.
Qed.
End merge.

(** ** A rule is decided *)
Lemma fold_and {A} (P : A -> Prop) l : fold_right (fun x Q => P x /\ Q) True l <-> Forall P l.
Proof. induction l as [|x l IH]; simpl; [split; [constructor|done]|]. by rewrite Forall_cons, IH. Qed.

Lemma everywhere_here p r : everywhere p r -> p r.
Proof. destruct r; simpl; tauto. Qed.

Lemma wf_list l (P : Rule -> Prop) : Forall (fun r => wf r -> P r) l ->
  fold_right (fun r Q => everywhere sorted_rule r /\ Q) True l -> fold_right (fun r Q => everywhere divisor_ok r /\ Q) True l ->
  Forall P l.
Proof.
  rewrite !fold_and. intros F A B. rewrite Forall_forall in *. intros r Hr. apply F; [done|]. split; auto.
Qed.

Lemma ok_items val : MojObject.ok val -> Forall MojObject.ok (MojObject.ensureArray val).
Proof. destruct val; try (intros _; constructor). by rewrite MojObject.ok_array. Qed.

Lemma ok_props val : MojObject.ok val ->
  MojRbTreeBase.sorted fst MojStrCmp (MojObject.ensureObject val) /\ Forall (fun kv => MojObject.ok kv.2) (MojObject.ensureObject val).
Proof.
  destruct val; try (intros _; split; constructor). rewrite MojObject.ok_object. intros [S F]. split; [exact S|].
  eapply Forall_impl; [exact F|]. naive_solver.
Qed.

Lemma duplicates_spec l : duplicates l = false <->
  forall i j x y, (i < j)%nat -> l !! i = Some x -> l !! j = Some y -> MojObject.equals x y = false.
Proof.
  induction l as [|a l IH]; simpl; [split; [by intros _ i j x y _ E|done]|].
  rewrite orb_false_iff, IH. split.
  - intros [A B] [|i] [|j] x y L Hi Hj; try lia; simpl in *.
    + simplify_eq. destruct (MojObject.equals x y) eqn:E; [|done].
      rewrite <- A. symmetry. apply List.existsb_exists. exists y. split; [|done].
      apply list_elem_of_In. by eapply list_elem_of_lookup_2.
    + by apply (B i j); [lia|..].
  - intros H. split.
    + apply not_true_iff_false. intros (y & Hy & E)%List.existsb_exists. apply list_elem_of_In, list_elem_of_lookup in Hy as [j Hj].
      specialize (H O (S j) a y ltac:(lia) eq_refl Hj). congruence.
    + intros i j x y L Hi Hj. by apply (H (S i) (S j)); [lia|..].
Qed.

Lemma divides_spec m v : m <> 0 -> (Z.rem v m =? 0) = true <-> (m | v).
Proof. intros M. rewrite Z.eqb_eq. by apply Z.rem_divide. Qed.

Lemma divisible_decided m val parent : divisor_ok (DivisibleRule m) -> decides (DivisibleRule m) val parent.
Proof.
  intros D r V. simpl in D. simpl. destruct (is_number val) eqn:N; simpl; [|exists r; split; [done|]; naive_solver].
  destruct (Z.eqb_spec m 0) as [->|M]; [eexists; split; [done|]; simpl; naive_solver|].
  unfold remainder. destruct (Z.eqb_spec m (-1)); [done|]. rewrite andb_false_r. simpl. apply fail_if_spec; [done|].
  rewrite orb_false_iff, negb_false_iff, divides_spec by done. rewrite andb_false_iff, bool_decide_eq_false, negb_false_iff, Z.eqb_eq.
  split.
  - intros [E F] _. split; [done|]. split; [done|]. intros rep ->. by destruct F as [[]|F].
  - intros H. destruct (H eq_refl) as (_ & E & F). split; [done|]. destruct val; try (by left). right. by apply F.
Qed.

Lemma opt_decided o val parent : match o with Some rule => wf rule -> forall val parent, MojObject.ok val -> decides rule val parent | None => True end ->
  match o with Some rule => everywhere sorted_rule rule | None => True end ->
  match o with Some rule => everywhere divisor_ok rule | None => True end -> MojObject.ok val ->
  match o with Some rule => decides rule val parent | None => True end.
Proof. destruct o as [rule|]; [|done]. intros H A B. by apply H. Qed.

Lemma properties_decided props o val parent : Forall (fun p => forall v, MojObject.ok v -> decides p.2 v val) props ->
  (forall v, MojObject.ok v -> match o with Some rule => decides rule v val | None => True end) ->
  MojRbTreeBase.sorted fst MojStrCmp props -> MojObject.ok val -> decides (PropertiesRule props o) val parent.
Proof.
  intros Fp Fo Sp [Sv Fv]%ok_props r V. simpl. eapply result_iff; [|apply properties_spec; try done].
  - rewrite fold_and. apply and_iff_compat_r. apply Forall_iff_in. intros p _. unfold prop_ok. by destruct val.
  - eapply Forall_impl; [exact Fp|]. intros p Hp. eapply Forall_impl; [exact Fv|]. intros v. apply Hp.
  - eapply Forall_impl; [exact Fv|]. intros v. apply Fo.
Qed.

Lemma tuple_decided rules o l parent : Forall (fun rule => Forall (fun x => decides rule x (ArrayImpl l)) l) rules ->
  Forall (fun x => match o with Some rule => decides rule x (ArrayImpl l) | None => True end) l ->
  decides (TupleItemsRule rules o) (ArrayImpl l) parent.
Proof.
  intros Fr Fo r V. simpl. destruct (tuple_spec rules l (ArrayImpl l) r V Fr) as (t & -> & T).
  destruct t as [r'|[[r' few] rest]]; simpl.
  - exists r'. destruct T as [-> T]. split; [done|]. split; [done|]. by intros (_ & Z & _).
  - destruct T as (V' & Z & -> & ->). destruct (Nat.leb_spec (length rules) (length l)) as [L|L]; simpl.
    + destruct o as [rule|]; [|exists r'; split; [done|]; split; [by intros _|done]].
      destruct (items_spec rule (skipn (length rules) l) (ArrayImpl l) r' V') as (r2 & -> & E).
      { by apply Forall_drop. }
      exists r2. split; [done|]. rewrite E. tauto.
    + rewrite (skipn_all2 l) by lia. eexists. split; [by destruct o|]. simpl. split; [done|]. intros [? _]. lia.
Qed.

Lemma range_spec (n b : bool) (P : Prop) : (b = true <-> P) -> n && negb b = false <-> (n = true -> P).
Proof. intros <-. destruct n, b; simpl; naive_solver. Qed.

Lemma size_spec val b (P : nat -> Prop) : (forall l, val = ArrayImpl l -> b = true <-> P (length l)) ->
  is_array val && negb b = false <-> forall l, val = ArrayImpl l -> P (length l).
Proof.
  intros H. destruct val as [| | |v| | | |]; try (split; [done|reflexivity]).
  specialize (H v eq_refl). simpl. rewrite negb_false_iff, H. naive_solver.
Qed.

Lemma len_spec val b msg r (P : nat -> Prop) : m_valid r = true -> (forall s, val = StringImpl s -> b s = true <-> P (length s)) ->
  exists r', Ok match val with StringImpl str => fail_if (negb (b str)) msg r | _ => r end = Ok r' /\
    (m_valid r' = true <-> forall s, val = StringImpl s -> P (length s)).
Proof.
  intros V H. destruct val as [| | | |s| | |]; try (exists r; split; [done|naive_solver]).
  apply fail_if_spec; [done|]. rewrite negb_false_iff, (H s eq_refl). naive_solver.
Qed.

Lemma leaf_decided rule val parent : divisor_ok rule ->
  match rule with
  | SchemaRule _ _ | UnionTypeRule _ | UnionDisallowRule _ | AdditionalPropertiesRule _ _
  | PropertiesRule _ _ | SimpleItemsRule _ | TupleItemsRule _ _ => False
  | _ => True
  end -> decides rule val parent.
Proof.
  intros D L. destruct rule; try done; try (by apply divisible_decided); intros r V; simpl.
  all: try (apply fail_if_spec; [done|]).
  - by rewrite negb_false_iff, bool_decide_eq_true.
  - by rewrite bool_decide_eq_false.
  - by rewrite negb_false_iff.
  - by rewrite negb_false_iff.
  - apply range_spec. destruct m_canEqual; [apply Z.leb_le|apply Z.ltb_lt].
  - apply range_spec. destruct m_canEqual; [apply Z.leb_le|apply Z.ltb_lt].
  - apply (size_spec val _ (fun n => m_val <= Z.of_nat n)). intros l ->. apply Z.leb_le.
  - apply (size_spec val _ (fun n => Z.of_nat n <= m_val)). intros l ->. apply Z.leb_le.
  - rewrite andb_false_iff. destruct val as [| | |v| | | |]; try (split; [done|by left]).
    simpl. rewrite duplicates_spec. naive_solver.
  - apply (len_spec val (fun s => m_val <=? Z.of_nat (length s)) _ r (fun n => m_val <= Z.of_nat n)); [done|]. intros s ->. apply Z.leb_le.
  - apply (len_spec val (fun s => Z.of_nat (length s) <=? m_val) _ r (fun n => Z.of_nat n <= m_val)); [done|]. intros s ->. apply Z.leb_le.
  - rewrite negb_false_iff. apply (MojSet.contains_spec MojObject.compare).
Qed.

Lemma rule_decided rule : wf rule -> forall val parent, MojObject.ok val -> decides rule val parent.
Proof.
  induction rule as [l o IH|l IH|l IH|o a IH|l o IH IHo|rule IH|l o IH IHo|rule Leaf] using Rule_nested_ind; intros [S D] val parent Ok.
  - simpl in S, D. intros r V. apply every_spec; [done|]. apply (wf_list l); [|tauto..].
    eapply Forall_impl; [exact IH|]. auto.
  - simpl in S, D. intros r V. apply some_spec. apply (wf_list l); [|tauto..]. eapply Forall_impl; [exact IH|]. auto.
  - simpl in S, D. intros r V. simpl. edestruct (some_spec l val parent) as (r' & -> & E).
    { apply (wf_list l); [|tauto..]. eapply Forall_impl; [exact IH|]. auto. }
    simpl. apply fail_if_spec; [done|]. rewrite <- E. by destruct (m_valid r').
  - simpl in S, D. intros r V. simpl. destruct a; simpl; [|eexists; split; [done|]; simpl; naive_solver].
    pose proof (opt_decided o val parent IH (proj2 S) (proj2 D) Ok) as H. destruct o as [rule|].
    + destruct (H r V) as (r' & E & I). exists r'. split; [exact E|]. rewrite I. tauto.
    + exists r. split; [done|]. tauto.
  - simpl in S, D. destruct S as (Sp & S & So), D as (_ & D & Do). apply properties_decided; [|intros v Hv; by apply opt_decided|done..].
    rewrite fold_and in S, D. rewrite Forall_forall in *. intros p Hp v. apply IH; [done|]. split; [by apply S|by apply D].
  - simpl in S, D. intros r V. apply items_spec; [done|]. eapply Forall_impl; [by apply ok_items|]. intros x. apply IH. split; [apply S|apply D].
  - simpl in S, D. destruct S as (_ & S & So), D as (_ & D & Do).
    destruct val as [| | |v| | | |]; try (intros r V; exists r; split; [done|simpl; tauto]).
    pose proof (ok_items (ArrayImpl v) Ok) as Fv. simpl in Fv. apply tuple_decided.
    + apply (wf_list l); [|done..]. eapply Forall_impl; [exact IH|]. intros rule H W. eapply Forall_impl; [exact Fv|]. intros x. by apply H.
    + eapply Forall_impl; [exact Fv|]. intros x Hx. by apply opt_decided.
  - apply leaf_decided; [by apply everywhere_here|exact Leaf].
Qed.

(** ** Schemas from objects *)
Lemma when_all {A} (v : option A) f strs l strs' (P : Rule -> Prop) :
  (forall a strs rule strs', f a strs = Ok (rule, strs') -> P rule) -> when v f strs = Ok (l, strs') -> Forall P l.
Proof.
  intros H. unfold when. destruct v as [a|]; [|intros [= <- <-]; constructor].
  intros E. res_inv. constructor; [by eapply H|constructor].
Qed.

Section parts.
Context (sub : MojObject -> list mstring -> res (Rule * list mstring)).
Context (Hsub : forall obj strs rule strs', sub obj strs = Ok (rule, strs') -> everywhere sorted_rule rule).

Lemma additional_sorted obj strs rule strs' : additionalFromObject sub obj strs = Ok (rule, strs') -> everywhere sorted_rule rule.
Proof.
  intros E. unfold additionalFromObject in E. destruct obj.
  all: try (injection E as <- <-; simpl; done).
  all: res_inv; (split; [done|]); by eapply Hsub.
Qed.

Lemma union_sorted obj strs rules strs' : unionFromObject sub obj strs = Ok (rules, strs') -> Forall (everywhere sorted_rule) rules.
Proof.
  intros E. unfold unionFromObject in E.
  apply (res_fold_inv _ (fun p => Forall (everywhere sorted_rule) p.1)) in E; [exact E| |constructor].
  intros [rs s1] x [rs' s2] _ F H. simpl in *. res_inv.
  all: apply Forall_app; (split; [done|]); (constructor; [|constructor]).
  all: first [by eapply Hsub|done].
Qed.

Lemma properties_sorted obj strs props strs' : propertiesFromObject sub obj strs = Ok (props, strs') ->
  MojRbTreeBase.sorted fst MojStrCmp props /\ Forall (fun p => everywhere sorted_rule p.2) props.
Proof.
  intros E. unfold propertiesFromObject in E.
  apply (res_fold_inv _ (fun p => MojRbTreeBase.sorted fst MojStrCmp p.1 /\ Forall (fun q => everywhere sorted_rule q.2) p.1)) in E;
    [exact E| |split; constructor].
  intros [ps s1] x [ps' s2] _ [S F] H. simpl in *. res_inv. split; [by apply (MojMap.map_put_sorted MojStrCmp)|].
  rewrite Forall_forall in *. intros q Hq. apply (MojRbTreeBase.elem_of_put_inv fst MojStrCmp) in Hq as [->|Hq]; [by eapply Hsub|by apply F].
Qed.
End parts.

Lemma schema_sorted fuel obj strs rule strs' : schemaFromObject fuel obj strs = Ok (rule, strs') -> everywhere sorted_rule rule.
Proof.
  revert obj strs rule strs'. induction fuel as [|fuel IH]; intros obj strs rule strs' E; [done|]. simpl in E.
  res_inv. simpl. split; [done|]. rewrite fold_and. rewrite !Forall_app.
  assert (match head l with Some r => everywhere sorted_rule r | None => True end) as Ha.
  { apply when_all with (P := everywhere sorted_rule) in E0; [by destruct E0|]. intros a s r s' E. by apply (additional_sorted _ IH) in E. }
  repeat match goal with |- _ /\ _ => split end.
  all: eapply when_all; [|eassumption]; intros a s r s' E; cbv beta in E; unfold patternFromObject, enumFromObject in E; res_inv; simpl.
  all: rewrite ?fold_and; try done.
  - edestruct (properties_sorted _ IH) as [S F]; [eassumption|]. split; [exact S|]. split; [exact F|exact Ha].
  - split; [done|]. by eapply (union_sorted _ IH).
  - split; [done|]. by eapply (union_sorted _ IH).
  - split; [done|]. split; [|exact Ha]. by eapply (union_sorted _ IH).
  - split; [done|]. by eapply IH.
Qed.

(** Any fuel from the depth of the object on gives the same schema. *)
Section fuel.
Context (f g : MojObject -> list mstring -> res (Rule * list mstring)).

Lemma res_bind_eq {A B} (m1 m2 : res A) (h k : A -> res B) : m1 = m2 -> (forall a, h a = k a) -> res_bind m1 h = res_bind m2 k.
Proof. intros -> E. by apply res_bind_ext. Qed.

Lemma when_ext {A} (v : option A) h k strs : (forall a strs, v = Some a -> h a strs = k a strs) -> when v h strs = when v k strs.
Proof. unfold when. destruct v as [a|]; [|done]. intros E. by rewrite E. Qed.

Lemma res_fold_ext_in {A T} (h k : T -> A -> res T) l s : (forall s x, x ∈ l -> h s x = k s x) -> res_fold h s l = res_fold k s l.
Proof.
  revert s. induction l as [|x l IH]; intros s E; [done|]. simpl. rewrite E by left. apply res_bind_ext. intros s'. apply IH.
  intros; apply E. by right.
Qed.

Lemma additional_ext obj strs : (forall strs, f obj strs = g obj strs) -> additionalFromObject f obj strs = additionalFromObject g obj strs.
Proof. intros E. unfold additionalFromObject. by destruct obj; rewrite ?E. Qed.

Lemma union_ext obj strs : (forall x strs, x ∈ MojObject.ensureArray obj -> f x strs = g x strs) ->
  unionFromObject f obj strs = unionFromObject g obj strs.
Proof. intros E. apply res_fold_ext_in. intros [rules s] x Hx. destruct x; rewrite ?E by done; done. Qed.

Lemma propertiesFromObject_ext obj strs : (forall x strs, x ∈ MojObject.ensureObject obj -> f x.2 strs = g x.2 strs) ->
  propertiesFromObject f obj strs = propertiesFromObject g obj strs.
Proof. intros E. apply res_fold_ext_in. intros [rules s] x Hx. by rewrite E. Qed.
End fuel.

Lemma depth_pos obj : (1 <= depth obj)%nat.
Proof. destruct obj; simpl; lia. Qed.

Lemma depth_item obj x : x ∈ MojObject.ensureArray obj -> (depth x < depth obj)%nat.
Proof.
  destruct obj; intros H; try by apply elem_of_nil in H. simpl in *. induction m_vec as [|y v IH]; [by apply elem_of_nil in H|].
  apply elem_of_cons in H as [->|H]; simpl; [lia|]. specialize (IH H). lia.
Qed.

Lemma depth_prop obj kv : kv ∈ MojObject.ensureObject obj -> (depth kv.2 < depth obj)%nat.
Proof.
  destruct obj; intros H; try by apply elem_of_nil in H. simpl in *. induction m_props as [|y v IH]; [by apply elem_of_nil in H|].
  apply elem_of_cons in H as [->|H]; simpl; [lia|]. specialize (IH H). lia.
Qed.

Lemma depth_get obj key v : MojObject.get obj key = Some v -> (depth v < depth obj)%nat.
Proof.
  intros E. assert (exists k, (k, v) ∈ MojObject.ensureObject obj) as [k Hk].
  { destruct obj; try done. simpl in *. unfold MojMap.get in E. destruct (MojRbTreeBase.find _ _ _ _) as [[k v']|] eqn:F; [|done].
    apply MojRbTreeBase.find_Some in F as [F _]. simplify_eq/=. by exists k. }
  by apply (depth_prop obj (k, v)).
Qed.

Lemma schema_fuel n m obj strs : (depth obj <= n)%nat -> (depth obj <= m)%nat -> schemaFromObject n obj strs = schemaFromObject m obj strs.
Proof.
  revert m obj strs. induction n as [|n IH]; intros [|m] obj strs Ln Lm; [done|..]; try (pose proof (depth_pos obj); lia).
  simpl.
  assert (forall key v strs, MojObject.get obj key = Some v -> schemaFromObject n v strs = schemaFromObject m v strs) as Hv.
  { intros key v s E%depth_get. apply IH; lia. }
  assert (forall key v s, MojObject.get obj key = Some v -> unionFromObject (schemaFromObject n) v s = unionFromObject (schemaFromObject m) v s) as Hu.
  { intros key v s E%depth_get. apply union_ext. intros x s' Hx%depth_item. apply IH; lia. }
  assert (forall key v s, MojObject.get obj key = Some v -> propertiesFromObject (schemaFromObject n) v s = propertiesFromObject (schemaFromObject m) v s) as Hp.
  { intros key v s E%depth_get. apply propertiesFromObject_ext. intros x s' Hx%depth_prop. apply IH; lia. }
  repeat (apply res_bind_eq; [apply when_ext; intros v s E|intros [? ?]]).
  all: try reflexivity.
  - apply additional_ext. intros. by eapply Hv.
  - destruct (MojObject.get obj PropertiesKey) eqn:P; simplify_eq; by erewrite Hp by eassumption.
  - by erewrite Hu by eassumption.
  - by erewrite Hu by eassumption.
  - by erewrite Hu, Hv by eassumption.
Qed.

(** ** What a schema accepts *)

End spec.

(** ** Examples: a regular expression that is only a text *)
Module SchemaExample.
#[local] Instance literal : Regex := {|
  regex := mstring;
  regex_make := Some;
  regex_match := fun s re => bool_decide (s = re);
  strToDecimal := fun _ => 0
|}.

Definition object (props : list (string * MojObject)) : MojObject :=
  fold_left (fun o p => MojObject.put o (_T p.1) p.2) props (ObjectImpl []).
Definition str (s : string) : MojObject := StringImpl (_T s).

(** A name that is needed, an age that is not, and nothing else. *)
Definition person : MojObject :=
  object [("properties", object [("name", object [("type", str "string"); ("required", BoolImpl true); ("minLength", IntImpl 1)]);
                                 ("age", object [("type", str "integer"); ("minimum", IntImpl 0); ("maximum", IntImpl 150)])]);
          ("additionalProperties", BoolImpl false)]%string.

Definition accepts (schema val : MojObject) : res bool :=
  let? s := fromObject init schema in
  let? r := validate_obj s val {| m_valid := false; m_msg := [] |} in
  Ok (m_valid r).

Lemma person_ok val : val = object [("name", str "Ann"); ("age", IntImpl 30)]%string -> MojObject.ok val.
Proof.
  intros ->. apply MojObject.ok_object. split.
  - apply (MojMap.map_put_sorted MojStrCmp). apply (MojMap.map_put_sorted MojStrCmp). constructor.
  - repeat constructor; simpl; vm_compute; by try done.
Qed.


Lemma missing_name : accepts person (object [("age", IntImpl 30)]%string) = Ok false.
Proof. by vm_compute. Qed.

(** Without properties the schema of the additional ones is read as if it listed
    them: its keyword [type] is a property, of any type. *)
Lemma keyword_is_property :
  accepts (object [("additionalProperties", object [("type", str "integer")])]%string) (object [("type", str "text")]%string) = Ok true /\
  accepts (object [("additionalProperties", object [("type", str "integer")])]%string) (object [("kind", str "text")]%string) = Ok false.
Proof. split; by vm_compute. Qed.
End SchemaExample.
