(* ===== verification/Permission.v ===== *)
(** * Permissions: src/src/db/MojDbPermissionEngine.cpp and the loading of
    src/src/db/MojDbPutHandler.cpp

    The rules of the engine are kept by type, object and caller; a caller may be a
    wildcard.  What the database and the kind engine do for a put is given. *)

From S2P Require Import Prelude Containers CoreUtil Object Json JsonRoundTrip Effects StorageTxn.

(** ** [MojDbPermissionEngine] *)
Module MojDbPermissionEngine.
Definition AllowKey := _T "allow".
Definition DenyKey := _T "deny".
Definition PermissionsKey := _T "permissions".
Definition PermissionsEnabledKey := _T "permissionsEnabled".
Definition TypeKey := _T "type".
Definition ObjectKey := _T "object".
Definition CallerKey := _T "caller".
Definition OperationsKey := _T "operations".
Definition PermissionId := _T "Permission:1".
(** [MojDbKind::PermissionType], [MojDb::IdKey] and [MojDb::KindKey]. *)
Definition PermissionType := _T "db.kind".
Definition IdKey := _T "_id".
Definition KindKey := _T "_kind".

Inductive Value := ValueUndefined | ValueAllow | ValueDeny.

#[export] Instance Value_eq_dec : EqDecision Value.
Proof. solve_decision. Defined.

Abbreviation OperationMap := (list (mstring * Value)).
Abbreviation CallerMap := (list (mstring * OperationMap)).
Abbreviation ObjectMap := (list (mstring * CallerMap)).
Abbreviation TypeMap := (list (mstring * ObjectMap)).

Record MojDbPermissionEngine := { m_types : TypeMap; m_enabled : bool }.

Definition init : MojDbPermissionEngine := {| m_types := []; m_enabled := true |}.
Definition with_types (e : MojDbPermissionEngine) t : MojDbPermissionEngine := {| m_types := t; m_enabled := m_enabled e |}.
Definition with_enabled (e : MojDbPermissionEngine) b : MojDbPermissionEngine := {| m_types := m_types e; m_enabled := b |}.

Definition close (e : MojDbPermissionEngine) : MojDbPermissionEngine := with_types e [].

Definition valueFromString (str : mstring) : res Value :=
  if bool_decide (str = AllowKey) then Ok ValueAllow
  else if bool_decide (str = DenyKey) then Ok ValueDeny
  else Err MojErrDbInvalidPermissions.

Definition KEQ (a b : mstring) : bool := bool_decide (a = b).

(** The object as a rule: its type, object, caller and operations. *)
Definition operations_of (operations : MojObject) : res OperationMap :=
  res_fold (fun opMap i =>
      let? valStr := MojObjectString.stringValue i.2 in
      let? val := valueFromString valStr in
      Ok (MojMap.put MojStrCmp opMap i.1 val))
    [] (MojObject.ensureObject operations).

(** "Get or create" the map of an object, then of a type. *)
Definition put_rule (t : TypeMap) (type object caller : mstring) (opMap : OperationMap) : TypeMap :=
  let objects := default [] (MojHashMap.get KEQ t type) in
  let callers := default [] (MojHashMap.get KEQ objects object) in
  let callers := MojMap.put MojDbPutHandler.LengthComp callers caller opMap in
  MojHashMap.put KEQ t type (MojHashMap.put KEQ objects object callers).

(** What is stored: the id is made of the type, the object and the caller. *)
Definition with_id (perm : MojObject) (type object caller : mstring) : MojObject :=
  let id := _T "_permissions/" ++ type ++ _T "-" ++ object ++ _T "-" ++ caller in
  let perm := MojObject.put perm IdKey (StringImpl id) in
  MojObject.putString perm KindKey PermissionId.

Section put.
Context {D : Type}.
Context (checkPermission : MojDbPermissionEngine -> mstring -> res unit) (* of the kind engine, for [OpKindUpdate] *)
        (db_put : MojObject -> st D unit) (* with the rights of an administrator *).

Abbreviation World := (MojDbPermissionEngine * D)%type.

Definition put (perm : MojObject) (putObj : bool) : st World unit :=
  let! type := lift (MojObjectString.getRequired_string perm TypeKey) in
  let! object := lift (MojObjectString.getRequired_string perm ObjectKey) in
  let! caller := lift (MojObjectString.getRequired_string perm CallerKey) in
  let! operations := lift (MojObject.getRequiredT (MojObject.get perm OperationsKey)) in
  let! _ := lift (MojDbPutHandler.validateWildcard caller MojErrDbInvalidCaller) in
  let! w := get in
  let! _ := if bool_decide (type = PermissionType) then lift (checkPermission w.1 object) else ret tt in
  let! opMap := lift (operations_of operations) in
  let! _ :=
    if putObj then fun w => let '(d, r) := db_put (with_id perm type object caller) w.2 in ((w.1, d), r)
    else ret tt in
  modify (fun w => (with_types w.1 (put_rule (m_types w.1) type object caller opMap), w.2)).

(** *** [MojDbPutHandler::configure] and [open] *)
Fixpoint put_all (objects : list MojObject) : st World unit :=
  match objects with
  | [] => ret tt
  | perm :: objects' => let! _ := put perm false in put_all objects'
  end.

Definition configure (conf : MojObject) : st World unit :=
  let! _ := match MojObject.get_bool conf PermissionsEnabledKey with
            | Some b => modify (fun w => (with_enabled w.1 b, w.2))
            | None => ret tt
            end in
  match MojObject.get conf PermissionsKey with
  | Some objects => put_all (MojObject.ensureArray objects)
  | None => ret tt
  end.

(** [find] opens a cursor over the stored permissions; [rows] is what each [get] of
    it returns. *)
Fixpoint load (rows : list (res MojObject)) : st World unit :=
  match rows with
  | [] => ret tt
  | row :: rows' => let! perm := lift row in let! _ := put perm false in load rows'
  end.

Definition open (conf : MojObject) (find : res (list (res MojObject))) : st World unit :=
  let! _ := configure conf in
  let! rows := lift find in
  load rows.
End put.

Definition check (e : MojDbPermissionEngine) (type object caller op : mstring) : Value :=
  match MojHashMap.get KEQ (m_types e) type with
  | None => ValueUndefined
  | Some objects =>
      match MojHashMap.get KEQ objects object with
      | None => ValueUndefined
      | Some callers =>
          match MojDbPutHandler.lookup callers caller with
          | None => ValueUndefined
          | Some entry => default ValueUndefined (MojMap.get MojStrCmp entry.2 op)
          end
      end
  end.
End MojDbPermissionEngine.
