(* ===== verification/PermissionSpec.v ===== *)
(** * What the permission engine answers *)

From S2P Require Import Prelude Containers CoreUtil Object Json JsonRoundTrip Effects StorageTxn Permission.

(** ** The order of the callers: the longest first *)
Import MojDbPutHandler.

#[export] Instance LengthComp_laws : CompLaws LengthComp.
Proof.
  split; unfold LengthComp.
  - intros x. rewrite Z.eqb_refl. apply (comp_refl MojStrCmp).
  - intros x y. rewrite (Z.eqb_sym (Z.of_nat (length y))).
    destruct (Z.eqb_spec (Z.of_nat (length x)) (Z.of_nat (length y))); [apply (comp_anti MojStrCmp)|apply (comp_anti MojComp)].
  - intros x y z.
    pose proof (comp_trans MojStrCmp x y z). pose proof (MojComp_spec (Z.of_nat (length y)) (Z.of_nat (length x))).
    pose proof (MojComp_spec (Z.of_nat (length z)) (Z.of_nat (length y))).
    pose proof (MojComp_spec (Z.of_nat (length z)) (Z.of_nat (length x))).
    repeat match goal with |- context [?a =? ?b] => destruct (Z.eqb_spec a b) end; lia.
Qed.

Lemma LengthComp_eq a b : str_ok a -> str_ok b -> LengthComp a b = 0 <-> a = b.
Proof.
  intros Ha Hb. unfold LengthComp. destruct (Z.eqb_spec (Z.of_nat (length a)) (Z.of_nat (length b))) as [E|E].
  - by apply MojStrCmp_eq.
  - pose proof (MojComp_spec (Z.of_nat (length b)) (Z.of_nat (length a))). split; [lia|intros ->; lia].
Qed.

Lemma LengthComp_longer a b : LengthComp a b <= 0 -> (length b <= length a)%nat.
Proof.
  unfold LengthComp. pose proof (MojComp_spec (Z.of_nat (length b)) (Z.of_nat (length a))).
  destruct (Z.eqb_spec (Z.of_nat (length a)) (Z.of_nat (length b))); lia.
Qed.

(** A valid name that matches as a wildcard ends in one, and is known by its length. *)
Lemma match_length expr val : matchWildcard expr val = true ->
  exists p, expr = p ++ [chr "*"] /\ p = take (length p) val.
Proof.
  unfold matchWildcard. destruct (last expr) as [c|] eqn:E; [|done].
  apply last_Some in E as [p ->]. rewrite !andb_true_iff, Z.eqb_eq, bool_decide_eq_true.
  intros [[-> _] M]. exists p. split; [done|]. rewrite length_app in M. simpl in M.
  replace (length p + 1 - 1)%nat with (length p) in M by lia. by rewrite take_app_length in M.
Qed.

Lemma match_unique a b val : matchWildcard a val = true -> matchWildcard b val = true -> length a = length b -> a = b.
Proof.
  intros (p & -> & Hp)%match_length (q & -> & Hq)%match_length E. rewrite !length_app in E. simpl in E.
  assert (length p = length q) as L by lia. rewrite L in Hp. congruence.
Qed.

(** ** The first entry in the order is the longest one *)
Section lookup.
Context {V : Type}.

Lemma lookup_exact (m : list (mstring * V)) val v : MojRbTreeBase.sorted fst LengthComp m ->
  Forall (fun e => str_ok e.1) m -> str_ok val -> (val, v) ∈ m -> lookup m val = Some (val, v).
Proof.
  intros Hs Hk Hv He. unfold lookup.
  pose proof (MojRbTreeBase.find_elem fst LengthComp val m (val, v) Hs He (comp_refl LengthComp val)) as E.
  unfold MojRbTreeBase.find in E. by rewrite E.
Qed.

Lemma find_first {A} (p : A -> bool) (R : A -> A -> Prop) l x : StronglySorted R l -> List.find p l = Some x ->
  x ∈ l /\ p x = true /\ forall y, y ∈ l -> p y = true -> y = x \/ R x y.
Proof.
  induction l as [|a l IH]; simpl; [done|]. intros [Hs Ha]%StronglySorted_inv.
  destruct (p a) eqn:E; intros F.
  - simplify_eq. split; [left|]. split; [done|]. intros y [->|Hy]%elem_of_cons _; [by left|].
    right. rewrite Forall_forall in Ha. auto.
  - destruct (IH Hs F) as (I & P & M). split; [by right|]. split; [done|].
    intros y [->|Hy]%elem_of_cons; [congruence|auto].
Qed.

Lemma find_nothing {A} (p : A -> bool) l : List.find p l = None <-> forall x, x ∈ l -> p x = false.
Proof.
  induction l as [|a l IH]; simpl; [split; [intros _ x Hx; by apply elem_of_nil in Hx|done]|].
  destruct (p a) eqn:E.
  - split; [done|]. intros H. specialize (H a (list_elem_of_here a l)). congruence.
  - rewrite IH. split; [intros H x [->|Hx]%elem_of_cons; auto|intros H x Hx; apply H; by right].
Qed.

Lemma lookup_spec (m : list (mstring * V)) val e : MojRbTreeBase.sorted fst LengthComp m ->
  Forall (fun e => str_ok e.1) m -> str_ok val -> lookup m val = Some e ->
  e ∈ m /\ (e.1 = val \/ (val ∉ m.*1 /\ matchWildcard e.1 val = true /\
    forall e', e' ∈ m -> matchWildcard e'.1 val = true -> (length e'.1 <= length e.1)%nat)).
Proof.
  intros Hs Hk Hv. unfold lookup. rewrite Forall_forall in Hk. destruct (List.find _ m) as [x|] eqn:F.
  - intros [= ->]. apply List.find_some in F as [I E]. apply list_elem_of_In in I. split; [done|]. left.
    apply Z.eqb_eq in E. apply LengthComp_eq in E; auto.
  - rewrite find_nothing in F. intros W. destruct (find_first _ _ _ _ Hs W) as (I & P & M). split; [done|]. right.
    split.
    + intros (x & -> & Hx)%list_elem_of_fmap. specialize (F x Hx). rewrite (comp_refl LengthComp) in F. done.
    + split; [done|]. intros e' He' M'. destruct (M e' He' M') as [->|L]; [done|].
      apply LengthComp_longer. unfold MojRbTreeBase.node_lt in L. lia.
Qed.

Lemma lookup_nothing (m : list (mstring * V)) val : lookup m val = None ->
  val ∉ m.*1 /\ forall e, e ∈ m -> matchWildcard e.1 val = false.
Proof.
  unfold lookup. destruct (List.find _ m) as [x|] eqn:F; [done|]. rewrite find_nothing in F.
  rewrite find_nothing. intros W. split; [|done].
  intros (x & -> & Hx)%list_elem_of_fmap. specialize (F x Hx). rewrite (comp_refl LengthComp) in F. done.
Qed.
End lookup.

(** ** The rules of an engine *)
Import MojDbPermissionEngine.

Definition field (perm : MojObject) (key : mstring) : mstring :=
  match MojObjectString.getRequired_string perm key with Ok s => s | Err _ => [] end.

(** The permissions for an object, in the order they were put. *)
Definition rules (perms : list MojObject) (type object : mstring) : list MojObject :=
  filter (fun p => field p TypeKey = type /\ field p ObjectKey = object) perms.

Definition callers (perms : list MojObject) : list mstring := map (fun p => field p CallerKey) perms.

(** The pattern that decides for a caller: its own name, or else the longest wildcard. *)
Definition governs (perms : list MojObject) (caller pattern : mstring) : Prop :=
  pattern ∈ callers perms /\
  (pattern = caller \/
   caller ∉ callers perms /\ matchWildcard pattern caller = true /\
   forall p, p ∈ callers perms -> matchWildcard p caller = true -> (length p <= length pattern)%nat).

(** The last permission put for a pattern counts. *)
Definition latest (perms : list MojObject) (pattern : mstring) : option MojObject :=
  last (filter (fun p => field p CallerKey = pattern) perms).

Definition value_of (v : MojObject) : Value :=
  match MojObjectString.stringValue v with Ok s => if decide (s = AllowKey) then ValueAllow else ValueDeny | Err _ => ValueDeny end.

Definition value_in (perm : MojObject) (op : mstring) : Value :=
  match MojObject.get perm OperationsKey with
  | Some operations => match MojObject.get operations op with Some v => value_of v | None => ValueUndefined end
  | None => ValueUndefined
  end.

Definition opmap_of (perm : MojObject) : list (mstring * Value) :=
  match MojObject.get perm OperationsKey with
  | Some operations => match operations_of operations with Ok m => m | Err _ => [] end
  | None => []
  end.

Definition callers_of (t : list (mstring * list (mstring * list (mstring * list (mstring * Value))))) (type object : mstring) :=
  default [] (MojHashMap.get KEQ (default [] (MojHashMap.get KEQ t type)) object).

Lemma check_callers e type object caller op : check e type object caller op =
  match lookup (callers_of (m_types e) type object) caller with
  | Some entry => default ValueUndefined (MojMap.get MojStrCmp entry.2 op)
  | None => ValueUndefined
  end.
Proof.
  unfold check, callers_of. destruct (MojHashMap.get KEQ (m_types e) type) as [objects|]; [|done]. simpl.
  by destruct (MojHashMap.get KEQ objects object).
Qed.

Lemma hash_get_put {V} (m : list (mstring * V)) k v j :
  MojHashMap.get KEQ (MojHashMap.put KEQ m k v) j = if decide (k = j) then Some v else MojHashMap.get KEQ m j.
Proof.
  unfold MojHashMap.put, MojHashMap.contains, MojHashMap.get. destruct (List.find (fun n => KEQ n.1 k) m) as [x|] eqn:F.
  - induction m as [|n m IH]; [done|]. simpl in *. unfold KEQ in *. destruct (bool_decide (n.1 = k)) eqn:E; simpl.
    + apply bool_decide_eq_true in E as <-. destruct (decide (n.1 = j)) as [<-|N]; [by rewrite bool_decide_eq_true_2|by rewrite bool_decide_eq_false_2].
    + destruct (bool_decide (n.1 = j)) eqn:J; [|by apply IH]. apply bool_decide_eq_true in J as <-.
      apply bool_decide_eq_false in E. by rewrite decide_False.
  - simpl. unfold KEQ at 1. destruct (decide (k = j)); [by rewrite bool_decide_eq_true_2|by rewrite bool_decide_eq_false_2].
Qed.

Lemma callers_put_rule t type object caller opMap type' object' :
  callers_of (put_rule t type object caller opMap) type' object' =
  if decide (type = type' /\ object = object') then MojMap.put LengthComp (callers_of t type object) caller opMap
  else callers_of t type' object'.
Proof.
  unfold callers_of at 1, put_rule. rewrite hash_get_put. destruct (decide (type = type')) as [<-|N]; simpl.
  - rewrite hash_get_put. destruct (decide (object = object')) as [<-|N]; [by rewrite decide_True|].
    rewrite decide_False by naive_solver. done.
  - rewrite decide_False by naive_solver. done.
Qed.

(** ** The operations of a permission *)
Lemma operations_get l acc m op : MojRbTreeBase.sorted fst MojStrCmp l -> MojRbTreeBase.sorted fst MojStrCmp acc ->
  res_fold (fun opMap (i : mstring * MojObject) =>
    let? valStr := MojObjectString.stringValue i.2 in let? val := valueFromString valStr in Ok (MojMap.put MojStrCmp opMap i.1 val)) acc l = Ok m ->
  MojMap.get MojStrCmp m op = match MojMap.get MojStrCmp l op with Some v => Some (value_of v) | None => MojMap.get MojStrCmp acc op end.
Proof.
  revert acc. induction l as [|[k v] l IH]; intros acc Sl Sa E; simpl in E; [by simplify_eq|].
  apply MojRbTreeBase.sorted_cons in Sl as [F Sl]. res_inv.
  erewrite IH; [|done| |eassumption]; [|by apply (MojMap.map_put_sorted MojStrCmp)].
  rewrite MojMap.map_get_put by (exact _ || done). unfold MojMap.get at 3, MojRbTreeBase.find. simpl.
  destruct (Z.eqb_spec (MojStrCmp k op) 0) as [Z|Z]; [|done].
  assert (MojMap.get MojStrCmp l op = None) as ->.
  { unfold MojMap.get. rewrite (proj2 (MojRbTreeBase.find_None fst MojStrCmp op l)); [done|]. intros n Hn.
    rewrite Forall_forall in F. specialize (F n Hn). unfold MojRbTreeBase.node_lt in F. simpl in F.
    pose proof (comp_anti MojStrCmp k n.1). pose proof (comp_anti MojStrCmp n.1 op).
    pose proof (comp_eq_trans MojStrCmp k op n.1). lia. }
  f_equal. unfold value_of. simpl. match goal with H : MojObjectString.stringValue v = _ |- _ => rewrite H end. unfold valueFromString in *. repeat case_bool_decide; simplify_eq; by case_decide.
Qed.

Lemma opmap_get perm operations m op : MojObject.ok operations -> MojObject.get perm OperationsKey = Some operations ->
  operations_of operations = Ok m -> default ValueUndefined (MojMap.get MojStrCmp (opmap_of perm) op) = value_in perm op.
Proof.
  intros Ok G E. unfold opmap_of, value_in. rewrite G, E. unfold operations_of in E.
  destruct operations; try (simpl in E; by simplify_eq). apply MojObject.ok_object in Ok as [S _].
  erewrite (operations_get _ [] m op S) by (constructor || exact E). simpl. by destruct (MojMap.get _ _ _).
Qed.

(** ** The engine holds the rules *)
Definition holds_rules (e : MojDbPermissionEngine) (perms : list MojObject) : Prop :=
  forall type object, let m := callers_of (m_types e) type object in
    MojRbTreeBase.sorted fst LengthComp m /\ Forall (fun e => str_ok e.1) m /\
    forall c ops, (c, ops) ∈ m <-> exists perm, latest (rules perms type object) c = Some perm /\ ops = opmap_of perm.

(** The permission objects that can be put: their caller is a C string and their
    operations are well formed. *)
Definition perm_ok (p : MojObject) : Prop :=
  str_ok (field p CallerKey) /\ forall o, MojObject.get p OperationsKey = Some o -> MojObject.ok o.

Lemma latest_app perms p c : latest (perms ++ [p]) c = if decide (field p CallerKey = c) then Some p else latest perms c.
Proof.
  unfold latest. rewrite filter_app, filter_cons. case_decide; [by rewrite last_app|by rewrite app_nil_r].
Qed.

Lemma rules_app perms p type object : rules (perms ++ [p]) type object =
  if decide (field p TypeKey = type /\ field p ObjectKey = object) then rules perms type object ++ [p] else rules perms type object.
Proof. unfold rules. rewrite filter_app, filter_cons. by case_decide; [|rewrite app_nil_r]. Qed.

Section put.
Context {D : Type} (checkPermission : MojDbPermissionEngine -> mstring -> res unit) (db_put : MojObject -> st D unit).

(** What a put that succeeds does; one that fails changes no rule. *)
Lemma put_succeeds perm putObj e d e' d' : put checkPermission db_put perm putObj (e, d) = ((e', d'), Ok tt) ->
  exists operations opMap, MojObject.get perm OperationsKey = Some operations /\ operations_of operations = Ok opMap /\
    e' = with_types e (put_rule (m_types e) (field perm TypeKey) (field perm ObjectKey) (field perm CallerKey) opMap).
Proof.
  unfold put, field. destruct (MojObjectString.getRequired_string perm TypeKey); [|done].
  destruct (MojObjectString.getRequired_string perm ObjectKey); [|done].
  destruct (MojObjectString.getRequired_string perm CallerKey); [|done].
  unfold bind, lift, get, modify, ret, MojObject.getRequiredT. destruct (MojObject.get perm OperationsKey) as [o|]; [|done]. simpl.
  destruct (validateWildcard _ _); [|done]. intros E. exists o.
  destruct (bool_decide _); [destruct (checkPermission e _); [|done]|]; simpl in E.
  all: destruct (operations_of o) as [opMap|] eqn:O; [|done]; simpl in E; exists opMap.
  all: destruct putObj; [match type of E with context [db_put ?x ?y] => destruct (db_put x y) as [d1 [|]] end|]; simpl in E; by simplify_eq.
Qed.

Lemma put_failed perm putObj e d w err : put checkPermission db_put perm putObj (e, d) = (w, Err err) -> w.1 = e.
Proof.
  unfold put. unfold bind, lift, get, modify, ret.
  destruct (MojObjectString.getRequired_string perm TypeKey); [|by intros [= <- _]].
  destruct (MojObjectString.getRequired_string perm ObjectKey); [|by intros [= <- _]].
  destruct (MojObjectString.getRequired_string perm CallerKey); [|by intros [= <- _]].
  destruct (MojObject.getRequiredT _); [|by intros [= <- _]].
  destruct (validateWildcard _ _); [|by intros [= <- _]]. simpl.
  destruct (bool_decide _); [destruct (checkPermission e _); [|by intros [= <- _]]|]; simpl.
  all: destruct (operations_of _) as [opMap|]; [|by intros [= <- _]]; simpl.
  all: destruct putObj; [match goal with |- context [db_put ?x ?y] => destruct (db_put x y) as [d1 [|]] end|]; simpl; by intros [= <- _].
Qed.

Lemma put_holds perm putObj e d e' d' perms : perm_ok perm -> holds_rules e perms ->
  put checkPermission db_put perm putObj (e, d) = ((e', d'), Ok tt) -> holds_rules e' (perms ++ [perm]).
Proof.
  intros [C _] H (o & opMap & G & O & ->)%put_succeeds type object. simpl. rewrite callers_put_rule, rules_app.
  assert (opmap_of perm = opMap) as P by (unfold opmap_of; by rewrite G, O).
  case_decide as T; [destruct T as [<- <-]|apply H].
  destruct (H (field perm TypeKey) (field perm ObjectKey)) as (S & F & I). split; [by apply (MojMap.map_put_sorted LengthComp)|].
  rewrite Forall_forall in F. split.
  - rewrite Forall_forall. intros x [->|Hx]%(MojRbTreeBase.elem_of_put_inv fst LengthComp); [done|by apply F].
  - intros c ops. rewrite latest_app. unfold MojMap.put. rewrite (MojRbTreeBase.elem_of_put fst LengthComp) by done. simpl.
    split.
    + intros [[= -> ->]|[Hc N]]; [rewrite decide_True by done; by exists perm|].
      case_decide as Eq; [subst; by rewrite (comp_refl LengthComp) in N|]. by apply I.
    + intros (p & E & ->). case_decide as Eq; [simplify_eq; by left|]. right. assert ((c, opmap_of p) ∈ callers_of (m_types e) (field perm TypeKey) (field perm ObjectKey)) as Hc by (apply I; by exists p).
      split; [done|]. intros Z. apply Eq. apply LengthComp_eq; [done|by apply (F (c, opmap_of p))|by apply (comp_eq_sym LengthComp)].
Qed.
End put.

(** ** What [open] leaves *)
Section open.
Context {D : Type} (checkPermission : MojDbPermissionEngine -> mstring -> res unit) (db_put : MojObject -> st D unit).

Lemma put_all_holds objects e d e' d' perms : Forall perm_ok objects -> holds_rules e perms ->
  put_all checkPermission db_put objects (e, d) = ((e', d'), Ok tt) -> holds_rules e' (perms ++ objects).
Proof.
  revert e d perms. induction objects as [|p objects IH]; intros e d perms F H E; simpl in E.
  - unfold ret in E. simplify_eq. by rewrite app_nil_r.
  - apply Forall_cons in F as [P F]. destruct (put checkPermission db_put p false (e, d)) as [[e1 d1] [[]|]] eqn:Q.
    + rewrite (bind_ok _ _ _ _ _ Q) in E. rewrite (assoc_L app _ [p] objects). eapply (IH e1 d1); [done| |exact E]. by eapply put_holds.
    + by rewrite (bind_err _ _ _ _ _ Q) in E.
Qed.

Lemma load_put_all rows : load checkPermission db_put (map Ok rows) = put_all checkPermission db_put rows.
Proof. induction rows as [|r rows IH]; [done|]. simpl. by rewrite IH. Qed.

(** The permissions of the configuration. *)
Definition configured (conf : MojObject) : list MojObject :=
  match MojObject.get conf PermissionsKey with Some objects => MojObject.ensureArray objects | None => [] end.

Lemma open_holds conf stored e d e' d' : m_types e = [] -> Forall perm_ok (configured conf ++ stored) ->
  open checkPermission db_put conf (Ok (map Ok stored)) (e, d) = ((e', d'), Ok tt) -> holds_rules e' (configured conf ++ stored).
Proof.
  intros T [Fc Fs]%Forall_app E.
  assert (holds_rules e []) as H0.
  { intros type object. unfold callers_of. rewrite T. simpl. split; [constructor|]. split; [constructor|].
    intros c ops. split; [by intros H%elem_of_nil|by intros (p & H & _)]. }
  assert (forall b, holds_rules (with_enabled e b) []) as Hb by (intros b type object; apply (H0 type object)).
  unfold open in E. destruct (configure checkPermission db_put conf (e, d)) as [[e1 d1] [[]|]] eqn:C;
    [rewrite (bind_ok _ _ _ _ _ C) in E|by rewrite (bind_err _ _ _ _ _ C) in E].
  rewrite bind_lift, load_put_all in E. eapply put_all_holds; [done| |exact E].
  clear E. unfold configure, configured in *. destruct (MojObject.get conf PermissionsKey) as [objects|].
  - destruct (MojObject.get_bool conf PermissionsEnabledKey) as [b|]; [rewrite (bind_ok _ _ (e, d) (with_enabled e b, d) tt) in C by done|
      rewrite (bind_ok _ _ (e, d) (e, d) tt) in C by done]; (eapply (put_all_holds _ _ _ _ _ []); [done| |exact C]); auto.
  - destruct (MojObject.get_bool conf PermissionsEnabledKey) as [b|]; unfold bind, modify, ret in C; simpl in C; simplify_eq; auto.
Qed.
End open.

(** The last one put for a pattern is one of them. *)
Lemma latest_in perms c p : latest perms c = Some p -> p ∈ perms /\ field p CallerKey = c.
Proof. unfold latest. intros H%last_Some_elem_of%list_elem_of_filter. naive_solver. Qed.

Lemma latest_some perms c : c ∈ callers perms <-> exists p, latest perms c = Some p.
Proof.
  split; [|intros [p [H <-]%latest_in]; by apply list_elem_of_fmap; exists p].
  unfold callers. intros (p & -> & H)%list_elem_of_fmap. unfold latest.
  destruct (last (filter _ perms)) as [q|] eqn:E; [by exists q|]. apply last_None in E. exfalso.
  apply (elem_of_nil p). rewrite <- E. by apply list_elem_of_filter.
Qed.

Lemma governs_unique rs caller a b : governs rs caller a -> governs rs caller b -> a = b.
Proof.
  intros [Ha [->|(Na & Wa & Xa)]] [Hb [->|(Nb & Wb & Xb)]]; [done|done|done|].
  apply (match_unique a b caller); [done..|]. specialize (Xa b Hb Wb). specialize (Xb a Ha Wa). lia.
Qed.

(** The operations of every permission that was put were read. *)
Definition readable (p : MojObject) : Prop :=
  exists o om, MojObject.get p OperationsKey = Some o /\ operations_of o = Ok om.

Lemma put_all_readable {D} checkPermission (db_put : MojObject -> st D unit) objects w w' :
  put_all checkPermission db_put objects w = (w', Ok tt) -> Forall readable objects.
Proof.
  revert w. induction objects as [|p objects IH]; intros [e d] E; [constructor|]. simpl in E.
  destruct (put checkPermission db_put p false (e, d)) as [[e1 d1] [[]|]] eqn:Q;
    [rewrite (bind_ok _ _ _ _ _ Q) in E|by rewrite (bind_err _ _ _ _ _ Q) in E].
  constructor; [|by eapply IH]. apply put_succeeds in Q as (o & om & G & O & _). by exists o, om.
Qed.

Lemma open_opmaps {D} checkPermission (db_put : MojObject -> st D unit) conf stored e d e' d' :
  open checkPermission db_put conf (Ok (map Ok stored)) (e, d) = ((e', d'), Ok tt) ->
  forall p, p ∈ configured conf ++ stored -> readable p.
Proof.
  intros E. apply (Forall_forall readable). unfold open in E.
  destruct (configure checkPermission db_put conf (e, d)) as [[e1 d1] [[]|]] eqn:C;
    [rewrite (bind_ok _ _ _ _ _ C) in E|by rewrite (bind_err _ _ _ _ _ C) in E].
  rewrite bind_lift, load_put_all in E. apply Forall_app. split; [|by eapply put_all_readable].
  unfold configure, configured in *. destruct (MojObject.get conf PermissionsKey) as [objects|]; [|constructor].
  destruct (MojObject.get_bool conf PermissionsEnabledKey); unfold bind at 1 in C; simpl in C; by eapply put_all_readable.
Qed.

(** ** The theorems *)

(** C37: Once the engine is open, check answers for a caller with the last permission put for its own name, or else for the longest wildcard that matches it, and is undefined when neither exists; stored permissions come after those of the configuration. *)
Theorem check_exact {D} checkPermission (db_put : MojObject -> st D unit) conf stored e d e' d' :
  m_types e = [] -> Forall perm_ok (configured conf ++ stored) ->
  open checkPermission db_put conf (Ok (map Ok stored)) (e, d) = ((e', d'), Ok tt) ->
  forall type object caller op, str_ok caller ->
    let rs := rules (configured conf ++ stored) type object in
    (forall pattern, governs rs caller pattern ->
       exists perm, latest rs pattern = Some perm /\ check e' type object caller op = value_in perm op) /\
    ((forall pattern, ~ governs rs caller pattern) -> check e' type object caller op = ValueUndefined).
Proof.
  intros T F E type object caller op C rs. pose proof (open_holds _ _ _ _ _ _ _ _ T F E type object) as (S & K & I).
  pose proof (open_opmaps _ _ _ _ _ _ _ _ E) as M. fold rs in I. rewrite check_callers.
  set (m := callers_of (m_types e') type object) in *.
  assert (forall c, c ∈ m.*1 <-> c ∈ callers rs) as Keys.
  { intros c. rewrite latest_some. split.
    - intros ([c' ops] & -> & Hc)%list_elem_of_fmap. apply I in Hc as (p & Hp & _). by exists p.
    - intros [p Hp]. apply list_elem_of_fmap. exists (c, opmap_of p). split; [done|]. apply I. by exists p. }
  destruct (lookup m caller) as [[c ops]|] eqn:L.
  - pose proof (lookup_spec m caller _ S K C L) as (In & G). simpl in G. apply I in In as (perm & Lp & ->).
    assert (governs rs caller c) as Gc.
    { split; [apply latest_some; by exists perm|]. destruct G as [->|(N & W & X)]; [by left|right].
      rewrite <- Keys. split; [done|]. split; [done|]. intros p (e0 & -> & H0)%Keys%list_elem_of_fmap. by apply X. }
    split; [|intros N; by destruct (N c)]. intros pattern Gp. exists perm.
    assert (pattern = c) as -> by (by eapply governs_unique). split; [done|]. simpl.
    apply latest_in in Lp as [Hp _]. apply list_elem_of_filter in Hp as [_ Hp].
    destruct (M perm Hp) as (o & om & Go & Oo). rewrite Forall_forall in F. eapply opmap_get; [by apply (F perm Hp)|done..].
  - apply lookup_nothing in L as [N W]. split; [|done]. intros pattern [Hp G]. exfalso. apply Keys in Hp.
    destruct G as [->|(_ & Wp & _)]; [done|]. apply list_elem_of_fmap in Hp as (e0 & -> & He). by rewrite W in Wp.
Qed.

(** *** What is refused *)

(** A name, a star, or names that start with what comes before the star. *)
Definition valid_pattern (s : mstring) : Prop :=
  s <> [] /\ (chr "*" ∉ s \/ s = [chr "*"] \/ exists p, s = p ++ [chr "."; chr "*"] /\ chr "*" ∉ p).

Lemma validateWildcard_valid s err : valid_pattern s -> validateWildcard s err = Ok tt.
Proof.
  intros [N V]. unfold validateWildcard, MojString.find. destruct s as [|c s]; [done|]. rewrite drop_0.
  destruct (list_find _ (c :: s)) as [[i x]|] eqn:F; [|done]. apply list_find_Some in F as (L & -> & B). simpl (0 + i)%nat.
  destruct V as [V|[V|(p & E & Np)]].
  - exfalso. apply V. by eapply list_elem_of_lookup_2.
  - rewrite V in *. destruct i as [|i]; [done|]. by destruct i.
  - rewrite E in *. assert (i = S (length p)) as ->.
    { assert (~ (i < length p)%nat) as G1.
      { intros G. apply Np. rewrite lookup_app_l in L by done. by eapply list_elem_of_lookup_2. }
      rewrite lookup_app_r in L by lia. destruct (i - length p)%nat as [|[|k]] eqn:K; [done|lia|done]. }
    rewrite length_app. change (length [chr "."; chr "*"]) with 2%nat.
    rewrite (proj2 (Nat.eqb_eq (S (length p)) (length p + 2 - 1))) by lia.
    replace (S (length p) - 1)%nat with (length p) by lia. rewrite app_nth2, Nat.sub_diag by lia. done.
Qed.

Lemma validateWildcard_invalid s err : validateWildcard s err = Ok tt -> valid_pattern s.
Proof.
  unfold validateWildcard, MojString.find. destruct s as [|c s]; [done|]. rewrite drop_0. set (l := c :: s). intros E. split; [done|].
  destruct (list_find _ l) as [[i x]|] eqn:F.
  - apply list_find_Some in F as (L & -> & B). simpl (0 + i)%nat in E. right.
    destruct (Nat.eqb_spec i (length l - 1)) as [Hi|]; [|done]. simpl in E.
    assert (l = take i l ++ [chr "*"]) as D.
    { rewrite <- (take_drop i l) at 1. f_equal. rewrite (drop_S l (chr "*") i) by done. rewrite drop_ge by lia. done. }
    assert (chr "*" ∉ take i l) as Np.
    { intros [j Hj]%list_elem_of_lookup. pose proof (lookup_lt_Some _ _ _ Hj) as Lj. rewrite length_take in Lj.
      rewrite lookup_take_lt in Hj by lia. by apply (B j (chr "*")); [|lia|]. }
    destruct i as [|i]; [by left|]. right. assert (nth i l 0 = chr ".") as Q.
    { destruct (nth i l 0 =? chr ".") eqn:Q; [by apply Z.eqb_eq|]. exfalso.
      change ((if negb (nth (S i - 1) l 0 =? chr ".") then Err err else Ok tt) = Ok tt) in E.
      replace (S i - 1)%nat with i in E by lia. by rewrite Q in E. }
    assert (l !! i = Some (chr ".")) as Li.
    { rewrite nth_lookup in Q. destruct (l !! i) eqn:Li; [by f_equal|]. apply lookup_ge_None in Li. lia. }
    exists (take i l). rewrite (take_S_r l i _ Li) in D, Np. split; [by rewrite D at 1; rewrite <- app_assoc|].
    intros H. apply Np. apply elem_of_app. by left.
  - left. intros H. apply list_find_None in F. rewrite Forall_forall in F. by apply (F _ H).
Qed.

Lemma validateWildcard_err s err : ~ valid_pattern s -> validateWildcard s err = Err err.
Proof.
  intros N. destruct (validateWildcard s err) as [[]|e] eqn:E; [by apply validateWildcard_invalid in E|].
  unfold validateWildcard in E. destruct s; [by simplify_eq|]. destruct (MojString.find _ _ _); [|done].
  destruct (negb _ || _); by simplify_eq.
Qed.

Lemma operations_refused operations : (forall kv, kv ∈ MojObject.ensureObject operations -> exists s, MojObjectString.stringValue kv.2 = Ok s) ->
  (exists kv s, kv ∈ MojObject.ensureObject operations /\ MojObjectString.stringValue kv.2 = Ok s /\ s <> AllowKey /\ s <> DenyKey) ->
  operations_of operations = Err MojErrDbInvalidPermissions.
Proof.
  intros R B. unfold operations_of. generalize (@nil (mstring * Value)) as acc.
  induction (MojObject.ensureObject operations) as [|kv l IH]; intros acc.
  - destruct B as (kv & s & H & _). by apply elem_of_nil in H.
  - simpl. destruct (R kv) as [s Hs]; [left|]. rewrite Hs. simpl.
    unfold valueFromString at 1. repeat case_bool_decide; simpl; [..|done]; apply IH.
    all: try (intros kv' Hk; apply R; by right).
    all: destruct B as (kv' & s' & [->|Hk]%elem_of_cons & Hs' & NA & ND); [congruence|by exists kv', s'].
Qed.

(** C38: A put that fails leaves the rules as they were; it fails with MojErrDbInvalidCaller for a caller that is no name, star or name prefix with a star, with the kind engine's error for a kind the request may not change, and with MojErrDbInvalidPermissions for a value that is not allow or deny. *)
Theorem put_refused {D} checkPermission (db_put : MojObject -> st D unit) perm putObj e d :
  (forall w err, put checkPermission db_put perm putObj (e, d) = (w, Err err) -> w.1 = e) /\
  forall type object caller operations,
    MojObjectString.getRequired_string perm TypeKey = Ok type -> MojObjectString.getRequired_string perm ObjectKey = Ok object ->
    MojObjectString.getRequired_string perm CallerKey = Ok caller -> MojObject.get perm OperationsKey = Some operations ->
    (~ valid_pattern caller -> put checkPermission db_put perm putObj (e, d) = ((e, d), Err MojErrDbInvalidCaller)) /\
    (valid_pattern caller -> forall err, type = PermissionType -> checkPermission e object = Err err ->
       put checkPermission db_put perm putObj (e, d) = ((e, d), Err err)) /\
    (valid_pattern caller -> (type = PermissionType -> checkPermission e object = Ok tt) ->
       (forall kv, kv ∈ MojObject.ensureObject operations -> exists s, MojObjectString.stringValue kv.2 = Ok s) ->
       (exists kv s, kv ∈ MojObject.ensureObject operations /\ MojObjectString.stringValue kv.2 = Ok s /\ s <> AllowKey /\ s <> DenyKey) ->
       put checkPermission db_put perm putObj (e, d) = ((e, d), Err MojErrDbInvalidPermissions)).
Proof.
  split; [intros w err; apply put_failed|]. intros type object caller operations Ht Ho Hc Hp. unfold put. rewrite Ht, Ho, Hc, Hp.
  unfold bind, lift, get, ret. simpl. split; [|split].
  - intros N. by rewrite validateWildcard_err.
  - intros V err -> E. rewrite validateWildcard_valid by done. rewrite bool_decide_eq_true_2 by done. by rewrite E.
  - intros V C R B. rewrite validateWildcard_valid by done. rewrite (operations_refused operations R B).
    case_bool_decide as P; [|done]. by rewrite (C P).
Qed.

(** ** An example: one kind, a rule for an application family and one for everybody *)
Module PermissionExample.
Definition rule (object caller op value : string) : MojObject :=
  fold_left (fun o p => MojObject.put o (_T p.1) p.2)
    [("type", StringImpl (_T "db.kind")); ("object", StringImpl (_T object)); ("caller", StringImpl (_T caller));
     ("operations", MojObject.put (ObjectImpl []) (_T op) (StringImpl (_T value)))]%string (ObjectImpl []).

Definition everybody := rule "Photo:1" "*" "read" "deny".
Definition family := rule "Photo:1" "com.palm.*" "read" "allow".
Definition conf : MojObject := MojObject.put (ObjectImpl []) PermissionsKey (ArrayImpl [everybody]).
Definition allowed (_ : MojDbPermissionEngine) (_ : mstring) : res unit := Ok tt.
Definition no_db (_ : MojObject) : st unit unit := throw MojErrDbIO.
Definition opened := open allowed no_db conf (Ok (map Ok [family])) (init, tt).

Lemma rule_str s : forallb (fun c => (0 <? c) && (c <? 256)) (_T s) = true -> str_ok (_T s).
Proof. intros H. apply Forall_forall. intros c Hc. rewrite forallb_forall in H. apply list_elem_of_In, H in Hc. lia. Qed.

Lemma rules_ok : Forall perm_ok [everybody; family].
Proof.
  repeat constructor; try (by apply rule_str).
  all: intros o E; vm_compute in E; injection E as <-; apply MojObject.ok_object.
  all: split; [repeat constructor|repeat constructor; vm_compute; done].
Qed.

(** An application of the family may read, though nobody else may. *)
Lemma check_exact_witness : check opened.1.1 PermissionType (_T "Photo:1") (_T "com.palm.mail") (_T "read") = ValueAllow /\
  check opened.1.1 PermissionType (_T "Photo:1") (_T "org.other") (_T "read") = ValueDeny.
Proof.
  destruct opened as [[e' d'] r] eqn:E. assert (r = Ok tt) as -> by (pose proof (f_equal snd E) as Q; vm_compute in Q; by symmetry).
  assert (Forall perm_ok (configured conf ++ [family])) as F by apply rules_ok. cbn [fst].
  split.
  - destruct (check_exact allowed no_db conf [family] init tt e' d' eq_refl F E PermissionType (_T "Photo:1") (_T "com.palm.mail") (_T "read"))
      as [G _]; [by apply rule_str|].
    destruct (G (_T "com.palm.*")) as (perm & L & ->).
    + split; [by apply (bool_decide_unpack _)|]. right. split; [by apply (bool_decide_unpack _)|]. split; [done|].
      intros p Hp _. vm_compute in Hp. repeat (apply elem_of_cons in Hp as [->|Hp]; [vm_compute; lia|]). by apply elem_of_nil in Hp.
    + vm_compute in L. injection L as <-. by vm_compute.
  - destruct (check_exact allowed no_db conf [family] init tt e' d' eq_refl F E PermissionType (_T "Photo:1") (_T "org.other") (_T "read"))
      as [G _]; [by apply rule_str|].
    destruct (G (_T "*")) as (perm & L & ->).
    + split; [by apply (bool_decide_unpack _)|]. right. split; [by apply (bool_decide_unpack _)|]. split; [done|].
      intros p Hp W. vm_compute in Hp. repeat (apply elem_of_cons in Hp as [->|Hp]; [vm_compute in W; by try (vm_compute; lia)|]). by apply elem_of_nil in Hp.
    + vm_compute in L. injection L as <-. by vm_compute.
Defined.

Lemma put_refused_witness : put allowed no_db (rule "Photo:1" "com.*.mail" "read" "allow") false (init, tt) = ((init, tt), Err MojErrDbInvalidCaller).
Proof.
  destruct (put_refused allowed no_db (rule "Photo:1" "com.*.mail" "read" "allow") false init tt) as [_ H].
  destruct (H (_T "db.kind") (_T "Photo:1") (_T "com.*.mail") (MojObject.put (ObjectImpl []) (_T "read") (StringImpl (_T "allow")))) as [I _];
    [by vm_compute..|]. apply I.
  intros V. pose proof (validateWildcard_valid (_T "com.*.mail") MojErrDbInvalidCaller V) as Q. by vm_compute in Q.
Defined.
End PermissionExample.
