(* ===== verification/Quota.v ===== *)
(** * Quotas and the usage of kinds: src/src/db/MojDbQuotaEngine.cpp

    A quota limits what the kinds of an owner may use together.  The usage of each
    kind is kept in a database of its own and changed with the transaction; the usage
    of a quota is only in memory and changed once the transaction is committed. *)

From stdpp Require Import gmap.
From S2P Require Import Prelude Containers CoreUtil Object Json JsonRoundTrip Effects StorageTxn KindGraph.

(** The usage database of an engine in a transaction: the usage recorded for a kind, if
    there is one.  Writing counts against the quotas unless that is off. *)
Class UsageDb (T : Type) := {
  usage_get : T -> mstring -> res (option Z);
  usage_insert : mstring -> Z -> MojDbStorageTxn.MojDbStorageTxn * T -> res (MojDbStorageTxn.MojDbStorageTxn * T);
  usage_update : mstring -> Z -> MojDbStorageTxn.MojDbStorageTxn * T -> res (MojDbStorageTxn.MojDbStorageTxn * T)
}.

Module MojDbQuotaEngine.
Definition QuotasKey := _T "quotas".
Definition OwnerKey := _T "owner".
Definition SizeKey := _T "size".
Definition UsedKey := _T "used".
Definition QuotaId := _T "Quota:1".
(** [MojDb::IdKey] and [MojDb::KindKey]. *)
Definition IdKey := _T "_id".
Definition KindKey := _T "_kind".

Section engine.
Context {T : Type} `{!UsageDb T}.
(** The kinds of the kind engine and the owner of each. *)
Context (g : MojDbKind.Graph) (kinds : MojDbKind.KindMap) (owner : Z -> mstring).

(** The engine and the transaction at work; a commit handler is known by the address
    of its slot. *)
Record World := {
  m_isOpen : bool;
  m_quotas : QuotaMap;
  m_txn : MojDbStorageTxn.MojDbStorageTxn;
  m_usageDb : T;
  m_handlers : list (Z * (mstring * Z))
}.

Definition with_open (w : World) b : World :=
  {| m_isOpen := b; m_quotas := m_quotas w; m_txn := m_txn w; m_usageDb := m_usageDb w; m_handlers := m_handlers w |}.
Definition with_quotas (w : World) q : World :=
  {| m_isOpen := m_isOpen w; m_quotas := q; m_txn := m_txn w; m_usageDb := m_usageDb w; m_handlers := m_handlers w |}.
Definition with_txn (w : World) t : World :=
  {| m_isOpen := m_isOpen w; m_quotas := m_quotas w; m_txn := t; m_usageDb := m_usageDb w; m_handlers := m_handlers w |}.
Definition with_usage (w : World) p : World :=
  {| m_isOpen := m_isOpen w; m_quotas := m_quotas w; m_txn := p.1; m_usageDb := p.2; m_handlers := m_handlers w |}.
Definition with_handlers (w : World) h : World :=
  {| m_isOpen := m_isOpen w; m_quotas := m_quotas w; m_txn := m_txn w; m_usageDb := m_usageDb w; m_handlers := h |}.

(** ** The quota of a kind

    That of a super, but not of the root kind, or else the one of the owner.  [found] is
    the quota there is already; a quota is named by the owner it is kept under. *)
Section supers.
Context (f : Z -> option mstring -> res (option mstring)).
Fixpoint from_supers (supers : list Z) (found : option mstring) : res (option mstring * bool) :=
  match supers with
  | [] => Ok (found, false)
  | k :: supers' =>
      if bool_decide (MojDbKind.m_id (MojDbKind.links g k) = RootKindId) then from_supers supers' found
      else
        let? found := f k found in
        match found with Some _ => Ok (found, true) | None => from_supers supers' found end
  end.
End supers.

Fixpoint quotaForKind (fuel : nat) (quotas : QuotaMap) (k : Z) (found : option mstring) : res (option mstring) :=
  match fuel with
  | O => Err AssertFailed
  | S fuel' =>
      let? (found, returned) := from_supers (quotaForKind fuel' quotas) (MojDbKind.m_supers (MojDbKind.links g k)) found in
      if returned : bool then Ok found
      else
        match MojDbPutHandler.lookup quotas (owner k) with
        | Some entry => Ok (Some entry.1)
        | None => Ok found
        end
  end.

Definition quota_of (quotas : QuotaMap) (k : Z) (found : option mstring) : res (option mstring) :=
  quotaForKind (MojDbKind.depth g) quotas k found.

(** ** Counting *)
(** The current kind of a transaction: its offset is made or found, and its quota. *)
Definition curKind (k : Z) : st World unit :=
  let id := MojDbKind.m_id (MojDbKind.links g k) in
  let! w := get in
  let txn := m_txn w in
  let offset := default Offset.init (MojMap.get MojStrCmp (MojDbStorageTxn.m_offsetMap txn) id) in
  let set o := MojDbStorageTxn.with_offsets txn true (MojMap.put MojStrCmp (MojDbStorageTxn.m_offsetMap txn) id o) (Some id) in
  let! _ := modify (fun w => with_txn w (set offset)) in
  let! quota := lift (quota_of (m_quotas w) k (Offset.m_quota offset)) in
  modify (fun w => with_txn w (set {| Offset.m_offset := Offset.m_offset offset; Offset.m_quota := quota |})).

Definition kindUsage (t : T) (kindId : mstring) : res Z :=
  let? item := usage_get t kindId in Ok (default 0 item).

(** [insertUsage] and the update of [applyOffset], with the quotas off. *)
Definition uncounted (write : MojDbStorageTxn.MojDbStorageTxn * T -> res (MojDbStorageTxn.MojDbStorageTxn * T)) : st World unit :=
  let! w := get in
  let! _ := modify (fun w => with_txn w (MojDbStorageTxn.quotaEnabled (m_txn w) false)) in
  let! w := get in
  let! p := lift (write (m_txn w, m_usageDb w)) in
  let! _ := modify (fun w => with_usage w p) in
  modify (fun w => with_txn w (MojDbStorageTxn.quotaEnabled (m_txn w) true)).

Definition insertUsage (kindId : mstring) (usage : Z) : st World unit := uncounted (usage_insert kindId usage).

Definition applyOffset (kindId : mstring) (offset : Z) : st World unit :=
  let! w := get in
  let! item := lift (usage_get (m_usageDb w) kindId) in
  match item with
  | Some usage => uncounted (usage_update kindId (to_int 64 (offset + usage)))
  | None => insertUsage kindId offset
  end.

Fixpoint apply_offsets (offsets : OffsetMap) : st World unit :=
  match offsets with
  | [] => ret tt
  | i :: offsets' => let! _ := applyOffset i.1 (Offset.m_offset i.2) in apply_offsets offsets'
  end.

Definition applyUsage : st World unit := let! w := get in apply_offsets (MojDbStorageTxn.m_offsetMap (m_txn w)).

(** A quota's usage, changed where it is. *)
Definition offset_quota (quotas : QuotaMap) (name : mstring) (offset : Z) : QuotaMap :=
  map (fun e => if bool_decide (e.1 = name) then (e.1, Quota.offset e.2 offset) else e) quotas.

Definition applyQuota : st World unit :=
  modify (fun w => with_quotas w
    (fold_left (fun quotas i => match Offset.m_quota i.2 with
                                | Some name => offset_quota quotas name (Offset.m_offset i.2)
                                | None => quotas
                                end)
       (MojDbStorageTxn.m_offsetMap (m_txn w)) (m_quotas w))).

Definition refreshImpl : st World unit :=
  let! _ := modify (fun w => with_quotas w (map (fun e => (e.1, Quota.set_usage e.2 0)) (m_quotas w))) in
  let! w := get in
  let! quotas := lift (res_fold (fun quotas e =>
      let? quota := quota_of quotas e.2 None in
      match quota with
      | Some name => let? usage := kindUsage (m_usageDb w) e.1 in Ok (offset_quota quotas name usage)
      | None => Ok quotas
      end) (m_quotas w) kinds) in
  modify (fun w => with_quotas w quotas).

(** ** Quotas *)
(** [refresh]: a transaction of its own that only reads. *)
Definition commitQuota (name : mstring) (size : Z) : st World unit :=
  let! _ := modify (fun w => with_quotas w
    match MojMap.get MojDbPutHandler.LengthComp (m_quotas w) name with
    | None => MojMap.put MojDbPutHandler.LengthComp (m_quotas w) name {| Quota.m_size := size; Quota.m_usage := 0 |}
    | Some q => MojMap.put MojDbPutHandler.LengthComp (m_quotas w) name (Quota.set_size q size)
    end) in
  let! w := get in
  if m_isOpen w then refreshImpl else ret tt.

Definition handleCommit (slot : Z) : st World unit :=
  let! w := get in
  match List.find (fun h => h.1 =? slot) (m_handlers w) with
  | Some h => commitQuota h.2.1 h.2.2
  | None => ret tt
  end.

Definition with_id (obj : MojObject) (name : mstring) : MojObject :=
  MojObject.putString (MojObject.put obj IdKey (StringImpl (_T "_quotas/" ++ name))) KindKey QuotaId.

Section put.
Context (db_put : MojObject -> st World unit) (* with the rights of an administrator *).

Definition put (admin : bool) (obj : MojObject) (putObj : bool) (slot : Z) : st World unit :=
  if negb admin then throw MojErrDbPermissionDenied
  else
    let! name := lift (MojObjectString.getRequired_string obj OwnerKey) in
    let! size := lift (MojObject.getRequiredT (MojObject.get_int obj SizeKey)) in
    let! _ := lift (MojDbPutHandler.validateWildcard name MojErrDbInvalidOwner) in
    if putObj then
      let! _ := db_put (with_id obj name) in
      modify (fun w => with_txn (with_handlers w ((slot, (name, size)) :: m_handlers w))
                         (MojDbStorageTxn.notifyPostCommit (m_txn w) slot))
    else commitQuota name size.

(** ** Opening, with [MojDbPutHandler::open] and [configure] *)
Fixpoint put_all (admin : bool) (objects : list MojObject) : st World unit :=
  match objects with
  | [] => ret tt
  | obj :: objects' => let! _ := put admin obj false 0 in put_all admin objects'
  end.

Fixpoint load (admin : bool) (rows : list (res MojObject)) : st World unit :=
  match rows with
  | [] => ret tt
  | row :: rows' => let! obj := lift row in let! _ := put admin obj false 0 in load admin rows'
  end.

Context (stats : Z -> res Z) (* how much a kind holds *).

Definition initUsage (e : mstring * Z) : st World unit :=
  let! w := get in
  let! item := lift (usage_get (m_usageDb w) e.1) in
  match item with
  | Some _ => ret tt
  | None => let! usage := lift (stats e.2) in insertUsage e.1 (to_int 64 usage)
  end.

Fixpoint init_all (es : MojDbKind.KindMap) : st World unit :=
  match es with [] => ret tt | e :: es' => let! _ := initUsage e in init_all es' end.

Definition open (admin : bool) (conf : MojObject) (find : res (list (res MojObject))) : st World unit :=
  let! _ := match MojObject.get conf QuotasKey with
            | Some objects => put_all admin (MojObject.ensureArray objects)
            | None => ret tt
            end in
  let! rows := lift find in
  let! _ := load admin rows in
  let! _ := init_all kinds in
  let! _ := refreshImpl in
  modify (fun w => with_open w true).
End put.

Definition close (w : World) : World := with_open (with_quotas w []) false.

Definition quotaUsage (quotas : QuotaMap) (name : mstring) : res (Z * Z) :=
  match MojMap.get MojDbPutHandler.LengthComp quotas name with
  | Some q => Ok (Quota.m_size q, Quota.m_usage q)
  | None => Err MojErrNotFound
  end.

Definition stats_obj (admin : bool) (quotas : QuotaMap) (objOut : MojObject) : res MojObject :=
  if negb admin then Err MojErrDbPermissionDenied
  else Ok (fold_left (fun objOut e =>
      let quota := MojObject.putInt (ObjectImpl []) SizeKey (Quota.m_size e.2) in
      let quota := MojObject.putInt quota UsedKey (Quota.m_usage e.2) in
      MojObject.put objOut e.1 quota) quotas objOut).

(** ** A commit of the transaction; [commitImpl] is the storage engine's *)
Definition commit (preCommit : Z -> st World unit) (committed : Z -> st World unit) (commitImpl : st World unit) : st World unit :=
  MojDbStorageTxn.commit m_txn with_txn preCommit handleCommit committed applyUsage applyQuota refreshImpl commitImpl.
End engine.
End MojDbQuotaEngine.
