(* ===== verification/QuotaSpec.v ===== *)
(** * The usage of a quota is that of its kinds

    Whatever transactions commit, the usage a quota shows is the sum of the usages
    recorded for the kinds that count against it. *)

From stdpp Require Import gmap.
From S2P Require Import Prelude Containers CoreUtil Object Effects StorageTxn KindGraph Quota.

(** ** Sums of 64-bit values, up to a multiple of 2^64 *)
Definition E64 (a b : Z) : Prop := to_int 64 a = to_int 64 b.

Lemma E64_mod a b : E64 a b <-> a mod 2 ^ 64 = b mod 2 ^ 64.
Proof.
  unfold E64. split; [|intros H; by rewrite <- (to_int_mod 64 a), H, to_int_mod].
  unfold to_int. intros H. pose proof (Z.mod_pos_bound a (2 ^ 64) ltac:(lia)). pose proof (Z.mod_pos_bound b (2 ^ 64) ltac:(lia)).
  destruct (Z.ltb_spec (a mod 2 ^ 64) (2 ^ (64 - 1))), (Z.ltb_spec (b mod 2 ^ 64) (2 ^ (64 - 1))); lia.
Qed.

#[export] Instance E64_equiv : Equivalence E64.
Proof. unfold E64. split; [done|by intros ? ?|]. intros a b c. by intros ->. Qed.

#[export] Instance E64_add : Proper (E64 ==> E64 ==> E64) Z.add.
Proof.
  intros a a' Ha b b' Hb. rewrite E64_mod in *. by rewrite Z.add_mod, Ha, Hb, <- Z.add_mod.
Qed.

Lemma E64_to_int a : E64 (to_int 64 a) a.
Proof. unfold E64. apply to_int_small; [done|]. by apply to_int_range. Qed.

Definition sum (l : list Z) : Z := fold_right Z.add 0 l.

Lemma sum_change {A} (es : list (mstring * A)) (f f' : mstring * A -> Z) id k d : NoDup es.*1 -> (id, k) ∈ es ->
  (forall e, e ∈ es -> e.1 <> id -> f' e = f e) -> E64 (f' (id, k)) (f (id, k) + d) ->
  E64 (sum (map f' es)) (sum (map f es) + d).
Proof.
  induction es as [|e es IH]; intros N H S U; [by apply elem_of_nil in H|]. simpl in N. apply NoDup_cons in N as [N0 N]. simpl.
  apply elem_of_cons in H as [<-|H].
  - assert (map f' es = map f es) as ->.
    { apply map_ext_in. intros e He. apply S; [right; by apply list_elem_of_In|]. intros <-. apply N0. apply list_elem_of_fmap.
      exists e. split; [done|by apply list_elem_of_In]. }
    rewrite U. by replace (f (id, k) + d + sum (map f es)) with (f (id, k) + sum (map f es) + d) by lia.
  - rewrite S; [|left|].
    + rewrite IH by (done || (intros; apply S; [by right|done])). by rewrite Z.add_assoc.
    + intros <-. apply N0. apply list_elem_of_fmap. by exists (e.1, k).
Qed.

#[export] Instance res_eq_dec {A} `{EqDecision A} : EqDecision (res A).
Proof. solve_decision. Defined.

(** ** The promise of the usage database *)
Class UsageDbLaws (T : Type) `{!UsageDb T} := {
  insert_spec txn t id n p : MojDbStorageTxn.m_quotaEnabled txn = false -> usage_insert id n (txn, t) = Ok p ->
    p.1 = txn /\ forall id', usage_get p.2 id' = if decide (id = id') then Ok (Some n) else usage_get t id';
  update_spec txn t id n p : MojDbStorageTxn.m_quotaEnabled txn = false -> usage_update id n (txn, t) = Ok p ->
    p.1 = txn /\ forall id', usage_get p.2 id' = if decide (id = id') then Ok (Some n) else usage_get t id'
}.

Import MojDbQuotaEngine.

Section accounts.
Context {T : Type} `{!UsageDb T} `{!UsageDbLaws T}.
Context (g : MojDbKind.Graph) (kinds : MojDbKind.KindMap) (owner : Z -> mstring).
Context (Nkinds : NoDup kinds.*1) (Okinds : Forall (fun e => str_ok e.1) kinds).

Abbreviation W := (@World T).
Abbreviation governing := (fun quotas k => quota_of g owner quotas k None).

(** What is recorded for a kind, and for the kinds of a quota together. *)
Definition usage_of (t : T) (id : mstring) : Z := match usage_get t id with Ok (Some n) => n | _ => 0 end.
Definition share (quotas : QuotaMap) (t : T) (name : mstring) (e : mstring * Z) : Z :=
  if decide (governing quotas e.2 = Ok (Some name)) then usage_of t e.1 else 0.
Definition total (quotas : QuotaMap) (t : T) (name : mstring) : Z := sum (map (share quotas t name) kinds).

Definition accounted (w : W) : Prop :=
  forall name q, (name, q) ∈ m_quotas w -> Quota.m_usage q = to_int 64 (total (m_quotas w) (m_usageDb w) name).

(** ** The quota of a kind depends on the names of the quotas only *)
Lemma find_keys {V V'} (p : mstring -> bool) (a : list (mstring * V)) (b : list (mstring * V')) : a.*1 = b.*1 ->
  option_map fst (List.find (fun e => p e.1) a) = option_map fst (List.find (fun e => p e.1) b).
Proof.
  revert b. induction a as [|x a IH]; intros [|y b] H; try done. simpl in *. injection H as Hx H. rewrite Hx.
  destruct (p y.1); [simpl; by rewrite Hx|by apply IH].
Qed.

Lemma lookup_keys {V V'} (a : list (mstring * V)) (b : list (mstring * V')) val : a.*1 = b.*1 ->
  option_map fst (MojDbPutHandler.lookup a val) = option_map fst (MojDbPutHandler.lookup b val).
Proof.
  intros H. unfold MojDbPutHandler.lookup.
  pose proof (find_keys (fun k => MojDbPutHandler.LengthComp k val =? 0) a b H) as E.
  pose proof (find_keys (fun k => MojDbPutHandler.matchWildcard k val) a b H) as M.
  destruct (List.find _ a), (List.find (fun e => MojDbPutHandler.LengthComp e.1 val =? 0) b); try done.
Qed.

Lemma from_supers_ext f f' supers found : (forall k found, f k found = f' k found) -> from_supers g f supers found = from_supers g f' supers found.
Proof.
  intros E. revert found. induction supers as [|k supers IH]; intros found; [done|]. simpl.
  destruct (bool_decide _); [apply IH|]. rewrite E. apply res_bind_ext. intros [x|]; [done|apply IH].
Qed.

Lemma quotaForKind_keys fuel a b k found : a.*1 = b.*1 -> quotaForKind g owner fuel a k found = quotaForKind g owner fuel b k found.
Proof.
  intros H. revert k found. induction fuel as [|fuel IH]; intros k found; [done|]. simpl.
  rewrite (from_supers_ext _ _ _ _ IH). apply res_bind_ext. intros [x returned]. destruct returned; [done|].
  pose proof (lookup_keys a b (owner k) H) as L. destruct (MojDbPutHandler.lookup a _), (MojDbPutHandler.lookup b _); try done.
  simpl in L. by injection L as ->.
Qed.

Lemma governing_keys a b k found : a.*1 = b.*1 -> quota_of g owner a k found = quota_of g owner b k found.
Proof. apply quotaForKind_keys. Qed.

(** Looking again does not change what was found. *)
Lemma from_supers_again f supers : (forall k x, f k None = Ok None -> f k (Some x) = Ok (Some x)) ->
  (forall k x, f k None = Ok (Some x) -> f k (Some x) = Ok (Some x)) ->
  (forall x, from_supers g f supers None = Ok (None, false) -> exists b, from_supers g f supers (Some x) = Ok (Some x, b)) /\
  (forall x, from_supers g f supers None = Ok (Some x, true) -> from_supers g f supers (Some x) = Ok (Some x, true)).
Proof.
  intros A B. induction supers as [|k supers [IH1 IH2]]; [split; [intros x _; by eexists|done]|]. simpl.
  destruct (bool_decide _); [done|]. split; intros x; destruct (f k None) as [[y|]|e] eqn:E; simpl; try done.
  - intros H. rewrite (A k x E). by eexists.
  - intros [= ->]. by rewrite (B k x E).
  - intros H. by rewrite (A k x E).
Qed.

Lemma from_supers_flag f supers x b : from_supers g f supers None = Ok (x, b) -> b = match x with Some _ => true | None => false end.
Proof.
  induction supers as [|k supers IH]; simpl; [by intros [= <- <-]|]. destruct (bool_decide _); [done|].
  destruct (f k None) as [[y|]|]; simpl; [by intros [= <- <-]|done|done].
Qed.

Lemma quotaForKind_again fuel quotas k :
  (forall x, quotaForKind g owner fuel quotas k None = Ok None -> quotaForKind g owner fuel quotas k (Some x) = Ok (Some x)) /\
  (forall x, quotaForKind g owner fuel quotas k None = Ok (Some x) -> quotaForKind g owner fuel quotas k (Some x) = Ok (Some x)).
Proof.
  revert k. induction fuel as [|fuel IH]; intros k; [done|]. simpl.
  destruct (from_supers_again (quotaForKind g owner fuel quotas) (MojDbKind.m_supers (MojDbKind.links g k))
    (fun k x => proj1 (IH k) x) (fun k x => proj2 (IH k) x)) as [S1 S2].
  destruct (from_supers g _ _ None) as [[y b]|] eqn:E; [|done]. pose proof (from_supers_flag _ _ _ _ E) as ->.
  simpl. destruct y as [y|].
  - split; [done|]. intros x [= ->]. by rewrite (S2 x eq_refl).
  - destruct (MojDbPutHandler.lookup quotas (owner k)) as [e|] eqn:L.
    + split; [done|]. intros x [= <-]. destruct (S1 e.1 eq_refl) as [b ->]. simpl. by destruct b.
    + split; [|done]. intros x _. destruct (S1 x eq_refl) as [b ->]. simpl. by destruct b.
Qed.

Lemma total_keys a b t name : a.*1 = b.*1 -> total a t name = total b t name.
Proof.
  intros H. unfold total. f_equal. apply map_ext. intros e. unfold share. by rewrite (governing_keys a b e.2 None H).
Qed.

Lemma offset_keys quotas name n : (offset_quota quotas name n).*1 = quotas.*1.
Proof. unfold offset_quota. rewrite map_map. apply map_ext. intros e. by case_bool_decide. Qed.

(** ** What the offsets of a transaction add up to *)
Definition shift (name : mstring) (i : mstring * Offset.Offset) : Z :=
  if decide (Offset.m_quota i.2 = Some name) then Offset.m_offset i.2 else 0.

(** The offsets are those of kinds, with the quotas the kinds have. *)
Definition offsets_ok (quotas : QuotaMap) (offsets : OffsetMap) : Prop :=
  forall i, i ∈ offsets -> exists k, (i.1, k) ∈ kinds /\ quota_of g owner quotas k None = Ok (Offset.m_quota i.2).

Lemma uncounted_ok write (w w' : W) (P : T -> Prop) :
  (forall txn p, MojDbStorageTxn.m_quotaEnabled txn = false -> write (txn, m_usageDb w) = Ok p -> p.1 = txn /\ P p.2) ->
  uncounted write w = (w', Ok tt) -> exists t, P t /\ w' = with_usage w (MojDbStorageTxn.quotaEnabled (m_txn w) true, t).
Proof.
  intros H E. unfold uncounted, bind, get, modify, lift in E. simpl in E.
  destruct (write _) as [[txn t]|] eqn:Q; [|done]. apply H in Q as [Q P']; [|done]. simpl in *. simplify_eq. by exists t.
Qed.

Lemma applyOffset_ok id k off (w w' : W) : (id, k) ∈ kinds -> applyOffset id off w = (w', Ok tt) ->
  exists t, w' = with_usage w (MojDbStorageTxn.quotaEnabled (m_txn w) true, t) /\
    forall quotas name, E64 (total quotas t name)
      (total quotas (m_usageDb w) name + (if decide (quota_of g owner quotas k None = Ok (Some name)) then off else 0)).
Proof.
  intros K E.
  assert (exists t v, w' = with_usage w (MojDbStorageTxn.quotaEnabled (m_txn w) true, t) /\
    (forall id', usage_get t id' = if decide (id = id') then Ok (Some v) else usage_get (m_usageDb w) id') /\
    E64 v (usage_of (m_usageDb w) id + off)) as (t & v & -> & G & V).
  { unfold applyOffset, bind, get, lift in E. destruct (usage_get (m_usageDb w) id) as [[usage|]|] eqn:U; [..|done].
    - apply uncounted_ok with (P := fun t => forall id', usage_get t id' = if decide (id = id') then Ok (Some (to_int 64 (off + usage))) else usage_get (m_usageDb w) id') in E as (t & P & ->).
      + exists t, (to_int 64 (off + usage)). split; [done|]. split; [done|]. rewrite E64_to_int. unfold usage_of. rewrite U. by rewrite Z.add_comm.
      + intros txn p Q. by apply update_spec.
    - apply uncounted_ok with (P := fun t => forall id', usage_get t id' = if decide (id = id') then Ok (Some off) else usage_get (m_usageDb w) id') in E as (t & P & ->).
      + exists t, off. split; [done|]. split; [done|]. unfold usage_of. by rewrite U.
      + intros txn p Q. by apply insert_spec. }
  exists t. split; [done|]. intros quotas name. unfold total. apply (sum_change _ _ _ id k); [done|done|..].
  - intros e _ N. unfold share, usage_of. rewrite G. destruct (decide (id = e.1)); [congruence|done].
  - unfold share. simpl. destruct (decide (quota_of g owner quotas k None = Ok (Some name))); [|done].
    unfold usage_of at 1. rewrite G, decide_True by done. exact V.
Qed.

Lemma apply_offsets_ok offsets (w w' : W) quotas : offsets_ok quotas offsets -> apply_offsets offsets w = (w', Ok tt) ->
  exists txn t, w' = with_usage w (txn, t) /\ (txn = m_txn w \/ txn = MojDbStorageTxn.quotaEnabled (m_txn w) true) /\
    forall name, E64 (total quotas t name) (total quotas (m_usageDb w) name + sum (map (shift name) offsets)).
Proof.
  revert w. induction offsets as [|i offsets IH]; intros w O E; simpl in E.
  - unfold ret in E. simplify_eq. exists (m_txn w'), (m_usageDb w'). split; [by destruct w'|]. split; [by left|].
    intros name. simpl. by rewrite Z.add_0_r.
  - destruct (O i) as (k & K & Q); [left|]. destruct (applyOffset i.1 (Offset.m_offset i.2) w) as [w1 [[]|]] eqn:A;
      [rewrite (bind_ok _ _ _ _ _ A) in E|by rewrite (bind_err _ _ _ _ _ A) in E].
    apply (applyOffset_ok _ k) in A as (t1 & -> & S); [|done]. apply IH in E as (txn & t & -> & X & S').
    + exists txn, t. split; [done|]. split; [simpl in X; right; by destruct X|]. intros name. simpl in S'. rewrite S'. rewrite (S quotas name). simpl.
      replace (if decide (quota_of g owner quotas k None = Ok (Some name)) then Offset.m_offset i.2 else 0) with (shift name i)
        by (unfold shift; repeat case_decide; congruence).
      by rewrite <- Z.add_assoc.
    + intros j Hj. apply O. by right.
Qed.

(** ** What the offsets do to the quotas *)
Definition quota_fold (offsets : OffsetMap) (quotas : QuotaMap) : QuotaMap :=
  fold_left (fun quotas i => match Offset.m_quota i.2 with
                             | Some name => offset_quota quotas name (Offset.m_offset i.2)
                             | None => quotas
                             end) offsets quotas.

Lemma offset_quota_in quotas name n name' q' : (name', q') ∈ offset_quota quotas name n ->
  exists q, (name', q) ∈ quotas /\ q' = if decide (name' = name) then Quota.offset q n else q.
Proof.
  unfold offset_quota. intros ([name0 q] & E & H)%list_elem_of_fmap. simpl in E. exists q.
  case_bool_decide; simplify_eq; [by rewrite decide_True|by rewrite decide_False].
Qed.

Lemma quota_fold_ok offsets quotas : (quota_fold offsets quotas).*1 = quotas.*1 /\
  forall name q', (name, q') ∈ quota_fold offsets quotas -> exists q, (name, q) ∈ quotas /\
    (in_int 64 (Quota.m_usage q) -> in_int 64 (Quota.m_usage q')) /\
    E64 (Quota.m_usage q') (Quota.m_usage q + sum (map (shift name) offsets)).
Proof.
  revert quotas. induction offsets as [|i offsets IH]; intros quotas; simpl.
  - split; [done|]. intros name q H. exists q. split; [done|]. split; [done|]. by rewrite Z.add_0_r.
  - destruct (Offset.m_quota i.2) as [m|] eqn:M.
    + destruct (IH (offset_quota quotas m (Offset.m_offset i.2))) as [K S]. split; [by rewrite K, offset_keys|].
      intros name q' H. apply S in H as (q1 & H & R & X). apply offset_quota_in in H as (q & H & ->). exists q. split; [done|].
      unfold shift at 1. rewrite M. destruct (decide (name = m)) as [->|N].
      * rewrite decide_True by done. split; [intros _; apply R; simpl; by apply to_int_range|].
        rewrite X. simpl. by rewrite E64_to_int, Z.add_assoc.
      * rewrite decide_False by naive_solver. split; [done|]. by rewrite X.
    + destruct (IH quotas) as [K S]. split; [done|]. intros name q' H. apply S in H as (q & H & R & X). exists q. split; [done|].
      split; [done|]. unfold shift at 1. rewrite M. by rewrite decide_False.
Qed.

(** ** Refreshing makes the account right *)
Lemma refresh_loop (t : T) es quotas quotas' :
  res_fold (fun quotas (e : mstring * Z) =>
      let? quota := quota_of g owner quotas e.2 None in
      match quota with
      | Some name => let? usage := kindUsage t e.1 in Ok (offset_quota quotas name usage)
      | None => Ok quotas
      end) quotas es = Ok quotas' ->
  quotas'.*1 = quotas.*1 /\
  forall name q', (name, q') ∈ quotas' -> exists q, (name, q) ∈ quotas /\
    (in_int 64 (Quota.m_usage q) -> in_int 64 (Quota.m_usage q')) /\
    E64 (Quota.m_usage q') (Quota.m_usage q + sum (map (share quotas t name) es)).
Proof.
  revert quotas. induction es as [|e es IH]; intros quotas E; simpl in E.
  - simplify_eq. split; [done|]. intros name q H. exists q. split; [done|]. split; [done|]. simpl. by rewrite Z.add_0_r.
  - destruct (quota_of g owner quotas e.2 None) as [[m|]|] eqn:M; simpl in E; [..|done].
    + unfold kindUsage in E. destruct (usage_get t e.1) as [item|] eqn:U; [|done]. simpl in E.
      assert (usage_of t e.1 = default 0 item) as V by (unfold usage_of; rewrite U; by destruct item).
      apply IH in E as [K S]. rewrite offset_keys in K. split; [done|]. intros name q' H. apply S in H as (q1 & H & R & X).
      apply offset_quota_in in H as (q & H & ->). exists q. split; [done|]. simpl. unfold share at 1. rewrite M.
      rewrite (map_ext (share (offset_quota quotas m (default 0 item)) t name) (share quotas t name)) in X.
      2: { intros e'. unfold share. by rewrite (governing_keys _ quotas e'.2 None (offset_keys _ _ _)). }
      destruct (decide (name = m)) as [->|N].
      * rewrite decide_True by done. split; [intros _; apply R; simpl; by apply to_int_range|].
        rewrite X. simpl. by rewrite E64_to_int, V, Z.add_assoc.
      * rewrite decide_False by naive_solver. split; [done|]. by rewrite X.
    + apply IH in E as [K S]. split; [done|]. intros name q' H. apply S in H as (q & H & R & X). exists q. split; [done|].
      split; [done|]. simpl. unfold share at 1. rewrite M. by rewrite decide_False.
Qed.

Lemma refresh_accounted (w w' : W) : refreshImpl g kinds owner w = (w', Ok tt) ->
  accounted w' /\ w' = with_quotas w (m_quotas w') /\ (m_quotas w').*1 = (m_quotas w).*1.
Proof.
  unfold refreshImpl, bind, get, modify, lift. simpl. destruct (res_fold _ _ kinds) as [quotas|] eqn:E; [|done]. intros [= <-].
  apply refresh_loop in E as [K S]. rewrite map_map in K. simpl in K. split; [|split; [by destruct w|exact K]].
  intros name q' H. simpl in H |- *. apply S in H as (q & H & R & X).
  apply list_elem_of_fmap in H as ([name0 q0] & [= -> ->] & H). simpl in *.
  rewrite <- (to_int_small 64 (Quota.m_usage q')) by (done || by apply R). rewrite X. simpl.
  unfold total. rewrite Z.add_0_l. f_equal. f_equal. apply map_ext. intros e. unfold share.
  by rewrite (governing_keys quotas (map (fun e => (e.1, Quota.set_usage e.2 0)) (m_quotas w)) e.2 None) by (by rewrite K, map_map).
Qed.

(** ** The engine and its transactions *)
Definition fresh (w : W) : Prop := MojDbStorageTxn.m_offsetMap (m_txn w) = [].

(** No slot waits for the commit. *)
Definition no_slots (w : W) : Prop :=
  MojDbStorageTxn.m_preCommit (m_txn w) = [] /\ MojDbStorageTxn.m_postCommit (m_txn w) = [].

Section history.
Context (preCommit committed : Z -> st W unit) (commitImpl : st W unit).
Context (Hcommitted : forall m w, (committed m w).1 = w) (Hcommit : forall w, (commitImpl w).1 = w).

Abbreviation commit := (MojDbQuotaEngine.commit g kinds owner preCommit committed commitImpl).

(** Between two states: a kind becomes the current one, something is written for it, the
    transaction is committed or given up and the next begins, the quotas are read again
    or one is set, outside of transactions. *)
Inductive step : W -> W -> Prop :=
| step_curKind w w' id k : (id, k) ∈ kinds -> id = MojDbKind.m_id (MojDbKind.links g k) -> curKind g owner k w = (w', Ok tt) -> step w w'
| step_offset w n txn : MojDbStorageTxn.offsetQuota (m_quotas w) (m_txn w) n = Ok txn -> step w (with_txn w txn)
| step_commit w w' : commit w = (w', Ok tt) -> step w (with_txn w' MojDbStorageTxn.init)
| step_abort w : step w (with_txn w MojDbStorageTxn.init)
| step_refresh w w' : fresh w -> refreshImpl g kinds owner w = (w', Ok tt) -> step w w'
| step_quota w w' name size : fresh w -> m_isOpen w = true -> commitQuota g kinds owner name size w = (w', Ok tt) -> step w w'.

Definition good (w : W) : Prop :=
  accounted w /\ no_slots w /\ offsets_ok (m_quotas w) (MojDbStorageTxn.m_offsetMap (m_txn w)) /\
  forall id, MojDbStorageTxn.m_curQuotaOffset (m_txn w) = Some id -> id ∈ kinds.*1.

Lemma offsets_keys a b offsets : a.*1 = b.*1 -> offsets_ok a offsets -> offsets_ok b offsets.
Proof. intros H O i Hi. destruct (O i Hi) as (k & K & Q). exists k. split; [done|]. by rewrite <- (governing_keys a b k None H). Qed.

Lemma offsets_put quotas offsets id k o : offsets_ok quotas offsets -> (id, k) ∈ kinds -> quota_of g owner quotas k None = Ok (Offset.m_quota o) ->
  offsets_ok quotas (MojMap.put MojStrCmp offsets id o).
Proof. intros O K Q i [->|Hi]%(MojRbTreeBase.elem_of_put_inv fst MojStrCmp); [by exists k|by apply O]. Qed.

Lemma kind_unique id k k' : (id, k) ∈ kinds -> (id, k') ∈ kinds -> k = k'.
Proof.
  clear -Nkinds. induction kinds as [|e es IH]; intros H H'; [by apply elem_of_nil in H|].
  simpl in Nkinds. apply NoDup_cons in Nkinds as [N0 N].
  apply elem_of_cons in H as [<-|H]; apply elem_of_cons in H' as [E|H']; [congruence|..|by apply IH].
  - destruct N0. apply list_elem_of_fmap. by exists (id, k').
  - destruct N0. apply list_elem_of_fmap. exists (id, k). by rewrite <- E.
Qed.

Lemma kind_str id : id ∈ kinds.*1 -> str_ok id.
Proof. intros (e & -> & H)%list_elem_of_fmap. rewrite Forall_forall in Okinds. by apply Okinds. Qed.

Lemma offsets_get quotas (offsets : OffsetMap) id o : offsets_ok quotas offsets -> id ∈ kinds.*1 ->
  MojMap.get MojStrCmp offsets id = Some o -> exists k, (id, k) ∈ kinds /\ quota_of g owner quotas k None = Ok (Offset.m_quota o).
Proof.
  intros O I. unfold MojMap.get. destruct (MojRbTreeBase.find _ _ _ _) as [[id' o']|] eqn:F; [|done]. intros [= ->].
  apply MojRbTreeBase.find_Some in F as [F Z]. destruct (O _ F) as (k & K & Q). simpl in *.
  assert (id' = id) as -> by (apply MojStrCmp_eq; [apply kind_str, list_elem_of_fmap; by exists (id', k)|by apply kind_str|done]). by exists k.
Qed.

(** *** Each step *)
Lemma fire_none (sel : W -> list Z) with_sel (f : Z -> st W unit) w : sel w = [] -> with_sel w [] = w -> MojSignal.fire sel with_sel f w = (w, Ok tt).
Proof. intros E F. unfold MojSignal.fire, bind, get, modify, ret. rewrite E, F. done. Qed.

Lemma notify_same l w w' r : MojDbStorageTxn.notify committed l w = (w', r) -> w' = w.
Proof.
  revert w. induction l as [|m l IH]; intros w; simpl; [by intros [= <- _]|].
  pose proof (Hcommitted m w) as C. unfold bind. destruct (committed m w) as [w1 [[]|]]; simpl in C; subst w1; [apply IH|by intros [= <- _]].
Qed.

Lemma accounted_with (w : W) b q t txn h : accounted w -> q = m_quotas w -> t = m_usageDb w ->
  accounted {| m_isOpen := b; m_quotas := q; m_txn := txn; m_usageDb := t; m_handlers := h |}.
Proof. intros A -> ->. exact A. Qed.

(** The usage and the quotas change by the same offsets. *)
Lemma apply_accounted (w w1 : W) : accounted w -> offsets_ok (m_quotas w) (MojDbStorageTxn.m_offsetMap (m_txn w)) ->
  applyUsage w = (w1, Ok tt) ->
  no_slots w -> no_slots w1 /\ (applyQuota w1).2 = Ok tt /\ accounted (applyQuota w1).1 /\ MojDbStorageTxn.m_offsetMap (m_txn w1) = MojDbStorageTxn.m_offsetMap (m_txn w).
Proof.
  intros A O E N. unfold applyUsage, bind, get in E. apply (apply_offsets_ok _ _ _ (m_quotas w) O) in E as (txn & t & -> & X & S).
  assert (MojDbStorageTxn.m_offsetMap txn = MojDbStorageTxn.m_offsetMap (m_txn w) /\
    MojDbStorageTxn.m_preCommit txn = MojDbStorageTxn.m_preCommit (m_txn w) /\ MojDbStorageTxn.m_postCommit txn = MojDbStorageTxn.m_postCommit (m_txn w))
    as (Eo & E1 & E2) by (by destruct X as [-> | ->]).
  split; [unfold no_slots; simpl; by rewrite E1, E2|]. split; [done|]. split; [|done].
  unfold applyQuota, modify. simpl. rewrite Eo. destruct (quota_fold_ok (MojDbStorageTxn.m_offsetMap (m_txn w)) (m_quotas w)) as [K Q].
  intros name q' H. apply Q in H as (q & H & R & X'). specialize (A name q H).
  rewrite <- (to_int_small 64 (Quota.m_usage q')) by (done || (apply R; rewrite A; by apply to_int_range)).
  change (E64 (Quota.m_usage q') (total (quota_fold (MojDbStorageTxn.m_offsetMap (m_txn w)) (m_quotas w)) t name)).
  rewrite X', (total_keys _ (m_quotas w) t name K), S, A, E64_to_int. done.
Qed.

Lemma bind_done {A B} (m : st W A) (f : A -> st W B) w w' b : bind m f w = (w', Ok b) -> exists w1 a, m w = (w1, Ok a) /\ f a w1 = (w', Ok b).
Proof. unfold bind. destruct (m w) as [w1 [a|]]; [|done]. intros E. by exists w1, a. Qed.

(** What a commit does once the storage engine has committed: the quotas, the refresh
    and the monitors. *)
Lemma after_commit (w w' : W) : accounted (applyQuota w).1 ->
  (let! _ := applyQuota in let! w := get in if MojDbStorageTxn.m_refreshQuotas (m_txn w) then refreshImpl g kinds owner else ret tt) w = (w', Ok tt) ->
  accounted w' /\ (m_quotas w').*1 = (m_quotas w).*1.
Proof.
  intros A (w1 & [] & E1 & E)%bind_done. rewrite (bind_ok _ _ w1 w1 w1) in E by done.
  assert (w1 = (applyQuota w).1) as -> by (by rewrite E1).
  assert ((m_quotas (applyQuota w).1).*1 = (m_quotas w).*1) as K by apply (quota_fold_ok (MojDbStorageTxn.m_offsetMap (m_txn w)) (m_quotas w)).
  destruct (MojDbStorageTxn.m_refreshQuotas _).
  - apply refresh_accounted in E as (A' & _ & K'). split; [done|]. by rewrite K'.
  - unfold ret in E. by simplify_eq.
Qed.

Lemma commit_accounted w w' : good w -> commit w = (w', Ok tt) -> accounted w' /\ (m_quotas w').*1 = (m_quotas w).*1.
Proof.
  intros (A & [P1 P2] & O & _) E. unfold MojDbQuotaEngine.commit, MojDbStorageTxn.commit in E.
  rewrite (bind_ok _ _ w w tt) in E by (apply fire_none; [done|]; destruct w as [? ? txn ? ?]; destruct txn; simpl in *; by subst).
  rewrite (bind_ok _ _ w w w) in E by done.
  apply bind_done in E as (w1 & [] & E1 & E). apply bind_done in E as (w2 & [] & E2 & E).
  assert (w2 = w1) as -> by (pose proof (Hcommit w1) as C; by rewrite E2 in C). clear E2.
  assert (no_slots w1 /\ accounted w1 /\ m_quotas w1 = m_quotas w /\ MojDbStorageTxn.m_quotaEngine (m_txn w1) = false \/
    no_slots w1 /\ accounted (applyQuota w1).1 /\ m_quotas w1 = m_quotas w /\ MojDbStorageTxn.m_quotaEngine (m_txn w1) = true) as C.
  { destruct (MojDbStorageTxn.m_quotaEngine (m_txn w)) eqn:Q.
    - right. pose proof E1 as E2. apply apply_accounted in E1 as (N & _ & A' & _); [|done|done|done]. split; [done|]. split; [done|].
      unfold applyUsage, bind, get in E2. apply (apply_offsets_ok _ _ _ (m_quotas w) O) in E2 as (txn & t & -> & X & _).
      split; [done|]. simpl. by destruct X as [-> | ->].
    - left. unfold ret in E1. by simplify_eq. }
  assert (MojDbStorageTxn.firePost m_txn with_txn (handleCommit g kinds owner) w1 = (w1, Ok tt)) as F.
  { assert (no_slots w1) as [N1 N2] by tauto. apply fire_none; [done|]. destruct w1 as [? ? txn ? ?]; destruct txn; simpl in *; by subst. }
  rewrite (bind_ok _ _ w1 w1 tt F) in E. rewrite (bind_ok _ _ w1 w1 w1) in E by done.
  apply bind_done in E as (w3 & [] & E3 & E). rewrite (bind_ok _ _ w3 w3 w3) in E by done. apply notify_same in E as ->.
  destruct C as [(_ & A1 & K1 & Q1)|(_ & A1 & K1 & Q1)]; rewrite Q1 in E3.
  - unfold ret in E3. injection E3 as <-. split; [done|by rewrite K1].
  - rewrite <- K1. by apply after_commit in E3.
Qed.

Lemma curKind_good w w' id k : good w -> (id, k) ∈ kinds -> id = MojDbKind.m_id (MojDbKind.links g k) ->
  curKind g owner k w = (w', Ok tt) -> good w'.
Proof.
  intros (A & [P1 P2] & O & C) K I E. unfold curKind in E. rewrite <- I in E.
  rewrite (bind_ok _ _ w w w) in E by done.
  set (offset := default Offset.init (MojMap.get MojStrCmp (MojDbStorageTxn.m_offsetMap (m_txn w)) id)) in *.
  unfold bind, modify, lift in E. simpl in E.
  destruct (quota_of g owner (m_quotas w) k (Offset.m_quota offset)) as [quota|] eqn:Q; [|done]. injection E as <-.
  assert (id ∈ kinds.*1) as Hid by (apply list_elem_of_fmap; by exists (id, k)).
  split; [exact A|]. split; [done|]. simpl. split; [|by intros ? [= <-]].
  eapply offsets_put; [exact O|exact K|]. simpl.
  destruct (MojMap.get MojStrCmp (MojDbStorageTxn.m_offsetMap (m_txn w)) id) as [o|] eqn:G; [|exact Q].
  destruct (offsets_get _ _ _ _ O Hid G) as (k' & K' & Q'). assert (k' = k) as -> by (by eapply kind_unique).
  subst offset. simpl in Q. rewrite Q'. destruct (Offset.m_quota o) as [x|] eqn:M.
  - pose proof (proj2 (quotaForKind_again (MojDbKind.depth g) (m_quotas w) k) x Q') as R. unfold quota_of in Q. congruence.
  - congruence.
Qed.

Lemma offset_good w n txn : good w -> MojDbStorageTxn.offsetQuota (m_quotas w) (m_txn w) n = Ok txn -> good (with_txn w txn).
Proof.
  intros G E. pose proof G as (A & N & O & C). assert (with_txn w (m_txn w) = w) as Ew by (by destruct w).
  unfold MojDbStorageTxn.offsetQuota in E. destruct (MojDbStorageTxn.m_curQuotaOffset (m_txn w)) as [id|] eqn:Cu; [|by simplify_eq; rewrite Ew].
  destruct (MojDbStorageTxn.m_quotaEnabled (m_txn w)); [|by simplify_eq; rewrite Ew].
  destruct (MojMap.get MojStrCmp (MojDbStorageTxn.m_offsetMap (m_txn w)) id) as [o|] eqn:Go; [|done]. res_inv.
  destruct (offsets_get _ _ _ _ O (C id eq_refl) Go) as (k & K & Q).
  split; [exact A|]. split; [exact N|]. split; [|intros ? H; apply C; simpl in H; congruence].
  eapply offsets_put; [exact O|exact K|]. unfold Offset.apply in *. res_inv; done.
Qed.

Lemma quota_accounted w w' name size : m_isOpen w = true -> commitQuota g kinds owner name size w = (w', Ok tt) ->
  accounted w' /\ m_txn w' = m_txn w.
Proof.
  intros I E. unfold commitQuota in E. apply bind_done in E as (w1 & [] & E1 & E). unfold modify in E1. injection E1 as <-.
  unfold bind, get in E. simpl in E. rewrite I in E. apply refresh_accounted in E as (A & Ew & _). split; [exact A|]. by rewrite Ew.
Qed.

Lemma begin_good (w : W) : accounted w -> good (with_txn w MojDbStorageTxn.init).
Proof. intros A. split; [exact A|]. split; [done|]. split; [intros i Hi; by apply elem_of_nil in Hi|done]. Qed.

Lemma step_good w w' : good w -> step w w' -> good w'.
Proof.
  intros G S. destruct S as [w w' id k K I E|w n txn E|w w' E|w|w w' F E|w w' name size F I E].
  - by eapply curKind_good.
  - by eapply offset_good.
  - apply begin_good. by apply (commit_accounted w).
  - apply begin_good, G.
  - pose proof G as (_ & N & _ & C). apply refresh_accounted in E as (A & Ew & _). assert (m_txn w' = m_txn w) as T' by (by rewrite Ew).
    unfold good, no_slots, fresh in *. rewrite T'. split; [exact A|]. split; [exact N|]. split; [|exact C]. rewrite F. intros i Hi. by apply elem_of_nil in Hi.
  - pose proof G as (_ & N & _ & C). apply quota_accounted in E as [A T']; [|done]. unfold good, no_slots, fresh in *. rewrite T'.
    split; [exact A|]. split; [exact N|]. split; [|exact C]. rewrite F. intros i Hi. by apply elem_of_nil in Hi.
Qed.

(** C30: From a state in which the engine has just read the usages, whatever kinds transactions write to, however much, committed or given up, and whatever quotas are set between them, the usage of every quota stays the sum of the usages recorded for the kinds that count against it. *)
Theorem quota_accounted_always w0 w1 w : refreshImpl g kinds owner w0 = (w1, Ok tt) -> m_txn w0 = MojDbStorageTxn.init ->
  rtc step w1 w -> accounted w.
Proof.
  intros R T0 S. assert (good w1) as G.
  { apply refresh_accounted in R as (A & Ew & _). pose proof (begin_good _ A) as B.
    assert (with_txn w1 MojDbStorageTxn.init = w1) as Eq by (rewrite <- T0; rewrite Ew; done). by rewrite Eq in B. }
  clear R. induction S as [w|w w' w'' H _ IH]; [apply G|]. apply IH. by eapply step_good.
Qed.
End history.
End accounts.

(** ** An example: a database in memory, photos and the quotas themselves *)
Module QuotaExample.
Definition Memory := list (mstring * Z).

Definition memory_write (id : mstring) (n : Z) (p : MojDbStorageTxn.MojDbStorageTxn * Memory) : res (MojDbStorageTxn.MojDbStorageTxn * Memory) :=
  Ok (p.1, (id, n) :: p.2).

#[local] Instance memory : UsageDb Memory := {|
  usage_get t id := Ok (MojHashMap.get (fun a b => bool_decide (a = b)) t id);
  usage_insert := memory_write;
  usage_update := memory_write
|}.

#[local] Instance memory_laws : UsageDbLaws Memory.
Proof.
  assert (forall txn t id n p, memory_write id n (txn, t) = Ok p -> p.1 = txn /\
    forall id', usage_get p.2 id' = if decide (id = id') then Ok (Some n) else usage_get t id') as H.
  { intros txn t id n p [= <-]. split; [done|]. intros id'. simpl. unfold MojHashMap.get. simpl.
    case_bool_decide; [by rewrite decide_True|by rewrite decide_False]. }
  split; intros txn t id n p _; apply H.
Qed.

Definition kind_links (id : string) : MojDbKind.Links :=
  {| MojDbKind.m_id := _T id; MojDbKind.m_superIds := []; MojDbKind.m_supers := []; MojDbKind.m_subs := [] |}.
Definition graph : MojDbKind.Graph := <[2 := kind_links "Photo:1"]> (<[3 := kind_links "Quota:1"]> ∅).
Definition kinds : MojDbKind.KindMap := [(_T "Photo:1", 2); (_T "Quota:1", 3)].
Definition owner (k : Z) : mstring := if k =? 2 then _T "com.palm.photos" else _T "com.palm.admin".

(** One quota for both. *)
Definition w0 : @World Memory :=
  {| m_isOpen := true; m_quotas := [(_T "com.palm.*", {| Quota.m_size := 1000; Quota.m_usage := 7 |})];
     m_txn := MojDbStorageTxn.init; m_usageDb := [(_T "Photo:1", 100)]; m_handlers := [] |}.

Definition nothing (_ : Z) : st (@World Memory) unit := ret tt.
Definition commit := MojDbQuotaEngine.commit graph kinds owner nothing nothing (ret tt).

Definition write (k n : Z) : st (@World Memory) unit :=
  let! _ := curKind graph owner k in
  let! w := get in
  let! txn := lift (MojDbStorageTxn.offsetQuota (m_quotas w) (m_txn w) n) in
  modify (fun w => with_txn w txn).

Definition w1 : @World Memory := (refreshImpl graph kinds owner w0).1.
Definition w2 : @World Memory := (curKind graph owner 2 w1).1.
Definition w3 : @World Memory := (write 2 50 w1).1.
Definition w4 : @World Memory := with_txn (commit w3).1 MojDbStorageTxn.init.

Lemma quota_accounted_always_witness : accounted graph kinds owner w4 /\ m_quotas w4 = [(_T "com.palm.*", {| Quota.m_size := 1000; Quota.m_usage := 150 |})].
Proof.
  split; [|by vm_compute].
  refine (quota_accounted_always graph kinds owner _ _ nothing nothing (ret tt) _ _ w0 w1 w4 _ _ _).
  - by apply (bool_decide_unpack _).
  - repeat constructor; lia.
  - done.
  - done.
  - by vm_compute.
  - done.
  - apply rtc_l with (y := w2); [apply step_curKind with (id := _T "Photo:1") (k := 2); [left|by vm_compute|by vm_compute]|].
    apply rtc_l with (y := w3); [|apply rtc_once, step_commit; by vm_compute].
    replace w3 with (with_txn w2 (m_txn w3)) by (by vm_compute). apply step_offset with (n := 50). by vm_compute.
Defined.

(** A quota that is put with its object: the handler reads the usages when they are
    committed already, and the offsets are added to them again. *)
Definition quota_obj : MojObject := MojObject.putInt (MojObject.put (ObjectImpl []) OwnerKey (StringImpl (_T "com.palm.*"))) SizeKey 2000.
Definition w5 : @World Memory := (commit (MojDbQuotaEngine.put graph kinds owner (fun _ => write 3 30) true quota_obj true 1 w1).1).1.

Lemma put_counted_twice : quotaUsage (m_quotas w5) (_T "com.palm.*") = Ok (2000, 160) /\ total graph kinds owner (m_quotas w5) (m_usageDb w5) (_T "com.palm.*") = 130.
Proof. split; by vm_compute. Qed.
End QuotaExample.
