(* ===== verification/Kind.v ===== *)
(** * Kinds: src/src/db/MojDbKind.cpp

    A kind has a schema, revision sets and indexes, and passes what is done to its objects
    on to the kinds it extends.  The links between kinds are in [KindGraph].  An operation
    that fails has no state to go on with: the request that it is part of is aborted. *)

From stdpp Require Import gmap.
From S2P Require Import Prelude Containers CoreUtil Number Object ObjectBuilder DataSerialization TokenSet ObjectSerialization Text DbKey Json JsonRoundTrip DbQuery QueryPlan ObjectItem Effects StorageTxn Watcher Extractor Index KindGraph Schema Permission Quota Req.

Import MojDbReq (MojDbReq, m_admin, m_domain, m_fixmode).

(** [MojDbOp]. *)
Inductive MojDbOp := OpNone | OpUndefined | OpCreate | OpRead | OpUpdate | OpDelete | OpExtend | OpKindUpdate.

#[export] Instance MojDbOp_eq_dec : EqDecision MojDbOp.
Proof. solve_decision. Defined.

Module MojDbKind.
Definition OwnerKey := _T "owner".
Definition SyncKey := _T "_sync".
Definition RevisionSetsKey := _T "revSets".
Definition IndexesKey := _T "indexes".
Definition PermissionType := _T "db.kind".
Definition VersionSeparator : Z := chr ":".
Definition KindIdLenMax : nat := 256.

Definition stringFromOperation (op : MojDbOp) : mstring :=
  match op with
  | OpNone => _T "none"
  | OpCreate => _T "create"
  | OpRead => _T "read"
  | OpUpdate => _T "update"
  | OpDelete => _T "delete"
  | OpExtend => _T "extend"
  | _ => _T "unknown"
  end.

(** The last separator of an id. *)
Fixpoint rfind (s : mstring) (c : Z) : option nat :=
  match s with
  | [] => None
  | x :: s' => match rfind s' c with Some i => Some (S i) | None => if x =? c then Some 0%nat else None end
  end.

(** [init]: the name and the version in an id. *)
Definition init (id : mstring) : res (mstring * Z) :=
  if (KindIdLenMax <? length id)%nat then Err MojErrDbMalformedId
  else
    match rfind id VersionSeparator with
    | None => Err MojErrDbMalformedId
    | Some sepIdx =>
        let '(ver, rest) := MojOs.MojStrToInt64 (drop (S sepIdx) id) 0 in
        match rest with
        | [] => if (ver <? 0) || (MojUInt32Max <? ver) then Err MojErrDbMalformedId else Ok (take sepIdx id, ver)
        | _ => Err MojErrDbMalformedId
        end
    end.

Section kind.
Context `{ICU} `{!MojSchema.Regex} {I T : Type} `{!ExtIndex I T}.
Import KindGraph.MojDbKind (Graph, KindMap, links, m_id, m_supers, depth).
Import MojDbRevisionSet (MojDbRevisionSet).

(** A kind, without its indexes and its links. *)
Record MojDbKind := {
  m_name : mstring;
  m_version : Z;
  m_owner : mstring;
  m_privateData : bool;
  m_assignId : bool;
  m_schema : MojSchema.Schema;
  m_indexObjects : list MojObject;
  m_revSets : list MojDbRevisionSet;
  m_backup : bool;
  m_builtin : bool;
  m_token : Z;
  m_hash : Z;
  m_obj : MojObject
}.

(** What no update of an object changes: the kinds by address, their links, and the
    engines of permissions and quotas. *)
Record Kinds := {
  k_graph : Graph;
  k_kinds : gmap Z MojDbKind;
  k_permissions : MojDbPermissionEngine.MojDbPermissionEngine;
  k_quotas : QuotaMap
}.

(** What it changes: the indexes of each kind, and the transaction of the request. *)
Record World := { w_indexes : gmap Z (list (@MojDbIndex.MojDbIndex _ I)); w_txn : T }.

Definition with_txn (w : World) (t : T) : World := {| w_indexes := w_indexes w; w_txn := t |}.
Definition with_indexes (w : World) (k : Z) (indexes : list (@MojDbIndex.MojDbIndex _ I)) : World :=
  {| w_indexes := <[k := indexes]> (w_indexes w); w_txn := w_txn w |}.
Definition indexes (w : World) (k : Z) : list (@MojDbIndex.MojDbIndex _ I) := default [] (w_indexes w !! k).

Context (e : Kinds).

(** A kind there is not is a null pointer. *)
Definition kind_at (k : Z) : res MojDbKind :=
  match k_kinds e !! k with Some kind => Ok kind | None => Err AssertFailed end.

Definition owner (k : Z) : mstring :=
  match k_kinds e !! k with Some kind => m_owner kind | None => [] end.

(** ** Permissions *)
Definition hasOwnerPermission (k : Z) (req : MojDbReq) : bool :=
  m_admin req || bool_decide (m_domain req = owner k).

(** A permission of the kind itself, or of its first super. *)
Fixpoint objectPermission (fuel : nat) (k : Z) (op : mstring) (req : MojDbReq) : res MojDbPermissionEngine.Value :=
  match fuel with
  | O => Err AssertFailed
  | S fuel' =>
      let val := MojDbPermissionEngine.check (k_permissions e) PermissionType (m_id (links (k_graph e) k)) (m_domain req) op in
      match val, m_supers (links (k_graph e) k) with
      | MojDbPermissionEngine.ValueUndefined, super :: _ => objectPermission fuel' super op req
      | _, _ => Ok val
      end
  end.

(** Only an engine that is enabled denies. *)
Definition deny : res unit :=
  if MojDbPermissionEngine.m_enabled (k_permissions e) then Err MojErrDbPermissionDenied else Ok tt.

Definition checkPermission (k : Z) (op : MojDbOp) (req : MojDbReq) : res unit :=
  if hasOwnerPermission k req then Ok tt
  else if decide (op = OpKindUpdate) then deny
  else
    let? val := objectPermission (depth (k_graph e)) k (stringFromOperation op) req in
    match val with MojDbPermissionEngine.ValueAllow => Ok tt | _ => deny end.

Definition checkOwnerPermission (k : Z) (req : MojDbReq) : res unit :=
  if hasOwnerPermission k req then Ok tt else deny.

(** Extending is denied only where a rule says so, but then always. *)
Definition checkExtendPermission (superId : mstring) (req : MojDbReq) : res unit :=
  match MojDbPermissionEngine.check (k_permissions e) PermissionType superId (m_domain req) (stringFromOperation OpExtend) with
  | MojDbPermissionEngine.ValueDeny => Err MojErrDbPermissionDenied
  | _ => Ok tt
  end.

(** ** Updates *)
(** [MojDbReq::curKind]: what follows counts against the quota of the kind. *)
Definition curKind (w : World) (k : Z) : res World :=
  let q := {| MojDbQuotaEngine.m_isOpen := true; MojDbQuotaEngine.m_quotas := k_quotas e; MojDbQuotaEngine.m_txn := txn_base (w_txn w);
              MojDbQuotaEngine.m_usageDb := tt; MojDbQuotaEngine.m_handlers := [] |} in
  match MojDbQuotaEngine.curKind (k_graph e) owner k q with
  | (q, Ok _) => Ok (with_txn w (with_txn_base (w_txn w) (MojDbQuotaEngine.m_txn q)))
  | (_, Err e) => Err e
  end.

(** The revision sets and the schema of one kind; a schema that does not hold is only
    reported. *)
Definition preUpdate_own (oldObj : option MojObject) (k : Z) (newObj : option MojObject) : res (option MojObject) :=
  match newObj with
  | None => Ok None
  | Some newObj =>
      let? kind := kind_at k in
      let? newObj := res_fold (fun newObj i => MojDbRevisionSet.update i newObj oldObj) newObj (m_revSets kind) in
      let? _ := MojSchema.validate_obj (m_schema kind) newObj {| MojSchema.m_valid := true; MojSchema.m_msg := [] |} in
      Ok (Some newObj)
  end.

Definition preUpdate (k : Z) (newObj oldObj : option MojObject) : res (option MojObject) :=
  KindGraph.MojDbKind.preUpdate (k_graph e) (preUpdate_own oldObj) (depth (k_graph e)) k newObj.

Fixpoint update_indexes (newObj oldObj : option MojObject) (fixmode : bool) (indexes : list (@MojDbIndex.MojDbIndex _ I)) (t : T)
    : res (list (@MojDbIndex.MojDbIndex _ I) * T) :=
  match indexes with
  | [] => Ok ([], t)
  | i :: indexes' =>
      match MojDbIndex.update newObj oldObj fixmode {| MojDbIndex.s_index := i; MojDbIndex.s_txn := t |} with
      | (s, Ok _) =>
          let? (indexes', t) := update_indexes newObj oldObj fixmode indexes' (MojDbIndex.s_txn s) in
          Ok (MojDbIndex.s_index s :: indexes', t)
      | (_, Err e) => Err e
      end
  end.

Definition updateOwnIndexes (newObj oldObj : option MojObject) (req : MojDbReq) (k : Z) (w : World) : res World :=
  let? (indexes, t) := update_indexes newObj oldObj (m_fixmode req) (indexes w k) (w_txn w) in
  Ok (with_txn (with_indexes w k indexes) t).

Definition updateIndexes (newObj oldObj : option MojObject) (req : MojDbReq) (k : Z) (w : World) : res World :=
  let? (_, w) := KindGraph.MojDbKind.updateIndexes (k_graph e) (updateOwnIndexes newObj oldObj req) (depth (k_graph e)) [] k w in Ok w.

(** The property _sync, where the kind is backed up. *)
Definition mark_sync (kind : MojDbKind) (newObj : MojObject) : MojObject :=
  if m_backup kind && negb (MojObject.contains newObj SyncKey) then MojObject.putBool newObj SyncKey true else newObj.

(** The object as it is to be stored, and the state. *)
Definition update (w : World) (k : Z) (newObj oldObj : option MojObject) (op : MojDbOp) (req : MojDbReq) (checkSchema : bool)
    : res (option MojObject * World) :=
  let? _ := checkPermission k op req in
  let? w := curKind w k in
  let? kind := kind_at k in
  let? newObj :=
    match newObj with
    | None => Ok None
    | Some newObj =>
        let newObj := mark_sync kind newObj in
        if checkSchema then
          let? r := MojSchema.validate_obj (m_schema kind) newObj {| MojSchema.m_valid := true; MojSchema.m_msg := [] |} in
          if MojSchema.m_valid r then Ok (Some newObj) else Err MojErrSchemaValidation
        else Ok (Some newObj)
    end in
  let? newObj := preUpdate k newObj oldObj in
  let? w := updateIndexes newObj oldObj req k w in
  Ok (newObj, w).

(** ** Queries and configuration *)
(** The first index that can answer, or the one the query insists on. *)
Definition indexForQuery (indexes : list (@MojDbIndex.MojDbIndex _ I)) (forceIndex : option (@MojDbIndex.MojDbIndex _ I)) (query : MojDbQuery.MojDbQuery)
    : option (@MojDbIndex.MojDbIndex _ I) :=
  match forceIndex with
  | Some i => Some i
  | None => List.find (fun i => MojDbIndex.canAnswer i query) indexes
  end.

(** [find] up to the index it hands the cursor to. *)
Definition find (w : World) (k : Z) (forceIndex : option (@MojDbIndex.MojDbIndex _ I)) (query : MojDbQuery.MojDbQuery) (op : MojDbOp) (req : MojDbReq)
    : res (@MojDbIndex.MojDbIndex _ I) :=
  let? _ := checkPermission k op req in
  match indexForQuery (indexes w k) forceIndex query with
  | Some index => Ok index
  | None => Err MojErrDbNoIndexForQuery
  end.

(** No two sets have the same name. *)
Definition configureRevSets (obj : MojObject) : res (list MojDbRevisionSet) :=
  match MojObject.get obj RevisionSetsKey with
  | None => Ok []
  | Some array =>
      res_fold (fun sets i =>
        let? set := MojDbRevisionSet.fromObject i in
        if bool_decide (MojDbRevisionSet.m_name set ∈ List.map MojDbRevisionSet.m_name sets) then Err MojErrDbInvalidRevisionSet
        else Ok (sets ++ [set])) [] (MojDbMultiExtractor.elements array)
  end.
End kind.
End MojDbKind.
