(* ===== verification/KindSpec.v ===== *)
(** * Kinds keep their indexes

    [kinds_hold]: every index of every kind holds the keys of the objects of the kind.
    An update of an object, passed on to all the ancestors of its kind, keeps it
    ([indexes_maintained]); and what [preUpdate] does to an object leaves the properties
    of the database alone. *)

From stdpp Require Import gmap relations.
From S2P Require Import Prelude Containers CoreUtil Number Object ObjectBuilder DataSerialization TokenSet ObjectSerialization Text DbKey Json JsonRoundTrip DbQuery DbQueryRoundTrip QueryPlan QueryPlanSpec QueryPlanSelect ObjectItem ObjectItemSpec Effects StorageTxn Watcher Extractor ExtractorSpec Index IndexSpec LevelIndex Storage KindGraph KindGraphSpec Schema Permission Quota Req Kind.

Import QueryPlanSpec (well).

(** Two keys with the prefixes of two ids. *)
Lemma prefix_id i j k : well i -> well j -> Encoding.enc i `prefix_of` k -> Encoding.enc j `prefix_of` k -> i = j.
Proof.
  intros [Oi Di] [Oj Dj] [r1 ->] [r2 E]. pose proof (Encoding.pc_enc i j Oi Oj Di Dj r1 r2) as P.
  rewrite <- E, (comp_refl lexcmp) in P. destruct (Z.eqb_spec (MojObject.compare i j) 0) as [Z|N].
  - by apply MojObject.compare_eq.
  - exfalso. destruct (MojObject.compare i j); simpl in P; lia.
Qed.

Section maintain.
Context `{ICU} `{!ICULaws} `{!MojSchema.Regex} {I T : Type} `{ExtIndexLaws I T}.
Abbreviation Index := (@MojDbIndex.MojDbIndex _ I).
Import MojDbIndex (s_index, s_txn, m_id, m_index).

(** ** An index that holds the keys of some objects *)
Record holds_index (x : Index) (t : T) (objs : MojObject -> Prop) : Prop := {
  hi_open : exists i, m_index x = Some i;
  hi_pending : pending_sets x;
  hi_sound : sound_index x;
  hi_store : keyed_store x objs;
  hi_keys : indexed x t objs
}.

(** One version of an object in the place of another. *)
Record fits (objs : MojObject -> Prop) (newObj oldObj : option MojObject) : Prop := {
  fit_new : forall o, newObj = Some o -> well o /\ exists id, MojObject.get o IdKey = Some id /\ MojObject.type id <> MojObject.TypeArray;
  fit_one : forall o o', replaced objs newObj oldObj o -> replaced objs newObj oldObj o' -> MojObject.get o IdKey = MojObject.get o' IdKey -> o = o';
  fit_old : forall o, oldObj = Some o -> objs o
}.

Lemma holds_ext x t objs objs' : (forall o, objs o <-> objs' o) -> holds_index x t objs -> holds_index x t objs'.
Proof.
  intros E [O P S [K U] X]. split; [done..|split|].
  - intros o Ho. by apply K, E.
  - intros o o' Ho Ho'. by apply U; apply E.
  - intros k Hk. rewrite (X k Hk). by setoid_rewrite E.
Qed.

(** Writing under other ids leaves an index as it is. *)
Lemma holds_frame x t t' objs : holds_index x t objs ->
  (forall k, Encoding.enc (m_id x) `prefix_of` k -> in_index t' k <-> in_index t k) -> holds_index x t' objs.
Proof. intros [O P S K X] F. split; [done..|]. intros k Hk. by rewrite F, (X k Hk). Qed.

Lemma changed_id (x x' : Index) : changed x x' -> m_id x' = m_id x.
Proof. by intros ->. Qed.

Lemma one_index x t objs newObj oldObj force : txn_ok t -> holds_index x t objs -> fits objs newObj oldObj ->
  exists s' r, MojDbIndex.update newObj oldObj force {| s_index := x; s_txn := t |} = (s', r) /\
    match r with
    | Ok _ => txn_ok (s_txn s') /\ txn_address (s_txn s') = txn_address t /\ changed x (s_index s') /\
        holds_index (s_index s') (s_txn s') (replaced objs newObj oldObj) /\
        forall k, ~ Encoding.enc (m_id x) `prefix_of` k -> in_index (s_txn s') k <-> in_index t k
    | Err e => (forall o, newObj = Some o -> indexable x o) -> refused e
    end.
Proof.
  intros Ot [(i & Oi) P S [K U] X] [Fn Fo Fold].
  assert ((forall o, newObj = Some o -> indexable x o) -> keyed_store x (replaced objs newObj oldObj)) as K'.
  { intros N. split; [|exact Fo]. intros o [Ho|[Ho _]]; [by apply N|by apply K]. }
  set (s := {| s_index := x; s_txn := t |} : @MojDbIndex.State _ I T). destruct (MojDbIndex.update newObj oldObj force s) as [s' r] eqn:E.
  exists s', r. split; [done|].
  assert ((forall o, newObj = Some o -> indexable x o) -> match r with Ok _ => keeps s s' newObj oldObj objs | Err e => refused e end) as M.
  { intros N. destruct (maintained i s newObj oldObj force objs Ot Oi P S) as (s2 & r2 & E2 & R); [by split|by apply K'|done..|].
    rewrite E in E2. by injection E2 as <- <-. }
  destruct r as [[]|e]; [|exact M].
  assert (forall o, newObj = Some o -> indexable x o) as N.
  { intros o Ho. destruct (Fn o Ho) as [W Id]. by apply (update_indexable s s' newObj oldObj force). }
  destruct (M N) as [O' P' Ch A X' F _]. split; [done|]. split; [done|]. split; [done|]. split; [|done].
  specialize (K' N). change (s_index s) with x in *. revert P'. rewrite Ch. intros P'.
  split; [by exists i|done|by destruct S; split| |exact X'].
  split; [|exact Fo]. intros o Ho. by destruct (proj1 K' o Ho); split.
Qed.

(** ** The indexes of a kind *)
Lemma index_list objs newObj oldObj force xs : fits objs newObj oldObj -> forall t, txn_ok t ->
  NoDup (map m_id xs) -> (forall x, x ∈ xs -> holds_index x t objs) ->
  match MojDbKind.update_indexes newObj oldObj force xs t with
  | Ok (xs', t') => txn_ok t' /\ txn_address t' = txn_address t /\ Forall2 changed xs xs' /\
      (forall x, x ∈ xs' -> holds_index x t' (replaced objs newObj oldObj)) /\
      forall k, (forall x, x ∈ xs -> ~ Encoding.enc (m_id x) `prefix_of` k) -> in_index t' k <-> in_index t k
  | Err e => (forall x o, x ∈ xs -> newObj = Some o -> indexable x o) -> refused e
  end.
Proof.
  intros F. induction xs as [|x xs IH]; intros t Ot D X; cbn [MojDbKind.update_indexes map] in *.
  { split; [done|]. split; [done|]. split; [constructor|]. split; [by intros x ?%elem_of_nil|done]. }
  apply NoDup_cons in D as [Dx D]. pose proof (X x (list_elem_of_here x xs)) as Hx.
  assert (forall y k, y ∈ xs -> Encoding.enc (m_id y) `prefix_of` k -> ~ Encoding.enc (m_id x) `prefix_of` k) as Ne.
  { intros y k Hy Ky Kx. apply Dx. rewrite (prefix_id (m_id x) (m_id y) k); [by apply list_elem_of_fmap_2|..|done|done].
    - apply Hx.
    - apply X. by apply list_elem_of_further. }
  destruct (one_index x t objs newObj oldObj force Ot Hx F) as (s' & r & -> & R). destruct r as [[]|e].
  2:{ intros N. apply R. intros o. apply N, list_elem_of_here. }
  destruct R as (O1 & A1 & C1 & X1 & F1).
  specialize (IH (s_txn s') O1 D). destruct (MojDbKind.update_indexes newObj oldObj force xs (s_txn s')) as [[xs' t']|e]; cbn [res_bind].
  - destruct IH as (O2 & A2 & C2 & X2 & F2).
    { intros y Hy. apply holds_frame with t; [apply X; by apply list_elem_of_further|]. intros k Hk. apply F1. by apply (Ne y). }
    split; [done|]. split; [congruence|]. split; [by constructor|]. split.
    + intros y [->|Hy]%elem_of_cons; [|by apply X2]. apply holds_frame with (s_txn s'); [done|]. intros k Hk. apply F2.
      rewrite (changed_id _ _ C1) in Hk. intros y Hy Ky. by apply (Ne y k).
    + intros k Hk. rewrite F2, F1; [done|apply Hk, list_elem_of_here|]. intros y Hy. apply Hk. by apply list_elem_of_further.
  - intros N. apply IH; [|intros y o Hy; apply N; by apply list_elem_of_further].
    intros y Hy. apply holds_frame with t; [apply X; by apply list_elem_of_further|]. intros k Hk. apply F1. by apply (Ne y).
Qed.

(** ** All the kinds *)
Context (e : MojDbKind.Kinds).
Abbreviation g := (MojDbKind.k_graph e).
Abbreviation World := (@MojDbKind.World _ I T).
Import MojDbKind (indexes, w_txn).

(** [objs] are the objects of each kind, those of the kinds that extend it among them. *)
Record kinds_hold (w : World) (objs : Z -> MojObject -> Prop) : Prop := {
  kh_txn : txn_ok (w_txn w);
  kh_index : forall a x, x ∈ indexes w a -> holds_index x (w_txn w) (objs a);
  kh_ids : forall a, NoDup (map m_id (indexes w a));
  kh_apart : forall a b x y, x ∈ indexes w a -> y ∈ indexes w b -> m_id x = m_id y -> a = b
}.

(** The same kinds with the same indexes, but for their counts and pending keys. *)
Definition same_indexes (w w' : World) : Prop :=
  txn_address (w_txn w') = txn_address (w_txn w) /\ forall b, Forall2 changed (indexes w b) (indexes w' b).

Lemma changed_refl (x : Index) : changed x x.
Proof. by destruct x. Qed.

Lemma changed_trans (x y z : Index) : changed x y -> changed y z -> changed x z.
Proof. intros C1 C2. unfold changed. rewrite C2, C1. done. Qed.

Lemma same_indexes_refl w : same_indexes w w.
Proof. split; [done|]. intros b. induction (indexes w b); constructor; [apply changed_refl|done]. Qed.

Lemma same_indexes_trans w1 w2 w3 : same_indexes w1 w2 -> same_indexes w2 w3 -> same_indexes w1 w3.
Proof.
  intros [A1 S1] [A2 S2]. split; [congruence|]. intros b. specialize (S1 b). specialize (S2 b).
  revert S2. generalize (indexes w3 b). induction S1 as [|x y xs ys C S1 IH]; intros zs S2; inversion S2; subst; constructor; [|by apply IH].
  by eapply changed_trans.
Qed.

Lemma same_ids xs xs' : Forall2 (changed : Index -> Index -> Prop) xs xs' -> map m_id xs' = map m_id xs.
Proof. induction 1 as [|x x' xs xs' C _ IH]; [done|]. simpl. by rewrite IH, (changed_id x x'). Qed.

Lemma same_member w w' b y : same_indexes w w' -> y ∈ indexes w' b -> exists x, x ∈ indexes w b /\ changed x y.
Proof.
  intros [_ S] Hy. apply list_elem_of_lookup in Hy as [n Hy]. destruct (Forall2_lookup_r _ _ _ _ _ (S b) Hy) as (x & Hx & C).
  exists x. split; [|done]. by eapply list_elem_of_lookup_2.
Qed.

Lemma kinds_hold_ext w objs objs' : (forall a o, objs a o <-> objs' a o) -> kinds_hold w objs -> kinds_hold w objs'.
Proof. intros E [O X D A]. split; [done| |done..]. intros a x Hx. apply holds_ext with (objs a); [apply E|by apply X]. Qed.

(** The objects of each kind when one version of an object takes the place of another
    in the kinds of [l]. *)
Definition in_kinds (l : list Z) (objs : Z -> MojObject -> Prop) (newObj oldObj : option MojObject) (b : Z) : MojObject -> Prop :=
  if decide (b ∈ l) then replaced (objs b) newObj oldObj else objs b.

Lemma own_kind newObj oldObj req a w objs : kinds_hold w objs -> fits (objs a) newObj oldObj ->
  match MojDbKind.updateOwnIndexes newObj oldObj req a w with
  | Ok w' => kinds_hold w' (in_kinds [a] objs newObj oldObj) /\ same_indexes w w'
  | Err er => (forall x o, x ∈ indexes w a -> newObj = Some o -> indexable x o) -> refused er
  end.
Proof.
  intros [O X D A] F. unfold MojDbKind.updateOwnIndexes.
  pose proof (index_list (objs a) newObj oldObj (MojDbReq.m_fixmode req) (indexes w a) F (w_txn w) O (D a) (X a)) as L.
  destruct (MojDbKind.update_indexes _ _ _ _ _) as [[xs' t']|er]; cbn [res_bind]; [|exact L].
  destruct L as (O' & A' & C & X' & Fr). set (w' := MojDbKind.with_txn (MojDbKind.with_indexes w a xs') t').
  assert (forall b, indexes w' b = if decide (b = a) then xs' else indexes w b) as Ix.
  { intros b. unfold indexes. simpl. case_decide; [subst; by rewrite lookup_insert_eq|by rewrite lookup_insert_ne]. }
  assert (same_indexes w w') as S.
  { split; [done|]. intros b. rewrite Ix. case_decide; [by subst|]. apply (same_indexes_refl w). }
  split; [split|done]; [done| | |].
  - intros b x Hx. unfold in_kinds. rewrite Ix in Hx. destruct (decide (b = a)) as [->|N].
    + rewrite decide_True by set_solver. by apply X'.
    + rewrite decide_False by set_solver. apply holds_frame with (w_txn w); [by apply X|]. intros k Hk. apply Fr.
      intros y Hy Ky. apply N. apply (A b a x y Hx Hy). eapply prefix_id; [..|exact Hk|exact Ky]; by eapply X.
  - intros b. rewrite (same_ids (indexes w b)) by apply S. apply D.
  - intros b c x y Hx Hy E. destruct (same_member _ _ _ _ S Hx) as (x0 & Hx0 & Cx). destruct (same_member _ _ _ _ S Hy) as (y0 & Hy0 & Cy).
    apply (A b c x0 y0 Hx0 Hy0). by rewrite <- (changed_id _ _ Cx), <- (changed_id _ _ Cy).
Qed.

(** One kind after the other. *)
Lemma kinds_fold newObj oldObj req l : NoDup l -> forall w objs, kinds_hold w objs -> (forall a, a ∈ l -> fits (objs a) newObj oldObj) ->
  match res_fold (fun w a => MojDbKind.updateOwnIndexes newObj oldObj req a w) w l with
  | Ok w' => kinds_hold w' (in_kinds l objs newObj oldObj) /\ same_indexes w w'
  | Err er => (forall a x o, a ∈ l -> x ∈ indexes w a -> newObj = Some o -> indexable x o) -> refused er
  end.
Proof.
  induction 1 as [|a l Ha D IH]; intros w objs K F; cbn [res_fold].
  { split; [|apply same_indexes_refl]. apply (kinds_hold_ext w objs); [|done]. intros b o. unfold in_kinds. by rewrite decide_False by apply not_elem_of_nil. }
  pose proof (own_kind newObj oldObj req a w objs K (F a (list_elem_of_here a l))) as W.
  destruct (MojDbKind.updateOwnIndexes _ _ _ _ _) as [w1|er]; cbn [res_bind].
  2:{ intros N. apply W. intros x o. apply N, list_elem_of_here. }
  destruct W as [K1 S1]. specialize (IH w1 (in_kinds [a] objs newObj oldObj) K1).
  destruct (res_fold _ w1 l) as [w2|er].
  - destruct IH as [K2 S2].
    { intros b Hb. unfold in_kinds. rewrite decide_False by set_solver. apply F. by apply list_elem_of_further. }
    split; [|by eapply same_indexes_trans]. eapply kinds_hold_ext; [|exact K2]. intros b o. unfold in_kinds.
    destruct (decide (b ∈ l)), (decide (b ∈ [a])), (decide (b ∈ a :: l)); set_solver.
  - intros N. apply IH.
    + intros b Hb. unfold in_kinds. rewrite decide_False by set_solver. apply F. by apply list_elem_of_further.
    + intros b y o Hb Hy Ho. destruct (same_member _ _ _ _ S1 Hy) as (x & Hx & Cx). rewrite Cx.
      destruct (N b x o (list_elem_of_further _ _ _ Hb) Hx Ho); by split.
Qed.

(** The objects of each kind after the update of an object of one kind. *)
Definition objs_after (k : Z) (objs : Z -> MojObject -> Prop) (newObj oldObj : option MojObject) (b : Z) (o : MojObject) : Prop :=
  (reach g k b /\ replaced (objs b) newObj oldObj o) \/ (~ reach g k b /\ objs b o).

Lemma indexes_maintained newObj oldObj req k w objs : graph_ok g -> live g k -> kinds_hold w objs ->
  (forall a, reach g k a -> fits (objs a) newObj oldObj) ->
  match MojDbKind.updateIndexes e newObj oldObj req k w with
  | Ok w' => kinds_hold w' (objs_after k objs newObj oldObj) /\ same_indexes w w'
  | Err er => (forall a x o, reach g k a -> x ∈ indexes w a -> newObj = Some o -> indexable x o) -> refused er
  end.
Proof.
  intros G L K F. destruct (ok_rank g G) as (rank & R).
  destruct (walk_from g G rank R (MojDbKind.updateOwnIndexes newObj oldObj req) (KindGraph.MojDbKind.depth g) k (deep_start g G rank k L) [])
    as (new & l & E & D & _ & _ & M); [by intros x ?%elem_of_nil|apply not_elem_of_nil|].
  unfold MojDbKind.updateIndexes. unfold visits in E. rewrite E, res_bind_assoc.
  assert (forall x, x ∈ l <-> reach g k x) as Ml by (intros x; rewrite M; set_solver).
  pose proof (kinds_fold newObj oldObj req l D w objs K) as W.
  destruct (res_fold _ w l) as [w'|er]; cbn [res_bind].
  - destruct W as [K' S]; [intros a Ha; by apply F, Ml|]. split; [|done]. eapply kinds_hold_ext; [|exact K'].
    intros b o. unfold in_kinds, objs_after. rewrite <- Ml. destruct (decide (b ∈ l)); tauto.
  - intros N. apply W; [intros a Ha; by apply F, Ml|]. intros a x o Ha. by apply N, Ml.
Qed.
End maintain.

(** ** What becomes of the object *)
Import RecordSpec (record_ok, rec_ok).

(** An object that can be stored: with its id, kind and revision. *)
Definition storable (obj id : MojObject) (kindId : mstring) (rev : Z) (del : bool) : Prop :=
  record_ok obj id kindId rev del /\ MojObjectBuilder.defined obj.

Lemma storable_well obj id kindId rev del : storable obj id kindId rev del -> well obj.
Proof. intros [[O _ _ _ _] D]. by split. Qed.

(** The properties of the database itself. *)
Definition special (name : mstring) : Prop := name ∈ [IdKey; KindKey; RevKey; DelKey].

Lemma put_defined o k v : MojObjectBuilder.defined o -> MojObjectBuilder.defined v -> MojObjectBuilder.defined (MojObject.put o k v).
Proof.
  intros D Dv. apply MojObjectBuilder.defined_object, Forall_forall. intros kv H. unfold MojMap.put in H.
  apply (MojRbTreeBase.elem_of_put_inv fst MojStrCmp) in H as [->|H]; [done|].
  destruct o as [| |m| | | | |]; simpl in H; try by apply elem_of_nil in H. apply MojObjectBuilder.defined_object in D. rewrite Forall_forall in D. by apply D.
Qed.

Lemma put_storable obj id kindId rev del name v : storable obj id kindId rev del -> str_ok name -> ~ special name -> well v ->
  storable (MojObject.put obj name v) id kindId rev del.
Proof.
  intros [[O Ei Ek Er Ed] D] Sn N [Ov Dv]. unfold special in N. destruct RecordSpec.keys_ok as (I & R & K & L).
  split; [|by apply put_defined]. split; [by apply MojObject.put_ok|..]; (rewrite MojObject.get_put by done; rewrite decide_False by set_solver; done).
Qed.

Section prepare.
Context `{ICU} `{!ICULaws} `{!MojSchema.Regex} {I T : Type} `{EngineLaws I T}.
Import MojDbRevisionSet (MojDbRevisionSet, m_name).

Lemma updateRev_storable r obj id kindId rev del out : str_ok (m_name r) -> ~ special (m_name r) -> storable obj id kindId rev del ->
  MojDbRevisionSet.updateRev r obj = Ok out -> storable out id kindId rev del.
Proof.
  intros S N St. unfold MojDbRevisionSet.updateRev. pose proof St as [[O _ _ Er _] _]. rewrite Er. cbn [MojObject.getRequiredT res_bind].
  intros [= <-]. apply put_storable; [done..|]. split; [|done]. exact (MojObject.get_ok obj RevKey _ O Er).
Qed.

Lemma revset_storable r obj oldObj id kindId rev del out : str_ok (m_name r) -> ~ special (m_name r) -> storable obj id kindId rev del ->
  MojDbRevisionSet.update r obj oldObj = Ok out -> storable out id kindId rev del.
Proof.
  intros S N St. unfold MojDbRevisionSet.update. destruct oldObj as [old|]; [|by apply updateRev_storable].
  induction (MojDbRevisionSet.m_props r) as [|p ps IH]; cbn [MojDbRevisionSet.diff]; [by intros [= <-]|].
  intros (nv & _ & E)%res_bind_ok. apply res_bind_ok in E as (ov & _ & E). destruct (bool_decide _); [by eapply updateRev_storable|by apply IH].
Qed.

Context (e : MojDbKind.Kinds).
Abbreviation g := (MojDbKind.k_graph e).

(** No revision set writes a property of the database. *)
Definition revsets_ok : Prop := forall k kind r, MojDbKind.k_kinds e !! k = Some kind -> r ∈ MojDbKind.m_revSets kind ->
  str_ok (m_name r) /\ ~ special (m_name r).

(** The walk of [preUpdate] keeps what each of its steps keeps. *)
Lemma walk_keeps {S} (own : Z -> S -> res S) (P : S -> Prop) : (forall k s s', P s -> own k s = Ok s' -> P s') ->
  forall fuel k s s', P s -> KindGraph.MojDbKind.preUpdate g own fuel k s = Ok s' -> P s'.
Proof.
  intros F. induction fuel as [|fuel IH]; intros k s s' Ps; [done|]. cbn [KindGraph.MojDbKind.preUpdate].
  intros (s1 & E & E')%res_bind_ok. apply (F k s1); [|done]. eapply (res_fold_inv _ P); [|exact Ps|exact E].
  intros s2 i s3 _ P2. by apply IH.
Qed.

Lemma preUpdate_storable k obj oldObj id kindId rev del out : revsets_ok -> storable obj id kindId rev del ->
  MojDbKind.preUpdate e k (Some obj) oldObj = Ok out -> exists n, out = Some n /\ storable n id kindId rev del.
Proof.
  intros R St E. unfold MojDbKind.preUpdate in E.
  apply (walk_keeps (MojDbKind.preUpdate_own e oldObj) (fun o => exists n, o = Some n /\ storable n id kindId rev del)) in E; [done| |by exists obj].
  intros j s s' (n & -> & Sn) Ej. apply res_bind_ok in Ej as (kind & Ek & Ej). unfold MojDbKind.kind_at in Ek.
  destruct (MojDbKind.k_kinds e !! j) as [kd|] eqn:K; [|done]. injection Ek as ->.
  apply res_bind_ok in Ej as (n' & En & Ej). apply res_bind_ok in Ej as (v & _ & [= <-]). exists n'. split; [done|].
  eapply (res_fold_inv _ (fun n => storable n id kindId rev del)); [|exact Sn|exact En]. intros s1 r s2 Hr S1 E1.
  destruct (R j kind r K Hr). by apply (revset_storable r s1 oldObj).
Qed.

Lemma preUpdate_none k oldObj out : MojDbKind.preUpdate e k None oldObj = Ok out -> out = None.
Proof.
  intros E. unfold MojDbKind.preUpdate in E. apply (walk_keeps (MojDbKind.preUpdate_own e oldObj) (fun o => o = None)) in E; [done| |done].
  by intros j s s' -> [= <-].
Qed.
End prepare.

(** ** What an update does to the transaction *)
Section steps.
Context `{ICU} {I T : Type} `{!ExtIndex I T} (R : T -> T -> Prop) `{!PreOrder R}.
Context (Ri : forall i sh k t, R t (index_insert i sh k t).1) (Rd : forall i sh k t, R t (index_del i sh k t).1).
Context (Rb : forall t a, R t (with_txn_base t (MojDbStorageTxn.subscribe (txn_base t) a))).
Import MojDbIndex (s_txn).

Definition steps {A} (m : st (@MojDbIndex.State _ I T) A) : Prop := forall s, R (s_txn s) (s_txn (m s).1).

Lemma steps_bind {A B} (m : st _ A) (f : A -> st _ B) : steps m -> (forall a, steps (f a)) -> steps (bind m f).
Proof.
  intros M F s. unfold bind. specialize (M s). destruct (m s) as [s1 [a|er]]; [|done]. simpl in M. etransitivity; [exact M|]. apply F.
Qed.

Lemma steps_same {A} (m : st _ A) : (forall s, s_txn (m s).1 = s_txn s) -> steps m.
Proof. intros E s. by rewrite E. Qed.

Lemma steps_attempt {A} (m : st _ A) : steps m -> steps (attempt m).
Proof. intros M s. unfold attempt. specialize (M s). by destruct (m s). Qed.

Lemma steps_storage {A} (f : I -> st T A) : (forall i t, R t (f i t).1) -> steps (MojDbIndex.storage f).
Proof. intros F s. unfold MojDbIndex.storage. destruct (MojDbIndex.m_index _) as [i|]; [|done]. specialize (F i (s_txn s)). by destruct (f i (s_txn s)). Qed.

Lemma insertKeys_steps sh keys : steps (MojDbIndex.insertKeys sh keys).
Proof. induction keys; [by apply steps_same|]. apply steps_bind; [by apply steps_storage|done]. Qed.

Lemma delKeys_steps sh keys force : steps (MojDbIndex.delKeys sh keys force).
Proof.
  induction keys as [|key keys IH]; [by apply steps_same|]. apply steps_bind; [by apply steps_attempt, steps_storage|]. intros er.
  apply steps_bind; [|intros er'; apply steps_bind; [by apply steps_same|done]].
  destruct er as [|er]; [by apply steps_same|]. by destruct er; apply steps_same.
Qed.

Lemma addPendingKeys_steps keys : steps (MojDbIndex.addPendingKeys keys).
Proof. apply steps_bind; [by apply steps_same|]. intros s. apply steps_bind; [by apply steps_same|]. intros _ s'. apply Rb. Qed.

Lemma update_steps newObj oldObj force : steps (MojDbIndex.update newObj oldObj force).
Proof.
  unfold MojDbIndex.update. apply steps_bind; [by apply steps_same|]. intros s.
  destruct (IndexDef.includeObj _ newObj), (IndexDef.includeObj _ oldObj); cbn [andb negb];
    repeat first [ apply insertKeys_steps | apply delKeys_steps | apply addPendingKeys_steps
                 | apply steps_bind; [|intros ?] | (apply steps_same; intros ?; by destruct newObj) | (apply steps_same; intros ?; by destruct oldObj) | by apply steps_same ].
Qed.

Lemma update_indexes_steps newObj oldObj force xs : forall t xs' t',
  MojDbKind.update_indexes newObj oldObj force xs t = Ok (xs', t') -> R t t'.
Proof.
  induction xs as [|x xs IH]; intros t xs' t'; cbn [MojDbKind.update_indexes]; [by intros [= _ <-]|].
  pose proof (update_steps newObj oldObj force {| MojDbIndex.s_index := x; s_txn := t |}) as S. simpl in S.
  destruct (MojDbIndex.update _ _ _ _) as [s [[]|er]]; [|done]. intros ([ys t1] & E & [= _ <-])%res_bind_ok. etransitivity; [exact S|]. by eapply IH.
Qed.

Lemma updateIndexes_steps `{!MojSchema.Regex} (e : MojDbKind.Kinds) newObj oldObj req k w w' :
  MojDbKind.updateIndexes e newObj oldObj req k w = Ok w' -> R (MojDbKind.w_txn w) (MojDbKind.w_txn w').
Proof.
  unfold MojDbKind.updateIndexes. intros ([v w1] & E & [= <-])%res_bind_ok. revert k v w w1 E. generalize ([] : list Z).
  induction (KindGraph.MojDbKind.depth _) as [|fuel IH]; intros v0 k v w w1 E; [done|]. cbn [KindGraph.MojDbKind.updateIndexes] in E.
  apply res_bind_ok in E as ([v2 w2] & E2 & E). apply res_bind_ok in E as (w3 & E3 & [= _ <-]). transitivity (MojDbKind.w_txn w2).
  - apply (res_fold_inv _ (fun p => R (MojDbKind.w_txn w) (MojDbKind.w_txn p.2))) in E2; [done| |done].
    intros [v3 w4] i [v5 w5] _ P. simpl in P. destruct (bool_decide _); [by intros [= _ <-]|]. intros E4. etransitivity; [exact P|]. by eapply IH.
  - unfold MojDbKind.updateOwnIndexes in E3. apply res_bind_ok in E3 as ([xs t] & E3 & [= <-]). by eapply update_indexes_steps.
Qed.
End steps.

(** ** The whole update of an object *)
Lemma quota_curKind {T} g owner k (q q' : @MojDbQuotaEngine.World T) : quota_ok (MojDbQuotaEngine.m_txn q) ->
  MojDbQuotaEngine.curKind g owner k q = (q', Ok tt) -> quota_ok (MojDbQuotaEngine.m_txn q').
Proof.
  intros [S _]. unfold MojDbQuotaEngine.curKind, bind, get, modify, lift. simpl.
  destruct (MojDbQuotaEngine.quota_of _ _ _ _ _) as [o|]; [|done]. intros [= <-]. simpl. split; simpl.
  - by apply (MojMap.map_put_sorted MojStrCmp).
  - intros kindId [= <-]. eexists. rewrite (MojMap.map_get_put MojStrCmp) by done. by rewrite (comp_refl MojStrCmp).
Qed.

Section update.
Context `{ICU} `{!ICULaws} `{!MojSchema.Regex} {I T : Type} `{EngineLaws I T}.
Context (e : MojDbKind.Kinds).
Abbreviation g := (MojDbKind.k_graph e).
Abbreviation World := (@MojDbKind.World _ I T).
Import MojDbKind (indexes, w_txn).

(** The records of the databases. *)
Definition same_records (t t' : T) : Prop := txn_ok t ->
  txn_ok t' /\ forall db id, is_db db -> holds t' db id = holds t db id.

#[export] Instance same_records_pre : PreOrder same_records.
Proof.
  split; [by intros t|]. intros t1 t2 t3 R1 R2 O1. destruct (R1 O1) as [O2 E1]. destruct (R2 O2) as [O3 E2]. split; [done|].
  intros db id D. by rewrite E2, E1.
Qed.

Lemma curKind_ok w k w' objs : kinds_hold w objs -> MojDbKind.curKind e w k = Ok w' ->
  kinds_hold w' objs /\ same_indexes w w' /\ same_records (w_txn w) (w_txn w').
Proof.
  intros [O X D A]. unfold MojDbKind.curKind. set (q := {| MojDbQuotaEngine.m_isOpen := true |}).
  destruct (MojDbQuotaEngine.curKind _ _ k q) as [q' [[]|er]] eqn:E; [|done]. intros [= <-].
  apply quota_curKind in E; [|by apply base_ok]. destruct (base_law (w_txn w) _ O E) as (O' & A' & I' & R').
  split; [split; [done| |done..]|split; [split; [done|]|split; [done|by intros]]].
  - intros a x Hx. apply holds_frame with (w_txn w); [by apply X|]. intros j _. apply I'.
  - intros b. apply (same_indexes_refl w).
Qed.

(** The object an update prepares: marked, and with its revision sets. *)
Definition prepared (k : Z) (newObj oldObj out : option MojObject) : Prop :=
  exists kind, MojDbKind.k_kinds e !! k = Some kind /\
    MojDbKind.preUpdate e k (option_map (MojDbKind.mark_sync kind) newObj) oldObj = Ok out.

Lemma prepared_storable k obj oldObj out id kindId rev del : revsets_ok e -> storable obj id kindId rev del ->
  prepared k (Some obj) oldObj out -> exists n, out = Some n /\ storable n id kindId rev del.
Proof.
  intros R St (kind & _ & E). simpl in E. eapply preUpdate_storable; [done| |exact E]. unfold MojDbKind.mark_sync.
  destruct (_ && _); [|done]. apply put_storable; [done| | |done].
  - vm_compute. by repeat constructor.
  - unfold special. set_solver.
Qed.

Lemma prepared_none k oldObj out : prepared k None oldObj out -> out = None.
Proof. intros (kind & _ & E). by eapply preUpdate_none. Qed.

(** What a successful update has done. *)
Lemma update_ok w k newObj oldObj op req cs out w' : MojDbKind.update e w k newObj oldObj op req cs = Ok (out, w') ->
  MojDbKind.checkPermission e k op req = Ok tt /\ prepared k newObj oldObj out /\
  exists w1, MojDbKind.curKind e w k = Ok w1 /\ MojDbKind.updateIndexes e out oldObj req k w1 = Ok w'.
Proof.
  unfold MojDbKind.update. intros ([] & Pm & E)%res_bind_ok. apply res_bind_ok in E as (w1 & Ec & E).
  apply res_bind_ok in E as (kind & Ek & E). apply res_bind_ok in E as (n & En & E). apply res_bind_ok in E as (out' & Ep & E).
  apply res_bind_ok in E as (w2 & Eu & [= <- <-]). split; [done|]. split; [|by exists w1].
  unfold MojDbKind.kind_at in Ek. destruct (MojDbKind.k_kinds e !! k) as [kd|] eqn:K; [|done]. injection Ek as ->. exists kind. split; [done|].
  destruct newObj as [o|]; simpl in *; [|congruence].
  assert (n = Some (MojDbKind.mark_sync kind o)) as <-; [|done]. destruct cs; [|congruence].
  apply res_bind_ok in En as (r & _ & En). destruct (MojSchema.m_valid r); congruence.
Qed.

Lemma update_holds_kinds w k newObj oldObj op req cs out w' objs : graph_ok g -> live g k -> kinds_hold w objs ->
  MojDbKind.update e w k newObj oldObj op req cs = Ok (out, w') ->
  (forall a, reach g k a -> fits (objs a) out oldObj) ->
  kinds_hold w' (objs_after e k objs out oldObj) /\ same_indexes w w' /\ same_records (w_txn w) (w_txn w').
Proof.
  intros G L K E F. apply update_ok in E as (_ & _ & w1 & Ec & Eu).
  destruct (curKind_ok w k w1 objs K Ec) as (K1 & S1 & R1).
  pose proof (indexes_maintained e out oldObj req k w1 objs G L K1 F) as M. rewrite Eu in M. destruct M as [K' S'].
  split; [done|]. split; [by eapply same_indexes_trans|]. etransitivity; [exact R1|]. refine (updateIndexes_steps same_records _ _ _ e out oldObj req k w1 w' Eu).
  - intros i sh j t O. destruct (insert_law i sh j t O) as (t' & r & Et & O' & _). split; [by rewrite Et|]. intros db id D. by apply index_insert_holds.
  - intros i sh j t O. destruct (del_law i sh j t O) as (t' & r & Et & O' & _). split; [by rewrite Et|]. intros db id D. by apply index_del_holds.
  - intros t a O. destruct (subscribe_law t a O) as (O' & _). split; [done|]. intros db id _.
    destruct (base_law t (MojDbStorageTxn.subscribe (txn_base t) a) O) as (_ & _ & _ & R); [|apply R].
    destruct (base_ok t O) as [Q1 Q2]. by split.
Qed.
End update.
