(* ===== verification/KindEngine.v ===== *)
(** * The kind engine: src/src/db/MojDbKindEngine.cpp

    The kinds there are, by id and by token, and what the database asks of them: an
    update of an object goes to its kind, or to both when its kind changes. *)

From stdpp Require Import gmap.
From S2P Require Import Prelude Containers CoreUtil Number Object ObjectBuilder DataSerialization TokenSet ObjectSerialization Text DbKey Json JsonRoundTrip DbQuery QueryPlan ObjectItem Effects StorageTxn Watcher Extractor Index KindGraph Schema Permission Quota Req Kind.

Module MojDbKindEngine.
Import MojDbReq (MojDbReq).

Definition KindIdPrefix := _T "_kinds/".
Definition KindKindId := _T "Kind:1".
Definition KindKindIdPrefix := _T "Kind:".
Definition DbStateId := _T "DbState:1".
Definition PermissionId := _T "Permission:1".

Definition formatKindId (id : mstring) : mstring := KindIdPrefix ++ id.

Section engine.
Context `{ICU} `{!MojSchema.Regex} {I T : Type} `{!ExtIndex I T}.

(** The kinds by address are [m_kindsAt]; [m_kinds] and [m_tokens] find them. *)
Record MojDbKindEngine := {
  m_kindsAt : MojDbKind.Kinds;
  m_kinds : KindGraph.MojDbKind.KindMap;
  m_tokens : list (Z * mstring)
}.
Context (e : MojDbKindEngine).

Definition getKind (kindName : mstring) : res Z :=
  match KindGraph.MojDbKind.find_kind (m_kinds e) kindName with
  | Some kind => Ok kind
  | None => Err MojErrDbKindNotRegistered
  end.

Definition getKind_obj (obj : MojObject) : res Z :=
  let? kindName := MojObjectString.get_string obj KindKey in
  match kindName with Some kindName => getKind kindName | None => Err MojErrDbKindNotSpecified end.

(** ** Tokens *)
Definition token_of (kind : Z) : res Z := let? kind := MojDbKind.kind_at (m_kindsAt e) kind in Ok (MojDbKind.m_token kind).

#[local] Instance tokens : KindTokens := {|
  tokenFromId id := let? kind := getKind id in token_of kind;
  idFromToken tok := match MojMap.get MojComp (m_tokens e) tok with Some id => Ok id | None => Err MojErrDbInvalidKindToken end
|}.

(** The state of each kind is the table that all objects of the kind share. *)
Section states.
Context {W : Type} `{!MojSharedTokenSet.MojSharedTokenSet W} (states : gmap Z W).

Definition kind_tokenSet (kind : Z) : res (MojTokenSet.MojTokenSet W) :=
  match states !! kind with Some s => Ok (MojTokenSet.init s) | None => Err AssertFailed end.

Definition tokenSet (kindName : mstring) : res (MojTokenSet.MojTokenSet W) :=
  let? kind := getKind kindName in kind_tokenSet kind.

(** What a reader needs of it. *)
Definition tokenVec (kindName : mstring) : res (list mstring) :=
  let? t := tokenSet kindName in Ok (MojTokenSet.m_tokenVec t).
End states.

(** ** Permissions *)
Definition checkPermission (id : mstring) (op : MojDbOp) (req : MojDbReq) : res unit :=
  let? kind := getKind id in MojDbKind.checkPermission (m_kindsAt e) kind op req.

Definition checkOwnerPermission (id : mstring) (req : MojDbReq) : res unit :=
  let? kind := getKind id in MojDbKind.checkOwnerPermission (m_kindsAt e) kind req.

(** ** Updates

    The object to be stored, the kind whose tokens it is written with, and the state. *)
Definition update (w : @MojDbKind.World _ I T) (newObj oldObj : option MojObject) (req : MojDbReq) (op : MojDbOp) (checkSchema : bool)
    : res (option MojObject * Z * MojDbKind.World) :=
  let? oldKind := match oldObj with Some oldObj => let? k := getKind_obj oldObj in Ok (Some k) | None => Ok None end in
  match newObj, oldObj with
  | None, None => Err AssertFailed
  | Some obj, _ | None, Some obj =>
      let? newKind := getKind_obj obj in
      let other := match oldKind with Some oldKind => if oldKind =? newKind then None else Some oldKind | None => None end in
      match other with
      | Some oldKind =>
          let? (_, w) := MojDbKind.update (m_kindsAt e) w oldKind None oldObj OpDelete req checkSchema in
          let? (newObj, w) := MojDbKind.update (m_kindsAt e) w newKind newObj None OpCreate req checkSchema in
          Ok (newObj, newKind, w)
      | None =>
          let? (newObj, w) := MojDbKind.update (m_kindsAt e) w newKind newObj oldObj op req checkSchema in
          Ok (newObj, newKind, w)
      end
  end.

(** ** Queries *)
(** [find] up to the index that the cursor gets. *)
Definition find (w : @MojDbKind.World _ I T) (query : MojDbQuery.MojDbQuery) (forceIndex : option (@MojDbIndex.MojDbIndex _ I)) (req : MojDbReq) (op : MojDbOp)
    : res (@MojDbIndex.MojDbIndex _ I) :=
  let? _ := MojDbQuery.validate query in
  let? kind := getKind (MojDbQuery.m_fromType query) in
  MojDbKind.find (m_kindsAt e) w kind forceIndex query op req.

(** ** Lists of kinds *)
Definition getKinds : res (list MojObject) :=
  let? rootKind := getKind RootKindId in
  KindGraph.MojDbKind.subKinds (MojDbKind.k_graph (m_kindsAt e))
    (fun k => match MojDbKind.k_kinds (m_kindsAt e) !! k with
              | Some kind => if MojDbKind.m_builtin kind then [] else [MojDbKind.m_obj kind]
              | None => []
              end)
    (KindGraph.MojDbKind.depth (MojDbKind.k_graph (m_kindsAt e))) rootKind None.

Definition getByOwner (owner : mstring) : list Z :=
  List.map snd (List.filter (fun i =>
    match MojDbKind.k_kinds (m_kindsAt e) !! i.2 with
    | Some kind => negb (MojDbKind.m_builtin kind) && bool_decide (MojDbKind.m_owner kind = owner)
    | None => false
    end) (m_kinds e)).
End engine.
End MojDbKindEngine.
