(* ===== verification/Merge.v ===== *)
(** * Merging an object into a stored one: [mergeInto] of src/src/db/MojDb.cpp *)

From S2P Require Import Prelude Containers CoreUtil Number Object.

Module Merge.
Section values.
Context (mergeInto : MojObject -> MojObject -> MojObject -> MojObject).

(** The value for a property both have. *)
Definition merge_value (new prev : MojObject) : MojObject :=
  match new, prev with
  | ObjectImpl _, ObjectImpl _ => mergeInto new (ObjectImpl []) prev
  | _, _ => new
  end.

(** The two iterators, in the order of names. *)
Fixpoint merge_props (obj : list (mstring * MojObject)) : list (mstring * MojObject) -> MojObject -> MojObject :=
  fix over_prev (prev : list (mstring * MojObject)) (dest : MojObject) : MojObject :=
    match obj, prev with
    | [], [] => dest
    | [], p :: prev' => over_prev prev' (MojObject.put dest p.1 p.2)
    | o :: obj', [] => merge_props obj' [] (MojObject.put dest o.1 o.2)
    | o :: obj', p :: prev' =>
        let comp := MojStrCmp o.1 p.1 in
        if 0 <? comp then over_prev prev' (MojObject.put dest p.1 p.2)
        else if comp <? 0 then merge_props obj' prev (MojObject.put dest o.1 o.2)
        else merge_props obj' prev' (MojObject.put dest o.1 (merge_value o.2 p.2))
    end.
End values.

(** [mergeInto(dest, obj, prev)]. *)
Fixpoint mergeInto (obj dest prev : MojObject) : MojObject :=
  match obj with
  | ObjectImpl m => merge_props mergeInto m (MojObject.ensureObject prev) dest
  | _ => merge_props mergeInto [] (MojObject.ensureObject prev) dest
  end.
End Merge.
Import Merge.

(** ** What a merge holds *)
(** A value for a property: the new one, or both merged when both are objects, or
    else the old one. *)
Definition merged_value (new prev : option MojObject) : option MojObject :=
  match new, prev with
  | Some v, Some w => Some (merge_value mergeInto v w)
  | Some v, None => Some v
  | None, w => w
  end.

Abbreviation smap := (MojRbTreeBase.sorted fst MojStrCmp).
Abbreviation pget := (MojMap.get MojStrCmp).

Lemma pget_cons (n : mstring * MojObject) m k : pget (n :: m) k = if MojStrCmp n.1 k =? 0 then Some n.2 else pget m k.
Proof. unfold MojMap.get, MojRbTreeBase.find. simpl. by destruct (MojStrCmp n.1 k =? 0). Qed.

Lemma pget_below (n : mstring * MojObject) m k : smap (n :: m) -> MojStrCmp k n.1 < 0 -> pget (n :: m) k = None.
Proof.
  intros [F _]%MojRbTreeBase.sorted_cons L. unfold MojMap.get.
  rewrite (proj2 (MojRbTreeBase.find_None fst MojStrCmp k (n :: m))); [done|].
  intros x [->|Hx]%elem_of_cons; [pose proof (comp_anti MojStrCmp k n.1); lia|].
  rewrite Forall_forall in F. specialize (F x Hx). unfold MojRbTreeBase.node_lt in F.
  pose proof (comp_lt_le_trans MojStrCmp k n.1 x.1 L ltac:(lia)). pose proof (comp_anti MojStrCmp k x.1). lia.
Qed.

Lemma pget_tail (n : mstring * MojObject) m k : smap (n :: m) -> MojStrCmp n.1 k = 0 -> pget m k = None.
Proof.
  intros [F _]%MojRbTreeBase.sorted_cons Z. unfold MojMap.get. rewrite (proj2 (MojRbTreeBase.find_None fst MojStrCmp k m)); [done|].
  intros x Hx E. rewrite Forall_forall in F. specialize (F x Hx). unfold MojRbTreeBase.node_lt in F.
  pose proof (comp_anti MojStrCmp x.1 k). pose proof (comp_eq_trans MojStrCmp n.1 k x.1). lia.
Qed.

(** Putting into an object. *)
Lemma oget_put dest k v j : smap (MojObject.ensureObject dest) ->
  pget (MojObject.ensureObject (MojObject.put dest k v)) j = if MojStrCmp k j =? 0 then Some v else pget (MojObject.ensureObject dest) j.
Proof. intros S. simpl. by apply (MojMap.map_get_put MojStrCmp). Qed.

Lemma put_smap dest k v : smap (MojObject.ensureObject dest) -> smap (MojObject.ensureObject (MojObject.put dest k v)).
Proof. intros S. simpl. by apply (MojMap.map_put_sorted MojStrCmp). Qed.

Definition or_else (v w : option MojObject) : option MojObject := match v with Some _ => v | None => w end.

(** What a turn of the loop puts comes before all that is left. *)
Lemma prev_first (obj prev : list (mstring * MojObject)) p k d : smap (p :: prev) ->
  (MojStrCmp p.1 k = 0 -> pget obj k = None) ->
  or_else (merged_value (pget obj k) (pget prev k)) (if MojStrCmp p.1 k =? 0 then Some p.2 else d) =
  or_else (merged_value (pget obj k) (pget (p :: prev) k)) d.
Proof.
  intros S N. rewrite pget_cons. destruct (Z.eqb_spec (MojStrCmp p.1 k) 0) as [Z|Z]; [|done].
  by rewrite (pget_tail p prev k S Z), (N Z).
Qed.

Lemma obj_first (obj prev : list (mstring * MojObject)) o k d : smap (o :: obj) ->
  (MojStrCmp o.1 k = 0 -> pget prev k = None) ->
  or_else (merged_value (pget obj k) (pget prev k)) (if MojStrCmp o.1 k =? 0 then Some o.2 else d) =
  or_else (merged_value (pget (o :: obj) k) (pget prev k)) d.
Proof.
  intros S N. rewrite pget_cons. destruct (Z.eqb_spec (MojStrCmp o.1 k) 0) as [Z|Z]; [|done].
  by rewrite (pget_tail o obj k S Z), (N Z).
Qed.

Lemma both_first (obj prev : list (mstring * MojObject)) o p k d : smap (o :: obj) -> smap (p :: prev) -> MojStrCmp o.1 p.1 = 0 ->
  or_else (merged_value (pget obj k) (pget prev k)) (if MojStrCmp o.1 k =? 0 then Some (merge_value mergeInto o.2 p.2) else d) =
  or_else (merged_value (pget (o :: obj) k) (pget (p :: prev) k)) d.
Proof.
  intros So Sp E. rewrite !pget_cons. pose proof (comp_eq_l MojStrCmp o.1 p.1 k E) as L.
  destruct (Z.eqb_spec (MojStrCmp o.1 k) 0) as [Z|Z], (Z.eqb_spec (MojStrCmp p.1 k) 0) as [Z'|Z']; try lia; [|done].
  by rewrite (pget_tail o obj k So Z), (pget_tail p prev k Sp Z').
Qed.

Lemma same_below (n m : mstring * MojObject) l k : smap (m :: l) -> MojStrCmp n.1 m.1 < 0 -> MojStrCmp n.1 k = 0 -> pget (m :: l) k = None.
Proof. intros S L Z. apply (pget_below m l k S). pose proof (comp_eq_l MojStrCmp n.1 k m.1 Z). lia. Qed.

Lemma merge_props_get obj prev dest : smap obj -> smap prev -> smap (MojObject.ensureObject dest) ->
  smap (MojObject.ensureObject (merge_props mergeInto obj prev dest)) /\
  forall k, pget (MojObject.ensureObject (merge_props mergeInto obj prev dest)) k =
    or_else (merged_value (pget obj k) (pget prev k)) (pget (MojObject.ensureObject dest) k).
Proof.
  revert prev dest. induction obj as [|o obj IHo]; intros prev; (induction prev as [|p prev IHp]; intros dest So Sp Sd).
  - done.
  - pose proof Sp as [_ Sp']%MojRbTreeBase.sorted_cons. destruct (IHp (MojObject.put dest p.1 p.2) So Sp' (put_smap _ _ _ Sd)) as [S E].
    split; [exact S|]. intros k. etrans; [apply E|]. rewrite oget_put by done. by apply prev_first.
  - pose proof So as [_ So']%MojRbTreeBase.sorted_cons. destruct (IHo [] (MojObject.put dest o.1 o.2) So' Sp (put_smap _ _ _ Sd)) as [S E].
    split; [exact S|]. intros k. etrans; [apply E|]. rewrite oget_put by done. by apply obj_first.
  - pose proof So as [_ So']%MojRbTreeBase.sorted_cons. pose proof Sp as [_ Sp']%MojRbTreeBase.sorted_cons.
    pose proof (comp_lt_gt MojStrCmp p.1 o.1) as G. simpl.
    destruct (Z.ltb_spec 0 (MojStrCmp o.1 p.1)) as [L|L]; [|destruct (Z.ltb_spec (MojStrCmp o.1 p.1) 0) as [L'|L']].
    + destruct (IHp (MojObject.put dest p.1 p.2) So Sp' (put_smap _ _ _ Sd)) as [S E]. split; [exact S|]. intros k. etrans; [apply E|].
      rewrite oget_put by done. apply prev_first; [done|]. apply (same_below p o); [done|lia].
    + destruct (IHo (p :: prev) (MojObject.put dest o.1 o.2) So' Sp (put_smap _ _ _ Sd)) as [S E]. split; [exact S|]. intros k. etrans; [apply E|].
      rewrite oget_put by done. apply obj_first; [done|]. by apply (same_below o p).
    + destruct (IHo prev (MojObject.put dest o.1 (merge_value mergeInto o.2 p.2)) So' Sp' (put_smap _ _ _ Sd)) as [S E].
      split; [exact S|]. intros k. etrans; [apply E|]. rewrite oget_put by done. apply both_first; [done..|lia].
Qed.

(** ** Objects are known by their properties *)
Lemma smap_ext (a b : list (mstring * MojObject)) : smap a -> smap b -> Forall (fun n => str_ok n.1) a -> Forall (fun n => str_ok n.1) b ->
  (forall k, pget a k = pget b k) -> a = b.
Proof.
  revert b. induction a as [|x a IH]; intros [|y b] Sa Sb Fa Fb E; [done|..].
  - specialize (E y.1). rewrite pget_cons, (comp_refl MojStrCmp) in E. done.
  - specialize (E x.1). rewrite pget_cons, (comp_refl MojStrCmp) in E. done.
  - apply Forall_cons in Fa as [Fx Fa]. apply Forall_cons in Fb as [Fy Fb].
    assert (MojStrCmp x.1 y.1 = 0) as Z.
    { pose proof (E x.1) as Ex. pose proof (E y.1) as Ey. pose proof (comp_anti MojStrCmp x.1 y.1).
      destruct (Z.lt_trichotomy (MojStrCmp x.1 y.1) 0) as [L|[L|L]]; [|done|].
      - rewrite (pget_below y b x.1 Sb L), pget_cons, (comp_refl MojStrCmp) in Ex. done.
      - rewrite (pget_below x a y.1 Sa) in Ey by lia. rewrite pget_cons, (comp_refl MojStrCmp) in Ey. done. }
    pose proof (E x.1) as Ex. rewrite !pget_cons, (comp_refl MojStrCmp) in Ex. pose proof (comp_eq_sym MojStrCmp x.1 y.1) as Sy.
    rewrite (proj1 Sy Z) in Ex. simpl in Ex. apply MojStrCmp_eq in Z; [|done|done]. destruct x as [k v], y as [k' v']. simpl in *. simplify_eq.
    f_equal. pose proof Sa as [_ Sa']%MojRbTreeBase.sorted_cons. pose proof Sb as [_ Sb']%MojRbTreeBase.sorted_cons. apply IH; [done..|].
    intros j. specialize (E j). rewrite !pget_cons in E. simpl in E. destruct (Z.eqb_spec (MojStrCmp k' j) 0) as [Zj|]; [|done].
    by rewrite (pget_tail _ a j Sa Zj), (pget_tail _ b j Sb Zj).
Qed.

Lemma ok_ext a b : MojObject.ok (ObjectImpl a) -> MojObject.ok (ObjectImpl b) -> (forall k, pget a k = pget b k) -> a = b.
Proof.
  intros [Sa Fa]%MojObject.ok_object [Sb Fb]%MojObject.ok_object. apply smap_ext; [done..| |].
  - eapply Forall_impl; [exact Fa|]. naive_solver.
  - eapply Forall_impl; [exact Fb|]. naive_solver.
Qed.

(** ** Merging keeps objects well formed *)
Lemma merge_props_ok obj prev dest : MojObject.ok dest -> Forall (fun n => str_ok n.1 /\ MojObject.ok n.2) prev ->
  Forall (fun n => str_ok n.1 /\ MojObject.ok n.2 /\ forall w, MojObject.ok w -> MojObject.ok (merge_value mergeInto n.2 w)) obj ->
  MojObject.ok (merge_props mergeInto obj prev dest).
Proof.
  revert prev dest. induction obj as [|o obj IHo]; intros prev; (induction prev as [|p prev IHp]; intros dest Od Fp Fo).
  - done.
  - pose proof Fp as [[]  Fp']%Forall_cons. apply IHp; [by apply MojObject.put_ok|done..].
  - apply Forall_cons in Fo as [(? & ? & ?) Fo]. apply IHo; [by apply MojObject.put_ok|done..].
  - pose proof Fp as [[] Fp']%Forall_cons. pose proof Fo as [(? & ? & ?) Fo']%Forall_cons. simpl.
    repeat destruct (Z.ltb _ _); [apply IHp|apply IHo|apply IHo]; auto using MojObject.put_ok.
Qed.

Lemma ok_ensure o : MojObject.ok o -> smap (MojObject.ensureObject o) /\ Forall (fun n => str_ok n.1 /\ MojObject.ok n.2) (MojObject.ensureObject o).
Proof. destruct o; try (intros _; split; constructor). by rewrite MojObject.ok_object. Qed.

Lemma mergeInto_props obj dest prev : mergeInto obj dest prev = merge_props mergeInto (MojObject.ensureObject obj) (MojObject.ensureObject prev) dest.
Proof. by destruct obj. Qed.

Lemma get_pget o k : MojObject.get o k = pget (MojObject.ensureObject o) k.
Proof. by destruct o. Qed.

Lemma mergeInto_ok obj dest prev : MojObject.ok obj -> MojObject.ok dest -> MojObject.ok prev -> MojObject.ok (mergeInto obj dest prev).
Proof.
  revert dest prev. induction obj as [| | | | | |m IH|] using MojObject_nested_ind; intros dest prev Oo Od [_ Fp]%ok_ensure; try (by apply merge_props_ok).
  apply merge_props_ok; [done..|]. apply MojObject.ok_object in Oo as [_ F]. rewrite Forall_forall in *. intros n Hn.
  destruct (F n Hn) as [K V]. split; [done|]. split; [done|]. intros w Ow. unfold merge_value.
  destruct n as [k v]. simpl in *. destruct v; try done. destruct w; try done. apply (IH _ Hn); [done| |done]. apply MojObject.ok_object. split; constructor.
Qed.

Lemma mergeInto_get obj dest prev k : MojObject.ok obj -> MojObject.ok prev -> smap (MojObject.ensureObject dest) ->
  pget (MojObject.ensureObject (mergeInto obj dest prev)) k =
    or_else (merged_value (MojObject.get obj k) (MojObject.get prev k)) (pget (MojObject.ensureObject dest) k).
Proof.
  intros [So _]%ok_ensure [Sp _]%ok_ensure Sd. rewrite mergeInto_props, !get_pget. by apply merge_props_get.
Qed.

Lemma merge_props_object obj prev d : exists m, merge_props mergeInto obj prev (ObjectImpl d) = ObjectImpl m.
Proof.
  revert prev d. induction obj as [|o obj IHo]; intros prev; (induction prev as [|p prev IHp]; intros d); [by eexists| |..].
  - apply IHp.
  - apply IHo.
  - simpl. repeat destruct (Z.ltb _ _); [apply IHp|apply IHo|apply IHo].
Qed.

Lemma mergeInto_object obj prev d : exists m, mergeInto obj (ObjectImpl d) prev = ObjectImpl m.
Proof. rewrite mergeInto_props. apply merge_props_object. Qed.

Abbreviation merge := (fun obj prev => mergeInto obj (ObjectImpl []) prev).

Lemma empty_ok : MojObject.ok (ObjectImpl []).
Proof. apply MojObject.ok_object. split; constructor. Qed.

Lemma merge_get obj prev k : MojObject.ok obj -> MojObject.ok prev ->
  MojObject.get (merge obj prev) k = merged_value (MojObject.get obj k) (MojObject.get prev k).
Proof.
  intros Oo Op. pose proof (mergeInto_get obj (ObjectImpl []) prev k Oo Op ltac:(constructor)) as E.
  destruct (mergeInto_object obj prev []) as [m Em]. rewrite Em in *. simpl in *. rewrite E. by destruct (merged_value _ _).
Qed.

Lemma merge_ext obj prev m : MojObject.ok obj -> MojObject.ok prev -> MojObject.ok (ObjectImpl m) ->
  (forall k, merged_value (MojObject.get obj k) (MojObject.get prev k) = pget m k) -> merge obj prev = ObjectImpl m.
Proof.
  intros Oo Op Om E. pose proof (mergeInto_ok obj (ObjectImpl []) prev Oo empty_ok Op) as O1.
  pose proof (fun k => merge_get obj prev k Oo Op) as G. destruct (mergeInto_object obj prev []) as [m' Em]. simpl in *. rewrite Em in *.
  f_equal. apply ok_ext; [done..|]. intros k. simpl in G. by rewrite G.
Qed.

(** ** Merging again changes nothing *)
Lemma pget_in (m : list (mstring * MojObject)) k v : pget m k = Some v -> exists n, n ∈ m /\ n.2 = v.
Proof.
  unfold MojMap.get. destruct (MojRbTreeBase.find _ _ _ _) as [n|] eqn:F; [|done]. intros [= <-].
  apply MojRbTreeBase.find_Some in F as [F _]. by exists n.
Qed.

Lemma merge_self m : MojObject.ok (ObjectImpl m) -> merge (ObjectImpl m) (ObjectImpl m) = ObjectImpl m.
Proof.
  enough (forall o, MojObject.ok o -> forall m, o = ObjectImpl m -> merge o o = o) as H by (intros O; by apply (H (ObjectImpl m) O m)).
  clear m. intros o. induction o as [| | | | | |m IH|] using MojObject_nested_ind; intros O m' E; try done. injection E as ->.
  apply merge_ext; [done..|]. intros k. simpl. destruct (pget m' k) as [v|] eqn:G; [|done]. simpl. f_equal.
  destruct (pget_in m' k v G) as (n & Hn & <-). rewrite Forall_forall in IH. pose proof (MojObject.get_ok _ _ _ O G) as Ov.
  destruct n as [k' v]. simpl in *. destruct v; try done. simpl. by apply (IH _ Hn Ov _ eq_refl).
Qed.

Lemma merge_value_self a : MojObject.ok a -> merge_value mergeInto a a = a.
Proof. intros O. destruct a; try done. by apply merge_self. Qed.

Lemma merge_again_step obj prev : MojObject.ok obj -> MojObject.ok prev ->
  (forall k a w, MojObject.get obj k = Some a -> MojObject.get prev k = Some w ->
     merge_value mergeInto a (merge_value mergeInto a w) = merge_value mergeInto a w) ->
  merge obj (merge obj prev) = merge obj prev.
Proof.
  intros Oo Op H. pose proof (mergeInto_ok _ (ObjectImpl []) _ Oo empty_ok Op) as O1. pose proof (fun k => merge_get _ _ k Oo Op) as G.
  destruct (mergeInto_object obj prev []) as [m1 E1]. cbv beta in *. rewrite E1 in *. apply merge_ext; [done..|].
  intros k. specialize (G k). specialize (H k). simpl in G. cbn [MojObject.get]. rewrite G.
  destruct (MojObject.get obj k) as [a|] eqn:Ga; [|by destruct (MojObject.get prev k)].
  destruct (MojObject.get prev k) as [w|]; simpl; f_equal; [by apply H|].
  apply merge_value_self. by eapply MojObject.get_ok.
Qed.

Lemma merge_again obj prev : MojObject.ok obj -> MojObject.ok prev -> merge obj (merge obj prev) = merge obj prev.
Proof.
  revert prev. induction obj as [| | | | | |m IH|] using MojObject_nested_ind; intros prev Oo Op; apply merge_again_step; try done.
  intros k a w Ga Gw. destruct a; try done. destruct w; simpl; try (apply merge_self; by apply (MojObject.get_ok _ _ _ Oo Ga)).
  destruct (pget_in m k _ Ga) as (n & Hn & En). rewrite Forall_forall in IH. specialize (IH n Hn). rewrite En in IH.
  specialize (IH (ObjectImpl m_props0) (MojObject.get_ok _ _ _ Oo Ga) (MojObject.get_ok _ _ _ Op Gw)). simpl in IH.
  destruct (merge_props_object m_props m_props0 []) as [m2 E2]. by rewrite E2 in *.
Qed.

(** The code merges into an object that is undefined until a property is put. *)
Lemma merge_undefined obj prev : MojObject.ensureObject obj <> [] \/ MojObject.ensureObject prev <> [] ->
  mergeInto obj UndefinedImpl prev = merge obj prev.
Proof.
  cbv beta. rewrite !mergeInto_props. destruct (MojObject.ensureObject obj) as [|o l], (MojObject.ensureObject prev) as [|p l']; try done; by intros [|].
Qed.

(** C33: A merge keeps objects well formed; it has the new value of each property, or both values merged when both are objects, or else the old one; merging the same properties again changes nothing, and merging none gives back the old object. *)
Theorem merge_exact obj prev : MojObject.ok obj -> MojObject.ok prev -> MojObject.ensureObject prev <> [] ->
  MojObject.ok (mergeInto obj UndefinedImpl prev) /\
  (forall k, MojObject.get (mergeInto obj UndefinedImpl prev) k = merged_value (MojObject.get obj k) (MojObject.get prev k)) /\
  mergeInto obj UndefinedImpl (mergeInto obj UndefinedImpl prev) = mergeInto obj UndefinedImpl prev /\
  (MojObject.ensureObject obj = [] -> mergeInto obj UndefinedImpl prev = prev).
Proof.
  intros Oo Op N. rewrite (merge_undefined obj prev) by (by right). split; [apply mergeInto_ok; [done|apply empty_ok|done]|].
  split; [intros k; by apply merge_get|]. split.
  - rewrite merge_undefined; [by apply merge_again|]. destruct (MojObject.ensureObject obj) eqn:Eo; [|by left]. right.
    destruct prev as [| |[|n m]| | | | |]; try done. intros Em. pose proof (merge_get obj (ObjectImpl (n :: m)) n.1 Oo Op) as G.
    rewrite !get_pget, Em, Eo in G. simpl in G. rewrite pget_cons, (comp_refl MojStrCmp) in G. done.
  - intros Eo. destruct prev as [| |m| | | | |]; try done. apply merge_ext; [done..|]. intros k. rewrite get_pget, Eo. simpl.
    by destruct (pget m k).
Qed.

Module MergeExample.
Definition object (props : list (string * MojObject)) : MojObject :=
  fold_left (fun o p => MojObject.put o (_T p.1) p.2) props (ObjectImpl []).

(** A name changed inside an address. *)
Definition old := object [("a", object [("city", StringImpl (_T "Ulm")); ("zip", IntImpl 1)]); ("b", IntImpl 2)]%string.
Definition new := object [("a", object [("city", StringImpl (_T "Bonn"))]); ("c", NullImpl)]%string.

Definition name_ok (s : string) : bool := forallb (fun c => (0 <? c) && (c <? 256)) (_T s).

Lemma name_ok_str s : name_ok s = true -> str_ok (_T s).
Proof. intros H. apply Forall_forall. intros c Hc. unfold name_ok in H. rewrite forallb_forall in H. apply list_elem_of_In, H in Hc. lia. Qed.

Lemma object_ok props : Forall (fun p => name_ok p.1 = true /\ MojObject.ok p.2) props -> MojObject.ok (object props).
Proof.
  intros F. unfold object. assert (MojObject.ok (ObjectImpl [])) as O by apply empty_ok. revert O. generalize (ObjectImpl []).
  induction F as [|p props [N V] _ IH]; intros o O; [done|]. simpl. apply IH. apply MojObject.put_ok; [done|by apply name_ok_str|done].
Qed.

Lemma example_ok : MojObject.ok old /\ MojObject.ok new.
Proof.
  split; apply object_ok; repeat constructor; try apply object_ok; repeat constructor; try (by apply name_ok_str); unfold in_int; simpl; lia.
Qed.

Lemma merge_exact_witness : mergeInto new UndefinedImpl (mergeInto new UndefinedImpl old) = mergeInto new UndefinedImpl old /\
  mergeInto new UndefinedImpl old =
    object [("a", object [("city", StringImpl (_T "Bonn")); ("zip", IntImpl 1)]); ("b", IntImpl 2); ("c", NullImpl)]%string.
Proof.
  split; [|by vm_compute]. destruct example_ok as [Oo On]. by apply (merge_exact new old On Oo).
Defined.
End MergeExample.
