(* ===== verification/Db.v ===== *)
(** * The database object: src/src/db/MojDb.cpp

    Putting, getting and deleting objects by id: the revision that guards an update, the
    ids that are given out, and the order in which an object goes to its kind, to its
    indexes and to the object database.  The transaction is that of the request. *)

From stdpp Require Import gmap.
From S2P Require Import Prelude Containers CoreUtil Number Object ObjectBuilder DataSerialization TokenSet ObjectSerialization Text DbKey Json JsonRoundTrip DbQuery QueryPlan ObjectItem Effects StorageTxn Watcher Extractor Index Storage KindGraph Schema Permission Quota Req Kind KindEngine Merge.

Module MojDb.
Import MojDbReq (MojDbReq).
Import MojDbKindEngine (MojDbKindEngine, m_kindsAt, getKind, getKind_obj).
Import MojDbLevelItem (MojDbLevelItem).

Definition SyncKey := _T "_sync".
Definition IgnoreIdKey := _T "_ignoreId".
Definition DbStateObjId := _T "_internal/dbstate".
Definition KindIdPrefix := _T "_kinds/".
Definition QuotaIdPrefix := _T "_quotas/".
Definition PermissionIdPrefix := _T "_permissions/".

(** [MojDbFlags]. *)
Definition MojDbFlagNone : Z := 0.
Definition MojDbFlagForce : Z := 1.
Definition MojDbFlagMerge : Z := 2.
Definition MojDbFlagPurge : Z := 4.
Definition MojDbFlagIgnoreMissing : Z := 8.
Definition MojFlagGet (flags mask : Z) : bool := Z.land flags mask =? mask.

(** The number in hexadecimal, as [%llx] prints it. *)
Fixpoint hex_loop (fuel : nat) (n : Z) (out : mstring) : mstring :=
  match fuel with
  | O => out
  | S fuel' =>
      let out := nth (Z.to_nat (n mod 16)) (_T "0123456789abcdef") 0 :: out in
      if n / 16 =? 0 then out else hex_loop fuel' (n / 16) out
  end.
Definition format_llx (n : Z) : mstring := hex_loop 16 (to_uint 64 n) [].

(** An id longer than the id of a shard allows is refused, but for the internal ones; a
    short one gets the shard in front. *)
Definition attachShardId (shardId : mstring) (id : MojObject) : res MojObject :=
  let? idStr := MojObjectString.stringValue id in
  if MojString.startsWith idStr KindIdPrefix || MojString.startsWith idStr DbStateObjId ||
     MojString.startsWith idStr QuotaIdPrefix || MojString.startsWith idStr PermissionIdPrefix
  then Ok id
  else if (16 <? length idStr)%nat || (0 <? MojStrCmp idStr (_T "zzzzzzzzzzzzzzzz")) then Err MojErrDbMalformedId
  else
    match shardId with
    | [] => Ok id
    | _ =>
        if (length idStr <=? 11)%nat && (MojStrCmp idStr (_T "zzzzzzzzzzw") <=? 0) then
          let? idByteVec := MojString.base64Decode idStr in
          let? byteVec := MojString.base64Decode shardId in
          let? idStr := MojString.base64Encode (byteVec ++ idByteVec) false in
          Ok (StringImpl idStr)
        else Ok id
    end.

Section db.
Context `{ICU} `{!MojSchema.Regex} {I T Q W : Type} `{!ExtIndex I T} `{!StorageDatabase T} `{!StorageSeq Q}.
Context `{!MojSharedTokenSet.MojSharedTokenSet W}.
(** The kind engine, the handle of the object database, and the configuration. *)
Context (e : MojDbKindEngine) (m_objDb : Z) (m_enablePurge : bool).

(** What a request changes: the indexes and its transaction, the token tables of the
    kinds, the sequence of revisions, and itself. *)
Record Db := {
  d_world : @MojDbKind.World _ I T;
  d_states : gmap Z W;
  d_idSeq : Q;
  d_req : MojDbReq
}.

Definition with_world (d : Db) w : Db := {| d_world := w; d_states := d_states d; d_idSeq := d_idSeq d; d_req := d_req d |}.
Definition with_states (d : Db) s : Db := {| d_world := d_world d; d_states := s; d_idSeq := d_idSeq d; d_req := d_req d |}.
Definition with_seq (d : Db) q : Db := {| d_world := d_world d; d_states := d_states d; d_idSeq := q; d_req := d_req d |}.
Definition with_req (d : Db) r : Db := {| d_world := d_world d; d_states := d_states d; d_idSeq := d_idSeq d; d_req := r |}.

Definition on_txn {A} (m : st T A) : st Db A := fun d =>
  let '(t, r) := m (MojDbKind.w_txn (d_world d)) in (with_world d (MojDbKind.with_txn (d_world d) t), r).
Definition on_seq {A} (m : st Q A) : st Db A := fun d => let '(q, r) := m (d_idSeq d) in (with_seq d q, r).

#[local] Instance kind_tokens : KindTokens := MojDbKindEngine.tokens e.

Definition nextId : st Db Z := on_seq seq_get.

(** ** Ids of sub-objects

    An object in an array gets an id if it has none.  The new property is put in after
    the walk of the others, which it does not take part in. *)
Section ids.
Context (assignIds : MojObject -> st Q MojObject).

Fixpoint each_element (vec : list MojObject) : st Q (list MojObject) :=
  match vec with
  | [] => ret []
  | x :: vec' =>
      let! x :=
        match x with
        | ObjectImpl _ =>
            if MojObject.contains x IdKey then assignIds x
            else
              let! id := seq_get in
              let! x := assignIds x in
              ret (MojObject.putString x IdKey (format_llx id))
        | _ => ret x
        end in
      let! vec' := each_element vec' in ret (x :: vec')
  end.

Fixpoint each_prop (props : list (mstring * MojObject)) : st Q (list (mstring * MojObject)) :=
  match props with
  | [] => ret []
  | (key, value) :: props' =>
      let! value :=
        match value with
        | ArrayImpl vec => let! vec := each_element vec in ret (ArrayImpl vec)
        | ObjectImpl _ => assignIds value
        | _ => ret value
        end in
      let! props' := each_prop props' in ret ((key, value) :: props')
  end.
End ids.

Fixpoint assignIds (obj : MojObject) : st Q MojObject :=
  match obj with
  | ObjectImpl props => let! props := each_prop assignIds props in ret (ObjectImpl props)
  | _ => ret obj
  end.

(** ** Items *)
Definition toObject (d : Db) (item : MojDbLevelItem) : res MojObject :=
  MojDbLevelItem.toObject (MojDbKindEngine.tokenVec e (d_states d)) item.

(** [MojDbKindEngine::update], and the token set of the kind. *)
Definition kind_update (newObj oldObj : option MojObject) (op : MojDbOp) (checkSchema : bool) : st Db (option MojObject * Z) :=
  let! d := get in
  let! r := lift (MojDbKindEngine.update e (d_world d) newObj oldObj (d_req d) op checkSchema) in
  let '(newObj, kind, w) := r in
  let! _ := modify (fun d => with_world d w) in
  ret (newObj, kind).

(** The object, but for what the header has, as bytes; names may get tokens. *)
Definition serialize_obj (putId obj : MojObject) (kind : Z) (shardIdStr : mstring) : st Db bytes :=
  let! d := get in
  let! tokenSet := lift (MojDbKindEngine.kind_tokenSet (d_states d) kind) in
  let! out := lift (serialize putId obj tokenSet shardIdStr) in
  let! _ := modify (fun d => with_states d (<[kind := MojTokenSet.m_sharedTokenSet out.2]> (d_states d))) in
  ret out.1.

(** ** Putting

    [clock] is the time and the random number of a new id. *)
Definition putObj (clock : Z * Z) (id obj : MojObject) (oldObj : option MojObject) (oldItem : option MojDbLevelItem)
    (op : MojDbOp) (checkSchema : bool) (shardIdStr : mstring) : st Db MojObject :=
  if match oldObj with Some oldObj => MojObject.equals obj oldObj | None => false end then ret obj
  else
    let! rev := nextId in
    let obj := MojObject.putInt obj RevKey rev in
    let! p :=
      match id with
      | UndefinedImpl =>
          let! putId := lift (MojDbIdGenerator.id_str clock.1 clock.2 shardIdStr) in
          ret (putId, MojObject.put obj IdKey putId)
      | _ => ret (id, obj)
      end in
    let '(putId, obj) := p in
    let! kindName := lift (MojObjectString.get_string obj KindKey) in
    match kindName with
    | None => throw MojErrDbKindNotSpecified
    | Some kindName =>
        let! kind := lift (getKind_obj e obj) in
        let! kind := lift (MojDbKind.kind_at (m_kindsAt e) kind) in
        let! obj :=
          if negb (MojString.startsWith kindName MojDbKindEngine.KindKindIdPrefix) && MojDbKind.m_assignId kind
          then on_seq (assignIds obj) else ret obj in
        let! updated := kind_update (Some obj) oldObj op checkSchema in
        match updated.1 with
        | None => throw AssertFailed (* an update keeps the object *)
        | Some obj =>
            let! header := lift (MojDbObjectHeader.extractFrom (MojDbObjectHeader.init putId) obj) in
            let! buf := serialize_obj putId obj updated.2 shardIdStr in
            let! _ := lift (MojDbIdGenerator.extractShard putId) in
            let! _ := on_txn (db_put m_objDb putId buf (option_map MojDbLevelItem.m_slice oldItem)) in
            ret (MojDbObjectHeader.addTo header.1 header.2)
        end
    end.

(** The object as it is to be put, or a refusal: with the force flag anything goes; else
    the revision must be that of a previous version, and may be left out only when that
    one is deleted. *)
Definition check_prev (flags : Z) (obj prev : MojObject) : res MojObject :=
  let? obj :=
    if MojFlagGet flags MojDbFlagMerge then Ok (Merge.mergeInto obj UndefinedImpl prev)
    else if negb (MojFlagGet flags MojDbFlagForce) then
      match MojObject.get_int obj RevKey with
      | None =>
          if match MojObject.get_bool prev DelKey with Some deleted => deleted | None => false end then Ok obj
          else Err MojErrDbRevNotSpecified
      | Some _ => Ok obj
      end
    else Ok obj in
  match MojObject.get_int obj RevKey with
  | Some newRev =>
      let? oldRev := MojObject.getRequiredT (MojObject.get_int prev RevKey) in
      if negb (MojFlagGet flags MojDbFlagForce) && negb (newRev =? oldRev) then Err MojErrDbRevisionMismatch else Ok obj
  | None => Ok obj
  end.

Definition putImpl (clock : Z * Z) (obj : MojObject) (flags : Z) (checkSchema : bool) (shardIdStr : mstring) : st Db MojObject :=
  let! found :=
    match MojObject.get obj IdKey with
    | Some id =>
        let! id := if flags =? MojDbFlagNone then lift (attachShardId shardIdStr id) else ret id in
        let! _ := lift (MojDbIdGenerator.extractShard id) in
        let! prevItem := on_txn (db_get m_objDb id) in
        ret (id, prevItem)
    | None => ret (UndefinedImpl, None)
    end in
  let '(id, prevItem) := found in
  match prevItem with
  | None =>
      if MojFlagGet flags MojDbFlagIgnoreMissing && MojFlagGet flags MojDbFlagMerge then ret (MojObject.putBool obj IgnoreIdKey true)
      else putObj clock id obj None None OpCreate checkSchema shardIdStr
  | Some item =>
      let! d := get in
      let! prev := lift (toObject d item) in
      let! obj := lift (check_prev flags obj prev) in
      putObj clock id obj (Some prev) (Some item) OpUpdate checkSchema shardIdStr
  end.

(** ** Deleting *)
(** The object that takes the place of the deleted one, or its id when it is purged. *)
Definition delObj (clock : Z * Z) (id obj : MojObject) (item : MojDbLevelItem) (foundObjOut : MojObject) (flags : Z) : st Db MojObject :=
  let! _ := lift (MojDbIdGenerator.extractShard id) in
  let flags := if m_enablePurge then flags else Z.lor flags MojDbFlagPurge in
  if MojFlagGet flags MojDbFlagPurge then
    let! _ := modify (fun d => with_req d (MojDbReq.fixmode (d_req d) true)) in
    let! _ := kind_update None (Some obj) OpDelete true in
    let! found := on_txn (db_del m_objDb id) in
    if found : bool then
      let! d := get in
      let! b := lift (MojDbStorageTxn.offsetQuota (MojDbKind.k_quotas (m_kindsAt e)) (txn_base (MojDbKind.w_txn (d_world d)))
                        (- Z.of_nat (length (MojDbLevelItem.m_slice item)))) in
      let! _ := on_txn (modify (fun t => with_txn_base t b)) in
      ret (MojObject.put foundObjOut IdKey id)
    else throw MojErrDbCorruptDatabase
  else putObj clock id (MojObject.putBool obj DelKey true) (Some obj) (Some item) OpDelete true [].

(** The object deleted, if there is one. *)
Definition delImpl (clock : Z * Z) (id : MojObject) (flags : Z) : st Db (option MojObject) :=
  let! _ := lift (MojDbIdGenerator.extractShard id) in
  let! item := on_txn (db_get m_objDb id) in
  match item with
  | None => ret None
  | Some item =>
      let! d := get in
      let! obj := lift (toObject d item) in
      let! deleted := delObj clock id obj item UndefinedImpl flags in
      ret (Some deleted)
  end.

(** ** Getting *)
Definition getImpl {V} `{Visitor V} (id : MojObject) (visitor : V) (op : MojDbOp) : st Db V :=
  let! _ := lift (MojDbIdGenerator.extractShard id) in
  let! item := on_txn (db_get m_objDb id) in
  match item with
  | None => ret visitor
  | Some item =>
      let! d := get in
      let! read := lift (MojDbLevelItem.kindId item) in
      let! _ := lift (MojDbKindEngine.checkPermission e read.2 op (d_req d)) in
      lift (MojDbLevelItem.visit (MojDbKindEngine.tokenVec e (d_states d)) read.1 visitor true)
  end.

(** Whether a stored kind is the same but for the properties of the database. *)
Definition checkSameKind (obj : MojObject) (idStr : mstring) : st Db bool :=
  match MojObject.get obj IdKey with
  | None => ret false
  | Some id =>
      match getKind e idStr with
      | Err _ => ret false
      | Ok _ =>
          let! prevItem := on_txn (db_get m_objDb id) in
          match prevItem with
          | None => ret false
          | Some item =>
              let! d := get in
              let! prev := lift (toObject d item) in
              if match MojObject.get prev DelKey with Some delValue => MojObject.boolValue delValue | None => false end then ret false
              else
                let strip o := fold_left (fun o key => (MojObject.del o key).1) [DelKey; IdKey; RevKey; SyncKey] o in
                ret (MojObject.equals (strip obj) (strip prev))
          end
      end
  end.

(** ** State of the database *)
Definition getState (key : mstring) : st Db (option MojObject) :=
  let! item := on_txn (db_get m_objDb (StringImpl DbStateObjId)) in
  match item with
  | None => ret None
  | Some item =>
      let! d := get in
      let! obj := lift (toObject d item) in
      ret (MojObject.get obj key)
  end.

Definition updateState (clock : Z * Z) (key : mstring) (val : MojObject) : st Db unit :=
  let obj := MojObject.putString UndefinedImpl IdKey DbStateObjId in
  let obj := MojObject.putString obj KindKey MojDbKindEngine.DbStateId in
  let! _ := putImpl clock (MojObject.put obj key val) MojDbFlagMerge true [] in ret tt.
End db.
End MojDb.
