(* ===== verification/DbSpec.v ===== *)
(** * The database keeps its objects and its indexes together

    [db_ok]: the object database has a record of each object, and every index of every
    kind the keys of the objects of that kind.  Putting an object keeps it
    ([putImpl_keeps]), whatever the previous version and the flags. *)

From stdpp Require Import gmap relations.
From S2P Require Import Prelude Containers CoreUtil Number Object ObjectBuilder DataSerialization TokenSet ObjectSerialization Text DbKey Json JsonRoundTrip DbQuery DbQueryRoundTrip QueryPlan QueryPlanSpec QueryPlanSelect ObjectItem ObjectItemSpec Effects StorageTxn Watcher Extractor ExtractorSpec Index IndexSpec LevelIndex Storage KindGraph KindGraphSpec Schema Permission Quota Req Kind KindSpec KindEngine Merge Db.

Import QueryPlanSpec (well).
Import RecordSpec (record_ok, keys_ok).

(** ** Counting what is drawn from a sequence *)
Section counts.
Context {Q : Type} `{StorageSeqLaws Q}.

(** [m] draws [n] numbers at most, and what it returns satisfies [P]. *)
Definition counts {A} (n : nat) (m : st Q A) (P : A -> Prop) : Prop := forall q, seq_ok q -> seq_pos q + Z.of_nat n < 2 ^ 63 ->
  match m q with
  | (q', r) => seq_ok q' /\ seq_pos q <= seq_pos q' <= seq_pos q + Z.of_nat n /\ match r with Ok a => P a | Err _ => True end
  end.

Lemma counts_ret {A} n (a : A) (P : A -> Prop) : P a -> counts n (ret a) P.
Proof. intros Pa q O L. simpl. split; [done|]. split; [lia|done]. Qed.

Lemma counts_get : counts 1 seq_get (fun _ => True).
Proof.
  intros q O L. destruct (seq_get q) as [q' r] eqn:E. destruct (seq_law q q' r O E) as [O' [P _]]; [lia|].
  split; [done|]. split; [lia|by destruct r].
Qed.

Lemma counts_bind {A B} n n' (m : st Q A) (f : A -> st Q B) (P : A -> Prop) (R : B -> Prop) :
  counts n m P -> (forall a, P a -> counts n' (f a) R) -> counts (n + n') (bind m f) R.
Proof.
  intros M F q O L. specialize (M q O ltac:(lia)). unfold bind. destruct (m q) as [q1 [a|e]]; [|split; [tauto|]; split; [lia|done]].
  destruct M as (O1 & B1 & Pa). specialize (F a Pa q1 O1 ltac:(lia)). destruct (f a q1) as [q2 r]. split; [tauto|]. split; [lia|tauto].
Qed.

Lemma counts_map {A B} n (m : st Q A) (f : A -> B) (P : A -> Prop) (R : B -> Prop) :
  counts n m P -> (forall a, P a -> R (f a)) -> counts n (let! a := m in ret (f a)) R.
Proof.
  intros M F. rewrite <- (Nat.add_0_r n). eapply counts_bind; [exact M|]. intros a Pa. by apply counts_ret, F.
Qed.

Lemma counts_weaken {A} n n' (m : st Q A) (P R : A -> Prop) : (n <= n')%nat -> (forall a, P a -> R a) -> counts n m P -> counts n' m R.
Proof.
  intros L F M q O B. specialize (M q O ltac:(lia)). destruct (m q) as [q' r]. destruct M as (O' & B' & Pr). split; [done|]. split; [lia|].
  destruct r; [by apply F|done].
Qed.
End counts.

(** ** The ids of sub-objects *)
Definition scalar (o : MojObject) : Prop := match o with ObjectImpl _ | ArrayImpl _ => False | _ => True end.

(** How many values there are in an object. *)
Fixpoint values (o : MojObject) : nat :=
  match o with
  | ObjectImpl m => S (fold_right (fun kv n => (values kv.2 + n)%nat) 0%nat m)
  | ArrayImpl v => S (fold_right (fun x n => (values x + n)%nat) 0%nat v)
  | _ => 1%nat
  end.

(** What giving ids leaves of a value, and of the properties of an object. *)
Record grown (o o' : MojObject) : Prop := {
  as_ok : MojObject.ok o -> MojObject.ok o';
  as_defined : MojObjectBuilder.defined o -> MojObjectBuilder.defined o';
  as_scalar : scalar o -> o' = o
}.

Definition same_plain (o o' : MojObject) : Prop := forall k,
  match MojObject.get o k with
  | None => MojObject.get o' k = None
  | Some v => exists v', MojObject.get o' k = Some v' /\ (scalar v -> v' = v)
  end.

Lemma grown_refl o : grown o o.
Proof. by split. Qed.

Lemma same_plain_refl o : same_plain o o.
Proof. intros k. destruct (MojObject.get o k) as [v|]; [by exists v|done]. Qed.

Lemma format_llx_ok n : str_ok (MojDb.format_llx n).
Proof.
  unfold MojDb.format_llx. assert (str_ok ([] : mstring)) as S by constructor. revert S. generalize ([] : mstring), (to_uint 64 n). generalize 16%nat.
  intros fuel. induction fuel as [|fuel IH]; intros s z S; [done|]; cbn [MojDb.hex_loop].
  assert (str_ok (nth (Z.to_nat (z mod 16)) (_T "0123456789abcdef") 0 :: s)) as S'.
  { constructor; [|done]. assert (0 <= z mod 16 < 16) as B by (apply Z.mod_pos_bound; lia).
    assert (Forall (fun i => 0 < nth i (_T "0123456789abcdef") 0 < 256) (seq 0 16)) as F by (repeat (constructor; [done|]); constructor).
    rewrite Forall_forall in F. apply F, elem_of_seq; lia. }
  destruct (_ =? 0); [done|by apply IH].
Qed.

(** Two lists of properties with the same names. *)
Definition same_props (m m' : list (mstring * MojObject)) : Prop := Forall2 (fun x y => y.1 = x.1 /\ grown x.2 y.2) m m'.

Lemma same_props_get m m' k : same_props m m' ->
  match MojMap.get MojStrCmp m k with
  | None => MojMap.get MojStrCmp m' k = None
  | Some v => exists v', MojMap.get MojStrCmp m' k = Some v' /\ grown v v'
  end.
Proof.
  unfold MojMap.get, MojRbTreeBase.find. induction 1 as [|x y m m' [E A] _ IH]; simpl; [done|]. rewrite E. destruct (MojStrCmp x.1 k =? 0); [by exists y.2|exact IH].
Qed.

Lemma same_props_object m m' : same_props m m' -> grown (ObjectImpl m) (ObjectImpl m') /\ same_plain (ObjectImpl m) (ObjectImpl m').
Proof.
  intros S. split; [split|].
  - intros [Sm F]%MojObject.ok_object. apply MojObject.ok_object. split.
    + clear F. assert (map fst m' = map fst m) as E. { induction S as [|x y m m' [E _] _ IH]; [done|]. simpl. inversion Sm; subst. by rewrite E, IH. }
      unfold MojRbTreeBase.sorted in *. revert m' E S. induction Sm as [|x m Sm IH Fx]; intros m' E S; inversion S as [|? y ? m2 [Ey _] S2]; subst; constructor.
      * simpl in E. injection E as _ E. by apply IH.
      * simpl in E. injection E as _ E. clear -Fx Ey E. revert m2 E. induction Fx as [|z m L _ IH]; intros [|w m2] E; simpl in E; try done; constructor.
        -- injection E as E _. unfold MojRbTreeBase.node_lt in *. by rewrite Ey, E.
        -- injection E as _ E. by apply IH.
    + clear Sm. induction S as [|x y m m' [E A] _ IH]; [done|]. apply Forall_cons in F as [[K O] F]. constructor; [|by apply IH]. rewrite E. split; [done|by apply A].
  - intros D%MojObjectBuilder.defined_object. apply MojObjectBuilder.defined_object. induction S as [|x y m m' [E A] _ IH]; [done|].
    apply Forall_cons in D as [Dx D]. constructor; [by apply A|by apply IH].
  - done.
  - intros k. simpl. pose proof (same_props_get m m' k S) as G. destruct (MojMap.get MojStrCmp m k) as [v|]; [|done].
    destruct G as (v' & G & A). exists v'. split; [done|]. apply A.
Qed.

Lemma same_elements vec vec' : Forall2 grown vec vec' -> grown (ArrayImpl vec) (ArrayImpl vec').
Proof.
  intros S. split; [| |done].
  - intros F%MojObject.ok_array. apply MojObject.ok_array. induction S as [|x y v v' A _ IH]; [done|]. apply Forall_cons in F as [O F]. constructor; [by apply A|by apply IH].
  - intros F%MojObjectBuilder.defined_array. apply MojObjectBuilder.defined_array. induction S as [|x y v v' A _ IH]; [done|]. apply Forall_cons in F as [O F]. constructor; [by apply A|by apply IH].
Qed.

Section ids.
Context {Q : Type} `{StorageSeqLaws Q}.

Definition gives_ids (o : MojObject) : Prop :=
  counts (pred (values o)) (MojDb.assignIds o) (fun o' => grown o o' /\ same_plain o o').

(** Each element of an array draws a number for itself, at most. *)
Lemma element_ids vec : Forall gives_ids vec ->
  counts (fold_right (fun x n => (values x + n)%nat) 0%nat vec) (MojDb.each_element MojDb.assignIds vec) (Forall2 grown vec).
Proof.
  induction 1 as [|x vec G _ IH]; [apply counts_ret; constructor|]. cbn [MojDb.each_element fold_right].
  apply counts_bind with (P := grown x).
  - destruct x as [| |m| | | | |]; try (apply counts_ret, grown_refl). unfold gives_ids in G.
    destruct (MojObject.contains (ObjectImpl m) IdKey); [by eapply counts_weaken; [..|exact G]; [simpl; lia|by intros ? []]|].
    apply (counts_weaken (1 + pred (values (ObjectImpl m))) _ _ (grown (ObjectImpl m))); [simpl; lia|done|].
    eapply counts_bind; [apply counts_get|]. intros id _. eapply counts_map; [exact G|]. intros o' [[Go Gd _] _].
    split; [|intros D; apply put_defined; [by apply Gd|done]|done].
    intros O. apply MojObject.put_ok; [by apply Go|apply keys_ok|apply format_llx_ok].
  - intros x' Gx. eapply counts_map; [exact IH|]. intros vec' Gv. by constructor.
Qed.

Lemma prop_ids m : Forall (fun kv => gives_ids kv.2 /\ match kv.2 with ArrayImpl vec => Forall gives_ids vec | _ => True end) m ->
  counts (fold_right (fun kv n => (values kv.2 + n)%nat) 0%nat m) (MojDb.each_prop MojDb.assignIds m) (same_props m).
Proof.
  induction 1 as [|[k v] m [G Ga] _ IH]; [apply counts_ret; constructor|]. cbn [MojDb.each_prop fold_right]. simpl in G, Ga.
  apply counts_bind with (P := grown v).
  - destruct v as [| |m2|vec| | | |]; try (apply counts_ret, grown_refl).
    + eapply counts_weaken; [..|exact G]; [simpl; lia|by intros ? []].
    + eapply counts_weaken; [| |eapply counts_map; [by apply element_ids|]]; [simpl; lia|by intros ? Ga'|].
      intros vec' Gv. by apply same_elements.
  - intros v' Gv. eapply counts_map; [exact IH|]. intros m' Gm. by constructor.
Qed.

Lemma assignIds_ok o : gives_ids o /\ match o with ArrayImpl vec => Forall gives_ids vec | _ => True end.
Proof.
  induction o as [| |s|b|r|v|m IH|v IH] using MojObject_nested_ind;
    try (split; [|done]; apply counts_ret; split; [apply grown_refl|apply same_plain_refl]).
  - split; [|done]. unfold gives_ids. cbn [MojDb.assignIds values pred].
    eapply counts_map; [by apply prop_ids|]. intros m' S. by apply same_props_object.
  - split; [apply counts_ret; split; [apply grown_refl|apply same_plain_refl]|].
    eapply Forall_impl; [exact IH|]. by intros ? [].
Qed.
End ids.

(** ** What the database holds *)
Section holds.
Context `{ICU} `{!ICULaws} `{!MojSchema.Regex} {I T : Type} `{EngineLaws I T} {Q : Type} `{StorageSeqLaws Q} {W : Type} `{SharedTokenSetLaws W}.
Context (e : MojDbKindEngine.MojDbKindEngine) (m_objDb : Z).
Import MojDb (Db, d_world, d_states, d_idSeq, d_req).
Import MojDbKind (w_txn).
Abbreviation Db := (@MojDb.Db _ I T Q W).
Abbreviation g := (MojDbKind.k_graph (MojDbKindEngine.m_kindsAt e)).
Abbreviation txn d := (w_txn (d_world d)).

(** What is asked of the kinds: a sound graph, tokens that are those of the kinds, and
    revision sets that leave the properties of the database alone. *)
Record engine_ok : Prop := {
  eo_graph : graph_ok g;
  eo_live : forall name k, MojDbKindEngine.getKind e name = Ok k -> live g k;
  eo_tokens : @KindTokensLaws (MojDbKindEngine.tokens e);
  eo_revsets : revsets_ok (MojDbKindEngine.m_kindsAt e);
  eo_db : is_db m_objDb
}.

(** The kinds an object belongs to. *)
Definition belongs (o : MojObject) (a : Z) : Prop := exists k, MojDbKindEngine.getKind_obj e o = Ok k /\ reach g k a.

(** The bytes of an object: written at some time, with the names that had tokens then. *)
Definition recorded (d : Db) (id o : MojObject) (bs : bytes) : Prop :=
  exists kindId rev del k (t t' : MojTokenSet.MojTokenSet W) shard s,
    storable o id kindId rev del /\ scalar id /\ MojDbKindEngine.getKind e kindId = Ok k /\
    sts_ok (MojTokenSet.m_sharedTokenSet t) /\ snapshot_ok (sts_vec (MojTokenSet.m_sharedTokenSet t)) (MojTokenSet.m_obj t) /\
    serialize (H := MojDbKindEngine.tokens e) id o t shard = Ok (bs, t') /\ d_states d !! k = Some s /\ sts_ok s /\
    sts_vec (MojTokenSet.m_sharedTokenSet t') `prefix_of` sts_vec s /\ rev < seq_pos (d_idSeq d).

Record db_ok (d : Db) (objs : MojObject -> Prop) : Prop := {
  db_kinds : kinds_hold (d_world d) (fun a o => objs o /\ belongs o a);
  db_records : forall id bs, well id -> holds (txn d) m_objDb id = Some bs -> exists o, objs o /\ recorded d id o bs;
  db_objects : forall o, objs o -> exists id bs, holds (txn d) m_objDb id = Some bs /\ recorded d id o bs;
  db_states : forall name k, MojDbKindEngine.getKind e name = Ok k -> exists s, d_states d !! k = Some s /\ sts_ok s;
  db_seq : seq_ok (d_idSeq d)
}.

Context (Eo : engine_ok).

Lemma getKind_storable o id kindId rev del : storable o id kindId rev del ->
  MojDbKindEngine.getKind_obj e o = MojDbKindEngine.getKind e kindId.
Proof.
  intros [[_ _ Ek _ _] _]. unfold MojDbKindEngine.getKind_obj. by rewrite (MojObjectString.get_string_string _ _ _ Ek).
Qed.

Lemma recorded_reads d id o bs : recorded d id o bs -> MojDb.toObject e d (item_of id bs) = Ok o.
Proof.
  intros (kindId & rev & del & k & t & t' & shard & s & [R D] & _ & Ek & Ot & St & Es & Ed & Os & P & _).
  pose proof (eo_tokens Eo) as L. set (K := MojDbKindEngine.tokens e) in *.
  assert (exists tok, tokenFromId kindId = Ok tok) as [tok Etok].
  { unfold serialize in Es. rewrite (RecordSpec.extractFrom_eq _ _ _ _ _ R) in Es. cbn [res_bind] in Es.
    unfold MojDbObjectHeader.write in Es. cbn [MojDbObjectHeader.m_kindId] in Es.
    destruct (tokenFromId kindId) as [tok|er]; [by exists tok|done]. }
  unfold MojDb.toObject. apply (RecordSpec.record_reads (H := K) o id kindId rev del tok t t' shard bs _ (sts_vec s)); [done..| |done].
  unfold MojDbKindEngine.tokenVec, MojDbKindEngine.tokenSet. rewrite Ek. cbn [res_bind]. unfold MojDbKindEngine.kind_tokenSet.
  rewrite Ed. cbn [res_bind]. unfold MojTokenSet.init. pose proof (sts_tokens s Os) as Ts. destruct (MojSharedTokenSet.tokenSet s). simpl in *. by rewrite Ts.
Qed.

Lemma recorded_id d id o bs : recorded d id o bs -> MojObject.get o IdKey = Some id /\ well o /\ well id /\ scalar id.
Proof.
  intros (kindId & rev & del & k & t & t' & shard & s & St & Sc & _). pose proof (storable_well _ _ _ _ _ St) as Wo.
  destruct St as [[_ Ei _ _ _] _]. split; [done|]. split; [done|]. split; [|done]. by eapply get_well.
Qed.

(** An id is that of one object, the one its record holds. *)
Lemma stored_at d objs id o : db_ok d objs -> objs o -> MojObject.get o IdKey = Some id ->
  exists bs, holds (txn d) m_objDb id = Some bs /\ recorded d id o bs.
Proof.
  intros K Ho Ei. destruct (db_objects d objs K o Ho) as (id' & bs & Eh & R). destruct (recorded_id _ _ _ _ R) as (Ei' & _).
  assert (id' = id) as -> by congruence. by exists bs.
Qed.

Lemma one_object d objs o o' : db_ok d objs -> objs o -> objs o' -> MojObject.get o IdKey = MojObject.get o' IdKey -> o = o'.
Proof.
  intros K Ho Ho' E. destruct (db_objects d objs K o Ho) as (id & bs & Eh & R). destruct (recorded_id _ _ _ _ R) as (Ei & _).
  destruct (stored_at d objs id o' K Ho') as (bs' & Eh' & R'); [congruence|].
  assert (bs' = bs) as -> by congruence. apply recorded_reads in R, R'. congruence.
Qed.

(** *** The kinds and the indexes *)
Lemma getKind_live o k : MojDbKindEngine.getKind_obj e o = Ok k -> live g k.
Proof.
  unfold MojDbKindEngine.getKind_obj. intros ([name|] & _ & E)%res_bind_ok; [|done]. by eapply (eo_live Eo).
Qed.

(** The objects of each kind after an update, as the database sees them. *)
Lemma after_put objs k out old a o :
  (forall n, out = Some n -> MojDbKindEngine.getKind_obj e n = Ok k) -> (forall p, old = Some p -> MojDbKindEngine.getKind_obj e p = Ok k) ->
  live g k ->
  objs_after (MojDbKindEngine.m_kindsAt e) k (fun a o => objs o /\ belongs o a) out old a o <->
  (out = Some o \/ (objs o /\ old <> Some o)) /\ belongs o a.
Proof.
  intros Kn Kp L. unfold objs_after, replaced. split.
  - intros [[R [->|[[Ho B] N]]]|[R [Ho B]]].
    + split; [by left|]. exists k. by rewrite (Kn o eq_refl).
    + split; [by right|done].
    + split; [|done]. right. split; [done|]. intros ->. apply R. destruct B as (k' & Ek & R'). rewrite (Kp o eq_refl) in Ek. by injection Ek as <-.
  - intros [[->|[Ho N]] B]; pose proof B as (k' & Ek & R).
    + left. rewrite (Kn o eq_refl) in Ek. injection Ek as <-. split; [done|by left].
    + assert (live g a) as La by (apply (reach_live g (eo_graph Eo) k'); [by eapply getKind_live|done]).
      destruct (reach_dec g k a (eo_graph Eo) L La) as [Rk|Rk]; [left|right]; (split; [done|]); [right|]; by split.
Qed.

(** A version that may take the place of the one with its id. *)
Lemma fits_version objs a out old : (forall n, out = Some n -> well n /\ exists id, MojObject.get n IdKey = Some id /\ scalar id /\
    forall o, objs o -> MojObject.get o IdKey = Some id -> old = Some o) ->
  (forall p, old = Some p -> objs p /\ belongs p a) ->
  (forall o o', objs o -> objs o' -> MojObject.get o IdKey = MojObject.get o' IdKey -> o = o') ->
  fits (fun o => objs o /\ belongs o a) out old.
Proof.
  intros N P U. split.
  - intros n Hn. destruct (N n Hn) as (Wn & id & Ei & Sc & _). split; [done|]. exists id. split; [done|]. by destruct id.
  - assert (forall n o, out = Some n -> objs o -> old <> Some o -> MojObject.get n IdKey <> MojObject.get o IdKey) as Ne.
    { intros n o Hn Ho No E. destruct (N n Hn) as (_ & id & Ei & _ & F). apply No, F; [done|congruence]. }
    intros o o' [Ho|[[Ho _] No]] [Ho'|[[Ho' _] No']] E; [congruence| | |by apply U].
    + by destruct (Ne o o' Ho Ho' No').
    + by destruct (Ne o' o Ho' Ho No).
  - exact P.
Qed.

Lemma engine_update d objs obj old req op cs out k w' id kindId rev del : db_ok d objs -> storable obj id kindId rev del -> scalar id ->
  (forall o, old = Some o -> objs o) -> (forall o, objs o -> MojObject.get o IdKey = Some id -> old = Some o) ->
  MojDbKindEngine.update e (d_world d) (Some obj) old req op cs = Ok (out, k, w') ->
  MojDbKindEngine.getKind e kindId = Ok k /\ exists n, out = Some n /\ storable n id kindId rev del /\
    kinds_hold w' (fun a o => (o = n \/ (objs o /\ old <> Some o)) /\ belongs o a) /\ same_records (txn d) (w_txn w').
Proof.
  intros K St Sc Hold Hid E. pose proof (fun o o' => one_object d objs o o' K) as U. unfold MojDbKindEngine.update in E.
  apply res_bind_ok in E as (oldKind & Eo' & E). apply res_bind_ok in E as (newKind & En & E).
  pose proof En as En'. rewrite (getKind_storable _ _ _ _ _ St) in En'. pose proof (getKind_live _ _ En) as Ln.
  assert (forall old1 objs1 w1 op1 out1 w2, (forall o o', objs1 o -> objs1 o' -> MojObject.get o IdKey = MojObject.get o' IdKey -> o = o') ->
    (forall o, old1 = Some o -> objs1 o /\ MojDbKindEngine.getKind_obj e o = Ok newKind) -> (forall o, objs1 o -> MojObject.get o IdKey = Some id -> old1 = Some o) ->
    kinds_hold w1 (fun a o => objs1 o /\ belongs o a) ->
    MojDbKind.update (MojDbKindEngine.m_kindsAt e) w1 newKind (Some obj) old1 op1 req cs = Ok (out1, w2) ->
    exists n, out1 = Some n /\ storable n id kindId rev del /\
      kinds_hold w2 (fun a o => (o = n \/ (objs1 o /\ old1 <> Some o)) /\ belongs o a) /\ same_records (w_txn w1) (w_txn w2)) as Put.
  { intros old1 objs1 w1 op1 out1 w2 U1 Hold1 Hid1 K1 E1. pose proof (update_ok _ _ _ _ _ _ _ _ _ _ E1) as (_ & P & _).
    destruct (prepared_storable _ _ _ _ _ _ _ _ _ (eo_revsets Eo) St P) as (n & -> & Sn). exists n. split; [done|]. split; [done|].
    pose proof (getKind_storable _ _ _ _ _ Sn) as Gn.
    destruct (update_holds_kinds _ _ _ _ _ _ _ _ _ _ _ (eo_graph Eo) Ln K1 E1) as (K2 & _ & R2).
    { intros a Ra. apply fits_version; [|intros p Hp; destruct (Hold1 p Hp); split; [done|by exists newKind]|done].
      intros m [= <-]. split; [by eapply storable_well|]. exists id. split; [apply Sn|by split]. }
    split; [|done]. eapply kinds_hold_ext; [|exact K2]. intros a o. rewrite after_put; [|by intros m [= <-]; rewrite Gn|naive_solver|done].
    naive_solver. }
  assert (forall p, old = Some p -> exists ok, oldKind = Some ok /\ MojDbKindEngine.getKind_obj e p = Ok ok) as Okp.
  { intros p ->. apply res_bind_ok in Eo' as (ok & Ek & [= <-]). by exists ok. }
  destruct oldKind as [ok|].
  - destruct (Z.eqb_spec ok newKind) as [->|Ne].
    + apply res_bind_ok in E as ([out1 w1] & E & [= <- <- <-]). split; [done|]. apply (Put old objs (d_world d) op); [by apply U| |done|apply K|exact E].
      intros p Hp. destruct (Okp p Hp) as (ok & [= <-] & Ek). split; [by apply Hold|done].
    + apply res_bind_ok in E as ([out1 w1] & E1 & E). apply res_bind_ok in E as ([out2 w2] & E2 & [= <- <- <-]). split; [done|].
      destruct old as [p|]; [|done]. destruct (Okp p eq_refl) as (ok' & [= <-] & Ek).
      pose proof (update_ok _ _ _ _ _ _ _ _ _ _ E1) as (_ & P & _). apply prepared_none in P as ->.
      destruct (update_holds_kinds _ _ _ _ _ _ _ _ _ _ _ (eo_graph Eo) (getKind_live _ _ Ek) (db_kinds _ _ K) E1) as (K1 & _ & R1).
      { intros a Ra. apply fits_version; [done| |by apply U]. intros q [= <-]. split; [by apply Hold|by exists ok]. }
      set (objs1 := fun o => objs o /\ Some p <> Some o).
      assert (kinds_hold w1 (fun a o => objs1 o /\ belongs o a)) as K1'.
      { eapply kinds_hold_ext; [|exact K1]. intros a o. rewrite after_put; [|done|by intros q [= <-]|by eapply getKind_live]. unfold objs1. naive_solver. }
      destruct (Put None objs1 w1 OpCreate out2 w2) as (n & -> & Sn & K2 & R2); [intros o o' [Ho _] [Ho' _]; by apply U|done| |done|exact E2|].
      { intros o [Ho No] Eid. by destruct No; apply Hid. }
      exists n. split; [done|]. split; [done|]. split; [|by etransitivity]. eapply kinds_hold_ext; [|exact K2].
      intros a o. unfold objs1. naive_solver.
  - apply res_bind_ok in E as ([out1 w1] & E & [= <- <- <-]). split; [done|]. apply (Put old objs (d_world d) op); [by apply U| |done|apply K|exact E].
    intros p Hp. by destruct (Okp p Hp) as (ok & [=] & _).
Qed.
End holds.

(** ** Putting an object *)
(** The header that is taken off goes back on. *)
Lemma addTo_body n id kindId rev del : storable n id kindId rev del ->
  MojDbObjectHeader.addTo {| MojDbObjectHeader.m_reader := MojObjectReader.data []; MojDbObjectHeader.m_id := id;
    MojDbObjectHeader.m_kindId := kindId; MojDbObjectHeader.m_rev := rev; MojDbObjectHeader.m_del := del; MojDbObjectHeader.m_read := false |}
    (RecordSpec.body n) = n.
Proof.
  intros [[O Ei Ek Er Ed] D]. destruct keys_ok as (KI & KR & KK & KD).
  destruct (RecordSpec.body_object n O) as (m & m' & -> & Eb & Ob); [congruence|]. unfold MojDbObjectHeader.addTo. simpl.
  set (o3 := MojObject.putString _ KindKey kindId).
  assert (MojObject.ok (MojObject.put (RecordSpec.body (ObjectImpl m)) IdKey id)) as O1.
  { apply MojObject.put_ok; [done..|]. by apply (MojObject.get_ok (ObjectImpl m) IdKey id). }
  assert (MojObject.ok (MojObject.putInt (MojObject.put (RecordSpec.body (ObjectImpl m)) IdKey id) RevKey rev)) as O2.
  { apply MojObject.put_ok; [done..|]. exact (MojObject.get_ok (ObjectImpl m) RevKey _ O Er). }
  assert (MojObject.ok o3) as O3 by (apply MojObject.put_ok; [done..|exact (MojObject.get_ok (ObjectImpl m) KindKey _ O Ek)]).
  assert (forall k, str_ok k -> MojObject.get o3 k = MojObject.get (ObjectImpl m) k) as G3.
  { intros k Sk. unfold o3, MojObject.putString, MojObject.putInt. rewrite !MojObject.get_put by done. rewrite RecordSpec.get_body by done.
    destruct (decide (KindKey = k)) as [<-|N1]; [done|]. destruct (decide (RevKey = k)) as [<-|N2]; [done|].
    destruct (decide (IdKey = k)) as [<-|N3]; [done|]. rewrite decide_False by (intros [->|[->| ->]]; done). done. }
  set (out := if del then _ else _).
  assert (MojObject.ok out /\ forall k, str_ok k -> MojObject.get out k = MojObject.get (ObjectImpl m) k) as [Oo Go].
  { unfold out. destruct del; [|done]. split; [by apply MojObject.put_ok|]. intros k Sk. unfold MojObject.putBool. rewrite MojObject.get_put by done.
    destruct (decide (DelKey = k)) as [<-|]; [|by apply G3]. destruct (MojObject.get (ObjectImpl m) DelKey); [by subst|done]. }
  assert (exists m2, out = ObjectImpl m2) as [m2 E2] by (unfold out, o3, MojObject.putString, MojObject.putBool, MojObject.put; destruct del; by eexists).
  rewrite E2 in *. f_equal. pose proof Oo as [S2 F2]%MojObject.ok_object. pose proof O as [S F]%MojObject.ok_object.
  apply RecordSpec.object_ext; [done..| | |exact Go]; (eapply Forall_impl; [eassumption|]; by intros ? []).
Qed.

(** Writing a record keeps the token table of the kind, and may only add to it. *)
Lemma serialize_ok `{KindTokensLaws} {W} `{SharedTokenSetLaws W} n id kindId rev del (s : W) shard bs t' : storable n id kindId rev del -> sts_ok s ->
  serialize id n (MojTokenSet.init s) shard = Ok (bs, t') ->
  MojTokenSet.m_sharedTokenSet (MojTokenSet.init s) = s /\ snapshot_ok (sts_vec s) (MojTokenSet.m_obj (MojTokenSet.init s)) /\ sts_ok (MojTokenSet.m_sharedTokenSet t') /\ sts_vec s `prefix_of` sts_vec (MojTokenSet.m_sharedTokenSet t').
Proof.
  intros [R D] Os. pose proof (sts_init s Os) as Si. unfold MojTokenSet.init, serialize.
  destruct (MojSharedTokenSet.tokenSet s) as [vec obj]. simpl in Si. rewrite (RecordSpec.extractFrom_eq _ _ _ _ _ R). cbn [res_bind].
  pose proof R as [O Ei _ Er _]. destruct (RecordSpec.body_object n O) as (m & m' & _ & Eb & Ob); [congruence|]. rewrite Eb in *.
  intros (h & _ & E)%res_bind_ok. apply res_bind_ok in E as (w' & E & E').
  eapply RecordSpec.body_bytes in E as (bs' & _ & Hw & Hn & _); [|done|done].
  destruct (MojObjectWriter.m_tokenSet w') as [t2|] eqn:E2; [|done]. injection E' as _ <-. unfold RoundTrip.writer_ok in Hw. rewrite E2 in Hw.
  unfold RoundTrip.need_of in Hn. rewrite E2 in Hn. by destruct Hw.
Qed.

(** *** The object *)
(** An object that may be put: what the database reads of it has the types it expects. *)
Record ready (obj : MojObject) : Prop := {
  ready_well : well obj;
  ready_id : forall v, MojObject.get obj IdKey = Some v -> scalar v;
  ready_kind : forall v, MojObject.get obj KindKey = Some v -> exists kindId, v = StringImpl kindId;
  ready_del : forall v, MojObject.get obj DelKey = Some v -> exists del, v = BoolImpl del
}.

Lemma ready_storable obj id kindId rev : ready obj -> MojObject.get obj IdKey = Some id -> MojObject.get obj KindKey = Some (StringImpl kindId) ->
  MojObject.get obj RevKey = Some (IntImpl rev) -> exists del, storable obj id kindId rev del.
Proof.
  intros [[O D] _ _ F] Ei Ek Er. exists (match MojObject.get obj DelKey with Some (BoolImpl b) => b | _ => false end). split; [split; [done..|]|done].
  destruct (MojObject.get obj DelKey) as [v|]; [|done]. by destruct (F v eq_refl) as [b ->].
Qed.

Lemma storable_ready obj id kindId rev del : storable obj id kindId rev del -> scalar id -> ready obj.
Proof.
  intros St Sc. pose proof St as [[O Ei Ek Er Ed] D]. split; [by split|..].
  - intros v E. congruence.
  - intros v E. exists kindId. congruence.
  - intros v E. rewrite E in Ed. by exists del.
Qed.

Lemma storable_plain o o' id kindId rev del : storable o id kindId rev del -> scalar id -> grown o o' -> same_plain o o' ->
  storable o' id kindId rev del.
Proof.
  intros [[O Ei Ek Er Ed] D] Sc G P.
  assert (forall k v, MojObject.get o k = Some v -> scalar v -> MojObject.get o' k = Some v) as S.
  { intros k v E Sv. specialize (P k). rewrite E in P. destruct P as (v' & E' & F). by rewrite <- (F Sv). }
  split; [|by apply G]. split; [by apply G|by apply S..|].
  pose proof (P DelKey) as Pd. destruct (MojObject.get o DelKey) as [v|] eqn:E; [|by rewrite Pd]. subst v. by rewrite (S _ _ E).
Qed.

(** A property that is put is not looked at, unless it is one of the database's. *)
Lemma ready_put obj k v : ready obj -> str_ok k -> well v ->
  (k = IdKey -> scalar v) -> (k = KindKey -> exists s, v = StringImpl s) -> (k = DelKey -> exists b, v = BoolImpl b) -> ready (MojObject.put obj k v).
Proof.
  intros [[O D] Fi Fk Fd] Sk [Ov Dv] Vi Vk Vd. pose proof RecordSpec.keys_ok as (KI & KR & KK & KD).
  split; [split; [by apply MojObject.put_ok|by apply put_defined]|..]; intros w; (rewrite MojObject.get_put by done);
    (case_decide as E; [intros [= <-]; eauto|eauto]).
Qed.

Lemma ready_rev obj rev : ready obj -> in_int 64 rev -> ready (MojObject.putInt obj RevKey rev).
Proof. intros Ro B. apply ready_put; [done|apply RecordSpec.keys_ok|by split|done..]. Qed.

(** The characters of a generated id. *)
Lemma encodeLoop_str vec : Forall is_byte vec -> str_ok (MojBase64.encodeLoop MojBase64.chars vec false).
Proof.
  assert (forall i, 0 <= i < 64 -> 0 < MojBase64.char_at MojBase64.chars i < 256) as C.
  { intros i B. assert (Forall (fun c => 0 < c < 256) MojBase64.chars) as F by (repeat (constructor; [by vm_compute|]); constructor).
    rewrite Forall_forall in F. apply F, list_elem_of_In, nth_In. change (length MojBase64.chars) with 64%nat. lia. }
  assert (forall a b c, is_byte a -> is_byte b -> is_byte c -> 0 <= Z.shiftl a 16 + Z.shiftl b 8 + c < 2 ^ 24) as N.
  { intros a b c Ha Hb Hc. by destruct (MojBase64.chunk_bytes a b c Ha Hb Hc). }
  assert (is_byte 0) as Z0 by (unfold is_byte; lia).
  induction vec as [|a|a b|a b c l IH] using MojBase64.triple_ind; intros F; [constructor|..];
    repeat match goal with F : Forall is_byte (_ :: _) |- _ => apply Forall_cons in F as [? F] end; cbn [MojBase64.encodeLoop app]; cbv zeta.
  - pose proof (MojBase64.sextets (Z.shiftl a 16)) as S. specialize (N a 0 0). change (Z.shiftl 0 8) with 0 in N. rewrite !Z.add_0_r in N.
    destruct S as (S1 & S2 & _); [by apply N|]. repeat constructor; by apply C.
  - pose proof (MojBase64.sextets (Z.shiftl a 16 + Z.shiftl b 8)) as S. specialize (N a b 0). rewrite Z.add_0_r in N.
    destruct S as (S1 & S2 & S3 & _); [by apply N|]. repeat constructor; by apply C.
  - destruct (MojBase64.sextets _ (N a b c ltac:(done) ltac:(done) ltac:(done))) as (S1 & S2 & S3 & S4).
    repeat (constructor; [by apply C|]). by apply IH.
Qed.

Lemma id_str_scalar micros rnd shard id : MojDbIdGenerator.id_str micros rnd shard = Ok id -> well id /\ scalar id.
Proof.
  assert (forall n, MojDbIdGenerator.id micros rnd n = Ok id -> well id /\ scalar id) as F.
  { intros n. unfold MojDbIdGenerator.id. set (buf := MojDataWriter.writeInt64 _ _). assert (Forall is_byte buf) as B.
    { unfold buf, MojDataWriter.writeInt64, MojDataWriter.writeUInt32. apply Forall_app. split; [|apply toBigEndian_bytes].
      destruct (n =? MojDbIdGenerator.MainShardId); [constructor|]. apply Forall_app. split; [constructor|apply toBigEndian_bytes]. }
    rewrite IdSpec.base64Encode_eq. intros [= <-]. split; [|done]. split; [|done]. by apply encodeLoop_str. }
  unfold MojDbIdGenerator.id_str. destruct shard; [apply F|]. intros (v & _ & E)%res_bind_ok. by eapply F.
Qed.

(** ** Putting *)
Section put.
Context `{ICU} `{!ICULaws} `{!MojSchema.Regex} {I T : Type} `{EngineLaws I T} {Q : Type} `{StorageSeqLaws Q} {W : Type} `{SharedTokenSetLaws W}.
Context (e : MojDbKindEngine.MojDbKindEngine) (m_objDb : Z) (Eo : engine_ok e m_objDb).
Import MojDb (d_world, d_states, d_idSeq, d_req).
Import MojDbKind (w_txn, w_indexes).
Abbreviation Db := (@MojDb.Db _ I T Q W).
Abbreviation txn d := (w_txn (d_world d)).
Abbreviation db_ok := (db_ok e m_objDb).
Abbreviation recorded := (recorded e).

(** What is kept of the tokens and of the sequence. *)
Record later (d d' : Db) : Prop := {
  later_states : forall k s, d_states d !! k = Some s -> sts_ok s ->
    exists s', d_states d' !! k = Some s' /\ sts_ok s' /\ sts_vec s `prefix_of` sts_vec s';
  later_seq : seq_ok (d_idSeq d) -> seq_ok (d_idSeq d');
  later_pos : seq_pos (d_idSeq d) <= seq_pos (d_idSeq d')
}.

Lemma later_same d d' : d_states d' = d_states d -> d_idSeq d' = d_idSeq d -> later d d'.
Proof. intros Es Eq. split; rewrite ?Es, ?Eq; [intros k s E O; by exists s|done|lia]. Qed.

Lemma later_trans d1 d2 d3 : later d1 d2 -> later d2 d3 -> later d1 d3.
Proof.
  intros [S1 Q1 P1] [S2 Q2 P2]. split; [|by auto|lia]. intros k s E O. destruct (S1 k s E O) as (s1 & E1 & O1 & X1).
  destruct (S2 k s1 E1 O1) as (s2 & E2 & O2 & X2). exists s2. split; [done|]. split; [done|]. by etransitivity.
Qed.

Lemma recorded_later d d' id o bs : later d d' -> recorded d id o bs -> recorded d' id o bs.
Proof.
  intros [S _ P] (kindId & rev & del & k & t & t' & shard & s & St & Sc & Ek & Ot & Sn & Es & Ed & Os & X & L).
  destruct (S k s Ed Os) as (s' & Ed' & Os' & X'). exists kindId, rev, del, k, t, t', shard, s'. repeat (split; [done|]).
  split; [by etransitivity|lia].
Qed.

Lemma kinds_frame (w w' : MojDbKind.World) objs : kinds_hold w objs -> w_indexes w' = w_indexes w -> txn_ok (w_txn w') ->
  (forall j, in_index (w_txn w') j <-> in_index (w_txn w) j) -> kinds_hold w' objs.
Proof.
  intros [O X D A] E O' F. assert (forall a, MojDbKind.indexes w' a = MojDbKind.indexes w a) as Ei by (intros a; unfold MojDbKind.indexes; by rewrite E).
  split; [done|..]; setoid_rewrite Ei; [|done..]. intros a x Hx. apply holds_frame with (w_txn w); [by apply X|]. intros k _. apply F.
Qed.

(** The same objects after a change that leaves the records alone. *)
Lemma db_frame d d' objs : db_ok d objs -> later d d' -> kinds_hold (d_world d') (fun a o => objs o /\ belongs e o a) ->
  (forall id, holds (txn d') m_objDb id = holds (txn d) m_objDb id) -> db_ok d' objs.
Proof.
  intros [K R O S Q0] L K' F. split; [done|..].
  - intros id bs Wi E. rewrite F in E. destruct (R id bs Wi E) as (o & Ho & Ro). exists o. split; [done|]. by apply (recorded_later d).
  - intros o Ho. destruct (O o Ho) as (id & bs & E & Ro). exists id, bs. rewrite F. split; [done|]. by apply (recorded_later d).
  - intros name k E. destruct (S name k E) as (s & Es & Os). destruct (later_states _ _ L k s Es Os) as (s' & Es' & Os' & _). by exists s'.
  - by apply (later_seq d d').
Qed.

(** Reading a record. *)
Lemma get_db d objs id : db_ok d objs -> well id -> exists d',
  MojDb.on_txn (db_get m_objDb id) d = (d', Ok (option_map (item_of id) (holds (txn d) m_objDb id))) /\ db_ok d' objs /\
  d_states d' = d_states d /\ d_idSeq d' = d_idSeq d /\ (forall id', holds (txn d') m_objDb id' = holds (txn d) m_objDb id').
Proof.
  intros K Wi. destruct (get_law m_objDb id (txn d) (kh_txn _ _ (db_kinds _ _ _ _ K)) (eo_db _ _ Eo) Wi) as (t' & E & O' & _ & _ & X & R).
  unfold MojDb.on_txn. rewrite E. eexists. split; [reflexivity|]. split; [|by repeat split; intros].
  apply (db_frame d); [done|by apply later_same| |by intros; apply R]. by apply (kinds_frame (d_world d)); [apply K|..].
Qed.

Lemma well_dec i j : well i -> well j -> i = j \/ i <> j.
Proof.
  intros [Oi _] [Oj _]. destruct (Z.eq_dec (MojObject.compare i j) 0) as [E|N]; [left; by apply MojObject.compare_eq|right].
  intros ->. apply N. apply (comp_refl MojObject.compare).
Qed.

(** The objects of the database once a new version has taken the place of the old. *)
Definition put_objs (objs : MojObject -> Prop) (n : MojObject) (old : option MojObject) (o : MojObject) : Prop := o = n \/ (objs o /\ old <> Some o).

Lemma written d d' objs n old id bs : db_ok d objs -> later d d' -> recorded d' id n bs ->
  (forall o, old = Some o -> MojObject.get o IdKey = Some id) -> (forall o, objs o -> MojObject.get o IdKey = Some id -> old = Some o) ->
  kinds_hold (d_world d') (fun a o => put_objs objs n old o /\ belongs e o a) ->
  holds (txn d') m_objDb id = Some bs -> (forall id', well id' -> id' <> id -> holds (txn d') m_objDb id' = holds (txn d) m_objDb id') ->
  db_ok d' (put_objs objs n old).
Proof.
  intros [K R O S Q0] L Rn Hold Hid K' Eh F. split; [done|..].
  - intros id' bs' Wi E. assert (well id) as Wid by (by apply recorded_id in Rn as (_ & _ & ? & _)).
      destruct (well_dec id' id Wi Wid) as [->|N].
    + assert (bs' = bs) as -> by congruence. exists n. split; [by left|done].
    + rewrite F in E by done. destruct (R id' bs' Wi E) as (o & Ho & Ro). exists o. split; [|by apply (recorded_later d)].
      right. split; [done|]. intros Eo'. apply Hold in Eo'. apply recorded_id in Ro as (Ei & _). congruence.
  - intros o [->|[Ho No]]; [by exists id, bs|]. destruct (O o Ho) as (id' & bs' & E & Ro). exists id', bs'.
    split; [|by apply (recorded_later d)]. apply recorded_id in Ro as (Ei & _ & Wi & _). rewrite F; [done..|]. intros ->. by destruct No; apply Hid.
  - intros name k E. destruct (S name k E) as (s & Es & Os). destruct (later_states _ _ L k s Es Os) as (s' & Es' & Os' & _). by exists s'.
  - by apply (later_seq d d').
Qed.

(** Writing the object that its kind has prepared. *)
Lemma serialize_put d d1 d2 d3 objs n old id kindId k rev del shard bs oldBytes v : db_ok d objs -> storable n id kindId rev del -> scalar id ->
  (forall o, old = Some o -> MojObject.get o IdKey = Some id) -> (forall o, objs o -> MojObject.get o IdKey = Some id -> old = Some o) ->
  MojDbKindEngine.getKind e kindId = Ok k -> later d d1 -> d_states d1 = d_states d -> rev < seq_pos (d_idSeq d1) ->
  kinds_hold (d_world d1) (fun a o => put_objs objs n old o /\ belongs e o a) -> same_records (txn d) (txn d1) ->
  MojDb.serialize_obj e id n k shard d1 = (d2, Ok bs) -> MojDb.on_txn (db_put m_objDb id bs oldBytes) d2 = (d3, Ok v) ->
  db_ok d3 (put_objs objs n old) /\ later d d3 /\ d_idSeq d3 = d_idSeq d1.
Proof.
  intros K St Sc Hold Hid Ek L1 E1 Pos K1 R1 E2 E3. pose proof (eo_tokens _ _ Eo) as KT. destruct (db_states _ _ _ _ K kindId k Ek) as (s & Es & Os).
  apply bind_inv in E2 as (d' & dd & [= <- <-] & E2). apply bind_inv in E2 as (d' & t & [E2' ->]%lift_inv & E2).
  unfold MojDbKindEngine.kind_tokenSet in E2'. rewrite E1, Es in E2'. injection E2' as <-.
  apply bind_inv in E2 as (d' & [bs1 t'] & [E2' ->]%lift_inv & E2). injection E2 as <- <-. simpl in E3.
  destruct (serialize_ok (H := MojDbKindEngine.tokens e) n id kindId rev del s shard bs1 t' St Os E2') as (Ei & Sn & Ot & X).
  destruct (R1 (kh_txn _ _ (db_kinds _ _ _ _ K))) as [O1 F1]. assert (well id) as Wi.
  { eapply get_well; [by eapply storable_well|apply St]. }
  destruct (put_law m_objDb id bs1 oldBytes (txn d1) O1 (eo_db _ _ Eo) Wi) as (t3 & r & Ep & O3 & _ & X3 & P3).
  unfold MojDb.on_txn in E3. simpl in E3. rewrite Ep in E3. injection E3 as <- ->. destruct P3 as [P3 F3].
  set (d3 := MojDb.with_world _ _).
  assert (later d d3) as L3.
  { split; [|apply L1..]. intros k' s' Es' Os'. simpl. destruct (decide (k' = k)) as [->|N].
    - rewrite lookup_insert_eq. assert (s' = s) as -> by congruence. by eexists.
    - rewrite lookup_insert_ne by done. rewrite E1. by exists s'. }
  split; [|by split]. apply (written d d3 objs n old id bs1); [done..| | | | | |].
  - exists kindId, rev, del, k, (MojTokenSet.init s), t', shard, (MojTokenSet.m_sharedTokenSet t'). rewrite Ei. repeat (split; [done|]).
    split; [simpl; by rewrite lookup_insert_eq|done].
  - done.
  - done.
  - by apply (kinds_frame (d_world d1)).
  - done.
  - intros id' Wi' N. simpl. rewrite F3; [|apply (eo_db _ _ Eo)|done|by right]. apply F1, (eo_db _ _ Eo).
Qed.

(** The id of a new object is given, or made and not in use. *)
Definition fresh (objs : MojObject -> Prop) (clock : Z * Z) (shard : mstring) : Prop := forall id o,
  MojDbIdGenerator.id_str clock.1 clock.2 shard = Ok id -> objs o -> MojObject.get o IdKey <> Some id.

(** The sequence does not run out. *)
Definition room (d : Db) (obj : MojObject) : Prop := seq_pos (d_idSeq d) + Z.of_nat (values obj) + 3 < 2 ^ 63.

(** Drawing the revision. *)
Lemma nextId_ok d d' rev objs : db_ok d objs -> seq_pos (d_idSeq d) + 1 < 2 ^ 63 -> MojDb.nextId d = (d', Ok rev) ->
  db_ok d' objs /\ later d d' /\ d_states d' = d_states d /\ d_world d' = d_world d /\ rev = seq_pos (d_idSeq d) /\
  seq_pos (d_idSeq d') = seq_pos (d_idSeq d) + 1 /\ in_int 64 rev.
Proof.
  intros K B. unfold MojDb.nextId, MojDb.on_seq. destruct (seq_get (d_idSeq d)) as [q r] eqn:E. intros [= <- ->].
  pose proof (db_seq _ _ _ _ K) as Oq. pose proof (seq_nonneg _ Oq). destruct (seq_law _ _ _ Oq E) as [Oq' P]. destruct P as [P ->]; [lia|].
  assert (later d (MojDb.with_seq d q)) as L. { split; [intros k s Es Os; by exists s|done|simpl; lia]. }
  split; [by apply (db_frame d); [..|apply K|]|]. repeat (split; [done|]). unfold in_int. change (64 - 1) with 63. lia.
Qed.

Lemma values_put o k v : (values (MojObject.put o k v) <= values o + values v)%nat.
Proof.
  assert (values (MojObject.put o k v) = S (fold_right (fun kv n => (values kv.2 + n)%nat) 0%nat (MojMap.put MojStrCmp (MojObject.ensureObject o) k v))) as -> by done.
  assert (S (fold_right (fun kv n => (values kv.2 + n)%nat) 0%nat (MojObject.ensureObject o)) <= values o)%nat as L by (destruct o; simpl; lia).
  revert L. generalize (values o). induction (MojObject.ensureObject o) as [|x m IH]; intros b L; simpl in *; [lia|].
  unfold MojMap.put in *. simpl. destruct (Z.ltb _ 0); [|destruct (Z.eqb _ 0); simpl; lia]. simpl. specialize (IH (b - values x.2)%nat ltac:(lia)). lia.
Qed.

(** Ids for the sub-objects. *)
Lemma on_seq_ids d d' objs obj obj' id kindId rev del : db_ok d objs -> seq_pos (d_idSeq d) + Z.of_nat (values obj) < 2 ^ 63 ->
  storable obj id kindId rev del -> scalar id -> MojDb.on_seq (MojDb.assignIds obj) d = (d', Ok obj') ->
  storable obj' id kindId rev del /\ later d d' /\ d_states d' = d_states d /\ d_world d' = d_world d.
Proof.
  intros K B St Sc. unfold MojDb.on_seq. destruct (assignIds_ok obj) as [G _]. specialize (G (d_idSeq d) (db_seq _ _ _ _ K) ltac:(lia)).
  destruct (MojDb.assignIds obj (d_idSeq d)) as [q r]. intros [= <- ->]. destruct G as (Oq & Bq & Gr & P). split; [by eapply storable_plain|].
  split; [|done]. split; [intros k s Es Os; by exists s|done|simpl; lia].
Qed.

(** The object in its place: given, or made and not in use. *)
Definition in_place (objs : MojObject -> Prop) (old : option MojObject) (id : MojObject) : Prop :=
  (forall p, old = Some p -> objs p /\ MojObject.get p IdKey = Some id) /\ forall o, objs o -> MojObject.get o IdKey = Some id -> old = Some o.

Lemma engine_put d d1 objs obj old op cs n k id kindId rev del : db_ok d objs -> storable obj id kindId rev del -> scalar id -> in_place objs old id ->
  MojDb.kind_update e (Some obj) old op cs d = (d1, Ok (n, k)) ->
  MojDbKindEngine.getKind e kindId = Ok k /\ later d d1 /\ d_states d1 = d_states d /\ d_idSeq d1 = d_idSeq d /\ same_records (txn d) (txn d1) /\
  exists out, n = Some out /\ storable out id kindId rev del /\ kinds_hold (d_world d1) (fun a o => put_objs objs out old o /\ belongs e o a).
Proof.
  intros K St Sc [Hold Hid] E. apply bind_inv in E as (d' & dd & [= <- <-] & E). apply bind_inv in E as (d' & [[n1 k1] w] & [E' ->]%lift_inv & E).
  injection E as <- <- <-. destruct (engine_update e m_objDb Eo _ _ _ _ _ _ _ _ _ _ _ _ _ _ K St Sc (fun o Ho => proj1 (Hold o Ho)) Hid E') as (Ek & out & -> & So & Ko & R).
  split; [done|]. split; [by apply later_same|]. repeat (split; [done|]). by exists out.
Qed.

(** The id of the object that is put. *)
Lemma choose_id (d d' : Db) objs clock shard id obj old rev putId obj2 : ready obj -> in_int 64 rev ->
  (id = UndefinedImpl -> old = None /\ fresh objs clock shard) -> (id <> UndefinedImpl -> MojObject.get obj IdKey = Some id /\ in_place objs old id) ->
  match id with
  | UndefinedImpl =>
      let! putId := lift (MojDbIdGenerator.id_str clock.1 clock.2 shard) in ret (putId, MojObject.put (MojObject.putInt obj RevKey rev) IdKey putId)
  | _ => ret (id, MojObject.putInt obj RevKey rev)
  end d = (d', Ok (putId, obj2)) ->
  d' = d /\ (id <> UndefinedImpl -> putId = id) /\ ready obj2 /\ MojObject.get obj2 IdKey = Some putId /\
    MojObject.get obj2 RevKey = Some (IntImpl rev) /\ in_place objs old putId /\ (values obj2 <= values obj + 2)%nat /\
    forall k, str_ok k -> k <> IdKey -> k <> RevKey -> MojObject.get obj2 k = MojObject.get obj k.
Proof.
  intros Ro Bi Un Gi E2. pose proof RecordSpec.keys_ok as (KI & KR & KK & KD). pose proof (ready_rev obj rev Ro Bi) as Ro1.
  assert (MojObject.get (MojObject.putInt obj RevKey rev) RevKey = Some (IntImpl rev)) as Gr.
  { unfold MojObject.putInt. rewrite MojObject.get_put, decide_True by (done || apply Ro). done. }
  pose proof (values_put obj RevKey (IntImpl rev)) as V1. change (values (IntImpl rev)) with 1%nat in V1.
  assert (id = UndefinedImpl \/ id <> UndefinedImpl) as [->|N] by (destruct id; by (left + right)).
  - destruct (Un eq_refl) as [-> Fr]. apply bind_inv in E2 as (d3 & i & [Eid ->]%lift_inv & [= <- <- <-]).
    destruct (id_str_scalar _ _ _ _ Eid) as [Wi Sc]. split; [done|]. split; [done|]. split; [by apply ready_put|].
    unfold MojObject.putInt in *.
    split; [by rewrite MojObject.get_put, decide_True by (done || apply Ro1)|].
    split; [by rewrite MojObject.get_put, decide_False by (done || apply Ro1)|].
    split; [split; [done|]; intros o Ho Eo'; by destruct (Fr i o)|]. pose proof (values_put (MojObject.put obj RevKey (IntImpl rev)) IdKey i) as V2.
    assert (values i = 1%nat) as Vi by (by destruct i). rewrite Vi in V2. split; [lia|]. intros k Sk N1 N2.
    rewrite MojObject.get_put, decide_False by (done || apply Ro1). by rewrite MojObject.get_put, decide_False by (done || apply Ro).
  - destruct (Gi N) as [Gid Pl]. assert (E2' : (d, Ok (id, MojObject.putInt obj RevKey rev)) = (d', Ok (putId, obj2)) :> Db * res _) by (by destruct id).
    injection E2' as <- <- <-. split; [done|]. split; [done|]. split; [done|]. unfold MojObject.putInt in *.
    assert (forall k, str_ok k -> k <> RevKey -> MojObject.get (MojObject.put obj RevKey (IntImpl rev)) k = MojObject.get obj k) as G.
    { intros k Sk Nk. by rewrite MojObject.get_put, decide_False by (done || apply Ro). }
    split; [by rewrite G|]. repeat (split; [done|]). split; [lia|]. intros k Sk _ Nk. by apply G.
Qed.

Lemma putObj_ok d objs clock id obj old oldItem op cs shard d' out : db_ok d objs -> ready obj -> room d obj ->
  (id = UndefinedImpl -> old = None /\ fresh objs clock shard) ->
  (id <> UndefinedImpl -> MojObject.get obj IdKey = Some id /\ in_place objs old id) ->
  MojDb.putObj e m_objDb clock id obj old oldItem op cs shard d = (d', Ok out) ->
  (d' = d /\ out = obj /\ exists p, old = Some p /\ MojObject.equals obj p = true) \/
  exists putId kindId del, (id <> UndefinedImpl -> putId = id) /\ in_place objs old putId /\ storable out putId kindId (seq_pos (d_idSeq d)) del /\
    db_ok d' (put_objs objs out old) /\ seq_pos (d_idSeq d) < seq_pos (d_idSeq d') /\
    (forall b, MojObject.get obj DelKey = Some (BoolImpl b) -> del = b).
Proof.
  intros K Ro B Un Gi E. unfold MojDb.putObj in E. destruct (match old with Some _ => _ | None => _ end) eqn:Eq.
  { injection E as <- <-. left. destruct old as [p|]; [|done]. split; [done|]. split; [done|]. by exists p. }
  right. unfold room in B. apply bind_inv in E as (d1 & rev & E1 & E). destruct (nextId_ok d d1 rev objs K ltac:(lia) E1) as (K1 & L1 & Es1 & Ew1 & -> & P1 & Bi).
  set (rev := seq_pos (d_idSeq d)) in *.
  apply bind_inv in E as (d2 & [putId obj2] & E2 & E).
  destruct (choose_id d1 d2 objs clock shard id obj old rev putId obj2 Ro Bi Un Gi E2) as (-> & Ep & Ro2 & Ei & Er & Pl & Bv & Gk).
  exists putId. pose proof (ready_id _ Ro2 _ Ei) as Sc. apply bind_inv in E as (d2 & kindName & [Ek ->]%lift_inv & E).
  destruct kindName as [kindName|]; [|done].
  assert (MojObject.get obj2 KindKey = Some (StringImpl kindName)) as Ek2.
  { unfold MojObjectString.get_string in Ek. destruct (MojObject.get obj2 KindKey) as [v|] eqn:E3; [|done].
    destruct (ready_kind _ Ro2 v E3) as [s ->]. apply res_bind_ok in Ek as (s' & Es' & [= <-]). by injection Es' as ->. }
  destruct (ready_storable _ _ _ _ Ro2 Ei Ek2 Er) as [del St2].
  assert (forall b, MojObject.get obj DelKey = Some (BoolImpl b) -> del = b) as Db.
  { intros b Eb. destruct St2 as [[_ _ _ _ Ed] _]. rewrite Gk, Eb in Ed; [by injection Ed|apply RecordSpec.keys_ok|done..]. }
  apply bind_inv in E as (d2 & k & [_ ->]%lift_inv & E). apply bind_inv in E as (d2 & kd & [_ ->]%lift_inv & E).
  apply bind_inv in E as (d2 & obj3 & E3 & E).
  assert (storable obj3 putId kindName rev del /\ db_ok d2 objs /\ later d1 d2 /\ d_states d2 = d_states d1 /\ d_world d2 = d_world d1) as (St3 & K2 & L2 & Es2 & Ew2).
  { destruct (_ && _).
    - destruct (on_seq_ids d1 d2 objs obj2 obj3 putId kindName rev del K1 ltac:(lia) St2 Sc E3) as (St3 & L & Es & Ew).
      split; [done|]. split; [|by split]. apply (db_frame d1); [done..| |by rewrite Ew]. rewrite Ew. by apply K1.
    - injection E3 as <- <-. split; [done|]. split; [done|]. split; [by apply later_same|done]. }
  apply bind_inv in E as (d3 & [n k'] & E4 & E). cbn [fst snd] in E.
  destruct (engine_put d2 d3 objs obj3 old op cs n k' putId kindName rev del K2 St3 Sc Pl E4) as (Ek' & L3 & Es3 & Eq3 & R3 & n' & -> & Sn & K3).
  pose proof (later_trans _ _ _ L2 L3) as L23. pose proof (later_trans _ _ _ L1 L23) as L13.
  apply bind_inv in E as (d4 & h & [Eh ->]%lift_inv & E). rewrite (RecordSpec.extractFrom_eq _ _ _ _ _ (proj1 Sn)) in Eh. injection Eh as <-.
  apply bind_inv in E as (d4 & buf & E5 & E). apply bind_inv in E as (d5 & sh & [_ ->]%lift_inv & E). apply bind_inv in E as (d5 & v & E6 & E).
  injection E as <- <-. cbn [fst snd]. rewrite addTo_body by done.
  destruct (serialize_put d d3 d4 d5 objs n' old putId kindName k' rev del shard buf (option_map MojDbLevelItem.m_slice oldItem) v) as (K5 & L5 & Eq5); try done.
  - intros p Hp. by apply Pl.
  - apply Pl.
  - congruence.
  - pose proof (later_pos _ _ L23). lia.
  - by rewrite <- Ew1, <- Ew2.
  - exists kindName, del. repeat (split; [done|]). split; [|done]. rewrite Eq5. pose proof (later_pos _ _ L23). lia.
Qed.
End put.
