(* ===== verification/DbPutSpec.v ===== *)
(** * Putting an object keeps the database, and no update is lost

    [putImpl] keeps [db_ok] whatever the flags and the previous version; and an update
    that was made from a version another update has replaced is refused. *)

From stdpp Require Import gmap relations.
From S2P Require Import Prelude Containers CoreUtil Number Object ObjectBuilder DataSerialization TokenSet ObjectSerialization Text DbKey Json JsonRoundTrip DbQuery DbQueryRoundTrip QueryPlan QueryPlanSpec QueryPlanSelect ObjectItem ObjectItemSpec Effects StorageTxn Watcher Extractor ExtractorSpec Index IndexSpec LevelIndex Storage KindGraph KindGraphSpec Schema Permission Quota Req Kind KindSpec KindEngine Merge Db DbSpec.

Import QueryPlanSpec (well).
Import Merge.

(** ** What a merge is made of *)
Abbreviation total := (fold_right (fun (kv : mstring * MojObject) n => (values kv.2 + n)%nat) 0%nat).

Lemma defined_ensure o : MojObjectBuilder.defined o -> Forall (fun kv => MojObjectBuilder.defined kv.2) (MojObject.ensureObject o).
Proof. destruct o; try (intros _; constructor). by rewrite MojObjectBuilder.defined_object. Qed.

Lemma values_ensure o : (total (MojObject.ensureObject o) < values o)%nat.
Proof. destruct o; simpl; lia. Qed.

Lemma values_object m : values (ObjectImpl m) = S (total m).
Proof. done. Qed.

Lemma merge_props_made obj prev dest : MojObjectBuilder.defined dest -> Forall (fun n => MojObjectBuilder.defined n.2) prev ->
  Forall (fun n => MojObjectBuilder.defined n.2 /\ forall w, MojObjectBuilder.defined w ->
    MojObjectBuilder.defined (merge_value mergeInto n.2 w) /\ (values (merge_value mergeInto n.2 w) <= values n.2 + values w)%nat) obj ->
  MojObjectBuilder.defined (merge_props mergeInto obj prev dest) /\
  (values (merge_props mergeInto obj prev dest) <= values dest + total obj + total prev)%nat.
Proof.
  revert prev dest. induction obj as [|o obj IHo]; intros prev; (induction prev as [|p prev IHp]; intros dest Dd Fp Fo).
  - simpl. split; [done|lia].
  - apply Forall_cons in Fp as [Dp Fp]. pose proof (values_put dest p.1 p.2). destruct (IHp (MojObject.put dest p.1 p.2)) as [D V]; [by apply put_defined|done..|].
    split; [done|]. simpl in *. lia.
  - apply Forall_cons in Fo as [(Do & _) Fo]. pose proof (values_put dest o.1 o.2). destruct (IHo [] (MojObject.put dest o.1 o.2)) as [D V]; [by apply put_defined|done..|].
    split; [done|]. simpl in *. lia.
  - pose proof Fp as [Dp Fp']%Forall_cons. pose proof Fo as [[Do Fw] Fo']%Forall_cons. destruct (Fw p.2 Dp) as [Dw Vw].
    pose proof (values_put dest p.1 p.2). pose proof (values_put dest o.1 o.2). pose proof (values_put dest o.1 (merge_value mergeInto o.2 p.2)).
    cbn [merge_props fold_right]. repeat destruct (Z.ltb _ _); [destruct (IHp (MojObject.put dest p.1 p.2)) as [D V]|
      destruct (IHo (p :: prev) (MojObject.put dest o.1 o.2)) as [D V]|destruct (IHo prev (MojObject.put dest o.1 (merge_value mergeInto o.2 p.2))) as [D V]];
      try (by apply put_defined); try done; (split; [exact D|]); simpl in *; lia.
Qed.

(** A merge of defined objects is defined, and has no more values than both. *)
Lemma mergeInto_made obj dest prev : MojObjectBuilder.defined obj -> MojObjectBuilder.defined dest -> MojObjectBuilder.defined prev ->
  MojObjectBuilder.defined (mergeInto obj dest prev) /\
  (values (mergeInto obj dest prev) <= values dest + total (MojObject.ensureObject obj) + total (MojObject.ensureObject prev))%nat.
Proof.
  revert dest prev. induction obj as [| | | | | |m IH|] using MojObject_nested_ind; intros dest prev Do Dd Fp%defined_ensure; try (by apply merge_props_made).
  apply merge_props_made; [done..|]. apply MojObjectBuilder.defined_object in Do. rewrite Forall_forall in *. intros n Hn. split; [by apply Do|].
  intros w Dw. specialize (IH n Hn). specialize (Do n Hn). unfold merge_value. destruct n as [k v]. simpl in *.
  destruct v; try (split; [done|lia]). destruct w; try (split; [done|lia]).
  destruct (IH (ObjectImpl []) (ObjectImpl m_props0)) as [D V]; [done..|]. split; [done|].
  rewrite !values_object in *. cbn [MojObject.ensureObject fold_right] in V. lia.
Qed.

(** ** The object that is put *)
Section checked.
Import MojDb (MojFlagGet, MojDbFlagNone, MojDbFlagForce, MojDbFlagMerge, MojDbFlagIgnoreMissing).

Lemma merge_at obj prev id : MojObject.get obj IdKey = Some id -> mergeInto obj UndefinedImpl prev = mergeInto obj (ObjectImpl []) prev.
Proof. intros Ei. apply merge_undefined. left. rewrite get_pget in Ei. by destruct (MojObject.ensureObject obj). Qed.

Lemma merge_ready obj prev id : ready obj -> ready prev -> MojObject.get obj IdKey = Some id ->
  ready (mergeInto obj UndefinedImpl prev) /\ MojObject.get (mergeInto obj UndefinedImpl prev) IdKey = Some id.
Proof.
  intros [[Oo Do] Io Ko Lo] [[Op Dp] Ip Kp Lp] Ei. set (o := mergeInto obj UndefinedImpl prev).
  assert (forall k, MojObject.get o k = merged_value (MojObject.get obj k) (MojObject.get prev k)) as G.
  { intros k. rewrite get_pget. unfold o. rewrite mergeInto_get by (done || constructor). by destruct (merged_value _ _). }
  assert (forall v w, scalar v -> merge_value mergeInto v w = v) as S by (intros v w; by destruct v).
  assert (forall k (P : MojObject -> Prop), (forall v, P v -> scalar v) -> (forall v, MojObject.get obj k = Some v -> P v) ->
    (forall v, MojObject.get prev k = Some v -> P v) -> forall v, MojObject.get o k = Some v -> P v) as M.
  { intros k P Sp F1 F2 v. rewrite G. destruct (MojObject.get obj k) as [a|], (MojObject.get prev k) as [b|]; simpl; try done;
      intros [= <-]; [rewrite S by auto|..]; auto. }
  split; [split; [split|..]|].
  - by apply mergeInto_ok.
  - unfold o. rewrite (merge_at obj prev id Ei). by apply mergeInto_made.
  - by apply M.
  - apply M; [by intros v [s ->]|done..].
  - apply M; [by intros v [b ->]|done..].
  - rewrite G, Ei. destruct (MojObject.get prev IdKey); simpl; [|done]. by rewrite S by auto.
Qed.

Lemma check_prev_ok flags obj prev out id : ready obj -> ready prev -> MojObject.get obj IdKey = Some id ->
  MojDb.check_prev flags obj prev = Ok out ->
  ready out /\ MojObject.get out IdKey = Some id /\ (values out <= values obj + values prev)%nat.
Proof.
  intros Ro Rp Ei. unfold MojDb.check_prev. intros (o & E & E')%res_bind_ok.
  assert (out = o) as -> by (destruct (MojObject.get_int o RevKey); [apply res_bind_ok in E' as (r & _ & E'); by destruct (_ && _); [|injection E']|congruence]).
  destruct (MojFlagGet flags MojDbFlagMerge).
  - injection E as <-. destruct (merge_ready obj prev id Ro Rp Ei) as [Rm Im]. split; [done|]. split; [done|].
    rewrite (merge_at obj prev id Ei). destruct (mergeInto_made obj (ObjectImpl []) prev) as [_ V]; [apply Ro|done|apply Rp|].
    pose proof (values_ensure obj). pose proof (values_ensure prev). change (values (ObjectImpl [])) with 1%nat in V. lia.
  - assert (o = obj) as -> by (destruct (negb _); [destruct (MojObject.get_int obj RevKey); [|destruct (match MojObject.get_bool _ _ with Some _ => _ | None => _ end)]|]; congruence).
    split; [done|]. split; [done|lia].
Qed.

(** An update from another revision is refused, unless it is forced. *)
Lemma stale_refused flags obj prev rev old : MojFlagGet flags MojDbFlagForce = false -> MojObject.ok obj -> MojObject.ok prev ->
  MojObject.get obj RevKey = Some (IntImpl rev) -> MojObject.get prev RevKey = Some (IntImpl old) -> rev <> old ->
  MojDb.check_prev flags obj prev = Err MojErrDbRevisionMismatch.
Proof.
  intros Fl Oo Op E1 E2 N. unfold MojDb.check_prev. rewrite Fl. cbn [negb].
  assert (exists o, (if MojFlagGet flags MojDbFlagMerge then Ok (mergeInto obj UndefinedImpl prev)
      else match MojObject.get_int obj RevKey with
           | Some _ => Ok obj
           | None => if match MojObject.get_bool prev DelKey with Some deleted => deleted | None => false end then Ok obj else Err MojErrDbRevNotSpecified
           end) = Ok o /\ MojObject.get_int o RevKey = Some rev) as (o & -> & G).
  { unfold MojObject.get_int. destruct (MojFlagGet flags MojDbFlagMerge); [exists (mergeInto obj UndefinedImpl prev)|exists obj; by rewrite E1]. split; [done|].
    rewrite get_pget, mergeInto_get by (done || constructor). by rewrite E1, E2. }
  cbn [res_bind]. rewrite G. unfold MojObject.get_int. rewrite E2. cbn [MojObject.getRequiredT res_bind MojObject.intValue]. by rewrite (proj2 (Z.eqb_neq _ _) N).
Qed.
End checked.

Section put.
Context `{ICU} `{!ICULaws} `{!MojSchema.Regex} {I T : Type} `{EngineLaws I T} {Q : Type} `{StorageSeqLaws Q} {W : Type} `{SharedTokenSetLaws W}.
Context (e : MojDbKindEngine.MojDbKindEngine) (m_objDb : Z) (Eo : engine_ok e m_objDb).
Import MojDb (d_world, d_states, d_idSeq, d_req, MojDbFlagNone, MojDbFlagMerge, MojDbFlagIgnoreMissing, MojFlagGet).
Import MojDbKind (w_txn, w_indexes).
Abbreviation Db := (@MojDb.Db _ I T Q W).
Abbreviation txn d := (w_txn (d_world d)).
Abbreviation db_ok := (db_ok e m_objDb).
Abbreviation put d clock obj flags cs shard := (MojDb.putImpl e m_objDb clock obj flags cs shard d).

(** An object that may be put into a database: its id, if it has one, is not moved to
    another shard; a new id is not in use; and the sequence of revisions does not run
    out. *)
Record acceptable (d : Db) (objs : MojObject -> Prop) (clock : Z * Z) (obj : MojObject) (flags : Z) (shard : mstring) : Prop := {
  ac_ready : ready obj;
  ac_id : forall id, MojObject.get obj IdKey = Some id -> flags = MojDbFlagNone -> MojDb.attachShardId shard id = Ok id;
  ac_fresh : MojObject.get obj IdKey = None -> fresh objs clock shard;
  ac_room : seq_pos (d_idSeq d) + Z.of_nat (values obj) + 3 < 2 ^ 63;
  ac_merged : forall p, objs p -> seq_pos (d_idSeq d) + Z.of_nat (values obj + values p) + 3 < 2 ^ 63
}.

(** The objects once [out] is among them. *)
Definition with_object (objs : MojObject -> Prop) (out o : MojObject) : Prop :=
  o = out \/ (objs o /\ MojObject.get o IdKey <> MojObject.get out IdKey).

Lemma with_object_put objs out old id : MojObject.get out IdKey = Some id -> in_place objs old id ->
  forall o, put_objs objs out old o <-> with_object objs out o.
Proof.
  intros Ei [Hold Hid] o. unfold put_objs, with_object. rewrite Ei. split; (intros [->|[Ho N]]; [by left|right; split; [done|]]).
  - intros E. by apply N, Hid.
  - intros E. apply Hold in E as [_ E]. done.
Qed.

Lemma db_objs_ext d objs objs' : (forall o, objs o <-> objs' o) -> db_ok d objs -> db_ok d objs'.
Proof.
  intros E [K R O S Q0]. split; [|..|done|done].
  - eapply kinds_hold_ext; [|exact K]. intros a o. simpl. by rewrite E.
  - intros id bs Wi Eh. destruct (R id bs Wi Eh) as (o & Ho & Ro). exists o. by rewrite <- E.
  - intros o Ho. apply O. by apply E.
Qed.

(** What a put that succeeds has done. *)
Definition put_done (d : Db) (objs : MojObject -> Prop) (obj : MojObject) (d' : Db) (out : MojObject) : Prop :=
  exists putId kindId del, (forall id, MojObject.get obj IdKey = Some id -> putId = id) /\ storable out putId kindId (seq_pos (d_idSeq d)) del /\
    db_ok d' (with_object objs out) /\ seq_pos (d_idSeq d) < seq_pos (d_idSeq d').

Definition put_none (objs : MojObject -> Prop) (obj : MojObject) (flags : Z) (d' : Db) (out : MojObject) : Prop :=
  db_ok d' objs /\
  ((exists p, objs p /\ MojObject.get p IdKey = MojObject.get obj IdKey /\ MojObject.equals out p = true) \/
   (MojFlagGet flags MojDbFlagIgnoreMissing && MojFlagGet flags MojDbFlagMerge = true /\ out = MojObject.putBool obj MojDb.IgnoreIdKey true /\
    forall id o, MojObject.get obj IdKey = Some id -> objs o -> MojObject.get o IdKey <> Some id)).

Lemma get_item d objs id : db_ok d objs -> well id ->
  match holds (txn d) m_objDb id with
  | Some bs => exists p kindId rev del, objs p /\ recorded e d id p bs /\ storable p id kindId rev del /\ scalar id /\ rev < seq_pos (d_idSeq d)
  | None => forall o, objs o -> MojObject.get o IdKey <> Some id
  end.
Proof.
  intros K Wi. destruct (holds (txn d) m_objDb id) as [bs|] eqn:Eh.
  - destruct (db_records _ _ _ _ K id bs Wi Eh) as (p & Hp & R). pose proof R as (kindId & rev & del & k & t & t' & sh & s & St & Sc & ? & ? & ? & ? & ? & ? & ? & B).
    by exists p, kindId, rev, del.
  - intros o Ho Ei. destruct (stored_at _ _ _ _ _ _ K Ho Ei) as (bs & Eh' & _). congruence.
Qed.

(** The object that [putObj] leaves. *)
Lemma put_placed d d3 objs clock id obj obj2 old oldItem op cs shard d' out : db_ok d3 objs -> ready obj2 -> room d3 obj2 ->
  d_idSeq d3 = d_idSeq d -> (id = UndefinedImpl -> MojObject.get obj IdKey = None /\ old = None /\ fresh objs clock shard) ->
  (id <> UndefinedImpl -> MojObject.get obj IdKey = Some id /\ MojObject.get obj2 IdKey = Some id /\ in_place objs old id) ->
  MojDb.putObj e m_objDb clock id obj2 old oldItem op cs shard d3 = (d', Ok out) ->
  (db_ok d' objs /\ exists p, old = Some p /\ MojObject.equals out p = true) \/ put_done d objs obj d' out.
Proof.
  intros K Ro B Eq Un Gi E.
  destruct (putObj_ok e m_objDb Eo d3 objs clock id obj2 old oldItem op cs shard d' out K Ro B) as [(-> & -> & P)|(putId & kindId & del & Pi & Pl & So & K' & L & Fd)];
    [by intros ->; destruct (Un eq_refl) as (_ & ?)|by intros N; destruct (Gi N) as (_ & ?)|done|by left|right].
  rewrite Eq in So, L. exists putId, kindId, del. split; [|split; [done|split; [|done]]].
  - intros i Ei. assert (id = UndefinedImpl \/ id <> UndefinedImpl) as [->|N] by (destruct id; by (left + right)).
    + destruct (Un eq_refl) as (En & _). congruence.
    + rewrite (Pi N). destruct (Gi N) as (En & _). congruence.
  - eapply db_objs_ext; [|exact K']. apply with_object_put with putId; [apply So|done].
Qed.

Lemma putImpl_ok d objs clock obj flags cs shard d' out : db_ok d objs -> acceptable d objs clock obj flags shard ->
  put d clock obj flags cs shard = (d', Ok out) -> put_none objs obj flags d' out \/ put_done d objs obj d' out.
Proof.
  intros K [Ro Ai Af Ar Am] E. unfold MojDb.putImpl in E. destruct (MojObject.get obj IdKey) as [id|] eqn:Ei; cycle 1.
  { apply bind_inv in E as (d1 & p & [= <- <-] & E). destruct (MojFlagGet flags _ && _) eqn:Fl.
    - injection E as <- <-. left. split; [done|]. right. split; [done|]. split; [done|]. congruence.
    - apply put_placed with (d := d) (obj := obj) (objs := objs) in E as [(_ & q & [=] & _)|D]; try done; [by right|].
      intros _. split; [done|]. split; [done|]. by apply Af. }
  pose proof (get_well _ _ _ (ready_well _ Ro) Ei) as Wi. assert (id <> UndefinedImpl) as Nu by (intros ->; by destruct Wi).
  apply bind_inv in E as (d1 & [id' item] & E1 & E). apply bind_inv in E1 as (d2 & id2 & E2 & E1).
  assert (id2 = id /\ d2 = d) as [-> ->].
  { destruct (Z.eqb_spec flags MojDbFlagNone) as [F|_]; [|by injection E2 as <- <-]. apply lift_inv in E2 as [E2' ->].
    rewrite (Ai id eq_refl F) in E2'. by injection E2' as <-. }
  apply bind_inv in E1 as (d2 & sh & [_ ->]%lift_inv & E1). apply bind_inv in E1 as (d2 & it & E2' & E1). injection E1 as <- <- <-.
  destruct (get_db e m_objDb Eo d objs id K Wi) as (d3 & E3 & K3 & Es3 & Eq3 & _).
  rewrite E3 in E2'. injection E2' as <- <-. pose proof (get_item d objs id K Wi) as G. destruct (holds (txn d) m_objDb id) as [bs|]; cbn [option_map] in E.
  - destruct G as (p & kindId & rev & del & Hp & R & St & Sc & B). apply bind_inv in E as (d4 & dd & [= <- <-] & E).
    apply bind_inv in E as (d4 & prev & [Ep ->]%lift_inv & E). assert (MojDb.toObject e d3 (item_of id bs) = Ok p) as Ep'.
    { rewrite <- (recorded_reads e m_objDb Eo d id p bs R). unfold MojDb.toObject. by rewrite Es3. }
    rewrite Ep' in Ep. injection Ep as <-. apply bind_inv in E as (d4 & obj2 & [Ec ->]%lift_inv & E).
    destruct (check_prev_ok flags obj p obj2 id Ro (storable_ready _ _ _ _ _ St Sc) Ei Ec) as (Ro2 & Ei2 & V).
    assert (in_place objs (Some p) id) as Pl.
    { split; [intros q [= <-]; split; [done|apply St]|]. intros o Ho Eo'. f_equal. apply (one_object e m_objDb Eo d objs p o K Hp Ho). rewrite Eo'. apply St. }
    specialize (Am p Hp). apply put_placed with (d := d) (obj := obj) (objs := objs) in E as [(K' & q & [= <-] & Eq)|D]; try done.
    + left. split; [done|]. left. exists p. rewrite Ei. split; [done|]. split; [apply St|done].
    + by right.
    + unfold room. rewrite Eq3. lia.
  - destruct (MojFlagGet flags _ && _) eqn:Fl.
    { injection E as <- <-. left. split; [done|]. right. split; [done|]. split; [done|]. intros i o Ei' Ho. assert (i = id) as -> by congruence. by apply G. }
    apply put_placed with (d := d) (obj := obj) (objs := objs) in E as [(_ & q & [=] & _)|D]; try done.
    + by right.
    + unfold room. rewrite Eq3. lia.
    + intros _. split; [done|]. split; [done|]. split; [done|]. intros o Ho Eo'. by destruct (G o Ho).
Qed.

(** *** Deleting *)
(** The objects without one of them. *)
Definition without (objs : MojObject -> Prop) (p o : MojObject) : Prop := objs o /\ o <> p.

Lemma engine_remove d d1 objs p cs r : db_ok d objs -> objs p -> MojDb.kind_update e None (Some p) OpDelete cs d = (d1, Ok r) ->
  later d d1 /\ d_states d1 = d_states d /\ d_idSeq d1 = d_idSeq d /\ same_records (txn d) (txn d1) /\
  kinds_hold (d_world d1) (fun a o => without objs p o /\ belongs e o a).
Proof.
  intros K Hp E. apply bind_inv in E as (d' & dd & [= <- <-] & E). apply bind_inv in E as (d' & [[n k] w] & [E' ->]%lift_inv & E). injection E as <- _.
  unfold MojDbKindEngine.update in E'. apply res_bind_ok in E' as (oldKind & Eo1 & E'). apply res_bind_ok in Eo1 as (k1 & Ek & [= <-]).
  rewrite Ek in E'. cbn [res_bind] in E'. rewrite Z.eqb_refl in E'. apply res_bind_ok in E' as ([n1 w1] & E' & [= <- <- <-]).
  pose proof (update_ok _ _ _ _ _ _ _ _ _ _ E') as (_ & P & _). apply prepared_none in P as ->.
  destruct (update_holds_kinds _ _ _ _ _ _ _ _ _ _ _ (eo_graph _ _ Eo) (getKind_live e m_objDb Eo _ _ Ek) (db_kinds _ _ _ _ K) E') as (K1 & _ & R1).
  { intros a Ra. apply fits_version; [done| |intros o o'; by apply (one_object e m_objDb Eo d)]. intros q [= <-]. split; [done|by exists k1]. }
  split; [by apply later_same|]. repeat (split; [done|]). eapply kinds_hold_ext; [|exact K1]. intros a o.
  rewrite (after_put e m_objDb Eo); [|done|by intros q [= <-]|by eapply (getKind_live e m_objDb Eo)]. unfold without. naive_solver.
Qed.

Lemma removed d d' objs p id : db_ok d objs -> later d d' -> objs p -> MojObject.get p IdKey = Some id -> well id ->
  kinds_hold (d_world d') (fun a o => without objs p o /\ belongs e o a) ->
  holds (txn d') m_objDb id = None -> (forall id', well id' -> id' <> id -> holds (txn d') m_objDb id' = holds (txn d) m_objDb id') ->
  db_ok d' (without objs p).
Proof.
  intros K L Hp Ep Wid K' Eh F. split; [done|..].
  - intros id' bs' Wi E. destruct (well_dec id' id Wi Wid) as [->|N]; [congruence|]. rewrite F in E by done.
    destruct (db_records _ _ _ _ K id' bs' Wi E) as (o & Ho & Ro). exists o. split; [|by apply (recorded_later e d)].
    split; [done|]. intros ->. apply recorded_id in Ro as (Ei & _). congruence.
  - intros o [Ho No]. destruct (db_objects _ _ _ _ K o Ho) as (id' & bs' & E & Ro). exists id', bs'.
    split; [|by apply (recorded_later e d)]. apply recorded_id in Ro as (Ei & _ & Wi & _). rewrite F; [done..|]. intros ->.
    apply No, (one_object e m_objDb Eo d objs o p K Ho Hp). congruence.
  - intros name k E. destruct (db_states _ _ _ _ K name k E) as (s & Es & Os). destruct (later_states _ _ L k s Es Os) as (s' & Es' & Os' & _). by exists s'.
  - by apply (later_seq d d'), K.
Qed.

Lemma delObj_purged d d' objs p id item foundObjOut (m_enablePurge : bool) clock flags out : db_ok d objs -> objs p -> MojObject.get p IdKey = Some id -> well id ->
  MojFlagGet (if m_enablePurge then flags else Z.lor flags MojDb.MojDbFlagPurge) MojDb.MojDbFlagPurge = true ->
  MojDb.delObj e m_objDb m_enablePurge clock id p item foundObjOut flags d = (d', Ok out) ->
  out = MojObject.put foundObjOut IdKey id /\ db_ok d' (without objs p) /\ holds (txn d') m_objDb id = None.
Proof.
  intros K Hp Ep Wi Fl E. unfold MojDb.delObj in E. rewrite Fl in E. apply bind_inv in E as (d1 & sh & [_ ->]%lift_inv & E).
  apply bind_inv in E as (d1 & [] & [= <-] & E). set (d0 := MojDb.with_req _ _) in E. assert (db_ok d0 objs) as K0 by (by destruct K).
  apply bind_inv in E as (d1 & r & E1 & E). destruct (engine_remove d0 d1 objs p _ _ K0 Hp E1) as (L1 & Es1 & Eq1 & R1 & K1).
  destruct (R1 (kh_txn _ _ (db_kinds _ _ _ _ K0))) as [O1 F1]. apply bind_inv in E as (d2 & found & E2 & E).
  destruct (del_db_law m_objDb id (txn d1) O1 (eo_db _ _ Eo) Wi) as (t2 & r2 & Ed & O2 & _ & X2 & P2).
  unfold MojDb.on_txn in E2. rewrite Ed in E2. injection E2 as <- ->. destruct P2 as (-> & Hn & F2).
  apply bind_inv in E as (d3 & dd & [= <- <-] & E). apply bind_inv in E as (d3 & b & [Eb ->]%lift_inv & E).
  apply bind_inv in E as (d3 & [] & E3 & E). injection E as <- <-. split; [done|].
  unfold MojDb.on_txn in E3. injection E3 as <-. simpl.
  pose proof (offsetQuota_ok (MojDbKind.k_quotas (MojDbKindEngine.m_kindsAt e)) (txn_base t2) (- Z.of_nat (length (MojDbLevelItem.m_slice item))) (base_ok t2 O2)) as Qb.
  simpl in Eb. rewrite Eb in Qb. destruct (base_law t2 b O2 Qb) as (O3 & _ & X3 & F3). split; [|by rewrite F3].
  apply (removed d) with (id := id); [done| |done..| | |].
  - split; [|apply L1..]. intros k s Es. by apply (later_states _ _ L1).
  - apply (kinds_frame (d_world d1)); [done..|]. intros j. simpl. by rewrite X3, X2.
  - simpl. by rewrite F3.
  - intros id' Wi' N. simpl. rewrite F3, F2; [|apply (eo_db _ _ Eo)|done|by right]. apply F1, (eo_db _ _ Eo).
Qed.

(** The ids of the objects that are put name a shard. *)
Lemma put_shard d clock obj flags cs shard d' out id : MojObject.get obj IdKey = Some id ->
  (flags = MojDbFlagNone -> MojDb.attachShardId shard id = Ok id) -> put d clock obj flags cs shard = (d', Ok out) ->
  exists n, MojDbIdGenerator.extractShard id = Ok n.
Proof.
  intros Ei Ai E. unfold MojDb.putImpl in E. rewrite Ei in E. apply bind_inv in E as (d1 & [id' item] & E1 & _). apply bind_inv in E1 as (d2 & id2 & E2 & E1).
  assert (id2 = id) as ->.
  { destruct (Z.eqb_spec flags MojDbFlagNone) as [F|_]; [|by injection E2 as <- <-]. apply lift_inv in E2 as [E2' ->]. rewrite (Ai F) in E2'. by injection E2' as <-. }
  apply bind_inv in E1 as (d3 & n & [En ->]%lift_inv & _). by exists n.
Qed.


(** C2: No update is lost: once a put has changed an object, a second put made from the version that the first one replaced is refused, with or without a merge, unless it is forced, and leaves the objects as the first put did. *)
Theorem no_lost_update d objs clock obj flags cs shard d1 out id p rev clock2 obj2 flags2 cs2 shard2 : db_ok d objs ->
  acceptable d objs clock obj flags shard -> put d clock obj flags cs shard = (d1, Ok out) -> MojObject.get obj IdKey = Some id ->
  objs p -> MojObject.get p IdKey = Some id -> MojObject.equals out p = false ->
  well obj2 -> MojObject.get obj2 IdKey = Some id -> MojObject.get p RevKey = Some (IntImpl rev) -> MojObject.get obj2 RevKey = Some (IntImpl rev) ->
  MojFlagGet flags2 MojDb.MojDbFlagForce = false -> (flags2 = MojDbFlagNone -> MojDb.attachShardId shard2 id = Ok id) ->
  exists d2, put d1 clock2 obj2 flags2 cs2 shard2 = (d2, Err MojErrDbRevisionMismatch) /\ db_ok d2 (with_object objs out).
Proof.
  intros K A E Ei Hp Ep Ch W2 Ei2 Er Er2 F2 A2. destruct (put_shard d clock obj flags cs shard d1 out id Ei (ac_id _ _ _ _ _ _ A id Ei) E) as [n En].
  destruct (putImpl_ok d objs clock obj flags cs shard d1 out K A E) as [[_ [(q & Hq & Eq & Ch')|(_ & _ & N)]]|D].
  { assert (q = p) as -> by (apply (one_object e m_objDb Eo d objs q p K Hq Hp); congruence). congruence. }
  { by destruct (N id p Ei Hp). }
  destruct D as (id' & kindId & del & Pi & St & K1 & _). rewrite (Pi id Ei) in St. clear Pi.
  pose proof (get_well _ _ _ W2 Ei2) as Wi. pose proof (get_item d objs id K Wi) as G. destruct (holds (txn d) m_objDb id) as [bs0|]; [|by destruct (G p)].
  destruct G as (p' & kindId0 & rev0 & del0 & Hp' & _ & St0 & _ & B). assert (p' = p) as ->.
  { apply (one_object e m_objDb Eo d objs p' p K Hp' Hp). rewrite Ep. apply St0. }
  assert (rev = rev0) as <- by (destruct St0 as [[_ _ _ Er' _] _]; congruence).
  destruct (stored_at e m_objDb d1 _ id out K1) as (bs & Eh & R); [by left|apply St|].
  destruct (get_db e m_objDb Eo d1 _ id K1 Wi) as (d2 & Eg & K2 & Es2 & _ & _). exists d2. split; [|done].
  unfold MojDb.putImpl. rewrite Ei2. unfold bind at 1 2. assert ((if flags2 =? MojDbFlagNone then lift (MojDb.attachShardId shard2 id) else ret id) d1 = (d1, Ok id)) as ->.
  { destruct (Z.eqb_spec flags2 MojDbFlagNone) as [F|_]; [|done]. by rewrite (A2 F). }
  unfold bind at 1. rewrite En. cbn [lift]. unfold bind at 1. rewrite Eg, Eh. cbn [option_map ret].
  unfold bind at 1. cbn [get]. unfold bind at 1. assert (MojDb.toObject e d2 (item_of id bs) = Ok out) as ->.
  { rewrite <- (recorded_reads e m_objDb Eo d1 id out bs R). unfold MojDb.toObject. by rewrite Es2. }
  cbn [lift]. unfold bind at 1. rewrite (stale_refused flags2 obj2 out rev (seq_pos (d_idSeq d))); [done| |by apply W2| |done|by apply St|lia]; [done|].
  by destruct (storable_well _ _ _ _ _ St).
Qed.

End put.
