(* ===== verification/DbExample.v ===== *)
(** * A database at work

    Two kinds, the second an extension of the root kind with an index on two properties,
    over a LevelDB that is a log: the theorems on puts and deletions at concrete inputs. *)

From stdpp Require Import gmap relations.
From S2P Require Import Prelude Containers CoreUtil Number Object ObjectBuilder DataSerialization TokenSet ObjectSerialization Text DbKey Json JsonRoundTrip DbQuery DbQueryRoundTrip QueryPlan QueryPlanSpec QueryPlanSelect OrderedMap LevelDb LevelDbSpec LevelDbTxn LevelDbCursor ObjectItem ObjectItemSpec Effects StorageTxn LevelStore Sequence Watcher Extractor ExtractorSpec Index IndexSpec LevelIndex IndexExample Storage KindGraph KindGraphSpec Schema SchemaSpec Permission Quota Req Kind KindSpec KindEngine Merge Db DbSpec DbPutSpec.

Module DbExample.
#[local] Existing Instance QueryPlanSelect.shift_icu.
#[local] Existing Instance QueryPlanSelect.shift_icu_laws.
#[local] Existing Instance SchemaExample.literal.
#[local] Existing Instance LogDB.logdb.
#[local] Existing Instance LogDB.logdb_laws.
#[local] Existing Instance IndexExample.engine.
#[local] Existing Instance level_databases.
#[local] Existing Instance RecordSpec.table.
#[local] Existing Instance RecordSpec.table_laws.

Definition dbs (db : Z) : @DB LogDB.logdb := [].
#[local] Instance engine_laws : ExtIndexLaws MojObject LevelTxn := level_engine_index [] 1 dbs 100 0.
#[local] Instance storage : StorageDatabase LevelTxn := level_databases [] dbs.
#[local] Instance storage_laws : EngineLaws MojObject LevelTxn := level_engine [] 1 dbs 100 0.

(** ** The kinds *)
Definition kind (token : Z) (assignId : bool) : MojDbKind.MojDbKind := {|
  MojDbKind.m_name := []; MojDbKind.m_version := 1; MojDbKind.m_owner := _T "com.palm"; MojDbKind.m_privateData := false;
  MojDbKind.m_assignId := assignId; MojDbKind.m_schema := MojSchema.init; MojDbKind.m_indexObjects := []; MojDbKind.m_revSets := [];
  MojDbKind.m_backup := false; MojDbKind.m_builtin := false; MojDbKind.m_token := token; MojDbKind.m_hash := 0; MojDbKind.m_obj := UndefinedImpl |}.

Definition graph : KindGraph.MojDbKind.Graph :=
  {[ 10 := {| KindGraph.MojDbKind.m_id := RootKindId; KindGraph.MojDbKind.m_superIds := []; KindGraph.MojDbKind.m_supers := []; KindGraph.MojDbKind.m_subs := [11] |};
     11 := {| KindGraph.MojDbKind.m_id := _T "T:1"; KindGraph.MojDbKind.m_superIds := [RootKindId]; KindGraph.MojDbKind.m_supers := [10]; KindGraph.MojDbKind.m_subs := [] |} ]}.

Definition kinds : MojDbKindEngine.MojDbKindEngine := {|
  MojDbKindEngine.m_kindsAt := {| MojDbKind.k_graph := graph; MojDbKind.k_kinds := {[ 10 := kind 20 false; 11 := kind 21 true ]};
    MojDbKind.k_permissions := MojDbPermissionEngine.init; MojDbKind.k_quotas := [] |};
  MojDbKindEngine.m_kinds := [(RootKindId, 10); (_T "T:1", 11)];
  MojDbKindEngine.m_tokens := [(20, RootKindId); (21, _T "T:1")] |}.

Lemma graph_links k : KindGraph.MojDbKind.links graph k = if k =? 10 then {| KindGraph.MojDbKind.m_id := RootKindId; KindGraph.MojDbKind.m_superIds := []; KindGraph.MojDbKind.m_supers := []; KindGraph.MojDbKind.m_subs := [11] |}
  else if k =? 11 then {| KindGraph.MojDbKind.m_id := _T "T:1"; KindGraph.MojDbKind.m_superIds := [RootKindId]; KindGraph.MojDbKind.m_supers := [10]; KindGraph.MojDbKind.m_subs := [] |} else KindGraph.MojDbKind.no_links.
Proof.
  unfold KindGraph.MojDbKind.links, graph. destruct (Z.eqb_spec k 10) as [->|N1]; [done|]. destruct (Z.eqb_spec k 11) as [->|N2]; [done|].
  by rewrite lookup_insert_ne, lookup_singleton_ne by done.
Qed.

Lemma graph_live k : live graph k -> k = 10 \/ k = 11.
Proof.
  unfold live, graph. intros [x Hx]. destruct (decide (k = 10)); [by left|]. destruct (decide (k = 11)); [by right|].
  by rewrite lookup_insert_ne, lookup_singleton_ne in Hx by done.
Qed.

Lemma graph_super k s : super graph k s -> k = 11 /\ s = 10.
Proof.
  unfold super. rewrite graph_links. destruct (Z.eqb_spec k 10) as [->|N1]; [by intros ?%elem_of_nil|].
  destruct (Z.eqb_spec k 11) as [->|N2]; [by intros ->%list_elem_of_singleton|]. by intros ?%elem_of_nil.
Qed.

Lemma graph_is_ok : graph_ok graph.
Proof.
  split.
  - intros k k' [->| ->]%graph_live [->| ->]%graph_live; by vm_compute.
  - intros k s [-> ->]%graph_super. by split; eexists.
  - intros k s. rewrite !graph_links.
    repeat match goal with |- context [?x =? ?y] => destruct (Z.eqb_spec x y); subst end; try done; cbn [count_occ KindGraph.MojDbKind.m_supers KindGraph.MojDbKind.m_subs KindGraph.MojDbKind.no_links];
      repeat match goal with |- context [Z.eq_dec ?x ?y] => destruct (Z.eq_dec x y) end; congruence || lia.
  - exists Z.to_nat. intros k s [-> ->]%graph_super. lia.
  - intros k s [-> ->]%graph_super. done.
Qed.

Lemma kind_names name k : MojDbKindEngine.getKind kinds name = Ok k -> (name = RootKindId /\ k = 10) \/ (name = _T "T:1" /\ k = 11).
Proof.
  unfold MojDbKindEngine.getKind, KindGraph.MojDbKind.find_kind. cbn [MojDbKindEngine.m_kinds kinds List.find fst].
  destruct (bool_decide_reflect (RootKindId = name)) as [<-|]; [intros [= <-]; by left|].
  destruct (bool_decide_reflect (_T "T:1" = name)) as [<-|]; [intros [= <-]; by right|done].
Qed.

Lemma kinds_ok : engine_ok (I := MojObject) (T := LevelTxn) kinds 2.
Proof.
  split.
  - exact graph_is_ok.
  - intros name k [[_ ->]|[_ ->]]%kind_names; by eexists.
  - constructor. intros name tok (k & E & Et)%res_bind_ok. apply kind_names in E as [[-> ->]|[-> ->]]; injection Et as <-; (split; [by vm_compute|done]).
  - intros k kd r. destruct (decide (k = 10)) as [->|N1]; [intros [= <-]; by intros ?%elem_of_nil|].
    destruct (decide (k = 11)) as [->|N2]; [intros [= <-]; by intros ?%elem_of_nil|]. simpl. by rewrite lookup_insert_ne, lookup_singleton_ne by done.
  - by simpl.
Qed.

(** ** The empty database *)
Abbreviation Db := (@MojDb.Db QueryPlanSelect.shift_icu MojObject LevelTxn MojDbLevelSeq.MojDbLevelSeq MojDbKindState.MojDbKindState).
Abbreviation put d obj flags := (MojDb.putImpl kinds 2 (0, 0) obj flags true [] d).

Definition d0 : Db := {|
  MojDb.d_world := {| MojDbKind.w_indexes := {[ 11 := [MojDbIndex.s_index IndexExample.s0] ]};
                      MojDbKind.w_txn := {| l_address := 500; l_txn := MojDbLevelEnvTxn.begin |} |};
  MojDb.d_states := {[ 10 := MojDbKindState.start; 11 := MojDbKindState.start ]};
  MojDb.d_idSeq := {| MojDbLevelSeq.m_db := [] : @DB LogDB.logdb; MojDbLevelSeq.m_open := true; MojDbLevelSeq.m_key := [1]; MojDbLevelSeq.m_next := 5; MojDbLevelSeq.m_allocated := 5 |};
  MojDb.d_req := MojDbReq.make true |}.
Definition none (o : MojObject) : Prop := False.

Definition object (props : list (mstring * MojObject)) : MojObject :=
  fold_left (fun o p => MojObject.put o p.1 p.2) props (ObjectImpl []).
Definition id := StringImpl (_T "a").


Lemma first_txn_ok : all_ok {| l_address := 500; l_txn := MojDbLevelEnvTxn.begin |}.
Proof. split; [|split; [constructor|done]]. intros db. apply LevelDbTxn.txn_begin_ok. Qed.

Lemma d0_ok : db_ok kinds 2 d0 none.
Proof.
  assert (forall a x, x ∈ MojDbKind.indexes (MojDb.d_world d0) a -> a = 11 /\ x = MojDbIndex.s_index IndexExample.s0) as X.
  { intros a x. unfold MojDbKind.indexes. change (MojDbKind.w_indexes (MojDb.d_world d0)) with ({[ 11 := [MojDbIndex.s_index IndexExample.s0] ]} : gmap Z _).
    destruct (decide (a = 11)) as [->|N]; [|rewrite lookup_singleton_ne by done; by intros ?%elem_of_nil].
    rewrite lookup_singleton_eq. simpl. intros Hx%list_elem_of_singleton. by split. }
  split; [split| | | |].
  - exact first_txn_ok.
  - intros a x [-> ->]%X. split.
    + by eexists.
    + split; constructor.
    + apply IndexExample.sound_of. by left.
    + split; [by intros o [[] _]|by intros o o' [[] _]].
    + intros k _. split; [|by intros (o & [[] _] & _)]. intros [v Hv]. by apply elem_of_nil in Hv.
  - intros a. unfold MojDbKind.indexes. change (MojDbKind.w_indexes (MojDb.d_world d0)) with ({[ 11 := [MojDbIndex.s_index IndexExample.s0] ]} : gmap Z _).
    destruct (decide (a = 11)) as [->|N]; [rewrite lookup_singleton_eq; simpl; apply NoDup_singleton|]. rewrite lookup_singleton_ne by done. constructor.
  - by intros a b x y [-> _]%X [-> _]%X _.
  - intros i bs _ E. done.
  - by intros o [].
  - intros name k [[_ ->]|[_ ->]]%kind_names; exists MojDbKindState.start; (split; [done|apply MojDbKindState.inv_start]).
  - simpl. lia.
Qed.

(** ** The first version *)
Lemma object_well props : Forall (fun p => str_ok p.1 /\ QueryPlanSpec.well p.2) props -> QueryPlanSpec.well (object props).
Proof.
  intros F. unfold object. assert (QueryPlanSpec.well (ObjectImpl [])) as O by (split; [apply empty_ok|done]). revert O. generalize (ObjectImpl []).
  induction F as [|p props [N [Ov Dv]] _ IH]; intros o [O D]; [done|]. simpl. apply IH. split; [|by apply put_defined].
  by apply MojObject.put_ok.
Qed.

Lemma good : str_ok IdKey /\ str_ok KindKey /\ str_ok RevKey /\ str_ok (_T "n") /\ str_ok (_T "tags") /\ str_ok (_T "x") /\ str_ok (_T "y") /\ str_ok (_T "a") /\ str_ok (_T "T:1").
Proof. repeat split; by apply QueryRoundTrip.str_okb. Qed.

Lemma str_well s : str_ok s -> QueryPlanSpec.well (StringImpl s).
Proof. by split. Qed.

Lemma int_well n : in_int 64 n -> QueryPlanSpec.well (IntImpl n).
Proof. by split. Qed.

Definition version (n : Z) (tag : string) (more : list (mstring * MojObject)) : MojObject :=
  object ([(IdKey, id); (KindKey, StringImpl (_T "T:1")); (_T "n", IntImpl n); (_T "tags", ArrayImpl [StringImpl (_T tag)])] ++ more).

Lemma version_well n tag more : in_int 64 n -> str_ok (_T tag) -> Forall (fun p => str_ok p.1 /\ QueryPlanSpec.well p.2) more ->
  QueryPlanSpec.well (version n tag more).
Proof.
  intros B S F. destruct good as (? & ? & ? & ? & ? & ? & ? & ? & ?). apply object_well, Forall_app. split; [|done].
  repeat constructor; simpl; auto; apply str_well || apply int_well; done.
Qed.

Lemma version_get n tag more k : in_int 64 n -> str_ok (_T tag) -> Forall (fun p => str_ok p.1 /\ QueryPlanSpec.well p.2) more ->
  more = [] \/ more = [(RevKey, IntImpl 5)] -> k = IdKey \/ k = KindKey \/ k = DelKey ->
  MojObject.get (version n tag more) k = if decide (k = IdKey) then Some id else if decide (k = KindKey) then Some (StringImpl (_T "T:1")) else None.
Proof. by intros _ _ _ [-> | ->] [->|[->| ->]]. Qed.

Lemma version_ready n tag more : in_int 64 n -> str_ok (_T tag) -> more = [] \/ more = [(RevKey, IntImpl 5)] -> ready (version n tag more).
Proof.
  intros B S M. assert (Forall (fun p => str_ok p.1 /\ QueryPlanSpec.well p.2) more) as F.
  { destruct M as [-> | ->]; repeat constructor; try apply good; simpl; unfold in_int; lia. }
  split; [by apply version_well|..]; intros v; rewrite version_get by auto; simpl; intros [= <-]; try done. by eexists.
Qed.

Lemma version_acceptable (d : Db) objs n tag more : in_int 64 n -> str_ok (_T tag) -> more = [] \/ more = [(RevKey, IntImpl 5)] ->
  seq_pos (MojDb.d_idSeq d) < 1000 -> (forall p, objs p -> (values p < 1000)%nat) -> acceptable d objs (0, 0) (version n tag more) MojDb.MojDbFlagNone [].
Proof.
  intros B S M L V. assert (values (version n tag more) < 100)%nat as Vv by (destruct M as [-> | ->]; by apply Nat.ltb_lt).
  split; [by apply version_ready|..].
  - intros i. rewrite version_get by (auto || (destruct M as [-> | ->]; repeat constructor; try apply good; simpl; unfold in_int; lia)). by intros [= <-].
  - by destruct M as [-> | ->].
  - lia.
  - intros p Hp. specialize (V p Hp). lia.
Qed.

Definition v1 := version 1 "x" [].
Definition v2 := version 2 "y" [(RevKey, IntImpl 5)].
Definition v3 := version 3 "x" [(RevKey, IntImpl 5)].
Definition d1 : Db := Eval vm_compute in (put d0 v1 MojDb.MojDbFlagNone).1.
Definition out1 : MojObject := Eval vm_compute in MojObject.put v1 RevKey (IntImpl 5).

Lemma put1 : put d0 v1 MojDb.MojDbFlagNone = (d1, Ok out1).
Proof. by vm_compute. Qed.

Lemma accept1 : acceptable d0 none (0, 0) v1 MojDb.MojDbFlagNone [].
Proof. apply version_acceptable; [unfold in_int; lia|apply good|by left|simpl; lia|by intros p []]. Qed.


Definition objs1 := with_object none out1.

Lemma d1_ok : db_ok kinds 2 d1 objs1.
Proof.
  destruct (putImpl_ok kinds 2 kinds_ok d0 none (0, 0) v1 MojDb.MojDbFlagNone true [] d1 out1 d0_ok accept1 put1) as [[_ [(p & [] & _)|(E & _)]]|(putId & kindId & del & _ & _ & K & _)];
    [discriminate E|exact K].
Qed.

Lemma objs1_one p : objs1 p -> p = out1.
Proof. by intros [->|[[] _]]. Qed.

(** ** Two clients that read the first version *)
Definition d2 : Db := Eval vm_compute in (put d1 v2 MojDb.MojDbFlagNone).1.
Definition out2 : MojObject := Eval vm_compute in MojObject.put v2 RevKey (IntImpl 6).

Lemma put2 : put d1 v2 MojDb.MojDbFlagNone = (d2, Ok out2).
Proof. by vm_compute. Qed.

Lemma no_lost_update_witness : exists d3, put d2 v3 MojDb.MojDbFlagNone = (d3, Err MojErrDbRevisionMismatch) /\
  db_ok kinds 2 d3 (with_object objs1 out2).
Proof.
  apply (no_lost_update kinds 2 kinds_ok d1 objs1 (0, 0) v2 MojDb.MojDbFlagNone true [] d2 out2 id out1 5 (0, 0) v3 MojDb.MojDbFlagNone true []).
  - exact d1_ok.
  - apply version_acceptable; [unfold in_int; lia|apply good|by right|simpl; lia|]. intros p ->%objs1_one. by apply Nat.ltb_lt.
  - exact put2.
  - reflexivity.
  - by left.
  - reflexivity.
  - reflexivity.
  - apply version_ready; [unfold in_int; lia|apply good|by right].
  - reflexivity.
  - reflexivity.
  - reflexivity.
  - reflexivity.
  - reflexivity.
Defined.

(** ** Deleting it *)
Definition d3 : Db := Eval vm_compute in (MojDb.delImpl kinds 2 true (0, 0) id MojDb.MojDbFlagNone d1).1.
Definition out3 : MojObject := Eval vm_compute in MojObject.putBool (MojObject.put v1 RevKey (IntImpl 6)) DelKey true.

Lemma del3 : MojDb.delImpl kinds 2 true (0, 0) id MojDb.MojDbFlagNone d1 = (d3, Ok (Some out3)).
Proof. by vm_compute. Qed.


(** A purge leaves nothing. *)
Definition d4 : Db := Eval vm_compute in (MojDb.delImpl kinds 2 false (0, 0) id MojDb.MojDbFlagNone d1).1.
Lemma purged : (MojDb.delImpl kinds 2 false (0, 0) id MojDb.MojDbFlagNone d1).2 = Ok (Some (MojObject.put UndefinedImpl IdKey id)) /\
  (MojDb.delImpl kinds 2 false (0, 0) id MojDb.MojDbFlagNone d4).2 = Ok None.
Proof. by vm_compute. Qed.
End DbExample.
