(* ===== verification/ShardInfo.v ===== *)
(** * What is known of a shard: MojDbKindIdList.cpp, MojDbShardInfo.cpp, MojDbShardIdCache.cpp

    The description of a shard as an object and back, the list of its kinds as a text,
    the ids of shards as text, and the cache of the descriptions, by id.  The
    conversions are those of src/src/db/MojDbShardEngine.cpp. *)

From stdpp Require Import gmap.
From S2P Require Import Prelude Containers CoreUtil Number Object DataSerialization JsonRoundTrip Effects.

(** The tokenizer and the checksum of the boost library. *)
Class Boost := {
  tokenize : Z -> mstring -> list mstring;  (* [char_separator(c)], empty tokens dropped *)
  crc_32 : bytes -> Z
}.

(** What joining texts with a separator makes. *)
Fixpoint joined (c : Z) (l : list mstring) : mstring :=
  match l with [] => [] | [s] => s | s :: l' => s ++ c :: joined c l' end.

Class BoostLaws `(Boost) := {
  tokenize_empty c : tokenize c [] = [];
  tokenize_joined c l : Forall (fun s => s <> [] /\ c ∉ s) l -> tokenize c (joined c l) = l;
  crc_32_u32 s : in_uint 32 (crc_32 s)
}.

(** ** The kinds of a shard *)
Module MojDbKindIdList.
Definition isExist (listKindIds : list mstring) (kindId : mstring) : bool := bool_decide (kindId ∈ listKindIds).
Definition add (listKindIds : list mstring) (kindId : mstring) : list mstring := listKindIds ++ [kindId].

(** The first one that is equal goes. *)
Fixpoint remove (listKindIds : list mstring) (kindId : mstring) : list mstring :=
  match listKindIds with
  | [] => []
  | k :: l => if decide (k = kindId) then l else k :: remove l kindId
  end.

Fixpoint append_all (first : bool) (listKindIds : list mstring) (str : mstring) : mstring :=
  match listKindIds with
  | [] => str
  | s :: l => append_all false l ((if first then str else str ++ [chr ","]) ++ s)
  end.

Definition toString (listKindIds : list mstring) : mstring := append_all true listKindIds [].

Definition fromString `{Boost} (str : mstring) : list mstring := match str with [] => [] | _ => tokenize (chr ",") str end.

Lemma append_all_joined l str : append_all false l str = str ++ match l with [] => [] | _ => chr "," :: joined (chr ",") l end.
Proof.
  revert str. induction l as [|s l IH]; intros str; cbn [append_all]; [by rewrite app_nil_r|].
  rewrite IH. rewrite <- !app_assoc. f_equal. cbn [app]. f_equal. by destruct l; cbn [joined]; [rewrite app_nil_r|].
Qed.

Lemma toString_joined l : toString l = joined (chr ",") l.
Proof.
  destruct l as [|s l]; [done|]. unfold toString. cbn [append_all app]. rewrite append_all_joined.
  by destruct l; cbn [joined]; [rewrite app_nil_r|].
Qed.

(** A name that can be written in the list. *)
Definition listed (s : mstring) : Prop := str_ok s /\ s <> [] /\ chr "," ∉ s.

Lemma list_roundtrip `{BoostLaws} l : Forall listed l -> fromString (toString l) = l.
Proof.
  intros F. rewrite toString_joined. unfold fromString.
  assert (tokenize (chr ",") (joined (chr ",") l) = l) as E by (apply tokenize_joined; eapply Forall_impl; [exact F|]; by intros s [_ ?]).
  destruct (joined (chr ",") l) eqn:Ej; [|done]. by rewrite tokenize_empty in E.
Qed.

Lemma toString_ok l : Forall listed l -> str_ok (toString l).
Proof.
  rewrite toString_joined. induction 1 as [|s l [Hs _] _ IH]; [constructor|]. destruct l as [|s' l]; [done|].
  apply Forall_app. split; [done|]. constructor; [done|exact IH].
Qed.

Lemma add_exist l k j : isExist (add l k) j = isExist l j || bool_decide (j = k).
Proof.
  unfold isExist, add. destruct (bool_decide_reflect (j ∈ l)), (bool_decide_reflect (j = k)); simpl;
    [apply bool_decide_eq_true_2|apply bool_decide_eq_true_2|apply bool_decide_eq_true_2|apply bool_decide_eq_false_2];
    rewrite elem_of_app, list_elem_of_singleton; tauto.
Qed.

Lemma remove_exist l k j : NoDup l -> isExist (remove l k) j = isExist l j && negb (bool_decide (j = k)).
Proof.
  intros D. enough (j ∈ remove l k <-> j ∈ l /\ j <> k) as E.
  { unfold isExist. destruct (bool_decide_reflect (j ∈ l)), (bool_decide_reflect (j = k)); simpl;
      [apply bool_decide_eq_false_2|apply bool_decide_eq_true_2|apply bool_decide_eq_false_2..]; tauto. }
  induction D as [|s l Hs D IH]; simpl; [set_solver|]. destruct (decide (s = k)) as [->|]; [set_solver|].
  rewrite !elem_of_cons, IH. naive_solver.
Qed.

Lemma remove_subset l k j : j ∈ remove l k -> j ∈ l.
Proof.
  induction l as [|s l IH]; simpl; [done|]. destruct (decide (s = k)); rewrite ?elem_of_cons; [by right|].
  intros [?|?]; [by left|right; auto].
Qed.
End MojDbKindIdList.

(** ** The cache *)
Module MojDbShardIdCache.
Abbreviation IdCache := (gmap Z MojObject).

Definition isExist (m_map : IdCache) (id : Z) : bool := bool_decide (is_Some (m_map !! id)).

(** [std::map::insert] leaves what is there. *)
Definition put (m_map : IdCache) (id : Z) (obj : MojObject) : IdCache :=
  match m_map !! id with Some _ => m_map | None => <[id := obj]> m_map end.

Definition get (m_map : IdCache) (id : Z) : option MojObject := m_map !! id.

Definition update (m_map : IdCache) (id : Z) (obj : MojObject) : IdCache * bool :=
  match m_map !! id with Some _ => (<[id := obj]> m_map, true) | None => (m_map, false) end.

Definition del (m_map : IdCache) (id : Z) : IdCache := delete id m_map.
Definition clear (m_map : IdCache) : IdCache := ∅.
End MojDbShardIdCache.

(** ** The description *)
Module MojDbShardInfo.
Record MojDbShardInfo := mkInfo {
  id : Z;
  active : bool;
  transient : bool;
  timestamp : Z;
  id_base64 : mstring;
  deviceId : mstring;
  deviceUri : mstring;
  mountPath : mstring;
  deviceName : mstring;
  databasePath : mstring;
  parentDeviceId : mstring;
  kindIds : list mstring
}.

Definition make (id : Z) (active transient : bool) : MojDbShardInfo := mkInfo id active transient 0 [] [] [] [] [] [] [] [].

Definition with_id (i : MojDbShardInfo) v := mkInfo v (active i) (transient i) (timestamp i) (id_base64 i) (deviceId i) (deviceUri i) (mountPath i) (deviceName i) (databasePath i) (parentDeviceId i) (kindIds i).
Definition with_active (i : MojDbShardInfo) v := mkInfo (id i) v (transient i) (timestamp i) (id_base64 i) (deviceId i) (deviceUri i) (mountPath i) (deviceName i) (databasePath i) (parentDeviceId i) (kindIds i).
Definition with_transient (i : MojDbShardInfo) v := mkInfo (id i) (active i) v (timestamp i) (id_base64 i) (deviceId i) (deviceUri i) (mountPath i) (deviceName i) (databasePath i) (parentDeviceId i) (kindIds i).
Definition with_timestamp (i : MojDbShardInfo) v := mkInfo (id i) (active i) (transient i) v (id_base64 i) (deviceId i) (deviceUri i) (mountPath i) (deviceName i) (databasePath i) (parentDeviceId i) (kindIds i).
Definition with_id_base64 (i : MojDbShardInfo) v := mkInfo (id i) (active i) (transient i) (timestamp i) v (deviceId i) (deviceUri i) (mountPath i) (deviceName i) (databasePath i) (parentDeviceId i) (kindIds i).
Definition with_deviceId (i : MojDbShardInfo) v := mkInfo (id i) (active i) (transient i) (timestamp i) (id_base64 i) v (deviceUri i) (mountPath i) (deviceName i) (databasePath i) (parentDeviceId i) (kindIds i).
Definition with_deviceUri (i : MojDbShardInfo) v := mkInfo (id i) (active i) (transient i) (timestamp i) (id_base64 i) (deviceId i) v (mountPath i) (deviceName i) (databasePath i) (parentDeviceId i) (kindIds i).
Definition with_mountPath (i : MojDbShardInfo) v := mkInfo (id i) (active i) (transient i) (timestamp i) (id_base64 i) (deviceId i) (deviceUri i) v (deviceName i) (databasePath i) (parentDeviceId i) (kindIds i).
Definition with_deviceName (i : MojDbShardInfo) v := mkInfo (id i) (active i) (transient i) (timestamp i) (id_base64 i) (deviceId i) (deviceUri i) (mountPath i) v (databasePath i) (parentDeviceId i) (kindIds i).
Definition with_databasePath (i : MojDbShardInfo) v := mkInfo (id i) (active i) (transient i) (timestamp i) (id_base64 i) (deviceId i) (deviceUri i) (mountPath i) (deviceName i) v (parentDeviceId i) (kindIds i).
Definition with_parentDeviceId (i : MojDbShardInfo) v := mkInfo (id i) (active i) (transient i) (timestamp i) (id_base64 i) (deviceId i) (deviceUri i) (mountPath i) (deviceName i) (databasePath i) v (kindIds i).
Definition with_kindIds (i : MojDbShardInfo) v := mkInfo (id i) (active i) (transient i) (timestamp i) (id_base64 i) (deviceId i) (deviceUri i) (mountPath i) (deviceName i) (databasePath i) (parentDeviceId i) v.

(** The properties of a description, in the order they are put. *)
Definition fields (i : MojDbShardInfo) : list (mstring * MojObject) :=
  [(_T "shardId", IntImpl (id i)); (_T "active", BoolImpl (active i)); (_T "transient", BoolImpl (transient i));
   (_T "idBase64", StringImpl (id_base64 i)); (_T "deviceId", StringImpl (deviceId i)); (_T "deviceUri", StringImpl (deviceUri i));
   (_T "mountPath", StringImpl (mountPath i)); (_T "databasePath", StringImpl (databasePath i));
   (_T "deviceName", StringImpl (deviceName i)); (_T "timestamp", IntImpl (timestamp i));
   (_T "parentDeviceId", StringImpl (parentDeviceId i)); (_T "kindIds", StringImpl (MojDbKindIdList.toString (kindIds i)))].

Definition toObject (i : MojDbShardInfo) (o_obj : MojObject) : MojObject :=
  fold_left (fun o f => MojObject.put o f.1 f.2) (fields i) o_obj.

(** Each property in turn; those before one that is missing have been taken over. *)
Definition take_prop {A} (found : res A) (set : MojDbShardInfo -> A -> MojDbShardInfo) : st MojDbShardInfo unit :=
  let! v := lift found in modify (fun i => set i v).

Definition fromObject `{Boost} (i_obj : MojObject) : st MojDbShardInfo unit :=
  let! _ := take_prop (MojObject.getRequiredErrT (MojObject.get_uint32 i_obj (_T "shardId"))) with_id in
  let! _ := take_prop (MojObjectString.getRequired_string i_obj (_T "idBase64")) with_id_base64 in
  let! _ := take_prop (MojObject.getRequiredT (MojObject.get_bool i_obj (_T "active"))) with_active in
  let! _ := take_prop (MojObject.getRequiredT (MojObject.get_bool i_obj (_T "transient"))) with_transient in
  let! _ := take_prop (MojObjectString.getRequired_string i_obj (_T "deviceId")) with_deviceId in
  let! _ := take_prop (MojObjectString.getRequired_string i_obj (_T "deviceUri")) with_deviceUri in
  let! _ := take_prop (MojObjectString.getRequired_string i_obj (_T "mountPath")) with_mountPath in
  let! _ := take_prop (MojObjectString.getRequired_string i_obj (_T "databasePath")) with_databasePath in
  let! _ := take_prop (MojObjectString.getRequired_string i_obj (_T "deviceName")) with_deviceName in
  let! _ := take_prop (MojObject.getRequiredT (MojObject.get_int i_obj (_T "timestamp"))) with_timestamp in
  let! _ := take_prop (MojObjectString.getRequired_string i_obj (_T "parentDeviceId")) with_parentDeviceId in
  take_prop (let? strKindIds := MojObjectString.getRequired_string i_obj (_T "kindIds") in
             Ok (MojDbKindIdList.fromString strKindIds)) with_kindIds.

(** ** The id as a text *)
Definition convertId (i_id : Z) : res mstring := MojString.base64Encode (MojDataWriter.writeUInt32 [] i_id) false.

Definition idOfText (i_id_base64 : mstring) : res Z :=
  let? idVec := MojString.base64Decode i_id_base64 in
  let? (o_id, _) := MojDataReader.readUInt32 idVec in Ok o_id.

Lemma id_text i : in_uint 32 i -> exists s, convertId i = Ok s /\ idOfText s = Ok i.
Proof.
  intros Hi. destruct (MojString.base64_string (MojDataWriter.writeUInt32 [] i) false) as (s & E1 & E2); [apply toBigEndian_bytes|].
  exists s. split; [done|]. unfold idOfText. rewrite E2. cbn [res_bind]. unfold MojDataWriter.writeUInt32. cbn [app].
  pose proof (readUInt32_write i [] Hi) as R. rewrite app_nil_r in R. by rewrite R.
Qed.

(** ** Round trip *)
(** Values that C++ can hold, texts without a terminator, and kinds without a comma. *)
Definition ok (i : MojDbShardInfo) : Prop :=
  in_uint 32 (id i) /\ in_int 64 (timestamp i) /\ Forall MojDbKindIdList.listed (kindIds i) /\
  Forall str_ok [id_base64 i; deviceId i; deviceUri i; mountPath i; deviceName i; databasePath i; parentDeviceId i].

(** What an object has for the properties of a description. *)
Definition describes (i : MojDbShardInfo) (o : MojObject) : Prop :=
  Forall (fun f => MojObject.get o f.1 = Some f.2) (fields i).

Lemma fields_names i : Forall (fun f => str_ok f.1) (fields i) /\ NoDup (map fst (fields i)).
Proof.
  split; [repeat constructor|]. unfold fields. cbn [map fst].
  apply (bool_decide_unpack _). by vm_compute.
Qed.

Lemma fields_ok i : ok i -> Forall (fun f => MojObject.ok f.2) (fields i).
Proof.
  intros (H1 & H2 & Hk & Hs). rewrite !Forall_cons in Hs. destruct_and!.
  repeat constructor; cbn [snd MojObject.ok]; try done; [unfold in_uint, in_int in *; lia..|by apply MojDbKindIdList.toString_ok].
Qed.

(** Putting fields of different names one after the other. *)
Lemma put_fields (fs : list (mstring * MojObject)) o : MojObject.ok o -> Forall (fun f => str_ok f.1) fs -> NoDup (map fst fs) ->
  Forall (fun f => MojObject.ok f.2) fs ->
  let o' := fold_left (fun o f => MojObject.put o f.1 f.2) fs o in
  MojObject.ok o' /\ Forall (fun f => MojObject.get o' f.1 = Some f.2) fs /\
  forall k, str_ok k -> k ∉ map fst fs -> MojObject.get o' k = MojObject.get o k.
Proof.
  intros Ho Hn Hd Hv. revert o Ho. induction fs as [|f fs IH]; intros o Ho; [done|].
  apply Forall_cons in Hn as [Hn1 Hn], Hv as [Hv1 Hv]. cbn [map] in Hd. apply NoDup_cons in Hd as [Hd1 Hd].
  destruct (IH Hn Hd Hv (MojObject.put o f.1 f.2)) as (O & F & K); [by apply MojObject.put_ok|].
  cbn [fold_left]. split; [done|]. split.
  - constructor; [|done]. rewrite K, MojObject.get_put by done. by rewrite decide_True.
  - intros k Hk [? ?]%not_elem_of_cons. rewrite K, MojObject.get_put by done. by rewrite decide_False.
Qed.

Lemma toObject_spec i o : ok i -> MojObject.ok o ->
  MojObject.ok (toObject i o) /\ describes i (toObject i o) /\
  forall k, str_ok k -> k ∉ map fst (fields i) -> MojObject.get (toObject i o) k = MojObject.get o k.
Proof.
  intros Hi Ho. destruct (fields_names i) as [Hn Hd].
  exact (put_fields (fields i) o Ho Hn Hd (fields_ok i Hi)).
Qed.

Lemma string_field o k s : MojObject.get o k = Some (StringImpl s) -> MojObjectString.getRequired_string o k = Ok s.
Proof. intros E. unfold MojObjectString.getRequired_string. by rewrite (MojObjectString.get_string_string o k s E). Qed.

Lemma fromObject_spec `{BoostLaws} i o i0 : ok i -> describes i o -> fromObject o i0 = (i, Ok tt).
Proof.
  intros (Hid & _ & Hk & _) D. unfold describes, fields in D. rewrite !Forall_cons in D. cbn [fst snd] in D. destruct_and!.
  unfold fromObject, take_prop, MojObject.get_uint32, MojObject.get_bool, MojObject.get_int.
  repeat match goal with E : MojObject.get o _ = Some _ |- _ => first [rewrite E | rewrite (string_field _ _ _ E)]; clear E end.
  cbn [MojObject.intValue MojObject.boolValue res_bind]. rewrite (MojDbKindIdList.list_roundtrip _ Hk).
  unfold in_uint in Hid. destruct (Z.leb_spec 0 (id i)); [|lia]. change MojUInt32Max with (2 ^ 32 - 1).
  destruct (Z.leb_spec (id i) (2 ^ 32 - 1)); [|lia]. by destruct i, i0.
Qed.
End MojDbShardInfo.
