(* ===== verification/ShardEngine.v ===== *)
(** * The shards: src/src/db/MojDbShardEngine.cpp, MojDbShardKindHash.cpp, MojDbMediaLinkManager.cpp

    A shard is the part of the database on a device.  Its description is an object of
    the kind ShardInfo1:1 and is kept in a cache, too; the kinds it has objects of are
    in the description, so that the objects can be found when the device is given up.
    What the engine needs of the database, of the kind and storage engines and of the
    file system is stated by classes. *)

From stdpp Require Import gmap.
From S2P Require Import Prelude Containers CoreUtil Number Object DataSerialization Text DbKey JsonRoundTrip DbQuery ObjectItem Effects ShardInfo Db.
Import MojDbShardInfo (MojDbShardInfo).

(** ** What the engine uses *)
(** The database, with the rights of an administrator. *)
Class MojDbClient (D : Type) := {
  DbCursor : Type;
  db_find : MojDbQuery.MojDbQuery -> st D DbCursor;
  cursor_get : DbCursor -> st D (option MojObject * DbCursor);
  cursor_item : DbCursor -> st D (option (MojObject * mstring) * DbCursor); (* the id and the kind of an item *)
  db_put : MojObject -> Z -> mstring -> st D MojObject;
  db_merge : MojDbQuery.MojDbQuery -> MojObject -> Z -> st D Z;
  db_delQuery : MojDbQuery.MojDbQuery -> Z -> st D Z;
  db_del : MojObject -> Z -> st D bool;
  db_get : MojObject -> st D (option MojObject);
  db_databaseId : st D mstring;
  req_begin : st D unit; (* with the schema locked *)
  req_end : bool -> st D unit;
  db_shardStatusChanged : MojDbShardInfo -> st D unit
}.

(** The kind engine: what is asked of a kind, and the two steps of a deletion without
    reading the object. *)
Class KindClient (D : Type) := {
  kind_builtin_hash : mstring -> st D (bool * Z);
  kind_getKinds : st D (list MojObject);
  kind_putKind : MojObject -> st D unit; (* a builtin one *)
  kind_delKeys : MojObject -> st D unit;
  storage_del : Z -> MojObject -> st D bool;
  storage_mountShard : Z -> mstring -> st D unit;
  storage_unMountShard : Z -> st D unit
}.

(** The file system and the clock. *)
Inductive Access := AccessOk | AccessMissing | AccessDenied.
Record StatVfs := { f_bsize : Z; f_frsize : Z; f_blocks : Z; f_bavail : Z }.
Class ShardOS (D : Type) := {
  os_access : mstring -> st D Access;
  os_createDirIfNotPresent : mstring -> st D unit;
  os_rmDirRecursive : mstring -> st D unit;
  os_statvfs : mstring -> st D (option StatVfs);
  os_unlink : mstring -> st D unit;
  os_symlink : mstring -> mstring -> st D unit;
  os_time : st D Z
}.

(** Numbers of single precision. *)
Class Floats := {
  float : Type;
  float_of_decimal : Z -> float;
  float_ge100 : float -> bool;
  float_lt0 : float -> bool;
  float_gt0 : float -> bool;
  float_zero : float;
  space_share : Z -> Z -> float -> Z (* blocks * size * share / 100, rounded down *)
}.

(** The length of [%08x]. *)
Definition format_08x (n : Z) : mstring :=
  let s := MojDb.format_llx (to_uint 32 n) in replicate (8 - length s) (chr "0") ++ s.

Definition toUpperHex (s : mstring) : mstring := map (fun c => if (97 <=? c) && (c <=? 102) then c - 32 else c) s.

(** ** The links to the devices *)
Module MojDbMediaLinkManager.
Section links.
Context {D : Type} `{!ShardOS D} (m_dir : mstring).
Definition DefaultMediaLinkPath := _T "/var/run/db8/mountpoints".

Definition getLinkPath (shardId : Z) : mstring :=
  (match m_dir with [] => DefaultMediaLinkPath | _ => m_dir end) ++ [chr "/"] ++ toUpperHex (MojDb.format_llx shardId).

Definition createLink (shardInfo : MojDbShardInfo) : st D MojDbShardInfo :=
  let linkPath := getLinkPath (MojDbShardInfo.id shardInfo) in
  let! _ := attempt (os_unlink linkPath) in
  let! _ := os_symlink (MojDbShardInfo.deviceUri shardInfo) linkPath in
  ret (MojDbShardInfo.with_mountPath shardInfo linkPath).

Definition removeLink (shardInfo : MojDbShardInfo) : st D unit := os_unlink (MojDbShardInfo.mountPath shardInfo).

Definition processShardInfo (shardInfo : MojDbShardInfo) : st D MojDbShardInfo :=
  if MojDbShardInfo.active shardInfo then createLink shardInfo else let! _ := removeLink shardInfo in ret shardInfo.
End links.
End MojDbMediaLinkManager.

(** A JSON text, with its quotes written as single ones. *)
Definition quoted (s : string) : mstring := map (fun c => if c =? 39 then 34 else c) (_T s).

(** ** The hashes of kinds *)
Module KindHash.
Record KindHash := { m_id : mstring; m_kindId : mstring; m_hash : Z }.

Definition KindId := _T "KindHashMap:1".
Definition KindIdKey := _T "_id".
Definition KindKindIdKey := _T "kindId".
Definition HashKey := _T "hash".
Definition DummyObjectId := _T "FFAAFFAA".
Definition KindJson : mstring :=
  quoted "{'id':'KindHashMap:1','owner':'com.palm.admin','indexes':[{'name':'kindId','props':[{'name':'kindId'}]},{'name':'hash',  'props':[{'name':'hash'  }]}]}".

Definition convertHash (hash : Z) : Z := to_int 64 hash.

Definition toObject (k : KindHash) (result : MojObject) : MojObject :=
  let result := MojObject.putString result (_T "_kind") KindId in
  let result := match m_id k with [] => result | _ => MojObject.putString result KindIdKey (m_id k) end in
  let result := MojObject.putString result KindKindIdKey (m_kindId k) in
  MojObject.putInt result HashKey (convertHash (m_hash k)).

Definition fromObject (obj : MojObject) : res KindHash :=
  let? id := MojObjectString.getRequired_string obj KindIdKey in
  let? kindId := MojObjectString.getRequired_string obj KindKindIdKey in
  let? hash := MojObject.getRequiredT (MojObject.get_int obj HashKey) in
  Ok {| m_id := id; m_kindId := kindId; m_hash := to_uint 64 hash |}.

Definition fromKindObject (obj : MojObject) : res KindHash :=
  let? kindId := MojObjectString.getRequired_string obj (_T "id") in
  let? hash := MojObject.getRequiredT (MojObject.get_int obj (_T "hash")) in
  Ok {| m_id := []; m_kindId := kindId; m_hash := to_uint 64 hash |}.

(** [id] and [hash] are those of a kind. *)
Definition fromKind (id : mstring) (hash : Z) : KindHash := {| m_id := []; m_kindId := id; m_hash := hash |}.

Definition dummyObject : MojObject :=
  MojObject.putInt (toObject {| m_id := DummyObjectId; m_kindId := KindId; m_hash := 4289396650 |} UndefinedImpl) (_T "_rev") 0.

Definition isDummyObject (object : MojObject) : res bool :=
  let? objectId := MojObjectString.getRequired_string object (_T "_id") in Ok (bool_decide (objectId = DummyObjectId)).

Section db.
Context {D : Type} `{!MojDbClient D} `{!KindClient D}.

(** The object with the hash of a kind; the shard is not looked at. *)
Definition load (shardId kindId : mstring) : st D (option MojObject) :=
  let query := MojDbQuery.from MojDbQuery.make KindId in
  let! query := lift (MojDbQuery.where_ query KindKindIdKey MojDbQuery.OpEq (StringImpl kindId) MojDbCollationInvalid) in
  let! cursor := db_find query in
  let! r := cursor_get cursor in ret r.1.

Definition save (k : KindHash) (shardId : mstring) : st D unit :=
  let! found := load shardId (m_kindId k) in
  let obj := match found with
             | None => toObject k UndefinedImpl
             | Some obj => MojObject.putInt obj HashKey (convertHash (m_hash k))
             end in
  let! _ := db_put obj MojDb.MojDbFlagNone shardId in ret tt.

Definition del (k : KindHash) (shardId : mstring) : st D unit :=
  let! _ := db_del (StringImpl (m_id k)) MojDb.MojDbFlagPurge in ret tt.

Definition registerKind : st D unit := let! kindObj := lift (JsonRoundTrip.fromJson KindJson) in kind_putKind kindObj.

Definition dummyObjectExists : st D bool :=
  let! found := db_get (StringImpl DummyObjectId) in ret (match found with Some _ => true | None => false end).

Definition putTokenSet : st D unit :=
  let! exists_ := dummyObjectExists in
  if exists_ : bool then ret tt else let! _ := db_put dummyObject MojDb.MojDbFlagNone [] in ret tt.

Definition dropDummyObject : st D unit := let! _ := db_del (StringImpl DummyObjectId) MojDb.MojDbFlagPurge in ret tt.

Fixpoint load_loop (fuel : nat) (cursor : DbCursor) (hashes : list KindHash) : st D (list KindHash) :=
  match fuel with
  | O => throw AssertFailed
  | S fuel' =>
      let! r := cursor_get cursor in
      match r.1 with
      | None => ret hashes
      | Some obj =>
          let! isDummy := lift (isDummyObject obj) in
          if isDummy : bool then load_loop fuel' r.2 hashes
          else let! kindHash := lift (fromObject obj) in load_loop fuel' r.2 (hashes ++ [kindHash])
      end
  end.

Definition loadHashes (fuel : nat) (shardId : Z) : st D (list KindHash) :=
  let! _ := putTokenSet in
  let! cursor := db_find (MojDbQuery.from MojDbQuery.make KindId) in
  load_loop fuel cursor [].
End db.
End KindHash.

Definition setIgnoreInactiveShards (q : MojDbQuery.MojDbQuery) (val : bool) : MojDbQuery.MojDbQuery :=
  {| MojDbQuery.m_fromType := MojDbQuery.m_fromType q; MojDbQuery.m_selectProps := MojDbQuery.m_selectProps q;
     MojDbQuery.m_whereClauses := MojDbQuery.m_whereClauses q; MojDbQuery.m_filterClauses := MojDbQuery.m_filterClauses q;
     MojDbQuery.m_page := MojDbQuery.m_page q; MojDbQuery.m_orderProp := MojDbQuery.m_orderProp q;
     MojDbQuery.m_distinct := MojDbQuery.m_distinct q; MojDbQuery.m_limit := MojDbQuery.m_limit q;
     MojDbQuery.m_immediateReturn := MojDbQuery.m_immediateReturn q; MojDbQuery.m_desc := MojDbQuery.m_desc q;
     MojDbQuery.m_ignoreInactiveShards := val; MojDbQuery.m_aggregateMap := MojDbQuery.m_aggregateMap q;
     MojDbQuery.m_groupByProps := MojDbQuery.m_groupByProps q |}.

(** ** The engine *)
Module MojDbShardEngine.
Import MojDbShardIdCache (IdCache).

Record Config `{Floats} := {
  m_enable : bool;
  m_databasePrefix : mstring;
  m_databasePrefixIsAbsolute : bool;
  m_fallbackPath : mstring;
  m_reqFreePartSpaceBytes : Z;
  m_reqFreePartSpacePercantage : float;
  m_linkDirectory : mstring
}.

Definition ShardInfoKind : mstring := _T "ShardInfo1:1".
Definition ShardInfoKind1Str : mstring :=
  quoted "{'id':'ShardInfo1:1','owner':'mojodb.admin','indexes':[ {'name':'ShardId',   'props':[ {'name':'shardId'} ]},                       {'name':'DatabasePath','props':[ {'name':'databasePath'} ]},                       {'name':'DeviceId',  'props':[ {'name':'deviceId'} ]},                       {'name':'IdBase64',  'props':[ {'name':'idBase64'} ]},                       {'name':'Active',    'props':[ {'name':'active'} ]},                       {'name':'Transient', 'props':[ {'name':'transient'} ]},                       {'name':'Timestamp', 'props':[ {'name':'timestamp'} ]},                       {'name':'KindIds', 'props':[ {'name':'kindIds'} ]}                    ]}".

Section configure.
Context `{Floats} (strToDecimal : mstring -> Z).

Definition disabled : Config :=
  {| m_enable := false; m_databasePrefix := []; m_databasePrefixIsAbsolute := false; m_fallbackPath := [];
     m_reqFreePartSpaceBytes := 0; m_reqFreePartSpacePercantage := float_zero; m_linkDirectory := [] |}.

(** A share of all of the space, or more, turns the engine off. *)
Definition configure (conf : MojObject) : res Config :=
  match MojObject.get_bool conf (_T "enable_sharding") with
  | None => Ok disabled
  | Some enable =>
      let? prefix := MojObjectString.getRequired_string conf (_T "shard_db_prefix") in
      let? mediaLinkDirectory := MojObjectString.getRequired_string conf (_T "device_links_path") in
      match prefix with
      | [] => Err MojErrRequiredPropNotFound
      | c :: _ =>
          let? fallbackPath := MojObjectString.getRequired_string conf (_T "fallback_path") in
          let? val := MojObject.getRequiredT (MojObject.get conf (_T "device_minimum_free_bytes")) in
          let reqFreeBytes := MojObject.intValue val in
          let made (enable : bool) (share : float) :=
            {| m_enable := enable; m_databasePrefix := prefix; m_databasePrefixIsAbsolute := c =? chr "/";
               m_fallbackPath := fallbackPath; m_reqFreePartSpaceBytes := if 0 <? reqFreeBytes then reqFreeBytes else 0;
               m_reqFreePartSpacePercantage := share; m_linkDirectory := mediaLinkDirectory |} in
          match MojObject.get conf (_T "device_minimum_free_percentage") with
          | Some val =>
              let share := float_of_decimal (MojObject.decimalValue strToDecimal val) in
              if float_ge100 share then Ok (made false share)
              else if float_lt0 share then Err MojErrInvalidArg
              else Ok (made enable share)
          | None => Ok (made enable float_zero)
          end
      end
  end.
End configure.

Section engine.
Context {D : Type} `{!MojDbClient D} `{!KindClient D} `{!ShardOS D} `{Boost}.

(** The cache and the database. *)
Abbreviation X := (IdCache * D)%type.
Abbreviation M := (st X).

Definition on_db {A} (m : st D A) : M A := fun x => let '(d, r) := m x.2 in ((x.1, d), r).
Definition on_cache (f : IdCache -> IdCache) : M unit := modify (fun x => (f x.1, x.2)).

(** The conversions into an object, and out of one; the latter is given what it fills. *)
Definition convert (info : MojDbShardInfo) (obj : MojObject) : MojObject := MojDbShardInfo.toObject info obj.
Definition convertInto (obj : MojObject) (info : MojDbShardInfo) : MojDbShardInfo * res unit := MojDbShardInfo.fromObject obj info.

Definition convertFrom (obj : MojObject) (info : MojDbShardInfo) : M MojDbShardInfo :=
  let '(info, r) := convertInto obj info in let! _ := lift r in ret info.

Definition updateTimestamp (info : MojDbShardInfo) : M MojDbShardInfo :=
  let! time := on_db os_time in ret (MojDbShardInfo.with_timestamp info time).

(** The query for the descriptions that have a value. *)
Definition infoQuery (key : mstring) (op : MojDbQuery.CompOp) (val : MojObject) : res MojDbQuery.MojDbQuery :=
  MojDbQuery.where_ (MojDbQuery.from MojDbQuery.make ShardInfoKind) key op val MojDbCollationInvalid.

(** *** Descriptions *)
Definition put (shardInfo : MojDbShardInfo) : M unit :=
  let obj := MojObject.putString UndefinedImpl (_T "_kind") ShardInfoKind in
  let! info := updateTimestamp shardInfo in
  let! info :=
    match MojDbShardInfo.id_base64 info with
    | [] => let! s := lift (MojDbShardInfo.convertId (MojDbShardInfo.id info)) in ret (MojDbShardInfo.with_id_base64 info s)
    | _ => ret info
    end in
  let obj := convert info obj in
  let! obj := on_db (db_put obj MojDb.MojDbFlagNone []) in
  on_cache (fun m => MojDbShardIdCache.put m (MojDbShardInfo.id shardInfo) obj).

(** The description given and whether it was found. *)
Definition get_info (shardId : Z) (shardInfo : MojDbShardInfo) : M (MojDbShardInfo * bool) :=
  let! x := get in
  match MojDbShardIdCache.get x.1 shardId with
  | Some dbObj => let! info := convertFrom dbObj shardInfo in ret (info, true)
  | None => ret (shardInfo, false)
  end.

Fixpoint active_loop (fuel : nat) (cursor : DbCursor) (info : MojDbShardInfo) (infos : list MojDbShardInfo) : M (list MojDbShardInfo) :=
  match fuel with
  | O => throw AssertFailed
  | S fuel' =>
      let! r := on_db (cursor_get cursor) in
      match r.1 with
      | None => ret infos
      | Some dbObj => let! info := convertFrom dbObj info in active_loop fuel' r.2 info (infos ++ [info])
      end
  end.

Definition getAllActive (fuel : nat) : M (list MojDbShardInfo) :=
  let! query := lift (infoQuery (_T "active") MojDbQuery.OpEq (BoolImpl true)) in
  let! cursor := on_db (db_find query) in
  active_loop fuel cursor (MojDbShardInfo.make 0 false false) [].

(** Only the properties that are merged go to the cache. *)
Definition update_info (i_shardInfo : MojDbShardInfo) : M unit :=
  let! query := lift (infoQuery (_T "shardId") MojDbQuery.OpEq (IntImpl (MojDbShardInfo.id i_shardInfo))) in
  let! shardInfo := updateTimestamp i_shardInfo in
  let update := convert shardInfo UndefinedImpl in
  let! count := on_db (db_merge query update MojDb.MojDbFlagNone) in
  if count =? 0 then throw MojErrDbObjectNotFound
  else on_cache (fun m => (MojDbShardIdCache.update m (MojDbShardInfo.id i_shardInfo) update).1).

(** An object that cannot be converted is found: its error is not looked at. *)
Definition getByDeviceUuid (deviceUuid : mstring) (shardInfo : MojDbShardInfo) : M (MojDbShardInfo * bool) :=
  let! query := lift (infoQuery (_T "deviceId") MojDbQuery.OpEq (StringImpl deviceUuid)) in
  let! cursor := on_db (db_find query) in
  let! r := on_db (cursor_get cursor) in
  match r.1 with
  | Some dbObj => ret ((convertInto dbObj shardInfo).1, true)
  | None => ret (shardInfo, false)
  end.

(** *** Ids *)
(** 24 bits of the checksum of the device's name. *)
Definition computeId (mediaUuid : mstring) : Z := Z.land (crc_32 mediaUuid) 16777215.

(** The id with the first prefix that is free; when all are taken the name gets a number. *)
Fixpoint allocate_loop (fuel : nat) (m_map : IdCache) (deviceUuid : mstring) (calc_id prefix suffix : Z) : res Z :=
  match fuel with
  | O => Err AssertFailed
  | S fuel' =>
      let id := Z.lor calc_id (prefix * 16777216) in
      if negb (MojDbShardIdCache.isExist m_map id) then Ok id
      else
        let prefix := prefix + 1 in
        if prefix =? 128 then
          let suffix := to_uint 32 (suffix + 1) in
          allocate_loop fuel' m_map deviceUuid (computeId (deviceUuid ++ MojDb.format_llx suffix)) 1 suffix
        else allocate_loop fuel' m_map deviceUuid calc_id prefix suffix
  end.

Definition allocateId (fuel : nat) (deviceUuid : mstring) : M Z :=
  let! x := get in lift (allocate_loop fuel x.1 deviceUuid (computeId deviceUuid) 1 1).

Definition getShardId (fuel : nat) (deviceUuid : mstring) : M Z :=
  let! r := getByDeviceUuid deviceUuid (MojDbShardInfo.make 0 false false) in
  if r.2 then ret (MojDbShardInfo.id r.1) else allocateId fuel deviceUuid.

(** *** Start *)
Definition resetShards : M unit :=
  let query := MojDbQuery.from MojDbQuery.make ShardInfoKind in
  let props := MojObject.putString (MojObject.putBool UndefinedImpl (_T "active") false) (_T "mountPath") [] in
  let! _ := on_db (db_merge query props MojDb.MojDbFlagNone) in ret tt.

Fixpoint cache_loop (fuel : nat) (cursor : DbCursor) : M unit :=
  match fuel with
  | O => throw AssertFailed
  | S fuel' =>
      let! r := on_db (cursor_get cursor) in
      match r.1 with
      | None => ret tt
      | Some dbObj =>
          let! value_id := lift (MojObject.getRequiredErrT (MojObject.get_int32 dbObj (_T "shardId"))) in
          let! _ := on_cache (fun m => MojDbShardIdCache.put m (to_uint 32 value_id) dbObj) in
          cache_loop fuel' r.2
      end
  end.

Definition initCache (fuel : nat) : M unit :=
  let! cursor := on_db (db_find (MojDbQuery.from MojDbQuery.make ShardInfoKind)) in
  cache_loop fuel cursor.

Definition init `{Floats} (strToDecimal : mstring -> Z) (fuel : nat) (conf : MojObject) : M Config :=
  let! _ := on_cache MojDbShardIdCache.clear in
  let! config := lift (configure strToDecimal conf) in
  let! obj := lift (JsonRoundTrip.fromJson ShardInfoKind1Str) in
  let! _ := on_db (kind_putKind obj) in
  let! _ := on_db KindHash.registerKind in
  let! _ := resetShards in
  let! _ := initCache fuel in
  ret config.

(** *** Kinds of a shard *)
Definition link (shardId : Z) (kindId : mstring) : M unit :=
  match kindId with
  | [] => ret tt
  | _ =>
      let! r := get_info shardId (MojDbShardInfo.make 0 false false) in
      let (shardInfo, found) := r in
      if negb found then ret tt
      else if MojDbKindIdList.isExist (MojDbShardInfo.kindIds shardInfo) kindId then ret tt
      else update_info (MojDbShardInfo.with_kindIds shardInfo (MojDbKindIdList.add (MojDbShardInfo.kindIds shardInfo) kindId))
  end.

Definition unlink (shardId : Z) (kindId : mstring) : M unit :=
  match kindId with
  | [] => ret tt
  | _ =>
      let! r := get_info shardId (MojDbShardInfo.make 0 false false) in
      let (shardInfo, found) := r in
      if negb found then ret tt
      else if negb (MojDbKindIdList.isExist (MojDbShardInfo.kindIds shardInfo) kindId) then ret tt
      else update_info (MojDbShardInfo.with_kindIds shardInfo (MojDbKindIdList.remove (MojDbShardInfo.kindIds shardInfo) kindId))
  end.

Definition linkShardAndKindId (shardIdBase64 kindId : mstring) : M unit :=
  match shardIdBase64 with
  | [] => ret tt
  | _ => let! id := lift (MojDbShardInfo.idOfText shardIdBase64) in link id kindId
  end.

Definition unlinkShardAndKindId (shardIdBase64 kindId : mstring) : M unit :=
  match shardIdBase64 with
  | [] => ret tt
  | _ => let! id := lift (MojDbShardInfo.idOfText shardIdBase64) in unlink id kindId
  end.

(** *** Giving a shard up *)
Fixpoint remove_loop (fuel : nat) (shardId : Z) (cursor : DbCursor) : M unit :=
  match fuel with
  | O => throw AssertFailed
  | S fuel' =>
      let! r := on_db (cursor_get cursor) in
      match r.1 with
      | None => ret tt
      | Some record =>
          let! recordId := lift (MojObject.getRequiredT (MojObject.get record (_T "_id"))) in
          let! cmpShardId := lift (MojDbIdGenerator.extractShard recordId) in
          if negb (cmpShardId =? shardId) then remove_loop fuel' shardId r.2
          else
            let! _ := on_db (db_del recordId MojDb.MojDbFlagNone) in
            remove_loop fuel' shardId r.2
      end
  end.

Definition with_inactive (q : MojDbQuery.MojDbQuery) : MojDbQuery.MojDbQuery := setIgnoreInactiveShards q false.

Definition removeShardKindObjects (fuel : nat) (shardId : Z) (kindId : mstring) : M unit :=
  let! cursor := on_db (db_find (with_inactive (MojDbQuery.from MojDbQuery.make kindId))) in
  remove_loop fuel shardId cursor.

Fixpoint remove_kinds (fuel : nat) (shardId : Z) (kindIds : list mstring) : M unit :=
  match kindIds with
  | [] => ret tt
  | kindId :: kindIds' =>
      let! kind := on_db (kind_builtin_hash kindId) in
      if kind.1 : bool then remove_kinds fuel shardId kindIds'
      else
        let! _ := removeShardKindObjects fuel shardId kindId in
        remove_kinds fuel shardId kindIds'
  end.

Fixpoint removeShardObjects_loop (fuel : nat) (arrShardIds : list Z) (info : MojDbShardInfo) : M unit :=
  match arrShardIds with
  | [] => ret tt
  | shardId :: ids =>
      let! r := get_info shardId info in
      let (info, foundOut) := r in
      let! _ := if foundOut : bool then remove_kinds fuel shardId (MojDbShardInfo.kindIds info) else ret tt in
      removeShardObjects_loop fuel ids info
  end.

Definition removeShardObjects (fuel : nat) (arrShardIds : list Z) : M unit :=
  removeShardObjects_loop fuel arrShardIds (MojDbShardInfo.make 0 false false).

Definition removeShardObjects_text (fuel : nat) (strShardIdToRemove : mstring) : M unit :=
  let! shardId := lift (MojDbShardInfo.idOfText strShardIdToRemove) in removeShardObjects fuel [shardId].

(** The ids of the old shards that are not active, each once. *)
Fixpoint purge_loop (fuel : nat) (cursor : DbCursor) (arrShardIds : list Z) : M (list Z) :=
  match fuel with
  | O => throw AssertFailed
  | S fuel' =>
      let! r := on_db (cursor_get cursor) in
      match r.1 with
      | None => ret arrShardIds
      | Some dbObj =>
          let! value_id := lift (MojObject.getRequiredErrT (MojObject.get_int32 dbObj (_T "shardId"))) in
          let! _ := lift (MojDbShardInfo.convertId (to_uint 32 value_id)) in
          let! value_active := lift (MojObject.getRequiredT (MojObject.get_bool dbObj (_T "active"))) in
          let id := to_uint 32 value_id in
          purge_loop fuel' r.2 (if value_active : bool then arrShardIds
                                else if bool_decide (id ∈ arrShardIds) then arrShardIds else arrShardIds ++ [id])
      end
  end.

Definition UnitsPerDay : Z := 1000000 * 60 * 60 * 24.

(** The error of the removal is not looked at. *)
Definition purgeShardObjects (fuel : nat) (numDays : Z) : M unit :=
  let! time := on_db os_time in
  let purgeTime := to_int 64 (time - to_int 64 (UnitsPerDay * numDays)) in
  let! query := lift (infoQuery (_T "timestamp") MojDbQuery.OpLessThanEq (IntImpl purgeTime)) in
  let! cursor := on_db (db_find (with_inactive query)) in
  let! arrShardIds := purge_loop fuel cursor [] in
  let! _ := attempt (removeShardObjects fuel arrShardIds) in
  ret tt.

Definition removeShardInfo (shardId : Z) : M unit :=
  let! query := lift (infoQuery (_T "shardId") MojDbQuery.OpEq (IntImpl shardId)) in
  let! _ := on_db (db_delQuery query MojDb.MojDbFlagNone) in
  on_cache (fun m => MojDbShardIdCache.del m shardId).

Definition removeTransientShard (shardInfo : MojDbShardInfo) : M unit :=
  let! _ := on_db (os_rmDirRecursive (MojDbShardInfo.databasePath shardInfo)) in
  removeShardInfo (MojDbShardInfo.id shardInfo).

(** *** The database on a device *)
Definition checkDatabaseAccess (path : mstring) : M unit :=
  let! a := on_db (os_access path) in
  match a with
  | AccessOk => ret tt
  | AccessMissing => on_db (os_createDirIfNotPresent path)
  | AccessDenied => throw MojErrNotOpen
  end.

Section config.
Context `{Floats} (config : Config).

Definition checkDatabaseSpace (path : mstring) : M unit :=
  let! s := on_db (os_statvfs path) in
  match s with
  | None => throw MojErrNotOpen
  | Some s =>
      if f_bavail s <? m_reqFreePartSpaceBytes config / f_bsize s then throw MojErrNoMem
      else if float_gt0 (m_reqFreePartSpacePercantage config) &&
              (to_uint 64 (f_bavail s * f_bsize s) <? space_share (f_blocks s) (f_frsize s) (m_reqFreePartSpacePercantage config))
      then throw MojErrNoMem
      else ret tt
  end.

(** Both are checked; a device that cannot be used gets a database elsewhere. *)
Definition databasePrepare (shardInfo : MojDbShardInfo) : M MojDbShardInfo :=
  let! databaseId := on_db db_databaseId in
  if m_databasePrefixIsAbsolute config then
    let path := m_databasePrefix config ++ [chr "/"] ++ format_08x (MojDbShardInfo.id shardInfo) ++ [chr "/"] in
    let! _ := on_db (os_createDirIfNotPresent path) in
    ret (MojDbShardInfo.with_databasePath shardInfo path)
  else
    let path := MojDbShardInfo.deviceUri shardInfo ++ [chr "/"] ++ m_databasePrefix config ++ [chr "/"] ++ databaseId in
    let! access := attempt (checkDatabaseAccess path) in
    let! space := attempt (checkDatabaseSpace path) in
    match access, space with
    | Ok _, Ok _ => ret (MojDbShardInfo.with_databasePath shardInfo path)
    | _, _ =>
        ret (MojDbShardInfo.with_databasePath shardInfo
               (m_fallbackPath config ++ [chr "/"] ++ format_08x (MojDbShardInfo.id shardInfo) ++ [chr "/"]))
    end.
End config.

Definition copyRequiredFields (from to : MojDbShardInfo) : MojDbShardInfo :=
  let to := MojDbShardInfo.with_deviceUri to (MojDbShardInfo.deviceUri from) in
  let to := MojDbShardInfo.with_deviceName to (MojDbShardInfo.deviceName from) in
  let to := MojDbShardInfo.with_active to (MojDbShardInfo.active from) in
  let to := MojDbShardInfo.with_transient to (MojDbShardInfo.transient to || MojDbShardInfo.transient from) in
  MojDbShardInfo.with_parentDeviceId to (MojDbShardInfo.parentDeviceId from).

(** *** Kinds that change while a device is away *)
Definition putKindHash (shardId : Z) (kindHash : KindHash.KindHash) : M unit :=
  let! shardIdStr := lift (MojDbShardInfo.convertId shardId) in
  on_db (KindHash.save kindHash shardIdStr).

Definition putKindHash_object (shardId : Z) (kindObj : MojObject) : M unit :=
  let! kindHash := lift (KindHash.fromKindObject kindObj) in putKindHash shardId kindHash.

Fixpoint for_shards (put : Z -> M unit) (shards : list MojDbShardInfo) : M unit :=
  match shards with
  | [] => ret tt
  | shard :: shards' => let! _ := put (MojDbShardInfo.id shard) in for_shards put shards'
  end.

Definition putKindHash_name (fuel : nat) (kindName : mstring) : M unit :=
  let! kind := on_db (kind_builtin_hash kindName) in
  let! shards := getAllActive fuel in
  for_shards (fun id => putKindHash id (KindHash.fromKind kindName kind.2)) shards.

Definition putKindHash_all (fuel : nat) (kindObj : MojObject) : M unit :=
  let! shards := getAllActive fuel in
  for_shards (fun id => putKindHash_object id kindObj) shards.

Fixpoint put_hashes (shardId : Z) (kinds : list MojObject) : M unit :=
  match kinds with
  | [] => ret tt
  | kindObj :: kinds' => let! _ := putKindHash_object shardId kindObj in put_hashes shardId kinds'
  end.

Definition putKindsHashes (shardId : Z) : M unit :=
  let! kinds := on_db kind_getKinds in put_hashes shardId kinds.

(** An object of another shard leaves the request open. *)
Definition dropObject (shardId : Z) (id : MojObject) (kindName : mstring) : M unit :=
  let! _ := on_db req_begin in
  let! objectShardId := lift (MojDbIdGenerator.extractShard id) in
  if negb (objectShardId =? shardId) then ret tt
  else
    let object := MojObject.putString (MojObject.put UndefinedImpl (_T "_id") id) (_T "_kind") kindName in
    let! _ := on_db (kind_delKeys object) in
    let! _ := on_db (storage_del shardId id) in
    on_db (req_end true).

Fixpoint drop_loop (fuel : nat) (shardId : Z) (cursor : DbCursor) : M unit :=
  match fuel with
  | O => throw AssertFailed
  | S fuel' =>
      let! r := on_db (cursor_item cursor) in
      match r.1 with
      | None => ret tt
      | Some (id, kindName) => let! _ := dropObject shardId id kindName in drop_loop fuel' shardId r.2
      end
  end.

(** The error of [find] is not looked at: the first [get] of a cursor that is not open
    fails. *)
Definition delKindData (fuel : nat) (shardId : Z) (kindId : mstring) : M unit :=
  let! cursor := attempt (on_db (db_find (MojDbQuery.from MojDbQuery.make kindId))) in
  match cursor with
  | Ok cursor => drop_loop fuel shardId cursor
  | Err _ => throw MojErrNotOpen
  end.

Fixpoint drop_hashes (fuel : nat) (shardId : Z) (shardIdStr : mstring) (hashes : list KindHash.KindHash) : M unit :=
  match hashes with
  | [] => ret tt
  | hash :: hashes' =>
      let! kind := attempt (on_db (kind_builtin_hash (KindHash.m_kindId hash))) in
      let! _ :=
        match kind with
        | Ok (_, h) =>
            if h =? KindHash.m_hash hash then ret tt
            else let! _ := delKindData fuel shardId (KindHash.m_kindId hash) in on_db (KindHash.del hash shardIdStr)
        | Err e =>
            if decide (e = MojErrDbKindNotRegistered) then
              let! _ := delKindData fuel shardId (KindHash.m_kindId hash) in on_db (KindHash.del hash shardIdStr)
            else throw e
        end in
      drop_hashes fuel shardId shardIdStr hashes'
  end.

Definition dropGarbage (fuel : nat) (shardId : Z) : M unit :=
  let! _ := on_db kind_getKinds in
  let! hashes := on_db (KindHash.loadHashes fuel shardId) in
  let! shardIdStr := lift (MojDbShardInfo.convertId shardId) in
  drop_hashes fuel shardId shardIdStr hashes.

(** *** A device comes or goes *)
(** Steps whose errors are kept: the last one counts. *)
Definition accumulate {A} (accErr : option MojErr) (m : M A) : M (option MojErr) :=
  let! r := attempt m in ret (match r with Ok _ => accErr | Err e => Some e end).

Definition processShardInfo `{Floats} (config : Config) (fuel : nat) (shardInfo databaseShardInfo : MojDbShardInfo) : M MojDbShardInfo :=
  let! r := getByDeviceUuid (MojDbShardInfo.deviceId shardInfo) databaseShardInfo in
  let (info, found) := r in
  let info := copyRequiredFields shardInfo info in
  let! info :=
    if found : bool then ret info
    else
      let! id := allocateId fuel (MojDbShardInfo.deviceId shardInfo) in
      let info := MojDbShardInfo.with_id info id in
      let info := MojDbShardInfo.with_parentDeviceId info (MojDbShardInfo.parentDeviceId shardInfo) in
      let info := MojDbShardInfo.with_deviceId info (MojDbShardInfo.deviceId shardInfo) in
      ret (MojDbShardInfo.with_transient info false) in
  let! _ := on_db req_begin in
  let! p :=
    if MojDbShardInfo.active info then
      let! info := databasePrepare config info in
      let! _ := on_db req_begin in
      let! _ := on_db (storage_mountShard (MojDbShardInfo.id info) (MojDbShardInfo.databasePath info)) in
      ret (info, None)
    else
      let! accErr := accumulate None (on_db (storage_unMountShard (MojDbShardInfo.id info))) in
      ret (info, accErr) in
  let (info, accErr) := p in
  let! _ := on_db (req_end true) in
  let! linked := attempt (on_db (MojDbMediaLinkManager.processShardInfo (m_linkDirectory config) info)) in
  let (info, accErr) := match linked with Ok info => (info, accErr) | Err e => (info, Some e) end in
  let! accErr :=
    if found : bool then
      if negb (MojDbShardInfo.active info) && MojDbShardInfo.transient info
      then accumulate accErr (removeTransientShard info)
      else accumulate accErr (update_info info)
    else accumulate accErr (put info) in
  let! _ := on_db (req_end true) in
  let! accErr :=
    if MojDbShardInfo.active info then
      let! accErr := accumulate accErr (dropGarbage fuel (MojDbShardInfo.id info)) in
      accumulate accErr (putKindsHashes (MojDbShardInfo.id info))
    else ret accErr in
  let! accErr := accumulate accErr (on_db (db_shardStatusChanged info)) in
  match accErr with Some e => throw e | None => ret info end.
End engine.
End MojDbShardEngine.
