(* ===== verification/ShardSpec.v ===== *)
(** * What the table of shards promises

    The database is known by what a query of it shows ([ShardDbLaws]).  Against that,
    the cache has what the table has; an id that is given out is new; and giving up a
    shard deletes its objects and no others. *)

From stdpp Require Import gmap.
From S2P Require Import Prelude Containers CoreUtil Number Object DataSerialization Text DbKey JsonRoundTrip DbQuery ObjectItem Effects Merge ShardInfo Db ObjectItemSpec DbSpec ShardEngine.
Import MojDbShardInfo (MojDbShardInfo) MojDbShardEngine.

Definition oid (o : MojObject) : option MojObject := MojObject.get o IdKey.

Definition has_id (id o : MojObject) : bool := match oid o with Some i => MojObject.compare i id =? 0 | None => false end.

(** An object that is in no shard. *)
Definition in_main (o : MojObject) : Prop := forall id, oid o = Some id -> MojDbIdGenerator.extractShard id = Ok MojDbIdGenerator.MainShardId.

(** ** The database as the engine knows it *)
Class ShardView (D : Type) `{!MojDbClient D} := {
  valid : D -> Prop;                                 (* each object is well formed and has an id of its own *)
  view : D -> list MojObject;                        (* the objects that are not deleted *)
  shows : D -> DbCursor -> list MojObject -> Prop;   (* what a cursor has still to show *)
  is_a : mstring -> mstring -> bool;                 (* a kind is another or extends it *)
  registered : mstring -> list mstring -> Prop;      (* a kind and what its indexes are on *)
  builtin : mstring -> bool
}.

Definition of_kind `{ShardView D} (kind : mstring) (o : MojObject) : bool :=
  match MojObject.get o KindKey with Some (StringImpl k) => is_a k kind | _ => false end.

(** A clause with an equality or an upper bound. *)
Definition meets (o : MojObject) (c : mstring * MojDbQuery.WhereClause) : bool :=
  match MojObject.get o c.1, MojDbQuery.WhereClause.m_lowerOp c.2, MojDbQuery.WhereClause.m_upperOp c.2 with
  | Some v, MojDbQuery.OpEq, MojDbQuery.OpNone => MojObject.compare v (MojDbQuery.WhereClause.m_lowerVal c.2) =? 0
  | Some v, MojDbQuery.OpNone, MojDbQuery.OpLessThanEq => MojObject.compare v (MojDbQuery.WhereClause.m_upperVal c.2) <=? 0
  | _, _, _ => false
  end.

(** The objects of a kind that meet the clauses. *)
Definition selects `{ShardView D} (kind : mstring) (clauses : MojDbQuery.WhereMap) (o : MojObject) : bool :=
  of_kind kind o && forallb (meets o) clauses.

(** A query with nothing but clauses, on properties that are indexed; it shows what is
    in an inactive shard only when it says so. *)
Definition asks `{ShardView D} (d : D) (q : MojDbQuery.MojDbQuery) (kind : mstring) (clauses : MojDbQuery.WhereMap) : Prop :=
  valid d /\ exists all props, q = setIgnoreInactiveShards (MojDbQuery.with_where (MojDbQuery.from MojDbQuery.make kind) clauses []) (negb all) /\
    registered kind props /\ Forall (fun c => c.1 ∈ props) clauses /\
    (all = false -> Forall (fun o => selects kind clauses o = true -> in_main o) (view d)).

Class ShardDbLaws (D : Type) `{ShardView D} `{!KindClient D} `{!ShardOS D} := {
  is_a_refl k : is_a k k = true;
  view_ok d : valid d -> Forall MojObject.ok (view d);
  view_ids d : valid d -> Forall (fun o => is_Some (oid o)) (view d) /\ NoDup (map oid (view d));
  find_shows d q kind clauses : asks d q kind clauses ->
    exists c l, db_find q d = (d, Ok c) /\ shows d c l /\ l ≡ₚ List.filter (selects kind clauses) (view d);
  get_end d c : shows d c [] -> exists c', cursor_get c d = (d, Ok (None, c'));
  get_next d c o l : shows d c (o :: l) -> exists c', cursor_get c d = (d, Ok (Some o, c')) /\ shows d c' l;
  put_new d o k props : valid d -> MojObject.ok o -> oid o = None -> MojObject.get o KindKey = Some (StringImpl k) -> registered k props ->
    exists d' o', db_put o MojDb.MojDbFlagNone [] d = (d', Ok o') /\ valid d' /\ view d' ≡ₚ o' :: view d /\ MojObject.ok o' /\ in_main o' /\
      forall key, str_ok key -> key <> IdKey -> key <> RevKey -> MojObject.get o' key = MojObject.get o key;
  merge_all d q kind clauses props : asks d q kind clauses -> MojObject.ok props -> oid props = None ->
    exists d' f, db_merge q props MojDb.MojDbFlagNone d = (d', Ok (to_uint 32 (Z.of_nat (length (List.filter (selects kind clauses) (view d)))))) /\
      valid d' /\ view d' ≡ₚ map (fun o => if selects kind clauses o then f o else o) (view d) /\
      forall o, o ∈ view d -> selects kind clauses o = true ->
        forall key, str_ok key -> key <> RevKey -> MojObject.get (f o) key = merged_value (MojObject.get props key) (MojObject.get o key);
  delQuery_all d q kind clauses : asks d q kind clauses ->
    exists d' n, db_delQuery q MojDb.MojDbFlagNone d = (d', Ok n) /\
      valid d' /\ view d' ≡ₚ List.filter (fun o => negb (selects kind clauses o)) (view d);
  del_one d o id : valid d -> o ∈ view d -> oid o = Some id ->
    exists d', db_del id MojDb.MojDbFlagNone d = (d', Ok true) /\
      valid d' /\ view d' ≡ₚ List.filter (fun o => negb (has_id id o)) (view d) /\
      forall c l, shows d c l -> shows d' c (List.filter (fun o => negb (has_id id o)) l);
  kind_known d k props : registered k props -> exists h, kind_builtin_hash k d = (d, Ok (builtin k, h));
  time_ok d : exists t, os_time d = (d, Ok t) /\ in_int 64 t
}.

(** The indexes of ShardInfo1:1. *)
Definition info_indexes : list mstring :=
  [_T "shardId"; _T "databasePath"; _T "deviceId"; _T "idBase64"; _T "active"; _T "transient"; _T "timestamp"; _T "kindIds"].

(** ** Lists of objects *)
Section lists.
Context {A : Type}.
Lemma filter_perm (P : A -> bool) l l' : l ≡ₚ l' -> List.filter P l ≡ₚ List.filter P l'.
Proof.
  induction 1 as [|x l l' _ IH|x y l|l1 l2 l3 _ IH1 _ IH2]; cbn [List.filter]; [done|by destruct (P x); rewrite IH| |by rewrite IH1].
  destruct (P x), (P y); try done. apply Permutation_swap.
Qed.

Lemma elem_of_filter_b (P : A -> bool) x l : x ∈ List.filter P l <-> x ∈ l /\ P x = true.
Proof. rewrite !list_elem_of_In. apply filter_In. Qed.

Lemma filter_filter_b (P Q : A -> bool) l : List.filter P (List.filter Q l) = List.filter (fun x => Q x && P x) l.
Proof. induction l as [|x l IH]; cbn [List.filter]; [done|]. destruct (Q x) eqn:E; cbn [List.filter andb]; [destruct (P x)|]; by rewrite IH. Qed.

Lemma filter_true_all (l : list A) : List.filter (fun _ => true) l = l.
Proof. induction l as [|x l IH]; cbn [List.filter]; by rewrite ?IH. Qed.

Lemma filter_ext_b (P Q : A -> bool) l : (forall x, x ∈ l -> P x = Q x) -> List.filter P l = List.filter Q l.
Proof. intros E. apply List.filter_ext_in. intros x Hx. apply E. by apply list_elem_of_In. Qed.
End lists.

Abbreviation Table := (gmap Z MojDbShardInfo).

(** ** The table *)
Section table.
Context {D : Type} `{ShardDbLaws D} `{BoostLaws} (info_registered : registered ShardInfoKind info_indexes).

(** The records of shards, which carry one description each, of different ids. *)
Definition infos (d : D) : list MojObject := List.filter (of_kind ShardInfoKind) (view d).

Definition record_of (id : Z) (o : MojObject) : bool := match MojObject.get o (_T "shardId") with Some (IntImpl v) => v =? id | _ => false end.

Definition table_ok (d : D) : Prop :=
  Forall (fun o => in_main o /\ exists i, MojDbShardInfo.ok i /\ MojDbShardInfo.describes i o) (infos d) /\
  (forall id, (length (List.filter (record_of id) (infos d)) <= 1)%nat) /\ valid d.

(** The cache has of each record what describes it, and nothing else. *)
Definition mirrors (x : MojDbShardIdCache.IdCache * D) : Prop :=
  table_ok x.2 /\
  forall id, match x.1 !! id with
             | Some o => exists i rec, MojDbShardInfo.ok i /\ MojDbShardInfo.id i = id /\ MojDbShardInfo.describes i o /\
                           rec ∈ infos x.2 /\ MojDbShardInfo.describes i rec
             | None => forall rec, rec ∈ infos x.2 -> record_of id rec = false
             end.

Lemma describes_id i o id : MojDbShardInfo.describes i o -> record_of id o = (MojDbShardInfo.id i =? id).
Proof. intros D0. apply Forall_cons in D0 as [E _]. unfold record_of. cbn [fst snd] in E. by rewrite E. Qed.

Lemma describes_get i o key v : MojDbShardInfo.describes i o -> (key, v) ∈ MojDbShardInfo.fields i -> MojObject.get o key = Some v.
Proof. unfold MojDbShardInfo.describes. rewrite Forall_forall. intros D0 Hin. exact (D0 _ Hin). Qed.

(** A description of an object is a matter of the properties it names. *)
Lemma describes_ext i o o' : (forall f, f ∈ MojDbShardInfo.fields i -> MojObject.get o' f.1 = MojObject.get o f.1) ->
  MojDbShardInfo.describes i o -> MojDbShardInfo.describes i o'.
Proof. unfold MojDbShardInfo.describes. rewrite !Forall_forall. intros E D0 f Hf. by rewrite E, D0. Qed.

Lemma field_names i : Forall (fun f => str_ok f.1 /\ f.1 <> IdKey /\ f.1 <> RevKey /\ f.1 <> KindKey) (MojDbShardInfo.fields i).
Proof. repeat constructor; cbn [fst]; by apply (bool_decide_unpack (_ <> _)); vm_compute. Qed.

(** Two descriptions of one object are the same but for the list of kinds. *)
Lemma one_record d rec rec' id : table_ok d -> rec ∈ infos d -> rec' ∈ infos d -> record_of id rec = true -> record_of id rec' = true -> rec = rec'.
Proof.
  intros [_ [U _]] Ra Rb R1 R2. specialize (U id).
  assert (rec ∈ List.filter (record_of id) (infos d)) as I1 by by apply elem_of_filter_b.
  assert (rec' ∈ List.filter (record_of id) (infos d)) as I2 by by apply elem_of_filter_b.
  destruct (List.filter (record_of id) (infos d)) as [|a [|]]; [by apply elem_of_nil in I1| |cbn in U; lia].
  apply list_elem_of_singleton in I1, I2. congruence.
Qed.

(** ** Reading *)
Lemma get_info_spec x id i0 : mirrors x ->
  match get_info id i0 x with
  | (x', Ok (i, true)) => x' = x /\ is_Some (x.1 !! id) /\ MojDbShardInfo.ok i /\ MojDbShardInfo.id i = id /\
      exists rec, rec ∈ infos x.2 /\ MojDbShardInfo.describes i rec
  | (x', Ok (i, false)) => x' = x /\ x.1 !! id = None /\ forall rec, rec ∈ infos x.2 -> record_of id rec = false
  | (_, Err _) => False
  end.
Proof.
  intros [_ Hm]. specialize (Hm id). unfold get_info, bind, Effects.get, MojDbShardIdCache.get.
  destruct (x.1 !! id) as [o|]; [|done]. destruct Hm as (i & rec & Hi & Hid & Ho & Hrec & Hd).
  unfold convertFrom, convertInto. rewrite (MojDbShardInfo.fromObject_spec i o i0 Hi Ho). unfold bind, lift, ret.
  split; [done|]. split; [done|]. split; [done|]. split; [done|]. by exists rec.
Qed.

(** ** Queries of the table *)
Definition eq_clause (key : mstring) (val : MojObject) : MojDbQuery.WhereMap :=
  [(key, {| MojDbQuery.WhereClause.m_lowerOp := MojDbQuery.OpEq; MojDbQuery.WhereClause.m_upperOp := MojDbQuery.OpNone;
            MojDbQuery.WhereClause.m_lowerVal := val; MojDbQuery.WhereClause.m_upperVal := UndefinedImpl;
            MojDbQuery.WhereClause.m_collation := MojDbCollationInvalid |})].

Lemma infoQuery_eq key val : infoQuery key MojDbQuery.OpEq val =
  Ok (MojDbQuery.with_where (MojDbQuery.from MojDbQuery.make ShardInfoKind) (eq_clause key val) []).
Proof.
  unfold infoQuery, MojDbQuery.where_, MojDbQuery.addClause. cbn [bool_decide].
  replace (bool_decide (MojDbQuery.OpEq = MojDbQuery.OpNone)) with false by (by vm_compute).
  replace (bool_decide (MojDbQuery.OpEq = MojDbQuery.OpEq)) with true by (by vm_compute).
  rewrite andb_false_r. cbn [andb]. done.
Qed.

Lemma asks_infos d clauses : table_ok d -> Forall (fun c => c.1 ∈ info_indexes) clauses ->
  asks d (MojDbQuery.with_where (MojDbQuery.from MojDbQuery.make ShardInfoKind) clauses []) ShardInfoKind clauses.
Proof.
  intros [Hi [_ Hv]] Hc. split; [done|]. exists false, info_indexes. split; [done|]. split; [done|]. split; [done|]. intros _.
  rewrite Forall_forall in *. intros o Ho Hs. apply (Hi o). apply elem_of_filter_b. split; [done|].
  unfold selects in Hs. by apply andb_true_iff in Hs as [? _].
Qed.

Lemma asks_id d id : table_ok d -> asks d (MojDbQuery.with_where (MojDbQuery.from MojDbQuery.make ShardInfoKind)
  (eq_clause (_T "shardId") (IntImpl id)) []) ShardInfoKind (eq_clause (_T "shardId") (IntImpl id)).
Proof. intros Ht. apply asks_infos; [done|]. repeat constructor. Qed.

Lemma selects_id d id o : table_ok d -> o ∈ view d ->
  selects ShardInfoKind (eq_clause (_T "shardId") (IntImpl id)) o = of_kind ShardInfoKind o && record_of id o.
Proof.
  intros [Hi _] Ho. unfold selects. destruct (of_kind ShardInfoKind o) eqn:Ek; [|done]. cbn [andb].
  rewrite Forall_forall in Hi. destruct (Hi o) as (_ & i & _ & Hd); [by apply elem_of_filter_b|].
  rewrite (describes_id _ _ _ Hd). apply (Forall_inv) in Hd. cbn [fst snd] in Hd.
  unfold eq_clause. cbn [forallb]. unfold meets. cbn [fst snd MojDbQuery.WhereClause.m_lowerOp MojDbQuery.WhereClause.m_upperOp MojDbQuery.WhereClause.m_lowerVal].
  rewrite Hd. cbn [MojObject.compare MojObject.type MojObject.type_code]. rewrite Z.eqb_refl. cbn [negb]. rewrite andb_true_r.
  unfold MojComp. destruct (Z.ltb_spec (MojDbShardInfo.id i) id), (Z.ltb_spec id (MojDbShardInfo.id i)), (Z.eqb_spec (MojDbShardInfo.id i) id); try lia; done.
Qed.

Lemma filter_ids d id : table_ok d ->
  List.filter (selects ShardInfoKind (eq_clause (_T "shardId") (IntImpl id))) (view d) = List.filter (record_of id) (infos d).
Proof.
  intros Ht. unfold infos. rewrite filter_filter_b. apply filter_ext_b. intros o Ho. exact (selects_id d id o Ht Ho).
Qed.

(** ** Changing *)
(** The records after a change of each in its place. *)
Lemma infos_map d d' (g : MojObject -> MojObject) : view d' ≡ₚ map g (view d) ->
  (forall o, o ∈ view d -> of_kind ShardInfoKind (g o) = of_kind ShardInfoKind o) -> infos d' ≡ₚ map g (infos d).
Proof.
  intros P E. unfold infos. rewrite (filter_perm _ _ _ P). clear P.
  enough (List.filter (of_kind ShardInfoKind) (map g (view d)) = map g (List.filter (of_kind ShardInfoKind) (view d))) as -> by done.
  induction (view d) as [|o l IH]; [done|]. cbn [map List.filter]. rewrite E by (by left).
  rewrite IH by (intros o' Ho'; apply E; by right). by destruct (of_kind ShardInfoKind o).
Qed.

Lemma table_map d d' (g : MojObject -> MojObject) : valid d' -> table_ok d -> infos d' ≡ₚ map g (infos d) ->
  (forall o, o ∈ infos d -> in_main (g o) /\ (forall id, record_of id (g o) = record_of id o) /\
     exists i, MojDbShardInfo.ok i /\ MojDbShardInfo.describes i (g o)) ->
  table_ok d'.
Proof.
  intros Hv [Hi [U _]] P G. split; [|split; [|done]].
  - rewrite P. apply Forall_fmap, Forall_forall. intros o Ho. by destruct (G o Ho) as (? & _ & ?).
  - intros id. specialize (U id). enough (length (List.filter (record_of id) (infos d')) = length (List.filter (record_of id) (infos d))) as -> by done.
    rewrite (Permutation_length (filter_perm _ _ _ P)). clear -G.
    induction (infos d) as [|o l IH]; [done|]. cbn [map List.filter]. destruct (G o ltac:(by left)) as (_ & R & _). rewrite R.
    assert (length (List.filter (record_of id) (map g l)) = length (List.filter (record_of id) l)) as E by (apply IH; intros o' Ho'; apply G; by right).
    by destruct (record_of id o); cbn [length]; rewrite E.
Qed.

Definition stamped (i : MojDbShardInfo) (t : Z) : MojDbShardInfo := MojDbShardInfo.with_timestamp i t.

Lemma stamped_ok i t : MojDbShardInfo.ok i -> in_int 64 t -> MojDbShardInfo.ok (stamped i t).
Proof. by intros (? & _ & ? & ?) ?. Qed.

(** A merge of a description: what becomes of a record. *)
Lemma merged_fields i o o' : MojDbShardInfo.ok i ->
  (forall key, str_ok key -> key <> RevKey ->
     MojObject.get o' key = merged_value (MojObject.get (convert i UndefinedImpl) key) (MojObject.get o key)) ->
  MojDbShardInfo.describes i o' /\ oid o' = oid o /\ MojObject.get o' KindKey = MojObject.get o KindKey.
Proof.
  intros Hi E. destruct (MojDbShardInfo.toObject_spec i UndefinedImpl Hi I) as (_ & Udesc & Urest).
  fold (convert i UndefinedImpl) in Udesc, Urest. unfold oid.
  rewrite !(E KindKey), !(E IdKey), !(Urest KindKey), !(Urest IdKey);
    try (by repeat constructor); try (by apply (bool_decide_unpack (_ <> _)); vm_compute);
    try (by apply (bool_decide_unpack (_ ∉ _)); vm_compute).
  split; [|by destruct (MojObject.get o IdKey), (MojObject.get o KindKey)].
  pose proof (field_names i) as Hn. unfold MojDbShardInfo.describes in *. rewrite Forall_forall in *. intros f Hf.
  destruct (Hn f Hf) as (Hs & _ & Hr & _). rewrite E, (Udesc f Hf) by done.
  assert (match f.2 with ObjectImpl _ => False | _ => True end) as Hscalar.
  { clear -Hf. revert f Hf. apply Forall_forall. repeat constructor. }
  destruct f as [k v]. cbn [fst snd] in *. unfold merged_value, Merge.merge_value. by destruct (MojObject.get o k), v.
Qed.

Lemma mirrors_kept c c' d d' id (g : MojObject -> MojObject) : mirrors (c, d) -> table_ok d' -> infos d' ≡ₚ map g (infos d) ->
  (forall o j, o ∈ infos d -> record_of j (g o) = record_of j o) ->
  (forall o, o ∈ infos d -> record_of id o = false -> g o = o) ->
  (forall j, j <> id -> c' !! j = c !! j) ->
  match c' !! id with
  | Some o => exists i rec, MojDbShardInfo.ok i /\ MojDbShardInfo.id i = id /\ MojDbShardInfo.describes i o /\
                rec ∈ infos d' /\ MojDbShardInfo.describes i rec
  | None => c !! id = None
  end -> mirrors (c', d').
Proof.
  intros [Ht Hm] Ht' P R G Hc Hid. split; [done|]. intros j. cbn [fst snd] in *.
  assert (c !! j = None -> forall rec, rec ∈ infos d' -> record_of j rec = false) as Hnone.
  { intros E rec Hrec. specialize (Hm j). rewrite E in Hm. rewrite P in Hrec.
    apply list_elem_of_fmap in Hrec as (o & -> & Ho). rewrite R by done. by apply Hm. }
  destruct (decide (j = id)) as [->|Hj]; [destruct (c' !! id); [done|by apply Hnone]|].
  rewrite Hc by done. specialize (Hm j). destruct (c !! j) as [o|]; [|by apply Hnone].
  destruct Hm as (i & rec & Hi & Ej & Hd & Hrec & Hr). exists i, rec. split_and!; try done.
  rewrite P. apply list_elem_of_fmap. exists rec. split; [|done]. symmetry. apply G; [done|].
  rewrite (describes_id _ _ _ Hr), Ej. by apply Z.eqb_neq.
Qed.

(** What an update leaves: a description with the time, in the table and in the cache;
    the others as they were. *)
Lemma update_spec x i : mirrors x -> MojDbShardInfo.ok i ->
  exists x', mirrors x' /\ (forall id, id <> MojDbShardInfo.id i -> x'.1 !! id = x.1 !! id) /\
    match x.1 !! MojDbShardInfo.id i with
    | Some _ => update_info i x = (x', Ok tt) /\ exists t rec, in_int 64 t /\ rec ∈ infos x'.2 /\ MojDbShardInfo.describes (stamped i t) rec
    | None => update_info i x = (x', Err MojErrDbObjectNotFound) /\ x'.1 = x.1
    end.
Proof.
  intros [Ht Hm] Hi. destruct x as [c d]. cbn [fst snd] in *.
  set (id := MojDbShardInfo.id i) in *. destruct (time_ok d) as (t & Et & Hti).
  pose proof (stamped_ok i t Hi Hti) as Hsi. set (update := convert (stamped i t) UndefinedImpl).
  destruct (MojDbShardInfo.toObject_spec (stamped i t) UndefinedImpl Hsi I) as (Uok & Udesc & Urest).
  fold (convert (stamped i t) UndefinedImpl) in Uok, Udesc, Urest. fold update in Uok, Udesc, Urest.
  assert (oid update = None) as Uid by (unfold oid; rewrite Urest; [done|by repeat constructor|by apply (bool_decide_unpack (_ ∉ _)); vm_compute]).
  destruct (merge_all d _ _ _ update (asks_id d id Ht) Uok Uid) as (d' & f & Em & Hv' & Pv & Hf).
  rewrite (filter_ids d id Ht) in Em.
  set (g := fun o => if selects ShardInfoKind (eq_clause (_T "shardId") (IntImpl id)) o then f o else o) in *.
  assert (forall o, o ∈ view d -> g o = o \/ selects ShardInfoKind (eq_clause (_T "shardId") (IntImpl id)) o = true /\ g o = f o /\
            MojDbShardInfo.describes (stamped i t) (f o) /\ oid (f o) = oid o /\ MojObject.get (f o) KindKey = MojObject.get o KindKey) as Hg.
  { intros o Ho. unfold g. destruct (selects _ _ o) eqn:Es; [|by left]. right. split; [done|]. split; [done|].
    apply merged_fields; [done|]. exact (Hf o Ho Es). }
  assert (infos d' ≡ₚ map g (infos d)) as P.
  { apply infos_map; [done|]. intros o Ho. destruct (Hg o Ho) as [->|(_ & -> & _ & _ & Ek)]; [done|]. unfold of_kind. by rewrite Ek. }
  assert (forall o, o ∈ infos d -> o ∈ view d /\ of_kind ShardInfoKind o = true) as Hin by (intros o; apply elem_of_filter_b).
  assert (forall o j, o ∈ infos d -> record_of j (g o) = record_of j o) as R.
  { intros o j [Ho Ek]%Hin. destruct (Hg o Ho) as [->|(Es & -> & Hd & _)]; [done|].
    rewrite (selects_id d id o Ht Ho), Ek in Es. cbn [andb] in Es. rewrite (describes_id _ _ _ Hd).
    unfold record_of in *. destruct (MojObject.get o (_T "shardId")) as [[]|]; try done. apply Z.eqb_eq in Es as ->. done. }
  assert (forall o, o ∈ infos d -> record_of id o = false -> g o = o) as G.
  { intros o [Ho Ek]%Hin Er. destruct (Hg o Ho) as [|(Es & _)]; [done|]. rewrite (selects_id d id o Ht Ho), Ek, Er in Es. done. }
  assert (table_ok d') as Ht'.
  { eapply table_map; [done|done|exact P|]. intros o Ho. pose proof (proj1 Ht) as F. rewrite Forall_forall in F. destruct (F o Ho) as [Om Od].
    split; [|split; [intros j; by apply R|]]; (destruct (Hg o (proj1 (Hin o Ho))) as [->|(_ & -> & Hd & Eo & _)]; [done|]).
    - unfold in_main. by rewrite Eo.
    - by exists (stamped i t). }
  assert (update_info i (c, d) = let n := to_uint 32 (Z.of_nat (length (List.filter (record_of id) (infos d)))) in
            if n =? 0 then ((c, d'), Err MojErrDbObjectNotFound) else ((( MojDbShardIdCache.update c id update).1, d'), Ok tt)) as E.
  { unfold update_info. rewrite infoQuery_eq. unfold updateTimestamp, on_db, on_cache, bind, lift, ret, throw, modify. cbn [fst snd].
    rewrite Et. fold (stamped i t). fold update. fold id. cbn [fst snd]. rewrite Em. by destruct (_ =? 0). }
  pose proof (Hm id) as Hid. destruct (c !! id) as [o|] eqn:Ec.
  - destruct Hid as (i1 & rec & Hi1 & E1 & _ & Hrec & Hd1).
    assert (record_of id rec = true) as Er by (rewrite (describes_id _ _ _ Hd1), E1; apply Z.eqb_refl).
    assert (length (List.filter (record_of id) (infos d)) = 1%nat) as El.
    { pose proof (proj1 (proj2 Ht) id) as U. assert (rec ∈ List.filter (record_of id) (infos d)) as Hr by by apply elem_of_filter_b.
      destruct (List.filter _ _) as [|? []]; [by apply elem_of_nil in Hr|done|cbn in U; lia]. }
    exists (<[id := update]> c, d'). assert (g rec ∈ infos d' /\ MojDbShardInfo.describes (stamped i t) (g rec)) as [Gr Gd].
    { split; [rewrite P; apply list_elem_of_fmap; by exists rec|]. destruct (Hin rec Hrec) as [Hv Ek].
      destruct (Hg rec Hv) as [Eg|(_ & -> & ? & _)]; [|done]. unfold g in Eg |- *.
      rewrite (selects_id d id rec Ht Hv), Ek, Er in *. cbn [andb] in *.
      apply (merged_fields (stamped i t) rec); [done|]. apply Hf; [done|]. by rewrite (selects_id d id rec Ht Hv), Ek, Er. }
    split; [|split; [intros j Hj; cbn [fst]; by rewrite lookup_insert_ne|]].
    + eapply (mirrors_kept c _ d d' id g); try done; [intros j Hj; by rewrite lookup_insert_ne|]. rewrite lookup_insert_eq.
      exists (stamped i t), (g rec). by split_and!.
    + rewrite E, El. cbn [Z.of_nat to_uint]. unfold MojDbShardIdCache.update. rewrite Ec. split; [done|]. by exists t, (g rec).
  - exists (c, d'). split; [|split; [done|]].
    + eapply (mirrors_kept c c d d' id g); try done. by rewrite Ec.
    + assert (List.filter (record_of id) (infos d) = []) as El.
      { destruct (List.filter _ _) as [|r l] eqn:El; [done|]. assert (r ∈ List.filter (record_of id) (infos d)) as [Hr Er]%elem_of_filter_b by (rewrite El; by left).
        by rewrite Hid in Er. }
      rewrite E, El. done.
Qed.

(** *** A new shard *)
Lemma id_text_ok i s : MojDbShardInfo.convertId i = Ok s -> str_ok s.
Proof.
  unfold MojDbShardInfo.convertId. rewrite IdSpec.base64Encode_eq. generalize (encodeLoop_str (MojDataWriter.writeUInt32 [] i) (toBigEndian_bytes 4 i)).
  generalize (MojBase64.encodeLoop MojBase64.chars (MojDataWriter.writeUInt32 [] i) false). by intros s' Hs [= <-].
Qed.

(** The description that is put: with the time and with its id as a text. *)
Definition completed (i : MojDbShardInfo) (t : Z) : MojDbShardInfo :=
  match MojDbShardInfo.id_base64 i with
  | [] => match MojDbShardInfo.convertId (MojDbShardInfo.id i) with Ok s => MojDbShardInfo.with_id_base64 (stamped i t) s | Err _ => stamped i t end
  | _ => stamped i t
  end.

Lemma completed_ok i t : MojDbShardInfo.ok i -> in_int 64 t -> MojDbShardInfo.ok (completed i t) /\ MojDbShardInfo.id (completed i t) = MojDbShardInfo.id i.
Proof.
  intros Hi Ht. pose proof (stamped_ok i t Hi Ht) as Hs. unfold completed. destruct (MojDbShardInfo.id_base64 i); [|done].
  destruct (MojDbShardInfo.convertId _) as [s|] eqn:E; [|done]. apply id_text_ok in E. split; [|done].
  destruct Hs as (H3 & H4 & H5 & H6). split_and!; try done. by apply Forall_cons in H6 as [_ H6]; apply Forall_cons.
Qed.

Lemma put_spec x i : mirrors x -> MojDbShardInfo.ok i -> x.1 !! MojDbShardInfo.id i = None ->
  exists x' t rec, put i x = (x', Ok tt) /\ mirrors x' /\ (forall id, id <> MojDbShardInfo.id i -> x'.1 !! id = x.1 !! id) /\
    in_int 64 t /\ rec ∈ infos x'.2 /\ MojDbShardInfo.describes (completed i t) rec.
Proof.
  intros [Ht Hm] Hi Hc. destruct x as [c d]. cbn [fst snd] in *. destruct (time_ok d) as (t & Et & Hti).
  destruct (completed_ok i t Hi Hti) as [Hok Hid].
  set (o0 := MojObject.putString UndefinedImpl (_T "_kind") ShardInfoKind).
  assert (MojObject.ok o0) as Ho0 by (split; [repeat constructor|]; cbn; by repeat constructor).
  destruct (MojDbShardInfo.toObject_spec (completed i t) o0 Hok Ho0) as (Ook & Odesc & Orest).
  fold (convert (completed i t) o0) in Ook, Odesc, Orest. set (obj := convert (completed i t) o0) in *.
  assert (oid obj = None /\ MojObject.get obj KindKey = Some (StringImpl ShardInfoKind)) as [Uid Uk].
  { unfold oid. rewrite !Orest; try (by repeat constructor); try (by apply (bool_decide_unpack (_ ∉ _)); vm_compute). }
  destruct (put_new d obj ShardInfoKind info_indexes (proj2 (proj2 Ht)) Ook Uid Uk info_registered) as (d' & o' & Ep & Hv' & Pv & Hok' & Hmain & Hget).
  assert (MojDbShardInfo.describes (completed i t) o') as Od.
  { eapply describes_ext; [|exact Odesc]. intros f Hf. pose proof (field_names (completed i t)) as Hn. rewrite Forall_forall in Hn.
    destruct (Hn f Hf) as (? & ? & ? & _). by apply Hget. }
  assert (infos d' ≡ₚ o' :: infos d) as P.
  { unfold infos. rewrite (filter_perm _ _ _ Pv). cbn [List.filter]. replace (of_kind ShardInfoKind o') with true; [done|].
    unfold of_kind. rewrite Hget, Uk; [by rewrite is_a_refl|by repeat constructor|by apply (bool_decide_unpack (_ <> _)); vm_compute..]. }
  assert (forall id, record_of id o' = (MojDbShardInfo.id i =? id)) as Ro by (intros id; by rewrite (describes_id _ _ _ Od), Hid).
  pose proof (Hm (MojDbShardInfo.id i)) as Hnone. rewrite Hc in Hnone.
  assert (table_ok d') as Ht'.
  { destruct Ht as [F [U _]]. split; [rewrite P; constructor; [split; [done|by exists (completed i t)]|done]|]. split; [|done].
    intros id. rewrite (Permutation_length (filter_perm _ _ _ P)). cbn [List.filter]. rewrite Ro. specialize (U id).
    destruct (Z.eqb_spec (MojDbShardInfo.id i) id) as [<-|]; [|done].
    destruct (List.filter (record_of (MojDbShardInfo.id i)) (infos d)) as [|r l] eqn:El; [cbn; lia|].
    assert (r ∈ List.filter (record_of (MojDbShardInfo.id i)) (infos d)) as [Hr Er]%elem_of_filter_b by (rewrite El; by left).
    by rewrite Hnone in Er. }
  exists (<[MojDbShardInfo.id i := o']> c, d'), t, o'.
  split; [|split; [|split; [intros j Hj; cbn [fst]; by rewrite lookup_insert_ne|split; [done|split; [rewrite P; by left|done]]]]].
  - unfold put, updateTimestamp, on_db, on_cache, bind, lift, ret, modify. cbn [fst snd]. rewrite Et. fold (stamped i t).
    assert (MojDbShardInfo.id_base64 (stamped i t) = MojDbShardInfo.id_base64 i) as -> by done.
    destruct (MojDbShardInfo.id_text (MojDbShardInfo.id i) (proj1 Hi)) as (s & Es & _). unfold completed in Ep.
    change (MojDbShardInfo.id (stamped i t)) with (MojDbShardInfo.id i).
    unfold obj, completed in Ep. rewrite Es in Ep |- *. unfold MojDbShardIdCache.put.
    destruct (MojDbShardInfo.id_base64 i); cbn [fst snd]; fold o0; rewrite Ep; cbn [fst snd]; by rewrite Hc.
  - split; [done|]. intros id. cbn [fst snd]. destruct (decide (id = MojDbShardInfo.id i)) as [->|Hne].
    + rewrite lookup_insert_eq. exists (completed i t), o'. split_and!; try done. rewrite P. by left.
    + rewrite lookup_insert_ne by done. specialize (Hm id). destruct (c !! id) as [o|].
      * destruct Hm as (i1 & rec & ? & ? & ? & Hrec & ?). exists i1, rec. split_and!; try done. rewrite P. by right.
      * intros rec Hrec. rewrite P in Hrec. apply elem_of_cons in Hrec as [->|Hrec]; [|by apply Hm]. rewrite Ro. by apply Z.eqb_neq.
Qed.

(** *** A shard that goes *)
Lemma remove_spec x id : mirrors x ->
  exists x', removeShardInfo id x = (x', Ok tt) /\ mirrors x' /\ x'.1 = delete id x.1 /\
    infos x'.2 ≡ₚ List.filter (fun o => negb (record_of id o)) (infos x.2).
Proof.
  intros [Ht Hm]. destruct x as [c d]. cbn [fst snd] in *.
  destruct (delQuery_all d _ _ _ (asks_id d id Ht)) as (d' & n & Ed & Hv' & Pv).
  assert (infos d' ≡ₚ List.filter (fun o => negb (record_of id o)) (infos d)) as P.
  { unfold infos. rewrite (filter_perm _ _ _ Pv), !filter_filter_b.
    rewrite (filter_ext_b _ (fun o => of_kind ShardInfoKind o && negb (record_of id o))); [done|].
    intros o Ho. rewrite (selects_id d id o Ht Ho). by destruct (of_kind ShardInfoKind o), (record_of id o). }
  exists (delete id c, d'). split; [|split; [|by split]].
  - unfold removeShardInfo. rewrite infoQuery_eq. unfold on_db, on_cache, bind, lift, modify. cbn [fst snd]. by rewrite Ed.
  - assert (forall o, o ∈ infos d' <-> o ∈ infos d /\ record_of id o = false) as Hin.
    { intros o. rewrite P, elem_of_filter_b. destruct (record_of id o); cbn; naive_solver. }
    split.
    + destruct Ht as [F [U _]]. split; [rewrite Forall_forall in *; intros o [Ho _]%Hin; by apply F|]. split; [|done].
      intros j. rewrite (Permutation_length (filter_perm _ _ _ P)), filter_filter_b. specialize (U j).
      etransitivity; [|exact U]. clear. induction (infos d) as [|o l IH]; [done|]. cbn [List.filter].
      destruct (record_of id o), (record_of j o); cbn [negb andb length]; lia.
    + intros j. cbn [fst snd]. destruct (decide (j = id)) as [->|Hne].
      * rewrite lookup_delete_eq. intros rec [_ ?]%Hin. done.
      * rewrite lookup_delete_ne by done. specialize (Hm j). destruct (c !! j) as [o|].
        -- destruct Hm as (i1 & rec & ? & Ej & ? & Hrec & Hd). exists i1, rec. split_and!; try done. apply Hin. split; [done|].
           rewrite (describes_id _ _ _ Hd), Ej. by apply Z.eqb_neq.
        -- intros rec [Hrec _]%Hin. by apply Hm.
Qed.

(** *** The start *)
(** The ids that [initCache] can read. *)
Definition readable_ids (d : D) : Prop := forall o v, o ∈ infos d -> MojObject.get o (_T "shardId") = Some (IntImpl v) -> v <= MojInt32Max.

Lemma cache_loop_spec d l : forall fuel cursor c, shows d cursor l -> (length l < fuel)%nat ->
  Forall (fun o => exists v, MojObject.get o (_T "shardId") = Some (IntImpl v) /\ 0 <= v <= MojInt32Max) l ->
  exists c', cache_loop fuel cursor (c, d) = ((c', d), Ok tt) /\
    forall id, c' !! id = match c !! id with Some o => Some o | None => head (List.filter (record_of id) l) end.
Proof.
  induction l as [|o l IH]; intros [|fuel] cursor c Hs Hf Hl; cbn [length] in Hf; try lia.
  - destruct (get_end d cursor Hs) as [cur' E]. exists c. split; [|intros id; by destruct (c !! id)].
    cbn [cache_loop]. unfold on_db, bind. cbn [fst snd]. by rewrite E.
  - destruct (get_next d cursor o l Hs) as (cur' & E & Hs'). apply Forall_cons in Hl as [(v & Ev & Hv) Hl].
    destruct (IH fuel cur' (MojDbShardIdCache.put c v o) Hs' ltac:(lia) Hl) as (c' & E' & Hc').
    exists c'. split.
    + cbn [cache_loop]. unfold on_db, on_cache, bind, lift, modify in *. cbn [fst snd]. rewrite E.
      unfold MojObject.get_int32, MojObject.get_int. cbn [fst snd]. rewrite Ev. cbn [MojObject.intValue].
      replace ((MojInt32Min <=? v) && (v <=? MojInt32Max)) with true by (symmetry; apply andb_true_iff; change MojInt32Min with (-2147483648); lia).
      cbn [MojObject.getRequiredErrT MojObject.getRequiredT res_bind fst snd].
      rewrite to_uint_small by (change MojInt32Max with 2147483647 in Hv; unfold in_uint; lia). exact E'.
    + intros id. rewrite Hc'. cbn [List.filter]. unfold record_of at 2. rewrite Ev. unfold MojDbShardIdCache.put.
      destruct (Z.eqb_spec v id) as [->|Hne].
      * destruct (c !! id) as [o1|] eqn:Ec; [by rewrite Ec|]. by rewrite lookup_insert_eq.
      * destruct (c !! v) as [o1|]; [done|]. by rewrite lookup_insert_ne.
Qed.

Lemma initCache_spec d fuel : table_ok d -> readable_ids d -> (length (infos d) < fuel)%nat ->
  exists c, initCache fuel (∅, d) = ((c, d), Ok tt) /\ mirrors (c, d).
Proof.
  intros Ht Hr Hf. destruct (find_shows d _ _ _ (asks_infos d [] Ht (List.Forall_nil _))) as (cur & l & Ef & Hs & P).
  assert (l ≡ₚ infos d) as P'.
  { rewrite P. unfold infos, selects. cbn [forallb]. rewrite (filter_ext_b _ (of_kind ShardInfoKind)); [done|]. intros o _. by rewrite andb_true_r. }
  assert (forall o, o ∈ l <-> o ∈ infos d) as Hin by (intros o; by rewrite P').
  destruct (cache_loop_spec d l fuel cur ∅ Hs ltac:(by rewrite (Permutation_length P'))) as (c & Ec & Hc).
  { rewrite Forall_forall. intros o Ho%Hin. destruct Ht as [F _]. rewrite Forall_forall in F. destruct (F o Ho) as (_ & i & Hi & Hd).
    apply Forall_inv in Hd. exists (MojDbShardInfo.id i). split; [done|]. split; [by destruct Hi as [[? _] _]|]. exact (Hr o _ Ho Hd). }
  exists c. split.
  - unfold initCache, on_db, bind. cbn [fst snd].
    change (MojDbQuery.from MojDbQuery.make ShardInfoKind) with (MojDbQuery.with_where (MojDbQuery.from MojDbQuery.make ShardInfoKind) [] []).
    by rewrite Ef.
  - split; [done|]. intros id. cbn [fst snd]. rewrite Hc, lookup_empty.
    destruct (List.filter (record_of id) l) as [|o l'] eqn:El; cbn [head].
    + intros rec Hrec%Hin. destruct (record_of id rec) eqn:Er; [|done].
      assert (rec ∈ List.filter (record_of id) l) as Hx by by apply elem_of_filter_b. rewrite El in Hx. by apply elem_of_nil in Hx.
    + assert (o ∈ List.filter (record_of id) l) as [Ho Er]%elem_of_filter_b by (rewrite El; by left).
      apply Hin in Ho. destruct Ht as [F _]. rewrite Forall_forall in F. destruct (F o Ho) as (_ & i & Hi & Hd).
      rewrite (describes_id _ _ _ Hd) in Er. apply Z.eqb_eq in Er. exists i, o. by split_and!.
Qed.

(** *** The kinds of a shard *)
Lemma with_kinds_ok i l : MojDbShardInfo.ok i -> Forall MojDbKindIdList.listed l -> MojDbShardInfo.ok (MojDbShardInfo.with_kindIds i l).
Proof. by intros (? & ? & _ & ?) ?. Qed.

Lemma remove_listed l k : Forall MojDbKindIdList.listed l -> Forall MojDbKindIdList.listed (MojDbKindIdList.remove l k).
Proof. rewrite !Forall_forall. intros F j Hj%MojDbKindIdList.remove_subset. by apply F. Qed.

(** ** The table as a map *)
(** The table has a description of each id, which the cache and the record of it have. *)
Definition represents (x : MojDbShardIdCache.IdCache * D) (A : Table) : Prop :=
  mirrors x /\
  forall id, match A !! id, x.1 !! id with
             | Some i, Some o => MojDbShardInfo.ok i /\ MojDbShardInfo.id i = id /\ MojDbShardInfo.describes i o
             | None, None => True
             | _, _ => False
             end.

Lemma describes_inj i j o : MojDbShardInfo.ok i -> MojDbShardInfo.ok j -> MojDbShardInfo.describes i o -> MojDbShardInfo.describes j o -> i = j.
Proof.
  intros Hi Hj Di Dj. pose proof (MojDbShardInfo.fromObject_spec i o i Hi Di) as E.
  rewrite (MojDbShardInfo.fromObject_spec j o i Hj Dj) in E. congruence.
Qed.

(** The description in the cache is that of the record. *)
Lemma mirrors_record x i rec : mirrors x -> MojDbShardInfo.ok i -> rec ∈ infos x.2 -> MojDbShardInfo.describes i rec ->
  exists o, x.1 !! MojDbShardInfo.id i = Some o /\ MojDbShardInfo.describes i o.
Proof.
  intros [Ht Hm] Hi Hrec Hd. specialize (Hm (MojDbShardInfo.id i)).
  assert (record_of (MojDbShardInfo.id i) rec = true) as Er by (rewrite (describes_id _ _ _ Hd); apply Z.eqb_refl).
  destruct (x.1 !! MojDbShardInfo.id i) as [o|]; [|by rewrite Hm in Er]. destruct Hm as (j & rec' & Hj & Ej & Do & Hrec' & Hd').
  exists o. split; [done|]. assert (record_of (MojDbShardInfo.id i) rec' = true) as Er' by (rewrite (describes_id _ _ _ Hd'), Ej; apply Z.eqb_refl).
  assert (rec' = rec) as -> by (by eapply one_record). by rewrite (describes_inj i j rec).
Qed.

Lemma represents_get x A id i0 : represents x A ->
  get_info id i0 x = (x, Ok (match A !! id with Some i => (i, true) | None => (i0, false) end)).
Proof.
  intros [_ Ha]. specialize (Ha id). unfold get_info, bind, Effects.get, MojDbShardIdCache.get.
  destruct (A !! id) as [i|], (x.1 !! id) as [o|]; try done. destruct Ha as (Hi & _ & Hd).
  unfold convertFrom, convertInto. by rewrite (MojDbShardInfo.fromObject_spec i o i0 Hi Hd).
Qed.

Lemma represents_insert x x' A i rec : represents x A -> mirrors x' ->
  (forall id, id <> MojDbShardInfo.id i -> x'.1 !! id = x.1 !! id) ->
  MojDbShardInfo.ok i -> rec ∈ infos x'.2 -> MojDbShardInfo.describes i rec -> represents x' (<[MojDbShardInfo.id i := i]> A).
Proof.
  intros [_ Ha] Hx' Ho Hi Hrec Hd. split; [done|]. intros id. destruct (decide (id = MojDbShardInfo.id i)) as [->|Hne].
  - rewrite lookup_insert_eq. by destruct (mirrors_record x' i rec Hx' Hi Hrec Hd) as (o & -> & Hdo).
  - rewrite lookup_insert_ne, Ho by done. apply Ha.
Qed.

Lemma represents_some x A i : represents x A -> A !! MojDbShardInfo.id i <> None -> is_Some (x.1 !! MojDbShardInfo.id i).
Proof. intros [_ Ha] Hn. specialize (Ha (MojDbShardInfo.id i)). by destruct (A !! _), (x.1 !! _). Qed.

(** ** What is done to the table *)
Inductive ShardOp :=
| OpPut (i : MojDbShardInfo)
| OpUpdate (i : MojDbShardInfo)
| OpLink (id : Z) (kindId : mstring)
| OpUnlink (id : Z) (kindId : mstring)
| OpRemove (id : Z).

Definition run_op (op : ShardOp) : st (MojDbShardIdCache.IdCache * D) unit :=
  match op with
  | OpPut i => put i
  | OpUpdate i => update_info i
  | OpLink id kindId => link id kindId
  | OpUnlink id kindId => unlink id kindId
  | OpRemove id => removeShardInfo id
  end.

(** A description is put under a new id; names of kinds can be listed. *)
Definition op_ok (A : Table) (op : ShardOp) : Prop :=
  match op with
  | OpPut i => MojDbShardInfo.ok i /\ A !! MojDbShardInfo.id i = None
  | OpUpdate i => MojDbShardInfo.ok i
  | OpLink _ kindId | OpUnlink _ kindId => MojDbKindIdList.listed kindId
  | OpRemove _ => True
  end.

(** A change at some time. *)
Definition changed (A : Table) (i : MojDbShardInfo) (A' : Table) : Prop :=
  exists t, in_int 64 t /\ A' = <[MojDbShardInfo.id i := stamped i t]> A.

Definition op_spec (A : Table) (op : ShardOp) (A' : Table) (r : res unit) : Prop :=
  match op with
  | OpPut i => r = Ok tt /\ exists t, in_int 64 t /\ A' = <[MojDbShardInfo.id i := completed i t]> A
  | OpUpdate i =>
      match A !! MojDbShardInfo.id i with
      | Some _ => r = Ok tt /\ changed A i A'
      | None => r = Err MojErrDbObjectNotFound /\ A' = A
      end
  | OpLink id kindId =>
      r = Ok tt /\
      match A !! id with
      | Some i => if decide (kindId ∈ MojDbShardInfo.kindIds i) then A' = A
                  else changed A (MojDbShardInfo.with_kindIds i (MojDbShardInfo.kindIds i ++ [kindId])) A'
      | None => A' = A
      end
  | OpUnlink id kindId =>
      r = Ok tt /\
      match A !! id with
      | Some i => if decide (kindId ∈ MojDbShardInfo.kindIds i)
                  then changed A (MojDbShardInfo.with_kindIds i (MojDbKindIdList.remove (MojDbShardInfo.kindIds i) kindId)) A'
                  else A' = A
      | None => A' = A
      end
  | OpRemove id => r = Ok tt /\ A' = delete id A
  end.

Lemma represents_ok x A id i : represents x A -> A !! id = Some i -> MojDbShardInfo.ok i /\ MojDbShardInfo.id i = id.
Proof. intros [_ Ha] E. specialize (Ha id). rewrite E in Ha. destruct (x.1 !! id); [by destruct Ha as (? & ? & _)|done]. Qed.

Lemma update_refines x A i : represents x A -> MojDbShardInfo.ok i ->
  exists x' r A', update_info i x = (x', r) /\ op_spec A (OpUpdate i) A' r /\ represents x' A'.
Proof.
  intros Hr Hi. destruct (update_spec x i (proj1 Hr) Hi) as (x' & Hx' & Ho & Hu). pose proof (proj2 Hr (MojDbShardInfo.id i)) as Ha.
  cbn [op_spec]. destruct (A !! MojDbShardInfo.id i) as [j|], (x.1 !! MojDbShardInfo.id i) as [o|] eqn:Ec; try done.
  - destruct Hu as (E & t & rec & Ht & Hrec & Hd). exists x', (Ok tt), (<[MojDbShardInfo.id i := stamped i t]> A).
    split; [done|]. split; [split; [done|by exists t]|].
    exact (represents_insert x x' A (stamped i t) rec Hr Hx' Ho (stamped_ok i t Hi Ht) Hrec Hd).
  - destruct Hu as (E & E1). exists x', (Err MojErrDbObjectNotFound), A. split; [done|]. split; [done|].
    split; [done|]. rewrite E1. exact (proj2 Hr).
Qed.

Lemma kinds_refine x A i l : represents x A -> A !! MojDbShardInfo.id i = Some i -> Forall MojDbKindIdList.listed l ->
  exists x' A', update_info (MojDbShardInfo.with_kindIds i l) x = (x', Ok tt) /\ changed A (MojDbShardInfo.with_kindIds i l) A' /\ represents x' A'.
Proof.
  intros Hr Ha Hl. destruct (represents_ok x A _ i Hr Ha) as [Hi _].
  destruct (update_refines x A (MojDbShardInfo.with_kindIds i l) Hr (with_kinds_ok i l Hi Hl)) as (x' & r & A' & E & S & R).
  cbn [op_spec] in S. change (MojDbShardInfo.id (MojDbShardInfo.with_kindIds i l)) with (MojDbShardInfo.id i) in S. rewrite Ha in S.
  destruct S as [-> S]. by exists x', A'.
Qed.

Lemma op_refines x A op : represents x A -> op_ok A op ->
  exists x' r A', run_op op x = (x', r) /\ op_spec A op A' r /\ represents x' A'.
Proof.
  intros Hr Hop. destruct op as [i|i|id kindId|id kindId|id]; cbn [run_op op_ok] in *.
  - destruct Hop as [Hi Ha]. pose proof (proj2 Hr (MojDbShardInfo.id i)) as Hc. rewrite Ha in Hc.
    destruct (put_spec x i (proj1 Hr) Hi) as (x' & t & rec & E & Hx' & Ho & Ht & Hrec & Hd); [by destruct (x.1 !! _)|].
    destruct (completed_ok i t Hi Ht) as [Hok Hid]. exists x', (Ok tt), (<[MojDbShardInfo.id i := completed i t]> A).
    split; [done|]. split; [split; [done|by exists t]|]. rewrite <- Hid in Ho |- *.
    exact (represents_insert x x' A (completed i t) rec Hr Hx' Ho Hok Hrec Hd).
  - by apply update_refines.
  - unfold link. destruct kindId as [|ch s] eqn:Ek; [by destruct Hop as (_ & ? & _)|]. rewrite <- Ek in *. clear Ek ch s.
    unfold bind. rewrite (represents_get x A id _ Hr). cbn [op_spec]. destruct (A !! id) as [i|] eqn:Ea; [|by exists x, (Ok tt), A].
    cbn [negb]. unfold MojDbKindIdList.isExist. destruct (represents_ok x A id i Hr Ea) as [Hi Hid].
    destruct (decide (kindId ∈ MojDbShardInfo.kindIds i)) as [Hin|Hin]; [rewrite bool_decide_eq_true_2 by done; by exists x, (Ok tt), A|].
    rewrite bool_decide_eq_false_2 by done. subst id.
    destruct (kinds_refine x A i (MojDbShardInfo.kindIds i ++ [kindId]) Hr Ea) as (x' & A' & E & C & R).
    { apply Forall_app. split; [by destruct Hi as (_ & _ & ? & _)|by constructor]. }
    exists x', (Ok tt), A'. by split_and!.
  - unfold unlink. destruct kindId as [|ch s] eqn:Ek; [by destruct Hop as (_ & ? & _)|]. rewrite <- Ek in *. clear Ek ch s.
    unfold bind. rewrite (represents_get x A id _ Hr). cbn [op_spec]. destruct (A !! id) as [i|] eqn:Ea; [|by exists x, (Ok tt), A].
    cbn [negb]. unfold MojDbKindIdList.isExist. destruct (represents_ok x A id i Hr Ea) as [Hi Hid].
    destruct (decide (kindId ∈ MojDbShardInfo.kindIds i)) as [Hin|Hin]; [|rewrite bool_decide_eq_false_2 by done; by exists x, (Ok tt), A].
    rewrite bool_decide_eq_true_2 by done. subst id. cbn [negb].
    destruct (kinds_refine x A i (MojDbKindIdList.remove (MojDbShardInfo.kindIds i) kindId) Hr Ea) as (x' & A' & E & C & R).
    { apply remove_listed. by destruct Hi as (_ & _ & ? & _). }
    exists x', (Ok tt), A'. by split_and!.
  - destruct (remove_spec x id (proj1 Hr)) as (x' & E & Hx' & Ec & _). exists x', (Ok tt), (delete id A). split; [done|]. split; [done|].
    split; [done|]. intros j. rewrite Ec. destruct (decide (j = id)) as [->|]; [by rewrite !lookup_delete_eq|].
    rewrite !lookup_delete_ne by done. apply (proj2 Hr).
Qed.

(** *** Looking for descriptions *)
Lemma represents_record x A rec : represents x A -> rec ∈ infos x.2 ->
  exists i, A !! MojDbShardInfo.id i = Some i /\ MojDbShardInfo.ok i /\ MojDbShardInfo.describes i rec.
Proof.
  intros [Hx Ha] Hrec. pose proof (proj1 (proj1 Hx)) as F. rewrite Forall_forall in F. destruct (F rec Hrec) as (_ & i & Hi & Hd).
  exists i. split; [|done]. destruct (mirrors_record x i rec Hx Hi Hrec Hd) as (o & Eo & Do). specialize (Ha (MojDbShardInfo.id i)).
  rewrite Eo in Ha. destruct (A !! _) as [j|]; [|done]. destruct Ha as (Hj & _ & Dj). by rewrite (describes_inj i j o).
Qed.

Lemma represents_known x A id i : represents x A -> A !! id = Some i -> exists rec, rec ∈ infos x.2 /\ MojDbShardInfo.describes i rec.
Proof.
  intros [[_ Hm] Ha] E. specialize (Ha id). specialize (Hm id). rewrite E in Ha. destruct (x.1 !! id) as [o|]; [|done].
  destruct Ha as (Hi & _ & Di), Hm as (j & rec & Hj & _ & Dj & Hrec & Hd). exists rec. split; [done|]. by rewrite (describes_inj i j o).
Qed.

(** The answers to a query for a value, and what the table says of them. *)
Lemma found_records x A key val (P : MojDbShardInfo -> Prop) : represents x A -> key ∈ info_indexes ->
  (forall i rec, MojDbShardInfo.ok i -> MojDbShardInfo.describes i rec ->
     forallb (meets rec) (eq_clause key val) = true <-> P i) ->
  exists c l, infoQuery key MojDbQuery.OpEq val = Ok (MojDbQuery.with_where (MojDbQuery.from MojDbQuery.make ShardInfoKind) (eq_clause key val) []) /\
    db_find (MojDbQuery.with_where (MojDbQuery.from MojDbQuery.make ShardInfoKind) (eq_clause key val) []) x.2 = (x.2, Ok c) /\
    shows x.2 c l /\ (length l <= length (infos x.2))%nat /\
    Forall (fun rec => exists i, A !! MojDbShardInfo.id i = Some i /\ MojDbShardInfo.ok i /\ P i /\ MojDbShardInfo.describes i rec) l /\
    forall id i, A !! id = Some i -> P i -> exists rec, rec ∈ l /\ MojDbShardInfo.describes i rec.
Proof.
  intros Hr Hkey HP. destruct (find_shows x.2 _ _ _ (asks_infos x.2 (eq_clause key val) (proj1 (proj1 Hr)) ltac:(by apply Forall_singleton))) as (c & l & E & S & Pl).
  assert (forall rec, rec ∈ l <-> rec ∈ infos x.2 /\ forallb (meets rec) (eq_clause key val) = true) as Hin.
  { intros rec. rewrite Pl. unfold infos. rewrite !elem_of_filter_b. unfold selects. rewrite andb_true_iff. tauto. }
  exists c, l. split; [apply infoQuery_eq|]. split; [done|]. split; [done|]. split.
  { rewrite Pl. unfold infos. clear. induction (view x.2) as [|o v IH]; [done|]. cbn [List.filter]. unfold selects at 1.
    destruct (of_kind ShardInfoKind o); cbn [andb]; [|done]. destruct (forallb _ _); cbn [length]; lia. }
  split.
  - rewrite Forall_forall. intros rec [Hrec Hmeet]%Hin. destruct (represents_record x A rec Hr Hrec) as (i & Ea & Hi & Hd).
    exists i. split_and!; try done. by eapply HP.
  - intros id i Ea Hpi. destruct (represents_known x A id i Hr Ea) as (rec & Hrec & Hd). exists rec. split; [|done]. apply Hin. split; [done|].
    destruct (represents_ok x A id i Hr Ea) as [Hi _]. by eapply HP.
Qed.

Lemma meets_field i rec key v val : MojDbShardInfo.describes i rec -> (key, v) ∈ MojDbShardInfo.fields i ->
  forallb (meets rec) (eq_clause key val) = (MojObject.compare v val =? 0).
Proof.
  intros Hd Hf. unfold eq_clause. cbn [forallb]. unfold meets. cbn [fst snd MojDbQuery.WhereClause.m_lowerOp MojDbQuery.WhereClause.m_upperOp MojDbQuery.WhereClause.m_lowerVal].
  rewrite (describes_get _ _ _ _ Hd Hf). by rewrite andb_true_r.
Qed.

(** The device's description, if the table has one. *)
Lemma uuid_found x A uuid i0 : represents x A -> str_ok uuid ->
  (exists i, A !! MojDbShardInfo.id i = Some i /\ MojDbShardInfo.deviceId i = uuid /\ getByDeviceUuid uuid i0 x = (x, Ok (i, true))) \/
  ((forall id i, A !! id = Some i -> MojDbShardInfo.deviceId i <> uuid) /\ getByDeviceUuid uuid i0 x = (x, Ok (i0, false))).
Proof.
  intros Hr Hu. destruct (found_records x A (_T "deviceId") (StringImpl uuid) (fun i => MojDbShardInfo.deviceId i = uuid) Hr) as (c & l & Eq & E & S & _ & Hl & Hall).
  { repeat constructor. }
  { intros i rec Hi Hd. rewrite (meets_field i rec _ (StringImpl (MojDbShardInfo.deviceId i)) _ Hd) by (by repeat constructor).
    cbn [MojObject.compare MojObject.type MojObject.type_code negb Z.eqb]. rewrite Z.eqb_eq. apply MojStrCmp_eq; [|done].
    destruct Hi as (_ & _ & _ & Hs). rewrite !Forall_cons in Hs. by destruct_and!. }
  unfold getByDeviceUuid. rewrite Eq. unfold on_db, bind, lift, ret. rewrite E. destruct x as [c0 d]. cbn [fst snd] in *.
  destruct l as [|rec l].
  - right. split; [|destruct (get_end d c S) as [c' Ec]; by rewrite Ec]. intros id i Ea Hi.
    destruct (Hall id i Ea Hi) as (rec & Hrec & _). by apply elem_of_nil in Hrec.
  - left. destruct (get_next d c rec l S) as (c' & Ec & _). apply Forall_cons in Hl as [(i & Ea & Hi & Hdev & Hd) _].
    exists i. split; [done|]. split; [done|]. rewrite Ec. cbn [fst snd]. unfold convertInto. by rewrite (MojDbShardInfo.fromObject_spec i rec i0 Hi Hd).
Qed.

(** The map that the table starts with. *)
Lemma initCache_represents d fuel : table_ok d -> readable_ids d -> (length (infos d) < fuel)%nat ->
  exists c A, initCache fuel (∅, d) = ((c, d), Ok tt) /\ represents (c, d) A.
Proof.
  intros Ht Hr Hf. destruct (initCache_spec d fuel Ht Hr Hf) as (c & E & Hm).
  exists c, (omap (fun o => match MojDbShardInfo.fromObject o (MojDbShardInfo.make 0 false false) with (i, Ok _) => Some i | _ => None end) c).
  split; [done|]. split; [done|]. intros id. rewrite lookup_omap. pose proof (proj2 Hm id) as Hid. cbn [fst] in *.
  destruct (c !! id) as [o|]; [|done]. destruct Hid as (i & rec & Hi & Ei & Do & _). cbn [option_bind mbind].
  by rewrite (MojDbShardInfo.fromObject_spec i o _ Hi Do).
Qed.

(** C12: starting with the records of the database, the table of shards behaves as a
    map from ids to descriptions: putting a new description, updating one, adding and
    removing a kind and forgetting a shard succeed and change the map and nothing
    else, at the time of the change; an update of an unknown shard is refused; a shard
    is found by its id and by its device exactly when the map has it. *)
Theorem shard_table_refines (d : D) (fuel : nat) : table_ok d -> readable_ids d -> (length (infos d) < fuel)%nat ->
  (exists x A, initCache fuel (∅, d) = (x, Ok tt) /\ x.2 = d /\ represents x A) /\
  forall x A, represents x A ->
    (forall op, op_ok A op -> exists x' r A', run_op op x = (x', r) /\ op_spec A op A' r /\ represents x' A') /\
    (forall id i0, get_info id i0 x = (x, Ok (match A !! id with Some i => (i, true) | None => (i0, false) end))) /\
    (forall uuid i0, str_ok uuid ->
      (exists i, A !! MojDbShardInfo.id i = Some i /\ MojDbShardInfo.deviceId i = uuid /\ getByDeviceUuid uuid i0 x = (x, Ok (i, true))) \/
      ((forall id i, A !! id = Some i -> MojDbShardInfo.deviceId i <> uuid) /\ getByDeviceUuid uuid i0 x = (x, Ok (i0, false)))).
Proof.
  intros Ht Hr Hf. split.
  - destruct (initCache_represents d fuel Ht Hr Hf) as (c & A & E & R). by exists (c, d), A.
  - intros x A Hx. split; [intros op Hop; exact (op_refines x A op Hx Hop)|]. split; [intros id i0; by apply represents_get|]. intros uuid i0. by apply uuid_found.
Qed.
End table.
