(* ===== verification/ShardRemove.v ===== *)
(** * Ids of shards, and what is deleted with a shard *)

From stdpp Require Import gmap.
From S2P Require Import Prelude Containers CoreUtil Number Object DataSerialization Text DbKey JsonRoundTrip DbQuery ObjectItem Effects Merge ShardInfo Db ShardEngine ShardSpec.
Import MojDbShardInfo (MojDbShardInfo) MojDbShardEngine.

(** ** A new id *)
Section ids.
Context `{BoostLaws}.

Lemma computeId_range uuid : 0 <= computeId uuid < 2 ^ 24.
Proof.
  unfold computeId. change 16777215 with (Z.ones 24). rewrite Z.land_ones by lia. apply Z.mod_pos_bound. lia.
Qed.

(** A prefix does not meet the bits of the checksum. *)
Lemma prefix_calc_id calc p : 0 <= calc < 2 ^ 24 -> Z.lor calc (p * 16777216) = p * 2 ^ 24 + calc.
Proof.
  intros Hc. change 16777216 with (2 ^ 24). enough (Z.land calc (p * 2 ^ 24) = 0) as E by (pose proof (Z.add_lor_land calc (p * 2 ^ 24)); lia).
  apply Z.bits_inj'. intros n Hn. rewrite Z.land_spec, Z.bits_0. destruct (Z.ltb_spec n 24).
  - rewrite Z.mul_pow2_bits_low by lia. apply andb_false_r.
  - rewrite <- (Z.mod_small calc (2 ^ 24)) by lia. by rewrite Z.mod_pow2_bits_high by lia.
Qed.

Lemma isExist_none m id : MojDbShardIdCache.isExist m id = false -> m !! id = None.
Proof. unfold MojDbShardIdCache.isExist. intros E%bool_decide_eq_false. by apply eq_None_not_Some. Qed.

Lemma allocate_free fuel m uuid : forall calc prefix suffix id, 0 <= calc < 2 ^ 24 -> 1 <= prefix <= 127 ->
  allocate_loop fuel m uuid calc prefix suffix = Ok id -> m !! id = None /\ 2 ^ 24 <= id < 2 ^ 31.
Proof.
  induction fuel as [|fuel IH]; intros calc prefix suffix id Hc Hp; [done|]. cbn [allocate_loop]. rewrite prefix_calc_id by done.
  destruct (MojDbShardIdCache.isExist m (prefix * 2 ^ 24 + calc)) eqn:E; cbn [negb].
  - destruct (Z.eqb_spec (prefix + 1) 128); apply IH; try lia; try done. apply computeId_range.
  - intros [= <-]. split; [by apply isExist_none|lia].
Qed.

Lemma allocate_first n : forall fuel m uuid calc prefix suffix, 0 <= calc < 2 ^ 24 -> 1 <= prefix -> prefix + Z.of_nat n <= 127 ->
  (forall q, prefix <= q < prefix + Z.of_nat n -> is_Some (m !! (q * 2 ^ 24 + calc))) -> m !! ((prefix + Z.of_nat n) * 2 ^ 24 + calc) = None ->
  (n < fuel)%nat -> allocate_loop fuel m uuid calc prefix suffix = Ok ((prefix + Z.of_nat n) * 2 ^ 24 + calc).
Proof.
  induction n as [|n IH]; intros [|fuel] m uuid calc prefix suffix Hc Hp Hn Hq Hf Hfuel; try lia; cbn [allocate_loop]; rewrite prefix_calc_id by done.
  - rewrite Z.add_0_r in *. unfold MojDbShardIdCache.isExist. rewrite bool_decide_eq_false_2; [done|]. by rewrite eq_None_not_Some in Hf.
  - unfold MojDbShardIdCache.isExist. rewrite bool_decide_eq_true_2 by (apply Hq; lia). cbn [negb].
    destruct (Z.eqb_spec (prefix + 1) 128); [lia|].
    rewrite (IH fuel m uuid calc (prefix + 1)); try done; try lia.
    + do 2 f_equal. lia.
    + intros q Hq'. apply Hq. lia.
    + by replace (prefix + 1 + Z.of_nat n) with (prefix + Z.of_nat (S n)) by lia.
Qed.

(** Of the ids with one checksum fewer than 127 shards leave one free. *)
Lemma free_prefix (m : MojDbShardIdCache.IdCache) calc : (size m < 127)%nat ->
  exists n, (n < 127)%nat /\ m !! ((1 + Z.of_nat n) * 2 ^ 24 + calc) = None /\
    forall k, (k < n)%nat -> is_Some (m !! ((1 + Z.of_nat k) * 2 ^ 24 + calc)).
Proof.
  intros Hs. set (f k := (1 + Z.of_nat k) * 2 ^ 24 + calc).
  destruct (decide (Exists (fun k => m !! f k = None) (seq 0 127))) as [Hex|Hall].
  - assert (exists n, (n < 127)%nat /\ m !! f n = None) as Hx.
    { apply Exists_exists in Hex as (n & Hn%elem_of_seq & E). exists n. split; [lia|done]. }
    destruct Hx as (n & Hn & E). revert n Hn E. induction n as [n IH] using lt_wf_ind. intros Hn E.
    destruct (decide (Exists (fun k => m !! f k = None) (seq 0 n))) as [Hless|Hnone].
    + apply Exists_exists in Hless as (k & Hk%elem_of_seq & Ek). apply (IH k); lia || done.
    + exists n. split_and!; [done..|]. intros k Hk. apply not_eq_None_Some. intros Ek. apply Hnone, Exists_exists. exists k. split; [apply elem_of_seq; lia|done].
  - exfalso. assert (NoDup (f <$> seq 0 127)) as Hnd.
    { apply NoDup_fmap_2; [intros a b; unfold f; lia|apply NoDup_seq]. }
    pose proof (size_list_to_set (C := gset Z) _ Hnd) as Es. rewrite length_fmap, length_seq in Es.
    assert (list_to_set (C := gset Z) (f <$> seq 0 127) ⊆ dom m) as Hsub.
    { intros z [k [-> Hk]]%elem_of_list_to_set%list_elem_of_fmap. apply elem_of_dom, not_eq_None_Some.
      intros E. apply Hall, Exists_exists. by exists k. }
    apply subseteq_size in Hsub. rewrite size_dom in Hsub. lia.
Qed.

(** C34: an id that is given to a device is in use by no other, and lies between 2^24
    and 2^31, so that its text can be read back as a signed number.  While fewer than
    127 shards are known it is the checksum of the device's name with the first prefix
    that is free, found in at most 127 steps. *)
Theorem allocate_fresh {D : Type} (x : MojDbShardIdCache.IdCache * D) (deviceUuid : mstring) (fuel : nat) :
  (forall x' id, allocateId fuel deviceUuid x = (x', Ok id) -> x' = x /\ x.1 !! id = None /\ 2 ^ 24 <= id < 2 ^ 31) /\
  ((size x.1 < 127)%nat -> (127 <= fuel)%nat -> exists prefix, 1 <= prefix <= 127 /\
    allocateId fuel deviceUuid x = (x, Ok (prefix * 2 ^ 24 + computeId deviceUuid)) /\
    forall q, 1 <= q < prefix -> is_Some (x.1 !! (q * 2 ^ 24 + computeId deviceUuid))).
Proof.
  pose proof (computeId_range deviceUuid) as Hr. unfold allocateId, bind, get, lift. split.
  - intros x' id [= <- E]. split; [done|]. by apply (allocate_free fuel x.1 deviceUuid (computeId deviceUuid) 1 1).
  - intros Hs Hf. destruct (free_prefix x.1 (computeId deviceUuid) Hs) as (n & Hn & E & Hless). exists (1 + Z.of_nat n). split; [lia|]. split.
    + rewrite (allocate_first n fuel x.1 deviceUuid _ 1 1); try done; try lia.
      intros q Hq. replace q with (1 + Z.of_nat (Z.to_nat (q - 1))) by lia. apply Hless. lia.
    + intros q Hq. replace q with (1 + Z.of_nat (Z.to_nat (q - 1))) by lia. apply Hless. lia.
Qed.
End ids.

(** ** The objects of a shard *)
Section removal.
Context {D : Type} `{ShardDbLaws D} `{BoostLaws}.

(** The shard that an object's id names. *)
Definition in_shard (id : Z) (o : MojObject) : bool :=
  match oid o with Some v => match MojDbIdGenerator.extractShard v with Ok s => s =? id | Err _ => false end | None => false end.

Definition readable_shards (d : D) : Prop := valid d /\ Forall (fun o => forall v, oid o = Some v -> exists s, MojDbIdGenerator.extractShard v = Ok s) (view d).

(** An object is known by its id. *)
Lemma has_id_eq d o v : valid d -> o ∈ view d -> MojObject.ok v -> has_id v o = true <-> oid o = Some v.
Proof.
  intros Hd Ho Hv. unfold has_id. pose proof (view_ok d Hd) as F. rewrite Forall_forall in F.
  destruct (oid o) as [w|] eqn:E; [|done]. rewrite Z.eqb_eq. split; [|intros [= ->]; by apply (comp_refl MojObject.compare)].
  intros C. f_equal. apply MojObject.compare_eq; [|done|done]. exact (MojObject.get_ok o IdKey w (F o Ho) E).
Qed.

(** The objects a cursor has shown, by their ids. *)
Definition hit (l : list MojObject) (o : MojObject) : bool := existsb (fun o' => match oid o' with Some v => has_id v o | None => false end) l.

Lemma filter_hits d o v (l : list MojObject) : valid d -> oid o = Some v -> MojObject.ok v -> Forall (fun o' => o' ∈ view d) (o :: l) -> NoDup (map oid (o :: l)) ->
  List.filter (fun o' => negb (has_id v o')) l = l.
Proof.
  intros Hd Eo Hv F N. cbn [map] in N. apply NoDup_cons in N as [Hn _]. apply Forall_cons in F as [_ F].
  induction l as [|o' l IH]; [done|]. apply Forall_cons in F as [Ho' F]. cbn [map] in Hn. apply not_elem_of_cons in Hn as [Hne Hn].
  cbn [List.filter]. destruct (has_id v o') eqn:E; cbn [negb]; [|by rewrite IH].
  apply (has_id_eq d) in E; [|done..]. congruence.
Qed.

Lemma remove_loop_spec id c l : forall fuel cursor d, shows d cursor l -> (length l < fuel)%nat -> readable_shards d ->
  Forall (fun o => o ∈ view d) l -> NoDup (map oid l) ->
  exists d', remove_loop fuel id cursor (c, d) = ((c, d'), Ok tt) /\ valid d' /\
    view d' ≡ₚ List.filter (fun o => negb (in_shard id o && hit l o)) (view d).
Proof.
  induction l as [|o l IH]; intros [|fuel] cursor d Hs Hf Hr Hl Hn; cbn [length] in Hf; try lia; cbn [remove_loop].
  - destruct (get_end d cursor Hs) as [cur' E]. exists d. split; [unfold on_db, bind; cbn [fst snd]; by rewrite E|]. split; [exact (proj1 Hr)|].
    rewrite (filter_ext_b _ (fun _ => true)) by (intros o _; cbn; by rewrite andb_false_r). by rewrite filter_true_all.
  - destruct (get_next d cursor o l Hs) as (cur' & E & Hs'). pose proof Hl as [Ho Hl']%Forall_cons.
    pose proof Hr as [Hd Fr]. pose proof (view_ids d Hd) as [Fi _]. pose proof (view_ok d Hd) as Fo. rewrite Forall_forall in Fi, Fo, Fr.
    destruct (Fi o Ho) as [v Ev]. pose proof (MojObject.get_ok o IdKey v (Fo o Ho) Ev) as Hv. destruct (Fr o Ho v Ev) as [s Es].
    unfold on_db, bind, lift. cbn [fst snd]. rewrite E. cbn [fst snd]. change (MojObject.get o (_T "_id")) with (oid o). rewrite Ev.
    cbn [MojObject.getRequiredT]. rewrite Es. cbn [fst snd].
    assert (forall o', o' ∈ view d -> has_id v o' = true -> in_shard id o' = (s =? id)) as Hsame.
    { intros o' Ho' Hid. apply (has_id_eq d) in Hid; [|done..]. unfold in_shard. by rewrite Hid, Es. }
    destruct (Z.eqb_spec s id) as [->|Hne]; cbn [negb].
    + destruct (del_one d o v Hd Ho Ev) as (d1 & Ed & Hd1 & P1 & Hs1). cbn [fst snd]. rewrite Ed. cbn [fst snd].
      specialize (Hs1 cur' l Hs'). rewrite (filter_hits d o v l Hd Ev Hv Hl Hn) in Hs1.
      assert (forall o', o' ∈ view d1 <-> o' ∈ view d /\ has_id v o' = false) as Hin.
      { intros o'. rewrite P1, elem_of_filter_b. destruct (has_id v o'); cbn; naive_solver. }
      destruct (IH fuel cur' d1 Hs1 ltac:(lia)) as (d' & E' & Hd' & P').
      * split; [done|]. apply Forall_forall. intros o' [Ho' _]%Hin. by apply Fr.
      * rewrite <- (filter_hits d o v l Hd Ev Hv Hl Hn). apply Forall_forall. intros o' [Ho' Hid]%elem_of_filter_b. apply Hin.
        rewrite Forall_forall in Hl'. split; [by apply Hl'|]. by destruct (has_id v o').
      * cbn [map] in Hn. by apply NoDup_cons in Hn as [_ Hn].
      * exists d'. split; [exact E'|]. split; [done|]. rewrite P', (filter_perm _ _ _ P1), filter_filter_b.
        rewrite (filter_ext_b _ (fun o' => negb (in_shard id o' && hit (o :: l) o'))); [done|]. intros o' Ho'. unfold hit. cbn [existsb]. rewrite Ev.
        destruct (has_id v o') eqn:Eid; cbn [negb andb orb]; [by rewrite (Hsame o' Ho' Eid)|done].
    + destruct (IH fuel cur' d Hs' ltac:(lia) Hr Hl') as (d' & E' & Hd' & P'); [cbn [map] in Hn; by apply NoDup_cons in Hn as [_ Hn]|].
      exists d'. split; [exact E'|]. split; [done|]. rewrite P'. rewrite (filter_ext_b _ (fun o' => negb (in_shard id o' && hit (o :: l) o'))); [done|].
      intros o' Ho'. unfold hit. cbn [existsb]. rewrite Ev. destruct (has_id v o') eqn:Eid; [by rewrite (Hsame o' Ho' Eid)|done].
Qed.

Lemma NoDup_map_inj {A B} (f : A -> B) (l : list A) x y : NoDup (map f l) -> x ∈ l -> y ∈ l -> f x = f y -> x = y.
Proof.
  induction l as [|z l IH]; cbn [map]; [by intros _ ?%elem_of_nil|]. intros [Hn Nd]%NoDup_cons [->|Hx]%elem_of_cons [->|Hy]%elem_of_cons E;
    [done| | |by apply IH]; exfalso; apply Hn; [rewrite E|rewrite <- E]; by apply list_elem_of_fmap_2.
Qed.

Lemma filter_length_le (P : MojObject -> bool) (l : list MojObject) : (length (List.filter P l) <= length l)%nat.
Proof. induction l as [|o l IH]; cbn [List.filter length]; [done|]. destruct (P o); cbn [length]; lia. Qed.

Lemma hit_all d l (P : MojObject -> bool) o : valid d -> l ≡ₚ List.filter P (view d) -> o ∈ view d -> hit l o = P o.
Proof.
  intros Hd Hl Ho. pose proof (view_ids d Hd) as [Fi Nd]. pose proof (view_ok d Hd) as Fo. rewrite Forall_forall in Fi, Fo.
  assert (forall o', o' ∈ l <-> o' ∈ view d /\ P o' = true) as Hin by (intros o'; rewrite Hl; apply elem_of_filter_b).
  destruct (Fi o Ho) as [v Ev]. pose proof (MojObject.get_ok o IdKey v (Fo o Ho) Ev) as Hv.
  apply eq_true_iff_eq. unfold hit. rewrite existsb_exists. split.
  - intros (o' & Ho'%list_elem_of_In & Hid). apply Hin in Ho' as [Ho' HP]. destruct (Fi o' Ho') as [w Ew]. rewrite Ew in Hid.
    apply (has_id_eq d) in Hid; [|done|done|exact (MojObject.get_ok o' IdKey w (Fo o' Ho') Ew)].
    replace o with o'; [done|]. apply (NoDup_map_inj oid (view d)); [done..|congruence].
  - intros HP. exists o. split; [apply list_elem_of_In; by apply Hin|]. rewrite Ev. by apply (has_id_eq d).
Qed.

Lemma readable_filter d d' (P : MojObject -> bool) : valid d' -> readable_shards d -> view d' ≡ₚ List.filter P (view d) -> readable_shards d'.
Proof.
  unfold readable_shards. intros Hv [_ Hr] Pv. split; [done|]. rewrite Forall_forall in *. intros o Ho. rewrite Pv, elem_of_filter_b in Ho. apply Hr. by destruct Ho.
Qed.

Lemma removeKind_spec fuel id kindId props c d : registered kindId props -> readable_shards d -> (length (view d) < fuel)%nat ->
  exists d', removeShardKindObjects fuel id kindId (c, d) = ((c, d'), Ok tt) /\ valid d' /\
    view d' ≡ₚ List.filter (fun o => negb (in_shard id o && of_kind kindId o)) (view d).
Proof.
  intros Hk Hr Hf.
  assert (asks d (with_inactive (MojDbQuery.from MojDbQuery.make kindId)) kindId []) as Ha by (split; [exact (proj1 Hr)|]; exists true, props; by split_and!).
  destruct (find_shows d _ _ _ Ha) as (cur & l & E & Hs & P).
  assert (l ≡ₚ List.filter (of_kind kindId) (view d)) as P'.
  { rewrite P. rewrite (filter_ext_b _ (of_kind kindId)); [done|]. intros o _. unfold selects. cbn [forallb]. by rewrite andb_true_r. }
  destruct (remove_loop_spec id c l fuel cur d Hs) as (d' & E' & Hd' & Pv); try done.
  - rewrite P'. eapply Nat.le_lt_trans; [apply filter_length_le|done].
  - apply Forall_forall. intros o Ho. rewrite P', elem_of_filter_b in Ho. by destruct Ho.
  - rewrite P'. pose proof (view_ids d (proj1 Hr)) as [_ Nd]. clear -Nd. induction (view d) as [|o v IH]; cbn [map List.filter] in *; [constructor|].
    apply NoDup_cons in Nd as [Hn Nd]. destruct (of_kind kindId o); [|by apply IH]. cbn [map]. apply NoDup_cons. split; [|by apply IH].
    intros Hx. apply Hn. apply list_elem_of_fmap in Hx as (o' & E & [Ho' _]%elem_of_filter_b). rewrite E. apply list_elem_of_fmap. by exists o'.
  - exists d'. split.
    + unfold removeShardKindObjects, on_db, bind. cbn [fst snd]. rewrite E. exact E'.
    + split; [done|]. rewrite Pv. rewrite (filter_ext_b _ (fun o => negb (in_shard id o && of_kind kindId o))); [done|]. intros o Ho. by rewrite (hit_all d l (of_kind kindId) o (proj1 Hr)).
Qed.

(** The kinds that are given up with a shard: those that are not built in. *)
Definition given_up (kindIds : list mstring) (o : MojObject) : bool := existsb (fun k => negb (builtin k) && of_kind k o) kindIds.

Lemma remove_kinds_spec fuel id c kindIds : forall d, Forall (fun k => exists props, registered k props) kindIds -> readable_shards d ->
  (length (view d) < fuel)%nat ->
  exists d', remove_kinds fuel id kindIds (c, d) = ((c, d'), Ok tt) /\ valid d' /\
    view d' ≡ₚ List.filter (fun o => negb (in_shard id o && given_up kindIds o)) (view d).
Proof.
  induction kindIds as [|k kindIds IH]; intros d Hk Hr Hf; cbn [remove_kinds].
  - exists d. split; [done|]. split; [exact (proj1 Hr)|]. rewrite (filter_ext_b _ (fun _ => true)) by (intros o _; cbn; by rewrite andb_false_r). by rewrite filter_true_all.
  - apply Forall_cons in Hk as [[props Hk1] Hk]. destruct (kind_known d k props Hk1) as [h Eh]. unfold on_db, bind. cbn [fst snd]. rewrite Eh. cbn [fst snd].
    destruct (builtin k) eqn:Eb.
    + destruct (IH d Hk Hr Hf) as (d' & E & Hd' & P). exists d'. split; [exact E|]. split; [done|]. rewrite P. unfold given_up. cbn [existsb]. by rewrite Eb.
    + destruct (removeKind_spec fuel id k props c d Hk1 Hr Hf) as (d1 & E1 & Hd1 & P1). rewrite E1.
      destruct (IH d1 Hk (readable_filter _ _ _ Hd1 Hr P1)) as (d' & E & Hd' & P).
      { rewrite (Permutation_length P1). eapply Nat.le_lt_trans; [apply filter_length_le|done]. }
      exists d'. split; [exact E|]. split; [done|]. rewrite P, (filter_perm _ _ _ P1), filter_filter_b.
      rewrite (filter_ext_b _ (fun o => negb (in_shard id o && given_up (k :: kindIds) o))); [done|]. intros o _. unfold given_up. cbn [existsb]. rewrite Eb.
      cbn [negb andb]. by destruct (in_shard id o), (of_kind k o).
Qed.

(** Whether an object goes with a list of shards. *)
Definition doomed (A : Table) (ids : list Z) (o : MojObject) : bool :=
  existsb (fun id => match A !! id with Some i => in_shard id o && given_up (MojDbShardInfo.kindIds i) o | None => false end) ids.

(** The cache alone has what the map has. *)
Definition cached (c : MojDbShardIdCache.IdCache) (A : Table) : Prop :=
  forall id i0 (d : D), get_info id i0 (c, d) = ((c, d), Ok (match A !! id with Some i => (i, true) | None => (i0, false) end)).

Lemma remove_shards_spec fuel c A ids : cached c A ->
  (forall id i, A !! id = Some i -> Forall (fun k => exists props, registered k props) (MojDbShardInfo.kindIds i)) ->
  forall i0 d, readable_shards d -> (length (view d) < fuel)%nat ->
  exists d', removeShardObjects_loop fuel ids i0 (c, d) = ((c, d'), Ok tt) /\
    view d' ≡ₚ List.filter (fun o => negb (doomed A ids o)) (view d).
Proof.
  intros Hc Hk. induction ids as [|id ids IH]; intros i0 d Hr Hf; cbn [removeShardObjects_loop].
  - exists d. split; [done|]. by rewrite filter_true_all.
  - unfold bind. rewrite Hc. unfold doomed. cbn [existsb]. fold (doomed A ids). destruct (A !! id) as [i|] eqn:Ea; [|by apply IH].
    destruct (remove_kinds_spec fuel id c _ d (Hk id i Ea) Hr Hf) as (d1 & E1 & Hd1 & P1). rewrite E1.
    destruct (IH i d1 (readable_filter _ _ _ Hd1 Hr P1)) as (d' & E & P).
    { rewrite (Permutation_length P1). eapply Nat.le_lt_trans; [apply filter_length_le|done]. }
    exists d'. split; [exact E|]. rewrite P, (filter_perm _ _ _ P1), filter_filter_b.
    rewrite (filter_ext_b _ (fun o => negb (in_shard id o && given_up (MojDbShardInfo.kindIds i) o || doomed A ids o))); [done|].
    intros o _. by rewrite negb_orb.
Qed.
End removal.

(** C28: giving up shards deletes from the database exactly the objects whose id names
    one of the shards and whose kind, or an ancestor of it, is listed for that shard
    and is not built in; it keeps all others, and the shards that are not known delete
    nothing. *)
Theorem remove_shards_exact {D : Type} `{ShardDbLaws D} `{BoostLaws} (x : MojDbShardIdCache.IdCache * D) (A : Table) (ids : list Z) (fuel : nat) :
  represents x A -> (forall id i, A !! id = Some i -> Forall (fun k => exists props, registered k props) (MojDbShardInfo.kindIds i)) ->
  readable_shards x.2 -> (length (view x.2) < fuel)%nat ->
  exists d', removeShardObjects fuel ids x = ((x.1, d'), Ok tt) /\
    forall o, o ∈ view d' <-> o ∈ view x.2 /\ doomed A ids o = false.
Proof.
  intros [_ Hx] Hk Hr Hf. destruct x as [c d]. cbn [fst snd] in *.
  destruct (remove_shards_spec fuel c A ids) with (i0 := MojDbShardInfo.make 0 false false) (d := d) as (d' & E & P); try done.
  { intros id i0 d0. specialize (Hx id). unfold get_info, bind, get, MojDbShardIdCache.get. cbn [fst].
    destruct (A !! id) as [i|], (c !! id) as [o|]; try done. destruct Hx as (Hi & _ & Hd).
    unfold convertFrom, convertInto. by rewrite (MojDbShardInfo.fromObject_spec i o i0 Hi Hd). }
  exists d'. split; [exact E|]. intros o. rewrite P, elem_of_filter_b. destruct (doomed A ids o); cbn; naive_solver.
Qed.
