(* ===== verification/MediaHandler.v ===== *)
(** * Devices that come and go: src/src/db/MojDbMediaHandler.cpp, src/inc/db/MojDbMediaHandler.h

    The handler asks the manager of attached storage for its devices and is told when
    one is ejected or formatted.  It keeps the devices it knows, by id, and tells the
    shard engine of each that comes and each that goes.  [notifications_alternate]: for
    each device the engine is told in turn that it is there and that it is not, and the
    devices kept are those it was last told to be there.

    The state is the table of devices and what the shard engine works on; the engine's
    [processShardInfo], the sending of a request and the texts of errors are arguments.
    [std::map] and [std::set] are in the order of [strcmp], as [MojMap] and [MojSet] are,
    and are modelled by the same sequences.  The lock is not modelled: a message is
    handled in one step. *)

From S2P Require Import Prelude Containers CoreUtil Object JsonRoundTrip Effects ShardInfo.
Import MojDbShardInfo (MojDbShardInfo).

Module MojDbMediaHandler.
Definition ASMServiceName := _T "com.webos.service.attachedstoragemanager".
Definition ASMListDeviceMethod := _T "listDevices".
Definition ASMRegisterDeviceStatusMethod := _T "registerDeviceStatus".
Definition ASMResponseDeviceStatusMethod := _T "responseDeviceStatus".
Definition ASMUnRegisterDeviceStatusMethod := _T "unregisterDeviceStatus".
Definition ASMDeviceStatusEjecting := _T "EJECTING".
Definition ASMDeviceStatusFormatting := _T "FORMATTING".

Definition shard_cache_t := list (mstring * MojDbShardInfo).

Definition existInCache (m_shardCache : shard_cache_t) (id : mstring) : bool := MojMap.contains MojStrCmp m_shardCache id.
Definition copyShardCache (m_shardCache : shard_cache_t) : list mstring := map fst m_shardCache.

Definition configure (conf : MojObject) : res mstring :=
  let? dbConf := MojObject.getRequiredT (MojObject.get conf (_T "db")) in
  MojObjectString.getRequired_string dbConf (_T "service_name").

(** A device without its parent; [active] is set by the caller. *)
Definition convert (object : MojObject) : res MojDbShardInfo :=
  let? deviceId := MojObjectString.getRequired_string object (_T "deviceId") in
  let? deviceName := MojObjectString.getRequired_string object (_T "deviceName") in
  let? deviceUri := MojObjectString.getRequired_string object (_T "deviceUri") in
  let shardInfo := MojDbShardInfo.with_deviceId (MojDbShardInfo.make 0 false false) deviceId in
  Ok (MojDbShardInfo.with_deviceUri (MojDbShardInfo.with_deviceName shardInfo deviceName) deviceUri).

(** From [arrayBegin] to [arrayEnd], both null for what is no array. *)
Definition items (o : MojObject) : list MojObject := match o with ArrayImpl m_vec => m_vec | _ => [] end.

Definition same (a b : mstring) : bool := MojStrCmp a b =? 0.

Section handler.
Context {D : Type} (engine : MojDbShardInfo -> st D unit) (request : mstring -> MojObject -> st D unit)
        (errorText : option MojErr -> mstring) (m_serviceName : mstring).

Abbreviation X := (shard_cache_t * D)%type.
Abbreviation M := (st X).

Definition on_db {A} (m : st D A) : M A := fun x => let '(d, r) := m x.2 in ((x.1, d), r).
Definition on_cache (f : shard_cache_t -> shard_cache_t) : M unit := modify (fun x => (f x.1, x.2)).

(** The error of the engine; the last one is kept. *)
Definition processShardInfo (shardInfo : MojDbShardInfo) : M (option MojErr) :=
  let! r := attempt (on_db (engine shardInfo)) in ret (match r with Ok _ => None | Err e => Some e end).
Definition accumulate (accErr err : option MojErr) : option MojErr := match err with Some _ => err | None => accErr end.

(** *** What is sent *)
Definition sendUnRegister : st D unit :=
  request ASMUnRegisterDeviceStatusMethod (MojObject.putString UndefinedImpl (_T "name") m_serviceName).

Definition subscribe : st D unit :=
  let! _ := attempt sendUnRegister in
  let! _ := request ASMListDeviceMethod (MojObject.putBool UndefinedImpl (_T "subscribe") true) in
  let payload := MojObject.putString UndefinedImpl (_T "name") m_serviceName in
  let payload := MojObject.put payload (_T "deviceType") (MojObject.pushString UndefinedImpl (_T "usb")) in
  request ASMRegisterDeviceStatusMethod (MojObject.putBool payload (_T "subscribe") true).

(** The text is that of [err], which is none at that place. *)
Definition sendRelease (deviceId : mstring) (errCode : option MojErr) : st D unit :=
  let payload := MojObject.putString UndefinedImpl (_T "deviceId") deviceId in
  let payload := MojObject.putString payload (_T "name") m_serviceName in
  let errStr := match errCode with Some _ => errorText None | None => [] end in
  let payload := MojObject.putString payload (_T "reason") errStr in
  let payload := MojObject.putBool payload (_T "isUsing") (match errCode with Some _ => true | None => false end) in
  request ASMResponseDeviceStatusMethod payload.

(** *** The list of devices *)
(** The loop over the parts of a device: the ids not met yet, and the error so far. *)
Fixpoint subDevices_loop (parentDeviceId : mstring) (subDevices : list MojObject) (shardIds : list mstring) (accErr : option MojErr) : M (list mstring * option MojErr) :=
  match subDevices with
  | [] => ret (shardIds, accErr)
  | it :: subDevices' =>
      let! shardInfo := lift (convert it) in
      match MojDbShardInfo.deviceId shardInfo with
      | [] => subDevices_loop parentDeviceId subDevices' shardIds accErr
      | _ =>
          let shardInfo := MojDbShardInfo.with_active (MojDbShardInfo.with_parentDeviceId shardInfo parentDeviceId) true in
          let shardIds := (MojSet.del MojStrCmp shardIds (MojDbShardInfo.deviceId shardInfo)).1 in
          let! x := get in
          if negb (existInCache x.1 (MojDbShardInfo.deviceId shardInfo)) then
            let! _ := on_cache (fun c => MojMap.put MojStrCmp c (MojDbShardInfo.deviceId shardInfo) shardInfo) in
            let! err := processShardInfo shardInfo in
            subDevices_loop parentDeviceId subDevices' shardIds (accumulate accErr err)
          else subDevices_loop parentDeviceId subDevices' shardIds accErr
      end
  end.

Fixpoint devices_loop (deviceList : list MojObject) (shardIds : list mstring) (accErr : option MojErr) : M (list mstring * option MojErr) :=
  match deviceList with
  | [] => ret (shardIds, accErr)
  | i :: deviceList' =>
      let! deviceType := lift (MojObjectString.getRequired_string i (_T "deviceType")) in
      if negb (same deviceType (_T "usb")) then devices_loop deviceList' shardIds accErr
      else
        let! parentDeviceId := lift (MojObjectString.getRequired_string i (_T "deviceId")) in
        let! subDevices := lift (MojObject.getRequiredT (MojObject.get i (_T "subDevices"))) in
        let! r := subDevices_loop parentDeviceId (items subDevices) shardIds accErr in
        devices_loop deviceList' r.1 r.2
  end.

(** Those not met are gone. *)
Fixpoint gone_loop (shardIds : list mstring) (accErr : option MojErr) : M (option MojErr) :=
  match shardIds with
  | [] => ret accErr
  | i :: shardIds' =>
      let! x := get in
      match MojMap.get MojStrCmp x.1 i with
      | Some shardInfo =>
          let shardInfo := MojDbShardInfo.with_active shardInfo false in
          let! _ := on_cache (fun c => MojMap.put MojStrCmp c i shardInfo) in
          let! err := processShardInfo shardInfo in
          let! _ := on_cache (fun c => (MojMap.del MojStrCmp c i).1) in
          gone_loop shardIds' (accumulate accErr err)
      | None => gone_loop shardIds' accErr
      end
  end.

Definition raise (err : option MojErr) : M unit := match err with Some e => throw e | None => ret tt end.

Definition handleDeviceListResponse (payload : MojObject) (errCode : option MojErr) : M unit :=
  match errCode with
  | Some e => let! _ := lift (MojObjectString.stringValue payload) in throw e
  | None =>
      let! deviceList := lift (MojObject.getRequiredT (MojObject.get payload (_T "devices"))) in
      let! x := get in
      let! r := devices_loop (items deviceList) (copyShardCache x.1) None in
      let! accErr := gone_loop r.1 r.2 in
      raise accErr
  end.

Definition cbDeviceListResponse (payload : MojObject) (errCode : option MojErr) : M unit :=
  let! _ := attempt (handleDeviceListResponse payload errCode) in ret tt.

(** *** A device is ejected or formatted *)
(** The parts of the device are told to be gone; the ids to be forgotten and the error
    of the last part. *)
Fixpoint eject_loop (deviceId : mstring) (m_shardCache : shard_cache_t) (err : option MojErr) (erase : list mstring) : M (option MojErr * list mstring) :=
  match m_shardCache with
  | [] => ret (err, erase)
  | (uuid, shardInfo) :: m_shardCache' =>
      if same (MojDbShardInfo.parentDeviceId shardInfo) deviceId then
        let shardInfo := MojDbShardInfo.with_active shardInfo false in
        let! _ := on_cache (fun c => MojMap.put MojStrCmp c uuid shardInfo) in
        let! err := processShardInfo shardInfo in
        eject_loop deviceId m_shardCache' err (erase ++ [uuid])
      else eject_loop deviceId m_shardCache' err erase
  end.

Fixpoint erase_loop (erase : list mstring) (c : shard_cache_t) : shard_cache_t :=
  match erase with [] => c | uuid :: erase' => erase_loop erase' (MojMap.del MojStrCmp c uuid).1 end.

Definition handleRegister (payload : MojObject) (errCode : option MojErr) : M unit :=
  let! found := lift (MojObjectString.get_string payload (_T "deviceId")) in
  match found with
  | None => ret tt
  | Some deviceId =>
      let! deviceStatus := lift (MojObjectString.getRequired_string payload (_T "status")) in
      let isEjecting := same deviceStatus ASMDeviceStatusEjecting in
      let isFormatting := same deviceStatus ASMDeviceStatusFormatting in
      if negb isEjecting && negb isFormatting then ret tt
      else
        let! x := get in
        let! r := eject_loop deviceId x.1 None [] in
        let! _ := on_cache (erase_loop r.2) in
        on_db (sendRelease deviceId r.1)
  end.
End handler.

(** ** What the engine is told *)
(** The engine and the sending of requests with a record of what the engine was told. *)
Section told.
Context {D : Type} (engine : MojDbShardInfo -> st D unit) (request : mstring -> MojObject -> st D unit)
        (errorText : option MojErr -> mstring) (m_serviceName : mstring).

Abbreviation Log := (list MojDbShardInfo).
Definition recorded (i : MojDbShardInfo) : st (Log * D) unit := fun x => let '(d, r) := engine i x.2 in ((x.1 ++ [i], d), r).
Definition unrecorded (m : mstring) (payload : MojObject) : st (Log * D) unit := fun x => let '(d, r) := request m payload x.2 in ((x.1, d), r).

Inductive Message := DeviceList (payload : MojObject) (errCode : option MojErr) | DeviceStatus (payload : MojObject) (errCode : option MojErr).

Definition handle (m : Message) : st (shard_cache_t * (Log * D)) unit :=
  match m with
  | DeviceList payload errCode => handleDeviceListResponse recorded payload errCode
  | DeviceStatus payload errCode => handleRegister recorded unrecorded errorText m_serviceName payload errCode
  end.

(** Errors are reported and the next message is handled. *)
Fixpoint run (ms : list Message) (x : shard_cache_t * (Log * D)) : shard_cache_t * (Log * D) :=
  match ms with [] => x | m :: ms' => run ms' (handle m x).1 end.

(** What was told of a device: that it is there, or not. *)
Definition told (log : Log) (id : mstring) : list bool :=
  map MojDbShardInfo.active (List.filter (fun i => same (MojDbShardInfo.deviceId i) id) log).

Fixpoint alternates (next : bool) (l : list bool) : Prop :=
  match l with [] => True | b :: l' => b = next /\ alternates (negb next) l' end.

(** The ids of the parts of devices in a list. *)
Fixpoint listed_subs (subDevices : list MojObject) : res (list mstring) :=
  match subDevices with
  | [] => Ok []
  | it :: subDevices' =>
      let? i := convert it in
      let? ids := listed_subs subDevices' in
      Ok (match MojDbShardInfo.deviceId i with [] => ids | id => id :: ids end)
  end.

Fixpoint listed (deviceList : list MojObject) : res (list mstring) :=
  match deviceList with
  | [] => Ok []
  | i :: deviceList' =>
      let? deviceType := MojObjectString.getRequired_string i (_T "deviceType") in
      let? ids :=
        if negb (same deviceType (_T "usb")) then Ok []
        else
          let? _ := MojObjectString.getRequired_string i (_T "deviceId") in
          let? subDevices := MojObject.getRequiredT (MojObject.get i (_T "subDevices")) in
          listed_subs (items subDevices) in
      let? ids' := listed deviceList' in
      Ok (ids ++ ids')
  end.

End told.

(** *** Strings that are the same *)
Lemma same_cong a b c : same a b = true -> same a c = same b c.
Proof. unfold same. intros E%Z.eqb_eq. pose proof (comp_eq_l MojStrCmp a b c E). lia. Qed.

Lemma same_sym a b : same a b = same b a.
Proof. unfold same. pose proof (comp_anti MojStrCmp a b). lia. Qed.

Lemma same_string_refl a : same a a = true.
Proof. unfold same. by rewrite comp_refl by apply _. Qed.

Lemma told_same log a b : same a b = true -> told log a = told log b.
Proof.
  intros E. unfold told. f_equal. apply List.filter_ext. intros i. rewrite !(same_sym (MojDbShardInfo.deviceId i)).
  by apply same_cong.
Qed.

Lemma exist_get c id : existInCache c id = match MojMap.get MojStrCmp c id with Some _ => true | None => false end.
Proof. unfold existInCache, MojMap.contains, MojMap.get. by destruct (MojRbTreeBase.find _ _ _ _). Qed.

Abbreviation ordered := (MojRbTreeBase.sorted fst MojStrCmp).

Lemma exist_put (c : shard_cache_t) k i id : ordered c -> existInCache (MojMap.put MojStrCmp c k i) id = same k id || existInCache c id.
Proof. intros Hs. rewrite !exist_get, MojMap.map_get_put by (done || apply _). unfold same. by destruct (MojStrCmp k id =? 0). Qed.

Lemma exist_del (c : shard_cache_t) k id : ordered c -> existInCache (MojMap.del MojStrCmp c k).1 id = negb (same id k) && existInCache c id.
Proof. intros Hs. rewrite !exist_get, MojMap.map_get_del by (done || apply _). unfold same. by destruct (MojStrCmp id k =? 0). Qed.

Lemma exist_same c a b : same a b = true -> existInCache c a = existInCache c b.
Proof.
  intros E. unfold existInCache, MojMap.contains, MojRbTreeBase.find. induction c as [|n c IH]; [done|]. cbn [List.find].
  change (MojStrCmp n.1 a =? 0) with (same n.1 a). change (MojStrCmp n.1 b =? 0) with (same n.1 b).
  rewrite (same_sym n.1 a), (same_cong a b n.1 E), (same_sym b). by destruct (same n.1 b).
Qed.

Lemma existsb_same l a b : same a b = true -> existsb (same a) l = existsb (same b) l.
Proof. intros E. induction l as [|c l IH]; [done|]. cbn. by rewrite IH, (same_cong a b c E). Qed.

(** *** What is known and what was told *)
Lemma last_default {A} (l : list A) a d d' : List.last (a :: l) d = List.last (a :: l) d'.
Proof. revert a. induction l as [|b l IH]; intros a; [done|]. apply (IH b). Qed.

Lemma alternates_snoc b l next : alternates next l -> b = negb (List.last l (negb next)) -> alternates next (l ++ [b]).
Proof.
  revert next. induction l as [|a l IH]; intros next; cbn; [by destruct next; intros _ ->|].
  intros [-> Hl] Hb. split; [done|]. apply IH; [done|]. rewrite Hb, negb_involutive. destruct l as [|a l]; [by destruct next|]. f_equal. apply last_default.
Qed.

Definition knows (known : mstring -> bool) (log : list MojDbShardInfo) : Prop :=
  forall id, alternates true (told log id) /\ List.last (told log id) false = known id.

Lemma knows_ext known known' log : (forall id, known id = known' id) -> knows known log -> knows known' log.
Proof. intros E H id. rewrite <- E. apply H. Qed.

(** A device is told of when it is not as it was told. *)
Lemma knows_tell known log i : knows known log -> known (MojDbShardInfo.deviceId i) = negb (MojDbShardInfo.active i) ->
  knows (fun id => if same (MojDbShardInfo.deviceId i) id then MojDbShardInfo.active i else known id) (log ++ [i]).
Proof.
  intros H Hi id. destruct (H id) as [Ha Hl]. unfold told in *. rewrite List.filter_app, map_app. cbn [List.filter].
  destruct (same (MojDbShardInfo.deviceId i) id) eqn:E; cbn [map]; [|by rewrite app_nil_r].
  split; [|apply List.last_last]. apply alternates_snoc; [done|]. cbn [negb]. rewrite Hl, <- (proj2 (H id)).
  fold (told log id). rewrite <- (told_same _ _ _ E), (proj2 (H _)), Hi. by rewrite negb_involutive.
Qed.

(** The table is in order, an entry's device is its key, and what was told of a device
    last is whether it is in the table and not among those still to be erased. *)
Definition tracked (c : shard_cache_t) (erase : list mstring) (log : list MojDbShardInfo) : Prop :=
  ordered c /\ (forall k i, (k, i) ∈ c -> same (MojDbShardInfo.deviceId i) k = true) /\
  knows (fun id => existInCache c id && negb (existsb (same id) erase)) log.

Lemma tracked_put c erase log k i : tracked c erase log -> same (MojDbShardInfo.deviceId i) k = true ->
  ordered (MojMap.put MojStrCmp c k i) /\ forall k' i', (k', i') ∈ MojMap.put MojStrCmp c k i -> same (MojDbShardInfo.deviceId i') k' = true.
Proof.
  intros (Hs & Hk & _) Hi. split; [by apply MojMap.map_put_sorted; [apply _|]|].
  intros k' i' Hin. apply MojRbTreeBase.elem_of_put_inv in Hin as [[= -> ->]|Hin]; [done|by apply Hk|apply _].
Qed.

Lemma tracked_arrive c log i : tracked c [] log -> existInCache c (MojDbShardInfo.deviceId i) = false -> MojDbShardInfo.active i = true ->
  tracked (MojMap.put MojStrCmp c (MojDbShardInfo.deviceId i) i) [] (log ++ [i]).
Proof.
  intros Ht He Ha. destruct (tracked_put c [] log (MojDbShardInfo.deviceId i) i Ht (same_string_refl _)) as [? ?]. split; [done|]. split; [done|].
  destruct Ht as (Hs & _ & Hk). eapply knows_ext; [|apply (knows_tell _ _ i Hk); by rewrite He, Ha].
  intros id. cbn beta. rewrite exist_put by done. cbn [existsb]. rewrite Ha. by destruct (same _ id), (existInCache c id).
Qed.

Lemma exist_entry (c : shard_cache_t) k i : ordered c -> (k, i) ∈ c -> existInCache c k = true.
Proof.
  intros Hs Hin. rewrite exist_get. unfold MojMap.get. by rewrite (MojRbTreeBase.find_elem fst MojStrCmp k c (k, i)) by (done || apply comp_refl; apply _).
Qed.

(** The entry of a device that goes is changed, and is to be erased. *)
Lemma tracked_leave c erase log k i : tracked c erase log -> same (MojDbShardInfo.deviceId i) k = true ->
  existInCache c k = true -> existsb (same k) erase = false ->
  let i' := MojDbShardInfo.with_active i false in
  tracked (MojMap.put MojStrCmp c k i') (erase ++ [k]) (log ++ [i']).
Proof.
  intros Ht Hi Hc He i'. pose proof Ht as (Hs & Hk & Hl). change (MojDbShardInfo.deviceId i) with (MojDbShardInfo.deviceId i') in Hi.
  destruct (tracked_put c erase log k i' Ht Hi) as [? ?]. split; [done|]. split; [done|].
  eapply knows_ext; [|apply (knows_tell _ _ i' Hl)].
  - intros id. cbn beta. rewrite exist_put, existsb_app by done. cbn [existsb MojDbShardInfo.active]. rewrite orb_false_r, (same_sym id k).
    rewrite (same_cong _ _ id Hi). destruct (same k id) eqn:E; cbn [orb negb andb]; [|by rewrite orb_false_r].
    by rewrite orb_true_r.
  - cbn beta. by rewrite (exist_same c _ k Hi), (existsb_same _ _ k Hi), Hc, He.
Qed.

Lemma tracked_erase c k erase log : tracked c (k :: erase) log -> tracked (MojMap.del MojStrCmp c k).1 erase log.
Proof.
  intros (Hs & Hk & Hl). split; [by apply MojMap.map_del_sorted; [apply _|]|]. split.
  - intros k' i' [Hin _]%MojRbTreeBase.elem_of_del; [by apply Hk|apply _|done].
  - eapply knows_ext; [|exact Hl]. intros id. cbn [existsb]. rewrite exist_del by done.
    by destruct (same id k), (existInCache c id), (existsb _ erase).
Qed.

Lemma tracked_erase_all erase c log : tracked c erase log -> tracked (erase_loop erase c) [] log.
Proof. revert c. induction erase as [|k erase IH]; intros c H; [done|]. apply IH. by apply tracked_erase. Qed.

Section run.
Context {D : Type} (engine : MojDbShardInfo -> st D unit) (request : mstring -> MojObject -> st D unit)
        (errorText : option MojErr -> mstring) (m_serviceName : mstring).

Abbreviation Y := (shard_cache_t * (list MojDbShardInfo * D))%type.
Abbreviation process := (processShardInfo (recorded engine)).
Definition sound (x : Y) : Prop := tracked x.1 [] x.2.1.

Lemma process_recorded i (c : shard_cache_t) log d : exists d' e, process i (c, (log, d)) = ((c, (log ++ [i], d')), Ok e).
Proof. unfold processShardInfo, bind, attempt, on_db, recorded. cbn. destruct (engine i d) as [d' r]. by eexists _, _. Qed.

(** The ids that are met leave the set; the devices that are new enter the table. *)
Definition meets (x : Y) (ids met : list mstring) (x' : Y) (ids' : list mstring) : Prop :=
  sound x' /\ MojRbTreeBase.sorted id MojStrCmp ids' /\
  (forall k, MojSet.contains MojStrCmp ids' k = MojSet.contains MojStrCmp ids k && negb (existsb (same k) met)) /\
  (forall k, existInCache x'.1 k = existInCache x.1 k || existsb (same k) met).

Lemma meets_nil x ids : sound x -> MojRbTreeBase.sorted id MojStrCmp ids -> meets x ids [] x ids.
Proof. intros Hx Hi. split; [done|]. split; [done|]. split; intros k; cbn; [by rewrite andb_true_r|by rewrite orb_false_r]. Qed.

Lemma meets_app x ids m1 x1 ids1 m2 x2 ids2 : meets x ids m1 x1 ids1 -> meets x1 ids1 m2 x2 ids2 -> meets x ids (m1 ++ m2) x2 ids2.
Proof.
  intros (_ & _ & C1 & E1) (H2 & S2 & C2 & E2). split; [done|]. split; [done|].
  split; intros k; rewrite existsb_app; [by rewrite C2, C1, negb_orb, andb_assoc|by rewrite E2, E1, orb_assoc].
Qed.

Lemma set_contains_del (ids : list mstring) u k : MojRbTreeBase.sorted id MojStrCmp ids ->
  MojSet.contains MojStrCmp (MojSet.del MojStrCmp ids u).1 k = negb (same k u) && MojSet.contains MojStrCmp ids k.
Proof.
  intros Hs. unfold MojSet.contains, MojSet.del. rewrite (MojRbTreeBase.find_del id MojStrCmp) by done. unfold same. by destruct (MojStrCmp k u =? 0).
Qed.

Lemma meets_one x x' ids u : sound x' -> MojRbTreeBase.sorted id MojStrCmp ids ->
  (forall k, existInCache x'.1 k = existInCache x.1 k || same k u) -> meets x ids [u] x' (MojSet.del MojStrCmp ids u).1.
Proof.
  intros Hx Hi He. split; [done|]. split; [by apply (MojRbTreeBase.del_sorted id MojStrCmp)|].
  split; intros k; cbn [existsb]; rewrite orb_false_r; [by rewrite set_contains_del, andb_comm by done|done].
Qed.

(** What a loop does: it ends with the ids met, or with the error of the message. *)
Definition met_by (m : st Y (list mstring * option MojErr)) (x : Y) (ids : list mstring) (met : res (list mstring)) : Prop :=
  exists x' r, m x = (x', r) /\ sound x' /\
  match met with Ok met => exists ids' err, r = Ok (ids', err) /\ meets x ids met x' ids' | Err e => r = Err e end.

Lemma subDevices_spec parent subs : forall ids err x, sound x -> MojRbTreeBase.sorted id MojStrCmp ids ->
  met_by (subDevices_loop (recorded engine) parent subs ids err) x ids (listed_subs subs).
Proof.
  induction subs as [|it subs IH]; intros ids err x Hx Hids; cbn [subDevices_loop listed_subs].
  { eexists _, _. split; [done|]. split; [done|]. eexists _, _. split; [done|]. by apply meets_nil. }
  unfold met_by. rewrite bind_lift. destruct (convert it) as [i|e]; [|by eexists _, _].
  change (MojDbShardInfo.deviceId (MojDbShardInfo.with_active (MojDbShardInfo.with_parentDeviceId i parent) true)) with (MojDbShardInfo.deviceId i).
  destruct (MojDbShardInfo.deviceId i) as [|ch rest] eqn:Ei.
  { destruct (IH ids err x Hx Hids) as (x' & r & E & Hx' & H). exists x', r. split; [done|]. split; [done|]. revert H. destruct (listed_subs subs); cbn; by rewrite ?Ei. }
  set (i' := MojDbShardInfo.with_active _ true). set (u := ch :: rest) in *. set (ids1 := (MojSet.del MojStrCmp ids u).1).
  assert (exists x1 err1, sound x1 /\ (forall k, existInCache x1.1 k = existInCache x.1 k || same k u) /\
    (let! y := get in
     if negb (existInCache y.1 u) then
       let! _ := on_cache (fun c => MojMap.put MojStrCmp c u i') in
       let! e := process i' in subDevices_loop (recorded engine) parent subs ids1 (accumulate err e)
     else subDevices_loop (recorded engine) parent subs ids1 err) x = subDevices_loop (recorded engine) parent subs ids1 err1 x1) as (x1 & err1 & Hx1 & He & ->).
  { destruct x as [c [log d]]. unfold bind at 1, get. cbn [fst snd]. destruct (existInCache c u) eqn:Eu; cbn [negb].
    - exists (c, (log, d)), err. split; [done|]. split; [|done]. intros k. cbn [fst]. destruct (same k u) eqn:K; [|by rewrite orb_false_r].
      by rewrite (exist_same c k u K), Eu.
    - destruct (process_recorded i' (MojMap.put MojStrCmp c u i') log d) as (d' & e & E).
      exists (MojMap.put MojStrCmp c u i', (log ++ [i'], d')), (accumulate err e). split; [|split].
      + unfold sound. cbn [fst snd]. rewrite <- Ei. apply (tracked_arrive c log i'); [done| |done]. by change (MojDbShardInfo.deviceId i') with (MojDbShardInfo.deviceId i); rewrite Ei.
      + intros k. cbn [fst]. rewrite exist_put by apply Hx. by rewrite (same_sym u), orb_comm.
      + unfold bind at 1, on_cache, modify. cbn [fst snd]. by rewrite (bind_ok _ _ _ _ _ E). }
  pose proof (meets_one x x1 ids u Hx1 Hids He) as M. fold ids1 in M. destruct (IH ids1 err1 x1 Hx1) as (x' & r & E & Hx' & H); [apply M|].
  exists x', r. split; [done|]. split; [done|]. revert H. destruct (listed_subs subs) as [met|e]; [|done]. cbn. rewrite Ei. fold u.
  intros (ids' & err' & -> & M'). eexists _, _. split; [done|]. by apply (meets_app x ids [u] x1 ids1).
Qed.

Lemma devices_spec devices : forall ids err x, sound x -> MojRbTreeBase.sorted id MojStrCmp ids ->
  met_by (devices_loop (recorded engine) devices ids err) x ids (listed devices).
Proof.
  induction devices as [|i devices IH]; intros ids err x Hx Hids; cbn [devices_loop listed].
  { eexists _, _. split; [done|]. split; [done|]. eexists _, _. split; [done|]. by apply meets_nil. }
  unfold met_by. rewrite bind_lift. destruct (MojObjectString.getRequired_string i (_T "deviceType")) as [t|e]; cbn [res_bind]; [|by eexists _, _].
  destruct (negb (same t (_T "usb"))).
  { destruct (IH ids err x Hx Hids) as (x' & r & E & Hx' & H). exists x', r. split; [done|]. split; [done|]. revert H. by destruct (listed devices). }
  rewrite bind_lift. destruct (MojObjectString.getRequired_string i (_T "deviceId")) as [parent|e]; cbn [res_bind]; [|by eexists _, _].
  rewrite bind_lift. destruct (MojObject.getRequiredT (MojObject.get i (_T "subDevices"))) as [subs|e]; cbn [res_bind]; [|by eexists _, _].
  destruct (subDevices_spec parent (items subs) ids err x Hx Hids) as (x1 & r & E & Hx1 & H). cbn [res_bind].
  destruct (listed_subs (items subs)) as [met|e]; cbn [res_bind].
  2:{ subst r. rewrite (bind_err _ _ _ _ _ E). by eexists _, _. }
  destruct H as (ids1 & err1 & -> & M1). rewrite (bind_ok _ _ _ _ _ E). cbn [fst snd].
  destruct (IH ids1 err1 x1 Hx1) as (x' & r & E' & Hx' & H); [apply M1|]. exists x', r. split; [done|]. split; [done|].
  revert H. destruct (listed devices) as [met'|e]; [|done]. cbn [res_bind]. intros (ids' & err' & -> & M'). eexists _, _. split; [done|].
  by apply (meets_app x ids met x1 ids1).
Qed.

(** The devices not met leave the table. *)
Lemma gone_spec ids : forall err x, sound x -> exists x' err', gone_loop (recorded engine) ids err x = (x', Ok err') /\ sound x' /\
  forall k, existInCache x'.1 k = existInCache x.1 k && negb (existsb (same k) ids).
Proof.
  induction ids as [|u ids IH]; intros err x Hx; cbn [gone_loop].
  { eexists _, _. split; [done|]. split; [done|]. intros k. cbn. by rewrite andb_true_r. }
  destruct x as [c [log d]]. unfold bind at 1, get. cbn [fst snd]. destruct (MojMap.get MojStrCmp c u) as [i|] eqn:G.
  - destruct (process_recorded (MojDbShardInfo.with_active i false) (MojMap.put MojStrCmp c u (MojDbShardInfo.with_active i false)) log d) as (d' & e & E).
    unfold bind at 1, on_cache at 1, modify. cbn [fst snd]. rewrite (bind_ok _ _ _ _ _ E). unfold bind at 1, on_cache, modify. cbn [fst snd].
    assert (existInCache c u = true /\ same (MojDbShardInfo.deviceId i) u = true) as [Hc Hi].
    { rewrite exist_get, G. split; [done|]. unfold MojMap.get in G. destruct (MojRbTreeBase.find _ _ _ _) as [[u' i']|] eqn:F; [|done]. injection G as <-.
      apply MojRbTreeBase.find_Some in F as [Hin Eu]. destruct Hx as (_ & Hk & _). specialize (Hk u' i' Hin).
      rewrite (same_cong _ u' u Hk). cbn in Eu. unfold same. lia. }
    pose proof (tracked_leave c [] log u i Hx Hi Hc eq_refl) as T. apply tracked_erase in T.
    destruct (IH (accumulate err e) (_, (log ++ [MojDbShardInfo.with_active i false], d')) T) as (x' & err' & E' & Hx' & H).
    eexists _, _. split; [exact E'|]. split; [done|]. intros k. rewrite H. cbn [fst existsb]. rewrite exist_del, exist_put by (apply MojMap.map_put_sorted; [apply _|apply Hx] || apply Hx).
    rewrite (same_sym u). destruct (same k u), (existInCache c k); cbn; done.
  - destruct (IH err (c, (log, d)) Hx) as (x' & err' & E' & Hx' & H). eexists _, _. split; [done|]. split; [done|].
    intros k. rewrite H. cbn [fst existsb]. destruct (same k u) eqn:K; [|done]. by rewrite (exist_same c k u K), (exist_get c u), G.
Qed.

Lemma eject_spec deviceId l : forall err erase x, tracked x.1 erase x.2.1 -> ordered l ->
  (forall k i, (k, i) ∈ l -> existInCache x.1 k = true /\ same (MojDbShardInfo.deviceId i) k = true /\ existsb (same k) erase = false) ->
  exists x' err' erase', eject_loop (recorded engine) deviceId l err erase x = (x', Ok (err', erase')) /\ tracked x'.1 erase' x'.2.1.
Proof.
  induction l as [|[u i] l IH]; intros err erase x Hx Hl Hin; cbn [eject_loop]; [by eexists _, _, _|].
  apply MojRbTreeBase.sorted_cons in Hl as [Hlt Hl]. destruct (same (MojDbShardInfo.parentDeviceId i) deviceId).
  2:{ apply IH; [done|done|]. intros k j Hj. apply Hin. by right. }
  destruct x as [c [log d]]. unfold bind at 1, on_cache, modify. cbn [fst snd].
  destruct (process_recorded (MojDbShardInfo.with_active i false) (MojMap.put MojStrCmp c u (MojDbShardInfo.with_active i false)) log d) as (d' & e & E).
  rewrite (bind_ok _ _ _ _ _ E). destruct (Hin u i) as (Hc & Hi & He); [by left|].
  apply IH; [by apply tracked_leave|done|]. cbn [fst]. intros k j Hj. destruct (Hin k j) as (Hc' & Hj' & He'); [by right|]. cbn [fst] in Hc'.
  rewrite exist_put, Hc', orb_true_r by apply Hx. split; [done|]. split; [done|]. rewrite existsb_app, He'. cbn [existsb orb]. rewrite orb_false_r.
  rewrite Forall_forall in Hlt. specialize (Hlt _ Hj). unfold MojRbTreeBase.node_lt in Hlt. cbn in Hlt. unfold same.
  pose proof (comp_anti MojStrCmp u k). lia.
Qed.

(** *** Messages *)
Lemma copy_sorted (c : shard_cache_t) : ordered c -> MojRbTreeBase.sorted id MojStrCmp (copyShardCache c).
Proof.
  induction c as [|n c IH]; [by constructor|]. intros [Hn Hc]%MojRbTreeBase.sorted_cons. apply MojRbTreeBase.sorted_cons. split; [|by apply IH].
  apply Forall_forall. intros k Hk. apply list_elem_of_fmap in Hk as (m & -> & Hm). rewrite Forall_forall in Hn. by apply Hn.
Qed.

Lemma copy_contains (c : shard_cache_t) k : MojSet.contains MojStrCmp (copyShardCache c) k = existInCache c k.
Proof.
  unfold MojSet.contains, existInCache, MojMap.contains, MojRbTreeBase.find, copyShardCache. induction c as [|n c IH]; [done|].
  cbn [map List.find]. unfold Datatypes.id at 1. by destruct (MojStrCmp n.1 k =? 0).
Qed.

Lemma contains_existsb (ids : list mstring) k : MojSet.contains MojStrCmp ids k = existsb (same k) ids.
Proof.
  unfold MojSet.contains, MojRbTreeBase.find. induction ids as [|u ids IH]; [done|]. cbn [List.find existsb]. rewrite <- IH, (same_sym k u).
  unfold same, Datatypes.id. by destruct (MojStrCmp u k =? 0).
Qed.

Lemma raise_state e (x : Y) : (raise e x).1 = x.
Proof. by destruct e. Qed.

Lemma response_spec payload errCode x : sound x ->
  exists x', (handleDeviceListResponse (recorded engine) payload errCode x).1 = x' /\ sound x' /\
  forall deviceList ids, errCode = None -> MojObject.get payload (_T "devices") = Some deviceList -> listed (items deviceList) = Ok ids ->
    forall k, existInCache x'.1 k = existsb (same k) ids.
Proof.
  intros Hx. unfold handleDeviceListResponse. destruct errCode as [e|].
  { exists x. split; [|done]. rewrite bind_lift. by destruct (MojObjectString.stringValue payload). }
  rewrite bind_lift. destruct (MojObject.get payload (_T "devices")) as [l|]; cbn [MojObject.getRequiredT]; [|by exists x].
  unfold bind at 1, get. cbn [fst snd].
  destruct (devices_spec (items l) (copyShardCache x.1) None x Hx) as (x1 & r & E & Hx1 & H); [by apply copy_sorted; apply Hx|].
  destruct (listed (items l)) as [met|e] eqn:L.
  2:{ subst r. rewrite (bind_err _ _ _ _ _ E). exists x1. split; [done|]. split; [done|]. intros ? ? _ [= <-]. by rewrite L. }
  destruct H as (ids' & err & -> & _ & _ & Hids & Hmet). rewrite (bind_ok _ _ _ _ _ E). cbn [fst snd].
  destruct (gone_spec ids' err x1 Hx1) as (x' & err' & E' & Hx' & Hgone). rewrite (bind_ok _ _ _ _ _ E'), raise_state.
  exists x'. split; [done|]. split; [done|].
  intros ? ? _ [= <-]. rewrite L. intros [= <-] k. rewrite Hgone, <- contains_existsb, Hids, copy_contains, Hmet.
  by destruct (existInCache x.1 k), (existsb (same k) met).
Qed.

Lemma register_spec payload errCode x : sound x ->
  sound (handleRegister (recorded engine) (unrecorded request) errorText m_serviceName payload errCode x).1.
Proof.
  intros Hx. unfold handleRegister. rewrite bind_lift. destruct (MojObjectString.get_string payload (_T "deviceId")) as [[deviceId|]|e]; [|done|done].
  rewrite bind_lift. destruct (MojObjectString.getRequired_string payload (_T "status")) as [status|e]; [|done].
  destruct (negb _ && negb _); [done|]. unfold bind at 1, get.
  destruct (eject_spec deviceId x.1 None [] x Hx (proj1 Hx)) as (x1 & err & erase & E & Hx1).
  { intros k i Hin. split; [by apply (exist_entry x.1 k i); [apply Hx|]|]. split; [|done]. by apply (proj1 (proj2 Hx)). }
  rewrite (bind_ok _ _ _ _ _ E). unfold bind at 1, on_cache, modify, on_db, sendRelease, unrecorded. cbn [fst snd].
  destruct (request _ _ _) as [d' r]. by apply tracked_erase_all.
Qed.

Lemma handle_sound m x : sound x -> sound (handle engine request errorText m_serviceName m x).1.
Proof. intros Hx. destruct m; [|by apply register_spec]. cbn [handle]. by destruct (response_spec payload errCode x Hx) as (x' & -> & ? & _). Qed.

Lemma run_sound ms : forall x, sound x -> sound (run engine request errorText m_serviceName ms x).
Proof. induction ms as [|m ms IH]; intros x Hx; [done|]. apply IH. by apply handle_sound. Qed.
End run.

(** C29: whatever messages come, with errors in them or of the shard engine, each device
    is told of in turn as there and as gone, first as there, and the table holds just the
    devices last told to be there; after a list of devices that can be read it holds
    just the devices of the list. *)
Theorem notifications_alternate {D : Type} (engine : MojDbShardInfo -> st D unit) (request : mstring -> MojObject -> st D unit)
    (errorText : option MojErr -> mstring) (m_serviceName : mstring) (ms : list Message) (d : D) :
  let x := run engine request errorText m_serviceName ms ([], ([], d)) in
  (forall id, alternates true (told x.2.1 id) /\ existInCache x.1 id = List.last (told x.2.1 id) false) /\
  (forall payload deviceList ids, MojObject.get payload (_T "devices") = Some deviceList -> listed (items deviceList) = Ok ids ->
    forall id, existInCache (handle engine request errorText m_serviceName (DeviceList payload None) x).1.1 id = existsb (same id) ids).
Proof.
  intros x. assert (sound x) as Hx.
  { apply run_sound. split; [by constructor|]. split; [intros k i Hin; by apply elem_of_nil in Hin|]. intros id. by split. }
  split.
  - intros id. destruct Hx as (_ & _ & Hk). destruct (Hk id) as [Ha Hl]. split; [done|]. rewrite Hl. cbn [existsb]. by rewrite andb_true_r.
  - intros payload deviceList ids Hg Hl id. cbn [handle]. destruct (response_spec engine payload None x Hx) as (x' & -> & _ & H).
    by apply (H deviceList ids).
Qed.

(** ** A stick is plugged in, and a second one in its place *)
Module Sample.
Definition sub (id : string) : MojObject :=
  MojObject.putString (MojObject.putString (MojObject.putString UndefinedImpl (_T "deviceId") (_T id)) (_T "deviceName") (_T id)) (_T "deviceUri") (_T "/media").
Definition device (id : string) (subs : list string) : MojObject :=
  MojObject.put (MojObject.putString (MojObject.putString UndefinedImpl (_T "deviceType") (_T "usb")) (_T "deviceId") (_T id))
    (_T "subDevices") (ArrayImpl (map sub subs)).
Definition listOf (l : list MojObject) : MojObject := MojObject.put UndefinedImpl (_T "devices") (ArrayImpl l).
Definition status (id : string) : MojObject := MojObject.putString (MojObject.putString UndefinedImpl (_T "deviceId") (_T id)) (_T "status") (_T "EJECTING").

(** The engine counts what it is told and refuses the parts named bad; requests are kept. *)
Definition engine (i : MojDbShardInfo) : st (list MojObject) unit :=
  if same (MojDbShardInfo.deviceId i) (_T "bad") then throw MojErrNotOpen else ret tt.
Definition request (m : mstring) (payload : MojObject) : st (list MojObject) unit := modify (fun l => l ++ [payload]).
Definition text (e : option MojErr) : mstring := match e with None => _T "Success" | Some _ => _T "failed" end.
Definition start : shard_cache_t * (list MojDbShardInfo * list MojObject) := ([], ([], [])).
Abbreviation go := (run engine request text (_T "db8")).

Definition first := listOf [device "A" ["a1"; "a2"]%string; device "B" ["b1"]%string].

Lemma notifications_alternate_witness :
  existInCache (handle engine request text (_T "db8") (DeviceList (listOf [device "A" ["a2"; "a3"]%string]) None)
    (go [DeviceList first None; DeviceStatus (status "B") None] start)).1.1 (_T "a1") = false.
Proof.
  rewrite (proj2 (notifications_alternate engine request text (_T "db8") [DeviceList first None; DeviceStatus (status "B") None] [])
    (listOf [device "A" ["a2"; "a3"]%string]) (ArrayImpl [device "A" ["a2"; "a3"]%string]) [_T "a2"; _T "a3"] eq_refl); [done|].
  by vm_compute.
Defined.

(** The parts of a device whose last part goes well are released, though one could not
    be given up. *)
Definition reply (x : shard_cache_t * (list MojDbShardInfo * list MojObject)) (key : string) : option MojObject :=
  match rev x.2.2 with o :: _ => MojObject.get o (_T key) | [] => None end.

Lemma error_forgotten :
  reply (go [DeviceList (listOf [device "A" ["bad"; "good"]%string]) None; DeviceStatus (status "A") None] start) "isUsing" = Some (BoolImpl false).
Proof. by vm_compute. Qed.

(** The reason given for a failure is the text of no error. *)
Lemma reason_of_no_error :
  let x := go [DeviceList (listOf [device "A" ["bad"]%string]) None; DeviceStatus (status "A") None] start in
  reply x "isUsing" = Some (BoolImpl true) /\ reply x "reason" = Some (StringImpl (_T "Success")).
Proof. by vm_compute. Qed.

(** A device the engine refused is in the table and is not tried again. *)
Lemma refused_not_retried :
  let x := go [DeviceList (listOf [device "A" ["bad"]%string]) None] start in
  length (go [DeviceList (listOf [device "A" ["bad"]%string]) None] x).2.1 = length x.2.1 /\ length x.2.1 = 1%nat.
Proof. by vm_compute. Qed.
End Sample.
End MojDbMediaHandler.
