(* ===== verification/ShardExample.v ===== *)
(** * The table of shards at work

    A database that is a list of objects, on which the theorems on shards are tried,
    and what the code does at their borders. *)

From stdpp Require Import gmap.
From S2P Require Import Prelude Containers CoreUtil Number Object DataSerialization Text DbKey JsonRoundTrip DbQuery ObjectItem Effects Merge DbQueryRoundTrip ShardInfo Db ShardEngine ShardSpec ShardRemove MediaHandler.
Import MojDbShardInfo (MojDbShardInfo) MojDbShardEngine.

Module ShardStore.
Record Store := { objs : list MojObject; begins : Z; mounted : list (Z * mstring) }.
Definition with_objs (d : Store) (l : list MojObject) : Store := {| objs := l; begins := begins d; mounted := mounted d |}.
Definition with_begins (d : Store) (n : Z) : Store := {| objs := objs d; begins := n; mounted := mounted d |}.

Definition kind_is (kind : mstring) (o : MojObject) : bool :=
  match MojObject.get o KindKey with Some (StringImpl k) => bool_decide (k = kind) | _ => false end.
Definition answers (q : MojDbQuery.MojDbQuery) (o : MojObject) : bool :=
  kind_is (MojDbQuery.m_fromType q) o && forallb (meets o) (MojDbQuery.m_whereClauses q).

(** The snapshot of a cursor, but for what has been deleted since. *)
Definition remaining (d : Store) (c : list MojObject) : list MojObject := List.filter (hit (objs d)) c.

(** An id that is longer than all others. *)
Definition id_length (o : MojObject) : nat := match oid o with Some (StringImpl s) => length s | _ => 0 end.
Definition fresh_id (d : Store) : MojObject := StringImpl (chr "_" :: replicate (list_max (map id_length (objs d))) (chr "a")).

Definition store_put (obj : MojObject) (flags : Z) (shardId : mstring) : st Store MojObject := fun d =>
  let id := match oid obj with Some id => id | None => fresh_id d end in
  let obj := MojObject.putInt (MojObject.put obj IdKey id) RevKey 1 in
  (with_objs d (obj :: List.filter (fun o => negb (has_id id o)) (objs d)), Ok obj).

Definition store_merge (q : MojDbQuery.MojDbQuery) (props : MojObject) (flags : Z) : st Store Z := fun d =>
  (with_objs d (map (fun o => if answers q o then Merge.mergeInto props UndefinedImpl o else o) (objs d)),
   Ok (to_uint 32 (Z.of_nat (length (List.filter (answers q) (objs d)))))).

#[export] Instance store_client : MojDbClient Store := {|
  DbCursor := list MojObject;
  db_find q := fun d => (d, Ok (List.filter (answers q) (objs d)));
  cursor_get c := fun d => (d, Ok (match remaining d c with [] => (None, []) | o :: l => (Some o, l) end));
  cursor_item c := fun d => (d, Ok (match remaining d c with
    | [] => (None, [])
    | o :: l => (Some (match oid o with Some id => id | None => UndefinedImpl end,
                       match MojObject.get o KindKey with Some (StringImpl k) => k | _ => [] end), l) end));
  db_put := store_put;
  db_merge := store_merge;
  db_delQuery q _ := fun d => (with_objs d (List.filter (fun o => negb (answers q o)) (objs d)), Ok (Z.of_nat (length (List.filter (answers q) (objs d)))));
  db_del id _ := fun d => (with_objs d (List.filter (fun o => negb (has_id id o)) (objs d)), Ok (existsb (has_id id) (objs d)));
  db_get id := fun d => (d, Ok (List.find (has_id id) (objs d)));
  db_databaseId := ret (_T "db");
  req_begin := fun d => (with_begins d (begins d + 1), Ok tt);
  req_end _ := fun d => (with_begins d (begins d - 1), Ok tt);
  db_shardStatusChanged _ := ret tt
|}.

#[export] Instance store_kinds : KindClient Store := {|
  kind_builtin_hash k := ret (bool_decide (k = ShardInfoKind), 7);
  kind_getKinds := ret [];
  kind_putKind _ := ret tt;
  kind_delKeys _ := ret tt;
  storage_del _ id := fun d => (with_objs d (List.filter (fun o => negb (has_id id o)) (objs d)), Ok (existsb (has_id id) (objs d)));
  storage_mountShard id path := fun d => ({| objs := objs d; begins := begins d; mounted := (id, path) :: mounted d |}, Ok tt);
  storage_unMountShard id := fun d => ({| objs := objs d; begins := begins d; mounted := List.filter (fun m => negb (m.1 =? id)) (mounted d) |}, Ok tt)
|}.

#[export] Instance store_os : ShardOS Store := {|
  os_access _ := ret AccessOk;
  os_createDirIfNotPresent _ := ret tt;
  os_rmDirRecursive _ := ret tt;
  os_statvfs _ := ret None;
  os_unlink _ := ret tt;
  os_symlink _ _ := ret tt;
  os_time := ret 1000
|}.

#[export] Instance store_view : ShardView Store := {|
  valid d := Forall MojObject.ok (objs d) /\ Forall (fun o => is_Some (oid o)) (objs d) /\ NoDup (map oid (objs d));
  view := objs;
  shows d c l := remaining d c = l;
  is_a k kind := bool_decide (k = kind);
  registered _ _ := True;
  builtin k := bool_decide (k = ShardInfoKind)
|}.

(** The checksum adds the characters; a text is split at a character. *)
#[export] Instance store_boost : Boost := {| tokenize c s := MojString.split s c; crc_32 p := to_uint 32 (fold_left Z.add p 0) |}.

Lemma splitLoop_plain c s : c ∉ s -> forall cur r, MojString.splitLoop c (s ++ r) cur = MojString.splitLoop c r (rev s ++ cur).
Proof.
  induction s as [|x s IH]; intros Hn cur r; [done|]. apply not_elem_of_cons in Hn as [Hx Hn]. cbn [app MojString.splitLoop].
  rewrite (proj2 (Z.eqb_neq _ _)) by congruence. rewrite IH by done. cbn [rev]. by rewrite <- app_assoc.
Qed.

Lemma split_joined c l : Forall (fun s => s <> [] /\ c ∉ s) l -> MojString.split (joined c l) c = l.
Proof.
  unfold MojString.split. induction 1 as [|s l [Hne Hn] F IH]; [done|].
  assert ((0 <? length (rev s))%nat = true) as Hl by (rewrite length_rev; destruct s; [done|by apply Nat.ltb_lt; cbn; lia]).
  destruct l as [|s' l]; cbn [joined].
  - pose proof (splitLoop_plain c s Hn [] []) as E. rewrite !app_nil_r in E. rewrite E. cbn [MojString.splitLoop]. by rewrite Hl, rev_involutive.
  - rewrite splitLoop_plain by done. cbn [MojString.splitLoop]. rewrite Z.eqb_refl, app_nil_r, Hl, rev_involutive. cbn [app]. f_equal. exact IH.
Qed.

#[export] Instance store_boost_laws : BoostLaws store_boost.
Proof.
  split; [done|intros c l; apply split_joined|]. intros s. cbn. unfold to_uint, in_uint. apply Z.mod_pos_bound. lia.
Qed.

(** *** The laws *)
Lemma hit_present d o : o ∈ objs d -> is_Some (oid o) -> hit (objs d) o = true.
Proof.
  intros Ho [v Ev]. apply existsb_exists. exists o. split; [by apply list_elem_of_In|]. rewrite Ev. unfold has_id. rewrite Ev.
  by rewrite (comp_refl MojObject.compare).
Qed.

Lemma remaining_present d (P : MojObject -> bool) : Forall (fun o => is_Some (oid o)) (objs d) -> remaining d (List.filter P (objs d)) = List.filter P (objs d).
Proof.
  intros F. unfold remaining. rewrite filter_filter_b. apply filter_ext_b. intros o Ho. rewrite Forall_forall in F.
  rewrite (hit_present d o Ho (F o Ho)). apply andb_true_r.
Qed.

(** Objects with equal ids are in or out of what has an id alike. *)
Lemma hit_deleted id l o : hit (List.filter (fun o => negb (has_id id o)) l) o = negb (has_id id o) && hit l o.
Proof.
  unfold hit. induction l as [|x l IH]; cbn [List.filter existsb]; [by rewrite andb_false_r|].
  destruct (has_id id x) eqn:Ex; cbn [negb existsb]; rewrite IH.
  - destruct (oid x) as [w|] eqn:Ew; [|done]. destruct (has_id w o) eqn:Eo; [|done]. cbn [orb]. rewrite andb_true_r.
    replace (has_id id o) with true; [done|]. symmetry. unfold has_id in *. rewrite Ew in Ex. destruct (oid o) as [v|]; [|done].
    apply Z.eqb_eq in Ex, Eo. apply Z.eqb_eq. by apply (comp_eq_trans MojObject.compare v w id).
  - destruct (oid x) as [w|] eqn:Ew; [|done]. destruct (has_id w o) eqn:Eo; cbn [orb]; [|done]. rewrite andb_true_r.
    replace (has_id id o) with false; [done|]. symmetry. unfold has_id in *. rewrite Ew in Ex. destruct (oid o) as [v|]; [|done].
    apply Z.eqb_eq in Eo. apply Z.eqb_neq in Ex. apply Z.eqb_neq. intros C. apply Ex. apply (comp_eq_trans MojObject.compare w v id); [|done].
    by apply (comp_eq_sym MojObject.compare).
Qed.

Lemma delete_valid d (P : MojObject -> bool) : valid d -> valid (with_objs d (List.filter P (objs d))).
Proof.
  intros (H1 & H2 & H3). cbn. rewrite !Forall_forall in *. split_and!.
  - intros o [Ho _]%elem_of_filter_b. by apply H1.
  - intros o [Ho _]%elem_of_filter_b. by apply H2.
  - clear H1 H2. induction (objs d) as [|o l IH]; cbn [List.filter map] in *; [constructor|]. apply NoDup_cons in H3 as [Hn H3].
    destruct (P o); [|by apply IH]. cbn [map]. apply NoDup_cons. split; [|by apply IH]. intros Hx. apply Hn.
    apply list_elem_of_fmap in Hx as (o' & -> & [Ho' _]%elem_of_filter_b). by apply list_elem_of_fmap_2.
Qed.

Lemma fresh_new d o : o ∈ objs d -> oid o <> Some (fresh_id d).
Proof.
  intros Ho E. assert (id_length o <= list_max (map id_length (objs d)))%nat as Hle.
  { pose proof (proj1 (list_max_le (map id_length (objs d)) _) (le_n _)) as F. rewrite List.Forall_forall in F. apply F. apply in_map. by apply list_elem_of_In. }
  unfold id_length in Hle at 1. rewrite E in Hle. unfold fresh_id in Hle. cbn [length] in Hle. rewrite length_replicate in Hle. lia.
Qed.

Lemma answers_asks d q kind clauses o : asks d q kind clauses -> answers q o = selects kind clauses o.
Proof. intros (_ & all & props & -> & _). done. Qed.

Lemma store_merged_get props o key : MojObject.ok props -> MojObject.ok o -> is_Some (oid o) ->
  MojObject.get (Merge.mergeInto props UndefinedImpl o) key = merged_value (MojObject.get props key) (MojObject.get o key).
Proof.
  intros Hp Ho [v Ev]. rewrite merge_undefined; [by apply merge_get|]. right. destruct o as [| |[]| | | | |]; done.
Qed.

Lemma merge_valid d q props : valid d -> MojObject.ok props -> oid props = None ->
  valid (with_objs d (map (fun o => if answers q o then Merge.mergeInto props UndefinedImpl o else o) (objs d))).
Proof.
  intros (H1 & H2 & H3) Hp Hid. cbn. set (g := fun o => if answers q o then Merge.mergeInto props UndefinedImpl o else o).
  rewrite Forall_forall in H1, H2. assert (forall o, o ∈ objs d -> MojObject.ok (g o) /\ oid (g o) = oid o) as Hg.
  { intros o Ho. unfold g. destruct (answers q o); [|by split; [apply H1|]]. split; [apply mergeInto_ok; [done|done|by apply H1]|].
    unfold oid in Hid |- *. rewrite store_merged_get, Hid; [by destruct (MojObject.get o IdKey)|done|by apply H1|by apply H2]. }
  split_and!.
  - apply Forall_fmap, Forall_forall. intros o Ho. cbn. by apply Hg.
  - apply Forall_fmap, Forall_forall. intros o Ho. cbn. rewrite (proj2 (Hg o Ho)). by apply H2.
  - rewrite map_map. rewrite (map_ext_in _ oid); [done|]. intros o Ho. by apply Hg, list_elem_of_In.
Qed.

Lemma put_valid d o k : valid d -> MojObject.ok o -> oid o = None -> MojObject.get o KindKey = Some (StringImpl k) ->
  exists d' o', store_put o MojDb.MojDbFlagNone [] d = (d', Ok o') /\ valid d' /\ view d' = o' :: view d /\ MojObject.ok o' /\ in_main o' /\
    forall key, str_ok key -> key <> IdKey -> key <> RevKey -> MojObject.get o' key = MojObject.get o key.
Proof.
  intros (H1 & H2 & H3) Ho Hid Hk. unfold store_put. rewrite Hid. set (o' := MojObject.putInt (MojObject.put o IdKey (fresh_id d)) RevKey 1).
  assert (MojObject.ok (fresh_id d)) as Hf.
  { unfold fresh_id. cbn [MojObject.ok]. constructor; [change (chr "_") with 95; lia|]. apply Forall_replicate. change (chr "a") with 97. lia. }
  assert (MojObject.ok (MojObject.put o IdKey (fresh_id d))) as Hok by (apply MojObject.put_ok; [done|by repeat constructor|done]).
  assert (MojObject.ok o') as Ho' by (apply MojObject.put_ok; [done|by repeat constructor|by cbn; unfold in_int; lia]).
  assert (oid o' = Some (fresh_id d)) as Eo.
  { unfold oid, o', MojObject.putInt. rewrite MojObject.get_put by (done || by repeat constructor). rewrite decide_False by (by vm_compute).
    rewrite MojObject.get_put by (done || by repeat constructor). by rewrite decide_True. }
  assert (List.filter (fun o => negb (has_id (fresh_id d) o)) (objs d) = objs d) as Ef.
  { rewrite <- (filter_true_all (objs d)) at 2. apply filter_ext_b. intros x Hx. apply negb_true_iff. unfold has_id.
    destruct (oid x) as [w|] eqn:Ex; [|done]. apply Z.eqb_neq. intros C. apply (fresh_new d x Hx). rewrite Ex. f_equal.
    rewrite Forall_forall in H1. apply MojObject.compare_eq; [exact (MojObject.get_ok x IdKey w (H1 x Hx) Ex)|done|done]. }
  rewrite Ef. exists (with_objs d (o' :: objs d)), o'. split; [done|]. split; [|split; [done|split; [done|split]]].
  - split; [by constructor|]. split; [constructor; [by exists (fresh_id d)|done]|]. cbn [with_objs objs map]. rewrite Eo. apply NoDup_cons. split; [|done].
    intros (x & Ex & Hx)%list_elem_of_fmap. by apply (fresh_new d x Hx).
  - intros id. rewrite Eo. intros [= <-]. unfold MojDbIdGenerator.extractShard, fresh_id.
    generalize (replicate (list_max (map id_length (objs d))) (chr "a")). intros l.
    replace (MojString.startsWith (chr "_" :: l) (_T "_")) with true by (by destruct l). by rewrite andb_false_r.
  - intros key Hkey Hn1 Hn2. unfold o', MojObject.putInt. rewrite !MojObject.get_put by (done || by repeat constructor). by rewrite !decide_False by congruence.
Qed.

#[export] Instance store_laws : ShardDbLaws Store.
Proof.
  split.
  - intros k. by apply bool_decide_eq_true_2.
  - by intros d (? & _).
  - by intros d (_ & ?).
  - intros d q kind clauses Ha. exists (List.filter (answers q) (objs d)), (List.filter (answers q) (objs d)).
    split; [done|]. split; [apply remaining_present; by destruct Ha as ((_ & ? & _) & _)|].
    by rewrite (filter_ext_b (answers q) (selects kind clauses)) by (intros o _; exact (answers_asks d q kind clauses o Ha)).
  - intros d c Hs. exists []. cbn in *. by rewrite Hs.
  - intros d c o l Hs. exists l. cbn in *. rewrite Hs. split; [done|]. unfold remaining in *.
    assert (List.filter (hit (objs d)) (o :: l) = o :: l) as E by (rewrite <- Hs, filter_filter_b; apply filter_ext_b; intros x _; by destruct (hit (objs d) x)).
    cbn [List.filter] in E. destruct (hit (objs d) o); [congruence|]. exfalso. assert (o ∈ List.filter (hit (objs d)) l) as Hx by (rewrite E; by left).
    apply (f_equal length) in E. pose proof (filter_length_le (hit (objs d)) l). cbn in E. lia.
  - intros d o k props Hv Ho Hid Hk _. destruct (put_valid d o k Hv Ho Hid Hk) as (d' & o' & ? & ? & E & ?). exists d', o'. rewrite E. split; [done|]. split; [done|]. by split.
  - intros d q kind clauses props Ha Hp Hid. eexists _, (fun o => Merge.mergeInto props UndefinedImpl o). split; [|split; [|split]].
    + cbn. unfold store_merge. rewrite (filter_ext_b (answers q) (selects kind clauses)) by (intros o _; exact (answers_asks d q kind clauses o Ha)). done.
    + apply merge_valid; [by destruct Ha|done..].
    + cbn. rewrite (map_ext _ (fun o => if selects kind clauses o then Merge.mergeInto props UndefinedImpl o else o)); [done|].
      intros o. by rewrite (answers_asks d q kind clauses).
    + intros o Ho _ key _ _. destruct Ha as ((F1 & F2 & _) & _). rewrite Forall_forall in F1, F2. apply store_merged_get; [done|by apply F1|by apply F2].
  - intros d q kind clauses Ha. eexists _, _. split; [done|]. split; [apply delete_valid; by destruct Ha|].
    apply Permutation_refl'. apply filter_ext_b. intros o _. by rewrite (answers_asks d q kind clauses o Ha).
  - intros d o id Hv Ho Hid. exists (with_objs d (List.filter (fun o => negb (has_id id o)) (objs d))). split; [|split; [by apply delete_valid|split; [done|]]].
    + cbn. replace (existsb (has_id id) (objs d)) with true; [done|]. symmetry. apply existsb_exists. exists o. split; [by apply list_elem_of_In|].
      unfold has_id. rewrite Hid. by rewrite (comp_refl MojObject.compare).
    + intros c l Hs. cbn in *. unfold remaining in *. rewrite <- Hs. cbn [with_objs objs]. rewrite filter_filter_b. apply filter_ext_b. intros x _.
      rewrite hit_deleted. apply andb_comm.
  - intros d k props _. by exists 7.
  - intros d. exists 1000. split; [done|]. unfold in_int. lia.
Qed.
End ShardStore.

Module ShardExample.
Import ShardStore.

(** A device with pictures on it. *)
Definition stick : MojDbShardInfo :=
  MojDbShardInfo.mkInfo 16777316 true false 5 (_T "0UjZ") (_T "stick") (_T "/media/stick") [] (_T "Stick") [] [] [_T "Photo:1"].

Definition header (id kind : mstring) : MojObject := MojObject.putString (MojObject.putString UndefinedImpl IdKey id) KindKey kind.
Definition record : MojObject := convert stick (header (_T "_s1") ShardInfoKind).

(** An id in a shard. *)
Definition shard_id (shard n : Z) : mstring :=
  match MojString.base64Encode (toBigEndian 4 shard ++ toBigEndian 8 n) false with Ok s => s | Err _ => [] end.
Definition photo (shard n : Z) : MojObject := header (shard_id shard n) (_T "Photo:1").

Definition home : Store := {| objs := [photo 16777316 7; photo 3 8; record]; begins := 0; mounted := [] |}.

Lemma stick_ok : MojDbShardInfo.ok stick.
Proof.
  split; [by vm_compute; split|]. split; [by vm_compute; split|]. split.
  - apply Forall_singleton. split; [by apply QueryRoundTrip.str_okb|]. split; [done|]. by apply (bool_decide_unpack (_ ∉ _)); vm_compute.
  - repeat (apply Forall_cons; split; [by apply QueryRoundTrip.str_okb|]). constructor.
Qed.

Lemma header_ok id kind : forallb (fun c => (0 <? c) && (c <? 256)) id = true -> forallb (fun c => (0 <? c) && (c <? 256)) kind = true -> MojObject.ok (header id kind).
Proof.
  intros H1 H2. unfold header, MojObject.putString.
  apply MojObject.put_ok; [apply MojObject.put_ok; [done|by repeat constructor|by apply QueryRoundTrip.str_okb]|by repeat constructor|by apply QueryRoundTrip.str_okb].
Qed.

Lemma record_ok : MojObject.ok record /\ MojDbShardInfo.describes stick record.
Proof.
  destruct (MojDbShardInfo.toObject_spec stick (header (_T "_s1") ShardInfoKind) stick_ok) as (H1 & H2 & _); [by apply header_ok|].
  by split.
Qed.

Lemma home_valid : valid home.
Proof.
  split; [|split].
  - repeat (apply Forall_cons; split); [by apply header_ok|by apply header_ok|apply record_ok|constructor].
  - repeat (apply Forall_cons; split); try (by eexists; vm_compute). constructor.
  - cbn [home objs map]. repeat (apply NoDup_cons; split); try apply NoDup_nil; try done;
      repeat (apply not_elem_of_cons; split); try (by vm_compute); apply not_elem_of_nil.
Qed.

Lemma home_infos : infos home = [record].
Proof. by vm_compute. Qed.

Lemma home_table : table_ok home.
Proof.
  split; [rewrite home_infos; apply Forall_singleton; split; [intros id [= <-]; by vm_compute|exists stick; split; [apply stick_ok|apply record_ok]]|].
  split; [|apply home_valid]. intros id. rewrite home_infos. cbn [List.filter]. destruct (record_of id record); cbn; lia.
Qed.

Lemma home_readable : readable_ids home.
Proof.
  intros o v Ho. rewrite home_infos in Ho. apply list_elem_of_singleton in Ho as ->. destruct record_ok as [_ D]. apply Forall_inv in D.
  cbn [fst snd] in D. rewrite D. intros [= <-]. by vm_compute.
Qed.

Lemma home_registered : registered (D := Store) ShardInfoKind info_indexes.
Proof. exact I. Qed.

(** The table starts with the stick; a kind is added to it. *)
Lemma shard_table_refines_witness : exists x A x' A',
  initCache 5 (∅, home) = (x, Ok tt) /\ represents x A /\
  run_op (OpLink 16777316 (_T "Song:1")) x = (x', Ok tt) /\ op_spec A (OpLink 16777316 (_T "Song:1")) A' (Ok tt) /\ represents x' A'.
Proof.
  destruct (shard_table_refines home_registered home 5 home_table home_readable) as [(x & A & E & _ & R) Hops].
  { rewrite home_infos. cbn. lia. }
  destruct (Hops x A R) as [Hop _]. destruct (Hop (OpLink 16777316 (_T "Song:1"))) as (x' & r & A' & E' & S & R').
  { split; [by apply QueryRoundTrip.str_okb|]. split; [done|]. by apply (bool_decide_unpack (_ ∉ _)); vm_compute. }
  exists x, A, x', A'. destruct r as [[]|e]; [|by destruct S]. by split_and!.
Defined.

(** The pictures on the stick go with it, those of another shard stay. *)
Lemma remove_shards_exact_witness : exists x A, represents x A /\
  exists d', removeShardObjects 9 [16777316] x = ((x.1, d'), Ok tt) /\
    (photo 3 8 ∈ objs d') /\ ~ (photo 16777316 7 ∈ objs d').
Proof.
  destruct (initCache_represents home_registered home 5 home_table home_readable) as (c & A & E & R); [rewrite home_infos; cbn; lia|].
  assert (A !! 16777316 = Some stick) as Ea.
  { destruct (represents_record (c, home) A record R) as (i & Ei & Hi & Di); [cbn [snd]; rewrite home_infos; by left|].
    by rewrite (describes_inj i stick record Hi stick_ok Di (proj2 record_ok)) in Ei. }
  exists (c, home), A. split; [done|].
  destruct (remove_shards_exact (c, home) A [16777316] 9 R) as (d' & E' & Hd').
  - intros id i _. apply Forall_forall. intros k _. by exists [].
  - split; [apply home_valid|]. apply Forall_forall. intros o Ho v Ev.
    repeat (apply elem_of_cons in Ho as [->|Ho]); [| | |by apply elem_of_nil in Ho]; injection Ev as <-; eexists; by vm_compute.
  - cbn. lia.
  - unfold doomed in Hd'. cbn [existsb] in Hd'. rewrite Ea in Hd'. exists d'. split; [exact E'|]. split; [apply Hd'; split; [right; by left|by vm_compute]|].
    intros [_ Hx]%Hd'. by vm_compute in Hx.
Defined.

Lemma allocate_fresh_witness : exists prefix, 1 <= prefix <= 127 /\
  allocateId 127 (_T "stick") ((∅, home) : MojDbShardIdCache.IdCache * Store) = ((∅, home), Ok (prefix * 2 ^ 24 + computeId (_T "stick"))).
Proof.
  destruct (allocate_fresh ((∅, home) : MojDbShardIdCache.IdCache * Store) (_T "stick") 127) as [_ H].
  destruct H as (prefix & Hp & E & _); [by apply Nat.ltb_lt; vm_compute|done|]. by exists prefix.
Defined.

(** ** At the borders *)
Definition known : MojDbShardIdCache.IdCache := {[ 16777316 := record ]}.
Definition info_of (x : MojDbShardIdCache.IdCache * Store) (id : Z) : option MojDbShardInfo :=
  match get_info id (MojDbShardInfo.make 0 false false) x with (_, Ok (i, true)) => Some i | _ => None end.

(** A description put under a known id: the database has two, the cache keeps the old. *)
Lemma put_known_id :
  let x := (put (MojDbShardInfo.with_deviceName stick (_T "New")) (known, home)).1 in
  length (infos x.2) = 2%nat /\ option_map MojDbShardInfo.deviceName (info_of x 16777316) = Some (_T "Stick").
Proof. by vm_compute. Qed.

(** The cache is not taken back with a transaction: after an abort the kind seems to
    be linked, is not linked again, and its objects are not given up with the shard. *)
Lemma abort_keeps_link :
  let linked := (link 16777316 (_T "Song:1") (known, home)).1 in
  let again := link 16777316 (_T "Song:1") (linked.1, home) in
  again.2 = Ok tt /\ objs again.1.2 = objs home /\
  option_map MojDbShardInfo.kindIds (info_of again.1 16777316) = Some [_T "Photo:1"; _T "Song:1"].
Proof. by vm_compute. Qed.

(** The hash of a kind is kept once for all shards: that of one shard is changed by the
    other, which hides that the first one has objects of the old kind. *)
Lemma hash_shared :
  let d := (KindHash.save {| KindHash.m_id := []; KindHash.m_kindId := _T "Photo:1"; KindHash.m_hash := 1 |} (_T "0UjZ") home).1 in
  let d := (KindHash.save {| KindHash.m_id := []; KindHash.m_kindId := _T "Photo:1"; KindHash.m_hash := 2 |} (_T "0UjY") d).1 in
  match KindHash.loadHashes 9 16777316 d with (_, Ok hashes) => map KindHash.m_hash hashes | _ => [] end = [2].
Proof. by vm_compute. Qed.

(** A shard of an unsigned id is not read at the start. *)
Lemma large_id_stops_start :
  let d := with_objs home [convert (MojDbShardInfo.with_id stick 2147483648) (header (_T "_s2") ShardInfoKind)] in
  (initCache 5 (∅, d)).2 = Err MojErrValueOutOfRange.
Proof. by vm_compute. Qed.

(** A record of a device that lacks a property is found, with what came before it. *)
Lemma half_description :
  let d := with_objs home [MojObject.putString (header (_T "_s3") ShardInfoKind) (_T "deviceId") (_T "stick")] in
  match getShardId 9 (_T "stick") (∅, d) with (_, Ok id) => id | _ => -1 end = 0.
Proof. by vm_compute. Qed.

(** Dropping the garbage of a shard leaves the request open once for each object of
    another shard. *)
Lemma request_left_open : begins (delKindData 9 16777316 (_T "Photo:1") (known, home)).1.2 = 1.
Proof. by vm_compute. Qed.

#[local] Instance whole_shares : Floats :=
  {| float := Z; float_of_decimal v := v; float_ge100 v := 100000000 <=? v; float_lt0 v := v <? 0; float_gt0 v := 0 <? v;
     float_zero := 0; space_share blocks size v := blocks * size * v / 100000000 |}.

(** A device that goes ends its request once more than it began it. *)
Lemma removed_device_ends_twice :
  begins (processShardInfo disabled 9 (MojDbShardInfo.with_active stick false) (MojDbShardInfo.make 0 false false) (known, home)).1.2 = -1.
Proof. by vm_compute. Qed.

(** A new device is known afterwards by an id of its own, with its database mounted. *)
Lemma new_device :
  let disk := MojDbShardInfo.with_deviceUri (MojDbShardInfo.with_deviceId (MojDbShardInfo.make 0 true false) (_T "disk")) (_T "/media/disk") in
  match processShardInfo (Build_Config _ true (_T ".db8") false (_T "/var") 1 0 []) 99 disk (MojDbShardInfo.make 0 false false) (known, home) with
  | (x, Ok i) => mounted x.2 = [(MojDbShardInfo.id i, _T "/var/010001ab/")] /\ MojDbShardInfo.id i = 16777643 /\
                 option_map MojDbShardInfo.deviceUri (info_of x (MojDbShardInfo.id i)) = Some (_T "/media/disk")
  | _ => False
  end.
Proof. by vm_compute. Qed.

(** A disk that is listed, and then is not, is mounted and unmounted. *)
Lemma listed_and_gone :
  let engine i := let! _ := processShardInfo (Build_Config _ true (_T ".db8") false (_T "/var") 1 0 []) 99 i (MojDbShardInfo.make 0 false false) in ret tt in
  let go ms := MojDbMediaHandler.run engine (fun _ _ => ret tt) (fun _ => []) (_T "db8") ms ([], ([], (known, home))) in
  let there := MojDbMediaHandler.DeviceList (MojDbMediaHandler.Sample.listOf [MojDbMediaHandler.Sample.device "A" ["disk"%string]]) None in
  let gone := MojDbMediaHandler.DeviceList (MojDbMediaHandler.Sample.listOf []) None in
  mounted (go [there]).2.2.2 = [(16777643, _T "/var/010001ab/")] /\ mounted (go [there; gone]).2.2.2 = [].
Proof. by vm_compute. Qed.
End ShardExample.
